(* ===== verification/_CoqProject ===== *)
-Q . S2P
Prelude.v
Containers.v
Encoding.v
Hub.v
Reference.v
Catalog.v
Stock.v
Movement.v
Work.v
Lineage.v
Split.v
Treatment.v
Opening.v
Handling.v
Dispatch.v
Departure.v
Custody.v
Papers.v
Disposition.v
Returns.v
Counts.v
Accounts.v
Attribution.v
Balance.v
Reports.v
Sources.v
Known.v
Reconcile.v
Identity.v
Profile.v
Snapshot.v
Session.v
Core.v
Changes.v
Delivery.v
Stream.v
Database.v
Secrets.v
Durable.v
Recovery.v
Removal.v
Actor.v
Refresh.v
Runtime.v
Serving.v
Authority.v
Settling.v
Query.v
Discovery.v
Views.v
Lookup.v
