(* ===== verification/Prelude.v ===== *)
(** * HarvestCircle, verified

    HarvestCircle coordinates local-food buying circles.  Its core is the pure
    domain crate [core/crates/harvestcircle_domain]; around it are an
    application layer, SQLite storage, a runtime with a foreign-function surface
    and a desktop user interface.  The domain's hub modules ([src/hub.rs] and
    [src/hub/]) decide what may happen to stock: every change is a command whose
    [plan] checks the current revisions, the reference catalog and the recorded
    history, and returns the new records or an error.  Adapters load the current
    records, run the plan and persist its result in one transaction.  The
    application crate keeps the identities of the user: a session state machine,
    a stream that hands its changes to consumers, and durable operations that
    add and remove saved keys across a database and a credential store that may
    fail at any call.  This library models those parts from the source and
    proves what they promise.

    ** Parts and files: the hub

    - [Prelude]: [Result], [?] as [let?], methods on [&mut self] as state
      passing, folds that stop at an error, checked newtypes ([refined]),
      machine integers, and the automation ([run_ok], [ok_facts], [breflect],
      the rewrite databases [okdb] and [reflect]).
    - [Containers]: total orders as a class, stable [sort_by_key],
      [binary_search_by_key], [BTreeMap] and [BTreeSet] as ordered association
      lists.
    - [Encoding]: bytes, UTF-8 text, big-endian integers, and [PrefixCode], the
      class of self-delimiting encodings by which fingerprint messages are shown
      injective.  [Sha256] is a class: the digest comes from a crate outside the
      repository and only its length is used.
    - [Hub] ([hub.rs], [time.rs]): hub identity, revisions, ownership and
      handover.
    - [Reference], [Catalog] ([hub/reference.rs]): checked values, record
      identifiers and their hexadecimal form, pack quantities; the reference
      catalog, mutated in place by [create] and [revise].
    - [Stock] ([hub/stock.rs]): occurrences, the quantity account, receipts.
    - [Movement] ([hub/movement.rs], [movement/partition.rs]): physical groups,
      partition, observation floors and movements that credit work.
    - [Work] ([movement/work.rs], [movement/requirements.rs],
      [movement/command.rs]): replanning, new work, discrepancies.
    - [Lineage], [Split] ([hub/portions/]): the ancestry of groups, captured
      scopes and their resolution, the split of an identified portion.
    - [Treatment] ([hub/treatment.rs] and [hub/treatment/]): acceptance
      decisions, birth reviews and holds over captured scopes, their projection
      and the treatment commands.
    - [Opening] ([hub/stock/opening.rs]): counted opening stock.
    - [Handling] ([movement/command.rs], [hub/movement.rs]): the sum of the
      handling commands, with its identities and fingerprint.
    - [Dispatch] ([hub/dispatch.rs], [dispatch/model.rs],
      [dispatch/command.rs]): previews captured from current stock, numbered
      paper identifications and their lifecycle.
    - [Departure] ([hub/departure.rs], [departure/model.rs],
      [departure/command.rs]): the exit of exactly the groups a paper in force
      identifies, and the work it retires.
    - [Custody], [Papers] ([hub/custody_result.rs], [dispatch/result.rs],
      [departure/result.rs]): the archival digests of printed papers and
      departures, with the class [SealedCode] of encodings that contain digests
      of nested messages.
    - [Disposition] ([hub/disposition.rs], [disposition/result.rs]): the removal
      of a whole group outside a departure.
    - [Returns] ([hub/returns.rs] and [hub/returns/]): packs coming back, the
      claim that links them to a departure line, allowances and seals.
    - [Counts] ([hub/counts.rs] and [hub/counts/]): count observations, their
      review, posting, and the stock of a surplus.
    - [Accounts], [Balance] ([hub/corrections.rs]): the quantity accounts of
      amended departures and explained shortages, and the balance of a trace
      computed from them.
    - [Attribution] ([corrections/attribution.rs] and its folder): amendments of
      the recipient and of the batch of a departure, and their histories.
    - [Reports], [Sources] ([hub/actuals.rs], [actuals/review.rs],
      [actuals/source.rs]): reports of departures already taken, the hold timing
      verdict, the review comparison, and the historical source of such a
      departure.
    - [Known], [Reconcile] ([actuals/interpretation.rs],
      [actuals/reconcile.rs], [actuals/count_source.rs]): the facts known of a
      reported departure and the reconciliation that turns it into a recorded
      one.

    ** Parts and files: the application

    - [Identity] ([error.rs], [key.rs], [identity.rs] of the domain): safe
      errors, public keys, npub text, signer bindings, saved identities.
      [NostrKeys], the key encodings of a crate outside the repository, is a
      class.
    - [Profile] ([profile.rs]): public profiles and the one that wins when
      several relays answer.
    - [Snapshot] ([snapshot.rs], [config.rs]): the application snapshot, its
      validity and the order in which snapshots supersede each other.
    - [Session] ([state_machine.rs]): the transitions of the application state.
    - [Core] ([app_core.rs]): the state machine behind its lock, with sign-out
      and removal tokens.
    - [Changes], [Delivery], [Stream] ([change_stream.rs]): the queue and the
      latest-change cell of one consumer, what interleaved publishers and
      consumers can rely on, and the stream of all consumers.  Channels are a
      class with the behaviour their documentation gives.
    - [Database] ([identities.rs], [profiles.rs], [journal.rs] of the storage
      crate): saved identities, the selection, cached profiles and the journal
      of operations, as the transactions of one state.
    - [Secrets] ([secrets.rs], [os_keyring.rs]): credential stores as a class
      with its laws, discharged by the store in memory and the keyring adapter.
    - [Durable] ([identities.rs], [session.rs], [custody.rs], [app_core.rs],
      [recovery.rs]): the operations that add, remove, select and activate
      identities, and the recovery of interrupted ones.
    - [Recovery], [Removal]: what those operations promise.
    - [Actor] ([actor.rs], [custody.rs]): the lifecycle gate, command contexts
      and the mailbox that admits commands, and the stage of a generated key.
    - [Refresh] ([profile_refresh.rs]): the plan and the completion of a profile
      refresh; a calculus of what a run over the ports does to the core.
    - [Runtime] ([runtime_actor.rs] of the runtime crate,
      [hub/submission/session.rs] of the storage crate): the loop that owns the
      state of the application, one event at a time, and the durable fence of
      the sessions in which hub submissions may act.
    - [Serving], [Authority], [Settling]: what that loop promises.
    - [Query] ([availability/identity.rs], [availability/query.rs] of the domain,
      [availability_query.rs]): references to public listings, the values of a
      local query, its digest, cursors and pages.
    - [Views] ([availability/projection.rs]): views of verified versions and of
      the selected head.  [NostrReferences] and [NostrEvents] are the event
      crates outside the repository.
    - [Discovery] ([availability_outcomes.rs]): requests to discover
      availability, their outcomes and the metadata printed of them.
    - [Lookup] ([availability_ports.rs]): reads and refreshes over ports whose
      answers are arbitrary.

    ** How the model corresponds to the code

    A struct is a record with prefixed fields, an enumeration an inductive type
    in a module of its name, a method [T::m] a definition [T_m].  A newtype with
    a private field is the [refined] carrier of the check its constructor makes,
    so every value of it satisfies the check, as in the source.  A loop body
    that can fail is a definition of its own, folded with [try_fold], [try_map]
    or [try_for_each]; where the source evaluates a fallible call inside a chain
    of [||] the chain is cut at that point, so the reported error is the same.
    The bytes fed to a digest are the [..._message] definitions; the
    fingerprint is the digest of the message.  Rust's iteration orders are kept:
    sorting is stable, maps iterate in key order.

    An operation on ports is a run in the monad [io] of [Durable]: a state, and
    a result, a raised error, or the mark that the run was dropped.  The fate of
    every port call is given in advance by a list of [Fault]s: [Works],
    [NotCommitted], [OutcomeUnknown] (the call took place or not, and the caller
    learns only that it failed) and [Cut] (the call took place or not, and the
    run is dropped).  [restart] keeps what is durable and starts the core anew.
    Theorems quantify over all such lists.

    The actor is a state and [turn] its reaction to one event: a command taken
    from the mailbox, or the completion of a task.  Reply channels are numbers
    and [ra_replies] records what was sent; the instants the loop reads come with
    the event.  A deadline that passes inside a run is the fault [Cut]; one that
    passes around it is compared as in the source.  Between two turns nothing
    else changes the state: the loop handles one event at a time.  A lock of the
    actor is never poisoned, as its holders do not panic.

    ** What the theorems show

    - Ownership: [transfer] is specified on every input, and no handover can be
      replayed.
    - Identifiers and the catalog: hexadecimal round trip ([hex_roundtrip]),
      atomic commands ([apply_atomic]), what histories preserve
      ([catalog_history]).
    - Stock and work: each plan is accepted exactly under a stated admission
      condition and has a stated effect, packs and work being conserved
      ([movement_correct], [replan_correct], [new_work_correct],
      [split_correct], [opening_correct]).
    - Lineage: construction accepts exactly the well-formed forests, the
      membership walk terminates and decides an inductive ancestry relation,
      scope resolution refines that relation ([resolve_union_correct]), and
      later splits conserve captured scopes ([split_conserves_scopes]).
    - Treatment: the projection is total on valid histories and refines the
      "latest covering record" and "unreleased covering hold" specification
      ([project_correct]); departure is allowed exactly for cleared groups
      ([departure_gate]).
    - Dispatch: capture is exact, one paper is in force at most
      ([single_identification]), and no history of commands rewrites a printed
      paper ([printed_papers_stand]).
    - Departure: an accepted departure consumes exactly the cleared groups of
      the unused paper in force ([departure_correct]), and retired work is
      accounted exactly ([retired_work_correct]).
    - Fingerprints: each command's message determines the command and its
      context (the [..._message_inj] theorems).
    - Disposition: accepted exactly for whole, current, undisputed groups the
      treatment permits, and read back from its record
      ([disposition_correct], [disposition_roundtrip]).
    - Returns: a link is established exactly when the records support it
      ([return_link_correct]), and however many returns are linked they never
      exceed what departed ([returns_bounded]).
    - Counts: a posting leaves the counted packs and accounts for all work
      ([count_post_correct]), and a count whose group was left alone can always
      be posted ([count_settles]).
    - Corrections: the quantity accounts are rebuilt exactly from their
      histories ([departure_account_correct]), a trace balances exactly when
      every original pack is on hand, disposed of, departed or an unexplained
      shortage ([trace_balance_correct]), and an amendment of the recipient
      extends its history ([recipient_amendment_extends]).
    - Actuals: a report is refused only when it contradicts itself
      ([report_preserve_correct]); a historical source is resolved only when the
      recorded activity leaves nothing open ([actual_source_correct]); the
      departure a reconciliation records is exactly the one reported, and no
      report is recorded twice ([new_departure_correct],
      [departure_recorded_once]); the inventory a count found is rebuilt exactly
      ([inventory_correct]).
    - Session: every transition is specified on every state
      ([session_apply_correct]), reachable snapshots are valid
      ([reachable_session_valid]), a failed activation restores the session
      ([failed_activation_restores]), a removal token is used at most once
      ([removal_token_once]), and the SQL of the profile cache
      keeps the profile the domain would choose ([profile_cache_latest]).
    - Stream: the inboxes refine whole exchanges ([stream_refines_exchanges]),
      deliveries are in order ([deliveries_in_order]), the last state is never
      lost ([tail_not_lost]), consumers that keep reading catch up
      ([consumers_catch_up]) and the stream drains ([stream_drains]).
    - Durable operations: the database is consistent after every transaction
      ([database_consistent]); imports and removals that may fail or be dropped
      at any call are atomic once a start completes ([import_atomic],
      [removal_atomic]).  One state is not repaired: an addition to be undone
      whose recorded selection is no longer saved blocks every later start
      ([lost_selection_blocks_starts]).
    - Runtime: from a start, for every sequence of commands and completions and
      whatever fails, each command is answered once ([commands_answered_once]),
      what is published is what the core shows and never goes back
      ([publication_settled]), and a hub submission acts only for the active
      identity in its session ([authority_fenced]).
    - Refreshes and deadlines: a completion is specified on every outcome and in
      every state of the session ([refresh_correct]); in an active session it ends
      the loading, and an answer that comes too late changes no profile
      ([refresh_settles]).  Three behaviours are recorded as they are: an
      activation that runs out of time blocks those that follow until the session
      is ended or replaced ([timed_out_activation_blocks]), the removal of one
      identity leaves the refresh of another without an end
      ([removal_strands_refresh]), and an expired stage is not replaced
      ([pending_stage_refuses_begin]).
    - Availability: a cursor is canonical and belongs to one request
      ([cursor_roundtrip]), a page continues its own request and no other
      ([continuation_correct]), a head shows the signed version that was
      selected ([head_correct]), reads are returned under the current scope
      ([reads_admitted]), a refresh is answered under its own request
      ([refresh_correlated]), and the metadata of an outcome fits
      ([metadata_bounded]).

    ** Fuel and bounds

    Recursion is structural on the data, except where the source bounds it
    itself.  The walk towards the root in [captured_member] runs at most one
    turn per node and the binary search halves its range, so the node count and
    the slice length are enough fuel ([captured_member_correct],
    [search_by_key]).  The receive loop of a consumer is bounded by the records
    it has not read, and [drain] by the total ([stream_drains]).  Integers of
    the source keep their width; an addition that the source checks is checked.

    ** What is not modelled

    Of corrections, the commands that record quantity and physical corrections
    ([hub/corrections/]) build on the accounts and histories modelled here; of
    actuals, the capture of hold scopes and the archival results; of the trace,
    its retrieval.  The archives of submissions, the serialization of hub records,
    the hub part of the storage adapters, the bindings, the
    relay client and the user interface are input and output around the parts
    above.  The derivation of keys, the bech32 text of an npub, the digest and
    the platform's key ring are code outside the repository: classes with the
    documented laws the code relies on, each with a concrete instance in the
    closed examples.  Of the runtime's
    actor, the commands of the hub are left out, which load records, run one of
    the plans above and persist its result; so are the handles that submit
    commands with a deadline, and the opening of the state directory. *)

From Stdlib Require Import Eqdep_dec Bool ZArith Lia Sorted Permutation.
From stdpp Require Import base decidable option list numbers.

#[global] Open Scope Z_scope.

(** ** Results

    [Result<A, E>] of the source.  [?] is [let?], [map_err] is explicit, the
    [From] conversions of the error enumerations are functions of the
    components that declare them. *)

Inductive result (A E : Type) : Type :=
| Ok (a : A)
| Err (e : E).
Arguments Ok {A E} a.
Arguments Err {A E} e.

#[global] Instance result_eq_dec {A E} `{EqDecision A} `{EqDecision E} :
  EqDecision (result A E).
Proof. solve_decision. Defined.

Definition bind {A B E} (m : result A E) (k : A -> result B E) : result B E :=
  match m with Ok a => k a | Err e => Err e end.

Definition map_err {A E F} (f : E -> F) (m : result A E) : result A F :=
  match m with Ok a => Ok a | Err e => Err (f e) end.

Definition ok_or {A E} (o : option A) (e : E) : result A E :=
  match o with Some a => Ok a | None => Err e end.

(** [Option<Result<A, E>>::transpose] after [map]. *)
Definition transpose_map {A B E} (f : A -> result B E) (o : option A)
  : result (option B) E :=
  match o with
  | None => Ok None
  | Some a => match f a with Ok b => Ok (Some b) | Err e => Err e end
  end.

Declare Scope hub_scope.
Delimit Scope hub_scope with hub.
#[global] Open Scope hub_scope.

Notation "'let?' x ':=' m 'in' k" := (bind m (fun x => k))
  (at level 10, x pattern, m at level 100, k at level 200) : hub_scope.
Notation "m ';;?' k" := (bind m (fun _ => k))
  (at level 199, right associativity) : hub_scope.
Notation "a ==? b" := (bool_decide (a = b)) (at level 70, no associativity) : hub_scope.
Notation "a !=? b" := (negb (bool_decide (a = b))) (at level 70, no associativity) : hub_scope.
Notation "a >? b" := (Z.ltb b a) (at level 70, no associativity) : hub_scope.
Notation "a >=? b" := (Z.leb b a) (at level 70, no associativity) : hub_scope.

(** [Option::is_some_and] and [Option::is_none_or]. *)
Definition is_some_and {A} (o : option A) (p : A -> bool) : bool :=
  match o with Some a => p a | None => false end.
Definition is_none_or {A} (o : option A) (p : A -> bool) : bool :=
  match o with Some a => p a | None => true end.
Definition is_some {A} (o : option A) : bool :=
  match o with Some _ => true | None => false end.
Definition is_none {A} (o : option A) : bool := negb (is_some o).

Definition is_ok {A E} (r : result A E) : bool := match r with Ok _ => true | Err _ => false end.
Lemma is_ok_Ok {A E} (r : result A E) : is_ok r = true -> exists a, r = Ok a.
Proof. destruct r; [by eexists|done]. Qed.
Definition unwrap_or {A E} (r : result A E) (otherwise : A) : A :=
  match r with Ok a => a | Err _ => otherwise end.
Lemma is_ok_unwrap_or {A E} (r : result A E) (otherwise : A) :
  is_ok r = true -> r = Ok (unwrap_or r otherwise).
Proof. by destruct r. Qed.

(** ** Methods on [&mut self]

    A method that mutates its receiver returns the receiver as it left it, also
    when it fails: nothing is rolled back by the language. *)

Definition stm (S E A : Type) : Type := S -> S * result A E.
Definition stm_ret {S E A} (a : A) : stm S E A := fun s => (s, Ok a).
Definition stm_bind {S E A B} (m : stm S E A) (k : A -> stm S E B) : stm S E B :=
  fun s => match m s with
           | (s, Ok a) => k a s
           | (s, Err e) => (s, Err e)
           end.
Definition stm_get {S E} : stm S E S := fun s => (s, Ok s).
Definition stm_put {S E} (s : S) : stm S E unit := fun _ => (s, Ok tt).
Definition stm_lift {S E A} (m : result A E) : stm S E A := fun s => (s, m).

Notation "'do!' x <- m ; k" := (stm_bind m (fun x => k))
  (at level 10, x pattern, m at level 100, k at level 200) : hub_scope.

(** ** Iterator folds that stop at the first error *)

Fixpoint try_fold {A B E} (f : B -> A -> result B E) (acc : B) (l : list A)
  : result B E :=
  match l with
  | [] => Ok acc
  | a :: l => let? acc := f acc a in try_fold f acc l
  end.

Fixpoint try_map {A B E} (f : A -> result B E) (l : list A) : result (list B) E :=
  match l with
  | [] => Ok []
  | a :: l => let? b := f a in let? bs := try_map f l in Ok (b :: bs)
  end.

Fixpoint try_for_each {A E} (f : A -> result unit E) (l : list A) : result unit E :=
  match l with
  | [] => Ok tt
  | a :: l => f a ;;? try_for_each f l
  end.

(** [slice.windows(2).any(|pair| f(pair[0], pair[1]))]. *)
Fixpoint windows2_any {A} (f : A -> A -> bool) (l : list A) : bool :=
  match l with
  | [] => false
  | a :: l' => match l' with [] => false | b :: _ => f a b || windows2_any f l' end
  end.

(** ** Checked values

    A Rust newtype with a private field and a checking constructor is a
    [refined] carrier: the raw value with the boolean check it passed.  The
    proof field is irrelevant, so equality is equality of raw values. *)

Record refined {A : Type} (check : A -> bool) : Type := Refined {
  raw : A;
  raw_ok : check raw = true
}.
Arguments Refined {A check} raw raw_ok.
Arguments raw {A check} _.
Arguments raw_ok {A check} _.

Lemma refined_eq {A} {check : A -> bool} (x y : refined check) : raw x = raw y -> x = y.
Proof.
  destruct x as [x p], y as [y q]; simpl; intros ->.
  f_equal. apply UIP_dec, bool_dec.
Qed.

Lemma raw_elim {A} {check : A -> bool} (P : A -> Prop) (x : refined check) :
  (forall a, check a = true -> P a) -> P (raw x).
Proof. intros H. apply H, raw_ok. Qed.

#[global] Instance refined_eq_dec {A} `{EqDecision A} (check : A -> bool) :
  EqDecision (refined check).
Proof.
  intros x y. destruct (decide (raw x = raw y)) as [H|H].
  - left. exact (refined_eq x y H).
  - right. intros ->. exact (H eq_refl).
Defined.

Definition check_value {A} (check : A -> bool) (a : A) : option (refined check) :=
  match check a as b return check a = b -> option (refined check) with
  | true => fun H => Some (Refined a H)
  | false => fun _ => None
  end eq_refl.

Lemma check_value_Some {A} (check : A -> bool) a x :
  check_value check a = Some x <-> raw x = a.
Proof.
  unfold check_value.
  set (r := fun H : check a = true => Some (Refined a H)).
  enough (forall b (E : check a = b),
    (match b as b' return check a = b' -> option (refined check) with
     | true => r | false => fun _ => None end) E = Some x <-> raw x = a) as H by apply H.
  intros [] E; unfold r; split; intros H.
  - injection H as <-. reflexivity.
  - f_equal. apply refined_eq. simpl. congruence.
  - discriminate.
  - subst a. rewrite (raw_ok x) in E. discriminate.
Qed.

Lemma check_value_raw {A} (check : A -> bool) (x : refined check) :
  check_value check (raw x) = Some x.
Proof. by apply check_value_Some. Qed.

Lemma check_value_None {A} (check : A -> bool) a :
  check_value check a = None <-> check a = false.
Proof.
  destruct (check_value check a) as [x|] eqn:E.
  - apply check_value_Some in E as <-. rewrite (raw_ok x). split; discriminate.
  - split; [intros _|done]. destruct (check a) eqn:F; [|done].
    assert (check_value check a = Some (Refined a F)) by by apply check_value_Some.
    congruence.
Qed.

(** The constructor of a checked value: the source's guard is [negb check]. *)
Definition checked {A E} (check : A -> bool) (e : E) (a : A) : result (refined check) E :=
  ok_or (check_value check a) e.

Lemma checked_Ok {A E} (check : A -> bool) (e : E) a x :
  checked check e a = Ok x <-> raw x = a.
Proof.
  unfold checked. rewrite <- check_value_Some.
  destruct (check_value check a); simpl; split; congruence.
Qed.

Lemma checked_Err {A E} (check : A -> bool) (e e' : E) a :
  checked check e a = Err e' <-> check a = false /\ e' = e.
Proof.
  unfold checked. rewrite <- check_value_None.
  destruct (check_value check a); simpl; split; [discriminate|intros []; discriminate|..].
  - intros [= ->]; done.
  - intros [_ ->]; done.
Qed.

Lemma checked_raw {A E} (check : A -> bool) (e : E) (x : refined check) :
  checked check e (raw x) = Ok x.
Proof. by apply checked_Ok. Qed.

(** ** Machine integers

    A [u32], [u64] or [i64] is a [Z] in the range of its type; the operations
    of the source are written with their width. *)

Definition u32_range (v : Z) : bool := (0 <=? v) && (v <? 2 ^ 32).
Definition u64_range (v : Z) : bool := (0 <=? v) && (v <? 2 ^ 64).
Definition i64_range (v : Z) : bool := (- 2 ^ 63 <=? v) && (v <? 2 ^ 63).
Definition i64_MAX : Z := 2 ^ 63 - 1.

(** [a + b] on [u64]: the sum modulo the width (a debug build panics where the
    sum does not fit; the components prove that it fits where they add). *)
Definition u64_add (a b : Z) : Z := (a + b) mod 2 ^ 64.
Definition u32_checked_add (a b : Z) : option Z :=
  if a + b <? 2 ^ 32 then Some (a + b) else None.
Definition u32_checked_sub (a b : Z) : option Z :=
  if b <=? a then Some (a - b) else None.
Definition u32_saturating_sub (a b : Z) : Z := Z.max 0 (a - b).
Definition u64_checked_add (a b : Z) : option Z :=
  if a + b <? 2 ^ 64 then Some (a + b) else None.
Definition u64_checked_sub (a b : Z) : option Z :=
  if b <=? a then Some (a - b) else None.

(** ** Automation *)

Create HintDb hub.
Create Rewrite HintDb reflect.
Create Rewrite HintDb okdb.

#[export] Hint Rewrite orb_true_iff orb_false_iff andb_true_iff andb_false_iff
  negb_true_iff negb_false_iff Z.ltb_lt Z.ltb_ge Z.leb_le Z.leb_gt Z.eqb_eq Z.eqb_neq
  Nat.ltb_lt Nat.ltb_ge Nat.leb_le Nat.leb_gt Nat.eqb_eq Nat.eqb_neq
  @bool_decide_eq_true @bool_decide_eq_false : reflect.

(** Turn the boolean conditions of the code into propositions. *)
Ltac breflect :=
  repeat match goal with
  | H : context [_ = true] |- _ => progress (autorewrite with reflect in H)
  | H : context [_ = false] |- _ => progress (autorewrite with reflect in H)
  end; autorewrite with reflect; destruct_and?.

(** Follow the success path of a result computation. *)
Ltac step_ok H :=
  repeat first
    [ match type of H with
      | bind ?m _ = _ => let E := fresh "E" in
          destruct m eqn:E; cbn [bind] in H; [|discriminate H]
      | map_err _ ?m = _ => let E := fresh "E" in
          destruct m eqn:E; cbn [map_err] in H; [|discriminate H]
      | ok_or ?m _ = _ => let E := fresh "E" in
          destruct m eqn:E; cbn [ok_or] in H; [|discriminate H]
      | (if ?b then _ else _) = _ => let E := fresh "E" in
          destruct b eqn:E; try discriminate H
      | (match ?x with _ => _ end) = _ => let E := fresh "E" in
          destruct x eqn:E; try discriminate H
      end ].

Ltac inv_ok H := step_ok H; try (injection H as <-); simplify_eq/=.

(** ** Lemmas on the fold combinators *)

Lemma bind_Ok {A B E} (m : result A E) (k : A -> result B E) b :
  bind m k = Ok b <-> exists a, m = Ok a /\ k a = Ok b.
Proof. destruct m; simpl; split; [eauto|by intros (? & [= ->] & ?)|done|by intros (? & ? & _)]. Qed.

Lemma seq_Ok {B E} (m : result unit E) (k : result B E) b :
  (m ;;? k) = Ok b <-> m = Ok tt /\ k = Ok b.
Proof. destruct m as [[]|]; simpl; naive_solver. Qed.

Lemma guard_Ok {A E} (b : bool) (e : E) (k : result A E) a :
  (if b then Err e else k) = Ok a <-> b = false /\ k = Ok a.
Proof. destruct b; naive_solver. Qed.

Lemma Ok_inj {A E} (a b : A) : @Ok A E a = Ok b -> a = b.
Proof. by intros [=]. Qed.

Lemma map_err_Ok {A E F} (f : E -> F) (m : result A E) a :
  map_err f m = Ok a <-> m = Ok a.
Proof. destruct m; simpl; split; congruence. Qed.

Lemma ok_or_Ok {A E} (o : option A) (e : E) a : ok_or o e = Ok a <-> o = Some a.
Proof. destruct o; simpl; split; congruence. Qed.

Lemma transpose_map_Ok {A B E} (f : A -> result B E) o r :
  transpose_map f o = Ok r <->
  match o with
  | None => r = None
  | Some a => exists b, f a = Ok b /\ r = Some b
  end.
Proof.
  destruct o as [a|]; simpl; [destruct (f a)|]; split; intros H; simplify_eq; eauto;
    destruct H as (? & ? & ?); congruence.
Qed.

Lemma try_for_each_Ok {A E} (f : A -> result unit E) l :
  try_for_each f l = Ok tt <-> Forall (fun a => f a = Ok tt) l.
Proof.
  induction l as [|a l IH]; simpl; [by split|].
  rewrite Forall_cons_iff, bind_Ok. setoid_rewrite IH. split.
  - intros ([] & ? & ?); done.
  - intros [? ?]; by exists tt.
Qed.

Lemma try_map_Ok {A B E} (f : A -> result B E) l bs :
  try_map f l = Ok bs <-> Forall2 (fun a b => f a = Ok b) l bs.
Proof.
  revert bs. induction l as [|a l IH]; intros bs; simpl.
  - split; [intros [= <-]; constructor | by intros ->%Forall2_nil_inv_l].
  - rewrite bind_Ok. setoid_rewrite bind_Ok. setoid_rewrite IH. split.
    + intros (b & ? & bs' & ? & [= <-]). by constructor.
    + intros (b & bs' & ? & ? & ->)%Forall2_cons_inv_l. eauto 6.
Qed.

(** Follow every success path in the context to its end, then use what each
    component's success means (the rewrite database [okdb]). *)
Ltac run_ok :=
  repeat match goal with
  | u : unit |- _ => destruct u
  | H : bind _ _ = Ok _ |- _ => apply bind_Ok in H as (? & ? & H)
  | H : map_err _ _ = Ok _ |- _ => apply map_err_Ok in H
  | H : ok_or _ _ = Ok _ |- _ => apply ok_or_Ok in H
  | H : Err _ = Ok _ |- _ => discriminate H
  | H : Ok ?a = Ok ?b |- _ => apply Ok_inj in H; try (subst a || subst b)
  | H : (if ?b then _ else _) = Ok _ |- _ =>
      let E := fresh "E" in destruct b eqn:E; try discriminate H
  | H : (match ?x with _ => _ end) = Ok _ |- _ =>
      let E := fresh "E" in destruct x eqn:E; try discriminate H
  end.
Ltac ok_facts := run_ok; autorewrite with okdb in *; breflect.

(** The first guard of the goal, decided either way. *)
Ltac split_guard H :=
  match goal with |- context [if ?b then _ else _] => destruct b eqn:H end.

(** ** Adjacent pairs and sortedness *)

Lemma windows2_any_false {A} (f : A -> A -> bool) l :
  windows2_any f l = false <-> Sorted (fun a b => f a b = false) l.
Proof.
  induction l as [|a l IH]; simpl; [split; [constructor|done]|].
  destruct l as [|b l]; [split; [repeat constructor|done]|].
  rewrite orb_false_iff, IH. split.
  - intros [? ?]. constructor; [done|]. by constructor.
  - intros [? Hd]%Sorted_inv. by inversion_clear Hd.
Qed.

(** ** Histories

    A loop that folds a history into its state and stops at the first bad entry
    accepts exactly the histories in which every entry is good after the entries
    before it. *)

Definition each_after {A} (P : list A -> A -> Prop) (l : list A) : Prop :=
  forall before a after, l = before ++ a :: after -> P before a.

Lemma each_after_nil {A} (P : list A -> A -> Prop) : each_after P [].
Proof. by intros [|] ? ?. Qed.

Lemma each_after_snoc {A} (P : list A -> A -> Prop) l a :
  each_after P (l ++ [a]) <-> each_after P l /\ P l a.
Proof.
  split.
  - intros H. split; [|by apply (H l a [])]. intros l1 b l2 ->. apply (H l1 b (l2 ++ [a])).
    by rewrite <- app_assoc.
  - intros [H Ha] l1 b l2 E. destruct l2 as [|c l2 _] using rev_ind.
    + apply app_inj_tail in E as [-> ->]. done.
    + rewrite app_comm_cons, app_assoc in E. apply app_inj_tail in E as [-> ->]. by apply (H l1 b l2).
Qed.

Lemma each_after_and {A} (P Q : list A -> A -> Prop) l :
  each_after (fun seen a => P seen a /\ Q seen a) l <-> each_after P l /\ each_after Q l.
Proof.
  split.
  - intros H. split; intros l1 a l2 E; by destruct (H l1 a l2 E).
  - intros [H1 H2] l1 a l2 E. split; [by eapply H1|by eapply H2].
Qed.

Lemma each_after_impl {A} (P Q : list A -> A -> Prop) l :
  (forall seen a, P seen a -> Q seen a) -> each_after P l -> each_after Q l.
Proof. intros H1 H2 l1 a l2 E. by eapply H1, H2. Qed.

Lemma each_after_Forall {A} (P : A -> Prop) (l : list A) :
  each_after (fun _ a => P a) l <-> Forall P l.
Proof.
  rewrite list.Forall_forall. split.
  - intros H a (l1 & l2 & ->)%list_elem_of_split. by apply (H l1 a l2).
  - intros H l1 a l2 ->. apply H. rewrite elem_of_app, elem_of_cons; auto.
Qed.

Lemma each_after_fmap {A B} (f : A -> B) (P : list B -> B -> Prop) (l : list A) :
  each_after P (f <$> l) <-> each_after (fun seen a => P (f <$> seen) (f a)) l.
Proof.
  induction l as [|a l IH] using rev_ind; [split; intros _; apply each_after_nil|].
  rewrite fmap_app. simpl. by rewrite !each_after_snoc, IH.
Qed.

Lemma each_after_NoDup {A B} (f : A -> B) (l : list A) :
  each_after (fun seen a => f a ∉ f <$> seen) l <-> NoDup (f <$> l).
Proof.
  induction l as [|a l IH] using rev_ind.
  { split; [intros _; constructor|intros _; apply each_after_nil]. }
  rewrite each_after_snoc, IH, fmap_app, list.NoDup_app. simpl. split.
  - intros [? ?]. split_and!; [done| |apply NoDup_singleton].
    intros x Hx ->%list_elem_of_singleton. done.
  - intros (? & Hx & _). split; [done|]. intros Ha. eapply Hx; [done|by left].
Qed.

Lemma try_fold_app {A S E} (f : S -> A -> result S E) st l k :
  try_fold f st (l ++ k) = let? st := try_fold f st l in try_fold f st k.
Proof. revert st. induction l as [|a l IH]; intros st; simpl; [done|]. destruct (f st a); simpl; auto. Qed.

Lemma try_fold_fmap {A B C E} (f : B -> A -> result B E) (g : C -> A) b l :
  try_fold f b (g <$> l) = try_fold (fun b c => f b (g c)) b l.
Proof.
  revert b. induction l as [|a l IH]; intros b; csimpl; [done|].
  destruct (f b (g a)); simpl; [apply IH|done].
Qed.

Lemma try_fold_each_after {A S E} (f : S -> A -> result S E) (R : S -> list A -> Prop)
    (P : list A -> A -> Prop) st0 l :
  (forall st seen a, R st seen ->
    match f st a with Ok st' => P seen a /\ R st' (seen ++ [a]) | Err _ => ~ P seen a end) ->
  R st0 [] ->
  match try_fold f st0 l with
  | Ok st => each_after P l /\ R st l
  | Err _ => ~ each_after P l
  end.
Proof.
  intros Hf H0. induction l as [|a l IH] using rev_ind; [split; [apply each_after_nil|done]|].
  rewrite try_fold_app. destruct (try_fold f st0 l) as [st|e]; cbn [bind].
  - destruct IH as [Hl HR]. specialize (Hf st l a HR). simpl. destruct (f st a) as [st'|e]; cbn [bind].
    + rewrite each_after_snoc. naive_solver.
    + rewrite each_after_snoc. naive_solver.
  - rewrite each_after_snoc. naive_solver.
Qed.
