(* ===== verification/Containers.v ===== *)
(** * Ordered keys, stable sorting and [BTreeMap]

    The source orders records by the bytes of their identifiers and keeps them
    in [BTreeMap]s, [BTreeSet]s and sorted vectors.  This file gives the total
    orders as a class, the stable [sort_by_key], [slice::binary_search_by_key],
    and an ordered association list for [BTreeMap] with its iteration order. *)

From Stdlib Require Import Bool ZArith Lia Sorted Permutation.
From stdpp Require Import base decidable option list numbers sets.
From S2P Require Import Prelude.

(** ** Total orders *)

Class TotalOrd (K : Type) := {
  kcompare : K -> K -> comparison;
  kcompare_eq a b : kcompare a b = Eq <-> a = b;
  kcompare_antisym a b : kcompare b a = CompOpp (kcompare a b);
  kcompare_trans a b c : kcompare a b = Lt -> kcompare b c = Lt -> kcompare a c = Lt
}.

Section Ord.
Context {K : Type} `{TotalOrd K}.

Definition klt (a b : K) : Prop := kcompare a b = Lt.
Definition kle (a b : K) : Prop := kcompare a b <> Gt.
Definition kltb (a b : K) : bool := match kcompare a b with Lt => true | _ => false end.
Definition kleb (a b : K) : bool := match kcompare a b with Gt => false | _ => true end.

Lemma kltb_spec a b : kltb a b = true <-> klt a b.
Proof. unfold kltb, klt. destruct (kcompare a b); split; congruence. Qed.
Lemma kleb_spec a b : kleb a b = true <-> kle a b.
Proof. unfold kleb, kle. destruct (kcompare a b); split; congruence. Qed.
Lemma kcompare_refl a : kcompare a a = Eq.
Proof. by apply kcompare_eq. Qed.
Lemma klt_irrefl a : ~ klt a a.
Proof. unfold klt. rewrite kcompare_refl. discriminate. Qed.
Lemma klt_trans a b c : klt a b -> klt b c -> klt a c.
Proof. apply kcompare_trans. Qed.
Lemma klt_neq a b : klt a b -> a <> b.
Proof. intros ? ->. by eapply klt_irrefl. Qed.
Lemma klt_asym a b : klt a b -> ~ klt b a.
Proof. unfold klt. intros E. rewrite (kcompare_antisym a b), E. discriminate. Qed.
Lemma kle_lt_eq a b : kle a b <-> klt a b \/ a = b.
Proof.
  unfold kle, klt. rewrite <- kcompare_eq. destruct (kcompare a b); intuition (discriminate || auto).
Qed.
Lemma kcompare_gt a b : kcompare a b = Gt <-> klt b a.
Proof.
  unfold klt. rewrite (kcompare_antisym a b). destruct (kcompare a b); simpl; split; congruence.
Qed.
Lemma kle_trans a b c : kle a b -> kle b c -> kle a c.
Proof.
  rewrite !kle_lt_eq. intros [?| ->] [?| ->]; eauto using klt_trans.
Qed.
Lemma kle_total a b : kle a b \/ kle b a.
Proof.
  unfold kle. rewrite (kcompare_antisym a b). destruct (kcompare a b); simpl; auto.
Qed.
Lemma klt_le_neq a b : klt a b <-> kle a b /\ a <> b.
Proof.
  rewrite kle_lt_eq. split; [eauto using klt_neq|]. intros [[?| ->] ?]; done.
Qed.
#[global] Instance kle_Transitive : Transitive kle.
Proof. intros a b c. apply kle_trans. Qed.
#[global] Instance klt_Transitive : Transitive klt.
Proof. intros a b c. apply klt_trans. Qed.
End Ord.

#[global] Program Instance Z_TotalOrd : TotalOrd Z := {| kcompare := Z.compare |}.
Next Obligation. apply Z.compare_eq_iff. Qed.
Next Obligation. apply Z.compare_antisym. Qed.
Next Obligation. simpl. intros a b c. rewrite !Z.compare_lt_iff. lia. Qed.

(** Lexicographic order of a pair, as Rust orders tuples. *)
Definition prod_compare {A B} `{TotalOrd A, TotalOrd B} (p q : A * B) : comparison :=
  match kcompare p.1 q.1 with Eq => kcompare p.2 q.2 | Lt => Lt | Gt => Gt end.

#[global] Program Instance prod_TotalOrd {A B} `{TotalOrd A, TotalOrd B} : TotalOrd (A * B) :=
  {| kcompare := prod_compare |}.
Next Obligation.
  intros A B ? ? [a b] [c d]; unfold prod_compare; simpl.
  pose proof (kcompare_eq a c) as Ha. destruct (kcompare a c).
  - rewrite kcompare_eq. destruct Ha as [Ha _]. specialize (Ha eq_refl). split; congruence.
  - split; [discriminate|]. intros [= -> ->]. destruct Ha as [_ Ha]. discriminate (Ha eq_refl).
  - split; [discriminate|]. intros [= -> ->]. destruct Ha as [_ Ha]. discriminate (Ha eq_refl).
Qed.
Next Obligation.
  intros A B ? ? [a b] [c d]; unfold prod_compare; simpl. rewrite (kcompare_antisym a c), (kcompare_antisym b d).
  destruct (kcompare a c); reflexivity.
Qed.
Next Obligation.
  intros A B ? ? [a b] [c d] [e f]; unfold prod_compare; simpl.
  destruct (kcompare a c) eqn:E1; [apply kcompare_eq in E1 as ->| |discriminate].
  - destruct (kcompare c e) eqn:E2; [apply kcompare_trans|auto|discriminate].
  - intros _. destruct (kcompare c e) eqn:E2; [|intros _|discriminate].
    + apply kcompare_eq in E2 as ->. by rewrite E1.
    + by rewrite (kcompare_trans _ _ _ E1 E2).
Qed.

(** Lexicographic order of byte arrays, and its restriction to checked ones. *)
Fixpoint list_compare {A} `{TotalOrd A} (l k : list A) : comparison :=
  match l, k with
  | [], [] => Eq
  | [], _ => Lt
  | _, [] => Gt
  | a :: l, b :: k => match kcompare a b with Eq => list_compare l k | Lt => Lt | Gt => Gt end
  end.

#[global] Program Instance list_TotalOrd {A} `{TotalOrd A} : TotalOrd (list A) :=
  {| kcompare := list_compare |}.
Next Obligation.
  intros A ? l; induction l as [|a l IH]; intros [|b k]; simpl; try (split; congruence).
  pose proof (kcompare_eq a b) as Ha. destruct (kcompare a b).
  - rewrite IH. destruct Ha as [Ha _]. specialize (Ha eq_refl). split; congruence.
  - split; [discriminate|]. intros [= -> ->]. destruct Ha as [_ Ha]. discriminate (Ha eq_refl).
  - split; [discriminate|]. intros [= -> ->]. destruct Ha as [_ Ha]. discriminate (Ha eq_refl).
Qed.
Next Obligation.
  intros A ? l; induction l as [|a l IH]; intros [|b k]; simpl; try reflexivity.
  rewrite (kcompare_antisym a b), IH. destruct (kcompare a b); reflexivity.
Qed.
Next Obligation.
  intros A ? l; induction l as [|a l IH]; intros [|b k] [|c m]; simpl; try congruence.
  destruct (kcompare a b) eqn:E1; [apply kcompare_eq in E1 as ->| |discriminate].
  - destruct (kcompare b c) eqn:E2; [apply IH|auto|discriminate].
  - intros _. destruct (kcompare b c) eqn:E2; [|intros _|discriminate].
    + apply kcompare_eq in E2 as ->. by rewrite E1.
    + by rewrite (kcompare_trans _ _ _ E1 E2).
Qed.

#[global] Program Instance refined_TotalOrd {A} `{TotalOrd A} (check : A -> bool) :
  TotalOrd (refined check) := {| kcompare x y := kcompare (raw x) (raw y) |}.
Next Obligation.
  intros A ? check x y. simpl. rewrite kcompare_eq. split; [apply refined_eq|by intros ->].
Qed.
Next Obligation. intros. simpl. apply kcompare_antisym. Qed.
Next Obligation. intros A ? check x y z. simpl. apply kcompare_trans. Qed.

(** ** Stable sorting: [sort_by_key] *)

Section Sorting.
Context {A : Type} (le : A -> A -> bool).

Fixpoint sort_insert (a : A) (l : list A) : list A :=
  match l with
  | [] => [a]
  | b :: l' => if le a b then a :: l else b :: sort_insert a l'
  end.

Definition sort_by (l : list A) : list A := foldr sort_insert [] l.

Lemma sort_insert_perm a l : Permutation (a :: l) (sort_insert a l).
Proof.
  induction l as [|b l IH]; simpl; [done|]. destruct (le a b); [done|].
  etransitivity; [apply perm_swap|]. by apply perm_skip.
Qed.

Lemma sort_by_perm l : Permutation l (sort_by l).
Proof.
  induction l as [|a l IH]; simpl; [done|].
  etransitivity; [apply perm_skip, IH|]. apply sort_insert_perm.
Qed.

Lemma sort_by_length l : length (sort_by l) = length l.
Proof. symmetry. apply Permutation_length, sort_by_perm. Qed.

Context (R : A -> A -> Prop) (R_trans : forall a b c, R a b -> R b c -> R a c)
  (R_le : forall a b, le a b = true -> R a b)
  (R_gt : forall a b, le a b = false -> R b a).

Lemma sort_insert_sorted a l : StronglySorted R l -> StronglySorted R (sort_insert a l).
Proof.
  induction 1 as [|b l Hl IH Hb]; simpl; [repeat constructor|].
  destruct (le a b) eqn:E.
  - constructor; [by constructor|]. constructor; [by apply R_le|].
    eapply list.Forall_impl; [exact Hb|]. simpl. intros x Hx.
    eapply R_trans; [by apply R_le|done].
  - constructor; [done|]. eapply Permutation_Forall; [apply sort_insert_perm|].
    constructor; [by apply R_gt|done].
Qed.

Lemma sort_by_sorted l : StronglySorted R (sort_by l).
Proof. induction l; simpl; [constructor|]. by apply sort_insert_sorted. Qed.
End Sorting.

Section SortByKey.
Context {A K : Type} `{TotalOrd K} (key : A -> K).

Definition sort_by_key (l : list A) : list A :=
  sort_by (fun a b => kleb (key a) (key b)) l.

Lemma sort_by_key_perm l : Permutation l (sort_by_key l).
Proof. apply sort_by_perm. Qed.

Lemma sort_by_key_length l : length (sort_by_key l) = length l.
Proof. apply sort_by_length. Qed.

Lemma elem_of_sort_by_key x l : x ∈ sort_by_key l <-> x ∈ l.
Proof. by rewrite <- (sort_by_key_perm l). Qed.

Lemma sort_by_key_sorted l :
  StronglySorted (fun a b => kle (key a) (key b)) (sort_by_key l).
Proof.
  apply sort_by_sorted.
  - intros a b c. apply kle_trans.
  - intros a b. by rewrite kleb_spec.
  - intros a b E. destruct (kle_total (key a) (key b)) as [Hle|]; [|done].
    apply kleb_spec in Hle. congruence.
Qed.

(** Keys in strictly increasing order: the shape every sorted vector of the
    source has after its duplicate check. *)
Definition key_sorted (l : list A) : Prop :=
  StronglySorted (fun a b => klt (key a) (key b)) l.

Lemma key_sorted_cons a l :
  key_sorted (a :: l) <-> Forall (fun b => klt (key a) (key b)) l /\ key_sorted l.
Proof.
  unfold key_sorted. split; [by inversion_clear 1|]. intros [? ?]. by constructor.
Qed.

Lemma strict_of_sorted l :
  StronglySorted (fun a b => kle (key a) (key b)) l ->
  Sorted (fun a b => key a <> key b) l -> key_sorted l.
Proof.
  induction 1 as [|a l Hl IH Ha]; intros Hs; [constructor|].
  apply Sorted_inv in Hs as [Hs Hd]. specialize (IH Hs).
  apply key_sorted_cons. split; [|done].
  destruct l as [|b l]; [constructor|].
  inversion_clear Hd as [|? ? Hab]. inversion_clear Ha as [|? ? Hle Ha'].
  assert (klt (key a) (key b)) as Hlt by (by apply klt_le_neq).
  constructor; [done|]. apply key_sorted_cons in IH as [IH _].
  eapply list.Forall_impl; [exact IH|]. simpl. intros x. by apply klt_trans.
Qed.

(** [sort_by_key] followed by the adjacent-duplicate test of the source. *)
Lemma sort_by_key_strict `{EqDecision K} l :
  windows2_any (fun a b => key a ==? key b) (sort_by_key l) = false ->
  key_sorted (sort_by_key l).
Proof.
  rewrite windows2_any_false. intros Hs. apply strict_of_sorted; [apply sort_by_key_sorted|].
  eapply Sorted_LocallySorted_iff, Sorted_LocallySorted_iff. revert Hs.
  generalize (sort_by_key l). induction 1 as [|a l' Hs IH Hd]; constructor; [done|].
  inversion_clear Hd; constructor. by apply bool_decide_eq_false in H0.
Qed.

Lemma key_sorted_NoDup l : key_sorted l -> NoDup (key <$> l).
Proof.
  induction 1 as [|a l Hl IH Ha]; simpl; [constructor|]. constructor; [|done].
  intros (b & Hb & Hin)%list_elem_of_fmap. rewrite list.Forall_forall in Ha.
  specialize (Ha _ Hin). rewrite Hb in Ha. by eapply klt_irrefl.
Qed.

Lemma key_sorted_inj l a b : key_sorted l -> a ∈ l -> b ∈ l -> key a = key b -> a = b.
Proof.
  induction 1 as [|c l Hl IH Hc]; [by intros ?%not_elem_of_nil|].
  rewrite list.Forall_forall in Hc. rewrite !elem_of_cons.
  intros [->|Ha] [->|Hb] E; [done| | |eauto].
  - exfalso. specialize (Hc _ Hb). rewrite E in Hc. by eapply klt_irrefl.
  - exfalso. specialize (Hc _ Ha). rewrite E in Hc. by eapply klt_irrefl.
Qed.

Lemma key_sorted_lookup l i j a b :
  key_sorted l -> l !! i = Some a -> l !! j = Some b -> (i < j)%nat -> klt (key a) (key b).
Proof.
  intros Hs. revert i j. induction Hs as [|c l Hl IH Hc]; intros i j; [done|].
  destruct i as [|i], j as [|j]; simpl; try lia.
  - intros [= ->] Hj _. rewrite list.Forall_forall in Hc. apply Hc.
    apply list_elem_of_lookup. eauto.
  - intros Hi Hj ?. eapply IH; eauto. lia.
Qed.
End SortByKey.

Lemma key_sorted_unique {A K} `{TotalOrd K} (key : A -> K) l k :
  key_sorted key l -> key_sorted key k -> Permutation l k -> l = k.
Proof.
  intros Hl. revert k. induction Hl as [|a l Hl IH Ha]; intros k Hk Hp.
  - by apply Permutation_nil_l in Hp as ->.
  - destruct Hk as [|b k Hk Hb]; [by apply Permutation_nil_r in Hp|].
    rewrite list.Forall_forall in Ha, Hb.
    assert (a = b) as ->.
    { assert (a ∈ b :: k) as Hab by (rewrite <- Hp; by left).
      assert (b ∈ a :: l) as Hba by (rewrite Hp; by left).
      apply elem_of_cons in Hab as [?|Hab]; [done|]. apply elem_of_cons in Hba as [?|Hba]; [done|].
      apply Hb in Hab. apply Ha in Hba. by apply klt_asym in Hab. }
    f_equal. apply IH; [done|]. by eapply Permutation_cons_inv.
Qed.

(** The adjacent-duplicate test after the sort is exact. *)
Lemma sort_windows {A K} `{TotalOrd K} `{EqDecision K} (key : A -> K) l :
  windows2_any (fun a b => key a ==? key b) (sort_by_key key l) = false <->
  key_sorted key (sort_by_key key l).
Proof.
  split; [apply sort_by_key_strict|]. generalize (sort_by_key key l) as k. intros k Hk.
  apply windows2_any_false. apply StronglySorted_Sorted in Hk.
  induction Hk as [|a k Hk IH Hd]; constructor; [done|].
  destruct Hd; constructor. rewrite bool_decide_eq_false. by apply klt_neq.
Qed.

Lemma sort_by_key_NoDup {A K} `{TotalOrd K} (key : A -> K) l :
  NoDup (key <$> l) -> key_sorted key (sort_by_key key l).
Proof.
  rewrite (sort_by_key_perm key l) at 1. pose proof (sort_by_key_sorted key l) as Hs. revert Hs.
  generalize (sort_by_key key l) as k. induction 1 as [|a k Hk IH Ha]; csimpl; [constructor|].
  intros [Hn Hd]%NoDup_cons. constructor; [by apply IH|].
  rewrite list.Forall_forall in Ha |- *. intros b Hb. apply klt_le_neq. split; [by apply Ha|].
  intros E. apply Hn. rewrite E. by apply list_elem_of_fmap_2.
Qed.

Lemma sort_by_key_id {A K} `{TotalOrd K} (key : A -> K) l :
  key_sorted key l -> sort_by_key key l = l.
Proof.
  intros Hl. apply (key_sorted_unique key); [|done|symmetry; apply sort_by_key_perm].
  apply sort_by_key_NoDup. by apply key_sorted_NoDup.
Qed.

(** The strict-order test of the source on adjacent elements. *)
Lemma windows_strict {A K} `{TotalOrd K} (key : A -> K) l :
  windows2_any (fun a b => kleb (key b) (key a)) l = false <-> key_sorted key l.
Proof.
  assert (forall a b, kleb (key b) (key a) = false <-> klt (key a) (key b)) as Hb.
  { intros a b. rewrite <- not_true_iff_false, kleb_spec. unfold kle, klt.
    rewrite (kcompare_antisym (key a) (key b)). destruct (kcompare (key a) (key b)); simpl; naive_solver. }
  rewrite windows2_any_false. unfold key_sorted. split.
  - intros Hs. apply Sorted_StronglySorted; [intros x y z; apply klt_trans|].
    eapply Sorted_ind; [constructor| |exact Hs]. intros a k _ IH Hd.
    constructor; [done|]. destruct Hd; constructor. by apply Hb.
  - intros Hs%StronglySorted_Sorted. eapply Sorted_ind; [constructor| |exact Hs].
    intros a k _ IH Hd. constructor; [done|]. destruct Hd; constructor. by apply Hb.
Qed.

Lemma NoDup_snoc {A} (l : list A) a : NoDup (l ++ [a]) <-> NoDup l /\ a ∉ l.
Proof.
  rewrite NoDup_app. split.
  - intros (? & H & _). split; [done|]. intros Ha. eapply H; [done|by left].
  - intros [? ?]. split_and!; [done| |apply NoDup_singleton].
    intros x Hx ->%list_elem_of_singleton. done.
Qed.

Lemma NoDup_fmap_elem {A B} (f : A -> B) l a b :
  NoDup (f <$> l) -> a ∈ l -> b ∈ l -> f a = f b -> a = b.
Proof.
  intros Hn (i & Hi)%list_elem_of_lookup (j & Hj)%list_elem_of_lookup E.
  assert (i = j) as ->; [|congruence].
  eapply NoDup_lookup; [exact Hn|..]; rewrite list_lookup_fmap; [by rewrite Hi|].
  rewrite Hj. simpl. by rewrite E.
Qed.

(** ** [slice::binary_search_by]

    The loop of the standard library: [base] moves to [mid] unless the probe is
    greater; [size] shrinks by half until one candidate is left.  The fuel is
    the length of the slice, and [size] halves at every turn. *)

Section BinarySearch.
Context {A : Type} (f : A -> comparison).

Definition probe (l : list A) (i : nat) : comparison :=
  match l !! i with Some x => f x | None => Gt end.

Fixpoint binary_search_loop (l : list A) (fuel base size : nat) : nat :=
  match fuel with
  | O => base
  | S fuel =>
      if (size <=? 1)%nat then base
      else
        let half := (size / 2)%nat in
        let mid := (base + half)%nat in
        let base' := match probe l mid with Gt => base | _ => mid end in
        binary_search_loop l fuel base' (size - half)
  end.

Definition binary_search_by (l : list A) : result nat nat :=
  match l with
  | [] => Err 0%nat
  | _ =>
      let base := binary_search_loop l (length l) 0 (length l) in
      match probe l base with
      | Eq => Ok base
      | Lt => Err (S base)
      | Gt => Err base
      end
  end.
End BinarySearch.

Section BinarySearchKey.
Context {A K : Type} `{TotalOrd K} (key : A -> K) (k : K).
Let f (x : A) : comparison := kcompare (key x) k.

(** A matching index stays inside the window [base, base + size). *)
Lemma binary_search_loop_window l fuel base size i x :
  key_sorted key l -> l !! i = Some x -> key x = k ->
  (size <= fuel)%nat -> (base + size <= length l)%nat ->
  (base <= i < base + size)%nat -> binary_search_loop f l fuel base size = i.
Proof.
  intros Hs Hi Hk. revert base size.
  induction fuel as [|fuel IH]; intros base size Hf Hb Hw; cbn [binary_search_loop]; [lia|].
  destruct (Nat.leb_spec size 1) as [|Hsz]; [lia|].
  assert (2 * (size / 2) <= size /\ 0 < size / 2)%nat as [Hh1 Hh2].
  { split; [apply Nat.Div0.mul_div_le|]. apply Nat.div_str_pos; lia. }
  generalize dependent (size / 2)%nat. intros half Hh1 Hh2.
  unfold probe. destruct (l !! (base + half)%nat) as [y|] eqn:Ey;
    [|apply lookup_ge_None in Ey; lia].
  destruct (f y) eqn:E; unfold f in E.
  - apply kcompare_eq in E.
    assert (i = base + half)%nat as ->.
    { destruct (Nat.lt_trichotomy i (base + half)) as [Hlt|[?|Hlt]]; [|done|]; exfalso.
      - pose proof (key_sorted_lookup key _ _ _ _ _ Hs Hi Ey Hlt) as Hc.
        rewrite Hk, E in Hc. by apply klt_irrefl in Hc.
      - pose proof (key_sorted_lookup key _ _ _ _ _ Hs Ey Hi Hlt) as Hc.
        rewrite Hk, E in Hc. by apply klt_irrefl in Hc. }
    apply IH; lia.
  - apply IH; [lia|lia|]. split; [|lia]. apply Nat.le_ngt. intros ?.
    eapply klt_asym; [exact E|]. rewrite <- Hk. eapply key_sorted_lookup; eauto.
  - apply IH; [lia|lia|]. split; [lia|]. apply Nat.lt_nge. intros Hge.
    apply kcompare_gt in E. rewrite <- Hk in E.
    destruct (Nat.eq_dec i (base + half)%nat) as [->|].
    + rewrite Hi in Ey. injection Ey as ->. by eapply klt_irrefl.
    + eapply klt_asym; [exact E|]. eapply key_sorted_lookup; eauto. lia.
Qed.

Lemma binary_search_by_Ok l i :
  key_sorted key l ->
  binary_search_by f l = Ok i <-> exists x, l !! i = Some x /\ key x = k.
Proof.
  intros Hs. split.
  - unfold binary_search_by, probe. destruct l as [|a l]; [discriminate|].
    set (b := binary_search_loop _ _ _ _ _). intros Hb.
    destruct ((a :: l) !! b) as [x|] eqn:E; [|discriminate].
    destruct (f x) eqn:Ef; simplify_eq. exists x. split; [done|].
    by apply kcompare_eq.
  - intros (x & Hi & Hk). unfold binary_search_by.
    pose proof (lookup_lt_Some _ _ _ Hi) as Hlt.
    rewrite (binary_search_loop_window l _ _ _ i x) by (auto; lia).
    destruct l; [done|]. unfold probe. rewrite Hi.
    unfold f. rewrite Hk, kcompare_refl. done.
Qed.
End BinarySearchKey.

(** The lookup the source writes with a binary search, and the linear search it
    stands for. *)
Section SearchByKey.
Context {A K : Type} `{TotalOrd K} `{EqDecision K} (key : A -> K).

Definition search_by_key (l : list A) (k : K) : option A :=
  match binary_search_by (fun x => kcompare (key x) k) l with
  | Ok i => l !! i
  | Err _ => None
  end.

Lemma search_by_key_Some l k x :
  key_sorted key l -> search_by_key l k = Some x <-> x ∈ l /\ key x = k.
Proof.
  intros Hs. unfold search_by_key. split.
  - destruct (binary_search_by _ l) as [i|] eqn:E; [|discriminate].
    apply binary_search_by_Ok in E as (y & Hy & Hk); [|done]. rewrite Hy. intros [= ->].
    split; [apply list_elem_of_lookup; eauto|done].
  - intros [(i & Hi)%list_elem_of_lookup Hk].
    rewrite (proj2 (binary_search_by_Ok key k l i Hs)) by eauto. done.
Qed.

Lemma search_by_key_find l k :
  key_sorted key l -> search_by_key l k = List.find (fun x => key x ==? k) l.
Proof.
  intros Hs. destruct (List.find _ l) as [x|] eqn:E.
  - apply search_by_key_Some; [done|]. apply List.find_some in E as [Hin Hk].
    apply bool_decide_eq_true in Hk. split; [by apply list_elem_of_In|done].
  - destruct (search_by_key l k) as [x|] eqn:F; [|done].
    apply search_by_key_Some in F as [Hin Hk]; [|done].
    apply list_elem_of_In in Hin. pose proof (List.find_none _ _ E _ Hin) as Hf.
    simpl in Hf. apply bool_decide_eq_false in Hf. done.
Qed.
End SearchByKey.

(** ** [BTreeMap]: an association list in key order *)

Section BTreeMap.
Context {K V : Type} `{TotalOrd K} `{EqDecision K}.

Fixpoint bt_get (k : K) (m : list (K * V)) : option V :=
  match m with
  | [] => None
  | (k', v) :: m => if k' ==? k then Some v else bt_get k m
  end.

(** [insert] replaces the value of a present key in place. *)
Fixpoint bt_insert (k : K) (v : V) (m : list (K * V)) : list (K * V) :=
  match m with
  | [] => [(k, v)]
  | (k', v') :: m' =>
      match kcompare k k' with
      | Lt => (k, v) :: m
      | Eq => (k, v) :: m'
      | Gt => (k', v') :: bt_insert k v m'
      end
  end.

Fixpoint bt_remove (k : K) (m : list (K * V)) : list (K * V) :=
  match m with
  | [] => []
  | (k', v) :: m => if k' ==? k then m else (k', v) :: bt_remove k m
  end.

Definition bt_values (m : list (K * V)) : list V := m.*2.
Definition bt_wf (m : list (K * V)) : Prop := key_sorted fst m.

Lemma bt_get_insert k k' v m :
  bt_get k' (bt_insert k v m) = if decide (k = k') then Some v else bt_get k' m.
Proof.
  induction m as [|[k1 v1] m IH]; simpl.
  { repeat case_bool_decide; repeat case_decide; congruence. }
  destruct (kcompare k k1) eqn:E; simpl.
  - apply kcompare_eq in E as ->. repeat case_bool_decide; repeat case_decide; congruence.
  - repeat case_bool_decide; repeat case_decide; congruence.
  - rewrite IH. repeat case_bool_decide; repeat case_decide; simplify_eq; try done.
    exfalso. subst. rewrite kcompare_refl in E. discriminate.
Qed.

Lemma bt_get_elem_of k v m : bt_wf m -> bt_get k m = Some v <-> (k, v) ∈ m.
Proof.
  intros Hw. induction Hw as [|[k1 v1] m Hm IH Hf]; simpl.
  { split; [done|by intros ?%not_elem_of_nil]. }
  rewrite elem_of_cons. rewrite list.Forall_forall in Hf.
  case_bool_decide as E.
  - subst. split; [intros [= ->]; by left|]. intros [[= ->]|Hin]; [done|].
    specialize (Hf _ Hin). by apply klt_irrefl in Hf.
  - rewrite IH. split; [by right|]. intros [[= -> ->]|]; done.
Qed.

Lemma elem_of_bt_insert k v m p : p ∈ bt_insert k v m -> p = (k, v) \/ p ∈ m.
Proof.
  induction m as [|[k1 v1] m IH]; simpl; [set_solver|].
  destruct (kcompare k k1); set_solver.
Qed.

Lemma bt_insert_wf k v m : bt_wf m -> bt_wf (bt_insert k v m).
Proof.
  unfold bt_wf. induction 1 as [|[k1 v1] m Hm IH Hf]; simpl; [repeat constructor|].
  destruct (kcompare k k1) eqn:E.
  - apply kcompare_eq in E as ->. by constructor.
  - constructor; [by constructor|]. constructor; [done|].
    eapply list.Forall_impl; [exact Hf|]. simpl. intros p. by apply klt_trans.
  - constructor; [done|]. rewrite list.Forall_forall in Hf |- *.
    intros p [->|Hp]%elem_of_bt_insert; [by apply kcompare_gt|auto].
Qed.

Lemma bt_insert_length k v m :
  bt_wf m -> length (bt_insert k v m) = if is_some (bt_get k m) then length m else S (length m).
Proof.
  induction 1 as [|[k1 v1] m Hm IH Hf]; simpl; [done|].
  destruct (kcompare k k1) eqn:E; simpl.
  - apply kcompare_eq in E as ->. by rewrite bool_decide_eq_true_2.
  - rewrite bool_decide_eq_false_2 by (intros ->; by rewrite kcompare_refl in E).
    destruct (bt_get k m) as [v'|] eqn:F; [|done].
    apply bt_get_elem_of in F; [|done]. rewrite list.Forall_forall in Hf.
    specialize (Hf _ F). exfalso. eapply klt_asym; [exact E|done].
  - rewrite bool_decide_eq_false_2 by (intros ->; by rewrite kcompare_refl in E).
    rewrite IH. by destruct (bt_get k m).
Qed.

Lemma elem_of_bt_remove k m p : p ∈ bt_remove k m -> p ∈ m.
Proof. induction m as [|[k1 v1] m IH]; simpl; [done|]. case_bool_decide; set_solver. Qed.

Lemma bt_remove_wf k m : bt_wf m -> bt_wf (bt_remove k m).
Proof.
  unfold bt_wf. induction 1 as [|[k1 v1] m Hm IH Hf]; simpl; [constructor|].
  case_bool_decide; [done|]. constructor; [done|]. rewrite list.Forall_forall in Hf |- *.
  intros p Hp%elem_of_bt_remove. auto.
Qed.

Lemma bt_get_remove k k' m :
  bt_wf m -> bt_get k' (bt_remove k m) = if decide (k = k') then None else bt_get k' m.
Proof.
  induction 1 as [|[k1 v1] m Hm IH Hf]; simpl; [by case_decide|].
  case_bool_decide as E; simpl.
  - subst k1. case_decide as E'; [|by rewrite bool_decide_false].
    subst k'. destruct (bt_get k m) as [v'|] eqn:F; [|done]. exfalso.
    apply bt_get_elem_of in F; [|done]. rewrite list.Forall_forall in Hf.
    by apply (klt_irrefl k), (Hf (k, v')).
  - rewrite IH. case_decide as E'; [subst k'; by rewrite bool_decide_false|done].
Qed.

(** A map with a key is that entry and the rest of the map. *)
Lemma bt_remove_perm k v m : bt_get k m = Some v -> m ≡ₚ (k, v) :: bt_remove k m.
Proof.
  induction m as [|[k1 v1] m IH]; simpl; [done|]. case_bool_decide as E.
  - intros [= <-]. by subst.
  - intros Hg. rewrite (IH Hg) at 1. apply perm_swap.
Qed.

Lemma bt_remove_id k m : bt_get k m = None -> bt_remove k m = m.
Proof.
  induction m as [|[k1 v1] m IH]; simpl; [done|]. case_bool_decide; [done|].
  intros ?. f_equal. auto.
Qed.

Lemma bt_insert_perm k v m : bt_wf m -> bt_insert k v m ≡ₚ (k, v) :: bt_remove k m.
Proof.
  induction 1 as [|[k1 v1] m Hm IH Hf]; simpl; [done|].
  destruct (kcompare k k1) eqn:E.
  - apply kcompare_eq in E as ->. by rewrite bool_decide_true.
  - rewrite bool_decide_false by (intros ->; by rewrite kcompare_refl in E).
    rewrite bt_remove_id; [done|]. destruct (bt_get k m) as [v'|] eqn:F; [|done].
    apply bt_get_elem_of in F; [|done]. rewrite list.Forall_forall in Hf.
    destruct (klt_asym k k1 E). exact (Hf _ F).
  - rewrite bool_decide_false by (intros ->; by rewrite kcompare_refl in E).
    rewrite IH. apply perm_swap.
Qed.

(** Two ordered maps with the same entries are equal. *)
Lemma bt_ext m m' : bt_wf m -> bt_wf m' -> (forall k, bt_get k m = bt_get k m') -> m = m'.
Proof.
  intros Hm. revert m'. induction Hm as [|[k v] m Hm IH Hf]; intros m' Hm' He.
  - destruct m' as [|[k' v'] m']; [done|]. specialize (He k'). simpl in He.
    by rewrite bool_decide_true in He.
  - inversion Hm' as [|[k' v'] m'' Hm'' Hf']; subst.
    { specialize (He k). simpl in He. by rewrite bool_decide_true in He. }
    rewrite list.Forall_forall in Hf, Hf'.
    assert (k = k') as ->.
    { pose proof (He k) as H1. pose proof (He k') as H2. simpl in H1, H2.
      rewrite bool_decide_true in H1 by done. rewrite (bool_decide_true (k' = k')) in H2 by done.
      case_bool_decide as E1; [done|]. case_bool_decide as E2; [done|].
      symmetry in H1. apply bt_get_elem_of in H1; [|done]. apply bt_get_elem_of in H2; [|done].
      destruct (klt_asym k k'); [exact (Hf _ H2)|exact (Hf' _ H1)]. }
    pose proof (He k') as H1. simpl in H1. rewrite !bool_decide_true in H1 by done.
    injection H1 as <-. f_equal. apply IH; [done|]. intros k.
    pose proof (He k) as H2. simpl in H2. case_bool_decide as E; [|done]. subst k'.
    assert (forall n, bt_wf n -> (forall p, p ∈ n -> klt k p.1) -> bt_get k n = None) as Hn.
    { intros n Hw Hl. destruct (bt_get k n) as [w|] eqn:F; [|done].
      apply bt_get_elem_of in F; [|done]. destruct (klt_irrefl k). exact (Hl _ F). }
    by rewrite !Hn.
Qed.

Lemma bt_wf_nil : bt_wf [].
Proof. constructor. Qed.

Lemma bt_values_elem_of v m : v ∈ bt_values m <-> exists k, (k, v) ∈ m.
Proof.
  unfold bt_values. rewrite list_elem_of_fmap. split.
  - intros ([k v'] & -> & ?). eauto.
  - intros (k & ?). by exists (k, v).
Qed.
End BTreeMap.

#[export] Hint Resolve bt_wf_nil bt_insert_wf bt_remove_wf : hub.

Lemma existsb_false_iff {A} (p : A -> bool) l : existsb p l = false <-> forall a, a ∈ l -> p a = false.
Proof.
  rewrite <- not_true_iff_false, existsb_exists. setoid_rewrite list_elem_of_In.
  setoid_rewrite <- not_true_iff_false. naive_solver.
Qed.

(** [BTreeSet::insert]: the new set, and whether the value was absent. *)
Definition bs_insert {K} `{TotalOrd K, EqDecision K} (k : K) (s : list (K * unit))
  : bool * list (K * unit) :=
  (negb (is_some (bt_get k s)), bt_insert k tt s).
Definition bs_contains {K} `{EqDecision K} (k : K) (s : list (K * unit)) : bool :=
  is_some (bt_get k s).

Lemma bs_contains_insert {K} `{TotalOrd K, EqDecision K} (k k' : K) s :
  bs_contains k (bs_insert k' s).2 = (k' ==? k) || bs_contains k s.
Proof.
  unfold bs_contains, bs_insert. simpl. rewrite bt_get_insert.
  case_decide; case_bool_decide; done.
Qed.

(** [any(|k| !set.insert(k))]: some key repeats an earlier one. *)
Fixpoint any_repeated {K} `{TotalOrd K, EqDecision K} (seen : list (K * unit)) (ks : list K)
  : bool :=
  match ks with
  | [] => false
  | k :: ks => let (fresh, seen) := bs_insert k seen in negb fresh || any_repeated seen ks
  end.

Lemma any_repeated_false {K} `{TotalOrd K, EqDecision K} (seen : list (K * unit)) ks :
  any_repeated seen ks = false <->
  NoDup ks /\ Forall (fun k => bs_contains k seen = false) ks.
Proof.
  revert seen. induction ks as [|k ks IH]; intros seen; simpl.
  { split; [|done]. intros _. split; constructor. }
  rewrite orb_false_iff, negb_involutive, NoDup_cons, list.Forall_cons.
  rewrite (IH (bt_insert k tt seen)), !list.Forall_forall.
  assert (forall j, bs_contains j (bt_insert k tt seen) = (k ==? j) || bs_contains j seen) as Hi
    by (intros j; apply (bs_contains_insert j k seen)).
  setoid_rewrite Hi. setoid_rewrite orb_false_iff.
  setoid_rewrite bool_decide_eq_false. unfold bs_contains. naive_solver.
Qed.
