(* ===== verification/Encoding.v ===== *)
(** * Bytes, text and canonical encodings

    Fixed-width big-endian integers ([to_be_bytes]), Rust strings with their
    UTF-8 form, the SHA-256 digest as an interface, and the class of
    prefix codes with which the components show that the byte sequence a
    command is fingerprinted from determines the command. *)

From Stdlib Require Import Bool ZArith Lia NArith.
From Stdlib Require Import Strings.Byte Strings.String.
From stdpp Require Import base decidable option list numbers sets.
From S2P Require Import Prelude Containers.

Abbreviation byte := Corelib.Init.Byte.byte.

(** ** Bytes *)

#[global] Instance byte_eq_dec : EqDecision byte := Byte.byte_eq_dec.

Definition byte_val (b : byte) : Z := Z.of_N (Byte.to_N b).
Definition byte_of_Z (z : Z) : byte :=
  match Byte.of_N (Z.to_N (z mod 256)) with Some b => b | None => x00 end.

Lemma byte_val_range b : 0 <= byte_val b < 256.
Proof. unfold byte_val. pose proof (Byte.to_N_bounded b). lia. Qed.

Lemma byte_val_of_Z z : byte_val (byte_of_Z z) = z mod 256.
Proof.
  unfold byte_val, byte_of_Z. pose proof (Z.mod_pos_bound z 256 eq_refl) as Hb.
  destruct (Byte.of_N (Z.to_N (z mod 256))) as [b|] eqn:E.
  - apply Byte.to_of_N in E. rewrite E. lia.
  - apply Byte.of_N_None_iff in E. lia.
Qed.

Lemma byte_val_inj b c : byte_val b = byte_val c -> b = c.
Proof.
  unfold byte_val. intros E%N2Z.inj.
  apply (f_equal Byte.of_N) in E. rewrite !Byte.of_to_N in E. congruence.
Qed.

Lemma byte_of_Z_inj x y : 0 <= x < 256 -> 0 <= y < 256 -> byte_of_Z x = byte_of_Z y -> x = y.
Proof.
  intros Hx Hy E. apply (f_equal byte_val) in E. rewrite !byte_val_of_Z in E.
  rewrite !Z.mod_small in E; lia.
Qed.

#[global] Program Instance byte_TotalOrd : TotalOrd byte :=
  {| kcompare a b := Z.compare (byte_val a) (byte_val b) |}.
Next Obligation.
  intros a b; simpl. rewrite Z.compare_eq_iff. split; [apply byte_val_inj|by intros ->].
Qed.
Next Obligation. intros; simpl. apply Z.compare_antisym. Qed.
Next Obligation. intros a b c; simpl. rewrite !Z.compare_lt_iff. lia. Qed.

(** ** Big-endian integers: [to_be_bytes] *)

Fixpoint be_bytes (n : nat) (z : Z) : list byte :=
  match n with
  | O => []
  | S n => byte_of_Z (z / 256 ^ Z.of_nat n) :: be_bytes n z
  end.

Fixpoint be_value (l : list byte) : Z :=
  match l with
  | [] => 0
  | b :: l => byte_val b * 256 ^ Z.of_nat (length l) + be_value l
  end.

Lemma be_bytes_length n z : length (be_bytes n z) = n.
Proof. induction n; simpl; congruence. Qed.

Lemma be_value_bytes n z : be_value (be_bytes n z) = z mod 256 ^ Z.of_nat n.
Proof.
  induction n as [|n IH]; cbn [be_bytes be_value]; [by rewrite Z.mod_1_r|].
  rewrite be_bytes_length, IH, byte_val_of_Z.
  rewrite Nat2Z.inj_succ, Z.pow_succ_r by lia. rewrite Z.mul_comm.
  rewrite (Z.mul_comm 256), Z.rem_mul_r by lia. lia.
Qed.

Lemma be_bytes_inj n x y :
  0 <= x < 256 ^ Z.of_nat n -> 0 <= y < 256 ^ Z.of_nat n ->
  be_bytes n x = be_bytes n y -> x = y.
Proof.
  intros Hx Hy E. apply (f_equal be_value) in E. rewrite !be_value_bytes in E.
  rewrite !Z.mod_small in E; lia.
Qed.

(** ** Prefix codes *)

Class PrefixCode {A : Type} (enc : A -> list byte) : Prop :=
  prefix_inv a b r s : enc a ++ r = enc b ++ s -> a = b /\ r = s.

Lemma prefix_code_inj {A} (enc : A -> list byte) `{!PrefixCode enc} a b : enc a = enc b -> a = b.
Proof.
  intros E. destruct (prefix_inv a b [] []) as [-> _]; [by rewrite !app_nil_r|done].
Qed.

Lemma fixed_prefix_code {A} (enc : A -> list byte) n :
  (forall a, length (enc a) = n) -> (forall a b, enc a = enc b -> a = b) -> PrefixCode enc.
Proof.
  intros Hl Hi a b r s E. apply app_inj_1 in E as [E ->]; [|by rewrite !Hl]. auto.
Qed.

(** A one-byte tag before the payload of an option or of an enumeration. *)
Definition enc_tag (z : Z) : list byte := [byte_of_Z z].
Definition enc_option {A} (enc : A -> list byte) (o : option A) : list byte :=
  match o with None => enc_tag 0 | Some a => enc_tag 1 ++ enc a end.

#[global] Instance enc_option_prefix {A} (enc : A -> list byte) :
  PrefixCode enc -> PrefixCode (enc_option enc).
Proof.
  intros Hp [a|] [b|] r s E; simpl in E; injection E as E; try done.
  by apply (prefix_inv (enc := enc)) in E as [-> ->].
Qed.

(** The concatenation of the encodings of a list whose length is known. *)
Definition enc_seq {A} (enc : A -> list byte) (l : list A) : list byte := concat (enc <$> l).

Lemma enc_seq_inv {A} (enc : A -> list byte) `{!PrefixCode enc} l k r s :
  length l = length k -> enc_seq enc l ++ r = enc_seq enc k ++ s -> l = k /\ r = s.
Proof.
  unfold enc_seq. revert k. induction l as [|a l IH]; intros [|b k]; simpl; try done.
  intros [= Hl] E. rewrite <- !app_assoc in E.
  apply (prefix_inv (enc := enc)) in E as [-> E]. apply IH in E as [-> ->]; done.
Qed.

(** A big-endian count followed by the elements. *)
Definition enc_counted {A} (width : nat) (enc : A -> list byte) (l : list A) : list byte :=
  be_bytes width (Z.of_nat (length l)) ++ enc_seq enc l.

Lemma enc_counted_inv {A} width (enc : A -> list byte) `{!PrefixCode enc} l k r s :
  Z.of_nat (length l) < 256 ^ Z.of_nat width -> Z.of_nat (length k) < 256 ^ Z.of_nat width ->
  enc_counted width enc l ++ r = enc_counted width enc k ++ s -> l = k /\ r = s.
Proof.
  unfold enc_counted. intros Hl Hk. rewrite <- !app_assoc. intros E.
  apply app_inj_1 in E as [E1 E2]; [|by rewrite !be_bytes_length].
  apply be_bytes_inj in E1; [|lia..]. apply (enc_seq_inv enc) in E2; [done|lia].
Qed.

(** Strip the common leading field of two encodings. *)
Ltac peel H :=
  rewrite <- ?app_assoc in H;
  first
    [ apply prefix_inv in H as [? H]
    | apply app_inj_1 in H as [? H]; [|by rewrite ?be_bytes_length] ].

(** Two byte sequences differ at some position both have. *)
Fixpoint clash (a b : list byte) : bool :=
  match a, b with
  | x :: a, y :: b => negb (x ==? y) || clash a b
  | _, _ => false
  end.

Lemma clash_apart a b r s : clash a b = true -> a ++ r <> b ++ s.
Proof.
  revert b. induction a as [|x a IH]; intros [|y b]; simpl; try done.
  intros [Hxy%negb_true_iff%bool_decide_eq_false|Hc]%orb_true_iff [= -> E]; [done|by eapply IH].
Qed.

(** ** Rust strings

    A [char] is a Unicode scalar value, a [String] a list of them; its bytes
    are the UTF-8 encoding and [len()] counts those bytes. *)

Definition is_scalar (c : Z) : bool :=
  ((0 <=? c) && (c <? 0xD800)) || ((0xE000 <=? c) && (c <=? 0x10FFFF)).
Abbreviation char := (refined is_scalar).
Abbreviation rust_string := (list char).

Definition utf8_char (c : char) : list byte :=
  let c := raw c in
  if c <? 0x80 then [byte_of_Z c]
  else if c <? 0x800 then [byte_of_Z (0xC0 + c / 64); byte_of_Z (0x80 + c mod 64)]
  else if c <? 0x10000 then
    [byte_of_Z (0xE0 + c / 4096); byte_of_Z (0x80 + c / 64 mod 64); byte_of_Z (0x80 + c mod 64)]
  else
    [byte_of_Z (0xF0 + c / 262144); byte_of_Z (0x80 + c / 4096 mod 64);
     byte_of_Z (0x80 + c / 64 mod 64); byte_of_Z (0x80 + c mod 64)].

Definition as_bytes (s : rust_string) : list byte := concat (utf8_char <$> s).
Definition str_len (s : rust_string) : nat := length (as_bytes s).

Lemma char_range (c : char) : 0 <= raw c <= 0x10FFFF.
Proof.
  apply (raw_elim (fun v => 0 <= v <= 0x10FFFF) c). unfold is_scalar. intros v H. breflect. lia.
Qed.

#[global] Instance utf8_char_prefix : PrefixCode utf8_char.
Proof.
  intros c d r s E.
  enough (raw c = raw d /\ r = s) as [? ?] by (split; [by apply refined_eq|done]).
  pose proof (char_range c) as Hc. pose proof (char_range d) as Hd.
  unfold utf8_char in E. revert Hc Hd E. generalize (raw c) (raw d). intros x y Hx Hy.
  destruct (Z.ltb_spec x 0x80), (Z.ltb_spec y 0x80); simpl;
    try destruct (Z.ltb_spec x 0x800); try destruct (Z.ltb_spec y 0x800);
    try destruct (Z.ltb_spec x 0x10000); try destruct (Z.ltb_spec y 0x10000); simpl;
    intros E; injection E; clear E; intros;
    repeat match goal with
    | E : byte_of_Z _ = byte_of_Z _ |- _ => apply byte_of_Z_inj in E; [|Z.to_euclidean_division_equations; lia..]
    end;
    first [ exfalso; Z.to_euclidean_division_equations; lia
          | split; [Z.to_euclidean_division_equations; lia | assumption] ].
Qed.

Lemma as_bytes_inj (s t : rust_string) : as_bytes s = as_bytes t -> s = t.
Proof.
  unfold as_bytes. revert t. induction s as [|c s IH]; intros [|d t]; simpl; try done.
  - intros E. exfalso. unfold utf8_char in E. repeat case_match; discriminate.
  - intros E. exfalso. unfold utf8_char in E. repeat case_match; discriminate.
  - intros E. apply prefix_inv in E as [-> E]. f_equal. auto.
Qed.

(** [char::is_control] (category Cc) and [char::is_whitespace] (White_Space). *)
Definition is_control (c : char) : bool :=
  (raw c <=? 0x1F) || ((0x7F <=? raw c) && (raw c <=? 0x9F)).
Definition is_whitespace (c : char) : bool :=
  let c := raw c in
  ((0x09 <=? c) && (c <=? 0x0D)) || (c =? 0x20) || (c =? 0x85) || (c =? 0xA0) ||
  (c =? 0x1680) || ((0x2000 <=? c) && (c <=? 0x200A)) || (c =? 0x2028) || (c =? 0x2029) ||
  (c =? 0x202F) || (c =? 0x205F) || (c =? 0x3000).

(** [s.trim().is_empty()]: nothing but white space. *)
Definition trim_is_empty (s : rust_string) : bool := forallb is_whitespace s.

(** ASCII literals of the source. *)
Definition literal (s : string) : rust_string :=
  omap (fun b => check_value is_scalar (byte_val b)) (list_byte_of_string s).
(** [b"...\0"]. *)
Definition domain_tag (s : string) : list byte := list_byte_of_string s ++ [x00].

(** [hash_text]: the byte length as a [u64], then the bytes. *)
Definition enc_text (s : rust_string) : list byte :=
  be_bytes 8 (Z.of_nat (str_len s)) ++ as_bytes s.

Lemma enc_text_inv (s t : rust_string) r r' :
  Z.of_nat (str_len s) < 2 ^ 64 -> Z.of_nat (str_len t) < 2 ^ 64 ->
  enc_text s ++ r = enc_text t ++ r' -> s = t /\ r = r'.
Proof.
  unfold enc_text. intros Hs Ht. rewrite <- !app_assoc. intros E.
  apply app_inj_1 in E as [E1 E2]; [|by rewrite !be_bytes_length].
  apply be_bytes_inj in E1; [|lia..]. apply app_inj_1 in E2 as [E2 ->].
  - by apply as_bytes_inj in E2 as ->.
  - unfold str_len in E1. lia.
Qed.

(** ** Byte arrays *)

Definition zero_bytes (n : nat) : list byte := replicate n x00.

Definition array_ok (n : nat) (l : list byte) : bool := (length l =? n)%nat.
Abbreviation array n := (refined (array_ok n)).

Lemma array_length {n} (a : array n) : length (raw a) = n.
Proof.
  apply (raw_elim (fun l => length l = n) a). intros l. apply Nat.eqb_eq.
Qed.

(** ** The digest: [sha2::Sha256]

    The crate is not part of the repository.  A message is the concatenation of
    the [update] calls; only the length of the digest is used. *)

Class Sha256 := {
  sha256 : list byte -> list byte;
  sha256_length m : length (sha256 m) = 32%nat
}.

Definition digest32 `{Sha256} (m : list byte) : array 32.
Proof.
  refine (Refined (sha256 m) _). unfold array_ok. by rewrite sha256_length.
Defined.

(** A concrete digest for the closed examples of the development. *)
Definition sample_digest (m : list byte) : list byte :=
  be_bytes 4 (foldl (fun acc b => (acc * 31 + byte_val b + 1) mod 2 ^ 30) 7 m)
  ++ replicate 28 x01.
Definition sample_sha256 : Sha256.
Proof.
  refine {| sha256 := sample_digest |}. intros m. unfold sample_digest.
  by rewrite length_app, be_bytes_length, length_replicate.
Defined.
