(* ===== verification/Hub.v ===== *)
(** * Hub identity and ownership

    [hub.rs] and the value types it shares with every other component:
    [HubId], [HubRevision], [UnixTimestamp] ([time.rs]), the public key of an
    actor ([key.rs]) and the ownership policy with its handover. *)

From Stdlib Require Import Bool ZArith Lia.
From stdpp Require Import base decidable option list numbers sets relations.
From S2P Require Import Prelude Containers Encoding.

(** ** Values *)

Module HubPolicyError.
Inductive HubPolicyError :=
| InvalidIdentity
| InvalidRevision
| IdentityRequired
| NotOwner
| StaleRevision
| UnchangedOwner
| RevisionExhausted.
#[global] Instance HubPolicyError_eq_dec : EqDecision HubPolicyError.
Proof. solve_decision. Defined.
End HubPolicyError.
Abbreviation HubPolicyError := HubPolicyError.HubPolicyError.

(** [[u8; 16]], not all zero. *)
Definition HubId_check (bytes : list byte) : bool :=
  array_ok 16 bytes && negb (bytes ==? zero_bytes 16).
Abbreviation HubId := (refined HubId_check).
Definition HubId_from_bytes (bytes : list byte) : result HubId HubPolicyError :=
  checked HubId_check HubPolicyError.InvalidIdentity bytes.

Definition HubRevision_MAXIMUM : Z := i64_MAX.
Definition HubRevision_check (value : Z) : bool :=
  u64_range value && negb ((value =? 0) || (value >? HubRevision_MAXIMUM)).
Abbreviation HubRevision := (refined HubRevision_check).
Definition HubRevision_from_value (value : Z) : result HubRevision HubPolicyError :=
  checked HubRevision_check HubPolicyError.InvalidRevision value.
Definition HubRevision_INITIAL : HubRevision := Refined 1 eq_refl.
(** [self.0 + 1] is a [u64] sum. *)
Definition HubRevision_next (r : HubRevision) : result HubRevision HubPolicyError :=
  map_err (fun _ => HubPolicyError.RevisionExhausted) (HubRevision_from_value (u64_add (raw r) 1)).

(** [UnixTimestamp(i64)], never negative. *)
Definition UnixTimestamp_check (seconds : Z) : bool :=
  i64_range seconds && negb (seconds <? 0).
Abbreviation UnixTimestamp := (refined UnixTimestamp_check).
Definition UnixTimestamp_from_seconds (seconds : Z) : option UnixTimestamp :=
  check_value UnixTimestamp_check seconds.

(** A key is its 32 bytes.  Whether they are a curve point is decided by the
    [radroots_identity] crate before a [PublicKey] exists; the domain compares
    keys and hashes their bytes. *)
Abbreviation PublicKey := (array 32).

Lemma HubRevision_range (r : HubRevision) : 1 <= raw r <= HubRevision_MAXIMUM.
Proof.
  apply (raw_elim (fun v => 1 <= v <= HubRevision_MAXIMUM) r).
  unfold HubRevision_check, u64_range. intros v H. breflect. lia.
Qed.

Lemma HubRevision_check_iff v :
  HubRevision_check v = true <-> 1 <= v <= HubRevision_MAXIMUM.
Proof.
  unfold HubRevision_check, u64_range, HubRevision_MAXIMUM, i64_MAX. breflect. lia.
Qed.

(** The increment never leaves [u64]. *)
Lemma u64_add_revision (r : HubRevision) : u64_add (raw r) 1 = raw r + 1.
Proof.
  unfold u64_add. pose proof (HubRevision_range r) as H.
  unfold HubRevision_MAXIMUM, i64_MAX in H. apply Z.mod_small. lia.
Qed.

Lemma HubRevision_next_Ok r r' :
  HubRevision_next r = Ok r' <-> raw r' = raw r + 1.
Proof.
  unfold HubRevision_next. rewrite map_err_Ok. unfold HubRevision_from_value.
  by rewrite checked_Ok, u64_add_revision.
Qed.

Lemma HubRevision_next_Err r e :
  HubRevision_next r = Err e <-> raw r = HubRevision_MAXIMUM /\ e = HubPolicyError.RevisionExhausted.
Proof.
  unfold HubRevision_next, HubRevision_from_value. rewrite u64_add_revision.
  pose proof (HubRevision_range r) as Hr.
  destruct (checked _ _ _) as [r'|e'] eqn:E; simpl.
  - apply checked_Ok in E. pose proof (HubRevision_range r'). split; [discriminate|]. lia.
  - apply checked_Err in E as [E _]. apply not_true_iff_false in E.
    rewrite HubRevision_check_iff in E. split; [intros [= <-]; split; [lia|done]|].
    intros [_ ->]. done.
Qed.

Lemma from_value_next_Ok (r r' : HubRevision) :
  HubRevision_from_value (u64_add (raw r) 1) = Ok r' <-> raw r' = raw r + 1.
Proof. unfold HubRevision_from_value. by rewrite checked_Ok, u64_add_revision. Qed.

#[export] Hint Rewrite HubRevision_next_Ok from_value_next_Ok : okdb.

Lemma raw_inj {A} {check : A -> bool} (x y : refined check) : raw x = raw y <-> x = y.
Proof. split; [apply refined_eq|by intros ->]. Qed.

(** ** Encodings of the shared values *)

Definition enc_hub (h : HubId) : list byte := raw h.
Definition enc_key (k : PublicKey) : list byte := raw k.
Definition enc_revision (r : HubRevision) : list byte := be_bytes 8 (raw r).
Definition enc_seconds (t : UnixTimestamp) : list byte := be_bytes 8 (raw t).

Lemma HubId_length (h : HubId) : length (raw h) = 16%nat.
Proof.
  apply (raw_elim (fun l => length l = 16%nat) h). unfold HubId_check, array_ok.
  intros l H. breflect. done.
Qed.

#[global] Instance enc_hub_prefix : PrefixCode enc_hub.
Proof. apply (fixed_prefix_code _ 16); [apply HubId_length|intros a b; apply refined_eq]. Qed.
#[global] Instance enc_key_prefix : PrefixCode enc_key.
Proof. apply (fixed_prefix_code _ 32); [apply array_length|intros a b; apply refined_eq]. Qed.
#[global] Instance enc_revision_prefix : PrefixCode enc_revision.
Proof.
  apply (fixed_prefix_code _ 8); [intros; apply be_bytes_length|].
  intros a b E. apply refined_eq. pose proof (HubRevision_range a). pose proof (HubRevision_range b).
  unfold HubRevision_MAXIMUM, i64_MAX in *. apply be_bytes_inj in E; lia.
Qed.
Lemma UnixTimestamp_range (t : UnixTimestamp) : 0 <= raw t <= i64_MAX.
Proof.
  apply (raw_elim (fun v => 0 <= v <= i64_MAX) t).
  unfold UnixTimestamp_check, i64_range, i64_MAX. intros v H. breflect. lia.
Qed.
#[global] Instance enc_seconds_prefix : PrefixCode enc_seconds.
Proof.
  apply (fixed_prefix_code _ 8); [intros; apply be_bytes_length|].
  intros a b E. apply refined_eq.
  pose proof (UnixTimestamp_range a). pose proof (UnixTimestamp_range b).
  unfold i64_MAX in *. apply be_bytes_inj in E; lia.
Qed.

(** ** Ownership *)

Record HubOwnership := {
  ho_id : HubId;
  ho_owner : PublicKey;
  ho_revision : HubRevision
}.
#[global] Instance HubOwnership_eq_dec : EqDecision HubOwnership.
Proof. solve_decision. Defined.

Definition HubOwnership_restore (id : HubId) (owner : PublicKey) (revision : HubRevision)
  : HubOwnership := {| ho_id := id; ho_owner := owner; ho_revision := revision |}.
Definition HubOwnership_new (id : HubId) (owner : PublicKey) : HubOwnership :=
  HubOwnership_restore id owner HubRevision_INITIAL.

Definition HubOwnership_authorize (self : HubOwnership) (actor : option PublicKey)
  : result unit HubPolicyError :=
  match actor with
  | None => Err HubPolicyError.IdentityRequired
  | Some actor => if actor !=? ho_owner self then Err HubPolicyError.NotOwner else Ok tt
  end.

Definition HubOwnership_transfer (self : HubOwnership) (actor : option PublicKey)
    (expected : HubRevision) (replacement : PublicKey) : result HubOwnership HubPolicyError :=
  HubOwnership_authorize self actor ;;?
  if expected !=? ho_revision self then Err HubPolicyError.StaleRevision
  else if replacement ==? ho_owner self then Err HubPolicyError.UnchangedOwner
  else
    let? revision := HubRevision_next (ho_revision self) in
    Ok (HubOwnership_restore (ho_id self) replacement revision).

Lemma authorize_Ok self actor :
  HubOwnership_authorize self actor = Ok tt <-> actor = Some (ho_owner self).
Proof.
  unfold HubOwnership_authorize. destruct actor as [a|]; [|split; discriminate].
  case_bool_decide; simpl; split; congruence.
Qed.

(** Every branch of a handover: which inputs succeed, with what result, and
    which error each refused input reports, in the order the code tests. *)
Definition transfer_outcome (self : HubOwnership) (actor : option PublicKey)
    (expected : HubRevision) (replacement : PublicKey)
    (out : result HubOwnership HubPolicyError) : Prop :=
  match out with
  | Ok next =>
      actor = Some (ho_owner self) /\ expected = ho_revision self /\
      replacement <> ho_owner self /\ ho_id next = ho_id self /\
      ho_owner next = replacement /\ raw (ho_revision next) = raw (ho_revision self) + 1
  | Err HubPolicyError.IdentityRequired => actor = None
  | Err HubPolicyError.NotOwner => exists a, actor = Some a /\ a <> ho_owner self
  | Err HubPolicyError.StaleRevision => actor = Some (ho_owner self) /\ expected <> ho_revision self
  | Err HubPolicyError.UnchangedOwner =>
      actor = Some (ho_owner self) /\ expected = ho_revision self /\ replacement = ho_owner self
  | Err HubPolicyError.RevisionExhausted =>
      actor = Some (ho_owner self) /\ expected = ho_revision self /\
      replacement <> ho_owner self /\ raw (ho_revision self) = HubRevision_MAXIMUM
  | Err (HubPolicyError.InvalidIdentity | HubPolicyError.InvalidRevision) => False
  end.


Lemma transfer_outcome_iff self actor expected replacement out :
  HubOwnership_transfer self actor expected replacement = out <->
  transfer_outcome self actor expected replacement out.
Proof.
  assert (forall o, HubOwnership_transfer self actor expected replacement = o ->
    transfer_outcome self actor expected replacement o) as Hsound.
  { intros o <-. unfold HubOwnership_transfer, HubOwnership_authorize.
    destruct actor as [a|]; [|done]. case_bool_decide as Ea; simpl; [|by exists a].
    case_bool_decide as Ee; simpl; [|naive_solver].
    case_bool_decide as Er; simpl; [naive_solver|].
    destruct (HubRevision_next (ho_revision self)) as [r|e] eqn:En; simpl.
    - apply HubRevision_next_Ok in En. naive_solver.
    - apply HubRevision_next_Err in En as [En ->]. naive_solver. }
  split; [apply Hsound|]. intros H. specialize (Hsound _ eq_refl).
  destruct (HubOwnership_transfer self actor expected replacement) as [n|e], out as [n'|e'].
  - destruct Hsound as (_ & _ & _ & ? & ? & ?), H as (_ & _ & _ & ? & ? & ?).
    f_equal. destruct n, n'; simpl in *; subst. f_equal. apply refined_eq. lia.
  - exfalso. destruct e'; simpl in *; try naive_solver.
    destruct Hsound as (_ & _ & _ & _ & _ & Hs), H as (_ & _ & _ & H).
    pose proof (HubRevision_range (ho_revision n)). lia.
  - exfalso. destruct e; simpl in *; try naive_solver.
    destruct H as (_ & _ & _ & _ & _ & Hs), Hsound as (_ & _ & _ & H).
    pose proof (HubRevision_range (ho_revision n')). lia.
  - f_equal. destruct e, e'; simpl in *; naive_solver.
Qed.

(** A handover succeeds, or is refused with the reported error, exactly in
    the situation the policy names: the result of [transfer] satisfies its
    outcome relation, and no other result does. *)
Theorem transfer_correct self actor expected replacement out :
  HubOwnership_transfer self actor expected replacement = out <->
  transfer_outcome self actor expected replacement out.
Proof. apply transfer_outcome_iff. Qed.

(** ** Handover histories *)

(** One accepted handover. *)
Inductive handover : HubOwnership -> HubOwnership -> Prop :=
| handover_step self actor expected replacement next :
    HubOwnership_transfer self actor expected replacement = Ok next -> handover self next.

Lemma handover_inv s t :
  handover s t -> ho_id t = ho_id s /\ raw (ho_revision t) = raw (ho_revision s) + 1.
Proof. intros [? ? ? ? ? H]. apply transfer_outcome_iff in H. simpl in H. naive_solver. Qed.

Lemma handovers_inv n s t :
  nsteps handover n s t ->
  ho_id t = ho_id s /\ raw (ho_revision t) = raw (ho_revision s) + Z.of_nat n.
Proof.
  induction 1 as [s|n s t u H1 H2 IH]; [split; [done|lia]|].
  apply handover_inv in H1 as [Hi Hr]. destruct IH as [IHi IHr]. rewrite IHi, IHr. split; [done|lia].
Qed.

(** Any sequence of accepted handovers keeps the identity of the hub and
    counts itself in the ownership revision, so a command bound to a revision
    that was used once is refused in every later state. *)
Theorem handover_replay_refused s actor expected replacement s1 n s2 :
  HubOwnership_transfer s actor expected replacement = Ok s1 ->
  nsteps handover n s1 s2 ->
  ho_id s2 = ho_id s /\
  raw (ho_revision s2) = raw (ho_revision s) + 1 + Z.of_nat n /\
  forall actor' replacement', exists e,
    HubOwnership_transfer s2 actor' expected replacement' = Err e.
Proof.
  intros Ht Hn. apply handovers_inv in Hn as [Hi Hr].
  assert (handover s s1) as [Hi1 Hr1]%handover_inv by by econstructor.
  split; [congruence|]. split; [lia|]. intros actor' replacement'.
  destruct (HubOwnership_transfer s2 actor' expected replacement') as [s3|e] eqn:E; [|eauto].
  apply transfer_outcome_iff in E, Ht. simpl in E, Ht.
  destruct E as (_ & E & _), Ht as (_ & -> & _). rewrite <- E in Hr. lia.
Qed.

(** ** Sample values for the closed examples *)

Definition sample_key (z : Z) : PublicKey.
Proof. refine (Refined (be_bytes 32 z) _). unfold array_ok. by rewrite be_bytes_length. Defined.
Definition sample_hub : HubId := Refined (be_bytes 16 1) eq_refl.
Definition sample_time (z : Z) : UnixTimestamp :=
  default (Refined 0 eq_refl) (UnixTimestamp_from_seconds z).
Definition sample_revision (z : Z) : HubRevision :=
  match HubRevision_from_value z with Ok r => r | Err _ => HubRevision_INITIAL end.
Definition sample_owned (owner revision : Z) : HubOwnership :=
  HubOwnership_restore sample_hub (sample_key owner) (sample_revision revision).

Lemma handover_replay_refused_witness :
  HubOwnership_transfer (sample_owned 2 1) (Some (sample_key 2)) (sample_revision 1)
    (sample_key 3) = Ok (sample_owned 3 2) /\
  raw (ho_revision (sample_owned 4 3)) = raw (ho_revision (sample_owned 2 1)) + 1 + 1.
Proof.
  assert (HubOwnership_transfer (sample_owned 2 1) (Some (sample_key 2)) (sample_revision 1)
    (sample_key 3) = Ok (sample_owned 3 2)) as H1 by (vm_compute; reflexivity).
  assert (nsteps handover 1 (sample_owned 3 2) (sample_owned 4 3)) as H2.
  { apply nsteps_once.
    apply (handover_step _ (Some (sample_key 3)) (sample_revision 2) (sample_key 4)).
    vm_compute; reflexivity. }
  split; [exact H1|].
  exact (proj1 (proj2 (handover_replay_refused _ _ _ _ _ 1 _ H1 H2))).
Defined.
