(* ===== verification/Reference.v ===== *)
(** * Reference data

    [hub/reference.rs]: record identifiers and their hexadecimal form, bounded
    text and quantities, the reference values (product, pack, party, location)
    and the source references of a delivery.  The catalog that holds the
    records is [Catalog.v]. *)

From Stdlib Require Import Bool ZArith Lia String.
From stdpp Require Import base decidable option list numbers sets.
From S2P Require Import Prelude Containers Encoding Hub.

(** ** Limits *)

Definition HUB_REFERENCE_CAPACITY : nat := 512.
Definition HUB_LABEL_UTF8_BYTES : nat := 120.
Definition HUB_SOURCE_CODE_UTF8_BYTES : nat := 128.
Definition HUB_PROVENANCE_UTF8_BYTES : nat := 512.
Definition HUB_MAX_WHOLE_PACKS : Z := 1000000.
Definition HUB_MAX_NOMINAL_GRAMS : Z := 1000000000.

Module HubReferenceError.
Inductive HubReferenceError :=
| InvalidId
| InvalidText
| InvalidQuantity
| DifferentVariant
| Capacity
| DuplicateId
| MissingReference
| WrongReferenceKind
| StaleRevision
| RevisionExhausted
| ImmutablePack
| ImmutableLocationPurpose
| NoChange
| InvalidHandlingBasis.
#[global] Instance HubReferenceError_eq_dec : EqDecision HubReferenceError.
Proof. solve_decision. Defined.
End HubReferenceError.
Abbreviation HubReferenceError := HubReferenceError.HubReferenceError.

(** ** The handling basis *)

(** [SampleHandlingBasis(())]: one fixed procedure. *)
Inductive SampleHandlingBasis := WHOLE_PACK_V1.
#[global] Instance SampleHandlingBasis_eq_dec : EqDecision SampleHandlingBasis.
Proof. solve_decision. Defined.

Definition basis_id (b : SampleHandlingBasis) : rust_string := literal "whole-pack-demo-v1".
Definition basis_version (b : SampleHandlingBasis) : Z := 1.
Definition basis_site_timezone (b : SampleHandlingBasis) : rust_string := literal "UTC".

Definition SampleHandlingBasis_from_stored (id : rust_string) (version : Z)
    (timezone : rust_string) : result SampleHandlingBasis HubReferenceError :=
  let basis := WHOLE_PACK_V1 in
  if (id !=? basis_id basis) || (version !=? basis_version basis)
     || (timezone !=? basis_site_timezone basis)
  then Err HubReferenceError.InvalidHandlingBasis
  else Ok basis.

(** ** Record identifiers *)

Definition HubRecordId_check (bytes : list byte) : bool :=
  array_ok 16 bytes && negb (bytes ==? zero_bytes 16).
Abbreviation HubRecordId := (refined HubRecordId_check).
Definition HubRecordId_from_bytes (bytes : list byte) : result HubRecordId HubReferenceError :=
  checked HubRecordId_check HubReferenceError.InvalidId bytes.

Definition in_byte_range (lo hi : Z) (b : byte) : bool :=
  (lo <=? byte_val b) && (byte_val b <=? hi).
(** [b.is_ascii_digit() || (b'a'..=b'f').contains(&b)]. *)
Definition is_lower_hex (b : byte) : bool :=
  in_byte_range 0x30 0x39 b || in_byte_range 0x61 0x66 b.

(** [char::to_digit(16)] and [u8::from_str_radix] on two characters; the latter
    also accepts a leading plus sign. *)
Definition to_digit16 (b : byte) : option Z :=
  if in_byte_range 0x30 0x39 b then Some (byte_val b - 0x30)
  else if in_byte_range 0x61 0x66 b then Some (byte_val b - 0x61 + 10)
  else if in_byte_range 0x41 0x46 b then Some (byte_val b - 0x41 + 10)
  else None.
Definition u8_from_str_radix16 (a b : byte) : option Z :=
  if byte_val a =? 0x2B then to_digit16 b
  else match to_digit16 a, to_digit16 b with
       | Some x, Some y => Some (16 * x + y)
       | _, _ => None
       end.

(** The loop over the sixteen output bytes, two characters each. *)
Fixpoint parse_hex_pairs (n : nat) (value : list byte) : result (list byte) HubReferenceError :=
  match n with
  | O => Ok []
  | S n =>
      match value with
      | a :: b :: rest =>
          let? v := ok_or (u8_from_str_radix16 a b) HubReferenceError.InvalidId in
          let? bytes := parse_hex_pairs n rest in
          Ok (byte_of_Z v :: bytes)
      | _ => Err HubReferenceError.InvalidId
      end
  end.

Definition HubRecordId_from_hex (value : list byte) : result HubRecordId HubReferenceError :=
  if negb (length value =? 32)%nat || negb (forallb is_lower_hex value)
  then Err HubReferenceError.InvalidId
  else
    let? bytes := parse_hex_pairs 16 value in
    HubRecordId_from_bytes bytes.

Definition DIGITS : list byte := list_byte_of_string "0123456789abcdef".
Definition hex_digit (v : Z) : byte := default (byte_of_Z 0) (DIGITS !! Z.to_nat v).
Definition HubRecordId_to_hex (id : HubRecordId) : list byte :=
  concat ((fun b => [hex_digit (Z.shiftr (byte_val b) 4); hex_digit (Z.land (byte_val b) 0x0F)])
          <$> raw id).

(** ** Bounded text *)

(** Bidirectional embedding, override and isolate controls. *)
Definition is_bidi_control (c : char) : bool :=
  ((0x202A <=? raw c) && (raw c <=? 0x202E)) || ((0x2066 <=? raw c) && (raw c <=? 0x2069)).
Definition HubText_check (max_bytes : nat) (value : rust_string) : bool :=
  negb ((max_bytes <? str_len value)%nat || trim_is_empty value
        || existsb (fun c => is_control c || is_bidi_control c) value).
Abbreviation HubText max_bytes := (refined (HubText_check max_bytes)).
Definition HubText_new (max_bytes : nat) (value : rust_string)
  : result (HubText max_bytes) HubReferenceError :=
  checked (HubText_check max_bytes) HubReferenceError.InvalidText value.

Abbreviation HubLabel := (HubText HUB_LABEL_UTF8_BYTES).
Abbreviation SourceCode := (HubText HUB_SOURCE_CODE_UTF8_BYTES).
Abbreviation SourceProvenance := (HubText HUB_PROVENANCE_UTF8_BYTES).

(** ** Quantities *)

Definition WholePacks_check (value : Z) : bool :=
  u32_range value && negb (value >? HUB_MAX_WHOLE_PACKS).
Abbreviation WholePacks := (refined WholePacks_check).
Definition WholePacks_from_value (value : Z) : result WholePacks HubReferenceError :=
  checked WholePacks_check HubReferenceError.InvalidQuantity value.
Definition WholePacks_checked_add (self other : WholePacks) : result WholePacks HubReferenceError :=
  let? sum := ok_or (u32_checked_add (raw self) (raw other)) HubReferenceError.InvalidQuantity in
  WholePacks_from_value sum.
Definition WholePacks_checked_sub (self other : WholePacks) : result WholePacks HubReferenceError :=
  let? diff := ok_or (u32_checked_sub (raw self) (raw other)) HubReferenceError.InvalidQuantity in
  WholePacks_from_value diff.
Definition zero_packs : WholePacks := Refined 0 eq_refl.

Record VariantQuantity := { vq_variant : HubRecordId; vq_packs : WholePacks }.
Definition VariantQuantity_checked_add (self other : VariantQuantity)
  : result VariantQuantity HubReferenceError :=
  if vq_variant self !=? vq_variant other then Err HubReferenceError.DifferentVariant
  else
    let? packs := WholePacks_checked_add (vq_packs self) (vq_packs other) in
    Ok {| vq_variant := vq_variant self; vq_packs := packs |}.

Definition NominalGrams_check (value : Z) : bool :=
  u32_range value && negb ((value =? 0) || (value >? HUB_MAX_NOMINAL_GRAMS)).
Abbreviation NominalGrams := (refined NominalGrams_check).
Definition NominalGrams_from_value (value : Z) : result NominalGrams HubReferenceError :=
  checked NominalGrams_check HubReferenceError.InvalidQuantity value.

(** ** Reference values *)

Module LocationPurpose.
Inductive LocationPurpose := Receiving | Storage | Other.
#[global] Instance LocationPurpose_eq_dec : EqDecision LocationPurpose.
Proof. solve_decision. Defined.
End LocationPurpose.
Abbreviation LocationPurpose := LocationPurpose.LocationPurpose.

Module ReferenceKind.
Inductive ReferenceKind := Product | Pack | Party | Location.
#[global] Instance ReferenceKind_eq_dec : EqDecision ReferenceKind.
Proof. solve_decision. Defined.
End ReferenceKind.
Abbreviation ReferenceKind := ReferenceKind.ReferenceKind.

Module ReferenceValue.
Inductive ReferenceValue :=
| Product (label : HubLabel)
| Pack (product : HubRecordId) (label : HubLabel) (nominal_grams : option NominalGrams)
| Party (label : HubLabel)
| Location (label : HubLabel) (purpose : LocationPurpose).
#[global] Instance ReferenceValue_eq_dec : EqDecision ReferenceValue.
Proof. solve_decision. Defined.
End ReferenceValue.
Abbreviation ReferenceValue := ReferenceValue.ReferenceValue.

Definition ReferenceValue_kind (v : ReferenceValue) : ReferenceKind :=
  match v with
  | ReferenceValue.Product _ => ReferenceKind.Product
  | ReferenceValue.Pack _ _ _ => ReferenceKind.Pack
  | ReferenceValue.Party _ => ReferenceKind.Party
  | ReferenceValue.Location _ _ => ReferenceKind.Location
  end.
Definition ReferenceValue_label (v : ReferenceValue) : HubLabel :=
  match v with
  | ReferenceValue.Product label | ReferenceValue.Pack _ label _
  | ReferenceValue.Party label | ReferenceValue.Location label _ => label
  end.

Record ReferenceRecord := {
  rr_id : HubRecordId;
  rr_revision : HubRevision;
  rr_value : ReferenceValue
}.
#[global] Instance ReferenceRecord_eq_dec : EqDecision ReferenceRecord.
Proof. solve_decision. Defined.

(** ** Source references *)

Module SourceReferenceKind.
Inductive SourceReferenceKind := ProducerBatch | SupplierReference | Other.
#[global] Instance SourceReferenceKind_eq_dec : EqDecision SourceReferenceKind.
Proof. solve_decision. Defined.
End SourceReferenceKind.
Abbreviation SourceReferenceKind := SourceReferenceKind.SourceReferenceKind.

Record SourceReference := {
  sr_id : HubRecordId;
  sr_issuer : option HubRecordId;
  sr_kind : SourceReferenceKind;
  sr_code : SourceCode;
  sr_provenance : SourceProvenance
}.
#[global] Instance SourceReference_eq_dec : EqDecision SourceReference.
Proof. solve_decision. Defined.

Module SourceCertainty.
Inductive SourceCertainty := ReportedPossible | Established.
#[global] Instance SourceCertainty_eq_dec : EqDecision SourceCertainty.
Proof. solve_decision. Defined.
End SourceCertainty.
Abbreviation SourceCertainty := SourceCertainty.SourceCertainty.

Module SourceAttribution.
Inductive SourceAttribution :=
| Unknown
| Referenced (source : SourceReference) (certainty : SourceCertainty).
#[global] Instance SourceAttribution_eq_dec : EqDecision SourceAttribution.
Proof. solve_decision. Defined.
End SourceAttribution.
Abbreviation SourceAttribution := SourceAttribution.SourceAttribution.

(** ** Quantities: exact arithmetic below the cap *)

Lemma WholePacks_check_iff v :
  WholePacks_check v = true <-> 0 <= v <= HUB_MAX_WHOLE_PACKS.
Proof. unfold WholePacks_check, u32_range, HUB_MAX_WHOLE_PACKS. breflect. lia. Qed.

Lemma WholePacks_range (p : WholePacks) : 0 <= raw p <= HUB_MAX_WHOLE_PACKS.
Proof. apply WholePacks_check_iff, raw_ok. Qed.

Lemma checked_add_Ok a b c : WholePacks_checked_add a b = Ok c <-> raw c = raw a + raw b.
Proof.
  unfold WholePacks_checked_add, u32_checked_add.
  pose proof (WholePacks_range a). pose proof (WholePacks_range b).
  pose proof (WholePacks_range c). unfold HUB_MAX_WHOLE_PACKS in *.
  destruct (Z.ltb_spec (raw a + raw b) (2 ^ 32)); [|lia]. cbn [ok_or bind].
  apply checked_Ok.
Qed.

Lemma checked_sub_Ok a b c : WholePacks_checked_sub a b = Ok c <-> raw c = raw a - raw b.
Proof.
  unfold WholePacks_checked_sub, u32_checked_sub.
  pose proof (WholePacks_range c).
  destruct (Z.leb_spec (raw b) (raw a)); cbn [ok_or bind]; [apply checked_Ok|].
  split; [discriminate|lia].
Qed.

Lemma checked_add_Err a b e :
  WholePacks_checked_add a b = Err e <->
  HUB_MAX_WHOLE_PACKS < raw a + raw b /\ e = HubReferenceError.InvalidQuantity.
Proof.
  unfold WholePacks_checked_add, u32_checked_add.
  pose proof (WholePacks_range a). pose proof (WholePacks_range b). unfold HUB_MAX_WHOLE_PACKS in *.
  destruct (Z.ltb_spec (raw a + raw b) (2 ^ 32)); [|lia]. cbn [ok_or bind].
  unfold WholePacks_from_value. rewrite checked_Err, <- not_true_iff_false, WholePacks_check_iff.
  unfold HUB_MAX_WHOLE_PACKS. intuition lia.
Qed.

Lemma checked_sub_Err a b e :
  WholePacks_checked_sub a b = Err e <->
  raw a < raw b /\ e = HubReferenceError.InvalidQuantity.
Proof.
  destruct (WholePacks_checked_sub a b) as [c|e'] eqn:E.
  - apply checked_sub_Ok in E. pose proof (WholePacks_range c). split; [discriminate|lia].
  - unfold WholePacks_checked_sub, u32_checked_sub in E.
    destruct (Z.leb_spec (raw b) (raw a)); cbn [ok_or bind] in E.
    + apply checked_Err in E as [E _]. apply not_true_iff_false in E.
      rewrite WholePacks_check_iff in E.
      pose proof (WholePacks_range a). pose proof (WholePacks_range b). lia.
    + injection E as <-. split; [intros [= <-]; done|]. by intros [_ ->].
Qed.

#[export] Hint Rewrite checked_add_Ok checked_sub_Ok : okdb.

(** Every sum of packs the code accepts is exact. *)
Definition sum_packs (l : list WholePacks) : Z := foldr (fun p acc => raw p + acc) 0 l.

Lemma sum_packs_nonneg l : 0 <= sum_packs l.
Proof.
  induction l as [|p l IH]; simpl; [lia|]. pose proof (WholePacks_range p). lia.
Qed.

Lemma sum_packs_app l k : sum_packs (l ++ k) = sum_packs l + sum_packs k.
Proof. induction l; simpl; lia. Qed.

Lemma sum_packs_perm l k : Permutation l k -> sum_packs l = sum_packs k.
Proof. induction 1; simpl; lia. Qed.

Lemma try_fold_add_Ok {A E} (f : A -> WholePacks) (g : HubReferenceError -> E) l acc r :
  try_fold (fun total a => map_err g (WholePacks_checked_add total (f a))) acc l = Ok r <->
  raw r = raw acc + sum_packs (f <$> l).
Proof.
  revert acc. induction l as [|a l IH]; intros acc; csimpl.
  - split; [intros [= ->]; lia|]. intros H. f_equal. apply refined_eq. lia.
  - rewrite bind_Ok. setoid_rewrite map_err_Ok. setoid_rewrite checked_add_Ok.
    setoid_rewrite IH. split; [intros (x & Hx & ->); lia|]. intros Hr.
    pose proof (WholePacks_range r). pose proof (WholePacks_range (f a)).
    pose proof (WholePacks_range acc). pose proof (sum_packs_nonneg (f <$> l)).
    assert (WholePacks_check (raw acc + raw (f a)) = true) as Hc
      by (apply WholePacks_check_iff; lia).
    exists (Refined _ Hc). simpl. lia.
Qed.

(** ** Identifiers *)

Lemma HubRecordId_length (id : HubRecordId) : length (raw id) = 16%nat.
Proof.
  apply (raw_elim (fun l => length l = 16%nat) id). unfold HubRecordId_check, array_ok.
  intros l H. breflect. done.
Qed.

Definition hex_pair (b : byte) : list byte :=
  [hex_digit (Z.shiftr (byte_val b) 4); hex_digit (Z.land (byte_val b) 0x0F)].

Lemma hex_pair_parse b :
  u8_from_str_radix16 (hex_digit (Z.shiftr (byte_val b) 4)) (hex_digit (Z.land (byte_val b) 0x0F))
  = Some (byte_val b).
Proof. destruct b; vm_compute; reflexivity. Qed.

Lemma hex_pair_lower b : forallb is_lower_hex (hex_pair b) = true.
Proof. destruct b; vm_compute; reflexivity. Qed.

Lemma lower_hex_digit b :
  is_lower_hex b = true ->
  exists v, to_digit16 b = Some v /\ 0 <= v < 16 /\ hex_digit v = b /\ (byte_val b =? 0x2B) = false.
Proof.
  intros H. destruct b; try discriminate H;
    (eexists; split; [vm_compute; reflexivity|]; split; [lia|]; split; vm_compute; reflexivity).
Qed.

Lemma hex_nibbles x y :
  0 <= x < 16 -> 0 <= y < 16 ->
  let b := byte_of_Z (16 * x + y) in
  Z.shiftr (byte_val b) 4 = x /\ Z.land (byte_val b) 0x0F = y.
Proof.
  intros Hx Hy. simpl. rewrite byte_val_of_Z, Z.mod_small by lia.
  rewrite Z.shiftr_div_pow2 by lia. change 15 with (Z.ones 4). rewrite Z.land_ones by lia.
  change (2 ^ 4) with 16. Z.to_euclidean_division_equations; lia.
Qed.

Lemma byte_of_val b : byte_of_Z (byte_val b) = b.
Proof. apply byte_val_inj. rewrite byte_val_of_Z. apply Z.mod_small, byte_val_range. Qed.

Lemma parse_hex_print l :
  parse_hex_pairs (length l) (concat (hex_pair <$> l)) = Ok l.
Proof.
  induction l as [|b l IH]; [done|].
  cbn [length fmap list_fmap concat parse_hex_pairs hex_pair app].
  rewrite hex_pair_parse. cbn [ok_or bind].
  change (concat (list_fmap _ _ _ l)) with (concat (hex_pair <$> l)). rewrite IH. cbn [bind].
  by rewrite byte_of_val.
Qed.

Lemma print_hex_parse n value bytes :
  forallb is_lower_hex value = true -> length value = (2 * n)%nat ->
  parse_hex_pairs n value = Ok bytes -> concat (hex_pair <$> bytes) = value.
Proof.
  revert value bytes. induction n as [|n IH]; intros value bytes Hl Hn H; simpl in H.
  { injection H as <-. destruct value; [done|simpl in Hn; lia]. }
  destruct value as [|a [|b rest]]; [discriminate..|].
  simpl in Hl. apply andb_true_iff in Hl as [Ha Hl]. apply andb_true_iff in Hl as [Hb Hl].
  apply lower_hex_digit in Ha as (x & Ex & Hx & Hdx & Hpa).
  apply lower_hex_digit in Hb as (y & Ey & Hy & Hdy & _).
  unfold u8_from_str_radix16 in H. rewrite Hpa, Ex, Ey in H. cbn [ok_or bind] in H.
  destruct (parse_hex_pairs n rest) as [bs|] eqn:E; [|discriminate]. simpl in H.
  injection H as <-. simpl in Hn. apply IH in E; [|done|lia].
  destruct (hex_nibbles x y Hx Hy) as [Hsx Hsy].
  change (concat (hex_pair <$> byte_of_Z (16 * x + y) :: bs))
    with (hex_pair (byte_of_Z (16 * x + y)) ++ concat (hex_pair <$> bs)).
  rewrite E. unfold hex_pair. rewrite Hsx, Hsy, Hdx, Hdy. done.
Qed.

Lemma hex_print_length l : length (concat (hex_pair <$> l)) = (2 * length l)%nat.
Proof. induction l as [|b l IH]; csimpl; [done|lia]. Qed.

Lemma hex_print_lower l : forallb is_lower_hex (concat (hex_pair <$> l)) = true.
Proof.
  induction l as [|b l IH]; [done|].
  change (concat (hex_pair <$> b :: l)) with (hex_pair b ++ concat (hex_pair <$> l)).
  by rewrite forallb_app, hex_pair_lower, IH.
Qed.

(** The hexadecimal form is a bijection between identifiers and the strings
    [from_hex] accepts: parsing what [to_hex] prints gives the identifier back,
    and an accepted string is what [to_hex] prints. *)
Theorem hex_roundtrip id value :
  HubRecordId_from_hex value = Ok id <-> value = HubRecordId_to_hex id.
Proof.
  change (HubRecordId_to_hex id) with (concat (hex_pair <$> raw id)).
  unfold HubRecordId_from_hex. split.
  - intros H. step_ok H. breflect.
    apply checked_Ok in H. rewrite H. symmetry. by apply (print_hex_parse 16).
  - intros ->. rewrite hex_print_length, hex_print_lower, HubRecordId_length. cbn [negb orb].
    change (negb (2 * 16 =? 32)%nat || false) with false. cbn [negb orb].
    pose proof (parse_hex_print (raw id)) as Hp. rewrite HubRecordId_length in Hp. rewrite Hp.
    cbn [bind]. apply checked_raw.
Qed.

(** ** Encodings *)

Definition enc_id (id : HubRecordId) : list byte := raw id.
Definition enc_packs (p : WholePacks) : list byte := be_bytes 4 (raw p).
Definition enc_hub_text {n} (t : HubText n) : list byte := enc_text (raw t).
(** [hash.update([u8::from(id.is_some())])] and then the bytes. *)
Definition enc_optional_id (id : option HubRecordId) : list byte := enc_option enc_id id.

#[global] Instance enc_id_prefix : PrefixCode enc_id.
Proof. apply (fixed_prefix_code _ 16); [apply HubRecordId_length|intros a b; apply refined_eq]. Qed.
#[global] Instance enc_packs_prefix : PrefixCode enc_packs.
Proof.
  apply (fixed_prefix_code _ 4); [intros; apply be_bytes_length|].
  intros a b E. apply refined_eq. pose proof (WholePacks_range a). pose proof (WholePacks_range b).
  unfold HUB_MAX_WHOLE_PACKS in *. apply be_bytes_inj in E; lia.
Qed.
#[global] Instance enc_optional_id_prefix : PrefixCode enc_optional_id.
Proof. apply enc_option_prefix, enc_id_prefix. Qed.

Lemma HubText_len {n} (t : HubText n) : (str_len (raw t) <= n)%nat.
Proof.
  apply (raw_elim (fun s => str_len s <= n)%nat t). unfold HubText_check. intros s H.
  breflect. done.
Qed.

Lemma enc_hub_text_prefix n : Z.of_nat n < 2 ^ 64 -> PrefixCode (@enc_hub_text n).
Proof.
  intros Hn a b r s E. pose proof (HubText_len a). pose proof (HubText_len b).
  apply enc_text_inv in E as [E ->]; [|lia..]. apply refined_eq in E as ->. done.
Qed.
#[global] Instance enc_label_prefix : PrefixCode (@enc_hub_text HUB_LABEL_UTF8_BYTES).
Proof. by apply enc_hub_text_prefix. Qed.
#[global] Instance enc_source_code_prefix : PrefixCode (@enc_hub_text HUB_SOURCE_CODE_UTF8_BYTES).
Proof. by apply enc_hub_text_prefix. Qed.
#[global] Instance enc_provenance_prefix : PrefixCode (@enc_hub_text HUB_PROVENANCE_UTF8_BYTES).
Proof. by apply enc_hub_text_prefix. Qed.

(** One-byte enumeration tags. *)
Lemma enc_tag_inv x y r s :
  0 <= x < 256 -> 0 <= y < 256 -> enc_tag x ++ r = enc_tag y ++ s -> x = y /\ r = s.
Proof.
  intros Hx Hy E. unfold enc_tag in E. simpl in E. injection E as E ->.
  apply byte_of_Z_inj in E; auto.
Qed.

Definition LocationPurpose_tag (p : LocationPurpose) : Z :=
  match p with
  | LocationPurpose.Receiving => 1 | LocationPurpose.Storage => 2 | LocationPurpose.Other => 3
  end.
Definition ReferenceKind_tag (k : ReferenceKind) : Z :=
  match k with
  | ReferenceKind.Product => 1 | ReferenceKind.Pack => 2
  | ReferenceKind.Party => 3 | ReferenceKind.Location => 4
  end.

(** ** Samples *)

Definition sample_id (z : Z) : HubRecordId :=
  match HubRecordId_from_bytes (be_bytes 16 z) with
  | Ok id => id
  | Err _ => Refined (be_bytes 16 1) eq_refl
  end.
Definition sample_text {n} (fallback : HubText n) (s : string) : HubText n :=
  match HubText_new n (literal s) with Ok t => t | Err _ => fallback end.
Definition label_x : HubLabel := Refined (literal "x") eq_refl.
Definition provenance_x : SourceProvenance := Refined (literal "x") eq_refl.
Definition code_x : SourceCode := Refined (literal "x") eq_refl.
Definition sample_label (s : string) : HubLabel := sample_text label_x s.
Definition sample_provenance (s : string) : SourceProvenance := sample_text provenance_x s.
Definition sample_packs (z : Z) : WholePacks :=
  match WholePacks_from_value z with Ok p => p | Err _ => zero_packs end.
