(* ===== verification/Catalog.v ===== *)
(** * The reference catalog

    [ReferenceCatalog], its commands and their fingerprint ([hub/reference.rs]).
    [create] and [revise] mutate the catalog in place and are modelled as
    methods on the receiver, so that what a refused command leaves behind is a
    theorem and not a convention. *)

From Stdlib Require Import Bool ZArith Lia String.
From stdpp Require Import base decidable option list numbers sets relations.
From S2P Require Import Prelude Containers Encoding Hub Reference.

Record ReferenceCatalog := {
  rc_revision : HubRevision;
  rc_records : list (HubRecordId * ReferenceRecord)
}.
#[global] Instance ReferenceCatalog_eq_dec : EqDecision ReferenceCatalog.
Proof. solve_decision. Defined.

Record ReferenceChange := {
  ch_catalog_revision : HubRevision;
  ch_previous : option ReferenceRecord;
  ch_current : ReferenceRecord
}.

Module ReferenceMutation.
Inductive ReferenceMutation :=
| Create (id : HubRecordId) (value : ReferenceValue)
| Revise (id : HubRecordId) (expected_record_revision : HubRevision) (value : ReferenceValue).
End ReferenceMutation.
Abbreviation ReferenceMutation := ReferenceMutation.ReferenceMutation.

Record ReferenceCommand := {
  rcmd_expected_catalog_revision : HubRevision;
  rcmd_mutation : ReferenceMutation
}.

(** ** Reads *)

Definition ReferenceCatalog_default : ReferenceCatalog :=
  {| rc_revision := HubRevision_INITIAL; rc_records := [] |}.
Definition ReferenceCatalog_handling_basis (self : ReferenceCatalog) : SampleHandlingBasis :=
  WHOLE_PACK_V1.

Definition ReferenceCatalog_get (self : ReferenceCatalog) (id : HubRecordId)
  : result ReferenceRecord HubReferenceError :=
  ok_or (bt_get id (rc_records self)) HubReferenceError.MissingReference.

Definition ReferenceCatalog_require_kind (self : ReferenceCatalog) (id : HubRecordId)
    (kind : ReferenceKind) : result ReferenceRecord HubReferenceError :=
  let? record := ReferenceCatalog_get self id in
  if ReferenceValue_kind (rr_value record) !=? kind
  then Err HubReferenceError.WrongReferenceKind
  else Ok record.

Definition ReferenceCatalog_require_revision (self : ReferenceCatalog) (expected : HubRevision)
  : result unit HubReferenceError :=
  if expected !=? rc_revision self then Err HubReferenceError.StaleRevision else Ok tt.

Definition ReferenceCatalog_validate_value (self : ReferenceCatalog) (value : ReferenceValue)
  : result unit HubReferenceError :=
  match value with
  | ReferenceValue.Pack product _ _ =>
      let? _ := ReferenceCatalog_require_kind self product ReferenceKind.Product in Ok tt
  | _ => Ok tt
  end.

Definition next_revision (revision : HubRevision) : result HubRevision HubReferenceError :=
  map_err (fun _ => HubReferenceError.RevisionExhausted)
    (HubRevision_from_value (u64_add (raw revision) 1)).

(** ** Reconstruction from stored rows *)

Definition restore_insert (revision : HubRevision) (catalog : ReferenceCatalog)
    (record : ReferenceRecord) : result ReferenceCatalog HubReferenceError :=
  if raw (rr_revision record) >? raw revision then Err HubReferenceError.StaleRevision
  else if is_some (bt_get (rr_id record) (rc_records catalog))
  then Err HubReferenceError.DuplicateId
  else Ok {| rc_revision := rc_revision catalog;
             rc_records := bt_insert (rr_id record) record (rc_records catalog) |}.

Definition ReferenceCatalog_restore (revision : HubRevision) (records : list ReferenceRecord)
  : result ReferenceCatalog HubReferenceError :=
  if (HUB_REFERENCE_CAPACITY <? length records)%nat then Err HubReferenceError.Capacity
  else
    let? catalog := try_fold (restore_insert revision)
                      {| rc_revision := revision; rc_records := [] |} records in
    try_for_each (fun record => ReferenceCatalog_validate_value catalog (rr_value record))
      (bt_values (rc_records catalog)) ;;?
    Ok catalog.

(** ** Mutations *)

Definition records_insert (id : HubRecordId) (record : ReferenceRecord)
  : stm ReferenceCatalog HubReferenceError unit :=
  do! self <- stm_get;
  stm_put {| rc_revision := rc_revision self;
             rc_records := bt_insert id record (rc_records self) |}.
Definition set_catalog_revision (next : HubRevision)
  : stm ReferenceCatalog HubReferenceError unit :=
  do! self <- stm_get;
  stm_put {| rc_revision := next; rc_records := rc_records self |}.

Definition ReferenceCatalog_create (expected : HubRevision) (id : HubRecordId)
    (value : ReferenceValue) : stm ReferenceCatalog HubReferenceError ReferenceChange :=
  do! self <- stm_get;
  do! _ <- stm_lift (ReferenceCatalog_require_revision self expected);
  do! _ <- stm_lift (if is_some (bt_get id (rc_records self))
                     then Err HubReferenceError.DuplicateId else Ok tt);
  do! _ <- stm_lift (if (HUB_REFERENCE_CAPACITY <=? length (rc_records self))%nat
                     then Err HubReferenceError.Capacity else Ok tt);
  do! _ <- stm_lift (ReferenceCatalog_validate_value self value);
  do! next <- stm_lift (next_revision (rc_revision self));
  let record := {| rr_id := id; rr_revision := HubRevision_INITIAL; rr_value := value |} in
  do! _ <- records_insert id record;
  do! _ <- set_catalog_revision next;
  stm_ret {| ch_catalog_revision := next; ch_previous := None; ch_current := record |}.

(** The guard of [revise] on the old and the new value. *)
Definition revise_immutable (previous value : ReferenceValue) : result unit HubReferenceError :=
  match previous, value with
  | ReferenceValue.Pack _ _ _, _ => Err HubReferenceError.ImmutablePack
  | ReferenceValue.Location _ old, ReferenceValue.Location _ new =>
      if old !=? new then Err HubReferenceError.ImmutableLocationPurpose else Ok tt
  | _, _ => Ok tt
  end.

Definition ReferenceCatalog_revise (expected : HubRevision) (id : HubRecordId)
    (record_revision : HubRevision) (value : ReferenceValue)
  : stm ReferenceCatalog HubReferenceError ReferenceChange :=
  do! self <- stm_get;
  do! _ <- stm_lift (ReferenceCatalog_require_revision self expected);
  do! previous <- stm_lift (ReferenceCatalog_get self id);
  do! _ <- stm_lift (if rr_revision previous !=? record_revision
                     then Err HubReferenceError.StaleRevision else Ok tt);
  do! _ <- stm_lift (if ReferenceValue_kind (rr_value previous) !=? ReferenceValue_kind value
                     then Err HubReferenceError.WrongReferenceKind else Ok tt);
  do! _ <- stm_lift (if rr_value previous ==? value
                     then Err HubReferenceError.NoChange else Ok tt);
  do! _ <- stm_lift (revise_immutable (rr_value previous) value);
  do! _ <- stm_lift (ReferenceCatalog_validate_value self value);
  do! next <- stm_lift (next_revision (rc_revision self));
  do! record_next <- stm_lift (next_revision record_revision);
  let record := {| rr_id := id; rr_revision := record_next; rr_value := value |} in
  do! _ <- records_insert id record;
  do! _ <- set_catalog_revision next;
  stm_ret {| ch_catalog_revision := next; ch_previous := Some previous; ch_current := record |}.

Definition ReferenceCommand_apply (self : ReferenceCommand)
  : stm ReferenceCatalog HubReferenceError ReferenceChange :=
  match rcmd_mutation self with
  | ReferenceMutation.Create id value =>
      ReferenceCatalog_create (rcmd_expected_catalog_revision self) id value
  | ReferenceMutation.Revise id expected_record_revision value =>
      ReferenceCatalog_revise (rcmd_expected_catalog_revision self) id
        expected_record_revision value
  end.

(** [SourceReference::validate]. *)
Definition SourceReference_validate (self : SourceReference) (catalog : ReferenceCatalog)
  : result unit HubReferenceError :=
  match sr_issuer self with
  | Some issuer =>
      let? _ := ReferenceCatalog_require_kind catalog issuer ReferenceKind.Party in Ok tt
  | None => Ok tt
  end.

(** ** The fingerprinted message of a command *)

Definition enc_reference_payload (value : ReferenceValue) : list byte :=
  match value with
  | ReferenceValue.Pack product _ nominal_grams =>
      enc_id product ++ be_bytes 4 (match nominal_grams with Some g => raw g | None => 0 end)
  | ReferenceValue.Location _ purpose => enc_tag (LocationPurpose_tag purpose)
  | _ => []
  end.
Definition enc_reference_value (value : ReferenceValue) : list byte :=
  enc_tag (ReferenceKind_tag (ReferenceValue_kind value)) ++
  enc_hub_text (ReferenceValue_label value) ++ enc_reference_payload value.
Definition enc_reference_mutation (m : ReferenceMutation) : list byte :=
  match m with
  | ReferenceMutation.Create id value => enc_tag 1 ++ enc_id id ++ enc_reference_value value
  | ReferenceMutation.Revise id expected value =>
      enc_tag 2 ++ enc_revision expected ++ enc_id id ++ enc_reference_value value
  end.
Definition ReferenceCommand_message (self : ReferenceCommand) (hub : HubId) (actor : PublicKey)
  : list byte :=
  domain_tag "harvestcircle.hub.reference.command.v1" ++
  enc_hub hub ++ enc_key actor ++ enc_revision (rcmd_expected_catalog_revision self) ++
  enc_reference_mutation (rcmd_mutation self).
Definition ReferenceCommand_fingerprint `{Sha256} (self : ReferenceCommand) (hub : HubId)
    (actor : PublicKey) : array 32 :=
  digest32 (ReferenceCommand_message self hub actor).

(** ** Lookup lemmas *)

Lemma get_Ok c id r : ReferenceCatalog_get c id = Ok r <-> bt_get id (rc_records c) = Some r.
Proof. apply ok_or_Ok. Qed.

Lemma require_kind_Ok c id k r :
  ReferenceCatalog_require_kind c id k = Ok r <->
  bt_get id (rc_records c) = Some r /\ ReferenceValue_kind (rr_value r) = k.
Proof.
  unfold ReferenceCatalog_require_kind. rewrite bind_Ok. setoid_rewrite get_Ok. split.
  - intros (r' & Hg & H). case_bool_decide; simpl in H; simplify_eq. done.
  - intros [Hg Hk]. exists r. by rewrite bool_decide_eq_true_2.
Qed.

Lemma validate_value_Ok c v :
  ReferenceCatalog_validate_value c v = Ok tt <->
  match v with
  | ReferenceValue.Pack product _ _ =>
      exists r, bt_get product (rc_records c) = Some r /\
        ReferenceValue_kind (rr_value r) = ReferenceKind.Product
  | _ => True
  end.
Proof.
  unfold ReferenceCatalog_validate_value. destruct v; try done.
  rewrite bind_Ok. setoid_rewrite require_kind_Ok. naive_solver.
Qed.

Lemma next_revision_Ok r r' : next_revision r = Ok r' <-> raw r' = raw r + 1.
Proof.
  unfold next_revision. rewrite map_err_Ok. unfold HubRevision_from_value.
  by rewrite checked_Ok, u64_add_revision.
Qed.

#[export] Hint Rewrite get_Ok require_kind_Ok validate_value_Ok next_revision_Ok : okdb.

(** ** What a command does *)

(** The identifier and the value a mutation is about. *)
Definition mutation_id (m : ReferenceMutation) : HubRecordId :=
  match m with ReferenceMutation.Create id _ | ReferenceMutation.Revise id _ _ => id end.
Definition mutation_value (m : ReferenceMutation) : ReferenceValue :=
  match m with ReferenceMutation.Create _ v | ReferenceMutation.Revise _ _ v => v end.

(** The two values of a revision agree on what may not change. *)
Definition revisable (old new : ReferenceValue) : Prop :=
  match old, new with
  | ReferenceValue.Product _, ReferenceValue.Product _ => True
  | ReferenceValue.Party _, ReferenceValue.Party _ => True
  | ReferenceValue.Location _ p, ReferenceValue.Location _ q => p = q
  | _, _ => False
  end.

(** The complete effect of an accepted command. *)
Record command_effect (cmd : ReferenceCommand) (c c' : ReferenceCatalog) (ch : ReferenceChange)
  : Prop := {
  ce_expected : rcmd_expected_catalog_revision cmd = rc_revision c;
  ce_revision : raw (rc_revision c') = raw (rc_revision c) + 1;
  ce_change_revision : ch_catalog_revision ch = rc_revision c';
  ce_records : rc_records c' =
    bt_insert (mutation_id (rcmd_mutation cmd)) (ch_current ch) (rc_records c);
  ce_previous : ch_previous ch = bt_get (mutation_id (rcmd_mutation cmd)) (rc_records c);
  ce_id : rr_id (ch_current ch) = mutation_id (rcmd_mutation cmd);
  ce_value : rr_value (ch_current ch) = mutation_value (rcmd_mutation cmd);
  ce_valid : ReferenceCatalog_validate_value c (rr_value (ch_current ch)) = Ok tt;
  ce_kind : match rcmd_mutation cmd with
    | ReferenceMutation.Create _ _ =>
        ch_previous ch = None /\ rr_revision (ch_current ch) = HubRevision_INITIAL /\
        (length (rc_records c) < HUB_REFERENCE_CAPACITY)%nat
    | ReferenceMutation.Revise _ expected _ =>
        exists p, ch_previous ch = Some p /\ rr_revision p = expected /\
          raw (rr_revision (ch_current ch)) = raw (rr_revision p) + 1 /\
          revisable (rr_value p) (rr_value (ch_current ch)) /\
          rr_value p <> rr_value (ch_current ch)
    end
}.

Lemma stm_lift_bind {S E A B} (m : result A E) (k : A -> stm S E B) s :
  stm_bind (stm_lift m) k s = match m with Ok a => k a s | Err e => (s, Err e) end.
Proof. reflexivity. Qed.
Lemma stm_get_bind {S E B} (k : S -> stm S E B) s : stm_bind stm_get k s = k s s.
Proof. reflexivity. Qed.

(** Run a method to its next fallible call. *)
Ltac stm_step H :=
  rewrite ?stm_get_bind in H; rewrite stm_lift_bind in H;
  match type of H with
  | context [match ?m with Ok _ => _ | Err _ => _ end] =>
      let E := fresh "E" in destruct m eqn:E; [|by simplify_eq]
  end.

Lemma revise_immutable_Ok old new :
  ReferenceValue_kind old = ReferenceValue_kind new ->
  revise_immutable old new = Ok tt -> revisable old new.
Proof.
  destruct old, new; simpl; try done. intros _. case_bool_decide; simpl; [done|discriminate].
Qed.

Lemma apply_run cmd c c' r :
  ReferenceCommand_apply cmd c = (c', r) ->
  match r with Ok ch => command_effect cmd c c' ch | Err _ => c' = c end.
Proof.
  destruct cmd as [expected [id value|id rev value]];
    unfold ReferenceCommand_apply, ReferenceCatalog_create, ReferenceCatalog_revise;
    cbn [rcmd_mutation rcmd_expected_catalog_revision]; intros H.
  - do 5 stm_step H. cbn in H. unfold stm_ret in H. simplify_eq.
    unfold ReferenceCatalog_require_revision in E. step_ok E. step_ok E0. step_ok E1. breflect.
    destruct (bt_get id (rc_records c)) eqn:Eg; [done|].
    apply next_revision_Ok in E3. match goal with u : unit |- _ => destruct u end.
    by constructor.
  - do 9 stm_step H. cbn in H. unfold stm_ret in H. simplify_eq.
    unfold ReferenceCatalog_require_revision in E. step_ok E. apply get_Ok in E0.
    step_ok E1. step_ok E2. step_ok E3. breflect.
    repeat match goal with u : unit |- _ => destruct u end.
    apply next_revision_Ok in E6, E7.
    constructor; cbn; try done.
    exists a0. split; [done|]. split; [done|]. split; [congruence|].
    split; [by apply revise_immutable_Ok|done].
Qed.

(** A command either is refused and leaves the catalog exactly as it was,
    or has its complete effect: the expected revision was current, the catalog
    revision advances by one, one record is written under the commanded
    identifier, a creation starts at the initial revision on a free identifier
    below the capacity, and a revision advances the record by one without
    touching kind, pack identity or location purpose. *)
Theorem apply_atomic cmd c :
  match ReferenceCommand_apply cmd c with
  | (c', Ok ch) => command_effect cmd c c' ch
  | (c', Err _) => c' = c
  end.
Proof.
  destruct (ReferenceCommand_apply cmd c) as [c' r] eqn:E. apply apply_run in E. by destruct r.
Qed.

(** ** Invariant *)

Record catalog_wf (c : ReferenceCatalog) : Prop := {
  cw_sorted : bt_wf (rc_records c);
  cw_keys k r : bt_get k (rc_records c) = Some r -> rr_id r = k;
  cw_revisions k r :
    bt_get k (rc_records c) = Some r -> raw (rr_revision r) <= raw (rc_revision c);
  cw_products k r :
    bt_get k (rc_records c) = Some r -> ReferenceCatalog_validate_value c (rr_value r) = Ok tt;
  cw_capacity : (length (rc_records c) <= HUB_REFERENCE_CAPACITY)%nat
}.

Lemma command_effect_get cmd c c' ch k :
  command_effect cmd c c' ch ->
  bt_get k (rc_records c') =
    if decide (mutation_id (rcmd_mutation cmd) = k) then Some (ch_current ch)
    else bt_get k (rc_records c).
Proof. intros H. rewrite (ce_records _ _ _ _ H). apply bt_get_insert. Qed.

(** A record keeps its kind under every command, so a validated value stays
    valid. *)
Lemma command_effect_kind cmd c c' ch k r :
  command_effect cmd c c' ch -> bt_get k (rc_records c) = Some r ->
  exists r', bt_get k (rc_records c') = Some r' /\
    ReferenceValue_kind (rr_value r') = ReferenceValue_kind (rr_value r).
Proof.
  intros H Hg. rewrite (command_effect_get _ _ _ _ k H).
  destruct (decide (mutation_id (rcmd_mutation cmd) = k)) as [<-|]; [|eauto].
  exists (ch_current ch). split; [done|].
  pose proof (ce_kind _ _ _ _ H) as Hk. rewrite (ce_previous _ _ _ _ H), Hg in Hk.
  destruct (rcmd_mutation cmd); [naive_solver|].
  destruct Hk as (p & [= <-] & _ & _ & Hr & _).
  by destruct (rr_value r), (rr_value (ch_current ch)).
Qed.

Lemma command_effect_valid cmd c c' ch v :
  command_effect cmd c c' ch -> ReferenceCatalog_validate_value c v = Ok tt ->
  ReferenceCatalog_validate_value c' v = Ok tt.
Proof.
  intros H. rewrite !validate_value_Ok. destruct v; try done.
  intros (r & Hg & Hk). destruct (command_effect_kind _ _ _ _ _ _ H Hg) as (r' & Hg' & Hk').
  exists r'. split; [done|congruence].
Qed.

Lemma command_effect_wf cmd c c' ch :
  command_effect cmd c c' ch -> catalog_wf c -> catalog_wf c'.
Proof.
  intros H Hw. pose proof (ce_revision _ _ _ _ H) as Hrev.
  pose proof (ce_kind _ _ _ _ H) as Hk. pose proof (ce_previous _ _ _ _ H) as Hp.
  constructor.
  - rewrite (ce_records _ _ _ _ H). apply bt_insert_wf, Hw.
  - intros k r. rewrite (command_effect_get _ _ _ _ k H). case_decide as E.
    + intros [= <-]. rewrite <- E. apply (ce_id _ _ _ _ H).
    + apply Hw.
  - intros k r. rewrite (command_effect_get _ _ _ _ k H). case_decide as E.
    + intros [= <-]. destruct (rcmd_mutation cmd).
      * destruct Hk as (_ & -> & _). simpl. pose proof (HubRevision_range (rc_revision c)). lia.
      * destruct Hk as (p & Ep & _ & -> & _). rewrite Ep in Hp. symmetry in Hp.
        apply (cw_revisions _ Hw) in Hp. lia.
    + intros Hg. apply (cw_revisions _ Hw) in Hg. lia.
  - intros k r. rewrite (command_effect_get _ _ _ _ k H). case_decide as E.
    + intros [= <-]. eapply command_effect_valid; [done|]. apply (ce_valid _ _ _ _ H).
    + intros Hg. eapply command_effect_valid; [done|]. by eapply cw_products.
  - rewrite (ce_records _ _ _ _ H), bt_insert_length by apply Hw. rewrite <- Hp.
    destruct (rcmd_mutation cmd).
    + destruct Hk as (-> & _ & Hl). simpl. lia.
    + destruct Hk as (p & -> & _). simpl. apply Hw.
Qed.

Lemma restore_fold_inv revision records c c' :
  try_fold (restore_insert revision) c records = Ok c' ->
  bt_wf (rc_records c) ->
  (forall k r, bt_get k (rc_records c) = Some r ->
     rr_id r = k /\ raw (rr_revision r) <= raw revision) ->
  rc_revision c' = rc_revision c /\ bt_wf (rc_records c') /\
  length (rc_records c') = (length (rc_records c) + length records)%nat /\
  (forall k r, bt_get k (rc_records c') = Some r ->
     rr_id r = k /\ raw (rr_revision r) <= raw revision).
Proof.
  revert c. induction records as [|x records IH]; intros c H Hw Hk; simpl in H.
  { simplify_eq. split_and!; [done|done|simpl; lia|done]. }
  apply bind_Ok in H as (a & E & H). unfold restore_insert in E. step_ok E. injection E as <-.
  breflect. apply IH in H as (Hr & Hw' & Hl & Hk').
  - split; [done|]. split; [done|]. split; [|done]. rewrite Hl. simpl.
    rewrite bt_insert_length by done. rewrite E1. lia.
  - simpl. by apply bt_insert_wf.
  - simpl. intros k r. rewrite bt_get_insert. case_decide as Ek; [|apply Hk].
    intros [= <-]. split; [done|lia].
Qed.

Lemma restore_wf revision records c :
  ReferenceCatalog_restore revision records = Ok c ->
  rc_revision c = revision /\ catalog_wf c.
Proof.
  unfold ReferenceCatalog_restore. intros H. step_ok H. breflect. injection H as <-.
  match goal with u : unit |- _ => destruct u end.
  apply restore_fold_inv in E0 as (Hr & Hw & Hl & Hk); [|apply bt_wf_nil|by intros ? ? [=]].
  simpl in Hr, Hl. split; [done|]. constructor; [done|naive_solver| | |lia].
  - intros k r Hg. rewrite Hr. by destruct (Hk _ _ Hg).
  - intros k r Hg. apply try_for_each_Ok in E1. rewrite list.Forall_forall in E1.
    apply E1, bt_values_elem_of. exists k. by apply bt_get_elem_of.
Qed.

(** ** Runs of the catalog *)

(** Any command, accepted or refused. *)
Definition catalog_step (c c' : ReferenceCatalog) : Prop :=
  exists cmd r, ReferenceCommand_apply cmd c = (c', r).

(** Catalogs the program can hold: fresh or restored, then commanded. *)
Inductive reachable : ReferenceCatalog -> Prop :=
| reachable_default : reachable ReferenceCatalog_default
| reachable_restore revision records c :
    ReferenceCatalog_restore revision records = Ok c -> reachable c
| reachable_step c c' : reachable c -> catalog_step c c' -> reachable c'.

Lemma catalog_step_wf c c' : catalog_step c c' -> catalog_wf c -> catalog_wf c'.
Proof.
  intros (cmd & r & H%apply_run) Hw. destruct r; [by eapply command_effect_wf|by subst].
Qed.

(** Every catalog the program reaches is well formed: records are stored
    under their own identifiers, no record is newer than the catalog, every
    pack names a present product, and the capacity is kept. *)
Theorem reachable_wf c : reachable c -> catalog_wf c.
Proof.
  induction 1 as [|? ? ? H|c c' _ IH H].
  - constructor; [apply bt_wf_nil|done..|simpl; unfold HUB_REFERENCE_CAPACITY; lia].
  - by apply restore_wf in H as [_ H].
  - by eapply catalog_step_wf.
Qed.

(** What a later record of the same identifier still tells about an earlier
    one. *)
Record record_history (r r' : ReferenceRecord) : Prop := {
  rh_kind : ReferenceValue_kind (rr_value r') = ReferenceValue_kind (rr_value r);
  rh_pack : ReferenceValue_kind (rr_value r) = ReferenceKind.Pack -> r' = r;
  rh_purpose l p l' p' : rr_value r = ReferenceValue.Location l p ->
    rr_value r' = ReferenceValue.Location l' p' -> p' = p;
  rh_revision : raw (rr_revision r) <= raw (rr_revision r');
  rh_same : rr_revision r' = rr_revision r -> r' = r
}.

Lemma record_history_refl r : record_history r r.
Proof. constructor; first [done|congruence|lia]. Qed.

Lemma record_history_trans r1 r2 r3 :
  record_history r1 r2 -> record_history r2 r3 -> record_history r1 r3.
Proof.
  intros [k1 p1 q1 v1 s1] [k2 p2 q2 v2 s2]. constructor.
  - congruence.
  - intros Hk. rewrite p2 by congruence. auto.
  - intros l p l' p' E1 E3. destruct (rr_value r2) eqn:E2; rewrite E1 in k1; try discriminate k1.
    etransitivity; [by eapply q2|by eapply q1].
  - lia.
  - intros E. rewrite E in v2. assert (rr_revision r2 = rr_revision r1) as E2 by (apply refined_eq; lia).
    rewrite s2 by congruence. auto.
Qed.

Lemma step_history c c' k r :
  catalog_step c c' -> bt_get k (rc_records c) = Some r ->
  exists r', bt_get k (rc_records c') = Some r' /\ record_history r r'.
Proof.
  intros (cmd & [ch|e] & H%apply_run) Hg; [|subst; eauto using record_history_refl].
  rewrite (command_effect_get _ _ _ _ k H).
  destruct (decide (mutation_id (rcmd_mutation cmd) = k)) as [<-|];
    [|eauto using record_history_refl].
  exists (ch_current ch). split; [done|].
  pose proof (ce_kind _ _ _ _ H) as Hk. rewrite (ce_previous _ _ _ _ H), Hg in Hk.
  destruct (rcmd_mutation cmd); [naive_solver|]. destruct Hk as (p & [= <-] & _ & Hr & Hv & _).
  constructor; [by destruct (rr_value r), (rr_value (ch_current ch))| | |lia|].
  - intros E. by destruct (rr_value r).
  - intros l p l' p' E1 E2. rewrite E1, E2 in Hv. done.
  - intros E. rewrite E in Hr. lia.
Qed.

Lemma catalog_run_history c c' :
  rtc catalog_step c c' ->
  (forall k r, bt_get k (rc_records c) = Some r ->
     exists r', bt_get k (rc_records c') = Some r' /\ record_history r r') /\
  raw (rc_revision c) <= raw (rc_revision c') /\
  (rc_revision c' = rc_revision c -> c' = c).
Proof.
  induction 1 as [c|c1 c2 c3 Hs _ (IH1 & IH2 & IH3)].
  { split; [eauto using record_history_refl|]. split; [lia|done]. }
  split; [|].
  - intros k r Hg. destruct (step_history _ _ _ _ Hs Hg) as (r2 & Hg2 & H2).
    destruct (IH1 _ _ Hg2) as (r3 & Hg3 & H3). eauto using record_history_trans.
  - destruct Hs as (cmd & [ch|e] & H%apply_run); [|by subst].
    pose proof (ce_revision _ _ _ _ H) as Hr. split; [lia|]. intros E. rewrite E in IH2. lia.
Qed.

(** Along any run of commands a record never disappears, a pack is never
    altered, kinds and location purposes are fixed, and a record revision, like
    the catalog revision, determines what it names: equal revisions at two
    points of a run mean the same record, and the same catalog. *)
Theorem catalog_history c c' :
  rtc catalog_step c c' ->
  (forall k r, bt_get k (rc_records c) = Some r ->
     exists r', bt_get k (rc_records c') = Some r' /\ record_history r r') /\
  raw (rc_revision c) <= raw (rc_revision c') /\
  (rc_revision c' = rc_revision c -> c' = c).
Proof. apply catalog_run_history. Qed.

(** ** The message determines the command *)

Lemma NominalGrams_range (g : NominalGrams) : 1 <= raw g <= HUB_MAX_NOMINAL_GRAMS.
Proof.
  apply (raw_elim (fun v => 1 <= v <= HUB_MAX_NOMINAL_GRAMS) g).
  unfold NominalGrams_check, u32_range. intros v H. breflect. lia.
Qed.

(** Zero is free to stand for an absent nominal weight. *)
Lemma enc_grams_inv (g g' : option NominalGrams) r s :
  be_bytes 4 (match g with Some g => raw g | None => 0 end) ++ r =
  be_bytes 4 (match g' with Some g => raw g | None => 0 end) ++ s -> g = g' /\ r = s.
Proof.
  intros E. peel E. split; [|done].
  match goal with H : be_bytes 4 _ = _ |- _ => apply be_bytes_inj in H end;
    destruct g as [g|], g' as [g'|]; try pose proof (NominalGrams_range g);
    try pose proof (NominalGrams_range g'); unfold HUB_MAX_NOMINAL_GRAMS in *; try lia; [|done].
  f_equal. by apply refined_eq.
Qed.

#[global] Instance enc_reference_value_prefix : PrefixCode enc_reference_value.
Proof.
  intros a b r s E. unfold enc_reference_value in E. rewrite <- !app_assoc in E.
  apply enc_tag_inv in E as [Ek E]; [|destruct a; simpl; lia|destruct b; simpl; lia].
  peel E. destruct a, b; try discriminate Ek; simpl in *; subst; try done.
  - peel E. apply enc_grams_inv in E as [-> ->]. by subst.
  - apply enc_tag_inv in E as [Ep ->]; [|destruct purpose; simpl; lia|destruct purpose0; simpl; lia].
    split; [|done]. by destruct purpose, purpose0.
Qed.

#[global] Instance enc_reference_mutation_prefix : PrefixCode enc_reference_mutation.
Proof.
  intros [id v|id rev v] [id' v'|id' rev' v'] r s E; unfold enc_reference_mutation in E;
    rewrite <- ?app_assoc in E; apply enc_tag_inv in E as [Et E]; try lia; try discriminate Et.
  - do 2 peel E. by subst.
  - do 3 peel E. by subst.
Qed.

(** Two reference commands with the same fingerprinted message are the same
    command of the same actor on the same hub. *)
Theorem ReferenceCommand_message_inj cmd cmd' hub hub' actor actor' :
  ReferenceCommand_message cmd hub actor = ReferenceCommand_message cmd' hub' actor' <->
  cmd = cmd' /\ hub = hub' /\ actor = actor'.
Proof.
  split; [|by intros (-> & -> & ->)]. intros E. unfold ReferenceCommand_message in E.
  apply app_inv_head in E. do 3 peel E. apply prefix_code_inj in E; [|apply _].
  destruct cmd, cmd'; simpl in *. by subst.
Qed.

(** ** A concrete catalog *)

Definition value_product : ReferenceValue := ReferenceValue.Product (sample_label "Carrots").
Definition value_product2 : ReferenceValue := ReferenceValue.Product (sample_label "Carrot").
Definition value_pack : ReferenceValue :=
  ReferenceValue.Pack (sample_id 11) (sample_label "Crate") None.
Definition value_party : ReferenceValue := ReferenceValue.Party (sample_label "Farm").
Definition value_receiving : ReferenceValue :=
  ReferenceValue.Location (sample_label "Dock") LocationPurpose.Receiving.
Definition value_storage : ReferenceValue :=
  ReferenceValue.Location (sample_label "Cold room") LocationPurpose.Storage.
Definition sample_record (id : Z) (v : ReferenceValue) : ReferenceRecord :=
  {| rr_id := sample_id id; rr_revision := HubRevision_INITIAL; rr_value := v |}.
Definition sample_records : list ReferenceRecord :=
  [sample_record 12 value_pack; sample_record 11 value_product; sample_record 13 value_party;
   sample_record 21 value_receiving; sample_record 22 value_storage;
   sample_record 23 value_storage].
Definition sample_catalog : ReferenceCatalog :=
  match ReferenceCatalog_restore (sample_revision 7) sample_records with
  | Ok c => c
  | Err _ => ReferenceCatalog_default
  end.
Definition sample_revise : ReferenceCommand :=
  {| rcmd_expected_catalog_revision := sample_revision 7;
     rcmd_mutation := ReferenceMutation.Revise (sample_id 11) (sample_revision 1) value_product2 |}.
Definition sample_catalog2 : ReferenceCatalog := (ReferenceCommand_apply sample_revise sample_catalog).1.

Lemma sample_catalog_restored :
  ReferenceCatalog_restore (sample_revision 7) sample_records = Ok sample_catalog.
Proof. vm_compute. reflexivity. Qed.

Lemma sample_catalog_step : catalog_step sample_catalog sample_catalog2.
Proof. exists sample_revise. eexists. apply surjective_pairing. Qed.

Lemma reachable_wf_witness : length (rc_records sample_catalog2) = 6%nat /\ catalog_wf sample_catalog2.
Proof.
  split; [vm_compute; reflexivity|].
  apply (reachable_wf sample_catalog2), (reachable_step sample_catalog).
  - exact (reachable_restore _ _ _ sample_catalog_restored).
  - exact sample_catalog_step.
Defined.

Lemma catalog_history_witness :
  raw (rc_revision sample_catalog) = 7 /\ raw (rc_revision sample_catalog2) = 8 /\
  raw (rc_revision sample_catalog) <= raw (rc_revision sample_catalog2).
Proof.
  split; [vm_compute; reflexivity|]. split; [vm_compute; reflexivity|].
  exact (proj1 (proj2 (catalog_history _ _ (rtc_once _ _ sample_catalog_step)))).
Defined.
