(* ===== verification/Stock.v ===== *)
(** * Whole-pack intake

    [hub/stock.rs]: occurrences, the quantity work account, populations and the
    receipt command with its plan and fingerprint. *)

From Stdlib Require Import Bool ZArith Lia String.
From stdpp Require Import base decidable option list numbers sets.
From S2P Require Import Prelude Containers Encoding Hub Reference Catalog.

(** ** Identities derived from an operation *)

(** [Sha256(tag, purpose, operation)[..16]] as a record identifier. *)
Definition derive_identity `{Sha256} (tag : string) (purpose : list byte) (operation : HubRecordId)
  : result HubRecordId HubReferenceError :=
  HubRecordId_from_bytes
    (take 16 (sha256 (domain_tag tag ++ purpose ++ enc_id operation))).

Module StockError.
Inductive StockError :=
| Reference (e : HubReferenceError)
| StaleRevision
| RevisionExhausted
| EmptyQuantity
| InvalidReceivingLocation
| InvalidPutAwayTarget
| InvalidOccurrence
| InvalidWorkAccounting
| SourceIdentityConflict.
#[global] Instance StockError_eq_dec : EqDecision StockError.
Proof. solve_decision. Defined.
End StockError.
Abbreviation StockError := StockError.StockError.

Record ReceiptIdentities := {
  ri_trace : HubRecordId;
  ri_group : HubRecordId;
  ri_source : HubRecordId
}.
Definition ReceiptIdentities_from_operation_bytes `{Sha256} (operation : HubRecordId)
  : result ReceiptIdentities StockError :=
  let derive (purpose : string) :=
    map_err StockError.Reference
      (derive_identity "harvestcircle.hub.receipt.identity.v1" (domain_tag purpose) operation) in
  let? trace := derive "trace"%string in
  let? group := derive "group"%string in
  let? source := derive "source"%string in
  Ok {| ri_trace := trace; ri_group := group; ri_source := source |}.

(** ** Occurrences *)

Module Occurrence.
Inductive Occurrence :=
| Known (at_ : UnixTimestamp)
| Interval (earliest latest : UnixTimestamp)
| Unknown.
#[global] Instance Occurrence_eq_dec : EqDecision Occurrence.
Proof. solve_decision. Defined.
End Occurrence.
Abbreviation Occurrence := Occurrence.Occurrence.

Definition Occurrence_validate (self : Occurrence) (recorded_at : UnixTimestamp)
  : result unit StockError :=
  let valid :=
    match self with
    | Occurrence.Known at_ => raw at_ <=? raw recorded_at
    | Occurrence.Interval earliest latest =>
        (raw earliest <=? raw latest) && (raw latest <=? raw recorded_at)
    | Occurrence.Unknown => true
    end in
  if valid then Ok tt else Err StockError.InvalidOccurrence.

(** ** The quantity work account *)

Record QuantityWorkFields := {
  qw_required : WholePacks;
  qw_completed : WholePacks;
  qw_no_longer_required : WholePacks;
  qw_remaining : WholePacks
}.
#[global] Instance QuantityWorkFields_eq_dec : EqDecision QuantityWorkFields.
Proof. solve_decision. Defined.

Definition work_accounted (completed no_longer_required remaining : WholePacks)
  : result WholePacks HubReferenceError :=
  let? sum := WholePacks_checked_add completed no_longer_required in
  WholePacks_checked_add sum remaining.
Definition QuantityWork_check (q : QuantityWorkFields) : bool :=
  match work_accounted (qw_completed q) (qw_no_longer_required q) (qw_remaining q) with
  | Ok accounted => accounted ==? qw_required q
  | Err _ => false
  end.
(** The fields of [QuantityWork] are private: its values are those [pending] and
    [restore] build. *)
Abbreviation QuantityWork := (refined QuantityWork_check).

Lemma work_accounted_Ok c n r t :
  work_accounted c n r = Ok t <-> raw t = raw c + raw n + raw r.
Proof.
  unfold work_accounted. rewrite bind_Ok. setoid_rewrite checked_add_Ok. split.
  - intros (s & -> & ->). done.
  - intros Ht. pose proof (WholePacks_range t). pose proof (WholePacks_range c).
    pose proof (WholePacks_range n). pose proof (WholePacks_range r).
    assert (WholePacks_check (raw c + raw n) = true) as Hc by (apply WholePacks_check_iff; lia).
    by exists (Refined _ Hc).
Qed.

Lemma QuantityWork_check_iff q :
  QuantityWork_check q = true <->
  raw (qw_required q) =
    raw (qw_completed q) + raw (qw_no_longer_required q) + raw (qw_remaining q).
Proof.
  unfold QuantityWork_check.
  destruct (work_accounted _ _ _) as [t|e] eqn:E.
  - apply work_accounted_Ok in E. rewrite bool_decide_eq_true. split; [congruence|].
    intros H. apply refined_eq. lia.
  - split; [discriminate|]. intros H.
    assert (work_accounted (qw_completed q) (qw_no_longer_required q) (qw_remaining q)
            = Ok (qw_required q)) by by apply work_accounted_Ok.
    congruence.
Qed.

Definition QuantityWork_pending (required : WholePacks) : QuantityWork.
Proof.
  refine (Refined {| qw_required := required; qw_completed := zero_packs;
                     qw_no_longer_required := zero_packs; qw_remaining := required |} _).
  abstract (apply QuantityWork_check_iff; simpl; lia).
Defined.

Definition QuantityWork_restore (required completed no_longer_required remaining : WholePacks)
  : result QuantityWork StockError :=
  let? _ := map_err StockError.Reference (work_accounted completed no_longer_required remaining) in
  checked QuantityWork_check StockError.InvalidWorkAccounting
    {| qw_required := required; qw_completed := completed;
       qw_no_longer_required := no_longer_required; qw_remaining := remaining |}.

Definition required (q : QuantityWork) : WholePacks := qw_required (raw q).
Definition completed (q : QuantityWork) : WholePacks := qw_completed (raw q).
Definition no_longer_required (q : QuantityWork) : WholePacks := qw_no_longer_required (raw q).
Definition remaining (q : QuantityWork) : WholePacks := qw_remaining (raw q).

Lemma QuantityWork_balance (q : QuantityWork) :
  raw (required q) = raw (completed q) + raw (no_longer_required q) + raw (remaining q).
Proof. apply QuantityWork_check_iff, raw_ok. Qed.

Lemma restore_Ok r c n m q :
  QuantityWork_restore r c n m = Ok q <->
  required q = r /\ completed q = c /\ no_longer_required q = n /\ remaining q = m.
Proof.
  unfold QuantityWork_restore. rewrite bind_Ok. setoid_rewrite checked_Ok. split.
  - intros (? & _ & E). unfold required, completed, no_longer_required, remaining. by rewrite E.
  - intros (<- & <- & <- & <-). exists (required q). split.
    + apply map_err_Ok, work_accounted_Ok, QuantityWork_balance.
    + unfold required, completed, no_longer_required, remaining. by destruct (raw q).
Qed.

(** [QuantityWork::restore] accepts exactly balanced accounts: it returns
    the account with the given fields when they add up, reports the sum that
    exceeds the pack limit, and otherwise reports the imbalance. *)
Theorem QuantityWork_restore_correct r c n m :
  match QuantityWork_restore r c n m with
  | Ok q => required q = r /\ completed q = c /\ no_longer_required q = n /\ remaining q = m /\
      raw r = raw c + raw n + raw m
  | Err StockError.InvalidWorkAccounting =>
      raw c + raw n + raw m <= HUB_MAX_WHOLE_PACKS /\ raw r <> raw c + raw n + raw m
  | Err (StockError.Reference HubReferenceError.InvalidQuantity) =>
      HUB_MAX_WHOLE_PACKS < raw c + raw n + raw m
  | Err _ => False
  end.
Proof.
  destruct (QuantityWork_restore r c n m) as [q|e] eqn:E.
  { apply restore_Ok in E as (<- & <- & <- & <-). split_and!; try done. apply QuantityWork_balance. }
  unfold QuantityWork_restore in E. destruct (work_accounted c n m) as [t|e'] eqn:Ea.
  - cbn [map_err bind] in E. apply work_accounted_Ok in Ea. apply checked_Err in E as [E ->].
    apply not_true_iff_false in E. rewrite QuantityWork_check_iff in E. simpl in E.
    pose proof (WholePacks_range t). split; [lia|done].
  - cbn [map_err bind] in E. injection E as <-.
    assert (HUB_MAX_WHOLE_PACKS < raw c + raw n + raw m /\ e' = HubReferenceError.InvalidQuantity)
      as [? ->]; [|done].
    pose proof (WholePacks_range m). unfold work_accounted in Ea.
    destruct (WholePacks_checked_add c n) as [s|e] eqn:Es; cbn [bind] in Ea.
    + apply checked_add_Ok in Es. apply checked_add_Err in Ea as [Ea ->]. split; [lia|done].
    + injection Ea as ->. apply checked_add_Err in Es as [Es ->]. split; [lia|done].
Qed.

(** ** Populations *)

Module OpeningHistory.
Inductive OpeningHistory := Unknown | ExternalReference (p : SourceProvenance).
#[global] Instance OpeningHistory_eq_dec : EqDecision OpeningHistory.
Proof. solve_decision. Defined.
End OpeningHistory.
Abbreviation OpeningHistory := OpeningHistory.OpeningHistory.

Module PopulationOrigin.
Inductive PopulationOrigin :=
| Receipt
| CountedOpening (history : OpeningHistory)
| CountedSurplus (count related_population : HubRecordId)
| Returned (returned : HubRecordId).
#[global] Instance PopulationOrigin_eq_dec : EqDecision PopulationOrigin.
Proof. solve_decision. Defined.
End PopulationOrigin.
Abbreviation PopulationOrigin := PopulationOrigin.PopulationOrigin.

Record StockPopulation := {
  sp_id : HubRecordId;
  sp_variant : ReferenceRecord;
  sp_product : ReferenceRecord;
  sp_supplier : option ReferenceRecord;
  sp_producer : option ReferenceRecord;
  sp_source : SourceAttribution;
  sp_source_issuer : option ReferenceRecord;
  sp_original_packs : WholePacks;
  sp_initial_location : ReferenceRecord;
  sp_origin : PopulationOrigin;
  sp_planned_location : option ReferenceRecord;
  sp_occurred : Occurrence;
  sp_recorded_at : UnixTimestamp;
  sp_actor : PublicKey;
  sp_observation : SourceProvenance
}.
#[global] Instance StockPopulation_eq_dec : EqDecision StockPopulation.
Proof. solve_decision. Defined.

Definition StockPopulation_source_needs_review (self : StockPopulation) : bool :=
  match sp_source self with
  | SourceAttribution.Unknown => true
  | SourceAttribution.Referenced source certainty =>
      (certainty !=? SourceCertainty.Established) || is_none (sr_issuer source)
  end.

Record StockPosition := {
  pos_group : HubRecordId;
  pos_trace : HubRecordId;
  pos_variant : HubRecordId;
  pos_location : HubRecordId;
  pos_packs : WholePacks;
  pos_revision : HubRevision
}.

Record ReceiptPlan := {
  rp_stock_revision : HubRevision;
  rp_trace : StockPopulation;
  rp_position : StockPosition;
  rp_put_away : QuantityWork
}.

Record ReceiptCommand := {
  rec_expected_stock_revision : HubRevision;
  rec_expected_catalog_revision : HubRevision;
  rec_variant : HubRecordId;
  rec_supplier : option HubRecordId;
  rec_producer : option HubRecordId;
  rec_source : SourceAttribution;
  rec_packs : WholePacks;
  rec_receiving : HubRecordId;
  rec_planned_location : option HubRecordId;
  rec_occurred : Occurrence;
  rec_observation : SourceProvenance
}.

(** ** Planning a receipt *)

(** The issuer of a referenced source, validated and then looked up. *)
Definition resolve_source_issuer (catalog : ReferenceCatalog) (source : SourceAttribution)
  : result (option ReferenceRecord) HubReferenceError :=
  match source with
  | SourceAttribution.Unknown => Ok None
  | SourceAttribution.Referenced source _ =>
      SourceReference_validate source catalog ;;?
      transpose_map (fun id => ReferenceCatalog_require_kind catalog id ReferenceKind.Party)
        (sr_issuer source)
  end.

Definition ReceiptCommand_plan (self : ReceiptCommand) (catalog : ReferenceCatalog)
    (current_stock_revision : HubRevision) (trace group : HubRecordId) (actor : PublicKey)
    (recorded_at : UnixTimestamp) : result ReceiptPlan StockError :=
  if (rec_expected_stock_revision self !=? current_stock_revision)
     || (rec_expected_catalog_revision self !=? rc_revision catalog)
  then Err StockError.StaleRevision
  else if raw (rec_packs self) =? 0 then Err StockError.EmptyQuantity
  else
    Occurrence_validate (rec_occurred self) recorded_at ;;?
    let? variant := map_err StockError.Reference
      (ReferenceCatalog_require_kind catalog (rec_variant self) ReferenceKind.Pack) in
    let? product_id :=
      match rr_value variant with
      | ReferenceValue.Pack product _ _ => Ok product
      | _ => Err (StockError.Reference HubReferenceError.WrongReferenceKind)
      end in
    let? product := map_err StockError.Reference
      (ReferenceCatalog_require_kind catalog product_id ReferenceKind.Product) in
    let party id := ReferenceCatalog_require_kind catalog id ReferenceKind.Party in
    let? supplier := map_err StockError.Reference (transpose_map party (rec_supplier self)) in
    let? producer := map_err StockError.Reference (transpose_map party (rec_producer self)) in
    let? source_issuer := map_err StockError.Reference
      (resolve_source_issuer catalog (rec_source self)) in
    let? receiving := map_err StockError.Reference
      (ReferenceCatalog_require_kind catalog (rec_receiving self) ReferenceKind.Location) in
    (if negb match rr_value receiving with
             | ReferenceValue.Location _ LocationPurpose.Receiving => true
             | _ => false
             end
     then Err StockError.InvalidReceivingLocation else Ok tt) ;;?
    (if rec_planned_location self ==? Some (rec_receiving self)
     then Err StockError.InvalidPutAwayTarget else Ok tt) ;;?
    let? planned_location := map_err StockError.Reference
      (transpose_map
         (fun id => ReferenceCatalog_require_kind catalog id ReferenceKind.Location)
         (rec_planned_location self)) in
    let? stock_revision := map_err (fun _ => StockError.RevisionExhausted)
      (HubRevision_from_value (u64_add (raw current_stock_revision) 1)) in
    Ok {|
      rp_stock_revision := stock_revision;
      rp_trace := {|
        sp_id := trace;
        sp_variant := variant;
        sp_product := product;
        sp_supplier := supplier;
        sp_producer := producer;
        sp_source := rec_source self;
        sp_source_issuer := source_issuer;
        sp_original_packs := rec_packs self;
        sp_initial_location := receiving;
        sp_origin := PopulationOrigin.Receipt;
        sp_planned_location := planned_location;
        sp_occurred := rec_occurred self;
        sp_recorded_at := recorded_at;
        sp_actor := actor;
        sp_observation := rec_observation self
      |};
      rp_position := {|
        pos_group := group;
        pos_trace := trace;
        pos_variant := rec_variant self;
        pos_location := rec_receiving self;
        pos_packs := rec_packs self;
        pos_revision := HubRevision_INITIAL
      |};
      rp_put_away := QuantityWork_pending (rec_packs self)
    |}.

(** [validate_source_reuse]. *)
Fixpoint source_reuse_scan (source : SourceReference) (existing : list SourceAttribution)
  : result unit StockError :=
  match existing with
  | [] => Ok tt
  | previous :: existing =>
      match previous with
      | SourceAttribution.Referenced original _ =>
          if (sr_id original ==? sr_id source) && (original !=? source)
          then Err StockError.SourceIdentityConflict
          else source_reuse_scan source existing
      | SourceAttribution.Unknown => source_reuse_scan source existing
      end
  end.
Definition validate_source_reuse (proposed : SourceAttribution)
    (existing : list SourceAttribution) : result unit StockError :=
  match proposed with
  | SourceAttribution.Referenced source _ => source_reuse_scan source existing
  | SourceAttribution.Unknown => Ok tt
  end.

(** ** Fingerprint *)

Definition SourceReferenceKind_tag (k : SourceReferenceKind) : Z :=
  match k with
  | SourceReferenceKind.ProducerBatch => 1
  | SourceReferenceKind.SupplierReference => 2
  | SourceReferenceKind.Other => 3
  end.
Definition SourceCertainty_tag (c : SourceCertainty) : Z :=
  match c with
  | SourceCertainty.ReportedPossible => 1
  | SourceCertainty.Established => 2
  end.
Definition hash_source (source : SourceAttribution) : list byte :=
  match source with
  | SourceAttribution.Unknown => enc_tag 0
  | SourceAttribution.Referenced source certainty =>
      enc_tag 1 ++ enc_id (sr_id source) ++ enc_optional_id (sr_issuer source) ++
      enc_tag (SourceReferenceKind_tag (sr_kind source)) ++ enc_hub_text (sr_code source) ++
      enc_hub_text (sr_provenance source) ++ enc_tag (SourceCertainty_tag certainty)
  end.
Definition hash_occurrence (o : Occurrence) : list byte :=
  match o with
  | Occurrence.Unknown => enc_tag 0
  | Occurrence.Known at_ => enc_tag 1 ++ enc_seconds at_
  | Occurrence.Interval earliest latest =>
      enc_tag 2 ++ enc_seconds earliest ++ enc_seconds latest
  end.
Definition ReceiptCommand_message (self : ReceiptCommand) (hub : HubId) (actor : PublicKey)
    (trace group : HubRecordId) : list byte :=
  domain_tag "harvestcircle.hub.receipt.command.v1" ++
  enc_hub hub ++ enc_key actor ++ enc_id trace ++ enc_id group ++
  enc_revision (rec_expected_stock_revision self) ++
  enc_revision (rec_expected_catalog_revision self) ++
  enc_id (rec_variant self) ++ enc_optional_id (rec_supplier self) ++
  enc_optional_id (rec_producer self) ++ enc_packs (rec_packs self) ++
  enc_id (rec_receiving self) ++ enc_optional_id (rec_planned_location self) ++
  hash_source (rec_source self) ++ hash_occurrence (rec_occurred self) ++
  enc_hub_text (rec_observation self).
Definition ReceiptCommand_fingerprint `{Sha256} (self : ReceiptCommand) (hub : HubId)
    (actor : PublicKey) (trace group : HubRecordId) : array 32 :=
  digest32 (ReceiptCommand_message self hub actor trace group).

(** ** Receipts: what is planned *)

Definition optional_record (catalog : ReferenceCatalog) (kind : ReferenceKind)
    (id : option HubRecordId) (r : option ReferenceRecord) : Prop :=
  match id, r with
  | None, None => True
  | Some id, Some r =>
      bt_get id (rc_records catalog) = Some r /\ ReferenceValue_kind (rr_value r) = kind
  | _, _ => False
  end.

Lemma transpose_kind_Ok catalog kind id r :
  transpose_map (fun id => ReferenceCatalog_require_kind catalog id kind) id = Ok r <->
  optional_record catalog kind id r.
Proof.
  rewrite transpose_map_Ok. destruct id as [id|]; simpl; [|by destruct r].
  setoid_rewrite require_kind_Ok. destruct r as [r|]; naive_solver.
Qed.

Lemma resolve_source_issuer_Ok catalog source r :
  resolve_source_issuer catalog source = Ok r <->
  match source with
  | SourceAttribution.Unknown => r = None
  | SourceAttribution.Referenced s _ =>
      optional_record catalog ReferenceKind.Party (sr_issuer s) r
  end.
Proof.
  unfold resolve_source_issuer. destruct source as [|s ?]; [split; congruence|].
  rewrite bind_Ok. setoid_rewrite transpose_kind_Ok. split; [by intros (? & _ & ?)|].
  intros H. exists tt. split; [|done]. unfold SourceReference_validate.
  destruct (sr_issuer s) as [i|]; [|done]. apply bind_Ok.
  destruct r as [r|]; [|done]. exists r. by rewrite require_kind_Ok.
Qed.

#[export] Hint Rewrite restore_Ok transpose_kind_Ok resolve_source_issuer_Ok : okdb.

(** When a receipt is accepted, and the plan it then has. *)
Record receipt_facts (self : ReceiptCommand) (catalog : ReferenceCatalog)
    (current : HubRevision) (trace group : HubRecordId) (actor : PublicKey)
    (recorded_at : UnixTimestamp) (p : ReceiptPlan) : Prop := {
  rf_stock : rec_expected_stock_revision self = current;
  rf_catalog : rec_expected_catalog_revision self = rc_revision catalog;
  rf_packs : 0 < raw (rec_packs self);
  rf_occurred : Occurrence_validate (rec_occurred self) recorded_at = Ok tt;
  rf_variant : exists product label grams,
    bt_get (rec_variant self) (rc_records catalog) = Some (sp_variant (rp_trace p)) /\
    rr_value (sp_variant (rp_trace p)) = ReferenceValue.Pack product label grams /\
    bt_get product (rc_records catalog) = Some (sp_product (rp_trace p)) /\
    ReferenceValue_kind (rr_value (sp_product (rp_trace p))) = ReferenceKind.Product;
  rf_supplier : optional_record catalog ReferenceKind.Party (rec_supplier self)
    (sp_supplier (rp_trace p));
  rf_producer : optional_record catalog ReferenceKind.Party (rec_producer self)
    (sp_producer (rp_trace p));
  rf_issuer : match rec_source self with
    | SourceAttribution.Unknown => sp_source_issuer (rp_trace p) = None
    | SourceAttribution.Referenced s _ =>
        optional_record catalog ReferenceKind.Party (sr_issuer s) (sp_source_issuer (rp_trace p))
    end;
  rf_receiving : exists label,
    bt_get (rec_receiving self) (rc_records catalog) = Some (sp_initial_location (rp_trace p)) /\
    rr_value (sp_initial_location (rp_trace p)) =
      ReferenceValue.Location label LocationPurpose.Receiving;
  rf_target : rec_planned_location self <> Some (rec_receiving self);
  rf_planned : optional_record catalog ReferenceKind.Location (rec_planned_location self)
    (sp_planned_location (rp_trace p));
  rf_next : raw (rp_stock_revision p) = raw current + 1;
  rf_trace : rp_trace p = {|
    sp_id := trace;
    sp_variant := sp_variant (rp_trace p);
    sp_product := sp_product (rp_trace p);
    sp_supplier := sp_supplier (rp_trace p);
    sp_producer := sp_producer (rp_trace p);
    sp_source := rec_source self;
    sp_source_issuer := sp_source_issuer (rp_trace p);
    sp_original_packs := rec_packs self;
    sp_initial_location := sp_initial_location (rp_trace p);
    sp_origin := PopulationOrigin.Receipt;
    sp_planned_location := sp_planned_location (rp_trace p);
    sp_occurred := rec_occurred self;
    sp_recorded_at := recorded_at;
    sp_actor := actor;
    sp_observation := rec_observation self |};
  rf_position : rp_position p = {|
    pos_group := group; pos_trace := trace; pos_variant := rec_variant self;
    pos_location := rec_receiving self; pos_packs := rec_packs self;
    pos_revision := HubRevision_INITIAL |};
  rf_put_away : required (rp_put_away p) = rec_packs self /\
    remaining (rp_put_away p) = rec_packs self
}.

Lemma pending_unique (q : QuantityWork) p :
  required q = p -> remaining q = p -> q = QuantityWork_pending p.
Proof.
  intros Hr Hm. apply refined_eq. pose proof (QuantityWork_balance q) as Hb.
  pose proof (WholePacks_range (completed q)). pose proof (WholePacks_range (no_longer_required q)).
  unfold required, remaining, completed, no_longer_required in *.
  destruct (raw q) as [a b c d]; simpl in *; subst.
  assert (b = zero_packs) as -> by (apply refined_eq; simpl; lia).
  assert (c = zero_packs) as -> by (apply refined_eq; simpl; lia). done.
Qed.

(** A receipt is accepted exactly when both revisions are current, the
    quantity is positive, the occurrence is not in the future and every
    reference exists with its kind; the plan then records those references as
    they are in the catalog, places the whole quantity at the receiving
    location and opens put-away work for exactly that quantity. *)
Theorem ReceiptCommand_plan_correct self catalog current trace group actor recorded_at p :
  ReceiptCommand_plan self catalog current trace group actor recorded_at = Ok p <->
  receipt_facts self catalog current trace group actor recorded_at p.
Proof.
  unfold ReceiptCommand_plan. split.
  - intros H. run_ok. ok_facts. pose proof (WholePacks_range (rec_packs self)).
    constructor; cbn; try first [done | lia | by eauto 8].
    destruct (rr_value x5) as [| | |label' purpose]; try discriminate.
    destruct purpose; try discriminate. eauto.
  - intros []. destruct p as [rev tr po pa]; cbn in *.
    destruct rf_variant0 as (product & label & grams & Hv & Hp & Hpr & Hk).
    destruct rf_receiving0 as (l & Hr & Hl). destruct rf_put_away0 as [Hq1 Hq2].
    rewrite !bool_decide_eq_true_2 by done. cbn [negb orb].
    rewrite (proj2 (Z.eqb_neq _ 0)) by lia.
    apply bind_Ok. exists tt. split; [done|].
    apply bind_Ok. exists (sp_variant tr). rewrite map_err_Ok, require_kind_Ok, Hp. split; [done|].
    apply bind_Ok. exists product. split; [done|].
    apply bind_Ok. exists (sp_product tr). rewrite map_err_Ok, require_kind_Ok. split; [done|].
    apply bind_Ok. exists (sp_supplier tr). rewrite map_err_Ok, transpose_kind_Ok. split; [done|].
    apply bind_Ok. exists (sp_producer tr). rewrite map_err_Ok, transpose_kind_Ok. split; [done|].
    apply bind_Ok. exists (sp_source_issuer tr). rewrite map_err_Ok, resolve_source_issuer_Ok.
    split; [done|].
    apply bind_Ok. exists (sp_initial_location tr). rewrite map_err_Ok, require_kind_Ok, Hl.
    split; [done|]. cbn [negb bind]. rewrite bool_decide_eq_false_2 by done. cbn [bind].
    apply bind_Ok. exists (sp_planned_location tr). rewrite map_err_Ok, transpose_kind_Ok.
    split; [done|].
    apply bind_Ok. exists rev. rewrite map_err_Ok, from_value_next_Ok. split; [done|].
    f_equal. rewrite (pending_unique pa (rec_packs self)) by done. congruence.
Qed.

(** A proposed source may be recorded exactly when every recorded source
    with the same identifier is the same in all its fields; codes are never
    compared. *)
Theorem validate_source_reuse_correct proposed existing :
  validate_source_reuse proposed existing = Ok tt <->
  match proposed with
  | SourceAttribution.Unknown => True
  | SourceAttribution.Referenced source _ =>
      forall original certainty,
        SourceAttribution.Referenced original certainty ∈ existing ->
        sr_id original = sr_id source -> original = source
  end.
Proof.
  destruct proposed as [|source ?]; [done|]. simpl.
  induction existing as [|[|original ?] existing IH]; simpl.
  - split; [by intros _ ? ? ?%not_elem_of_nil|done].
  - rewrite IH. split; intros H o c' Hin; eapply H; [|by right].
    apply elem_of_cons in Hin as [?|?]; [discriminate|done].
  - case_bool_decide as Hid; [case_bool_decide as Heq|]; simpl.
    + rewrite IH. split; intros H o c' Hin Ho; [|eapply H; [by right|done]].
      apply elem_of_cons in Hin as [[= -> ->]|Hin]; eauto.
    + split; [discriminate|]. intros H. exfalso. apply Heq. eapply H; [by left|done].
    + rewrite IH. split; intros H o c' Hin Ho; [|eapply H; [by right|done]].
      apply elem_of_cons in Hin as [[= -> ->]|Hin]; [done|eauto].
Qed.

(** ** The message determines the receipt *)

#[global] Instance hash_source_prefix : PrefixCode hash_source.
Proof.
  intros [|s c] [|s' c'] r t E; unfold hash_source in E; rewrite <- ?app_assoc in E;
    apply enc_tag_inv in E as [Et E]; try lia; try discriminate Et; [done|].
  do 2 peel E. apply enc_tag_inv in E as [Ek E];
    [|destruct (sr_kind s); simpl; lia|destruct (sr_kind s'); simpl; lia].
  do 2 peel E. apply enc_tag_inv in E as [Ec ->];
    [|destruct c; simpl; lia|destruct c'; simpl; lia].
  split; [|done]. destruct s as [? ? k ? ?], s' as [? ? k' ? ?]; simpl in *; subst.
  assert (k = k') as -> by (by destruct k, k').
  assert (c = c') as -> by (by destruct c, c'). done.
Qed.

#[global] Instance hash_occurrence_prefix : PrefixCode hash_occurrence.
Proof.
  intros [a|a b|] [a'|a' b'|] r t E; unfold hash_occurrence in E; rewrite <- ?app_assoc in E;
    apply enc_tag_inv in E as [Et E]; try lia; try discriminate Et; repeat peel E; by subst.
Qed.

(** Two receipts with the same fingerprinted message agree in every field,
    in the identities reserved for them, in the actor and in the hub. *)
Theorem ReceiptCommand_message_inj cmd cmd' hub hub' actor actor' trace trace' group group' :
  ReceiptCommand_message cmd hub actor trace group =
    ReceiptCommand_message cmd' hub' actor' trace' group' <->
  cmd = cmd' /\ hub = hub' /\ actor = actor' /\ trace = trace' /\ group = group'.
Proof.
  split; [|by intros (-> & -> & -> & -> & ->)]. intros E. unfold ReceiptCommand_message in E.
  apply app_inv_head in E. do 14 peel E. apply prefix_code_inj in E; [|apply _].
  destruct cmd, cmd'; simpl in *. by subst.
Qed.
