(* ===== verification/Movement.v ===== *)
(** * Physical groups and their movement

    [hub/movement.rs] with its [partition] and the requirement part of its
    [work] module: physical stock groups, the requirements their packs are
    allocated to, the conserved partition of a group, and the movement command. *)

From Stdlib Require Import Bool ZArith Lia String.
From stdpp Require Import base decidable option list numbers sets.
From S2P Require Import Prelude Containers Encoding Hub Reference Catalog Stock.

Definition HUB_GROUP_REQUIREMENTS : nat := 64.
Definition HUB_REQUIREMENT_GROUPS : nat := 256.

Module MovementError.
Inductive MovementError :=
| Reference (e : HubReferenceError)
| Stock (e : StockError)
| StaleRevision
| RevisionExhausted
| InvalidGroup
| InsufficientStock
| UnchangedLocation
| PhysicalIdentificationRequired
| IdentityConflict
| InvalidWorkScope
| Capacity
| NoRemainingWork
| AlreadyResolved.
#[global] Instance MovementError_eq_dec : EqDecision MovementError.
Proof. solve_decision. Defined.
End MovementError.
Abbreviation MovementError := MovementError.MovementError.

(** [movement::next]. *)
Definition movement_next (revision : HubRevision) : result HubRevision MovementError :=
  map_err (fun _ => MovementError.RevisionExhausted) (HubRevision_next revision).

(** ** Data *)

Record PhysicalIdentification := {
  pi_label : HubLabel;
  pi_observation : SourceProvenance
}.
#[global] Instance PhysicalIdentification_eq_dec : EqDecision PhysicalIdentification.
Proof. solve_decision. Defined.

Module WorkProgress.
Inductive WorkProgress := Pending | Completed | NoLongerRequired.
#[global] Instance WorkProgress_eq_dec : EqDecision WorkProgress.
Proof. solve_decision. Defined.
End WorkProgress.
Abbreviation WorkProgress := WorkProgress.WorkProgress.

Record WorkRequirement := {
  wr_id : HubRecordId;
  wr_trace : HubRecordId;
  wr_variant : HubRecordId;
  wr_target : option ReferenceRecord;
  wr_quantity : QuantityWork;
  wr_revision : HubRevision
}.
#[global] Instance WorkRequirement_eq_dec : EqDecision WorkRequirement.
Proof. solve_decision. Defined.

Record WorkAllocation := {
  wa_requirement : WorkRequirement;
  wa_progress : WorkProgress
}.
#[global] Instance WorkAllocation_eq_dec : EqDecision WorkAllocation.
Proof. solve_decision. Defined.

Record PhysicalStockGroup := {
  pg_id : HubRecordId;
  pg_trace : HubRecordId;
  pg_variant : HubRecordId;
  pg_parent : option HubRecordId;
  pg_identification : option PhysicalIdentification;
  pg_location : HubRecordId;
  pg_packs : WholePacks;
  pg_revision : HubRevision;
  pg_causal_floor : option UnixTimestamp;
  pg_work : list WorkAllocation
}.
#[global] Instance PhysicalStockGroup_eq_dec : EqDecision PhysicalStockGroup.
Proof. solve_decision. Defined.

(** ** Requirements *)

Definition WorkRequirement_validate (self : WorkRequirement) : result unit MovementError :=
  if is_some_and (wr_target self)
       (fun target => ReferenceValue_kind (rr_value target) !=? ReferenceKind.Location)
     || (raw (required (wr_quantity self)) =? 0)
     || (is_none (wr_target self) && negb (raw (completed (wr_quantity self)) =? 0))
  then Err MovementError.InvalidWorkScope
  else Ok tt.

(** [Self { quantity, revision, ..self.clone() }]. *)
Definition wr_with (self : WorkRequirement) (quantity : QuantityWork) (revision : HubRevision)
  : WorkRequirement :=
  {| wr_id := wr_id self; wr_trace := wr_trace self; wr_variant := wr_variant self;
     wr_target := wr_target self; wr_quantity := quantity; wr_revision := revision |}.

Definition WorkRequirement_complete (self : WorkRequirement) (packs : WholePacks)
  : result WorkRequirement MovementError :=
  if raw packs =? 0 then Err MovementError.InvalidWorkScope
  else
    let? done_packs := map_err MovementError.Reference
      (WholePacks_checked_add (completed (wr_quantity self)) packs) in
    let? left_packs := map_err MovementError.Reference
      (WholePacks_checked_sub (remaining (wr_quantity self)) packs) in
    let? quantity := map_err MovementError.Stock
      (QuantityWork_restore (required (wr_quantity self)) done_packs
         (no_longer_required (wr_quantity self)) left_packs) in
    let? revision := movement_next (wr_revision self) in
    Ok (wr_with self quantity revision).

Definition WorkRequirement_retire_remaining (self : WorkRequirement)
  : result WorkRequirement MovementError :=
  if raw (remaining (wr_quantity self)) =? 0 then Err MovementError.NoRemainingWork
  else
    let? retired := map_err MovementError.Reference
      (WholePacks_checked_add (no_longer_required (wr_quantity self))
         (remaining (wr_quantity self))) in
    let? zero := map_err MovementError.Reference (WholePacks_from_value 0) in
    let? quantity := map_err MovementError.Stock
      (QuantityWork_restore (required (wr_quantity self)) (completed (wr_quantity self))
         retired zero) in
    let? revision := movement_next (wr_revision self) in
    Ok (wr_with self quantity revision).

(** ** Groups *)

Definition accounted_packs (allocation : WorkAllocation) : WholePacks :=
  match wa_progress allocation with
  | WorkProgress.Pending => remaining (wr_quantity (wa_requirement allocation))
  | WorkProgress.Completed => completed (wr_quantity (wa_requirement allocation))
  | WorkProgress.NoLongerRequired => no_longer_required (wr_quantity (wa_requirement allocation))
  end.

(** One turn of the loop of [PhysicalStockGroup::validate]; [earlier] is
    [self.work[..index]]. *)
Definition validate_allocation (self : PhysicalStockGroup) (earlier : list WorkAllocation)
    (allocation : WorkAllocation) : result unit MovementError :=
  let requirement := wa_requirement allocation in
  WorkRequirement_validate requirement ;;?
  if (wr_trace requirement !=? pg_trace self) || (wr_variant requirement !=? pg_variant self)
     || existsb (fun other => wr_id (wa_requirement other) ==? wr_id requirement) earlier
  then Err MovementError.InvalidWorkScope
  else if raw (accounted_packs allocation) <? raw (pg_packs self)
  then Err MovementError.InvalidWorkScope
  else if (wa_progress allocation ==? WorkProgress.Pending)
          && is_some_and (wr_target requirement) (fun target => rr_id target ==? pg_location self)
  then Err MovementError.InvalidWorkScope
  else Ok tt.

Fixpoint validate_work (self : PhysicalStockGroup) (earlier rest : list WorkAllocation)
  : result unit MovementError :=
  match rest with
  | [] => Ok tt
  | allocation :: rest =>
      validate_allocation self earlier allocation ;;?
      validate_work self (earlier ++ [allocation]) rest
  end.

Definition PhysicalStockGroup_validate (self : PhysicalStockGroup) : result unit MovementError :=
  if (raw (pg_packs self) =? 0) || (pg_parent self ==? Some (pg_id self))
  then Err MovementError.InvalidGroup
  else if is_some (pg_parent self) && is_none (pg_identification self)
  then Err MovementError.PhysicalIdentificationRequired
  else if (HUB_GROUP_REQUIREMENTS <? length (pg_work self))%nat
  then Err MovementError.Capacity
  else validate_work self [] (pg_work self).

Definition PhysicalStockGroup_validate_catalog (self : PhysicalStockGroup)
    (catalog : ReferenceCatalog) : result unit MovementError :=
  PhysicalStockGroup_validate self ;;?
  let? _ := map_err MovementError.Reference
    (ReferenceCatalog_require_kind catalog (pg_variant self) ReferenceKind.Pack) in
  let? _ := map_err MovementError.Reference
    (ReferenceCatalog_require_kind catalog (pg_location self) ReferenceKind.Location) in
  try_for_each
    (fun allocation =>
       match wr_target (wa_requirement allocation) with
       | Some target =>
           let? _ := map_err MovementError.Reference
             (ReferenceCatalog_require_kind catalog (rr_id target) ReferenceKind.Location) in
           Ok tt
       | None => Ok tt
       end)
    (pg_work self).

(** ** Partition *)

Record PhysicalPartition := {
  pp_remainder : option PhysicalStockGroup;
  pp_selected : PhysicalStockGroup
}.

Definition PhysicalStockGroup_partition (self : PhysicalStockGroup) (packs : WholePacks)
    (child_id : HubRecordId) (identification : option PhysicalIdentification)
  : result PhysicalPartition MovementError :=
  PhysicalStockGroup_validate self ;;?
  if (raw packs =? 0) || (raw packs >? raw (pg_packs self))
  then Err MovementError.InsufficientStock
  else if packs !=? pg_packs self then
    let? identification := ok_or identification MovementError.PhysicalIdentificationRequired in
    if (child_id ==? pg_id self)
       || is_some_and (pg_identification self)
            (fun original => pi_label original ==? pi_label identification)
    then Err MovementError.IdentityConflict
    else
      let? rest := map_err MovementError.Reference
        (WholePacks_checked_sub (pg_packs self) packs) in
      let? revision := movement_next (pg_revision self) in
      Ok {|
        pp_remainder := Some {|
          pg_id := pg_id self; pg_trace := pg_trace self; pg_variant := pg_variant self;
          pg_parent := pg_parent self; pg_identification := pg_identification self;
          pg_location := pg_location self; pg_packs := rest; pg_revision := revision;
          pg_causal_floor := pg_causal_floor self; pg_work := pg_work self |};
        pp_selected := {|
          pg_id := child_id; pg_trace := pg_trace self; pg_variant := pg_variant self;
          pg_parent := Some (pg_id self); pg_identification := Some identification;
          pg_location := pg_location self; pg_packs := packs;
          pg_revision := HubRevision_INITIAL;
          pg_causal_floor := pg_causal_floor self; pg_work := pg_work self |}
      |}
  else if is_some identification then Err MovementError.IdentityConflict
  else
    let? revision := movement_next (pg_revision self) in
    Ok {|
      pp_remainder := None;
      pp_selected := {|
        pg_id := pg_id self; pg_trace := pg_trace self; pg_variant := pg_variant self;
        pg_parent := pg_parent self; pg_identification := pg_identification self;
        pg_location := pg_location self; pg_packs := packs; pg_revision := revision;
        pg_causal_floor := pg_causal_floor self; pg_work := pg_work self |}
    |}.

(** [Option::max]: [None] is the least. *)
Definition option_max (a b : option UnixTimestamp) : option UnixTimestamp :=
  match a, b with
  | None, b => b
  | a, None => a
  | Some x, Some y => if raw y <? raw x then Some x else Some y
  end.

Definition PhysicalStockGroup_observation_floor (self : PhysicalStockGroup)
    (occurred : Occurrence) (recorded_at : UnixTimestamp)
  : result (option UnixTimestamp) MovementError :=
  map_err MovementError.Stock (Occurrence_validate occurred recorded_at) ;;?
  if is_some_and (pg_causal_floor self)
       (fun floor =>
          match occurred with
          | Occurrence.Known at_ => raw at_ <? raw floor
          | Occurrence.Interval _ latest => raw latest <? raw floor
          | Occurrence.Unknown => false
          end)
  then Err (MovementError.Stock StockError.InvalidOccurrence)
  else
    let observed :=
      match occurred with
      | Occurrence.Known at_ => Some at_
      | Occurrence.Interval earliest _ => Some earliest
      | Occurrence.Unknown => None
      end in
    Ok (option_max (pg_causal_floor self) observed).

(** ** Movement *)

Record MovementCommand := {
  mv_expected_stock_revision : HubRevision;
  mv_expected_catalog_revision : HubRevision;
  mv_group : HubRecordId;
  mv_expected_group_revision : HubRevision;
  mv_to : HubRecordId;
  mv_packs : WholePacks;
  mv_separated_portion : option PhysicalIdentification;
  mv_occurred : Occurrence;
  mv_observation : SourceProvenance
}.

Record MovementPlan := {
  mp_stock_revision : HubRevision;
  mp_from : HubRecordId;
  mp_destination : ReferenceRecord;
  mp_remaining : option PhysicalStockGroup;
  mp_moved : PhysicalStockGroup;
  mp_work_updates : list WorkRequirement
}.

Definition pg_set_work (g : PhysicalStockGroup) (work : list WorkAllocation) : PhysicalStockGroup :=
  {| pg_id := pg_id g; pg_trace := pg_trace g; pg_variant := pg_variant g;
     pg_parent := pg_parent g; pg_identification := pg_identification g;
     pg_location := pg_location g; pg_packs := pg_packs g; pg_revision := pg_revision g;
     pg_causal_floor := pg_causal_floor g; pg_work := work |}.
Definition pg_set_floor (g : PhysicalStockGroup) (floor : option UnixTimestamp) : PhysicalStockGroup :=
  {| pg_id := pg_id g; pg_trace := pg_trace g; pg_variant := pg_variant g;
     pg_parent := pg_parent g; pg_identification := pg_identification g;
     pg_location := pg_location g; pg_packs := pg_packs g; pg_revision := pg_revision g;
     pg_causal_floor := floor; pg_work := pg_work g |}.
Definition pg_set_location (g : PhysicalStockGroup) (location : HubRecordId) : PhysicalStockGroup :=
  {| pg_id := pg_id g; pg_trace := pg_trace g; pg_variant := pg_variant g;
     pg_parent := pg_parent g; pg_identification := pg_identification g;
     pg_location := location; pg_packs := pg_packs g; pg_revision := pg_revision g;
     pg_causal_floor := pg_causal_floor g; pg_work := pg_work g |}.
Definition pg_set_revision (g : PhysicalStockGroup) (revision : HubRevision) : PhysicalStockGroup :=
  {| pg_id := pg_id g; pg_trace := pg_trace g; pg_variant := pg_variant g;
     pg_parent := pg_parent g; pg_identification := pg_identification g;
     pg_location := pg_location g; pg_packs := pg_packs g; pg_revision := revision;
     pg_causal_floor := pg_causal_floor g; pg_work := pg_work g |}.

(** [parent.work[index].requirement = requirement]: both portions are clones of
    one group, so the index is in range. *)
Definition set_requirement_at (index : nat) (requirement : WorkRequirement)
    (parent : PhysicalStockGroup) : PhysicalStockGroup :=
  pg_set_work parent
    (alter (fun a => {| wa_requirement := requirement; wa_progress := wa_progress a |})
       index (pg_work parent)).

(** The destination is the target of this pending allocation. *)
Definition credits (to : HubRecordId) (allocation : WorkAllocation) : bool :=
  (wa_progress allocation ==? WorkProgress.Pending)
  && is_some_and (wr_target (wa_requirement allocation)) (fun target => rr_id target ==? to).

(** The loop over [moved.work]: credited requirements are completed by the moved
    packs, recorded as updates, and mirrored in the remaining portion. *)
Fixpoint credit_work (to : HubRecordId) (packs : WholePacks) (index : nat)
    (work : list WorkAllocation) (rest : option PhysicalStockGroup)
  : result (list WorkAllocation * list WorkRequirement * option PhysicalStockGroup)
      MovementError :=
  match work with
  | [] => Ok ([], [], rest)
  | allocation :: work =>
      if credits to allocation then
        let? requirement := WorkRequirement_complete (wa_requirement allocation) packs in
        let? (done_work, updates, rest) :=
          credit_work to packs (S index) work (set_requirement_at index requirement <$> rest) in
        Ok ({| wa_requirement := requirement; wa_progress := WorkProgress.Completed |} :: done_work,
            requirement :: updates, rest)
      else
        let? (done_work, updates, rest) := credit_work to packs (S index) work rest in
        Ok (allocation :: done_work, updates, rest)
  end.

Definition MovementCommand_plan (self : MovementCommand) (catalog : ReferenceCatalog)
    (stock_revision : HubRevision) (source : PhysicalStockGroup)
    (separated_group_id : HubRecordId) (recorded_at : UnixTimestamp)
  : result MovementPlan MovementError :=
  PhysicalStockGroup_validate_catalog source catalog ;;?
  if (mv_expected_stock_revision self !=? stock_revision)
     || (mv_expected_catalog_revision self !=? rc_revision catalog)
     || (mv_group self !=? pg_id source)
     || (mv_expected_group_revision self !=? pg_revision source)
  then Err MovementError.StaleRevision
  else if (raw (mv_packs self) =? 0) || (raw (mv_packs self) >? raw (pg_packs source))
  then Err MovementError.InsufficientStock
  else
    let? causal_floor :=
      PhysicalStockGroup_observation_floor source (mv_occurred self) recorded_at in
    let? destination := map_err MovementError.Reference
      (ReferenceCatalog_require_kind catalog (mv_to self) ReferenceKind.Location) in
    if mv_to self ==? pg_location source then Err MovementError.UnchangedLocation
    else
      let? partition := PhysicalStockGroup_partition source (mv_packs self)
        separated_group_id (mv_separated_portion self) in
      let moved := pg_set_floor (pg_set_location (pp_selected partition) (mv_to self))
                     causal_floor in
      let? (work, work_updates, rest) :=
        credit_work (mv_to self) (mv_packs self) 0 (pg_work moved) (pp_remainder partition) in
      let moved := pg_set_work moved work in
      PhysicalStockGroup_validate moved ;;?
      (match rest with Some parent => PhysicalStockGroup_validate parent | None => Ok tt end) ;;?
      let? next := movement_next stock_revision in
      Ok {| mp_stock_revision := next; mp_from := pg_location source;
            mp_destination := destination; mp_remaining := rest; mp_moved := moved;
            mp_work_updates := work_updates |}.

(** ** Fingerprint *)

Definition enc_identification (i : PhysicalIdentification) : list byte :=
  enc_hub_text (pi_label i) ++ enc_hub_text (pi_observation i).
Definition MovementCommand_message (self : MovementCommand) (hub : HubId) (actor : PublicKey)
    (separated_group_id : HubRecordId) : list byte :=
  domain_tag "harvestcircle.hub.movement.command.v1" ++
  enc_hub hub ++ enc_key actor ++ enc_id separated_group_id ++
  enc_revision (mv_expected_stock_revision self) ++
  enc_revision (mv_expected_catalog_revision self) ++
  enc_id (mv_group self) ++ enc_revision (mv_expected_group_revision self) ++
  enc_id (mv_to self) ++ enc_packs (mv_packs self) ++
  enc_option enc_identification (mv_separated_portion self) ++
  hash_occurrence (mv_occurred self) ++ enc_hub_text (mv_observation self).
Definition MovementCommand_fingerprint `{Sha256} (self : MovementCommand) (hub : HubId)
    (actor : PublicKey) (separated_group_id : HubRecordId) : array 32 :=
  digest32 (MovementCommand_message self hub actor separated_group_id).

(** ** What the checks of a group mean *)

Definition requirement_id (a : WorkAllocation) : HubRecordId := wr_id (wa_requirement a).

Lemma movement_next_Ok r r' : movement_next r = Ok r' <-> raw r' = raw r + 1.
Proof. unfold movement_next. by rewrite map_err_Ok, HubRevision_next_Ok. Qed.
#[export] Hint Rewrite movement_next_Ok : okdb.

Record allocation_ok (g : PhysicalStockGroup) (a : WorkAllocation) : Prop := {
  ao_requirement : WorkRequirement_validate (wa_requirement a) = Ok tt;
  ao_trace : wr_trace (wa_requirement a) = pg_trace g;
  ao_variant : wr_variant (wa_requirement a) = pg_variant g;
  ao_packs : raw (pg_packs g) <= raw (accounted_packs a);
  ao_pending : wa_progress a = WorkProgress.Pending ->
    forall target, wr_target (wa_requirement a) = Some target -> rr_id target <> pg_location g
}.

Record group_ok (g : PhysicalStockGroup) : Prop := {
  go_packs : 0 < raw (pg_packs g);
  go_parent : pg_parent g <> Some (pg_id g);
  go_identified : is_Some (pg_parent g) -> is_Some (pg_identification g);
  go_capacity : (length (pg_work g) <= HUB_GROUP_REQUIREMENTS)%nat;
  go_distinct : NoDup (requirement_id <$> pg_work g);
  go_work : Forall (allocation_ok g) (pg_work g)
}.

Lemma target_at_true (target : option ReferenceRecord) l :
  is_some_and target (fun t => rr_id t ==? l) = true <->
  exists t, target = Some t /\ rr_id t = l.
Proof.
  destruct target as [t|]; simpl; [rewrite bool_decide_eq_true|]; naive_solver.
Qed.

Lemma validate_allocation_Ok g earlier a :
  validate_allocation g earlier a = Ok tt <->
  allocation_ok g a /\ requirement_id a ∉ requirement_id <$> earlier.
Proof.
  unfold validate_allocation.
  assert (existsb (fun o => wr_id (wa_requirement o) ==? wr_id (wa_requirement a)) earlier = false
          <-> requirement_id a ∉ requirement_id <$> earlier) as Hx.
  { rewrite <- not_true_iff_false, existsb_exists, list_elem_of_fmap. apply not_iff_compat. split.
    - intros (o & Ho & E). rewrite bool_decide_eq_true in E. exists o.
      split; [by symmetry|by apply list_elem_of_In].
    - intros (o & E & Ho). exists o. rewrite bool_decide_eq_true.
      split; [by apply list_elem_of_In|by symmetry]. }
  assert (forall b c, b && is_some_and c (fun t => rr_id t ==? pg_location g) = false <->
            (b = true -> forall t, c = Some t -> rr_id t <> pg_location g)) as Hp.
  { intros b c. rewrite <- not_true_iff_false, andb_true_iff, target_at_true. naive_solver. }
  rewrite seq_Ok, !guard_Ok, Hp, bool_decide_eq_true, !orb_false_iff, !negb_false_iff,
    !bool_decide_eq_true, Z.ltb_ge, Hx. split.
  - intros (? & ((? & ?) & ?) & ? & ? & _). by split.
  - intros [[] ?]. by split_and!.
Qed.

Lemma validate_work_Ok g earlier rest :
  NoDup (requirement_id <$> earlier) ->
  validate_work g earlier rest = Ok tt <->
  NoDup (requirement_id <$> (earlier ++ rest)) /\ Forall (allocation_ok g) rest.
Proof.
  revert earlier. induction rest as [|a rest IH]; intros earlier Hn; simpl.
  - rewrite app_nil_r. naive_solver.
  - rewrite seq_Ok, validate_allocation_Ok, list.Forall_cons.
    rewrite fmap_app, fmap_cons.
    assert (requirement_id a ∉ requirement_id <$> earlier ->
            NoDup (requirement_id <$> (earlier ++ [a]))) as Hs.
    { intros Ha. rewrite fmap_app. apply NoDup_app. split_and!; [done| |apply NoDup_singleton].
      intros x Hx ->%list_elem_of_singleton. done. }
    split.
    + intros ((Hok & Ha) & H). apply IH in H as [Hd Hf]; [|by apply Hs].
      rewrite fmap_app, fmap_app, <- app_assoc in Hd. done.
    + intros (Hd & Hok & Hf).
      assert (requirement_id a ∉ requirement_id <$> earlier) as Ha.
      { intros Ha. apply NoDup_app in Hd as (_ & Hd & _). eapply Hd; [done|by left]. }
      split; [done|]. apply IH; [by apply Hs|].
      by rewrite !fmap_app, <- app_assoc.
Qed.

Lemma validate_Ok g : PhysicalStockGroup_validate g = Ok tt <-> group_ok g.
Proof.
  unfold PhysicalStockGroup_validate. rewrite !guard_Ok, validate_work_Ok by constructor.
  autorewrite with reflect. pose proof (WholePacks_range (pg_packs g)). split.
  - intros ((? & ?) & H2 & ? & ? & ?). constructor; try done; [lia|].
    intros [? Hp]. rewrite Hp in H2. destruct (pg_identification g); [by eexists|].
    by destruct H2.
  - intros []. split_and!; try done; [lia|].
    destruct (pg_parent g), (pg_identification g); simpl in *; auto.
    by destruct go_identified0; eauto.
Qed.
#[export] Hint Rewrite validate_Ok : okdb.

(** ** Partition *)

(** What a partition promises of the portion taken out and of the rest. *)
Record partition_effect (self : PhysicalStockGroup) (packs : WholePacks)
    (child_id : HubRecordId) (identification : option PhysicalIdentification)
    (p : PhysicalPartition) : Prop := {
  pe_selected_packs : pg_packs (pp_selected p) = packs;
  pe_conserved : raw (pg_packs (pp_selected p)) +
    from_option (fun g => raw (pg_packs g)) 0 (pp_remainder p) = raw (pg_packs self);
  pe_same : Forall (fun g => pg_trace g = pg_trace self /\ pg_variant g = pg_variant self /\
      pg_location g = pg_location self /\ pg_causal_floor g = pg_causal_floor self /\
      pg_work g = pg_work self)
    (pp_selected p :: option_list (pp_remainder p));
  pe_valid : Forall group_ok (pp_selected p :: option_list (pp_remainder p));
  pe_identity : match pp_remainder p with
    | None => packs = pg_packs self /\ identification = None /\
        pg_id (pp_selected p) = pg_id self /\ pg_parent (pp_selected p) = pg_parent self /\
        pg_identification (pp_selected p) = pg_identification self /\
        raw (pg_revision (pp_selected p)) = raw (pg_revision self) + 1
    | Some rest =>
        pg_id rest = pg_id self /\ pg_parent rest = pg_parent self /\
        pg_identification rest = pg_identification self /\
        raw (pg_revision rest) = raw (pg_revision self) + 1 /\
        pg_id (pp_selected p) = child_id /\ child_id <> pg_id self /\
        pg_parent (pp_selected p) = Some (pg_id self) /\
        pg_identification (pp_selected p) = identification /\ is_Some identification /\
        pg_revision (pp_selected p) = HubRevision_INITIAL
    end
}.

(** A portion of a valid group is valid: its packs are fewer, everything its
    allocations are checked against is the group's. *)
Lemma portion_ok g g' :
  group_ok g -> 0 < raw (pg_packs g') <= raw (pg_packs g) ->
  pg_parent g' <> Some (pg_id g') -> (is_Some (pg_parent g') -> is_Some (pg_identification g')) ->
  pg_trace g' = pg_trace g -> pg_variant g' = pg_variant g -> pg_location g' = pg_location g ->
  pg_work g' = pg_work g -> group_ok g'.
Proof.
  intros [] ? ? ? Ht Hv Hl Hw. constructor; rewrite ?Hw; try done; [lia|].
  eapply list.Forall_impl; [done|]. intros a [].
  constructor; rewrite ?Ht, ?Hv, ?Hl; try done. lia.
Qed.

(** A whole portion keeps its identity; a part needs a new one of its own. *)
Definition separable (self : PhysicalStockGroup) (packs : WholePacks) (child_id : HubRecordId)
    (identification : option PhysicalIdentification) : Prop :=
  if decide (packs = pg_packs self) then identification = None
  else exists i, identification = Some i /\ child_id <> pg_id self /\
    forall original, pg_identification self = Some original -> pi_label original <> pi_label i.

Record partition_admitted (self : PhysicalStockGroup) (packs : WholePacks)
    (child_id : HubRecordId) (identification : option PhysicalIdentification) : Prop := {
  pa_group : group_ok self;
  pa_packs : 0 < raw packs <= raw (pg_packs self);
  pa_revision : raw (pg_revision self) < HubRevision_MAXIMUM;
  pa_separable : separable self packs child_id identification
}.

Lemma same_label_false (o : option PhysicalIdentification) i :
  is_some_and o (fun original => pi_label original ==? pi_label i) = false <->
  forall original, o = Some original -> pi_label original <> pi_label i.
Proof.
  destruct o as [x|]; simpl; [rewrite bool_decide_eq_false|]; naive_solver.
Qed.

Lemma next_bound (r r' : HubRevision) : raw r' = raw r + 1 -> raw r < HubRevision_MAXIMUM.
Proof. pose proof (HubRevision_range r'). lia. Qed.

Lemma partition_run self packs child_id identification p :
  PhysicalStockGroup_partition self packs child_id identification = Ok p ->
  partition_admitted self packs child_id identification /\
  partition_effect self packs child_id identification p.
Proof.
  intros H. unfold PhysicalStockGroup_partition in H. ok_facts.
  - pose proof (WholePacks_range packs). destruct identification; simplify_eq/=. split.
    { constructor; [done|lia|by eapply next_bound|]. unfold separable.
      destruct (decide _); [done|]. eexists. rewrite <- same_label_false. done. }
    constructor; simpl; [done|lia|by repeat constructor| |by split_and!; eauto].
    assert (raw packs <> raw (pg_packs self)) by (intros ?%refined_eq; done).
    rewrite !list.Forall_cons. split_and!; [..|done];
      apply (portion_ok self); simpl; try done; try lia; [congruence|apply H0..].
  - pose proof (WholePacks_range packs). destruct identification; simplify_eq/=. split.
    { constructor; [done|lia|by eapply next_bound|]. unfold separable. by destruct (decide _). }
    constructor; simpl; [done|lia|by repeat constructor| |by split_and!; eauto].
    rewrite list.Forall_cons. split; [|done].
    apply (portion_ok self); simpl; try done; [lia|apply H0..].
Qed.

Lemma movement_next_total r :
  raw r < HubRevision_MAXIMUM -> exists r', movement_next r = Ok r' /\ raw r' = raw r + 1.
Proof.
  intros H. pose proof (HubRevision_range r).
  assert (HubRevision_check (raw r + 1) = true) as Hc by (apply HubRevision_check_iff; lia).
  exists (Refined _ Hc). by rewrite movement_next_Ok.
Qed.

Lemma checked_sub_total a b :
  raw b <= raw a -> exists c, WholePacks_checked_sub a b = Ok c /\ raw c = raw a - raw b.
Proof.
  intros H. pose proof (WholePacks_range a). pose proof (WholePacks_range b).
  assert (WholePacks_check (raw a - raw b) = true) as Hc by (apply WholePacks_check_iff; lia).
  exists (Refined _ Hc). by rewrite checked_sub_Ok.
Qed.

Lemma checked_add_total a b :
  raw a + raw b <= HUB_MAX_WHOLE_PACKS ->
  exists c, WholePacks_checked_add a b = Ok c /\ raw c = raw a + raw b.
Proof.
  intros H. pose proof (WholePacks_range a). pose proof (WholePacks_range b).
  assert (WholePacks_check (raw a + raw b) = true) as Hc by (apply WholePacks_check_iff; lia).
  exists (Refined _ Hc). by rewrite checked_add_Ok.
Qed.

Lemma partition_total self packs child_id identification :
  partition_admitted self packs child_id identification ->
  exists p, PhysicalStockGroup_partition self packs child_id identification = Ok p.
Proof.
  intros [Hg%validate_Ok Hp Hr Hs].
  destruct (movement_next_total _ Hr) as (r & Hn & _).
  destruct (checked_sub_total (pg_packs self) packs) as (c & Hc & _); [lia|].
  unfold PhysicalStockGroup_partition. rewrite Hg, Hn, Hc. cbn [bind map_err].
  rewrite (proj2 (Z.eqb_neq _ 0)), (proj2 (Z.ltb_ge _ _)) by lia. cbn [orb].
  unfold separable in Hs. destruct (decide (packs = pg_packs self)) as [->|Hne].
  - subst identification. rewrite bool_decide_eq_true_2 by done. by eexists.
  - destruct Hs as (i & -> & Hid & Hl%same_label_false).
    rewrite bool_decide_eq_false_2 by done. cbn [negb ok_or bind].
    rewrite bool_decide_eq_false_2, Hl by done. by eexists.
Qed.

(** A group is partitioned exactly when it is valid, the portion is
    positive and within its packs, its revision can advance, and a part (not
    the whole) carries its own identifier and label; the portion and the rest
    then add up to the group, share its trace, variant, place and work, are
    valid themselves, and a part names the group as its parent. *)
Theorem partition_correct self packs child_id identification :
  match PhysicalStockGroup_partition self packs child_id identification with
  | Ok p => partition_admitted self packs child_id identification /\
      partition_effect self packs child_id identification p
  | Err _ => ~ partition_admitted self packs child_id identification
  end.
Proof.
  destruct (PhysicalStockGroup_partition _ _ _ _) as [p|e] eqn:E; [by apply partition_run|].
  intros H. apply partition_total in H as [p H]. congruence.
Qed.

(** ** Completing a requirement *)

Record completed_by (packs : WholePacks) (r r' : WorkRequirement) : Prop := {
  cb_packs : 0 < raw packs;
  cb_same : r' = wr_with r (wr_quantity r') (wr_revision r');
  cb_required : required (wr_quantity r') = required (wr_quantity r);
  cb_completed : raw (completed (wr_quantity r')) = raw (completed (wr_quantity r)) + raw packs;
  cb_retired : no_longer_required (wr_quantity r') = no_longer_required (wr_quantity r);
  cb_remaining : raw (remaining (wr_quantity r')) = raw (remaining (wr_quantity r)) - raw packs;
  cb_revision : raw (wr_revision r') = raw (wr_revision r) + 1
}.

Lemma complete_run r packs r' :
  WorkRequirement_complete r packs = Ok r' -> completed_by packs r r'.
Proof.
  unfold WorkRequirement_complete. intros H. ok_facts.
  pose proof (WholePacks_range packs). constructor; simpl; try done; try congruence. lia.
Qed.

Lemma complete_total r packs :
  0 < raw packs <= raw (remaining (wr_quantity r)) ->
  raw (wr_revision r) < HubRevision_MAXIMUM ->
  exists r', WorkRequirement_complete r packs = Ok r'.
Proof.
  intros Hp Hr. pose proof (QuantityWork_balance (wr_quantity r)) as Hb.
  pose proof (WholePacks_range (required (wr_quantity r))).
  pose proof (WholePacks_range (no_longer_required (wr_quantity r))).
  destruct (checked_add_total (completed (wr_quantity r)) packs) as (d & Hd & Ed); [lia|].
  destruct (checked_sub_total (remaining (wr_quantity r)) packs) as (l & Hl & El); [lia|].
  destruct (movement_next_total _ Hr) as (n & Hn & _).
  unfold WorkRequirement_complete. rewrite (proj2 (Z.eqb_neq _ 0)) by lia.
  rewrite Hd, Hl, Hn. cbn [bind map_err]. unfold QuantityWork_restore.
  rewrite (proj2 (work_accounted_Ok d _ l (required (wr_quantity r)))) by lia.
  cbn [bind map_err].
  set (q := {| qw_required := _ |}).
  assert (QuantityWork_check q = true) as Hq by (apply QuantityWork_check_iff; simpl; lia).
  rewrite (proj2 (checked_Ok _ _ _ (Refined _ Hq)) eq_refl). simpl. by eexists.
Qed.

(** ** The credit loop *)

Definition credited (to : HubRecordId) (packs : WholePacks) (a a' : WorkAllocation) : Prop :=
  if credits to a
  then wa_progress a' = WorkProgress.Completed /\
       completed_by packs (wa_requirement a) (wa_requirement a')
  else a' = a.

(** The remaining portion keeps its progress and sees the requirement as it now is. *)
Definition mirror (a a' : WorkAllocation) : WorkAllocation :=
  {| wa_requirement := wa_requirement a'; wa_progress := wa_progress a |}.

Definition updates_of (to : HubRecordId) (work work' : list WorkAllocation)
  : list WorkRequirement :=
  concat (zip_with (fun a a' => if credits to a then [wa_requirement a'] else []) work work').

Lemma set_requirement_middle g pre a r work :
  pg_work g = pre ++ a :: work ->
  set_requirement_at (length pre) r g =
  pg_set_work g (pre ++ {| wa_requirement := r; wa_progress := wa_progress a |} :: work).
Proof.
  intros E. unfold set_requirement_at. rewrite E. f_equal.
  rewrite <- (Nat.add_0_r (length pre)), alter_app_r. done.
Qed.

Lemma credit_work_run to packs pre work rest work' ups rest' :
  credit_work to packs (length pre) work rest = Ok (work', ups, rest') ->
  Forall2 (credited to packs) work work' /\ ups = updates_of to work work' /\
  (forall g, rest = Some g -> pg_work g = pre ++ work ->
     rest' = Some (pg_set_work g (pre ++ zip_with mirror work work'))) /\
  (rest = None -> rest' = None).
Proof.
  revert pre rest work' ups rest'. induction work as [|a work IH]; intros pre rest work' ups rest' H;
    simpl in H.
  - run_ok. simplify_eq. split_and!; [constructor|done| |done].
    intros g -> Hg. simpl. rewrite <- Hg. by destruct g.
  - destruct (credits to a) eqn:Ec; [|unfold credited]; run_ok;
      match goal with E : credit_work _ _ _ _ _ = _ |- _ => rename E into Hc end.
    + rename x into r. destruct x0 as [[w u] rs]. simplify_eq.
      set (a' := {| wa_requirement := r; wa_progress := WorkProgress.Completed |}).
      assert (credited to packs a a') as Ha.
      { unfold credited. rewrite Ec. split; [done|]. by apply complete_run. }
      replace (S (length pre)) with (length (pre ++ [mirror a a'])) in Hc
        by (rewrite length_app; simpl; lia).
      apply IH in Hc as (Hf & -> & Hg & Hn).
      split_and!; [by constructor|unfold updates_of; simpl; by rewrite Ec| |].
      * intros g -> E. simpl in Hg.
        specialize (Hg _ eq_refl). rewrite (set_requirement_middle g pre a r work E) in Hg.
        simpl in Hg. rewrite Hg by (by rewrite <- app_assoc). f_equal. unfold pg_set_work; simpl.
        by rewrite <- app_assoc.
      * intros ->. by apply Hn.
    + destruct x as [[w u] rs]. simplify_eq.
      replace (S (length pre)) with (length (pre ++ [a])) in Hc
        by (rewrite length_app; simpl; lia).
      apply IH in Hc as (Hf & -> & Hg & Hn).
      split_and!; [constructor; [by rewrite Ec|done]|unfold updates_of; simpl; by rewrite Ec| |done].
      intros g -> E. rewrite (Hg g eq_refl) by (by rewrite <- app_assoc). f_equal.
      unfold pg_set_work; simpl. rewrite <- app_assoc. simpl. by destruct a.
Qed.

Lemma credit_work_total to packs index work rest :
  Forall (fun a => credits to a = true ->
    0 < raw packs <= raw (remaining (wr_quantity (wa_requirement a))) /\
    raw (wr_revision (wa_requirement a)) < HubRevision_MAXIMUM) work ->
  exists out, credit_work to packs index work rest = Ok out.
Proof.
  revert index rest. induction work as [|a work IH]; intros index rest H; simpl; [by eexists|].
  apply list.Forall_cons in H as [Ha Hw]. destruct (credits to a) eqn:Ec.
  - destruct (complete_total (wa_requirement a) packs) as [r ->]; [apply Ha; done..|].
    cbn [bind]. destruct (IH (S index) (set_requirement_at index r <$> rest) Hw) as [[[w u] rs] ->].
    by eexists.
  - destruct (IH (S index) rest Hw) as [[[w u] rs] ->]. by eexists.
Qed.

Lemma completed_by_validate packs r r' :
  completed_by packs r r' -> is_Some (wr_target r) ->
  WorkRequirement_validate r = Ok tt -> WorkRequirement_validate r' = Ok tt.
Proof.
  intros [_ Hs Hr _ _ _ _] [t Ht]. rewrite Hs. unfold WorkRequirement_validate. simpl.
  rewrite Hr, Ht. done.
Qed.

Lemma credits_true to a :
  credits to a = true <->
  wa_progress a = WorkProgress.Pending /\
  exists t, wr_target (wa_requirement a) = Some t /\ rr_id t = to.
Proof. unfold credits. by rewrite andb_true_iff, bool_decide_eq_true, target_at_true. Qed.

Lemma credited_same to packs a a' :
  credited to packs a a' ->
  wr_id (wa_requirement a') = wr_id (wa_requirement a) /\
  wr_trace (wa_requirement a') = wr_trace (wa_requirement a) /\
  wr_variant (wa_requirement a') = wr_variant (wa_requirement a) /\
  wr_target (wa_requirement a') = wr_target (wa_requirement a).
Proof.
  unfold credited. destruct (credits to a); [|by intros ->].
  intros [_ [_ -> _ _ _ _ _]]. done.
Qed.

Lemma credited_ids to packs work work' :
  Forall2 (credited to packs) work work' -> requirement_id <$> work' = requirement_id <$> work.
Proof.
  induction 1 as [|a a' ? ? H _ IH]; [done|]. csimpl. rewrite IH. f_equal.
  by apply credited_same in H as [? _].
Qed.

Lemma mirror_ids to packs work work' :
  Forall2 (credited to packs) work work' ->
  requirement_id <$> zip_with mirror work work' = requirement_id <$> work.
Proof.
  induction 1 as [|a a' ? ? H _ IH]; [done|]. csimpl. rewrite IH. f_equal.
  by apply credited_same in H as [? _].
Qed.

(** The destination meets every pending requirement that named it. *)
Lemma moved_ok sel to floor packs work' :
  group_ok sel -> pg_packs sel = packs -> Forall2 (credited to packs) (pg_work sel) work' ->
  group_ok (pg_set_work (pg_set_floor (pg_set_location sel to) floor) work').
Proof.
  intros [] Hp Hw. constructor; simpl; try done.
  - by rewrite <- (Forall2_length _ _ _ Hw).
  - by rewrite (credited_ids _ _ _ _ Hw).
  - set (g := pg_set_work _ _).
    assert (pg_trace g = pg_trace sel /\ pg_variant g = pg_variant sel /\
            pg_packs g = pg_packs sel /\ pg_location g = to) as (Gt & Gv & Gp & Gl) by done.
    clearbody g. clear go_capacity0 go_distinct0. induction Hw as [|a a' work work' Ha Hw IH]; [done|].
    apply list.Forall_cons in go_work0 as [Hok Hrest]. constructor; [|by apply IH].
    destruct (credited_same _ _ _ _ Ha) as (_ & Ht & Hv & Hl).
    destruct Hok as [Hr Htr Hvr Hpk Hpe]. unfold credited in Ha.
    destruct (credits to a) eqn:Ec.
    + destruct Ha as [Hd Hc]. apply credits_true in Ec as (Hpend & t & Htg & _).
      constructor; try congruence.
      * eapply completed_by_validate; [done|by eexists|done].
      * unfold accounted_packs. rewrite Hd, Gp, Hp.
        pose proof (cb_completed _ _ _ Hc).
        pose proof (WholePacks_range (completed (wr_quantity (wa_requirement a)))). lia.
    + subst a'. constructor; try congruence.
      intros Hpend t Htg E. rewrite Gl in E. rewrite <- not_true_iff_false, credits_true in Ec. eauto.
Qed.

Lemma remaining_ok src rest to packs work' :
  group_ok src -> group_ok rest -> pg_work rest = pg_work src ->
  raw (pg_packs rest) + raw packs = raw (pg_packs src) ->
  Forall2 (credited to packs) (pg_work src) work' ->
  group_ok (pg_set_work rest (zip_with mirror (pg_work src) work')).
Proof.
  intros Hs [] Hw Hp Hf. constructor; simpl; try done.
  - rewrite length_zip_with, <- Hw. lia.
  - rewrite (mirror_ids _ _ _ _ Hf). by rewrite <- Hw.
  - rewrite Hw in go_work0. pose proof (go_work _ Hs) as Hsw. clear Hw.
    set (g := pg_set_work _ _).
    assert (pg_trace g = pg_trace rest /\ pg_variant g = pg_variant rest /\
            pg_packs g = pg_packs rest /\ pg_location g = pg_location rest)
      as (Gt & Gv & Gp & Gl) by done.
    clearbody g. induction Hf as [|a a' work work' Ha Hf IH]; simpl; [done|].
    apply list.Forall_cons in go_work0 as [Hok Hrest]. apply list.Forall_cons in Hsw as [Hok' Hsw].
    constructor; [|by apply IH].
    destruct (credited_same _ _ _ _ Ha) as (_ & Ht & Hv & Hl).
    destruct Hok as [Hr Htr Hvr Hpk Hpe]. unfold credited in Ha.
    destruct (credits to a) eqn:Ec;
      [|subst a'; constructor; unfold accounted_packs in *; simpl in *; rewrite ?Gt, ?Gv, ?Gp, ?Gl; done].
    destruct Ha as [_ Hc]. apply credits_true in Ec as (Hpend & t & Htg & _).
    constructor; cbn [mirror wa_requirement wa_progress]; try congruence.
    + eapply completed_by_validate; [done|by eexists|done].
    + pose proof (ao_packs _ _ Hok') as Hmore. unfold accounted_packs in *. simpl.
      rewrite Hpend, Gp in *. pose proof (cb_remaining _ _ _ Hc). lia.
    + intros ? ? E. rewrite Hl in E. rewrite Gl. by apply Hpe.
Qed.

(** ** The causal floor *)

Definition earliest_of (o : Occurrence) : option UnixTimestamp :=
  match o with
  | Occurrence.Known at_ => Some at_
  | Occurrence.Interval earliest _ => Some earliest
  | Occurrence.Unknown => None
  end.
Definition latest_of (o : Occurrence) : option UnixTimestamp :=
  match o with
  | Occurrence.Known at_ => Some at_
  | Occurrence.Interval _ latest => Some latest
  | Occurrence.Unknown => None
  end.

(** The occurrence is not in the future and may lie at or after the floor. *)
Definition observable (g : PhysicalStockGroup) (o : Occurrence) (recorded_at : UnixTimestamp) : Prop :=
  Occurrence_validate o recorded_at = Ok tt /\
  forall floor latest, pg_causal_floor g = Some floor -> latest_of o = Some latest ->
    raw floor <= raw latest.

Lemma observation_floor_Ok g o recorded_at f :
  PhysicalStockGroup_observation_floor g o recorded_at = Ok f <->
  observable g o recorded_at /\ f = option_max (pg_causal_floor g) (earliest_of o).
Proof.
  unfold PhysicalStockGroup_observation_floor, observable.
  rewrite seq_Ok, guard_Ok, map_err_Ok.
  assert (forall b, b = false <-> ~ b = true) as Hb by (intros []; naive_solver).
  destruct (pg_causal_floor g) as [fl|]; cbn [is_some_and]; [|naive_solver].
  destruct o as [a|a l|]; cbn [latest_of earliest_of]; rewrite ?Z.ltb_ge; naive_solver.
Qed.
#[export] Hint Rewrite observation_floor_Ok : okdb.

Lemma occurrence_bounds o recorded_at e :
  Occurrence_validate o recorded_at = Ok tt -> earliest_of o = Some e -> raw e <= raw recorded_at.
Proof.
  unfold Occurrence_validate. destruct o; simpl; intros H He; simplify_eq/=; case_match; breflect;
    simplify_eq; lia.
Qed.

(** An accepted observation never moves a group's causal floor back, the
    new floor is the old one or the earliest time the observation allows, which
    is not in the future; an observation is refused exactly when it lies in the
    future, is reversed, or ends before the floor. *)
Theorem observation_floor_correct g o recorded_at :
  match PhysicalStockGroup_observation_floor g o recorded_at with
  | Ok f =>
      observable g o recorded_at /\
      (forall old, pg_causal_floor g = Some old -> exists new, f = Some new /\ raw old <= raw new) /\
      (forall e, earliest_of o = Some e -> exists new, f = Some new /\ raw e <= raw new) /\
      (forall new, f = Some new -> pg_causal_floor g = Some new \/
         (earliest_of o = Some new /\ raw new <= raw recorded_at))
  | Err e => e = MovementError.Stock StockError.InvalidOccurrence /\ ~ observable g o recorded_at
  end.
Proof.
  destruct (PhysicalStockGroup_observation_floor g o recorded_at) as [f|e] eqn:E.
  - apply observation_floor_Ok in E as [Ho ->]. split; [done|].
    destruct Ho as [Hv _]. pose proof (occurrence_bounds o recorded_at) as Hb.
    unfold option_max. destruct (pg_causal_floor g) as [old|], (earliest_of o) as [e|];
      [destruct (Z.ltb_spec (raw e) (raw old))|..]; split_and!; intros ? [= <-];
      eauto using Z.lt_le_incl, Z.le_refl.
  - split.
    + unfold PhysicalStockGroup_observation_floor, Occurrence_validate in E.
      repeat (case_match; simpl in *; try congruence).
    + intros Ho. assert (PhysicalStockGroup_observation_floor g o recorded_at =
        Ok (option_max (pg_causal_floor g) (earliest_of o))) by by apply observation_floor_Ok.
      congruence.
Qed.

(** ** Movements: when they are accepted and what they do *)

Definition has_kind (catalog : ReferenceCatalog) (id : HubRecordId) (kind : ReferenceKind) : Prop :=
  exists r, bt_get id (rc_records catalog) = Some r /\ ReferenceValue_kind (rr_value r) = kind.

Record catalogued (catalog : ReferenceCatalog) (g : PhysicalStockGroup) : Prop := {
  cg_group : group_ok g;
  cg_variant : has_kind catalog (pg_variant g) ReferenceKind.Pack;
  cg_location : has_kind catalog (pg_location g) ReferenceKind.Location;
  cg_targets : Forall (fun a => forall t, wr_target (wa_requirement a) = Some t ->
    has_kind catalog (rr_id t) ReferenceKind.Location) (pg_work g)
}.

Lemma require_kind_has {E} (f : HubReferenceError -> E) {B} catalog id kind (k : result B E) b :
  (let? _ := map_err f (ReferenceCatalog_require_kind catalog id kind) in k) = Ok b <->
  has_kind catalog id kind /\ k = Ok b.
Proof.
  rewrite bind_Ok. setoid_rewrite map_err_Ok. setoid_rewrite require_kind_Ok.
  unfold has_kind. naive_solver.
Qed.

Lemma validate_catalog_Ok g catalog :
  PhysicalStockGroup_validate_catalog g catalog = Ok tt <-> catalogued catalog g.
Proof.
  unfold PhysicalStockGroup_validate_catalog.
  rewrite seq_Ok, validate_Ok, !require_kind_has, try_for_each_Ok.
  assert (forall a : WorkAllocation,
    match wr_target (wa_requirement a) with
    | Some target =>
        let? _ := map_err MovementError.Reference
          (ReferenceCatalog_require_kind catalog (rr_id target) ReferenceKind.Location) in
        Ok tt
    | None => Ok tt
    end = Ok tt <->
    forall t, wr_target (wa_requirement a) = Some t ->
      has_kind catalog (rr_id t) ReferenceKind.Location) as Hx.
  { intros a. destruct (wr_target (wa_requirement a)); [rewrite require_kind_has|]; naive_solver. }
  setoid_rewrite Hx. split; [intros (? & ? & ? & ?); by constructor|intros []; by split_and!].
Qed.
#[export] Hint Rewrite validate_catalog_Ok : okdb.

Record movement_admitted (self : MovementCommand) (catalog : ReferenceCatalog)
    (stock_revision : HubRevision) (source : PhysicalStockGroup)
    (separated_group_id : HubRecordId) (recorded_at : UnixTimestamp) : Prop := {
  ma_source : catalogued catalog source;
  ma_stock : mv_expected_stock_revision self = stock_revision;
  ma_catalog : mv_expected_catalog_revision self = rc_revision catalog;
  ma_group : mv_group self = pg_id source;
  ma_revision : mv_expected_group_revision self = pg_revision source;
  ma_partition : partition_admitted source (mv_packs self) separated_group_id
    (mv_separated_portion self);
  ma_occurred : observable source (mv_occurred self) recorded_at;
  ma_destination : has_kind catalog (mv_to self) ReferenceKind.Location;
  ma_elsewhere : mv_to self <> pg_location source;
  ma_stock_next : raw stock_revision < HubRevision_MAXIMUM;
  ma_work_next : Forall (fun a => credits (mv_to self) a = true ->
    raw (wr_revision (wa_requirement a)) < HubRevision_MAXIMUM) (pg_work source)
}.

Record movement_effect (self : MovementCommand) (catalog : ReferenceCatalog)
    (stock_revision : HubRevision) (source : PhysicalStockGroup)
    (separated_group_id : HubRecordId) (p : MovementPlan) : Prop := {
  me_revision : raw (mp_stock_revision p) = raw stock_revision + 1;
  me_from : mp_from p = pg_location source;
  me_destination : bt_get (mv_to self) (rc_records catalog) = Some (mp_destination p);
  me_portions : exists q work',
    partition_effect source (mv_packs self) separated_group_id (mv_separated_portion self) q /\
    Forall2 (credited (mv_to self) (mv_packs self)) (pg_work source) work' /\
    mp_moved p = pg_set_work (pg_set_floor (pg_set_location (pp_selected q) (mv_to self))
      (option_max (pg_causal_floor source) (earliest_of (mv_occurred self)))) work' /\
    mp_remaining p =
      (fun g => pg_set_work g (zip_with mirror (pg_work source) work')) <$> pp_remainder q /\
    mp_work_updates p = updates_of (mv_to self) (pg_work source) work';
  me_conserved : raw (pg_packs (mp_moved p)) +
    from_option (fun g => raw (pg_packs g)) 0 (mp_remaining p) = raw (pg_packs source);
  me_valid : Forall group_ok (mp_moved p :: option_list (mp_remaining p))
}.

Lemma movement_portions self source sep floor q work rest ups :
  group_ok source ->
  partition_effect source (mv_packs self) sep (mv_separated_portion self) q ->
  credit_work (mv_to self) (mv_packs self) 0
    (pg_work (pg_set_floor (pg_set_location (pp_selected q) (mv_to self)) floor))
    (pp_remainder q) = Ok (work, ups, rest) ->
  Forall2 (credited (mv_to self) (mv_packs self)) (pg_work source) work /\
  ups = updates_of (mv_to self) (pg_work source) work /\
  rest = (fun g => pg_set_work g (zip_with mirror (pg_work source) work)) <$> pp_remainder q /\
  group_ok (pg_set_work (pg_set_floor (pg_set_location (pp_selected q) (mv_to self)) floor) work) /\
  (forall g, rest = Some g -> group_ok g).
Proof.
  intros Hs Hq Hc. pose proof (pe_same _ _ _ _ _ Hq) as Hsame. pose proof (pe_valid _ _ _ _ _ Hq) as Hv.
  apply list.Forall_cons in Hsame as [(_ & _ & _ & _ & Hw) Hrest].
  apply list.Forall_cons in Hv as [Hsel Hvr].
  cbn [pg_set_floor pg_set_location pg_work] in Hc. rewrite Hw in Hc.
  apply (credit_work_run _ _ []) in Hc as (Hf & -> & Hg & Hn).
  split; [done|]. split; [done|].
  assert (rest = (fun g => pg_set_work g (zip_with mirror (pg_work source) work)) <$> pp_remainder q)
    as Hr.
  { destruct (pp_remainder q) as [g|]; [|by apply Hn].
    apply list.Forall_cons in Hrest as [(_ & _ & _ & _ & Hgw) _]. by apply Hg. }
  split; [done|]. split.
  - apply moved_ok with (packs := mv_packs self); [done|by apply (pe_selected_packs _ _ _ _ _ Hq)|].
    by rewrite Hw.
  - intros g' Eg. rewrite Eg in Hr. pose proof (pe_conserved _ _ _ _ _ Hq) as Hcon.
    rewrite (pe_selected_packs _ _ _ _ _ Hq) in Hcon.
    destruct (pp_remainder q) as [g|]; [|done]. simpl in Hr. injection Hr as ->.
    apply list.Forall_cons in Hrest as [(_ & _ & _ & _ & Hgw) _].
    apply list.Forall_cons in Hvr as [Hgo _]. simpl in Hcon.
    eapply remaining_ok; [done|done|done| |done]. lia.
Qed.

Lemma credited_next to packs work work' :
  Forall2 (credited to packs) work work' ->
  Forall (fun a => credits to a = true ->
    raw (wr_revision (wa_requirement a)) < HubRevision_MAXIMUM) work.
Proof.
  induction 1 as [|a a' ? ? H _ IH]; constructor; [|done].
  intros Ec. unfold credited in H. rewrite Ec in H. destruct H as [_ H].
  eapply next_bound, (cb_revision _ _ _ H).
Qed.

Lemma movement_run self catalog stock_revision source sep recorded_at p :
  MovementCommand_plan self catalog stock_revision source sep recorded_at = Ok p ->
  movement_admitted self catalog stock_revision source sep recorded_at /\
  movement_effect self catalog stock_revision source sep p.
Proof.
  unfold MovementCommand_plan. intros H. run_ok;
  match goal with E : PhysicalStockGroup_partition _ _ _ _ = _ |- _ =>
    apply partition_run in E as [Hpa Hpe] end;
  match goal with E : credit_work _ _ _ _ _ = _ |- _ =>
    apply (movement_portions self source sep) in E as (Hf & Hu & Hr & Hm & Hv); [|apply Hpa|done]
  end;
  pose proof (pe_conserved _ _ _ _ _ Hpe) as Hcon;
  ok_facts; simplify_eq; (split;
    [constructor; try done; [by eexists|by eapply next_bound|by eapply credited_next]|]);
    (constructor; try done; [by eexists _, _| |]); rewrite ?list.Forall_cons; try done;
    destruct (pp_remainder x1); simplify_eq/=; try done; eauto.
Qed.

Lemma movement_total self catalog stock_revision source sep recorded_at :
  movement_admitted self catalog stock_revision source sep recorded_at ->
  exists p, MovementCommand_plan self catalog stock_revision source sep recorded_at = Ok p.
Proof.
  intros []. pose proof ma_partition0 as Hpart. apply partition_total in Hpart as [q Hq].
  pose proof (proj2 (partition_run _ _ _ _ _ Hq)) as Hpe.
  destruct ma_partition0 as [Hg Hp _ _]. destruct ma_destination0 as (d & Hd & Hk).
  set (floor := option_max (pg_causal_floor source) (earliest_of (mv_occurred self))).
  destruct (credit_work_total (mv_to self) (mv_packs self) 0
    (pg_work (pg_set_floor (pg_set_location (pp_selected q) (mv_to self)) floor))
    (pp_remainder q)) as [[[work ups] rest] Hc].
  { pose proof (pe_same _ _ _ _ _ Hpe) as Hsame.
    apply list.Forall_cons in Hsame as [(_ & _ & _ & _ & Hw) _]. simpl. rewrite Hw.
    pose proof (go_work _ Hg) as Hok. apply list.Forall_forall. intros a Ha Ec.
    rewrite list.Forall_forall in Hok, ma_work_next0. split; [|by apply ma_work_next0].
    apply Hok, ao_packs in Ha. apply credits_true in Ec as [Ec _].
    unfold accounted_packs in Ha. rewrite Ec in Ha. lia. }
  pose proof (movement_portions self source sep floor q work rest ups Hg Hpe Hc)
    as (_ & _ & _ & Hm & Hv).
  destruct (movement_next_total stock_revision) as (n & Hn & _); [done|].
  unfold MovementCommand_plan. rewrite (proj2 (validate_catalog_Ok _ _)) by done. cbn [bind].
  rewrite !bool_decide_eq_true_2 by done. cbn [negb orb].
  rewrite (proj2 (Z.eqb_neq _ 0)), (proj2 (Z.ltb_ge _ _)) by lia. cbn [orb].
  rewrite (proj2 (observation_floor_Ok _ _ _ floor)) by done. cbn [bind].
  rewrite (proj2 (require_kind_Ok _ _ _ d)) by done. cbn [bind map_err].
  rewrite bool_decide_eq_false_2 by done. rewrite Hq. cbn [bind]. rewrite Hc. cbn [bind].
  rewrite (proj2 (validate_Ok _)) by done. cbn [bind].
  destruct rest as [g|]; [rewrite (proj2 (validate_Ok g)) by by apply Hv|];
    cbn [bind]; rewrite Hn; by eexists.
Qed.

(** C3: a movement is accepted exactly under the conditions of
    [movement_admitted] (in particular the checks made after the packs were
    moved never refuse it); the moved and the remaining portion then add up to
    the group, both are valid, the destination is the catalog's location, and
    exactly the pending requirements that name the destination are completed
    by the moved packs, in both portions and in the reported updates. *)
Theorem movement_correct self catalog stock_revision source sep recorded_at :
  match MovementCommand_plan self catalog stock_revision source sep recorded_at with
  | Ok p =>
      movement_admitted self catalog stock_revision source sep recorded_at /\
      movement_effect self catalog stock_revision source sep p
  | Err _ => ~ movement_admitted self catalog stock_revision source sep recorded_at
  end.
Proof.
  destruct (MovementCommand_plan _ _ _ _ _ _) as [p|e] eqn:E; [by eapply movement_run|].
  intros H. apply movement_total in H as [p H]. congruence.
Qed.


(** ** The message determines the movement *)

#[global] Instance enc_identification_prefix : PrefixCode enc_identification.
Proof.
  intros [l o] [l' o'] r s E. unfold enc_identification in E. cbn [pi_label pi_observation] in E.
  rewrite <- !app_assoc in E. do 2 peel E. split; congruence.
Qed.

Lemma MovementCommand_message_inv cmd cmd' hub hub' actor actor' sep sep' :
  MovementCommand_message cmd hub actor sep = MovementCommand_message cmd' hub' actor' sep' ->
  cmd = cmd' /\ hub = hub' /\ actor = actor' /\ sep = sep'.
Proof.
  intros E. unfold MovementCommand_message in E.
  apply app_inv_head in E. do 11 peel E. apply prefix_code_inj in E; [|apply _].
  destruct cmd, cmd'; simpl in *. by subst.
Qed.
