(* ===== verification/Work.v ===== *)
(** * Replanned and new work, discrepancies

    The rest of [hub/movement/work.rs] ([ReplanCommand], [Discrepancy]),
    [hub/movement/requirements.rs] ([NewWorkCommand]) and the discrepancy part
    of [hub/movement/command.rs]. *)

From Stdlib Require Import Bool ZArith Lia String Sorted Permutation.
From stdpp Require Import base decidable option list numbers sets.
From S2P Require Import Prelude Containers Encoding Hub Reference Catalog Stock Movement.

(** ** Replanning *)

Record ReplanCommand := {
  rpl_expected_stock_revision : HubRevision;
  rpl_expected_catalog_revision : HubRevision;
  rpl_requirement : HubRecordId;
  rpl_expected_work_revision : HubRevision;
  rpl_target : HubRecordId;
  rpl_observation : SourceProvenance
}.

Record ReplanPlan := {
  rplp_stock_revision : HubRevision;
  rplp_previous : WorkRequirement;
  rplp_replacement : WorkRequirement;
  rplp_groups : list PhysicalStockGroup
}.

(** [changed.work.push(..)], sorted by requirement identifier again. *)
Definition push_allocation (work : list WorkAllocation) (a : WorkAllocation)
  : list WorkAllocation :=
  sort_by_key requirement_id (work ++ [a]).

Definition pending (r : WorkRequirement) : WorkAllocation :=
  {| wa_requirement := r; wa_progress := WorkProgress.Pending |}.
Definition retired (r : WorkRequirement) : WorkAllocation :=
  {| wa_requirement := r; wa_progress := WorkProgress.NoLongerRequired |}.

(** One turn of the loop of [ReplanCommand::plan]: the running total and the
    changed group; [earlier] is [pending_groups[..index]]. *)
Definition replan_group (target replacement_id : HubRecordId) (catalog : ReferenceCatalog)
    (work previous replacement : WorkRequirement) (earlier : list PhysicalStockGroup)
    (total : WholePacks) (group : PhysicalStockGroup)
  : result (WholePacks * PhysicalStockGroup) MovementError :=
  PhysicalStockGroup_validate_catalog group catalog ;;?
  if (pg_location group ==? target)
     || existsb (fun other => pg_id other ==? pg_id group) earlier
     || existsb (fun a => requirement_id a ==? replacement_id) (pg_work group)
  then Err MovementError.InvalidWorkScope
  else if (length (pg_work group) =? HUB_GROUP_REQUIREMENTS)%nat
  then Err MovementError.Capacity
  else
    let? (index, allocation) :=
      ok_or (list_find (fun a => requirement_id a = wr_id work) (pg_work group))
        MovementError.InvalidWorkScope in
    if (wa_requirement allocation !=? work)
       || (wa_progress allocation !=? WorkProgress.Pending)
    then Err MovementError.InvalidWorkScope
    else
      let? total := map_err MovementError.Reference
        (WholePacks_checked_add total (pg_packs group)) in
      let? revision := movement_next (pg_revision group) in
      let changed :=
        pg_set_revision
          (pg_set_work group
             (push_allocation (<[index := retired previous]> (pg_work group))
                (pending replacement)))
          revision in
      PhysicalStockGroup_validate changed ;;?
      Ok (total, changed).

Fixpoint replan_groups (target replacement_id : HubRecordId) (catalog : ReferenceCatalog)
    (work previous replacement : WorkRequirement) (earlier : list PhysicalStockGroup)
    (total : WholePacks) (rest : list PhysicalStockGroup)
  : result (WholePacks * list PhysicalStockGroup) MovementError :=
  match rest with
  | [] => Ok (total, [])
  | group :: rest =>
      let? (total, changed) := replan_group target replacement_id catalog work previous
        replacement earlier total group in
      let? (total, groups) := replan_groups target replacement_id catalog work previous
        replacement (earlier ++ [group]) total rest in
      Ok (total, changed :: groups)
  end.

Definition ReplanCommand_plan (self : ReplanCommand) (catalog : ReferenceCatalog)
    (stock_revision : HubRevision) (work : WorkRequirement)
    (pending_groups : list PhysicalStockGroup) (replacement_id : HubRecordId)
  : result ReplanPlan MovementError :=
  WorkRequirement_validate work ;;?
  if (rpl_expected_stock_revision self !=? stock_revision)
     || (rpl_expected_catalog_revision self !=? rc_revision catalog)
     || (rpl_requirement self !=? wr_id work)
     || (rpl_expected_work_revision self !=? wr_revision work)
  then Err MovementError.StaleRevision
  else if (replacement_id ==? wr_id work)
          || is_some_and (wr_target work) (fun target => rpl_target self ==? rr_id target)
  then Err MovementError.IdentityConflict
  else if raw (remaining (wr_quantity work)) =? 0 then Err MovementError.NoRemainingWork
  else if (length pending_groups =? 0)%nat
          || (HUB_REQUIREMENT_GROUPS <? length pending_groups)%nat
  then Err MovementError.InvalidWorkScope
  else
    let? target := map_err MovementError.Reference
      (ReferenceCatalog_require_kind catalog (rpl_target self) ReferenceKind.Location) in
    let? previous := WorkRequirement_retire_remaining work in
    let replacement := {|
      wr_id := replacement_id; wr_trace := wr_trace work; wr_variant := wr_variant work;
      wr_target := Some target;
      wr_quantity := QuantityWork_pending (remaining (wr_quantity work));
      wr_revision := HubRevision_INITIAL |} in
    let? total := map_err MovementError.Reference (WholePacks_from_value 0) in
    let? (total, groups) := replan_groups (rpl_target self) replacement_id catalog work previous
      replacement [] total pending_groups in
    if total !=? remaining (wr_quantity work) then Err MovementError.InvalidWorkScope
    else
      let? next := movement_next stock_revision in
      Ok {| rplp_stock_revision := next; rplp_previous := previous;
            rplp_replacement := replacement; rplp_groups := groups |}.

Definition ReplanCommand_message (self : ReplanCommand) (hub : HubId) (actor : PublicKey)
    (replacement_id : HubRecordId) : list byte :=
  domain_tag "harvestcircle.hub.replan.command.v1" ++
  enc_hub hub ++ enc_key actor ++ enc_id replacement_id ++
  enc_revision (rpl_expected_stock_revision self) ++
  enc_revision (rpl_expected_catalog_revision self) ++
  enc_id (rpl_requirement self) ++ enc_revision (rpl_expected_work_revision self) ++
  enc_id (rpl_target self) ++ enc_hub_text (rpl_observation self).
Definition ReplanCommand_fingerprint `{Sha256} (self : ReplanCommand) (hub : HubId)
    (actor : PublicKey) (replacement_id : HubRecordId) : array 32 :=
  digest32 (ReplanCommand_message self hub actor replacement_id).

(** ** New work *)

Record NewWorkCommand := {
  nw_expected_stock_revision : HubRevision;
  nw_expected_catalog_revision : HubRevision;
  nw_groups : list HubRecordId;
  nw_target : HubRecordId;
  nw_observation : SourceProvenance
}.

Record NewWorkPlan := {
  nwp_stock_revision : HubRevision;
  nwp_requirement : WorkRequirement;
  nwp_groups : list PhysicalStockGroup
}.

Definition NewWorkCommand_validate_shape (self : NewWorkCommand) : result unit MovementError :=
  if (length (nw_groups self) =? 0)%nat
     || (HUB_REQUIREMENT_GROUPS <? length (nw_groups self))%nat
     || windows2_any (fun a b => kleb b a) (nw_groups self)
  then Err MovementError.InvalidWorkScope
  else Ok tt.

(** One turn of the checking loop over [self.groups.iter().zip(groups)]. *)
Definition new_work_group (self : NewWorkCommand) (catalog : ReferenceCatalog)
    (first : PhysicalStockGroup) (requirement_id_ : HubRecordId)
    (quantity : WholePacks) (pair : HubRecordId * PhysicalStockGroup)
  : result WholePacks MovementError :=
  let (expected, group) := pair in
  PhysicalStockGroup_validate_catalog group catalog ;;?
  if (pg_id group !=? expected) || (pg_trace group !=? pg_trace first)
     || (pg_variant group !=? pg_variant first) || (pg_location group ==? nw_target self)
     || existsb (fun a => (wa_progress a ==? WorkProgress.Pending)
                          || (requirement_id a ==? requirement_id_)) (pg_work group)
  then Err MovementError.InvalidWorkScope
  else if (length (pg_work group) =? HUB_GROUP_REQUIREMENTS)%nat
  then Err MovementError.Capacity
  else map_err MovementError.Reference (WholePacks_checked_add quantity (pg_packs group)).

(** The closure of the collecting [map]. *)
Definition new_work_change (requirement : WorkRequirement) (group : PhysicalStockGroup)
  : result PhysicalStockGroup MovementError :=
  let? revision := movement_next (pg_revision group) in
  let changed :=
    pg_set_revision (pg_set_work group (push_allocation (pg_work group) (pending requirement)))
      revision in
  PhysicalStockGroup_validate changed ;;?
  Ok changed.

Definition NewWorkCommand_plan (self : NewWorkCommand) (catalog : ReferenceCatalog)
    (stock_revision : HubRevision) (groups : list PhysicalStockGroup)
    (requirement_id_ : HubRecordId) : result NewWorkPlan MovementError :=
  if (nw_expected_stock_revision self !=? stock_revision)
     || (nw_expected_catalog_revision self !=? rc_revision catalog)
  then Err MovementError.StaleRevision
  else
    NewWorkCommand_validate_shape self ;;?
    if negb (length (nw_groups self) =? length groups)%nat
    then Err MovementError.InvalidWorkScope
    else
      let? first := ok_or (head groups) MovementError.InvalidWorkScope in
      let? _ := map_err MovementError.Reference
        (ReferenceCatalog_require_kind catalog (pg_variant first) ReferenceKind.Pack) in
      let? target := map_err MovementError.Reference
        (ReferenceCatalog_require_kind catalog (nw_target self) ReferenceKind.Location) in
      let? quantity := map_err MovementError.Reference (WholePacks_from_value 0) in
      let? quantity := try_fold (new_work_group self catalog first requirement_id_) quantity
        (zip (nw_groups self) groups) in
      let requirement := {|
        wr_id := requirement_id_; wr_trace := pg_trace first; wr_variant := pg_variant first;
        wr_target := Some target; wr_quantity := QuantityWork_pending quantity;
        wr_revision := HubRevision_INITIAL |} in
      let? changed := try_map (new_work_change requirement) groups in
      let? next := movement_next stock_revision in
      Ok {| nwp_stock_revision := next; nwp_requirement := requirement; nwp_groups := changed |}.

Definition NewWorkCommand_message (self : NewWorkCommand) (hub : HubId) (actor : PublicKey)
    (requirement_id_ : HubRecordId) : list byte :=
  domain_tag "harvestcircle.hub.new-work.command.v1" ++
  enc_hub hub ++ enc_key actor ++ enc_id requirement_id_ ++
  enc_revision (nw_expected_stock_revision self) ++
  enc_revision (nw_expected_catalog_revision self) ++
  enc_counted 8 enc_id (nw_groups self) ++
  enc_id (nw_target self) ++ enc_hub_text (nw_observation self).
Definition NewWorkCommand_fingerprint `{Sha256} (self : NewWorkCommand) (hub : HubId)
    (actor : PublicKey) (requirement_id_ : HubRecordId) : array 32 :=
  digest32 (NewWorkCommand_message self hub actor requirement_id_).

(** ** Discrepancies *)

Record Discrepancy := {
  ds_id : HubRecordId;
  ds_trace : HubRecordId;
  ds_group : option HubRecordId;
  ds_observation : SourceProvenance;
  ds_revision : HubRevision;
  ds_resolution : option SourceProvenance
}.

Definition Discrepancy_open (id trace : HubRecordId) (group : option HubRecordId)
    (observation : SourceProvenance) : Discrepancy :=
  {| ds_id := id; ds_trace := trace; ds_group := group; ds_observation := observation;
     ds_revision := HubRevision_INITIAL; ds_resolution := None |}.

Definition Discrepancy_resolve (self : Discrepancy) (expected_revision : HubRevision)
    (resolution : SourceProvenance) : result Discrepancy MovementError :=
  if expected_revision !=? ds_revision self then Err MovementError.StaleRevision
  else if is_some (ds_resolution self) then Err MovementError.AlreadyResolved
  else
    let? revision := movement_next (ds_revision self) in
    Ok {| ds_id := ds_id self; ds_trace := ds_trace self; ds_group := ds_group self;
          ds_observation := ds_observation self; ds_revision := revision;
          ds_resolution := Some resolution |}.

Module DiscrepancyAction.
Inductive DiscrepancyAction :=
| Open (trace : HubRecordId) (group : option HubRecordId) (observation : SourceProvenance)
| Resolve (discrepancy : HubRecordId) (expected_revision : HubRevision)
    (resolution : SourceProvenance).
End DiscrepancyAction.
Abbreviation DiscrepancyAction := DiscrepancyAction.DiscrepancyAction.

Record DiscrepancyCommand := {
  dc_expected_stock_revision : HubRevision;
  dc_expected_catalog_revision : HubRevision;
  dc_action : DiscrepancyAction
}.

Definition enc_discrepancy_action (a : DiscrepancyAction) : list byte :=
  match a with
  | DiscrepancyAction.Open trace group observation =>
      enc_tag 0 ++ enc_id trace ++ enc_optional_id group ++ enc_hub_text observation
  | DiscrepancyAction.Resolve discrepancy expected_revision resolution =>
      enc_tag 1 ++ enc_id discrepancy ++ enc_revision expected_revision ++
      enc_hub_text resolution
  end.
Definition DiscrepancyCommand_message (self : DiscrepancyCommand) (hub : HubId)
    (actor : PublicKey) (opened_id : HubRecordId) : list byte :=
  domain_tag "harvestcircle.hub.discrepancy.command.v1" ++
  enc_hub hub ++ enc_key actor ++ enc_id opened_id ++
  enc_revision (dc_expected_stock_revision self) ++
  enc_revision (dc_expected_catalog_revision self) ++
  enc_discrepancy_action (dc_action self).
Definition DiscrepancyCommand_fingerprint `{Sha256} (self : DiscrepancyCommand) (hub : HubId)
    (actor : PublicKey) (opened_id : HubRecordId) : array 32 :=
  digest32 (DiscrepancyCommand_message self hub actor opened_id).

(** ** Pushing an allocation *)

Lemma allocation_ok_ext g g' a :
  pg_trace g' = pg_trace g -> pg_variant g' = pg_variant g -> pg_packs g' = pg_packs g ->
  pg_location g' = pg_location g -> allocation_ok g a -> allocation_ok g' a.
Proof.
  intros Ht Hv Hp Hl []. constructor; rewrite ?Ht, ?Hv, ?Hp, ?Hl; done.
Qed.

Lemma push_ok g work a revision :
  group_ok g -> length work = length (pg_work g) ->
  (length (pg_work g) < HUB_GROUP_REQUIREMENTS)%nat ->
  NoDup (requirement_id <$> work) -> Forall (allocation_ok g) work ->
  requirement_id a ∉ requirement_id <$> work -> allocation_ok g a ->
  group_ok (pg_set_revision (pg_set_work g (push_allocation work a)) revision).
Proof.
  intros [] Hl Hc Hn Hf Hfresh Ha. unfold push_allocation. constructor; simpl; try done.
  - rewrite sort_by_key_length, length_app. simpl. lia.
  - rewrite <- (sort_by_key_perm requirement_id (work ++ [a])), fmap_app.
    apply NoDup_app. split_and!; [done| |apply NoDup_singleton].
    intros x Hx ->%list_elem_of_singleton. done.
  - apply list.Forall_forall. intros x Hx. apply (allocation_ok_ext g); try done.
    rewrite elem_of_sort_by_key, elem_of_app, list_elem_of_singleton in Hx.
    rewrite list.Forall_forall in Hf. destruct Hx as [Hx| ->]; auto.
Qed.

(** ** Retiring the remaining work *)

Record retired_by (r r' : WorkRequirement) : Prop := {
  rb_positive : 0 < raw (remaining (wr_quantity r));
  rb_same : r' = wr_with r (wr_quantity r') (wr_revision r');
  rb_required : required (wr_quantity r') = required (wr_quantity r);
  rb_completed : completed (wr_quantity r') = completed (wr_quantity r);
  rb_retired : raw (no_longer_required (wr_quantity r')) =
    raw (no_longer_required (wr_quantity r)) + raw (remaining (wr_quantity r));
  rb_remaining : remaining (wr_quantity r') = zero_packs;
  rb_revision : raw (wr_revision r') = raw (wr_revision r) + 1
}.

Lemma from_value_zero : WholePacks_from_value 0 = Ok zero_packs.
Proof. by apply checked_Ok. Qed.

Lemma retire_run r r' : WorkRequirement_retire_remaining r = Ok r' -> retired_by r r'.
Proof.
  unfold WorkRequirement_retire_remaining. rewrite from_value_zero. intros H. ok_facts. subst.
  pose proof (WholePacks_range (remaining (wr_quantity r))).
  constructor; simpl; try done; try congruence; lia.
Qed.

Lemma retire_total r :
  0 < raw (remaining (wr_quantity r)) -> raw (wr_revision r) < HubRevision_MAXIMUM ->
  exists r', WorkRequirement_retire_remaining r = Ok r'.
Proof.
  intros Hp Hr. pose proof (QuantityWork_balance (wr_quantity r)) as Hb.
  pose proof (WholePacks_range (required (wr_quantity r))).
  pose proof (WholePacks_range (completed (wr_quantity r))).
  destruct (checked_add_total (no_longer_required (wr_quantity r)) (remaining (wr_quantity r)))
    as (d & Hd & Ed); [lia|].
  destruct (movement_next_total _ Hr) as (n & Hn & _).
  unfold WorkRequirement_retire_remaining. rewrite (proj2 (Z.eqb_neq _ 0)) by lia.
  rewrite Hd, Hn, from_value_zero. cbn [bind map_err]. unfold QuantityWork_restore.
  rewrite (proj2 (work_accounted_Ok _ d zero_packs (required (wr_quantity r)))) by (simpl; lia).
  cbn [bind map_err].
  set (q := {| qw_required := _ |}).
  assert (QuantityWork_check q = true) as Hq by (apply QuantityWork_check_iff; simpl; lia).
  rewrite (proj2 (checked_Ok _ _ _ (Refined _ Hq)) eq_refl). simpl. by eexists.
Qed.

Lemma retired_validate r r' :
  retired_by r r' -> WorkRequirement_validate r = Ok tt -> WorkRequirement_validate r' = Ok tt.
Proof.
  intros [_ Hs Hr Hc _ _ _]. rewrite Hs. unfold WorkRequirement_validate. simpl.
  rewrite Hr, Hc. done.
Qed.

(** ** One group of a replan *)

Lemma existsb_key_false {A K} `{EqDecision K} (f : A -> K) l k :
  existsb (fun a => f a ==? k) l = false <-> k ∉ f <$> l.
Proof.
  rewrite <- not_true_iff_false, existsb_exists, list_elem_of_fmap. apply not_iff_compat. split.
  - intros (a & Ha & E). rewrite bool_decide_eq_true in E. exists a.
    split; [by symmetry|by apply list_elem_of_In].
  - intros (a & -> & Ha). exists a. rewrite bool_decide_eq_true. by rewrite <- list_elem_of_In.
Qed.

Lemma find_pending work l :
  NoDup (requirement_id <$> l) ->
  forall i a, list_find (fun a => requirement_id a = wr_id work) l = Some (i, a) ->
  a = pending work <-> pending work ∈ l.
Proof.
  intros Hn i a Hf.
  apply list_find_Some in Hf as (Hi & Hid & _). split.
  - intros <-. by eapply list_elem_of_lookup_2.
  - intros (j & Hj)%list_elem_of_lookup. assert (i = j) as <-; [|congruence].
    eapply NoDup_lookup; [done|..]; rewrite list_lookup_fmap.
    + by rewrite Hi.
    + rewrite Hj. simpl. by rewrite Hid.
Qed.

Section ReplanGroups.
Context (target replacement_id : HubRecordId) (catalog : ReferenceCatalog)
  (work previous replacement : WorkRequirement).
Context (Hwork : WorkRequirement_validate work = Ok tt)
  (Hprevious : retired_by work previous)
  (Hid : wr_id replacement = replacement_id) (Hfresh : replacement_id <> wr_id work)
  (Htrace : wr_trace replacement = wr_trace work)
  (Hvariant : wr_variant replacement = wr_variant work)
  (Htarget : exists t, wr_target replacement = Some t /\ rr_id t = target /\
     ReferenceValue_kind (rr_value t) = ReferenceKind.Location)
  (Hquantity : wr_quantity replacement = QuantityWork_pending (remaining (wr_quantity work))).

(** A group whose packs can be replanned. *)
Record replannable (g : PhysicalStockGroup) : Prop := {
  rn_group : catalogued catalog g;
  rn_elsewhere : pg_location g <> target;
  rn_fresh : replacement_id ∉ requirement_id <$> pg_work g;
  rn_room : (length (pg_work g) < HUB_GROUP_REQUIREMENTS)%nat;
  rn_pending : pending work ∈ pg_work g;
  rn_next : raw (pg_revision g) < HubRevision_MAXIMUM
}.

(** Its pending allocation is retired and the replacement is pending in its place. *)
Definition replanned (g g' : PhysicalStockGroup) : Prop :=
  exists before after revision,
    pg_work g = before ++ pending work :: after /\
    raw revision = raw (pg_revision g) + 1 /\
    g' = pg_set_revision (pg_set_work g
      (push_allocation (before ++ retired previous :: after) (pending replacement))) revision.

Lemma replacement_valid : WorkRequirement_validate replacement = Ok tt.
Proof.
  destruct Htarget as (t & Ht & _ & Hk). unfold WorkRequirement_validate.
  rewrite Ht, Hquantity. cbn [is_some_and]. rewrite bool_decide_eq_true_2 by done.
  change (required (QuantityWork_pending ?x)) with x.
  pose proof (rb_positive _ _ Hprevious). by rewrite (proj2 (Z.eqb_neq _ 0)) by lia.
Qed.

Lemma replanned_ok g g' : replannable g -> replanned g g' -> group_ok g'.
Proof.
  intros Hr (before & after & rev & Hw & _ & ->).
  pose proof (cg_group _ _ (rn_group _ Hr)) as Hg.
  pose proof (go_work _ Hg) as Hf. pose proof (go_distinct _ Hg) as Hn.
  pose proof (rn_fresh _ Hr) as Hfr. pose proof (rn_room _ Hr) as Hroom.
  pose proof (rn_elsewhere _ Hr) as Hel.
  assert (allocation_ok g (pending work)) as Hok.
  { rewrite list.Forall_forall in Hf. by apply Hf, rn_pending. }
  assert (requirement_id <$> before ++ retired previous :: after = requirement_id <$> pg_work g)
    as Hids.
  { rewrite Hw, !fmap_app, !fmap_cons. do 2 f_equal. unfold requirement_id. simpl.
    by rewrite (rb_same _ _ Hprevious). }
  destruct Hok as [_ Ot Ov Op _]. unfold accounted_packs in Op. simpl in Ot, Ov, Op.
  apply push_ok; [done|rewrite Hw, !length_app; done|done|by rewrite Hids| | |].
  - rewrite Hw, list.Forall_app, list.Forall_cons in Hf. rewrite list.Forall_app, list.Forall_cons.
    split_and!; [apply Hf| |apply Hf]. constructor; simpl.
    + by eapply retired_validate.
    + by rewrite (rb_same _ _ Hprevious).
    + by rewrite (rb_same _ _ Hprevious).
    + unfold accounted_packs. simpl. rewrite (rb_retired _ _ Hprevious).
      pose proof (WholePacks_range (no_longer_required (wr_quantity work))). lia.
    + done.
  - rewrite Hids. unfold requirement_id at 1. simpl. by rewrite Hid.
  - constructor; simpl; [apply replacement_valid|congruence|congruence| |].
    + unfold accounted_packs. simpl. by rewrite Hquantity.
    + intros _ t Ht. destruct Htarget as (t' & Ht' & <- & _). congruence.
Qed.
Let step := replan_group target replacement_id catalog work previous replacement.

Lemma replan_group_run earlier total g total' g' :
  step earlier total g = Ok (total', g') ->
  replannable g /\ pg_id g ∉ pg_id <$> earlier /\
  raw total' = raw total + raw (pg_packs g) /\ replanned g g'.
Proof.
  unfold step, replan_group. intros H. run_ok.
  match goal with E : list_find _ _ = _ |- _ => rename E into Hf end.
  ok_facts. simplify_eq.
  match goal with E : catalogued _ _ |- _ => rename E into Hc end.
  pose proof (cg_group _ _ Hc) as Hg.
  match goal with E : existsb (fun o => pg_id o ==? _) _ = false |- _ =>
    rewrite existsb_key_false in E end.
  match goal with E : existsb (fun o => requirement_id o ==? _) _ = false |- _ =>
    rewrite existsb_key_false in E end.
  apply list_find_Some in Hf as (Hi & _).
  assert (w = pending work) as -> by (destruct w; unfold pending; simpl in *; by subst).
  pose proof (go_capacity _ Hg). pose proof (list_elem_of_lookup_2 _ _ _ Hi) as Hin.
  split_and!; try done.
  - constructor; try done; [lia|by eapply next_bound].
  - eexists (take n (pg_work g)), (drop (S n) (pg_work g)), _.
    split_and!; [by rewrite take_drop_middle|done|].
    do 3 f_equal. apply insert_take_drop. by eapply lookup_lt_Some.
Qed.

Lemma replan_group_total earlier total g :
  replannable g -> pg_id g ∉ pg_id <$> earlier ->
  raw total + raw (pg_packs g) <= HUB_MAX_WHOLE_PACKS ->
  exists out, step earlier total g = Ok out.
Proof.
  intros Hr He Ht. pose proof Hr as []. pose proof (cg_group _ _ rn_group0) as Hg.
  destruct (list_find (fun a => requirement_id a = wr_id work) (pg_work g)) as [[i a]|] eqn:Hf;
    [|apply list_find_None in Hf; rewrite list.Forall_forall in Hf;
      by destruct (Hf _ rn_pending0)].
  pose proof (proj2 (find_pending work _ (go_distinct _ Hg) _ _ Hf) rn_pending0) as ->.
  destruct (checked_add_total _ _ Ht) as (t & Et & _).
  destruct (movement_next_total _ rn_next0) as (r & Er & Er').
  unfold step, replan_group. rewrite (proj2 (validate_catalog_Ok _ _)) by done. cbn [bind].
  rewrite bool_decide_eq_false_2, (proj2 (existsb_key_false pg_id _ _)),
    (proj2 (existsb_key_false requirement_id _ _)) by done. cbn [orb].
  rewrite (proj2 (Nat.eqb_neq _ _)) by lia. rewrite Hf. cbn [ok_or bind].
  rewrite !bool_decide_eq_true_2 by done. cbn [negb orb].
  rewrite Et. cbn [map_err bind]. rewrite Er. cbn [bind].
  rewrite (proj2 (validate_Ok _)); [by eexists|].
  apply (replanned_ok g); [done|]. apply list_find_Some in Hf as (Hi & _).
  eexists (take i (pg_work g)), (drop (S i) (pg_work g)), r.
  split_and!; [by rewrite take_drop_middle|done|].
  do 3 f_equal. apply insert_take_drop. by eapply lookup_lt_Some.
Qed.

Let loop := replan_groups target replacement_id catalog work previous replacement.

Lemma replan_groups_run earlier total gs total' gs' :
  NoDup (pg_id <$> earlier) -> loop earlier total gs = Ok (total', gs') ->
  Forall replannable gs /\ NoDup (pg_id <$> (earlier ++ gs)) /\
  raw total' = raw total + sum_packs (pg_packs <$> gs) /\ Forall2 replanned gs gs'.
Proof.
  unfold loop. revert earlier total total' gs'.
  induction gs as [|g gs IH]; intros earlier total total' gs' Hn H; simpl in H.
  - simplify_eq. rewrite app_nil_r. split_and!; try done. simpl; lia.
  - run_ok. simplify_eq.
    match goal with E : replan_group _ _ _ _ _ _ _ _ _ = _ |- _ =>
      apply replan_group_run in E as (Hr & He & Ht & Hg) end.
    match goal with E : replan_groups _ _ _ _ _ _ _ _ _ = _ |- _ =>
      apply IH in E as (Hrs & Hns & Hts & Hgs) end.
    + rewrite <- app_assoc in Hns. split_and!; [by constructor|done|csimpl; lia|by constructor].
    + rewrite fmap_app. apply NoDup_app. split_and!; [done| |apply NoDup_singleton].
      intros x Hx ->%list_elem_of_singleton. done.
Qed.

Lemma replan_groups_total earlier total gs :
  Forall replannable gs -> NoDup (pg_id <$> (earlier ++ gs)) ->
  raw total + sum_packs (pg_packs <$> gs) <= HUB_MAX_WHOLE_PACKS ->
  exists out, loop earlier total gs = Ok out.
Proof.
  unfold loop. revert earlier total. induction gs as [|g gs IH]; intros earlier total Hr Hn Ht;
    simpl; [by eexists|].
  apply list.Forall_cons in Hr as [Hr Hrs]. csimpl in Ht.
  pose proof (sum_packs_nonneg (pg_packs <$> gs)).
  rewrite fmap_app, fmap_cons in Hn.
  destruct (replan_group_total earlier total g) as [[t g'] Hs]; [done| |lia|].
  { intros Hx. apply NoDup_app in Hn as (_ & Hn & _). eapply Hn; [done|by left]. }
  pose proof (replan_group_run _ _ _ _ _ Hs) as (_ & _ & Et & _).
  unfold step in Hs. rewrite Hs. cbn [bind].
  destruct (IH (earlier ++ [g]) t) as [[t' gs'] ->]; [done| |lia|by eexists].
  by rewrite <- app_assoc, fmap_app.
Qed.
End ReplanGroups.

(** ** Replanning *)

Record replan_admitted (self : ReplanCommand) (catalog : ReferenceCatalog)
    (stock_revision : HubRevision) (work : WorkRequirement)
    (pending_groups : list PhysicalStockGroup) (replacement_id : HubRecordId) : Prop := {
  ra_work : WorkRequirement_validate work = Ok tt;
  ra_stock : rpl_expected_stock_revision self = stock_revision;
  ra_catalog : rpl_expected_catalog_revision self = rc_revision catalog;
  ra_requirement : rpl_requirement self = wr_id work;
  ra_work_revision : rpl_expected_work_revision self = wr_revision work;
  ra_identity : replacement_id <> wr_id work;
  ra_target : forall t, wr_target work = Some t -> rpl_target self <> rr_id t;
  ra_remaining : 0 < raw (remaining (wr_quantity work));
  ra_groups : (1 <= length pending_groups <= HUB_REQUIREMENT_GROUPS)%nat;
  ra_location : has_kind catalog (rpl_target self) ReferenceKind.Location;
  ra_work_next : raw (wr_revision work) < HubRevision_MAXIMUM;
  ra_stock_next : raw stock_revision < HubRevision_MAXIMUM;
  ra_replannable :
    Forall (replannable (rpl_target self) replacement_id catalog work) pending_groups;
  ra_distinct : NoDup (pg_id <$> pending_groups);
  ra_total : sum_packs (pg_packs <$> pending_groups) = raw (remaining (wr_quantity work))
}.

Record replan_effect (self : ReplanCommand) (catalog : ReferenceCatalog)
    (stock_revision : HubRevision) (work : WorkRequirement)
    (pending_groups : list PhysicalStockGroup) (replacement_id : HubRecordId)
    (p : ReplanPlan) : Prop := {
  rpe_revision : raw (rplp_stock_revision p) = raw stock_revision + 1;
  rpe_previous : retired_by work (rplp_previous p);
  rpe_replacement : exists target,
    bt_get (rpl_target self) (rc_records catalog) = Some target /\
    rplp_replacement p = {|
      wr_id := replacement_id; wr_trace := wr_trace work; wr_variant := wr_variant work;
      wr_target := Some target;
      wr_quantity := QuantityWork_pending (remaining (wr_quantity work));
      wr_revision := HubRevision_INITIAL |};
  rpe_groups : Forall2 (replanned work (rplp_previous p) (rplp_replacement p))
    pending_groups (rplp_groups p);
  rpe_valid : Forall group_ok (rplp_groups p)
}.

Lemma replacement_context work t (self : ReplanCommand) catalog replacement_id :
  catalog_wf catalog ->
  bt_get (rpl_target self) (rc_records catalog) = Some t ->
  ReferenceValue_kind (rr_value t) = ReferenceKind.Location ->
  let r := {|
    wr_id := replacement_id; wr_trace := wr_trace work; wr_variant := wr_variant work;
    wr_target := Some t; wr_quantity := QuantityWork_pending (remaining (wr_quantity work));
    wr_revision := HubRevision_INITIAL |} in
  exists t', wr_target r = Some t' /\ rr_id t' = rpl_target self /\
    ReferenceValue_kind (rr_value t') = ReferenceKind.Location.
Proof. intros Hw Ht Hk r. exists t. split_and!; [done|by eapply cw_keys|done]. Qed.

Lemma target_differs (o : option ReferenceRecord) id :
  is_some_and o (fun target => id ==? rr_id target) = false <->
  forall t, o = Some t -> id <> rr_id t.
Proof. destruct o; simpl; [rewrite bool_decide_eq_false|]; naive_solver. Qed.

Lemma replan_run self catalog stock_revision work groups rid p :
  catalog_wf catalog ->
  ReplanCommand_plan self catalog stock_revision work groups rid = Ok p ->
  replan_admitted self catalog stock_revision work groups rid /\
  replan_effect self catalog stock_revision work groups rid p.
Proof.
  intros Hcw H. unfold ReplanCommand_plan in H. rewrite from_value_zero in H. run_ok.
  match goal with E : WorkRequirement_retire_remaining _ = _ |- _ => apply retire_run in E as Hret end.
  ok_facts. simplify_eq. rewrite target_differs in *.
  match goal with E : replan_groups _ _ _ _ _ _ _ _ _ = _ |- _ =>
    apply replan_groups_run in E as (Hr & Hn & Ht & Hg); [|done..|constructor] end.
  pose proof (rb_positive _ _ Hret). simpl in Ht.
  split; constructor; try done; try lia.
  - by eexists.
  - eapply next_bound, (rb_revision _ _ Hret).
  - by eapply next_bound.
  - by eexists.
  - simpl. eapply list.Forall_forall. intros g' Hg'.
    apply list_elem_of_lookup in Hg' as (i & Hi).
    destruct (Forall2_lookup_r _ _ _ _ _ Hg Hi) as (g & Hgi & Hre).
    eapply replanned_ok; [..|exact Hre]; try done.
    + by apply replacement_context with (self := self) (catalog := catalog).
    + rewrite list.Forall_forall in Hr. by eapply Hr, list_elem_of_lookup_2.
Qed.

Lemma replan_total self catalog stock_revision work groups rid :
  catalog_wf catalog -> replan_admitted self catalog stock_revision work groups rid ->
  exists p, ReplanCommand_plan self catalog stock_revision work groups rid = Ok p.
Proof.
  intros Hcw []. destruct ra_location0 as (t & Ht & Hk).
  destruct (retire_total work) as [previous Hret]; [done..|].
  pose proof (retire_run _ _ Hret) as Hby.
  destruct (movement_next_total stock_revision) as (n & Hnext & _); [done|].
  set (rep := {| wr_id := rid; wr_trace := wr_trace work; wr_variant := wr_variant work;
    wr_target := Some t; wr_quantity := QuantityWork_pending (remaining (wr_quantity work));
    wr_revision := HubRevision_INITIAL |}).
  destruct (replan_groups_total (rpl_target self) rid catalog work previous rep) with
    (earlier := @nil PhysicalStockGroup) (total := zero_packs) (gs := groups)
    as [[total gs'] Hl]; try done.
  { by apply replacement_context with (self := self) (catalog := catalog). }
  { simpl. pose proof (WholePacks_range (remaining (wr_quantity work))). lia. }
  apply replan_groups_run in Hl as Hl'; [|done..|constructor]. destruct Hl' as (_ & _ & Et & _).
  assert (total = remaining (wr_quantity work)) as -> by (apply refined_eq; simpl in Et; lia).
  unfold ReplanCommand_plan. rewrite ra_work0, from_value_zero. cbn [bind map_err].
  rewrite !bool_decide_eq_true_2 by done. cbn [negb orb].
  rewrite bool_decide_eq_false_2, (proj2 (target_differs _ _)) by done. cbn [orb].
  rewrite (proj2 (Z.eqb_neq _ 0)), (proj2 (Nat.eqb_neq _ 0)), (proj2 (Nat.ltb_ge _ _)) by lia.
  cbn [orb]. rewrite (proj2 (require_kind_Ok _ _ _ t)) by done. cbn [map_err bind].
  rewrite Hret. cbn [bind]. fold rep. rewrite Hl. cbn [bind].
  rewrite bool_decide_eq_true_2 by done. cbn [negb]. rewrite Hnext. by eexists.
Qed.

(** Against a well-formed catalog, remaining work is replanned exactly when
    [replan_admitted] holds, in particular only when the pending groups carry
    exactly the remaining packs; the old requirement is then retired by what
    remained, the replacement asks for the same packs at the new location, each
    group swaps the one pending allocation for the other, and stays valid. *)
Theorem replan_correct self catalog stock_revision work groups rid :
  catalog_wf catalog ->
  match ReplanCommand_plan self catalog stock_revision work groups rid with
  | Ok p =>
      replan_admitted self catalog stock_revision work groups rid /\
      replan_effect self catalog stock_revision work groups rid p
  | Err _ => ~ replan_admitted self catalog stock_revision work groups rid
  end.
Proof.
  intros Hcw. destruct (ReplanCommand_plan _ _ _ _ _ _) as [p|e] eqn:E; [by apply replan_run|].
  intros H. apply replan_total in H as [p H]; [congruence|done].
Qed.

(** ** New work *)

(** A group that takes new work for a target: nothing pending, the requirement
    unknown to it, and room for one more. *)
Record workable (catalog : ReferenceCatalog) (target rid : HubRecordId)
    (first g : PhysicalStockGroup) : Prop := {
  wk_group : catalogued catalog g;
  wk_trace : pg_trace g = pg_trace first;
  wk_variant : pg_variant g = pg_variant first;
  wk_elsewhere : pg_location g <> target;
  wk_settled : Forall (fun a => wa_progress a <> WorkProgress.Pending) (pg_work g);
  wk_fresh : rid ∉ requirement_id <$> pg_work g;
  wk_room : (length (pg_work g) < HUB_GROUP_REQUIREMENTS)%nat
}.

Lemma new_work_scan_false rid work :
  existsb (fun a => (wa_progress a ==? WorkProgress.Pending) || (requirement_id a ==? rid)) work
    = false <->
  Forall (fun a => wa_progress a <> WorkProgress.Pending) work /\ rid ∉ requirement_id <$> work.
Proof.
  induction work as [|a work IH]; csimpl; [split; [split; [done|apply not_elem_of_nil]|done]|].
  rewrite !orb_false_iff, IH, !bool_decide_eq_false, list.Forall_cons, not_elem_of_cons.
  naive_solver.
Qed.

Lemma new_work_group_Ok self catalog first rid q id g q' :
  new_work_group self catalog first rid q (id, g) = Ok q' <->
  workable catalog (nw_target self) rid first g /\ pg_id g = id /\
  raw q' = raw q + raw (pg_packs g).
Proof.
  unfold new_work_group. rewrite seq_Ok, !guard_Ok, map_err_Ok, checked_add_Ok.
  rewrite !orb_false_iff, new_work_scan_false, !negb_false_iff, !bool_decide_eq_true,
    bool_decide_eq_false, Nat.eqb_neq, validate_catalog_Ok. split.
  - intros (Hc & ((((? & ?) & ?) & ?) & ? & ?) & Hl & ?).
    pose proof (go_capacity _ (cg_group _ _ Hc)). split_and!; [|done..].
    constructor; try done. lia.
  - intros ([] & ? & ?). split_and!; try done. lia.
Qed.

Lemma new_work_fold self catalog first rid q ids groups q' :
  length ids = length groups ->
  try_fold (new_work_group self catalog first rid) q (zip ids groups) = Ok q' <->
  Forall (workable catalog (nw_target self) rid first) groups /\ ids = pg_id <$> groups /\
  raw q' = raw q + sum_packs (pg_packs <$> groups).
Proof.
  revert ids q. induction groups as [|g groups IH]; intros [|id ids] q; try discriminate;
    intros Hl; csimpl.
  - split; [intros [= ->]; split_and!; [done..|lia]|intros (_ & _ & Hq)].
    f_equal. apply refined_eq. lia.
  - rewrite bind_Ok. setoid_rewrite new_work_group_Ok. injection Hl as Hl. setoid_rewrite IH; [|done].
    rewrite list.Forall_cons. split.
    + intros (m & (? & <- & Hm) & ? & -> & Hq). split_and!; try done. lia.
    + intros ((? & ?) & [= -> ->] & Hq). pose proof (sum_packs_nonneg (pg_packs <$> groups)).
      pose proof (WholePacks_range q'). pose proof (WholePacks_range q).
      pose proof (WholePacks_range (pg_packs g)).
      assert (WholePacks_check (raw q + raw (pg_packs g)) = true) as Hc
        by (apply WholePacks_check_iff; lia).
      exists (Refined _ Hc). split_and!; try done. simpl. lia.
Qed.

Definition new_requirement (first : PhysicalStockGroup) (rid : HubRecordId)
    (target : ReferenceRecord) (quantity : WholePacks) : WorkRequirement :=
  {| wr_id := rid; wr_trace := pg_trace first; wr_variant := pg_variant first;
     wr_target := Some target; wr_quantity := QuantityWork_pending quantity;
     wr_revision := HubRevision_INITIAL |}.

(** The group with the new requirement pending and its revision advanced. *)
Definition gains (r : WorkRequirement) (g g' : PhysicalStockGroup) : Prop :=
  exists revision, raw revision = raw (pg_revision g) + 1 /\
    g' = pg_set_revision (pg_set_work g (push_allocation (pg_work g) (pending r))) revision.

Lemma gains_ok catalog tid rid first target quantity g g' :
  workable catalog tid rid first g -> rr_id target = tid ->
  ReferenceValue_kind (rr_value target) = ReferenceKind.Location ->
  raw (pg_packs g) <= raw quantity ->
  gains (new_requirement first rid target quantity) g g' -> group_ok g'.
Proof.
  intros [] Hid Hk Hq (rev & _ & ->). pose proof (cg_group _ _ wk_group0) as Hg.
  apply push_ok; try done; [apply Hg..|].
  pose proof (go_packs _ Hg). constructor; simpl; try done.
  - unfold WorkRequirement_validate, new_requirement. cbn [wr_target wr_quantity is_some_and].
    rewrite bool_decide_eq_true_2 by done. change (required (QuantityWork_pending ?x)) with x.
    by rewrite (proj2 (Z.eqb_neq _ 0)) by lia.
  - intros _ t [= <-]. congruence.
Qed.

Lemma new_work_change_Ok r g g' :
  new_work_change r g = Ok g' <-> gains r g g' /\ group_ok g'.
Proof.
  unfold new_work_change, gains. rewrite bind_Ok. setoid_rewrite movement_next_Ok.
  setoid_rewrite seq_Ok. setoid_rewrite validate_Ok. split.
  - intros (rev & Hr & Hv & [= <-]). eauto.
  - intros ((rev & Hr & ->) & Hv). eauto.
Qed.

Record new_work_admitted (self : NewWorkCommand) (catalog : ReferenceCatalog)
    (stock_revision : HubRevision) (groups : list PhysicalStockGroup)
    (rid : HubRecordId) : Prop := {
  na_stock : nw_expected_stock_revision self = stock_revision;
  na_catalog : nw_expected_catalog_revision self = rc_revision catalog;
  na_capacity : (length (nw_groups self) <= HUB_REQUIREMENT_GROUPS)%nat;
  na_ordered : Sorted klt (nw_groups self);
  na_groups : nw_groups self = pg_id <$> groups;
  na_workable : exists first rest, groups = first :: rest /\
    Forall (workable catalog (nw_target self) rid first) groups;
  na_target : has_kind catalog (nw_target self) ReferenceKind.Location;
  na_total : sum_packs (pg_packs <$> groups) <= HUB_MAX_WHOLE_PACKS;
  na_next : Forall (fun g => raw (pg_revision g) < HubRevision_MAXIMUM) groups;
  na_stock_next : raw stock_revision < HubRevision_MAXIMUM
}.

Record new_work_effect (self : NewWorkCommand) (catalog : ReferenceCatalog)
    (stock_revision : HubRevision) (groups : list PhysicalStockGroup)
    (rid : HubRecordId) (p : NewWorkPlan) : Prop := {
  ne_revision : raw (nwp_stock_revision p) = raw stock_revision + 1;
  ne_requirement : exists first target quantity,
    head groups = Some first /\
    bt_get (nw_target self) (rc_records catalog) = Some target /\
    raw quantity = sum_packs (pg_packs <$> groups) /\
    nwp_requirement p = new_requirement first rid target quantity;
  ne_groups : Forall2 (gains (nwp_requirement p)) groups (nwp_groups p);
  ne_valid : Forall group_ok (nwp_groups p)
}.

Lemma validate_shape_Ok self :
  NewWorkCommand_validate_shape self = Ok tt <->
  (1 <= length (nw_groups self) <= HUB_REQUIREMENT_GROUPS)%nat /\ Sorted klt (nw_groups self).
Proof.
  unfold NewWorkCommand_validate_shape.
  assert (windows2_any (fun a b => kleb b a) (nw_groups self) = false <-> Sorted klt (nw_groups self))
    as Hs.
  { rewrite windows2_any_false. assert (forall a b : HubRecordId, kleb b a = false <-> klt a b) as He.
    - intros a b. rewrite <- not_true_iff_false, kleb_spec. unfold kle, klt.
      rewrite (kcompare_antisym a b). destruct (kcompare a b); simpl; naive_solver.
    - split; induction 1 as [|? ? ? ? Hd]; constructor; auto; destruct Hd; constructor; by apply He. }
  rewrite guard_Ok, !orb_false_iff, Hs, Nat.eqb_neq, Nat.ltb_ge.
  split; [intros (((? & ?) & ?) & _)|intros ((? & ?) & ?)]; split_and!; try done; lia.
Qed.

Lemma sum_packs_elem {A} (f : A -> WholePacks) l a :
  a ∈ l -> raw (f a) <= sum_packs (f <$> l).
Proof.
  induction l as [|b l IH]; [by intros ?%not_elem_of_nil|]. csimpl.
  pose proof (sum_packs_nonneg (f <$> l)). pose proof (WholePacks_range (f b)).
  intros [->|Hin]%elem_of_cons; [|apply IH in Hin]; lia.
Qed.

Lemma new_work_run self catalog stock_revision groups rid p :
  NewWorkCommand_plan self catalog stock_revision groups rid = Ok p ->
  new_work_admitted self catalog stock_revision groups rid /\
  new_work_effect self catalog stock_revision groups rid p.
Proof.
  intros H. unfold NewWorkCommand_plan in H. rewrite from_value_zero in H. run_ok.
  ok_facts. rewrite validate_shape_Ok in *. destruct_and!.
  match goal with E : try_fold _ _ _ = _ |- _ =>
    apply new_work_fold in E as (Hw & Hids & Hq); [|done] end.
  match goal with E : try_map _ _ = _ |- _ => apply try_map_Ok in E as Hg end.
  destruct groups as [|first rest]; [done|].
  match goal with E : head _ = Some _ |- _ => injection E as <- end. simplify_eq.
  pose proof (WholePacks_range x3). cbn [raw zero_packs] in Hq.
  assert (Forall2 (fun g g' => gains (new_requirement first rid x1 x3) g g' /\ group_ok g')
    (first :: rest) x4) as Hgg.
  { eapply Forall2_impl; [exact Hg|]. intros g g' Hx%new_work_change_Ok. exact Hx. }
  split; constructor; cbn [nwp_stock_revision nwp_requirement nwp_groups]; try done; try lia.
  - eauto.
  - by eexists.
  - eapply Forall2_Forall_l; [exact Hgg|]. apply list.Forall_true.
    intros g' g ((rev & Hr & _) & _). by eapply next_bound.
  - by eapply next_bound.
  - by eexists first, x1, x3.
  - eapply Forall2_impl; [exact Hgg|]. by intros g g' [? _].
  - eapply Forall2_Forall_r; [exact Hgg|]. apply list.Forall_true. by intros ? ? [_ ?].
Qed.

Lemma new_work_total self catalog stock_revision groups rid :
  catalog_wf catalog -> new_work_admitted self catalog stock_revision groups rid ->
  exists p, NewWorkCommand_plan self catalog stock_revision groups rid = Ok p.
Proof.
  intros Hcw []. destruct na_workable0 as (first & rest & Hg & Hw).
  destruct na_target0 as (t & Ht & Hk).
  destruct (movement_next_total stock_revision) as (n & Hnext & _); [done|].
  assert (WholePacks_check (sum_packs (pg_packs <$> groups)) = true) as Hc
    by (apply WholePacks_check_iff; pose proof (sum_packs_nonneg (pg_packs <$> groups)); lia).
  set (quantity := Refined _ Hc : WholePacks).
  assert (length (nw_groups self) = length groups) as Hlen by (by rewrite na_groups0, length_fmap).
  assert (exists gs', try_map (new_work_change (new_requirement first rid t quantity)) groups = Ok gs')
    as [gs' Hgs].
  { assert (forall l, l ⊆ groups -> exists gs',
      try_map (new_work_change (new_requirement first rid t quantity)) l = Ok gs') as Hx; [|by apply Hx].
    induction l as [|g l IH]; intros Hsub; simpl; [by eexists|].
    assert (g ∈ groups) as Hin by set_solver.
    rewrite list.Forall_forall in Hw, na_next0.
    destruct (movement_next_total (pg_revision g)) as (r & Er & Er'); [by apply na_next0|].
    assert (exists g', new_work_change (new_requirement first rid t quantity) g = Ok g') as [g' ->].
    { eexists. apply new_work_change_Ok. split; [by exists r|].
      eapply gains_ok; [by apply Hw|by eapply cw_keys|done| |by exists r].
      by apply (sum_packs_elem pg_packs). }
    destruct IH as [l' ->]; [set_solver|]. by eexists. }
  unfold NewWorkCommand_plan. rewrite from_value_zero. rewrite !bool_decide_eq_true_2 by done.
  cbn [negb orb]. rewrite (proj2 (validate_shape_Ok self)).
  2:{ split; [|done]. subst groups. simpl in Hlen. lia. }
  cbn [bind map_err]. rewrite (proj2 (Nat.eqb_eq _ _)) by done. cbn [negb].
  replace (head groups) with (Some first) by (by subst). cbn [ok_or bind].
  assert (workable catalog (nw_target self) rid first first) as Hfirst.
  { rewrite list.Forall_forall in Hw. apply Hw. subst. by left. }
  destruct (cg_variant _ _ (wk_group _ _ _ _ _ Hfirst)) as (v & Hv & Hvk).
  rewrite (proj2 (require_kind_Ok _ _ _ v)), (proj2 (require_kind_Ok _ _ _ t)) by done.
  cbn [bind map_err]. rewrite (proj2 (new_work_fold _ _ _ _ _ _ _ quantity Hlen)) by done.
  cbn [bind]. change {| wr_id := rid |} with (new_requirement first rid t quantity).
  rewrite Hgs. cbn [bind]. rewrite Hnext. by eexists.
Qed.

(** Against a well-formed catalog, new work is opened exactly when
    [new_work_admitted] holds, in particular only for groups with nothing
    pending; the requirement then asks for exactly the packs of the groups
    together, every group holds it as pending, and stays valid. *)
Theorem new_work_correct self catalog stock_revision groups rid :
  catalog_wf catalog ->
  match NewWorkCommand_plan self catalog stock_revision groups rid with
  | Ok p =>
      new_work_admitted self catalog stock_revision groups rid /\
      new_work_effect self catalog stock_revision groups rid p
  | Err _ => ~ new_work_admitted self catalog stock_revision groups rid
  end.
Proof.
  intros Hcw. destruct (NewWorkCommand_plan _ _ _ _ _) as [p|e] eqn:E; [by apply new_work_run|].
  intros H. apply new_work_total in H as [p H]; [congruence|done].
Qed.

(** ** Discrepancies *)

(** A discrepancy is resolved once: a resolution keeps what was observed,
    advances the revision by one and leaves a record that refuses every further
    resolution; the errors tell a stale revision, a resolved discrepancy and an
    exhausted revision apart. *)
Theorem Discrepancy_resolve_correct d expected resolution :
  match Discrepancy_resolve d expected resolution with
  | Ok d' =>
      expected = ds_revision d /\ ds_resolution d = None /\ ds_resolution d' = Some resolution /\
      ds_id d' = ds_id d /\ ds_trace d' = ds_trace d /\ ds_group d' = ds_group d /\
      ds_observation d' = ds_observation d /\ raw (ds_revision d') = raw (ds_revision d) + 1 /\
      (forall expected' resolution' d'', Discrepancy_resolve d' expected' resolution' <> Ok d'')
  | Err MovementError.StaleRevision => expected <> ds_revision d
  | Err MovementError.AlreadyResolved => expected = ds_revision d /\ is_Some (ds_resolution d)
  | Err MovementError.RevisionExhausted =>
      expected = ds_revision d /\ raw (ds_revision d) = HubRevision_MAXIMUM
  | Err _ => False
  end.
Proof.
  unfold Discrepancy_resolve. case_bool_decide as He; [cbn [negb]|done].
  destruct (ds_resolution d) as [r|] eqn:Er; cbn [is_some]; [by split|].
  destruct (movement_next (ds_revision d)) as [n|e] eqn:En; cbn [bind].
  - apply movement_next_Ok in En. split_and!; try done. intros expected' resolution' d''.
    simpl. by case_bool_decide.
  - assert (e = MovementError.RevisionExhausted) as ->.
    { unfold movement_next in En. destruct (HubRevision_next _); simpl in En; congruence. }
    split; [done|]. destruct (Z.lt_ge_cases (raw (ds_revision d)) HubRevision_MAXIMUM) as [Hlt|].
    + destruct (movement_next_total _ Hlt) as (? & ? & _). congruence.
    + pose proof (HubRevision_range (ds_revision d)). lia.
Qed.

(** ** The messages determine the commands *)

Lemma ReplanCommand_message_inv cmd cmd' hub hub' actor actor' rid rid' :
  ReplanCommand_message cmd hub actor rid = ReplanCommand_message cmd' hub' actor' rid' ->
  cmd = cmd' /\ hub = hub' /\ actor = actor' /\ rid = rid'.
Proof.
  intros E. unfold ReplanCommand_message in E.
  apply app_inv_head in E. do 8 peel E. apply prefix_code_inj in E; [|apply _].
  destruct cmd, cmd'; simpl in *. by subst.
Qed.

Lemma NewWorkCommand_message_inv cmd cmd' hub hub' actor actor' rid rid' :
  NewWorkCommand_validate_shape cmd = Ok tt -> NewWorkCommand_validate_shape cmd' = Ok tt ->
  NewWorkCommand_message cmd hub actor rid = NewWorkCommand_message cmd' hub' actor' rid' ->
  cmd = cmd' /\ hub = hub' /\ actor = actor' /\ rid = rid'.
Proof.
  intros [[_ Hl] _]%validate_shape_Ok [[_ Hl'] _]%validate_shape_Ok E.
  unfold NewWorkCommand_message in E. unfold HUB_REQUIREMENT_GROUPS in *.
  apply app_inv_head in E. do 5 peel E.
  apply (enc_counted_inv 8 enc_id) in E as [? E]; [|lia..].
  peel E. apply prefix_code_inj in E; [|apply _].
  destruct cmd, cmd'; simpl in *. by subst.
Qed.

#[global] Instance enc_discrepancy_action_prefix : PrefixCode enc_discrepancy_action.
Proof.
  intros [t g o|d x o] [t' g' o'|d' x' o'] r s E; unfold enc_discrepancy_action in E;
    rewrite <- ?app_assoc in E; apply enc_tag_inv in E as [Et E]; try lia; try discriminate Et;
    do 3 peel E; split; congruence.
Qed.

Lemma DiscrepancyCommand_message_inv cmd cmd' hub hub' actor actor' id id' :
  DiscrepancyCommand_message cmd hub actor id = DiscrepancyCommand_message cmd' hub' actor' id' ->
  cmd = cmd' /\ hub = hub' /\ actor = actor' /\ id = id'.
Proof.
  intros E. unfold DiscrepancyCommand_message in E.
  apply app_inv_head in E. do 5 peel E. apply prefix_code_inj in E; [|apply _].
  destruct cmd, cmd'; simpl in *. by subst.
Qed.

(** ** Concrete groups *)

Definition sample_requirement : WorkRequirement :=
  {| wr_id := sample_id 31; wr_trace := sample_id 41; wr_variant := sample_id 12;
     wr_target := Some (sample_record 22 value_storage);
     wr_quantity := QuantityWork_pending (sample_packs 10);
     wr_revision := HubRevision_INITIAL |}.
Definition sample_group (id packs : Z) (work : list WorkAllocation) : PhysicalStockGroup :=
  {| pg_id := sample_id id; pg_trace := sample_id 41; pg_variant := sample_id 12;
     pg_parent := None; pg_identification := None; pg_location := sample_id 21;
     pg_packs := sample_packs packs; pg_revision := HubRevision_INITIAL;
     pg_causal_floor := Some (sample_time 100); pg_work := work |}.
Definition sample_identification : PhysicalIdentification :=
  {| pi_label := sample_label "Portion"; pi_observation := sample_provenance "Seen" |}.
Definition sample_movement : MovementCommand :=
  {| mv_expected_stock_revision := sample_revision 3;
     mv_expected_catalog_revision := sample_revision 7;
     mv_group := sample_id 51; mv_expected_group_revision := HubRevision_INITIAL;
     mv_to := sample_id 22; mv_packs := sample_packs 4;
     mv_separated_portion := Some sample_identification;
     mv_occurred := Occurrence.Known (sample_time 120);
     mv_observation := sample_provenance "Moved" |}.
Definition sample_replan : ReplanCommand :=
  {| rpl_expected_stock_revision := sample_revision 3;
     rpl_expected_catalog_revision := sample_revision 7;
     rpl_requirement := sample_id 31; rpl_expected_work_revision := HubRevision_INITIAL;
     rpl_target := sample_id 23; rpl_observation := sample_provenance "Replanned" |}.
Definition sample_new_work : NewWorkCommand :=
  {| nw_expected_stock_revision := sample_revision 3;
     nw_expected_catalog_revision := sample_revision 7;
     nw_groups := [sample_id 51; sample_id 52]; nw_target := sample_id 23;
     nw_observation := sample_provenance "New" |}.

Lemma sample_catalog_wf : catalog_wf sample_catalog.
Proof. exact (proj2 (restore_wf _ _ _ sample_catalog_restored)). Qed.

(** Four of ten packs reach the target: four are completed, six stay pending. *)
Example sample_movement_credit :
  match MovementCommand_plan sample_movement sample_catalog (sample_revision 3)
          (sample_group 51 10 [pending sample_requirement]) (sample_id 61) (sample_time 130) with
  | Ok p =>
      (fun r => (raw (completed (wr_quantity r)), raw (remaining (wr_quantity r))))
        <$> mp_work_updates p = [(4, 6)]
  | Err _ => False
  end.
Proof. vm_compute. reflexivity. Qed.

Lemma replan_correct_witness :
  match ReplanCommand_plan sample_replan sample_catalog (sample_revision 3) sample_requirement
          [sample_group 51 4 [pending sample_requirement];
           sample_group 52 6 [pending sample_requirement]] (sample_id 32) with
  | Ok p =>
      replan_effect sample_replan sample_catalog (sample_revision 3) sample_requirement
        [sample_group 51 4 [pending sample_requirement];
         sample_group 52 6 [pending sample_requirement]] (sample_id 32) p
  | Err _ => False
  end.
Proof.
  pose proof (replan_correct sample_replan sample_catalog (sample_revision 3) sample_requirement
    [sample_group 51 4 [pending sample_requirement];
     sample_group 52 6 [pending sample_requirement]] (sample_id 32) sample_catalog_wf) as H.
  destruct (ReplanCommand_plan _ _ _ _ _ _) as [p|e] eqn:E; [exact (proj2 H)|].
  vm_compute in E. discriminate E.
Defined.

Lemma new_work_correct_witness :
  match NewWorkCommand_plan sample_new_work sample_catalog (sample_revision 3)
          [sample_group 51 4 []; sample_group 52 6 []] (sample_id 33) with
  | Ok p =>
      new_work_effect sample_new_work sample_catalog (sample_revision 3)
        [sample_group 51 4 []; sample_group 52 6 []] (sample_id 33) p
  | Err _ => False
  end.
Proof.
  pose proof (new_work_correct sample_new_work sample_catalog (sample_revision 3)
    [sample_group 51 4 []; sample_group 52 6 []] (sample_id 33) sample_catalog_wf) as H.
  destruct (NewWorkCommand_plan _ _ _ _ _) as [p|e] eqn:E; [exact (proj2 H)|].
  vm_compute in E. discriminate E.
Defined.
