(* ===== verification/Lineage.v ===== *)
(** * Physical lineage and captured scope

    [hub/portions/lineage.rs]: the complete lineage of one population, the
    scopes captured from it, and their resolution against a later lineage. *)

From Stdlib Require Import Bool ZArith Lia String Sorted Permutation.
From stdpp Require Import base decidable option list numbers sets relations sorting.
From S2P Require Import Prelude Containers Encoding Hub Reference Movement.

Definition HUB_LINEAGE_GROUPS : nat := HUB_REQUIREMENT_GROUPS.
Definition HUB_PHYSICAL_SCOPES : nat := 256.

Module PhysicalScopeError.
Inductive PhysicalScopeError :=
| Capacity | InvalidLineage | InvalidSelection | HistoricalGap | QuantityOverflow.
#[global] Instance PhysicalScopeError_eq_dec : EqDecision PhysicalScopeError.
Proof. solve_decision. Defined.
End PhysicalScopeError.
Abbreviation PhysicalScopeError := PhysicalScopeError.PhysicalScopeError.

Record PhysicalRecoveryOrigin := {
  pro_debit_operation : HubRecordId;
  pro_debit_revision : HubRevision
}.
#[global] Instance PhysicalRecoveryOrigin_eq_dec : EqDecision PhysicalRecoveryOrigin.
Proof. solve_decision. Defined.

Record PhysicalLineageNode := {
  pln_id : HubRecordId;
  pln_parent : option HubRecordId;
  pln_trace : HubRecordId;
  pln_variant : HubRecordId;
  pln_created_revision : HubRevision;
  pln_packs : WholePacks;
  pln_recovery : option PhysicalRecoveryOrigin
}.
#[global] Instance PhysicalLineageNode_eq_dec : EqDecision PhysicalLineageNode.
Proof. solve_decision. Defined.

Record PhysicalLineage := {
  pl_hub : HubId;
  pl_trace : HubRecordId;
  pl_variant : HubRecordId;
  pl_revision : HubRevision;
  pl_nodes : list PhysicalLineageNode
}.
#[global] Instance PhysicalLineage_eq_dec : EqDecision PhysicalLineage.
Proof. solve_decision. Defined.

Record PhysicalScopeAnchor := {
  psa_group : HubRecordId;
  psa_created_revision : HubRevision;
  psa_captured_packs : WholePacks
}.
#[global] Instance PhysicalScopeAnchor_eq_dec : EqDecision PhysicalScopeAnchor.
Proof. solve_decision. Defined.

Record CapturedPhysicalScope := {
  cps_hub : HubId;
  cps_trace : HubRecordId;
  cps_variant : HubRecordId;
  cps_captured_revision : HubRevision;
  cps_anchors : list PhysicalScopeAnchor
}.
#[global] Instance CapturedPhysicalScope_eq_dec : EqDecision CapturedPhysicalScope.
Proof. solve_decision. Defined.

Record ResolvedPhysicalScope := {
  rps_revision : HubRevision;
  rps_groups : list PhysicalLineageNode;
  rps_packs : WholePacks
}.

Definition PhysicalLineageNode_inherits_at (self : PhysicalLineageNode) (captured : HubRevision)
  : bool :=
  (raw (pln_created_revision self) >? raw captured)
  && is_none_or (pln_recovery self)
       (fun origin => raw captured <? raw (pro_debit_revision origin)).

(** [PhysicalLineage::node]: a binary search by identifier. *)
Definition PhysicalLineage_node (self : PhysicalLineage) (id : HubRecordId)
  : option PhysicalLineageNode :=
  search_by_key pln_id (pl_nodes self) id.

(** The checks on one node in [PhysicalLineage::new], with the running total. *)
Definition lineage_check_node (value : PhysicalLineage) (total : WholePacks)
    (node : PhysicalLineageNode) : result WholePacks PhysicalScopeError :=
  if (pln_trace node !=? pl_trace value) || (pln_variant node !=? pl_variant value)
     || (raw (pln_created_revision node) >? raw (pl_revision value))
  then Err PhysicalScopeError.InvalidLineage
  else
    (match pln_parent node with
     | Some parent =>
         let? parent := ok_or (PhysicalLineage_node value parent)
           PhysicalScopeError.InvalidLineage in
         if raw (pln_created_revision parent) >=? raw (pln_created_revision node)
         then Err PhysicalScopeError.InvalidLineage
         else if is_some_and (pln_recovery node)
                   (fun origin =>
                      (raw (pro_debit_revision origin) <=? raw (pln_created_revision parent))
                      || (raw (pro_debit_revision origin) >=? raw (pln_created_revision node)))
         then Err PhysicalScopeError.InvalidLineage
         else Ok tt
     | None =>
         if is_some (pln_recovery node) then Err PhysicalScopeError.InvalidLineage else Ok tt
     end) ;;?
    map_err (fun _ => PhysicalScopeError.QuantityOverflow)
      (WholePacks_checked_add total (pln_packs node)).

Definition PhysicalLineage_new (hub : HubId) (trace variant : HubRecordId)
    (revision : HubRevision) (nodes : list PhysicalLineageNode)
  : result PhysicalLineage PhysicalScopeError :=
  if (length nodes =? 0)%nat || (HUB_LINEAGE_GROUPS <? length nodes)%nat
  then Err PhysicalScopeError.Capacity
  else
    let nodes := sort_by_key pln_id nodes in
    if windows2_any (fun a b => pln_id a ==? pln_id b) nodes
       || negb (length (filter (fun node => pln_parent node = None) nodes) =? 1)%nat
    then Err PhysicalScopeError.InvalidLineage
    else
      let value := {| pl_hub := hub; pl_trace := trace; pl_variant := variant;
                      pl_revision := revision; pl_nodes := nodes |} in
      let? _ := try_fold (lineage_check_node value) zero_packs nodes in
      Ok value.

(** The loop of [captured_member]; [None] when the fuel runs out. *)
Fixpoint captured_member_loop (self : PhysicalLineage) (anchor : HubRecordId)
    (captured : HubRevision) (fuel : nat) (group : HubRecordId) : option bool :=
  match fuel with
  | O => None
  | S fuel =>
      match PhysicalLineage_node self group with
      | None => Some false
      | Some node =>
          if group ==? anchor then Some true
          else if negb (PhysicalLineageNode_inherits_at node captured) then Some false
          else match pln_parent node with
               | None => Some false
               | Some parent => captured_member_loop self anchor captured fuel parent
               end
      end
  end.

Definition PhysicalLineage_captured_member (self : PhysicalLineage) (anchor : HubRecordId)
    (captured : HubRevision) (group : HubRecordId) : option bool :=
  if (raw captured >? raw (pl_revision self))
     || is_none_or (PhysicalLineage_node self anchor)
          (fun n => raw (pln_created_revision n) >? raw captured)
  then Some false
  else captured_member_loop self anchor captured (S (length (pl_nodes self))) group.

(** ** Capture *)

Definition capture_anchor (self : PhysicalLineage) (id : HubRecordId)
  : result PhysicalScopeAnchor PhysicalScopeError :=
  let? node := ok_or (PhysicalLineage_node self id) PhysicalScopeError.InvalidSelection in
  if raw (pln_packs node) =? 0 then Err PhysicalScopeError.InvalidSelection
  else Ok {| psa_group := id; psa_created_revision := pln_created_revision node;
             psa_captured_packs := pln_packs node |}.

Definition PhysicalLineage_capture (self : PhysicalLineage) (selected : list HubRecordId)
  : result CapturedPhysicalScope PhysicalScopeError :=
  if (length selected =? 0)%nat || (HUB_LINEAGE_GROUPS <? length selected)%nat
  then Err PhysicalScopeError.InvalidSelection
  else
    let? anchors := try_map (capture_anchor self) selected in
    let anchors := sort_by_key psa_group anchors in
    if windows2_any (fun a b => psa_group a ==? psa_group b) anchors
    then Err PhysicalScopeError.InvalidSelection
    else Ok {| cps_hub := pl_hub self; cps_trace := pl_trace self;
               cps_variant := pl_variant self; cps_captured_revision := pl_revision self;
               cps_anchors := anchors |}.

(** ** Resolution *)

(** The anchors of one scope, checked and collected in a [BTreeSet]. *)
Definition resolve_anchor (self : PhysicalLineage) (anchors : list (HubRecordId * unit))
    (anchor : PhysicalScopeAnchor) : result (list (HubRecordId * unit)) PhysicalScopeError :=
  let? node := ok_or (PhysicalLineage_node self (psa_group anchor))
    PhysicalScopeError.HistoricalGap in
  if pln_created_revision node !=? psa_created_revision anchor
  then Err PhysicalScopeError.HistoricalGap
  else Ok (bs_insert (psa_group anchor) anchors).2.

(** One node of the chronological pass: the set of included identifiers and the
    map of selected nodes. *)
Definition include_node (captured : HubRevision) (anchors : list (HubRecordId * unit))
    (st : list (HubRecordId * unit) * list (HubRecordId * PhysicalLineageNode))
    (node : PhysicalLineageNode)
  : list (HubRecordId * unit) * list (HubRecordId * PhysicalLineageNode) :=
  let (included, selected) := st in
  let inherited :=
    PhysicalLineageNode_inherits_at node captured
    && is_some_and (pln_parent node) (fun parent => bs_contains parent included) in
  if bs_contains (pln_id node) anchors || inherited
  then ((bs_insert (pln_id node) included).2,
        if raw (pln_packs node) >? 0 then bt_insert (pln_id node) node selected else selected)
  else (included, selected).

(** [(node.created_revision.value(), *node.id.as_bytes())]. *)
Definition chronological_key (node : PhysicalLineageNode) : Z * HubRecordId :=
  (raw (pln_created_revision node), pln_id node).

Definition resolve_scope (self : PhysicalLineage) (chronological : list PhysicalLineageNode)
    (selected : list (HubRecordId * PhysicalLineageNode)) (scope : CapturedPhysicalScope)
  : result (list (HubRecordId * PhysicalLineageNode)) PhysicalScopeError :=
  if (cps_hub scope !=? pl_hub self) || (cps_trace scope !=? pl_trace self)
     || (cps_variant scope !=? pl_variant self)
  then Err PhysicalScopeError.InvalidSelection
  else if raw (cps_captured_revision scope) >? raw (pl_revision self)
  then Err PhysicalScopeError.HistoricalGap
  else
    let? anchors := try_fold (resolve_anchor self) [] (cps_anchors scope) in
    Ok (foldl (include_node (cps_captured_revision scope) anchors) ([], selected)
          chronological).2.

Definition PhysicalLineage_resolve_union (self : PhysicalLineage)
    (scopes : list CapturedPhysicalScope) : result ResolvedPhysicalScope PhysicalScopeError :=
  if (HUB_PHYSICAL_SCOPES <? length scopes)%nat then Err PhysicalScopeError.Capacity
  else
    let chronological := sort_by_key chronological_key (pl_nodes self) in
    let? selected := try_fold (resolve_scope self chronological) [] scopes in
    let groups := bt_values selected in
    let? packs := try_fold
      (fun total node => map_err (fun _ => PhysicalScopeError.QuantityOverflow)
         (WholePacks_checked_add total (pln_packs node))) zero_packs groups in
    Ok {| rps_revision := pl_revision self; rps_groups := groups; rps_packs := packs |}.

Definition PhysicalLineage_resolve (self : PhysicalLineage) (scope : CapturedPhysicalScope)
  : result ResolvedPhysicalScope PhysicalScopeError :=
  PhysicalLineage_resolve_union self [scope].

(** ** Restoring a recorded scope *)

Definition restore_anchor (self : PhysicalLineage) (captured_revision : HubRevision)
    (total : WholePacks) (anchor : PhysicalScopeAnchor)
  : result WholePacks PhysicalScopeError :=
  let? node := ok_or (PhysicalLineage_node self (psa_group anchor))
    PhysicalScopeError.HistoricalGap in
  if (pln_created_revision node !=? psa_created_revision anchor)
     || (raw (psa_created_revision anchor) >? raw captured_revision)
  then Err PhysicalScopeError.HistoricalGap
  else if raw (psa_captured_packs anchor) =? 0 then Err PhysicalScopeError.InvalidSelection
  else map_err (fun _ => PhysicalScopeError.QuantityOverflow)
         (WholePacks_checked_add total (psa_captured_packs anchor)).

Definition PhysicalLineage_restore_scope (self : PhysicalLineage)
    (captured_revision : HubRevision) (anchors : list PhysicalScopeAnchor)
  : result CapturedPhysicalScope PhysicalScopeError :=
  if (length anchors =? 0)%nat || (HUB_LINEAGE_GROUPS <? length anchors)%nat
  then Err PhysicalScopeError.Capacity
  else if raw captured_revision >? raw (pl_revision self)
  then Err PhysicalScopeError.HistoricalGap
  else
    let anchors := sort_by_key psa_group anchors in
    if windows2_any (fun a b => psa_group a ==? psa_group b) anchors
    then Err PhysicalScopeError.InvalidSelection
    else
      let? _ := try_fold (restore_anchor self captured_revision) zero_packs anchors in
      let scope := {| cps_hub := pl_hub self; cps_trace := pl_trace self;
                      cps_variant := pl_variant self;
                      cps_captured_revision := captured_revision; cps_anchors := anchors |} in
      let? _ := PhysicalLineage_resolve self scope in
      Ok scope.

(** ** The invariant of a lineage *)

(** A parent exists, is older, and a recovery lies strictly between the two. *)
Definition parent_ok (nodes : list PhysicalLineageNode) (n : PhysicalLineageNode) : Prop :=
  match pln_parent n with
  | None => pln_recovery n = None
  | Some p => exists m, m ∈ nodes /\ pln_id m = p /\
      raw (pln_created_revision m) < raw (pln_created_revision n) /\
      forall o, pln_recovery n = Some o ->
        raw (pln_created_revision m) < raw (pro_debit_revision o) < raw (pln_created_revision n)
  end.

Record lineage_wf (l : PhysicalLineage) : Prop := {
  lw_size : (1 <= length (pl_nodes l) <= HUB_LINEAGE_GROUPS)%nat;
  lw_sorted : key_sorted pln_id (pl_nodes l);
  lw_root : length (filter (fun n => pln_parent n = None) (pl_nodes l)) = 1%nat;
  lw_scope : Forall (fun n => pln_trace n = pl_trace l /\ pln_variant n = pl_variant l /\
    raw (pln_created_revision n) <= raw (pl_revision l)) (pl_nodes l);
  lw_parents : Forall (parent_ok (pl_nodes l)) (pl_nodes l);
  lw_total : sum_packs (pln_packs <$> pl_nodes l) <= HUB_MAX_WHOLE_PACKS
}.

Lemma node_Some l id n :
  key_sorted pln_id (pl_nodes l) ->
  PhysicalLineage_node l id = Some n <-> n ∈ pl_nodes l /\ pln_id n = id.
Proof. apply search_by_key_Some. Qed.

Lemma recovery_bounds_false (o : option PhysicalRecoveryOrigin) (lo hi : Z) :
  is_some_and o (fun origin => (raw (pro_debit_revision origin) <=? lo)
    || (raw (pro_debit_revision origin) >=? hi)) = false <->
  forall origin, o = Some origin -> lo < raw (pro_debit_revision origin) < hi.
Proof.
  destruct o as [x|]; simpl; [|naive_solver].
  rewrite orb_false_iff, !Z.leb_gt. naive_solver lia.
Qed.

Definition node_checked (l : PhysicalLineage) (n : PhysicalLineageNode) : Prop :=
  (pln_trace n = pl_trace l /\ pln_variant n = pl_variant l /\
   raw (pln_created_revision n) <= raw (pl_revision l)) /\ parent_ok (pl_nodes l) n.

Lemma lineage_check_node_Ok l total n total' :
  key_sorted pln_id (pl_nodes l) ->
  lineage_check_node l total n = Ok total' <->
  node_checked l n /\ raw total' = raw total + raw (pln_packs n).
Proof.
  intros Hs. unfold lineage_check_node, node_checked, parent_ok.
  rewrite guard_Ok, seq_Ok, map_err_Ok, checked_add_Ok.
  rewrite !orb_false_iff, !negb_false_iff, !bool_decide_eq_true, Z.ltb_ge.
  destruct (pln_parent n) as [p|].
  - rewrite bind_Ok. setoid_rewrite ok_or_Ok. setoid_rewrite (node_Some l p _ Hs).
    setoid_rewrite guard_Ok. setoid_rewrite guard_Ok. setoid_rewrite recovery_bounds_false.
    setoid_rewrite Z.leb_gt. naive_solver.
  - destruct (pln_recovery n); naive_solver.
Qed.

Lemma try_fold_packs {A E} (step : WholePacks -> A -> result WholePacks E) (P : A -> Prop)
    (packs : A -> WholePacks) l acc r :
  (forall acc a r, step acc a = Ok r <-> P a /\ raw r = raw acc + raw (packs a)) ->
  try_fold step acc l = Ok r <->
  Forall P l /\ raw r = raw acc + sum_packs (packs <$> l).
Proof.
  intros Hstep. revert acc. induction l as [|a l IH]; intros acc; csimpl.
  - split; [intros [= ->]; split; [done|lia]|intros [_ Hr]]. f_equal. apply refined_eq. lia.
  - rewrite bind_Ok, list.Forall_cons. setoid_rewrite Hstep. setoid_rewrite IH. split.
    + intros (m & [? ?] & ? & ?). split; [done|lia].
    + intros [[? ?] Hr]. pose proof (sum_packs_nonneg (packs <$> l)).
      pose proof (WholePacks_range r). pose proof (WholePacks_range acc).
      pose proof (WholePacks_range (packs a)).
      assert (WholePacks_check (raw acc + raw (packs a)) = true) as Hc
        by (apply WholePacks_check_iff; lia).
      exists (Refined _ Hc). simpl. split_and!; [done..|lia].
Qed.

Lemma PhysicalLineage_new_Ok hub trace variant revision nodes l :
  PhysicalLineage_new hub trace variant revision nodes = Ok l <->
  pl_hub l = hub /\ pl_trace l = trace /\ pl_variant l = variant /\ pl_revision l = revision /\
  Permutation nodes (pl_nodes l) /\ lineage_wf l.
Proof.
  unfold PhysicalLineage_new. set (sorted := sort_by_key pln_id nodes).
  set (value := {| pl_hub := hub |}).
  rewrite !guard_Ok, !orb_false_iff, negb_false_iff, !Nat.eqb_eq, Nat.eqb_neq, Nat.ltb_ge, bind_Ok.
  unfold sorted at 1. rewrite sort_windows. fold sorted.
  assert (length sorted = length nodes) as Hlen by apply sort_by_key_length.
  assert (Permutation nodes sorted) as Hperm by apply sort_by_key_perm.
  split.
  - intros ((? & ?) & (Hs & ?) & t & Hf & [= <-]).
    apply (try_fold_packs _ (node_checked value) pln_packs) in Hf as [Hf Ht];
      [|intros; by apply lineage_check_node_Ok].
    cbn [raw zero_packs] in Ht. pose proof (WholePacks_range t).
    apply list.Forall_and in Hf as [Hf1 Hf2].
    split_and!; try done. constructor; cbn [pl_nodes value]; try done; lia.
  - intros (<- & <- & <- & <- & Hp & Hw). destruct Hw.
    assert (key_sorted pln_id sorted) as Hks.
    { apply sort_by_key_NoDup. rewrite Hp. by apply key_sorted_NoDup. }
    assert (sorted = pl_nodes l) as Hsort.
    { apply (key_sorted_unique pln_id); [done..|by rewrite <- Hperm]. }
    assert (value = l) as -> by (unfold value; rewrite Hsort; by destruct l).
    clearbody sorted. subst sorted. rewrite <- Hlen.
    assert (WholePacks_check (sum_packs (pln_packs <$> pl_nodes l)) = true) as Hc
      by (apply WholePacks_check_iff; pose proof (sum_packs_nonneg (pln_packs <$> pl_nodes l)); lia).
    split_and!; try done; try lia. exists (Refined _ Hc). split; [|done].
    apply (try_fold_packs _ (node_checked l) pln_packs);
      [intros; by apply lineage_check_node_Ok|].
    split; [by apply list.Forall_and|done].
Qed.

(** [PhysicalLineage::new] returns a lineage exactly when the nodes, in
    identifier order, are a well-formed lineage: distinct identifiers, a single
    root, every parent present and older, every recovery dated between parent
    and child, all within the revision, and a total within the pack limit. *)
Theorem PhysicalLineage_new_correct hub trace variant revision nodes l :
  PhysicalLineage_new hub trace variant revision nodes = Ok l <->
  pl_hub l = hub /\ pl_trace l = trace /\ pl_variant l = variant /\ pl_revision l = revision /\
  Permutation nodes (pl_nodes l) /\ lineage_wf l.
Proof. apply PhysicalLineage_new_Ok. Qed.

(** ** Membership of a captured cohort *)

Section Membership.
Context (l : PhysicalLineage) (Hwf : lineage_wf l).

Lemma wf_node_inj n m : n ∈ pl_nodes l -> m ∈ pl_nodes l -> pln_id n = pln_id m -> n = m.
Proof. apply key_sorted_inj, lw_sorted, Hwf. Qed.

Lemma wf_node id n : PhysicalLineage_node l id = Some n <-> n ∈ pl_nodes l /\ pln_id n = id.
Proof. apply node_Some, lw_sorted, Hwf. Qed.

Lemma wf_node_None id :
  PhysicalLineage_node l id = None <-> forall n, n ∈ pl_nodes l -> pln_id n <> id.
Proof.
  destruct (PhysicalLineage_node l id) as [n|] eqn:E.
  - apply wf_node in E as [? ?]. split; [done|]. intros Hall. by destruct (Hall n).
  - split; [|done]. intros _ n Hn Hid.
    assert (PhysicalLineage_node l id = Some n) by by apply wf_node. congruence.
Qed.

Lemma wf_parent n p :
  n ∈ pl_nodes l -> pln_parent n = Some p ->
  exists m, m ∈ pl_nodes l /\ pln_id m = p /\
    raw (pln_created_revision m) < raw (pln_created_revision n).
Proof.
  intros Hn Hp. pose proof (lw_parents _ Hwf) as Hf. rewrite list.Forall_forall in Hf.
  specialize (Hf n Hn). unfold parent_ok in Hf. rewrite Hp in Hf. naive_solver.
Qed.

(** A node is of the cohort of [anchor] captured at [captured] when it is the
    anchor or was created, and debited, later under a node of the cohort. *)
Inductive member (captured : HubRevision) (anchor : HubRecordId) : PhysicalLineageNode -> Prop :=
| member_anchor n : n ∈ pl_nodes l -> pln_id n = anchor -> member captured anchor n
| member_child n m :
    n ∈ pl_nodes l -> PhysicalLineageNode_inherits_at n captured = true ->
    pln_parent n = Some (pln_id m) -> member captured anchor m -> member captured anchor n.

Lemma member_node captured anchor n : member captured anchor n -> n ∈ pl_nodes l.
Proof. by destruct 1. Qed.

(** How many nodes are older than a node: the number of turns left. *)
Definition older (n : PhysicalLineageNode) : nat :=
  length (filter (fun m => raw (pln_created_revision m) < raw (pln_created_revision n))
    (pl_nodes l)).

Lemma older_parent n m :
  m ∈ pl_nodes l -> raw (pln_created_revision m) < raw (pln_created_revision n) ->
  (older m < older n)%nat.
Proof.
  intros Hm Hlt. unfold older. apply (Nat.lt_le_trans _ (length (m :: filter (fun x =>
    raw (pln_created_revision x) < raw (pln_created_revision m)) (pl_nodes l)))); [simpl; lia|].
  apply submseteq_length, NoDup_submseteq.
  - apply NoDup_cons. split; [rewrite list_elem_of_filter; lia|].
    apply NoDup_filter, (NoDup_fmap_1 pln_id), key_sorted_NoDup, lw_sorted, Hwf.
  - intros x [->|Hx]%elem_of_cons; rewrite ?list_elem_of_filter in *; [done|].
    destruct Hx; split; [lia|done].
Qed.

Lemma older_bound n : (older n <= length (pl_nodes l))%nat.
Proof. apply length_filter. Qed.

Lemma captured_member_loop_total captured anchor fuel n :
  n ∈ pl_nodes l -> (older n < fuel)%nat ->
  exists b, captured_member_loop l anchor captured fuel (pln_id n) = Some b /\
    (b = true <-> member captured anchor n).
Proof.
  revert n. induction fuel as [|fuel IH]; intros n Hn Hf; [lia|]. cbn [captured_member_loop].
  rewrite (proj2 (wf_node _ n)) by done.
  case_bool_decide as Ha; [exists true; split; [done|]; split; [by constructor|done]|].
  destruct (PhysicalLineageNode_inherits_at n captured) eqn:Ei; cbn [negb].
  2:{ exists false. split; [done|]. split; [done|]. destruct 1; congruence. }
  destruct (pln_parent n) as [p|] eqn:Ep.
  - destruct (wf_parent n p Hn Ep) as (m & Hm & <- & Hlt).
    destruct (IH m Hm) as (b & Hb & Hiff); [pose proof (older_parent n m Hm Hlt); lia|].
    exists b. split; [done|]. rewrite Hiff. split; [intros ?; by eapply member_child|].
    destruct 1 as [|n m' ? ? Hp Hmem]; [done|]. rewrite Hp in Ep. injection Ep as Ep.
    by rewrite <- (wf_node_inj m' m (member_node _ _ _ Hmem) Hm Ep).
  - exists false. split; [done|]. split; [done|]. destruct 1; congruence.
Qed.

Lemma captured_member_decides anchor captured group :
  exists b, PhysicalLineage_captured_member l anchor captured group = Some b /\
    (b = true <->
     raw captured <= raw (pl_revision l) /\
     (exists a, a ∈ pl_nodes l /\ pln_id a = anchor /\
        raw (pln_created_revision a) <= raw captured) /\
     exists n, pln_id n = group /\ member captured anchor n).
Proof.
  unfold PhysicalLineage_captured_member.
  destruct ((_ >? _) || _) eqn:Eg.
  - exists false. split; [done|]. split; [done|]. intros (Hc & (a & Ha & Hid & Hcr) & _).
    rewrite (proj2 (wf_node _ a)) in Eg by done. simpl in Eg. breflect. lia.
  - apply orb_false_iff in Eg as [Hc%Z.ltb_ge Ha].
    destruct (PhysicalLineage_node l anchor) as [a|] eqn:En; [|done].
    apply wf_node in En as [Hin Hid]. simpl in Ha. apply Z.ltb_ge in Ha.
    destruct (PhysicalLineage_node l group) as [n|] eqn:Eg.
    + apply wf_node in Eg as [Hn <-].
      destruct (captured_member_loop_total captured anchor (S (length (pl_nodes l))) n Hn)
        as (b & Hb & Hiff); [pose proof (older_bound n); lia|].
      exists b. split; [done|]. rewrite Hiff. split; [intros Hm; split_and!; [done|by exists a|by exists n]|].
      intros (_ & _ & n' & Hid' & Hm).
      by rewrite <- (wf_node_inj n' n (member_node _ _ _ Hm) Hn Hid').
    + exists false. cbn [captured_member_loop]. rewrite Eg. split; [done|]. split; [done|].
      intros (_ & _ & n & Hid' & Hm). rewrite wf_node_None in Eg.
      by destruct (Eg n (member_node _ _ _ Hm)).
Qed.
End Membership.

(** On a well-formed lineage the walk of [captured_member] towards the root
    always ends, within one turn per node, and answers whether the group is in
    the cohort of a known anchor that existed at the captured revision. *)
Theorem captured_member_correct l anchor captured group :
  lineage_wf l ->
  exists b, PhysicalLineage_captured_member l anchor captured group = Some b /\
    (b = true <->
     raw captured <= raw (pl_revision l) /\
     (exists a, a ∈ pl_nodes l /\ pln_id a = anchor /\
        raw (pln_created_revision a) <= raw captured) /\
     exists n, pln_id n = group /\ member l captured anchor n).
Proof. intros Hwf. by apply captured_member_decides. Qed.

(** ** Resolution *)

Definition anchor_ok (l : PhysicalLineage) (a : PhysicalScopeAnchor) : Prop :=
  exists n, n ∈ pl_nodes l /\ pln_id n = psa_group a /\
    pln_created_revision n = psa_created_revision a.

Record scope_ok (l : PhysicalLineage) (s : CapturedPhysicalScope) : Prop := {
  so_hub : cps_hub s = pl_hub l;
  so_trace : cps_trace s = pl_trace l;
  so_variant : cps_variant s = pl_variant l;
  so_revision : raw (cps_captured_revision s) <= raw (pl_revision l);
  so_anchors : Forall (anchor_ok l) (cps_anchors s)
}.

Definition in_scope (l : PhysicalLineage) (s : CapturedPhysicalScope) (n : PhysicalLineageNode)
  : Prop :=
  exists a, a ∈ cps_anchors s /\ member l (cps_captured_revision s) (psa_group a) n.

(** The nodes with packs of the union of the scopes, in identifier order, and
    the sum of those packs. *)
Record resolved (l : PhysicalLineage) (scopes : list CapturedPhysicalScope)
    (r : ResolvedPhysicalScope) : Prop := {
  rs_revision : rps_revision r = pl_revision l;
  rs_sorted : key_sorted pln_id (rps_groups r);
  rs_groups n : n ∈ rps_groups r <->
    n ∈ pl_nodes l /\ 0 < raw (pln_packs n) /\ exists s, s ∈ scopes /\ in_scope l s n;
  rs_packs : raw (rps_packs r) = sum_packs (pln_packs <$> rps_groups r)
}.

Section Resolution.
Context (l : PhysicalLineage) (Hwf : lineage_wf l).

Lemma resolve_anchors_Ok anchors acc out :
  try_fold (resolve_anchor l) acc anchors = Ok out ->
  Forall (anchor_ok l) anchors /\
  (forall k, bs_contains k out = true <-> k ∈ psa_group <$> anchors \/ bs_contains k acc = true).
Proof.
  revert acc. induction anchors as [|a anchors IH]; intros acc H; simpl in H.
  - simplify_eq. split; [done|]. intros k. csimpl. rewrite elem_of_nil. naive_solver.
  - unfold resolve_anchor in H at 1. run_ok.
    match goal with E : try_fold _ _ _ = _ |- _ => apply IH in E as [Hf Hk] end.
    match goal with E : PhysicalLineage_node _ _ = _ |- _ => apply (wf_node l Hwf) in E as [Hn Hid] end.
    breflect. split; [constructor; [by eexists|done]|]. intros k. rewrite Hk, bs_contains_insert.
    csimpl. rewrite elem_of_cons, orb_true_iff, bool_decide_eq_true. naive_solver.
Qed.

Lemma resolve_anchors_total anchors acc :
  Forall (anchor_ok l) anchors -> exists out, try_fold (resolve_anchor l) acc anchors = Ok out.
Proof.
  revert acc. induction anchors as [|a anchors IH]; intros acc H; simpl; [by eexists|].
  apply list.Forall_cons in H as [(n & Hn & Hid & Hc) Hf]. unfold resolve_anchor at 1.
  rewrite (proj2 (wf_node l Hwf _ n)) by done. cbn [ok_or bind].
  rewrite bool_decide_eq_true_2 by done. cbn [negb bind]. by apply IH.
Qed.

Let chronological := sort_by_key chronological_key (pl_nodes l).

Lemma chronological_parent pre n post m :
  chronological = pre ++ n :: post -> m ∈ pl_nodes l ->
  raw (pln_created_revision m) < raw (pln_created_revision n) -> m ∈ pre.
Proof.
  intros Hc Hm Hlt.
  assert (m ∈ chronological) as Hin by (by apply elem_of_sort_by_key).
  rewrite Hc in Hin. apply elem_of_app in Hin as [|[->|Hin]%elem_of_cons]; [done|lia|].
  pose proof (sort_by_key_sorted chronological_key (pl_nodes l)) as Hs.
  fold chronological in Hs. rewrite Hc in Hs. apply StronglySorted_app_1_r in Hs.
  apply StronglySorted_inv in Hs as [_ Hs]. rewrite list.Forall_forall in Hs.
  specialize (Hs m Hin). apply kle_lt_eq in Hs as [Hs|[= E _]]; [|lia].
  unfold klt in Hs. simpl in Hs. unfold prod_compare in Hs. simpl in Hs.
  destruct (Z.compare_spec (raw (pln_created_revision n)) (raw (pln_created_revision m)));
    [lia|lia|done].
Qed.

Section Pass.
Context (captured : HubRevision) (groups : list HubRecordId)
  (anchors : list (HubRecordId * unit))
  (Hanchors : forall k, bs_contains k anchors = true <-> k ∈ groups).

Definition cohort (n : PhysicalLineageNode) : Prop :=
  exists a, a ∈ groups /\ member l captured a n.

(** What the pass knows after the nodes [pre]. *)
Record pass_inv (selected0 : list (HubRecordId * PhysicalLineageNode))
    (pre : list PhysicalLineageNode)
    (st : list (HubRecordId * unit) * list (HubRecordId * PhysicalLineageNode)) : Prop := {
  pi_included n : n ∈ pl_nodes l ->
    bs_contains (pln_id n) st.1 = true <-> n ∈ pre /\ cohort n;
  pi_selected k n : bt_get k st.2 = Some n <->
    bt_get k selected0 = Some n \/
    (n ∈ pre /\ pln_id n = k /\ cohort n /\ 0 < raw (pln_packs n));
  pi_sorted : bt_wf st.2
}.

Lemma cohort_step n :
  n ∈ pl_nodes l ->
  cohort n <->
  pln_id n ∈ groups \/
  (PhysicalLineageNode_inherits_at n captured = true /\
   exists m, m ∈ pl_nodes l /\ pln_parent n = Some (pln_id m) /\ cohort m).
Proof.
  intros Hn. split.
  - intros (a & Ha & Hm). destruct Hm as [n ? <-|n m ? ? ? Hm]; [by left|]. right.
    split; [done|]. exists m. split_and!; [by eapply member_node|done|by exists a].
  - intros [Hg|(Hi & m & Hm & Hp & a & Ha & Hmem)].
    + exists (pln_id n). split; [done|]. by constructor.
    + exists a. split; [done|]. by eapply member_child.
Qed.

Lemma include_test pre n st post selected0 :
  pass_inv selected0 pre st -> chronological = pre ++ n :: post -> n ∈ pl_nodes l ->
  bs_contains (pln_id n) anchors ||
    (PhysicalLineageNode_inherits_at n captured &&
     is_some_and (pln_parent n) (fun parent => bs_contains parent st.1)) = true <-> cohort n.
Proof.
  intros Hi Hc Hn. rewrite cohort_step by done. rewrite orb_true_iff, andb_true_iff, Hanchors.
  apply or_iff_compat_l. apply and_iff_compat_l. split.
  - destruct (pln_parent n) as [p|] eqn:Ep; [|done]. simpl. intros Hp.
    destruct (wf_parent l Hwf n p Hn Ep) as (m & Hm & <- & Hlt).
    apply (pi_included _ _ _ Hi m Hm) in Hp as [_ Hco]. eauto.
  - intros (m & Hm & Hp & Hco). rewrite Hp. simpl. apply (pi_included _ _ _ Hi m Hm).
    split; [|done]. destruct (wf_parent l Hwf n _ Hn Hp) as (m' & Hm' & Hid & Hlt).
    rewrite (wf_node_inj l Hwf m' m Hm' Hm Hid) in Hlt. by eapply chronological_parent.
Qed.
Context (selected0 : list (HubRecordId * PhysicalLineageNode)) (Hsel0 : bt_wf selected0)
  (Hnodes0 : forall k m, bt_get k selected0 = Some m -> m ∈ pl_nodes l /\ pln_id m = k).

Lemma include_step pre n st post :
  pass_inv selected0 pre st -> chronological = pre ++ n :: post ->
  pass_inv selected0 (pre ++ [n]) (include_node captured anchors st n).
Proof.
  intros Hi Hc. assert (n ∈ pl_nodes l) as Hn.
  { apply (elem_of_sort_by_key chronological_key). fold chronological. rewrite Hc. set_solver. }
  pose proof (include_test pre n st post selected0 Hi Hc Hn) as Ht.
  pose proof (wf_node_inj l Hwf) as Hinj.
  destruct st as [inc sel]. unfold include_node. cbn [fst] in Ht.
  destruct (_ || _) eqn:Et; cbn [fst snd] in *.
  - assert (cohort n) as Hco by by apply Ht. constructor; cbn [fst snd].
    + intros m Hm. rewrite bs_contains_insert, orb_true_iff, bool_decide_eq_true.
      rewrite (pi_included _ _ _ Hi m Hm), elem_of_app, list_elem_of_singleton. cbn [fst].
      split; [intros [E| [? ?]]; [rewrite (Hinj n m Hn Hm E) in *; auto|auto]|].
      intros [[?| ->] ?]; auto.
    + intros k m. rewrite elem_of_app, list_elem_of_singleton.
      destruct (Z.ltb_spec 0 (raw (pln_packs n))) as [Hpk|Hpk].
      * rewrite bt_get_insert. case_decide as Hk.
        -- split; [intros [= <-]; right; auto|]. intros [H0|([Hm| ->] & Hid & _)]; [| |done].
           ++ destruct (Hnodes0 _ _ H0) as [Hm Hid]. f_equal. apply Hinj; [done..|congruence].
           ++ f_equal. apply Hinj; [done| |congruence].
              apply (elem_of_sort_by_key chronological_key). fold chronological.
              rewrite Hc. set_solver.
        -- rewrite (pi_selected _ _ _ Hi). cbn [snd]. split; [intros [?|?]; [auto|right]; naive_solver|].
           intros [?|([?| ->] & ? & ?)]; [by left|by right|done].
      * rewrite (pi_selected _ _ _ Hi). cbn [snd]. split; [naive_solver|].
        intros [?|([?| ->] & ? & ? & ?)]; [by left|by right|lia].
    + pose proof (pi_sorted _ _ _ Hi). destruct (_ >? _); [by apply bt_insert_wf|done].
  - assert (~ cohort n) as Hco by (rewrite <- Ht; done). constructor; cbn [fst snd].
    + intros m Hm. rewrite (pi_included _ _ _ Hi m Hm), elem_of_app, list_elem_of_singleton.
      naive_solver.
    + intros k m. rewrite (pi_selected _ _ _ Hi), elem_of_app, list_elem_of_singleton.
      cbn [snd]. naive_solver.
    + apply (pi_sorted _ _ _ Hi).
Qed.

Lemma pass_fold pre post st :
  pass_inv selected0 pre st -> chronological = pre ++ post ->
  pass_inv selected0 chronological (foldl (include_node captured anchors) st post).
Proof.
  revert pre st. induction post as [|n post IH]; intros pre st Hi Hc; simpl.
  - rewrite app_nil_r in Hc. by rewrite Hc.
  - eapply (IH (pre ++ [n])); [by eapply include_step|]. by rewrite <- app_assoc.
Qed.

Lemma pass_result k n :
  let selected := (foldl (include_node captured anchors) ([], selected0) chronological).2 in
  bt_wf selected /\
  (bt_get k selected = Some n <-> bt_get k selected0 = Some n \/
    (n ∈ pl_nodes l /\ pln_id n = k /\ cohort n /\ 0 < raw (pln_packs n))).
Proof.
  intros selected.
  assert (pass_inv selected0 chronological (foldl (include_node captured anchors)
    ([], selected0) chronological)) as Hi.
  { apply (pass_fold []); [|done]. constructor; cbn [fst snd]; [| |done].
    - intros m Hm. rewrite elem_of_nil. naive_solver.
    - intros k' m. rewrite elem_of_nil. naive_solver. }
  split; [apply (pi_sorted _ _ _ Hi)|]. unfold selected. rewrite (pi_selected _ _ _ Hi).
  unfold chronological. by rewrite elem_of_sort_by_key.
Qed.
End Pass.
End Resolution.

Section Union.
Context (l : PhysicalLineage) (Hwf : lineage_wf l).
Let chronological := sort_by_key chronological_key (pl_nodes l).

(** The map of nodes selected by the scopes so far. *)
Definition selection (scopes : list CapturedPhysicalScope)
    (selected : list (HubRecordId * PhysicalLineageNode)) : Prop :=
  bt_wf selected /\
  forall k n, bt_get k selected = Some n <->
    n ∈ pl_nodes l /\ pln_id n = k /\ 0 < raw (pln_packs n) /\
    exists s, s ∈ scopes /\ in_scope l s n.

Lemma resolve_scope_Ok scopes selected s selected' :
  selection scopes selected -> resolve_scope l chronological selected s = Ok selected' ->
  scope_ok l s /\ selection (scopes ++ [s]) selected'.
Proof.
  intros [Hbt Hsel] H. unfold resolve_scope in H. run_ok. breflect.
  match goal with E : try_fold _ _ _ = _ |- _ =>
    apply (resolve_anchors_Ok l Hwf) in E as [Hf Hk] end.
  split; [by constructor|].
  assert (forall k, bs_contains k x = true <-> k ∈ psa_group <$> cps_anchors s) as Hk'.
  { intros k. rewrite Hk. naive_solver. }
  pose proof (pass_result l Hwf (cps_captured_revision s) _ x Hk' selected Hbt) as Hp.
  assert (forall k m, bt_get k selected = Some m -> m ∈ pl_nodes l /\ pln_id m = k) as Hn.
  { intros k m Hkm. apply Hsel in Hkm. naive_solver. }
  specialize (Hp Hn). split; [by apply (Hp (pl_trace l) (Build_PhysicalLineageNode
    (pl_trace l) None (pl_trace l) (pl_trace l) (pl_revision l) zero_packs None))|].
  intros k n. destruct (Hp k n) as [_ Hiff]. etransitivity; [exact Hiff|]. rewrite Hsel.
  unfold cohort. setoid_rewrite elem_of_app. setoid_rewrite list_elem_of_singleton.
  unfold in_scope. split.
  - intros [(? & ? & ? & s' & ? & ?)|(? & ? & (a & Ha & Hm) & ?)].
    + split_and!; try done. exists s'. auto.
    + split_and!; try done. exists s. split; [by right|].
      apply list_elem_of_fmap in Ha as (a' & -> & Ha). eauto.
  - intros (? & ? & ? & s' & [?| ->] & a & Ha & Hm).
    + left. split_and!; try done. exists s'. eauto.
    + right. split_and!; try done. exists (psa_group a). split; [|done].
      by apply list_elem_of_fmap_2.
Qed.

Lemma resolve_scopes_Ok scopes0 selected scopes selected' :
  selection scopes0 selected ->
  try_fold (resolve_scope l chronological) selected scopes = Ok selected' ->
  Forall (scope_ok l) scopes /\ selection (scopes0 ++ scopes) selected'.
Proof.
  revert scopes0 selected. induction scopes as [|s scopes IH]; intros scopes0 selected Hs H;
    simpl in H.
  - simplify_eq. by rewrite app_nil_r.
  - apply bind_Ok in H as (m & Hm & H). apply (resolve_scope_Ok scopes0) in Hm as [? Hm]; [|done].
    apply (IH (scopes0 ++ [s])) in H as [? H]; [|done]. rewrite <- app_assoc in H.
    split; [by constructor|done].
Qed.

Lemma resolve_scope_error selected s e :
  resolve_scope l chronological selected s = Err e ->
  e <> PhysicalScopeError.QuantityOverflow /\ e <> PhysicalScopeError.Capacity /\ ~ scope_ok l s.
Proof.
  unfold resolve_scope. intros H.
  destruct (_ || _) eqn:E; [injection H as <-; split_and!; [done..|]; intros []; breflect; naive_solver|].
  destruct (_ >? _) eqn:E'; [injection H as <-; split_and!; [done..|]; intros []; breflect; lia|].
  assert (forall acc anchors, try_fold (resolve_anchor l) acc anchors = Err e ->
    e = PhysicalScopeError.HistoricalGap) as Hg.
  { intros acc anchors. revert acc. induction anchors as [|a anchors IH]; intros acc; simpl; [done|].
    unfold resolve_anchor at 1. destruct (PhysicalLineage_node _ _); cbn [ok_or bind]; [|by intros [= <-]].
    destruct (pln_created_revision _ !=? _); cbn [bind]; [by intros [= <-]|apply IH]. }
  destruct (try_fold _ _ _) as [x|e'] eqn:Ef; cbn [bind] in H; [done|].
  injection H as ->. apply Hg in Ef as He. subst e. split_and!; [done..|]. intros Hs.
  destruct (resolve_anchors_total l Hwf (cps_anchors s) [] (so_anchors _ _ Hs)). congruence.
Qed.

Lemma resolve_scopes_error selected scopes e :
  try_fold (resolve_scope l chronological) selected scopes = Err e ->
  e <> PhysicalScopeError.QuantityOverflow /\ e <> PhysicalScopeError.Capacity /\
  ~ Forall (scope_ok l) scopes.
Proof.
  revert selected. induction scopes as [|s scopes IH]; intros selected H; simpl in H; [done|].
  destruct (resolve_scope l chronological selected s) as [m|e'] eqn:E; cbn [bind] in H.
  - apply IH in H as (? & ? & Hn). split_and!; [done..|]. rewrite list.Forall_cons. naive_solver.
  - injection H as ->. apply resolve_scope_error in E as (? & ? & Hn).
    split_and!; [done..|]. rewrite list.Forall_cons. naive_solver.
Qed.
End Union.

Lemma sum_packs_submseteq (l k : list WholePacks) : l ⊆+ k -> sum_packs l <= sum_packs k.
Proof.
  intros (r & Hr)%submseteq_Permutation. rewrite (sum_packs_perm _ _ Hr), sum_packs_app.
  pose proof (sum_packs_nonneg r). lia.
Qed.

Lemma selection_values l scopes selected :
  selection l scopes selected ->
  key_sorted pln_id (bt_values selected) /\
  forall n, n ∈ bt_values selected <->
    n ∈ pl_nodes l /\ 0 < raw (pln_packs n) /\ exists s, s ∈ scopes /\ in_scope l s n.
Proof.
  intros [Hbt Hsel]. assert (forall k n, (k, n) ∈ selected -> pln_id n = k) as Hkey.
  { intros k n H. apply bt_get_elem_of in H; [|done]. apply Hsel in H. naive_solver. }
  split.
  - unfold bt_values. clear Hsel. induction Hbt as [|[k n] sel Hs IH Hf]; csimpl; [constructor|].
    constructor; [apply IH; intros k' n' ?; apply Hkey; by right|].
    apply list.Forall_forall. intros m ([k' m'] & -> & Hm)%list_elem_of_fmap.
    apply (proj1 (list.Forall_forall _ _)) with (x := (k', m')) in Hf; [|done]. simpl in Hf |- *.
    rewrite (Hkey k n) by by left. by rewrite (Hkey k' m') by by right.
  - intros n. rewrite bt_values_elem_of. split.
    + intros (k & H). apply bt_get_elem_of in H; [|done]. apply Hsel in H. naive_solver.
    + intros (? & ? & ?). exists (pln_id n). apply bt_get_elem_of; [done|]. apply Hsel. naive_solver.
Qed.

Lemma selection_total l scopes selected :
  lineage_wf l -> selection l scopes selected ->
  sum_packs (pln_packs <$> bt_values selected) <= HUB_MAX_WHOLE_PACKS.
Proof.
  intros Hwf Hs. apply selection_values in Hs as [Hks Hv]. pose proof (lw_total _ Hwf).
  etransitivity; [|exact H]. apply sum_packs_submseteq, fmap_submseteq, NoDup_submseteq.
  - by apply (NoDup_fmap_1 pln_id), key_sorted_NoDup.
  - intros n Hn. by apply Hv in Hn as [? _].
Qed.

Lemma resolve_union_run l scopes r :
  lineage_wf l -> PhysicalLineage_resolve_union l scopes = Ok r ->
  (length scopes <= HUB_PHYSICAL_SCOPES)%nat /\ Forall (scope_ok l) scopes /\ resolved l scopes r.
Proof.
  intros Hwf H. unfold PhysicalLineage_resolve_union in H. run_ok. breflect.
  match goal with E : try_fold (resolve_scope _ _) _ _ = _ |- _ =>
    apply (resolve_scopes_Ok l Hwf []) in E as [Hf Hsel] end.
  2:{ split; [constructor|]. intros k n. setoid_rewrite elem_of_nil. simpl. naive_solver. }
  simpl in Hsel. destruct (selection_values _ _ _ Hsel) as [Hks Hv].
  match goal with E : try_fold _ _ (bt_values _) = _ |- _ => rename E into Hp end.
  apply try_fold_add_Ok in Hp.
  split_and!; [done..|]. by constructor.
Qed.

Lemma resolve_union_total l scopes :
  lineage_wf l -> (length scopes <= HUB_PHYSICAL_SCOPES)%nat -> Forall (scope_ok l) scopes ->
  exists r, PhysicalLineage_resolve_union l scopes = Ok r.
Proof.
  intros Hwf Hlen Hs. unfold PhysicalLineage_resolve_union.
  rewrite (proj2 (Nat.ltb_ge _ _)) by done.
  destruct (try_fold (resolve_scope _ _) [] scopes) as [sel|e] eqn:Ef.
  2:{ apply resolve_scopes_error in Ef as (_ & _ & ?); done. }
  apply (resolve_scopes_Ok l Hwf []) in Ef as [_ Hsel].
  2:{ split; [constructor|]. intros k n. setoid_rewrite elem_of_nil. simpl. naive_solver. }
  pose proof (selection_total _ _ _ Hwf Hsel) as Ht.
  assert (WholePacks_check (sum_packs (pln_packs <$> bt_values sel)) = true) as Hc
    by (apply WholePacks_check_iff; pose proof (sum_packs_nonneg (pln_packs <$> bt_values sel)); lia).
  cbn [bind]. rewrite (proj2 (try_fold_add_Ok pln_packs _ _ zero_packs (Refined _ Hc))) by done.
  by eexists.
Qed.

(** C5: on a well-formed lineage [resolve_union] answers with exactly the
    nodes that still hold packs and belong to the cohort of an anchor of one of
    the scopes, in identifier order, and their total; it never overflows, and
    fails only for too many scopes or a scope of another population, of a
    later revision or with an unknown anchor. *)
Theorem resolve_union_correct l scopes :
  lineage_wf l ->
  match PhysicalLineage_resolve_union l scopes with
  | Ok r => (length scopes <= HUB_PHYSICAL_SCOPES)%nat /\ Forall (scope_ok l) scopes /\
      resolved l scopes r
  | Err PhysicalScopeError.Capacity => (HUB_PHYSICAL_SCOPES < length scopes)%nat
  | Err PhysicalScopeError.QuantityOverflow => False
  | Err _ => ~ Forall (scope_ok l) scopes
  end.
Proof.
  intros Hwf. destruct (PhysicalLineage_resolve_union l scopes) as [r|e] eqn:E;
    [by apply resolve_union_run|].
  destruct (decide (length scopes <= HUB_PHYSICAL_SCOPES)%nat) as [Hl|Hl].
  - assert (~ Forall (scope_ok l) scopes) as Hn.
    { intros Hs. destruct (resolve_union_total l scopes Hwf Hl Hs). congruence. }
    enough (e <> PhysicalScopeError.QuantityOverflow /\ e <> PhysicalScopeError.Capacity) as [? ?]
      by (by destruct e).
    unfold PhysicalLineage_resolve_union in E. rewrite (proj2 (Nat.ltb_ge _ _)) in E by done.
    destruct (try_fold (resolve_scope _ _) [] scopes) as [sel|e'] eqn:Ef; cbn [bind] in E.
    + apply (resolve_scopes_Ok l Hwf []) in Ef as [? _]; [done|].
      split; [constructor|]. intros k n. setoid_rewrite elem_of_nil. simpl. naive_solver.
    + injection E as ->. by apply resolve_scopes_error in Ef as (? & ? & _).
  - unfold PhysicalLineage_resolve_union in E. rewrite (proj2 (Nat.ltb_lt _ _)) in E by lia.
    injection E as <-. lia.
Qed.

(** ** Capture, then resolve *)

Lemma capture_anchor_Ok l id a :
  lineage_wf l ->
  capture_anchor l id = Ok a <->
  exists n, n ∈ pl_nodes l /\ pln_id n = id /\ 0 < raw (pln_packs n) /\
    a = {| psa_group := id; psa_created_revision := pln_created_revision n;
           psa_captured_packs := pln_packs n |}.
Proof.
  intros Hwf. unfold capture_anchor. rewrite bind_Ok. setoid_rewrite ok_or_Ok.
  setoid_rewrite (wf_node l Hwf). setoid_rewrite guard_Ok. setoid_rewrite Z.eqb_neq. split.
  - intros (n & (? & ?) & Hp & [= <-]). pose proof (WholePacks_range (pln_packs n)).
    exists n. split_and!; [done..|lia|done].
  - intros (n & ? & ? & ? & ->). exists n. split_and!; [done..|lia|done].
Qed.

(** The anchor the capture makes of a node. *)
Definition anchor_of (n : PhysicalLineageNode) : PhysicalScopeAnchor :=
  {| psa_group := pln_id n; psa_created_revision := pln_created_revision n;
     psa_captured_packs := pln_packs n |}.

(** What a captured scope is: anchors of distinct nodes with packs, in order. *)
Record captured_scope (l : PhysicalLineage) (selected : list HubRecordId)
    (s : CapturedPhysicalScope) : Prop := {
  cs_hub : cps_hub s = pl_hub l;
  cs_trace : cps_trace s = pl_trace l;
  cs_variant : cps_variant s = pl_variant l;
  cs_revision : cps_captured_revision s = pl_revision l;
  cs_size : (1 <= length (cps_anchors s) <= HUB_LINEAGE_GROUPS)%nat;
  cs_sorted : key_sorted psa_group (cps_anchors s);
  cs_groups : Permutation selected (psa_group <$> cps_anchors s);
  cs_anchors : Forall (fun a => exists n, n ∈ pl_nodes l /\ 0 < raw (pln_packs n) /\
    a = anchor_of n) (cps_anchors s)
}.

Lemma capture_run l selected s :
  lineage_wf l -> PhysicalLineage_capture l selected = Ok s -> captured_scope l selected s.
Proof.
  intros Hwf H. unfold PhysicalLineage_capture in H. run_ok.
  match goal with E : windows2_any _ _ = false |- _ => apply sort_windows in E as Hs end.
  match goal with E : try_map _ _ = _ |- _ => apply try_map_Ok in E as Hm end. breflect.
  pose proof (Forall2_length _ _ _ Hm) as Hl.
  assert (selected = psa_group <$> x) as Hg.
  { clear -Hm Hwf. induction Hm as [|id a ids anchors Ha Hm IH]; [done|]. csimpl.
    apply capture_anchor_Ok in Ha as (n & _ & _ & _ & ->); [|done]. by rewrite <- IH. }
  constructor; simpl; try done.
  - rewrite sort_by_key_length. lia.
  - rewrite Hg. apply fmap_Permutation, sort_by_key_perm.
  - apply list.Forall_forall. intros a Ha%elem_of_sort_by_key.
    apply list_elem_of_lookup in Ha as (i & Hi).
    destruct (Forall2_lookup_r _ _ _ _ _ Hm Hi) as (id & _ & Hid).
    apply capture_anchor_Ok in Hid as (n & ? & <- & ? & ->); [|done]. by exists n.
Qed.

(** Nothing is created after the current revision, so a fresh cohort is its anchors. *)
Lemma member_now l a n :
  lineage_wf l -> member l (pl_revision l) a n -> pln_id n = a.
Proof.
  intros Hwf. destruct 1 as [|n m Hn Hi]; [done|]. exfalso.
  pose proof (lw_scope _ Hwf) as Hs. rewrite list.Forall_forall in Hs.
  apply Hs in Hn as (_ & _ & Hle). unfold PhysicalLineageNode_inherits_at in Hi. breflect. lia.
Qed.

Lemma captured_scope_ok l selected s : captured_scope l selected s -> scope_ok l s.
Proof.
  intros []. constructor; try done; [rewrite cs_revision0; lia|].
  eapply list.Forall_impl; [exact cs_anchors0|]. intros a (n & Hn & _ & ->). by exists n.
Qed.

Lemma captured_resolve l selected s r :
  lineage_wf l -> captured_scope l selected s -> resolved l [s] r ->
  anchor_of <$> rps_groups r = cps_anchors s.
Proof.
  intros Hwf Hc Hr. pose proof (cs_anchors _ _ _ Hc) as Ha. rewrite list.Forall_forall in Ha.
  pose proof (rs_sorted _ _ _ Hr) as Hs.
  assert (forall n, n ∈ rps_groups r <-> anchor_of n ∈ cps_anchors s /\ n ∈ pl_nodes l) as Hiff.
  { intros n. rewrite (rs_groups _ _ _ Hr). setoid_rewrite list_elem_of_singleton. split.
    - intros (Hn & Hp & ? & -> & a & Hin & Hm). rewrite (cs_revision _ _ _ Hc) in Hm.
      apply member_now in Hm; [|done]. destruct (Ha a Hin) as (n' & Hn' & _ & ->).
      by rewrite (wf_node_inj l Hwf n n' Hn Hn' Hm).
    - intros [Hin Hn]. destruct (Ha _ Hin) as (n' & Hn' & Hp & E). injection E as E1 E2 E3.
      split_and!; [done|by rewrite E3|]. exists s. split; [done|]. exists (anchor_of n).
      split; [done|]. by constructor. }
  apply (key_sorted_unique psa_group); [|apply Hc|].
  - clear -Hs. induction Hs as [|n ns Hns IH Hf]; csimpl; [constructor|]. constructor; [done|].
    apply list.Forall_fmap. exact Hf.
  - apply NoDup_Permutation.
    + apply (NoDup_fmap_1 psa_group). rewrite <- list_fmap_compose.
      apply (key_sorted_NoDup pln_id), Hs.
    + apply (NoDup_fmap_1 psa_group), key_sorted_NoDup, Hc.
    + intros a. rewrite list_elem_of_fmap. split.
      * intros (n & -> & Hn). by apply Hiff.
      * intros Hin. destruct (Ha a Hin) as (n & Hn & _ & ->). exists n. by rewrite Hiff.
Qed.

Definition restorable (l : PhysicalLineage) (captured : HubRevision) (a : PhysicalScopeAnchor)
  : Prop :=
  anchor_ok l a /\ raw (psa_created_revision a) <= raw captured /\
  0 < raw (psa_captured_packs a).

Lemma restore_anchor_Ok l captured acc a r :
  lineage_wf l ->
  restore_anchor l captured acc a = Ok r <->
  restorable l captured a /\ raw r = raw acc + raw (psa_captured_packs a).
Proof.
  intros Hwf. unfold restore_anchor, restorable, anchor_ok. rewrite bind_Ok.
  setoid_rewrite ok_or_Ok. setoid_rewrite (wf_node l Hwf).
  setoid_rewrite guard_Ok. setoid_rewrite guard_Ok. setoid_rewrite map_err_Ok.
  setoid_rewrite checked_add_Ok. setoid_rewrite orb_false_iff. setoid_rewrite negb_false_iff.
  setoid_rewrite bool_decide_eq_true. setoid_rewrite Z.ltb_ge. setoid_rewrite Z.eqb_neq.
  pose proof (WholePacks_range (psa_captured_packs a)). split.
  - intros (n & (? & ?) & (? & ?) & ? & ?). split_and!; [by exists n|done|lia|done].
  - intros (((n & ? & ? & ?) & ? & ?) & ?). exists n. split_and!; [done..|lia|done].
Qed.

(** A scope captured from a lineage resolves, on that lineage, to exactly
    the nodes its anchors were made of, with the captured packs; and restoring
    its recorded anchors gives the scope back. *)
Theorem capture_roundtrip l selected s :
  lineage_wf l -> PhysicalLineage_capture l selected = Ok s ->
  Permutation selected (psa_group <$> cps_anchors s) /\
  (exists r, PhysicalLineage_resolve l s = Ok r /\
     anchor_of <$> rps_groups r = cps_anchors s /\
     raw (rps_packs r) = sum_packs (psa_captured_packs <$> cps_anchors s)) /\
  PhysicalLineage_restore_scope l (cps_captured_revision s) (cps_anchors s) = Ok s.
Proof.
  intros Hwf H. apply capture_run in H as Hc; [|done].
  split; [apply Hc|].
  destruct (resolve_union_total l [s] Hwf) as [r Hr];
    [unfold HUB_PHYSICAL_SCOPES; simpl; lia|constructor; [by eapply captured_scope_ok|done]|].
  destruct (resolve_union_run _ _ _ Hwf Hr) as (_ & _ & Hres).
  pose proof (captured_resolve _ _ _ _ Hwf Hc Hres) as Ha.
  assert (raw (rps_packs r) = sum_packs (psa_captured_packs <$> cps_anchors s)) as Hp.
  { rewrite <- Ha, (rs_packs _ _ _ Hres). by rewrite <- list_fmap_compose. }
  split; [by exists r|]. destruct Hc. unfold PhysicalLineage_restore_scope.
  rewrite (proj2 (Nat.eqb_neq _ _)), (proj2 (Nat.ltb_ge _ _)) by lia. cbn [orb].
  rewrite cs_revision0, Z.ltb_irrefl, sort_by_key_id by done.
  rewrite (proj2 (windows2_any_false _ _)).
  2:{ apply StronglySorted_Sorted in cs_sorted0. clear -cs_sorted0.
      induction cs_sorted0 as [|a k Hk IH Hd]; constructor; [done|].
      destruct Hd; constructor. rewrite bool_decide_eq_false. by apply klt_neq. }
  rewrite (proj2 (try_fold_packs (restore_anchor l (pl_revision l))
    (restorable l (pl_revision l)) psa_captured_packs
    (cps_anchors s) zero_packs (rps_packs r) (fun acc a r => restore_anchor_Ok l _ acc a r Hwf))).
  - cbn [bind]. replace {| cps_hub := _ |} with s by (destruct s; simpl in *; congruence).
    unfold PhysicalLineage_resolve. by rewrite Hr.
  - split; [|done]. eapply list.Forall_impl; [exact cs_anchors0|].
    intros a (n & Hn & Hpk & ->). pose proof (lw_scope _ Hwf) as Hsc.
    rewrite list.Forall_forall in Hsc. split; [by exists n|]. split; [by apply Hsc|done].
Qed.

(** ** A split conserves every captured scope *)

Definition with_packs (n : PhysicalLineageNode) (packs : WholePacks) : PhysicalLineageNode :=
  {| pln_id := pln_id n; pln_parent := pln_parent n; pln_trace := pln_trace n;
     pln_variant := pln_variant n; pln_created_revision := pln_created_revision n;
     pln_packs := packs; pln_recovery := pln_recovery n |}.

(** [l'] is [l] after a portion of [g] became the node [child]. *)
Record splits (l l' : PhysicalLineage) (g : PhysicalLineageNode) (left : WholePacks)
    (child : PhysicalLineageNode) : Prop := {
  sl_hub : pl_hub l' = pl_hub l;
  sl_trace : pl_trace l' = pl_trace l;
  sl_variant : pl_variant l' = pl_variant l;
  sl_revision : raw (pl_revision l) < raw (pln_created_revision child) <= raw (pl_revision l');
  sl_parent : pln_parent child = Some (pln_id g);
  sl_recovery : pln_recovery child = None;
  sl_packs : raw left + raw (pln_packs child) = raw (pln_packs g);
  sl_nodes : exists others, Permutation (pl_nodes l) (g :: others) /\
    Permutation (pl_nodes l') (child :: with_packs g left :: others)
}.

Section Split.
Context (l l' : PhysicalLineage) (g : PhysicalLineageNode) (left : WholePacks)
  (child : PhysicalLineageNode) (Hwf : lineage_wf l) (Hwf' : lineage_wf l')
  (Hsplit : splits l l' g left child).

(** A node as it is after the split. *)
Definition after (n : PhysicalLineageNode) : PhysicalLineageNode :=
  if decide (n = g) then with_packs g left else n.

Lemma split_g : g ∈ pl_nodes l.
Proof. destruct (sl_nodes _ _ _ _ _ Hsplit) as (o & Hp & _). rewrite Hp. by left. Qed.

Lemma split_child : child ∈ pl_nodes l'.
Proof. destruct (sl_nodes _ _ _ _ _ Hsplit) as (o & _ & Hp). rewrite Hp. by left. Qed.

Lemma after_id n : pln_id (after n) = pln_id n.
Proof. unfold after. case_decide; [by subst|done]. Qed.

Lemma after_same n :
  pln_parent (after n) = pln_parent n /\
  forall c, PhysicalLineageNode_inherits_at (after n) c = PhysicalLineageNode_inherits_at n c.
Proof. unfold after. case_decide; [by subst|done]. Qed.

Lemma after_nodes n : n ∈ pl_nodes l -> after n ∈ pl_nodes l'.
Proof.
  destruct (sl_nodes _ _ _ _ _ Hsplit) as (o & Hp & Hp'). rewrite Hp, Hp'. unfold after.
  rewrite !elem_of_cons. case_decide; naive_solver.
Qed.

Lemma split_nodes n :
  n ∈ pl_nodes l' -> n = child \/ exists m, m ∈ pl_nodes l /\ n = after m.
Proof.
  destruct (sl_nodes _ _ _ _ _ Hsplit) as (o & Hp & Hp'). rewrite Hp', !elem_of_cons.
  intros [->|[->|Hn]]; [by left|right..].
  - exists g. split; [apply split_g|]. unfold after. by case_decide.
  - exists n. rewrite Hp. split; [by right|]. unfold after. case_decide; [|done]. subst.
    exfalso. pose proof (key_sorted_NoDup pln_id _ (lw_sorted _ Hwf)) as Hd.
    apply (NoDup_fmap_1 pln_id) in Hd. rewrite Hp in Hd. by apply NoDup_cons in Hd as [? _].
Qed.

Lemma child_fresh n : n ∈ pl_nodes l -> pln_id n <> pln_id child.
Proof.
  intros Hn E. rewrite <- after_id in E.
  apply (wf_node_inj l' Hwf' _ _ (after_nodes n Hn) split_child) in E.
  assert (pln_created_revision (after n) = pln_created_revision n) as Hc.
  { unfold after. case_decide; [by subst|done]. }
  rewrite E in Hc. pose proof (lw_scope _ Hwf) as Hs. rewrite list.Forall_forall in Hs.
  apply Hs in Hn as (_ & _ & Hle). rewrite <- Hc in Hle.
  pose proof (sl_revision _ _ _ _ _ Hsplit). lia.
Qed.

Lemma member_after c a n : member l c a n -> member l' c a (after n).
Proof.
  induction 1 as [n Hn Hid|n m Hn Hi Hp _ IH].
  - constructor; [by apply after_nodes|by rewrite after_id].
  - destruct (after_same n) as [Ep Ei].
    apply member_child with (m := after m); [by apply after_nodes|by rewrite Ei| |done].
    by rewrite Ep, after_id.
Qed.

Lemma child_inherits c :
  raw c <= raw (pl_revision l) -> PhysicalLineageNode_inherits_at child c = true.
Proof.
  intros Hc. pose proof (sl_revision _ _ _ _ _ Hsplit).
  unfold PhysicalLineageNode_inherits_at. rewrite (sl_recovery _ _ _ _ _ Hsplit). simpl.
  rewrite andb_true_r. apply Z.ltb_lt. lia.
Qed.

Lemma after_inj n m :
  n ∈ pl_nodes l -> m ∈ pl_nodes l -> after n = after m -> n = m.
Proof.
  intros Hn Hm E. apply (wf_node_inj l Hwf); try done. by rewrite <- (after_id n), E, after_id.
Qed.

(** After the split a node is of a cohort captured before exactly when it was,
    and the portion exactly when the group it came from is. *)
Lemma member_before c a n :
  raw c <= raw (pl_revision l) -> (exists m, m ∈ pl_nodes l /\ pln_id m = a) ->
  member l' c a n ->
  (forall m, m ∈ pl_nodes l -> n = after m -> member l c a m) /\
  (n = child -> member l c a g).
Proof.
  intros Hc (w & Hw & Hwa). induction 1 as [n Hn Hid|n p Hn Hi Hp Hpm [IH1 IH2]].
  - split.
    + intros m Hm ->. constructor; [done|]. by rewrite <- after_id.
    + intros ->. exfalso. apply (child_fresh w Hw). congruence.
  - assert (p ∈ pl_nodes l') as Hpn by by eapply member_node. split.
    + intros m Hm ->. destruct (after_same m) as [Ep Ei]. rewrite Ep in Hp. rewrite Ei in Hi.
      destruct (wf_parent l Hwf m _ Hm Hp) as (q & Hq & Hqid & _).
      assert (p = after q) as ->.
      { apply (wf_node_inj l' Hwf'); [done|by apply after_nodes|by rewrite after_id]. }
      apply member_child with (m := q); [done..|by rewrite Hp, after_id|by apply IH1].
    + intros ->. rewrite (sl_parent _ _ _ _ _ Hsplit) in Hp. injection Hp as Hp.
      apply IH1; [apply split_g|].
      apply (wf_node_inj l' Hwf'); [done|apply after_nodes, split_g|by rewrite after_id].
Qed.
End Split.

(** The total of a resolution as a sum over the whole lineage. *)
Definition weight (r : ResolvedPhysicalScope) (n : PhysicalLineageNode) : Z :=
  if decide (n ∈ rps_groups r) then raw (pln_packs n) else 0.
Definition total_weight (r : ResolvedPhysicalScope) (ns : list PhysicalLineageNode) : Z :=
  foldr (fun n acc => weight r n + acc) 0 ns.

Lemma total_weight_perm r ns ms : Permutation ns ms -> total_weight r ns = total_weight r ms.
Proof. induction 1; simpl; lia. Qed.

Lemma total_weight_app r ns ms :
  total_weight r (ns ++ ms) = total_weight r ns + total_weight r ms.
Proof. induction ns; simpl; lia. Qed.

Lemma total_weight_ext r r' ns :
  (forall n, n ∈ ns -> weight r n = weight r' n) -> total_weight r ns = total_weight r' ns.
Proof.
  induction ns as [|n ns IH]; simpl; intros H; [done|].
  rewrite (H n), IH by set_solver. done.
Qed.

Lemma resolved_weight l scopes r :
  lineage_wf l -> resolved l scopes r -> raw (rps_packs r) = total_weight r (pl_nodes l).
Proof.
  intros Hwf Hr. rewrite (rs_packs _ _ _ Hr).
  assert (NoDup (pl_nodes l)) as Hn.
  { apply (NoDup_fmap_1 pln_id), key_sorted_NoDup, lw_sorted, Hwf. }
  assert (NoDup (rps_groups r)) as Hg.
  { apply (NoDup_fmap_1 pln_id), key_sorted_NoDup, (rs_sorted _ _ _ Hr). }
  assert (rps_groups r ⊆+ pl_nodes l) as Hsub.
  { apply NoDup_submseteq; [done|]. intros n Hin. by apply (rs_groups _ _ _ Hr) in Hin as [? _]. }
  apply submseteq_Permutation in Hsub as (rest & Hp).
  rewrite (total_weight_perm _ _ _ Hp), total_weight_app.
  rewrite Hp in Hn. apply NoDup_app in Hn as (_ & Hdis & _).
  assert (forall ns, ns ⊆ rest -> total_weight r ns = 0) as Hz.
  { induction ns as [|n ns IH]; intros Hsub; simpl; [done|]. rewrite IH by set_solver.
    unfold weight. case_decide as Hd; [|done]. destruct (Hdis n Hd). set_solver. }
  rewrite (Hz rest) by done.
  assert (forall ns, ns ⊆ rps_groups r -> total_weight r ns = sum_packs (pln_packs <$> ns)) as Hs.
  { induction ns as [|n ns IH]; intros Hsub; csimpl; [done|]. rewrite IH by set_solver.
    unfold weight. rewrite decide_True by set_solver. done. }
  rewrite Hs by done. lia.
Qed.

Lemma weight_in l scopes r n :
  resolved l scopes r -> n ∈ pl_nodes l /\ (exists s, s ∈ scopes /\ in_scope l s n) ->
  weight r n = raw (pln_packs n).
Proof.
  intros Hr [Hn Hex]. unfold weight. case_decide as Hd; [done|].
  pose proof (WholePacks_range (pln_packs n)).
  destruct (decide (0 < raw (pln_packs n))); [|lia]. destruct Hd. by apply (rs_groups _ _ _ Hr).
Qed.

Lemma weight_out l scopes r n :
  resolved l scopes r -> ~ (exists s, s ∈ scopes /\ in_scope l s n) -> weight r n = 0.
Proof.
  intros Hr Hex. unfold weight. case_decide as Hd; [|done].
  apply (rs_groups _ _ _ Hr) in Hd. naive_solver.
Qed.

Lemma weight_zero r n : raw (pln_packs n) = 0 -> weight r n = 0.
Proof. intros. unfold weight. by case_decide. Qed.

Lemma scope_ok_split l l' g left child s :
  splits l l' g left child -> scope_ok l s -> scope_ok l' s.
Proof.
  intros Hs []. destruct Hs. constructor; try congruence; [lia|].
  eapply list.Forall_impl; [exact so_anchors0|]. intros a (n & Hn & Hid & Hc).
  destruct sl_nodes0 as (o & Hp & Hp'). rewrite Hp in Hn. unfold anchor_ok.
  apply elem_of_cons in Hn as [->|Hn].
  - exists (with_packs g left). rewrite Hp'. split; [set_solver|]. done.
  - exists n. rewrite Hp'. split; [set_solver|]. done.
Qed.

Lemma anchored l s a :
  scope_ok l s -> a ∈ cps_anchors s -> exists m, m ∈ pl_nodes l /\ pln_id m = psa_group a.
Proof.
  intros Hok Ha. pose proof (so_anchors _ _ Hok) as Hf. rewrite list.Forall_forall in Hf.
  destruct (Hf a Ha) as (m & ? & ? & _). by exists m.
Qed.

Section SplitTotal.
Context (l l' : PhysicalLineage) (g : PhysicalLineageNode) (left : WholePacks)
  (child : PhysicalLineageNode) (Hwf : lineage_wf l) (Hwf' : lineage_wf l')
  (Hsplit : splits l l' g left child).
Context (scopes : list CapturedPhysicalScope) (Hok : Forall (scope_ok l) scopes).

Definition selected_by (k : PhysicalLineage) (n : PhysicalLineageNode) : Prop :=
  exists s, s ∈ scopes /\ in_scope k s n.

Lemma selected_after n :
  n ∈ pl_nodes l -> selected_by l' (after g left n) <-> selected_by l n.
Proof.
  intros Hn. rewrite list.Forall_forall in Hok. split; intros (s & Hs & a & Ha & Hm).
  - exists s. split; [done|]. exists a. split; [done|]. specialize (Hok s Hs).
    apply (member_before l l' g left child Hwf Hwf' Hsplit) in Hm as [Hb _];
      [by apply Hb|by apply Hok|by eapply anchored].
  - exists s. split; [done|]. exists a. split; [done|]. by eapply member_after.
Qed.

Lemma selected_child : selected_by l' child <-> selected_by l g.
Proof.
  pose proof (split_g _ _ _ _ _ Hsplit) as Hg.
  rewrite list.Forall_forall in Hok. split; intros (s & Hs & a & Ha & Hm).
  - exists s. split; [done|]. exists a. split; [done|]. specialize (Hok s Hs).
    apply (member_before l l' g left child Hwf Hwf' Hsplit) in Hm as [_ Hb];
      [by apply Hb|by apply Hok|by eapply anchored].
  - exists s. split; [done|]. exists a. split; [done|].
    apply member_child with (m := after g left g).
    + by apply (split_child _ _ _ _ _ Hsplit).
    + eapply child_inherits; [done|]. by apply (so_revision _ _ (Hok s Hs)).
    + rewrite after_id. apply (sl_parent _ _ _ _ _ Hsplit).
    + by eapply member_after.
Qed.

Lemma split_total r r' :
  resolved l scopes r -> resolved l' scopes r' -> rps_packs r' = rps_packs r.
Proof.
  intros Hr Hr'. apply refined_eq.
  rewrite (resolved_weight _ _ _ Hwf Hr), (resolved_weight _ _ _ Hwf' Hr').
  destruct (sl_nodes _ _ _ _ _ Hsplit) as (others & Hp & Hp').
  rewrite (total_weight_perm _ _ _ Hp), (total_weight_perm _ _ _ Hp'). simpl.
  pose proof (split_g _ _ _ _ _ Hsplit) as Hg. pose proof (split_child _ _ _ _ _ Hsplit) as Hc.
  assert (total_weight r' others = total_weight r others) as Ho.
  { apply total_weight_ext. intros n Hn. unfold weight.
    assert (n ∈ pl_nodes l) as Hnl by (rewrite Hp; by right).
    assert (after g left n = n) as Ha.
    { unfold after. case_decide; [|done]. subst. exfalso.
      pose proof (key_sorted_NoDup pln_id _ (lw_sorted _ Hwf)) as Hd.
      apply (NoDup_fmap_1 pln_id) in Hd. rewrite Hp in Hd. by apply NoDup_cons in Hd as [? _]. }
    pose proof (after_nodes _ _ _ _ _ Hsplit n Hnl) as Hnl'. pose proof (selected_after n Hnl) as Hsel.
    rewrite Ha in Hnl', Hsel. unfold selected_by in Hsel.
    pose proof (rs_groups _ _ _ Hr n). pose proof (rs_groups _ _ _ Hr' n).
    repeat case_decide; naive_solver. }
  rewrite Ho. enough (weight r' child + weight r' (with_packs g left) = weight r g) by lia.
  pose proof (selected_after g Hg) as Hsg. pose proof selected_child as Hsc.
  pose proof (after_nodes _ _ _ _ _ Hsplit g Hg) as Hg'.
  assert (after g left g = with_packs g left) as Ha by (unfold after; by case_decide).
  rewrite Ha in Hsg, Hg'. unfold selected_by in Hsg, Hsc.
  pose proof (sl_packs _ _ _ _ _ Hsplit) as Hpk.
  pose proof (WholePacks_range left). pose proof (WholePacks_range (pln_packs child)).
  destruct (decide (g ∈ rps_groups r)) as [Hin|Hin].
  - apply (rs_groups _ _ _ Hr) in Hin as (_ & _ & Hex).
    rewrite (weight_in _ _ _ g Hr), (weight_in _ _ _ child Hr'),
      (weight_in _ _ _ (with_packs g left) Hr'); [simpl; lia|naive_solver..].
  - assert (~ (exists s, s ∈ scopes /\ in_scope l s g) \/ raw (pln_packs g) = 0) as [Hno|Hno].
    { destruct (decide (raw (pln_packs g) = 0)) as [|Hnz]; [by right|left]. intros Hex.
      apply Hin, (rs_groups _ _ _ Hr). split_and!; [done|lia|done]. }
    + rewrite (weight_out _ _ _ g Hr), (weight_out _ _ _ child Hr'),
        (weight_out _ _ _ (with_packs g left) Hr'); [done|naive_solver..].
    + rewrite !weight_zero; simpl; lia.
Qed.
End SplitTotal.

(** C6: splitting a group later conserves every scope captured before: the
    scopes still resolve, and to the same number of packs, whether or not the
    split group belongs to them. *)
Theorem split_conserves_scopes l l' g left child scopes r :
  lineage_wf l -> lineage_wf l' -> splits l l' g left child ->
  PhysicalLineage_resolve_union l scopes = Ok r ->
  exists r', PhysicalLineage_resolve_union l' scopes = Ok r' /\ rps_packs r' = rps_packs r.
Proof.
  intros Hwf Hwf' Hs Hr. apply resolve_union_run in Hr as (Hlen & Hok & Hr); [|done].
  destruct (resolve_union_total l' scopes) as [r' Hr']; [done..| |].
  { eapply list.Forall_impl; [exact Hok|]. intros s. by eapply scope_ok_split. }
  exists r'. split; [done|]. apply resolve_union_run in Hr' as (_ & _ & Hr'); [|done].
  exact (split_total l l' g left child Hwf Hwf' Hs scopes Hok r r' Hr Hr').
Qed.

(** ** A concrete lineage *)

Definition sample_node (id : Z) (parent : option Z) (created packs : Z) : PhysicalLineageNode :=
  {| pln_id := sample_id id; pln_parent := sample_id <$> parent; pln_trace := sample_id 41;
     pln_variant := sample_id 12; pln_created_revision := sample_revision created;
     pln_packs := sample_packs packs; pln_recovery := None |}.
Definition sample_lineage_of (revision : Z) (nodes : list PhysicalLineageNode) : PhysicalLineage :=
  {| pl_hub := sample_hub; pl_trace := sample_id 41; pl_variant := sample_id 12;
     pl_revision := sample_revision revision; pl_nodes := nodes |}.
(** A root of 10 packs with an earlier portion of 4; then 3 more are split off. *)
Definition sample_lineage : PhysicalLineage :=
  sample_lineage_of 9 [sample_node 51 None 2 10; sample_node 52 (Some 51) 4 4].
Definition sample_lineage_split : PhysicalLineage :=
  sample_lineage_of 10
    [sample_node 51 None 2 7; sample_node 52 (Some 51) 4 4; sample_node 53 (Some 51) 10 3].
Definition sample_scope : CapturedPhysicalScope :=
  match PhysicalLineage_capture sample_lineage [sample_id 51] with
  | Ok s => s
  | Err _ => {| cps_hub := sample_hub; cps_trace := sample_id 41; cps_variant := sample_id 12;
                cps_captured_revision := sample_revision 1; cps_anchors := [] |}
  end.

Lemma sample_lineage_wf : lineage_wf sample_lineage.
Proof.
  apply (PhysicalLineage_new_Ok sample_hub (sample_id 41) (sample_id 12) (sample_revision 9)
    (pl_nodes sample_lineage)). vm_compute. reflexivity.
Qed.

Lemma sample_lineage_split_wf : lineage_wf sample_lineage_split.
Proof.
  apply (PhysicalLineage_new_Ok sample_hub (sample_id 41) (sample_id 12) (sample_revision 10)
    (pl_nodes sample_lineage_split)). vm_compute. reflexivity.
Qed.

Lemma sample_capture : PhysicalLineage_capture sample_lineage [sample_id 51] = Ok sample_scope.
Proof. vm_compute. reflexivity. Qed.

Lemma sample_splits :
  splits sample_lineage sample_lineage_split (sample_node 51 None 2 10) (sample_packs 7)
    (sample_node 53 (Some 51) 10 3).
Proof.
  constructor; try reflexivity; [vm_compute; split; congruence|].
  exists [sample_node 52 (Some 51) 4 4]. split; [reflexivity|].
  cbn [pl_nodes sample_lineage_split sample_lineage_of].
  change (with_packs (sample_node 51 None 2 10) (sample_packs 7)) with (sample_node 51 None 2 7).
  exact (Permutation_app_comm
    [sample_node 51 None 2 7; sample_node 52 (Some 51) 4 4] [sample_node 53 (Some 51) 10 3]).
Qed.

Lemma captured_member_correct_witness :
  PhysicalLineage_captured_member sample_lineage_split (sample_id 51) (sample_revision 9)
    (sample_id 53) = Some true /\
  exists n, pln_id n = sample_id 53 /\
    member sample_lineage_split (sample_revision 9) (sample_id 51) n.
Proof.
  assert (PhysicalLineage_captured_member sample_lineage_split (sample_id 51) (sample_revision 9)
    (sample_id 53) = Some true) as E by (vm_compute; reflexivity).
  split; [exact E|].
  destruct (captured_member_correct sample_lineage_split (sample_id 51) (sample_revision 9)
    (sample_id 53) sample_lineage_split_wf) as (b & Hb & Hiff).
  rewrite E in Hb. injection Hb as <-. exact (proj2 (proj2 (proj1 Hiff eq_refl))).
Defined.

Lemma resolve_union_correct_witness :
  match PhysicalLineage_resolve_union sample_lineage_split [sample_scope] with
  | Ok r => raw (rps_packs r) = 10 /\ length (rps_groups r) = 2%nat /\
      resolved sample_lineage_split [sample_scope] r
  | Err _ => False
  end.
Proof.
  pose proof (resolve_union_correct sample_lineage_split [sample_scope] sample_lineage_split_wf) as H.
  destruct (PhysicalLineage_resolve_union _ _) as [r|e] eqn:E; vm_compute in E; [|discriminate E].
  injection E as <-. split; [reflexivity|]. split; [reflexivity|]. exact (proj2 (proj2 H)).
Defined.

Lemma capture_roundtrip_witness :
  PhysicalLineage_restore_scope sample_lineage (cps_captured_revision sample_scope)
    (cps_anchors sample_scope) = Ok sample_scope.
Proof. exact (proj2 (proj2 (capture_roundtrip _ _ _ sample_lineage_wf sample_capture))). Defined.

Lemma split_conserves_scopes_witness :
  match PhysicalLineage_resolve_union sample_lineage [sample_scope] with
  | Ok r => exists r', PhysicalLineage_resolve_union sample_lineage_split [sample_scope] = Ok r' /\
      rps_packs r' = rps_packs r
  | Err _ => False
  end.
Proof.
  destruct (PhysicalLineage_resolve_union sample_lineage [sample_scope]) as [r|e] eqn:E.
  - exact (split_conserves_scopes _ _ _ _ _ _ _ sample_lineage_wf sample_lineage_split_wf
      sample_splits E).
  - vm_compute in E. discriminate E.
Defined.
