(* ===== verification/Split.v ===== *)
(** * Observed portions

    [hub/portions/split.rs]: a separately distinguishable portion of a group,
    observed at the group's own location. *)

From Stdlib Require Import Bool ZArith Lia String.
From stdpp Require Import base decidable option list numbers sets.
From S2P Require Import Prelude Containers Encoding Hub Reference Catalog Stock Movement Work Lineage.

Record SplitCommand := {
  spl_expected_stock_revision : HubRevision;
  spl_expected_catalog_revision : HubRevision;
  spl_group : HubRecordId;
  spl_expected_group_revision : HubRevision;
  spl_packs : WholePacks;
  spl_identification : PhysicalIdentification;
  spl_occurred : Occurrence;
  spl_observation : SourceProvenance
}.

Record SplitPlan := {
  splp_stock_revision : HubRevision;
  splp_location : ReferenceRecord;
  splp_remainder : PhysicalStockGroup;
  splp_portion : PhysicalStockGroup
}.

Definition SplitCommand_plan (self : SplitCommand) (catalog : ReferenceCatalog)
    (stock_revision : HubRevision) (source : PhysicalStockGroup) (portion_id : HubRecordId)
    (recorded_at : UnixTimestamp) : result SplitPlan MovementError :=
  PhysicalStockGroup_validate_catalog source catalog ;;?
  if (spl_expected_stock_revision self !=? stock_revision)
     || (spl_expected_catalog_revision self !=? rc_revision catalog)
     || (spl_group self !=? pg_id source)
     || (spl_expected_group_revision self !=? pg_revision source)
  then Err MovementError.StaleRevision
  else if (raw (spl_packs self) =? 0) || (raw (spl_packs self) >=? raw (pg_packs source))
  then Err MovementError.InvalidGroup
  else
    let? floor := PhysicalStockGroup_observation_floor source (spl_occurred self) recorded_at in
    let? partition := PhysicalStockGroup_partition source (spl_packs self) portion_id
      (Some (spl_identification self)) in
    let? remainder := ok_or (pp_remainder partition) MovementError.InvalidGroup in
    let portion := pg_set_floor (pp_selected partition) floor in
    PhysicalStockGroup_validate portion ;;?
    PhysicalStockGroup_validate remainder ;;?
    let? next := movement_next stock_revision in
    let? location := map_err MovementError.Reference
      (ReferenceCatalog_require_kind catalog (pg_location source) ReferenceKind.Location) in
    Ok {| splp_stock_revision := next; splp_location := location;
          splp_remainder := remainder; splp_portion := portion |}.

Definition SplitCommand_message (self : SplitCommand) (hub : HubId) (actor : PublicKey)
    (portion_id : HubRecordId) : list byte :=
  domain_tag "harvestcircle.hub.portion.split.command.v1" ++
  enc_hub hub ++ enc_key actor ++ enc_id portion_id ++
  enc_revision (spl_expected_stock_revision self) ++
  enc_revision (spl_expected_catalog_revision self) ++
  enc_id (spl_group self) ++ enc_revision (spl_expected_group_revision self) ++
  enc_packs (spl_packs self) ++ enc_hub_text (pi_label (spl_identification self)) ++
  enc_hub_text (pi_observation (spl_identification self)) ++
  hash_occurrence (spl_occurred self) ++ enc_hub_text (spl_observation self).
Definition SplitCommand_fingerprint `{Sha256} (self : SplitCommand) (hub : HubId)
    (actor : PublicKey) (portion_id : HubRecordId) : array 32 :=
  digest32 (SplitCommand_message self hub actor portion_id).

(** ** What a split promises *)

Record split_admitted (self : SplitCommand) (catalog : ReferenceCatalog)
    (stock_revision : HubRevision) (source : PhysicalStockGroup) (portion_id : HubRecordId)
    (recorded_at : UnixTimestamp) : Prop := {
  sa_source : catalogued catalog source;
  sa_stock : spl_expected_stock_revision self = stock_revision;
  sa_catalog : spl_expected_catalog_revision self = rc_revision catalog;
  sa_group : spl_group self = pg_id source;
  sa_group_revision : spl_expected_group_revision self = pg_revision source;
  sa_packs : 0 < raw (spl_packs self) < raw (pg_packs source);
  sa_identity : portion_id <> pg_id source /\
    forall original, pg_identification source = Some original ->
      pi_label original <> pi_label (spl_identification self);
  sa_occurred : observable source (spl_occurred self) recorded_at;
  sa_group_next : raw (pg_revision source) < HubRevision_MAXIMUM;
  sa_stock_next : raw stock_revision < HubRevision_MAXIMUM
}.

Record split_effect (self : SplitCommand) (catalog : ReferenceCatalog)
    (stock_revision : HubRevision) (source : PhysicalStockGroup) (portion_id : HubRecordId)
    (p : SplitPlan) : Prop := {
  spe_revision : raw (splp_stock_revision p) = raw stock_revision + 1;
  spe_location : bt_get (pg_location source) (rc_records catalog) = Some (splp_location p);
  spe_remainder : exists packs revision,
    raw packs = raw (pg_packs source) - raw (spl_packs self) /\
    raw revision = raw (pg_revision source) + 1 /\
    splp_remainder p = {|
      pg_id := pg_id source; pg_trace := pg_trace source; pg_variant := pg_variant source;
      pg_parent := pg_parent source; pg_identification := pg_identification source;
      pg_location := pg_location source; pg_packs := packs; pg_revision := revision;
      pg_causal_floor := pg_causal_floor source; pg_work := pg_work source |};
  spe_portion : splp_portion p = {|
      pg_id := portion_id; pg_trace := pg_trace source; pg_variant := pg_variant source;
      pg_parent := Some (pg_id source); pg_identification := Some (spl_identification self);
      pg_location := pg_location source; pg_packs := spl_packs self;
      pg_revision := HubRevision_INITIAL;
      pg_causal_floor := option_max (pg_causal_floor source) (earliest_of (spl_occurred self));
      pg_work := pg_work source |};
  spe_valid : group_ok (splp_remainder p) /\ group_ok (splp_portion p)
}.

Lemma group_ok_floor g floor : group_ok g -> group_ok (pg_set_floor g floor).
Proof.
  intros []. constructor; simpl; try done.
  eapply list.Forall_impl; [exact go_work|]. intros a. by apply allocation_ok_ext.
Qed.

(** A part of a group: the portion and what remains, field by field. *)
Lemma partition_part source packs child_id i p :
  PhysicalStockGroup_partition source packs child_id (Some i) = Ok p ->
  exists rest_packs revision,
    raw rest_packs = raw (pg_packs source) - raw packs /\
    raw revision = raw (pg_revision source) + 1 /\
    pp_remainder p = Some {|
      pg_id := pg_id source; pg_trace := pg_trace source; pg_variant := pg_variant source;
      pg_parent := pg_parent source; pg_identification := pg_identification source;
      pg_location := pg_location source; pg_packs := rest_packs; pg_revision := revision;
      pg_causal_floor := pg_causal_floor source; pg_work := pg_work source |} /\
    pp_selected p = {|
      pg_id := child_id; pg_trace := pg_trace source; pg_variant := pg_variant source;
      pg_parent := Some (pg_id source); pg_identification := Some i;
      pg_location := pg_location source; pg_packs := packs; pg_revision := HubRevision_INITIAL;
      pg_causal_floor := pg_causal_floor source; pg_work := pg_work source |}.
Proof.
  unfold PhysicalStockGroup_partition. intros H. ok_facts. simplify_eq.
  eexists _, _. split_and!; done.
Qed.

Lemma split_run self catalog stock_revision source portion_id recorded_at p :
  SplitCommand_plan self catalog stock_revision source portion_id recorded_at = Ok p ->
  split_admitted self catalog stock_revision source portion_id recorded_at /\
  split_effect self catalog stock_revision source portion_id p.
Proof.
  unfold SplitCommand_plan. intros H. run_ok.
  match goal with E : PhysicalStockGroup_partition _ _ _ _ = _ |- _ =>
    pose proof (partition_part _ _ _ _ _ E) as (rp & rev & Hrp & Hrev & Hrest & Hsel);
    apply partition_run in E as [[_ _ Hpr Hps] _] end.
  ok_facts. pose proof (WholePacks_range (spl_packs self)). unfold separable in Hps.
  rewrite decide_False in Hps by (intros E'; apply (f_equal raw) in E'; lia).
  destruct Hps as (i & [= <-] & Hid & Hl). subst. rewrite Hrest in *. simplify_eq.
  split; constructor; try done; [lia|by eapply next_bound|by eexists _, _|simpl; by rewrite Hsel].
Qed.

Lemma split_total_plan self catalog stock_revision source portion_id recorded_at :
  split_admitted self catalog stock_revision source portion_id recorded_at ->
  exists p, SplitCommand_plan self catalog stock_revision source portion_id recorded_at = Ok p.
Proof.
  intros []. pose proof (cg_group _ _ sa_source0) as Hg.
  destruct (partition_total source (spl_packs self) portion_id (Some (spl_identification self)))
    as [q Hq].
  { constructor; [done|lia|done|]. unfold separable.
    rewrite decide_False by (intros E; apply (f_equal raw) in E; lia).
    exists (spl_identification self). destruct sa_identity0. by split_and!. }
  pose proof (pe_valid _ _ _ _ _ (proj2 (partition_run _ _ _ _ _ Hq))) as Hv.
  destruct (partition_part _ _ _ _ _ Hq) as (rp & rev & _ & _ & Hrest & _).
  rewrite Hrest in Hv. apply list.Forall_cons in Hv as [Hs Hv]. apply list.Forall_cons in Hv as [Hr _].
  destruct (movement_next_total stock_revision) as (n & Hn & _); [done|].
  destruct (cg_location _ _ sa_source0) as (loc & Hloc).
  unfold SplitCommand_plan. rewrite (proj2 (validate_catalog_Ok _ _)) by done. cbn [bind].
  rewrite !bool_decide_eq_true_2 by done. cbn [negb orb].
  rewrite (proj2 (Z.eqb_neq _ 0)), (proj2 (Z.leb_gt _ _)) by lia. cbn [orb].
  rewrite (proj2 (observation_floor_Ok _ _ _ _) (conj sa_occurred0 eq_refl)). cbn [bind].
  rewrite Hq. cbn [bind]. rewrite Hrest. cbn [bind ok_or].
  rewrite (proj2 (validate_Ok _)) by (by apply group_ok_floor). cbn [bind].
  rewrite (proj2 (validate_Ok _)) by done. cbn [bind]. rewrite Hn. cbn [bind].
  rewrite (proj2 (require_kind_Ok _ _ _ loc)) by done. by eexists.
Qed.

(** A portion is split off exactly under [split_admitted] (a proper part,
    with its own identifier and label, observed neither in the future nor before
    the group's floor); the portion and the remainder add up to the group, the
    portion names it as its parent, both keep its work and both are valid. *)
Theorem split_correct self catalog stock_revision source portion_id recorded_at :
  match SplitCommand_plan self catalog stock_revision source portion_id recorded_at with
  | Ok p =>
      split_admitted self catalog stock_revision source portion_id recorded_at /\
      split_effect self catalog stock_revision source portion_id p
  | Err _ => ~ split_admitted self catalog stock_revision source portion_id recorded_at
  end.
Proof.
  destruct (SplitCommand_plan _ _ _ _ _ _) as [p|e] eqn:E; [by apply split_run|].
  intros H. apply split_total_plan in H as [p H]. congruence.
Qed.

Lemma SplitCommand_message_inv cmd cmd' hub hub' actor actor' id id' :
  SplitCommand_message cmd hub actor id = SplitCommand_message cmd' hub' actor' id' ->
  cmd = cmd' /\ hub = hub' /\ actor = actor' /\ id = id'.
Proof.
  intros E. unfold SplitCommand_message in E.
  apply app_inv_head in E. do 11 peel E. apply prefix_code_inj in E; [|apply _].
  destruct cmd as [? ? ? ? ? [] ? ?], cmd' as [? ? ? ? ? [] ? ?]; simpl in *. by subst.
Qed.
