(* ===== verification/Treatment.v ===== *)
(** * Treatment: acceptance and holds

    [hub/treatment.rs] with its [state], [command] and [result] modules: the
    immutable acceptance decisions, birth reviews and holds over captured
    physical scopes, the projection of their current meaning, and the commands
    that add to them. *)

From Stdlib Require Import Bool ZArith Lia String Sorted Permutation List.
From stdpp Require Import base decidable option list numbers sets.
From S2P Require Import Prelude Containers Encoding Hub Reference Catalog Stock Movement Lineage.

Definition HUB_TREATMENT_SELECTION_GROUPS : nat := 64.
Definition HUB_TREATMENT_RECORDS_PER_TRACE : nat := 256.

Module AcceptanceStatus.
Inductive AcceptanceStatus := ReviewRequired | Accepted | Rejected.
#[global] Instance AcceptanceStatus_eq_dec : EqDecision AcceptanceStatus.
Proof. solve_decision. Defined.
End AcceptanceStatus.
Abbreviation AcceptanceStatus := AcceptanceStatus.AcceptanceStatus.

Module PhysicalAction.
Inductive PhysicalAction :=
| InternalRelocation | ObservedSeparation | NormalDeparture | Disposition.
#[global] Instance PhysicalAction_eq_dec : EqDecision PhysicalAction.
Proof. solve_decision. Defined.
End PhysicalAction.
Abbreviation PhysicalAction := PhysicalAction.PhysicalAction.

Module TreatmentError.
Inductive TreatmentError :=
| Capacity
| InvalidSelection
| InvalidHistory
| InvalidOccurrence
| StaleRevision
| RevisionExhausted
| HoldClosed
| ActionBlocked
| Scope (e : PhysicalScopeError).
#[global] Instance TreatmentError_eq_dec : EqDecision TreatmentError.
Proof. solve_decision. Defined.
End TreatmentError.
Abbreviation TreatmentError := TreatmentError.TreatmentError.

(** ** Selections *)

(** The field of [TreatmentSelection] is private: its values are those [new]
    builds. *)
Definition TreatmentSelection_check (groups : list HubRecordId) : bool :=
  negb (length groups =? 0)%nat && (length groups <=? HUB_TREATMENT_SELECTION_GROUPS)%nat
  && negb (windows2_any (fun a b => kleb b a) groups).
Abbreviation TreatmentSelection := (refined TreatmentSelection_check).

(** [TreatmentSelection::new]; the last check never fails
    (see [TreatmentSelection_new_Ok]). *)
Definition TreatmentSelection_new (groups : list HubRecordId)
  : result TreatmentSelection TreatmentError :=
  if (length groups =? 0)%nat then Err TreatmentError.InvalidSelection
  else if (HUB_TREATMENT_SELECTION_GROUPS <? length groups)%nat
  then Err TreatmentError.Capacity
  else
    let groups := sort_by_key id groups in
    if windows2_any (fun a b => a ==? b) groups then Err TreatmentError.InvalidSelection
    else checked TreatmentSelection_check TreatmentError.InvalidSelection groups.

(** ** State *)

Record TreatmentStamp := {
  ts_id : HubRecordId;
  ts_stock_revision : HubRevision;
  ts_actor : PublicKey;
  ts_basis : SampleHandlingBasis;
  ts_recorded_at : UnixTimestamp;
  ts_occurred : Occurrence;
  ts_observation : SourceProvenance
}.
#[global] Instance TreatmentStamp_eq_dec : EqDecision TreatmentStamp.
Proof. solve_decision. Defined.

Record AcceptanceDecision := {
  ad_stamp : TreatmentStamp;
  ad_scope : CapturedPhysicalScope;
  ad_status : AcceptanceStatus
}.

Record InitialGroupReview := {
  igr_stamp : TreatmentStamp;
  igr_scope : CapturedPhysicalScope
}.

Record Hold := {
  hd_stamp : TreatmentStamp;
  hd_scope : CapturedPhysicalScope;
  hd_release : option TreatmentStamp
}.

Definition Hold_revision (self : Hold) : HubRevision :=
  if is_some (hd_release self) then Refined 2 eq_refl else Refined 1 eq_refl.

Record TreatmentState := {
  tst_decisions : list AcceptanceDecision;
  tst_holds : list Hold;
  tst_initial_reviews : list InitialGroupReview
}.

Definition TreatmentState_record_count (self : TreatmentState) : nat :=
  (length (tst_decisions self) + length (tst_holds self) + length (tst_initial_reviews self))%nat.

Definition occurrence_bounds_of (value : Occurrence) : option (UnixTimestamp * UnixTimestamp) :=
  match value with
  | Occurrence.Known at_ => Some (at_, at_)
  | Occurrence.Interval earliest latest => Some (earliest, latest)
  | Occurrence.Unknown => None
  end.

Definition validate_scope (graph : PhysicalLineage) (scope : CapturedPhysicalScope)
    (stamp : TreatmentStamp) : result unit TreatmentError :=
  if (HUB_TREATMENT_SELECTION_GROUPS <? length (cps_anchors scope))%nat
     || (u64_checked_add (raw (cps_captured_revision scope)) 1
           !=? Some (raw (ts_stock_revision stamp)))
  then Err TreatmentError.InvalidHistory
  else
    let? _ := map_err TreatmentError.Scope (PhysicalLineage_resolve graph scope) in
    Ok tt.

(** The identifiers and revisions the stamps have used so far. *)
Abbreviation used_stamps := (list (HubRecordId * unit) * list (Z * unit))%type.

(** The [stamp] closure of [TreatmentState::validate]. *)
Definition validate_stamp (graph : PhysicalLineage) (used : used_stamps) (value : TreatmentStamp)
  : result used_stamps TreatmentError :=
  let (ids, revisions) := used in
  let (new_id, ids) := bs_insert (ts_id value) ids in
  let (new_revision, revisions) := bs_insert (raw (ts_stock_revision value)) revisions in
  if (raw (ts_stock_revision value) <? 2)
     || (raw (ts_stock_revision value) >? raw (pl_revision graph))
     || negb new_id || negb new_revision
  then Err TreatmentError.InvalidHistory
  else
    map_err (fun _ => TreatmentError.InvalidOccurrence)
      (Occurrence_validate (ts_occurred value) (ts_recorded_at value)) ;;?
    Ok (ids, revisions).

Definition validate_decision (graph : PhysicalLineage) (used : used_stamps)
    (decision : AcceptanceDecision) : result used_stamps TreatmentError :=
  let? used := validate_stamp graph used (ad_stamp decision) in
  validate_scope graph (ad_scope decision) (ad_stamp decision) ;;?
  Ok used.

(** The earliest placement lies after the latest release. *)
Definition released_before_placed (hold release : TreatmentStamp) : bool :=
  match occurrence_bounds_of (ts_occurred hold), occurrence_bounds_of (ts_occurred release) with
  | Some (placed, _), Some (_, released) => raw released <? raw placed
  | _, _ => false
  end.

Definition validate_hold (graph : PhysicalLineage) (used : used_stamps) (hold : Hold)
  : result used_stamps TreatmentError :=
  let? used := validate_stamp graph used (hd_stamp hold) in
  validate_scope graph (hd_scope hold) (hd_stamp hold) ;;?
  match hd_release hold with
  | None => Ok used
  | Some release =>
      let? used := validate_stamp graph used release in
      if raw (ts_stock_revision release) <=? raw (ts_stock_revision (hd_stamp hold))
      then Err TreatmentError.InvalidHistory
      else if released_before_placed (hd_stamp hold) release
      then Err TreatmentError.InvalidOccurrence
      else Ok used
  end.

Definition review_anchor (graph : PhysicalLineage) (review : InitialGroupReview)
    (captured : WholePacks) (anchor : PhysicalScopeAnchor) : result WholePacks TreatmentError :=
  let? node := ok_or (PhysicalLineage_node graph (psa_group anchor))
    TreatmentError.InvalidHistory in
  if (psa_created_revision anchor !=? ts_stock_revision (igr_stamp review))
     || (pln_created_revision node !=? ts_stock_revision (igr_stamp review))
     || is_none (pln_parent node) || (raw (psa_captured_packs anchor) =? 0)
  then Err TreatmentError.InvalidHistory
  else
    let? single := map_err TreatmentError.Scope
      (PhysicalLineage_restore_scope graph (cps_captured_revision (igr_scope review)) [anchor]) in
    let? resolved := map_err TreatmentError.Scope (PhysicalLineage_resolve graph single) in
    if raw (rps_packs resolved) >? raw (psa_captured_packs anchor)
    then Err TreatmentError.InvalidHistory
    else map_err (fun _ => TreatmentError.InvalidHistory)
           (WholePacks_checked_add captured (psa_captured_packs anchor)).

Definition validate_review (graph : PhysicalLineage) (used : used_stamps)
    (review : InitialGroupReview) : result used_stamps TreatmentError :=
  let? used := validate_stamp graph used (igr_stamp review) in
  if (cps_captured_revision (igr_scope review) !=? ts_stock_revision (igr_stamp review))
     || (HUB_TREATMENT_SELECTION_GROUPS <? length (cps_anchors (igr_scope review)))%nat
     || (ts_occurred (igr_stamp review) !=? Occurrence.Known (ts_recorded_at (igr_stamp review)))
  then Err TreatmentError.InvalidHistory
  else
    let? captured := try_fold (review_anchor graph review) zero_packs
      (cps_anchors (igr_scope review)) in
    let? resolved := map_err TreatmentError.Scope
      (PhysicalLineage_resolve graph (igr_scope review)) in
    if raw (rps_packs resolved) >? raw captured then Err TreatmentError.InvalidHistory
    else Ok used.

Definition TreatmentState_validate (self : TreatmentState) (graph : PhysicalLineage)
  : result unit TreatmentError :=
  if (HUB_TREATMENT_RECORDS_PER_TRACE <? length (tst_decisions self))%nat
     || (HUB_TREATMENT_RECORDS_PER_TRACE <? length (tst_holds self))%nat
     || (HUB_TREATMENT_RECORDS_PER_TRACE <? length (tst_initial_reviews self))%nat
     || (HUB_TREATMENT_RECORDS_PER_TRACE <? TreatmentState_record_count self)%nat
  then Err TreatmentError.Capacity
  else
    let? used := try_fold (validate_decision graph) ([], []) (tst_decisions self) in
    let? used := try_fold (validate_hold graph) used (tst_holds self) in
    let? _ := try_fold (validate_review graph) used (tst_initial_reviews self) in
    Ok tt.

Definition TreatmentState_restore_with_initial_reviews (graph : PhysicalLineage)
    (decisions : list AcceptanceDecision) (holds : list Hold)
    (initial_reviews : list InitialGroupReview) : result TreatmentState TreatmentError :=
  let state := {| tst_decisions := decisions; tst_holds := holds;
                  tst_initial_reviews := initial_reviews |} in
  TreatmentState_validate state graph ;;?
  Ok state.

Definition TreatmentState_restore (graph : PhysicalLineage)
    (decisions : list AcceptanceDecision) (holds : list Hold)
  : result TreatmentState TreatmentError :=
  TreatmentState_restore_with_initial_reviews graph decisions holds [].

(** ** Projection *)

Record GroupTreatment := {
  gt_group : HubRecordId;
  gt_packs : WholePacks;
  gt_acceptance : AcceptanceStatus;
  gt_acceptance_decision : option HubRecordId;
  gt_active_holds : list HubRecordId
}.

Definition is_empty {A} (l : list A) : bool := match l with [] => true | _ => false end.

Definition GroupTreatment_allows (self : GroupTreatment) (basis : SampleHandlingBasis)
    (action : PhysicalAction) : bool :=
  match basis, action with
  | WHOLE_PACK_V1, PhysicalAction.NormalDeparture =>
      (gt_acceptance self ==? AcceptanceStatus.Accepted) && is_empty (gt_active_holds self)
  | WHOLE_PACK_V1,
    (PhysicalAction.InternalRelocation | PhysicalAction.ObservedSeparation
    | PhysicalAction.Disposition) => true
  end.

Record TreatmentSummary := {
  sm_on_hand : WholePacks;
  sm_accepted : WholePacks;
  sm_review_required : WholePacks;
  sm_rejected : WholePacks;
  sm_restricted : WholePacks;
  sm_departure_eligible : WholePacks
}.

Definition TreatmentSummary_validate (self : TreatmentSummary) : result unit TreatmentError :=
  let? accounted := map_err (fun _ => TreatmentError.InvalidHistory)
    (let? v := WholePacks_checked_add (sm_accepted self) (sm_review_required self) in
     WholePacks_checked_add v (sm_rejected self)) in
  if (accounted !=? sm_on_hand self)
     || (raw (sm_restricted self) >? raw (sm_on_hand self))
     || (raw (sm_departure_eligible self) >? raw (sm_accepted self))
     || (raw (sm_departure_eligible self)
           <? u32_saturating_sub (raw (sm_accepted self)) (raw (sm_restricted self)))
     || (raw (sm_departure_eligible self) >? raw (sm_on_hand self) - raw (sm_restricted self))
  then Err TreatmentError.InvalidHistory
  else Ok tt.

Record TreatmentProjection := {
  tp_revision : HubRevision;
  tp_basis : SampleHandlingBasis;
  tp_history_capacity_reached : bool;
  tp_summary : TreatmentSummary;
  tp_groups : list GroupTreatment
}.

Definition projected_group (self : TreatmentProjection) (group : HubRecordId)
  : option GroupTreatment :=
  List.find (fun candidate => gt_group candidate ==? group) (tp_groups self).

Definition TreatmentProjection_action_ready (self : TreatmentProjection) (group : HubRecordId)
    (action : PhysicalAction) (normal_operation_capacity : bool) : bool :=
  normal_operation_capacity
  && negb ((action ==? PhysicalAction.NormalDeparture) && tp_history_capacity_reached self)
  && is_some_and (projected_group self group)
       (fun group => GroupTreatment_allows group (tp_basis self) action).

Definition TreatmentProjection_require (self : TreatmentProjection)
    (selection : TreatmentSelection) (action : PhysicalAction) : result unit TreatmentError :=
  if (action ==? PhysicalAction.NormalDeparture) && tp_history_capacity_reached self
  then Err TreatmentError.Capacity
  else
    try_for_each
      (fun id =>
         let? group := ok_or (projected_group self id) TreatmentError.InvalidSelection in
         if negb (GroupTreatment_allows group (tp_basis self) action)
         then Err TreatmentError.ActionBlocked else Ok tt)
      (raw selection).

(** The slot of one node: a later stamp replaces an earlier one. *)
Abbreviation acceptance_map := (list (HubRecordId * (TreatmentStamp * AcceptanceStatus))).
Definition record_acceptance (stamp : TreatmentStamp) (status : AcceptanceStatus)
    (acceptance : acceptance_map) (node : PhysicalLineageNode) : acceptance_map :=
  match bt_get (pln_id node) acceptance with
  | Some (entry, _) =>
      if raw (ts_stock_revision entry) <? raw (ts_stock_revision stamp)
      then bt_insert (pln_id node) (stamp, status) acceptance
      else acceptance
  | None => bt_insert (pln_id node) (stamp, status) acceptance
  end.

Definition record_scope (graph : PhysicalLineage) (scope : CapturedPhysicalScope)
    (stamp : TreatmentStamp) (status : AcceptanceStatus) (acceptance : acceptance_map)
  : result acceptance_map TreatmentError :=
  let? resolved := map_err TreatmentError.Scope (PhysicalLineage_resolve graph scope) in
  Ok (foldl (record_acceptance stamp status) acceptance (rps_groups resolved)).

Definition project_acceptance (self : TreatmentState) (graph : PhysicalLineage)
  : result acceptance_map TreatmentError :=
  let? acceptance := try_fold
    (fun acceptance decision =>
       record_scope graph (ad_scope decision) (ad_stamp decision) (ad_status decision) acceptance)
    [] (tst_decisions self) in
  try_fold
    (fun acceptance review =>
       record_scope graph (igr_scope review) (igr_stamp review)
         AcceptanceStatus.ReviewRequired acceptance)
    acceptance (tst_initial_reviews self).

(** [restrictions.entry(id).or_default().push(hold)]. *)
Definition record_hold (hold : HubRecordId) (restrictions : list (HubRecordId * list HubRecordId))
    (node : PhysicalLineageNode) : list (HubRecordId * list HubRecordId) :=
  bt_insert (pln_id node)
    (match bt_get (pln_id node) restrictions with Some l => l | None => [] end ++ [hold])
    restrictions.

Definition project_holds (self : TreatmentState) (graph : PhysicalLineage)
  : result (list (HubRecordId * list HubRecordId)) TreatmentError :=
  try_fold
    (fun restrictions hold =>
       let? resolved := map_err TreatmentError.Scope
         (PhysicalLineage_resolve graph (hd_scope hold)) in
       Ok (foldl (record_hold (ts_id (hd_stamp hold))) restrictions (rps_groups resolved)))
    [] (filter (fun hold => hd_release hold = None) (tst_holds self)).

Definition zero_summary : TreatmentSummary :=
  {| sm_on_hand := zero_packs; sm_accepted := zero_packs; sm_review_required := zero_packs;
     sm_rejected := zero_packs; sm_restricted := zero_packs;
     sm_departure_eligible := zero_packs |}.

(** The [add] closure, on one total when its condition holds. *)
Definition add_packs (condition : bool) (packs total : WholePacks)
  : result WholePacks TreatmentError :=
  if condition
  then map_err (fun _ => TreatmentError.InvalidHistory) (WholePacks_checked_add total packs)
  else Ok total.

Definition summary_add (basis : SampleHandlingBasis) (summary : TreatmentSummary)
    (group : GroupTreatment) : result TreatmentSummary TreatmentError :=
  let packs := gt_packs group in
  let has status := gt_acceptance group ==? status in
  let? on_hand := add_packs true packs (sm_on_hand summary) in
  let? accepted := add_packs (has AcceptanceStatus.Accepted) packs (sm_accepted summary) in
  let? review := add_packs (has AcceptanceStatus.ReviewRequired) packs
    (sm_review_required summary) in
  let? rejected := add_packs (has AcceptanceStatus.Rejected) packs (sm_rejected summary) in
  let? restricted := add_packs (negb (is_empty (gt_active_holds group))) packs
    (sm_restricted summary) in
  let? eligible := add_packs (GroupTreatment_allows group basis PhysicalAction.NormalDeparture)
    packs (sm_departure_eligible summary) in
  Ok {| sm_on_hand := on_hand; sm_accepted := accepted; sm_review_required := review;
        sm_rejected := rejected; sm_restricted := restricted;
        sm_departure_eligible := eligible |}.

(** One node of the last loop of [project]. *)
Definition project_node (acceptance : acceptance_map)
    (restrictions : list (HubRecordId * list HubRecordId)) (node : PhysicalLineageNode)
  : GroupTreatment :=
  let decision := bt_get (pln_id node) acceptance in
  let holds := match bt_get (pln_id node) restrictions with Some l => l | None => [] end in
  {| gt_group := pln_id node;
     gt_packs := pln_packs node;
     gt_acceptance := match decision with
                      | None => AcceptanceStatus.ReviewRequired
                      | Some (_, status) => status
                      end;
     gt_acceptance_decision := (fun d => ts_id d.1) <$> decision;
     gt_active_holds := sort_by_key id holds |}.

Definition project_step (basis : SampleHandlingBasis) (acceptance : acceptance_map)
    (st : TreatmentSummary * list GroupTreatment * list (HubRecordId * list HubRecordId))
    (node : PhysicalLineageNode)
  : result (TreatmentSummary * list GroupTreatment * list (HubRecordId * list HubRecordId))
      TreatmentError :=
  match st with
  | (summary, groups, restrictions) =>
      let group := project_node acceptance restrictions node in
      let restrictions := bt_remove (pln_id node) restrictions in
      let? summary := summary_add basis summary group in
      Ok (summary, groups ++ [group], restrictions)
  end.

Definition TreatmentState_project (self : TreatmentState) (graph : PhysicalLineage)
    (basis : SampleHandlingBasis) : result TreatmentProjection TreatmentError :=
  TreatmentState_validate self graph ;;?
  let? acceptance := project_acceptance self graph in
  let? restrictions := project_holds self graph in
  let? (summary, groups, _) :=
    try_fold (project_step basis acceptance) (zero_summary, [], restrictions)
      (filter (fun node => 0 < raw (pln_packs node)) (pl_nodes graph)) in
  TreatmentSummary_validate summary ;;?
  Ok {| tp_revision := pl_revision graph; tp_basis := basis;
        tp_history_capacity_reached :=
          (TreatmentState_record_count self =? HUB_TREATMENT_RECORDS_PER_TRACE)%nat;
        tp_summary := summary; tp_groups := groups |}.

(** ** Commands *)

Module TreatmentAction.
Inductive TreatmentAction :=
| SetAcceptance (selection : TreatmentSelection) (status : AcceptanceStatus)
| PlaceHold (selection : TreatmentSelection)
| ReleaseHold (hold : HubRecordId) (expected_revision : HubRevision).
End TreatmentAction.
Abbreviation TreatmentAction := TreatmentAction.TreatmentAction.

Record TreatmentCommand := {
  tc_expected_stock_revision : HubRevision;
  tc_expected_catalog_revision : HubRevision;
  tc_action : TreatmentAction;
  tc_occurred : Occurrence;
  tc_observation : SourceProvenance
}.

Module TreatmentChange.
Inductive TreatmentChange :=
| Acceptance (decision : AcceptanceDecision)
| HoldPlaced (hold : Hold)
| HoldReleased (hold : HubRecordId) (release : TreatmentStamp).
End TreatmentChange.
Abbreviation TreatmentChange := TreatmentChange.TreatmentChange.

Record TreatmentPlan := {
  tpl_revision : HubRevision;
  tpl_change : TreatmentChange;
  tpl_summary : TreatmentSummary;
  tpl_history_capacity_reached : bool;
  tpl_affected_packs : WholePacks
}.

Definition treatment_record_id `{Sha256} (operation : HubRecordId)
  : result HubRecordId TreatmentError :=
  map_err (fun _ => TreatmentError.InvalidSelection)
    (derive_identity "harvestcircle.hub.treatment.record.v1" [] operation).

Definition TreatmentCommand_kind (self : TreatmentCommand) : string :=
  match tc_action self with
  | TreatmentAction.SetAcceptance _ _ => "acceptance"
  | TreatmentAction.PlaceHold _ => "hold_place"
  | TreatmentAction.ReleaseHold _ _ => "hold_release"
  end.

Definition is_release (action : TreatmentAction) : bool :=
  match action with TreatmentAction.ReleaseHold _ _ => true | _ => false end.

(** The [match &self.action] of the plan: the state after it, and the change. *)
Definition treatment_apply (graph : PhysicalLineage) (state : TreatmentState)
    (stamp : TreatmentStamp) (action : TreatmentAction)
  : result (TreatmentState * TreatmentChange) TreatmentError :=
  match action with
  | TreatmentAction.SetAcceptance selection status =>
      let? scope := map_err TreatmentError.Scope
        (PhysicalLineage_capture graph (raw selection)) in
      let decision := {| ad_stamp := stamp; ad_scope := scope; ad_status := status |} in
      Ok ({| tst_decisions := tst_decisions state ++ [decision]; tst_holds := tst_holds state;
             tst_initial_reviews := tst_initial_reviews state |},
          TreatmentChange.Acceptance decision)
  | TreatmentAction.PlaceHold selection =>
      let? scope := map_err TreatmentError.Scope
        (PhysicalLineage_capture graph (raw selection)) in
      let hold := {| hd_stamp := stamp; hd_scope := scope; hd_release := None |} in
      Ok ({| tst_decisions := tst_decisions state; tst_holds := tst_holds state ++ [hold];
             tst_initial_reviews := tst_initial_reviews state |},
          TreatmentChange.HoldPlaced hold)
  | TreatmentAction.ReleaseHold hold expected_revision =>
      let? (index, selected) :=
        ok_or (list_find (fun item => ts_id (hd_stamp item) = hold) (tst_holds state))
          TreatmentError.InvalidSelection in
      if Hold_revision selected !=? expected_revision then Err TreatmentError.StaleRevision
      else if is_some (hd_release selected) then Err TreatmentError.HoldClosed
      else
        Ok ({| tst_decisions := tst_decisions state;
               tst_holds := <[index := {| hd_stamp := hd_stamp selected;
                                          hd_scope := hd_scope selected;
                                          hd_release := Some stamp |}]> (tst_holds state);
               tst_initial_reviews := tst_initial_reviews state |},
            TreatmentChange.HoldReleased hold stamp)
  end.

Definition treatment_change_scope (state : TreatmentState) (change : TreatmentChange)
  : result CapturedPhysicalScope TreatmentError :=
  match change with
  | TreatmentChange.Acceptance value => Ok (ad_scope value)
  | TreatmentChange.HoldPlaced value => Ok (hd_scope value)
  | TreatmentChange.HoldReleased hold _ =>
      let? item := ok_or (List.find (fun item => ts_id (hd_stamp item) ==? hold) (tst_holds state))
        TreatmentError.InvalidHistory in
      Ok (hd_scope item)
  end.

Definition TreatmentCommand_plan (self : TreatmentCommand) (catalog : ReferenceCatalog)
    (graph : PhysicalLineage) (state : TreatmentState) (record : HubRecordId)
    (actor : PublicKey) (now : UnixTimestamp) : result TreatmentPlan TreatmentError :=
  if (tc_expected_stock_revision self !=? pl_revision graph)
     || (tc_expected_catalog_revision self !=? rc_revision catalog)
  then Err TreatmentError.StaleRevision
  else
    let? _ := map_err (fun _ => TreatmentError.InvalidSelection)
      (ReferenceCatalog_require_kind catalog (pl_variant graph) ReferenceKind.Pack) in
    let? _ := TreatmentState_project state graph (ReferenceCatalog_handling_basis catalog) in
    if negb (is_release (tc_action self))
       && (HUB_TREATMENT_RECORDS_PER_TRACE <=? TreatmentState_record_count state)%nat
    then Err TreatmentError.Capacity
    else
      map_err (fun _ => TreatmentError.InvalidOccurrence)
        (Occurrence_validate (tc_occurred self) now) ;;?
      let? revision :=
        match u64_checked_add (raw (pl_revision graph)) 1 with
        | Some value => map_err (fun _ => TreatmentError.RevisionExhausted)
                          (HubRevision_from_value value)
        | None => Err TreatmentError.RevisionExhausted
        end in
      let stamp := {|
        ts_id := record; ts_stock_revision := revision; ts_actor := actor;
        ts_basis := ReferenceCatalog_handling_basis catalog; ts_recorded_at := now;
        ts_occurred := tc_occurred self; ts_observation := tc_observation self |} in
      let? (after, change) := treatment_apply graph state stamp (tc_action self) in
      let? scope := treatment_change_scope state change in
      let? affected := map_err TreatmentError.Scope (PhysicalLineage_resolve graph scope) in
      let? advanced := map_err TreatmentError.Scope
        (PhysicalLineage_new (pl_hub graph) (pl_trace graph) (pl_variant graph) revision
           (pl_nodes graph)) in
      let? projection := TreatmentState_project after advanced
        (ReferenceCatalog_handling_basis catalog) in
      Ok {| tpl_revision := revision; tpl_change := change;
            tpl_summary := tp_summary projection;
            tpl_history_capacity_reached := tp_history_capacity_reached projection;
            tpl_affected_packs := rps_packs affected |}.

(** ** Fingerprint and result digest *)

Definition AcceptanceStatus_tag (s : AcceptanceStatus) : Z :=
  match s with
  | AcceptanceStatus.ReviewRequired => 0
  | AcceptanceStatus.Accepted => 1
  | AcceptanceStatus.Rejected => 2
  end.
Definition enc_selection (tag : Z) (groups : TreatmentSelection) : list byte :=
  enc_tag tag ++ enc_counted 4 enc_id (raw groups).
Definition enc_treatment_action (a : TreatmentAction) : list byte :=
  match a with
  | TreatmentAction.SetAcceptance selection status =>
      enc_selection 0 selection ++ enc_tag (AcceptanceStatus_tag status)
  | TreatmentAction.PlaceHold selection => enc_selection 1 selection
  | TreatmentAction.ReleaseHold hold expected_revision =>
      enc_tag 2 ++ enc_id hold ++ enc_revision expected_revision
  end.
Definition TreatmentCommand_message (self : TreatmentCommand) (hub : HubId) (actor : PublicKey)
    (record : HubRecordId) : list byte :=
  domain_tag "harvestcircle.hub.treatment.command.v1" ++
  enc_hub hub ++ enc_key actor ++ enc_id record ++
  enc_revision (tc_expected_stock_revision self) ++
  enc_revision (tc_expected_catalog_revision self) ++
  enc_treatment_action (tc_action self) ++
  hash_occurrence (tc_occurred self) ++ enc_hub_text (tc_observation self).
Definition TreatmentCommand_fingerprint `{Sha256} (self : TreatmentCommand) (hub : HubId)
    (actor : PublicKey) (record : HubRecordId) : array 32 :=
  digest32 (TreatmentCommand_message self hub actor record).

(** [stamp] and [scope] of the result module. *)
Definition enc_stamp (value : TreatmentStamp) : list byte :=
  enc_id (ts_id value) ++ enc_revision (ts_stock_revision value) ++ enc_key (ts_actor value) ++
  enc_text (basis_id (ts_basis value)) ++ be_bytes 4 (basis_version (ts_basis value)) ++
  enc_text (basis_site_timezone (ts_basis value)) ++ enc_seconds (ts_recorded_at value) ++
  hash_occurrence (ts_occurred value) ++ enc_hub_text (ts_observation value).
Definition enc_anchor (a : PhysicalScopeAnchor) : list byte :=
  enc_id (psa_group a) ++ enc_revision (psa_created_revision a) ++
  enc_packs (psa_captured_packs a).
Definition enc_scope (value : CapturedPhysicalScope) : list byte :=
  enc_hub (cps_hub value) ++ enc_id (cps_trace value) ++ enc_id (cps_variant value) ++
  enc_revision (cps_captured_revision value) ++ enc_counted 4 enc_anchor (cps_anchors value).
Definition enc_bool (b : bool) : list byte := enc_tag (if b then 1 else 0).
Definition enc_change (change : TreatmentChange) : list byte :=
  match change with
  | TreatmentChange.Acceptance value =>
      enc_tag 0 ++ enc_stamp (ad_stamp value) ++ enc_scope (ad_scope value) ++
      enc_tag (AcceptanceStatus_tag (ad_status value))
  | TreatmentChange.HoldPlaced value =>
      enc_tag 1 ++ enc_stamp (hd_stamp value) ++ enc_scope (hd_scope value)
  | TreatmentChange.HoldReleased hold release =>
      enc_tag 2 ++ enc_id hold ++ enc_stamp release
  end.
Definition treatment_result_message (input : array 32) (change : TreatmentChange)
    (summary : TreatmentSummary) (affected : WholePacks) (capacity_reached : bool) : list byte :=
  domain_tag "harvestcircle.hub.treatment.result.v1" ++ raw input ++
  enc_packs (sm_on_hand summary) ++ enc_packs (sm_accepted summary) ++
  enc_packs (sm_review_required summary) ++ enc_packs (sm_rejected summary) ++
  enc_packs (sm_restricted summary) ++ enc_packs (sm_departure_eligible summary) ++
  enc_packs affected ++ enc_bool capacity_reached ++ enc_change change.
Definition treatment_result_digest `{Sha256} (input : array 32) (change : TreatmentChange)
    (summary : TreatmentSummary) (affected : WholePacks) (capacity_reached : bool) : array 32 :=
  digest32 (treatment_result_message input change summary affected capacity_reached).

(** ** What validation establishes *)

Definition revision_of (s : TreatmentStamp) : Z := raw (ts_stock_revision s).

Record stamps_ok (graph : PhysicalLineage) (stamps : list TreatmentStamp) : Prop := {
  sk_ids : NoDup (ts_id <$> stamps);
  sk_revisions : NoDup (revision_of <$> stamps);
  sk_bounds : Forall (fun s => 2 <= revision_of s <= raw (pl_revision graph)) stamps;
  sk_occurred : Forall (fun s => Occurrence_validate (ts_occurred s) (ts_recorded_at s) = Ok tt) stamps
}.

Definition tracks (used : used_stamps) (stamps : list TreatmentStamp) : Prop :=
  (forall k, bs_contains k used.1 = true <-> k ∈ ts_id <$> stamps) /\
  (forall k, bs_contains k used.2 = true <-> k ∈ revision_of <$> stamps).

Lemma tracks_nil : tracks ([], []) [].
Proof. split; intros k; csimpl; rewrite elem_of_nil; done. Qed.

Lemma bs_insert_fresh {K} `{TotalOrd K, EqDecision K} (k : K) s :
  (bs_insert k s).1 = negb (bs_contains k s).
Proof. done. Qed.

Lemma validate_stamp_run graph used v used' stamps :
  tracks used stamps -> stamps_ok graph stamps ->
  validate_stamp graph used v = Ok used' ->
  tracks used' (stamps ++ [v]) /\ stamps_ok graph (stamps ++ [v]).
Proof.
  intros [Hi Hr] [] H. destruct used as [ids revs]. unfold validate_stamp in H.
  cbn [bs_insert] in H. run_ok. breflect.
  assert (ts_id v ∉ ts_id <$> stamps) as Hid.
  { rewrite <- Hi. unfold bs_contains. cbn [fst]. congruence. }
  assert (revision_of v ∉ revision_of <$> stamps) as Hrev.
  { rewrite <- Hr. unfold bs_contains, revision_of. cbn [snd]. congruence. }
  split.
  - split; intros k; cbn [fst snd]; rewrite fmap_app, elem_of_app; csimpl;
      rewrite list_elem_of_singleton, ?(bs_contains_insert k (ts_id v) ids),
      ?(bs_contains_insert k (raw (ts_stock_revision v)) revs).
    + pose proof (bs_contains_insert k (ts_id v) ids) as Hc. cbn [bs_insert snd] in Hc.
      rewrite Hc, orb_true_iff, bool_decide_eq_true, Hi. naive_solver.
    + pose proof (bs_contains_insert k (raw (ts_stock_revision v)) revs) as Hc.
      cbn [bs_insert snd] in Hc.
      rewrite Hc, orb_true_iff, bool_decide_eq_true, Hr. naive_solver.
  - constructor; rewrite ?fmap_app; csimpl; rewrite ?NoDup_snoc, ?list.Forall_app,
      ?list.Forall_singleton; split; try done.
Qed.

(** The scope of a decision or of a hold: taken at the revision before its stamp. *)
Definition scope_valid (graph : PhysicalLineage) (scope : CapturedPhysicalScope)
    (stamp : TreatmentStamp) : Prop :=
  (length (cps_anchors scope) <= HUB_TREATMENT_SELECTION_GROUPS)%nat /\
  revision_of stamp = raw (cps_captured_revision scope) + 1 /\
  exists r, PhysicalLineage_resolve graph scope = Ok r.

Lemma validate_scope_Ok graph scope stamp :
  validate_scope graph scope stamp = Ok tt <-> scope_valid graph scope stamp.
Proof.
  unfold validate_scope, scope_valid, u64_checked_add.
  pose proof (HubRevision_range (cps_captured_revision scope)) as Hr.
  unfold HubRevision_MAXIMUM, i64_MAX in Hr.
  rewrite (proj2 (Z.ltb_lt (raw (cps_captured_revision scope) + 1) (2 ^ 64))) by lia.
  rewrite guard_Ok, orb_false_iff, negb_false_iff, bool_decide_eq_true, Nat.ltb_ge.
  destruct (PhysicalLineage_resolve graph scope) as [r|e]; cbn [map_err bind]; unfold revision_of.
  - split; [intros ((? & [= ?]) & _); split_and!; [done|lia|by exists r]|].
    intros (? & -> & _). done.
  - split; [by intros (_ & ?)|]. by intros (_ & _ & ? & ?).
Qed.

Definition hold_stamps (h : Hold) : list TreatmentStamp := hd_stamp h :: option_list (hd_release h).

Lemma fold_stamps {A} graph (step : used_stamps -> A -> result used_stamps TreatmentError)
    (stamps_of : A -> list TreatmentStamp) (P : A -> Prop) l used used' stamps :
  (forall used a used' stamps, tracks used stamps -> stamps_ok graph stamps ->
     step used a = Ok used' ->
     tracks used' (stamps ++ stamps_of a) /\ stamps_ok graph (stamps ++ stamps_of a) /\ P a) ->
  tracks used stamps -> stamps_ok graph stamps -> try_fold step used l = Ok used' ->
  tracks used' (stamps ++ concat (stamps_of <$> l)) /\ stamps_ok graph (stamps ++ concat (stamps_of <$> l)) /\
  Forall P l.
Proof.
  intros Hstep. revert used stamps. induction l as [|a l IH]; intros used stamps Ht Hs H;
    csimpl in *.
  - simplify_eq. by rewrite app_nil_r.
  - apply bind_Ok in H as (u & Hu & H). apply (Hstep _ _ _ stamps) in Hu as (Ht' & Hs' & Hp);
      [|done..].
    apply (IH _ (stamps ++ stamps_of a)) in H as (? & ? & ?); [|done..]. rewrite <- app_assoc in *.
    split_and!; [done..|by constructor].
Qed.

Definition hold_valid (graph : PhysicalLineage) (h : Hold) : Prop :=
  scope_valid graph (hd_scope h) (hd_stamp h) /\
  forall release, hd_release h = Some release ->
    revision_of (hd_stamp h) < revision_of release.

Definition review_valid (graph : PhysicalLineage) (v : InitialGroupReview) : Prop :=
  cps_captured_revision (igr_scope v) = ts_stock_revision (igr_stamp v) /\
  exists r, PhysicalLineage_resolve graph (igr_scope v) = Ok r.

Definition all_stamps (st : TreatmentState) : list TreatmentStamp :=
  concat ((fun d => [ad_stamp d]) <$> tst_decisions st) ++
  concat (hold_stamps <$> tst_holds st) ++
  concat ((fun v => [igr_stamp v]) <$> tst_initial_reviews st).

Record state_valid (st : TreatmentState) (graph : PhysicalLineage) : Prop := {
  sv_capacity : (TreatmentState_record_count st <= HUB_TREATMENT_RECORDS_PER_TRACE)%nat;
  sv_stamps : stamps_ok graph (all_stamps st);
  sv_decisions : Forall (fun d => scope_valid graph (ad_scope d) (ad_stamp d)) (tst_decisions st);
  sv_holds : Forall (hold_valid graph) (tst_holds st);
  sv_reviews : Forall (review_valid graph) (tst_initial_reviews st)
}.

Lemma stamps_ok_nil graph : stamps_ok graph [].
Proof. constructor; csimpl; try constructor. Qed.

Lemma validate_run st graph : TreatmentState_validate st graph = Ok tt -> state_valid st graph.
Proof.
  unfold TreatmentState_validate. intros H. run_ok. breflect.
  match goal with E : try_fold (validate_decision _) _ _ = _ |- _ =>
    apply (fold_stamps graph _ (fun d => [ad_stamp d])
      (fun d => scope_valid graph (ad_scope d) (ad_stamp d)) _ _ _ []) in E as (Ht1 & Hs1 & Hd);
      [|..|apply tracks_nil|apply stamps_ok_nil] end.
  2:{ intros used a used' stamps Ht Hs Hv. unfold validate_decision in Hv. run_ok.
      match goal with E : validate_scope _ _ _ = _ |- _ => apply validate_scope_Ok in E end.
      match goal with E : validate_stamp _ _ _ = _ |- _ =>
        apply (validate_stamp_run _ _ _ _ stamps) in E as [? ?]; [|done..] end. by split_and!. }
  match goal with E : try_fold (validate_hold _) _ _ = _ |- _ =>
    eapply (fold_stamps graph _ hold_stamps (hold_valid graph) _ _ _ _) in E as (Ht2 & Hs2 & Hh);
      [|..|exact Ht1|exact Hs1] end.
  2:{ intros used a used' stamps Ht Hs Hv. unfold validate_hold in Hv. unfold hold_valid, hold_stamps.
      apply bind_Ok in Hv as (u & Hu & Hv). apply seq_Ok in Hv as [Hsc%validate_scope_Ok Hv].
      apply (validate_stamp_run _ _ _ _ stamps) in Hu as [Ht1' Hs1']; [|done..].
      destruct (hd_release a) as [release|]; csimpl; [|by simplify_eq].
      apply bind_Ok in Hv as (u2 & Hu2 & Hv).
      apply (validate_stamp_run _ _ _ _ (stamps ++ [hd_stamp a])) in Hu2 as [Ht2' Hs2']; [|done..].
      rewrite <- app_assoc in *. run_ok. breflect. split_and!; try done.
      intros ? [= <-]. unfold revision_of. lia. }
  match goal with E : try_fold (validate_review _) _ _ = _ |- _ =>
    eapply (fold_stamps graph _ (fun v => [igr_stamp v]) (review_valid graph) _ _ _ _)
      in E as (Ht3 & Hs3 & Hr); [|..|exact Ht2|exact Hs2] end.
  2:{ intros used a used' stamps Ht Hs Hv. unfold validate_review in Hv. run_ok. breflect.
      match goal with E : validate_stamp _ _ _ = _ |- _ =>
        apply (validate_stamp_run _ _ _ _ stamps) in E as [? ?]; [|done..] end.
      split_and!; try done. split; [done|by eexists]. }
  constructor; try done. unfold all_stamps. rewrite <- app_assoc in Hs3. done.
Qed.

(** ** The summary of a projection *)

(** The packs of the groups that satisfy a condition. *)
Fixpoint packs_where (p : GroupTreatment -> bool) (gs : list GroupTreatment) : Z :=
  match gs with
  | [] => 0
  | g :: gs => (if p g then raw (gt_packs g) else 0) + packs_where p gs
  end.

Definition has_status (s : AcceptanceStatus) (g : GroupTreatment) : bool := gt_acceptance g ==? s.
Definition held (g : GroupTreatment) : bool := negb (is_empty (gt_active_holds g)).
Definition departs (b : SampleHandlingBasis) (g : GroupTreatment) : bool :=
  GroupTreatment_allows g b PhysicalAction.NormalDeparture.

Record summarises (b : SampleHandlingBasis) (gs : list GroupTreatment) (s : TreatmentSummary)
  : Prop := {
  su_on_hand : raw (sm_on_hand s) = packs_where (fun _ => true) gs;
  su_accepted : raw (sm_accepted s) = packs_where (has_status AcceptanceStatus.Accepted) gs;
  su_review : raw (sm_review_required s) =
    packs_where (has_status AcceptanceStatus.ReviewRequired) gs;
  su_rejected : raw (sm_rejected s) = packs_where (has_status AcceptanceStatus.Rejected) gs;
  su_restricted : raw (sm_restricted s) = packs_where held gs;
  su_eligible : raw (sm_departure_eligible s) = packs_where (departs b) gs
}.

Lemma packs_where_app p gs hs : packs_where p (gs ++ hs) = packs_where p gs + packs_where p hs.
Proof. induction gs; simpl; lia. Qed.

Lemma packs_where_bound p gs : 0 <= packs_where p gs <= packs_where (fun _ => true) gs.
Proof.
  induction gs as [|g gs IH]; simpl; [lia|]. pose proof (WholePacks_range (gt_packs g)).
  destruct (p g); lia.
Qed.

Lemma packs_where_sum gs : packs_where (fun _ => true) gs = sum_packs (gt_packs <$> gs).
Proof. induction gs; csimpl; lia. Qed.

Lemma add_packs_Ok c p t t' :
  add_packs c p t = Ok t' <-> raw t' = raw t + (if c then raw p else 0).
Proof.
  unfold add_packs. destruct c; [by rewrite map_err_Ok, checked_add_Ok|].
  split; [intros [= ->]; lia|]. intros H. f_equal. apply refined_eq. lia.
Qed.

Lemma add_packs_total (c : bool) (p t : WholePacks) :
  raw t + (if c then raw p else 0) <= HUB_MAX_WHOLE_PACKS ->
  exists t', add_packs c p t = Ok t'.
Proof.
  intros H. pose proof (WholePacks_range t). pose proof (WholePacks_range p).
  assert (WholePacks_check (raw t + (if c then raw p else 0)) = true) as Hc
    by (apply WholePacks_check_iff; destruct c; lia).
  exists (Refined _ Hc). by apply add_packs_Ok.
Qed.

Lemma summary_add_run b gs s g s' :
  summarises b gs s -> summary_add b s g = Ok s' -> summarises b (gs ++ [g]) s'.
Proof.
  intros [] H. unfold summary_add in H. run_ok.
  repeat match goal with E : add_packs _ _ _ = _ |- _ => apply add_packs_Ok in E end.
  constructor; rewrite packs_where_app; cbn [packs_where sm_on_hand sm_accepted
    sm_review_required sm_rejected sm_restricted sm_departure_eligible];
    unfold has_status, held, departs in *; lia.
Qed.

Lemma summary_add_total b gs s g :
  summarises b gs s ->
  packs_where (fun _ => true) (gs ++ [g]) <= HUB_MAX_WHOLE_PACKS ->
  exists s', summary_add b s g = Ok s'.
Proof.
  intros [] H. rewrite packs_where_app in H. cbn [packs_where] in H.
  pose proof (WholePacks_range (gt_packs g)).
  assert (forall p (t : WholePacks), raw t = packs_where p gs -> forall c,
    exists t', add_packs c (gt_packs g) t = Ok t') as Hadd.
  { intros p t Ht c. apply add_packs_total. pose proof (packs_where_bound p gs). destruct c; lia. }
  unfold summary_add.
  edestruct (Hadd (fun _ => true)) as [? ->]; [done|]. cbn [bind].
  edestruct (Hadd (has_status AcceptanceStatus.Accepted)) as [? ->]; [done|]. cbn [bind].
  edestruct (Hadd (has_status AcceptanceStatus.ReviewRequired)) as [? ->]; [done|]. cbn [bind].
  edestruct (Hadd (has_status AcceptanceStatus.Rejected)) as [? ->]; [done|]. cbn [bind].
  edestruct (Hadd held) as [? ->]; [done|]. cbn [bind].
  edestruct (Hadd (departs b)) as [? ->]; [done|]. by eexists.
Qed.

(** The relations [TreatmentSummary::validate] checks always hold. *)
Lemma summary_validate_total b gs s :
  summarises b gs s -> packs_where (fun _ => true) gs <= HUB_MAX_WHOLE_PACKS ->
  TreatmentSummary_validate s = Ok tt.
Proof.
  intros [Ho Ha Hrv Hrj Hrs He] Hm.
  assert (packs_where (has_status AcceptanceStatus.Accepted) gs +
          packs_where (has_status AcceptanceStatus.ReviewRequired) gs +
          packs_where (has_status AcceptanceStatus.Rejected) gs = packs_where (fun _ => true) gs /\
          packs_where (departs b) gs <= packs_where (has_status AcceptanceStatus.Accepted) gs /\
          packs_where (has_status AcceptanceStatus.Accepted) gs <=
            packs_where (departs b) gs + packs_where held gs /\
          packs_where (departs b) gs + packs_where held gs <= packs_where (fun _ => true) gs)
    as (H1 & H2 & H3 & H4).
  { clear. induction gs as [|g gs IH]; cbn [packs_where]; [lia|].
    pose proof (WholePacks_range (gt_packs g)).
    assert (departs b g = has_status AcceptanceStatus.Accepted g && negb (held g)) as ->.
    { unfold departs, held, has_status. destruct b. simpl. by rewrite negb_involutive. }
    assert (forall st, has_status st g = (gt_acceptance g ==? st)) as Hst by done.
    rewrite !Hst. destruct (held g), (gt_acceptance g); cbn [andb negb];
      repeat case_bool_decide; try congruence; cbn [andb negb]; lia. }
  pose proof (packs_where_bound held gs). pose proof (packs_where_bound (departs b) gs).
  pose proof (WholePacks_range (sm_rejected s)). pose proof (WholePacks_range (sm_on_hand s)).
  destruct (checked_add_total (sm_accepted s) (sm_review_required s)) as (v & Hv & Ev); [lia|].
  destruct (checked_add_total v (sm_rejected s)) as (w & Hw & Ew); [lia|].
  unfold TreatmentSummary_validate, u32_saturating_sub. rewrite Hv. cbn [bind]. rewrite Hw.
  cbn [bind map_err]. rewrite bool_decide_eq_true_2 by (apply refined_eq; lia). cbn [negb orb].
  rewrite !(proj2 (Z.ltb_ge _ _)) by lia. done.
Qed.

(** ** The groups of a projection *)

Lemma bt_get_remove_ne {K V} `{TotalOrd K, EqDecision K} (k k' : K) (m : list (K * V)) :
  k <> k' -> bt_get k (bt_remove k' m) = bt_get k m.
Proof.
  intros Hk. induction m as [|[k1 v] m IH]; simpl; [done|].
  case_bool_decide as E; simpl; case_bool_decide; try congruence; done.
Qed.

Lemma project_node_ext acceptance r r' n :
  bt_get (pln_id n) r = bt_get (pln_id n) r' ->
  project_node acceptance r n = project_node acceptance r' n.
Proof. unfold project_node. by intros ->. Qed.

Lemma project_loop_run b acceptance ns gs0 s r s' gs' r' :
  NoDup (pln_id <$> ns) -> summarises b gs0 s ->
  try_fold (project_step b acceptance) (s, gs0, r) ns = Ok (s', gs', r') ->
  gs' = gs0 ++ (project_node acceptance r <$> ns) /\ summarises b gs' s'.
Proof.
  revert gs0 s r. induction ns as [|n ns IH]; intros gs0 s r Hn Hs H; csimpl in *.
  - simplify_eq. by rewrite app_nil_r.
  - apply bind_Ok in H as ([[s1 gs1] r1] & H1 & H). cbn [project_step] in H1. run_ok. simplify_eq.
    match goal with E : summary_add _ _ _ = _ |- _ =>
      apply (summary_add_run _ gs0) in E; [|done] end.
    apply NoDup_cons in Hn as [Hn Hns].
    apply IH in H as [-> ?]; [|done..]. split; [|done]. rewrite <- app_assoc. simpl. do 2 f_equal.
    apply list_fmap_ext. intros i m Hm. apply project_node_ext, bt_get_remove_ne.
    intros E. apply Hn. rewrite <- E. apply list_elem_of_fmap_2. by eapply list_elem_of_lookup_2.
Qed.

Lemma project_loop_total b acceptance ns gs0 s r :
  summarises b gs0 s ->
  packs_where (fun _ => true) gs0 + sum_packs (pln_packs <$> ns) <= HUB_MAX_WHOLE_PACKS ->
  exists out, try_fold (project_step b acceptance) (s, gs0, r) ns = Ok out.
Proof.
  revert gs0 s r. induction ns as [|n ns IH]; intros gs0 s r Hs Hm; csimpl in *; [by eexists|].
  pose proof (sum_packs_nonneg (pln_packs <$> ns)).
  destruct (summary_add_total b gs0 s (project_node acceptance r n)) as [s1 H1]; [done| |].
  { rewrite packs_where_app. cbn [packs_where]. simpl. lia. }
  cbn [project_step bind]. rewrite H1. cbn [bind]. apply IH; [by eapply summary_add_run|].
  rewrite packs_where_app. simpl. lia.
Qed.

(** ** Standing decisions and active holds *)

(** A scope covers a node that is of the cohort of one of its anchors. *)
Abbreviation covers graph scope n := (in_scope graph scope n) (only parsing).

(** A recorded decision or birth review, with the status it gives. *)
Definition treatment_record : Type := TreatmentStamp * AcceptanceStatus * CapturedPhysicalScope.
Definition record_stamp (r : treatment_record) : TreatmentStamp := r.1.1.
Definition record_status (r : treatment_record) : AcceptanceStatus := r.1.2.
Definition record_scope_of (r : treatment_record) : CapturedPhysicalScope := r.2.

Definition treatment_records (st : TreatmentState) : list treatment_record :=
  ((fun d => (ad_stamp d, ad_status d, ad_scope d)) <$> tst_decisions st) ++
  ((fun v => (igr_stamp v, AcceptanceStatus.ReviewRequired, igr_scope v)) <$>
     tst_initial_reviews st).

(** The last record that covers a node, among a list of records. *)
Definition latest (graph : PhysicalLineage) (records : list treatment_record)
    (n : PhysicalLineageNode) (o : option (TreatmentStamp * AcceptanceStatus)) : Prop :=
  match o with
  | None => forall r, r ∈ records -> ~ covers graph (record_scope_of r) n
  | Some (stamp, status) =>
      (exists scope, (stamp, status, scope) ∈ records /\ covers graph scope n) /\
      forall r, r ∈ records -> covers graph (record_scope_of r) n ->
        revision_of (record_stamp r) <= revision_of stamp
  end.

Lemma resolve_groups graph scope r n :
  lineage_wf graph -> PhysicalLineage_resolve graph scope = Ok r ->
  n ∈ rps_groups r <-> n ∈ pl_nodes graph /\ 0 < raw (pln_packs n) /\ covers graph scope n.
Proof.
  intros Hwf H. apply resolve_union_run in H as (_ & _ & Hr); [|done].
  rewrite (rs_groups _ _ _ Hr). setoid_rewrite list_elem_of_singleton. naive_solver.
Qed.

Lemma resolve_groups_NoDup graph scope r :
  lineage_wf graph -> PhysicalLineage_resolve graph scope = Ok r -> NoDup (pln_id <$> rps_groups r).
Proof.
  intros Hwf H. apply resolve_union_run in H as (_ & _ & Hr); [|done].
  apply key_sorted_NoDup, (rs_sorted _ _ _ Hr).
Qed.

(** What a record does to the slot of a node it covers. *)
Definition supersede (stamp : TreatmentStamp) (status : AcceptanceStatus)
    (o : option (TreatmentStamp * AcceptanceStatus)) : option (TreatmentStamp * AcceptanceStatus) :=
  match o with
  | Some (entry, s) =>
      if raw (ts_stock_revision entry) <? raw (ts_stock_revision stamp)
      then Some (stamp, status) else Some (entry, s)
  | None => Some (stamp, status)
  end.

Lemma supersede_idem stamp status o :
  supersede stamp status (supersede stamp status o) = supersede stamp status o.
Proof.
  destruct o as [[e s]|]; simpl; [|by rewrite Z.ltb_irrefl].
  destruct (_ <? _) eqn:E; simpl; [by rewrite Z.ltb_irrefl|by rewrite E].
Qed.

Lemma record_acceptance_get stamp status m n k :
  bt_get k (record_acceptance stamp status m n) =
  if decide (pln_id n = k) then supersede stamp status (bt_get k m) else bt_get k m.
Proof.
  unfold record_acceptance, supersede. case_decide as E.
  - subst k. destruct (bt_get (pln_id n) m) as [[e s]|] eqn:Eg; [destruct (_ <? _)|];
      rewrite ?bt_get_insert, ?decide_True by done; done.
  - destruct (bt_get (pln_id n) m) as [[e s]|]; [destruct (_ <? _)|];
      rewrite ?bt_get_insert, ?decide_False by done; done.
Qed.

Lemma record_fold_get stamp status ns m k :
  bt_get k (foldl (record_acceptance stamp status) m ns) =
  if decide (k ∈ pln_id <$> ns) then supersede stamp status (bt_get k m) else bt_get k m.
Proof.
  revert m. induction ns as [|n ns IH]; intros m.
  - destruct (decide (k ∈ pln_id <$> [])) as [Hx|]; [by apply not_elem_of_nil in Hx|done].
  - csimpl. rewrite IH, record_acceptance_get. destruct (decide (pln_id n = k)) as [->|Hne].
    + rewrite (decide_True (P := k ∈ k :: _)) by (by left). case_decide; [apply supersede_idem|done].
    + repeat case_decide; try done; set_solver.
Qed.

Lemma latest_supersede graph records n o stamp status scope :
  latest graph records n o -> covers graph scope n ->
  latest graph (records ++ [(stamp, status, scope)]) n (supersede stamp status o).
Proof.
  intros Hl Hc. destruct o as [[e s]|]; simpl in *.
  - destruct Hl as [(sc & Hin & Hsc) Hmax]. fold (revision_of e) (revision_of stamp).
    destruct (Z.ltb_spec (revision_of e) (revision_of stamp)) as [Hlt|Hge]; split.
    + exists scope. split; [set_solver|done].
    + intros r [Hr| ->%list_elem_of_singleton]%elem_of_app Hrc; [|done].
      specialize (Hmax r Hr Hrc). lia.
    + exists sc. split; [set_solver|done].
    + intros r [Hr| ->%list_elem_of_singleton]%elem_of_app Hrc; [by apply Hmax|]. exact Hge.
  - split; [exists scope; split; [set_solver|done]|].
    intros r [Hr| ->%list_elem_of_singleton]%elem_of_app Hrc; [by destruct (Hl r Hr)|done].
Qed.

Lemma latest_skip graph records n o r :
  latest graph records n o -> ~ covers graph (record_scope_of r) n ->
  latest graph (records ++ [r]) n o.
Proof.
  intros Hl Hc. destruct o as [[e s]|]; simpl in *.
  - destruct Hl as [(sc & Hin & Hsc) Hmax]. split; [exists sc; split; [set_solver|done]|].
    intros r' [Hr| ->%list_elem_of_singleton]%elem_of_app Hrc; [by apply Hmax|done].
  - intros r' [Hr| ->%list_elem_of_singleton]%elem_of_app; [by apply Hl|done].
Qed.

Definition record_step (graph : PhysicalLineage) (m : acceptance_map) (r : treatment_record)
  : result acceptance_map TreatmentError :=
  record_scope graph (record_scope_of r) (record_stamp r) (record_status r) m.

Lemma project_acceptance_fold st graph :
  project_acceptance st graph = try_fold (record_step graph) [] (treatment_records st).
Proof.
  unfold treatment_records. rewrite try_fold_app, try_fold_fmap. unfold project_acceptance.
  change (fun (b : acceptance_map) c => record_step graph b (ad_stamp c, ad_status c, ad_scope c))
    with (fun m d => record_scope graph (ad_scope d) (ad_stamp d) (ad_status d) m).
  destruct (try_fold _ _ _) as [m|]; cbn [bind]; [by rewrite try_fold_fmap|done].
Qed.

Lemma record_steps_run graph records0 m records m' :
  lineage_wf graph ->
  (forall n, n ∈ pl_nodes graph -> 0 < raw (pln_packs n) ->
     latest graph records0 n (bt_get (pln_id n) m)) ->
  try_fold (record_step graph) m records = Ok m' ->
  forall n, n ∈ pl_nodes graph -> 0 < raw (pln_packs n) ->
    latest graph (records0 ++ records) n (bt_get (pln_id n) m').
Proof.
  intros Hwf. revert records0 m. induction records as [|r records IH]; intros records0 m Hl H;
    simpl in H.
  - simplify_eq. by rewrite app_nil_r.
  - apply bind_Ok in H as (m1 & Hm1 & H). unfold record_step, record_scope in Hm1. run_ok.
    match goal with E : PhysicalLineage_resolve _ _ = Ok ?v |- _ => rename E into Hr, v into res end.
    intros n Hn Hp. replace (records0 ++ r :: records) with ((records0 ++ [r]) ++ records)
      by (by rewrite <- app_assoc).
    eapply IH; [|exact H|done..]. clear n Hn Hp. intros n Hn Hp. rewrite record_fold_get.
    destruct (decide (pln_id n ∈ pln_id <$> rps_groups res)) as [Hin|Hin].
    + assert (covers graph (record_scope_of r) n) as Hc.
      { apply list_elem_of_fmap in Hin as (n' & Hid & Hin).
        apply (resolve_groups _ _ _ _ Hwf Hr) in Hin as (Hn' & _ & Hc).
        by rewrite (wf_node_inj graph Hwf n n' Hn Hn' Hid). }
      destruct r as [[stamp status] scope]. apply latest_supersede; [by apply Hl|done].
    + apply latest_skip; [by apply Hl|]. intros Hc. apply Hin, list_elem_of_fmap_2.
      by apply (resolve_groups _ _ _ _ Hwf Hr).
Qed.

Lemma record_steps_total graph m records :
  Forall (fun r => exists res, PhysicalLineage_resolve graph (record_scope_of r) = Ok res) records ->
  exists m', try_fold (record_step graph) m records = Ok m'.
Proof.
  revert m. induction records as [|r records IH]; intros m H; simpl; [by eexists|].
  apply list.Forall_cons in H as [[res Hr] H]. unfold record_step at 1, record_scope.
  rewrite Hr. cbn [map_err bind]. by apply IH.
Qed.

Definition hold_id (h : Hold) : HubRecordId := ts_id (hd_stamp h).
Definition holds_at (m : list (HubRecordId * list HubRecordId)) (k : HubRecordId)
  : list HubRecordId :=
  match bt_get k m with Some l => l | None => [] end.

Lemma record_hold_fold h ns m k x :
  NoDup (pln_id <$> ns) ->
  x ∈ holds_at (foldl (record_hold h) m ns) k <->
  x ∈ holds_at m k \/ (x = h /\ k ∈ pln_id <$> ns).
Proof.
  revert m. induction ns as [|n ns IH]; intros m Hn; csimpl.
  - rewrite elem_of_nil. naive_solver.
  - apply NoDup_cons in Hn as [Hn Hns]. rewrite IH by done. unfold record_hold, holds_at.
    rewrite bt_get_insert, elem_of_cons. case_decide as E.
    + subst k. rewrite elem_of_app, list_elem_of_singleton. naive_solver.
    + naive_solver.
Qed.

Definition hold_step (graph : PhysicalLineage) (m : list (HubRecordId * list HubRecordId))
    (h : Hold) : result (list (HubRecordId * list HubRecordId)) TreatmentError :=
  let? resolved := map_err TreatmentError.Scope (PhysicalLineage_resolve graph (hd_scope h)) in
  Ok (foldl (record_hold (hold_id h)) m (rps_groups resolved)).

Lemma hold_steps_run graph hs m m' :
  lineage_wf graph -> try_fold (hold_step graph) m hs = Ok m' ->
  forall n, n ∈ pl_nodes graph -> 0 < raw (pln_packs n) -> forall x,
    x ∈ holds_at m' (pln_id n) <->
    x ∈ holds_at m (pln_id n) \/
    exists h, h ∈ hs /\ hold_id h = x /\ covers graph (hd_scope h) n.
Proof.
  intros Hwf. revert m. induction hs as [|h hs IH]; intros m H n Hn Hp x; simpl in H.
  - simplify_eq. setoid_rewrite elem_of_nil. naive_solver.
  - apply bind_Ok in H as (m1 & Hm1 & H). unfold hold_step in Hm1. run_ok.
    match goal with E : PhysicalLineage_resolve _ _ = Ok ?v |- _ => rename E into Hr, v into res end.
    rewrite (IH _ H n Hn Hp), record_hold_fold by by eapply resolve_groups_NoDup.
    setoid_rewrite elem_of_cons.
    assert (pln_id n ∈ pln_id <$> rps_groups res <-> covers graph (hd_scope h) n) as Hc.
    { rewrite list_elem_of_fmap. setoid_rewrite (resolve_groups _ _ _ _ Hwf Hr). split.
      - intros (n' & Hid & Hn' & _ & Hc). by rewrite (wf_node_inj graph Hwf n n' Hn Hn' Hid).
      - intros Hc. by exists n. }
    rewrite Hc. naive_solver.
Qed.

Lemma hold_steps_total graph hs m :
  Forall (fun h => exists res, PhysicalLineage_resolve graph (hd_scope h) = Ok res) hs ->
  exists m', try_fold (hold_step graph) m hs = Ok m'.
Proof.
  revert m. induction hs as [|h hs IH]; intros m H; simpl; [by eexists|].
  apply list.Forall_cons in H as [[res Hr] H]. unfold hold_step at 1.
  rewrite Hr. cbn [map_err bind]. by apply IH.
Qed.

(** What one group of a projection says about its node. *)
Record group_treated (st : TreatmentState) (graph : PhysicalLineage) (n : PhysicalLineageNode)
    (g : GroupTreatment) : Prop := {
  gr_group : gt_group g = pln_id n;
  gr_packs : gt_packs g = pln_packs n;
  gr_standing : exists o, latest graph (treatment_records st) n o /\
    gt_acceptance g = from_option snd AcceptanceStatus.ReviewRequired o /\
    gt_acceptance_decision g = (fun d => ts_id d.1) <$> o;
  gr_holds h : h ∈ gt_active_holds g <->
    exists hold, hold ∈ tst_holds st /\ hd_release hold = None /\ hold_id hold = h /\
      covers graph (hd_scope hold) n;
  gr_holds_sorted : StronglySorted kle (gt_active_holds g)
}.

Definition stocked (graph : PhysicalLineage) : list PhysicalLineageNode :=
  filter (fun n => 0 < raw (pln_packs n)) (pl_nodes graph).

Record projects (st : TreatmentState) (graph : PhysicalLineage) (b : SampleHandlingBasis)
    (p : TreatmentProjection) : Prop := {
  pj_revision : tp_revision p = pl_revision graph;
  pj_basis : tp_basis p = b;
  pj_capacity : tp_history_capacity_reached p = true <->
    TreatmentState_record_count st = HUB_TREATMENT_RECORDS_PER_TRACE;
  pj_groups : Forall2 (group_treated st graph) (stocked graph) (tp_groups p);
  pj_summary : summarises b (tp_groups p) (tp_summary p)
}.

Lemma stocked_NoDup graph : lineage_wf graph -> NoDup (pln_id <$> stocked graph).
Proof.
  intros Hwf. pose proof (key_sorted_NoDup pln_id _ (lw_sorted _ Hwf)) as Hn.
  apply NoDup_fmap_2_strong.
  - intros n m Hn' Hm'. apply list_elem_of_filter in Hn' as [_ ?], Hm' as [_ ?].
    by apply (wf_node_inj graph Hwf).
  - apply NoDup_filter. by eapply NoDup_fmap_1.
Qed.

Lemma stocked_total graph :
  lineage_wf graph -> sum_packs (pln_packs <$> stocked graph) <= HUB_MAX_WHOLE_PACKS.
Proof.
  intros Hwf. etransitivity; [|apply (lw_total _ Hwf)].
  apply sum_packs_submseteq, fmap_submseteq, sublist_submseteq, sublist_filter.
Qed.

Lemma summarises_nil b : summarises b [] zero_summary.
Proof. by constructor. Qed.

Lemma project_node_treated st graph acceptance restrictions n :
  lineage_wf graph -> project_acceptance st graph = Ok acceptance ->
  project_holds st graph = Ok restrictions -> n ∈ stocked graph ->
  group_treated st graph n (project_node acceptance restrictions n).
Proof.
  intros Hwf Ha Hh [Hp Hn]%list_elem_of_filter. rewrite project_acceptance_fold in Ha.
  pose proof (record_steps_run graph [] [] _ _ Hwf (fun n _ _ r Hr => False_ind _
    (proj1 (elem_of_nil r) Hr)) Ha n Hn Hp) as Hl. cbn [app] in Hl.
  pose proof (hold_steps_run graph _ [] _ Hwf Hh n Hn Hp) as Hho.
  constructor; try done.
  - exists (bt_get (pln_id n) acceptance). split; [done|]. unfold project_node. cbn.
    destruct (bt_get (pln_id n) acceptance) as [[? ?]|]; done.
  - intros h. unfold project_node. cbn [gt_active_holds]. rewrite elem_of_sort_by_key.
    fold (holds_at restrictions (pln_id n)). rewrite Hho. unfold holds_at. simpl.
    rewrite elem_of_nil. setoid_rewrite list_elem_of_filter. naive_solver.
  - apply (sort_by_key_sorted id).
Qed.

Lemma project_run st graph b p :
  lineage_wf graph -> TreatmentState_project st graph b = Ok p ->
  state_valid st graph /\ projects st graph b p.
Proof.
  intros Hwf H. unfold TreatmentState_project in H. run_ok.
  match goal with E : TreatmentState_validate _ _ = _ |- _ => apply validate_run in E end.
  match goal with E : try_fold (project_step _ _) _ _ = _ |- _ =>
    apply (project_loop_run b _ _ []) in E as [Hg Hs];
      [|by apply stocked_NoDup|apply summarises_nil] end.
  split; [done|]. constructor; simpl; try done; [apply Nat.eqb_eq|].
  simpl in Hg. rewrite Hg. apply Forall2_fmap_r, Forall_Forall2_diag, list.Forall_forall.
  intros n Hn. by eapply project_node_treated.
Qed.

(** On a well-formed lineage the projection exists exactly when the stored
    history is valid: resolving the recorded scopes, adding up the packs and the
    consistency checks of the summary never fail after validation. *)
Theorem project_total st graph b :
  lineage_wf graph ->
  (exists p, TreatmentState_project st graph b = Ok p) <->
  TreatmentState_validate st graph = Ok tt.
Proof.
  intros Hwf. unfold TreatmentState_project. split; [intros [p H]; by run_ok|].
  intros Hv. rewrite Hv. cbn [bind]. apply validate_run in Hv as [_ _ Hd Hh Hr].
  rewrite project_acceptance_fold.
  destruct (record_steps_total graph [] (treatment_records st)) as [m ->].
  { unfold treatment_records. apply list.Forall_app. split; apply list.Forall_fmap;
      (eapply list.Forall_impl; [eassumption|]); intros x; simpl; unfold scope_valid, review_valid;
      naive_solver. }
  cbn [bind]. destruct (hold_steps_total graph
    (filter (fun hold => hd_release hold = None) (tst_holds st)) []) as [hm Hm].
  { apply list.Forall_forall. intros h [_ Hin]%list_elem_of_filter.
    rewrite list.Forall_forall in Hh. by apply Hh in Hin as [(_ & _ & ?) _]. }
  unfold project_holds. unfold hold_step, hold_id in Hm. rewrite Hm. cbn [bind].
  destruct (project_loop_total b m (stocked graph) [] zero_summary hm) as [[[s gs] r] Hl];
    [apply summarises_nil|simpl; by apply stocked_total|].
  unfold stocked in Hl. rewrite Hl. cbn [bind].
  apply (project_loop_run b _ _ []) in Hl as [Hg Hs];
    [|by apply stocked_NoDup|apply summarises_nil].
  rewrite (summary_validate_total b gs s Hs); [by eexists|].
  rewrite packs_where_sum, Hg. simpl. rewrite <- list_fmap_compose. by apply stocked_total.
Qed.

(** C4: the projection lists exactly the nodes that hold packs, in order; each
    group's acceptance is that of the decision or birth review with the highest
    stock revision whose captured scope covers it, and review is required when
    there is none; its active holds are exactly the unreleased holds that cover
    it; and the summary adds up the packs of those groups. *)
Theorem project_correct st graph b p :
  lineage_wf graph -> TreatmentState_project st graph b = Ok p -> projects st graph b p.
Proof. intros Hwf H. by apply project_run in H as [_ ?]. Qed.

(** ** The departure gate *)

Lemma concat_singletons {A B} (f : A -> B) l : concat ((fun a => [f a]) <$> l) = f <$> l.
Proof. induction l; csimpl; congruence. Qed.

Lemma records_distinct st graph :
  state_valid st graph -> NoDup ((fun r => revision_of (record_stamp r)) <$> treatment_records st).
Proof.
  intros Hv. pose proof (sk_revisions _ _ (sv_stamps _ _ Hv)) as Hn. unfold all_stamps in Hn.
  rewrite !fmap_app, !concat_singletons in Hn.
  unfold treatment_records. rewrite fmap_app, <- !list_fmap_compose.
  apply NoDup_app in Hn as (H1 & Hd & (_ & _ & H3)%NoDup_app).
  rewrite <- list_fmap_compose in H1. rewrite <- list_fmap_compose in H3. apply NoDup_app. split_and!; [done| |done].
  intros x Hx Hy. apply (Hd x); [by rewrite <- list_fmap_compose|].
  apply elem_of_app. right. by rewrite <- list_fmap_compose.
Qed.

Lemma latest_unique st graph n o o' :
  state_valid st graph ->
  latest graph (treatment_records st) n o -> latest graph (treatment_records st) n o' -> o = o'.
Proof.
  intros Hv. pose proof (records_distinct _ _ Hv) as Hn.
  destruct o as [[s a]|], o' as [[s' a']|]; simpl; try done.
  - intros [(sc & Hin & Hc) Hm] [(sc' & Hin' & Hc') Hm'].
    assert ((s, a, sc) = (s', a', sc')) as [= -> ->]; [|done].
    apply (NoDup_fmap_elem _ _ _ _ Hn Hin Hin'). apply Z.le_antisymm.
    + by apply (Hm' _ Hin).
    + by apply (Hm _ Hin').
  - intros [(sc & Hin & Hc) _] Hno. by destruct (Hno _ Hin).
  - intros Hno [(sc & Hin & Hc) _]. by destruct (Hno _ Hin).
Qed.

Lemma treated_ids st graph ns gs :
  Forall2 (group_treated st graph) ns gs -> gt_group <$> gs = pln_id <$> ns.
Proof.
  induction 1 as [|n g ns gs H _ IH]; [done|]. csimpl. by rewrite IH, (gr_group _ _ _ _ H).
Qed.

Lemma projected_group_Some st graph b p k g :
  lineage_wf graph -> projects st graph b p ->
  projected_group p k = Some g <->
  exists n, n ∈ pl_nodes graph /\ 0 < raw (pln_packs n) /\ pln_id n = k /\ g ∈ tp_groups p /\
    group_treated st graph n g.
Proof.
  intros Hwf Hp. pose proof (pj_groups _ _ _ _ Hp) as Hg. unfold projected_group. split.
  - intros [Hin Hk]%List.find_some. apply bool_decide_eq_true in Hk.
    apply list_elem_of_In in Hin. pose proof Hin as (i & Hi)%list_elem_of_lookup.
    destruct (Forall2_lookup_r _ _ _ _ _ Hg Hi) as (n & Hn & Ht).
    apply list_elem_of_lookup_2, list_elem_of_filter in Hn as [? ?].
    exists n. split_and!; try done. by rewrite <- (gr_group _ _ _ _ Ht).
  - intros (n & Hn & Hpk & <- & Hin & Ht).
    assert (NoDup (gt_group <$> tp_groups p)) as Hnd.
    { rewrite (treated_ids _ _ _ _ Hg). by apply stocked_NoDup. }
    destruct (List.find _ _) as [g'|] eqn:E.
    + apply List.find_some in E as [Hin' Hk]. apply bool_decide_eq_true in Hk.
      apply list_elem_of_In in Hin'. f_equal. apply (NoDup_fmap_elem _ _ _ _ Hnd Hin' Hin).
      by rewrite Hk, (gr_group _ _ _ _ Ht).
    + apply list_elem_of_In in Hin. apply (List.find_none _ _ E) in Hin.
      apply bool_decide_eq_false in Hin. by rewrite (gr_group _ _ _ _ Ht) in Hin.
Qed.

Lemma stocked_treated st graph b p n :
  projects st graph b p -> n ∈ pl_nodes graph -> 0 < raw (pln_packs n) ->
  exists g, g ∈ tp_groups p /\ group_treated st graph n g.
Proof.
  intros Hp Hn Hpk. pose proof (pj_groups _ _ _ _ Hp) as Hg.
  assert (n ∈ stocked graph) as (i & Hi)%list_elem_of_lookup by (by apply list_elem_of_filter).
  destruct (Forall2_lookup_l _ _ _ _ _ Hg Hi) as (g & Hgi & Ht). exists g.
  split; [by eapply list_elem_of_lookup_2|done].
Qed.

(** May leave the hub: the standing record accepts it and no open hold covers it. *)
Definition cleared (st : TreatmentState) (graph : PhysicalLineage) (n : PhysicalLineageNode)
  : Prop :=
  (exists stamp, latest graph (treatment_records st) n (Some (stamp, AcceptanceStatus.Accepted))) /\
  forall hold, hold ∈ tst_holds st -> hd_release hold = None -> ~ covers graph (hd_scope hold) n.

Lemma departs_cleared st graph b n g :
  state_valid st graph -> group_treated st graph n g -> departs b g = true <-> cleared st graph n.
Proof.
  intros Hv Ht. unfold departs, GroupTreatment_allows, cleared. destruct b.
  rewrite andb_true_iff, bool_decide_eq_true.
  destruct (gr_standing _ _ _ _ Ht) as (o & Hl & Ha & _).
  assert (is_empty (gt_active_holds g) = true <->
    forall hold, hold ∈ tst_holds st -> hd_release hold = None -> ~ covers graph (hd_scope hold) n)
    as Hh.
  { pose proof (gr_holds _ _ _ _ Ht) as Hiff.
    destruct (gt_active_holds g) as [|h hs]; simpl; split; try done.
    - intros _ hold Hin Hr Hc. apply (not_elem_of_nil (hold_id hold)). apply Hiff. by exists hold.
    - intros Hno. destruct (proj1 (Hiff h)) as (hold & Hin & Hr & _ & Hc); [by left|].
      by destruct (Hno hold Hin Hr). }
  rewrite Hh, Ha. apply and_iff_compat_r. split.
  - destruct o as [[s a]|]; simpl; [intros ->; by exists s|done].
  - intros [s Hl']. by rewrite (latest_unique _ _ _ _ _ Hv Hl Hl').
Qed.

Lemma departure_gate_iff st graph b p selection :
  lineage_wf graph -> TreatmentState_project st graph b = Ok p ->
  TreatmentProjection_require p selection PhysicalAction.NormalDeparture = Ok tt <->
  TreatmentState_record_count st <> HUB_TREATMENT_RECORDS_PER_TRACE /\
  Forall (fun k => exists n, n ∈ pl_nodes graph /\ 0 < raw (pln_packs n) /\ pln_id n = k /\
    cleared st graph n) (raw selection).
Proof.
  intros Hwf H. apply project_run in H as [Hv Hp]; [|done].
  unfold TreatmentProjection_require. rewrite bool_decide_eq_true_2 by done. cbn [andb].
  rewrite guard_Ok, <- not_true_iff_false, (pj_capacity _ _ _ _ Hp), try_for_each_Ok.
  apply and_iff_compat_l, list.Forall_iff. intros k. rewrite bind_Ok. setoid_rewrite ok_or_Ok.
  setoid_rewrite guard_Ok. setoid_rewrite negb_false_iff.
  setoid_rewrite (projected_group_Some _ _ _ _ _ _ Hwf Hp). rewrite (pj_basis _ _ _ _ Hp). split.
  - intros (g & (n & ? & ? & ? & ? & Ht) & Hd & _). exists n. split_and!; try done.
    by apply (departs_cleared _ _ b _ g).
  - intros (n & Hn & Hpk & Hk & Hc). destruct (stocked_treated _ _ _ _ _ Hp Hn Hpk) as (g & Hg & Ht).
    exists g. split; [by exists n|]. split; [|done]. by apply (departs_cleared st graph b n).
Qed.

(** C8: a selection may depart exactly when the history has room for another
    record and every selected group holds packs, is accepted by its standing
    record and is covered by no unreleased hold. *)
Theorem departure_gate st graph b p selection :
  lineage_wf graph -> TreatmentState_project st graph b = Ok p ->
  TreatmentProjection_require p selection PhysicalAction.NormalDeparture = Ok tt <->
  TreatmentState_record_count st <> HUB_TREATMENT_RECORDS_PER_TRACE /\
  Forall (fun k => exists n, n ∈ pl_nodes graph /\ 0 < raw (pln_packs n) /\ pln_id n = k /\
    cleared st graph n) (raw selection).
Proof. apply departure_gate_iff. Qed.

(** ** What a planned treatment does *)

(** The lineage at the next stock revision. *)
Definition advance (graph : PhysicalLineage) (revision : HubRevision) : PhysicalLineage :=
  {| pl_hub := pl_hub graph; pl_trace := pl_trace graph; pl_variant := pl_variant graph;
     pl_revision := revision; pl_nodes := pl_nodes graph |}.

Lemma advance_new graph revision l :
  lineage_wf graph ->
  PhysicalLineage_new (pl_hub graph) (pl_trace graph) (pl_variant graph) revision (pl_nodes graph)
    = Ok l -> l = advance graph revision /\ lineage_wf l.
Proof.
  intros Hwf H. apply PhysicalLineage_new_Ok in H as (H1 & H2 & H3 & H4 & Hp & Hl).
  split; [|done]. destruct l as [h t v r ns]; simpl in *; subst. unfold advance. f_equal.
  symmetry. by apply (key_sorted_unique pln_id); [apply Hwf|apply Hl|].
Qed.

Lemma captured_covers graph graph' selected s k :
  lineage_wf graph -> PhysicalLineage_capture graph selected = Ok s -> k ∈ selected ->
  pl_nodes graph' = pl_nodes graph ->
  exists n, n ∈ pl_nodes graph /\ pln_id n = k /\ 0 < raw (pln_packs n) /\ covers graph' s n.
Proof.
  intros Hwf H Hk Hn. apply capture_run in H as Hc; [|done].
  rewrite (cs_groups _ _ _ Hc) in Hk. apply list_elem_of_fmap in Hk as (a & -> & Ha).
  pose proof (cs_anchors _ _ _ Hc) as Hf. rewrite list.Forall_forall in Hf.
  destruct (Hf a Ha) as (n & Hin & Hp & ->). exists n. split_and!; try done.
  exists (anchor_of n). split; [done|]. constructor; [by rewrite Hn|done].
Qed.

(** The state a change leaves, and the groups it is about. *)
Definition after_change (st : TreatmentState) (action : TreatmentAction)
    (stamp : TreatmentStamp) (st' : TreatmentState) (p : TreatmentProjection) : Prop :=
  match action with
  | TreatmentAction.SetAcceptance selection status =>
      tst_holds st' = tst_holds st /\
      Forall (fun k => exists g, projected_group p k = Some g /\ gt_acceptance g = status /\
        gt_acceptance_decision g = Some (ts_id stamp)) (raw selection)
  | TreatmentAction.PlaceHold selection =>
      tst_decisions st' = tst_decisions st /\
      Forall (fun k => exists g, projected_group p k = Some g /\
        ts_id stamp ∈ gt_active_holds g /\
        GroupTreatment_allows g (tp_basis p) PhysicalAction.NormalDeparture = false) (raw selection)
  | TreatmentAction.ReleaseHold hold _ =>
      tst_decisions st' = tst_decisions st /\
      Forall (fun g => hold ∉ gt_active_holds g) (tp_groups p) /\
      (forall h, h ∈ tst_holds st -> hold_id h <> hold -> h ∈ tst_holds st')
  end.

Lemma stamp_after graph st stamp r :
  state_valid st graph -> revision_of stamp = raw (pl_revision graph) + 1 ->
  r ∈ treatment_records st -> revision_of (record_stamp r) < revision_of stamp.
Proof.
  intros Hv Hs Hr. pose proof (sk_bounds _ _ (sv_stamps _ _ Hv)) as Hb.
  rewrite list.Forall_forall in Hb. assert (record_stamp r ∈ all_stamps st) as Hin.
  { unfold treatment_records in Hr. unfold all_stamps. rewrite !concat_singletons.
    apply elem_of_app in Hr as [(d & -> & Hd)%list_elem_of_fmap|(v & -> & Hv')%list_elem_of_fmap].
    - apply elem_of_app. left. by apply (list_elem_of_fmap_2 ad_stamp).
    - apply elem_of_app. right. apply elem_of_app. right. by apply (list_elem_of_fmap_2 igr_stamp). }
  apply Hb in Hin. lia.
Qed.

Lemma set_acceptance_effect st graph graph' b selection status stamp st' c p :
  lineage_wf graph -> lineage_wf graph' -> pl_nodes graph' = pl_nodes graph ->
  state_valid st graph -> revision_of stamp = raw (pl_revision graph) + 1 ->
  treatment_apply graph st stamp (TreatmentAction.SetAcceptance selection status) = Ok (st', c) ->
  state_valid st' graph' -> projects st' graph' b p ->
  after_change st (TreatmentAction.SetAcceptance selection status) stamp st' p.
Proof.
  intros Hwf Hwf' Hn Hv Hs H Hv' Hp. cbn [treatment_apply] in H. run_ok. simplify_eq.
  split; [done|]. apply list.Forall_forall. intros k Hk.
  match goal with E : PhysicalLineage_capture _ _ = Ok ?s |- _ => rename E into Hcap, s into sc end.
  destruct (captured_covers graph graph' _ _ k Hwf Hcap Hk Hn) as (n & Hin & Hid & Hpk & Hc).
  rewrite <- Hn in Hin. destruct (stocked_treated _ _ _ _ _ Hp Hin Hpk) as (g & Hg & Ht).
  exists g. split; [apply (projected_group_Some _ _ _ _ _ _ Hwf' Hp); by exists n|].
  destruct (gr_standing _ _ _ _ Ht) as (o & Hl & Ha & Hd).
  match type of Hl with latest _ (treatment_records ?s') _ _ => set (st' := s') in * end.
  assert (latest graph' (treatment_records st') n (Some (stamp, status))) as Hnew.
  { split.
    - exists sc. split; [|done]. unfold treatment_records, st'. cbn [tst_decisions].
      rewrite fmap_app. csimpl. set_solver.
    - intros r Hr Hrc. unfold treatment_records, st' in Hr. cbn [tst_decisions tst_initial_reviews] in Hr.
      rewrite fmap_app in Hr. csimpl in Hr.
      rewrite !elem_of_app, list_elem_of_singleton in Hr. destruct Hr as [[Hr| ->]|Hr].
      + apply Z.lt_le_incl, (stamp_after graph st); [done..|]. apply elem_of_app. by left.
      + done.
      + apply Z.lt_le_incl, (stamp_after graph st); [done..|]. apply elem_of_app. by right. }
  pose proof (latest_unique _ _ _ _ _ Hv' Hl Hnew) as ->. done.
Qed.

Lemma place_hold_effect st graph graph' b selection stamp st' c p :
  lineage_wf graph -> lineage_wf graph' -> pl_nodes graph' = pl_nodes graph ->
  treatment_apply graph st stamp (TreatmentAction.PlaceHold selection) = Ok (st', c) ->
  projects st' graph' b p ->
  after_change st (TreatmentAction.PlaceHold selection) stamp st' p.
Proof.
  intros Hwf Hwf' Hn H Hp. cbn [treatment_apply] in H. run_ok. simplify_eq.
  split; [done|]. apply list.Forall_forall. intros k Hk.
  match goal with E : PhysicalLineage_capture _ _ = Ok ?s |- _ => rename E into Hcap, s into sc end.
  destruct (captured_covers graph graph' _ _ k Hwf Hcap Hk Hn) as (n & Hin & Hid & Hpk & Hc).
  rewrite <- Hn in Hin. destruct (stocked_treated _ _ _ _ _ Hp Hin Hpk) as (g & Hg & Ht).
  exists g. split; [apply (projected_group_Some _ _ _ _ _ _ Hwf' Hp); by exists n|].
  assert (ts_id stamp ∈ gt_active_holds g) as Hh.
  { apply (gr_holds _ _ _ _ Ht). eexists. split; [cbn [tst_holds]; apply elem_of_app; right; by left|].
    done. }
  split; [done|]. destruct (tp_basis p). simpl. apply andb_false_iff. right.
  destruct (gt_active_holds g); [by apply not_elem_of_nil in Hh|done].
Qed.

Lemma hold_ids_distinct st graph : state_valid st graph -> NoDup (hold_id <$> tst_holds st).
Proof.
  intros Hv. pose proof (sk_ids _ _ (sv_stamps _ _ Hv)) as Hn. unfold all_stamps in Hn.
  rewrite !fmap_app in Hn. apply NoDup_app in Hn as (_ & _ & (Hn & _ & _)%NoDup_app).
  revert Hn. generalize (tst_holds st) as hs. induction hs as [|h hs IH]; csimpl; [done|].
  unfold hold_stamps at 1. csimpl. rewrite fmap_app.
  intros [Hh (_ & _ & Hn)%NoDup_app]%NoDup_cons. constructor; [|by apply IH].
  intros (h' & E & Hin)%list_elem_of_fmap. apply Hh. apply elem_of_app. right.
  unfold hold_id in E. rewrite E. apply list_elem_of_fmap_2, list_elem_of_In, in_concat.
  exists (hold_stamps h'). rewrite <- !list_elem_of_In.
  split; [by apply (list_elem_of_fmap_2 hold_stamps)|by left].
Qed.

Lemma release_hold_effect st graph graph' b hold expected stamp st' c p :
  lineage_wf graph' -> state_valid st' graph' ->
  treatment_apply graph st stamp (TreatmentAction.ReleaseHold hold expected) = Ok (st', c) ->
  projects st' graph' b p ->
  after_change st (TreatmentAction.ReleaseHold hold expected) stamp st' p.
Proof.
  intros Hwf' Hv' H Hp. cbn [treatment_apply] in H. run_ok. simplify_eq.
  match goal with E : list_find _ _ = _ |- _ =>
    apply list_find_Some in E as (Hi & Hid & _) end.
  cbn [after_change tst_decisions tst_holds]. split; [done|].
  pose proof (lookup_lt_Some _ _ _ Hi) as Hlt.
  set (closed := {| hd_stamp := _; hd_release := Some stamp |}) in *.
  assert (<[n:=closed]> (tst_holds st) !! n = Some closed) as Hci by by apply list_lookup_insert_eq.
  split.
  - apply list.Forall_forall. intros g Hg Hin.
    pose proof (pj_groups _ _ _ _ Hp) as Hf. pose proof Hg as (j & Hj)%list_elem_of_lookup.
    destruct (Forall2_lookup_r _ _ _ _ _ Hf Hj) as (m & _ & Ht).
    apply (gr_holds _ _ _ _ Ht) in Hin as (h' & Hh & Hr & Hhid & _). cbn [tst_holds] in Hh.
    pose proof (hold_ids_distinct _ _ Hv') as Hnd. cbn [tst_holds] in Hnd.
    assert (h' = closed) as ->; [|done].
    apply (NoDup_fmap_elem _ _ _ _ Hnd Hh); [by eapply list_elem_of_lookup_2|unfold hold_id in *; simpl; congruence].
  - intros h' (j & Hj)%list_elem_of_lookup Hne. apply (list_elem_of_lookup_2 _ j).
    rewrite list_lookup_insert_ne; [done|]. intros <-. rewrite Hi in Hj. injection Hj as ->. done.
Qed.

(** A planned treatment takes effect at the next stock revision: after it,
    every selected group has the decided status, on the authority of the new
    record; every selected group is held by the new hold and may not depart;
    or the released hold restricts no group any more while the other holds
    stand; and the reported summary is that of the projection. *)
Theorem treatment_plan_effect self catalog graph state record actor now p :
  lineage_wf graph ->
  TreatmentCommand_plan self catalog graph state record actor now = Ok p ->
  raw (tpl_revision p) = raw (pl_revision graph) + 1 /\
  exists stamp state' projection,
    ts_id stamp = record /\ ts_stock_revision stamp = tpl_revision p /\ ts_actor stamp = actor /\
    treatment_apply graph state stamp (tc_action self) = Ok (state', tpl_change p) /\
    TreatmentState_project state' (advance graph (tpl_revision p))
      (ReferenceCatalog_handling_basis catalog) = Ok projection /\
    tp_summary projection = tpl_summary p /\
    after_change state (tc_action self) stamp state' projection.
Proof.
  intros Hwf H. unfold TreatmentCommand_plan in H. run_ok.
  match goal with E : TreatmentState_project state _ _ = _ |- _ =>
    apply project_run in E as [Hv _]; [|done] end.
  match goal with E : PhysicalLineage_new _ _ _ _ _ = _ |- _ =>
    apply advance_new in E as [-> Hwf']; [|done] end.
  match goal with E : TreatmentState_project _ (advance _ _) _ = _ |- _ =>
    pose proof E as Hproj; apply project_run in E as [Hv' Hp]; [|done] end.
  match goal with E : treatment_apply _ _ _ _ = _ |- _ => rename E into Happ end.
  match goal with E : HubRevision_from_value _ = _ |- _ => apply checked_Ok in E end.
  match goal with E : u64_checked_add _ _ = _ |- _ => unfold u64_checked_add in E;
    destruct (_ <? _) in E; [injection E as E|done] end.
  simpl. split; [congruence|]. eexists _, _, _. split_and!; [..|exact Happ|exact Hproj|done|];
    [done..|].
  destruct (tc_action self) as [sel status|sel|h e].
  - eapply set_acceptance_effect; [exact Hwf|exact Hwf'|done|exact Hv| |exact Happ|done|done].
    unfold revision_of. simpl. congruence.
  - eapply place_hold_effect; [exact Hwf|exact Hwf'|done|exact Happ|done].
  - eapply release_hold_effect; [exact Hwf'|exact Hv'|exact Happ|done].
Qed.

(** ** The message determines the command *)

Lemma TreatmentSelection_bound (s : TreatmentSelection) :
  (1 <= length (raw s) <= HUB_TREATMENT_SELECTION_GROUPS)%nat /\ Sorted klt (raw s).
Proof.
  apply (raw_elim (fun l => (1 <= length l <= HUB_TREATMENT_SELECTION_GROUPS)%nat /\ Sorted klt l) s).
  intros l H. unfold TreatmentSelection_check in H.
  apply andb_true_iff in H as [[H1 H2]%andb_true_iff H3]. apply negb_true_iff in H1, H3. breflect.
  split; [lia|]. by apply (windows_strict id), StronglySorted_Sorted in H3.
Qed.

(** [TreatmentSelection::new] sorts, and fails only on its three checks. *)
Lemma TreatmentSelection_new_Ok groups s :
  TreatmentSelection_new groups = Ok s <->
  (1 <= length groups <= HUB_TREATMENT_SELECTION_GROUPS)%nat /\ NoDup groups /\
  raw s = sort_by_key id groups.
Proof.
  unfold TreatmentSelection_new. rewrite !guard_Ok, checked_Ok, Nat.eqb_neq, Nat.ltb_ge.
  pose proof (sort_windows id groups) as Hw. unfold id at 1 2 in Hw. rewrite Hw.
  assert (key_sorted id (sort_by_key id groups) <-> NoDup groups) as Hn.
  { split.
    - intros H%key_sorted_NoDup. rewrite list_fmap_id in H. by rewrite (sort_by_key_perm id groups).
    - intros H. apply sort_by_key_NoDup. by rewrite list_fmap_id. }
  rewrite Hn. split; [intros (? & ? & ? & ?)|intros ((? & ?) & ? & ?)]; split_and!; try done; lia.
Qed.

#[global] Instance enc_treatment_action_prefix : PrefixCode enc_treatment_action.
Proof.
  assert (forall a b : TreatmentSelection, forall r t,
    enc_counted 4 enc_id (raw a) ++ r = enc_counted 4 enc_id (raw b) ++ t -> a = b /\ r = t) as Hc.
  { intros a b r t E. pose proof (TreatmentSelection_bound a) as [[_ ?] _].
    pose proof (TreatmentSelection_bound b) as [[_ ?] _]. unfold HUB_TREATMENT_SELECTION_GROUPS in *.
    apply (enc_counted_inv 4 enc_id) in E as [? ?]; [|lia..]. split; [by apply refined_eq|done]. }
  intros [s a|s|h e] [s' a'|s'|h' e'] r t E; unfold enc_treatment_action, enc_selection in E;
    rewrite <- ?app_assoc in E; apply enc_tag_inv in E as [Et E]; try lia; try discriminate Et.
  - apply Hc in E as [-> E]. apply enc_tag_inv in E as [Ea ->];
      [|destruct a; simpl; lia|destruct a'; simpl; lia].
    split; [|done]. by destruct a, a'.
  - apply Hc in E as [-> ->]. done.
  - do 2 peel E. split; congruence.
Qed.

Lemma TreatmentCommand_message_inv cmd cmd' hub hub' actor actor' id id' :
  TreatmentCommand_message cmd hub actor id = TreatmentCommand_message cmd' hub' actor' id' ->
  cmd = cmd' /\ hub = hub' /\ actor = actor' /\ id = id'.
Proof.
  intros E. unfold TreatmentCommand_message in E.
  apply app_inv_head in E. do 7 peel E. apply prefix_code_inj in E; [|apply _].
  destruct cmd, cmd'; simpl in *. by subst.
Qed.

(** ** A concrete history *)

Definition sample_stamp (id revision : Z) : TreatmentStamp :=
  {| ts_id := sample_id id; ts_stock_revision := sample_revision revision;
     ts_actor := sample_key 1; ts_basis := WHOLE_PACK_V1; ts_recorded_at := sample_time 200;
     ts_occurred := Occurrence.Known (sample_time 150); ts_observation := sample_provenance "Seen" |}.
Definition sample_captured (revision : Z) (nodes : list PhysicalLineageNode)
  : CapturedPhysicalScope :=
  {| cps_hub := sample_hub; cps_trace := sample_id 41; cps_variant := sample_id 12;
     cps_captured_revision := sample_revision revision; cps_anchors := anchor_of <$> nodes |}.
(** Both groups accepted at 6; the portion 52 held at 8. *)
Definition sample_treatment : TreatmentState :=
  {| tst_decisions :=
       [{| ad_stamp := sample_stamp 71 6;
           ad_scope := sample_captured 5 [sample_node 51 None 2 10; sample_node 52 (Some 51) 4 4];
           ad_status := AcceptanceStatus.Accepted |}];
     tst_holds :=
       [{| hd_stamp := sample_stamp 72 8;
           hd_scope := sample_captured 7 [sample_node 52 (Some 51) 4 4]; hd_release := None |}];
     tst_initial_reviews := [] |}.
Definition sample_projection : TreatmentProjection :=
  match TreatmentState_project sample_treatment sample_lineage WHOLE_PACK_V1 with
  | Ok p => p
  | Err _ => {| tp_revision := HubRevision_INITIAL; tp_basis := WHOLE_PACK_V1;
                tp_history_capacity_reached := false; tp_summary := zero_summary;
                tp_groups := [] |}
  end.
Definition sample_selection (id : HubRecordId) : TreatmentSelection := Refined [id] eq_refl.

Lemma sample_project :
  TreatmentState_project sample_treatment sample_lineage WHOLE_PACK_V1 = Ok sample_projection.
Proof. vm_compute. reflexivity. Qed.

Lemma project_total_witness :
  TreatmentState_validate sample_treatment sample_lineage = Ok tt /\
  exists p, TreatmentState_project sample_treatment sample_lineage WHOLE_PACK_V1 = Ok p.
Proof.
  split; [vm_compute; reflexivity|].
  apply (proj2 (project_total sample_treatment sample_lineage WHOLE_PACK_V1 sample_lineage_wf)).
  vm_compute. reflexivity.
Defined.

Lemma project_correct_witness :
  raw (sm_departure_eligible (tp_summary sample_projection)) = 10 /\
  raw (sm_restricted (tp_summary sample_projection)) = 4 /\
  projects sample_treatment sample_lineage WHOLE_PACK_V1 sample_projection.
Proof.
  split; [vm_compute; reflexivity|]. split; [vm_compute; reflexivity|].
  exact (project_correct _ _ _ _ sample_lineage_wf sample_project).
Defined.

Lemma departure_gate_witness :
  (exists n, n ∈ pl_nodes sample_lineage /\ pln_id n = sample_id 51 /\
     cleared sample_treatment sample_lineage n) /\
  TreatmentProjection_require sample_projection (sample_selection (sample_id 52))
    PhysicalAction.NormalDeparture = Err TreatmentError.ActionBlocked.
Proof.
  split; [|vm_compute; reflexivity].
  destruct (proj1 (departure_gate _ _ _ _ (sample_selection (sample_id 51)) sample_lineage_wf
    sample_project)) as [_ H]; [vm_compute; reflexivity|].
  apply list.Forall_cons in H as [(n & Hn & _ & Hid & Hc) _]. exists n. auto.
Defined.

Definition sample_release : TreatmentCommand :=
  {| tc_expected_stock_revision := sample_revision 9;
     tc_expected_catalog_revision := sample_revision 7;
     tc_action := TreatmentAction.ReleaseHold (sample_id 72) HubRevision_INITIAL;
     tc_occurred := Occurrence.Known (sample_time 210);
     tc_observation := sample_provenance "Released" |}.

Lemma treatment_plan_effect_witness :
  match TreatmentCommand_plan sample_release sample_catalog sample_lineage sample_treatment
          (sample_id 73) (sample_key 1) (sample_time 220) with
  | Ok p => raw (tpl_revision p) = 10 /\ raw (sm_departure_eligible (tpl_summary p)) = 14
  | Err _ => False
  end.
Proof.
  pose proof (treatment_plan_effect sample_release sample_catalog sample_lineage sample_treatment
    (sample_id 73) (sample_key 1) (sample_time 220)) as H.
  destruct (TreatmentCommand_plan _ _ _ _ _ _ _) as [p|e] eqn:E.
  - split; [exact (proj1 (H p sample_lineage_wf eq_refl))|].
    vm_compute in E. injection E as <-. reflexivity.
  - vm_compute in E. discriminate E.
Defined.
