(* ===== verification/Opening.v ===== *)
(** * Counted opening stock

    [hub/stock/opening.rs]: present stock that was counted, with explicitly
    bounded knowledge of its earlier history. *)

From Stdlib Require Import Bool ZArith Lia String.
From stdpp Require Import base decidable option list numbers sets.
From S2P Require Import Prelude Containers Encoding Hub Reference Catalog Stock Movement Treatment.

Module OpeningError.
Inductive OpeningError :=
| Reference (e : HubReferenceError)
| Stock (e : StockError)
| StaleRevision
| EmptyQuantity
| CountTimeRequired
| InvalidIdentity
| RevisionExhausted.
#[global] Instance OpeningError_eq_dec : EqDecision OpeningError.
Proof. solve_decision. Defined.
End OpeningError.
Abbreviation OpeningError := OpeningError.OpeningError.

Record OpeningIdentities := {
  oi_population : HubRecordId;
  oi_group : HubRecordId;
  oi_source : HubRecordId
}.
Definition OpeningIdentities_from_operation_bytes `{Sha256} (operation : HubRecordId)
  : result OpeningIdentities OpeningError :=
  let derive (purpose : string) :=
    map_err OpeningError.Reference
      (derive_identity "harvestcircle.hub.counted-opening.identity.v1" (domain_tag purpose)
         operation) in
  let? population := derive "population"%string in
  let? group := derive "group"%string in
  let? source := derive "source"%string in
  Ok {| oi_population := population; oi_group := group; oi_source := source |}.

Record OpeningCommand := {
  op_expected_stock_revision : HubRevision;
  op_expected_catalog_revision : HubRevision;
  op_variant : HubRecordId;
  op_location : HubRecordId;
  op_packs : WholePacks;
  op_identification : PhysicalIdentification;
  op_source : SourceAttribution;
  op_history : OpeningHistory;
  op_counted : Occurrence;
  op_observation : SourceProvenance
}.

Record OpeningPlan := {
  opp_stock_revision : HubRevision;
  opp_population : StockPopulation;
  opp_group : PhysicalStockGroup;
  opp_acceptance : AcceptanceStatus
}.

Definition OpeningCommand_plan (self : OpeningCommand) (catalog : ReferenceCatalog)
    (stock_revision : HubRevision) (identities : OpeningIdentities) (actor : PublicKey)
    (recorded_at : UnixTimestamp) : result OpeningPlan OpeningError :=
  if (op_expected_stock_revision self !=? stock_revision)
     || (op_expected_catalog_revision self !=? rc_revision catalog)
  then Err OpeningError.StaleRevision
  else if raw (op_packs self) =? 0 then Err OpeningError.EmptyQuantity
  else
    map_err OpeningError.Stock (Occurrence_validate (op_counted self) recorded_at) ;;?
    let? counted_at :=
      match op_counted self with
      | Occurrence.Known counted_at => Ok counted_at
      | _ => Err OpeningError.CountTimeRequired
      end in
    if (oi_population identities ==? oi_group identities)
       || (oi_population identities ==? oi_source identities)
       || (oi_group identities ==? oi_source identities)
    then Err OpeningError.InvalidIdentity
    else
      let? variant := map_err OpeningError.Reference
        (ReferenceCatalog_require_kind catalog (op_variant self) ReferenceKind.Pack) in
      let? product_id :=
        match rr_value variant with
        | ReferenceValue.Pack product _ _ => Ok product
        | _ => Err OpeningError.InvalidIdentity
        end in
      let? product := map_err OpeningError.Reference
        (ReferenceCatalog_require_kind catalog product_id ReferenceKind.Product) in
      let? location := map_err OpeningError.Reference
        (ReferenceCatalog_require_kind catalog (op_location self) ReferenceKind.Location) in
      let? source_issuer := map_err OpeningError.Reference
        (resolve_source_issuer catalog (op_source self)) in
      let? stock_revision := map_err (fun _ => OpeningError.RevisionExhausted)
        (HubRevision_next stock_revision) in
      Ok {|
        opp_stock_revision := stock_revision;
        opp_population := {|
          sp_id := oi_population identities;
          sp_variant := variant;
          sp_product := product;
          sp_supplier := None;
          sp_producer := None;
          sp_source := op_source self;
          sp_source_issuer := source_issuer;
          sp_original_packs := op_packs self;
          sp_initial_location := location;
          sp_origin := PopulationOrigin.CountedOpening (op_history self);
          sp_planned_location := None;
          sp_occurred := op_counted self;
          sp_recorded_at := recorded_at;
          sp_actor := actor;
          sp_observation := op_observation self
        |};
        opp_group := {|
          pg_id := oi_group identities;
          pg_trace := oi_population identities;
          pg_variant := op_variant self;
          pg_parent := None;
          pg_identification := Some (op_identification self);
          pg_location := op_location self;
          pg_packs := op_packs self;
          pg_revision := HubRevision_INITIAL;
          pg_causal_floor := Some counted_at;
          pg_work := []
        |};
        opp_acceptance := AcceptanceStatus.ReviewRequired
      |}.

Definition enc_history (h : OpeningHistory) : list byte :=
  match h with
  | OpeningHistory.Unknown => enc_tag 0
  | OpeningHistory.ExternalReference value => enc_tag 1 ++ enc_hub_text value
  end.
Definition OpeningCommand_message (self : OpeningCommand) (hub : HubId) (actor : PublicKey)
    (identities : OpeningIdentities) : list byte :=
  domain_tag "harvestcircle.hub.counted-opening.command.v1" ++
  enc_hub hub ++ enc_key actor ++ enc_id (oi_population identities) ++
  enc_id (oi_group identities) ++ enc_id (oi_source identities) ++
  enc_revision (op_expected_stock_revision self) ++
  enc_revision (op_expected_catalog_revision self) ++
  enc_id (op_variant self) ++ enc_id (op_location self) ++ enc_packs (op_packs self) ++
  enc_hub_text (pi_label (op_identification self)) ++
  enc_hub_text (pi_observation (op_identification self)) ++
  hash_source (op_source self) ++ enc_history (op_history self) ++
  hash_occurrence (op_counted self) ++ enc_hub_text (op_observation self).
Definition OpeningCommand_fingerprint `{Sha256} (self : OpeningCommand) (hub : HubId)
    (actor : PublicKey) (identities : OpeningIdentities) : array 32 :=
  digest32 (OpeningCommand_message self hub actor identities).

(** ** What an opening promises *)

Record opening_admitted (self : OpeningCommand) (catalog : ReferenceCatalog)
    (stock_revision : HubRevision) (ids : OpeningIdentities) (recorded_at : UnixTimestamp)
  : Prop := {
  oa_stock : op_expected_stock_revision self = stock_revision;
  oa_catalog : op_expected_catalog_revision self = rc_revision catalog;
  oa_packs : 0 < raw (op_packs self);
  oa_counted : exists at_, op_counted self = Occurrence.Known at_ /\ raw at_ <= raw recorded_at;
  oa_identities : NoDup [oi_population ids; oi_group ids; oi_source ids];
  oa_variant : exists v product label grams,
    bt_get (op_variant self) (rc_records catalog) = Some v /\
    rr_value v = ReferenceValue.Pack product label grams /\
    has_kind catalog product ReferenceKind.Product;
  oa_location : has_kind catalog (op_location self) ReferenceKind.Location;
  oa_issuer : match op_source self with
    | SourceAttribution.Unknown => True
    | SourceAttribution.Referenced s _ =>
        forall i, sr_issuer s = Some i -> has_kind catalog i ReferenceKind.Party
    end;
  oa_next : raw stock_revision < HubRevision_MAXIMUM
}.

Record opening_effect (self : OpeningCommand) (catalog : ReferenceCatalog)
    (stock_revision : HubRevision) (ids : OpeningIdentities) (p : OpeningPlan) : Prop := {
  oe_revision : raw (opp_stock_revision p) = raw stock_revision + 1;
  oe_group : group_ok (opp_group p) /\ catalogued catalog (opp_group p);
  oe_trace : pg_trace (opp_group p) = sp_id (opp_population p) /\
    pg_id (opp_group p) = oi_group ids /\ pg_parent (opp_group p) = None;
  oe_packs : pg_packs (opp_group p) = sp_original_packs (opp_population p) /\
    sp_original_packs (opp_population p) = op_packs self;
  oe_place : bt_get (pg_location (opp_group p)) (rc_records catalog) =
    Some (sp_initial_location (opp_population p));
  oe_floor : exists at_, op_counted self = Occurrence.Known at_ /\
    pg_causal_floor (opp_group p) = Some at_;
  oe_origin : sp_origin (opp_population p) = PopulationOrigin.CountedOpening (op_history self);
  oe_review : opp_acceptance p = AcceptanceStatus.ReviewRequired /\ pg_work (opp_group p) = []
}.

Lemma opening_run self catalog stock_revision ids actor recorded_at p :
  OpeningCommand_plan self catalog stock_revision ids actor recorded_at = Ok p ->
  opening_admitted self catalog stock_revision ids recorded_at /\
  opening_effect self catalog stock_revision ids p.
Proof.
  unfold OpeningCommand_plan. intros H. run_ok. ok_facts.
  pose proof (WholePacks_range (op_packs self)).
  match goal with E : Occurrence_validate (Occurrence.Known ?t) _ = Ok tt |- _ =>
    unfold Occurrence_validate in E; destruct (Z.leb_spec (raw t) (raw recorded_at)) as [Hle|]; [|done]
  end.
  split.
  - constructor; try done; [lia|by eexists| | |by eexists| |by eapply next_bound].
    + rewrite !NoDup_cons, !not_elem_of_cons. split_and!; try done; try apply not_elem_of_nil.
      constructor.
    + exists x0, x1, label, nominal_grams. split_and!; [done..|by exists x2].
    + destruct (op_source self) as [|s c]; [done|]. intros i Hi.
      match goal with E : optional_record _ _ _ _ |- _ => rewrite Hi in E; destruct x4; [by eexists|done] end.
  - assert (group_ok {| pg_id := oi_group ids; pg_trace := oi_population ids;
      pg_variant := op_variant self; pg_parent := None;
      pg_identification := Some (op_identification self); pg_location := op_location self;
      pg_packs := op_packs self; pg_revision := HubRevision_INITIAL;
      pg_causal_floor := Some x; pg_work := [] |}) as Hg.
    { constructor; simpl; try done; [lia|unfold HUB_GROUP_REQUIREMENTS; lia|constructor]. }
    constructor; simpl; try done; [|by eexists]. split; [done|].
    constructor; simpl; try done; [|by eexists].
    eexists; split; [done|]. by match goal with E : rr_value _ = ReferenceValue.Pack _ _ _ |- _ => rewrite E end.
Qed.

Lemma opening_total self catalog stock_revision ids actor recorded_at :
  opening_admitted self catalog stock_revision ids recorded_at ->
  exists p, OpeningCommand_plan self catalog stock_revision ids actor recorded_at = Ok p.
Proof.
  intros []. destruct oa_counted0 as (at_ & Hc & Hle).
  destruct oa_variant0 as (v & pr & lb & gr & Hv & Hvv & pv & Hp & Hpk).
  destruct oa_location0 as (loc & Hl & Hlk).
  rewrite !NoDup_cons, !not_elem_of_cons in oa_identities0.
  assert (exists issuer, resolve_source_issuer catalog (op_source self) = Ok issuer) as [issuer Hi].
  { destruct (op_source self) as [|s c] eqn:Es; [by exists None|].
    destruct (sr_issuer s) as [i|] eqn:Ei.
    - destruct (oa_issuer0 i eq_refl) as (r & Hr & Hk). exists (Some r).
      apply resolve_source_issuer_Ok. by rewrite Ei.
    - exists None. apply resolve_source_issuer_Ok. by rewrite Ei. }
  assert (exists n, HubRevision_next stock_revision = Ok n) as [n Hn].
  { destruct (movement_next_total _ oa_next0) as (n & Hn & _). exists n.
    unfold movement_next in Hn. by apply map_err_Ok in Hn. }
  unfold OpeningCommand_plan. rewrite !bool_decide_eq_true_2 by done. cbn [negb orb].
  rewrite (proj2 (Z.eqb_neq _ 0)), Hc by lia. unfold Occurrence_validate.
  rewrite (proj2 (Z.leb_le _ _)) by done. cbn [map_err bind].
  rewrite !bool_decide_eq_false_2 by naive_solver. cbn [orb].
  rewrite (proj2 (require_kind_Ok _ _ _ v)) by (split; [done|by rewrite Hvv]).
  cbn [map_err bind]. rewrite Hvv. cbn [bind].
  rewrite (proj2 (require_kind_Ok _ _ _ pv)), (proj2 (require_kind_Ok _ _ _ loc)) by done.
  cbn [map_err bind]. rewrite Hi. cbn [map_err bind]. rewrite Hn. by eexists.
Qed.

(** Counted stock is opened exactly under [opening_admitted] (a known count
    time that is not in the future, a positive count, distinct identities and
    catalogued references); the opened group is valid, holds the whole counted
    population at the counted location with no work pending, no earlier event
    may be recorded before the count, and it starts under review. *)
Theorem opening_correct self catalog stock_revision ids actor recorded_at :
  match OpeningCommand_plan self catalog stock_revision ids actor recorded_at with
  | Ok p =>
      opening_admitted self catalog stock_revision ids recorded_at /\
      opening_effect self catalog stock_revision ids p
  | Err _ => ~ opening_admitted self catalog stock_revision ids recorded_at
  end.
Proof.
  destruct (OpeningCommand_plan _ _ _ _ _ _) as [p|e] eqn:E; [by eapply opening_run|].
  intros H. apply (opening_total _ _ _ _ actor) in H as [p H]. congruence.
Qed.

#[global] Instance enc_history_prefix : PrefixCode enc_history.
Proof.
  intros [|v] [|v'] r s E; unfold enc_history in E; rewrite <- ?app_assoc in E;
    apply enc_tag_inv in E as [Et E]; try lia; try discriminate Et; [done|].
  peel E. split; congruence.
Qed.

(** Two counted openings with the same fingerprinted message are the same
    command, for the same hub, actor and reserved identities. *)
Theorem OpeningCommand_message_inj cmd cmd' hub hub' actor actor' ids ids' :
  OpeningCommand_message cmd hub actor ids = OpeningCommand_message cmd' hub' actor' ids' <->
  cmd = cmd' /\ hub = hub' /\ actor = actor' /\ ids = ids'.
Proof.
  split; [|by intros (-> & -> & -> & ->)]. intros E. unfold OpeningCommand_message in E.
  apply app_inv_head in E. do 15 peel E. apply prefix_code_inj in E; [|apply _].
  destruct cmd as [? ? ? ? ? [] ? ? ? ?], cmd' as [? ? ? ? ? [] ? ? ? ?], ids, ids';
    simpl in *. by subst.
Qed.
