(* ===== verification/Handling.v ===== *)
(** * Handling commands

    [HandlingIdentities] of [hub/movement.rs] and [HandlingCommand] of
    [hub/movement/command.rs]: the closed set of physical handling commands and
    the identities one operation reserves for them. *)

From Stdlib Require Import Bool ZArith Lia String.
From stdpp Require Import base decidable option list numbers sets.
From S2P Require Import Prelude Containers Encoding Hub Reference Catalog Stock Movement Work.
From S2P Require Import Lineage Split Treatment.

Record HandlingIdentities := {
  hi_group : HubRecordId;
  hi_requirement : HubRecordId;
  hi_discrepancy : HubRecordId;
  hi_treatment : HubRecordId
}.

Definition HandlingIdentities_from_operation_bytes `{Sha256} (operation : HubRecordId)
  : result HandlingIdentities MovementError :=
  let derive (purpose : string) :=
    map_err MovementError.Reference
      (derive_identity "harvestcircle.hub.handling.identity.v1" (domain_tag purpose) operation) in
  let? group := derive "group"%string in
  let? requirement := derive "work"%string in
  let? discrepancy := derive "discrepancy"%string in
  let? treatment := map_err (fun _ => MovementError.InvalidGroup)
    (treatment_record_id operation) in
  Ok {| hi_group := group; hi_requirement := requirement; hi_discrepancy := discrepancy;
        hi_treatment := treatment |}.

Module HandlingCommand.
Inductive HandlingCommand :=
| Move (command : MovementCommand)
| Split (command : SplitCommand)
| Treatment (command : TreatmentCommand)
| Replan (command : ReplanCommand)
| NewWork (command : NewWorkCommand)
| Discrepancy (command : DiscrepancyCommand).
End HandlingCommand.
Abbreviation HandlingCommand := HandlingCommand.HandlingCommand.

Definition HandlingCommand_kind (self : HandlingCommand) : string :=
  match self with
  | HandlingCommand.Move _ => "move"
  | HandlingCommand.Split _ => "split"
  | HandlingCommand.Treatment command => TreatmentCommand_kind command
  | HandlingCommand.Replan _ => "work_replan"
  | HandlingCommand.NewWork _ => "work_new"
  | HandlingCommand.Discrepancy command =>
      match dc_action command with
      | DiscrepancyAction.Open _ _ _ => "discrepancy_open"
      | DiscrepancyAction.Resolve _ _ _ => "discrepancy_resolve"
      end
  end.

Definition HandlingCommand_expected_versions (self : HandlingCommand)
  : HubRevision * HubRevision :=
  match self with
  | HandlingCommand.Move command =>
      (mv_expected_stock_revision command, mv_expected_catalog_revision command)
  | HandlingCommand.Treatment command =>
      (tc_expected_stock_revision command, tc_expected_catalog_revision command)
  | HandlingCommand.Split command =>
      (spl_expected_stock_revision command, spl_expected_catalog_revision command)
  | HandlingCommand.Replan command =>
      (rpl_expected_stock_revision command, rpl_expected_catalog_revision command)
  | HandlingCommand.NewWork command =>
      (nw_expected_stock_revision command, nw_expected_catalog_revision command)
  | HandlingCommand.Discrepancy command =>
      (dc_expected_stock_revision command, dc_expected_catalog_revision command)
  end.

Definition HandlingCommand_validate_shape (self : HandlingCommand) : result unit MovementError :=
  match self with
  | HandlingCommand.NewWork command => NewWorkCommand_validate_shape command
  | _ => Ok tt
  end.

(** The bytes the fingerprint of each command hashes. *)
Definition HandlingCommand_message (self : HandlingCommand) (hub : HubId) (actor : PublicKey)
    (ids : HandlingIdentities) : list byte :=
  match self with
  | HandlingCommand.Move command => MovementCommand_message command hub actor (hi_group ids)
  | HandlingCommand.Split command => SplitCommand_message command hub actor (hi_group ids)
  | HandlingCommand.Treatment command =>
      TreatmentCommand_message command hub actor (hi_treatment ids)
  | HandlingCommand.Replan command => ReplanCommand_message command hub actor (hi_requirement ids)
  | HandlingCommand.NewWork command =>
      NewWorkCommand_message command hub actor (hi_requirement ids)
  | HandlingCommand.Discrepancy command =>
      DiscrepancyCommand_message command hub actor (hi_discrepancy ids)
  end.
Definition HandlingCommand_fingerprint `{Sha256} (self : HandlingCommand) (hub : HubId)
    (actor : PublicKey) (ids : HandlingIdentities) : array 32 :=
  match self with
  | HandlingCommand.Move command => MovementCommand_fingerprint command hub actor (hi_group ids)
  | HandlingCommand.Split command => SplitCommand_fingerprint command hub actor (hi_group ids)
  | HandlingCommand.Treatment command =>
      TreatmentCommand_fingerprint command hub actor (hi_treatment ids)
  | HandlingCommand.Replan command =>
      ReplanCommand_fingerprint command hub actor (hi_requirement ids)
  | HandlingCommand.NewWork command =>
      NewWorkCommand_fingerprint command hub actor (hi_requirement ids)
  | HandlingCommand.Discrepancy command =>
      DiscrepancyCommand_fingerprint command hub actor (hi_discrepancy ids)
  end.

(** The identity of the operation a command uses. *)
Definition handling_identity (self : HandlingCommand) (ids : HandlingIdentities) : HubRecordId :=
  match self with
  | HandlingCommand.Move _ | HandlingCommand.Split _ => hi_group ids
  | HandlingCommand.Treatment _ => hi_treatment ids
  | HandlingCommand.Replan _ | HandlingCommand.NewWork _ => hi_requirement ids
  | HandlingCommand.Discrepancy _ => hi_discrepancy ids
  end.

(** ** Domain separation *)

Definition handling_domain (cmd : HandlingCommand) : string :=
  match cmd with
  | HandlingCommand.Move _ => "harvestcircle.hub.movement.command.v1"
  | HandlingCommand.Split _ => "harvestcircle.hub.portion.split.command.v1"
  | HandlingCommand.Treatment _ => "harvestcircle.hub.treatment.command.v1"
  | HandlingCommand.Replan _ => "harvestcircle.hub.replan.command.v1"
  | HandlingCommand.NewWork _ => "harvestcircle.hub.new-work.command.v1"
  | HandlingCommand.Discrepancy _ => "harvestcircle.hub.discrepancy.command.v1"
  end.

Lemma message_domain cmd hub actor ids :
  exists r, HandlingCommand_message cmd hub actor ids = domain_tag (handling_domain cmd) ++ r.
Proof. destruct cmd; eexists; reflexivity. Qed.

Lemma domains_clash cmd cmd' hub hub' actor actor' ids ids' :
  HandlingCommand_message cmd hub actor ids = HandlingCommand_message cmd' hub' actor' ids' ->
  clash (domain_tag (handling_domain cmd)) (domain_tag (handling_domain cmd')) = false.
Proof.
  intros E. destruct (message_domain cmd hub actor ids) as [r Hr].
  destruct (message_domain cmd' hub' actor' ids') as [r' Hr'].
  destruct (clash _ _) eqn:Hc; [|done]. apply (clash_apart _ _ r r') in Hc. congruence.
Qed.

(** The fingerprint of every well-shaped handling command is taken from a
    message that determines the command, its kind, its hub, its actor and the
    identity reserved for it: no two different commands, of the same or of
    different kinds, share a message. *)
Theorem HandlingCommand_message_inj cmd cmd' hub hub' actor actor' ids ids' :
  HandlingCommand_validate_shape cmd = Ok tt -> HandlingCommand_validate_shape cmd' = Ok tt ->
  HandlingCommand_message cmd hub actor ids = HandlingCommand_message cmd' hub' actor' ids' ->
  cmd = cmd' /\ hub = hub' /\ actor = actor' /\ handling_identity cmd ids = handling_identity cmd' ids'.
Proof.
  intros Hs Hs' E. pose proof (domains_clash _ _ _ _ _ _ _ _ E) as Hd.
  destruct cmd as [c|c|c|c|c|c], cmd' as [c'|c'|c'|c'|c'|c'];
    try (vm_compute in Hd; discriminate Hd);
    cbn [HandlingCommand_message handling_identity HandlingCommand_validate_shape] in *;
    lazymatch type of E with
    | MovementCommand_message _ _ _ _ = _ => apply MovementCommand_message_inv in E
    | SplitCommand_message _ _ _ _ = _ => apply SplitCommand_message_inv in E
    | TreatmentCommand_message _ _ _ _ = _ => apply TreatmentCommand_message_inv in E
    | ReplanCommand_message _ _ _ _ = _ => apply ReplanCommand_message_inv in E
    | NewWorkCommand_message _ _ _ _ = _ => apply NewWorkCommand_message_inv in E; [|done..]
    | DiscrepancyCommand_message _ _ _ _ = _ => apply DiscrepancyCommand_message_inv in E
    end;
    destruct E as (-> & -> & -> & ->); done.
Qed.

Definition sample_ids : HandlingIdentities :=
  {| hi_group := sample_id 61; hi_requirement := sample_id 62; hi_discrepancy := sample_id 63;
     hi_treatment := sample_id 64 |}.

Lemma HandlingCommand_message_inj_witness :
  HandlingCommand_validate_shape (HandlingCommand.NewWork sample_new_work) = Ok tt /\
  HandlingCommand_message (HandlingCommand.NewWork sample_new_work) sample_hub (sample_key 1)
    sample_ids <>
  HandlingCommand_message (HandlingCommand.Move sample_movement) sample_hub (sample_key 1)
    sample_ids.
Proof.
  assert (HandlingCommand_validate_shape (HandlingCommand.NewWork sample_new_work) = Ok tt) as H
    by (vm_compute; reflexivity).
  split; [exact H|]. intros E.
  destruct (HandlingCommand_message_inj (HandlingCommand.NewWork sample_new_work)
    (HandlingCommand.Move sample_movement) _ _ _ _ _ _ H eq_refl E) as [E' _]. discriminate E'.
Defined.
