(* ===== verification/Dispatch.v ===== *)
(** * Dispatch preparation and sample identification

    [hub/dispatch.rs] with its [model] and [command] modules: the
    non-reserving draft of a dispatch, the numbered paper identifications issued
    from it, and the commands that prepare, revise, issue, replace and withdraw
    them.  Nothing here consumes stock. *)

From Stdlib Require Import Bool ZArith Lia String Sorted Permutation List.
From stdpp Require Import base decidable option list numbers sets relations.
From S2P Require Import Prelude Containers Encoding Hub Reference Catalog Stock Movement Work.

Definition HUB_DISPATCH_LINES : nat := 64.
Definition HUB_IDENTIFICATION_VERSIONS : nat := 32.

Module DispatchError.
Inductive DispatchError :=
| Capacity
| InvalidSelection
| InvalidHistory
| StaleRevision
| RevisionExhausted
| PhysicalSeparationRequired
| InvalidState
| PreviewChanged
| NoMaterialChange.
#[global] Instance DispatchError_eq_dec : EqDecision DispatchError.
Proof. solve_decision. Defined.
End DispatchError.
Abbreviation DispatchError := DispatchError.DispatchError.

Record DispatchIdentities := {
  di_operation : HubRecordId;
  di_preparation : HubRecordId;
  di_identification : HubRecordId
}.
#[global] Instance DispatchIdentities_eq_dec : EqDecision DispatchIdentities.
Proof. solve_decision. Defined.

Definition DispatchIdentities_from_operation_bytes `{Sha256} (operation : HubRecordId)
  : result DispatchIdentities DispatchError :=
  let derive (purpose : string) :=
    map_err (fun _ => DispatchError.InvalidSelection)
      (derive_identity "harvestcircle.hub.dispatch.identity.v1" (domain_tag purpose)
         operation) in
  let? preparation := derive "preparation"%string in
  let? identification := derive "identification"%string in
  Ok {| di_operation := operation; di_preparation := preparation;
        di_identification := identification |}.

Definition dispatch_next (revision : HubRevision) : result HubRevision DispatchError :=
  ok_or
    (match u64_checked_add (raw revision) 1 with
     | Some value =>
         match HubRevision_from_value value with Ok r => Some r | Err _ => None end
     | None => None
     end) DispatchError.RevisionExhausted.

(** ** Selections *)

Record DispatchLineInput := {
  dli_group : HubRecordId;
  dli_expected_group_revision : HubRevision;
  dli_packs : WholePacks
}.
#[global] Instance DispatchLineInput_eq_dec : EqDecision DispatchLineInput.
Proof. solve_decision. Defined.

(** The field of [DispatchSelection] is private: its values are those [new]
    builds. *)
Definition DispatchSelection_check (lines : list DispatchLineInput) : bool :=
  negb (length lines =? 0)%nat && forallb (fun line => negb (raw (dli_packs line) =? 0)) lines
  && (length lines <=? HUB_DISPATCH_LINES)%nat
  && negb (windows2_any (fun a b => kleb (dli_group b) (dli_group a)) lines).
Abbreviation DispatchSelection := (refined DispatchSelection_check).

(** [DispatchSelection::new]; the last check never fails
    (see [DispatchSelection_new_Ok]). *)
Definition DispatchSelection_new (lines : list DispatchLineInput)
  : result DispatchSelection DispatchError :=
  if (length lines =? 0)%nat || existsb (fun line => raw (dli_packs line) =? 0) lines
  then Err DispatchError.InvalidSelection
  else if (HUB_DISPATCH_LINES <? length lines)%nat then Err DispatchError.Capacity
  else
    let lines := sort_by_key dli_group lines in
    if windows2_any (fun a b => dli_group a ==? dli_group b) lines
    then Err DispatchError.InvalidSelection
    else checked DispatchSelection_check DispatchError.InvalidSelection lines.

(** ** Captured material *)

Record DispatchSource := {
  ds_group : PhysicalStockGroup;
  ds_trace : StockPopulation
}.

Record DispatchLineSnapshot := {
  dl_group : HubRecordId;
  dl_group_revision : HubRevision;
  dl_packs : WholePacks;
  dl_identification : option PhysicalIdentification;
  dl_location : ReferenceRecord;
  dl_product : ReferenceRecord;
  dl_variant : ReferenceRecord;
  dl_trace : StockPopulation
}.
#[global] Instance DispatchLineSnapshot_eq_dec : EqDecision DispatchLineSnapshot.
Proof. solve_decision. Defined.

Record DispatchMaterial := {
  dm_stock_revision : HubRevision;
  dm_catalog_revision : HubRevision;
  dm_basis : SampleHandlingBasis;
  dm_recipient : ReferenceRecord;
  dm_lines : list DispatchLineSnapshot;
  dm_observation : SourceProvenance
}.
#[global] Instance DispatchMaterial_eq_dec : EqDecision DispatchMaterial.
Proof. solve_decision. Defined.

(** The loop body of [DispatchMaterial::validate]; the set holds the groups of
    the lines before. *)
Definition validate_line (catalog_revision : HubRevision) (ids : list (HubRecordId * unit))
    (line : DispatchLineSnapshot) : result (list (HubRecordId * unit)) DispatchError :=
  let (fresh, ids') := bs_insert (dl_group line) ids in
  if (raw (dl_packs line) =? 0) || negb fresh
     || (ReferenceValue_kind (rr_value (dl_product line)) !=? ReferenceKind.Product)
     || (ReferenceValue_kind (rr_value (dl_variant line)) !=? ReferenceKind.Pack)
     || (ReferenceValue_kind (rr_value (dl_location line)) !=? ReferenceKind.Location)
     || (rr_id (dl_variant line) !=? rr_id (sp_variant (dl_trace line)))
     || (rr_id (dl_product line) !=? rr_id (sp_product (dl_trace line)))
     || existsb (fun revision => raw revision >? raw catalog_revision)
          [rr_revision (dl_product line); rr_revision (dl_variant line);
           rr_revision (dl_location line)]
     || negb (match rr_value (dl_variant line) with
              | ReferenceValue.Pack product _ _ => product ==? rr_id (dl_product line)
              | _ => false
              end)
  then Err DispatchError.InvalidHistory
  else Ok ids'.

Definition DispatchMaterial_validate (self : DispatchMaterial) : result unit DispatchError :=
  if (length (dm_lines self) =? 0)%nat || (HUB_DISPATCH_LINES <? length (dm_lines self))%nat
     || windows2_any (fun a b => kleb (dl_group b) (dl_group a)) (dm_lines self)
     || (ReferenceValue_kind (rr_value (dm_recipient self)) !=? ReferenceKind.Party)
     || (raw (rr_revision (dm_recipient self)) >? raw (dm_catalog_revision self))
  then Err DispatchError.InvalidHistory
  else
    let? _ := try_fold (validate_line (dm_catalog_revision self)) [] (dm_lines self) in
    Ok tt.

Definition DispatchMaterial_total_packs (self : DispatchMaterial) : result Z DispatchError :=
  DispatchMaterial_validate self ;;?
  try_fold (fun total line =>
      ok_or (u32_checked_add total (raw (dl_packs line))) DispatchError.Capacity)
    0 (dm_lines self).

Definition line_input (line : DispatchLineSnapshot) : DispatchLineInput :=
  {| dli_group := dl_group line; dli_expected_group_revision := dl_group_revision line;
     dli_packs := dl_packs line |}.
Definition DispatchMaterial_selection (self : DispatchMaterial)
  : result DispatchSelection DispatchError :=
  DispatchSelection_new (line_input <$> dm_lines self).

Definition DispatchMaterial_same_material (self other : DispatchMaterial) : bool :=
  (dm_recipient self ==? dm_recipient other) && (dm_lines self ==? dm_lines other)
  && (dm_observation self ==? dm_observation other) && (dm_basis self ==? dm_basis other).

(** ** Records *)

Record DispatchStamp := {
  dst_operation : HubRecordId;
  dst_stock_revision : HubRevision;
  dst_actor : PublicKey;
  dst_recorded_at : UnixTimestamp;
  dst_observation : SourceProvenance
}.
#[global] Instance DispatchStamp_eq_dec : EqDecision DispatchStamp.
Proof. solve_decision. Defined.

Module IdentificationStatus.
Inductive IdentificationStatus := Issued | Superseded | Unused.
#[global] Instance IdentificationStatus_eq_dec : EqDecision IdentificationStatus.
Proof. solve_decision. Defined.
End IdentificationStatus.
Abbreviation IdentificationStatus := IdentificationStatus.IdentificationStatus.

Abbreviation u32 := (refined u32_range).
(** [n + 1] on [u32], modulo the width. *)
Definition u32_add_one (n : u32) : u32.
Proof.
  refine (Refined ((raw n + 1) mod 2 ^ 32) _). unfold u32_range.
  rewrite andb_true_iff, Z.leb_le, Z.ltb_lt. by apply Z.mod_pos_bound.
Defined.

Record IdentificationVersion := {
  iv_id : HubRecordId;
  iv_number : u32;
  iv_previous : option HubRecordId;
  iv_material : DispatchMaterial;
  iv_issued : DispatchStamp;
  iv_status : IdentificationStatus;
  iv_closed : option DispatchStamp
}.

Record DispatchRecord := {
  dr_id : HubRecordId;
  dr_hub : HubId;
  dr_revision : HubRevision;
  dr_created : DispatchStamp;
  dr_updated : DispatchStamp;
  dr_draft : option DispatchMaterial;
  dr_versions : list IdentificationVersion
}.

Section Records.
Context `{Sha256}.

Abbreviation stamp_revision s := (raw (dst_stock_revision s)).

(** The loop of [DispatchRecord::validate] over the versions: position, the
    version before, and the identifiers seen. *)
Definition validate_version (self : DispatchRecord) (index : nat)
    (prior : option IdentificationVersion) (ids : list (HubRecordId * unit))
    (version : IdentificationVersion) : result (list (HubRecordId * unit)) DispatchError :=
  DispatchMaterial_validate (iv_material version) ;;?
  let (fresh, ids') := bs_insert (iv_id version) ids in
  if (iv_id version ==? dr_id self) || negb fresh then Err DispatchError.InvalidHistory
  else
    let? derived := DispatchIdentities_from_operation_bytes (dst_operation (iv_issued version)) in
    if (di_identification derived !=? iv_id version)
       || negb (raw (iv_number version) =? Z.of_nat index + 1)
       || (iv_previous version !=? (iv_id <$> prior))
       || (raw (dm_stock_revision (iv_material version)) >=? stamp_revision (iv_issued version))
       || (stamp_revision (iv_issued version) <? stamp_revision (dr_created self))
       || (stamp_revision (iv_issued version) >? stamp_revision (dr_updated self))
       || negb (eqb (iv_status version ==? IdentificationStatus.Issued)
                  (is_none (iv_closed version)))
       || ((index + 1 <? length (dr_versions self))%nat
           && (iv_status version !=? IdentificationStatus.Superseded))
    then Err DispatchError.InvalidHistory
    else if is_some_and (iv_closed version) (fun closed =>
        (stamp_revision closed <=? stamp_revision (iv_issued version))
        || (stamp_revision closed >? stamp_revision (dr_updated self)))
    then Err DispatchError.InvalidHistory
    else if is_some_and prior (fun previous => iv_closed previous !=? Some (iv_issued version))
    then Err DispatchError.InvalidHistory
    else Ok ids'.

Fixpoint validate_versions (self : DispatchRecord) (index : nat)
    (prior : option IdentificationVersion) (ids : list (HubRecordId * unit))
    (rest : list IdentificationVersion) : result unit DispatchError :=
  match rest with
  | [] => Ok tt
  | version :: rest =>
      let? ids := validate_version self index prior ids version in
      validate_versions self (S index) (Some version) ids rest
  end.

(** The stamp the record was last updated with, from its last version. *)
Definition expected_update (last : IdentificationVersion) : result DispatchStamp DispatchError :=
  match iv_status last with
  | IdentificationStatus.Issued => Ok (iv_issued last)
  | IdentificationStatus.Unused => ok_or (iv_closed last) DispatchError.InvalidHistory
  | IdentificationStatus.Superseded => Err DispatchError.InvalidHistory
  end.

Definition is_unused (version : IdentificationVersion) : bool :=
  iv_status version ==? IdentificationStatus.Unused.

Definition DispatchRecord_validate (self : DispatchRecord) : result unit DispatchError :=
  let minimum_revision := Z.of_nat (length (dr_versions self)) + 1
    + (if is_some_and (last (dr_versions self)) is_unused then 1 else 0) in
  if (HUB_IDENTIFICATION_VERSIONS <? length (dr_versions self))%nat
     || negb (eqb (is_some (dr_draft self)) (length (dr_versions self) =? 0)%nat)
     || (stamp_revision (dr_created self) <? 2)
  then Err DispatchError.InvalidHistory
  else
    let? derived := DispatchIdentities_from_operation_bytes (dst_operation (dr_created self)) in
    if (di_preparation derived !=? dr_id self)
       || (stamp_revision (dr_created self) >? stamp_revision (dr_updated self))
       || ((dr_revision self ==? HubRevision_INITIAL) && (dr_created self !=? dr_updated self))
       || (raw (dr_revision self) <? minimum_revision)
       || is_none_or
            (u64_checked_sub (stamp_revision (dr_updated self)) (stamp_revision (dr_created self)))
            (fun advanced => advanced <? raw (dr_revision self) - 1)
    then Err DispatchError.InvalidHistory
    else
      match dr_draft self with
      | Some draft =>
          DispatchMaterial_validate draft ;;?
          if u64_checked_add (raw (dm_stock_revision draft)) 1
               !=? Some (stamp_revision (dr_updated self))
          then Err DispatchError.InvalidHistory else Ok tt
      | None => Ok tt
      end ;;?
      validate_versions self 0 None [] (dr_versions self) ;;?
      match last (dr_versions self) with
      | Some version =>
          let? update := expected_update version in
          if dr_updated self !=? update then Err DispatchError.InvalidHistory else Ok tt
      | None => Ok tt
      end.
End Records.

(** ** Commands *)

Record DispatchContext := {
  dc_hub : HubId;
  dc_stock_revision : HubRevision;
  dc_catalog : ReferenceCatalog;
  dc_sources : list DispatchSource;
  dc_current : option DispatchRecord
}.

Module DispatchAction.
Inductive DispatchAction :=
| Prepare (recipient : HubRecordId) (lines : DispatchSelection)
| Revise (preparation : HubRecordId) (expected_revision : HubRevision)
    (recipient : HubRecordId) (lines : DispatchSelection)
| Issue (preparation : HubRecordId) (expected_revision : HubRevision)
| Replace (preparation : HubRecordId) (expected_revision : HubRevision)
    (recipient : HubRecordId) (lines : DispatchSelection)
| MarkUnused (preparation : HubRecordId) (expected_revision : HubRevision).
End DispatchAction.
Abbreviation DispatchAction := DispatchAction.DispatchAction.

Record DispatchCommand := {
  dcm_expected_stock_revision : HubRevision;
  dcm_expected_catalog_revision : HubRevision;
  dcm_action : DispatchAction;
  dcm_observation : SourceProvenance
}.

Record DispatchPlan := {
  dp_stock_revision : HubRevision;
  dp_record : DispatchRecord
}.

Definition DispatchAction_target (self : DispatchAction) : option (HubRecordId * HubRevision) :=
  match self with
  | DispatchAction.Prepare _ _ => None
  | DispatchAction.Revise preparation expected_revision _ _
  | DispatchAction.Issue preparation expected_revision
  | DispatchAction.Replace preparation expected_revision _ _
  | DispatchAction.MarkUnused preparation expected_revision =>
      Some (preparation, expected_revision)
  end.

Definition DispatchAction_selection (self : DispatchAction) : option DispatchSelection :=
  match self with
  | DispatchAction.Prepare _ lines
  | DispatchAction.Revise _ _ _ lines
  | DispatchAction.Replace _ _ _ lines => Some lines
  | DispatchAction.Issue _ _ | DispatchAction.MarkUnused _ _ => None
  end.

Definition DispatchCommand_kind (self : DispatchCommand) : string :=
  match dcm_action self with
  | DispatchAction.Prepare _ _ => "dispatch_prepare"
  | DispatchAction.Revise _ _ _ _ => "dispatch_revise"
  | DispatchAction.Issue _ _ => "dispatch_issue"
  | DispatchAction.Replace _ _ _ _ => "dispatch_replace"
  | DispatchAction.MarkUnused _ _ => "dispatch_unused"
  end.

(** The [reference] closure of [DispatchMaterial::capture]. *)
Definition dispatch_reference (catalog : ReferenceCatalog) (id : HubRecordId)
    (kind : ReferenceKind) : result ReferenceRecord DispatchError :=
  map_err (fun _ => DispatchError.InvalidSelection)
    (ReferenceCatalog_require_kind catalog id kind).

(** The loop body of [DispatchMaterial::capture]. *)
Definition capture_line (context : DispatchContext) (input : DispatchLineInput)
  : result DispatchLineSnapshot DispatchError :=
  let? source := ok_or
    (List.find (fun source => pg_id (ds_group source) ==? dli_group input) (dc_sources context))
    DispatchError.InvalidSelection in
  let group := ds_group source in
  map_err (fun _ => DispatchError.InvalidSelection) (PhysicalStockGroup_validate group) ;;?
  if pg_revision group !=? dli_expected_group_revision input
  then Err DispatchError.StaleRevision
  else if dli_packs input !=? pg_packs group
  then Err DispatchError.PhysicalSeparationRequired
  else if (pg_trace group !=? sp_id (ds_trace source))
          || (pg_variant group !=? rr_id (sp_variant (ds_trace source)))
  then Err DispatchError.InvalidSelection
  else
    let? variant := dispatch_reference (dc_catalog context) (pg_variant group) ReferenceKind.Pack in
    let? product_id :=
      match rr_value variant with
      | ReferenceValue.Pack product _ _ => Ok product
      | _ => Err DispatchError.InvalidSelection
      end in
    let? location :=
      dispatch_reference (dc_catalog context) (pg_location group) ReferenceKind.Location in
    let? product :=
      dispatch_reference (dc_catalog context) product_id ReferenceKind.Product in
    Ok {| dl_group := pg_id group; dl_group_revision := pg_revision group;
          dl_packs := pg_packs group; dl_identification := pg_identification group;
          dl_location := location; dl_product := product; dl_variant := variant;
          dl_trace := ds_trace source |}.

Definition DispatchMaterial_capture (context : DispatchContext) (recipient : HubRecordId)
    (selection : DispatchSelection) (observation : SourceProvenance)
  : result DispatchMaterial DispatchError :=
  if negb (length (dc_sources context) =? length (raw selection))%nat
  then Err DispatchError.InvalidSelection
  else if any_repeated [] ((fun source => pg_id (ds_group source)) <$> dc_sources context)
  then Err DispatchError.InvalidSelection
  else
    let? lines := try_map (capture_line context) (raw selection) in
    let? recipient := dispatch_reference (dc_catalog context) recipient ReferenceKind.Party in
    let material := {|
      dm_stock_revision := dc_stock_revision context;
      dm_catalog_revision := rc_revision (dc_catalog context);
      dm_basis := ReferenceCatalog_handling_basis (dc_catalog context);
      dm_recipient := recipient;
      dm_lines := lines;
      dm_observation := observation
    |} in
    DispatchMaterial_validate material ;;?
    Ok material.

(** Field updates of the cloned record. *)
Definition dr_set (self : DispatchRecord) (draft : option DispatchMaterial)
    (versions : list IdentificationVersion) : DispatchRecord :=
  {| dr_id := dr_id self; dr_hub := dr_hub self; dr_revision := dr_revision self;
     dr_created := dr_created self; dr_updated := dr_updated self;
     dr_draft := draft; dr_versions := versions |}.
Definition dr_touch (self : DispatchRecord) (revision : HubRevision) (updated : DispatchStamp)
  : DispatchRecord :=
  {| dr_id := dr_id self; dr_hub := dr_hub self; dr_revision := revision;
     dr_created := dr_created self; dr_updated := updated;
     dr_draft := dr_draft self; dr_versions := dr_versions self |}.
Definition iv_close (self : IdentificationVersion) (status : IdentificationStatus)
    (closed : DispatchStamp) : IdentificationVersion :=
  {| iv_id := iv_id self; iv_number := iv_number self; iv_previous := iv_previous self;
     iv_material := iv_material self; iv_issued := iv_issued self;
     iv_status := status; iv_closed := Some closed |}.

(** A write through [last_mut]. *)
Definition set_last {A} (l : list A) (a : A) : list A := removelast l ++ [a].

Definition one32 : u32 := Refined 1 eq_refl.

(** The second [match] of [DispatchCommand::plan]: the effect on the record. *)
Definition dispatch_apply (self : DispatchCommand) (context : DispatchContext)
    (identities : DispatchIdentities) (stamp : DispatchStamp) (record : DispatchRecord)
  : result DispatchRecord DispatchError :=
  match dcm_action self with
  | DispatchAction.Prepare _ _ => Ok record
  | DispatchAction.Revise _ _ recipient lines =>
      if is_none (dr_draft record) then Err DispatchError.InvalidState
      else
        let? draft := DispatchMaterial_capture context recipient lines (dcm_observation self) in
        Ok (dr_set record (Some draft) (dr_versions record))
  | DispatchAction.Issue _ _ =>
      let? material := ok_or (dr_draft record) DispatchError.InvalidState in
      let? selection := DispatchMaterial_selection material in
      let? verified := DispatchMaterial_capture context (rr_id (dm_recipient material)) selection
        (dm_observation material) in
      if negb (DispatchMaterial_same_material material verified)
      then Err DispatchError.PreviewChanged
      else
        Ok (dr_set record None
          (dr_versions record ++
             [{| iv_id := di_identification identities; iv_number := one32;
                 iv_previous := None; iv_material := material; iv_issued := stamp;
                 iv_status := IdentificationStatus.Issued; iv_closed := None |}]))
  | DispatchAction.Replace _ _ recipient lines =>
      if (HUB_IDENTIFICATION_VERSIONS <=? length (dr_versions record))%nat
      then Err DispatchError.Capacity
      else
        let? previous := ok_or (last (dr_versions record)) DispatchError.InvalidState in
        if iv_status previous !=? IdentificationStatus.Issued then Err DispatchError.InvalidState
        else
          let? material := DispatchMaterial_capture context recipient lines
            (dcm_observation self) in
          if DispatchMaterial_same_material material (iv_material previous)
          then Err DispatchError.NoMaterialChange
          else
            Ok (dr_set record (dr_draft record)
              (set_last (dr_versions record)
                 (iv_close previous IdentificationStatus.Superseded stamp) ++
               [{| iv_id := di_identification identities;
                   iv_number := u32_add_one (iv_number previous);
                   iv_previous := Some (iv_id previous); iv_material := material;
                   iv_issued := stamp; iv_status := IdentificationStatus.Issued;
                   iv_closed := None |}]))
  | DispatchAction.MarkUnused _ _ =>
      let? issued := ok_or (last (dr_versions record)) DispatchError.InvalidState in
      if iv_status issued !=? IdentificationStatus.Issued then Err DispatchError.InvalidState
      else
        Ok (dr_set record (dr_draft record)
          (set_last (dr_versions record) (iv_close issued IdentificationStatus.Unused stamp)))
  end.

Section Plan.
Context `{Sha256}.

(** The first [match] of [DispatchCommand::plan]: the record it works on. *)
Definition dispatch_start (self : DispatchCommand) (context : DispatchContext)
    (identities : DispatchIdentities) (stamp : DispatchStamp)
  : result DispatchRecord DispatchError :=
  match dcm_action self, dc_current context with
  | DispatchAction.Prepare recipient lines, None =>
      let? draft := DispatchMaterial_capture context recipient lines (dcm_observation self) in
      Ok {| dr_id := di_preparation identities; dr_hub := dc_hub context;
            dr_revision := HubRevision_INITIAL; dr_created := stamp; dr_updated := stamp;
            dr_draft := Some draft; dr_versions := [] |}
  | _, Some current =>
      DispatchRecord_validate current ;;?
      if (DispatchAction_target (dcm_action self)
            !=? Some (dr_id current, dr_revision current))
         || (dr_hub current !=? dc_hub context)
      then Err DispatchError.StaleRevision
      else
        let? revision := dispatch_next (dr_revision current) in
        Ok (dr_touch current revision stamp)
  | _, None => Err DispatchError.InvalidState
  end.

Definition DispatchCommand_plan (self : DispatchCommand) (context : DispatchContext)
    (identities : DispatchIdentities) (actor : PublicKey) (now : UnixTimestamp)
  : result DispatchPlan DispatchError :=
  if (dcm_expected_stock_revision self !=? dc_stock_revision context)
     || (dcm_expected_catalog_revision self !=? rc_revision (dc_catalog context))
  then Err DispatchError.StaleRevision
  else
    let? derived := DispatchIdentities_from_operation_bytes (di_operation identities) in
    if identities !=? derived then Err DispatchError.InvalidSelection
    else
      let? stock_revision := dispatch_next (dc_stock_revision context) in
      let stamp := {|
        dst_operation := di_operation identities;
        dst_stock_revision := stock_revision;
        dst_actor := actor;
        dst_recorded_at := now;
        dst_observation := dcm_observation self
      |} in
      let? record := dispatch_start self context identities stamp in
      let? record := dispatch_apply self context identities stamp record in
      DispatchRecord_validate record ;;?
      Ok {| dp_stock_revision := stock_revision; dp_record := record |}.
End Plan.

(** ** Fingerprint *)

Definition enc_line_input (line : DispatchLineInput) : list byte :=
  enc_id (dli_group line) ++ enc_revision (dli_expected_group_revision line) ++
  enc_packs (dli_packs line).
Definition enc_target (target : option (HubRecordId * HubRevision)) : list byte :=
  match target with
  | Some (id, revision) => enc_id id ++ enc_revision revision
  | None => []
  end.
Definition enc_dispatch_material (action : DispatchAction) : list byte :=
  match action with
  | DispatchAction.Prepare recipient lines
  | DispatchAction.Revise _ _ recipient lines
  | DispatchAction.Replace _ _ recipient lines =>
      enc_id recipient ++ enc_counted 4 enc_line_input (raw lines)
  | DispatchAction.Issue _ _ | DispatchAction.MarkUnused _ _ => []
  end.
Definition DispatchCommand_message (self : DispatchCommand) (hub : HubId) (actor : PublicKey)
    (ids : DispatchIdentities) : list byte :=
  domain_tag "harvestcircle.hub.dispatch.command.v1" ++
  enc_hub hub ++ enc_key actor ++ enc_id (di_operation ids) ++ enc_id (di_preparation ids) ++
  enc_id (di_identification ids) ++
  enc_revision (dcm_expected_stock_revision self) ++
  enc_revision (dcm_expected_catalog_revision self) ++
  enc_text (literal (DispatchCommand_kind self)) ++
  enc_target (DispatchAction_target (dcm_action self)) ++
  enc_dispatch_material (dcm_action self) ++
  enc_hub_text (dcm_observation self).
Definition DispatchCommand_fingerprint `{Sha256} (self : DispatchCommand) (hub : HubId)
    (actor : PublicKey) (ids : DispatchIdentities) : array 32 :=
  digest32 (DispatchCommand_message self hub actor ids).

(** ** What the checks accept *)

Lemma dispatch_next_Ok r r' : dispatch_next r = Ok r' <-> raw r' = raw r + 1.
Proof.
  pose proof (HubRevision_range r) as Hr. unfold HubRevision_MAXIMUM, i64_MAX in Hr.
  unfold dispatch_next, u64_checked_add. rewrite (proj2 (Z.ltb_lt _ _)) by lia.
  destruct (HubRevision_from_value (raw r + 1)) as [n|] eqn:E; cbn [ok_or].
  - unfold HubRevision_from_value in E. apply checked_Ok in E. split; [congruence|].
    intros E'. f_equal. apply refined_eq. congruence.
  - split; [done|]. intros E'. unfold HubRevision_from_value in E.
    rewrite <- E', checked_raw in E. done.
Qed.
#[export] Hint Rewrite dispatch_next_Ok : okdb.

Lemma DispatchSelection_spec (s : DispatchSelection) :
  (1 <= length (raw s) <= HUB_DISPATCH_LINES)%nat /\
  Forall (fun line => 0 < raw (dli_packs line)) (raw s) /\ key_sorted dli_group (raw s).
Proof.
  apply (raw_elim (fun l => (1 <= length l <= HUB_DISPATCH_LINES)%nat /\
    Forall (fun line => 0 < raw (dli_packs line)) l /\ key_sorted dli_group l) s).
  intros l H. unfold DispatchSelection_check in H.
  apply andb_true_iff in H as [[[H1 H2]%andb_true_iff H3]%andb_true_iff H4].
  apply negb_true_iff, windows_strict in H4. breflect. split_and!; [lia..| |done].
  rewrite forallb_forall in H2. apply list.Forall_forall. intros x Hx%list_elem_of_In%H2.
  pose proof (WholePacks_range (dli_packs x)). breflect. lia.
Qed.

(** [DispatchSelection::new] sorts, and fails only on its checks. *)
Lemma DispatchSelection_new_Ok lines s :
  DispatchSelection_new lines = Ok s <->
  (1 <= length lines <= HUB_DISPATCH_LINES)%nat /\
  Forall (fun line => 0 < raw (dli_packs line)) lines /\ NoDup (dli_group <$> lines) /\
  raw s = sort_by_key dli_group lines.
Proof.
  unfold DispatchSelection_new. rewrite !guard_Ok, checked_Ok, sort_windows, orb_false_iff,
    Nat.eqb_neq, Nat.ltb_ge.
  assert (existsb (fun line => raw (dli_packs line) =? 0) lines = false <->
          Forall (fun line => 0 < raw (dli_packs line)) lines) as ->.
  { rewrite <- not_true_iff_false, existsb_exists, list.Forall_forall. split.
    - intros Hn x Hx. pose proof (WholePacks_range (dli_packs x)).
      destruct (Z.eq_dec (raw (dli_packs x)) 0) as [E|]; [|lia]. destruct Hn.
      exists x. by rewrite Z.eqb_eq, <- list_elem_of_In.
    - intros Hf (x & Hx%list_elem_of_In & E%Z.eqb_eq). specialize (Hf x Hx). lia. }
  assert (key_sorted dli_group (sort_by_key dli_group lines) <-> NoDup (dli_group <$> lines)) as ->.
  { split; [|apply sort_by_key_NoDup]. intros Hk%key_sorted_NoDup.
    by rewrite (sort_by_key_perm dli_group lines). }
  split; [intros ((? & ?) & ? & ? & ?)|intros ((? & ?) & ? & ? & ?)]; split_and!; try done; lia.
Qed.

Record line_ok (catalog_revision : HubRevision) (line : DispatchLineSnapshot) : Prop := {
  lo_packs : 0 < raw (dl_packs line);
  lo_product : ReferenceValue_kind (rr_value (dl_product line)) = ReferenceKind.Product;
  lo_location : ReferenceValue_kind (rr_value (dl_location line)) = ReferenceKind.Location;
  lo_variant : exists label grams,
    rr_value (dl_variant line) = ReferenceValue.Pack (rr_id (dl_product line)) label grams;
  lo_trace : rr_id (dl_variant line) = rr_id (sp_variant (dl_trace line)) /\
    rr_id (dl_product line) = rr_id (sp_product (dl_trace line));
  lo_revisions : raw (rr_revision (dl_product line)) <= raw catalog_revision /\
    raw (rr_revision (dl_variant line)) <= raw catalog_revision /\
    raw (rr_revision (dl_location line)) <= raw catalog_revision
}.

Record material_ok (m : DispatchMaterial) : Prop := {
  mo_length : (1 <= length (dm_lines m) <= HUB_DISPATCH_LINES)%nat;
  mo_sorted : key_sorted dl_group (dm_lines m);
  mo_recipient : ReferenceValue_kind (rr_value (dm_recipient m)) = ReferenceKind.Party;
  mo_revision : raw (rr_revision (dm_recipient m)) <= raw (dm_catalog_revision m);
  mo_lines : Forall (line_ok (dm_catalog_revision m)) (dm_lines m)
}.

Lemma validate_line_Ok c ids line ids' :
  validate_line c ids line = Ok ids' <->
  line_ok c line /\ bs_contains (dl_group line) ids = false /\
  ids' = (bs_insert (dl_group line) ids).2.
Proof.
  unfold validate_line. cbn [bs_insert snd]. rewrite guard_Ok, !orb_false_iff.
  autorewrite with reflect. cbn [existsb]. rewrite !orb_false_iff, !Z.ltb_ge.
  pose proof (WholePacks_range (dl_packs line)).
  assert (match rr_value (dl_variant line) with
          | ReferenceValue.Pack product _ _ => product ==? rr_id (dl_product line)
          | _ => false end = true <->
    exists label grams,
      rr_value (dl_variant line) = ReferenceValue.Pack (rr_id (dl_product line)) label grams) as Hv.
  { destruct (rr_value (dl_variant line)); rewrite ?bool_decide_eq_true; naive_solver. }
  rewrite Hv. split.
  - intros [? [= <-]]. destruct_and?. split_and!; [constructor; try done; lia|done..].
  - intros ([? ? ? (lb & gr & Hp) [? ?] (? & ? & ?)] & ? & ->).
    split_and!; try done; [lia|by rewrite Hp|by exists lb, gr].
Qed.

Lemma validate_lines_Ok c ids lines :
  (exists ids', try_fold (validate_line c) ids lines = Ok ids') <->
  Forall (line_ok c) lines /\ any_repeated ids (dl_group <$> lines) = false.
Proof.
  revert ids. induction lines as [|line lines IH]; intros ids; csimpl.
  { split; [|by eexists]. intros _. split; [constructor|done]. }
  setoid_rewrite bind_Ok. setoid_rewrite validate_line_Ok.
  rewrite list.Forall_cons, orb_false_iff, negb_involutive. fold (bs_contains (dl_group line) ids).
  specialize (IH (bt_insert (dl_group line) tt ids)). cbn [bs_insert snd].
  split.
  - intros (r & a & (? & ? & ->) & Hr). destruct (proj1 IH (ex_intro _ _ Hr)). done.
  - intros ([? ?] & ? & ?). destruct (proj2 IH) as [r Hr]; [done|]. by eexists _, _.
Qed.

Lemma material_validate_Ok m : DispatchMaterial_validate m = Ok tt <-> material_ok m.
Proof.
  unfold DispatchMaterial_validate. rewrite guard_Ok, !orb_false_iff, windows_strict, bind_Ok.
  autorewrite with reflect.
  pose proof (validate_lines_Ok (dm_catalog_revision m) [] (dm_lines m)) as Hl.
  rewrite any_repeated_false in Hl. split.
  - intros (((((? & ?) & ?) & ?) & ?) & r & Hr & _).
    destruct (proj1 Hl (ex_intro _ _ Hr)). constructor; try done; lia.
  - intros [? Hs ? ? ?]. destruct (proj2 Hl) as [r Hr].
    { split; [done|]. split; [by apply key_sorted_NoDup|]. by apply list.Forall_true. }
    split_and!; try done; try lia. by exists r.
Qed.
#[export] Hint Rewrite material_validate_Ok : okdb.

(** ** The invariant of a dispatch record *)

Section Invariant.
Context `{Sha256}.

Abbreviation stamp_revision s := (raw (dst_stock_revision s)).

(** The version before position [i]. *)
Definition prior_of (vs : list IdentificationVersion) (i : nat) : option IdentificationVersion :=
  match i with O => None | S j => vs !! j end.

Record version_ok (r : DispatchRecord) (i : nat) (prior : option IdentificationVersion)
    (v : IdentificationVersion) : Prop := {
  vo_material : material_ok (iv_material v);
  vo_apart : iv_id v <> dr_id r;
  vo_identity : exists d, DispatchIdentities_from_operation_bytes (dst_operation (iv_issued v)) = Ok d
    /\ di_identification d = iv_id v;
  vo_number : raw (iv_number v) = Z.of_nat i + 1;
  vo_previous : iv_previous v = iv_id <$> prior;
  vo_captured : raw (dm_stock_revision (iv_material v)) < stamp_revision (iv_issued v);
  vo_issued : stamp_revision (dr_created r) <= stamp_revision (iv_issued v)
    <= stamp_revision (dr_updated r);
  vo_open : iv_status v = IdentificationStatus.Issued <-> iv_closed v = None;
  vo_superseded : (i + 1 < length (dr_versions r))%nat ->
    iv_status v = IdentificationStatus.Superseded;
  vo_closed : forall c, iv_closed v = Some c ->
    stamp_revision (iv_issued v) < stamp_revision c <= stamp_revision (dr_updated r);
  vo_chain : forall p, prior = Some p -> iv_closed p = Some (iv_issued v)
}.

Record record_ok (r : DispatchRecord) : Prop := {
  ro_count : (length (dr_versions r) <= HUB_IDENTIFICATION_VERSIONS)%nat;
  ro_draft : is_Some (dr_draft r) <-> dr_versions r = [];
  ro_created : 2 <= stamp_revision (dr_created r);
  ro_identity : exists d, DispatchIdentities_from_operation_bytes (dst_operation (dr_created r)) = Ok d
    /\ di_preparation d = dr_id r;
  ro_updated : stamp_revision (dr_created r) <= stamp_revision (dr_updated r);
  ro_initial : dr_revision r = HubRevision_INITIAL -> dr_created r = dr_updated r;
  ro_revision : Z.of_nat (length (dr_versions r)) + 1
    + (if is_some_and (last (dr_versions r)) is_unused then 1 else 0) <= raw (dr_revision r);
  ro_advanced : raw (dr_revision r) - 1
    <= stamp_revision (dr_updated r) - stamp_revision (dr_created r);
  ro_preview : forall d, dr_draft r = Some d ->
    material_ok d /\ raw (dm_stock_revision d) + 1 = stamp_revision (dr_updated r);
  ro_versions : forall i v, dr_versions r !! i = Some v ->
    version_ok r i (prior_of (dr_versions r) i) v;
  ro_distinct : NoDup (iv_id <$> dr_versions r);
  ro_last : forall v, last (dr_versions r) = Some v -> expected_update v = Ok (dr_updated r)
}.

Lemma some_and_false {A} (o : option A) (p : A -> bool) :
  is_some_and o p = false <-> forall a, o = Some a -> p a = false.
Proof. destruct o; simpl; naive_solver. Qed.

Lemma none_or_false {A} (o : option A) (p : A -> bool) :
  is_none_or o p = false <-> exists a, o = Some a /\ p a = false.
Proof. destruct o; simpl; naive_solver. Qed.

Lemma eqb_iff (a b : bool) (P Q : Prop) :
  (a = true <-> P) -> (b = true <-> Q) -> negb (eqb a b) = false <-> (P <-> Q).
Proof. intros <- <-. destruct a, b; simpl; naive_solver. Qed.

Lemma is_none_true {A} (o : option A) : is_none o = true <-> o = None.
Proof. destruct o; simpl; naive_solver. Qed.
Lemma is_some_true {A} (o : option A) : is_some o = true <-> is_Some o.
Proof. rewrite is_Some_alt. destruct o; naive_solver. Qed.

Lemma validate_version_Ok r i prior ids v ids' :
  validate_version r i prior ids v = Ok ids' <->
  version_ok r i prior v /\ bs_contains (iv_id v) ids = false /\
  ids' = (bs_insert (iv_id v) ids).2.
Proof.
  unfold validate_version. cbn [bs_insert snd]. fold (bs_contains (iv_id v) ids).
  rewrite seq_Ok, material_validate_Ok, guard_Ok, bind_Ok, orb_false_iff, bool_decide_eq_false,
    negb_involutive.
  pose proof (eqb_iff _ _ _ _ (bool_decide_eq_true (iv_status v = IdentificationStatus.Issued))
    (is_none_true (iv_closed v))) as Ho.
  split.
  - intros (? & (? & ?) & d & ? & Hk). rewrite !guard_Ok, !orb_false_iff, Ho, !some_and_false in Hk.
    destruct Hk as (Hb & Hc & Hp & [= <-]). breflect.
    split_and!; [|done..]. constructor; try done; [by exists d|naive_solver lia|..].
    + intros c Hcv. specialize (Hc c Hcv). breflect. lia.
    + intros p Hpv. specialize (Hp p Hpv). by breflect.
  - intros ([? ? (d & ? & ?) ? ? ? [? ?] ? Hs Hc Hp] & ? & ->). split_and!; try done.
    exists d. split; [done|]. rewrite !guard_Ok, !orb_false_iff, Ho, !some_and_false.
    autorewrite with reflect. split_and!; try done.
    + destruct (Nat.ltb_spec (i + 1) (length (dr_versions r))); [|by left]. right. by apply Hs.
    + intros c Hcv. specialize (Hc c Hcv). autorewrite with reflect. lia.
    + intros p Hpv. specialize (Hp p Hpv). by autorewrite with reflect.
Qed.

Lemma validate_versions_Ok r i prior ids rest :
  validate_versions r i prior ids rest = Ok tt <->
  any_repeated ids (iv_id <$> rest) = false /\
  forall k v, rest !! k = Some v ->
    version_ok r (i + k) (match k with O => prior | S j => rest !! j end) v.
Proof.
  revert i prior ids. induction rest as [|v rest IH]; intros i prior ids; csimpl.
  { split; [|done]. intros _. split; [done|]. intros k w Hk. by rewrite lookup_nil in Hk. }
  rewrite bind_Ok. setoid_rewrite validate_version_Ok.
  rewrite orb_false_iff, negb_involutive. fold (bs_contains (iv_id v) ids). split.
  - intros (ids' & (Hv & Hf & ->) & [? Ht]%IH). split; [done|].
    intros [|k] w Hk; simpl in Hk.
    + injection Hk as <-. by rewrite Nat.add_0_r.
    + specialize (Ht k w Hk). replace (i + S k)%nat with (S i + k)%nat by lia. by destruct k.
  - intros [[Hf Hr] Ht]. eexists. split.
    + split_and!; [|done..]. specialize (Ht O v eq_refl). by rewrite Nat.add_0_r in Ht.
    + apply IH. split; [done|]. intros k w Hk. specialize (Ht (S k) w Hk).
      replace (i + S k)%nat with (S i + k)%nat in Ht by lia. by destruct k.
Qed.

Lemma preview_Ok r d :
  (DispatchMaterial_validate d ;;?
   if u64_checked_add (raw (dm_stock_revision d)) 1 !=? Some (stamp_revision (dr_updated r))
   then Err DispatchError.InvalidHistory else Ok tt) = Ok tt <->
  material_ok d /\ raw (dm_stock_revision d) + 1 = stamp_revision (dr_updated r).
Proof.
  rewrite seq_Ok, guard_Ok, material_validate_Ok, negb_false_iff, bool_decide_eq_true.
  unfold u64_checked_add. pose proof (HubRevision_range (dm_stock_revision d)) as Hr.
  unfold HubRevision_MAXIMUM, i64_MAX in Hr. rewrite (proj2 (Z.ltb_lt _ _)) by lia.
  split; [intros (? & [= ?] & _)|intros [? ->]]; done.
Qed.

Lemma last_update_Ok r :
  match last (dr_versions r) with
  | Some version =>
      let? update := expected_update version in
      if dr_updated r !=? update then Err DispatchError.InvalidHistory else Ok tt
  | None => Ok tt
  end = Ok tt <->
  forall v, last (dr_versions r) = Some v -> expected_update v = Ok (dr_updated r).
Proof.
  destruct (last (dr_versions r)) as [v|]; [|naive_solver]. rewrite bind_Ok.
  setoid_rewrite guard_Ok. setoid_rewrite negb_false_iff. setoid_rewrite bool_decide_eq_true.
  split.
  - intros (u & Hu & -> & _) w [= <-]. done.
  - intros Hv. exists (dr_updated r). by split_and!; [apply Hv|..].
Qed.

Lemma record_validate_Ok r : DispatchRecord_validate r = Ok tt <-> record_ok r.
Proof.
  unfold DispatchRecord_validate. rewrite guard_Ok, bind_Ok, !orb_false_iff.
  pose proof (eqb_iff _ _ _ _ (is_some_true (dr_draft r))
    (Nat.eqb_eq (length (dr_versions r)) 0)) as ->.
  rewrite length_zero_iff_nil, Nat.ltb_ge, Z.ltb_ge. split.
  - intros (((? & ?) & ?) & d & ? & Hk).
    rewrite guard_Ok, !orb_false_iff, none_or_false, !seq_Ok, last_update_Ok, validate_versions_Ok,
      any_repeated_false in Hk.
    destruct Hk as (Hb & Hdr & ((? & _) & ?) & ?). destruct Hb as [Hb (a & Ha & ?)].
    unfold u64_checked_sub in Ha. destruct (Z.leb_spec (stamp_revision (dr_created r))
      (stamp_revision (dr_updated r))); [injection Ha as <-|done]. breflect.
    constructor; try done; [by exists d|naive_solver|].
    intros d' Hd'. rewrite Hd' in Hdr. by apply preview_Ok.
  - intros [? ? ? (d & ? & ?) ? ? ? ? Hp ? ? ?]. split_and!; [done..|]. exists d.
    split; [done|]. rewrite guard_Ok, !orb_false_iff, none_or_false, !seq_Ok, last_update_Ok,
      validate_versions_Ok, any_repeated_false. autorewrite with reflect.
    split_and!; try done.
    + destruct (decide (dr_revision r = HubRevision_INITIAL)); [right|left]; auto.
    + exists (stamp_revision (dr_updated r) - stamp_revision (dr_created r)).
      unfold u64_checked_sub. rewrite (proj2 (Z.leb_le _ _)), Z.ltb_ge by done. split; [done|lia].
    + destruct (dr_draft r) as [d'|]; [|done]. apply preview_Ok. by apply Hp.
    + by apply list.Forall_true.
Qed.
End Invariant.

(** ** Capture *)

(** [line] is the whole current group [source] that [input] names, with the
    catalog's current records. *)
Record line_captured (ctx : DispatchContext) (input : DispatchLineInput) (source : DispatchSource)
    (line : DispatchLineSnapshot) : Prop := {
  lc_source : source ∈ dc_sources ctx;
  lc_group : pg_id (ds_group source) = dli_group input;
  lc_valid : group_ok (ds_group source);
  lc_revision : pg_revision (ds_group source) = dli_expected_group_revision input;
  lc_whole : pg_packs (ds_group source) = dli_packs input;
  lc_trace : pg_trace (ds_group source) = sp_id (ds_trace source) /\
    pg_variant (ds_group source) = rr_id (sp_variant (ds_trace source));
  lc_variant : bt_get (pg_variant (ds_group source)) (rc_records (dc_catalog ctx))
    = Some (dl_variant line);
  lc_product : exists product label grams,
    rr_value (dl_variant line) = ReferenceValue.Pack product label grams /\
    bt_get product (rc_records (dc_catalog ctx)) = Some (dl_product line) /\
    ReferenceValue_kind (rr_value (dl_product line)) = ReferenceKind.Product;
  lc_location : bt_get (pg_location (ds_group source)) (rc_records (dc_catalog ctx))
    = Some (dl_location line) /\
    ReferenceValue_kind (rr_value (dl_location line)) = ReferenceKind.Location;
  lc_snapshot : dl_group line = pg_id (ds_group source) /\
    dl_group_revision line = pg_revision (ds_group source) /\
    dl_packs line = pg_packs (ds_group source) /\
    dl_identification line = pg_identification (ds_group source) /\
    dl_trace line = ds_trace source
}.

Definition source_id (s : DispatchSource) : HubRecordId := pg_id (ds_group s).

Lemma find_source sources s g :
  NoDup (source_id <$> sources) -> s ∈ sources -> source_id s = g ->
  List.find (fun source => pg_id (ds_group source) ==? g) sources = Some s.
Proof.
  induction sources as [|a sources IH]; csimpl; [by intros _ ?%not_elem_of_nil|].
  intros [Hn Hd]%NoDup_cons [->|Hs]%elem_of_cons Hg.
  - by rewrite bool_decide_eq_true_2.
  - rewrite bool_decide_eq_false_2; [by apply IH|]. intros E. apply Hn.
    apply list_elem_of_fmap. exists s. split; [by unfold source_id in *; congruence|done].
Qed.

Lemma capture_line_Ok ctx input line :
  NoDup (source_id <$> dc_sources ctx) ->
  capture_line ctx input = Ok line <-> exists source, line_captured ctx input source line.
Proof.
  intros Hn. unfold capture_line, dispatch_reference. split.
  - intros H. run_ok. rewrite !require_kind_Ok, validate_Ok in *. breflect.
    match goal with F : List.find _ _ = Some ?s |- _ =>
      apply List.find_some in F as [Hin%list_elem_of_In Hg%bool_decide_eq_true]; exists s end.
    destruct_and?. constructor; simpl; try done. by eexists _, _, _.
  - intros (s & [? Hg ? ? ? [? ?] ? (pr & lb & gr & Hv & ? & ?) [? ?] (? & ? & ? & ? & ?)]).
    rewrite (find_source _ s _ Hn) by done. cbn [ok_or bind].
    rewrite (proj2 (validate_Ok _)) by done. cbn [map_err bind].
    rewrite !bool_decide_eq_true_2 by congruence. cbn [negb orb].
    rewrite (proj2 (require_kind_Ok _ _ _ (dl_variant line)))
      by (split; [done|by rewrite Hv]).
    cbn [map_err bind]. rewrite Hv. cbn [bind].
    rewrite (proj2 (require_kind_Ok _ _ _ (dl_location line))) by done.
    rewrite (proj2 (require_kind_Ok _ _ _ (dl_product line))) by done.
    cbn [map_err bind]. destruct line; simpl in *. by subst.
Qed.

(** What a captured material records of the context. *)
Record material_captured (ctx : DispatchContext) (recipient : HubRecordId)
    (selection : DispatchSelection) (observation : SourceProvenance) (m : DispatchMaterial)
  : Prop := {
  mc_sources : length (dc_sources ctx) = length (raw selection);
  mc_distinct : NoDup (source_id <$> dc_sources ctx);
  mc_lines : Forall2 (fun input line => exists source, line_captured ctx input source line /\
      rr_id (dl_product line) = rr_id (sp_product (ds_trace source)))
    (raw selection) (dm_lines m);
  mc_recipient : bt_get recipient (rc_records (dc_catalog ctx)) = Some (dm_recipient m) /\
    ReferenceValue_kind (rr_value (dm_recipient m)) = ReferenceKind.Party;
  mc_revisions : dm_stock_revision m = dc_stock_revision ctx /\
    dm_catalog_revision m = rc_revision (dc_catalog ctx);
  mc_basis : dm_basis m = WHOLE_PACK_V1;
  mc_observation : dm_observation m = observation
}.

Lemma captured_input ctx input source line :
  line_captured ctx input source line -> line_input line = input.
Proof.
  intros [? ? ? ? ? ? ? ? ? (? & ? & ? & ? & ?)]. destruct input; unfold line_input; simpl in *.
  f_equal; congruence.
Qed.

Lemma captured_inputs ctx (P : DispatchSource -> DispatchLineSnapshot -> Prop) inputs lines :
  Forall2 (fun input line => exists source, line_captured ctx input source line /\ P source line)
    inputs lines -> line_input <$> lines = inputs.
Proof.
  induction 1 as [|input line inputs lines (s & Hc & _) _ IH]; csimpl; [done|].
  f_equal; [by eapply captured_input|done].
Qed.

Lemma key_sorted_map {A B K} `{TotalOrd K} (f : A -> B) (ka : A -> K) (kb : B -> K) l :
  (forall a, kb (f a) = ka a) -> key_sorted kb (f <$> l) <-> key_sorted ka l.
Proof.
  intros Hf. induction l as [|a l IH]; csimpl; [by split; constructor|].
  rewrite !key_sorted_cons, IH, list.Forall_fmap. apply and_iff_compat_r, list.Forall_iff.
  intros b. unfold compose. by rewrite !Hf.
Qed.

Lemma captured_line_ok ctx input source line :
  catalog_wf (dc_catalog ctx) -> line_captured ctx input source line ->
  rr_id (dl_product line) = rr_id (sp_product (ds_trace source)) <->
  line_ok (rc_revision (dc_catalog ctx)) line.
Proof.
  intros Hwf [? ? Hv ? ? [? ?] Hvar (pr & lb & gr & Hp & Hpg & ?) [? ?] (? & ? & Hpk & ? & Ht)].
  pose proof (cw_keys _ Hwf _ _ Hpg) as Hk. pose proof (cw_keys _ Hwf _ _ Hvar).
  split; [|by intros []; destruct lo_trace0; congruence].
  intros Hx. constructor; try done.
  - rewrite Hpk. apply Hv.
  - exists lb, gr. by rewrite Hp, Hk.
  - rewrite Ht. split; congruence.
  - split_and!; by eapply cw_revisions.
Qed.

Lemma dispatch_capture_Ok ctx recipient selection observation m :
  catalog_wf (dc_catalog ctx) ->
  DispatchMaterial_capture ctx recipient selection observation = Ok m <->
  material_captured ctx recipient selection observation m.
Proof.
  intros Hwf. unfold DispatchMaterial_capture, dispatch_reference.
  rewrite !guard_Ok, negb_false_iff, Nat.eqb_eq, any_repeated_false, bind_Ok. fold source_id.
  setoid_rewrite try_map_Ok. split.
  - intros (Hlen & [Hn _] & lines & Hl & H). run_ok. rewrite require_kind_Ok in *.
    rewrite material_validate_Ok in *.
    match goal with M : material_ok _ |- _ => destruct M as [_ _ _ _ Hok] end.
    constructor; simpl in *; try done. clear - Hl Hok Hwf Hn.
    induction Hl as [|input line inputs lines Hc _ IH]; inversion_clear Hok; constructor; [|auto].
    apply capture_line_Ok in Hc as (s & Hs); [|done]. exists s. split; [done|].
    by apply (captured_line_ok ctx input s line).
  - intros [Hlen Hn Hl [Hr Hk] [? ?] ? ?]. split_and!; [done..|by apply list.Forall_true|].
    exists (dm_lines m). split.
    { eapply Forall2_impl; [exact Hl|]. intros i l (s & Hs & _). apply capture_line_Ok; eauto. }
    rewrite (proj2 (require_kind_Ok _ _ _ (dm_recipient m))) by done. cbn [map_err bind].
    assert (material_ok m) as Hm.
    { pose proof (DispatchSelection_spec selection) as (Hsz & _ & Hs).
      pose proof (captured_inputs _ _ _ _ Hl) as Hi. pose proof (Forall2_length _ _ _ Hl).
      constructor; try done; [lia|..].
      - rewrite <- Hi in Hs. by apply (key_sorted_map line_input dl_group dli_group) in Hs.
      - replace (dm_catalog_revision m) with (rc_revision (dc_catalog ctx)).
        by eapply cw_revisions.
      - replace (dm_catalog_revision m) with (rc_revision (dc_catalog ctx)).
        apply list.Forall_forall. intros line (i & Hi')%list_elem_of_lookup.
        destruct (Forall2_lookup_r _ _ _ _ _ Hl Hi') as (input & _ & s & Hc & Hp).
        by apply (captured_line_ok ctx input s line). }
    destruct m; simpl in *; subst. rewrite (proj2 (material_validate_Ok _)) by done. done.
Qed.

Lemma u32_fold_sum total lines :
  0 <= total -> total + Z.of_nat (length lines) * HUB_MAX_WHOLE_PACKS < 2 ^ 32 ->
  try_fold (fun total line =>
      ok_or (u32_checked_add total (raw (dl_packs line))) DispatchError.Capacity) total lines
  = Ok (total + sum_packs (dl_packs <$> lines)).
Proof.
  revert total. induction lines as [|line lines IH]; intros total Ht Hb; csimpl.
  { by rewrite Z.add_0_r. }
  pose proof (WholePacks_range (dl_packs line)). cbn [length] in Hb.
  unfold HUB_MAX_WHOLE_PACKS, u32_checked_add in *.
  rewrite (proj2 (Z.ltb_lt _ _)) by lia. cbn [ok_or bind]. rewrite IH by lia.
  f_equal. lia.
Qed.

Lemma total_packs_sum m :
  material_ok m -> DispatchMaterial_total_packs m = Ok (sum_packs (dl_packs <$> dm_lines m)).
Proof.
  intros Hm. unfold DispatchMaterial_total_packs. rewrite (proj2 (material_validate_Ok _) Hm).
  cbn [bind]. apply u32_fold_sum; [done|]. pose proof (mo_length _ Hm).
  unfold HUB_DISPATCH_LINES, HUB_MAX_WHOLE_PACKS in *. lia.
Qed.

Lemma selection_of_inputs m (sel : DispatchSelection) :
  line_input <$> dm_lines m = raw sel -> DispatchMaterial_selection m = Ok sel.
Proof.
  intros Hi. unfold DispatchMaterial_selection. rewrite Hi.
  pose proof (DispatchSelection_spec sel) as (? & ? & Hs).
  apply DispatchSelection_new_Ok. split_and!; try done; try lia.
  - by apply key_sorted_NoDup.
  - symmetry. by apply sort_by_key_id.
Qed.

(** A dispatch preview is captured exactly when the sources are the
    distinct current groups the selection names, each taken whole at the
    expected revision, consistent with its receipt, and every reference is in
    the catalog with the right kind; the captured lines are those groups with
    the catalog's current records, in selection order. *)
Theorem capture_correct ctx recipient selection observation :
  catalog_wf (dc_catalog ctx) ->
  match DispatchMaterial_capture ctx recipient selection observation with
  | Ok m => material_captured ctx recipient selection observation m
  | Err _ => forall m, ~ material_captured ctx recipient selection observation m
  end.
Proof.
  intros Hwf. destruct (DispatchMaterial_capture _ _ _ _) as [m|e] eqn:E.
  - by apply dispatch_capture_Ok.
  - intros m Hm. apply dispatch_capture_Ok in Hm; [|done]. congruence.
Qed.

(** What a preview captured can be captured again: reading the selection,
    the recipient and the observation back from the material and capturing them
    in the same context gives the same material, and its pack total is the sum
    over its lines, which never overflows. *)
Theorem capture_again ctx recipient selection observation m :
  catalog_wf (dc_catalog ctx) ->
  DispatchMaterial_capture ctx recipient selection observation = Ok m ->
  DispatchMaterial_selection m = Ok selection /\
  DispatchMaterial_capture ctx (rr_id (dm_recipient m)) selection (dm_observation m) = Ok m /\
  DispatchMaterial_total_packs m = Ok (sum_packs (dl_packs <$> dm_lines m)).
Proof.
  intros Hwf Hm. assert (DispatchMaterial_validate m = Ok tt) as Hv.
  { unfold DispatchMaterial_capture in Hm. by run_ok. }
  pose proof (proj1 (dispatch_capture_Ok _ _ _ _ _ Hwf) Hm) as Hc. split_and!.
  - eapply selection_of_inputs, captured_inputs, Hc.
  - rewrite (cw_keys _ Hwf _ _ (proj1 (mc_recipient _ _ _ _ _ Hc))).
    by rewrite (mc_observation _ _ _ _ _ Hc).
  - by apply total_packs_sum, material_validate_Ok.
Qed.

(** ** Papers and their history *)

Lemma set_last_app {A} (l : list A) (a b : A) : set_last (l ++ [a]) b = l ++ [b].
Proof. unfold set_last. by rewrite removelast_last. Qed.

(** What was printed: everything of a version but its closing. *)
Definition same_paper (v w : IdentificationVersion) : Prop :=
  iv_id w = iv_id v /\ iv_number w = iv_number v /\ iv_previous w = iv_previous v /\
  iv_material w = iv_material v /\ iv_issued w = iv_issued v.

(** A version may be closed once, and only then changes. *)
Definition evolves (v w : IdentificationVersion) : Prop :=
  same_paper v w /\
  (w = v \/ iv_status v = IdentificationStatus.Issued /\
            iv_status w <> IdentificationStatus.Issued /\ is_Some (iv_closed w)).

Lemma same_paper_trans v w x : same_paper v w -> same_paper w x -> same_paper v x.
Proof. unfold same_paper. intros (? & ? & ? & ? & ?) (? & ? & ? & ? & ?). split_and!; congruence. Qed.

#[global] Instance evolves_preorder : PreOrder evolves.
Proof.
  split.
  - intros v. split; [by split_and!|by left].
  - intros v w x [Hp Hv] [Hq Hw]. split; [by eapply same_paper_trans|].
    destruct Hv as [->|(? & ? & ?)]; [done|]. destruct Hw as [->|(? & _)]; [by right|done].
Qed.

Section Papers.
Context `{Sha256}.

Abbreviation stamp_revision s := (raw (dst_stock_revision s)).

(** The history a record shows: consecutive numbers, one standing paper at
    most, and every replaced paper closed by the stamp of its replacement. *)
Record paper_trail (r : DispatchRecord) : Prop := {
  pt_stage : is_Some (dr_draft r) <-> dr_versions r = [];
  pt_numbers : forall i v, dr_versions r !! i = Some v -> raw (iv_number v) = Z.of_nat i + 1;
  pt_distinct : NoDup (dr_id r :: (iv_id <$> dr_versions r));
  pt_standing : forall i v, dr_versions r !! i = Some v ->
    iv_status v = IdentificationStatus.Superseded <-> (S i < length (dr_versions r))%nat;
  pt_replaced : forall i v w, dr_versions r !! i = Some v -> dr_versions r !! S i = Some w ->
    iv_previous w = Some (iv_id v) /\ iv_closed v = Some (iv_issued w) /\
    stamp_revision (iv_issued v) < stamp_revision (iv_issued w);
  pt_one_open : forall i j v w, dr_versions r !! i = Some v -> dr_versions r !! j = Some w ->
    iv_status v = IdentificationStatus.Issued -> iv_status w = IdentificationStatus.Issued -> i = j;
  pt_current : forall v, last (dr_versions r) = Some v ->
    iv_status v = IdentificationStatus.Issued -> dr_updated r = iv_issued v
}.

Lemma last_not_superseded r v :
  record_ok r -> last (dr_versions r) = Some v -> iv_status v <> IdentificationStatus.Superseded.
Proof.
  intros Hr Hl E. pose proof (ro_last _ Hr v Hl) as Hu. unfold expected_update in Hu.
  by rewrite E in Hu.
Qed.

Lemma standing r i v :
  record_ok r -> dr_versions r !! i = Some v ->
  iv_status v = IdentificationStatus.Superseded <-> (S i < length (dr_versions r))%nat.
Proof.
  intros Hr Hv. pose proof (lookup_lt_Some _ _ _ Hv). split.
  - intros Hs. destruct (decide (S i = length (dr_versions r))) as [E|]; [|lia].
    exfalso. apply (last_not_superseded r v); [done| |done].
    rewrite last_lookup, <- E. by simpl.
  - intros Hlt. pose proof (ro_versions _ Hr i v Hv) as Ho. apply (vo_superseded _ _ _ _ Ho). lia.
Qed.

Lemma record_paper_trail r : record_ok r -> paper_trail r.
Proof.
  intros Hr. constructor.
  - apply Hr.
  - intros i v Hv. by destruct (ro_versions _ Hr i v Hv).
  - apply NoDup_cons. split; [|apply Hr]. intros (v & E & (i & Hi)%list_elem_of_lookup)%list_elem_of_fmap.
    by destruct (ro_versions _ Hr i v Hi).
  - intros i v. by apply standing.
  - intros i v w Hv Hw. destruct (ro_versions _ Hr (S i) w Hw). simpl in *.
    rewrite Hv in vo_previous0. specialize (vo_chain0 v Hv).
    split_and!; [done..|]. destruct (ro_versions _ Hr i v Hv) as [].
    by destruct (vo_closed1 _ vo_chain0).
  - assert (forall i v, dr_versions r !! i = Some v ->
      iv_status v = IdentificationStatus.Issued -> S i = length (dr_versions r)) as Hl.
    { intros i v Hv Hs. pose proof (lookup_lt_Some _ _ _ Hv).
      destruct (decide (S i < length (dr_versions r))%nat) as [Hlt|]; [|lia].
      apply (standing r i v) in Hlt; [congruence|done..]. }
    intros i j v w Hv Hw Hs Ht. apply Hl in Hv, Hw; [lia|done..].
  - intros v Hl Hs. pose proof (ro_last _ Hr v Hl) as Hu. unfold expected_update in Hu.
    rewrite Hs in Hu. congruence.
Qed.

(** In every record the code accepts, the identifications are numbered
    from one without gaps and have distinct identities; every one but the last
    is superseded and names, in its closing stamp, the moment its successor was
    issued; at most one is in force, and it is the last; a draft exists exactly
    while nothing has been issued. *)
Theorem single_identification r :
  DispatchRecord_validate r = Ok tt -> paper_trail r.
Proof. intros Hr. by apply record_paper_trail, record_validate_Ok. Qed.
End Papers.

(** ** What a planned command does *)

Section Effects.
Context `{Sha256}.

(** The effect of an action on the current record, whose last step carries
    [stamp]. *)
Definition dispatch_change (cmd : DispatchCommand) (ctx : DispatchContext)
    (ids : DispatchIdentities) (stamp : DispatchStamp) (cur r : DispatchRecord) : Prop :=
  match dcm_action cmd with
  | DispatchAction.Prepare _ _ => False
  | DispatchAction.Revise _ _ recipient lines =>
      is_Some (dr_draft cur) /\ dr_versions r = [] /\
      exists m, DispatchMaterial_capture ctx recipient lines (dcm_observation cmd) = Ok m /\
        dr_draft r = Some m
  | DispatchAction.Issue _ _ =>
      exists m verified, dr_draft cur = Some m /\ dr_draft r = None /\
        dr_versions r = [{| iv_id := di_identification ids; iv_number := one32; iv_previous := None;
          iv_material := m; iv_issued := stamp; iv_status := IdentificationStatus.Issued;
          iv_closed := None |}] /\
        (exists selection, DispatchMaterial_selection m = Ok selection /\
           DispatchMaterial_capture ctx (rr_id (dm_recipient m)) selection (dm_observation m)
           = Ok verified) /\
        dm_lines verified = dm_lines m /\ dm_recipient verified = dm_recipient m
  | DispatchAction.Replace _ _ recipient lines =>
      exists earlier v m w, dr_versions cur = earlier ++ [v] /\
        iv_status v = IdentificationStatus.Issued /\ dr_draft r = None /\
        DispatchMaterial_capture ctx recipient lines (dcm_observation cmd) = Ok m /\
        DispatchMaterial_same_material m (iv_material v) = false /\
        dr_versions r = earlier ++ [iv_close v IdentificationStatus.Superseded stamp; w] /\
        iv_id w = di_identification ids /\ raw (iv_number w) = raw (iv_number v) + 1 /\
        iv_previous w = Some (iv_id v) /\ iv_material w = m /\ iv_issued w = stamp /\
        iv_status w = IdentificationStatus.Issued /\ iv_closed w = None
  | DispatchAction.MarkUnused _ _ =>
      exists earlier v, dr_versions cur = earlier ++ [v] /\
        iv_status v = IdentificationStatus.Issued /\ dr_draft r = None /\
        dr_versions r = earlier ++ [iv_close v IdentificationStatus.Unused stamp]
  end.

Record dispatch_effect (cmd : DispatchCommand) (ctx : DispatchContext) (ids : DispatchIdentities)
    (actor : PublicKey) (now : UnixTimestamp) (p : DispatchPlan) : Prop := {
  de_fresh : dcm_expected_stock_revision cmd = dc_stock_revision ctx /\
    dcm_expected_catalog_revision cmd = rc_revision (dc_catalog ctx);
  de_stock : raw (dp_stock_revision p) = raw (dc_stock_revision ctx) + 1;
  de_valid : record_ok (dp_record p);
  de_hub : dr_hub (dp_record p) = dc_hub ctx;
  de_stamp : dr_updated (dp_record p) =
    {| dst_operation := di_operation ids; dst_stock_revision := dp_stock_revision p;
       dst_actor := actor; dst_recorded_at := now; dst_observation := dcm_observation cmd |};
  de_record :
    match dc_current ctx with
    | None =>
        exists recipient lines m, dcm_action cmd = DispatchAction.Prepare recipient lines /\
          DispatchMaterial_capture ctx recipient lines (dcm_observation cmd) = Ok m /\
          dr_id (dp_record p) = di_preparation ids /\
          dr_revision (dp_record p) = HubRevision_INITIAL /\
          dr_created (dp_record p) = dr_updated (dp_record p) /\
          dr_draft (dp_record p) = Some m /\ dr_versions (dp_record p) = []
    | Some cur =>
        record_ok cur /\
        DispatchAction_target (dcm_action cmd) = Some (dr_id cur, dr_revision cur) /\
        dr_id (dp_record p) = dr_id cur /\ dr_hub cur = dc_hub ctx /\
        dr_created (dp_record p) = dr_created cur /\
        raw (dr_revision (dp_record p)) = raw (dr_revision cur) + 1 /\
        dispatch_change cmd ctx ids (dr_updated (dp_record p)) cur (dp_record p)
    end
}.

Lemma number_next r i v :
  record_ok r -> dr_versions r !! i = Some v -> raw (u32_add_one (iv_number v)) = raw (iv_number v) + 1.
Proof.
  intros Hr Hv. destruct (ro_versions _ Hr i v Hv). pose proof (ro_count _ Hr).
  apply lookup_lt_Some in Hv. unfold HUB_IDENTIFICATION_VERSIONS in *. simpl.
  apply Z.mod_small. lia.
Qed.

Lemma issued_no_draft r v :
  record_ok r -> last (dr_versions r) = Some v -> dr_draft r = None.
Proof.
  intros Hr Hl. destruct (dr_draft r) eqn:E; [|done].
  rewrite (proj1 (ro_draft _ Hr)) in Hl; [done|]. rewrite E. by eexists.
Qed.

Lemma same_material_true a b :
  DispatchMaterial_same_material a b = true <->
  dm_recipient a = dm_recipient b /\ dm_lines a = dm_lines b /\
  dm_observation a = dm_observation b /\ dm_basis a = dm_basis b.
Proof.
  unfold DispatchMaterial_same_material. rewrite !andb_true_iff, !bool_decide_eq_true. tauto.
Qed.

Lemma dispatch_apply_run cmd ctx ids stamp cur rev r :
  record_ok cur -> is_Some (DispatchAction_target (dcm_action cmd)) ->
  dispatch_apply cmd ctx ids stamp (dr_touch cur rev stamp) = Ok r ->
  dr_id r = dr_id cur /\ dr_hub r = dr_hub cur /\ dr_created r = dr_created cur /\
  dr_revision r = rev /\ dr_updated r = stamp /\ dispatch_change cmd ctx ids stamp cur r.
Proof.
  intros Hc Ht Ha. unfold dispatch_apply, dispatch_change in *.
  destruct (dcm_action cmd) as [rc ls|pr ex rc ls|pr ex|pr ex rc ls|pr ex]; simpl in *.
  - by destruct Ht.
  - run_ok. simpl. split_and!; try done.
    + apply is_some_true. by destruct (dr_draft cur).
    + apply Hc. apply is_some_true. by destruct (dr_draft cur).
    + by eexists.
  - run_ok. simpl. split_and!; try done.
    match goal with M : dr_draft cur = Some ?m |- _ =>
      assert (dr_versions cur = []) as -> by (apply Hc; rewrite M; by eexists) end.
    match goal with S : negb _ = false |- _ =>
      apply negb_false_iff, same_material_true in S as (? & ? & ? & ?) end.
    do 2 eexists. split_and!; try done. by eexists.
  - run_ok. simpl. split_and!; try done.
    match goal with L : last _ = Some ?v |- _ => rename L into Hl end.
    pose proof (issued_no_draft _ _ Hc Hl). apply last_Some in Hl as (earlier & Hv). rewrite Hv.
    do 4 eexists. split_and!; try done; [by breflect|by rewrite set_last_app, <- app_assoc|..];
      try done. apply (number_next cur (length earlier)); [done|].
    by rewrite Hv, list_lookup_middle.
  - run_ok. simpl. split_and!; try done.
    match goal with L : last _ = Some ?v |- _ => rename L into Hl end.
    pose proof (issued_no_draft _ _ Hc Hl). apply last_Some in Hl as (earlier & Hv). rewrite Hv.
    do 2 eexists. split_and!; try done; [by breflect|by rewrite set_last_app].
Qed.

Lemma dispatch_start_current cmd ctx ids stamp cur r :
  dc_current ctx = Some cur -> dispatch_start cmd ctx ids stamp = Ok r ->
  exists rev, record_ok cur /\
    DispatchAction_target (dcm_action cmd) = Some (dr_id cur, dr_revision cur) /\
    dr_hub cur = dc_hub ctx /\ raw rev = raw (dr_revision cur) + 1 /\
    r = dr_touch cur rev stamp.
Proof.
  unfold dispatch_start. intros -> Hs.
  destruct (dcm_action cmd); run_ok; rewrite record_validate_Ok, dispatch_next_Ok in *;
    breflect; eexists; split_and!; done.
Qed.

Lemma dispatch_plan_run cmd ctx ids actor now p :
  DispatchCommand_plan cmd ctx ids actor now = Ok p -> dispatch_effect cmd ctx ids actor now p.
Proof.
  unfold DispatchCommand_plan. intros Hp. run_ok. rewrite dispatch_next_Ok in *. breflect.
  rewrite record_validate_Ok in *. simpl.
  match goal with S : dispatch_start _ _ _ _ = Ok _ |- _ => rename S into Hs end.
  match goal with A : dispatch_apply _ _ _ _ _ = Ok _ |- _ => rename A into Ha end.
  destruct (dc_current ctx) as [cur|] eqn:Ec.
  - apply (dispatch_start_current _ _ _ _ cur) in Hs as (rev & Hc & Ht & Hh & Hr & E); [subst|done].
    apply dispatch_apply_run in Ha as (? & ? & ? & ? & Hu & ?); [|done|by rewrite Ht].
    constructor; simpl; try done; [congruence|]. rewrite Ec, Hu. split_and!; try done; congruence.
  - unfold dispatch_start in Hs. rewrite Ec in Hs.
    destruct (dcm_action cmd) as [rc ls| | | |] eqn:Ea; try done. run_ok.
    unfold dispatch_apply in Ha. rewrite Ea in Ha. apply Ok_inj in Ha as <-.
    constructor; simpl; try done. rewrite Ec. by eexists _, _, _.
Qed.

(** An accepted dispatch command advances the stock journal by one and
    leaves a valid record stamped with the command; a preparation starts a
    draft at revision one, and every other command, aimed at the current record
    at its current revision, advances it by one: revising replaces the draft by
    a fresh capture, issuing prints the unchanged draft as number one, replacing
    supersedes the paper in force by a materially different one with the next
    number, and withdrawing closes the paper in force. *)
Theorem dispatch_plan_correct cmd ctx ids actor now p :
  DispatchCommand_plan cmd ctx ids actor now = Ok p -> dispatch_effect cmd ctx ids actor now p.
Proof. apply dispatch_plan_run. Qed.

(** One accepted command on a stored record. *)
Inductive dispatch_step : DispatchRecord -> DispatchRecord -> Prop :=
| dispatch_accepted cmd ctx ids actor now r p :
    dc_current ctx = Some r -> DispatchCommand_plan cmd ctx ids actor now = Ok p ->
    dispatch_step r (dp_record p).

Lemma snoc_lookup {A} (l : list A) x i v :
  (l ++ [x]) !! i = Some v -> l !! i = Some v \/ i = length l /\ v = x.
Proof.
  intros Hv%lookup_app_Some. destruct Hv as [|[Hge Hv]]; [by left|right].
  apply list_lookup_singleton_Some in Hv as [? ->]. split; [lia|done].
Qed.

Lemma close_evolves v status stamp :
  iv_status v = IdentificationStatus.Issued -> status <> IdentificationStatus.Issued ->
  evolves v (iv_close v status stamp).
Proof. intros. split; [by split_and!|]. right. split_and!; [done..|by eexists]. Qed.

Lemma change_evolves cmd ctx ids stamp cur r i v :
  record_ok cur -> dispatch_change cmd ctx ids stamp cur r -> dr_versions cur !! i = Some v ->
  exists w, dr_versions r !! i = Some w /\ evolves v w.
Proof.
  intros Hc Hd Hv. unfold dispatch_change in Hd.
  assert (forall earlier x y rest, dr_versions cur = earlier ++ [x] ->
    dr_versions r = earlier ++ y :: rest -> evolves x y ->
    exists w, dr_versions r !! i = Some w /\ evolves v w) as Hlast.
  { intros earlier x y rest E E' He. rewrite E in Hv. rewrite E'.
    apply snoc_lookup in Hv as [Hv|[-> ->]].
    - exists v. split; [|done]. by apply lookup_app_l_Some.
    - exists y. split; [|done]. by rewrite list_lookup_middle. }
  destruct (dcm_action cmd).
  - done.
  - destruct Hd as (Hd & _). rewrite (proj1 (ro_draft _ Hc) Hd) in Hv. by rewrite lookup_nil in Hv.
  - destruct Hd as (m & ver & Hd & _). rewrite (proj1 (ro_draft _ Hc)) in Hv; [by rewrite lookup_nil in Hv|].
    rewrite Hd. by eexists.
  - destruct Hd as (earlier & x & m & w & E & ? & _ & _ & _ & E' & _).
    by eapply Hlast; [..|apply close_evolves].
  - destruct Hd as (earlier & x & E & ? & _ & E'). by eapply Hlast; [..|apply close_evolves].
Qed.

(** What every history of accepted commands keeps. *)
Record preserved (n : nat) (r r' : DispatchRecord) : Prop := {
  ps_identity : dr_id r' = dr_id r /\ dr_hub r' = dr_hub r /\ dr_created r' = dr_created r;
  ps_revision : raw (dr_revision r') = raw (dr_revision r) + Z.of_nat n;
  ps_papers : forall i v, dr_versions r !! i = Some v ->
    exists w, dr_versions r' !! i = Some w /\ evolves v w
}.

Lemma step_preserved r r' : dispatch_step r r' -> preserved 1 r r'.
Proof.
  intros [cmd ctx ids actor now cur p Hcur Hp]. apply dispatch_plan_run in Hp.
  pose proof (de_record _ _ _ _ _ _ Hp) as Hr. rewrite Hcur in Hr.
  destruct Hr as (Hc & ? & ? & ? & ? & ? & Hd). constructor.
  - pose proof (de_hub _ _ _ _ _ _ Hp). split_and!; congruence.
  - lia.
  - intros i v. by eapply change_evolves.
Qed.

Lemma preserved_trans n m r s t : preserved n r s -> preserved m s t -> preserved (n + m) r t.
Proof.
  intros [(? & ? & ?) ? Hp] [(? & ? & ?) ? Hq]. constructor; [split_and!; congruence|lia|].
  intros i v (w & Hw & Hv)%Hp. destruct (Hq i w Hw) as (x & Hx & He). exists x.
  split; [done|by etrans].
Qed.

(** C7: no sequence of accepted commands rewrites a printed paper.  After [n]
    commands the record has the same identity, hub and creation stamp and its
    revision has grown by [n]; every identification issued before is still at
    its place with the identity, number, predecessor, material and issuing
    stamp it was printed with, and once closed it never changes at all. *)
Theorem printed_papers_stand n r r' : nsteps dispatch_step n r r' -> preserved n r r'.
Proof.
  induction 1 as [r|n r s t Hs _ IH].
  - constructor; [done|lia|]. intros i v Hv. by exists v.
  - apply (preserved_trans 1 n r s t); [by apply step_preserved|done].
Qed.
End Effects.

(** ** The message determines the command *)

#[global] Instance enc_line_input_prefix : PrefixCode enc_line_input.
Proof.
  intros a b r s E. unfold enc_line_input in E. do 3 peel E.
  destruct a, b; simpl in *. split; congruence.
Qed.

Lemma enc_lines_inv (a b : DispatchSelection) r s :
  enc_counted 4 enc_line_input (raw a) ++ r = enc_counted 4 enc_line_input (raw b) ++ s ->
  a = b /\ r = s.
Proof.
  pose proof (DispatchSelection_spec a) as [[_ Ha] _].
  pose proof (DispatchSelection_spec b) as [[_ Hb] _]. unfold HUB_DISPATCH_LINES in *.
  intros [? ?]%(enc_counted_inv 4 enc_line_input); [|lia..]. split; [by apply refined_eq|done].
Qed.

Lemma kinds_clash cmd cmd' r r' :
  enc_text (literal (DispatchCommand_kind cmd)) ++ r
    = enc_text (literal (DispatchCommand_kind cmd')) ++ r' ->
  clash (enc_text (literal (DispatchCommand_kind cmd)))
    (enc_text (literal (DispatchCommand_kind cmd'))) = false.
Proof.
  intros E. destruct (clash _ _) eqn:Hc; [|done]. by apply (clash_apart _ _ r r') in Hc.
Qed.

(** The message of a dispatch command determines the command, its hub, its
    actor and the identities reserved for it. *)
Theorem DispatchCommand_message_inj cmd cmd' hub hub' actor actor' ids ids' :
  DispatchCommand_message cmd hub actor ids = DispatchCommand_message cmd' hub' actor' ids' <->
  cmd = cmd' /\ hub = hub' /\ actor = actor' /\ ids = ids'.
Proof.
  split; [|by intros (-> & -> & -> & ->)]. intros E. unfold DispatchCommand_message in E.
  apply app_inv_head in E. do 7 peel E. pose proof (kinds_clash _ _ _ _ E) as Hk.
  destruct cmd as [? ? a o], cmd' as [? ? a' o'], ids, ids'. unfold DispatchCommand_kind in *.
  cbn [dcm_action dcm_observation dcm_expected_stock_revision dcm_expected_catalog_revision
    di_operation di_preparation di_identification] in *. subst.
  destruct a, a'; try (vm_compute in Hk; discriminate Hk); clear Hk; apply app_inv_head in E;
    cbn [DispatchAction_target enc_target enc_dispatch_material app] in E; rewrite <- ?app_assoc in E;
    repeat match type of E with (enc_id _ ++ _ = _) => peel E | (enc_revision _ ++ _ = _) => peel E end;
    try (apply enc_lines_inv in E as [? E]); (apply prefix_code_inj in E; [|apply _]);
    by subst.
Qed.

(** ** A concrete dispatch: prepared, issued, withdrawn *)

Definition sample_population : StockPopulation :=
  {| sp_id := sample_id 41; sp_variant := sample_record 12 value_pack;
     sp_product := sample_record 11 value_product; sp_supplier := None; sp_producer := None;
     sp_source := SourceAttribution.Unknown; sp_source_issuer := None;
     sp_original_packs := sample_packs 10;
     sp_initial_location := sample_record 21 value_receiving;
     sp_origin := PopulationOrigin.Receipt; sp_planned_location := None;
     sp_occurred := Occurrence.Known (sample_time 100); sp_recorded_at := sample_time 110;
     sp_actor := sample_key 1; sp_observation := sample_provenance "Received" |}.
Definition sample_line : DispatchLineInput :=
  {| dli_group := sample_id 51; dli_expected_group_revision := HubRevision_INITIAL;
     dli_packs := sample_packs 10 |}.
Definition sample_dispatch_selection : DispatchSelection := Refined [sample_line] eq_refl.
Definition sample_sources : list DispatchSource :=
  [{| ds_group := sample_group 51 10 [pending sample_requirement];
      ds_trace := sample_population |}].
Definition sample_dispatch_context (revision : Z) (current : option DispatchRecord)
  : DispatchContext :=
  {| dc_hub := sample_hub; dc_stock_revision := sample_revision revision;
     dc_catalog := sample_catalog;
     dc_sources := sample_sources; dc_current := current |}.
Definition sample_dispatch_ids (operation : Z) : DispatchIdentities :=
  match @DispatchIdentities_from_operation_bytes sample_sha256 (sample_id operation) with
  | Ok ids => ids
  | Err _ => {| di_operation := sample_id 1; di_preparation := sample_id 1;
                di_identification := sample_id 1 |}
  end.
Definition sample_dispatch_command (revision : Z) (action : DispatchAction) : DispatchCommand :=
  {| dcm_expected_stock_revision := sample_revision revision;
     dcm_expected_catalog_revision := sample_revision 7; dcm_action := action;
     dcm_observation := sample_provenance "Counted" |}.
Abbreviation sample_dispatch_plan revision operation current action :=
  (@DispatchCommand_plan sample_sha256 (sample_dispatch_command revision action)
    (sample_dispatch_context revision current) (sample_dispatch_ids operation) (sample_key 1)
    (sample_time 200)).
Definition planned_record (p : result DispatchPlan DispatchError) : option DispatchRecord :=
  match p with Ok p => Some (dp_record p) | Err _ => None end.

Definition sample_preparation : HubRecordId := di_preparation (sample_dispatch_ids 71).
Abbreviation sample_prepare_plan :=
  (sample_dispatch_plan 3 71 None
    (DispatchAction.Prepare (sample_id 13) sample_dispatch_selection)).
Definition sample_draft : option DispatchRecord := planned_record sample_prepare_plan.
Abbreviation sample_issue_plan :=
  (sample_dispatch_plan 4 72 sample_draft
    (DispatchAction.Issue sample_preparation (sample_revision 1))).
Definition sample_paper : option DispatchRecord := planned_record sample_issue_plan.
Abbreviation sample_unused_plan :=
  (sample_dispatch_plan 5 73 sample_paper
    (DispatchAction.MarkUnused sample_preparation (sample_revision 2))).


Lemma sample_prepared : exists p, sample_prepare_plan = Ok p.
Proof. apply is_ok_Ok. vm_compute. reflexivity. Qed.
Lemma sample_issued : exists p, sample_issue_plan = Ok p.
Proof. apply is_ok_Ok. vm_compute. reflexivity. Qed.
Lemma sample_withdrawn : exists p, sample_unused_plan = Ok p.
Proof. apply is_ok_Ok. vm_compute. reflexivity. Qed.
Lemma sample_captured : exists m,
  DispatchMaterial_capture (sample_dispatch_context 3 None) (sample_id 13)
    sample_dispatch_selection (sample_provenance "Counted") = Ok m.
Proof. apply is_ok_Ok. vm_compute. reflexivity. Qed.

Lemma capture_correct_witness :
  exists m, DispatchMaterial_capture (sample_dispatch_context 3 None) (sample_id 13)
      sample_dispatch_selection (sample_provenance "Counted") = Ok m /\
    material_captured (sample_dispatch_context 3 None) (sample_id 13) sample_dispatch_selection
      (sample_provenance "Counted") m.
Proof.
  destruct sample_captured as [m E]. exists m. split; [exact E|].
  pose proof (capture_correct (sample_dispatch_context 3 None) (sample_id 13)
    sample_dispatch_selection (sample_provenance "Counted") sample_catalog_wf) as H.
  rewrite E in H. exact H.
Defined.

Lemma capture_again_witness :
  exists m, DispatchMaterial_capture (sample_dispatch_context 3 None) (sample_id 13)
      sample_dispatch_selection (sample_provenance "Counted") = Ok m /\
    DispatchMaterial_total_packs m = Ok (sum_packs (dl_packs <$> dm_lines m)).
Proof.
  destruct sample_captured as [m E]. exists m. split; [exact E|].
  exact (proj2 (proj2 (capture_again (sample_dispatch_context 3 None) (sample_id 13)
    sample_dispatch_selection (sample_provenance "Counted") m sample_catalog_wf E))).
Defined.

Lemma dispatch_plan_correct_witness :
  exists p, sample_issue_plan = Ok p /\
    @dispatch_effect sample_sha256
      (sample_dispatch_command 4 (DispatchAction.Issue sample_preparation (sample_revision 1)))
      (sample_dispatch_context 4 sample_draft) (sample_dispatch_ids 72)
      (sample_key 1) (sample_time 200) p.
Proof.
  destruct sample_issued as [p E]. exists p. split; [exact E|].
  exact (@dispatch_plan_correct sample_sha256 _ _ _ _ _ p E).
Defined.

Lemma single_identification_witness :
  exists p, sample_unused_plan = Ok p /\ paper_trail (dp_record p).
Proof.
  assert (match sample_unused_plan with
    | Ok p => @DispatchRecord_validate sample_sha256 (dp_record p) = Ok tt
    | Err _ => False end) as Hv by (vm_compute; reflexivity).
  destruct sample_withdrawn as [p E]. exists p. split; [exact E|]. rewrite E in Hv.
  exact (@single_identification sample_sha256 (dp_record p) Hv).
Defined.

Lemma printed_papers_stand_witness :
  exists p q, sample_prepare_plan = Ok p /\ sample_unused_plan = Ok q /\
    preserved 2 (dp_record p) (dp_record q).
Proof.
  destruct sample_prepared as [p E], sample_issued as [q E'], sample_withdrawn as [u E''].
  exists p, u. split; [exact E|]. split; [exact E''|].
  apply (@printed_papers_stand sample_sha256 2 (dp_record p) (dp_record u)).
  apply (nsteps_l _ 1 _ (dp_record q)); [|apply nsteps_once].
  - refine (@dispatch_accepted sample_sha256 _ _ _ _ _ _ q _ E').
    exact (f_equal planned_record E).
  - refine (@dispatch_accepted sample_sha256 _ _ _ _ _ _ u _ E'').
    exact (f_equal planned_record E').
Defined.
