(* ===== verification/Departure.v ===== *)
(** * Normal departure

    [hub/departure.rs] with its [model] and [command] modules: the atomic exit
    of the whole groups an issued paper identifies, the work it retires, and the
    record that keeps the paper, the consumed groups and the work changes. *)

From Stdlib Require Import Bool ZArith Lia String Sorted Permutation List.
From stdpp Require Import base decidable option list numbers sets relations.
From S2P Require Import Prelude Containers Encoding Hub Reference Catalog Stock Movement Work Lineage Treatment Dispatch.

Definition HUB_DEPARTURE_WORK_CHANGES : nat := HUB_DISPATCH_LINES * HUB_GROUP_REQUIREMENTS.

Module DepartureError.
Inductive DepartureError :=
| InvalidIdentity
| InvalidHistory
| InvalidSources
| StaleRevision
| IdentificationUnavailable
| AlreadyUsed
| MaterialChanged
| Capacity
| RevisionExhausted
| Dispatch (e : DispatchError)
| Movement (e : MovementError)
| Treatment (e : TreatmentError).
End DepartureError.
Abbreviation DepartureError := DepartureError.DepartureError.

Record DepartureIdentities := {
  dpi_operation : HubRecordId;
  dpi_departure : HubRecordId
}.
#[global] Instance DepartureIdentities_eq_dec : EqDecision DepartureIdentities.
Proof. solve_decision. Defined.

Definition DepartureIdentities_from_operation_bytes `{Sha256} (operation : HubRecordId)
  : result DepartureIdentities DepartureError :=
  let? departure := map_err (fun _ => DepartureError.InvalidIdentity)
    (derive_identity "harvestcircle.hub.departure.identity.v1" [] operation) in
  Ok {| dpi_operation := operation; dpi_departure := departure |}.

Definition departure_next (value : HubRevision) : result HubRevision DepartureError :=
  map_err (fun _ => DepartureError.RevisionExhausted) (HubRevision_next value).

(** ** Records *)

Record ConsumedStockGroup := {
  csg_before : PhysicalStockGroup;
  csg_after_revision : HubRevision;
  csg_causal_floor : option UnixTimestamp
}.

Record DepartureWorkChange := {
  dwc_before : WorkRequirement;
  dwc_after : WorkRequirement;
  dwc_retired : WholePacks
}.
#[global] Instance DepartureWorkChange_eq_dec : EqDecision DepartureWorkChange.
Proof. solve_decision. Defined.

Record DepartureRecord := {
  der_id : HubRecordId;
  der_operation : HubRecordId;
  der_hub : HubId;
  der_stock_revision : HubRevision;
  der_catalog_revision : HubRevision;
  der_actor : PublicKey;
  der_recorded_at : UnixTimestamp;
  der_occurred : Occurrence;
  der_observation : SourceProvenance;
  der_paper : DispatchRecord;
  der_consumed : list ConsumedStockGroup;
  der_work_changes : list DepartureWorkChange
}.

(** ** Retired work *)

(** One requirement with the pending packs that leave. *)
Abbreviation retirement := (WorkRequirement * WholePacks)%type.
Abbreviation work_map := (list (HubRecordId * retirement)).

(** The inner loop body of [retired_work]. *)
Definition retire_allocation (packs : WholePacks) (work : work_map) (allocation : WorkAllocation)
  : result work_map DepartureError :=
  let requirement := wa_requirement allocation in
  let (frozen, retired) :=
    match bt_get (wr_id requirement) work with
    | Some entry => entry
    | None => (requirement, zero_packs)
    end in
  if frozen !=? requirement then Err DepartureError.InvalidSources
  else
    let? retired :=
      if wa_progress allocation ==? WorkProgress.Pending
      then map_err (fun _ => DepartureError.InvalidSources) (WholePacks_checked_add retired packs)
      else Ok retired in
    Ok (bt_insert (wr_id requirement) (frozen, retired) work).

(** The outer loop body. *)
Definition retire_group (work : work_map) (consumed : ConsumedStockGroup)
  : result work_map DepartureError :=
  let before := csg_before consumed in
  map_err DepartureError.Movement (PhysicalStockGroup_validate before) ;;?
  let? work := try_fold (retire_allocation (pg_packs before)) work (pg_work before) in
  if (HUB_DEPARTURE_WORK_CHANGES <? length work)%nat then Err DepartureError.Capacity
  else Ok work.

(** The change of one requirement. *)
Definition retire_requirement (entry : retirement) : result DepartureWorkChange DepartureError :=
  let (before, retired) := entry in
  let quantity := wr_quantity before in
  let? no_longer := map_err (fun _ => DepartureError.InvalidSources)
    (WholePacks_checked_add (no_longer_required quantity) retired) in
  let? rest := map_err (fun _ => DepartureError.InvalidSources)
    (WholePacks_checked_sub (remaining quantity) retired) in
  let? quantity := map_err (fun _ => DepartureError.InvalidSources)
    (QuantityWork_restore (required quantity) (completed quantity) no_longer rest) in
  let? revision := departure_next (wr_revision before) in
  let after := wr_with before quantity revision in
  map_err DepartureError.Movement (WorkRequirement_validate after) ;;?
  Ok {| dwc_before := before; dwc_after := after; dwc_retired := retired |}.

Definition retired_work (groups : list ConsumedStockGroup)
  : result (list DepartureWorkChange) DepartureError :=
  let? work := try_fold retire_group [] groups in
  try_map retire_requirement (List.filter (fun entry => raw entry.2 >? 0) (bt_values work)).

(** ** Validation of a stored departure *)

Section Departure.
Context `{Sha256}.

(** The loop body of [DepartureRecord::validate]. *)
Definition validate_consumed (self : DepartureRecord)
    (pair : ConsumedStockGroup * DispatchLineSnapshot) : result unit DepartureError :=
  let (effect, line) := pair in
  let group := csg_before effect in
  map_err DepartureError.Movement (PhysicalStockGroup_validate group) ;;?
  if (pg_id group !=? dl_group line) || (pg_revision group !=? dl_group_revision line)
     || (pg_trace group !=? sp_id (dl_trace line)) || (pg_variant group !=? rr_id (dl_variant line))
     || (pg_location group !=? rr_id (dl_location line)) || (pg_packs group !=? dl_packs line)
     || (pg_identification group !=? dl_identification line)
  then Err DepartureError.InvalidHistory
  else
    let? after := departure_next (pg_revision group) in
    if (csg_after_revision effect !=? after)
       || (raw (pg_revision group) >=? raw (der_stock_revision self))
    then Err DepartureError.InvalidHistory
    else
      let? floor := map_err DepartureError.Movement
        (PhysicalStockGroup_observation_floor group (der_occurred self) (der_recorded_at self)) in
      if csg_causal_floor effect !=? floor then Err DepartureError.InvalidHistory else Ok tt.

Definition DepartureRecord_validate (self : DepartureRecord) : result unit DepartureError :=
  map_err DepartureError.Dispatch (DispatchRecord_validate (der_paper self)) ;;?
  let? issued := ok_or (last (dr_versions (der_paper self)))
    DepartureError.IdentificationUnavailable in
  let? ids := DepartureIdentities_from_operation_bytes (der_operation self) in
  if (der_id self !=? dpi_departure ids) || (der_hub self !=? dr_hub (der_paper self))
     || is_some (dr_draft (der_paper self))
     || (iv_status issued !=? IdentificationStatus.Issued) || is_some (iv_closed issued)
     || (raw (der_stock_revision self)
           <=? raw (dst_stock_revision (dr_updated (der_paper self))))
     || (raw (der_catalog_revision self) <? raw (dm_catalog_revision (iv_material issued)))
     || (length (der_consumed self) =? 0)%nat
     || (HUB_DISPATCH_LINES <? length (der_consumed self))%nat
     || negb (length (der_consumed self) =? length (dm_lines (iv_material issued)))%nat
  then Err DepartureError.InvalidHistory
  else
    map_err (fun _ => DepartureError.InvalidHistory)
      (Occurrence_validate (der_occurred self) (der_recorded_at self)) ;;?
    try_for_each (validate_consumed self)
      (zip (der_consumed self) (dm_lines (iv_material issued))) ;;?
    let? changes := retired_work (der_consumed self) in
    if der_work_changes self !=? changes then Err DepartureError.InvalidHistory else Ok tt.

(** ** The command *)

Record DepartureCommand := {
  dpc_expected_stock_revision : HubRevision;
  dpc_expected_catalog_revision : HubRevision;
  dpc_preparation : HubRecordId;
  dpc_expected_preparation_revision : HubRevision;
  dpc_identification : HubRecordId;
  dpc_occurred : Occurrence;
  dpc_observation : SourceProvenance
}.

Record DepartureTreatment := {
  dtr_lineage : PhysicalLineage;
  dtr_state : TreatmentState
}.

Record DepartureContext := {
  dpx_hub : HubId;
  dpx_stock_revision : HubRevision;
  dpx_catalog : ReferenceCatalog;
  dpx_paper : DispatchRecord;
  dpx_sources : list DispatchSource;
  dpx_treatments : list DepartureTreatment;
  dpx_prior_departure : option DepartureRecord
}.

(** [traces]: the distinct traces of the issued lines. *)
Definition line_traces (lines : list DispatchLineSnapshot) : list (HubRecordId * unit) :=
  foldl (fun traces line => (bs_insert (sp_id (dl_trace line)) traces).2) [] lines.

(** A source of the trace, checked against its lineage node. *)
Definition select_source (context : DepartureContext) (graph : PhysicalLineage)
    (source : DispatchSource) : result HubRecordId DepartureError :=
  let group := ds_group source in
  map_err DepartureError.Movement
    (PhysicalStockGroup_validate_catalog group (dpx_catalog context)) ;;?
  let? node := ok_or (PhysicalLineage_node graph (pg_id group)) DepartureError.InvalidSources in
  if (pln_trace node !=? pg_trace group) || (pln_variant node !=? pg_variant group)
     || (pln_parent node !=? pg_parent group) || (pln_packs node !=? pg_packs group)
  then Err DepartureError.InvalidSources
  else Ok (pg_id group).

(** The loop body over the treatments; the set holds the traces seen. *)
Definition check_treatment (context : DepartureContext) (traces : list (HubRecordId * unit))
    (seen : list (HubRecordId * unit)) (treatment : DepartureTreatment)
  : result (list (HubRecordId * unit)) DepartureError :=
  let graph := dtr_lineage treatment in
  let (fresh, seen') := bs_insert (pl_trace graph) seen in
  if (pl_hub graph !=? dpx_hub context) || (pl_revision graph !=? dpx_stock_revision context)
     || negb (bs_contains (pl_trace graph) traces) || negb fresh
  then Err DepartureError.InvalidSources
  else
    let? selected := try_map (select_source context graph)
      (List.filter (fun source => pg_trace (ds_group source) ==? pl_trace graph)
         (dpx_sources context)) in
    let? projection := map_err DepartureError.Treatment
      (TreatmentState_project (dtr_state treatment) graph
         (ReferenceCatalog_handling_basis (dpx_catalog context))) in
    let? selection := map_err DepartureError.Treatment (TreatmentSelection_new selected) in
    map_err DepartureError.Treatment
      (TreatmentProjection_require projection selection PhysicalAction.NormalDeparture) ;;?
    Ok seen'.

(** The loop body that consumes the groups of the issued lines. *)
Definition consume_line (self : DepartureCommand) (context : DepartureContext)
    (now : UnixTimestamp) (line : DispatchLineSnapshot)
  : result ConsumedStockGroup DepartureError :=
  let? source := ok_or
    (List.find (fun source => pg_id (ds_group source) ==? dl_group line) (dpx_sources context))
    DepartureError.InvalidSources in
  let? after := departure_next (pg_revision (ds_group source)) in
  let? floor := map_err DepartureError.Movement
    (PhysicalStockGroup_observation_floor (ds_group source) (dpc_occurred self) now) in
  Ok {| csg_before := ds_group source; csg_after_revision := after; csg_causal_floor := floor |}.

Definition departure_dispatch (context : DepartureContext) : DispatchContext :=
  {| dc_hub := dpx_hub context; dc_stock_revision := dpx_stock_revision context;
     dc_catalog := dpx_catalog context; dc_sources := dpx_sources context;
     dc_current := Some (dpx_paper context) |}.

Definition DepartureCommand_plan (self : DepartureCommand) (context : DepartureContext)
    (ids : DepartureIdentities) (actor : PublicKey) (now : UnixTimestamp)
  : result DepartureRecord DepartureError :=
  let? derived := DepartureIdentities_from_operation_bytes (dpi_operation ids) in
  if ids !=? derived then Err DepartureError.InvalidIdentity
  else if is_some (dpx_prior_departure context) then Err DepartureError.AlreadyUsed
  else
    let paper := dpx_paper context in
    map_err DepartureError.Dispatch (DispatchRecord_validate paper) ;;?
    if (dpc_expected_stock_revision self !=? dpx_stock_revision context)
       || (dpc_expected_catalog_revision self !=? rc_revision (dpx_catalog context))
       || (dpc_preparation self !=? dr_id paper)
       || (dpc_expected_preparation_revision self !=? dr_revision paper)
       || (dr_hub paper !=? dpx_hub context)
    then Err DepartureError.StaleRevision
    else
      let? issued := ok_or (last (dr_versions paper)) DepartureError.IdentificationUnavailable in
      if is_some (dr_draft paper) || (iv_id issued !=? dpc_identification self)
         || (iv_status issued !=? IdentificationStatus.Issued) || is_some (iv_closed issued)
      then Err DepartureError.IdentificationUnavailable
      else
        let material := iv_material issued in
        let? selection := map_err DepartureError.Dispatch (DispatchMaterial_selection material) in
        let? fresh := map_err DepartureError.Dispatch
          (DispatchMaterial_capture (departure_dispatch context) (rr_id (dm_recipient material))
             selection (dm_observation material)) in
        if negb (DispatchMaterial_same_material fresh material)
        then Err DepartureError.MaterialChanged
        else
          let traces := line_traces (dm_lines material) in
          if negb (length (dpx_treatments context) =? length traces)%nat
          then Err DepartureError.InvalidSources
          else
            let? _ := try_fold (check_treatment context traces) [] (dpx_treatments context) in
            let? consumed := try_map (consume_line self context now) (dm_lines material) in
            let? stock_revision := departure_next (dpx_stock_revision context) in
            let? work_changes := retired_work consumed in
            let record := {|
              der_id := dpi_departure ids;
              der_operation := dpi_operation ids;
              der_hub := dpx_hub context;
              der_stock_revision := stock_revision;
              der_catalog_revision := rc_revision (dpx_catalog context);
              der_actor := actor;
              der_recorded_at := now;
              der_occurred := dpc_occurred self;
              der_observation := dpc_observation self;
              der_paper := paper;
              der_consumed := consumed;
              der_work_changes := work_changes
            |} in
            DepartureRecord_validate record ;;?
            Ok record.
End Departure.

Definition DepartureCommand_message (self : DepartureCommand) (hub : HubId) (actor : PublicKey)
    (ids : DepartureIdentities) : list byte :=
  domain_tag "harvestcircle.hub.departure.command.v1" ++
  enc_hub hub ++ enc_key actor ++ enc_id (dpi_operation ids) ++ enc_id (dpi_departure ids) ++
  enc_revision (dpc_expected_stock_revision self) ++
  enc_revision (dpc_expected_catalog_revision self) ++
  enc_id (dpc_preparation self) ++ enc_revision (dpc_expected_preparation_revision self) ++
  enc_id (dpc_identification self) ++ hash_occurrence (dpc_occurred self) ++
  enc_hub_text (dpc_observation self).
Definition DepartureCommand_fingerprint `{Sha256} (self : DepartureCommand) (hub : HubId)
    (actor : PublicKey) (ids : DepartureIdentities) : array 32 :=
  digest32 (DepartureCommand_message self hub actor ids).

(** ** Retired work: exact accounting *)

(** The allocations of the leaving groups, each with the packs of its group. *)
Abbreviation work_entry := (WholePacks * WorkAllocation)%type.
Definition group_entries (c : ConsumedStockGroup) : list work_entry :=
  pair (pg_packs (csg_before c)) <$> pg_work (csg_before c).
Definition entries (groups : list ConsumedStockGroup) : list work_entry :=
  concat (group_entries <$> groups).
Definition entry_requirement (e : work_entry) : WorkRequirement := wa_requirement e.2.
Definition entry_id (e : work_entry) : HubRecordId := wr_id (entry_requirement e).
Definition is_pending (e : work_entry) : bool := wa_progress e.2 ==? WorkProgress.Pending.

(** The pending packs of requirement [id] that leave. *)
Fixpoint leaving (id : HubRecordId) (es : list work_entry) : Z :=
  match es with
  | [] => 0
  | e :: es => (if is_pending e && (entry_id e ==? id) then raw e.1 else 0) + leaving id es
  end.

Lemma leaving_app id es fs : leaving id (es ++ fs) = leaving id es + leaving id fs.
Proof. induction es as [|e es IH]; simpl; [done|]. rewrite IH. lia. Qed.

Lemma leaving_nonneg id es : 0 <= leaving id es.
Proof.
  induction es as [|e es IH]; simpl; [lia|].
  pose proof (WholePacks_range e.1). destruct (is_pending e && _); lia.
Qed.

Lemma leaving_elem id es e :
  e ∈ es -> is_pending e = true -> entry_id e = id -> raw e.1 <= leaving id es.
Proof.
  intros (l & k & ->)%list_elem_of_split Hp Hi. rewrite leaving_app. simpl.
  rewrite Hp, Hi, bool_decide_eq_true_2 by done. simpl.
  pose proof (leaving_nonneg id l). pose proof (leaving_nonneg id k). lia.
Qed.

Lemma leaving_none id es :
  (forall e, e ∈ es -> is_pending e = true -> entry_id e <> id) -> leaving id es = 0.
Proof.
  induction es as [|e es IH]; simpl; [done|]. intros He.
  rewrite IH by (intros f Hf; apply He; by right).
  destruct (is_pending e) eqn:Hp; simpl; [|done].
  rewrite bool_decide_eq_false_2; [done|]. apply He; [by left|done].
Qed.

Lemma leaving_cases id es :
  (exists e, e ∈ es /\ is_pending e = true /\ entry_id e = id) \/ leaving id es = 0.
Proof.
  destruct (decide (Exists (fun e => is_pending e = true /\ entry_id e = id) es)) as [He|Hno].
  - left. apply list.Exists_exists in He as (e & ? & ? & ?). by exists e.
  - right. apply leaving_none. intros e He Hp Hi. apply Hno, list.Exists_exists. by exists e.
Qed.

Definition agree (es : list work_entry) : Prop :=
  forall e f, e ∈ es -> f ∈ es -> entry_id e = entry_id f ->
    entry_requirement e = entry_requirement f.

(** What the map of [retired_work] holds after the entries [es]. *)
Record collected (es : list work_entry) (W : work_map) : Prop := {
  co_wf : bt_wf W;
  co_length : (length W <= length es)%nat;
  co_seen : forall e, e ∈ es -> exists p, bt_get (entry_id e) W = Some (entry_requirement e, p);
  co_sum : forall id r p, bt_get id W = Some (r, p) ->
    raw p = leaving id es /\ exists e, e ∈ es /\ entry_requirement e = r /\ entry_id e = id
}.

Lemma collected_nil : collected [] [].
Proof. constructor; [apply bt_wf_nil|done|by intros e ?%not_elem_of_nil|done]. Qed.

Lemma collected_agree es W : collected es W -> agree es.
Proof.
  intros Hc e f He Hf Hi. destruct (co_seen _ _ Hc e He) as [p Hp].
  destruct (co_seen _ _ Hc f Hf) as [q Hq]. rewrite Hi in Hp. congruence.
Qed.

(** The entry of the map before an allocation is counted. *)
Lemma collected_entry es W (a : WorkAllocation) :
  collected es W ->
  exists p, raw p = leaving (wr_id (wa_requirement a)) es /\
    match bt_get (wr_id (wa_requirement a)) W with
    | Some entry => entry
    | None => (wa_requirement a, zero_packs)
    end = (default (wa_requirement a) (fst <$> bt_get (wr_id (wa_requirement a)) W), p).
Proof.
  intros Hc. destruct (bt_get _ W) as [[r p]|] eqn:E; simpl.
  - exists p. split; [|done]. by apply (co_sum _ _ Hc) in E as [? _].
  - exists zero_packs. split; [|done]. rewrite leaving_none; [done|].
    intros e He _ Hi. destruct (co_seen _ _ Hc e He) as [p Hp]. congruence.
Qed.

Lemma collected_insert es W packs a r p :
  collected es W ->
  (forall e, e ∈ es -> entry_id e = wr_id (wa_requirement a) -> entry_requirement e = wa_requirement a) ->
  r = wa_requirement a -> raw p = leaving (wr_id r) (es ++ [(packs, a)]) ->
  collected (es ++ [(packs, a)]) (bt_insert (wr_id r) (r, p) W).
Proof.
  intros Hc Ha -> Hp. constructor.
  - apply bt_insert_wf, Hc.
  - pose proof (co_length _ _ Hc). rewrite bt_insert_length, length_app by apply Hc. simpl.
    destruct (is_some _); lia.
  - intros e He. rewrite bt_get_insert. case_decide as Hi.
    + exists p. f_equal. f_equal. apply elem_of_app in He as [He| ->%list_elem_of_singleton]; [|done].
      symmetry. by apply Ha.
    + apply elem_of_app in He as [He| ->%list_elem_of_singleton]; [|done]. by apply (co_seen _ _ Hc).
  - intros id r q. rewrite bt_get_insert. case_decide as Hi.
    + intros [= <- <-]. subst id. split; [done|]. exists (packs, a).
      split; [|done]. apply elem_of_app. right. by left.
    + intros E. apply (co_sum _ _ Hc) in E as [Hq (e & He & Hr & Hid)]. split.
      * rewrite leaving_app. simpl. rewrite bool_decide_eq_false_2 by done.
        rewrite andb_false_r. lia.
      * exists e. split; [apply elem_of_app; by left|done].
Qed.

Lemma retire_allocation_Ok packs W a es :
  collected es W ->
  (forall W', retire_allocation packs W a = Ok W' -> collected (es ++ [(packs, a)]) W') /\
  (agree (es ++ [(packs, a)]) ->
   leaving (wr_id (wa_requirement a)) (es ++ [(packs, a)]) <= HUB_MAX_WHOLE_PACKS ->
   exists W', retire_allocation packs W a = Ok W').
Proof.
  intros Hc. destruct (collected_entry es W a Hc) as (p & Hp & Hentry).
  set (r0 := default (wa_requirement a) (fst <$> bt_get (wr_id (wa_requirement a)) W)) in *.
  assert (r0 = wa_requirement a -> forall e, e ∈ es ->
    entry_id e = wr_id (wa_requirement a) -> entry_requirement e = wa_requirement a) as Hsame.
  { intros E e He Hi. destruct (co_seen _ _ Hc e He) as [q Hq]. rewrite Hi in Hq.
    rewrite <- E. unfold r0. by rewrite Hq. }
  assert (leaving (wr_id (wa_requirement a)) (es ++ [(packs, a)]) =
    raw p + (if wa_progress a ==? WorkProgress.Pending then raw packs else 0)) as Hsum.
  { rewrite leaving_app, Hp. simpl. unfold is_pending, entry_id, entry_requirement. simpl.
    rewrite (bool_decide_eq_true_2 (wr_id (wa_requirement a) = _)), andb_true_r by done. lia. }
  unfold retire_allocation. rewrite Hentry. split.
  - intros W' H. destruct (bool_decide_reflect (r0 = wa_requirement a)) as [E|]; [|done].
    cbn [negb] in H. apply bind_Ok in H as (q & Hq & [= <-]). rewrite E.
    apply collected_insert; [done|by apply Hsame|done|]. rewrite Hsum.
    case_bool_decide; run_ok; [by apply checked_add_Ok in Hq|lia].
  - intros Hag Hle.
    assert (r0 = wa_requirement a) as E.
    { unfold r0. destruct (bt_get _ W) as [[r q]|] eqn:Eg; simpl; [|done].
      apply (co_sum _ _ Hc) in Eg as (_ & e & He & Hr & Hi). rewrite <- Hr.
      apply (Hag e (packs, a)); [|..|done]; apply elem_of_app; [by left|right; by left]. }
    rewrite bool_decide_eq_true_2 by done. cbn [negb]. rewrite Hsum in Hle.
    case_bool_decide; [|by eexists].
    destruct (checked_add_total p packs) as (q & -> & _); [done|]. by eexists.
Qed.

Lemma agree_app es fs : agree (es ++ fs) -> agree es.
Proof. intros Ha e f He Hf. apply Ha; apply elem_of_app; by left. Qed.

Lemma retire_allocations_Ok packs work W es :
  collected es W ->
  (forall W', try_fold (retire_allocation packs) W work = Ok W' ->
     collected (es ++ (pair packs <$> work)) W') /\
  (agree (es ++ (pair packs <$> work)) ->
   (forall id, leaving id (es ++ (pair packs <$> work)) <= HUB_MAX_WHOLE_PACKS) ->
   exists W', try_fold (retire_allocation packs) W work = Ok W').
Proof.
  revert es W. induction work as [|a work IH]; intros es W Hc; csimpl.
  { rewrite app_nil_r. split; [by intros W' [= <-]|by eexists]. }
  destruct (retire_allocation_Ok packs W a es Hc) as [Hr Ht].
  rewrite cons_middle, app_assoc. split.
  - intros W' (W1 & H1 & H2)%bind_Ok. apply (IH _ W1); [by apply Hr|done].
  - intros Ha Hl. destruct Ht as [W1 H1].
    + by eapply agree_app.
    + specialize (Hl (wr_id (wa_requirement a))). rewrite leaving_app in Hl.
      pose proof (leaving_nonneg (wr_id (wa_requirement a)) (pair packs <$> work)). lia.
    + destruct (IH _ W1 (Hr _ H1)) as [_ IHt]. destruct IHt as [W2 H2]; [done..|].
      exists W2. by rewrite H1.
Qed.

Definition capacity_left (es : list work_entry) (groups : list ConsumedStockGroup) : Prop :=
  (length es + length groups * HUB_GROUP_REQUIREMENTS <= HUB_DEPARTURE_WORK_CHANGES)%nat.

Lemma retire_groups_Ok groups W es :
  collected es W ->
  (forall W', try_fold retire_group W groups = Ok W' ->
     collected (es ++ entries groups) W' /\ Forall group_ok (csg_before <$> groups)) /\
  (Forall group_ok (csg_before <$> groups) -> capacity_left es groups ->
   agree (es ++ entries groups) ->
   (forall id, leaving id (es ++ entries groups) <= HUB_MAX_WHOLE_PACKS) ->
   exists W', try_fold retire_group W groups = Ok W').
Proof.
  revert es W. induction groups as [|c groups IH]; intros es W Hc; unfold entries; csimpl.
  { rewrite app_nil_r. split; [intros W' [= <-]; split; [done|constructor]|by eexists]. }
  destruct (retire_allocations_Ok (pg_packs (csg_before c)) (pg_work (csg_before c)) W es Hc)
    as [Hr Ht]. fold (group_entries c) in Hr, Ht. fold (entries groups). rewrite app_assoc. split.
  - intros W' (W1 & H1 & H2)%bind_Ok. unfold retire_group in H1. run_ok.
    rewrite validate_Ok in *. destruct (IH (es ++ group_entries c) W1) as [IHr _]; [by apply Hr|].
    apply IHr in H2 as [? ?]. split; [done|]. by constructor.
  - intros [Hg Hgs]%list.Forall_cons Hcap Ha Hl.
    unfold capacity_left in Hcap. rewrite length_cons, Nat.mul_succ_l in Hcap.
    pose proof (go_capacity _ Hg) as Hw.
    destruct Ht as [W1 H1]; [by eapply agree_app|..].
    { intros id. specialize (Hl id). rewrite leaving_app in Hl.
      pose proof (leaving_nonneg id (entries groups)). lia. }
    assert (length (group_entries c) <= HUB_GROUP_REQUIREMENTS)%nat as Hlen.
    { unfold group_entries. by rewrite length_fmap. }
    assert (retire_group W c = Ok W1) as Hgc.
    { unfold retire_group. rewrite (proj2 (validate_Ok _)) by done. cbn [map_err bind].
      rewrite H1. cbn [bind]. pose proof (co_length _ _ (Hr _ H1)) as Hw1. rewrite length_app in Hw1.
      rewrite (proj2 (Nat.ltb_ge _ _)) by lia. done. }
    destruct (IH (es ++ group_entries c) W1 (Hr _ H1)) as [_ IHt].
    destruct IHt as [W2 H2]; [done| |done..|].
    { unfold capacity_left. rewrite length_app. lia. }
    exists W2. by rewrite Hgc.
Qed.

(** The account of one requirement after [dwc_retired] packs left. *)
Record work_retired (c : DepartureWorkChange) : Prop := {
  wd_same : dwc_after c = wr_with (dwc_before c) (wr_quantity (dwc_after c))
    (wr_revision (dwc_after c));
  wd_required : required (wr_quantity (dwc_after c)) = required (wr_quantity (dwc_before c));
  wd_completed : completed (wr_quantity (dwc_after c)) = completed (wr_quantity (dwc_before c));
  wd_retired : raw (no_longer_required (wr_quantity (dwc_after c))) =
    raw (no_longer_required (wr_quantity (dwc_before c))) + raw (dwc_retired c);
  wd_remaining : raw (remaining (wr_quantity (dwc_after c))) =
    raw (remaining (wr_quantity (dwc_before c))) - raw (dwc_retired c);
  wd_revision : raw (wr_revision (dwc_after c)) = raw (wr_revision (dwc_before c)) + 1
}.

Lemma departure_next_Ok r r' : departure_next r = Ok r' <-> raw r' = raw r + 1.
Proof. unfold departure_next. by rewrite map_err_Ok, HubRevision_next_Ok. Qed.
#[export] Hint Rewrite departure_next_Ok : okdb.

Lemma retire_requirement_run r p c :
  retire_requirement (r, p) = Ok c ->
  dwc_before c = r /\ dwc_retired c = p /\ work_retired c.
Proof.
  unfold retire_requirement. intros H. run_ok. rewrite departure_next_Ok in *.
  match goal with Q : QuantityWork_restore _ _ _ _ = Ok _ |- _ => apply restore_Ok in Q as (? & ? & Hn & Hm) end.
  rewrite checked_add_Ok, checked_sub_Ok in *.
  split_and!; [done..|]. constructor; simpl; try done; congruence.
Qed.

Lemma retire_requirement_total r p :
  WorkRequirement_validate r = Ok tt -> raw p <= raw (remaining (wr_quantity r)) ->
  raw (wr_revision r) < HubRevision_MAXIMUM -> exists c, retire_requirement (r, p) = Ok c.
Proof.
  intros Hv Hp Hr. pose proof (QuantityWork_balance (wr_quantity r)) as Hb.
  pose proof (WholePacks_range (required (wr_quantity r))).
  pose proof (WholePacks_range (completed (wr_quantity r))).
  destruct (checked_add_total (no_longer_required (wr_quantity r)) p) as (n & Hn & En); [lia|].
  destruct (checked_sub_total (remaining (wr_quantity r)) p) as (m & Hm & Em); [lia|].
  assert (exists rev, departure_next (wr_revision r) = Ok rev) as [rev Hrev].
  { destruct (movement_next_total _ Hr) as (rev & H1 & _). exists rev.
    apply departure_next_Ok. by apply movement_next_Ok in H1. }
  assert (exists q, QuantityWork_restore (required (wr_quantity r)) (completed (wr_quantity r)) n m
    = Ok q) as [q Hq].
  { unfold QuantityWork_restore.
    rewrite (proj2 (work_accounted_Ok _ n m (required (wr_quantity r)))) by lia.
    destruct (checked _ _ _) as [q|] eqn:E; [by exists q|].
    apply checked_Err in E as [E _]. apply not_true_iff_false in E. destruct E.
    apply QuantityWork_check_iff. simpl. lia. }
  unfold retire_requirement. rewrite Hn, Hm. cbn [map_err bind]. rewrite Hq. cbn [map_err bind].
  rewrite Hrev. cbn [bind]. apply restore_Ok in Hq as (Eq1 & Eq2 & _).
  assert (WorkRequirement_validate (wr_with r q rev) = Ok tt) as ->; [|by eexists].
  unfold WorkRequirement_validate in *. simpl. by rewrite Eq1, Eq2.
Qed.

(** What the leaving groups must agree on. *)
Record retirable (groups : list ConsumedStockGroup) : Prop := {
  ra_groups : Forall group_ok (csg_before <$> groups);
  ra_agree : agree (entries groups);
  ra_pending : forall e, e ∈ entries groups -> is_pending e = true ->
    leaving (entry_id e) (entries groups) <= raw (remaining (wr_quantity (entry_requirement e))) /\
    raw (wr_revision (entry_requirement e)) < HubRevision_MAXIMUM
}.

(** Every requirement with pending packs among the leaving groups is retired
    once, by exactly those packs; no other requirement changes. *)
Record retires (groups : list ConsumedStockGroup) (changes : list DepartureWorkChange) : Prop := {
  rt_once : NoDup ((fun c => wr_id (dwc_before c)) <$> changes);
  rt_change : forall c, c ∈ changes -> work_retired c /\ 0 < raw (dwc_retired c) /\
    raw (dwc_retired c) = leaving (wr_id (dwc_before c)) (entries groups) /\
    exists e, e ∈ entries groups /\ is_pending e = true /\ entry_requirement e = dwc_before c;
  rt_all : forall e, e ∈ entries groups -> is_pending e = true ->
    exists c, c ∈ changes /\ dwc_before c = entry_requirement e
}.

Lemma entries_elem groups e :
  e ∈ entries groups <-> exists c, c ∈ groups /\ e.2 ∈ pg_work (csg_before c) /\
    e.1 = pg_packs (csg_before c).
Proof.
  unfold entries. rewrite list_elem_of_In, in_concat. setoid_rewrite <- list_elem_of_In. split.
  - intros (l & (c & -> & Hc)%list_elem_of_fmap & He). exists c.
    unfold group_entries in He. apply list_elem_of_fmap in He as (a & -> & Ha). done.
  - intros (c & Hc & Ha & Hp). exists (group_entries c). split; [by apply list_elem_of_fmap_2|].
    apply list_elem_of_fmap. exists e.2. split; [|done]. destruct e; simpl in *. congruence.
Qed.

Lemma entry_valid groups e :
  Forall group_ok (csg_before <$> groups) -> e ∈ entries groups ->
  0 < raw e.1 /\ WorkRequirement_validate (entry_requirement e) = Ok tt.
Proof.
  intros Hg (c & Hc & Ha & Hp)%entries_elem.
  rewrite list.Forall_fmap, list.Forall_forall in Hg. specialize (Hg c Hc) as Hgc.
  split; [rewrite Hp; apply Hgc|]. pose proof (go_work _ Hgc) as Hw.
  rewrite list.Forall_forall in Hw. apply (Hw _ Ha).
Qed.

(** The requirements whose pending packs leave, with those packs. *)
Lemma collected_pending es W r p :
  collected es W -> (r, p) ∈ List.filter (fun entry : retirement => raw entry.2 >? 0) (bt_values W) <->
  bt_get (wr_id r) W = Some (r, p) /\ 0 < raw p.
Proof.
  intros Hc. rewrite list_elem_of_In, List.filter_In, <- list_elem_of_In, bt_values_elem_of.
  simpl. rewrite Z.ltb_lt. split.
  - intros [(k & Hk) Hp]. split; [|done]. apply (bt_get_elem_of k) in Hk; [|apply Hc].
    destruct (co_sum _ _ Hc _ _ _ Hk) as (_ & e & _ & He & Hi). unfold entry_id in Hi. congruence.
  - intros [Hk Hp]. split; [|done]. exists (wr_id r). apply bt_get_elem_of; [apply Hc|done].
Qed.

Lemma NoDup_fmap_filter {A B} (f : A -> B) (p : A -> bool) l :
  NoDup (f <$> l) -> NoDup (f <$> List.filter p l).
Proof.
  induction l as [|a l IH]; csimpl; [done|]. intros [Hn Hd]%NoDup_cons.
  destruct (p a); csimpl; [|by apply IH]. apply NoDup_cons. split; [|by apply IH].
  intros (b & E & Hb%list_elem_of_In%List.filter_In)%list_elem_of_fmap. apply Hn. rewrite E.
  apply list_elem_of_fmap_2, list_elem_of_In, Hb.
Qed.

Lemma collected_ids es W : collected es W -> NoDup ((fun e : retirement => wr_id e.1) <$> bt_values W).
Proof.
  intros Hc. unfold bt_values. rewrite <- list_fmap_compose.
  replace (_ <$> W) with (W.*1); [apply key_sorted_NoDup, Hc|].
  apply list_fmap_ext. intros i [k [r p]] Hi%list_elem_of_lookup_2. simpl.
  apply (bt_get_elem_of k) in Hi; [|apply Hc].
  by destruct (co_sum _ _ Hc _ _ _ Hi) as (_ & e & _ & <- & <-).
Qed.

Lemma retired_work_run groups changes :
  retired_work groups = Ok changes -> retirable groups /\ retires groups changes.
Proof.
  unfold retired_work. intros (W & HW & Hch)%bind_Ok. apply try_map_Ok in Hch.
  apply (retire_groups_Ok groups [] []) in HW as [Hc Hg]; [|apply collected_nil].
  simpl in Hc. set (L := List.filter _ _) in Hch.
  assert (Forall2 (fun entry c => dwc_before c = entry.1 /\ dwc_retired c = entry.2 /\
    work_retired c) L changes) as Hf.
  { eapply Forall2_impl; [exact Hch|]. intros [r p] c. apply retire_requirement_run. }
  assert (forall e, e ∈ entries groups -> is_pending e = true -> exists p c,
    raw p = leaving (entry_id e) (entries groups) /\ c ∈ changes /\
    dwc_before c = entry_requirement e /\ dwc_retired c = p /\ work_retired c) as Hall.
  { intros e He Hp. destruct (co_seen _ _ Hc e He) as [p Hget].
    destruct (co_sum _ _ Hc _ _ _ Hget) as [Hsum _].
    pose proof (leaving_elem (entry_id e) _ e He Hp eq_refl).
    pose proof (proj1 (entry_valid _ e Hg He)).
    assert ((entry_requirement e, p) ∈ L) as (i & Hi)%list_elem_of_lookup.
    { apply (collected_pending (entries groups)); [done|]. split; [done|lia]. }
    destruct (Forall2_lookup_l _ _ _ _ _ Hf Hi) as (c & Hci & ? & ? & ?). exists p, c.
    split_and!; try done. by eapply list_elem_of_lookup_2. }
  split.
  - constructor; [done|by eapply collected_agree|]. intros e He Hp.
    destruct (Hall e He Hp) as (p & c & Hs & _ & Hb & Hr & [_ _ _ _ Hm Hv]).
    rewrite <- Hs, <- Hb, <- Hr. pose proof (WholePacks_range (remaining (wr_quantity (dwc_after c)))).
    split; [lia|by eapply next_bound].
  - constructor.
    + replace (_ <$> changes) with ((fun e : retirement => wr_id e.1) <$> L).
      * apply NoDup_fmap_filter. by eapply collected_ids.
      * clear - Hf. induction Hf as [|entry c L' cs [Hb _] _ IH]; csimpl; [done|]. by rewrite IH, Hb.
    + intros c (i & Hi)%list_elem_of_lookup.
      destruct (Forall2_lookup_r _ _ _ _ _ Hf Hi) as ([r p] & Hri & Hb & Hr & Hw). simpl in *.
      apply list_elem_of_lookup_2, (collected_pending (entries groups)) in Hri as [Hget Hp]; [|done].
      destruct (co_sum _ _ Hc _ _ _ Hget) as [Hsum _]. rewrite Hb, Hr. split_and!; try done.
      destruct (leaving_cases (wr_id r) (entries groups)) as [(e & He & Hpe & Hie)|]; [|lia].
      exists e. split_and!; try done. destruct (co_seen _ _ Hc e He) as [q Hq].
      rewrite Hie in Hq. congruence.
    + intros e He Hp. destruct (Hall e He Hp) as (p & c & _ & ? & ? & _). by exists c.
Qed.

Lemma retired_work_total groups :
  (length groups <= HUB_DISPATCH_LINES)%nat -> retirable groups ->
  exists changes, retired_work groups = Ok changes.
Proof.
  intros Hlen [Hg Ha Hp]. destruct (retire_groups_Ok groups [] []) as [Hr Ht]; [apply collected_nil|].
  simpl in *. destruct Ht as [W HW]; [done| |done|..].
  { unfold capacity_left, HUB_DEPARTURE_WORK_CHANGES. cbn [length]. rewrite Nat.add_0_l.
    by apply Nat.mul_le_mono_r. }
  { intros id. destruct (leaving_cases id (entries groups)) as [(e & He & Hpe & <-)| ->]; [|done].
    destruct (Hp e He Hpe) as [Hle _].
    pose proof (WholePacks_range (remaining (wr_quantity (entry_requirement e)))). lia. }
  destruct (Hr W HW) as [Hc _]. unfold retired_work. rewrite HW. cbn [bind].
  set (L := List.filter _ _).
  assert (Forall (fun entry => exists c, retire_requirement entry = Ok c) L) as Hf.
  { apply list.Forall_forall. intros [r p] [Hget Hpos]%(collected_pending (entries groups)); [|done].
    destruct (co_sum _ _ Hc _ _ _ Hget) as (Hsum & f & Hf & Hfr & Hfi).
    destruct (leaving_cases (wr_id r) (entries groups)) as [(e & He & Hpe & Hie)|]; [|lia].
    assert (entry_requirement e = r) as <- by (rewrite <- Hfr; apply Ha; [done..|congruence]).
    destruct (Hp e He Hpe) as [Hle Hrev]. apply retire_requirement_total; [|by rewrite Hsum|done].
    apply (entry_valid groups e Hg He). }
  clearbody L. induction Hf as [|entry L (c & Hc') _ (cs & IH)]; [by exists []|].
  exists (c :: cs). simpl. by rewrite Hc', IH.
Qed.

(** For the groups of a dispatch, the retired work is computed exactly when
    the groups are valid, agree on every requirement they share, and no
    requirement has more packs leaving than remain or an exhausted revision;
    each requirement with pending packs among the groups is then retired once,
    by exactly those packs, moving them from remaining to no longer required
    and advancing its revision by one.  The capacity check never refuses. *)
Theorem retired_work_correct groups :
  (length groups <= HUB_DISPATCH_LINES)%nat ->
  match retired_work groups with
  | Ok changes => retirable groups /\ retires groups changes
  | Err _ => ~ retirable groups
  end.
Proof.
  intros Hlen. destruct (retired_work groups) as [changes|e] eqn:E; [by apply retired_work_run|].
  intros Hr. destruct (retired_work_total groups Hlen Hr) as [changes ?]. congruence.
Qed.

(** ** What a valid departure record says *)

Section Records.
Context `{Sha256}.

(** The consumed group is the whole group of the paper's line. *)
Record consumed_line (r : DepartureRecord) (c : ConsumedStockGroup) (line : DispatchLineSnapshot)
  : Prop := {
  cl_group : group_ok (csg_before c);
  cl_id : pg_id (csg_before c) = dl_group line;
  cl_version : pg_revision (csg_before c) = dl_group_revision line;
  cl_trace : pg_trace (csg_before c) = sp_id (dl_trace line);
  cl_variant : pg_variant (csg_before c) = rr_id (dl_variant line);
  cl_location : pg_location (csg_before c) = rr_id (dl_location line);
  cl_packs : pg_packs (csg_before c) = dl_packs line;
  cl_identification : pg_identification (csg_before c) = dl_identification line;
  cl_after : raw (csg_after_revision c) = raw (pg_revision (csg_before c)) + 1;
  cl_journal : raw (pg_revision (csg_before c)) < raw (der_stock_revision r);
  cl_floor : PhysicalStockGroup_observation_floor (csg_before c) (der_occurred r)
    (der_recorded_at r) = Ok (csg_causal_floor c)
}.

Record departure_ok (r : DepartureRecord) (issued : IdentificationVersion) : Prop := {
  dok_paper : record_ok (der_paper r);
  dok_issued : last (dr_versions (der_paper r)) = Some issued;
  dok_identity : exists ids, DepartureIdentities_from_operation_bytes (der_operation r) = Ok ids
    /\ der_id r = dpi_departure ids;
  dok_hub : der_hub r = dr_hub (der_paper r);
  dok_force : iv_status issued = IdentificationStatus.Issued;
  dok_later : raw (dst_stock_revision (dr_updated (der_paper r))) < raw (der_stock_revision r);
  dok_catalog : raw (dm_catalog_revision (iv_material issued)) <= raw (der_catalog_revision r);
  dok_occurred : Occurrence_validate (der_occurred r) (der_recorded_at r) = Ok tt;
  dok_consumed : Forall2 (consumed_line r) (der_consumed r) (dm_lines (iv_material issued));
  dok_work : retired_work (der_consumed r) = Ok (der_work_changes r)
}.

Lemma validate_consumed_Ok r c line :
  validate_consumed r (c, line) = Ok tt <-> consumed_line r c line.
Proof.
  unfold validate_consumed. rewrite seq_Ok, map_err_Ok, validate_Ok, guard_Ok, !orb_false_iff.
  split.
  - intros (? & Hb & Hk). run_ok. rewrite departure_next_Ok in *. breflect. subst.
    constructor; congruence.
  - intros []. autorewrite with reflect. split_and!; try done.
    rewrite (proj2 (departure_next_Ok _ (csg_after_revision c))) by done. cbn [bind].
    rewrite bool_decide_eq_true_2 by done. cbn [negb orb].
    rewrite (proj2 (Z.leb_gt _ _)) by lia. rewrite cl_floor0. cbn [map_err bind].
    by rewrite bool_decide_eq_true_2.
Qed.

Lemma zip_for_each {A B E} (f : A * B -> result unit E) (P : A -> B -> Prop) l k :
  (forall a b, f (a, b) = Ok tt <-> P a b) -> length l = length k ->
  try_for_each f (zip l k) = Ok tt <-> Forall2 P l k.
Proof.
  intros Hf. revert k. induction l as [|a l IH]; intros [|b k]; simpl; try done.
  intros [= Hl]. rewrite seq_Ok, Hf, IH by done. by rewrite Forall2_cons.
Qed.

Lemma departure_valid_Ok r :
  DepartureRecord_validate r = Ok tt <-> exists issued, departure_ok r issued.
Proof.
  unfold DepartureRecord_validate. rewrite seq_Ok, map_err_Ok, record_validate_Ok. split.
  - intros (Hp & (issued & Hi & Hk)%bind_Ok). apply ok_or_Ok in Hi. exists issued.
    apply bind_Ok in Hk as (ids & Hids & Hk). apply guard_Ok in Hk as [Hb Hk].
    rewrite !orb_false_iff in Hb. breflect. rewrite !seq_Ok, map_err_Ok in Hk.
    destruct Hk as (Ho & Hz & Hw). run_ok. breflect.
    constructor; try done; [by exists ids|..]; [|congruence].
    eapply zip_for_each; [|done|exact Hz]. apply validate_consumed_Ok.
  - intros (issued & [Hp Hl (ids & Hids & Hid) Hh Hs Hlt Hc Ho Hf Hw]). split; [done|].
    rewrite Hl, Hids. cbn [ok_or bind].
    pose proof (last_Some (dr_versions (der_paper r)) issued) as [Hls _].
    destruct (Hls Hl) as (earlier & He).
    assert (dr_versions (der_paper r) !! length earlier = Some issued) as Hv
      by (by rewrite He, list_lookup_middle).
    pose proof (ro_versions _ Hp _ _ Hv) as Hok.
    rewrite (issued_no_draft _ _ Hp Hl), (proj1 (vo_open _ _ _ _ Hok) Hs).
    pose proof (mo_length _ (vo_material _ _ _ _ Hok)). pose proof (Forall2_length _ _ _ Hf).
    rewrite !bool_decide_eq_true_2 by done. cbn [negb orb is_some].
    rewrite (proj2 (Z.leb_gt _ _)), (proj2 (Z.ltb_ge _ _)) by lia.
    rewrite (proj2 (Nat.eqb_neq _ _)), (proj2 (Nat.ltb_ge _ _)) by lia.
    rewrite (proj2 (Nat.eqb_eq _ _)) by lia. cbn [negb orb]. rewrite Ho. cbn [map_err bind].
    rewrite (proj2 (zip_for_each _ (consumed_line r) _ _ (validate_consumed_Ok r)
      (Forall2_length _ _ _ Hf))) by done.
    cbn [bind]. rewrite Hw. cbn [bind]. by rewrite bool_decide_eq_true_2.
Qed.
End Records.

(** ** What a planned departure promises *)

Section Plans.
Context `{Sha256}.

(** One treatment history of the context, as [plan] checks it. *)
Record treatment_checked (ctx : DepartureContext) (traces : list (HubRecordId * unit))
    (t : DepartureTreatment) : Prop := {
  tc_hub : pl_hub (dtr_lineage t) = dpx_hub ctx;
  tc_revision : pl_revision (dtr_lineage t) = dpx_stock_revision ctx;
  tc_trace : bs_contains (pl_trace (dtr_lineage t)) traces = true;
  tc_departs : exists selected projection selection,
    try_map (select_source ctx (dtr_lineage t))
      (List.filter (fun source => pg_trace (ds_group source) ==? pl_trace (dtr_lineage t))
         (dpx_sources ctx)) = Ok selected /\
    TreatmentState_project (dtr_state t) (dtr_lineage t)
      (ReferenceCatalog_handling_basis (dpx_catalog ctx)) = Ok projection /\
    TreatmentSelection_new selected = Ok selection /\
    TreatmentProjection_require projection selection PhysicalAction.NormalDeparture = Ok tt
}.

Lemma check_treatments_run ctx traces seen ts seen' :
  try_fold (check_treatment ctx traces) seen ts = Ok seen' ->
  any_repeated seen ((fun t => pl_trace (dtr_lineage t)) <$> ts) = false /\
  Forall (treatment_checked ctx traces) ts.
Proof.
  revert seen. induction ts as [|t ts IH]; intros seen; csimpl; [by intros _; split; constructor|].
  intros (s & Hs & [Hr Hf]%IH)%bind_Ok. unfold check_treatment in Hs. cbn [bs_insert] in Hs.
  apply guard_Ok in Hs as [Hb Hs]. rewrite !orb_false_iff in Hb. destruct Hb as (((? & ?) & ?) & Hn).
  run_ok. breflect. split; [by split|].
  constructor; [|done]. constructor; try done. by eexists _, _, _.
Qed.

Lemma select_sources_run ctx graph sources selected s :
  try_map (select_source ctx graph) sources = Ok selected -> s ∈ sources ->
  pg_id (ds_group s) ∈ selected /\ exists n, PhysicalLineage_node graph (pg_id (ds_group s)) = Some n
    /\ pln_packs n = pg_packs (ds_group s).
Proof.
  rewrite try_map_Ok. intros Hf (i & Hi)%list_elem_of_lookup.
  destruct (Forall2_lookup_l _ _ _ _ _ Hf Hi) as (g & Hg & Hs).
  unfold select_source in Hs. run_ok. breflect.
  split; [by eapply list_elem_of_lookup_2|]. by eexists.
Qed.

(** A group the projection lets depart is cleared by its lineage. *)
Lemma checked_cleared ctx traces t s :
  lineage_wf (dtr_lineage t) -> treatment_checked ctx traces t -> s ∈ dpx_sources ctx ->
  pg_trace (ds_group s) = pl_trace (dtr_lineage t) ->
  exists n, n ∈ pl_nodes (dtr_lineage t) /\ pln_id n = pg_id (ds_group s) /\
    pln_packs n = pg_packs (ds_group s) /\ cleared (dtr_state t) (dtr_lineage t) n.
Proof.
  intros Hwf [_ _ _ (selected & p & sel & Hm & Hp & Hsel & Hreq)] Hs Htr.
  eapply (select_sources_run _ _ _ _ s) in Hm as [Hin (n & Hn & Hpk)].
  2:{ apply list_elem_of_In, List.filter_In. by rewrite bool_decide_eq_true, <- list_elem_of_In. }
  apply wf_node in Hn as [Hn Hid]; [|done]. exists n. split_and!; try done.
  apply (departure_gate_iff _ _ _ _ _ Hwf Hp) in Hreq as [_ Hall].
  apply TreatmentSelection_new_Ok in Hsel as (_ & _ & Hraw).
  rewrite Hraw, list.Forall_forall in Hall.
  destruct (Hall (pg_id (ds_group s))) as (m & Hm & _ & Hmid & Hc).
  { by apply elem_of_sort_by_key. }
  by rewrite (wf_node_inj _ Hwf n m Hn Hm) by congruence.
Qed.

Lemma line_traces_spec lines acc :
  bt_wf acc ->
  let ts := foldl (fun traces line => (bs_insert (sp_id (dl_trace line)) traces).2) acc lines in
  bt_wf ts /\ forall k, bs_contains k ts = true <->
    bs_contains k acc = true \/ exists line, line ∈ lines /\ sp_id (dl_trace line) = k.
Proof.
  revert acc. induction lines as [|line lines IH]; intros acc Hw; simpl.
  { split; [done|]. intros k. split; [by left|]. intros [|(l & ?%not_elem_of_nil & _)]; done. }
  destruct (IH (bt_insert (sp_id (dl_trace line)) tt acc)) as [Hw' Hk]; [by apply bt_insert_wf|].
  split; [done|]. intros k. rewrite Hk.
  pose proof (bs_contains_insert k (sp_id (dl_trace line)) acc) as Hi. cbn [bs_insert snd] in Hi.
  rewrite Hi, orb_true_iff, bool_decide_eq_true. setoid_rewrite elem_of_cons. naive_solver.
Qed.

(** As many distinct treatments as traces: every trace has one. *)
Lemma every_trace_treated (traces : list (HubRecordId * unit)) ts k :
  bt_wf traces -> length ts = length traces ->
  NoDup ((fun t => pl_trace (dtr_lineage t)) <$> ts) ->
  Forall (fun t => bs_contains (pl_trace (dtr_lineage t)) traces = true) ts ->
  bs_contains k traces = true -> exists t, t ∈ ts /\ pl_trace (dtr_lineage t) = k.
Proof.
  intros Hw Hlen Hn Hf Hk.
  assert (forall j, bs_contains j traces = true <-> j ∈ traces.*1) as Hc.
  { intros j. unfold bs_contains. rewrite is_some_true, list_elem_of_fmap. split.
    - intros [[] Hj%bt_get_elem_of]; [|done]. by exists (j, tt).
    - intros ([j' []] & -> & Hj). exists tt. by apply bt_get_elem_of. }
  apply Hc in Hk.
  assert (Permutation ((fun t => pl_trace (dtr_lineage t)) <$> ts) traces.*1) as Hp.
  { apply submseteq_length_Permutation; [|by rewrite !length_fmap; lia].
    apply NoDup_submseteq; [done|]. intros j (t & -> & Ht)%list_elem_of_fmap.
    apply Hc. rewrite list.Forall_forall in Hf. by apply Hf. }
  rewrite <- Hp in Hk. apply list_elem_of_fmap in Hk as (t & -> & ?). by exists t.
Qed.

Record departure_effect (cmd : DepartureCommand) (ctx : DepartureContext)
    (ids : DepartureIdentities) (actor : PublicKey) (now : UnixTimestamp) (r : DepartureRecord)
    (issued : IdentificationVersion) : Prop := {
  df_unused : dpx_prior_departure ctx = None;
  df_fresh : dpc_expected_stock_revision cmd = dpx_stock_revision ctx /\
    dpc_expected_catalog_revision cmd = rc_revision (dpx_catalog ctx) /\
    dpc_preparation cmd = dr_id (dpx_paper ctx) /\
    dpc_expected_preparation_revision cmd = dr_revision (dpx_paper ctx);
  df_valid : departure_ok r issued;
  df_paper : der_paper r = dpx_paper ctx /\ iv_id issued = dpc_identification cmd;
  df_stock : raw (der_stock_revision r) = raw (dpx_stock_revision ctx) + 1;
  df_stamp : der_id r = dpi_departure ids /\ der_operation r = dpi_operation ids /\
    der_hub r = dpx_hub ctx /\ der_actor r = actor /\ der_recorded_at r = now /\
    der_occurred r = dpc_occurred cmd /\ der_observation r = dpc_observation cmd;
  df_current : forall c, c ∈ der_consumed r ->
    exists s, s ∈ dpx_sources ctx /\ csg_before c = ds_group s;
  df_cleared : forall c, c ∈ der_consumed r ->
    exists t n, t ∈ dpx_treatments ctx /\ pl_revision (dtr_lineage t) = dpx_stock_revision ctx /\
      n ∈ pl_nodes (dtr_lineage t) /\ pln_id n = pg_id (csg_before c) /\
      pln_packs n = pg_packs (csg_before c) /\ cleared (dtr_state t) (dtr_lineage t) n;
  df_work : retires (der_consumed r) (der_work_changes r)
}.

Lemma consume_lines_run cmd ctx now lines consumed c :
  try_map (consume_line cmd ctx now) lines = Ok consumed -> c ∈ consumed ->
  exists s, s ∈ dpx_sources ctx /\ csg_before c = ds_group s.
Proof.
  rewrite try_map_Ok. intros Hf (i & Hi)%list_elem_of_lookup.
  destruct (Forall2_lookup_r _ _ _ _ _ Hf Hi) as (line & _ & Hc). unfold consume_line in Hc.
  run_ok. match goal with F : List.find _ _ = Some ?s |- _ =>
    apply List.find_some in F as [Hin%list_elem_of_In _]; by exists s end.
Qed.

Lemma consumed_cleared ctx lines c s line :
  Forall (fun t => lineage_wf (dtr_lineage t)) (dpx_treatments ctx) ->
  length (dpx_treatments ctx) = length (line_traces lines) ->
  any_repeated [] ((fun t => pl_trace (dtr_lineage t)) <$> dpx_treatments ctx) = false ->
  Forall (treatment_checked ctx (line_traces lines)) (dpx_treatments ctx) ->
  s ∈ dpx_sources ctx -> csg_before c = ds_group s -> line ∈ lines ->
  pg_trace (csg_before c) = sp_id (dl_trace line) ->
  exists t n, t ∈ dpx_treatments ctx /\ pl_revision (dtr_lineage t) = dpx_stock_revision ctx /\
    n ∈ pl_nodes (dtr_lineage t) /\ pln_id n = pg_id (csg_before c) /\
    pln_packs n = pg_packs (csg_before c) /\ cleared (dtr_state t) (dtr_lineage t) n.
Proof.
  intros Hwf Hlen [Hrep _]%any_repeated_false Hchk Hs Hcs Hline Htr.
  destruct (line_traces_spec lines [] bt_wf_nil) as [Hw Hk]. fold (line_traces lines) in Hw, Hk.
  rewrite list.Forall_forall in Hwf. rewrite list.Forall_forall in Hchk.
  destruct (every_trace_treated (line_traces lines) (dpx_treatments ctx) (sp_id (dl_trace line)))
    as (t & Ht & Htt); [done..| |by apply Hk; right; exists line|].
  { apply list.Forall_forall. intros t Ht. apply (Hchk t Ht). }
  destruct (checked_cleared ctx (line_traces lines) t s) as (n & ? & ? & ? & ?);
    [by apply Hwf|by apply Hchk|done|congruence|].
  exists t, n. rewrite Hcs. split_and!; try done. apply (Hchk t Ht).
Qed.

Lemma departure_plan_run cmd ctx ids actor now r :
  Forall (fun t => lineage_wf (dtr_lineage t)) (dpx_treatments ctx) ->
  DepartureCommand_plan cmd ctx ids actor now = Ok r ->
  exists issued, departure_effect cmd ctx ids actor now r issued.
Proof.
  intros Hwf Hp. unfold DepartureCommand_plan in Hp. run_ok.
  match goal with V : DepartureRecord_validate _ = Ok tt |- _ =>
    apply departure_valid_Ok in V as [issued Hok] end.
  match goal with T : try_fold _ _ _ = Ok _ |- _ =>
    apply check_treatments_run in T as [Hrep Hchk] end.
  match goal with C : try_map _ _ = Ok ?cs |- _ => rename C into Hcon; rename cs into consumed end.
  rewrite departure_next_Ok in *. breflect. exists issued.
  pose proof (dok_issued _ _ Hok) as Hlast. cbn [der_paper] in Hlast. simplify_eq.
  constructor; simpl; try done.
  - by destruct (dpx_prior_departure ctx).
  - intros c. by eapply consume_lines_run.
  - intros c Hc. destruct (consume_lines_run _ _ _ _ _ c Hcon Hc) as (s & Hs & Hcs).
    apply list_elem_of_lookup in Hc as (i & Hi).
    destruct (Forall2_lookup_l _ _ _ _ _ (dok_consumed _ _ Hok) Hi) as (line & Hl & Hcl).
    eapply consumed_cleared; try done; [by eapply list_elem_of_lookup_2|apply Hcl].
  - by apply retired_work_run.
Qed.

(** C1: an accepted departure uses the current paper in force, once: nothing
    has departed on it before, the command names its identification at the
    current revisions, and the consumed groups are exactly the current groups
    of its lines, whole and unchanged since it was issued.  Every one of them is
    cleared, at the current stock revision, by its treatment history: accepted
    by its standing decision and under no unreleased hold.  The record carries
    the next stock revision and retires exactly the pending work that leaves. *)
Theorem departure_correct cmd ctx ids actor now r :
  Forall (fun t => lineage_wf (dtr_lineage t)) (dpx_treatments ctx) ->
  DepartureCommand_plan cmd ctx ids actor now = Ok r ->
  exists issued, departure_effect cmd ctx ids actor now r issued.
Proof. apply departure_plan_run. Qed.

(** ** Totals *)

Lemma group_leaving c id :
  group_ok (csg_before c) -> leaving id (group_entries c) <= raw (pg_packs (csg_before c)).
Proof.
  intros Hg. unfold group_entries. pose proof (go_distinct _ Hg) as Hd. revert Hd.
  generalize (pg_packs (csg_before c)) as packs, (pg_work (csg_before c)) as work.
  intros packs. pose proof (WholePacks_range packs).
  induction work as [|a work IH]; csimpl; [lia|]. intros [Hn Hd]%NoDup_cons.
  specialize (IH Hd). destruct (decide (wr_id (wa_requirement a) = id)) as [<-|Hne].
  2:{ unfold entry_id at 1. simpl. rewrite bool_decide_eq_false_2 by done.
      destruct (is_pending _); simpl; lia. }
  rewrite leaving_none; [destruct (_ && _); lia|].
  intros e (b & -> & Hb)%list_elem_of_fmap _ Hi. apply Hn.
  apply list_elem_of_fmap. exists b. split; [|done]. symmetry. exact Hi.
Qed.

Lemma groups_leaving groups id :
  Forall group_ok (csg_before <$> groups) ->
  leaving id (entries groups) <= sum_packs ((fun c => pg_packs (csg_before c)) <$> groups).
Proof.
  unfold entries. induction groups as [|c groups IH]; csimpl; [lia|].
  intros [Hg Hgs]%list.Forall_cons. rewrite leaving_app.
  pose proof (group_leaving c id Hg). specialize (IH Hgs). lia.
Qed.

(** In a valid departure the packs that leave are the packs the paper in
    force lists, in total and line by line, and no requirement is retired by
    more packs than leave. *)
Theorem departure_totals r issued :
  DepartureRecord_validate r = Ok tt -> last (dr_versions (der_paper r)) = Some issued ->
  DispatchMaterial_total_packs (iv_material issued)
    = Ok (sum_packs ((fun c => pg_packs (csg_before c)) <$> der_consumed r)) /\
  (fun c => pg_id (csg_before c)) <$> der_consumed r = dl_group <$> dm_lines (iv_material issued) /\
  Forall (fun change => raw (dwc_retired change)
    <= sum_packs ((fun c => pg_packs (csg_before c)) <$> der_consumed r)) (der_work_changes r).
Proof.
  intros (issued' & Hok)%departure_valid_Ok Hl. rewrite (dok_issued _ _ Hok) in Hl.
  injection Hl as ->. pose proof (dok_consumed _ _ Hok) as Hf.
  assert ((fun c => pg_packs (csg_before c)) <$> der_consumed r
    = dl_packs <$> dm_lines (iv_material issued)) as Hpk.
  { clear - Hf. induction Hf as [|c line cs lines Hc _ IH]; csimpl; [done|].
    by rewrite IH, (cl_packs _ _ _ Hc). }
  assert (material_ok (iv_material issued)) as Hm.
  { pose proof (dok_issued _ _ Hok) as (earlier & He)%last_Some.
    apply (vo_material _ _ _ _ (ro_versions _ (dok_paper _ _ Hok) (length earlier) issued
      ltac:(by rewrite He, list_lookup_middle))). }
  destruct (retired_work_run _ _ (dok_work _ _ Hok)) as [Hra Hrt]. split_and!.
  - rewrite Hpk. by apply total_packs_sum.
  - clear - Hf. induction Hf as [|c line cs lines Hc _ IH]; csimpl; [done|].
    by rewrite IH, (cl_id _ _ _ Hc).
  - apply list.Forall_forall. intros change Hc. destruct (rt_change _ _ Hrt change Hc) as (_ & _ & -> & _).
    apply groups_leaving, Hra.
Qed.
End Plans.

(** The message of a departure command determines the command, its hub, its
    actor and its identities. *)
Theorem DepartureCommand_message_inj cmd cmd' hub hub' actor actor' ids ids' :
  DepartureCommand_message cmd hub actor ids = DepartureCommand_message cmd' hub' actor' ids' <->
  cmd = cmd' /\ hub = hub' /\ actor = actor' /\ ids = ids'.
Proof.
  split; [|by intros (-> & -> & -> & ->)]. intros E. unfold DepartureCommand_message in E.
  apply app_inv_head in E. do 10 peel E. apply prefix_code_inj in E; [|apply _].
  destruct cmd, cmd', ids, ids'; simpl in *. by subst.
Qed.

(** ** A concrete departure *)

(** The accepted group 51 of [sample_lineage] leaves on [sample_paper]. *)
Definition sample_departure_context (paper : DispatchRecord) : DepartureContext :=
  {| dpx_hub := sample_hub; dpx_stock_revision := sample_revision 9;
     dpx_catalog := sample_catalog; dpx_paper := paper; dpx_sources := sample_sources;
     dpx_treatments := [{| dtr_lineage := sample_lineage; dtr_state := sample_treatment |}];
     dpx_prior_departure := None |}.
Definition sample_departure : DepartureCommand :=
  {| dpc_expected_stock_revision := sample_revision 9;
     dpc_expected_catalog_revision := sample_revision 7;
     dpc_preparation := sample_preparation;
     dpc_expected_preparation_revision := sample_revision 2;
     dpc_identification := di_identification (sample_dispatch_ids 72);
     dpc_occurred := Occurrence.Known (sample_time 240);
     dpc_observation := sample_provenance "Collected" |}.
Definition sample_departure_ids : DepartureIdentities :=
  match @DepartureIdentities_from_operation_bytes sample_sha256 (sample_id 81) with
  | Ok ids => ids
  | Err _ => {| dpi_operation := sample_id 1; dpi_departure := sample_id 1 |}
  end.
Abbreviation sample_departure_plan paper :=
  (@DepartureCommand_plan sample_sha256 sample_departure (sample_departure_context paper)
    sample_departure_ids (sample_key 1) (sample_time 250)).

Lemma sample_departed : exists paper r,
  sample_paper = Some paper /\ sample_departure_plan paper = Ok r /\
  @DepartureRecord_validate sample_sha256 r = Ok tt.
Proof.
  assert (match sample_paper with
    | Some paper => match sample_departure_plan paper with
        | Ok r => is_ok (@DepartureRecord_validate sample_sha256 r) | Err _ => false end
    | None => false end = true) as H by (vm_compute; reflexivity).
  destruct sample_paper as [paper|]; [|done]. exists paper.
  destruct (sample_departure_plan paper) as [r|]; [|done]. exists r.
  apply is_ok_Ok in H as [[] H]. done.
Qed.

Lemma sample_lineages_wf paper :
  Forall (fun t => lineage_wf (dtr_lineage t)) (dpx_treatments (sample_departure_context paper)).
Proof. apply list.Forall_singleton, sample_lineage_wf. Qed.

Lemma departure_correct_witness :
  exists paper r issued, sample_departure_plan paper = Ok r /\
    @departure_effect sample_sha256 sample_departure (sample_departure_context paper)
      sample_departure_ids (sample_key 1) (sample_time 250) r issued.
Proof.
  destruct sample_departed as (paper & r & _ & E & _). exists paper, r.
  destruct (@departure_correct sample_sha256 _ (sample_departure_context paper) _ _ _ r
    (sample_lineages_wf paper) E) as [issued H].
  exists issued. split; [exact E|exact H].
Defined.

Lemma departure_totals_witness :
  exists r issued, last (dr_versions (der_paper r)) = Some issued /\
    DispatchMaterial_total_packs (iv_material issued)
      = Ok (sum_packs ((fun c => pg_packs (csg_before c)) <$> der_consumed r)).
Proof.
  destruct sample_departed as (paper & r & _ & E & V). exists r.
  destruct (proj1 (departure_valid_Ok r) V) as (issued & Hok). exists issued.
  split; [exact (dok_issued _ _ Hok)|].
  exact (proj1 (@departure_totals sample_sha256 r issued V (dok_issued _ _ Hok))).
Defined.

(** Seven of the ten pending packs leave, in two groups. *)
Definition sample_consumed : list ConsumedStockGroup :=
  [{| csg_before := sample_group 51 4 [pending sample_requirement];
      csg_after_revision := sample_revision 2; csg_causal_floor := None |};
   {| csg_before := sample_group 52 3 [pending sample_requirement];
      csg_after_revision := sample_revision 2; csg_causal_floor := None |}].
Lemma retired_work_correct_witness :
  exists changes, retired_work sample_consumed = Ok changes /\
    (fun c => raw (dwc_retired c)) <$> changes = [7] /\ retires sample_consumed changes.
Proof.
  pose proof (retired_work_correct sample_consumed ltac:(vm_compute; lia)) as H.
  assert (match retired_work sample_consumed with
    | Ok changes => (fun c => raw (dwc_retired c)) <$> changes = [7] | Err _ => False end) as Hv
    by (vm_compute; reflexivity).
  destruct (retired_work sample_consumed) as [changes|e]; [|destruct Hv].
  exists changes. exact (conj eq_refl (conj Hv (proj2 H))).
Defined.
