(* ===== verification/Custody.v ===== *)
(** * Canonical facts of custody results

    [hub/custody_result.rs]: the byte encodings of reference records, causal
    clocks, work requirements and physical groups that the result digests of the
    later components share.  A reference record enters as the digest of the
    command that would create it, so an encoding determines its value up to a
    collision of the digest: [SealedCode] states this with the messages that
    are digested inside the encoding. *)

From Stdlib Require Import Bool ZArith Lia String List.
From stdpp Require Import base decidable option list numbers sets.
From S2P Require Import Prelude Containers Encoding Hub Reference Catalog Stock Movement.

(** ** Encodings *)

(** The input digest of a result recomputed for comparison, [[0; 32]]. *)
Definition zero_input : array 32 := Refined (zero_bytes 32) eq_refl.

Section Custody.
Context `{Sha256}.

(** The command whose fingerprint stands for a reference record. *)
Definition creation (catalog : HubRevision) (value : ReferenceRecord) : ReferenceCommand :=
  {| rcmd_expected_catalog_revision := catalog;
     rcmd_mutation := ReferenceMutation.Create (rr_id value) (rr_value value) |}.
Definition custody_reference (hub : HubId) (actor : PublicKey) (catalog : HubRevision)
    (value : ReferenceRecord) : list byte :=
  enc_revision (rr_revision value) ++
  raw (ReferenceCommand_fingerprint (creation catalog value) hub actor).
Definition custody_clock (value : option UnixTimestamp) : list byte :=
  enc_option enc_seconds value.
Definition custody_work (hub : HubId) (actor : PublicKey) (catalog : HubRevision)
    (value : WorkRequirement) : list byte :=
  enc_id (wr_id value) ++ enc_id (wr_trace value) ++ enc_id (wr_variant value) ++
  enc_revision (wr_revision value) ++
  enc_packs (required (wr_quantity value)) ++ enc_packs (completed (wr_quantity value)) ++
  enc_packs (no_longer_required (wr_quantity value)) ++ enc_packs (remaining (wr_quantity value)) ++
  enc_option (custody_reference hub actor catalog) (wr_target value).
Definition WorkProgress_tag (p : WorkProgress) : Z :=
  match p with
  | WorkProgress.Pending => 1
  | WorkProgress.Completed => 2
  | WorkProgress.NoLongerRequired => 3
  end.
Definition custody_allocation (hub : HubId) (actor : PublicKey) (catalog : HubRevision)
    (allocation : WorkAllocation) : list byte :=
  custody_work hub actor catalog (wa_requirement allocation) ++
  enc_tag (WorkProgress_tag (wa_progress allocation)).
Definition custody_group (hub : HubId) (actor : PublicKey) (catalog : HubRevision)
    (value : PhysicalStockGroup) : list byte :=
  enc_id (pg_id value) ++ enc_id (pg_trace value) ++ enc_id (pg_variant value) ++
  enc_id (pg_location value) ++ enc_optional_id (pg_parent value) ++
  enc_option enc_identification (pg_identification value) ++
  enc_packs (pg_packs value) ++ enc_revision (pg_revision value) ++
  custody_clock (pg_causal_floor value) ++
  enc_counted 4 (custody_allocation hub actor catalog) (pg_work value).

(** ** Sealed codes *)

(** No message of the first list collides with one of the second. *)
Definition apart (ms ms' : list (list byte)) : Prop :=
  forall m m', m ∈ ms -> m' ∈ ms' -> digest32 m = digest32 m' -> m = m'.

Lemma apart_mono ms ms' ns ns' : ms ⊆ ns -> ms' ⊆ ns' -> apart ns ns' -> apart ms ms'.
Proof. intros Hs Hs' Ha m m' Hm Hm'. apply Ha; [by apply Hs|by apply Hs']. Qed.

Lemma apart_refl m : apart [m] [m].
Proof. by intros ? ? ->%list_elem_of_singleton ->%list_elem_of_singleton. Qed.

(** [msgs a] are the messages digested inside [enc a]: unless two of them
    collide, the encoding determines the value and where it ends. *)
Class SealedCode {A : Type} (enc : A -> list byte) (msgs : A -> list (list byte)) : Prop :=
  sealed_inv a b r s : apart (msgs a) (msgs b) -> enc a ++ r = enc b ++ s -> a = b /\ r = s.

Lemma digest_inv m m' r s :
  apart [m] [m'] -> raw (digest32 m) ++ r = raw (digest32 m') ++ s -> m = m' /\ r = s.
Proof.
  intros Ha E. apply app_inj_1 in E as [E ->]; [|by rewrite !array_length].
  split; [|done]. apply Ha; [set_solver..|]. by apply refined_eq.
Qed.

Definition option_messages {A} (msgs : A -> list (list byte)) (o : option A) : list (list byte) :=
  match o with Some a => msgs a | None => [] end.
Definition list_messages {A} (msgs : A -> list (list byte)) (l : list A) : list (list byte) :=
  concat (msgs <$> l).

Lemma list_messages_cons {A} (msgs : A -> list (list byte)) a l :
  list_messages msgs (a :: l) = msgs a ++ list_messages msgs l.
Proof. done. Qed.
Lemma enc_seq_cons {A} (enc : A -> list byte) a l : enc_seq enc (a :: l) = enc a ++ enc_seq enc l.
Proof. done. Qed.

#[global] Instance sealed_option {A} (enc : A -> list byte) msgs :
  SealedCode enc msgs -> SealedCode (enc_option enc) (option_messages msgs).
Proof.
  intros Hs [a|] [b|] r s Ha E; simpl in E; injection E as E; try done.
  by apply (sealed_inv (enc := enc)) in E as [-> ->].
Qed.

(** Sequences whose elements satisfy what their decoding needs. *)
Section Sequences.
Context {A : Type} (P : A -> Prop) (enc : A -> list byte) (msgs : A -> list (list byte)).
Hypothesis enc_inv : forall a b r s, P a -> P b -> apart (msgs a) (msgs b) ->
  enc a ++ r = enc b ++ s -> a = b /\ r = s.

Lemma sealed_seq l k r s :
  Forall P l -> Forall P k -> apart (list_messages msgs l) (list_messages msgs k) ->
  length l = length k -> enc_seq enc l ++ r = enc_seq enc k ++ s -> l = k /\ r = s.
Proof.
  revert k. induction l as [|a l IH]; intros [|b k]; try done.
  rewrite !list_messages_cons, !enc_seq_cons, <- !app_assoc.
  intros [Pa Pl]%list.Forall_cons [Pb Pk]%list.Forall_cons Ha [= Hl] E.
  apply enc_inv in E as [-> E]; [|done..|eapply apart_mono; [..|exact Ha]; set_solver].
  apply IH in E as [-> ->]; [done..|eapply apart_mono; [..|exact Ha]; set_solver|done].
Qed.

Lemma sealed_counted width l k r s :
  Forall P l -> Forall P k -> apart (list_messages msgs l) (list_messages msgs k) ->
  Z.of_nat (length l) < 256 ^ Z.of_nat width -> Z.of_nat (length k) < 256 ^ Z.of_nat width ->
  enc_counted width enc l ++ r = enc_counted width enc k ++ s -> l = k /\ r = s.
Proof.
  unfold enc_counted. intros Pl Pk Ha Hl Hk. rewrite <- !app_assoc. intros E.
  apply app_inj_1 in E as [E1 E2]; [|by rewrite !be_bytes_length].
  apply be_bytes_inj in E1; [|lia..]. apply sealed_seq in E2; [done..|lia].
Qed.
End Sequences.
End Custody.

(** Strip the leading field of two sealed encodings. *)
Ltac apart_sub :=
  match goal with
  | H : apart _ _ |- apart _ _ => eapply apart_mono; [..|exact H];
      first [ done | intros ?; rewrite ?elem_of_app; tauto | simpl; set_solver ]
  end.
Ltac speel H :=
  rewrite <- ?app_assoc in H;
  first [ apply prefix_inv in H as [? H]
        | apply sealed_inv in H as [? H]; [|apart_sub] ].

Section Custody.
Context `{Sha256}.

Definition reference_messages (hub : HubId) (actor : PublicKey) (catalog : HubRevision)
    (value : ReferenceRecord) : list (list byte) :=
  [ReferenceCommand_message (creation catalog value) hub actor].
Definition work_messages hub actor catalog (value : WorkRequirement) : list (list byte) :=
  option_messages (reference_messages hub actor catalog) (wr_target value).
Definition allocation_messages hub actor catalog (value : WorkAllocation) : list (list byte) :=
  work_messages hub actor catalog (wa_requirement value).
Definition group_messages hub actor catalog (value : PhysicalStockGroup) : list (list byte) :=
  list_messages (allocation_messages hub actor catalog) (pg_work value).

Lemma creation_inj catalog v w hub actor :
  ReferenceCommand_message (creation catalog v) hub actor =
  ReferenceCommand_message (creation catalog w) hub actor ->
  rr_id v = rr_id w /\ rr_value v = rr_value w.
Proof.
  unfold ReferenceCommand_message. intros E. apply app_inv_head in E. do 3 peel E.
  apply prefix_code_inj in E; [|apply _]. by injection E.
Qed.

#[global] Instance custody_reference_sealed hub actor catalog :
  SealedCode (custody_reference hub actor catalog) (reference_messages hub actor catalog).
Proof.
  intros a b r s Ha E. unfold custody_reference, ReferenceCommand_fingerprint in E. peel E.
  apply digest_inv in E as [[? ?]%creation_inj ->]; [|apart_sub].
  destruct a, b; simpl in *. by subst.
Qed.

#[global] Instance custody_clock_prefix : PrefixCode custody_clock.
Proof. apply _. Qed.

Lemma QuantityWork_ext (q q' : QuantityWork) :
  required q = required q' -> completed q = completed q' ->
  no_longer_required q = no_longer_required q' -> remaining q = remaining q' -> q = q'.
Proof.
  intros. apply refined_eq. unfold required, completed, no_longer_required, remaining in *.
  destruct (raw q), (raw q'); simpl in *. by subst.
Qed.

#[global] Instance custody_work_sealed hub actor catalog :
  SealedCode (custody_work hub actor catalog) (work_messages hub actor catalog).
Proof.
  intros a b r s Ha E. unfold custody_work, work_messages in *. do 9 speel E.
  destruct a as [? ? ? ? q ?], b as [? ? ? ? q' ?]; simpl in *.
  assert (q = q') as -> by by apply QuantityWork_ext. by subst.
Qed.

Lemma WorkProgress_tag_inj p q : WorkProgress_tag p = WorkProgress_tag q -> p = q.
Proof. by destruct p, q. Qed.

#[global] Instance custody_allocation_sealed hub actor catalog :
  SealedCode (custody_allocation hub actor catalog) (allocation_messages hub actor catalog).
Proof.
  intros a b r s Ha E. unfold custody_allocation, allocation_messages in *. speel E.
  apply enc_tag_inv in E as [?%WorkProgress_tag_inj ->];
    [|by destruct (wa_progress a)|by destruct (wa_progress b)].
  destruct a, b; simpl in *. by subst.
Qed.

(** The encoding of a group within its capacity determines the group. *)
Lemma custody_group_inv hub actor catalog g g' r s :
  group_ok g -> group_ok g' ->
  apart (group_messages hub actor catalog g) (group_messages hub actor catalog g') ->
  custody_group hub actor catalog g ++ r = custody_group hub actor catalog g' ++ s ->
  g = g' /\ r = s.
Proof.
  intros [_ _ _ Hc _ _] [_ _ _ Hc' _ _] Ha E. unfold custody_group, group_messages in *.
  do 9 speel E. rewrite <- ?app_assoc in E.
  apply (sealed_counted (fun _ => True) _ (allocation_messages hub actor catalog)) in E as [? ->].
  - destruct g, g'; simpl in *. by subst.
  - intros a b u v _ _. apply sealed_inv.
  - by apply Forall_true.
  - by apply Forall_true.
  - done.
  - unfold HUB_GROUP_REQUIREMENTS in *. lia.
  - unfold HUB_GROUP_REQUIREMENTS in *. lia.
Qed.

(** [apart] by computation. *)
Definition digested (ms : list (list byte)) : list (list byte * list byte) :=
  (fun m => (raw (digest32 m), m)) <$> ms.
Definition apart_check (ms ms' : list (list byte)) : bool :=
  let ds' := digested ms' in
  forallb (fun d => forallb (fun d' => negb (d.1 ==? d'.1) || (d.2 ==? d'.2)) ds') (digested ms).
Lemma apart_checked ms ms' : apart_check ms ms' = true -> apart ms ms'.
Proof.
  unfold apart_check, digested. rewrite forallb_forall. intros Hc m m' Hm Hm' E.
  specialize (Hc (raw (digest32 m), m)). rewrite forallb_forall in Hc.
  specialize (Hc (proj1 (list_elem_of_In _ _) (list_elem_of_fmap_2 _ _ _ Hm))
    (raw (digest32 m'), m') (proj1 (list_elem_of_In _ _) (list_elem_of_fmap_2 _ _ _ Hm'))).
  cbn [fst snd] in Hc. rewrite E, bool_decide_eq_true_2 in Hc by done. by apply bool_decide_eq_true in Hc.
Qed.
End Custody.
