(* ===== verification/Papers.v ===== *)
(** * Result digests of papers and departures

    [hub/dispatch/result.rs] and [hub/departure/result.rs]: the digest that binds
    a stored paper or departure to the command that produced it. *)

From Stdlib Require Import Bool ZArith Lia String List Strings.Byte.
From stdpp Require Import base decidable option list numbers sets.
From S2P Require Import Prelude Containers Encoding Hub Reference Catalog Stock Movement Work Lineage Treatment Dispatch Departure Custody.

(** ** Encodings of a paper *)

Section Encodings.
Context `{Sha256}.

Definition result_stamp (value : DispatchStamp) : list byte :=
  enc_id (dst_operation value) ++ enc_revision (dst_stock_revision value) ++
  enc_key (dst_actor value) ++ enc_seconds (dst_recorded_at value) ++
  enc_hub_text (dst_observation value).

(** [reference], [optional_reference]: of the paper's hub and first actor. *)
Definition result_reference (owner : DispatchRecord) (catalog : HubRevision)
    (record : ReferenceRecord) : list byte :=
  enc_revision (rr_revision record) ++
  raw (ReferenceCommand_fingerprint (creation catalog record) (dr_hub owner)
         (dst_actor (dr_created owner))).
Definition result_optional_reference (owner : DispatchRecord) (catalog : HubRevision)
    (value : option ReferenceRecord) : list byte :=
  enc_option (result_reference owner catalog) value.

(** The tail of [trace]: a receipt writes nothing. *)
Definition result_origin (origin : PopulationOrigin) : list byte :=
  match origin with
  | PopulationOrigin.Receipt => []
  | PopulationOrigin.Returned returned =>
      domain_tag "harvestcircle.hub.population.returned.v1" ++ enc_id returned
  | PopulationOrigin.CountedOpening history =>
      domain_tag "harvestcircle.hub.population.counted-opening.v1" ++
      match history with
      | OpeningHistory.Unknown => enc_tag 0
      | OpeningHistory.ExternalReference reference => enc_tag 1 ++ enc_hub_text reference
      end
  | PopulationOrigin.CountedSurplus count related_population =>
      domain_tag "harvestcircle.hub.population.counted-surplus.v1" ++
      enc_id count ++ enc_id related_population
  end.
Definition result_trace (owner : DispatchRecord) (catalog : HubRevision)
    (value : StockPopulation) : list byte :=
  enc_id (sp_id value) ++ result_reference owner catalog (sp_variant value) ++
  result_reference owner catalog (sp_product value) ++
  result_optional_reference owner catalog (sp_supplier value) ++
  result_optional_reference owner catalog (sp_producer value) ++
  result_optional_reference owner catalog (sp_source_issuer value) ++
  hash_source (sp_source value) ++ enc_packs (sp_original_packs value) ++
  result_reference owner catalog (sp_initial_location value) ++
  result_optional_reference owner catalog (sp_planned_location value) ++
  hash_occurrence (sp_occurred value) ++ enc_seconds (sp_recorded_at value) ++
  enc_key (sp_actor value) ++ enc_hub_text (sp_observation value) ++
  result_origin (sp_origin value).

Definition result_line (owner : DispatchRecord) (catalog : HubRevision)
    (line : DispatchLineSnapshot) : list byte :=
  enc_id (dl_group line) ++ enc_revision (dl_group_revision line) ++ enc_packs (dl_packs line) ++
  enc_option enc_identification (dl_identification line) ++
  result_reference owner catalog (dl_location line) ++
  result_reference owner catalog (dl_product line) ++
  result_reference owner catalog (dl_variant line) ++
  result_trace owner catalog (dl_trace line).
Definition result_material (owner : DispatchRecord) (value : DispatchMaterial) : list byte :=
  enc_revision (dm_stock_revision value) ++ enc_revision (dm_catalog_revision value) ++
  enc_text (basis_id (dm_basis value)) ++ be_bytes 4 (basis_version (dm_basis value)) ++
  enc_text (basis_site_timezone (dm_basis value)) ++
  result_reference owner (dm_catalog_revision value) (dm_recipient value) ++
  enc_hub_text (dm_observation value) ++
  enc_counted 4 (result_line owner (dm_catalog_revision value)) (dm_lines value).

Definition IdentificationStatus_tag (status : IdentificationStatus) : Z :=
  match status with
  | IdentificationStatus.Issued => 1
  | IdentificationStatus.Superseded => 2
  | IdentificationStatus.Unused => 3
  end.
Definition result_version (owner : DispatchRecord) (version : IdentificationVersion) : list byte :=
  enc_id (iv_id version) ++ be_bytes 4 (raw (iv_number version)) ++
  enc_optional_id (iv_previous version) ++ result_material owner (iv_material version) ++
  result_stamp (iv_issued version) ++ enc_tag (IdentificationStatus_tag (iv_status version)) ++
  enc_option result_stamp (iv_closed version).

Definition dispatch_result_message (input : array 32) (record : DispatchRecord) : list byte :=
  domain_tag "harvestcircle.hub.dispatch.result.v1" ++
  raw input ++ enc_id (dr_id record) ++ enc_hub (dr_hub record) ++
  enc_revision (dr_revision record) ++ result_stamp (dr_created record) ++
  result_stamp (dr_updated record) ++ enc_option (result_material record) (dr_draft record) ++
  enc_counted 4 (result_version record) (dr_versions record).
Definition dispatch_result_digest (input : array 32) (record : DispatchRecord)
  : result (array 32) DispatchError :=
  DispatchRecord_validate record ;;?
  Ok (digest32 (dispatch_result_message input record)).

(** ** Encodings of a departure *)

Definition departure_work (record : DepartureRecord) (value : WorkRequirement) : list byte :=
  custody_work (der_hub record) (der_actor record) (der_catalog_revision record) value.
Definition allocation_digest (record : DepartureRecord) (value : WorkAllocation) : list byte :=
  departure_work record (wa_requirement value) ++
  enc_tag (WorkProgress_tag (wa_progress value)).
Definition result_consumed (record : DepartureRecord) (effect : ConsumedStockGroup) : list byte :=
  let group := csg_before effect in
  enc_id (pg_id group) ++ enc_id (pg_trace group) ++ enc_id (pg_variant group) ++
  enc_id (pg_location group) ++ enc_optional_id (pg_parent group) ++
  enc_option enc_identification (pg_identification group) ++
  enc_packs (pg_packs group) ++ enc_revision (pg_revision group) ++
  custody_clock (pg_causal_floor group) ++
  enc_counted 4 (allocation_digest record) (pg_work group) ++
  enc_revision (csg_after_revision effect) ++ custody_clock (csg_causal_floor effect).
Definition result_change (record : DepartureRecord) (change : DepartureWorkChange) : list byte :=
  departure_work record (dwc_before change) ++ departure_work record (dwc_after change) ++
  enc_packs (dwc_retired change).

Definition departure_result_message (input paper : array 32) (record : DepartureRecord)
  : list byte :=
  domain_tag "harvestcircle.hub.departure.result.v1" ++
  raw input ++ enc_id (der_id record) ++ enc_id (der_operation record) ++
  enc_hub (der_hub record) ++ enc_revision (der_stock_revision record) ++
  enc_revision (der_catalog_revision record) ++ enc_key (der_actor record) ++
  enc_seconds (der_recorded_at record) ++ hash_occurrence (der_occurred record) ++
  enc_hub_text (der_observation record) ++ raw paper ++
  enc_counted 4 (result_consumed record) (der_consumed record) ++
  enc_counted 4 (result_change record) (der_work_changes record).
Definition departure_result_digest (input : array 32) (record : DepartureRecord)
  : result (array 32) DepartureError :=
  DepartureRecord_validate record ;;?
  let? paper := map_err DepartureError.Dispatch
    (dispatch_result_digest input (der_paper record)) in
  Ok (digest32 (departure_result_message input paper record)).
End Encodings.

(** ** What a paper's encoding determines *)

Section Papers.
Context `{Sha256}.

#[global] Instance raw_array_prefix n : PrefixCode (fun a : array n => raw a).
Proof. apply (fixed_prefix_code _ n); [apply array_length|intros a b; apply refined_eq]. Qed.

#[global] Instance result_stamp_prefix : PrefixCode result_stamp.
Proof.
  intros a b r s E. unfold result_stamp in E. do 5 peel E.
  destruct a, b; simpl in *. by subst.
Qed.

(** The references of a paper, digested. *)
Definition owner_reference_messages (owner : DispatchRecord) (catalog : HubRevision)
  : ReferenceRecord -> list (list byte) :=
  reference_messages (dr_hub owner) (dst_actor (dr_created owner)) catalog.
Abbreviation opt_messages owner catalog := (option_messages (owner_reference_messages owner catalog)).
Definition trace_messages owner catalog (value : StockPopulation) : list (list byte) :=
  owner_reference_messages owner catalog (sp_variant value) ++
  owner_reference_messages owner catalog (sp_product value) ++
  opt_messages owner catalog (sp_supplier value) ++
  opt_messages owner catalog (sp_producer value) ++
  opt_messages owner catalog (sp_source_issuer value) ++
  owner_reference_messages owner catalog (sp_initial_location value) ++
  opt_messages owner catalog (sp_planned_location value).
Definition line_messages owner catalog (line : DispatchLineSnapshot) : list (list byte) :=
  owner_reference_messages owner catalog (dl_location line) ++
  owner_reference_messages owner catalog (dl_product line) ++
  owner_reference_messages owner catalog (dl_variant line) ++
  trace_messages owner catalog (dl_trace line).
Definition material_messages owner (value : DispatchMaterial) : list (list byte) :=
  owner_reference_messages owner (dm_catalog_revision value) (dm_recipient value) ++
  list_messages (line_messages owner (dm_catalog_revision value)) (dm_lines value).
Definition paper_messages (record : DispatchRecord) : list (list byte) :=
  option_messages (material_messages record) (dr_draft record) ++
  list_messages (fun version => material_messages record (iv_material version))
    (dr_versions record).

#[global] Instance result_reference_sealed owner catalog :
  SealedCode (result_reference owner catalog) (owner_reference_messages owner catalog).
Proof. exact (custody_reference_sealed (dr_hub owner) (dst_actor (dr_created owner)) catalog). Qed.
#[global] Instance result_optional_reference_sealed owner catalog :
  SealedCode (result_optional_reference owner catalog) (opt_messages owner catalog).
Proof. apply sealed_option, _. Qed.

(** What follows a trace does not begin like an origin. *)
Definition population_tag : list byte := list_byte_of_string "harvestcircle.hub.population.".
Definition origin_free (r : list byte) : Prop := forall t, r <> population_tag ++ t.

Lemma result_origin_tag o :
  match o with
  | PopulationOrigin.Receipt => result_origin o = []
  | _ => exists t, result_origin o = population_tag ++ t
  end.
Proof. destruct o; [done|by eexists..]. Qed.

Lemma result_origin_inv o o' r s :
  origin_free r -> origin_free s -> result_origin o ++ r = result_origin o' ++ s ->
  o = o' /\ r = s.
Proof.
  intros Hr Hs E. pose proof (result_origin_tag o) as Ht. pose proof (result_origin_tag o') as Ht'.
  destruct o as [|h|c p|x], o' as [|h'|c' p'|x'];
    try match type of Ht with ex _ => destruct Ht as [t Ht] end;
    try match type of Ht' with ex _ => destruct Ht' as [t' Ht'] end;
    try (exfalso; rewrite Ht, Ht', <- app_assoc in E; (by eapply Hr) || (by eapply Hs));
    [by rewrite Ht in E|..]; clear Ht Ht'; unfold result_origin in E; rewrite <- ?app_assoc in E;
    try (exfalso; revert E; apply clash_apart; vm_compute; reflexivity);
    apply app_inv_head in E.
  - destruct h as [|p], h' as [|p']; rewrite <- ?app_assoc in E;
      apply enc_tag_inv in E as [Et E]; try done. peel E. by subst.
  - do 2 peel E. by subst.
  - peel E. by subst.
Qed.

Lemma result_trace_inv owner catalog v w r s :
  apart (trace_messages owner catalog v) (trace_messages owner catalog w) ->
  origin_free r -> origin_free s ->
  result_trace owner catalog v ++ r = result_trace owner catalog w ++ s -> v = w /\ r = s.
Proof.
  intros Ha Hr Hs E. unfold result_trace, trace_messages in *. do 14 speel E.
  rewrite <- ?app_assoc in E. apply result_origin_inv in E as [? ->]; [|done..].
  destruct v, w; simpl in *. by subst.
Qed.

Lemma result_line_inv owner catalog v w r s :
  apart (line_messages owner catalog v) (line_messages owner catalog w) ->
  origin_free r -> origin_free s ->
  result_line owner catalog v ++ r = result_line owner catalog w ++ s -> v = w /\ r = s.
Proof.
  intros Ha Hr Hs E. unfold result_line, line_messages in *. do 7 speel E.
  rewrite <- ?app_assoc in E. apply result_trace_inv in E as [? ->]; [|apart_sub|done..].
  destruct v, w; simpl in *. by subst.
Qed.

(** The pack count of a line is too small to be read as a tag. *)
Lemma line_origin_free owner catalog line r : origin_free (result_line owner catalog line ++ r).
Proof.
  intros t E. unfold result_line in E. rewrite <- !app_assoc in E.
  pose proof (WholePacks_range (dl_packs line)) as Hp. unfold HUB_MAX_WHOLE_PACKS in Hp.
  unfold population_tag in E.
  change (list_byte_of_string "harvestcircle.hub.population.")
    with (list_byte_of_string "harvestcircle.hu" ++ list_byte_of_string "b.popula" ++
          be_bytes 4 0x74696f6e ++ list_byte_of_string ".") in E.
  rewrite <- !app_assoc in E.
  apply app_inj_1 in E as [_ E]; [|by rewrite HubRecordId_length].
  apply app_inj_1 in E as [_ E]; [|unfold enc_revision; by rewrite be_bytes_length].
  apply app_inj_1 in E as [E _]; [|unfold enc_packs; by rewrite be_bytes_length].
  unfold enc_packs in E. apply be_bytes_inj in E; lia.
Qed.

Lemma result_lines_inv owner catalog l k r s :
  apart (list_messages (line_messages owner catalog) l)
    (list_messages (line_messages owner catalog) k) ->
  length l = length k -> origin_free r -> origin_free s ->
  enc_seq (result_line owner catalog) l ++ r = enc_seq (result_line owner catalog) k ++ s ->
  l = k /\ r = s.
Proof.
  assert (forall l r, origin_free r -> origin_free (enc_seq (result_line owner catalog) l ++ r))
    as Hfree.
  { intros [|a m] t Ht; [done|]. rewrite enc_seq_cons, <- app_assoc. apply line_origin_free. }
  revert k. induction l as [|a l IH]; intros [|b k]; try done.
  rewrite !list_messages_cons, !enc_seq_cons, <- !app_assoc. intros Ha [= Hl] Hr Hs E.
  apply result_line_inv in E as [-> E]; [|apart_sub|by apply Hfree|by apply Hfree].
  apply IH in E as [-> ->]; [done|apart_sub|done..].
Qed.

Lemma result_material_inv owner m m' r s :
  material_ok m -> material_ok m' ->
  apart (material_messages owner m) (material_messages owner m') ->
  origin_free r -> origin_free s ->
  result_material owner m ++ r = result_material owner m' ++ s -> m = m' /\ r = s.
Proof.
  intros Hm Hm' Ha Hr Hs E. pose proof (mo_length _ Hm). pose proof (mo_length _ Hm').
  unfold HUB_DISPATCH_LINES in *. unfold result_material, material_messages in *.
  assert (dm_basis m = dm_basis m') as Hb by by destruct (dm_basis m), (dm_basis m').
  rewrite <- Hb in E. do 2 speel E.
  match goal with C : dm_catalog_revision m = _ |- _ => rewrite C in * end.
  rewrite <- ?app_assoc in E. do 3 apply app_inv_head in E. do 2 speel E.
  unfold enc_counted in E. rewrite <- !app_assoc in E.
  apply app_inj_1 in E as [E1 E2]; [|by rewrite !be_bytes_length].
  apply be_bytes_inj in E1; [|lia..].
  apply result_lines_inv in E2 as [? ->]; [|apart_sub|lia|done..].
  split; [|done]. destruct m, m'; simpl in *. by subst.
Qed.

(** An operation identifier that spells the first letters of an origin tag could
    be taken for one after a received trace. *)
Definition spells_tag (operation : HubRecordId) : Prop :=
  raw operation = list_byte_of_string "harvestcircle.hu".
Definition plain_operations (record : DispatchRecord) : Prop :=
  Forall (fun version => ~ spells_tag (dst_operation (iv_issued version))) (dr_versions record).

Lemma stamp_origin_free stamp r :
  ~ spells_tag (dst_operation stamp) -> origin_free (result_stamp stamp ++ r).
Proof.
  intros Hn t E. apply Hn. unfold result_stamp, population_tag in E. rewrite <- !app_assoc in E.
  change (list_byte_of_string "harvestcircle.hub.population.")
    with (list_byte_of_string "harvestcircle.hu" ++ list_byte_of_string "b.population.") in E.
  rewrite <- !app_assoc in E. apply app_inj_1 in E as [E _]; [done|by rewrite HubRecordId_length].
Qed.

Lemma count_origin_free n r : (n <= HUB_IDENTIFICATION_VERSIONS)%nat ->
  origin_free (be_bytes 4 (Z.of_nat n) ++ r).
Proof.
  intros Hn t E. unfold HUB_IDENTIFICATION_VERSIONS in Hn. unfold population_tag in E.
  change (list_byte_of_string "harvestcircle.hub.population.")
    with (be_bytes 4 0x68617276 ++ list_byte_of_string "estcircle.hub.population.") in E.
  rewrite <- !app_assoc in E. apply app_inj_1 in E as [E _]; [|by rewrite !be_bytes_length].
  apply be_bytes_inj in E; lia.
Qed.

Lemma u32_bytes_inv (a b : u32) r s :
  be_bytes 4 (raw a) ++ r = be_bytes 4 (raw b) ++ s -> a = b /\ r = s.
Proof.
  intros E. peel E. split; [|done].
  assert (forall n : u32, 0 <= raw n < 2 ^ 32) as Hr.
  { intros n. apply (raw_elim (fun v => 0 <= v < 2 ^ 32) n). unfold u32_range. intros v Hv.
    breflect. lia. }
  pose proof (Hr a). pose proof (Hr b).
  match goal with B : be_bytes 4 _ = _ |- _ => apply be_bytes_inj in B; [|lia..] end.
  by apply refined_eq.
Qed.

Lemma IdentificationStatus_tag_inj a b :
  IdentificationStatus_tag a = IdentificationStatus_tag b -> a = b.
Proof. by destruct a, b. Qed.

Record version_plain (version : IdentificationVersion) : Prop := {
  vp_material : material_ok (iv_material version);
  vp_operation : ~ spells_tag (dst_operation (iv_issued version))
}.

Lemma result_version_inv owner v w r s :
  version_plain v -> version_plain w ->
  apart (material_messages owner (iv_material v)) (material_messages owner (iv_material w)) ->
  result_version owner v ++ r = result_version owner w ++ s -> v = w /\ r = s.
Proof.
  intros [Hm Ho] [Hm' Ho'] Ha E. unfold result_version in E. peel E. rewrite <- ?app_assoc in E.
  apply u32_bytes_inv in E as [? E]. peel E. rewrite <- ?app_assoc in E.
  apply result_material_inv in E as [? E]; [|done..|by apply stamp_origin_free|by apply stamp_origin_free].
  peel E. rewrite <- ?app_assoc in E.
  apply enc_tag_inv in E as [?%IdentificationStatus_tag_inj E];
    [|by destruct (iv_status v)|by destruct (iv_status w)].
  peel E. destruct v, w; simpl in *. by subst.
Qed.

(** The encoding refers to its owner by hub and first actor only. *)
Lemma result_material_owner o o' m :
  dr_hub o = dr_hub o' -> dr_created o = dr_created o' ->
  result_material o m = result_material o' m /\ material_messages o m = material_messages o' m.
Proof.
  intros Hh Hc.
  assert (forall c v, result_reference o c v = result_reference o' c v) as Hr.
  { intros c v. unfold result_reference. by rewrite Hh, Hc. }
  assert (forall c, owner_reference_messages o c = owner_reference_messages o' c) as Hm.
  { intros c. unfold owner_reference_messages. by rewrite Hh, Hc. }
  assert (forall c v, result_optional_reference o c v = result_optional_reference o' c v) as Hor.
  { intros c [v|]; [|done]. unfold result_optional_reference. simpl. by rewrite Hr. }
  assert (forall c l, result_line o c l = result_line o' c l) as Hl.
  { intros c l. unfold result_line, result_trace. by rewrite !Hr, !Hor. }
  assert (forall c l, line_messages o c l = line_messages o' c l) as Hlm.
  { intros c l. unfold line_messages, trace_messages. by rewrite !Hm. }
  unfold result_material, material_messages, enc_counted, enc_seq, list_messages.
  rewrite Hr, Hm, (list_fmap_ext (result_line o _) (result_line o' (dm_catalog_revision m))) by done.
  by rewrite (list_fmap_ext (line_messages o _) (line_messages o' (dm_catalog_revision m))).
Qed.

Lemma result_version_owner o o' v :
  dr_hub o = dr_hub o' -> dr_created o = dr_created o' -> result_version o v = result_version o' v.
Proof.
  intros Hh Hc. unfold result_version. by rewrite (proj1 (result_material_owner o o' _ Hh Hc)).
Qed.

Lemma paper_versions_plain r : record_ok r -> plain_operations r -> Forall version_plain (dr_versions r).
Proof.
  intros Hok Hp. apply list.Forall_forall. intros v Hv. unfold plain_operations in Hp.
  rewrite list.Forall_forall in Hp. apply list_elem_of_lookup in Hv as Hi. destruct Hi as [i Hi].
  constructor; [|by apply Hp]. apply (vo_material _ _ _ _ (ro_versions _ Hok i v Hi)).
Qed.

Lemma dispatch_result_message_inj input input' r r' :
  record_ok r -> record_ok r' -> plain_operations r -> plain_operations r' ->
  apart (paper_messages r) (paper_messages r') ->
  dispatch_result_message input r = dispatch_result_message input' r' ->
  input = input' /\ r = r'.
Proof.
  intros Hok Hok' Hp Hp' Ha E. pose proof (ro_count _ Hok) as Hn. pose proof (ro_count _ Hok') as Hn'.
  pose proof (paper_versions_plain r Hok Hp) as Hv. pose proof (paper_versions_plain r' Hok' Hp') as Hv'.
  unfold dispatch_result_message in E. apply app_inv_head in E.
  apply (prefix_inv (enc := fun a : array 32 => raw a)) in E as [-> E]. do 5 peel E.
  split; [done|]. rewrite <- ?app_assoc in E.
  assert (forall m, result_material r' m = result_material r m /\
    material_messages r' m = material_messages r m) as Ho.
  { intros m. by apply result_material_owner. }
  unfold paper_messages, list_messages in Ha.
  rewrite (list_fmap_ext (fun v => material_messages r' (iv_material v))
    (fun v => material_messages r (iv_material v))) in Ha by (intros i v _; apply Ho).
  fold (list_messages (fun v => material_messages r (iv_material v)) (dr_versions r)) in Ha.
  fold (list_messages (fun v => material_messages r (iv_material v)) (dr_versions r')) in Ha.
  assert (dr_draft r = dr_draft r' /\
    enc_counted 4 (result_version r) (dr_versions r) = enc_counted 4 (result_version r') (dr_versions r'))
    as [Hd Ev].
  { unfold enc_counted in *. pose proof (ro_preview _ Hok) as Hd. pose proof (ro_preview _ Hok') as Hd'.
    destruct (dr_draft r) as [m|], (dr_draft r') as [m'|]; cbn [enc_option] in E;
      rewrite <- ?app_assoc in E; apply enc_tag_inv in E as [Et E]; try done.
    rewrite (proj1 (Ho m')) in E.
    apply result_material_inv in E as [-> E]; [done|by apply Hd|by apply Hd'| |by apply count_origin_free..].
    cbn [option_messages] in Ha. rewrite (proj2 (Ho m')) in Ha. apart_sub. }
  unfold enc_counted in Ev. apply app_inj_1 in Ev as [El Ev]; [|by rewrite !be_bytes_length].
  unfold HUB_IDENTIFICATION_VERSIONS in *. apply be_bytes_inj in El; [|lia..].
  unfold enc_seq in Ev. rewrite (list_fmap_ext (result_version r') (result_version r)) in Ev
    by (intros i v _; by apply result_version_owner).
  rewrite <- (app_nil_r (concat _)), <- (app_nil_r (concat (_ <$> dr_versions r'))) in Ev.
  apply (sealed_seq version_plain _ (fun v => material_messages r (iv_material v)))
    in Ev as [? _]; [|intros *; apply result_version_inv|done..|apart_sub|lia].
  destruct r, r'; simpl in *. by subst.
Qed.

(** Every message digested for a paper's result. *)
Definition dispatch_sealed (input : array 32) (record : DispatchRecord) : list (list byte) :=
  dispatch_result_message input record :: paper_messages record.

Lemma dispatch_digest_inj input input' r r' d :
  dispatch_result_digest input r = Ok d -> dispatch_result_digest input' r' = Ok d ->
  plain_operations r -> plain_operations r' ->
  apart (dispatch_sealed input r) (dispatch_sealed input' r') -> input = input' /\ r = r'.
Proof.
  unfold dispatch_result_digest. rewrite !seq_Ok, !record_validate_Ok.
  intros [Hok E] [Hok' E'] Hp Hp' Ha. apply dispatch_result_message_inj; try done.
  - eapply apart_mono; [..|exact Ha]; unfold dispatch_sealed; set_solver.
  - apply Ha; [by left..|congruence].
Qed.

(** ** What a departure's encoding determines *)

Definition consumed_messages (record : DepartureRecord) (effect : ConsumedStockGroup)
  : list (list byte) :=
  group_messages (der_hub record) (der_actor record) (der_catalog_revision record)
    (csg_before effect).
Definition departure_sealed (input : array 32) (record : DepartureRecord) : list (list byte) :=
  departure_result_message input (digest32 (dispatch_result_message input (der_paper record))) record
  :: list_messages (consumed_messages record) (der_consumed record)
  ++ dispatch_sealed input (der_paper record).

Lemma result_consumed_custody record c :
  result_consumed record c =
  custody_group (der_hub record) (der_actor record) (der_catalog_revision record) (csg_before c) ++
  enc_revision (csg_after_revision c) ++ custody_clock (csg_causal_floor c).
Proof. unfold result_consumed, custody_group. by rewrite <- !app_assoc. Qed.

Lemma result_consumed_inv record a b r s :
  group_ok (csg_before a) -> group_ok (csg_before b) ->
  apart (consumed_messages record a) (consumed_messages record b) ->
  result_consumed record a ++ r = result_consumed record b ++ s -> a = b /\ r = s.
Proof.
  intros Ga Gb Ha E. rewrite !result_consumed_custody, <- !app_assoc in E.
  apply custody_group_inv in E as [? E]; [|done..]. do 2 peel E.
  destruct a, b; simpl in *. by subst.
Qed.

Lemma departure_consumed_ok r issued :
  departure_ok r issued -> Forall (fun c => group_ok (csg_before c)) (der_consumed r) /\
  (length (der_consumed r) <= HUB_DISPATCH_LINES)%nat.
Proof.
  intros Hok. pose proof (dok_consumed _ _ Hok) as Hf. split.
  - eapply Forall2_Forall_l; [exact Hf|]. apply Forall_true. intros l c Hc. apply Hc.
  - rewrite (Forall2_length _ _ _ Hf). pose proof (dok_issued _ _ Hok) as (es & He)%last_Some.
    apply (vo_material _ _ _ _ (ro_versions _ (dok_paper _ _ Hok) (length es) issued
      ltac:(by rewrite He, list_lookup_middle))).
Qed.

Abbreviation departure_bytes input r := (departure_result_message input
  (digest32 (dispatch_result_message input (der_paper r))) r).
Lemma departure_message_inj input input' r r' issued issued' :
  departure_ok r issued -> departure_ok r' issued' ->
  plain_operations (der_paper r) -> plain_operations (der_paper r') ->
  apart (departure_sealed input r) (departure_sealed input' r') ->
  departure_bytes input r = departure_bytes input' r' -> r = r'.
Proof.
  intros Hok Hok' Hp Hp' Ha E. unfold departure_result_message in E. apply app_inv_head in E.
  apply (prefix_inv (enc := fun a : array 32 => raw a)) in E as [-> E]. do 9 peel E.
  rewrite <- ?app_assoc in E. apply digest_inv in E as [Em E].
  2:{ eapply apart_mono; [..|exact Ha]; unfold departure_sealed, dispatch_sealed; set_solver. }
  apply dispatch_result_message_inj in Em as [_ Hpaper]; [|apply Hok|apply Hok'|done..|].
  2:{ eapply apart_mono; [..|exact Ha]; unfold departure_sealed, dispatch_sealed; set_solver. }
  unfold departure_sealed, consumed_messages in Ha. unfold enc_counted in E.
  destruct (departure_consumed_ok _ _ Hok) as [Hg Hn], (departure_consumed_ok _ _ Hok') as [Hg' Hn'].
  assert (forall c, result_consumed r' c = result_consumed r c) as Hc.
  { intros c. rewrite !result_consumed_custody. congruence. }
  unfold enc_seq in E. rewrite (list_fmap_ext (result_consumed r') (result_consumed r)) in E by auto.
  apply (sealed_counted (fun c => group_ok (csg_before c)) _ (consumed_messages r)) in E as [Hcs _];
    try done; [|intros *; apply result_consumed_inv| | |].
  - pose proof (dok_work _ _ Hok) as Hw. pose proof (dok_work _ _ Hok') as Hw'.
    rewrite <- Hcs, Hw in Hw'. injection Hw' as Hw'. destruct r, r'; simpl in *. by subst.
  - unfold consumed_messages. replace (der_hub r) with (der_hub r') in *.
    eapply apart_mono; [..|exact Ha]; [set_solver|].
    repeat match goal with F : der_hub r = _ |- _ => rewrite F
      | F : der_actor r = _ |- _ => rewrite F | F : der_catalog_revision r = _ |- _ => rewrite F end.
    set_solver.
  - unfold HUB_DISPATCH_LINES in *. lia.
  - unfold HUB_DISPATCH_LINES in *. lia.
Qed.

(** The result digest of a departure determines everything it stands for:
    two valid departures with the same digest come from the same command input
    and are the same record, paper, consumed groups and work changes included,
    unless two of the messages digested for them collide.  The operation
    identifiers of the papers are taken not to spell the tag of an origin,
    which follows the traces in the same byte stream. *)
Theorem departure_digest_binding input input' r r' d :
  departure_result_digest input r = Ok d -> departure_result_digest input' r' = Ok d ->
  plain_operations (der_paper r) -> plain_operations (der_paper r') ->
  apart (departure_sealed input r) (departure_sealed input' r') -> input = input' /\ r = r'.
Proof.
  unfold departure_result_digest, dispatch_result_digest.
  intros E E' Hp Hp' Ha. run_ok.
  repeat match goal with V : DepartureRecord_validate _ = Ok tt |- _ =>
    apply departure_valid_Ok in V as (? & ?) end.
  assert (departure_bytes input r = departure_bytes input' r') as Em.
  { apply Ha; [by left..|done]. }
  split; [|by eapply departure_message_inj].
  unfold departure_result_message in Em. apply app_inv_head in Em.
  by apply (prefix_inv (enc := fun a : array 32 => raw a)) in Em as [-> _].
Qed.
End Papers.

(** ** A concrete departure result *)

Definition sample_input : array 32 := sample_key 7.
Definition plain_check (record : DispatchRecord) : bool :=
  forallb (fun version => negb (raw (dst_operation (iv_issued version))
    ==? list_byte_of_string "harvestcircle.hu")) (dr_versions record).
Lemma plain_checked record : plain_check record = true -> plain_operations record.
Proof.
  unfold plain_check, plain_operations, spells_tag. rewrite forallb_forall, list.Forall_forall.
  intros Hc v Hv. specialize (Hc v (proj1 (list_elem_of_In _ _) Hv)).
  by apply negb_true_iff, bool_decide_eq_false in Hc.
Qed.

Abbreviation sample_departed_digest r := (@departure_result_digest sample_sha256 sample_input r).
Lemma sample_departure_digest : exists r d,
  sample_departed_digest r = Ok d /\ plain_operations (der_paper r) /\
  @apart sample_sha256 (@departure_sealed sample_sha256 sample_input r)
    (@departure_sealed sample_sha256 sample_input r).
Proof.
  assert (match sample_paper with
    | Some paper => match sample_departure_plan paper with
        | Ok r => is_ok (sample_departed_digest r) && plain_check (der_paper r)
            && @apart_check sample_sha256 (@departure_sealed sample_sha256 sample_input r)
                 (@departure_sealed sample_sha256 sample_input r)
        | Err _ => false end
    | None => false end = true) as H by (vm_compute; reflexivity).
  destruct sample_paper as [paper|]; [|done].
  destruct (sample_departure_plan paper) as [r|]; [|done]. exists r.
  apply andb_true_iff in H as [[[d Hd]%is_ok_Ok Hp]%andb_true_iff Ha].
  exists d. split; [done|]. split; [by apply plain_checked|by apply apart_checked].
Qed.

Lemma departure_digest_binding_witness :
  exists r d, sample_departed_digest r = Ok d /\ sample_input = sample_input /\ r = r.
Proof.
  destruct sample_departure_digest as (r & d & E & Hp & Ha). exists r, d. split; [exact E|].
  exact (@departure_digest_binding sample_sha256 _ _ _ _ d E E Hp Hp Ha).
Defined.
