(* ===== verification/Disposition.v ===== *)
(** * Disposition

    [hub/disposition.rs] with its [result] module: the observed removal of one
    whole physical group without a buyer, the pending work it retires, and the
    digest of the stored result. *)

From Stdlib Require Import Bool ZArith Lia String List.
From stdpp Require Import base decidable option list numbers sets.
From S2P Require Import Prelude Containers Encoding Hub Reference Catalog Stock Movement Work Lineage Treatment Dispatch Departure Custody.

Module DispositionKind.
Inductive DispositionKind := Destroyed | OtherObservedRemoval.
#[global] Instance DispositionKind_eq_dec : EqDecision DispositionKind.
Proof. solve_decision. Defined.
End DispositionKind.
Abbreviation DispositionKind := DispositionKind.DispositionKind.

Module DispositionError.
Inductive DispositionError :=
| InvalidIdentity
| InvalidNativeContext
| InvalidHistory
| StaleRevision
| PhysicalSeparationRequired
| UnresolvedActivity
| RevisionExhausted
| Movement (e : MovementError)
| Treatment (e : TreatmentError)
| Work (e : DepartureError).
End DispositionError.
Abbreviation DispositionError := DispositionError.DispositionError.

Record DispositionIdentities := {
  dsi_operation : HubRecordId;
  dsi_disposition : HubRecordId
}.
#[global] Instance DispositionIdentities_eq_dec : EqDecision DispositionIdentities.
Proof. solve_decision. Defined.

Definition DispositionIdentities_from_operation_bytes `{Sha256} (operation : HubRecordId)
  : result DispositionIdentities DispositionError :=
  let? disposition := map_err (fun _ => DispositionError.InvalidIdentity)
    (derive_identity "harvestcircle.hub.disposition.identity.v1" [] operation) in
  Ok {| dsi_operation := operation; dsi_disposition := disposition |}.

Record DispositionCommand := {
  dsc_expected_stock_revision : HubRevision;
  dsc_expected_catalog_revision : HubRevision;
  dsc_group : HubRecordId;
  dsc_expected_group_revision : HubRevision;
  dsc_packs : WholePacks;
  dsc_kind : DispositionKind;
  dsc_occurred : Occurrence;
  dsc_observation : SourceProvenance
}.

Record DispositionActivity := {
  dsa_uncertain_submissions : bool;
  dsa_unresolved_actuals : bool
}.

Record DispositionContext := {
  dsx_hub : HubId;
  dsx_stock_revision : HubRevision;
  dsx_catalog : ReferenceCatalog;
  dsx_group : PhysicalStockGroup;
  dsx_lineage : PhysicalLineage;
  dsx_treatment : TreatmentState;
  dsx_activity : DispositionActivity
}.

Record DispositionRecord := {
  dsr_identities : DispositionIdentities;
  dsr_hub : HubId;
  dsr_stock_revision : HubRevision;
  dsr_catalog_revision : HubRevision;
  dsr_product : ReferenceRecord;
  dsr_variant : ReferenceRecord;
  dsr_location : ReferenceRecord;
  dsr_kind : DispositionKind;
  dsr_actor : PublicKey;
  dsr_recorded_at : UnixTimestamp;
  dsr_occurred : Occurrence;
  dsr_observation : SourceProvenance;
  dsr_consumed : ConsumedStockGroup;
  dsr_work_changes : list DepartureWorkChange
}.

Definition disposition_next (value : HubRevision) : result HubRevision DispositionError :=
  map_err (fun _ => DispositionError.RevisionExhausted) (HubRevision_next value).

Section Disposition.
Context `{Sha256}.

(** ** Validation of a stored disposition *)

(** The disjunction is evaluated from left to right, so the fallible operands
    come after the pure ones. *)
Definition DispositionRecord_validate (self : DispositionRecord) : result unit DispositionError :=
  let group := csg_before (dsr_consumed self) in
  map_err DispositionError.Movement (PhysicalStockGroup_validate group) ;;?
  let? derived := DispositionIdentities_from_operation_bytes
    (dsi_operation (dsr_identities self)) in
  if (dsr_identities self !=? derived)
     || (dsi_operation (dsr_identities self) ==? dsi_disposition (dsr_identities self))
     || (raw (pg_revision group) >=? raw (dsr_stock_revision self))
     || (rr_id (dsr_variant self) !=? pg_variant group)
     || (rr_id (dsr_location self) !=? pg_location group)
     || (ReferenceValue_kind (rr_value (dsr_product self)) !=? ReferenceKind.Product)
     || (ReferenceValue_kind (rr_value (dsr_location self)) !=? ReferenceKind.Location)
     || negb (match rr_value (dsr_variant self) with
              | ReferenceValue.Pack product _ _ => product ==? rr_id (dsr_product self)
              | _ => false
              end)
     || existsb (fun r => raw r >? raw (dsr_catalog_revision self))
          [rr_revision (dsr_product self); rr_revision (dsr_variant self);
           rr_revision (dsr_location self)]
  then Err DispositionError.InvalidHistory
  else
    let? after := disposition_next (pg_revision group) in
    if csg_after_revision (dsr_consumed self) !=? after then Err DispositionError.InvalidHistory
    else
      let? floor := map_err DispositionError.Movement
        (PhysicalStockGroup_observation_floor group (dsr_occurred self) (dsr_recorded_at self)) in
      if csg_causal_floor (dsr_consumed self) !=? floor then Err DispositionError.InvalidHistory
      else
        let? changes := map_err DispositionError.Work (retired_work [dsr_consumed self]) in
        if dsr_work_changes self !=? changes then Err DispositionError.InvalidHistory
        else Ok tt.

(** ** The command *)

(** The closure [reference] of [plan]. *)
Definition disposition_reference (context : DispositionContext) (id : HubRecordId)
    (kind : ReferenceKind) : result ReferenceRecord DispositionError :=
  map_err (fun _ => DispositionError.InvalidNativeContext)
    (ReferenceCatalog_require_kind (dsx_catalog context) id kind).

Definition DispositionCommand_plan (self : DispositionCommand) (context : DispositionContext)
    (ids : DispositionIdentities) (actor : PublicKey) (now : UnixTimestamp)
  : result DispositionRecord DispositionError :=
  let? derived := DispositionIdentities_from_operation_bytes (dsi_operation ids) in
  if (ids !=? derived) || (dsi_operation ids ==? dsi_disposition ids)
  then Err DispositionError.InvalidIdentity
  else
    let group := dsx_group context in
    map_err DispositionError.Movement
      (PhysicalStockGroup_validate_catalog group (dsx_catalog context)) ;;?
    if (dsc_expected_stock_revision self !=? dsx_stock_revision context)
       || (dsc_expected_catalog_revision self !=? rc_revision (dsx_catalog context))
       || (dsc_group self !=? pg_id group)
       || (dsc_expected_group_revision self !=? pg_revision group)
    then Err DispositionError.StaleRevision
    else if dsc_packs self !=? pg_packs group
    then Err DispositionError.PhysicalSeparationRequired
    else if dsa_uncertain_submissions (dsx_activity context)
            || dsa_unresolved_actuals (dsx_activity context)
    then Err DispositionError.UnresolvedActivity
    else
      let graph := dsx_lineage context in
      let? node := ok_or (PhysicalLineage_node graph (pg_id group))
        DispositionError.InvalidNativeContext in
      if (pl_hub graph !=? dsx_hub context) || (pl_trace graph !=? pg_trace group)
         || (pl_variant graph !=? pg_variant group)
         || (pl_revision graph !=? dsx_stock_revision context)
         || (pln_parent node !=? pg_parent group) || (pln_packs node !=? pg_packs group)
         || (pln_trace node !=? pg_trace group) || (pln_variant node !=? pg_variant group)
      then Err DispositionError.InvalidNativeContext
      else
        let? projection := map_err DispositionError.Treatment
          (TreatmentState_project (dsx_treatment context) graph
             (ReferenceCatalog_handling_basis (dsx_catalog context))) in
        let? selection := map_err DispositionError.Treatment
          (TreatmentSelection_new [pg_id group]) in
        map_err DispositionError.Treatment
          (TreatmentProjection_require projection selection PhysicalAction.Disposition) ;;?
        let? variant := disposition_reference context (pg_variant group) ReferenceKind.Pack in
        match rr_value variant with
        | ReferenceValue.Pack product _ _ =>
            let? after := disposition_next (pg_revision group) in
            let? floor := map_err DispositionError.Movement
              (PhysicalStockGroup_observation_floor group (dsc_occurred self) now) in
            let consumed := {| csg_before := group; csg_after_revision := after;
                               csg_causal_floor := floor |} in
            let? stock_revision := disposition_next (dsx_stock_revision context) in
            let? product := disposition_reference context product ReferenceKind.Product in
            let? location := disposition_reference context (pg_location group)
              ReferenceKind.Location in
            let? work_changes := map_err DispositionError.Work (retired_work [consumed]) in
            let record := {|
              dsr_identities := ids;
              dsr_hub := dsx_hub context;
              dsr_stock_revision := stock_revision;
              dsr_catalog_revision := rc_revision (dsx_catalog context);
              dsr_product := product;
              dsr_variant := variant;
              dsr_location := location;
              dsr_kind := dsc_kind self;
              dsr_actor := actor;
              dsr_recorded_at := now;
              dsr_occurred := dsc_occurred self;
              dsr_observation := dsc_observation self;
              dsr_consumed := consumed;
              dsr_work_changes := work_changes
            |} in
            DispositionRecord_validate record ;;?
            Ok record
        | _ => Err DispositionError.InvalidNativeContext
        end.
End Disposition.

(** ** Fingerprint and result digest *)

Definition DispositionKind_tag (kind : DispositionKind) : Z :=
  match kind with
  | DispositionKind.Destroyed => 1
  | DispositionKind.OtherObservedRemoval => 2
  end.
Definition DispositionCommand_message (self : DispositionCommand) (hub : HubId)
    (actor : PublicKey) (ids : DispositionIdentities) : list byte :=
  domain_tag "harvestcircle.hub.disposition.command.v1" ++
  enc_hub hub ++ enc_key actor ++ enc_id (dsi_operation ids) ++ enc_id (dsi_disposition ids) ++
  enc_revision (dsc_expected_stock_revision self) ++
  enc_revision (dsc_expected_catalog_revision self) ++
  enc_id (dsc_group self) ++ enc_revision (dsc_expected_group_revision self) ++
  enc_packs (dsc_packs self) ++ enc_tag (DispositionKind_tag (dsc_kind self)) ++
  hash_occurrence (dsc_occurred self) ++ enc_hub_text (dsc_observation self).
Definition DispositionCommand_fingerprint `{Sha256} (self : DispositionCommand) (hub : HubId)
    (actor : PublicKey) (ids : DispositionIdentities) : array 32 :=
  digest32 (DispositionCommand_message self hub actor ids).

Section Result.
Context `{Sha256}.

(** The command a stored record is the result of. *)
Definition disposition_command (record : DispositionRecord)
  : result DispositionCommand DispositionError :=
  let group := csg_before (dsr_consumed record) in
  let? expected := map_err (fun _ => DispositionError.InvalidHistory)
    (HubRevision_from_value (raw (dsr_stock_revision record) - 1)) in
  Ok {|
    dsc_expected_stock_revision := expected;
    dsc_expected_catalog_revision := dsr_catalog_revision record;
    dsc_group := pg_id group;
    dsc_expected_group_revision := pg_revision group;
    dsc_packs := pg_packs group;
    dsc_kind := dsr_kind record;
    dsc_occurred := dsr_occurred record;
    dsc_observation := dsr_observation record
  |}.

Definition disposition_change (record : DispositionRecord) (change : DepartureWorkChange)
  : list byte :=
  custody_work (dsr_hub record) (dsr_actor record) (dsr_catalog_revision record)
    (dwc_before change) ++
  custody_work (dsr_hub record) (dsr_actor record) (dsr_catalog_revision record)
    (dwc_after change) ++
  enc_packs (dwc_retired change).
Definition disposition_result_message (input : array 32) (record : DispositionRecord)
  : list byte :=
  let reference := custody_reference (dsr_hub record) (dsr_actor record)
    (dsr_catalog_revision record) in
  domain_tag "harvestcircle.hub.disposition.result.v1" ++
  raw input ++ enc_hub (dsr_hub record) ++ enc_key (dsr_actor record) ++
  enc_seconds (dsr_recorded_at record) ++ enc_revision (dsr_stock_revision record) ++
  enc_revision (dsr_catalog_revision record) ++
  reference (dsr_product record) ++ reference (dsr_variant record) ++
  reference (dsr_location record) ++
  custody_group (dsr_hub record) (dsr_actor record) (dsr_catalog_revision record)
    (csg_before (dsr_consumed record)) ++
  enc_revision (csg_after_revision (dsr_consumed record)) ++
  custody_clock (csg_causal_floor (dsr_consumed record)) ++
  enc_counted 4 (disposition_change record) (dsr_work_changes record).
Definition disposition_result_digest (input : array 32) (record : DispositionRecord)
  : result (array 32) DispositionError :=
  DispositionRecord_validate record ;;?
  let? command := disposition_command record in
  if DispositionCommand_fingerprint command (dsr_hub record) (dsr_actor record)
       (dsr_identities record) !=? input
  then Err DispositionError.InvalidHistory
  else if negb (u32_range (Z.of_nat (length (dsr_work_changes record))))
  then Err DispositionError.InvalidHistory
  else Ok (digest32 (disposition_result_message input record)).
End Result.

(** ** What a valid disposition says *)

Section Records.
Context `{Sha256}.

Lemma disposition_next_Ok r r' : disposition_next r = Ok r' <-> raw r' = raw r + 1.
Proof. unfold disposition_next. by rewrite map_err_Ok, HubRevision_next_Ok. Qed.

Lemma disposition_next_total r :
  raw r < HubRevision_MAXIMUM -> exists r', disposition_next r = Ok r'.
Proof.
  intros (r' & Hr & _)%movement_next_total. exists r'.
  apply disposition_next_Ok. by apply movement_next_Ok in Hr.
Qed.

Record disposition_ok (r : DispositionRecord) : Prop := {
  do_group : group_ok (csg_before (dsr_consumed r));
  do_identity : DispositionIdentities_from_operation_bytes (dsi_operation (dsr_identities r))
    = Ok (dsr_identities r);
  do_distinct : dsi_operation (dsr_identities r) <> dsi_disposition (dsr_identities r);
  do_journal : raw (pg_revision (csg_before (dsr_consumed r))) < raw (dsr_stock_revision r);
  do_variant : rr_id (dsr_variant r) = pg_variant (csg_before (dsr_consumed r));
  do_location : rr_id (dsr_location r) = pg_location (csg_before (dsr_consumed r));
  do_product_kind : ReferenceValue_kind (rr_value (dsr_product r)) = ReferenceKind.Product;
  do_location_kind : ReferenceValue_kind (rr_value (dsr_location r)) = ReferenceKind.Location;
  do_product : exists label grams,
    rr_value (dsr_variant r) = ReferenceValue.Pack (rr_id (dsr_product r)) label grams;
  do_revisions : Forall (fun v => raw (rr_revision v) <= raw (dsr_catalog_revision r))
    [dsr_product r; dsr_variant r; dsr_location r];
  do_after : raw (csg_after_revision (dsr_consumed r))
    = raw (pg_revision (csg_before (dsr_consumed r))) + 1;
  do_floor : PhysicalStockGroup_observation_floor (csg_before (dsr_consumed r)) (dsr_occurred r)
    (dsr_recorded_at r) = Ok (csg_causal_floor (dsr_consumed r));
  do_work : retired_work [dsr_consumed r] = Ok (dsr_work_changes r)
}.

Lemma pack_of_product v p :
  match v with ReferenceValue.Pack product _ _ => product ==? p | _ => false end = true <->
  exists label grams, v = ReferenceValue.Pack p label grams.
Proof.
  destruct v; try (split; [done|by intros (? & ? & ?)]).
  rewrite bool_decide_eq_true. split; [intros ->; eauto|by intros (? & ? & [= -> _ _])].
Qed.

Lemma disposition_validate_Ok r : DispositionRecord_validate r = Ok tt <-> disposition_ok r.
Proof.
  unfold DispositionRecord_validate. rewrite seq_Ok, map_err_Ok, validate_Ok. split.
  - intros (Hg & (ids & Hi & Hk)%bind_Ok). apply guard_Ok in Hk as [Hb Hk].
    rewrite !orb_false_iff, !negb_false_iff, pack_of_product in Hb. run_ok. breflect.
    rewrite disposition_next_Ok in *. cbn [existsb] in *. breflect.
    constructor; try congruence; try done; repeat constructor; lia.
  - intros []. split; [done|]. rewrite do_identity0. cbn [bind].
    apply guard_Ok. split.
    + rewrite !list.Forall_cons in do_revisions0. destruct do_revisions0 as (? & ? & ? & _).
      cbn [existsb]. rewrite !orb_false_iff, !negb_false_iff, pack_of_product.
      autorewrite with reflect. split_and!; done.
    + rewrite (proj2 (disposition_next_Ok _ (csg_after_revision (dsr_consumed r)))) by done.
      cbn [bind]. rewrite do_floor0, do_work0. cbn [map_err bind].
      by rewrite !bool_decide_eq_true_2.
Qed.
End Records.

(** ** The gate: removal is blocked by no treatment *)

Lemma disposition_gate st graph b p selection :
  lineage_wf graph -> TreatmentState_project st graph b = Ok p ->
  TreatmentProjection_require p selection PhysicalAction.Disposition = Ok tt <->
  Forall (fun k => exists n, n ∈ pl_nodes graph /\ 0 < raw (pln_packs n) /\ pln_id n = k)
    (raw selection).
Proof.
  intros Hwf Hp. apply project_run in Hp as [_ Hp]; [|done].
  unfold TreatmentProjection_require. rewrite bool_decide_eq_false_2 by done. cbn [andb].
  rewrite try_for_each_Ok. apply list.Forall_iff. intros k. rewrite bind_Ok. setoid_rewrite ok_or_Ok.
  setoid_rewrite guard_Ok. setoid_rewrite (projected_group_Some _ _ _ _ _ _ Hwf Hp). split.
  - intros (g & (n & ? & ? & ? & ?) & _). by exists n.
  - intros (n & Hn & Hpk & Hk). destruct (stocked_treated _ _ _ _ _ Hp Hn Hpk) as (g & Hg & Ht).
    exists g. split; [by exists n|]. rewrite (pj_basis _ _ _ _ Hp). by destruct b.
Qed.

(** ** The work of one leaving group *)

Lemma entries_single c : entries [c] = group_entries c.
Proof. unfold entries. simpl. apply app_nil_r. Qed.

Lemma single_retirable c :
  group_ok (csg_before c) ->
  retirable [c] <-> forall a, a ∈ pg_work (csg_before c) -> wa_progress a = WorkProgress.Pending ->
    raw (wr_revision (wa_requirement a)) < HubRevision_MAXIMUM.
Proof.
  intros Hg. pose proof (go_work _ Hg) as Hw. rewrite list.Forall_forall in Hw.
  assert (forall e, e ∈ entries [c] <-> exists a, a ∈ pg_work (csg_before c) /\
    e = (pg_packs (csg_before c), a)) as He.
  { intros e. rewrite entries_single. unfold group_entries. rewrite list_elem_of_fmap. naive_solver. }
  split.
  - intros [_ _ Hp] a Ha Hpa.
    apply (Hp (pg_packs (csg_before c), a)); [apply He; by exists a|].
    by apply bool_decide_eq_true_2.
  - intros Hr. constructor; [by apply list.Forall_singleton| |].
    + intros e f (a & Ha & ->)%He (b & Hb & ->)%He Hi. unfold entry_requirement. simpl. f_equal.
      eapply (NoDup_fmap_elem requirement_id); [apply Hg|done..].
    + intros e (a & Ha & ->)%He Hp%bool_decide_eq_true. simpl in Hp. split; [|by apply Hr].
      rewrite entries_single. pose proof (group_leaving c (entry_id (pg_packs (csg_before c), a)) Hg).
      pose proof (ao_packs _ _ (Hw a Ha)) as Hle. unfold accounted_packs in Hle. rewrite Hp in Hle.
      unfold entry_requirement. simpl. lia.
Qed.

(** ** What a planned disposition promises *)

Section Plans.
Context `{Sha256}.

(** The situation in which a removal may be recorded. *)
Record disposable (cmd : DispositionCommand) (ctx : DispositionContext)
    (ids : DispositionIdentities) (now : UnixTimestamp) : Prop := {
  da_identity : DispositionIdentities_from_operation_bytes (dsi_operation ids) = Ok ids /\
    dsi_operation ids <> dsi_disposition ids;
  da_catalogued : catalogued (dsx_catalog ctx) (dsx_group ctx);
  da_fresh : dsc_expected_stock_revision cmd = dsx_stock_revision ctx /\
    dsc_expected_catalog_revision cmd = rc_revision (dsx_catalog ctx) /\
    dsc_group cmd = pg_id (dsx_group ctx) /\
    dsc_expected_group_revision cmd = pg_revision (dsx_group ctx);
  da_whole : dsc_packs cmd = pg_packs (dsx_group ctx);
  da_quiet : dsa_uncertain_submissions (dsx_activity ctx) = false /\
    dsa_unresolved_actuals (dsx_activity ctx) = false;
  da_lineage : pl_hub (dsx_lineage ctx) = dsx_hub ctx /\
    pl_trace (dsx_lineage ctx) = pg_trace (dsx_group ctx) /\
    pl_variant (dsx_lineage ctx) = pg_variant (dsx_group ctx) /\
    pl_revision (dsx_lineage ctx) = dsx_stock_revision ctx;
  da_node : exists n, PhysicalLineage_node (dsx_lineage ctx) (pg_id (dsx_group ctx)) = Some n /\
    pln_parent n = pg_parent (dsx_group ctx) /\ pln_packs n = pg_packs (dsx_group ctx) /\
    pln_trace n = pg_trace (dsx_group ctx) /\ pln_variant n = pg_variant (dsx_group ctx);
  da_treatment : exists p, TreatmentState_project (dsx_treatment ctx) (dsx_lineage ctx)
    (ReferenceCatalog_handling_basis (dsx_catalog ctx)) = Ok p;
  da_revisions : raw (pg_revision (dsx_group ctx)) <= raw (dsx_stock_revision ctx)
    < HubRevision_MAXIMUM;
  da_occurred : observable (dsx_group ctx) (dsc_occurred cmd) now;
  da_work : forall a, a ∈ pg_work (dsx_group ctx) -> wa_progress a = WorkProgress.Pending ->
    raw (wr_revision (wa_requirement a)) < HubRevision_MAXIMUM
}.

(** The record of it. *)
Record disposed (cmd : DispositionCommand) (ctx : DispositionContext)
    (ids : DispositionIdentities) (actor : PublicKey) (now : UnixTimestamp)
    (r : DispositionRecord) : Prop := {
  de_valid : disposition_ok r;
  de_identity : dsr_identities r = ids;
  de_hub : dsr_hub r = dsx_hub ctx;
  de_stock : raw (dsr_stock_revision r) = raw (dsx_stock_revision ctx) + 1;
  de_catalog : dsr_catalog_revision r = rc_revision (dsx_catalog ctx);
  de_references : forall v, v ∈ [dsr_product r; dsr_variant r; dsr_location r] ->
    bt_get (rr_id v) (rc_records (dsx_catalog ctx)) = Some v;
  de_stamp : dsr_kind r = dsc_kind cmd /\ dsr_actor r = actor /\ dsr_recorded_at r = now /\
    dsr_occurred r = dsc_occurred cmd /\ dsr_observation r = dsc_observation cmd;
  de_group : csg_before (dsr_consumed r) = dsx_group ctx;
  de_floor : csg_causal_floor (dsr_consumed r)
    = option_max (pg_causal_floor (dsx_group ctx)) (earliest_of (dsc_occurred cmd));
  de_work : retires [dsr_consumed r] (dsr_work_changes r);
  de_retired : forall c, c ∈ dsr_work_changes r -> dwc_retired c = pg_packs (dsx_group ctx)
}.

Lemma single_retired c changes ch :
  group_ok (csg_before c) -> retires [c] changes -> ch ∈ changes ->
  dwc_retired ch = pg_packs (csg_before c).
Proof.
  intros Hg Hr Hc. apply refined_eq. destruct (rt_change _ _ Hr ch Hc) as (_ & _ & E & e & He & Hp & Hi).
  rewrite entries_single in E, He. pose proof (group_leaving c (wr_id (dwc_before ch)) Hg).
  pose proof (leaving_elem (wr_id (dwc_before ch)) _ e He Hp) as Hle.
  unfold group_entries in He. apply list_elem_of_fmap in He as (a & -> & _).
  specialize (Hle ltac:(unfold entry_id; by rewrite Hi)). cbn [fst] in Hle. lia.
Qed.

Lemma reference_Ok ctx id kind v :
  disposition_reference ctx id kind = Ok v <->
  bt_get id (rc_records (dsx_catalog ctx)) = Some v /\ ReferenceValue_kind (rr_value v) = kind.
Proof. unfold disposition_reference. by rewrite map_err_Ok, require_kind_Ok. Qed.

Lemma disposition_plan_run cmd ctx ids actor now r :
  catalog_wf (dsx_catalog ctx) -> DispositionCommand_plan cmd ctx ids actor now = Ok r ->
  disposable cmd ctx ids now /\ disposed cmd ctx ids actor now r.
Proof.
  intros Hcw Hp. unfold DispositionCommand_plan in Hp. run_ok.
  rewrite reference_Ok, disposition_next_Ok, validate_catalog_Ok, disposition_validate_Ok,
    observation_floor_Ok in *. breflect. destruct_and?.
  match goal with W : retired_work _ = Ok _ |- _ => rename W into Hw end.
  match goal with V : disposition_ok ?x |- _ => set (r := x) in *; rename V into Hv end.
  destruct (retired_work_run _ _ Hw) as [Hra Hrt].
  match goal with C : catalogued _ _ |- _ => pose proof (cg_group _ _ C) as Hg end.
  split.
  - constructor; try done.
    + split; [congruence|done].
    + by eexists.
    + by eexists.
    + pose proof (do_journal _ Hv) as Hj. simpl in Hj.
      match goal with R : raw ?a = raw (dsx_stock_revision ctx) + 1 |- _ =>
        pose proof (HubRevision_range a) end. lia.
    + by apply (single_retirable (dsr_consumed r)).
  - constructor; try done.
    + assert (forall k v, bt_get k (rc_records (dsx_catalog ctx)) = Some v ->
        bt_get (rr_id v) (rc_records (dsx_catalog ctx)) = Some v) as Hk.
      { intros k v Hkv. by rewrite (cw_keys _ Hcw k v Hkv). }
      intros v [->|[->|[->|[]%not_elem_of_nil]%elem_of_cons]%elem_of_cons]%elem_of_cons; by eapply Hk.
    + intros c. by apply (single_retired (dsr_consumed r)).
Qed.

Lemma single_selection id : exists s, TreatmentSelection_new [id] = Ok s /\ raw s = [id].
Proof.
  destruct (TreatmentSelection_new [id]) as [s|e] eqn:E.
  - exists s. split; [done|]. by apply TreatmentSelection_new_Ok in E as (_ & _ & ->).
  - exfalso. revert E. unfold TreatmentSelection_new. simpl.
    destruct (checked _ _ _) eqn:C; [done|]. by apply checked_Err in C as [C _].
Qed.

Lemma disposable_plan cmd ctx ids actor now :
  catalog_wf (dsx_catalog ctx) -> lineage_wf (dsx_lineage ctx) -> disposable cmd ctx ids now ->
  exists r, DispositionCommand_plan cmd ctx ids actor now = Ok r.
Proof.
  intros Hcw Hlw [[Hid Hne] Hcat (? & ? & ? & ?) Hwhole [Hq1 Hq2] (? & ? & ? & ?)
    (n & Hn & Hnp & Hnk & Hnt & Hnv) [p Hp] Hrev Hocc Hwork].
  pose proof (cg_group _ _ Hcat) as Hg.
  unfold DispositionCommand_plan. rewrite Hid. cbn [bind].
  rewrite bool_decide_eq_true_2, bool_decide_eq_false_2 by done. cbn [negb orb].
  rewrite (proj2 (validate_catalog_Ok _ _)) by done. cbn [map_err bind].
  rewrite !bool_decide_eq_true_2 by congruence. cbn [negb orb]. rewrite Hq1, Hq2. cbn [orb].
  rewrite Hn. cbn [ok_or bind]. rewrite !bool_decide_eq_true_2 by congruence. cbn [negb orb].
  rewrite Hp. destruct (single_selection (pg_id (dsx_group ctx))) as (s & Hs & Hraw). rewrite Hs.
  cbn [map_err bind]. apply wf_node in Hn as [Hn Hnid]; [|done].
  rewrite (proj2 (disposition_gate _ _ _ _ s Hlw Hp)); cbn [map_err bind].
  2:{ rewrite Hraw. apply list.Forall_singleton. exists n. rewrite Hnk. split_and!; try done. apply Hg. }
  destruct (cg_variant _ _ Hcat) as (variant & Hvg & Hvk).
  rewrite (proj2 (reference_Ok _ _ _ variant)) by done. cbn [bind].
  pose proof (cw_products _ Hcw _ _ Hvg) as Hpr. apply validate_value_Ok in Hpr.
  destruct (rr_value variant) as [|product label grams| |] eqn:Ev; try done.
  destruct Hpr as (prod & Hpg & Hpk).
  destruct (cg_location _ _ Hcat) as (location & Hlg & Hlk).
  destruct (disposition_next_total (pg_revision (dsx_group ctx))) as [after Hafter]; [lia|].
  destruct (disposition_next_total (dsx_stock_revision ctx)) as [stock Hstock]; [lia|].
  rewrite Hafter. cbn [bind]. rewrite (proj2 (observation_floor_Ok _ _ _ _) (conj Hocc eq_refl)).
  cbn [map_err bind]. rewrite Hstock. cbn [bind].
  rewrite (proj2 (reference_Ok _ _ _ prod)), (proj2 (reference_Ok _ _ _ location)) by done. cbn [bind].
  set (c := Build_ConsumedStockGroup _ _ _).
  destruct (retired_work_total [c]) as [changes Hch]; [unfold HUB_DISPATCH_LINES; simpl; lia| |].
  { by apply single_retirable. }
  rewrite Hch. cbn [map_err bind]. rewrite (proj2 (disposition_validate_Ok _)); [by eexists|].
  apply disposition_next_Ok in Hafter, Hstock.
  constructor; simpl; try done; [lia|by apply (cw_keys _ Hcw)|by apply (cw_keys _ Hcw)|..].
  - rewrite Ev, (cw_keys _ Hcw _ _ Hpg). by eexists _, _.
  - repeat constructor; by eapply (cw_revisions _ Hcw).
  - by apply observation_floor_Ok.
Qed.

(** C11: a disposition is accepted exactly when it names the whole current group
    at the current revisions, no submission or actual is unresolved, the group
    is the node of its lineage, the treatment history can be read, and the
    revisions can advance - whatever the group's acceptance or holds.  The
    record then keeps the group as it was and the catalog's records of its
    product, variant and location, carries the next stock revision, and
    retires every pending requirement of the group by exactly its packs. *)
Theorem disposition_correct cmd ctx ids actor now :
  catalog_wf (dsx_catalog ctx) -> lineage_wf (dsx_lineage ctx) ->
  match DispositionCommand_plan cmd ctx ids actor now with
  | Ok r => disposable cmd ctx ids now /\ disposed cmd ctx ids actor now r
  | Err _ => ~ disposable cmd ctx ids now
  end.
Proof.
  intros Hc Hl. destruct (DispositionCommand_plan cmd ctx ids actor now) as [r|e] eqn:E.
  - by apply disposition_plan_run.
  - intros Hd. destruct (disposable_plan cmd ctx ids actor now Hc Hl Hd). congruence.
Qed.
End Plans.

(** ** The result digest *)

Section Results.
Context `{Sha256}.

Lemma disposition_command_Ok r cmd :
  disposition_command r = Ok cmd <->
  cmd = {| dsc_expected_stock_revision := dsc_expected_stock_revision cmd;
           dsc_expected_catalog_revision := dsr_catalog_revision r;
           dsc_group := pg_id (csg_before (dsr_consumed r));
           dsc_expected_group_revision := pg_revision (csg_before (dsr_consumed r));
           dsc_packs := pg_packs (csg_before (dsr_consumed r));
           dsc_kind := dsr_kind r; dsc_occurred := dsr_occurred r;
           dsc_observation := dsr_observation r |} /\
  raw (dsc_expected_stock_revision cmd) + 1 = raw (dsr_stock_revision r).
Proof.
  unfold disposition_command, HubRevision_from_value. rewrite bind_Ok. setoid_rewrite map_err_Ok.
  setoid_rewrite checked_Ok. split.
  - intros (e & He & [= <-]). simpl. split; [done|lia].
  - intros [Hc He]. exists (dsc_expected_stock_revision cmd). split; [lia|]. by rewrite Hc at 2.
Qed.

Lemma work_changes_bound r : disposition_ok r ->
  u32_range (Z.of_nat (length (dsr_work_changes r))) = true.
Proof.
  intros Hr. destruct (retired_work_run _ _ (do_work _ Hr)) as [_ [Hn Hc _]].
  assert (length (dsr_work_changes r) <= length (pg_work (csg_before (dsr_consumed r))))%nat as Hl.
  { rewrite <- (length_fmap (fun c => wr_id (dwc_before c))), <- (length_fmap requirement_id (pg_work _)).
    apply submseteq_length, NoDup_submseteq; [done|].
    intros id (c & -> & Hin)%list_elem_of_fmap. destruct (Hc c Hin) as (_ & _ & _ & e & He & _ & Hi).
    rewrite entries_single in He. unfold group_entries in He. apply list_elem_of_fmap in He as (a & -> & Ha).
    apply list_elem_of_fmap. exists a. split; [|done]. by rewrite <- Hi. }
  pose proof (go_capacity _ (do_group _ Hr)). unfold HUB_GROUP_REQUIREMENTS in *.
  unfold u32_range. apply andb_true_iff. rewrite Z.leb_le, Z.ltb_lt. lia.
Qed.

Lemma disposition_digest_Ok input r d :
  disposition_result_digest input r = Ok d <->
  disposition_ok r /\ (exists cmd, disposition_command r = Ok cmd /\
    DispositionCommand_fingerprint cmd (dsr_hub r) (dsr_actor r) (dsr_identities r) = input) /\
  d = digest32 (disposition_result_message input r).
Proof.
  unfold disposition_result_digest. rewrite seq_Ok, disposition_validate_Ok, bind_Ok. split.
  - intros (Hv & cmd & Hc & Hk). rewrite !guard_Ok in Hk. breflect. split_and!; try done; [eauto|congruence].
  - intros (Hv & (cmd & Hc & Hf) & ->). split; [done|]. exists cmd. split; [done|].
    rewrite Hf, bool_decide_eq_true_2 by done. cbn [negb]. by rewrite work_changes_bound.
Qed.

(** The command a disposition was planned from can be read back from its
    record, so its result digest is computed against that command's own
    fingerprint and against no other input. *)
Theorem disposition_roundtrip cmd ctx ids actor now r :
  catalog_wf (dsx_catalog ctx) -> DispositionCommand_plan cmd ctx ids actor now = Ok r ->
  disposition_command r = Ok cmd /\
  (forall input d, disposition_result_digest input r = Ok d <->
    input = DispositionCommand_fingerprint cmd (dsx_hub ctx) actor ids /\
    d = digest32 (disposition_result_message input r)).
Proof.
  intros Hcw Hp. destruct (disposition_plan_run _ _ _ _ _ _ Hcw Hp) as [Hd He].
  destruct (da_fresh _ _ _ _ Hd) as (F1 & F2 & F3 & F4), (de_stamp _ _ _ _ _ _ He) as (S1 & S2 & S3 & S4 & S5).
  assert (disposition_command r = Ok cmd) as Hc.
  { apply disposition_command_Ok. rewrite (de_group _ _ _ _ _ _ He), (de_stock _ _ _ _ _ _ He), F1.
    rewrite (de_catalog _ _ _ _ _ _ He), S1, S4, S5, <- F2, <- F3, <- F4, <- (da_whole _ _ _ _ Hd), <- F1.
    split; [by destruct cmd|done]. }
  split; [done|]. intros input d. rewrite disposition_digest_Ok.
  rewrite (de_hub _ _ _ _ _ _ He), (de_identity _ _ _ _ _ _ He), S2. rewrite Hc. split.
  - intros (_ & (cmd' & [= <-] & <-) & ->). done.
  - intros [-> ->]. split_and!; [apply He|by exists cmd|done].
Qed.

Lemma DispositionCommand_message_inj cmd cmd' hub hub' actor actor' ids ids' :
  DispositionCommand_message cmd hub actor ids = DispositionCommand_message cmd' hub' actor' ids' ->
  cmd = cmd' /\ hub = hub' /\ actor = actor' /\ ids = ids'.
Proof.
  intros E. unfold DispositionCommand_message in E. apply app_inv_head in E. do 9 peel E.
  rewrite <- ?app_assoc in E.
  apply enc_tag_inv in E as [Hk E]; [|by destruct (dsc_kind cmd)|by destruct (dsc_kind cmd')].
  assert (dsc_kind cmd = dsc_kind cmd') by by destruct (dsc_kind cmd), (dsc_kind cmd').
  peel E. apply prefix_code_inj in E; [|apply _].
  destruct cmd, cmd', ids, ids'; simpl in *. by subst.
Qed.

(** Every message digested for a disposition's result. *)
Abbreviation disposition_inner hub actor catalog r :=
  (reference_messages hub actor catalog (dsr_product r) ++
   reference_messages hub actor catalog (dsr_variant r) ++
   reference_messages hub actor catalog (dsr_location r) ++
   group_messages hub actor catalog (csg_before (dsr_consumed r))).
Definition disposition_sealed (input : array 32) (r : DispositionRecord) : list (list byte) :=
  disposition_result_message input r ::
  match disposition_command r with
  | Ok cmd => [DispositionCommand_message cmd (dsr_hub r) (dsr_actor r) (dsr_identities r)]
  | Err _ => []
  end ++ disposition_inner (dsr_hub r) (dsr_actor r) (dsr_catalog_revision r) r.

Lemma disposition_message_inj input input' r r' :
  disposition_ok r -> disposition_ok r' ->
  apart (disposition_sealed input r) (disposition_sealed input' r') ->
  disposition_result_message input r = disposition_result_message input' r' ->
  input = input' /\ dsr_hub r = dsr_hub r' /\ dsr_actor r = dsr_actor r' /\
  dsr_recorded_at r = dsr_recorded_at r' /\ dsr_stock_revision r = dsr_stock_revision r' /\
  dsr_catalog_revision r = dsr_catalog_revision r' /\ dsr_product r = dsr_product r' /\
  dsr_variant r = dsr_variant r' /\ dsr_location r = dsr_location r' /\
  dsr_consumed r = dsr_consumed r'.
Proof.
  intros Hok Hok' Ha E. unfold disposition_result_message in E. apply app_inv_head in E.
  assert (apart (disposition_inner (dsr_hub r) (dsr_actor r) (dsr_catalog_revision r) r)
    (disposition_inner (dsr_hub r') (dsr_actor r') (dsr_catalog_revision r') r')) as Hi.
  { eapply apart_mono; [..|exact Ha]; unfold disposition_sealed; intros m Hm; right;
      rewrite elem_of_app; by right. }
  clear Ha. apply (prefix_inv (enc := fun a : array 32 => raw a)) in E as [-> E]. do 5 peel E.
  repeat match goal with F : dsr_hub r = _ |- _ => rewrite F in E, Hi; revert F
    | F : dsr_actor r = _ |- _ => rewrite F in E, Hi; revert F
    | F : dsr_catalog_revision r = _ |- _ => rewrite F in E, Hi; revert F end. intros.
  do 3 speel E. rewrite <- ?app_assoc in E.
  apply custody_group_inv in E as [? E]; [|apply Hok|apply Hok'|apart_sub]. do 2 peel E.
  split_and!; try done. destruct (dsr_consumed r), (dsr_consumed r'); simpl in *. by subst.
Qed.

(** The result digest of a disposition determines its input and its whole
    record, unless two of the messages digested for the two results collide. *)
Theorem disposition_digest_binding input input' r r' d :
  disposition_result_digest input r = Ok d -> disposition_result_digest input' r' = Ok d ->
  apart (disposition_sealed input r) (disposition_sealed input' r') -> input = input' /\ r = r'.
Proof.
  rewrite !disposition_digest_Ok.
  intros (Hok & (cmd & Hc & Hf) & ->) (Hok' & (cmd' & Hc' & Hf') & E) Ha.
  apply Ha in E; [|by left..].
  destruct (disposition_message_inj _ _ _ _ Hok Hok' Ha E) as (Hin & ? & ? & ? & ? & ? & ? & ? & ? & Hcons).
  split; [done|]. rewrite <- Hin, <- Hf in Hf'. unfold DispositionCommand_fingerprint in Hf'.
  apply eq_sym, Ha in Hf' as (Hcmd & _ & _ & ?)%DispositionCommand_message_inj;
    [|unfold disposition_sealed; rewrite ?Hc, ?Hc'; right; apply elem_of_app; left; set_solver..].
  apply disposition_command_Ok in Hc as [Hc _], Hc' as [Hc' _].
  rewrite Hc, Hc' in Hcmd. injection Hcmd as _ _ _ _ _ ? ? ?.
  pose proof (do_work _ Hok) as Hw. rewrite Hcons, (do_work _ Hok') in Hw. injection Hw as Hw.
  destruct r, r'; simpl in *. by subst.
Qed.
End Results.

(** ** A concrete disposition *)

Definition sample_disposition : DispositionCommand :=
  {| dsc_expected_stock_revision := sample_revision 9;
     dsc_expected_catalog_revision := sample_revision 7;
     dsc_group := sample_id 51; dsc_expected_group_revision := HubRevision_INITIAL;
     dsc_packs := sample_packs 10; dsc_kind := DispositionKind.Destroyed;
     dsc_occurred := Occurrence.Known (sample_time 240);
     dsc_observation := sample_provenance "Composted" |}.
Definition sample_disposition_context : DispositionContext :=
  {| dsx_hub := sample_hub; dsx_stock_revision := sample_revision 9;
     dsx_catalog := sample_catalog;
     dsx_group := sample_group 51 10 [pending sample_requirement];
     dsx_lineage := sample_lineage; dsx_treatment := sample_treatment;
     dsx_activity := {| dsa_uncertain_submissions := false; dsa_unresolved_actuals := false |} |}.
Definition sample_disposition_ids : DispositionIdentities :=
  match @DispositionIdentities_from_operation_bytes sample_sha256 (sample_id 91) with
  | Ok ids => ids
  | Err _ => {| dsi_operation := sample_id 1; dsi_disposition := sample_id 1 |}
  end.
Abbreviation sample_disposition_plan :=
  (@DispositionCommand_plan sample_sha256 sample_disposition sample_disposition_context
    sample_disposition_ids (sample_key 1) (sample_time 250)).
Abbreviation sample_disposition_input :=
  (@DispositionCommand_fingerprint sample_sha256 sample_disposition sample_hub (sample_key 1)
    sample_disposition_ids).

Lemma sample_disposed : exists r d, sample_disposition_plan = Ok r /\
  (fun c => raw (dwc_retired c)) <$> dsr_work_changes r = [10] /\
  @disposition_result_digest sample_sha256 sample_disposition_input r = Ok d /\
  @apart sample_sha256 (@disposition_sealed sample_sha256 sample_disposition_input r)
    (@disposition_sealed sample_sha256 sample_disposition_input r).
Proof.
  assert (match sample_disposition_plan with
    | Ok r => bool_decide ((fun c => raw (dwc_retired c)) <$> dsr_work_changes r = [10])
        && is_ok (@disposition_result_digest sample_sha256 sample_disposition_input r)
        && @apart_check sample_sha256 (@disposition_sealed sample_sha256 sample_disposition_input r)
             (@disposition_sealed sample_sha256 sample_disposition_input r)
    | Err _ => false end = true) as H by (vm_compute; reflexivity).
  destruct sample_disposition_plan as [r|]; [|done]. exists r.
  apply andb_true_iff in H as [[Hw%bool_decide_eq_true [d Hd]%is_ok_Ok]%andb_true_iff Ha].
  exists d. split_and!; [done..|]. by apply apart_checked.
Qed.

Lemma disposition_correct_witness : exists r,
  sample_disposition_plan = Ok r /\
  @disposed sample_sha256 sample_disposition sample_disposition_context sample_disposition_ids
    (sample_key 1) (sample_time 250) r.
Proof.
  pose proof (@disposition_correct sample_sha256 sample_disposition sample_disposition_context
    sample_disposition_ids (sample_key 1) (sample_time 250) sample_catalog_wf sample_lineage_wf) as H.
  destruct sample_disposed as (r & _ & E & _). rewrite E in H. exists r. exact (conj E (proj2 H)).
Defined.

Lemma disposition_roundtrip_witness : exists r,
  sample_disposition_plan = Ok r /\ disposition_command r = Ok sample_disposition.
Proof.
  destruct sample_disposed as (r & _ & E & _). exists r. split; [exact E|].
  exact (proj1 (@disposition_roundtrip sample_sha256 sample_disposition sample_disposition_context
    sample_disposition_ids (sample_key 1) (sample_time 250) r sample_catalog_wf E)).
Defined.

Lemma disposition_digest_binding_witness : exists r d,
  @disposition_result_digest sample_sha256 sample_disposition_input r = Ok d /\
  sample_disposition_input = sample_disposition_input /\ r = r.
Proof.
  destruct sample_disposed as (r & d & _ & _ & E & Ha). exists r, d. split; [exact E|].
  exact (@disposition_digest_binding sample_sha256 _ _ r r d E E Ha).
Defined.
