(* ===== verification/Returns.v ===== *)
(** * Returned custody

    [hub/returns.rs] with its [model], [allowances], [command] and [result]
    modules: packs that come back after a departure enter as new custody under
    review, with new work, and are linked to the original departure line only
    as far as the recorded departure, the returns established before and the
    captured allowances support it. *)

From Stdlib Require Import Bool ZArith Lia String List.
From stdpp Require Import base decidable option list numbers sets relations.
From S2P Require Import Prelude Containers Encoding Hub Reference Catalog Stock Movement Work Lineage Treatment Dispatch Departure Custody Papers.

Module ReturnError.
Inductive ReturnError :=
| Reference (e : HubReferenceError)
| Stock (e : StockError)
| Departure (e : DepartureError)
| InvalidIdentity
| InvalidNativeContext
| EmptyQuantity
| StaleRevision
| InvalidPlannedLocation
| RevisionExhausted.
End ReturnError.
Abbreviation ReturnError := ReturnError.ReturnError.

(** ** Identities *)

Record ReturnIdentities := {
  rti_operation : HubRecordId;
  rti_returned : HubRecordId;
  rti_population : HubRecordId;
  rti_group : HubRecordId;
  rti_source : HubRecordId;
  rti_requirement : HubRecordId
}.
#[global] Instance ReturnIdentities_eq_dec : EqDecision ReturnIdentities.
Proof. solve_decision. Defined.

Definition ReturnIdentities_from_operation_bytes `{Sha256} (operation : HubRecordId)
  : result ReturnIdentities ReturnError :=
  let derive (purpose : string) :=
    map_err ReturnError.Reference
      (derive_identity "harvestcircle.hub.return.identity.v1" (domain_tag purpose) operation) in
  let? returned := derive "return"%string in
  let? population := derive "population"%string in
  let? group := derive "group"%string in
  let? source := derive "source"%string in
  let? requirement := derive "work"%string in
  Ok {| rti_operation := operation; rti_returned := returned; rti_population := population;
        rti_group := group; rti_source := source; rti_requirement := requirement |}.

Definition return_ids (self : ReturnIdentities) : list HubRecordId :=
  [rti_operation self; rti_returned self; rti_population self; rti_group self;
   rti_source self; rti_requirement self].
(** [all.iter().enumerate().any(|(i, id)| all[..i].contains(id))]. *)
Fixpoint repeats_earlier (earlier all : list HubRecordId) : bool :=
  match all with
  | [] => false
  | id :: all => existsb (fun other => other ==? id) earlier || repeats_earlier (earlier ++ [id]) all
  end.
Definition ReturnIdentities_validate `{Sha256} (self : ReturnIdentities)
  : result unit ReturnError :=
  let? derived := ReturnIdentities_from_operation_bytes (rti_operation self) in
  if self !=? derived then Err ReturnError.InvalidIdentity
  else if repeats_earlier [] (return_ids self) then Err ReturnError.InvalidIdentity
  else Ok tt.

(** ** Links to the original departure *)

Record ReturnDepartureClaim := {
  rdc_departure : HubRecordId;
  rdc_group : option HubRecordId
}.
#[global] Instance ReturnDepartureClaim_eq_dec : EqDecision ReturnDepartureClaim.
Proof. solve_decision. Defined.

Record ReturnDepartureHeader := {
  rdh_departure : HubRecordId;
  rdh_operation : HubRecordId;
  rdh_hub : HubId;
  rdh_stock_revision : HubRevision;
  rdh_catalog_revision : HubRevision;
  rdh_identification : HubRecordId;
  rdh_recipient : ReferenceRecord;
  rdh_actor : PublicKey;
  rdh_recorded_at : UnixTimestamp;
  rdh_occurred : Occurrence
}.
#[global] Instance ReturnDepartureHeader_eq_dec : EqDecision ReturnDepartureHeader.
Proof. solve_decision. Defined.

Record ReturnSourceSnapshot := {
  rss_original : DispatchLineSnapshot;
  rss_previously_established_returns : WholePacks
}.
#[global] Instance ReturnSourceSnapshot_eq_dec : EqDecision ReturnSourceSnapshot.
Proof. solve_decision. Defined.

Module ReturnTiming.
Inductive ReturnTiming := AfterOrSame | Uncertain | Contradictory.
#[global] Instance ReturnTiming_eq_dec : EqDecision ReturnTiming.
Proof. solve_decision. Defined.
End ReturnTiming.
Abbreviation ReturnTiming := ReturnTiming.ReturnTiming.

Module UnresolvedReturnLink.
Inductive UnresolvedReturnLink :=
| OriginalGroupUnknown | NoMatchingVariant | ClaimedGroupMissing
| VariantConflict | QuantityConflict | TimeConflict.
#[global] Instance UnresolvedReturnLink_eq_dec : EqDecision UnresolvedReturnLink.
Proof. solve_decision. Defined.
End UnresolvedReturnLink.
Abbreviation UnresolvedReturnLink := UnresolvedReturnLink.UnresolvedReturnLink.

Module ReturnLinkResolution.
Inductive ReturnLinkResolution :=
| Unknown
| Unrecorded
| Unresolved (reason : UnresolvedReturnLink)
| EstablishedScope.
#[global] Instance ReturnLinkResolution_eq_dec : EqDecision ReturnLinkResolution.
Proof. solve_decision. Defined.
End ReturnLinkResolution.
Abbreviation ReturnLinkResolution := ReturnLinkResolution.ReturnLinkResolution.

Record ReturnLinkSnapshot := {
  rls_claim : option ReturnDepartureClaim;
  rls_departure : option ReturnDepartureHeader;
  rls_claimed_source : option ReturnSourceSnapshot;
  rls_plausible_sources : list ReturnSourceSnapshot;
  rls_timing : ReturnTiming;
  rls_resolution : ReturnLinkResolution
}.
#[global] Instance ReturnLinkSnapshot_eq_dec : EqDecision ReturnLinkSnapshot.
Proof. solve_decision. Defined.

Definition ReturnLinkSnapshot_established_group (self : ReturnLinkSnapshot)
  : option HubRecordId :=
  if rls_resolution self ==? ReturnLinkResolution.EstablishedScope
  then match rls_claim self with Some claim => rdc_group claim | None => None end
  else None.

(** ** Allowances *)

Record ReturnQuantityHead := {
  rqh_operation : HubRecordId;
  rqh_stock_revision : HubRevision;
  rqh_projection_hash : array 32
}.
#[global] Instance ReturnQuantityHead_eq_dec : EqDecision ReturnQuantityHead.
Proof. solve_decision. Defined.

Record ReturnLineAllowance := {
  rla_original_group : HubRecordId;
  rla_effective_departure : WholePacks;
  rla_original_debit_return_bound : WholePacks;
  rla_quantity_head : option ReturnQuantityHead;
  rla_funding_hash : array 32;
  rla_unresolved_returns : bool
}.
#[global] Instance ReturnLineAllowance_eq_dec : EqDecision ReturnLineAllowance.
Proof. solve_decision. Defined.

Definition ReturnLineAllowance_linkable_quantity (self : ReturnLineAllowance) : WholePacks :=
  if raw (rla_effective_departure self) <? raw (rla_original_debit_return_bound self)
  then rla_effective_departure self
  else rla_original_debit_return_bound self.

Record ReturnAllowanceCapture := {
  rac_hub : HubId;
  rac_departure : HubRecordId;
  rac_operation : HubRecordId;
  rac_stock_revision : HubRevision;
  rac_lines : list ReturnLineAllowance
}.
#[global] Instance ReturnAllowanceCapture_eq_dec : EqDecision ReturnAllowanceCapture.
Proof. solve_decision. Defined.

(** ** Intake, plan and command *)

Record ReturnIntake := {
  rin_population : HubRecordId;
  rin_product : ReferenceRecord;
  rin_variant : ReferenceRecord;
  rin_location : ReferenceRecord;
  rin_returned_by : option ReferenceRecord;
  rin_source : SourceAttribution;
  rin_source_issuer : option ReferenceRecord;
  rin_packs : WholePacks;
  rin_planned_location : option ReferenceRecord;
  rin_occurred : Occurrence;
  rin_actor : PublicKey;
  rin_recorded_at : UnixTimestamp;
  rin_observation : SourceProvenance
}.
#[global] Instance ReturnIntake_eq_dec : EqDecision ReturnIntake.
Proof. solve_decision. Defined.

Record ReturnPlan := {
  rtp_identities : ReturnIdentities;
  rtp_stock_revision : HubRevision;
  rtp_catalog_revision : HubRevision;
  rtp_intake : ReturnIntake;
  rtp_group : PhysicalStockGroup;
  rtp_intake_work : option WorkRequirement;
  rtp_acceptance : AcceptanceStatus;
  rtp_linkage : ReturnLinkSnapshot;
  rtp_current_allowances : option ReturnAllowanceCapture
}.
#[global] Instance ReturnPlan_eq_dec : EqDecision ReturnPlan.
Proof. solve_decision. Defined.

Definition ReturnPlan_population (self : ReturnPlan) : StockPopulation :=
  let intake := rtp_intake self in
  {| sp_id := rin_population intake;
     sp_variant := rin_variant intake;
     sp_product := rin_product intake;
     sp_supplier := None;
     sp_producer := None;
     sp_source := rin_source intake;
     sp_source_issuer := rin_source_issuer intake;
     sp_original_packs := rin_packs intake;
     sp_initial_location := rin_location intake;
     sp_origin := PopulationOrigin.Returned (rti_returned (rtp_identities self));
     sp_planned_location := rin_planned_location intake;
     sp_occurred := rin_occurred intake;
     sp_recorded_at := rin_recorded_at intake;
     sp_actor := rin_actor intake;
     sp_observation := rin_observation intake |}.

Record ReturnCommand := {
  rtc_expected_stock_revision : HubRevision;
  rtc_expected_catalog_revision : HubRevision;
  rtc_variant : HubRecordId;
  rtc_location : HubRecordId;
  rtc_returned_by : option HubRecordId;
  rtc_source : SourceAttribution;
  rtc_packs : WholePacks;
  rtc_identification : PhysicalIdentification;
  rtc_planned_location : option HubRecordId;
  rtc_departure : option ReturnDepartureClaim;
  rtc_occurred : Occurrence;
  rtc_observation : SourceProvenance
}.

Record EstablishedReturnTotal := {
  ert_original_group : HubRecordId;
  ert_packs : WholePacks
}.

Record ReturnContext := {
  rtx_hub : HubId;
  rtx_stock_revision : HubRevision;
  rtx_catalog : ReferenceCatalog;
  rtx_departure : option DepartureRecord;
  rtx_established_return_totals : list EstablishedReturnTotal;
  rtx_current_allowances : option ReturnAllowanceCapture
}.

Definition return_next (value : HubRevision) : result HubRevision ReturnError :=
  map_err (fun _ => ReturnError.RevisionExhausted) (HubRevision_next value).

(** ** Timing *)

(** The closure [bounds] of [return_timing]. *)
Definition occurrence_bounds (value : Occurrence) : option (UnixTimestamp * UnixTimestamp) :=
  match value with
  | Occurrence.Known at_ => Some (at_, at_)
  | Occurrence.Interval earliest latest => Some (earliest, latest)
  | Occurrence.Unknown => None
  end.
Definition return_timing (departure returned : Occurrence) : ReturnTiming :=
  match occurrence_bounds departure, occurrence_bounds returned with
  | Some (departed_first, departed_last), Some (returned_first, returned_last) =>
      if raw returned_last <? raw departed_first then ReturnTiming.Contradictory
      else if raw returned_first >=? raw departed_last then ReturnTiming.AfterOrSame
      else ReturnTiming.Uncertain
  | _, _ => ReturnTiming.Uncertain
  end.

(** ** Validation of captured allowances *)

(** The loop body of [ReturnAllowanceCapture::validate]. *)
Definition validate_allowance (self : ReturnAllowanceCapture) (departure : DepartureRecord)
    (lines : list DispatchLineSnapshot) (groups : list (HubRecordId * unit))
    (allowance : ReturnLineAllowance) : result (list (HubRecordId * unit)) ReturnError :=
  let? line := ok_or
    (List.find (fun line => dl_group line ==? rla_original_group allowance) lines)
    ReturnError.InvalidNativeContext in
  let (fresh, groups') := bs_insert (rla_original_group allowance) groups in
  if negb fresh
     || (raw (rla_original_debit_return_bound allowance) >? raw (dl_packs line))
     || (is_none (rla_quantity_head allowance)
         && ((rla_effective_departure allowance !=? dl_packs line)
             || (rla_original_debit_return_bound allowance !=? dl_packs line)))
     || (raw (rla_funding_hash allowance) ==? zero_bytes 32)
     || is_some_and (rla_quantity_head allowance) (fun head =>
          (rqh_operation head ==? der_operation departure)
          || (raw (rqh_stock_revision head) <=? raw (der_stock_revision departure))
          || (raw (rqh_stock_revision head) >? raw (rac_stock_revision self))
          || (raw (rqh_projection_hash head) ==? zero_bytes 32))
  then Err ReturnError.InvalidNativeContext
  else Ok groups'.

Definition ReturnAllowanceCapture_validate (self : ReturnAllowanceCapture)
    (context : ReturnContext) (departure : DepartureRecord) : result unit ReturnError :=
  let? issued := ok_or (last (dr_versions (der_paper departure)))
    ReturnError.InvalidNativeContext in
  let lines := dm_lines (iv_material issued) in
  if (rac_hub self !=? rtx_hub context) || (rac_departure self !=? der_id departure)
     || (rac_operation self !=? der_operation departure)
     || (rac_stock_revision self !=? rtx_stock_revision context)
     || negb (length (rac_lines self) =? length lines)%nat
     || (length (rac_lines self) =? 0)%nat
     || (64 <? length (rac_lines self))%nat
  then Err ReturnError.InvalidNativeContext
  else
    let? _ := try_fold (validate_allowance self departure lines) [] (rac_lines self) in
    Ok tt.

(** ** Resolving the link *)

(** [context.current_allowances.and_then(|capture| capture.lines.iter().find(..))]. *)
Definition line_allowance (context : ReturnContext) (group : HubRecordId)
  : option ReturnLineAllowance :=
  match rtx_current_allowances context with
  | Some capture =>
      List.find (fun allowance => rla_original_group allowance ==? group) (rac_lines capture)
  | None => None
  end.

(** The loop that collects the totals. *)
Definition insert_total (totals : list (HubRecordId * WholePacks)) (total : EstablishedReturnTotal)
  : result (list (HubRecordId * WholePacks)) ReturnError :=
  if is_some (bt_get (ert_original_group total) totals)
  then Err ReturnError.InvalidNativeContext
  else Ok (bt_insert (ert_original_group total) (ert_packs total) totals).

(** The loop over the issued lines: plausible sources, then the claimed one. *)
Abbreviation link_sources := (list ReturnSourceSnapshot * option ReturnSourceSnapshot)%type.
Definition link_line (self : ReturnCommand) (context : ReturnContext)
    (claim : ReturnDepartureClaim) (totals : list (HubRecordId * WholePacks))
    (sources : link_sources) (line : DispatchLineSnapshot) : result link_sources ReturnError :=
  let? prior := ok_or (bt_get (dl_group line) totals) ReturnError.InvalidNativeContext in
  if raw prior >? raw (dl_packs line) then Err ReturnError.InvalidNativeContext
  else if is_some_and (line_allowance context (dl_group line)) (fun allowance =>
      raw prior >? raw (ReturnLineAllowance_linkable_quantity allowance))
  then Err ReturnError.InvalidNativeContext
  else
    let candidate := {| rss_original := line; rss_previously_established_returns := prior |} in
    let (plausible, claimed) := sources in
    Ok (if rr_id (dl_variant line) ==? rtc_variant self then plausible ++ [candidate] else plausible,
        if rdc_group claim ==? Some (dl_group line) then Some candidate else claimed).

(** [prior.checked_add(packs).is_ok_and(|total| total.value() <= bound.value())]. *)
Definition total_within (prior packs bound : WholePacks) : bool :=
  match WholePacks_checked_add prior packs with
  | Ok total => raw total <=? raw bound
  | Err _ => false
  end.

(** [reason]: why the link is not established. *)
Definition link_reason (self : ReturnCommand) (context : ReturnContext)
    (claim : ReturnDepartureClaim) (claimed : option ReturnSourceSnapshot)
    (plausible : list ReturnSourceSnapshot) (timing : ReturnTiming)
  : option UnresolvedReturnLink :=
  match claimed, rdc_group claim with
  | _, None =>
      if (length plausible =? 0)%nat then Some UnresolvedReturnLink.NoMatchingVariant
      else Some UnresolvedReturnLink.OriginalGroupUnknown
  | None, Some _ => Some UnresolvedReturnLink.ClaimedGroupMissing
  | Some source, Some _ =>
      let prior := rss_previously_established_returns source in
      let line := rss_original source in
      if rr_id (dl_variant line) !=? rtc_variant self
      then Some UnresolvedReturnLink.VariantConflict
      else if negb (total_within prior (rtc_packs self) (dl_packs line))
      then Some UnresolvedReturnLink.QuantityConflict
      else if is_some_and (line_allowance context (dl_group line)) (fun allowance =>
          rla_unresolved_returns allowance
          || negb (total_within prior (rtc_packs self)
                     (ReturnLineAllowance_linkable_quantity allowance)))
      then Some UnresolvedReturnLink.QuantityConflict
      else if timing ==? ReturnTiming.Contradictory
      then Some UnresolvedReturnLink.TimeConflict
      else None
  end.

Definition unlinked (claim : option ReturnDepartureClaim) (resolution : ReturnLinkResolution)
  : ReturnLinkSnapshot :=
  {| rls_claim := claim; rls_departure := None; rls_claimed_source := None;
     rls_plausible_sources := []; rls_timing := ReturnTiming.Uncertain;
     rls_resolution := resolution |}.

Definition departure_header (departure : DepartureRecord) (issued : IdentificationVersion)
  : ReturnDepartureHeader :=
  {| rdh_departure := der_id departure;
     rdh_operation := der_operation departure;
     rdh_hub := der_hub departure;
     rdh_stock_revision := der_stock_revision departure;
     rdh_catalog_revision := der_catalog_revision departure;
     rdh_identification := iv_id issued;
     rdh_recipient := dm_recipient (iv_material issued);
     rdh_actor := der_actor departure;
     rdh_recorded_at := der_recorded_at departure;
     rdh_occurred := der_occurred departure |}.

Section Returns.
Context `{Sha256}.

Definition ReturnCommand_resolve_link (self : ReturnCommand) (context : ReturnContext)
  : result ReturnLinkSnapshot ReturnError :=
  let totals_given := negb (length (rtx_established_return_totals context) =? 0)%nat in
  match rtc_departure self with
  | None =>
      if is_some (rtx_departure context) || totals_given
         || is_some (rtx_current_allowances context)
      then Err ReturnError.InvalidNativeContext
      else Ok (unlinked None ReturnLinkResolution.Unknown)
  | Some claim =>
      match rtx_departure context with
      | None =>
          if totals_given || is_some (rtx_current_allowances context)
          then Err ReturnError.InvalidNativeContext
          else Ok (unlinked (Some claim) ReturnLinkResolution.Unrecorded)
      | Some departure =>
          map_err ReturnError.Departure (DepartureRecord_validate departure) ;;?
          if (der_hub departure !=? rtx_hub context) || (der_id departure !=? rdc_departure claim)
             || (raw (der_stock_revision departure) >? raw (rtx_stock_revision context))
             || (raw (der_catalog_revision departure) >? raw (rc_revision (rtx_catalog context)))
          then Err ReturnError.InvalidNativeContext
          else
            let? issued := ok_or (last (dr_versions (der_paper departure)))
              ReturnError.InvalidNativeContext in
            let lines := dm_lines (iv_material issued) in
            match rtx_current_allowances context with
            | Some allowances => ReturnAllowanceCapture_validate allowances context departure
            | None => Ok tt
            end ;;?
            if negb (length (rtx_established_return_totals context) =? length lines)%nat
            then Err ReturnError.InvalidNativeContext
            else
              let? totals := try_fold insert_total [] (rtx_established_return_totals context) in
              if negb (length totals =? length lines)%nat
              then Err ReturnError.InvalidNativeContext
              else
                let? (plausible, claimed) :=
                  try_fold (link_line self context claim totals) ([], None) lines in
                let timing := return_timing (der_occurred departure) (rtc_occurred self) in
                Ok {|
                  rls_claim := Some claim;
                  rls_departure := Some (departure_header departure issued);
                  rls_claimed_source := claimed;
                  rls_plausible_sources := plausible;
                  rls_timing := timing;
                  rls_resolution :=
                    match link_reason self context claim claimed plausible timing with
                    | Some reason => ReturnLinkResolution.Unresolved reason
                    | None => ReturnLinkResolution.EstablishedScope
                    end
                |}
      end
  end.

(** ** Planning a return *)

(** The work an explicit planned location asks for. *)
Definition intake_requirement (self : ReturnCommand) (ids : ReturnIdentities)
    (target : ReferenceRecord) : WorkRequirement :=
  {| wr_id := rti_requirement ids; wr_trace := rti_population ids; wr_variant := rtc_variant self;
     wr_target := Some target; wr_quantity := QuantityWork_pending (rtc_packs self);
     wr_revision := HubRevision_INITIAL |}.
Definition intake_allocations (work : option WorkRequirement) : list WorkAllocation :=
  match work with
  | Some requirement => [{| wa_requirement := requirement; wa_progress := WorkProgress.Pending |}]
  | None => []
  end.
Definition returned_group (self : ReturnCommand) (ids : ReturnIdentities)
    (work : option WorkRequirement) : PhysicalStockGroup :=
  {| pg_id := rti_group ids;
     pg_trace := rti_population ids;
     pg_variant := rtc_variant self;
     pg_parent := None;
     pg_identification := Some (rtc_identification self);
     pg_location := rtc_location self;
     pg_packs := rtc_packs self;
     pg_revision := HubRevision_INITIAL;
     pg_causal_floor :=
       match rtc_occurred self with
       | Occurrence.Known at_ => Some at_
       | Occurrence.Interval earliest _ => Some earliest
       | Occurrence.Unknown => None
       end;
     pg_work := intake_allocations work |}.

Definition ReturnCommand_plan (self : ReturnCommand) (context : ReturnContext)
    (ids : ReturnIdentities) (actor : PublicKey) (now : UnixTimestamp)
  : result ReturnPlan ReturnError :=
  let catalog := rtx_catalog context in
  ReturnIdentities_validate ids ;;?
  if (rtc_expected_stock_revision self !=? rtx_stock_revision context)
     || (rtc_expected_catalog_revision self !=? rc_revision catalog)
  then Err ReturnError.StaleRevision
  else if raw (rtc_packs self) =? 0 then Err ReturnError.EmptyQuantity
  else
    map_err ReturnError.Stock (Occurrence_validate (rtc_occurred self) now) ;;?
    let? variant := map_err ReturnError.Reference
      (ReferenceCatalog_require_kind catalog (rtc_variant self) ReferenceKind.Pack) in
    let? product_id :=
      match rr_value variant with
      | ReferenceValue.Pack product _ _ => Ok product
      | _ => Err ReturnError.InvalidNativeContext
      end in
    let? product := map_err ReturnError.Reference
      (ReferenceCatalog_require_kind catalog product_id ReferenceKind.Product) in
    let? location := map_err ReturnError.Reference
      (ReferenceCatalog_require_kind catalog (rtc_location self) ReferenceKind.Location) in
    let? returned_by := map_err ReturnError.Reference
      (transpose_map (fun id => ReferenceCatalog_require_kind catalog id ReferenceKind.Party)
         (rtc_returned_by self)) in
    let? source_issuer := map_err ReturnError.Reference
      (resolve_source_issuer catalog (rtc_source self)) in
    if rtc_planned_location self ==? Some (rtc_location self)
    then Err ReturnError.InvalidPlannedLocation
    else
      let? planned_location := map_err ReturnError.Reference
        (transpose_map (fun id => ReferenceCatalog_require_kind catalog id ReferenceKind.Location)
           (rtc_planned_location self)) in
      let intake_work := intake_requirement self ids <$> planned_location in
      let group := returned_group self ids intake_work in
      map_err (fun _ => ReturnError.InvalidNativeContext) (PhysicalStockGroup_validate group) ;;?
      let? stock_revision := return_next (rtx_stock_revision context) in
      let? linkage := ReturnCommand_resolve_link self context in
      Ok {|
        rtp_identities := ids;
        rtp_stock_revision := stock_revision;
        rtp_catalog_revision := rc_revision catalog;
        rtp_intake := {|
          rin_population := rti_population ids;
          rin_product := product;
          rin_variant := variant;
          rin_location := location;
          rin_returned_by := returned_by;
          rin_source := rtc_source self;
          rin_source_issuer := source_issuer;
          rin_packs := rtc_packs self;
          rin_planned_location := planned_location;
          rin_occurred := rtc_occurred self;
          rin_actor := actor;
          rin_recorded_at := now;
          rin_observation := rtc_observation self
        |};
        rtp_group := group;
        rtp_intake_work := intake_work;
        rtp_acceptance := AcceptanceStatus.ReviewRequired;
        rtp_linkage := linkage;
        rtp_current_allowances := rtx_current_allowances context
      |}.
End Returns.

(** ** Fingerprint and result digests *)

Definition enc_claim (claim : ReturnDepartureClaim) : list byte :=
  enc_id (rdc_departure claim) ++ enc_optional_id (rdc_group claim).
Definition ReturnCommand_message (self : ReturnCommand) (hub : HubId) (actor : PublicKey)
    (ids : ReturnIdentities) : list byte :=
  domain_tag "harvestcircle.hub.return.command.v1" ++
  enc_hub hub ++ enc_key actor ++ enc_seq enc_id (return_ids ids) ++
  enc_revision (rtc_expected_stock_revision self) ++
  enc_revision (rtc_expected_catalog_revision self) ++
  enc_id (rtc_variant self) ++ enc_id (rtc_location self) ++ enc_packs (rtc_packs self) ++
  enc_optional_id (rtc_returned_by self) ++ enc_optional_id (rtc_planned_location self) ++
  hash_source (rtc_source self) ++ enc_hub_text (pi_label (rtc_identification self)) ++
  enc_hub_text (pi_observation (rtc_identification self)) ++
  enc_option enc_claim (rtc_departure self) ++
  hash_occurrence (rtc_occurred self) ++ enc_hub_text (rtc_observation self).
Definition ReturnCommand_fingerprint `{Sha256} (self : ReturnCommand) (hub : HubId)
    (actor : PublicKey) (ids : ReturnIdentities) : array 32 :=
  digest32 (ReturnCommand_message self hub actor ids).

Definition enc_head (head : ReturnQuantityHead) : list byte :=
  enc_id (rqh_operation head) ++ enc_revision (rqh_stock_revision head) ++
  raw (rqh_projection_hash head).
Definition enc_allowance (line : ReturnLineAllowance) : list byte :=
  enc_id (rla_original_group line) ++ enc_packs (rla_effective_departure line) ++
  enc_packs (rla_original_debit_return_bound line) ++
  enc_option enc_head (rla_quantity_head line) ++ raw (rla_funding_hash line) ++
  enc_tag (if rla_unresolved_returns line then 1 else 0).
Definition ReturnAllowanceCapture_hash_into (self : ReturnAllowanceCapture)
  : result (list byte) ReturnError :=
  if negb (u32_range (Z.of_nat (length (rac_lines self))))
  then Err ReturnError.InvalidNativeContext
  else Ok (domain_tag "harvestcircle.hub.return.current-allowance.v1" ++
    enc_hub (rac_hub self) ++ enc_id (rac_departure self) ++ enc_id (rac_operation self) ++
    enc_revision (rac_stock_revision self) ++
    enc_counted 4 enc_allowance (sort_by_key rla_original_group (rac_lines self))).

Section Digests.
Context `{Sha256}.

Definition return_population_message (input : array 32) (hub : HubId) (catalog : HubRevision)
    (ids : ReturnIdentities) (population : StockPopulation) : list byte :=
  let reference := custody_reference hub (sp_actor population) catalog in
  domain_tag "harvestcircle.hub.return.population-result.v1" ++
  raw input ++ enc_hub hub ++ enc_revision catalog ++ enc_id (rti_operation ids) ++
  enc_id (rti_returned ids) ++ enc_id (rti_population ids) ++ enc_key (sp_actor population) ++
  enc_seconds (sp_recorded_at population) ++ enc_packs (sp_original_packs population) ++
  hash_occurrence (sp_occurred population) ++ enc_hub_text (sp_observation population) ++
  hash_source (sp_source population) ++ reference (sp_product population) ++
  reference (sp_variant population) ++ reference (sp_initial_location population) ++
  enc_option reference (sp_source_issuer population) ++
  enc_option reference (sp_planned_location population).
Definition return_population_digest (input : array 32) (hub : HubId) (catalog : HubRevision)
    (ids : ReturnIdentities) (population : StockPopulation) : result (array 32) ReturnError :=
  ReturnIdentities_validate ids ;;?
  if (sp_id population !=? rti_population ids)
     || (sp_origin population !=? PopulationOrigin.Returned (rti_returned ids))
     || (raw (sp_original_packs population) =? 0)
     || is_some (sp_supplier population) || is_some (sp_producer population)
     || (ReferenceValue_kind (rr_value (sp_product population)) !=? ReferenceKind.Product)
     || negb (match rr_value (sp_variant population) with
              | ReferenceValue.Pack product _ _ => product ==? rr_id (sp_product population)
              | _ => false
              end)
     || (ReferenceValue_kind (rr_value (sp_initial_location population))
           !=? ReferenceKind.Location)
     || is_some_and (sp_planned_location population) (fun target =>
          (ReferenceValue_kind (rr_value target) !=? ReferenceKind.Location)
          || (rr_id target ==? rr_id (sp_initial_location population)))
  then Err ReturnError.InvalidNativeContext
  else
    map_err ReturnError.Stock
      (Occurrence_validate (sp_occurred population) (sp_recorded_at population)) ;;?
    let issuer :=
      match sp_source population with
      | SourceAttribution.Unknown => None
      | SourceAttribution.Referenced source _ => sr_issuer source
      end in
    if (issuer !=? (rr_id <$> sp_source_issuer population))
       || is_some_and (sp_source_issuer population) (fun value =>
            ReferenceValue_kind (rr_value value) !=? ReferenceKind.Party)
    then Err ReturnError.InvalidNativeContext
    else if existsb (fun value => raw (rr_revision value) >? raw catalog)
              [sp_product population; sp_variant population; sp_initial_location population]
            || is_some_and (sp_source_issuer population) (fun value =>
                 raw (rr_revision value) >? raw catalog)
            || is_some_and (sp_planned_location population) (fun value =>
                 raw (rr_revision value) >? raw catalog)
    then Err ReturnError.InvalidNativeContext
    else Ok (digest32 (return_population_message input hub catalog ids population)).

Definition enc_total (total : EstablishedReturnTotal) : list byte :=
  enc_id (ert_original_group total) ++ enc_packs (ert_packs total).
Definition return_result_message (input : array 32) (context : ReturnContext)
    (record : ReturnPlan) (departure : option (array 32)) (allowances : list byte) : list byte :=
  let intake := rtp_intake record in
  let reference := custody_reference (rtx_hub context) (rin_actor intake)
    (rtp_catalog_revision record) in
  domain_tag "harvestcircle.hub.return.result.v1" ++
  raw input ++ enc_hub (rtx_hub context) ++ enc_key (rin_actor intake) ++
  enc_seconds (rin_recorded_at intake) ++ enc_revision (rtp_stock_revision record) ++
  enc_revision (rtp_catalog_revision record) ++
  reference (rin_product intake) ++ reference (rin_variant intake) ++
  reference (rin_location intake) ++
  enc_option reference (rin_returned_by intake) ++
  enc_option reference (rin_source_issuer intake) ++
  enc_option reference (rin_planned_location intake) ++
  enc_option (fun digest : array 32 => raw digest) departure ++
  enc_counted 4 enc_total
    (sort_by_key ert_original_group (rtx_established_return_totals context)) ++
  allowances.

Definition return_result_digest (input : array 32) (command : ReturnCommand)
    (context : ReturnContext) (record : ReturnPlan) : result (array 32) ReturnError :=
  let intake := rtp_intake record in
  if ReturnCommand_fingerprint command (rtx_hub context) (rin_actor intake)
       (rtp_identities record) !=? input
  then Err ReturnError.InvalidNativeContext
  else
    let? plan := ReturnCommand_plan command context (rtp_identities record) (rin_actor intake)
      (rin_recorded_at intake) in
    if plan !=? record then Err ReturnError.InvalidNativeContext
    else
      let? departure := transpose_map
        (fun departure => map_err ReturnError.Departure
           (departure_result_digest zero_input departure))
        (rtx_departure context) in
      if negb (u32_range (Z.of_nat (length (rtx_established_return_totals context))))
      then Err ReturnError.InvalidNativeContext
      else
        let? allowances :=
          match rtx_current_allowances context with
          | Some allowances => ReturnAllowanceCapture_hash_into allowances
          | None => Ok []
          end in
        Ok (digest32 (return_result_message input context record departure allowances)).
End Digests.

(** ** Timing: every possible instant *)

(** The instants an occurrence allows. *)
Definition possible (o : Occurrence) (t : UnixTimestamp) : Prop :=
  match o with
  | Occurrence.Known at_ => t = at_
  | Occurrence.Interval earliest latest => raw earliest <= raw t <= raw latest
  | Occurrence.Unknown => True
  end.
Definition ordered (o : Occurrence) : Prop :=
  match o with Occurrence.Interval earliest latest => raw earliest <= raw latest | _ => True end.

Lemma occurrence_ordered o now : Occurrence_validate o now = Ok tt -> ordered o.
Proof.
  unfold Occurrence_validate. destruct o; simpl; try done. intros E. case_match; [|done].
  breflect. lia.
Qed.

Lemma bounds_possible o first latest :
  ordered o -> occurrence_bounds o = Some (first, latest) ->
  possible o first /\ possible o latest /\
  forall t, possible o t -> raw first <= raw t <= raw latest.
Proof.
  destruct o as [a|a b|]; simpl; intros Ho E; simplify_eq; split_and!; try done; try lia.
  intros t ->. lia.
Qed.

(** The timing verdict on a return is exact over all the instants the two
    records allow: contradictory when every possible return precedes every
    possible departure, after-or-same when none does, uncertain otherwise; an
    unknown occurrence leaves it uncertain. *)
Theorem return_timing_correct departure returned :
  ordered departure -> ordered returned ->
  match return_timing departure returned with
  | ReturnTiming.Contradictory =>
      forall t u, possible departure t -> possible returned u -> raw u < raw t
  | ReturnTiming.AfterOrSame =>
      forall t u, possible departure t -> possible returned u -> raw t <= raw u
  | ReturnTiming.Uncertain =>
      departure = Occurrence.Unknown \/ returned = Occurrence.Unknown \/
      (exists t u, possible departure t /\ possible returned u /\ raw u < raw t) /\
      (exists t u, possible departure t /\ possible returned u /\ raw t <= raw u)
  end.
Proof.
  intros Hd Hr. unfold return_timing.
  destruct (occurrence_bounds departure) as [[d1 d2]|] eqn:Ed.
  2:{ destruct departure; try done. by left. }
  destruct (occurrence_bounds returned) as [[r1 r2]|] eqn:Er.
  2:{ destruct returned; try done. right. by left. }
  destruct (bounds_possible _ _ _ Hd Ed) as (P1 & P2 & Pd).
  destruct (bounds_possible _ _ _ Hr Er) as (Q1 & Q2 & Pr).
  destruct (Z.ltb_spec (raw r2) (raw d1)) as [Hc|Hc].
  { intros t u Ht%Pd Hu%Pr. lia. }
  destruct (Z.leb_spec (raw d2) (raw r1)) as [Ha|Ha].
  { intros t u Ht%Pd Hu%Pr. lia. }
  right. right. split; [by exists d2, r1|]. exists d1, r2. done.
Qed.

(** ** What captured allowances say *)

Record head_ok (self : ReturnAllowanceCapture) (departure : DepartureRecord)
    (head : ReturnQuantityHead) : Prop := {
  ho_operation : rqh_operation head <> der_operation departure;
  ho_after : raw (der_stock_revision departure) < raw (rqh_stock_revision head);
  ho_captured : raw (rqh_stock_revision head) <= raw (rac_stock_revision self);
  ho_hash : raw (rqh_projection_hash head) <> zero_bytes 32
}.
Record allowance_ok (self : ReturnAllowanceCapture) (departure : DepartureRecord)
    (lines : list DispatchLineSnapshot) (a : ReturnLineAllowance) : Prop := {
  al_line : exists line,
    List.find (fun line => dl_group line ==? rla_original_group a) lines = Some line /\
    raw (rla_original_debit_return_bound a) <= raw (dl_packs line) /\
    (rla_quantity_head a = None -> rla_effective_departure a = dl_packs line /\
      rla_original_debit_return_bound a = dl_packs line);
  al_funding : raw (rla_funding_hash a) <> zero_bytes 32;
  al_head : forall head, rla_quantity_head a = Some head -> head_ok self departure head
}.
Record allowances_ok (self : ReturnAllowanceCapture) (ctx : ReturnContext)
    (departure : DepartureRecord) (lines : list DispatchLineSnapshot) : Prop := {
  as_hub : rac_hub self = rtx_hub ctx;
  as_departure : rac_departure self = der_id departure;
  as_operation : rac_operation self = der_operation departure;
  as_revision : rac_stock_revision self = rtx_stock_revision ctx;
  as_length : length (rac_lines self) = length lines /\ (1 <= length lines <= 64)%nat;
  as_distinct : NoDup (rla_original_group <$> rac_lines self);
  as_lines : Forall (allowance_ok self departure lines) (rac_lines self)
}.

Lemma validate_allowance_Ok self departure lines groups a groups' :
  validate_allowance self departure lines groups a = Ok groups' <->
  allowance_ok self departure lines a /\ bs_contains (rla_original_group a) groups = false /\
  groups' = (bs_insert (rla_original_group a) groups).2.
Proof.
  unfold validate_allowance. rewrite bind_Ok. setoid_rewrite ok_or_Ok. cbn [bs_insert snd].
  setoid_rewrite guard_Ok. setoid_rewrite orb_false_iff. setoid_rewrite orb_false_iff.
  setoid_rewrite orb_false_iff. setoid_rewrite orb_false_iff. setoid_rewrite negb_involutive.
  split.
  - intros (line & Hf & ((((Hn & Hb) & Hh) & Hz) & Hs) & [= <-]). split_and!; [|done..].
    rewrite some_and_false in Hs. constructor.
    + exists line. breflect. split_and!; [done..|]. intros Hq. rewrite Hq in Hh.
      destruct Hh as [Hh|Hh]; [done|]. by breflect.
    + by breflect.
    + intros head Hq. specialize (Hs head Hq). breflect. by constructor.
  - intros ([(line & Hf & Hb & Hq) Hz Hs] & Hn & ->). exists line. split; [done|]. split; [|done].
    split_and!; [done|by apply Z.ltb_ge| |by apply bool_decide_eq_false_2|].
    + destruct (rla_quantity_head a); [done|]. destruct Hq as [-> ->]; [done|].
      cbn [is_none is_some negb andb]. by rewrite !bool_decide_eq_true_2.
    + apply some_and_false. intros head Hh. destruct (Hs head Hh). autorewrite with reflect. done.
Qed.

Lemma validate_allowances_fold self departure lines groups l :
  (exists groups', try_fold (validate_allowance self departure lines) groups l = Ok groups') <->
  any_repeated groups (rla_original_group <$> l) = false /\
  Forall (allowance_ok self departure lines) l.
Proof.
  revert groups. induction l as [|a l IH]; intros groups; csimpl.
  { split; [by intros _; split; constructor|]. intros _. by exists groups. }
  cbn [any_repeated bs_insert]. rewrite orb_false_iff, negb_involutive, list.Forall_cons.
  setoid_rewrite bind_Ok. setoid_rewrite validate_allowance_Ok. cbn [bs_insert snd]. split.
  - intros (g & gs & (Ha & Hn & ->) & Hf). destruct (proj1 (IH _) (ex_intro _ _ Hf)). done.
  - intros ((Hn & Hr) & Ha & Hf). destruct (proj2 (IH _) (conj Hr Hf)) as [g Hg]. by eexists _, _.
Qed.

Lemma allowances_validate_Ok self ctx departure issued :
  last (dr_versions (der_paper departure)) = Some issued ->
  ReturnAllowanceCapture_validate self ctx departure = Ok tt <->
  allowances_ok self ctx departure (dm_lines (iv_material issued)).
Proof.
  intros Hl. unfold ReturnAllowanceCapture_validate. rewrite Hl. cbn [ok_or bind].
  rewrite guard_Ok. split.
  - intros [Hb (g & Hf & _)%bind_Ok]. breflect.
    destruct (proj1 (validate_allowances_fold _ _ _ _ _) (ex_intro _ _ Hf)) as [[Hr _]%any_repeated_false Ha].
    constructor; try done. lia.
  - intros [Hh Hd Ho Hr [Hlen Hn] Hdis Ha]. split; [autorewrite with reflect; split_and!; try done; lia|].
    apply bind_Ok. destruct (proj2 (validate_allowances_fold self departure
      (dm_lines (iv_material issued)) [] (rac_lines self))) as [g Hg]; [|by exists g].
    split; [|done]. apply any_repeated_false. split; [done|]. by apply list.Forall_forall.
Qed.

(** ** The link, in closed form *)

(** The returns established before for a departed group. *)
Definition total_for (totals : list EstablishedReturnTotal) (group : HubRecordId)
  : option WholePacks :=
  ert_packs <$> List.find (fun total => ert_original_group total ==? group) totals.

Lemma insert_totals_Ok ts M0 M :
  try_fold insert_total M0 ts = Ok M <->
  NoDup (ert_original_group <$> ts) /\
  Forall (fun t => bt_get (ert_original_group t) M0 = None) ts /\
  M = foldl (fun M t => bt_insert (ert_original_group t) (ert_packs t) M) M0 ts.
Proof.
  revert M0. induction ts as [|t ts IH]; intros M0; csimpl.
  { split; [intros [= <-]; split_and!; [constructor|constructor|done]|by intros (_ & _ & ->)]. }
  rewrite bind_Ok, NoDup_cons, list.Forall_cons. unfold insert_total at 1. setoid_rewrite guard_Ok.
  setoid_rewrite IH. rewrite list_elem_of_fmap. setoid_rewrite list.Forall_forall. split.
  - intros (M1 & (Hn & [= <-]) & Hd & Hf & ->).
    assert (forall u, u ∈ ts -> ert_original_group u <> ert_original_group t /\
      bt_get (ert_original_group u) M0 = None) as Hu.
    { intros u Hu. specialize (Hf u Hu). rewrite bt_get_insert in Hf. by case_decide. }
    split_and!; try done; [|by destruct (bt_get _ M0)|by intros u; apply Hu].
    intros (u & E & Hin). by apply (Hu u Hin).
  - intros ([Hn Hd] & [Ht Hf] & ->). eexists. split; [by rewrite Ht|]. split_and!; try done.
    intros u Hu. rewrite bt_get_insert. case_decide as E; [|by apply Hf].
    exfalso. apply Hn. exists u. by rewrite E.
Qed.

Lemma totals_get ts M0 g :
  NoDup (ert_original_group <$> ts) ->
  Forall (fun t => bt_get (ert_original_group t) M0 = None) ts ->
  bt_get g (foldl (fun M t => bt_insert (ert_original_group t) (ert_packs t) M) M0 ts)
  = match total_for ts g with Some p => Some p | None => bt_get g M0 end.
Proof.
  unfold total_for. revert M0. induction ts as [|t ts IH]; intros M0; csimpl; [done|].
  intros [Hn Hd]%NoDup_cons [Ht Hf]%list.Forall_cons. rewrite IH; [|done|].
  - rewrite bt_get_insert. case_bool_decide as E; subst; [|by rewrite decide_False].
    rewrite decide_True by done. simpl.
    destruct (List.find _ ts) as [u|] eqn:Ef; [|done].
    apply List.find_some in Ef as [Hin%list_elem_of_In Hu%bool_decide_eq_true].
    destruct Hn. apply list_elem_of_fmap. by exists u.
  - rewrite !list.Forall_forall in *. intros u Hu. rewrite bt_get_insert. case_decide as E; [|by apply Hf].
    destruct Hn. apply list_elem_of_fmap. by exists u.
Qed.

(** The line with the returns established for it. *)
Definition link_source (prior : HubRecordId -> option WholePacks) (line : DispatchLineSnapshot)
  : ReturnSourceSnapshot :=
  {| rss_original := line;
     rss_previously_established_returns := default zero_packs (prior (dl_group line)) |}.
Definition link_accounted (ctx : ReturnContext) (prior : HubRecordId -> option WholePacks)
    (line : DispatchLineSnapshot) : Prop :=
  exists p, prior (dl_group line) = Some p /\ raw p <= raw (dl_packs line) /\
    forall a, line_allowance ctx (dl_group line) = Some a ->
      raw p <= raw (ReturnLineAllowance_linkable_quantity a).
Definition link_plausible (cmd : ReturnCommand) prior (lines : list DispatchLineSnapshot)
  : list ReturnSourceSnapshot :=
  link_source prior <$> List.filter (fun line => rr_id (dl_variant line) ==? rtc_variant cmd) lines.
Definition link_claimed (claim : ReturnDepartureClaim) prior (lines : list DispatchLineSnapshot)
  : option ReturnSourceSnapshot :=
  link_source prior <$> last (List.filter (fun line => rdc_group claim ==? Some (dl_group line)) lines).

Lemma last_cons_cases {A} (a : A) l :
  last (a :: l) = match last l with Some b => Some b | None => Some a end.
Proof. rewrite last_cons. by destruct (last l). Qed.

Lemma link_lines_Ok cmd ctx claim M prior pl cl lines out :
  (forall g, bt_get g M = prior g) ->
  try_fold (link_line cmd ctx claim M) (pl, cl) lines = Ok out <->
  Forall (link_accounted ctx prior) lines /\
  out = (pl ++ link_plausible cmd prior lines,
         match link_claimed claim prior lines with Some s => Some s | None => cl end).
Proof.
  intros HM. unfold link_plausible, link_claimed. revert pl cl.
  induction lines as [|line lines IH]; intros pl cl; csimpl.
  { rewrite app_nil_r. split; [intros [= <-]; split; [constructor|done]|by intros [_ ->]]. }
  rewrite bind_Ok, list.Forall_cons. unfold link_line at 1. rewrite HM.
  assert (link_accounted ctx prior line <-> exists p, prior (dl_group line) = Some p /\
    (raw p >? raw (dl_packs line)) = false /\
    is_some_and (line_allowance ctx (dl_group line)) (fun allowance =>
      raw p >? raw (ReturnLineAllowance_linkable_quantity allowance)) = false) as ->.
  { unfold link_accounted. setoid_rewrite some_and_false. by setoid_rewrite Z.ltb_ge. }
  setoid_rewrite bind_Ok. setoid_rewrite ok_or_Ok. setoid_rewrite guard_Ok. setoid_rewrite guard_Ok.
  assert (forall p, prior (dl_group line) = Some p -> link_source prior line =
    {| rss_original := line; rss_previously_established_returns := p |}) as Hs.
  { intros p Hp. unfold link_source. by rewrite Hp. }
  split.
  - intros (acc & (p & Hp & H1 & H2 & [= <-]) & (Hf & ->)%IH). split; [split; [by exists p|done]|].
    rewrite <- (Hs p Hp). f_equal.
    + destruct (rr_id (dl_variant line) ==? rtc_variant cmd); csimpl; [by rewrite <- app_assoc|done].
    + destruct (rdc_group claim ==? Some (dl_group line)); [|done]. rewrite last_cons_cases.
      by destruct (last (List.filter _ lines)).
  - intros (((p & Hp & H1 & H2) & Hf) & ->). eexists. split; [exists p; by split_and!|]. apply IH.
    split; [done|]. rewrite <- (Hs p Hp). f_equal.
    + destruct (rr_id (dl_variant line) ==? rtc_variant cmd); csimpl; [by rewrite <- app_assoc|done].
    + destruct (rdc_group claim ==? Some (dl_group line)); [|done]. rewrite last_cons_cases.
      by destruct (last (List.filter _ lines)).
Qed.

Section Links.
Context `{Sha256}.

(** What the recorded departure, the totals and the allowances must satisfy. *)
Record link_context (cmd : ReturnCommand) (ctx : ReturnContext) (claim : ReturnDepartureClaim)
    (d : DepartureRecord) (issued : IdentificationVersion) : Prop := {
  lc_departure : departure_ok d issued;
  lc_hub : der_hub d = rtx_hub ctx;
  lc_claim : der_id d = rdc_departure claim;
  lc_stock : raw (der_stock_revision d) <= raw (rtx_stock_revision ctx);
  lc_catalog : raw (der_catalog_revision d) <= raw (rc_revision (rtx_catalog ctx));
  lc_allowances : forall a, rtx_current_allowances ctx = Some a ->
    allowances_ok a ctx d (dm_lines (iv_material issued));
  lc_totals : NoDup (ert_original_group <$> rtx_established_return_totals ctx) /\
    length (rtx_established_return_totals ctx) = length (dm_lines (iv_material issued));
  lc_lines : Forall (link_accounted ctx (total_for (rtx_established_return_totals ctx)))
    (dm_lines (iv_material issued))
}.

(** The snapshot of a recorded departure. *)
Definition linked (cmd : ReturnCommand) (ctx : ReturnContext) (claim : ReturnDepartureClaim)
    (d : DepartureRecord) (issued : IdentificationVersion) : ReturnLinkSnapshot :=
  let prior := total_for (rtx_established_return_totals ctx) in
  let lines := dm_lines (iv_material issued) in
  let timing := return_timing (der_occurred d) (rtc_occurred cmd) in
  {| rls_claim := Some claim; rls_departure := Some (departure_header d issued);
     rls_claimed_source := link_claimed claim prior lines;
     rls_plausible_sources := link_plausible cmd prior lines; rls_timing := timing;
     rls_resolution :=
       match link_reason cmd ctx claim (link_claimed claim prior lines)
               (link_plausible cmd prior lines) timing with
       | Some reason => ReturnLinkResolution.Unresolved reason
       | None => ReturnLinkResolution.EstablishedScope
       end |}.

Definition link_spec (cmd : ReturnCommand) (ctx : ReturnContext) (s : ReturnLinkSnapshot) : Prop :=
  match rtc_departure cmd, rtx_departure ctx with
  | None, None => rtx_established_return_totals ctx = [] /\ rtx_current_allowances ctx = None /\
      s = unlinked None ReturnLinkResolution.Unknown
  | None, Some _ => False
  | Some claim, None => rtx_established_return_totals ctx = [] /\
      rtx_current_allowances ctx = None /\ s = unlinked (Some claim) ReturnLinkResolution.Unrecorded
  | Some claim, Some d => exists issued, link_context cmd ctx claim d issued /\
      s = linked cmd ctx claim d issued
  end.

Lemma no_totals (ts : list EstablishedReturnTotal) :
  negb (length ts =? 0)%nat = false <-> ts = [].
Proof. by destruct ts. Qed.

Lemma is_some_false {A} (o : option A) : is_some o = false <-> o = None.
Proof. by destruct o. Qed.

Lemma totals_length ts M :
  NoDup (ert_original_group <$> ts) -> bt_wf M ->
  Forall (fun t => bt_get (ert_original_group t) M = None) ts ->
  length (foldl (fun M t => bt_insert (ert_original_group t) (ert_packs t) M) M ts)
  = (length M + length ts)%nat.
Proof.
  revert M. induction ts as [|t ts IH]; intros M; csimpl; [lia|].
  intros [Hn Hd]%NoDup_cons Hw [Ht Hf]%list.Forall_cons. rewrite IH; [|done|by apply bt_insert_wf|].
  - rewrite bt_insert_length, Ht by done. simpl. lia.
  - rewrite !list.Forall_forall in *. intros u Hu. rewrite bt_get_insert. case_decide as E; [|by apply Hf].
    destruct Hn. apply list_elem_of_fmap. by exists u.
Qed.

Lemma resolve_link_Ok cmd ctx s :
  ReturnCommand_resolve_link cmd ctx = Ok s <-> link_spec cmd ctx s.
Proof.
  unfold ReturnCommand_resolve_link, link_spec.
  destruct (rtc_departure cmd) as [claim|]; [destruct (rtx_departure ctx) as [d|]|].
  2:{ rewrite guard_Ok, !orb_false_iff, no_totals, is_some_false.
      split; [by intros [[? ?] [= <-]]|by intros (? & ? & ->)]. }
  2:{ rewrite guard_Ok, !orb_false_iff, no_totals, !is_some_false.
      destruct (rtx_departure ctx) as [d|]; [split; [by intros [[[? _] _] _]|done]|].
      split; [by intros [[[_ ?] ?] [= <-]]|by intros (? & ? & ->)]. }
  rewrite seq_Ok, map_err_Ok, departure_valid_Ok, guard_Ok. split.
  - intros ((issued & Hok) & Hb & (i & Hi & Hk)%bind_Ok). apply ok_or_Ok in Hi.
    rewrite (dok_issued _ _ Hok) in Hi. injection Hi as <-. exists issued.
    apply seq_Ok in Hk as [Hall Hk]. apply guard_Ok in Hk as [Hlen Hk].
    apply bind_Ok in Hk as (M & (Hd & Hf & ->)%insert_totals_Ok & Hk).
    apply guard_Ok in Hk as [_ Hk].
    apply bind_Ok in Hk as ([pl cl] & Hfold & [= <-]).
    apply (link_lines_Ok _ _ _ _ (total_for (rtx_established_return_totals ctx))) in Hfold
      as [Hacc [= -> ->]].
    2:{ intros g. rewrite totals_get by done. by destruct (total_for _ g). }
    breflect. split.
    + constructor; try done. intros a Ha. rewrite Ha in Hall.
      by apply (allowances_validate_Ok _ _ _ _ (dok_issued _ _ Hok)).
    + unfold linked. by destruct (link_claimed _ _ _).
  - intros (issued & [Hok Hh Hc Hs Hcat Hall [Hd Hlen] Hacc] & ->).
    split; [by exists issued|]. split; [autorewrite with reflect; done|].
    rewrite (dok_issued _ _ Hok). cbn [ok_or bind].
    assert (match rtx_current_allowances ctx with
      | Some allowances => ReturnAllowanceCapture_validate allowances ctx d
      | None => Ok tt end = Ok tt) as ->.
    { destruct (rtx_current_allowances ctx) as [a|]; [|done].
      apply (allowances_validate_Ok _ _ _ _ (dok_issued _ _ Hok)). by apply Hall. }
    cbn [bind]. rewrite Hlen, Nat.eqb_refl. cbn [negb].
    assert (Forall (fun t => bt_get (ert_original_group t) ([] : list (HubRecordId * WholePacks)) = None)
      (rtx_established_return_totals ctx)) as Hnil by by apply list.Forall_forall.
    rewrite (proj2 (insert_totals_Ok _ _ _)) by done. cbn [bind].
    rewrite totals_length by (done || apply bt_wf_nil). cbn [length Nat.add]. rewrite Hlen, Nat.eqb_refl.
    cbn [negb]. rewrite (proj2 (link_lines_Ok _ _ _ _ (total_for (rtx_established_return_totals ctx))
      _ _ _ _ ltac:(intros g; rewrite totals_get by done; by destruct (total_for _ g)))) by done.
    cbn [bind]. unfold linked. by destruct (link_claimed _ _ _).
Qed.

Lemma total_within_true p q b : total_within p q b = true <-> raw p + raw q <= raw b.
Proof.
  unfold total_within. pose proof (WholePacks_range b).
  destruct (WholePacks_checked_add p q) as [t|e] eqn:E.
  - apply checked_add_Ok in E. rewrite Z.leb_le. lia.
  - apply checked_add_Err in E as [E _]. split; [done|lia].
Qed.

Lemma linkable_le a n :
  n <= raw (ReturnLineAllowance_linkable_quantity a) <->
  n <= raw (rla_effective_departure a) /\ n <= raw (rla_original_debit_return_bound a).
Proof.
  unfold ReturnLineAllowance_linkable_quantity.
  destruct (Z.ltb_spec (raw (rla_effective_departure a)) (raw (rla_original_debit_return_bound a))); lia.
Qed.

(** The packs fit beside the returns established before, within the departed
    line and within what the captured allowance still links. *)
Definition return_fits (cmd : ReturnCommand) (ctx : ReturnContext) (line : DispatchLineSnapshot)
  : Prop :=
  exists p, total_for (rtx_established_return_totals ctx) (dl_group line) = Some p /\
    raw p + raw (rtc_packs cmd) <= raw (dl_packs line) /\
    forall a, line_allowance ctx (dl_group line) = Some a ->
      rla_unresolved_returns a = false /\
      raw p + raw (rtc_packs cmd) <= raw (rla_effective_departure a) /\
      raw p + raw (rtc_packs cmd) <= raw (rla_original_debit_return_bound a).

Record link_established (cmd : ReturnCommand) (ctx : ReturnContext) (claim : ReturnDepartureClaim)
    (d : DepartureRecord) (issued : IdentificationVersion) (line : DispatchLineSnapshot)
  : Prop := {
  le_line : line ∈ dm_lines (iv_material issued);
  le_claim : rdc_group claim = Some (dl_group line);
  le_variant : rr_id (dl_variant line) = rtc_variant cmd;
  le_fits : return_fits cmd ctx line;
  le_timing : return_timing (der_occurred d) (rtc_occurred cmd) <> ReturnTiming.Contradictory
}.

Definition claimed_line (claim : ReturnDepartureClaim) (issued : IdentificationVersion)
    (line : DispatchLineSnapshot) : Prop :=
  line ∈ dm_lines (iv_material issued) /\ rdc_group claim = Some (dl_group line).

Definition reason_spec (cmd : ReturnCommand) (ctx : ReturnContext) (claim : ReturnDepartureClaim)
    (d : DepartureRecord) (issued : IdentificationVersion) (reason : UnresolvedReturnLink) : Prop :=
  match reason with
  | UnresolvedReturnLink.NoMatchingVariant => rdc_group claim = None /\
      forall line, line ∈ dm_lines (iv_material issued) -> rr_id (dl_variant line) <> rtc_variant cmd
  | UnresolvedReturnLink.OriginalGroupUnknown => rdc_group claim = None /\
      exists line, line ∈ dm_lines (iv_material issued) /\ rr_id (dl_variant line) = rtc_variant cmd
  | UnresolvedReturnLink.ClaimedGroupMissing => is_Some (rdc_group claim) /\
      forall line, ~ claimed_line claim issued line
  | UnresolvedReturnLink.VariantConflict => exists line, claimed_line claim issued line /\
      rr_id (dl_variant line) <> rtc_variant cmd
  | UnresolvedReturnLink.QuantityConflict => exists line, claimed_line claim issued line /\
      rr_id (dl_variant line) = rtc_variant cmd /\ ~ return_fits cmd ctx line
  | UnresolvedReturnLink.TimeConflict => exists line, claimed_line claim issued line /\
      rr_id (dl_variant line) = rtc_variant cmd /\ return_fits cmd ctx line /\
      return_timing (der_occurred d) (rtc_occurred cmd) = ReturnTiming.Contradictory
  end.

Lemma link_claimed_Some claim prior lines s :
  link_claimed claim prior lines = Some s ->
  exists line, line ∈ lines /\ rdc_group claim = Some (dl_group line) /\ s = link_source prior line.
Proof.
  unfold link_claimed. intros (line & Hl & ->)%fmap_Some. exists line.
  apply last_Some_elem_of, list_elem_of_In, List.filter_In in Hl as [Hin Hb%bool_decide_eq_true].
  by rewrite list_elem_of_In.
Qed.

Lemma link_claimed_None claim prior lines line :
  link_claimed claim prior lines = None -> line ∈ lines -> rdc_group claim <> Some (dl_group line).
Proof.
  unfold link_claimed. intros Hn%fmap_None%last_None Hin E.
  assert (line ∈ List.filter (fun line => rdc_group claim ==? Some (dl_group line)) lines) as Hf.
  { apply list_elem_of_In, List.filter_In. rewrite <- list_elem_of_In. by rewrite bool_decide_eq_true. }
  rewrite Hn in Hf. by apply not_elem_of_nil in Hf.
Qed.

Lemma link_plausible_empty cmd prior lines :
  if (length (link_plausible cmd prior lines) =? 0)%nat
  then forall line, line ∈ lines -> rr_id (dl_variant line) <> rtc_variant cmd
  else exists line, line ∈ lines /\ rr_id (dl_variant line) = rtc_variant cmd.
Proof.
  unfold link_plausible. rewrite length_fmap. set (p := fun line => _ ==? rtc_variant cmd).
  assert (forall line, line ∈ List.filter p lines <-> line ∈ lines /\ rr_id (dl_variant line) = rtc_variant cmd)
    as Hf.
  { intros line. rewrite !list_elem_of_In, List.filter_In. unfold p. by rewrite bool_decide_eq_true. }
  destruct (List.filter p lines) as [|line l]; simpl.
  - intros line Hin E. apply (not_elem_of_nil line), Hf. done.
  - exists line. apply Hf. by left.
Qed.

Lemma fits_check cmd ctx line p :
  total_for (rtx_established_return_totals ctx) (dl_group line) = Some p ->
  return_fits cmd ctx line <->
  total_within p (rtc_packs cmd) (dl_packs line) = true /\
  is_some_and (line_allowance ctx (dl_group line)) (fun allowance =>
    rla_unresolved_returns allowance || negb (total_within p (rtc_packs cmd)
      (ReturnLineAllowance_linkable_quantity allowance))) = false.
Proof.
  intros Hp. unfold return_fits. rewrite total_within_true, some_and_false. rewrite Hp.
  setoid_rewrite orb_false_iff. setoid_rewrite negb_false_iff. setoid_rewrite total_within_true.
  setoid_rewrite linkable_le. naive_solver.
Qed.

Lemma link_reason_spec cmd ctx claim d issued :
  link_context cmd ctx claim d issued ->
  match rls_resolution (linked cmd ctx claim d issued) with
  | ReturnLinkResolution.Unresolved reason => reason_spec cmd ctx claim d issued reason
  | ReturnLinkResolution.EstablishedScope =>
      exists line, link_established cmd ctx claim d issued line /\
        ReturnLinkSnapshot_established_group (linked cmd ctx claim d issued) = Some (dl_group line)
  | _ => False
  end.
Proof.
  intros Hc. unfold linked, link_reason. cbn [rls_resolution].
  set (prior := total_for _). set (lines := dm_lines _).
  destruct (rdc_group claim) as [g|] eqn:Eg.
  2:{ pose proof (link_plausible_empty cmd prior lines) as Hpl.
      destruct (link_claimed claim prior lines);
        destruct (length (link_plausible cmd prior lines) =? 0)%nat; by split. }
  destruct (link_claimed claim prior lines) as [s|] eqn:Ec.
  2:{ split; [done|]. intros line [Hin Hcl]. by eapply link_claimed_None in Ec. }
  apply link_claimed_Some in Ec as (line & Hin & Hg & ->). cbn [link_source rss_original
    rss_previously_established_returns].
  pose proof (lc_lines _ _ _ _ _ Hc) as Hacc. rewrite list.Forall_forall in Hacc.
  destruct (Hacc line Hin) as (p & Hp & _). fold prior in Hp. rewrite Hp. change (default zero_packs (Some p)) with p.
  pose proof (fits_check cmd ctx line p Hp) as Hfit.
  case_bool_decide as Hv; cbn [negb]; [|by exists line].
  destruct (total_within p (rtc_packs cmd) (dl_packs line)); cbn [negb].
  2:{ exists line. split_and!; [done..|]. intros [? _]%Hfit. done. }
  destruct (is_some_and (line_allowance ctx (dl_group line)) _).
  { exists line. split_and!; [done..|]. intros [_ ?]%Hfit. done. }
  case_bool_decide as Ht; [exists line; split_and!; try done; by apply Hfit|].
  exists line. split; [constructor; try done; by apply Hfit|].
  unfold ReturnLinkSnapshot_established_group. cbn [rls_resolution rls_claim].
  by rewrite bool_decide_eq_true_2.
Qed.

(** C12: a resolved link says exactly what the records support.  It is
    established only for a claimed line of the recorded departure with the
    returned variant, when the packs fit beside the returns established before,
    within the departed packs and within the captured allowance, and the times
    do not contradict it; every other outcome names the first reason in the
    way. *)
Theorem return_link_correct cmd ctx s :
  ReturnCommand_resolve_link cmd ctx = Ok s ->
  match rls_resolution s with
  | ReturnLinkResolution.Unknown => rtc_departure cmd = None
  | ReturnLinkResolution.Unrecorded => is_Some (rtc_departure cmd) /\ rtx_departure ctx = None
  | ReturnLinkResolution.Unresolved reason => exists claim d issued,
      rtc_departure cmd = Some claim /\ rtx_departure ctx = Some d /\
      link_context cmd ctx claim d issued /\ reason_spec cmd ctx claim d issued reason
  | ReturnLinkResolution.EstablishedScope => exists claim d issued line,
      rtc_departure cmd = Some claim /\ rtx_departure ctx = Some d /\
      link_context cmd ctx claim d issued /\ link_established cmd ctx claim d issued line /\
      ReturnLinkSnapshot_established_group s = Some (dl_group line)
  end.
Proof.
  rewrite resolve_link_Ok. unfold link_spec.
  destruct (rtc_departure cmd) as [claim|]; destruct (rtx_departure ctx) as [d|]; try done.
  - intros (issued & Hc & ->). pose proof (link_reason_spec _ _ _ _ _ Hc) as Hr.
    destruct (rls_resolution (linked cmd ctx claim d issued)) as [| |reason|]; try done.
    + by exists claim, d, issued.
    + destruct Hr as (line & ? & ?). by exists claim, d, issued, line.
  - intros (_ & _ & ->). by split.
  - by intros (_ & _ & ->).
Qed.
End Links.

(** ** What a planned return promises *)

Section Plans.
Context `{Sha256}.

Lemma repeats_earlier_false earlier l :
  repeats_earlier earlier l = false <-> NoDup l /\ forall id, id ∈ l -> id ∉ earlier.
Proof.
  revert earlier. induction l as [|id l IH]; intros earlier; simpl.
  { split; [intros _; split; [constructor|by intros ? ?%not_elem_of_nil]|done]. }
  rewrite orb_false_iff, IH, NoDup_cons.
  assert (existsb (fun other => other ==? id) earlier = false <-> id ∉ earlier) as ->.
  { rewrite <- not_true_iff_false, existsb_exists. setoid_rewrite bool_decide_eq_true.
    setoid_rewrite <- list_elem_of_In. naive_solver. }
  setoid_rewrite elem_of_app. setoid_rewrite elem_of_cons. naive_solver set_solver.
Qed.

Lemma return_identities_Ok ids :
  ReturnIdentities_validate ids = Ok tt <->
  ReturnIdentities_from_operation_bytes (rti_operation ids) = Ok ids /\ NoDup (return_ids ids).
Proof.
  unfold ReturnIdentities_validate. rewrite bind_Ok. setoid_rewrite guard_Ok. setoid_rewrite guard_Ok.
  setoid_rewrite repeats_earlier_false. setoid_rewrite negb_false_iff.
  setoid_rewrite bool_decide_eq_true. split.
  - by intros (d & Hd & -> & [Hn _] & _).
  - intros [Hd Hn]. exists ids. split_and!; try done. by intros ? _ ?%not_elem_of_nil.
Qed.

Lemma return_next_Ok r r' : return_next r = Ok r' <-> raw r' = raw r + 1.
Proof. unfold return_next. by rewrite map_err_Ok, HubRevision_next_Ok. Qed.

(** When a return is accepted, and the plan it then has. *)
Record return_facts (self : ReturnCommand) (ctx : ReturnContext) (ids : ReturnIdentities)
    (actor : PublicKey) (now : UnixTimestamp) (p : ReturnPlan) : Prop := {
  tf_identities : ReturnIdentities_from_operation_bytes (rti_operation ids) = Ok ids /\
    NoDup (return_ids ids);
  tf_fresh : rtc_expected_stock_revision self = rtx_stock_revision ctx /\
    rtc_expected_catalog_revision self = rc_revision (rtx_catalog ctx);
  tf_packs : 0 < raw (rtc_packs self);
  tf_occurred : Occurrence_validate (rtc_occurred self) now = Ok tt;
  tf_variant : exists product label grams,
    bt_get (rtc_variant self) (rc_records (rtx_catalog ctx)) = Some (rin_variant (rtp_intake p)) /\
    rr_value (rin_variant (rtp_intake p)) = ReferenceValue.Pack product label grams /\
    bt_get product (rc_records (rtx_catalog ctx)) = Some (rin_product (rtp_intake p)) /\
    ReferenceValue_kind (rr_value (rin_product (rtp_intake p))) = ReferenceKind.Product;
  tf_location : bt_get (rtc_location self) (rc_records (rtx_catalog ctx))
      = Some (rin_location (rtp_intake p)) /\
    ReferenceValue_kind (rr_value (rin_location (rtp_intake p))) = ReferenceKind.Location;
  tf_returned_by : optional_record (rtx_catalog ctx) ReferenceKind.Party (rtc_returned_by self)
    (rin_returned_by (rtp_intake p));
  tf_issuer : match rtc_source self with
    | SourceAttribution.Unknown => rin_source_issuer (rtp_intake p) = None
    | SourceAttribution.Referenced s _ => optional_record (rtx_catalog ctx) ReferenceKind.Party
        (sr_issuer s) (rin_source_issuer (rtp_intake p))
    end;
  tf_target : rtc_planned_location self <> Some (rtc_location self);
  tf_planned : optional_record (rtx_catalog ctx) ReferenceKind.Location
    (rtc_planned_location self) (rin_planned_location (rtp_intake p));
  tf_next : raw (rtp_stock_revision p) = raw (rtx_stock_revision ctx) + 1;
  tf_link : link_spec self ctx (rtp_linkage p);
  tf_work : rtp_intake_work p = intake_requirement self ids <$> rin_planned_location (rtp_intake p);
  tf_group : rtp_group p = returned_group self ids (rtp_intake_work p);
  tf_review : rtp_acceptance p = AcceptanceStatus.ReviewRequired;
  tf_stamp : rtp_identities p = ids /\ rtp_catalog_revision p = rc_revision (rtx_catalog ctx) /\
    rtp_current_allowances p = rtx_current_allowances ctx /\
    rin_population (rtp_intake p) = rti_population ids /\ rin_packs (rtp_intake p) = rtc_packs self /\
    rin_source (rtp_intake p) = rtc_source self /\ rin_occurred (rtp_intake p) = rtc_occurred self /\
    rin_actor (rtp_intake p) = actor /\ rin_recorded_at (rtp_intake p) = now /\
    rin_observation (rtp_intake p) = rtc_observation self
}.

(** The group of an accepted return is always valid. *)
Lemma returned_group_ok self ids target :
  0 < raw (rtc_packs self) ->
  (forall t, target = Some t -> ReferenceValue_kind (rr_value t) = ReferenceKind.Location /\
    rr_id t <> rtc_location self) ->
  group_ok (returned_group self ids (intake_requirement self ids <$> target)).
Proof.
  intros Hp Ht. constructor; simpl; try done.
  - destruct target; simpl; unfold HUB_GROUP_REQUIREMENTS; lia.
  - destruct target; simpl; [apply NoDup_singleton|constructor].
  - destruct target as [t|]; simpl; [|constructor]. destruct (Ht t eq_refl) as [Hk Hn].
    apply list.Forall_singleton. constructor; simpl; try done; [|by intros _ ? [= <-]].
    unfold WorkRequirement_validate. simpl. rewrite Hk, bool_decide_eq_true_2 by done. simpl.
    change (required (QuantityWork_pending (rtc_packs self))) with (rtc_packs self).
    by rewrite (proj2 (Z.eqb_neq (raw (rtc_packs self)) 0)) by lia.
Qed.

Lemma return_plan_Ok self ctx ids actor now p :
  catalog_wf (rtx_catalog ctx) ->
  ReturnCommand_plan self ctx ids actor now = Ok p <-> return_facts self ctx ids actor now p.
Proof.
  intros Hcw. unfold ReturnCommand_plan. split.
  - intros Hp. run_ok. rewrite return_identities_Ok, return_next_Ok, resolve_link_Ok, require_kind_Ok,
      transpose_kind_Ok, resolve_source_issuer_Ok in *. breflect. destruct_and?.
    pose proof (WholePacks_range (rtc_packs self)).
    constructor; simpl; try done; [lia|].
    by eexists _, _, _.
  - intros [Hid [F1 F2] Hp Ho (product & label & grams & V1 & V2 & V3 & V4) [L1 L2] Hr Hi Ht Hpl Hn
      Hl Hw Hg Hrv (S1 & S2 & S3 & S4 & S5 & S6 & S7 & S8 & S9 & S10)].
    rewrite (proj2 (return_identities_Ok ids)) by done. cbn [bind].
    rewrite !bool_decide_eq_true_2 by done. cbn [negb orb].
    rewrite (proj2 (Z.eqb_neq _ _)) by lia. rewrite Ho. cbn [map_err bind].
    rewrite (proj2 (require_kind_Ok _ _ _ (rin_variant (rtp_intake p)))) by (rewrite V2; done).
    cbn [map_err bind]. rewrite V2. cbn [bind].
    rewrite (proj2 (require_kind_Ok _ _ _ (rin_product (rtp_intake p)))) by done.
    rewrite (proj2 (require_kind_Ok _ _ _ (rin_location (rtp_intake p)))) by done.
    cbn [map_err bind]. rewrite (proj2 (transpose_kind_Ok _ _ _ _) Hr).
    rewrite (proj2 (resolve_source_issuer_Ok _ _ _) Hi). cbn [map_err bind].
    rewrite bool_decide_eq_false_2 by done. rewrite (proj2 (transpose_kind_Ok _ _ _ _) Hpl).
    cbn [map_err bind]. rewrite (proj2 (validate_Ok _)).
    2:{ apply returned_group_ok; [done|]. intros t E. rewrite E in Hpl.
        destruct (rtc_planned_location self) as [id|]; [|done]. destruct Hpl as [Hg' ?].
        split; [done|]. rewrite (cw_keys _ Hcw _ _ Hg'). congruence. }
    cbn [map_err bind]. rewrite (proj2 (return_next_Ok _ (rtp_stock_revision p))) by done. cbn [bind].
    rewrite (proj2 (resolve_link_Ok _ _ _) Hl). cbn [bind]. f_equal.
    destruct p as [? ? ? [] ? ? ? ? ?]; simpl in *. by subst.
Qed.

(** A return is accepted exactly when its identities derive from its
    operation, it is fresh, its references are in the catalog and its link can
    be resolved; the plan is then fixed: new custody of the returned packs with
    its own trace, under review, at the next stock revision, whose only work is
    the explicitly planned one - never the work, the acceptance or the custody
    of the departed line. *)
Theorem return_plan_correct self ctx ids actor now p :
  catalog_wf (rtx_catalog ctx) ->
  ReturnCommand_plan self ctx ids actor now = Ok p <-> return_facts self ctx ids actor now p.
Proof. apply return_plan_Ok. Qed.

(** ** Histories of established returns *)

(** [t'] is [t] with the packs of a return established for group [g] added. *)
Definition credited (g : HubRecordId) (packs : WholePacks) (t t' : EstablishedReturnTotal) : Prop :=
  ert_original_group t' = ert_original_group t /\
  raw (ert_packs t') = raw (ert_packs t) + (if ert_original_group t ==? g then raw packs else 0).

(** One accepted return established for a line of departure [d]: the totals it
    was planned against, and the totals after it. *)
Inductive establishes (d : DepartureRecord)
  : list EstablishedReturnTotal -> list EstablishedReturnTotal -> Prop :=
| establishes_step cmd ctx ids actor now p g totals' :
    ReturnCommand_plan cmd ctx ids actor now = Ok p -> rtx_departure ctx = Some d ->
    ReturnLinkSnapshot_established_group (rtp_linkage p) = Some g ->
    Forall2 (credited g (rtc_packs cmd)) (rtx_established_return_totals ctx) totals' ->
    establishes d (rtx_established_return_totals ctx) totals'.

Lemma plan_link self ctx ids actor now p :
  ReturnCommand_plan self ctx ids actor now = Ok p ->
  ReturnCommand_resolve_link self ctx = Ok (rtp_linkage p).
Proof. unfold ReturnCommand_plan. intros Hp. by run_ok. Qed.

Lemma established_link cmd ctx s d g :
  ReturnCommand_resolve_link cmd ctx = Ok s -> rtx_departure ctx = Some d ->
  ReturnLinkSnapshot_established_group s = Some g ->
  exists claim issued line, link_context cmd ctx claim d issued /\
    link_established cmd ctx claim d issued line /\ dl_group line = g.
Proof.
  rewrite resolve_link_Ok. unfold link_spec. intros Hs Hd Hg. rewrite Hd in Hs.
  destruct (rtc_departure cmd) as [claim|]; [|done]. destruct Hs as (issued & Hc & ->).
  pose proof (link_reason_spec _ _ _ _ _ Hc) as Hr.
  destruct (rls_resolution (linked cmd ctx claim d issued)) eqn:E; try done.
  - exfalso. unfold ReturnLinkSnapshot_established_group in Hg. by rewrite E in Hg.
  - destruct Hr as (line & He & Hl). exists claim, issued, line. split_and!; try done. congruence.
Qed.

Lemma total_for_elem ts t :
  NoDup (ert_original_group <$> ts) -> t ∈ ts -> total_for ts (ert_original_group t) = Some (ert_packs t).
Proof.
  unfold total_for. intros Hn Ht.
  destruct (List.find _ ts) as [u|] eqn:E.
  - apply List.find_some in E as [Hu%list_elem_of_In Hb%bool_decide_eq_true]. simpl.
    by rewrite (NoDup_fmap_elem ert_original_group ts u t).
  - apply (List.find_none _ _) with (x := t) in E; [|by apply list_elem_of_In].
    by rewrite bool_decide_eq_true_2 in E.
Qed.

(** Totals within the departed packs of their lines. *)
Definition within_departed (issued : IdentificationVersion) (ts : list EstablishedReturnTotal) : Prop :=
  forall t line, t ∈ ts -> line ∈ dm_lines (iv_material issued) ->
    ert_original_group t = dl_group line -> raw (ert_packs t) <= raw (dl_packs line).

Lemma establishes_within d issued ts ts' :
  last (dr_versions (der_paper d)) = Some issued -> establishes d ts ts' -> within_departed issued ts'.
Proof.
  intros Hl [cmd ctx ids actor now p g totals' Hp%plan_link Hd Hg Hf] t' line Ht' Hline Hgr.
  destruct (established_link _ _ _ _ _ Hp Hd Hg) as (claim & issued' & line0 & Hc & He & <-).
  pose proof (lc_departure _ _ _ _ _ Hc) as Hok. rewrite (dok_issued _ _ Hok) in Hl. injection Hl as ->.
  destruct (lc_totals _ _ _ _ _ Hc) as [Hdis _]. pose proof (lc_lines _ _ _ _ _ Hc) as Hacc.
  rewrite list.Forall_forall in Hacc.
  apply list_elem_of_lookup in Ht' as (i & Hi).
  destruct (Forall2_lookup_r _ _ _ _ _ Hf Hi) as (t & Hti & Hgt & Hpk).
  apply list_elem_of_lookup_2 in Hti. pose proof (total_for_elem _ t Hdis Hti) as Htot.
  rewrite <- Hgt, Hgr in Htot. rewrite Hpk. case_bool_decide as Eg.
  - assert (key_sorted dl_group (dm_lines (iv_material issued))) as Hks.
    { pose proof (dok_issued _ _ Hok) as (es & Hes)%last_Some.
      apply (vo_material _ _ _ _ (ro_versions _ (dok_paper _ _ Hok) (length es) issued
        ltac:(by rewrite Hes, list_lookup_middle))). }
    rewrite (key_sorted_inj dl_group _ line line0 Hks Hline (le_line _ _ _ _ _ _ He)) in *
      by congruence.
    destruct (le_fits _ _ _ _ _ _ He) as (q & Hq & Hle & _). rewrite Hq in Htot. injection Htot as <-. lia.
  - destruct (Hacc line Hline) as (q & Hq & Hle & _). rewrite Hq in Htot. injection Htot as <-. lia.
Qed.

(** C9: however many returns are established against a departure, one after the
    other and each planned against the totals the ones before left, the packs
    returned for a line never exceed the packs that departed on it. *)
Theorem returns_bounded d issued ts ts' :
  last (dr_versions (der_paper d)) = Some issued ->
  Forall (fun t => raw (ert_packs t) = 0) ts -> rtc (establishes d) ts ts' ->
  within_departed issued ts'.
Proof.
  intros Hl Hz Hr. apply rtc_inv_r in Hr as [->|(ts1 & _ & Hs)].
  - intros t line Ht _ _. rewrite list.Forall_forall in Hz. rewrite (Hz t Ht).
    apply WholePacks_range.
  - by eapply establishes_within.
Qed.
End Plans.

(** ** Sealing an accepted return *)

Section Seals.
Context `{Sha256}.

Lemma departure_digest_total input d issued :
  departure_ok d issued -> exists digest, departure_result_digest input d = Ok digest.
Proof.
  intros Hok. unfold departure_result_digest, dispatch_result_digest.
  rewrite (proj2 (departure_valid_Ok d)) by by exists issued.
  rewrite (proj2 (record_validate_Ok _)) by apply Hok. by eexists.
Qed.

Lemma u32_range_small n : (n <= 64)%nat -> u32_range (Z.of_nat n) = true.
Proof. intros Hn. unfold u32_range. apply andb_true_iff. rewrite Z.leb_le, Z.ltb_lt. lia. Qed.

Lemma issued_lines_bound d issued :
  departure_ok d issued -> (length (dm_lines (iv_material issued)) <= 64)%nat.
Proof.
  intros Hok. rewrite <- (Forall2_length _ _ _ (dok_consumed _ _ Hok)).
  apply (departure_consumed_ok _ _ Hok).
Qed.

(** The departure, the totals and the allowances of a resolvable link can all be
    written into the seal. *)
Lemma link_sealable cmd ctx s :
  link_spec cmd ctx s ->
  (exists o, transpose_map (fun d => map_err ReturnError.Departure
    (departure_result_digest zero_input d)) (rtx_departure ctx) = Ok o) /\
  (length (rtx_established_return_totals ctx) <= 64)%nat /\
  forall a, rtx_current_allowances ctx = Some a -> (length (rac_lines a) <= 64)%nat.
Proof.
  unfold link_spec. intros Hs.
  destruct (rtc_departure cmd) as [claim|], (rtx_departure ctx) as [d|]; try done.
  - destruct Hs as (issued & Hc & _). pose proof (lc_departure _ _ _ _ _ Hc) as Hok.
    pose proof (issued_lines_bound _ _ Hok). split_and!.
    + destruct (departure_digest_total zero_input d issued Hok) as [o Ho]. exists (Some o).
      apply transpose_map_Ok. exists o. by rewrite Ho.
    + by rewrite (proj2 (lc_totals _ _ _ _ _ Hc)).
    + intros a Ha. destruct (lc_allowances _ _ _ _ _ Hc a Ha) as [_ _ _ _ [-> ?] _ _]. lia.
  - destruct Hs as (-> & -> & _). split_and!; [by exists None|simpl; lia|done].
  - destruct Hs as (-> & -> & _). split_and!; [by exists None|simpl; lia|done].
Qed.

Lemma optional_record_kind catalog kind id r v :
  optional_record catalog kind id r -> r = Some v ->
  ReferenceValue_kind (rr_value v) = kind /\ exists k, id = Some k /\ bt_get k (rc_records catalog) = Some v.
Proof. destruct id, r; simpl; try done. intros [? ?] [= <-]. eauto. Qed.

Lemma return_population_valid self ctx ids actor now p input :
  catalog_wf (rtx_catalog ctx) -> return_facts self ctx ids actor now p ->
  exists d, return_population_digest input (rtx_hub ctx) (rtp_catalog_revision p) ids
    (ReturnPlan_population p) = Ok d.
Proof.
  intros Hcw Hf. destruct (tf_stamp _ _ _ _ _ _ Hf) as (S1 & S2 & _ & S4 & S5 & S6 & S7 & _ & S9 & _).
  destruct (tf_variant _ _ _ _ _ _ Hf) as (product & label & grams & V1 & V2 & V3 & V4).
  destruct (tf_location _ _ _ _ _ _ Hf) as [L1 L2].
  pose proof (tf_planned _ _ _ _ _ _ Hf) as Hpl. pose proof (tf_issuer _ _ _ _ _ _ Hf) as His.
  assert (forall k v, bt_get k (rc_records (rtx_catalog ctx)) = Some v ->
    (raw (rr_revision v) >? raw (rtp_catalog_revision p)) = false) as Hrev.
  { intros k v Hk. rewrite S2. apply Z.ltb_ge. by eapply (cw_revisions _ Hcw). }
  unfold return_population_digest. rewrite (proj2 (return_identities_Ok ids)) by apply Hf. cbn [bind].
  unfold ReturnPlan_population. cbn [sp_id sp_origin sp_original_packs sp_supplier sp_producer
    sp_product sp_variant sp_initial_location sp_planned_location sp_occurred sp_recorded_at
    sp_source sp_source_issuer is_some].
  rewrite S1, S4, S5, S6, S7, S9, V2, V4, L2, (cw_keys _ Hcw _ _ V3).
  rewrite !bool_decide_eq_true_2 by done. cbn [negb orb].
  rewrite (proj2 (Z.eqb_neq _ _)) by (pose proof (tf_packs _ _ _ _ _ _ Hf); lia). cbn [orb].
  assert (is_some_and (rin_planned_location (rtp_intake p)) (fun target =>
    (ReferenceValue_kind (rr_value target) !=? ReferenceKind.Location)
    || (rr_id target ==? rr_id (rin_location (rtp_intake p)))) = false) as ->.
  { apply some_and_false. intros t Ht. destruct (optional_record_kind _ _ _ _ _ Hpl Ht) as (-> & k & Hk & Hkg).
    rewrite bool_decide_eq_true_2, bool_decide_eq_false_2; [done| |done].
    rewrite (cw_keys _ Hcw _ _ Hkg), (cw_keys _ Hcw _ _ L1). pose proof (tf_target _ _ _ _ _ _ Hf). congruence. }
  rewrite (tf_occurred _ _ _ _ _ _ Hf). cbn [map_err bind].
  assert (match rtc_source self with
    | SourceAttribution.Unknown => None
    | SourceAttribution.Referenced source _ => sr_issuer source end
      = rr_id <$> rin_source_issuer (rtp_intake p) /\
    forall v, rin_source_issuer (rtp_intake p) = Some v ->
      ReferenceValue_kind (rr_value v) = ReferenceKind.Party /\
      (raw (rr_revision v) >? raw (rtp_catalog_revision p)) = false) as [-> Hissuer].
  { destruct (rtc_source self) as [|source c]; [by rewrite His|].
    destruct (rin_source_issuer (rtp_intake p)) as [v|], (sr_issuer source) as [k|]; try done.
    destruct His as [Hk Hv]. split; [simpl; by rewrite (cw_keys _ Hcw _ _ Hk)|].
    intros w [= <-]. split; [done|by eapply Hrev]. }
  rewrite bool_decide_eq_true_2 by done. cbn [negb orb].
  rewrite (proj2 (some_and_false _ _)).
  2:{ intros v Hv. by rewrite (proj1 (Hissuer v Hv)), bool_decide_eq_true_2. }
  cbn [existsb]. rewrite (Hrev _ _ V1), (Hrev _ _ V3), (Hrev _ _ L1). cbn [orb].
  rewrite (proj2 (some_and_false _ _)) by (intros v Hv; apply (Hissuer v Hv)). cbn [orb].
  rewrite (proj2 (some_and_false _ _)); [by eexists|].
  intros v Hv. destruct (optional_record_kind _ _ _ _ _ Hpl Hv) as (_ & k & _ & Hk). by eapply Hrev.
Qed.

(** Every accepted return can be sealed, and only with its own command: the
    digest of its population and the digest of its result against the
    fingerprint of the command are always defined, and a result digest is
    defined for no record that replanning does not reproduce. *)
Theorem return_sealable self ctx ids actor now p :
  catalog_wf (rtx_catalog ctx) -> ReturnCommand_plan self ctx ids actor now = Ok p ->
  (exists d, return_result_digest (ReturnCommand_fingerprint self (rtx_hub ctx) actor ids)
    self ctx p = Ok d) /\
  (forall input, exists d, return_population_digest input (rtx_hub ctx) (rtp_catalog_revision p) ids
    (ReturnPlan_population p) = Ok d) /\
  (forall input r d, return_result_digest input self ctx r = Ok d ->
    rtp_identities r = ids -> rin_actor (rtp_intake r) = actor ->
    rin_recorded_at (rtp_intake r) = now ->
    r = p /\ input = ReturnCommand_fingerprint self (rtx_hub ctx) actor ids).
Proof.
  intros Hcw Hp. pose proof (proj1 (return_plan_Ok _ _ _ _ _ _ Hcw) Hp) as Hf.
  destruct (tf_stamp _ _ _ _ _ _ Hf) as (S1 & _ & _ & _ & _ & _ & _ & S8 & S9 & _).
  split_and!.
  - destruct (link_sealable _ _ _ (tf_link _ _ _ _ _ _ Hf)) as ([o Ho] & Ht & Ha).
    unfold return_result_digest. rewrite S1, S8, S9, bool_decide_eq_true_2 by done. cbn [negb].
    rewrite Hp. cbn [bind]. rewrite bool_decide_eq_true_2 by done. cbn [negb]. rewrite Ho. cbn [bind].
    rewrite (u32_range_small _ Ht). cbn [negb].
    destruct (rtx_current_allowances ctx) as [a|]; [|by eexists].
    unfold ReturnAllowanceCapture_hash_into. rewrite (u32_range_small _ (Ha a eq_refl)). by eexists.
  - intros input. by eapply return_population_valid.
  - intros input r d Hd <- <- <-. unfold return_result_digest in Hd.
    apply guard_Ok in Hd as [Hfp Hd]. apply bind_Ok in Hd as (plan & Hplan & Hd).
    apply guard_Ok in Hd as [Heq _]. rewrite Hp in Hplan. injection Hplan as <-.
    apply negb_false_iff, bool_decide_eq_true in Hfp, Heq. done.
Qed.
End Seals.

(** ** A concrete return *)

(** Three of the ten packs of [sample_departed] come back, then three more. *)
Definition sample_return (stock : Z) (departure : HubRecordId) : ReturnCommand :=
  {| rtc_expected_stock_revision := sample_revision stock;
     rtc_expected_catalog_revision := sample_revision 7;
     rtc_variant := sample_id 12; rtc_location := sample_id 21; rtc_returned_by := None;
     rtc_source := SourceAttribution.Unknown; rtc_packs := sample_packs 3;
     rtc_identification := sample_identification; rtc_planned_location := Some (sample_id 22);
     rtc_departure := Some {| rdc_departure := departure; rdc_group := Some (sample_id 51) |};
     rtc_occurred := Occurrence.Known (sample_time 260);
     rtc_observation := sample_provenance "Brought back" |}.
Definition sample_totals (packs : Z) : list EstablishedReturnTotal :=
  [{| ert_original_group := sample_id 51; ert_packs := sample_packs packs |}].
Definition sample_return_context (stock packs : Z) (d : DepartureRecord) : ReturnContext :=
  {| rtx_hub := sample_hub; rtx_stock_revision := sample_revision stock;
     rtx_catalog := sample_catalog; rtx_departure := Some d;
     rtx_established_return_totals := sample_totals packs; rtx_current_allowances := None |}.
Definition sample_return_ids (operation : Z) : ReturnIdentities :=
  match @ReturnIdentities_from_operation_bytes sample_sha256 (sample_id operation) with
  | Ok ids => ids
  | Err _ => {| rti_operation := sample_id 1; rti_returned := sample_id 1;
                rti_population := sample_id 1; rti_group := sample_id 1;
                rti_source := sample_id 1; rti_requirement := sample_id 1 |}
  end.
Abbreviation sample_return_plan stock packs operation d :=
  (@ReturnCommand_plan sample_sha256 (sample_return stock (der_id d))
    (sample_return_context stock packs d) (sample_return_ids operation) (sample_key 1)
    (sample_time 270)).

Definition established_at (r : result ReturnPlan ReturnError) (g : HubRecordId) : bool :=
  match r with
  | Ok p => ReturnLinkSnapshot_established_group (rtp_linkage p) ==? Some g
  | Err _ => false
  end.
Lemma established_at_Ok r g : established_at r g = true ->
  exists p, r = Ok p /\ ReturnLinkSnapshot_established_group (rtp_linkage p) = Some g.
Proof. destruct r as [p|]; [|done]. intros E%bool_decide_eq_true. by exists p. Qed.

Lemma sample_returned : exists d issued p q,
  last (dr_versions (der_paper d)) = Some issued /\
  sample_return_plan 10 0 95 d = Ok p /\
  ReturnLinkSnapshot_established_group (rtp_linkage p) = Some (sample_id 51) /\
  sample_return_plan 11 3 96 d = Ok q /\
  ReturnLinkSnapshot_established_group (rtp_linkage q) = Some (sample_id 51).
Proof.
  assert (match sample_paper with
    | Some paper => match sample_departure_plan paper with
        | Ok d => is_some (last (dr_versions (der_paper d)))
            && established_at (sample_return_plan 10 0 95 d) (sample_id 51)
            && established_at (sample_return_plan 11 3 96 d) (sample_id 51)
        | Err _ => false end
    | None => false end = true) as H by (vm_compute; reflexivity).
  destruct sample_paper as [paper|]; [|done].
  destruct (sample_departure_plan paper) as [d|]; [|done]. exists d.
  apply andb_true_iff in H as [[[issued Hi]%is_some_true (p & Hp & Hgp)%established_at_Ok]%andb_true_iff
    (q & Hq & Hgq)%established_at_Ok].
  exists issued, p, q. exact (conj Hi (conj Hp (conj Hgp (conj Hq Hgq)))).
Qed.

Lemma return_timing_correct_witness :
  return_timing (Occurrence.Interval (sample_time 10) (sample_time 20))
    (Occurrence.Known (sample_time 9)) = ReturnTiming.Contradictory /\
  raw (sample_time 9) < raw (sample_time 15).
Proof.
  split; [vm_compute; reflexivity|].
  exact (return_timing_correct (Occurrence.Interval (sample_time 10) (sample_time 20))
    (Occurrence.Known (sample_time 9)) ltac:(vm_compute; discriminate) I
    (sample_time 15) (sample_time 9) ltac:(vm_compute; split; discriminate) eq_refl).
Defined.

Lemma return_link_correct_witness : exists cmd ctx s,
  @ReturnCommand_resolve_link sample_sha256 cmd ctx = Ok s /\
  ReturnLinkSnapshot_established_group s = Some (sample_id 51) /\
  exists line, return_fits cmd ctx line.
Proof.
  destruct sample_returned as (d & issued & p & q & _ & Hp & Hg & _).
  apply (@plan_link sample_sha256) in Hp. eexists _, _, _. split; [exact Hp|]. split; [exact Hg|].
  pose proof (@return_link_correct sample_sha256 _ _ _ Hp) as H.
  unfold ReturnLinkSnapshot_established_group in Hg.
  destruct (rls_resolution (rtp_linkage p)) as [| |reason|]; try discriminate Hg.
  destruct H as (claim & d' & i' & line & _ & _ & _ & He & _). exists line.
  exact (le_fits _ _ _ _ _ _ He).
Defined.

Lemma return_plan_correct_witness : exists d p,
  sample_return_plan 10 0 95 d = Ok p /\ rtp_acceptance p = AcceptanceStatus.ReviewRequired.
Proof.
  destruct sample_returned as (d & issued & p & q & _ & Hp & _). exists d, p. split; [exact Hp|].
  exact (tf_review _ _ _ _ _ _ (proj1 (@return_plan_correct sample_sha256
    (sample_return 10 (der_id d)) (sample_return_context 10 0 d) (sample_return_ids 95)
    (sample_key 1) (sample_time 270) p sample_catalog_wf) Hp)).
Defined.

Lemma returns_bounded_witness : exists d issued,
  last (dr_versions (der_paper d)) = Some issued /\ within_departed issued (sample_totals 6).
Proof.
  destruct sample_returned as (d & issued & p & q & Hl & Hp & Hgp & Hq & Hgq).
  exists d, issued. split; [exact Hl|].
  apply (@returns_bounded sample_sha256 d issued (sample_totals 0) (sample_totals 6) Hl).
  - repeat constructor.
  - apply (rtc_l _ _ (sample_totals 3)); [|apply rtc_once].
    + apply (establishes_step d _ (sample_return_context 10 0 d) _ _ _ p (sample_id 51) _
        Hp eq_refl Hgp). repeat constructor.
    + apply (establishes_step d _ (sample_return_context 11 3 d) _ _ _ q (sample_id 51) _
        Hq eq_refl Hgq). repeat constructor.
Defined.

Lemma return_sealable_witness : exists d p digest,
  sample_return_plan 10 0 95 d = Ok p /\
  @return_result_digest sample_sha256 (@ReturnCommand_fingerprint sample_sha256
    (sample_return 10 (der_id d)) sample_hub (sample_key 1) (sample_return_ids 95))
    (sample_return 10 (der_id d)) (sample_return_context 10 0 d) p = Ok digest.
Proof.
  destruct sample_returned as (d & issued & p & q & _ & Hp & _). exists d, p.
  destruct (proj1 (@return_sealable sample_sha256 (sample_return 10 (der_id d))
    (sample_return_context 10 0 d) (sample_return_ids 95) (sample_key 1) (sample_time 270) p
    sample_catalog_wf Hp)) as [digest Hd].
  exists digest. split; [exact Hp|exact Hd].
Defined.
