(* ===== verification/Counts.v ===== *)
(** * Counts and their reconciliation

    [hub/counts.rs] with its [reconcile], [surplus] and [result] modules: a
    count is recorded as an observation of one group, reviewed against the
    current state, and posted as no variance, a shortage that reduces the group
    and retires pending work, or a surplus that becomes separately identified
    stock under review. *)

From Stdlib Require Import Bool ZArith Lia String List.
From stdpp Require Import base decidable option list numbers sets relations.
From S2P Require Import Prelude Containers Encoding Hub Reference Catalog Stock Movement Work Lineage Treatment Dispatch Departure Custody.

Definition HUB_COUNT_CAPACITY : nat := 4096.

Module CountError.
Inductive CountError :=
| Reference (e : HubReferenceError)
| Movement (e : MovementError)
| Stock (e : StockError)
| StaleRevision
| RevisionExhausted
| InvalidHistory
| InvalidInput
| ReviewRequired.
End CountError.
Abbreviation CountError := CountError.CountError.

Definition count_next (value : HubRevision) : result HubRevision CountError :=
  map_err (fun _ => CountError.RevisionExhausted) (HubRevision_next value).

(** ** Contexts, scopes and observations *)

Record CountObservationContext := {
  cox_hub : HubId;
  cox_stock_revision : HubRevision;
  cox_catalog : ReferenceCatalog;
  cox_group : PhysicalStockGroup;
  cox_latest_physical_recorded_at : UnixTimestamp;
  cox_previous_reconciliation : option HubRecordId
}.

Record CountContext := {
  ctx_hub : HubId;
  ctx_stock_revision : HubRevision;
  ctx_catalog : ReferenceCatalog;
  ctx_group : PhysicalStockGroup;
  ctx_latest_physical_recorded_at : UnixTimestamp;
  ctx_previous_reconciliation : option HubRecordId;
  ctx_latest_observation : option HubRecordId;
  ctx_unresolved_actual : bool;
  ctx_uncertain_intent : bool
}.

Definition CountContext_observation_context (self : CountContext) : CountObservationContext :=
  {| cox_hub := ctx_hub self; cox_stock_revision := ctx_stock_revision self;
     cox_catalog := ctx_catalog self; cox_group := ctx_group self;
     cox_latest_physical_recorded_at := ctx_latest_physical_recorded_at self;
     cox_previous_reconciliation := ctx_previous_reconciliation self |}.

Definition CountObservationContext_validate (self : CountObservationContext)
  : result unit CountError :=
  map_err CountError.Movement
    (PhysicalStockGroup_validate_catalog (cox_group self) (cox_catalog self)) ;;?
  if is_some_and (pg_causal_floor (cox_group self))
       (fun at_ => raw at_ >? raw (cox_latest_physical_recorded_at self))
  then Err CountError.InvalidHistory else Ok tt.
Definition CountContext_validate (self : CountContext) : result unit CountError :=
  CountObservationContext_validate (CountContext_observation_context self).

Record CountScope := {
  cs_hub : HubId;
  cs_stock_revision : HubRevision;
  cs_catalog_revision : HubRevision;
  cs_trace : HubRecordId;
  cs_group : HubRecordId;
  cs_group_revision : HubRevision;
  cs_product : ReferenceRecord;
  cs_variant : ReferenceRecord;
  cs_location : ReferenceRecord;
  cs_recorded_packs : WholePacks;
  cs_latest_physical_recorded_at : UnixTimestamp;
  cs_previous_reconciliation : option HubRecordId
}.

Record CountObservation := {
  co_id : HubRecordId;
  co_operation : HubRecordId;
  co_recorded_revision : HubRevision;
  co_scope : CountScope;
  co_counted_packs : WholePacks;
  co_cutoff : Occurrence;
  co_actor : PublicKey;
  co_recorded_at : UnixTimestamp;
  co_observation : SourceProvenance
}.

Record CountObserveCommand := {
  obs_expected_stock_revision : HubRevision;
  obs_expected_catalog_revision : HubRevision;
  obs_group : HubRecordId;
  obs_expected_group_revision : HubRevision;
  obs_counted_packs : WholePacks;
  obs_cutoff : Occurrence;
  obs_observation : SourceProvenance
}.

Module CountDifference.
Inductive CountDifference := None | Shortage (packs : WholePacks) | Surplus (packs : WholePacks).
End CountDifference.
Abbreviation CountDifference := CountDifference.CountDifference.

Module CountBlockReason.
Inductive CountBlockReason :=
| ScopeChanged | NewerReconciliation | NotLatestObservation | CutoffUncertain
| CutoffPrecedesRecordedActivity | UnresolvedActual | UncertainPriorOutcome.
End CountBlockReason.
Abbreviation CountBlockReason := CountBlockReason.CountBlockReason.

Record CountReview := {
  crv_difference : CountDifference;
  crv_blockers : list CountBlockReason
}.
Definition CountReview_ready (self : CountReview) : bool :=
  (length (crv_blockers self) =? 0)%nat.

(** ** Identities *)

Section Counts.
Context `{Sha256}.

(** [derived_id]: the purpose is the whole tag. *)
Definition derived_id (purpose : string) (operation : HubRecordId)
  : result HubRecordId CountError :=
  map_err CountError.Reference (derive_identity purpose [] operation).
Definition count_record_id (operation : HubRecordId) : result HubRecordId CountError :=
  derived_id "harvestcircle.hub.count.observation.identity.v1" operation.
Definition count_reconciliation_id (operation : HubRecordId) : result HubRecordId CountError :=
  derived_id "harvestcircle.hub.count.reconciliation.identity.v1" operation.

(** ** Observations *)

Definition CountObservation_validate (self : CountObservation) : result unit CountError :=
  let scope := co_scope self in
  let valid_pack :=
    match rr_value (cs_variant scope) with
    | ReferenceValue.Pack product _ _ => product ==? rr_id (cs_product scope)
    | _ => false
    end in
  let? id := count_record_id (co_operation self) in
  if co_id self !=? id then Err CountError.InvalidHistory
  else
    let? recorded := count_next (cs_stock_revision scope) in
    if (co_recorded_revision self !=? recorded)
       || (raw (cs_recorded_packs scope) =? 0)
       || negb valid_pack
       || (ReferenceValue_kind (rr_value (cs_product scope)) !=? ReferenceKind.Product)
       || (ReferenceValue_kind (rr_value (cs_location scope)) !=? ReferenceKind.Location)
       || existsb (fun r => raw (rr_revision r) >? raw (cs_catalog_revision scope))
            [cs_product scope; cs_variant scope; cs_location scope]
       || (raw (cs_latest_physical_recorded_at scope) >? raw (co_recorded_at self))
    then Err CountError.InvalidHistory
    else
      map_err (fun _ => CountError.InvalidHistory)
        (Occurrence_validate (co_cutoff self) (co_recorded_at self)).

Definition CountObserveCommand_plan (self : CountObserveCommand)
    (context : CountObservationContext) (operation : HubRecordId) (actor : PublicKey)
    (recorded_at : UnixTimestamp) : result CountObservation CountError :=
  let catalog := cox_catalog context in
  let group := cox_group context in
  CountObservationContext_validate context ;;?
  if (obs_expected_stock_revision self !=? cox_stock_revision context)
     || (obs_expected_catalog_revision self !=? rc_revision catalog)
     || (obs_group self !=? pg_id group)
     || (obs_expected_group_revision self !=? pg_revision group)
  then Err CountError.StaleRevision
  else
    map_err CountError.Stock (Occurrence_validate (obs_cutoff self) recorded_at) ;;?
    let? variant := map_err CountError.Reference
      (ReferenceCatalog_require_kind catalog (pg_variant group) ReferenceKind.Pack) in
    match rr_value variant with
    | ReferenceValue.Pack product _ _ =>
        let? id := count_record_id operation in
        let? recorded_revision := count_next (cox_stock_revision context) in
        let? product := map_err CountError.Reference
          (ReferenceCatalog_require_kind catalog product ReferenceKind.Product) in
        let? location := map_err CountError.Reference
          (ReferenceCatalog_require_kind catalog (pg_location group) ReferenceKind.Location) in
        let observation := {|
          co_id := id;
          co_operation := operation;
          co_recorded_revision := recorded_revision;
          co_scope := {|
            cs_hub := cox_hub context;
            cs_stock_revision := cox_stock_revision context;
            cs_catalog_revision := rc_revision catalog;
            cs_trace := pg_trace group;
            cs_group := pg_id group;
            cs_group_revision := pg_revision group;
            cs_product := product;
            cs_variant := variant;
            cs_location := location;
            cs_recorded_packs := pg_packs group;
            cs_latest_physical_recorded_at := cox_latest_physical_recorded_at context;
            cs_previous_reconciliation := cox_previous_reconciliation context
          |};
          co_counted_packs := obs_counted_packs self;
          co_cutoff := obs_cutoff self;
          co_actor := actor;
          co_recorded_at := recorded_at;
          co_observation := obs_observation self
        |} in
        CountObservation_validate observation ;;?
        Ok observation
    | _ => Err CountError.InvalidHistory
    end.

Definition CountObservation_difference (self : CountObservation)
  : result CountDifference CountError :=
  CountObservation_validate self ;;?
  let recorded := cs_recorded_packs (co_scope self) in
  match raw (co_counted_packs self) ?= raw recorded with
  | Eq => Ok CountDifference.None
  | Lt =>
      let? packs := map_err CountError.Reference
        (WholePacks_checked_sub recorded (co_counted_packs self)) in
      Ok (CountDifference.Shortage packs)
  | Gt =>
      let? packs := map_err CountError.Reference
        (WholePacks_checked_sub (co_counted_packs self) recorded) in
      Ok (CountDifference.Surplus packs)
  end.

(** [if c { blockers.push(reason) }]. *)
Definition block (c : bool) (reason : CountBlockReason) : list CountBlockReason :=
  if c then [reason] else [].

Definition CountObservation_review (self : CountObservation) (current : CountContext)
  : result CountReview CountError :=
  CountObservation_validate self ;;?
  CountContext_validate current ;;?
  let scope := co_scope self in
  let group := ctx_group current in
  if (raw (ctx_stock_revision current) <? raw (co_recorded_revision self))
     || (raw (rc_revision (ctx_catalog current)) <? raw (cs_catalog_revision scope))
     || (raw (ctx_latest_physical_recorded_at current)
           <? raw (cs_latest_physical_recorded_at scope))
  then Err CountError.InvalidHistory
  else
    let blockers :=
      block ((ctx_hub current !=? cs_hub scope) || (pg_id group !=? cs_group scope)
             || (pg_trace group !=? cs_trace scope)
             || (pg_variant group !=? rr_id (cs_variant scope))
             || (pg_location group !=? rr_id (cs_location scope))
             || (pg_revision group !=? cs_group_revision scope)
             || (pg_packs group !=? cs_recorded_packs scope)) CountBlockReason.ScopeChanged
      ++ block (ctx_previous_reconciliation current !=? cs_previous_reconciliation scope)
           CountBlockReason.NewerReconciliation
      ++ block (ctx_latest_observation current !=? Some (co_id self))
           CountBlockReason.NotLatestObservation
      ++ match co_cutoff self with
         | Occurrence.Known at_ =>
             block (raw at_ <? raw (ctx_latest_physical_recorded_at current))
               CountBlockReason.CutoffPrecedesRecordedActivity
         | _ => [CountBlockReason.CutoffUncertain]
         end
      ++ block (ctx_unresolved_actual current) CountBlockReason.UnresolvedActual
      ++ block (ctx_uncertain_intent current) CountBlockReason.UncertainPriorOutcome in
    let? difference := CountObservation_difference self in
    Ok {| crv_difference := difference; crv_blockers := blockers |}.
End Counts.

(** ** Posting *)

Record CountPostCommand := {
  cpc_expected_stock_revision : HubRevision;
  cpc_expected_catalog_revision : HubRevision;
  cpc_count : HubRecordId;
  cpc_reviewed_activity : bool;
  cpc_surplus_identification : option PhysicalIdentification;
  cpc_reason : SourceProvenance
}.

Record CountWorkChange := {
  cwc_before : WorkRequirement;
  cwc_after : WorkRequirement;
  cwc_retired : WholePacks
}.

Record CountWorkScopeChange := {
  cwx_work : HubRecordId;
  cwx_before_progress : WorkProgress;
  cwx_before_scoped : WholePacks;
  cwx_on_hand_after : WholePacks;
  cwx_removed : WholePacks;
  cwx_removed_progress : WorkProgress
}.

Module CountEffect.
Inductive CountEffect :=
| NoVariance
| Shortage (packs after_packs : WholePacks) (after_revision : HubRevision)
    (work_changes : list CountWorkChange)
| Surplus (packs : WholePacks) (identification : PhysicalIdentification)
    (source : SourceAttribution) (acceptance : AcceptanceStatus).
End CountEffect.
Abbreviation CountEffect := CountEffect.CountEffect.

Record CountPostReferences := {
  cpr_product : ReferenceRecord;
  cpr_variant : ReferenceRecord;
  cpr_location : ReferenceRecord
}.

Record CountPostPlan := {
  cpp_id : HubRecordId;
  cpp_operation : HubRecordId;
  cpp_count : CountObservation;
  cpp_before : PhysicalStockGroup;
  cpp_stock_revision : HubRevision;
  cpp_catalog_revision : HubRevision;
  cpp_references : CountPostReferences;
  cpp_actor : PublicKey;
  cpp_recorded_at : UnixTimestamp;
  cpp_confirmed_on_hand_at : UnixTimestamp;
  cpp_effect : CountEffect;
  cpp_reason : SourceProvenance
}.

Definition is_pending_allocation (a : WorkAllocation) : bool :=
  wa_progress a ==? WorkProgress.Pending.

(** The requirement after the missing packs are no longer required. *)
Definition shortage_requirement (before : WorkRequirement) (packs : WholePacks)
  : result WorkRequirement CountError :=
  let? no_longer := map_err CountError.Reference
    (WholePacks_checked_add (no_longer_required (wr_quantity before)) packs) in
  let? rest := map_err CountError.Reference
    (WholePacks_checked_sub (remaining (wr_quantity before)) packs) in
  let? quantity := map_err CountError.Stock
    (QuantityWork_restore (required (wr_quantity before)) (completed (wr_quantity before))
       no_longer rest) in
  let? revision := count_next (wr_revision before) in
  Ok (wr_with before quantity revision).

(** One row of the loop of [CountPostReferences::validate]. *)
Definition validate_posted (catalog : HubRevision)
    (row : ReferenceRecord * ReferenceRecord * ReferenceKind) : result unit CountError :=
  let '(posted, original, kind) := row in
  if (rr_id posted !=? rr_id original) || (ReferenceValue_kind (rr_value posted) !=? kind)
     || (raw (rr_revision posted) <? raw (rr_revision original))
     || (raw (rr_revision posted) >? raw catalog)
  then Err CountError.InvalidHistory else Ok tt.
Definition CountPostReferences_validate (self : CountPostReferences) (observed : CountScope)
    (catalog : HubRevision) : result unit CountError :=
  try_for_each (validate_posted catalog)
    [(cpr_product self, cs_product observed, ReferenceKind.Product);
     (cpr_variant self, cs_variant observed, ReferenceKind.Pack);
     (cpr_location self, cs_location observed, ReferenceKind.Location)] ;;?
  if cpr_variant self !=? cs_variant observed then Err CountError.InvalidHistory
  else
    match rr_value (cpr_location self), rr_value (cs_location observed) with
    | ReferenceValue.Location _ purpose, ReferenceValue.Location _ original =>
        if purpose ==? original then Ok tt else Err CountError.InvalidHistory
    | _, _ => Err CountError.InvalidHistory
    end.

#[global] Instance CountWorkChange_eq_dec : EqDecision CountWorkChange.
Proof. solve_decision. Defined.

Section Posting.
Context `{Sha256}.

(** The loop body over the pending allocations. *)
Definition validate_change (packs : WholePacks) (work_changes : list CountWorkChange)
    (allocation : WorkAllocation) : result unit CountError :=
  let before := wa_requirement allocation in
  let? change := ok_or
    (List.find (fun change => wr_id (cwc_before change) ==? wr_id before) work_changes)
    CountError.InvalidHistory in
  let? expected := shortage_requirement before packs in
  if (cwc_before change !=? before) || (cwc_after change !=? expected)
     || (cwc_retired change !=? packs)
  then Err CountError.InvalidHistory else Ok tt.

(** The last match of [CountPostPlan::validate]. *)
Definition validate_effect (self : CountPostPlan) (difference : CountDifference)
  : result unit CountError :=
  match cpp_effect self, difference with
  | CountEffect.NoVariance, CountDifference.None => Ok tt
  | CountEffect.Surplus packs _ source acceptance, CountDifference.Surplus expected =>
      if (packs ==? expected) && (source ==? SourceAttribution.Unknown)
         && (acceptance ==? AcceptanceStatus.ReviewRequired)
      then Ok tt else Err CountError.InvalidHistory
  | CountEffect.Shortage packs after_packs after_revision work_changes,
    CountDifference.Shortage expected =>
      if (packs ==? expected) && (after_packs ==? co_counted_packs (cpp_count self)) then
        let? next := count_next (pg_revision (cpp_before self)) in
        if after_revision ==? next then
          let pending := List.filter is_pending_allocation (pg_work (cpp_before self)) in
          if negb (length pending =? length work_changes)%nat then Err CountError.InvalidHistory
          else try_for_each (validate_change packs work_changes) pending
        else Err CountError.InvalidHistory
      else Err CountError.InvalidHistory
  | _, _ => Err CountError.InvalidHistory
  end.

Definition CountPostPlan_validate (self : CountPostPlan) : result unit CountError :=
  let count := cpp_count self in
  let before := cpp_before self in
  let scope := co_scope count in
  CountObservation_validate count ;;?
  map_err (fun _ => CountError.InvalidHistory) (PhysicalStockGroup_validate before) ;;?
  CountPostReferences_validate (cpp_references self) scope (cpp_catalog_revision self) ;;?
  let? id := count_reconciliation_id (cpp_operation self) in
  if (cpp_id self !=? id)
     || (raw (cpp_stock_revision self) <=? raw (co_recorded_revision count))
     || (raw (cpp_catalog_revision self) <? raw (cs_catalog_revision scope))
     || (raw (cpp_recorded_at self) <? raw (co_recorded_at count))
     || (co_cutoff count !=? Occurrence.Known (cpp_confirmed_on_hand_at self))
     || (raw (cpp_confirmed_on_hand_at self) <? raw (cs_latest_physical_recorded_at scope))
     || is_some_and (pg_causal_floor before)
          (fun at_ => raw at_ >? raw (cpp_confirmed_on_hand_at self))
     || (pg_id before !=? cs_group scope) || (pg_trace before !=? cs_trace scope)
     || (pg_variant before !=? rr_id (cs_variant scope))
     || (pg_location before !=? rr_id (cs_location scope))
     || (pg_revision before !=? cs_group_revision scope)
     || (pg_packs before !=? cs_recorded_packs scope)
  then Err CountError.InvalidHistory
  else
    let? difference := CountObservation_difference count in
    validate_effect self difference.

(** The change of one pending allocation in [plan]. *)
Definition shortage_change (packs : WholePacks) (allocation : WorkAllocation)
  : result CountWorkChange CountError :=
  let? after := shortage_requirement (wa_requirement allocation) packs in
  Ok {| cwc_before := wa_requirement allocation; cwc_after := after; cwc_retired := packs |}.

(** [effect] of [plan]. *)
Definition post_effect (self : CountPostCommand) (count : CountObservation)
    (group : PhysicalStockGroup) (difference : CountDifference)
  : result CountEffect CountError :=
  match difference, cpc_surplus_identification self with
  | CountDifference.None, None => Ok CountEffect.NoVariance
  | CountDifference.Shortage packs, None =>
      let? changes := try_map (shortage_change packs)
        (List.filter is_pending_allocation (pg_work group)) in
      let? after_revision := count_next (pg_revision group) in
      Ok (CountEffect.Shortage packs (co_counted_packs count) after_revision changes)
  | CountDifference.Surplus packs, identification =>
      let? identification := ok_or identification CountError.InvalidInput in
      Ok (CountEffect.Surplus packs identification SourceAttribution.Unknown
            AcceptanceStatus.ReviewRequired)
  | _, _ => Err CountError.InvalidInput
  end.

Definition CountPostCommand_plan (self : CountPostCommand) (count : CountObservation)
    (current : CountContext) (operation : HubRecordId) (actor : PublicKey)
    (recorded_at : UnixTimestamp) : result CountPostPlan CountError :=
  let catalog := ctx_catalog current in
  let group := ctx_group current in
  if (cpc_expected_stock_revision self !=? ctx_stock_revision current)
     || (cpc_expected_catalog_revision self !=? rc_revision catalog)
  then Err CountError.StaleRevision
  else if (cpc_count self !=? co_id count) || negb (cpc_reviewed_activity self)
  then Err CountError.ReviewRequired
  else if (raw recorded_at <? raw (co_recorded_at count))
          || (raw recorded_at <? raw (ctx_latest_physical_recorded_at current))
  then Err CountError.InvalidHistory
  else
    let? review := CountObservation_review count current in
    if negb (CountReview_ready review) then Err CountError.ReviewRequired
    else
      match co_cutoff count with
      | Occurrence.Known confirmed_on_hand_at =>
          let? effect := post_effect self count group (crv_difference review) in
          let? variant := map_err CountError.Reference
            (ReferenceCatalog_require_kind catalog (pg_variant group) ReferenceKind.Pack) in
          match rr_value variant with
          | ReferenceValue.Pack product _ _ =>
              let? product := map_err CountError.Reference
                (ReferenceCatalog_require_kind catalog product ReferenceKind.Product) in
              let? location := map_err CountError.Reference
                (ReferenceCatalog_require_kind catalog (pg_location group)
                   ReferenceKind.Location) in
              let? id := count_reconciliation_id operation in
              let? stock_revision := count_next (ctx_stock_revision current) in
              let plan := {|
                cpp_id := id;
                cpp_operation := operation;
                cpp_count := count;
                cpp_before := group;
                cpp_stock_revision := stock_revision;
                cpp_catalog_revision := rc_revision catalog;
                cpp_references := {| cpr_product := product; cpr_variant := variant;
                                     cpr_location := location |};
                cpp_actor := actor;
                cpp_recorded_at := recorded_at;
                cpp_confirmed_on_hand_at := confirmed_on_hand_at;
                cpp_effect := effect;
                cpp_reason := cpc_reason self
              |} in
              CountPostPlan_validate plan ;;?
              Ok plan
          | _ => Err CountError.InvalidHistory
          end
      | _ => Err CountError.ReviewRequired
      end.

Definition removed_progress (progress : WorkProgress) : WorkProgress :=
  match progress with
  | WorkProgress.Pending => WorkProgress.NoLongerRequired
  | progress => progress
  end.
Definition CountPostPlan_work_scope_changes (self : CountPostPlan)
  : result (list CountWorkScopeChange) CountError :=
  CountPostPlan_validate self ;;?
  match cpp_effect self with
  | CountEffect.Shortage packs after_packs _ _ =>
      Ok ((fun allocation =>
             {| cwx_work := wr_id (wa_requirement allocation);
                cwx_before_progress := wa_progress allocation;
                cwx_before_scoped := pg_packs (cpp_before self);
                cwx_on_hand_after := after_packs;
                cwx_removed := packs;
                cwx_removed_progress := removed_progress (wa_progress allocation) |})
          <$> pg_work (cpp_before self))
  | _ => Ok []
  end.

(** ** Surplus *)

Record CountSurplusIdentities := {
  csi_population : HubRecordId;
  csi_group : HubRecordId
}.
Definition CountSurplusIdentities_from_operation (operation : HubRecordId)
  : result CountSurplusIdentities CountError :=
  let? population := derived_id "harvestcircle.hub.count.surplus.population.identity.v1"
    operation in
  let? group := derived_id "harvestcircle.hub.count.surplus.group.identity.v1" operation in
  Ok {| csi_population := population; csi_group := group |}.

Record CountSurplusPlan := {
  csp_population : StockPopulation;
  csp_group : PhysicalStockGroup;
  csp_acceptance : AcceptanceStatus
}.

Definition CountPostPlan_surplus (self : CountPostPlan)
  : result (option CountSurplusPlan) CountError :=
  CountPostPlan_validate self ;;?
  match cpp_effect self with
  | CountEffect.Surplus packs identification _ _ =>
      let? ids := CountSurplusIdentities_from_operation (cpp_operation self) in
      let prior := [cpp_id self; co_id (cpp_count self); pg_id (cpp_before self);
                    pg_trace (cpp_before self)] in
      if (csi_population ids ==? csi_group ids)
         || existsb (fun id => id ==? csi_population ids) prior
         || existsb (fun id => id ==? csi_group ids) prior
      then Err CountError.InvalidHistory
      else
        Ok (Some {|
          csp_population := {|
            sp_id := csi_population ids;
            sp_variant := cpr_variant (cpp_references self);
            sp_product := cpr_product (cpp_references self);
            sp_supplier := None;
            sp_producer := None;
            sp_source := SourceAttribution.Unknown;
            sp_source_issuer := None;
            sp_original_packs := packs;
            sp_initial_location := cpr_location (cpp_references self);
            sp_origin := PopulationOrigin.CountedSurplus (co_id (cpp_count self))
                           (pg_trace (cpp_before self));
            sp_planned_location := None;
            sp_occurred := Occurrence.Known (cpp_confirmed_on_hand_at self);
            sp_recorded_at := cpp_recorded_at self;
            sp_actor := cpp_actor self;
            sp_observation := cpp_reason self
          |};
          csp_group := {|
            pg_id := csi_group ids;
            pg_trace := csi_population ids;
            pg_variant := rr_id (cpr_variant (cpp_references self));
            pg_parent := None;
            pg_identification := Some identification;
            pg_location := rr_id (cpr_location (cpp_references self));
            pg_packs := packs;
            pg_revision := HubRevision_INITIAL;
            pg_causal_floor := Some (cpp_confirmed_on_hand_at self);
            pg_work := []
          |};
          csp_acceptance := AcceptanceStatus.ReviewRequired
        |})
  | _ => Ok None
  end.
End Posting.

(** ** Fingerprints and result digests *)

Definition CountObserveCommand_message (self : CountObserveCommand) (hub : HubId)
    (actor : PublicKey) (operation : HubRecordId) : list byte :=
  domain_tag "harvestcircle.hub.count.observe.command.v1" ++
  enc_hub hub ++ enc_key actor ++ enc_id operation ++
  enc_revision (obs_expected_stock_revision self) ++
  enc_revision (obs_expected_catalog_revision self) ++
  enc_id (obs_group self) ++ enc_revision (obs_expected_group_revision self) ++
  enc_packs (obs_counted_packs self) ++ hash_occurrence (obs_cutoff self) ++
  enc_hub_text (obs_observation self).
Definition CountObserveCommand_fingerprint `{Sha256} (self : CountObserveCommand) (hub : HubId)
    (actor : PublicKey) (operation : HubRecordId) : array 32 :=
  digest32 (CountObserveCommand_message self hub actor operation).

Definition CountPostCommand_message (self : CountPostCommand) (hub : HubId) (actor : PublicKey)
    (operation : HubRecordId) : list byte :=
  domain_tag "harvestcircle.hub.count.post.command.v1" ++
  enc_hub hub ++ enc_key actor ++ enc_id operation ++
  enc_revision (cpc_expected_stock_revision self) ++
  enc_revision (cpc_expected_catalog_revision self) ++
  enc_id (cpc_count self) ++ enc_tag (if cpc_reviewed_activity self then 1 else 0) ++
  enc_option enc_identification (cpc_surplus_identification self) ++
  enc_hub_text (cpc_reason self).
Definition CountPostCommand_fingerprint `{Sha256} (self : CountPostCommand) (hub : HubId)
    (actor : PublicKey) (operation : HubRecordId) : array 32 :=
  digest32 (CountPostCommand_message self hub actor operation).

Section Digests.
Context `{Sha256}.

(** [reference] and [work] of the result module. *)
Definition count_reference (hub : HubId) (actor : PublicKey) (catalog : HubRevision)
    (value : ReferenceRecord) : list byte :=
  enc_revision (rr_revision value) ++
  raw (ReferenceCommand_fingerprint (creation catalog value) hub actor).
Definition count_work (record : CountPostPlan) (value : WorkRequirement) : list byte :=
  enc_id (wr_id value) ++ enc_id (wr_trace value) ++ enc_id (wr_variant value) ++
  enc_revision (wr_revision value) ++
  enc_packs (required (wr_quantity value)) ++ enc_packs (completed (wr_quantity value)) ++
  enc_packs (no_longer_required (wr_quantity value)) ++ enc_packs (remaining (wr_quantity value)) ++
  enc_option (count_reference (cs_hub (co_scope (cpp_count record))) (cpp_actor record)
    (cpp_catalog_revision record)) (wr_target value).

Definition count_observation_result_message (input : array 32) (record : CountObservation)
  : list byte :=
  let scope := co_scope record in
  let reference := count_reference (cs_hub scope) (co_actor record) (cs_catalog_revision scope) in
  domain_tag "harvestcircle.hub.count.observation.result.v1" ++
  raw input ++ enc_id (co_id record) ++ enc_id (co_operation record) ++
  enc_revision (co_recorded_revision record) ++ enc_hub (cs_hub scope) ++
  enc_revision (cs_stock_revision scope) ++ enc_revision (cs_catalog_revision scope) ++
  enc_id (cs_trace scope) ++ enc_id (cs_group scope) ++ enc_revision (cs_group_revision scope) ++
  reference (cs_product scope) ++ reference (cs_variant scope) ++ reference (cs_location scope) ++
  enc_packs (cs_recorded_packs scope) ++ enc_seconds (cs_latest_physical_recorded_at scope) ++
  enc_optional_id (cs_previous_reconciliation scope) ++ enc_packs (co_counted_packs record) ++
  hash_occurrence (co_cutoff record) ++ enc_key (co_actor record) ++
  enc_seconds (co_recorded_at record) ++ enc_hub_text (co_observation record).
Definition count_observation_result_digest (input : array 32) (record : CountObservation)
  : result (array 32) CountError :=
  CountObservation_validate record ;;?
  Ok (digest32 (count_observation_result_message input record)).

(** The command the observation of a posting is the result of. *)
Definition count_observe_command (count : CountObservation) : CountObserveCommand :=
  let scope := co_scope count in
  {| obs_expected_stock_revision := cs_stock_revision scope;
     obs_expected_catalog_revision := cs_catalog_revision scope;
     obs_group := cs_group scope;
     obs_expected_group_revision := cs_group_revision scope;
     obs_counted_packs := co_counted_packs count;
     obs_cutoff := co_cutoff count;
     obs_observation := co_observation count |}.

Definition count_allocation (record : CountPostPlan) (allocation : WorkAllocation) : list byte :=
  enc_tag (WorkProgress_tag (wa_progress allocation)) ++
  count_work record (wa_requirement allocation).
Definition count_change (record : CountPostPlan) (change : CountWorkChange) : list byte :=
  count_work record (cwc_before change) ++ count_work record (cwc_after change) ++
  enc_packs (cwc_retired change).
Definition count_effect (record : CountPostPlan) (effect : CountEffect) : list byte :=
  match effect with
  | CountEffect.NoVariance => enc_tag 0
  | CountEffect.Shortage packs after_packs after_revision work_changes =>
      enc_tag 1 ++ enc_packs packs ++ enc_packs after_packs ++ enc_revision after_revision ++
      enc_counted 4 (count_change record) work_changes
  | CountEffect.Surplus packs identification _ _ =>
      enc_tag 2 ++ enc_packs packs ++ enc_hub_text (pi_label identification) ++
      enc_hub_text (pi_observation identification)
  end.
Definition count_post_result_message (input observed : array 32) (record : CountPostPlan)
  : list byte :=
  let reference := count_reference (cs_hub (co_scope (cpp_count record))) (cpp_actor record)
    (cpp_catalog_revision record) in
  let before := cpp_before record in
  domain_tag "harvestcircle.hub.count.post.result.v1" ++
  raw input ++ enc_id (cpp_id record) ++ enc_id (cpp_operation record) ++ raw observed ++
  enc_revision (cpp_stock_revision record) ++ enc_revision (cpp_catalog_revision record) ++
  reference (cpr_product (cpp_references record)) ++
  reference (cpr_variant (cpp_references record)) ++
  reference (cpr_location (cpp_references record)) ++
  enc_key (cpp_actor record) ++ enc_seconds (cpp_recorded_at record) ++
  enc_seconds (cpp_confirmed_on_hand_at record) ++ enc_hub_text (cpp_reason record) ++
  enc_id (pg_id before) ++ enc_id (pg_trace before) ++ enc_id (pg_variant before) ++
  enc_id (pg_location before) ++ enc_optional_id (pg_parent before) ++
  enc_option enc_identification (pg_identification before) ++ enc_packs (pg_packs before) ++
  enc_revision (pg_revision before) ++ enc_option enc_seconds (pg_causal_floor before) ++
  enc_counted 4 (count_allocation record) (pg_work before) ++
  count_effect record (cpp_effect record).
Definition effect_changes (effect : CountEffect) : list CountWorkChange :=
  match effect with CountEffect.Shortage _ _ _ changes => changes | _ => [] end.
Definition count_post_result_digest (input : array 32) (record : CountPostPlan)
  : result (array 32) CountError :=
  CountPostPlan_validate record ;;?
  let count := cpp_count record in
  let observe := CountObserveCommand_fingerprint (count_observe_command count)
    (cs_hub (co_scope count)) (co_actor count) (co_operation count) in
  let? observed := count_observation_result_digest observe count in
  if negb (u32_range (Z.of_nat (length (pg_work (cpp_before record)))))
     || negb (u32_range (Z.of_nat (length (effect_changes (cpp_effect record)))))
  then Err CountError.InvalidHistory
  else Ok (digest32 (count_post_result_message input observed record)).
End Digests.

(** ** What a valid observation says *)

Section Observations.
Context `{Sha256}.

Lemma count_next_Ok r r' : count_next r = Ok r' <-> raw r' = raw r + 1.
Proof. unfold count_next. by rewrite map_err_Ok, HubRevision_next_Ok. Qed.

Lemma count_next_total r : raw r < HubRevision_MAXIMUM -> exists r', count_next r = Ok r'.
Proof.
  intros (r' & Hr & _)%movement_next_total. exists r'. apply count_next_Ok. by apply movement_next_Ok in Hr.
Qed.

Record scope_ok (s : CountScope) : Prop := {
  so_packs : 0 < raw (cs_recorded_packs s);
  so_product : ReferenceValue_kind (rr_value (cs_product s)) = ReferenceKind.Product;
  so_location : ReferenceValue_kind (rr_value (cs_location s)) = ReferenceKind.Location;
  so_variant : exists label grams,
    rr_value (cs_variant s) = ReferenceValue.Pack (rr_id (cs_product s)) label grams;
  so_revisions : Forall (fun r => raw (rr_revision r) <= raw (cs_catalog_revision s))
    [cs_product s; cs_variant s; cs_location s]
}.
Record observation_ok (o : CountObservation) : Prop := {
  oo_id : count_record_id (co_operation o) = Ok (co_id o);
  oo_revision : raw (co_recorded_revision o) = raw (cs_stock_revision (co_scope o)) + 1;
  oo_scope : scope_ok (co_scope o);
  oo_activity : raw (cs_latest_physical_recorded_at (co_scope o)) <= raw (co_recorded_at o);
  oo_cutoff : Occurrence_validate (co_cutoff o) (co_recorded_at o) = Ok tt
}.

Lemma pack_of_product_iff v p :
  match v with ReferenceValue.Pack product _ _ => product ==? p | _ => false end = true <->
  exists label grams, v = ReferenceValue.Pack p label grams.
Proof.
  destruct v; try (split; [done|by intros (? & ? & ?)]).
  rewrite bool_decide_eq_true. split; [intros ->; eauto|by intros (? & ? & [= -> _ _])].
Qed.

Lemma observation_validate_Ok o : CountObservation_validate o = Ok tt <-> observation_ok o.
Proof.
  unfold CountObservation_validate. rewrite bind_Ok. setoid_rewrite guard_Ok.
  pose proof (WholePacks_range (cs_recorded_packs (co_scope o))). split.
  - intros (id & Hid & Heq & (rev & Hrev & Hk)%bind_Ok). apply guard_Ok in Hk as [Hb Hk].
    rewrite !orb_false_iff, !negb_false_iff, pack_of_product_iff in Hb. cbn [existsb] in Hb.
    rewrite count_next_Ok, map_err_Ok in *. breflect.
    constructor; try done; [congruence|congruence|constructor; try done; [lia|]].
    repeat constructor; lia.
  - intros [Hid Hrev [Hp Hpr Hl Hv Hrs] Hact Hcut]. exists (co_id o). split; [done|].
    split; [by rewrite bool_decide_eq_true_2|]. apply bind_Ok. exists (co_recorded_revision o).
    split; [by apply count_next_Ok|]. apply guard_Ok. rewrite map_err_Ok. split; [|done].
    rewrite !list.Forall_cons in Hrs. destruct Hrs as (? & ? & ? & _).
    rewrite !orb_false_iff, !negb_false_iff, pack_of_product_iff. cbn [existsb].
    autorewrite with reflect. split_and!; try done. lia.
Qed.

Record context_ok (c : CountObservationContext) : Prop := {
  xo_group : catalogued (cox_catalog c) (cox_group c);
  xo_floor : forall at_, pg_causal_floor (cox_group c) = Some at_ ->
    raw at_ <= raw (cox_latest_physical_recorded_at c)
}.

Lemma context_validate_Ok c : CountObservationContext_validate c = Ok tt <-> context_ok c.
Proof.
  unfold CountObservationContext_validate.
  rewrite seq_Ok, map_err_Ok, validate_catalog_Ok, guard_Ok, some_and_false.
  setoid_rewrite Z.ltb_ge. split; [by intros (? & ? & _)|by intros [? ?]].
Qed.

(** When a count is recorded, and the observation it then has. *)
Record observe_facts (self : CountObserveCommand) (c : CountObservationContext)
    (operation : HubRecordId) (actor : PublicKey) (now : UnixTimestamp) (o : CountObservation)
  : Prop := {
  of_context : context_ok c;
  of_fresh : obs_expected_stock_revision self = cox_stock_revision c /\
    obs_expected_catalog_revision self = rc_revision (cox_catalog c) /\
    obs_group self = pg_id (cox_group c) /\
    obs_expected_group_revision self = pg_revision (cox_group c);
  of_activity : raw (cox_latest_physical_recorded_at c) <= raw now;
  of_valid : observation_ok o;
  of_references :
    bt_get (pg_variant (cox_group c)) (rc_records (cox_catalog c)) = Some (cs_variant (co_scope o)) /\
    bt_get (rr_id (cs_product (co_scope o))) (rc_records (cox_catalog c))
      = Some (cs_product (co_scope o)) /\
    bt_get (pg_location (cox_group c)) (rc_records (cox_catalog c)) = Some (cs_location (co_scope o));
  of_observation : o = {|
    co_id := co_id o; co_operation := operation; co_recorded_revision := co_recorded_revision o;
    co_scope := {|
      cs_hub := cox_hub c; cs_stock_revision := cox_stock_revision c;
      cs_catalog_revision := rc_revision (cox_catalog c); cs_trace := pg_trace (cox_group c);
      cs_group := pg_id (cox_group c); cs_group_revision := pg_revision (cox_group c);
      cs_product := cs_product (co_scope o); cs_variant := cs_variant (co_scope o);
      cs_location := cs_location (co_scope o); cs_recorded_packs := pg_packs (cox_group c);
      cs_latest_physical_recorded_at := cox_latest_physical_recorded_at c;
      cs_previous_reconciliation := cox_previous_reconciliation c |};
    co_counted_packs := obs_counted_packs self; co_cutoff := obs_cutoff self;
    co_actor := actor; co_recorded_at := now; co_observation := obs_observation self |}
}.

Lemma observe_plan_Ok self c operation actor now o :
  catalog_wf (cox_catalog c) ->
  CountObserveCommand_plan self c operation actor now = Ok o <->
  observe_facts self c operation actor now o.
Proof.
  intros Hcw. unfold CountObserveCommand_plan. split.
  - intros Hp. run_ok. rewrite context_validate_Ok, require_kind_Ok, observation_validate_Ok in *.
    breflect. destruct_and?.
    match goal with V : observation_ok ?x |- _ => pose proof (oo_activity _ V) as Hact end.
    constructor; simpl; try done. split_and!; try done.
    match goal with G : bt_get ?k _ = Some ?r, K : ReferenceValue_kind (rr_value ?r) = ReferenceKind.Product |- _ =>
      by rewrite (cw_keys _ Hcw _ _ G) end.
  - intros [Hc (F1 & F2 & F3 & F4) Hact Hv (R1 & R2 & R3) Ho].
    destruct o as [id op rev [h st ct tr g gr prod var loc pk la pv] cnt cut ac at_ ob].
    simpl in *. injection Ho; intros; subst. pose proof Hv as [Hid Hrev [_ Hpr Hl (label & grams & Hvar) _] _ Hcut].
    simpl in *. rewrite (proj2 (context_validate_Ok c)) by done. cbn [bind].
    rewrite F1, F2, F3, F4, !bool_decide_eq_true_2 by done. cbn [negb orb]. rewrite Hcut. cbn [map_err bind].
    rewrite (proj2 (require_kind_Ok _ _ _ var)) by (by rewrite Hvar).
    cbn [map_err bind]. rewrite Hvar. rewrite Hid. cbn [bind].
    rewrite (proj2 (count_next_Ok _ rev)) by done. cbn [bind].
    rewrite (proj2 (require_kind_Ok _ _ _ prod)), (proj2 (require_kind_Ok _ _ _ loc)) by done.
    cbn [map_err bind]. by rewrite (proj2 (observation_validate_Ok _)).
Qed.
End Observations.

(** ** Reviewing an observation *)

Section Reviews.
Context `{Sha256}.

(** The difference between the count and the record. *)
Definition difference_spec (o : CountObservation) (d : CountDifference) : Prop :=
  match d with
  | CountDifference.None => raw (co_counted_packs o) = raw (cs_recorded_packs (co_scope o))
  | CountDifference.Shortage packs => 0 < raw packs /\
      raw (co_counted_packs o) + raw packs = raw (cs_recorded_packs (co_scope o))
  | CountDifference.Surplus packs => 0 < raw packs /\
      raw (co_counted_packs o) = raw (cs_recorded_packs (co_scope o)) + raw packs
  end.

Lemma difference_Ok o d :
  CountObservation_difference o = Ok d <-> observation_ok o /\ difference_spec o d.
Proof.
  unfold CountObservation_difference. rewrite seq_Ok, observation_validate_Ok.
  apply and_iff_compat_l. unfold difference_spec.
  destruct (Z.compare_spec (raw (co_counted_packs o)) (raw (cs_recorded_packs (co_scope o)))) as [E|E|E].
  - split; [intros [= <-]; done|]. destruct d; [done|lia..].
  - rewrite bind_Ok. setoid_rewrite map_err_Ok. setoid_rewrite checked_sub_Ok. split.
    + intros (p & Hp & [= <-]). lia.
    + destruct d as [|p|p]; [lia| |lia]. intros [? ?]. exists p. split; [lia|done].
  - rewrite bind_Ok. setoid_rewrite map_err_Ok. setoid_rewrite checked_sub_Ok. split.
    + intros (p & Hp & [= <-]). lia.
    + destruct d as [|p|p]; [lia|lia|]. intros [? ?]. exists p. split; [lia|done].
Qed.

Lemma difference_total o : observation_ok o -> exists d, difference_spec o d.
Proof.
  intros Hok. pose proof (WholePacks_range (co_counted_packs o)).
  pose proof (WholePacks_range (cs_recorded_packs (co_scope o))).
  destruct (Z.lt_trichotomy (raw (co_counted_packs o)) (raw (cs_recorded_packs (co_scope o)))) as [L|[E|G]].
  - destruct (checked_sub_total (cs_recorded_packs (co_scope o)) (co_counted_packs o)) as (p & _ & Hp); [lia|].
    exists (CountDifference.Shortage p). simpl. lia.
  - by exists CountDifference.None.
  - destruct (checked_sub_total (co_counted_packs o) (cs_recorded_packs (co_scope o))) as (p & _ & Hp); [lia|].
    exists (CountDifference.Surplus p). simpl. lia.
Qed.

(** The group is still the one that was counted. *)
Record scope_unchanged (s : CountScope) (hub : HubId) (g : PhysicalStockGroup) : Prop := {
  su_hub : hub = cs_hub s;
  su_group : pg_id g = cs_group s;
  su_trace : pg_trace g = cs_trace s;
  su_variant : pg_variant g = rr_id (cs_variant s);
  su_location : pg_location g = rr_id (cs_location s);
  su_revision : pg_revision g = cs_group_revision s;
  su_packs : pg_packs g = cs_recorded_packs s
}.

(** When a reason stands against posting. *)
Definition blocks (o : CountObservation) (c : CountContext) (reason : CountBlockReason) : Prop :=
  match reason with
  | CountBlockReason.ScopeChanged => ~ scope_unchanged (co_scope o) (ctx_hub c) (ctx_group c)
  | CountBlockReason.NewerReconciliation =>
      ctx_previous_reconciliation c <> cs_previous_reconciliation (co_scope o)
  | CountBlockReason.NotLatestObservation => ctx_latest_observation c <> Some (co_id o)
  | CountBlockReason.CutoffUncertain => forall at_, co_cutoff o <> Occurrence.Known at_
  | CountBlockReason.CutoffPrecedesRecordedActivity => exists at_,
      co_cutoff o = Occurrence.Known at_ /\ raw at_ < raw (ctx_latest_physical_recorded_at c)
  | CountBlockReason.UnresolvedActual => ctx_unresolved_actual c = true
  | CountBlockReason.UncertainPriorOutcome => ctx_uncertain_intent c = true
  end.

Lemma block_elem c r s : s ∈ block c r <-> c = true /\ s = r.
Proof. destruct c; simpl; rewrite ?list_elem_of_singleton, ?elem_of_nil; naive_solver. Qed.

Lemma scope_changed_iff s hub g :
  (hub !=? cs_hub s) || (pg_id g !=? cs_group s) || (pg_trace g !=? cs_trace s)
  || (pg_variant g !=? rr_id (cs_variant s)) || (pg_location g !=? rr_id (cs_location s))
  || (pg_revision g !=? cs_group_revision s) || (pg_packs g !=? cs_recorded_packs s) = true <->
  ~ scope_unchanged s hub g.
Proof.
  rewrite <- not_false_iff_true. apply not_iff_compat.
  rewrite !orb_false_iff, !negb_false_iff, !bool_decide_eq_true. split.
  - intros ((((((? & ?) & ?) & ?) & ?) & ?) & ?). by constructor.
  - by intros [].
Qed.

(** What an accepted review has compared. *)
Record reviewable (o : CountObservation) (c : CountContext) : Prop := {
  rv_observation : observation_ok o;
  rv_context : context_ok (CountContext_observation_context c);
  rv_stock : raw (co_recorded_revision o) <= raw (ctx_stock_revision c);
  rv_catalog : raw (cs_catalog_revision (co_scope o)) <= raw (rc_revision (ctx_catalog c));
  rv_activity : raw (cs_latest_physical_recorded_at (co_scope o))
    <= raw (ctx_latest_physical_recorded_at c)
}.

Lemma review_run o c :
  match CountObservation_review o c with
  | Ok r => reviewable o c /\ difference_spec o (crv_difference r) /\
      forall reason, reason ∈ crv_blockers r <-> blocks o c reason
  | Err _ => ~ reviewable o c
  end.
Proof.
  destruct (CountObservation_review o c) as [r|e] eqn:E; unfold CountObservation_review in E.
  - rewrite !seq_Ok, guard_Ok in E. destruct E as (Hv & Hc & Hb & (d & Hd & [= <-])%bind_Ok).
    rewrite observation_validate_Ok in Hv. unfold CountContext_validate in Hc.
    rewrite context_validate_Ok in Hc. apply difference_Ok in Hd as [_ Hd]. breflect.
    split; [by constructor|]. split; [done|]. intros reason. cbn [crv_blockers].
    rewrite !elem_of_app, !block_elem, scope_changed_iff, !negb_true_iff, !bool_decide_eq_false.
    assert (reason ∈ match co_cutoff o with
      | Occurrence.Known at_ => block (raw at_ <? raw (ctx_latest_physical_recorded_at c))
          CountBlockReason.CutoffPrecedesRecordedActivity
      | _ => [CountBlockReason.CutoffUncertain] end <->
      blocks o c reason /\ (reason = CountBlockReason.CutoffPrecedesRecordedActivity \/
        reason = CountBlockReason.CutoffUncertain)) as ->.
    { unfold blocks. destruct (co_cutoff o) as [at_|a b|];
        rewrite ?block_elem, ?list_elem_of_singleton, ?Z.ltb_lt; destruct reason; naive_solver. }
    unfold blocks. destruct reason; naive_solver.
  - intros [Hv Hc H1 H2 H3].
    rewrite (proj2 (observation_validate_Ok o)) in E by done. unfold CountContext_validate in E.
    rewrite (proj2 (context_validate_Ok _)) in E by done. cbn [bind] in E.
    rewrite !(proj2 (Z.ltb_ge _ _)) in E by done. cbn [orb] in E.
    destruct (difference_total o Hv) as [d Hd].
    rewrite (proj2 (difference_Ok o d)) in E by done. done.
Qed.

(** A review succeeds exactly when the observation is valid and no newer
    than the state it is compared with; it reports the exact difference between
    the count and the record, and lists a reason against posting if and only if
    that reason stands. *)
Theorem count_review_correct o c :
  match CountObservation_review o c with
  | Ok r => reviewable o c /\ difference_spec o (crv_difference r) /\
      (forall reason, reason ∈ crv_blockers r <-> blocks o c reason) /\
      (CountReview_ready r = true <-> forall reason, ~ blocks o c reason)
  | Err _ => ~ reviewable o c
  end.
Proof.
  pose proof (review_run o c) as H1. destruct (CountObservation_review o c) as [r|]; [|done].
  destruct H1 as (Hr & Hd & Hb). split_and!; try done. setoid_rewrite <- Hb. unfold CountReview_ready.
  destruct (crv_blockers r) as [|b l]; simpl.
  - split; [|done]. by intros _ reason ?%not_elem_of_nil.
  - split; [done|]. intros Hn. exfalso. apply (Hn b). by left.
Qed.
End Reviews.

(** ** What a valid posting says *)

Section Postings.
Context `{Sha256}.

(** The account of one requirement after [packs] went missing. *)
Record shortage_work (packs : WholePacks) (before after : WorkRequirement) : Prop := {
  sw_same : after = wr_with before (wr_quantity after) (wr_revision after);
  sw_required : required (wr_quantity after) = required (wr_quantity before);
  sw_completed : completed (wr_quantity after) = completed (wr_quantity before);
  sw_retired : raw (no_longer_required (wr_quantity after))
    = raw (no_longer_required (wr_quantity before)) + raw packs;
  sw_remaining : raw (remaining (wr_quantity after))
    = raw (remaining (wr_quantity before)) - raw packs;
  sw_revision : raw (wr_revision after) = raw (wr_revision before) + 1
}.

Lemma shortage_work_unique packs before a a' :
  shortage_work packs before a -> shortage_work packs before a' -> a = a'.
Proof.
  intros [-> R1 C1 N1 M1 V1] [-> R2 C2 N2 M2 V2]. simpl in *. f_equal.
  - apply QuantityWork_ext; [congruence|congruence|apply refined_eq; lia|apply refined_eq; lia].
  - apply refined_eq. lia.
Qed.

Lemma shortage_requirement_run before packs after :
  shortage_requirement before packs = Ok after -> shortage_work packs before after.
Proof.
  unfold shortage_requirement. intros H1. run_ok. rewrite count_next_Ok in *.
  match goal with Q : QuantityWork_restore _ _ _ _ = Ok _ |- _ => apply restore_Ok in Q as (? & ? & ? & ?) end.
  rewrite checked_add_Ok, checked_sub_Ok in *. constructor; simpl; try done; congruence.
Qed.

Lemma shortage_requirement_total before packs :
  raw packs <= raw (remaining (wr_quantity before)) ->
  raw (wr_revision before) < HubRevision_MAXIMUM ->
  exists after, shortage_requirement before packs = Ok after.
Proof.
  intros Hp Hr. pose proof (QuantityWork_balance (wr_quantity before)) as Hb.
  pose proof (WholePacks_range (required (wr_quantity before))).
  pose proof (WholePacks_range (completed (wr_quantity before))).
  destruct (checked_add_total (no_longer_required (wr_quantity before)) packs) as (n & Hn & En); [lia|].
  destruct (checked_sub_total (remaining (wr_quantity before)) packs) as (m & Hm & Em); [lia|].
  destruct (count_next_total _ Hr) as [rev Hrev].
  assert (exists q, QuantityWork_restore (required (wr_quantity before)) (completed (wr_quantity before))
    n m = Ok q) as [q Hq].
  { unfold QuantityWork_restore.
    rewrite (proj2 (work_accounted_Ok _ n m (required (wr_quantity before)))) by lia.
    destruct (checked _ _ _) as [q|] eqn:E; [by exists q|].
    apply checked_Err in E as [E _]. apply not_true_iff_false in E. destruct E.
    apply QuantityWork_check_iff. simpl. lia. }
  unfold shortage_requirement. rewrite Hn, Hm. cbn [map_err bind]. rewrite Hq. cbn [map_err bind].
  rewrite Hrev. by eexists.
Qed.

(** What the records of a posting must be, against those of the observation. *)
Record references_ok (r : CountPostReferences) (s : CountScope) (catalog : HubRevision) : Prop := {
  rk_product : rr_id (cpr_product r) = rr_id (cs_product s) /\
    ReferenceValue_kind (rr_value (cpr_product r)) = ReferenceKind.Product /\
    raw (rr_revision (cs_product s)) <= raw (rr_revision (cpr_product r)) <= raw catalog;
  rk_variant : cpr_variant r = cs_variant s /\
    ReferenceValue_kind (rr_value (cpr_variant r)) = ReferenceKind.Pack /\
    raw (rr_revision (cpr_variant r)) <= raw catalog;
  rk_location : rr_id (cpr_location r) = rr_id (cs_location s) /\
    raw (rr_revision (cs_location s)) <= raw (rr_revision (cpr_location r)) <= raw catalog;
  rk_purpose : exists label label' purpose,
    rr_value (cpr_location r) = ReferenceValue.Location label purpose /\
    rr_value (cs_location s) = ReferenceValue.Location label' purpose
}.

Lemma validate_posted_Ok catalog posted original kind :
  validate_posted catalog (posted, original, kind) = Ok tt <->
  rr_id posted = rr_id original /\ ReferenceValue_kind (rr_value posted) = kind /\
  raw (rr_revision original) <= raw (rr_revision posted) <= raw catalog.
Proof. unfold validate_posted. rewrite guard_Ok. autorewrite with reflect. naive_solver. Qed.

Lemma references_validate_Ok r s catalog :
  CountPostReferences_validate r s catalog = Ok tt <-> references_ok r s catalog.
Proof.
  unfold CountPostReferences_validate. rewrite seq_Ok, try_for_each_Ok, !Forall_cons_iff, guard_Ok.
  rewrite !validate_posted_Ok. autorewrite with reflect. split.
  - intros ((Hp & Hv & Hl & _) & Hvar & Hm).
    destruct (rr_value (cpr_location r)) eqn:E1, (rr_value (cs_location s)) eqn:E2; try done.
    case_bool_decide; [|done]. subst. constructor; naive_solver.
  - intros [Hp [Hv1 Hv2] Hl (l & l' & pu & E1 & E2)]. rewrite E1, E2, Hv1 in *.
    rewrite bool_decide_eq_true_2 by done. split_and!; try naive_solver; try lia.
Qed.

(** The effect that answers a difference. *)
Definition effect_ok (p : CountPostPlan) : Prop :=
  match cpp_effect p with
  | CountEffect.NoVariance => difference_spec (cpp_count p) CountDifference.None
  | CountEffect.Surplus packs _ source acceptance =>
      difference_spec (cpp_count p) (CountDifference.Surplus packs) /\
      source = SourceAttribution.Unknown /\ acceptance = AcceptanceStatus.ReviewRequired
  | CountEffect.Shortage packs after_packs after_revision changes =>
      difference_spec (cpp_count p) (CountDifference.Shortage packs) /\
      after_packs = co_counted_packs (cpp_count p) /\
      raw after_revision = raw (pg_revision (cpp_before p)) + 1 /\
      length changes = length (List.filter is_pending_allocation (pg_work (cpp_before p))) /\
      forall a, a ∈ pg_work (cpp_before p) -> wa_progress a = WorkProgress.Pending ->
        exists c, c ∈ changes /\ cwc_before c = wa_requirement a /\ cwc_retired c = packs /\
          shortage_work packs (wa_requirement a) (cwc_after c)
  end.

Record posting_ok (p : CountPostPlan) : Prop := {
  pk_count : observation_ok (cpp_count p);
  pk_group : group_ok (cpp_before p);
  pk_references : references_ok (cpp_references p) (co_scope (cpp_count p)) (cpp_catalog_revision p);
  pk_id : count_reconciliation_id (cpp_operation p) = Ok (cpp_id p);
  pk_stock : raw (co_recorded_revision (cpp_count p)) < raw (cpp_stock_revision p);
  pk_catalog : raw (cs_catalog_revision (co_scope (cpp_count p))) <= raw (cpp_catalog_revision p);
  pk_recorded : raw (co_recorded_at (cpp_count p)) <= raw (cpp_recorded_at p);
  pk_cutoff : co_cutoff (cpp_count p) = Occurrence.Known (cpp_confirmed_on_hand_at p);
  pk_activity : raw (cs_latest_physical_recorded_at (co_scope (cpp_count p)))
    <= raw (cpp_confirmed_on_hand_at p);
  pk_floor : forall at_, pg_causal_floor (cpp_before p) = Some at_ ->
    raw at_ <= raw (cpp_confirmed_on_hand_at p);
  pk_scope : scope_unchanged (co_scope (cpp_count p)) (cs_hub (co_scope (cpp_count p))) (cpp_before p);
  pk_effect : effect_ok p
}.

Lemma pending_elem a l :
  a ∈ List.filter is_pending_allocation l <-> a ∈ l /\ wa_progress a = WorkProgress.Pending.
Proof. rewrite !list_elem_of_In, List.filter_In. unfold is_pending_allocation. by rewrite bool_decide_eq_true. Qed.

Lemma validate_change_run packs changes a :
  validate_change packs changes a = Ok tt ->
  exists c, c ∈ changes /\ cwc_before c = wa_requirement a /\ cwc_retired c = packs /\
    shortage_work packs (wa_requirement a) (cwc_after c).
Proof.
  unfold validate_change. intros (c & Hc & (e & He & Hg)%bind_Ok)%bind_Ok.
  apply ok_or_Ok, List.find_some in Hc as [Hc%list_elem_of_In _]. apply guard_Ok in Hg as [Hg _].
  breflect. exists c. split_and!; try done. replace (cwc_after c) with e by done.
  by apply shortage_requirement_run.
Qed.

Lemma posting_validate_run p : CountPostPlan_validate p = Ok tt -> posting_ok p.
Proof.
  unfold CountPostPlan_validate.
  rewrite !seq_Ok, map_err_Ok, observation_validate_Ok, validate_Ok, references_validate_Ok.
  intros (Ho & Hg & Hr & (id & Hid & Hk)%bind_Ok). apply guard_Ok in Hk as [Hb Hk].
  rewrite !orb_false_iff, some_and_false in Hb.
  apply bind_Ok in Hk as (d & (_ & Hd)%difference_Ok & He). breflect. destruct_and?.
  constructor; try done; [congruence|..].
  - intros at_ Hat. match goal with F : forall a, pg_causal_floor _ = Some a -> _ |- _ =>
      specialize (F at_ Hat); by apply Z.ltb_ge in F end.
  - unfold validate_effect in He. unfold effect_ok.
    destruct (cpp_effect p) as [|packs after rev changes|packs i source acc], d as [|q|q]; try done.
    + case_match; [|done]. breflect. subst. apply bind_Ok in He as (next & Hn%count_next_Ok & He).
      case_bool_decide; [|done]. subst. apply guard_Ok in He as [Hlen He]. breflect.
      rewrite try_for_each_Ok, list.Forall_forall in He. split_and!; try done.
      intros a Ha Hp. apply validate_change_run, He. by apply pending_elem.
    + case_match; [|done]. breflect. by subst.
Qed.

Lemma planned_changes packs pending changes :
  NoDup (requirement_id <$> pending) -> try_map (shortage_change packs) pending = Ok changes ->
  length pending = length changes /\ try_for_each (validate_change packs changes) pending = Ok tt.
Proof.
  intros Hn Hm. rewrite try_map_Ok in Hm. split; [by eapply Forall2_length|].
  apply try_for_each_Ok, list.Forall_forall. intros a (i & Hi)%list_elem_of_lookup.
  destruct (Forall2_lookup_l _ _ _ _ _ Hm Hi) as (c & Hci & Hc). unfold shortage_change in Hc.
  apply bind_Ok in Hc as (after & Ha & [= <-]). unfold validate_change.
  destruct (List.find _ changes) as [d|] eqn:Ef.
  2:{ apply (List.find_none _ _) with (x := {| cwc_before := wa_requirement a; cwc_after := after;
        cwc_retired := packs |}) in Ef; [|by apply list_elem_of_In, (list_elem_of_lookup_2 _ i)].
      simpl in Ef. by rewrite bool_decide_eq_true_2 in Ef. }
  apply List.find_some in Ef as [Hd%list_elem_of_In Hid%bool_decide_eq_true].
  apply list_elem_of_lookup in Hd as (j & Hj).
  destruct (Forall2_lookup_r _ _ _ _ _ Hm Hj) as (b & Hb & Hdb). unfold shortage_change in Hdb.
  apply bind_Ok in Hdb as (after' & Ha' & [= <-]). simpl in Hid.
  assert (a = b) as <-.
  { apply (NoDup_fmap_elem requirement_id pending); [done|by eapply list_elem_of_lookup_2..|done]. }
  rewrite Ha in Ha'. injection Ha' as <-. cbn [ok_or bind]. rewrite Ha. cbn [bind].
  by rewrite !bool_decide_eq_true_2.
Qed.

(** The current catalog records of the counted group. *)
Record current_references (catalog : ReferenceCatalog) (g : PhysicalStockGroup)
    (r : CountPostReferences) : Prop := {
  cr_variant : bt_get (pg_variant g) (rc_records catalog) = Some (cpr_variant r);
  cr_product : bt_get (rr_id (cpr_product r)) (rc_records catalog) = Some (cpr_product r);
  cr_location : bt_get (pg_location g) (rc_records catalog) = Some (cpr_location r)
}.

(** When a reviewed count may be posted. *)
Record postable (self : CountPostCommand) (count : CountObservation) (c : CountContext)
    (operation : HubRecordId) (now : UnixTimestamp) : Prop := {
  pa_fresh : cpc_expected_stock_revision self = ctx_stock_revision c /\
    cpc_expected_catalog_revision self = rc_revision (ctx_catalog c);
  pa_reviewed : cpc_count self = co_id count /\ cpc_reviewed_activity self = true;
  pa_times : raw (co_recorded_at count) <= raw now /\
    raw (ctx_latest_physical_recorded_at c) <= raw now;
  pa_reviewable : reviewable count c;
  pa_ready : forall reason, ~ blocks count c reason;
  pa_identified : is_Some (cpc_surplus_identification self) <->
    raw (cs_recorded_packs (co_scope count)) < raw (co_counted_packs count);
  pa_work : raw (co_counted_packs count) < raw (cs_recorded_packs (co_scope count)) ->
    raw (pg_revision (ctx_group c)) < HubRevision_MAXIMUM /\
    forall a, a ∈ pg_work (ctx_group c) -> wa_progress a = WorkProgress.Pending ->
      raw (wr_revision (wa_requirement a)) < HubRevision_MAXIMUM;
  pa_references : exists r, current_references (ctx_catalog c) (ctx_group c) r /\
    references_ok r (co_scope count) (rc_revision (ctx_catalog c));
  pa_identity : exists id, count_reconciliation_id operation = Ok id;
  pa_stock : raw (ctx_stock_revision c) < HubRevision_MAXIMUM
}.

(** The posting of it. *)
Record posted (self : CountPostCommand) (count : CountObservation) (c : CountContext)
    (operation : HubRecordId) (actor : PublicKey) (now : UnixTimestamp) (p : CountPostPlan)
  : Prop := {
  po_valid : posting_ok p;
  po_count : cpp_count p = count;
  po_group : cpp_before p = ctx_group c;
  po_stock : raw (cpp_stock_revision p) = raw (ctx_stock_revision c) + 1;
  po_catalog : cpp_catalog_revision p = rc_revision (ctx_catalog c);
  po_references : current_references (ctx_catalog c) (ctx_group c) (cpp_references p);
  po_stamp : cpp_operation p = operation /\ cpp_actor p = actor /\ cpp_recorded_at p = now /\
    cpp_reason p = cpc_reason self;
  po_identified : match cpp_effect p with
    | CountEffect.Surplus _ identification _ _ =>
        cpc_surplus_identification self = Some identification
    | _ => cpc_surplus_identification self = None
    end
}.

Lemma ready_iff r : CountReview_ready r = true <-> crv_blockers r = [].
Proof. unfold CountReview_ready. by destruct (crv_blockers r). Qed.

Lemma post_effect_identified self count g d e :
  difference_spec count d -> post_effect self count g d = Ok e ->
  (is_Some (cpc_surplus_identification self) <->
    raw (cs_recorded_packs (co_scope count)) < raw (co_counted_packs count)) /\
  match e with
  | CountEffect.Surplus _ identification _ _ => cpc_surplus_identification self = Some identification
  | _ => cpc_surplus_identification self = None
  end.
Proof.
  unfold post_effect. intros Hd He. destruct d as [|packs|packs], (cpc_surplus_identification self) as [i|];
    simpl in Hd; try discriminate He; run_ok; (split; [|done]).
  - split; [by intros []|lia].
  - split; [by intros []|lia].
  - split; [intros _; lia|by eexists].
Qed.

Lemma post_plan_run self count c operation actor now p :
  catalog_wf (ctx_catalog c) -> CountPostCommand_plan self count c operation actor now = Ok p ->
  postable self count c operation now /\ posted self count c operation actor now p.
Proof.
  intros Hcw Hp. unfold CountPostCommand_plan in Hp.
  apply guard_Ok in Hp as [Hb1 Hp]. apply guard_Ok in Hp as [Hb2 Hp]. apply guard_Ok in Hp as [Hb3 Hp].
  apply bind_Ok in Hp as (review & Hrev & Hp). apply guard_Ok in Hp as [Hready Hp].
  pose proof (review_run count c) as Hr. rewrite Hrev in Hr. destruct Hr as (Hrv & Hd & Hbl).
  apply negb_false_iff, ready_iff in Hready. rewrite Hready in Hbl.
  destruct (co_cutoff count) as [at_| |] eqn:Ecut; try done.
  apply bind_Ok in Hp as (effect & He & Hp). run_ok. rewrite require_kind_Ok, count_next_Ok in *.
  match goal with V : CountPostPlan_validate _ = Ok tt |- _ => apply posting_validate_run in V as Hok end.
  breflect. destruct_and?.
  destruct (post_effect_identified _ _ _ _ _ Hd He) as [Hi1 Hi2].
  match type of Hok with posting_ok ?x => set (r := x) in * end.
  assert (current_references (ctx_catalog c) (ctx_group c) (cpp_references r)) as Hcr.
  { constructor; simpl; try done. match goal with G : bt_get product _ = Some ?v |- _ =>
      by rewrite (cw_keys _ Hcw _ _ G) end. }
  split.
  - constructor; try done.
    + by intros reason Hreason%Hbl%not_elem_of_nil.
    + intros Hlt. pose proof (pk_effect _ Hok) as Heff. unfold effect_ok, r in Heff. simpl in Heff.
      destruct effect as [|packs after rev changes|packs i source acc]; simpl in Heff; [lia| |lia].
      destruct Heff as (_ & _ & Hn & _ & Hw). split; [by eapply next_bound|].
      intros a Ha Hpa. destruct (Hw a Ha Hpa) as (ch & _ & _ & _ & [_ _ _ _ _ Hv]). by eapply next_bound.
    + exists (cpp_references r). split; [done|]. apply Hok.
    + by eexists.
    + by eapply next_bound.
  - by constructor.
Qed.

(** What readiness means for the current group. *)
Lemma ready_scope count c :
  (forall reason, ~ blocks count c reason) ->
  scope_unchanged (co_scope count) (ctx_hub c) (ctx_group c) /\
  exists at_, co_cutoff count = Occurrence.Known at_ /\
    raw (ctx_latest_physical_recorded_at c) <= raw at_.
Proof.
  intros Hn. split.
  - pose proof (Hn CountBlockReason.ScopeChanged) as Hs. simpl in Hs. rewrite <- scope_changed_iff in Hs.
    apply not_true_iff_false in Hs. rewrite !orb_false_iff, !negb_false_iff, !bool_decide_eq_true in Hs.
    destruct Hs as ((((((? & ?) & ?) & ?) & ?) & ?) & ?). by constructor.
  - destruct (co_cutoff count) as [at_|a b|] eqn:E.
    + exists at_. split; [done|]. apply Z.nlt_ge. intros Hlt.
      apply (Hn CountBlockReason.CutoffPrecedesRecordedActivity). simpl. by exists at_.
    + exfalso. apply (Hn CountBlockReason.CutoffUncertain). simpl. intros at_. by rewrite E.
    + exfalso. apply (Hn CountBlockReason.CutoffUncertain). simpl. intros at_. by rewrite E.
Qed.

(** The effect of a postable count can be computed, and is the valid one. *)
Lemma post_effect_total self count c operation now d p :
  postable self count c operation now -> difference_spec count d ->
  cpp_count p = count -> cpp_before p = ctx_group c ->
  exists e, post_effect self count (ctx_group c) d = Ok e /\
    (cpp_effect p = e -> validate_effect p d = Ok tt).
Proof.
  intros Hp Hd Hc Hb. destruct (ready_scope _ _ (pa_ready _ _ _ _ _ Hp)) as [Hsu _].
  pose proof (cg_group _ _ (xo_group _ (rv_context _ _ (pa_reviewable _ _ _ _ _ Hp)))) as Hg. simpl in Hg.
  unfold post_effect, validate_effect. pose proof (pa_identified _ _ _ _ _ Hp) as Hi.
  rewrite Hc, Hb. destruct d as [|packs|packs]; simpl in Hd.
  - destruct (cpc_surplus_identification self); [exfalso; apply (Z.lt_irrefl (raw (co_counted_packs count)));
      rewrite Hd at 1; apply Hi; by eexists|].
    eexists. split; [done|]. by intros ->.
  - destruct (cpc_surplus_identification self).
    { assert (raw (cs_recorded_packs (co_scope count)) < raw (co_counted_packs count)) by (apply Hi; by eexists). lia. }
    destruct (pa_work _ _ _ _ _ Hp) as [Hgr Hwr]; [lia|].
    destruct (count_next_total _ Hgr) as [rev Hrev]. set (pending := List.filter _ _).
    assert (exists changes, try_map (shortage_change packs) pending = Ok changes) as [changes Hch].
    { assert (Forall (fun a => exists ch, shortage_change packs a = Ok ch) pending) as Hf.
      { apply list.Forall_forall. intros a [Ha Hpa]%pending_elem. pose proof (go_work _ Hg) as Hw.
        rewrite list.Forall_forall in Hw. pose proof (ao_packs _ _ (Hw a Ha)) as Hle.
        unfold accounted_packs in Hle. rewrite Hpa, (su_packs _ _ _ Hsu) in Hle.
        pose proof (WholePacks_range (co_counted_packs count)).
        destruct (shortage_requirement_total (wa_requirement a) packs) as [after Hafter]; [lia|by apply Hwr|].
        unfold shortage_change. rewrite Hafter. by eexists. }
      clear -Hf. induction Hf as [|a l [ch Hch] _ [chs IH]]; [by exists []|].
      exists (ch :: chs). simpl. by rewrite Hch, IH. }
    rewrite Hch. cbn [bind]. rewrite Hrev. cbn [bind]. eexists. split; [done|]. intros ->.
    rewrite !bool_decide_eq_true_2 by done. cbn [andb bind].
    destruct (planned_changes packs pending changes) as [Hlen Hv]; [|done|].
    { apply NoDup_fmap_filter, Hg. }
    by rewrite Hlen, Nat.eqb_refl.
  - destruct (cpc_surplus_identification self) as [i|]; cbn [ok_or bind].
    2:{ assert (is_Some (@None PhysicalIdentification)) as [? [=]]. apply Hi. lia. }
    eexists. split; [done|]. intros ->. by rewrite !bool_decide_eq_true_2.
Qed.

Lemma postable_plan self count c operation actor now :
  catalog_wf (ctx_catalog c) -> postable self count c operation now ->
  exists p, CountPostCommand_plan self count c operation actor now = Ok p.
Proof.
  intros Hcw Hp. pose proof Hp as [[F1 F2] [R1 R2] [T1 T2] Hrv Hready Hi Hw (refs & Hcr & Hrk) [id Hid] Hst].
  pose proof Hrv as [Hok Hctx Hrs Hrc Hra].
  destruct (ready_scope _ _ Hready) as [Hsu (at_ & Hcut & Hat)].
  unfold CountPostCommand_plan. rewrite F1, F2, R1, R2, !bool_decide_eq_true_2 by done. cbn [negb orb].
  rewrite !(proj2 (Z.ltb_ge _ _)) by done. cbn [orb].
  pose proof (review_run count c) as Hr. destruct (CountObservation_review count c) as [review|]; [|done].
  destruct Hr as (_ & Hd & Hbl). cbn [bind].
  rewrite (proj2 (ready_iff review)); [cbn [negb]|].
  2:{ destruct (crv_blockers review) as [|b l]; [done|]. exfalso. apply (Hready b), Hbl. by left. }
  rewrite Hcut. destruct (count_next_total _ Hst) as [stock Hstock].
  destruct (post_effect_total self count c operation now (crv_difference review)
    {| cpp_id := id; cpp_operation := operation; cpp_count := count; cpp_before := ctx_group c;
       cpp_stock_revision := stock; cpp_catalog_revision := rc_revision (ctx_catalog c);
       cpp_references := refs; cpp_actor := actor; cpp_recorded_at := now;
       cpp_confirmed_on_hand_at := at_; cpp_effect := CountEffect.NoVariance; cpp_reason := cpc_reason self |}
    Hp Hd eq_refl eq_refl) as (effect & He & _).
  destruct (post_effect_total self count c operation now (crv_difference review)
    {| cpp_id := id; cpp_operation := operation; cpp_count := count; cpp_before := ctx_group c;
       cpp_stock_revision := stock; cpp_catalog_revision := rc_revision (ctx_catalog c);
       cpp_references := refs; cpp_actor := actor; cpp_recorded_at := now;
       cpp_confirmed_on_hand_at := at_; cpp_effect := effect; cpp_reason := cpc_reason self |}
    Hp Hd eq_refl eq_refl) as (effect' & He' & Hve).
  rewrite He in He'. injection He' as <-. specialize (Hve eq_refl). rewrite He. cbn [bind].
  pose proof Hrk as [(P1 & P2 & P3) (V1 & V2 & V3) (L1 & L2) (l & l' & pu & Lv & Lv')].
  destruct (so_variant _ (oo_scope _ Hok)) as (label & grams & Hvar).
  rewrite (proj2 (require_kind_Ok _ _ _ (cpr_variant refs))) by (split; [apply Hcr|done]).
  cbn [map_err bind]. rewrite <- V1 in Hvar. rewrite Hvar, <- P1.
  rewrite (proj2 (require_kind_Ok _ _ _ (cpr_product refs))) by (split; [apply Hcr|done]).
  rewrite (proj2 (require_kind_Ok _ _ _ (cpr_location refs))) by (split; [apply Hcr|by rewrite Lv]).
  cbn [map_err bind]. rewrite Hid. cbn [bind]. rewrite Hstock. cbn [bind]. apply count_next_Ok in Hstock.
  match goal with |- exists p, (CountPostPlan_validate ?x ;;? _) = _ =>
    assert (CountPostPlan_validate x = Ok tt) as ->; [|by eexists] end.
  unfold CountPostPlan_validate. simpl. rewrite (proj2 (observation_validate_Ok _)) by done. cbn [bind].
  rewrite (proj2 (validate_Ok _)) by apply Hctx. cbn [map_err bind].
  destruct refs as [rp rv rl]. rewrite (proj2 (references_validate_Ok _ _ _)) by done. cbn [bind].
  rewrite Hid. cbn [bind]. apply guard_Ok. split.
  2:{ rewrite (proj2 (difference_Ok _ (crv_difference review))) by done. exact Hve. }
  destruct Hsu. rewrite !orb_false_iff, some_and_false, !negb_false_iff, !bool_decide_eq_true.
  rewrite !Z.ltb_ge, Z.leb_gt. split_and!; try done; try lia.
  intros fl Hfl. apply Z.ltb_ge. pose proof (xo_floor _ Hctx fl Hfl) as Hf. simpl in Hf. lia.
Qed.

(** C10: a count is posted exactly when it was reviewed in full, no reason
    stands against it, its records still agree with the catalog and the
    revisions can advance.  The posting keeps the counted group as it was and
    answers the difference exactly: nothing for an even count; for a shortage
    the counted packs stay on hand and every pending requirement of the group
    is retired by the missing packs; for a surplus the extra packs, identified
    separately, with unknown source and under review. *)
Theorem count_post_correct self count c operation actor now :
  catalog_wf (ctx_catalog c) ->
  match CountPostCommand_plan self count c operation actor now with
  | Ok p => postable self count c operation now /\ posted self count c operation actor now p
  | Err _ => ~ postable self count c operation now
  end.
Proof.
  intros Hc. destruct (CountPostCommand_plan self count c operation actor now) as [p|e] eqn:E.
  - by apply post_plan_run.
  - intros Hp. destruct (postable_plan self count c operation actor now Hc Hp). congruence.
Qed.
End Postings.

(** ** A count that nothing disturbed can be posted *)

Section Settlement.
Context `{Sha256}.

Lemma has_kind_history c c' id kind :
  rtc catalog_step c c' -> has_kind c id kind -> has_kind c' id kind.
Proof.
  intros [Hh _]%catalog_run_history (r & Hg & Hk). destruct (Hh _ _ Hg) as (r' & Hg' & [Hk' _ _ _ _]).
  exists r'. by rewrite Hk'.
Qed.

Lemma catalogued_history c c' g : rtc catalog_step c c' -> catalogued c g -> catalogued c' g.
Proof.
  intros Hr [Hg Hv Hl Ht]. constructor; [done|by eapply has_kind_history..|].
  eapply list.Forall_impl; [exact Ht|]. intros a Ha t E. eapply has_kind_history; [done|by apply Ha].
Qed.

(** Records of the observed catalog, as a later catalog holds them. *)
Lemma references_history c c' g (o : CountScope) :
  catalog_wf c -> catalog_wf c' -> rtc catalog_step c c' -> scope_ok o ->
  bt_get (pg_variant g) (rc_records c) = Some (cs_variant o) ->
  bt_get (rr_id (cs_product o)) (rc_records c) = Some (cs_product o) ->
  bt_get (pg_location g) (rc_records c) = Some (cs_location o) ->
  exists r, current_references c' g r /\ references_ok r o (rc_revision c').
Proof.
  intros Hw Hw' [Hh _]%catalog_run_history [_ Hp Hl (label & grams & Hv) _] Gv Gp Gl.
  destruct (Hh _ _ Gv) as (v & Gv' & Rv), (Hh _ _ Gp) as (p & Gp' & Rp), (Hh _ _ Gl) as (l & Gl' & Rl).
  assert (v = cs_variant o) as -> by (apply (rh_pack _ _ Rv); by rewrite Hv).
  exists {| cpr_product := p; cpr_variant := cs_variant o; cpr_location := l |}.
  pose proof (cw_keys _ Hw' _ _ Gp') as Kp. pose proof (cw_keys _ Hw' _ _ Gl') as Kl.
  pose proof (cw_keys _ Hw _ _ Gl) as Kl0. pose proof (cw_revisions _ Hw' _ _ Gp').
  pose proof (cw_revisions _ Hw' _ _ Gl'). pose proof (cw_revisions _ Hw' _ _ Gv').
  pose proof (rh_revision _ _ Rp). pose proof (rh_revision _ _ Rl).
  split; [constructor; simpl; congruence|]. constructor; simpl.
  - split_and!; try done. rewrite (rh_kind _ _ Rp). done.
  - split_and!; try done. by rewrite Hv.
  - split; [congruence|lia].
  - pose proof (rh_kind _ _ Rl) as Hk. rewrite Hl in Hk.
    destruct (rr_value (cs_location o)) as [| | |lo po] eqn:E1; try done.
    destruct (rr_value l) as [| | |ln pn] eqn:E2; try done.
    rewrite (rh_purpose _ _ Rl _ _ _ _ E1 E2). eauto.
Qed.

(** Since the count the catalog may have been edited and other stock moved, but
    the counted group is as it was and nothing about it is unresolved. *)
Record undisturbed (oc : CountObservationContext) (o : CountObservation) (c : CountContext) : Prop := {
  un_hub : ctx_hub c = cox_hub oc;
  un_group : ctx_group c = cox_group oc;
  un_catalog : rtc catalog_step (cox_catalog oc) (ctx_catalog c);
  un_stock : raw (co_recorded_revision o) <= raw (ctx_stock_revision c) < HubRevision_MAXIMUM;
  un_activity : raw (cox_latest_physical_recorded_at oc) <= raw (ctx_latest_physical_recorded_at c);
  un_cutoff : exists at_, co_cutoff o = Occurrence.Known at_ /\
    raw (ctx_latest_physical_recorded_at c) <= raw at_;
  un_reconciliation : ctx_previous_reconciliation c = cox_previous_reconciliation oc;
  un_latest : ctx_latest_observation c = Some (co_id o);
  un_resolved : ctx_unresolved_actual c = false /\ ctx_uncertain_intent c = false
}.

(** A request that names this count and these revisions. *)
Record post_request (self : CountPostCommand) (o : CountObservation) (c : CountContext)
    (operation : HubRecordId) (now : UnixTimestamp) : Prop := {
  pq_fresh : cpc_expected_stock_revision self = ctx_stock_revision c /\
    cpc_expected_catalog_revision self = rc_revision (ctx_catalog c);
  pq_reviewed : cpc_count self = co_id o /\ cpc_reviewed_activity self = true;
  pq_times : raw (co_recorded_at o) <= raw now /\ raw (ctx_latest_physical_recorded_at c) <= raw now;
  pq_identified : is_Some (cpc_surplus_identification self) <->
    raw (cs_recorded_packs (co_scope o)) < raw (co_counted_packs o);
  pq_revisions : raw (pg_revision (ctx_group c)) < HubRevision_MAXIMUM /\
    forall a, a ∈ pg_work (ctx_group c) -> raw (wr_revision (wa_requirement a)) < HubRevision_MAXIMUM;
  pq_identity : exists id, count_reconciliation_id operation = Ok id
}.

Lemma wf_run c c' : rtc catalog_step c c' -> catalog_wf c -> catalog_wf c'.
Proof. induction 1 as [|c1 c2 c3 Hs _ IH]; [done|]. intros Hw. apply IH. by eapply catalog_step_wf. Qed.

Lemma undisturbed_postable cmd oc op actor at_ o c self operation now :
  catalog_wf (cox_catalog oc) -> CountObserveCommand_plan cmd oc op actor at_ = Ok o ->
  undisturbed oc o c -> post_request self o c operation now ->
  postable self o c operation now.
Proof.
  intros Hw Ho [Hh Hg Hc [Hs1 Hs2] Ha (t & Ht1 & Ht2) Hrec Hlat [Hu1 Hu2]] [Qf Qr Qt Qi [Qg Qw] Qid].
  apply observe_plan_Ok in Ho; [|done]. destruct Ho as [[Hcat Hfl] _ Hact Hok (G1 & G2 & G3) Hobs].
  assert (co_scope o = {| cs_hub := cox_hub oc; cs_stock_revision := cox_stock_revision oc;
      cs_catalog_revision := rc_revision (cox_catalog oc); cs_trace := pg_trace (cox_group oc);
      cs_group := pg_id (cox_group oc); cs_group_revision := pg_revision (cox_group oc);
      cs_product := cs_product (co_scope o); cs_variant := cs_variant (co_scope o);
      cs_location := cs_location (co_scope o); cs_recorded_packs := pg_packs (cox_group oc);
      cs_latest_physical_recorded_at := cox_latest_physical_recorded_at oc;
      cs_previous_reconciliation := cox_previous_reconciliation oc |}) as Hsc by by rewrite Hobs at 1.
  pose proof (wf_run _ _ Hc Hw) as Hw'. destruct (catalog_run_history _ _ Hc) as (_ & Hcr & _).
  constructor; try done.
  - constructor; [done| |done|by rewrite Hsc|by rewrite Hsc].
    constructor; simpl; [rewrite Hg; by eapply catalogued_history|].
    intros f Hf. rewrite Hg in Hf. specialize (Hfl f Hf). lia.
  - intros reason. destruct reason; simpl.
    + intros Hn. apply Hn. rewrite Hg, Hh. rewrite Hsc. constructor; simpl; try done.
      * by rewrite (cw_keys _ Hw _ _ G1).
      * by rewrite (cw_keys _ Hw _ _ G3).
    + rewrite Hsc, Hrec. simpl. by intros [].
    + intros Hn. by apply Hn.
    + intros Hn. by apply (Hn t).
    + intros (u & Hu & Hlt). rewrite Hu in Ht1. injection Ht1 as ->. lia.
    + by rewrite Hu1.
    + by rewrite Hu2.
  - intros _. split; [done|]. intros a Hin _. by apply Qw.
  - rewrite Hg. apply (references_history (cox_catalog oc)); [done..|apply Hok|done|done|done].
Qed.

(** A recorded count can be posted later as long as its group was left
    alone and nothing about it is unresolved, whatever happened to the catalog
    in between: reference records can be renamed but packs and location
    purposes cannot change, so the records of the count keep agreeing with the
    catalog. *)
Theorem count_settles cmd oc op actor at_ o c self operation poster now :
  catalog_wf (cox_catalog oc) -> CountObserveCommand_plan cmd oc op actor at_ = Ok o ->
  undisturbed oc o c -> post_request self o c operation now ->
  exists p, CountPostCommand_plan self o c operation poster now = Ok p /\ cpp_count p = o.
Proof.
  intros Hw Ho Hu Hq. pose proof (wf_run _ _ (un_catalog _ _ _ Hu) Hw) as Hw'.
  destruct (postable_plan self o c operation poster now Hw') as [p Hp].
  { by eapply undisturbed_postable. }
  exists p. split; [done|]. apply (post_plan_run _ _ _ _ _ _ _ Hw' Hp).
Qed.
End Settlement.

(** ** What a posting leaves on hand *)

Section Outcomes.
Context `{Sha256}.

(** The packs of the counted trace on hand once a posting is applied: those of
    the counted group and, for a surplus, those of the new group. *)
Definition on_hand_after (p : CountPostPlan) : Z :=
  match cpp_effect p with
  | CountEffect.NoVariance => raw (pg_packs (cpp_before p))
  | CountEffect.Shortage _ after_packs _ _ => raw after_packs
  | CountEffect.Surplus packs _ _ _ => raw (pg_packs (cpp_before p)) + raw packs
  end.

(** What a shortage does to the scope of one allocation of the group. *)
Record scope_reduced (p : CountPostPlan) (a : WorkAllocation) (x : CountWorkScopeChange) : Prop := {
  sr_work : cwx_work x = requirement_id a;
  sr_progress : cwx_before_progress x = wa_progress a;
  sr_before : cwx_before_scoped x = pg_packs (cpp_before p);
  sr_counted : cwx_on_hand_after x = co_counted_packs (cpp_count p);
  sr_balance : 0 < raw (cwx_removed x) /\
    raw (cwx_on_hand_after x) + raw (cwx_removed x) = raw (cwx_before_scoped x);
  sr_retired : cwx_removed_progress x =
    if wa_progress a ==? WorkProgress.Pending then WorkProgress.NoLongerRequired else wa_progress a;
  sr_account : wa_progress a = WorkProgress.Pending -> exists c,
    c ∈ effect_changes (cpp_effect p) /\ cwc_before c = wa_requirement a /\
    shortage_work (cwx_removed x) (wa_requirement a) (cwc_after c)
}.

Lemma removed_progress_eq pr :
  removed_progress pr = if pr ==? WorkProgress.Pending then WorkProgress.NoLongerRequired else pr.
Proof. by destruct pr. Qed.

Lemma posting_on_hand p : posting_ok p -> on_hand_after p = raw (co_counted_packs (cpp_count p)).
Proof.
  intros Hok. pose proof (pk_effect _ Hok) as He. pose proof (su_packs _ _ _ (pk_scope _ Hok)) as Hp.
  unfold effect_ok, on_hand_after in *.
  destruct (cpp_effect p); simpl in He; [congruence|by destruct He as (_ & -> & _)|].
  rewrite Hp. lia.
Qed.

(** An accepted posting leaves exactly the counted packs on hand, whatever
    its effect, and only a shortage touches work: then every allocation of the
    group, in order, has its scope cut from the recorded to the counted packs,
    pending work becoming no longer required for the missing packs in the same
    amount its requirement records, and settled work keeping its progress. *)
Theorem count_balances p :
  match CountPostPlan_work_scope_changes p with
  | Ok changes => CountPostPlan_validate p = Ok tt /\
      on_hand_after p = raw (co_counted_packs (cpp_count p)) /\
      (if bool_decide (raw (co_counted_packs (cpp_count p)) < raw (pg_packs (cpp_before p)))
       then Forall2 (scope_reduced p) (pg_work (cpp_before p)) changes else changes = [])
  | Err e => CountPostPlan_validate p = Err e
  end.
Proof.
  unfold CountPostPlan_work_scope_changes.
  destruct (CountPostPlan_validate p) as [[]|e] eqn:Ev; [cbn [bind]|done].
  apply posting_validate_run in Ev as Hok. pose proof (posting_on_hand p Hok) as Hon.
  pose proof (pk_effect _ Hok) as He. pose proof (su_packs _ _ _ (pk_scope _ Hok)) as Hp.
  unfold effect_ok in He. rewrite Hp.
  destruct (cpp_effect p) as [|packs after rev changes|packs i s acc] eqn:Ee; simpl in He.
  - split_and!; try done. by rewrite bool_decide_eq_false_2 by lia.
  - destruct He as ([Hpos Hbal] & -> & _ & _ & Hw). split_and!; try done.
    rewrite bool_decide_eq_true_2 by lia. apply Forall2_fmap_r, Forall_Forall2_diag, list.Forall_forall.
    intros a Ha. constructor; simpl; try done; [apply removed_progress_eq|].
    intros Hpa. destruct (Hw a Ha Hpa) as (c & Hc & Hb & _ & Hs). exists c. by rewrite Ee.
  - split_and!; try done. by rewrite bool_decide_eq_false_2 by lia.
Qed.

(** The identities that a posting already uses. *)
Definition used_ids (p : CountPostPlan) : list HubRecordId :=
  [cpp_id p; co_id (cpp_count p); pg_id (cpp_before p); pg_trace (cpp_before p)].
Definition surplus_ids (p : CountPostPlan) (ids : CountSurplusIdentities) : Prop :=
  CountSurplusIdentities_from_operation (cpp_operation p) = Ok ids /\
  csi_population ids <> csi_group ids /\
  csi_population ids ∉ used_ids p /\ csi_group ids ∉ used_ids p.

(** The stock a surplus becomes. *)
Record surplus_stock (p : CountPostPlan) (s : CountSurplusPlan) : Prop := {
  ss_ids : surplus_ids p
    {| csi_population := sp_id (csp_population s); csi_group := pg_id (csp_group s) |};
  ss_group : group_ok (csp_group s);
  ss_trace : pg_trace (csp_group s) = sp_id (csp_population s);
  ss_place : pg_variant (csp_group s) = pg_variant (cpp_before p) /\
    pg_location (csp_group s) = pg_location (cpp_before p);
  ss_apart : is_Some (pg_identification (csp_group s)) /\ pg_parent (csp_group s) = None /\
    pg_work (csp_group s) = [];
  ss_packs : pg_packs (csp_group s) = sp_original_packs (csp_population s) /\
    raw (pg_packs (cpp_before p)) + raw (pg_packs (csp_group s)) = raw (co_counted_packs (cpp_count p));
  ss_source : sp_source (csp_population s) = SourceAttribution.Unknown /\
    sp_supplier (csp_population s) = None /\ sp_producer (csp_population s) = None /\
    sp_origin (csp_population s)
      = PopulationOrigin.CountedSurplus (co_id (cpp_count p)) (pg_trace (cpp_before p));
  ss_review : csp_acceptance s = AcceptanceStatus.ReviewRequired;
  ss_time : pg_causal_floor (csp_group s) = Some (cpp_confirmed_on_hand_at p) /\
    raw (cpp_confirmed_on_hand_at p) <= raw (sp_recorded_at (csp_population s))
}.

Lemma existsb_elem (l : list HubRecordId) x : existsb (fun id => id ==? x) l = true <-> x ∈ l.
Proof.
  rewrite existsb_exists. split.
  - by intros (y & Hy%list_elem_of_In & <-%bool_decide_eq_true).
  - intros Hx. exists x. by rewrite <- list_elem_of_In, bool_decide_eq_true.
Qed.

(** The posting happened no earlier than the confirmed cutoff. *)
Lemma posting_cutoff p :
  posting_ok p -> raw (cpp_confirmed_on_hand_at p) <= raw (cpp_recorded_at p).
Proof.
  intros Hok. pose proof (oo_cutoff _ (pk_count _ Hok)) as Hc. rewrite (pk_cutoff _ Hok) in Hc.
  pose proof (pk_recorded _ Hok). unfold Occurrence_validate in Hc. simpl in Hc. case_match; [|done]. breflect. lia.
Qed.

(** The extra packs of a surplus never join the counted group.  They become
    a population of unknown source traced to the count, in one identified group
    of their own at the same place and of the same pack, with no work, under
    review and known on hand since the confirmed cutoff; together with the
    counted group they make up the counted packs.  This fails only for an
    invalid posting or when the derived identities are not fresh, and a posting
    without a surplus creates no stock. *)
Theorem count_surplus_correct p :
  match CountPostPlan_surplus p with
  | Ok (Some s) => CountPostPlan_validate p = Ok tt /\ surplus_stock p s
  | Ok None => CountPostPlan_validate p = Ok tt /\
      raw (co_counted_packs (cpp_count p)) <= raw (pg_packs (cpp_before p))
  | Err _ => CountPostPlan_validate p = Ok tt ->
      raw (pg_packs (cpp_before p)) < raw (co_counted_packs (cpp_count p)) /\
      forall ids, ~ surplus_ids p ids
  end.
Proof.
  unfold CountPostPlan_surplus.
  destruct (CountPostPlan_validate p) as [[]|e] eqn:Ev; [cbn [bind]|done].
  apply posting_validate_run in Ev as Hok. pose proof (pk_effect _ Hok) as He.
  pose proof (pk_scope _ Hok) as [_ _ _ Hv Hl _ Hp]. unfold effect_ok in He.
  pose proof (pk_references _ Hok) as [_ (Rv & _) (Rl & _) _].
  destruct (cpp_effect p) as [|packs after rev changes|packs i s acc]; simpl in He; rewrite ?Hp;
    [by split; [|lia]..|].
  destruct He as ([Hpos Hbal] & _).
  destruct (CountSurplusIdentities_from_operation (cpp_operation p)) as [ids|e] eqn:Ei; cbn [bind].
  2:{ split; [lia|]. intros ids [Hids _]. congruence. }
  split_guard Hb.
  - split; [lia|]. intros ids' (Hids & Hne & Hn1 & Hn2). rewrite Ei in Hids. injection Hids as <-.
    rewrite !orb_true_iff, bool_decide_eq_true in Hb. rewrite !existsb_elem in Hb. naive_solver.
  - split; [done|]. rewrite !orb_false_iff, bool_decide_eq_false in Hb. destruct Hb as [[Hne H1] H2].
    apply not_true_iff_false in H1, H2. rewrite existsb_elem in H1, H2. pose proof (posting_cutoff p Hok).
    constructor; simpl; try done; try (by destruct ids); rewrite ?Hp, ?Rv, ?Rl; try (by eauto with lia).
    constructor; simpl; try done; try (by intros []); unfold HUB_GROUP_REQUIREMENTS; try lia; constructor.
Qed.
End Outcomes.

(** ** A concrete count *)

Definition sample_count_context : CountObservationContext :=
  {| cox_hub := sample_hub; cox_stock_revision := sample_revision 9; cox_catalog := sample_catalog;
     cox_group := sample_group 51 10 [pending sample_requirement];
     cox_latest_physical_recorded_at := sample_time 150; cox_previous_reconciliation := None |}.
Definition sample_observe : CountObserveCommand :=
  {| obs_expected_stock_revision := sample_revision 9;
     obs_expected_catalog_revision := sample_revision 7;
     obs_group := sample_id 51; obs_expected_group_revision := HubRevision_INITIAL;
     obs_counted_packs := sample_packs 7; obs_cutoff := Occurrence.Known (sample_time 200);
     obs_observation := sample_provenance "Counted" |}.
Abbreviation sample_observed :=
  (@CountObserveCommand_plan sample_sha256 sample_observe sample_count_context (sample_id 71)
    (sample_key 1) (sample_time 210)).

(** Since then the product was renamed and other stock moved. *)
Definition sample_post_context (o : CountObservation) : CountContext :=
  {| ctx_hub := sample_hub; ctx_stock_revision := sample_revision 12; ctx_catalog := sample_catalog2;
     ctx_group := sample_group 51 10 [pending sample_requirement];
     ctx_latest_physical_recorded_at := sample_time 190; ctx_previous_reconciliation := None;
     ctx_latest_observation := Some (co_id o); ctx_unresolved_actual := false;
     ctx_uncertain_intent := false |}.
Definition sample_post (o : CountObservation) : CountPostCommand :=
  {| cpc_expected_stock_revision := sample_revision 12;
     cpc_expected_catalog_revision := sample_revision 8;
     cpc_count := co_id o; cpc_reviewed_activity := true; cpc_surplus_identification := None;
     cpc_reason := sample_provenance "Missing" |}.

Lemma sample_catalog2_wf : catalog_wf sample_catalog2.
Proof. exact (catalog_step_wf _ _ sample_catalog_step sample_catalog_wf). Qed.

Lemma sample_counted : exists o p, sample_observed = Ok o /\
  (raw (co_recorded_revision o), raw (co_counted_packs o), raw (co_recorded_at o),
   raw (cs_recorded_packs (co_scope o)), co_cutoff o)
    = (10, 7, 210, 10, Occurrence.Known (sample_time 200)) /\
  @CountPostCommand_plan sample_sha256 (sample_post o) o (sample_post_context o) (sample_id 72)
    (sample_key 1) (sample_time 260) = Ok p /\
  (fun c => raw (remaining (wr_quantity (cwc_after c)))) <$> effect_changes (cpp_effect p) = [7].
Proof.
  assert (match sample_observed with
    | Ok o =>
        bool_decide ((raw (co_recorded_revision o), raw (co_counted_packs o), raw (co_recorded_at o),
          raw (cs_recorded_packs (co_scope o)), co_cutoff o)
          = (10, 7, 210, 10, Occurrence.Known (sample_time 200))) &&
        match @CountPostCommand_plan sample_sha256 (sample_post o) o (sample_post_context o)
            (sample_id 72) (sample_key 1) (sample_time 260) with
        | Ok p => bool_decide
            ((fun c => raw (remaining (wr_quantity (cwc_after c)))) <$> effect_changes (cpp_effect p) = [7])
        | Err _ => false
        end
    | Err _ => false end = true) as H by (vm_compute; reflexivity).
  destruct sample_observed as [o|]; [|done]. exists o.
  apply andb_true_iff in H as [H1%bool_decide_eq_true H2].
  destruct (@CountPostCommand_plan _ _ _ _ _ _ _) as [p|]; [|done]. exists p.
  apply bool_decide_eq_true in H2. split_and!; reflexivity || assumption.
Qed.

Lemma count_post_correct_witness : exists o p,
  @CountPostCommand_plan sample_sha256 (sample_post o) o (sample_post_context o) (sample_id 72)
    (sample_key 1) (sample_time 260) = Ok p /\
  @posted sample_sha256 (sample_post o) o (sample_post_context o) (sample_id 72) (sample_key 1)
    (sample_time 260) p.
Proof.
  destruct sample_counted as (o & p & _ & _ & E & _). exists o, p. split; [exact E|].
  pose proof (@count_post_correct sample_sha256 (sample_post o) o (sample_post_context o)
    (sample_id 72) (sample_key 1) (sample_time 260) sample_catalog2_wf) as H.
  rewrite E in H. exact (proj2 H).
Defined.

Lemma sample_undisturbed o :
  (raw (co_recorded_revision o), raw (co_counted_packs o), raw (co_recorded_at o),
   raw (cs_recorded_packs (co_scope o)), co_cutoff o)
    = (10, 7, 210, 10, Occurrence.Known (sample_time 200)) ->
  undisturbed sample_count_context o (sample_post_context o) /\
  @post_request sample_sha256 (sample_post o) o (sample_post_context o) (sample_id 72) (sample_time 260).
Proof.
  intros [= Hr Hc Ha Hs Hk]. split.
  - constructor; try reflexivity; cbn [sample_post_context ctx_stock_revision].
    + exact (rtc_once _ _ sample_catalog_step).
    + rewrite Hr. by vm_compute.
    + by vm_compute.
    + exists (sample_time 200). split; [exact Hk|by vm_compute].
    + by split.
  - constructor.
    + split; [reflexivity|]. apply refined_eq. vm_compute. reflexivity.
    + by split.
    + rewrite Ha. by vm_compute.
    + rewrite Hs, Hc. split; [by intros []|lia].
    + split; [by vm_compute|]. intros a ->%list_elem_of_singleton. by vm_compute.
    + destruct (@count_reconciliation_id sample_sha256 (sample_id 72)) as [id|] eqn:E; [by exists id|].
      vm_compute in E. discriminate E.
Qed.

Lemma count_settles_witness : exists o p, sample_observed = Ok o /\
  @CountPostCommand_plan sample_sha256 (sample_post o) o (sample_post_context o) (sample_id 72)
    (sample_key 2) (sample_time 260) = Ok p.
Proof.
  destruct sample_counted as (o & _ & E & Ho & _). exists o.
  destruct (sample_undisturbed o Ho) as [Hu Hq].
  destruct (@count_settles sample_sha256 _ sample_count_context _ _ _ o _ _ (sample_id 72) (sample_key 2) _
    sample_catalog_wf E Hu Hq) as (p & Hp & _).
  exists p. exact (conj E Hp).
Defined.
