(* ===== verification/Accounts.v ===== *)
(** * Correction accounts

    The quantity accounts of [hub/corrections.rs].  Originals are never
    rewritten: a departure line carries an append-only ledger of amendments, and
    a counted shortage carries explanations and their amendments.  Both accounts
    are rebuilt from their complete histories and rejected when the history does
    not add up.  The histories are specified as step relations, and rebuilding
    is shown to accept exactly the histories that have a run. *)

From Stdlib Require Import Bool ZArith Lia List Sorted.
From stdpp Require Import base decidable option list numbers sets relations.
From S2P Require Import Prelude Containers Encoding Hub Reference.

Definition HUB_CORRECTION_ROWS : nat := 4096.

Module CorrectionError.
Inductive CorrectionError :=
| Capacity | InvalidHistory | InvalidQuantity | Duplicate | ReturnConflict | Accounting.
End CorrectionError.
Abbreviation CorrectionError := CorrectionError.CorrectionError.

(** The helpers [positive], [add] and [sub] of the module. *)
Module Packs.
Definition positive (packs : WholePacks) : result unit CorrectionError :=
  if raw packs =? 0 then Err CorrectionError.InvalidQuantity else Ok tt.
Definition add (a b : WholePacks) : result WholePacks CorrectionError :=
  map_err (fun _ => CorrectionError.InvalidQuantity) (WholePacks_checked_add a b).
Definition sub (a b : WholePacks) : result WholePacks CorrectionError :=
  map_err (fun _ => CorrectionError.InvalidQuantity) (WholePacks_checked_sub a b).
End Packs.

(** ** Departure lines *)

Record OriginalDepartureQuantity := {
  odq_operation : HubRecordId;
  odq_group : HubRecordId;
  odq_trace : HubRecordId;
  odq_variant : HubRecordId;
  odq_stock_revision : HubRevision;
  odq_packs : WholePacks
}.

Module DepartureQuantityDelta.
Inductive DepartureQuantityDelta :=
| AdditionalDeparture (packs : WholePacks)
| IdentifiedFoundRemainder (packs : WholePacks).
End DepartureQuantityDelta.
Abbreviation DepartureQuantityDelta := DepartureQuantityDelta.DepartureQuantityDelta.

Record DepartureQuantityAmendment := {
  dqa_operation : HubRecordId;
  dqa_stock_revision : HubRevision;
  dqa_before : WholePacks;
  dqa_after : WholePacks;
  dqa_delta : DepartureQuantityDelta
}.

Record DepartureQuantityAccount := {
  dac_original : OriginalDepartureQuantity;
  dac_amendments : list DepartureQuantityAmendment;
  dac_effective : WholePacks;
  dac_additional : WholePacks;
  dac_found : WholePacks;
  dac_established_returns : WholePacks
}.

(** The mutable locals of [DepartureQuantityAccount::restore]. *)
Record DepartureLedger := {
  dlg_effective : WholePacks;
  dlg_revision : HubRevision;
  dlg_operations : list (HubRecordId * unit);
  dlg_additional : WholePacks;
  dlg_found : WholePacks
}.

(** The new effective, additional and found packs of one amendment. *)
Definition apply_delta (effective additional found : WholePacks) (delta : DepartureQuantityDelta)
  : result (WholePacks * WholePacks * WholePacks) CorrectionError :=
  match delta with
  | DepartureQuantityDelta.AdditionalDeparture packs =>
      Packs.positive packs ;;?
      let? additional := Packs.add additional packs in
      let? effective := Packs.add effective packs in
      Ok (effective, additional, found)
  | DepartureQuantityDelta.IdentifiedFoundRemainder packs =>
      Packs.positive packs ;;?
      let? found := Packs.add found packs in
      let? effective := Packs.sub effective packs in
      Ok (effective, additional, found)
  end.

(** The loop body. *)
Definition amend (st : DepartureLedger) (change : DepartureQuantityAmendment)
  : result DepartureLedger CorrectionError :=
  let (fresh, operations) := bs_insert (dqa_operation change) (dlg_operations st) in
  if negb fresh then Err CorrectionError.Duplicate
  else if (raw (dqa_stock_revision change) <=? raw (dlg_revision st))
          || (dqa_before change !=? dlg_effective st)
  then Err CorrectionError.InvalidHistory
  else
    let? (effective, additional, found) :=
      apply_delta (dlg_effective st) (dlg_additional st) (dlg_found st) (dqa_delta change) in
    if dqa_after change !=? effective then Err CorrectionError.InvalidHistory
    else Ok {| dlg_effective := effective; dlg_revision := dqa_stock_revision change;
               dlg_operations := operations; dlg_additional := additional; dlg_found := found |}.

Definition departure_ledger (original : OriginalDepartureQuantity) : DepartureLedger :=
  {| dlg_effective := odq_packs original; dlg_revision := odq_stock_revision original;
     dlg_operations := (bs_insert (odq_operation original) []).2;
     dlg_additional := zero_packs; dlg_found := zero_packs |}.

Definition DepartureQuantityAccount_restore (original : OriginalDepartureQuantity)
    (amendments : list DepartureQuantityAmendment) (established_returns : WholePacks)
  : result DepartureQuantityAccount CorrectionError :=
  if (HUB_CORRECTION_ROWS <? length amendments)%nat then Err CorrectionError.Capacity
  else if (raw (odq_packs original) =? 0)
          || (odq_stock_revision original ==? HubRevision_INITIAL)
  then Err CorrectionError.InvalidHistory
  else
    let? st := try_fold amend (departure_ledger original) amendments in
    if raw established_returns >? raw (dlg_effective st) then Err CorrectionError.ReturnConflict
    else Ok {| dac_original := original; dac_amendments := amendments;
               dac_effective := dlg_effective st; dac_additional := dlg_additional st;
               dac_found := dlg_found st; dac_established_returns := established_returns |}.

(** ** Counted shortages *)

Record OriginalCountLossQuantity := {
  ocl_reconciliation : HubRecordId;
  ocl_operation : HubRecordId;
  ocl_stock_revision : HubRevision;
  ocl_trace : HubRecordId;
  ocl_variant : HubRecordId;
  ocl_packs : WholePacks
}.
Record CountLossExplanation := {
  cle_operation : HubRecordId;
  cle_stock_revision : HubRevision;
  cle_packs : WholePacks
}.
Record CountExplanationAmendment := {
  cea_operation : HubRecordId;
  cea_stock_revision : HubRevision;
  cea_explanation : HubRecordId;
  cea_before : WholePacks;
  cea_after : WholePacks
}.
Record CountExplanationReturns := {
  cer_explanation : HubRecordId;
  cer_packs : WholePacks
}.
Record EffectiveCountExplanation := {
  ece_original : CountLossExplanation;
  ece_packs : WholePacks;
  ece_established_returns : WholePacks
}.
Record CountLossQuantityAccount := {
  cla_original : OriginalCountLossQuantity;
  cla_explanations : list CountLossExplanation;
  cla_amendments : list CountExplanationAmendment;
  cla_effective : list EffectiveCountExplanation;
  cla_unexplained : WholePacks;
  cla_explained : WholePacks
}.

(** [(revision, is_amendment, index)], ordered as Rust orders the tuple. *)
Abbreviation LossEvent := (Z * bool * nat)%type.

#[global] Program Instance nat_TotalOrd : TotalOrd nat := {| kcompare := Nat.compare |}.
Next Obligation. apply Nat.compare_eq_iff. Qed.
Next Obligation. apply Nat.compare_antisym. Qed.
Next Obligation. simpl. intros a b c. rewrite !Nat.compare_lt_iff. lia. Qed.
#[global] Program Instance bool_TotalOrd : TotalOrd bool := {| kcompare := Bool.compare |}.
Next Obligation. by intros [] []. Qed.
Next Obligation. by intros [] []. Qed.
Next Obligation. by intros [] [] []. Qed.

(** The two loops that check one history's order and push its events. *)
Definition push_event {A} (revision_of : A -> HubRevision) (amendment : bool)
    (st : HubRevision * list LossEvent) (item : nat * A)
  : result (HubRevision * list LossEvent) CorrectionError :=
  let '(revision, events) := st in
  let '(index, item) := item in
  if raw (revision_of item) <=? raw revision then Err CorrectionError.InvalidHistory
  else Ok (revision_of item, events ++ [(raw (revision_of item), amendment, index)]).
Definition push_events {A} (revision_of : A -> HubRevision) (amendment : bool)
    (start : HubRevision) (items : list A) (events : list LossEvent)
  : result (list LossEvent) CorrectionError :=
  let? st := try_fold (push_event revision_of amendment) (start, events) (imap pair items) in
  Ok st.2.

(** The mutable locals of the loop over the sorted events. *)
Record LossLedger := {
  lsl_operations : list (HubRecordId * unit);
  lsl_quantities : list (HubRecordId * WholePacks);
  lsl_revision : HubRevision;
  lsl_explained : WholePacks
}.

(** The branch of one event: its operation, the quantities and the explained
    packs after it.  Indexing a [Vec] out of range would panic; the events carry
    the indices of their own histories ([timeline_indexed]). *)
Definition loss_event (explanations : list CountLossExplanation)
    (amendments : list CountExplanationAmendment) (amendment : bool) (index : nat)
    (quantities : list (HubRecordId * WholePacks)) (explained : WholePacks)
  : result (HubRecordId * list (HubRecordId * WholePacks) * WholePacks) CorrectionError :=
  if amendment then
    match amendments !! index with
    | Some item =>
        let? current := ok_or (bt_get (cea_explanation item) quantities)
          CorrectionError.InvalidHistory in
        if (current !=? cea_before item) || (cea_before item ==? cea_after item)
        then Err CorrectionError.InvalidHistory
        else
          let? rest := Packs.sub explained current in
          let? explained := Packs.add rest (cea_after item) in
          Ok (cea_operation item, bt_insert (cea_explanation item) (cea_after item) quantities,
              explained)
    | None => Err CorrectionError.InvalidHistory
    end
  else
    match explanations !! index with
    | Some item =>
        Packs.positive (cle_packs item) ;;?
        let quantities := bt_insert (cle_operation item) (cle_packs item) quantities in
        let? explained := Packs.add explained (cle_packs item) in
        Ok (cle_operation item, quantities, explained)
    | None => Err CorrectionError.InvalidHistory
    end.

Definition loss_step (original : OriginalCountLossQuantity)
    (explanations : list CountLossExplanation) (amendments : list CountExplanationAmendment)
    (st : LossLedger) (event : LossEvent) : result LossLedger CorrectionError :=
  let '(at_, amendment, index) := event in
  if at_ <=? raw (lsl_revision st) then Err CorrectionError.InvalidHistory
  else
    let? revision := map_err (fun _ => CorrectionError.InvalidHistory)
      (HubRevision_from_value at_) in
    let? (operation, quantities, explained) :=
      loss_event explanations amendments amendment index (lsl_quantities st) (lsl_explained st) in
    let (fresh, operations) := bs_insert operation (lsl_operations st) in
    if negb fresh then Err CorrectionError.Duplicate
    else if raw explained >? raw (ocl_packs original) then Err CorrectionError.InvalidQuantity
    else Ok {| lsl_operations := operations; lsl_quantities := quantities;
               lsl_revision := revision; lsl_explained := explained |}.

(** The loop over the linked returns. *)
Definition reserve (quantities : list (HubRecordId * WholePacks))
    (reservations : list (HubRecordId * WholePacks)) (reservation : CountExplanationReturns)
  : result (list (HubRecordId * WholePacks)) CorrectionError :=
  let? current := ok_or (bt_get (cer_explanation reservation) quantities)
    CorrectionError.InvalidHistory in
  if is_some (bt_get (cer_explanation reservation) reservations)
  then Err CorrectionError.Duplicate
  else if raw (cer_packs reservation) >? raw current then Err CorrectionError.ReturnConflict
  else Ok (bt_insert (cer_explanation reservation) (cer_packs reservation) reservations).

(** [quantities[&item.operation]] would panic on an absent key; every
    explanation of an accepted history is present ([restored_present]). *)
Definition effective_explanation (quantities reservations : list (HubRecordId * WholePacks))
    (item : CountLossExplanation) : EffectiveCountExplanation :=
  {| ece_original := item;
     ece_packs := default zero_packs (bt_get (cle_operation item) quantities);
     ece_established_returns := default zero_packs (bt_get (cle_operation item) reservations) |}.

Definition CountLossQuantityAccount_restore_corrected (original : OriginalCountLossQuantity)
    (explanations : list CountLossExplanation) (amendments : list CountExplanationAmendment)
    (returns : list CountExplanationReturns) : result CountLossQuantityAccount CorrectionError :=
  if (HUB_CORRECTION_ROWS <? length explanations + length amendments)%nat
     || (HUB_CORRECTION_ROWS <? length returns)%nat
  then Err CorrectionError.Capacity
  else
    Packs.positive (ocl_packs original) ;;?
    if ocl_stock_revision original ==? HubRevision_INITIAL then Err CorrectionError.InvalidHistory
    else
      let? events := push_events cle_stock_revision false (ocl_stock_revision original)
        explanations [] in
      let? events := push_events cea_stock_revision true (ocl_stock_revision original)
        amendments events in
      let? st := try_fold (loss_step original explanations amendments)
        {| lsl_operations := (bs_insert (ocl_operation original) []).2; lsl_quantities := [];
           lsl_revision := ocl_stock_revision original; lsl_explained := zero_packs |}
        (sort_by_key id events) in
      let? reservations := try_fold (reserve (lsl_quantities st)) [] returns in
      let? unexplained := Packs.sub (ocl_packs original) (lsl_explained st) in
      Ok {| cla_original := original; cla_explanations := explanations;
            cla_amendments := amendments;
            cla_effective := effective_explanation (lsl_quantities st) reservations <$> explanations;
            cla_unexplained := unexplained; cla_explained := lsl_explained st |}.

Definition CountLossQuantityAccount_restore (original : OriginalCountLossQuantity)
    (explanations : list CountLossExplanation) : result CountLossQuantityAccount CorrectionError :=
  CountLossQuantityAccount_restore_corrected original explanations [] [].

(** ** What the departure ledger says *)

Lemma positive_Ok p : Packs.positive p = Ok tt <-> 0 < raw p.
Proof. unfold Packs.positive. rewrite guard_Ok, Z.eqb_neq. pose proof (WholePacks_range p). naive_solver lia. Qed.

Lemma packs_add_Ok a b c : Packs.add a b = Ok c <-> raw c = raw a + raw b.
Proof. unfold Packs.add. by rewrite map_err_Ok, checked_add_Ok. Qed.

Lemma packs_sub_Ok a b c : Packs.sub a b = Ok c <-> raw c = raw a - raw b.
Proof. unfold Packs.sub. by rewrite map_err_Ok, checked_sub_Ok. Qed.

#[export] Hint Rewrite positive_Ok packs_add_Ok packs_sub_Ok : okdb.

(** Any sum in range is the value of some packs. *)
Lemma packs_of_Z z : 0 <= z <= HUB_MAX_WHOLE_PACKS -> exists p : WholePacks, raw p = z.
Proof. intros Hz. apply WholePacks_check_iff in Hz. by exists (Refined z Hz). Qed.

Definition delta_added (c : DepartureQuantityAmendment) : Z :=
  match dqa_delta c with DepartureQuantityDelta.AdditionalDeparture p => raw p | _ => 0 end.
Definition delta_found (c : DepartureQuantityAmendment) : Z :=
  match dqa_delta c with DepartureQuantityDelta.IdentifiedFoundRemainder p => raw p | _ => 0 end.
Definition sum_by {A} (f : A -> Z) (l : list A) : Z := foldr (fun a acc => f a + acc) 0 l.

Lemma sum_by_app {A} (f : A -> Z) l k : sum_by f (l ++ k) = sum_by f l + sum_by f k.
Proof. induction l; simpl; lia. Qed.
Lemma sum_by_nonneg {A} (f : A -> Z) l : (forall a, 0 <= f a) -> 0 <= sum_by f l.
Proof. intros Hf. induction l as [|a l IH]; simpl; [lia|]. specialize (Hf a). lia. Qed.
Lemma sum_by_perm {A} (f : A -> Z) l k : l ≡ₚ k -> sum_by f l = sum_by f k.
Proof. induction 1; simpl; lia. Qed.
Lemma sum_by_ext {A} (f g : A -> Z) l : (forall a, a ∈ l -> f a = g a) -> sum_by f l = sum_by g l.
Proof.
  induction l as [|a l IH]; simpl; [done|]. intros Hfg.
  rewrite (Hfg a) by left. rewrite IH; [done|]. intros b Hb. apply Hfg. by right.
Qed.

(** The line as its amendments leave it. *)
Definition line_effective (o : OriginalDepartureQuantity) (l : list DepartureQuantityAmendment) : Z :=
  raw (odq_packs o) + sum_by delta_added l - sum_by delta_found l.
Definition line_revision (o : OriginalDepartureQuantity) (l : list DepartureQuantityAmendment) : Z :=
  match last l with Some c => raw (dqa_stock_revision c) | None => raw (odq_stock_revision o) end.

(** An amendment that continues the ledger: a new operation at a later
    revision, which starts from the effective packs, moves them by some packs
    and records where they end. *)
Record amends (o : OriginalDepartureQuantity) (l : list DepartureQuantityAmendment)
    (c : DepartureQuantityAmendment) : Prop := {
  am_fresh : dqa_operation c ∉ odq_operation o :: (dqa_operation <$> l);
  am_later : line_revision o l < raw (dqa_stock_revision c);
  am_before : raw (dqa_before c) = line_effective o l;
  am_moves : 0 < delta_added c + delta_found c;
  am_after : raw (dqa_after c) = raw (dqa_before c) + delta_added c - delta_found c;
  am_bounds : sum_by delta_added (l ++ [c]) <= HUB_MAX_WHOLE_PACKS /\
    sum_by delta_found (l ++ [c]) <= HUB_MAX_WHOLE_PACKS
}.

Record departure_history (o : OriginalDepartureQuantity) (l : list DepartureQuantityAmendment)
    (returns : WholePacks) : Prop := {
  dh_capacity : (length l <= HUB_CORRECTION_ROWS)%nat;
  dh_packs : 0 < raw (odq_packs o);
  dh_revision : odq_stock_revision o <> HubRevision_INITIAL;
  dh_amendments : each_after (amends o) l;
  dh_returns : raw returns <= line_effective o l
}.

(** What the loop knows after the amendments [seen]. *)
Record ledger_of (o : OriginalDepartureQuantity) (st : DepartureLedger)
    (seen : list DepartureQuantityAmendment) : Prop := {
  lo_effective : raw (dlg_effective st) = line_effective o seen;
  lo_revision : raw (dlg_revision st) = line_revision o seen;
  lo_operations : forall id, bs_contains id (dlg_operations st) = true <->
    id ∈ odq_operation o :: (dqa_operation <$> seen);
  lo_additional : raw (dlg_additional st) = sum_by delta_added seen;
  lo_found : raw (dlg_found st) = sum_by delta_found seen
}.

Lemma bs_contains_iff {K} `{TotalOrd K, EqDecision K} (s : list (K * unit)) (ks : list K) k' :
  (forall k, bs_contains k s = true <-> k ∈ ks) ->
  forall k, bs_contains k (bs_insert k' s).2 = true <-> k = k' \/ k ∈ ks.
Proof. intros Hs k. rewrite bs_contains_insert, orb_true_iff, bool_decide_eq_true, Hs. naive_solver. Qed.

Lemma apply_delta_run e a f c :
  match apply_delta e a f (dqa_delta c) with
  | Ok (e', a', f') => 0 < delta_added c + delta_found c /\ raw a' = raw a + delta_added c /\
      raw f' = raw f + delta_found c /\ raw e' = raw e + delta_added c - delta_found c
  | Err _ => 0 < delta_added c + delta_found c ->
      raw a + delta_added c <= HUB_MAX_WHOLE_PACKS -> raw f + delta_found c <= HUB_MAX_WHOLE_PACKS ->
      forall p : WholePacks, raw p <> raw e + delta_added c - delta_found c
  end.
Proof.
  unfold apply_delta, delta_added, delta_found. destruct (dqa_delta c) as [p|p];
  pose proof (WholePacks_range p); pose proof (WholePacks_range a); pose proof (WholePacks_range f).
  - destruct (Packs.positive p) as [[]|] eqn:E0; cbn [bind].
    2:{ intros Hp. rewrite (proj2 (positive_Ok p)) in E0 by lia. done. }
    apply positive_Ok in E0. destruct (Packs.add a p) as [a'|] eqn:E1; cbn [bind].
    2:{ intros _ Hb. destruct (packs_of_Z (raw a + raw p)) as [q Hq]; [lia|].
        apply packs_add_Ok in Hq. congruence. }
    destruct (Packs.add e p) as [e'|] eqn:E2; cbn [bind].
    + rewrite packs_add_Ok in E1, E2. lia.
    + intros _ _ _ q Hq. rewrite Z.sub_0_r in Hq. apply packs_add_Ok in Hq. congruence.
  - destruct (Packs.positive p) as [[]|] eqn:E0; cbn [bind].
    2:{ intros Hp. rewrite (proj2 (positive_Ok p)) in E0 by lia. done. }
    apply positive_Ok in E0. destruct (Packs.add f p) as [f'|] eqn:E1; cbn [bind].
    2:{ intros _ _ Hb. destruct (packs_of_Z (raw f + raw p)) as [q Hq]; [lia|].
        apply packs_add_Ok in Hq. congruence. }
    destruct (Packs.sub e p) as [e'|] eqn:E2; cbn [bind].
    + rewrite packs_add_Ok in E1. rewrite packs_sub_Ok in E2. lia.
    + intros _ _ _ q Hq. rewrite Z.add_0_r in Hq. apply packs_sub_Ok in Hq. congruence.
Qed.

Lemma line_revision_snoc o l c : line_revision o (l ++ [c]) = raw (dqa_stock_revision c).
Proof. unfold line_revision. by rewrite last_snoc. Qed.

Lemma amend_run o st seen c :
  ledger_of o st seen ->
  match amend st c with
  | Ok st' => amends o seen c /\ ledger_of o st' (seen ++ [c])
  | Err _ => ~ amends o seen c
  end.
Proof.
  intros [He Hr Ho Ha Hf]. unfold amend. pose proof (Ho (dqa_operation c)) as Hfresh.
  destruct (bs_insert (dqa_operation c) (dlg_operations st)) as [fresh operations] eqn:Ei.
  assert (negb fresh = bs_contains (dqa_operation c) (dlg_operations st)) as Hn.
  { unfold bs_insert in Ei. injection Ei as <- _. by rewrite negb_involutive. }
  assert (operations = (bs_insert (dqa_operation c) (dlg_operations st)).2) as -> by by rewrite Ei.
  rewrite Hn. destruct (bs_contains (dqa_operation c) (dlg_operations st)).
  { intros [Hc _ _ _ _ _]. apply Hc. by apply Hfresh. }
  split_guard Hg.
  { rewrite orb_true_iff, Z.leb_le, negb_true_iff, bool_decide_eq_false in Hg.
    intros [_ Hc1 Hc2 _ _ _]. destruct Hg as [Hg|Hg]; [lia|]. apply Hg, refined_eq. lia. }
  breflect. pose proof (apply_delta_run (dlg_effective st) (dlg_additional st) (dlg_found st) c) as Hd.
  destruct (apply_delta _ _ _ _) as [[[e a] f]|]; cbn [bind].
  2:{ intros [_ _ Hb Hm Haf [B1 B2]]. rewrite !sum_by_app in *. simpl in *.
      apply (Hd Hm) with (dqa_after c); lia. }
  destruct Hd as (Hm & Hda & Hdf & Hde). pose proof (WholePacks_range a). pose proof (WholePacks_range f).
  split_guard Hq; breflect.
  { intros [_ _ Hb _ Haf _]. apply Hq, refined_eq. lia. }
  assert (raw (dqa_before c) = line_effective o seen) as Hb by congruence.
  split; constructor; simpl; rewrite ?sum_by_app, ?line_revision_snoc; simpl; try done; try lia.
  - intros Hin. apply Hfresh in Hin. done.
  - congruence.
  - unfold line_effective in *. rewrite !sum_by_app. simpl. lia.
  - intros id. pose proof (bs_contains_iff _ _ (dqa_operation c) Ho id) as Hi. simpl in Hi.
    rewrite Hi, fmap_app. set_solver.
Qed.

Lemma ledger_start o : ledger_of o (departure_ledger o) [].
Proof.
  constructor; simpl; try done.
  - unfold line_effective. simpl. lia.
  - intros id. unfold bs_contains. simpl. case_bool_decide; set_solver.
Qed.

(** A corrected departure line is rebuilt exactly from a history in which
    every amendment is new, later than those before it, starts from the current
    effective packs and ends where it says.  The account then balances: the
    effective packs are the original ones with the additional departures and
    without the found remainders, and never less than the established returns. *)
Theorem departure_account_correct o l returns :
  match DepartureQuantityAccount_restore o l returns with
  | Ok a => departure_history o l returns /\
      dac_original a = o /\ dac_amendments a = l /\ dac_established_returns a = returns /\
      raw (dac_effective a) = line_effective o l /\
      raw (dac_additional a) = sum_by delta_added l /\ raw (dac_found a) = sum_by delta_found l
  | Err _ => ~ departure_history o l returns
  end.
Proof.
  unfold DepartureQuantityAccount_restore.
  destruct (Nat.ltb_spec HUB_CORRECTION_ROWS (length l)) as [Hc|Hc].
  { intros [Hc' _ _ _ _]. lia. }
  split_guard Hg; breflect.
  { intros [_ Hp Hr _ _]. destruct Hg; [lia|done]. }
  pose proof (try_fold_each_after amend (ledger_of o) (amends o) (departure_ledger o) l (amend_run o)) as Hl.
  destruct (try_fold amend (departure_ledger o) l) as [st|]; cbn [bind].
  2:{ intros [_ _ _ Ha _]. apply Hl; [|done]. by apply ledger_start. }
  destruct Hl as [Ha [He _ _ Had Hf]]; [by apply ledger_start|].
  split_guard Hr; breflect.
  - intros [_ _ _ _ Hret]. lia.
  - pose proof (WholePacks_range (odq_packs o)). split; [|done]. constructor; try done; lia.
Qed.

(** ** What the loss ledger says *)

(** The two histories of a shortage as one: what was recorded, in order. *)
Inductive LossRecord :=
| Explained (e : CountLossExplanation)
| Amended (a : CountExplanationAmendment).
Definition record_revision (r : LossRecord) : HubRevision :=
  match r with Explained e => cle_stock_revision e | Amended a => cea_stock_revision a end.
Definition record_operation (r : LossRecord) : HubRecordId :=
  match r with Explained e => cle_operation e | Amended a => cea_operation a end.
Definition record_explanation (r : LossRecord) : option CountLossExplanation :=
  match r with Explained e => Some e | Amended _ => None end.
Definition record_amendment (r : LossRecord) : option CountExplanationAmendment :=
  match r with Explained _ => None | Amended a => Some a end.
Definition explained (l : list LossRecord) : list CountLossExplanation := omap record_explanation l.
Definition amended (l : list LossRecord) : list CountExplanationAmendment := omap record_amendment l.

(** The packs one explanation stands for: its own, or those of its last
    amendment. *)
Definition current_explanation (amendments : list CountExplanationAmendment)
    (e : CountLossExplanation) : WholePacks :=
  match last (filter (fun a => cea_explanation a = cle_operation e) amendments) with
  | Some a => cea_after a
  | None => cle_packs e
  end.
Definition total_explained (es : list CountLossExplanation)
    (amendments : list CountExplanationAmendment) : Z :=
  sum_by (fun e => raw (current_explanation amendments e)) es.

(** Revisions that rise from [start]. *)
Definition last_revision {A} (rev : A -> HubRevision) (start : HubRevision) (l : list A) : Z :=
  match last l with Some a => raw (rev a) | None => raw start end.
Definition rises {A} (rev : A -> HubRevision) (start : HubRevision) (l : list A) (a : A) : Prop :=
  last_revision rev start l < raw (rev a).

(** A record that continues the history of a shortage. *)
Record explains (o : OriginalCountLossQuantity) (l : list LossRecord) (r : LossRecord) : Prop := {
  ex_fresh : record_operation r ∉ ocl_operation o :: (record_operation <$> l);
  ex_later : rises record_revision (ocl_stock_revision o) l r;
  ex_packs : match r with
    | Explained e => 0 < raw (cle_packs e)
    | Amended a => cea_before a <> cea_after a /\ exists e, e ∈ explained l /\
        cea_explanation a = cle_operation e /\ cea_before a = current_explanation (amended l) e
    end;
  ex_bound : total_explained (explained (l ++ [r])) (amended (l ++ [r])) <= raw (ocl_packs o)
}.

Lemma current_explanation_snoc l a e :
  current_explanation (l ++ [a]) e =
  if decide (cea_explanation a = cle_operation e) then cea_after a else current_explanation l e.
Proof.
  unfold current_explanation. rewrite filter_app, filter_cons, filter_nil.
  case_decide; [by rewrite last_snoc|by rewrite app_nil_r].
Qed.

Lemma explained_snoc l r : explained (l ++ [r]) = explained l ++ option_list (record_explanation r).
Proof. unfold explained. rewrite omap_app. by destruct r. Qed.
Lemma amended_snoc l r : amended (l ++ [r]) = amended l ++ option_list (record_amendment r).
Proof. unfold amended. rewrite omap_app. by destruct r. Qed.

Lemma filter_none {A} (P : A -> Prop) `{forall a, Decision (P a)} (l : list A) :
  (forall a, a ∈ l -> ~ P a) -> filter P l = [].
Proof.
  induction l as [|a l IH]; [done|]. intros Hn. rewrite filter_cons_False by (apply Hn; left).
  apply IH. intros b Hb. apply Hn. by right.
Qed.

(** A well-formed history names its explanations apart, and amends only them. *)
Record history_ok (o : OriginalCountLossQuantity) (l : list LossRecord) : Prop := {
  ho_records : each_after (explains o) l;
  ho_distinct : NoDup (cle_operation <$> explained l);
  ho_used : forall e, e ∈ explained l -> cle_operation e ∈ record_operation <$> l;
  ho_amended : forall a, a ∈ amended l -> exists e, e ∈ explained l /\ cea_explanation a = cle_operation e
}.

Lemma history_ok_snoc o l r : history_ok o l -> explains o l r -> history_ok o (l ++ [r]).
Proof.
  intros [Hr Hd Hu Ha] He. pose proof (ex_fresh _ _ _ He) as Hf. pose proof (ex_packs _ _ _ He) as Hp.
  constructor; rewrite ?explained_snoc, ?amended_snoc.
  - by apply each_after_snoc.
  - destruct r as [e|a]; simpl; rewrite ?app_nil_r; [|done]. rewrite fmap_app. apply NoDup_snoc.
    split; [done|]. intros (e' & E & Hin)%list_elem_of_fmap. apply Hf. right. simpl. rewrite E. by apply Hu.
  - intros e. rewrite fmap_app, !elem_of_app. intros [Hin|Hin]; [left; by apply Hu|right].
    destruct r as [e'|a]; simpl in *; [|set_solver]. apply list_elem_of_singleton in Hin as ->. by left.
  - intros a. rewrite elem_of_app. intros [(e & Hin & E)%Ha|Hin].
    + exists e. split; [set_solver|done].
    + destruct r as [e'|a']; simpl in *; [set_solver|]. apply list_elem_of_singleton in Hin as ->.
      destruct Hp as (_ & e & Hin & E & _). exists e. split; [set_solver|done].
Qed.

Lemma history_ok_nil o : history_ok o [].
Proof. constructor; [apply each_after_nil|constructor|set_solver..]. Qed.

(** What one record does to the total. *)
Definition record_change (r : LossRecord) : Z :=
  match r with
  | Explained e => raw (cle_packs e)
  | Amended a => raw (cea_after a) - raw (cea_before a)
  end.

Lemma sum_by_change {A} (f g : A -> Z) l x :
  NoDup l -> x ∈ l -> (forall y, y ∈ l -> y <> x -> g y = f y) ->
  sum_by g l = sum_by f l + g x - f x.
Proof.
  induction 1 as [|y l Hy _ IH]; [set_solver|]. intros [->|Hx]%elem_of_cons Hfg; simpl.
  - rewrite (sum_by_ext g f l); [lia|]. intros z Hz. apply Hfg; [by right|]. by intros ->.
  - rewrite IH; [|done|]. 2:{ intros z Hz. apply Hfg. by right. }
    rewrite (Hfg y); [lia|by left|]. by intros ->.
Qed.

Lemma history_total_snoc o l r :
  history_ok o l -> record_operation r ∉ record_operation <$> l ->
  match r with
  | Explained _ => True
  | Amended a => exists e, e ∈ explained l /\ cea_explanation a = cle_operation e /\
      cea_before a = current_explanation (amended l) e
  end ->
  total_explained (explained (l ++ [r])) (amended (l ++ [r]))
    = total_explained (explained l) (amended l) + record_change r.
Proof.
  intros [_ Hd Hu Ha] Hf Hr. rewrite explained_snoc, amended_snoc. unfold total_explained.
  destruct r as [e|a]; simpl; rewrite ?app_nil_r.
  - rewrite sum_by_app. simpl. unfold current_explanation at 2.
    replace (filter _ (amended l)) with (@nil CountExplanationAmendment); [simpl; lia|].
    symmetry. apply filter_none. intros a Hin E.
    destruct (Ha a Hin) as (e' & Hin' & E'). apply Hf. simpl. rewrite <- E, E'. by apply Hu.
  - destruct Hr as (e & Hin & E & Hb). rewrite Hb.
    rewrite (sum_by_change (fun e => raw (current_explanation (amended l) e))
      (fun e => raw (current_explanation (amended l ++ [a]) e)) _ e).
    + rewrite current_explanation_snoc, decide_True by done. lia.
    + by eapply NoDup_fmap_1.
    + done.
    + intros y Hy Hne. rewrite current_explanation_snoc, decide_False; [done|]. intros E2.
      apply Hne, (NoDup_fmap_elem cle_operation (explained l)); [done..|congruence].
Qed.

Lemma current_below l am e : e ∈ l -> raw (current_explanation am e) <= total_explained l am.
Proof.
  unfold total_explained. induction l as [|x l IH]; [set_solver|].
  assert (0 <= sum_by (fun e => raw (current_explanation am e)) l) as Hn.
  { apply sum_by_nonneg. intros y. pose proof (WholePacks_range (current_explanation am y)). lia. }
  pose proof (WholePacks_range (current_explanation am x)) as Hx.
  intros [->|Hin]%elem_of_cons; simpl; [lia|]. specialize (IH Hin). lia.
Qed.

(** One turn of the loop on the record of its event. *)
Definition loss_record_step (o : OriginalCountLossQuantity) (st : LossLedger) (r : LossRecord)
  : result LossLedger CorrectionError :=
  match r with
  | Explained e => loss_step o [e] [] st (raw (cle_stock_revision e), false, 0%nat)
  | Amended a => loss_step o [] [a] st (raw (cea_stock_revision a), true, 0%nat)
  end.

(** What the loop knows after the records [l]. *)
Record loss_ledger_of (o : OriginalCountLossQuantity) (st : LossLedger) (l : list LossRecord)
  : Prop := {
  ll_history : history_ok o l;
  ll_operations : forall id, bs_contains id (lsl_operations st) = true <->
    id ∈ ocl_operation o :: (record_operation <$> l);
  ll_quantities : forall id p, bt_get id (lsl_quantities st) = Some p <->
    exists e, e ∈ explained l /\ cle_operation e = id /\ p = current_explanation (amended l) e;
  ll_revision : raw (lsl_revision st) = last_revision record_revision (ocl_stock_revision o) l;
  ll_explained : raw (lsl_explained st) = total_explained (explained l) (amended l)
}.

(** The branch of one record: what it needs, and the quantities after it. *)
Lemma loss_event_run o st l r :
  loss_ledger_of o st l ->
  match (match r with
         | Explained e => loss_event [e] [] false 0
         | Amended a => loss_event [] [a] true 0
         end) (lsl_quantities st) (lsl_explained st) with
  | Ok (operation, quantities, now) => operation = record_operation r /\
      match r with
      | Explained e => 0 < raw (cle_packs e) /\
          quantities = bt_insert (cle_operation e) (cle_packs e) (lsl_quantities st)
      | Amended a => cea_before a <> cea_after a /\
          (exists e, e ∈ explained l /\ cea_explanation a = cle_operation e /\
            cea_before a = current_explanation (amended l) e) /\
          quantities = bt_insert (cea_explanation a) (cea_after a) (lsl_quantities st)
      end /\ raw now = total_explained (explained l) (amended l) + record_change r
  | Err _ => ~ explains o l r
  end.
Proof.
  intros [Hh Ho Hq Hr He]. pose proof (WholePacks_range (lsl_explained st)) as Hx.
  destruct r as [e|a]; unfold loss_event; simpl.
  - destruct (Packs.positive (cle_packs e)) as [[]|] eqn:Ep; cbn [bind].
    2:{ intros [_ _ Hp _]. rewrite (proj2 (positive_Ok _)) in Ep; done. }
    apply positive_Ok in Ep. destruct (Packs.add _ _) as [now|] eqn:Ea; cbn [bind].
    + apply packs_add_Ok in Ea. split_and!; try done. lia.
    + intros He'. pose proof (ex_bound _ _ _ He') as Hb. rewrite (history_total_snoc o) in Hb; [|done| |done].
      2:{ pose proof (ex_fresh _ _ _ He'). set_solver. }
      simpl in Hb. pose proof (WholePacks_range (ocl_packs o)).
      destruct (packs_of_Z (raw (lsl_explained st) + raw (cle_packs e))) as [q Hq']; [lia|].
      apply packs_add_Ok in Hq'. congruence.
  - destruct (bt_get (cea_explanation a) (lsl_quantities st)) as [current|] eqn:Eg; cbn [ok_or bind].
    2:{ intros [_ _ (_ & e & Hin & E & _) _]. assert (bt_get (cea_explanation a) (lsl_quantities st)
          = Some (current_explanation (amended l) e)) by (apply Hq; eauto). congruence. }
    apply Hq in Eg as (e & Hin & E & Hc).
    split_guard Hg; rewrite ?orb_true_iff in Hg; breflect.
    { intros [_ _ (Hne & e' & Hin' & E' & Hb) _]. destruct Hg as [Hg|Hg]; [|done]. apply Hg.
      rewrite Hc, Hb. f_equal. apply (NoDup_fmap_elem cle_operation (explained l)); [apply Hh|done..|congruence]. }
    pose proof (current_below (explained l) (amended l) e Hin) as Hle. rewrite <- Hc in Hle.
    destruct (packs_of_Z (raw (lsl_explained st) - raw current)) as [rest Hrest].
    { pose proof (WholePacks_range current). lia. }
    rewrite (proj2 (packs_sub_Ok _ _ _) Hrest). cbn [bind].
    destruct (Packs.add rest (cea_after a)) as [now|] eqn:Ea; cbn [bind].
    + apply packs_add_Ok in Ea. split_and!; try done; [by exists e; split_and!; congruence|].
      rewrite <- H. lia.
    + intros He'. pose proof (ex_bound _ _ _ He') as Hb. rewrite (history_total_snoc o) in Hb; [|done| |].
      2:{ pose proof (ex_fresh _ _ _ He'). set_solver. }
      2:{ exists e. split_and!; congruence. }
      simpl in Hb. pose proof (WholePacks_range (ocl_packs o)). pose proof (WholePacks_range (cea_after a)).
      pose proof (WholePacks_range rest).
      destruct (packs_of_Z (raw rest + raw (cea_after a))) as [q Hq']; [rewrite <- H in Hb; lia|].
      apply packs_add_Ok in Hq'. congruence.
Qed.

Lemma quantities_snoc o st l r quantities :
  loss_ledger_of o st l -> explains o l r ->
  match r with
  | Explained e => 0 < raw (cle_packs e) /\
      quantities = bt_insert (cle_operation e) (cle_packs e) (lsl_quantities st)
  | Amended a => cea_before a <> cea_after a /\
      (exists e, e ∈ explained l /\ cea_explanation a = cle_operation e /\
        cea_before a = current_explanation (amended l) e) /\
      quantities = bt_insert (cea_explanation a) (cea_after a) (lsl_quantities st)
  end ->
  forall id p, bt_get id quantities = Some p <-> exists e, e ∈ explained (l ++ [r]) /\
    cle_operation e = id /\ p = current_explanation (amended (l ++ [r])) e.
Proof.
  intros [[_ Hd Hu Ha] _ Hq _ _] Hx Hcase id p. pose proof (ex_fresh _ _ _ Hx) as Hf.
  rewrite explained_snoc, amended_snoc. destruct r as [e|a]; simpl; rewrite ?app_nil_r.
  - destruct Hcase as [_ ->]. rewrite bt_get_insert. setoid_rewrite elem_of_app. case_decide as E.
    + assert (forall p, p = current_explanation (amended l) e <-> p = cle_packs e) as Hcur.
      { intros q. unfold current_explanation. rewrite filter_none; [done|]. intros a Hin E2.
        destruct (Ha a Hin) as (e' & Hin' & E'). apply Hf. right. simpl. rewrite <- E2, E'. by apply Hu. }
      split.
      * intros [= <-]. exists e. split_and!; [right; by left|done|by apply Hcur].
      * intros (e' & [Hin|Hin] & E' & ->).
        -- exfalso. apply Hf. right. simpl. rewrite E, <- E'. by apply Hu.
        -- apply list_elem_of_singleton in Hin as ->. f_equal. symmetry. by apply Hcur.
    + rewrite Hq. split; [intros (e' & ? & ?); exists e'; split; [by left|done]|].
      intros (e' & [Hin|Hin] & E' & ->); [eauto|]. apply list_elem_of_singleton in Hin as ->. done.
  - destruct Hcase as (_ & (e & Hin & E & Hb) & ->). rewrite bt_get_insert.
    setoid_rewrite current_explanation_snoc. case_decide as E2.
    + split.
      * intros [= <-]. exists e. split_and!; [done|congruence|by rewrite decide_True].
      * intros (e' & Hin' & E' & ->). by rewrite decide_True by congruence.
    + rewrite Hq. split; intros (e' & Hin' & E' & ->); exists e'; split_and!; try done;
        by rewrite decide_False by congruence.
Qed.

Lemma loss_record_step_run o st l r :
  loss_ledger_of o st l ->
  match loss_record_step o st r with
  | Ok st' => explains o l r /\ loss_ledger_of o st' (l ++ [r])
  | Err _ => ~ explains o l r
  end.
Proof.
  intros Hl. pose proof (loss_event_run o st l r Hl) as Hev. pose proof Hl as [Hh Ho Hq Hr He].
  assert (forall (es : list CountLossExplanation) am b i at_ rev,
    at_ = raw rev -> rev = record_revision r ->
    (match r with Explained e => loss_event [e] [] false 0 | Amended a => loss_event [] [a] true 0 end)
      = loss_event es am b i ->
    match loss_step o es am st (at_, b, i) with
    | Ok st' => explains o l r /\ loss_ledger_of o st' (l ++ [r])
    | Err _ => ~ explains o l r
    end) as Hstep.
  2:{ unfold loss_record_step. destruct r; by eapply Hstep. }
  intros es am b i at_ rev -> Hrev Heq. rewrite Heq in Hev. unfold loss_step.
  destruct (Z.leb_spec (raw rev) (raw (lsl_revision st))) as [Hlt|Hlt].
  { intros [_ Hla _ _]. unfold rises in Hla. rewrite <- Hrev in Hla. lia. }
  unfold HubRevision_from_value. rewrite checked_raw. cbn [map_err bind].
  destruct (loss_event es am b i _ _) as [[[operation quantities] now]|]; cbn [bind]; [|done].
  destruct Hev as (-> & Hcase & Hnow).
  destruct (bs_insert (record_operation r) (lsl_operations st)) as [fresh operations] eqn:Ei.
  assert (negb fresh = bs_contains (record_operation r) (lsl_operations st)) as Hn.
  { unfold bs_insert in Ei. injection Ei as <- _. by rewrite negb_involutive. }
  assert (operations = (bs_insert (record_operation r) (lsl_operations st)).2) as Hops by by rewrite Ei.
  rewrite Hn. destruct (bs_contains (record_operation r) (lsl_operations st)) eqn:Ec.
  { intros [Hf _ _ _]. by apply Hf, Ho. }
  assert (record_operation r ∉ ocl_operation o :: (record_operation <$> l)) as Hf.
  { intros Hin%Ho. congruence. }
  assert (total_explained (explained (l ++ [r])) (amended (l ++ [r])) = raw now) as Ht.
  { rewrite (history_total_snoc o); [done|done|set_solver|]. destruct r; [done|apply Hcase]. }
  split_guard Hg; breflect.
  { intros [_ _ _ Hb]. lia. }
  assert (explains o l r) as Hx.
  { constructor; [done| | |lia].
    - unfold rises. rewrite <- Hrev. lia.
    - destruct r; [apply Hcase|]. destruct Hcase as (? & ? & _). done. }
  split; [done|]. constructor; simpl; [by apply history_ok_snoc| | | |done].
  - intros id. pose proof (bs_contains_iff _ _ (record_operation r) Ho id) as Hi.
    rewrite <- Hops in Hi. rewrite Hi, fmap_app. set_solver.
  - by apply (quantities_snoc o st).
  - unfold last_revision. by rewrite last_snoc, Hrev.
Qed.

(** *** The timeline of the two histories *)

Lemma push_events_run {A} (rev : A -> HubRevision) b start items evs :
  match push_events rev b start items evs with
  | Ok evs' => each_after (rises rev start) items /\
      evs' = evs ++ imap (fun i a => (raw (rev a), b, i)) items
  | Err _ => ~ each_after (rises rev start) items
  end.
Proof.
  unfold push_events.
  assert (each_after (fun seen p => rises rev start seen.*2 p.2) (imap pair items) <->
    each_after (rises rev start) items) as Hiff.
  { rewrite <- (each_after_fmap snd (rises rev start)), fmap_imap.
    by rewrite (imap_const id items : imap (fun n => snd ∘ pair n) items = _), list_fmap_id. }
  pose proof (try_fold_each_after (push_event rev b)
    (fun st seen => raw st.1 = last_revision rev start seen.*2 /\
      st.2 = evs ++ ((fun p : nat * A => (raw (rev p.2), b, p.1)) <$> seen))
    (fun seen p => rises rev start seen.*2 p.2) (start, evs) (imap pair items)) as Hf.
  match type of Hf with ?P -> ?Q -> _ => assert P as Hs; [|assert Q as H0; [|specialize (Hf Hs H0)]] end.
  { intros [r' es'] seen [i a] [Hr He]. simpl in *. unfold rises. simpl.
    destruct (Z.leb_spec (raw (rev a)) (raw r')); [lia|]. split; [lia|].
    rewrite !fmap_app, He. simpl. split; [unfold last_revision; by rewrite last_snoc|].
    by rewrite <- app_assoc. }
  { simpl. by rewrite app_nil_r. }
  destruct (try_fold _ _ _) as [[r es]|e]; cbn [bind]; rewrite <- Hiff; [|done].
  destruct Hf as [Hp [_ He]]. split; [done|]. simpl in He. by rewrite He, fmap_imap.
Qed.

(** The events of the two histories, and the record an event stands for. *)
Definition loss_events (es : list CountLossExplanation) (am : list CountExplanationAmendment)
  : list LossEvent :=
  imap (fun i e => (raw (cle_stock_revision e), false, i)) es ++
  imap (fun i a => (raw (cea_stock_revision a), true, i)) am.
Definition loss_records (es : list CountLossExplanation) (am : list CountExplanationAmendment)
  : list LossRecord := (Explained <$> es) ++ (Amended <$> am).
Definition event_record (es : list CountLossExplanation) (am : list CountExplanationAmendment)
    (event : LossEvent) : option LossRecord :=
  let '(_, amendment, index) := event in
  if amendment then Amended <$> am !! index else Explained <$> es !! index.
Definition event_of es am (event : LossEvent) (r : LossRecord) : Prop :=
  event.1.1 = raw (record_revision r) /\ event_record es am event = Some r.

(** Every event carries an index of its own history. *)
Lemma timeline_indexed es am : Forall2 (event_of es am) (loss_events es am) (loss_records es am).
Proof.
  apply Forall2_app; apply Forall2_lookup; intros i; rewrite list_lookup_imap, list_lookup_fmap.
  - destruct (es !! i) as [e|] eqn:E; simpl; constructor. by unfold event_of; simpl; rewrite E.
  - destruct (am !! i) as [a|] eqn:E; simpl; constructor. by unfold event_of; simpl; rewrite E.
Qed.

(** The records in the order of the sorted events. *)
Definition timeline (es : list CountLossExplanation) (am : list CountExplanationAmendment)
  : list LossRecord := omap (event_record es am) (sort_by_key id (loss_events es am)).

Lemma omap_Forall2 {A B} (f : A -> option B) l k :
  Forall2 (fun a b => f a = Some b) l k -> omap f l = k.
Proof. induction 1 as [|a b l k E _ IH]; [done|]. csimpl. by rewrite E, IH. Qed.

Lemma timeline_perm es am : timeline es am ≡ₚ loss_records es am.
Proof.
  unfold timeline. rewrite <- (sort_by_key_perm id (loss_events es am)).
  rewrite (omap_Forall2 _ _ (loss_records es am)); [done|].
  eapply Forall2_impl; [apply timeline_indexed|]. by intros ? ? [].
Qed.

Lemma timeline_events es am :
  Forall2 (event_of es am) (sort_by_key id (loss_events es am)) (timeline es am).
Proof.
  assert (Forall (fun ev => exists r, event_of es am ev r) (sort_by_key id (loss_events es am))) as Hall.
  { apply list.Forall_forall. intros ev Hev. apply elem_of_sort_by_key in Hev.
    apply list_elem_of_lookup in Hev as (i & Hi).
    destruct (Forall2_lookup_l _ _ _ _ _ (timeline_indexed es am) Hi) as (r & _ & Hr). eauto. }
  unfold timeline. induction Hall as [|ev l (r & Hr) _ IH]; [constructor|].
  csimpl. rewrite (proj2 Hr). by constructor.
Qed.

Lemma timeline_fold o es am st :
  try_fold (loss_step o es am) st (sort_by_key id (loss_events es am)) =
  try_fold (loss_record_step o) st (timeline es am).
Proof.
  revert st. induction (timeline_events es am) as [|ev r l k [Hr He] _ IH]; intros st; [done|].
  simpl. replace (loss_step o es am st ev) with (loss_record_step o st r).
  { by destruct (loss_record_step o st r); simpl. }
  destruct ev as [[at_ b] i]. simpl in *. subst at_. unfold loss_record_step, loss_step, loss_event.
  destruct b; [destruct (am !! i) as [a|]|destruct (es !! i) as [e|]]; simplify_eq/=; done.
Qed.

Lemma key_sorted_snoc {A K} `{TotalOrd K} (key : A -> K) l a :
  key_sorted key l -> Forall (fun b => klt (key b) (key a)) l -> key_sorted key (l ++ [a]).
Proof.
  intros Hs. induction Hs as [|b l Hs IH Hb]; intros Hf; simpl; [repeat constructor|].
  apply list.Forall_cons in Hf as [Hba Hf]. constructor; [by apply IH|].
  apply list.Forall_app. split; [done|]. by repeat constructor.
Qed.

Lemma rises_sorted {A} (rev : A -> HubRevision) start l :
  each_after (rises rev start) l ->
  key_sorted (fun a => raw (rev a)) l /\ Forall (fun b => raw (rev b) <= last_revision rev start l) l.
Proof.
  induction l as [|a l IH] using rev_ind; [split; constructor|].
  rewrite each_after_snoc. intros [(Hs & Hf)%IH Ha]. unfold rises in Ha.
  assert (Forall (fun b => raw (rev b) < raw (rev a)) l) as Hlt.
  { eapply list.Forall_impl; [exact Hf|]. simpl. lia. }
  split.
  - apply key_sorted_snoc; [done|]. eapply list.Forall_impl; [exact Hlt|]. intros b. apply Z.compare_lt_iff.
  - unfold last_revision. rewrite last_snoc. apply list.Forall_app. split; [|by repeat constructor].
    eapply list.Forall_impl; [exact Hlt|]. simpl. lia.
Qed.

Lemma key_sorted_omap {A B K} `{TotalOrd K} (key : A -> K) (key' : B -> K) (f : A -> option B) l :
  (forall a b, f a = Some b -> key' b = key a) -> key_sorted key l -> key_sorted key' (omap f l).
Proof.
  intros Hf. induction 1 as [|a l Hs IH Ha]; csimpl; [constructor|].
  destruct (f a) as [b|] eqn:E; [|done]. constructor; [done|].
  rewrite list.Forall_forall in Ha. apply list.Forall_forall. intros c (x & Hx & Ex)%list_elem_of_omap.
  rewrite (Hf _ _ E), (Hf _ _ Ex). by apply Ha.
Qed.

(** Records sorted without ties are the only order of themselves. *)
Lemma weakly_sorted_unique {A K} `{TotalOrd K} (key : A -> K) l k :
  key_sorted key l -> StronglySorted (fun a b => kle (key a) (key b)) k -> l ≡ₚ k -> l = k.
Proof.
  intros Hl Hk Hp. apply (key_sorted_unique key); [done| |done].
  assert (NoDup (key <$> k)) as Hn by (rewrite <- Hp; by apply key_sorted_NoDup).
  clear Hp Hl l. induction Hk as [|a k Hk IH Ha]; [constructor|].
  apply NoDup_cons in Hn as [Hn1 Hn2]. constructor; [by apply IH|].
  rewrite list.Forall_forall in Ha |- *. intros b Hb. apply klt_le_neq. split; [by apply Ha|].
  intros E. apply Hn1. rewrite E. by apply list_elem_of_fmap_2.
Qed.

Lemma event_order (a b : LossEvent) : kle a b -> a.1.1 <= b.1.1.
Proof.
  destruct a as [[x p] i], b as [[y q] j]. simpl. unfold kle. simpl. unfold prod_compare. simpl.
  unfold prod_compare. simpl. intros Hk. apply Z.le_ngt. intros Hlt.
  apply Z.compare_gt_iff in Hlt. by rewrite Hlt in Hk.
Qed.

Lemma timeline_sorted es am :
  StronglySorted (fun r s => kle (raw (record_revision r)) (raw (record_revision s))) (timeline es am).
Proof.
  pose proof (sort_by_key_sorted id (loss_events es am)) as Hs.
  induction (timeline_events es am) as [|ev r l k [Hr _] Hlk IH]; [constructor|].
  inversion_clear Hs as [|? ? Hs' Hev]. constructor; [by apply IH|].
  rewrite list.Forall_forall in Hev. apply list.Forall_forall. intros s (i & Hi)%list_elem_of_lookup.
  destruct (Forall2_lookup_r _ _ _ _ _ Hlk Hi) as (ev' & Hi' & [Hs'' _]).
  specialize (Hev ev' (list_elem_of_lookup_2 _ _ _ Hi')). apply event_order in Hev. simpl in *.
  unfold kle. simpl. rewrite <- Hr, <- Hs''. by apply Z.compare_le_iff.
Qed.

Lemma timeline_unique o es am t :
  t ≡ₚ loss_records es am -> each_after (explains o) t -> t = timeline es am.
Proof.
  intros Hp Ht. apply (weakly_sorted_unique (fun r => raw (record_revision r))).
  - eapply (rises_sorted _ (ocl_stock_revision o)), each_after_impl; [|exact Ht]. by intros ? ? [].
  - apply timeline_sorted.
  - by rewrite timeline_perm.
Qed.

Lemma explained_records es am : explained (loss_records es am) = es.
Proof.
  unfold explained, loss_records. rewrite omap_app. replace (omap _ (Amended <$> am)) with (@nil CountLossExplanation).
  - rewrite app_nil_r. induction es; csimpl; congruence.
  - induction am; csimpl; done.
Qed.
Lemma amended_records es am : amended (loss_records es am) = am.
Proof.
  unfold amended, loss_records. rewrite omap_app.
  replace (omap _ (Explained <$> es)) with (@nil CountExplanationAmendment).
  - simpl. induction am; csimpl; congruence.
  - induction es; csimpl; done.
Qed.

(** The histories are recovered from the timeline. *)
Lemma timeline_histories o es am :
  each_after (rises cle_stock_revision (ocl_stock_revision o)) es ->
  each_after (rises cea_stock_revision (ocl_stock_revision o)) am ->
  each_after (explains o) (timeline es am) ->
  explained (timeline es am) = es /\ amended (timeline es am) = am.
Proof.
  intros [He _]%rises_sorted [Ha _]%rises_sorted Ht.
  assert (key_sorted (fun r => raw (record_revision r)) (timeline es am)) as Hs.
  { eapply (rises_sorted _ (ocl_stock_revision o)), each_after_impl; [|exact Ht]. by intros ? ? []. }
  split.
  - apply (key_sorted_unique (fun e => raw (cle_stock_revision e))); [|done|].
    + eapply key_sorted_omap; [|exact Hs]. by intros [] ? [= ->].
    + rewrite <- (explained_records es am) at 2. unfold explained. by rewrite timeline_perm.
  - apply (key_sorted_unique (fun a => raw (cea_stock_revision a))); [|done|].
    + eapply key_sorted_omap; [|exact Hs]. by intros [] ? [= ->].
    + rewrite <- (amended_records es am) at 2. unfold amended. by rewrite timeline_perm.
Qed.

(** *** Restoring a shortage *)

(** A linked return that an explanation can carry. *)
Definition return_fits (es : list CountLossExplanation) (am : list CountExplanationAmendment)
    (r : CountExplanationReturns) : Prop :=
  exists e, e ∈ es /\ cle_operation e = cer_explanation r /\
    raw (cer_packs r) <= raw (current_explanation am e).

Record loss_history (o : OriginalCountLossQuantity) (es : list CountLossExplanation)
    (am : list CountExplanationAmendment) (returns : list CountExplanationReturns) : Prop := {
  lh_capacity : (length es + length am <= HUB_CORRECTION_ROWS)%nat /\
    (length returns <= HUB_CORRECTION_ROWS)%nat;
  lh_packs : 0 < raw (ocl_packs o);
  lh_revision : ocl_stock_revision o <> HubRevision_INITIAL;
  lh_ordered : each_after (rises cle_stock_revision (ocl_stock_revision o)) es /\
    each_after (rises cea_stock_revision (ocl_stock_revision o)) am;
  lh_timeline : exists t, t ≡ₚ (Explained <$> es) ++ (Amended <$> am) /\ each_after (explains o) t;
  lh_returns : Forall (return_fits es am) returns /\ NoDup (cer_explanation <$> returns)
}.

(** One explanation as the account presents it. *)
Record explanation_stands (am : list CountExplanationAmendment)
    (returns : list CountExplanationReturns) (e : CountLossExplanation)
    (x : EffectiveCountExplanation) : Prop := {
  es_original : ece_original x = e;
  es_packs : ece_packs x = current_explanation am e;
  es_returns : forall r, r ∈ returns -> cer_explanation r = cle_operation e ->
    ece_established_returns x = cer_packs r;
  es_no_return : (forall r, r ∈ returns -> cer_explanation r <> cle_operation e) ->
    ece_established_returns x = zero_packs;
  es_bound : raw (ece_established_returns x) <= raw (ece_packs x)
}.

Record loss_account (o : OriginalCountLossQuantity) (es : list CountLossExplanation)
    (am : list CountExplanationAmendment) (returns : list CountExplanationReturns)
    (a : CountLossQuantityAccount) : Prop := {
  la_history : cla_original a = o /\ cla_explanations a = es /\ cla_amendments a = am;
  la_effective : Forall2 (explanation_stands am returns) es (cla_effective a);
  la_explained : raw (cla_explained a) = sum_by (fun x => raw (ece_packs x)) (cla_effective a);
  la_balance : raw (cla_explained a) + raw (cla_unexplained a) = raw (ocl_packs o)
}.

(** What the loop over the returns knows. *)
Definition reserved (m : list (HubRecordId * WholePacks)) (seen : list CountExplanationReturns) : Prop :=
  forall id p, bt_get id m = Some p <-> exists r, r ∈ seen /\ cer_explanation r = id /\ cer_packs r = p.

Lemma reserve_run es am q m seen r :
  (forall id p, bt_get id q = Some p <->
    exists e, e ∈ es /\ cle_operation e = id /\ p = current_explanation am e) ->
  NoDup (cle_operation <$> es) -> reserved m seen ->
  match reserve q m r with
  | Ok m' => (return_fits es am r /\ cer_explanation r ∉ cer_explanation <$> seen) /\
      reserved m' (seen ++ [r])
  | Err _ => ~ (return_fits es am r /\ cer_explanation r ∉ cer_explanation <$> seen)
  end.
Proof.
  intros Hq Hn Hm. unfold reserve.
  destruct (bt_get (cer_explanation r) q) as [current|] eqn:Eq; cbn [ok_or bind].
  2:{ intros [(e & Hin & E & _) _]. assert (bt_get (cer_explanation r) q = Some (current_explanation am e))
        by (apply Hq; eauto). congruence. }
  apply Hq in Eq as (e & Hin & E & ->).
  destruct (bt_get (cer_explanation r) m) as [p|] eqn:Em; cbn [is_some].
  { intros [_ Hn']. apply Hm in Em as (r' & Hr' & E' & _). apply Hn'. rewrite <- E'. by apply list_elem_of_fmap_2. }
  destruct (Z.ltb_spec (raw (current_explanation am e)) (raw (cer_packs r))) as [Hlt|Hle].
  { intros [(e' & Hin' & E' & Hle) _].
    assert (e' = e) as -> by (apply (NoDup_fmap_elem cle_operation es); [done..|congruence]). lia. }
  assert (cer_explanation r ∉ cer_explanation <$> seen) as Hf.
  { intros (r' & E' & Hr')%list_elem_of_fmap. assert (bt_get (cer_explanation r) m = Some (cer_packs r')) by
      (apply Hm; eauto). congruence. }
  split; [split; [by exists e|done]|]. intros id p. rewrite bt_get_insert.
  setoid_rewrite elem_of_app. setoid_rewrite list_elem_of_singleton. case_decide as Ed.
  - split; [intros [= <-]; eauto|]. intros (r' & [Hr'| ->] & E' & <-); [|done].
    exfalso. apply Hf. rewrite Ed, <- E'. by apply list_elem_of_fmap_2.
  - rewrite (Hm id p). split; [naive_solver|]. intros (r' & [Hr'| ->] & E' & <-); [eauto|done].
Qed.

Lemma reserve_all es am q returns :
  (forall id p, bt_get id q = Some p <->
    exists e, e ∈ es /\ cle_operation e = id /\ p = current_explanation am e) ->
  NoDup (cle_operation <$> es) ->
  match try_fold (reserve q) [] returns with
  | Ok m => (Forall (return_fits es am) returns /\ NoDup (cer_explanation <$> returns)) /\ reserved m returns
  | Err _ => ~ (Forall (return_fits es am) returns /\ NoDup (cer_explanation <$> returns))
  end.
Proof.
  intros Hq Hd. pose proof (try_fold_each_after (reserve q) reserved
    (fun seen r => return_fits es am r /\ cer_explanation r ∉ cer_explanation <$> seen) [] returns) as Hr.
  destruct (try_fold (reserve q) [] returns); rewrite each_after_and, each_after_Forall, each_after_NoDup in Hr;
    apply Hr; [by intros; apply reserve_run| |by intros; apply reserve_run|];
    intros id p; (split; [done|]); intros (r & Hin & _); set_solver.
Qed.

Lemma loss_within o st t :
  each_after (explains o) t -> loss_ledger_of o st t -> raw (lsl_explained st) <= raw (ocl_packs o).
Proof.
  intros Ht Hl. rewrite (ll_explained _ _ _ Hl). destruct t as [|r t _] using rev_ind.
  - pose proof (WholePacks_range (ocl_packs o)). simpl. unfold total_explained. simpl. lia.
  - apply each_after_snoc in Ht as [_ [_ _ _ Hb]]. done.
Qed.

(** Every explanation of an accepted history is present in the quantities. *)
Lemma restored_present o st t e :
  loss_ledger_of o st t -> e ∈ explained t ->
  bt_get (cle_operation e) (lsl_quantities st) = Some (current_explanation (amended t) e).
Proof. intros Hl He. apply (ll_quantities _ _ _ Hl). by exists e. Qed.

Lemma effective_stands o st t returns m e :
  loss_ledger_of o st t -> e ∈ explained t -> reserved m returns ->
  Forall (return_fits (explained t) (amended t)) returns ->
  explanation_stands (amended t) returns e (effective_explanation (lsl_quantities st) m e).
Proof.
  intros Hl He Hm Hf. pose proof (restored_present o st t e Hl He) as Hp.
  pose proof (ho_distinct _ _ (ll_history _ _ _ Hl)) as Hd. constructor; simpl; rewrite ?Hp; simpl; try done.
  - intros r Hr E. assert (bt_get (cle_operation e) m = Some (cer_packs r)) as -> by (apply Hm; eauto). done.
  - intros Hno. destruct (bt_get (cle_operation e) m) as [p|] eqn:Em; [|done].
    apply Hm in Em as (r & Hr & E & _). by destruct (Hno r Hr).
  - destruct (bt_get (cle_operation e) m) as [p|] eqn:Em; simpl.
    + apply Hm in Em as (r & Hr & E & <-). rewrite list.Forall_forall in Hf.
      destruct (Hf r Hr) as (e' & He' & E' & Hle).
      assert (e' = e) as -> by (apply (NoDup_fmap_elem cle_operation (explained t)); [done..|congruence]). done.
    + pose proof (WholePacks_range (current_explanation (amended t) e)). lia.
Qed.

Definition loss_start (o : OriginalCountLossQuantity) : LossLedger :=
  {| lsl_operations := (bs_insert (ocl_operation o) []).2; lsl_quantities := [];
     lsl_revision := ocl_stock_revision o; lsl_explained := zero_packs |}.

Lemma loss_start_of o : loss_ledger_of o (loss_start o) [].
Proof.
  constructor; simpl; try done; [apply history_ok_nil| |].
  - intros id. unfold bs_contains. simpl. case_bool_decide; set_solver.
  - intros id p. split; [done|]. intros (e & He & _). set_solver.
Qed.

Lemma count_loss_run o es am returns :
  match CountLossQuantityAccount_restore_corrected o es am returns with
  | Ok a => loss_history o es am returns /\ loss_account o es am returns a
  | Err _ => ~ loss_history o es am returns
  end.
Proof.
  unfold CountLossQuantityAccount_restore_corrected. split_guard Hc; rewrite ?orb_true_iff in Hc; breflect.
  { intros [Hc' _ _ _ _ _]. lia. }
  destruct (Packs.positive (ocl_packs o)) as [[]|] eqn:Ep; cbn [bind].
  2:{ intros [_ Hp _ _ _ _]. rewrite (proj2 (positive_Ok _)) in Ep; done. }
  apply positive_Ok in Ep. split_guard Hi; breflect.
  { by intros [_ _ ? _ _ _]. }
  pose proof (push_events_run cle_stock_revision false (ocl_stock_revision o) es []) as Hes.
  destruct (push_events _ _ _ es []) as [evs|]; cbn [bind]; [|by intros [_ _ _ [? _] _ _]].
  destruct Hes as [Hes ->].
  pose proof (push_events_run cea_stock_revision true (ocl_stock_revision o) am) as Ham. specialize (Ham
    ([] ++ imap (fun i e => (raw (cle_stock_revision e), false, i)) es)).
  destruct (push_events _ _ _ am _) as [evs|]; cbn [bind]; [|by intros [_ _ _ [_ ?] _ _]].
  destruct Ham as [Ham ->]. rewrite app_nil_l. fold (loss_events es am). rewrite timeline_fold.
  fold (loss_start o).
  pose proof (try_fold_each_after (loss_record_step o) (loss_ledger_of o) (explains o) (loss_start o)
    (timeline es am) (loss_record_step_run o) (loss_start_of o)) as Hf.
  destruct (try_fold (loss_record_step o) (loss_start o) (timeline es am)) as [st|]; cbn [bind].
  2:{ intros [_ _ _ _ (t & Ht & Hx) _]. apply Hf. by rewrite <- (timeline_unique o es am t). }
  destruct Hf as [Ht Hl]. destruct (timeline_histories o es am Hes Ham Ht) as [Ee Ea].
  pose proof (ho_distinct _ _ (ll_history _ _ _ Hl)) as Hd. rewrite Ee in Hd.
  assert (forall id p, bt_get id (lsl_quantities st) = Some p <->
    exists e, e ∈ es /\ cle_operation e = id /\ p = current_explanation am e) as Hq.
  { pose proof (ll_quantities _ _ _ Hl) as Hq. by rewrite Ee, Ea in Hq. }
  pose proof (reserve_all es am (lsl_quantities st) returns Hq Hd) as Hr.
  destruct (try_fold _ [] returns) as [m|]; cbn [bind]; [|by intros [_ _ _ _ _ ?]].
  destruct Hr as [[Hrf Hrn] Hm]. pose proof (ll_explained _ _ _ Hl) as Hx. rewrite Ee, Ea in Hx.
  pose proof (loss_within o st _ Ht Hl) as Hle.
  pose proof (WholePacks_range (lsl_explained st)). pose proof (WholePacks_range (ocl_packs o)).
  destruct (packs_of_Z (raw (ocl_packs o) - raw (lsl_explained st))) as [u Hu]; [lia|].
  rewrite (proj2 (packs_sub_Ok _ _ _) Hu). cbn [bind].
  assert (Forall2 (explanation_stands am returns) es
    (effective_explanation (lsl_quantities st) m <$> es)) as Heff.
  { apply Forall2_fmap_r, Forall_Forall2_diag, list.Forall_forall. intros e He.
    rewrite <- Ea. apply (effective_stands o st (timeline es am)); try done; [by rewrite Ee|by rewrite Ee, Ea]. }
  split.
  - constructor; try done. exists (timeline es am). split; [apply timeline_perm|done].
  - constructor; simpl; try done; [|lia]. rewrite Hx. unfold total_explained. clear -Heff.
    induction Heff as [|e x es xs [_ Hp _ _ _] _ IH]; simpl; [done|]. by rewrite Hp, IH.
Qed.

(** A counted shortage is rebuilt exactly from explanations and amendments
    that, put in one order by revision, each continue what came before: new
    operations, amendments of what an explanation stands for at that moment, and
    never more explained than was lost.  The account then balances: every
    explanation stands for the packs of its last amendment, the linked returns
    stay within them, and what is explained and what is not add up to the
    shortage. *)
Theorem count_loss_correct o es am returns :
  match CountLossQuantityAccount_restore_corrected o es am returns with
  | Ok a => loss_history o es am returns /\ loss_account o es am returns a
  | Err _ => ~ loss_history o es am returns
  end.
Proof. apply count_loss_run. Qed.

(** An account of the code: its fields are private to [restore_corrected]. *)
Definition loss_restored (a : CountLossQuantityAccount) : Prop :=
  exists o es am returns, CountLossQuantityAccount_restore_corrected o es am returns = Ok a.

Lemma loss_restored_rows a :
  loss_restored a ->
  ece_original <$> cla_effective a = cla_explanations a /\ NoDup (cle_operation <$> cla_explanations a).
Proof.
  intros (o & es & am & returns & Ha). pose proof (count_loss_run o es am returns) as Hr. rewrite Ha in Hr.
  destruct Hr as [[_ _ _ _ (t & Ht & Hx) _] [(_ & -> & _) He _ _]]. split.
  - clear -He. induction He as [|e x es xs [<- _ _ _ _] _ IH]; csimpl; congruence.
  - assert (NoDup (record_operation <$> t)) as Hn.
    { apply each_after_NoDup. eapply each_after_impl; [|exact Hx]. intros seen r [Hf _ _ _]. set_solver. }
    rewrite Ht, fmap_app in Hn. apply list.NoDup_app in Hn as (Hn & _ & _).
    by rewrite <- list_fmap_compose in Hn.
Qed.
