(* ===== verification/Attribution.v ===== *)
(** * Attribution amendments

    [corrections/attribution.rs] and [corrections/attribution/]: immutable
    amendments of where stock came from and who received it, the impact sets
    that name what each amendment touches, and the record of manual follow-up.
    A history of amendments is replayed from the original to its current
    meaning; a planned amendment is shown to extend the history it was planned
    on. *)

From Stdlib Require Import Bool ZArith Lia String List Sorted.
From stdpp Require Import base decidable option list numbers sets.
From S2P Require Import Prelude Containers Encoding Hub Reference Catalog Stock Movement Work Dispatch Accounts.

Definition HUB_CORRECTION_IMPACTS : nat := 4096.
Definition HUB_REFERENCE_HISTORY_CAPACITY : nat := 4 * 4096.

Module AttributionError.
Inductive AttributionError :=
| Capacity | InvalidHistory | InvalidReference | SourceIdentityConflict | StaleRevision
| RevisionExhausted | UncertainSubmission | NoChange | InvalidScope.
End AttributionError.
Abbreviation AttributionError := AttributionError.AttributionError.

Record AttributionCut := {
  cut_hub : HubId;
  cut_stock_revision : HubRevision;
  cut_catalog : ReferenceCatalog;
  cut_latest_recorded_at : UnixTimestamp;
  cut_uncertain_submissions : bool
}.

Definition AttributionCut_check (self : AttributionCut) (expected catalog : HubRevision)
    (now : UnixTimestamp) : result HubRevision AttributionError :=
  if cut_uncertain_submissions self then Err AttributionError.UncertainSubmission
  else if (expected !=? cut_stock_revision self) || (catalog !=? rc_revision (cut_catalog self))
  then Err AttributionError.StaleRevision
  else if raw now <? raw (cut_latest_recorded_at self) then Err AttributionError.InvalidHistory
  else map_err (fun _ => AttributionError.RevisionExhausted)
         (HubRevision_next (cut_stock_revision self)).

(** ** Impacts *)

Module CorrectionImpact.
Inductive CorrectionImpact :=
| Population (id : HubRecordId)
| Source (id : HubRecordId)
| Departure (id : HubRecordId)
| IssuedVersion (id : HubRecordId)
| Recipient (id : HubRecordId)
| UnresolvedSource (id : HubRecordId)
| UnresolvedRecipient (id : HubRecordId).
#[global] Instance CorrectionImpact_eq_dec : EqDecision CorrectionImpact.
Proof. solve_decision. Defined.
End CorrectionImpact.
Abbreviation CorrectionImpact := CorrectionImpact.CorrectionImpact.

(** The derived order: by constructor, then by identifier. *)
Definition impact_key (impact : CorrectionImpact) : Z * HubRecordId :=
  match impact with
  | CorrectionImpact.Population id => (1, id)
  | CorrectionImpact.Source id => (2, id)
  | CorrectionImpact.Departure id => (3, id)
  | CorrectionImpact.IssuedVersion id => (4, id)
  | CorrectionImpact.Recipient id => (5, id)
  | CorrectionImpact.UnresolvedSource id => (6, id)
  | CorrectionImpact.UnresolvedRecipient id => (7, id)
  end.
Lemma impact_key_inj a b : impact_key a = impact_key b -> a = b.
Proof. destruct a, b; simpl; intros; simplify_eq; done. Qed.
#[global] Program Instance CorrectionImpact_TotalOrd : TotalOrd CorrectionImpact :=
  {| kcompare a b := kcompare (impact_key a) (impact_key b) |}.
Next Obligation. intros a b. rewrite kcompare_eq. split; [apply impact_key_inj|congruence]. Qed.
Next Obligation. intros a b. apply kcompare_antisym. Qed.
Next Obligation. intros a b c. apply kcompare_trans. Qed.

(** The rows of a [CorrectionImpactSet] are private: its values are those [new]
    builds, in order. *)
Definition CorrectionImpactSet_check (rows : list CorrectionImpact) : bool :=
  negb (length rows =? 0)%nat && (length rows <=? HUB_CORRECTION_IMPACTS)%nat
  && negb (windows2_any (fun a b => kleb b a) rows).
Abbreviation CorrectionImpactSet := (refined CorrectionImpactSet_check).

(** [CorrectionImpactSet::new]; the last check never fails
    (see [CorrectionImpactSet_new_Ok]). *)
Definition CorrectionImpactSet_new (rows : list CorrectionImpact)
  : result CorrectionImpactSet AttributionError :=
  if (length rows =? 0)%nat || (HUB_CORRECTION_IMPACTS <? length rows)%nat
  then Err AttributionError.Capacity
  else
    let rows := sort_by_key id rows in
    if windows2_any (fun a b => a ==? b) rows then Err AttributionError.InvalidHistory
    else checked CorrectionImpactSet_check AttributionError.InvalidHistory rows.

Definition CorrectionImpactSet_contains (self : CorrectionImpactSet) (target : CorrectionImpact)
  : bool :=
  is_some (search_by_key id (raw self) target).

(** [ImpactBuilder]: a [BTreeSet] that refuses to grow past the capacity. *)
Abbreviation ImpactBuilder := (list (CorrectionImpact * unit)).

Definition ImpactBuilder_add (self : ImpactBuilder) (target : CorrectionImpact)
  : result ImpactBuilder AttributionError :=
  let rows := (bs_insert target self).2 in
  if (HUB_CORRECTION_IMPACTS <? length rows)%nat then Err AttributionError.Capacity else Ok rows.

Definition ImpactBuilder_source (self : ImpactBuilder) (trace : HubRecordId)
    (source : SourceAttribution) : result ImpactBuilder AttributionError :=
  match source with
  | SourceAttribution.Unknown =>
      ImpactBuilder_add self (CorrectionImpact.UnresolvedSource trace)
  | SourceAttribution.Referenced source certainty =>
      let? self := ImpactBuilder_add self (CorrectionImpact.Source (sr_id source)) in
      if is_none (sr_issuer source) || (certainty ==? SourceCertainty.ReportedPossible)
      then ImpactBuilder_add self (CorrectionImpact.UnresolvedSource trace)
      else Ok self
  end.

Definition ImpactBuilder_finish (self : ImpactBuilder)
  : result CorrectionImpactSet AttributionError :=
  CorrectionImpactSet_new self.*1.

Record AttributionStamp := {
  ats_operation : HubRecordId;
  ats_hub : HubId;
  ats_stock_revision : HubRevision;
  ats_catalog_revision : HubRevision;
  ats_actor : PublicKey;
  ats_recorded_at : UnixTimestamp;
  ats_basis : SourceProvenance
}.
#[global] Instance AttributionStamp_eq_dec : EqDecision AttributionStamp.
Proof. solve_decision. Defined.

Definition party (record : ReferenceRecord) (catalog : HubRevision)
  : result unit AttributionError :=
  if (ReferenceValue_kind (rr_value record) !=? ReferenceKind.Party)
     || (raw (rr_revision record) >? raw catalog)
  then Err AttributionError.InvalidReference
  else Ok tt.

Definition check_stamp (stamp : AttributionStamp) (hub : HubId) (previous catalog : HubRevision)
    (at_ : UnixTimestamp) : result unit AttributionError :=
  if (ats_hub stamp !=? hub) || (raw (ats_stock_revision stamp) <=? raw previous)
     || (raw (ats_catalog_revision stamp) <? raw catalog)
     || (raw (ats_recorded_at stamp) <? raw at_)
  then Err AttributionError.InvalidHistory
  else Ok tt.

(** [collect::<BTreeSet<_>>().len()]. *)
Definition distinct_count {K} `{TotalOrd K, EqDecision K} (l : list K) : nat :=
  length (foldl (fun s k => (bs_insert k s).2) [] l).

(** ** Recipients *)

Module AmendedRecipient.
Inductive AmendedRecipient := Unknown | Known (record : ReferenceRecord).
#[global] Instance AmendedRecipient_eq_dec : EqDecision AmendedRecipient.
Proof. solve_decision. Defined.
End AmendedRecipient.
Abbreviation AmendedRecipient := AmendedRecipient.AmendedRecipient.

Definition AmendedRecipient_validate (self : AmendedRecipient) (catalog : HubRevision)
  : result unit AttributionError :=
  match self with
  | AmendedRecipient.Unknown => Ok tt
  | AmendedRecipient.Known r => party r catalog
  end.

Definition ImpactBuilder_recipient (self : ImpactBuilder) (event : HubRecordId)
    (recipient : AmendedRecipient) : result ImpactBuilder AttributionError :=
  match recipient with
  | AmendedRecipient.Unknown =>
      ImpactBuilder_add self (CorrectionImpact.UnresolvedRecipient event)
  | AmendedRecipient.Known r => ImpactBuilder_add self (CorrectionImpact.Recipient (rr_id r))
  end.

Record AttributionAffectedDeparture := {
  aad_operation : HubRecordId;
  aad_populations : list HubRecordId;
  aad_recipients : list AmendedRecipient;
  aad_issued_versions : list HubRecordId
}.

Record AttributionAffectedIssuedVersion := {
  aiv_version : HubRecordId;
  aiv_stock_revision : HubRevision;
  aiv_catalog_revision : HubRevision;
  aiv_populations : list HubRecordId;
  aiv_recipient : ReferenceRecord
}.

Definition AttributionAffectedIssuedVersion_impact (self : AttributionAffectedIssuedVersion)
    (targets : ImpactBuilder) : result ImpactBuilder AttributionError :=
  if (length (aiv_populations self) =? 0)%nat
     || (HUB_DISPATCH_LINES <? length (aiv_populations self))%nat
  then Err AttributionError.Capacity
  else if (aiv_stock_revision self ==? HubRevision_INITIAL)
          || negb (distinct_count (aiv_populations self) =? length (aiv_populations self))%nat
  then Err AttributionError.InvalidHistory
  else
    party (aiv_recipient self) (aiv_catalog_revision self) ;;?
    let? targets := ImpactBuilder_add targets (CorrectionImpact.IssuedVersion (aiv_version self)) in
    let? targets := ImpactBuilder_add targets (CorrectionImpact.Recipient (rr_id (aiv_recipient self))) in
    try_fold (fun t population => ImpactBuilder_add t (CorrectionImpact.Population population))
      targets (aiv_populations self).

Definition add_recipient (catalog : HubRevision) (operation : HubRecordId)
    (targets : ImpactBuilder) (recipient : AmendedRecipient)
  : result ImpactBuilder AttributionError :=
  AmendedRecipient_validate recipient catalog ;;?
  ImpactBuilder_recipient targets operation recipient.

Definition AttributionAffectedDeparture_impact (self : AttributionAffectedDeparture)
    (targets : ImpactBuilder) (catalog : HubRevision) : result ImpactBuilder AttributionError :=
  if (length (aad_populations self) =? 0)%nat
     || (HUB_DISPATCH_LINES <? length (aad_populations self))%nat
     || (length (aad_recipients self) =? 0)%nat
     || (HUB_CORRECTION_ROWS + 1 <? length (aad_recipients self))%nat
     || (HUB_IDENTIFICATION_VERSIONS <? length (aad_issued_versions self))%nat
  then Err AttributionError.Capacity
  else if negb (distinct_count (aad_populations self) =? length (aad_populations self))%nat
          || negb (distinct_count (aad_issued_versions self) =? length (aad_issued_versions self))%nat
  then Err AttributionError.InvalidHistory
  else
    let? targets := ImpactBuilder_add targets (CorrectionImpact.Departure (aad_operation self)) in
    let? targets := try_fold
      (fun t trace => ImpactBuilder_add t (CorrectionImpact.Population trace))
      targets (aad_populations self) in
    let? targets := try_fold (add_recipient catalog (aad_operation self))
      targets (aad_recipients self) in
    try_fold (fun t paper => ImpactBuilder_add t (CorrectionImpact.IssuedVersion paper))
      targets (aad_issued_versions self).

Module CorrectedDepartureFamily.
Inductive CorrectedDepartureFamily := Normal | ReviewedActual | ExplainedCountLoss.
#[global] Instance CorrectedDepartureFamily_eq_dec : EqDecision CorrectedDepartureFamily.
Proof. solve_decision. Defined.
End CorrectedDepartureFamily.
Abbreviation CorrectedDepartureFamily := CorrectedDepartureFamily.CorrectedDepartureFamily.

Record OriginalRecipientAttribution := {
  ora_hub : HubId;
  ora_family : CorrectedDepartureFamily;
  ora_operation : HubRecordId;
  ora_stock_revision : HubRevision;
  ora_catalog_revision : HubRevision;
  ora_recorded_at : UnixTimestamp;
  ora_actor : PublicKey;
  ora_recipient : ReferenceRecord;
  ora_populations : list HubRecordId;
  ora_issued_versions : list HubRecordId
}.
#[global] Instance OriginalRecipientAttribution_eq_dec : EqDecision OriginalRecipientAttribution.
Proof. solve_decision. Defined.

Definition OriginalRecipientAttribution_affected (self : OriginalRecipientAttribution)
    (recipients : list AmendedRecipient) : AttributionAffectedDeparture :=
  {| aad_operation := ora_operation self; aad_populations := ora_populations self;
     aad_recipients := recipients; aad_issued_versions := ora_issued_versions self |}.

Definition OriginalRecipientAttribution_validate (self : OriginalRecipientAttribution)
  : result unit AttributionError :=
  party (ora_recipient self) (ora_catalog_revision self) ;;?
  if (ora_stock_revision self ==? HubRevision_INITIAL)
     || ((ora_family self ==? CorrectedDepartureFamily.Normal)
         && (length (ora_issued_versions self) =? 0)%nat)
     || ((ora_family self !=? CorrectedDepartureFamily.Normal)
         && negb (length (ora_issued_versions self) =? 0)%nat)
  then Err AttributionError.InvalidHistory
  else
    let? _ := AttributionAffectedDeparture_impact
      (OriginalRecipientAttribution_affected self [AmendedRecipient.Known (ora_recipient self)])
      [] (ora_catalog_revision self) in
    Ok tt.

Record RecipientAttributionCorrection := {
  rac_stamp : AttributionStamp;
  rac_original : OriginalRecipientAttribution;
  rac_prior : option HubRecordId;
  rac_before : AmendedRecipient;
  rac_after : AmendedRecipient;
  rac_impact : CorrectionImpactSet
}.

Record RecipientAttributionCommand := {
  rcm_departure_operation : HubRecordId;
  rcm_expected_stock_revision : HubRevision;
  rcm_expected_catalog_revision : HubRevision;
  rcm_expected_prior : option HubRecordId;
  rcm_recipient : option HubRecordId;
  rcm_basis : SourceProvenance
}.

Record RecipientAttributionContext := {
  rcx_cut : AttributionCut;
  rcx_original : OriginalRecipientAttribution;
  rcx_history : list RecipientAttributionCorrection;
  rcx_linked_issued_versions : list HubRecordId
}.

(** The mutable locals of [current_recipient_attribution]. *)
Record RecipientReplay := {
  rrp_current : AmendedRecipient;
  rrp_prior : option HubRecordId;
  rrp_revision : HubRevision;
  rrp_catalog : HubRevision;
  rrp_at : UnixTimestamp;
  rrp_operations : list (HubRecordId * unit);
  rrp_required : ImpactBuilder
}.

Definition is_issued_version (target : CorrectionImpact) : bool :=
  match target with CorrectionImpact.IssuedVersion _ => true | _ => false end.
Definition same_party (before after : AmendedRecipient) : bool :=
  match before, after with
  | AmendedRecipient.Known a, AmendedRecipient.Known b => rr_id a ==? rr_id b
  | _, _ => false
  end.

Definition add_issued (family : CorrectedDepartureFamily) (required : ImpactBuilder)
    (target : CorrectionImpact) : result ImpactBuilder AttributionError :=
  if is_issued_version target && (family ==? CorrectedDepartureFamily.Normal)
  then ImpactBuilder_add required target else Ok required.

(** The loop body over the history. *)
Definition replay_recipient (original : OriginalRecipientAttribution) (st : RecipientReplay)
    (record : RecipientAttributionCorrection) : result RecipientReplay AttributionError :=
  let stamp := rac_stamp record in
  check_stamp stamp (ora_hub original) (rrp_revision st) (rrp_catalog st) (rrp_at st) ;;?
  let (fresh, operations) := bs_insert (ats_operation stamp) (rrp_operations st) in
  if (rac_original record !=? original) || (rac_prior record !=? rrp_prior st)
     || (rac_before record !=? rrp_current st) || (rac_after record ==? rac_before record)
     || negb (CorrectionImpactSet_contains (rac_impact record)
                (CorrectionImpact.Departure (ora_operation original)))
     || existsb (fun id => negb (CorrectionImpactSet_contains (rac_impact record)
                                   (CorrectionImpact.Population id))) (ora_populations original)
     || existsb (fun id => negb (CorrectionImpactSet_contains (rac_impact record)
                                   (CorrectionImpact.IssuedVersion id))) (ora_issued_versions original)
     || negb fresh
  then Err AttributionError.InvalidHistory
  else
    AmendedRecipient_validate (rac_after record) (ats_catalog_revision stamp) ;;?
    if same_party (rac_before record) (rac_after record) then Err AttributionError.InvalidHistory
    else
      let? required := ImpactBuilder_recipient (rrp_required st) (ora_operation original)
        (rac_after record) in
      let? required := try_fold (add_issued (ora_family original)) required
        (raw (rac_impact record)) in
      let? expected := ImpactBuilder_finish required in
      if rac_impact record !=? expected then Err AttributionError.InvalidHistory
      else Ok {| rrp_current := rac_after record; rrp_prior := Some (ats_operation stamp);
                 rrp_revision := ats_stock_revision stamp;
                 rrp_catalog := ats_catalog_revision stamp;
                 rrp_at := ats_recorded_at stamp; rrp_operations := operations;
                 rrp_required := required |}.

Definition replay_recipients (original : OriginalRecipientAttribution)
    (history : list RecipientAttributionCorrection) : result RecipientReplay AttributionError :=
  let current := AmendedRecipient.Known (ora_recipient original) in
  let? required := AttributionAffectedDeparture_impact
    (OriginalRecipientAttribution_affected original [current]) [] (ora_catalog_revision original) in
  try_fold (replay_recipient original)
    {| rrp_current := current; rrp_prior := None; rrp_revision := ora_stock_revision original;
       rrp_catalog := ora_catalog_revision original; rrp_at := ora_recorded_at original;
       rrp_operations := (bs_insert (ora_operation original) []).2;
       rrp_required := required |} history.

Definition current_recipient_attribution (original : OriginalRecipientAttribution)
    (history : list RecipientAttributionCorrection) : result AmendedRecipient AttributionError :=
  if (HUB_CORRECTION_ROWS <? length history)%nat then Err AttributionError.Capacity
  else
    OriginalRecipientAttribution_validate original ;;?
    let? st := replay_recipients original history in
    Ok (rrp_current st).

Definition unlinked_version (links : list (HubRecordId * unit)) (target : CorrectionImpact) : bool :=
  match target with CorrectionImpact.IssuedVersion id => negb (bs_contains id links) | _ => false end.

Definition recipient_impact_with_linked_versions (original : OriginalRecipientAttribution)
    (history : list RecipientAttributionCorrection) (linked_issued_versions : list HubRecordId)
  : result CorrectionImpactSet AttributionError :=
  let? _ := current_recipient_attribution original history in
  if (HUB_CORRECTION_IMPACTS <? length linked_issued_versions)%nat
  then Err AttributionError.Capacity
  else
    let links := foldl (fun s k => (bs_insert k s).2) [] linked_issued_versions in
    if negb (length links =? length linked_issued_versions)%nat
       || ((ora_family original !=? CorrectedDepartureFamily.Normal) && negb (length links =? 0)%nat)
       || existsb (fun id => negb (bs_contains id links)) (ora_issued_versions original)
       || existsb (unlinked_version links) (history ≫= fun r => raw (rac_impact r))
    then Err AttributionError.InvalidScope
    else
      let recipients := AmendedRecipient.Known (ora_recipient original) :: (rac_after <$> history) in
      let? impact := AttributionAffectedDeparture_impact
        (OriginalRecipientAttribution_affected original recipients) []
        (default (ora_catalog_revision original)
           ((fun r => ats_catalog_revision (rac_stamp r)) <$> last history)) in
      let? impact := try_fold
        (fun t id => ImpactBuilder_add t (CorrectionImpact.IssuedVersion id)) impact links.*1 in
      ImpactBuilder_finish impact.

Definition RecipientAttributionCommand_plan (self : RecipientAttributionCommand)
    (context : RecipientAttributionContext) (operation : HubRecordId) (actor : PublicKey)
    (now : UnixTimestamp) : result RecipientAttributionCorrection AttributionError :=
  let cut := rcx_cut context in
  let original := rcx_original context in
  let history := rcx_history context in
  let? next := AttributionCut_check cut (rcm_expected_stock_revision self)
    (rcm_expected_catalog_revision self) now in
  if (HUB_CORRECTION_ROWS <=? length history)%nat then Err AttributionError.Capacity
  else if (rcm_departure_operation self !=? ora_operation original)
          || (ora_hub original !=? cut_hub cut)
  then Err AttributionError.InvalidScope
  else
    let? before := current_recipient_attribution original history in
    let last_stamp := rac_stamp <$> last history in
    if rcm_expected_prior self !=? (ats_operation <$> last_stamp) then Err AttributionError.StaleRevision
    else if (raw (default (ora_stock_revision original) (ats_stock_revision <$> last_stamp))
               >? raw (cut_stock_revision cut))
            || (raw (default (ora_catalog_revision original) (ats_catalog_revision <$> last_stamp))
                  >? raw (rc_revision (cut_catalog cut)))
            || (raw now <? raw (default (ora_recorded_at original) (ats_recorded_at <$> last_stamp)))
            || (operation ==? ora_operation original)
            || existsb (fun r => ats_operation (rac_stamp r) ==? operation) history
    then Err AttributionError.InvalidHistory
    else
      let? known := transpose_map (fun id => map_err (fun _ => AttributionError.InvalidReference)
        (let? r := ReferenceCatalog_require_kind (cut_catalog cut) id ReferenceKind.Party in
         Ok (AmendedRecipient.Known r))) (rcm_recipient self) in
      let after := default AmendedRecipient.Unknown known in
      if match before, after with
         | AmendedRecipient.Unknown, AmendedRecipient.Unknown => true
         | _, _ => false
         end || same_party before after
      then Err AttributionError.NoChange
      else
        let? current := recipient_impact_with_linked_versions original history
          (rcx_linked_issued_versions context) in
        let builder := foldl (fun s k => (bs_insert k s).2) [] (raw current) in
        let? builder := ImpactBuilder_recipient builder (ora_operation original) after in
        let? impact := ImpactBuilder_finish builder in
        Ok {| rac_stamp := {| ats_operation := operation; ats_hub := cut_hub cut;
                ats_stock_revision := next; ats_catalog_revision := rc_revision (cut_catalog cut);
                ats_actor := actor; ats_recorded_at := now; ats_basis := rcm_basis self |};
              rac_original := original; rac_prior := rcm_expected_prior self;
              rac_before := before; rac_after := after; rac_impact := impact |}.

(** ** Sources *)

Record AmendedSource := {
  ams_source : SourceAttribution;
  ams_issuer : option ReferenceRecord
}.
#[global] Instance AmendedSource_eq_dec : EqDecision AmendedSource.
Proof. solve_decision. Defined.

Definition AmendedSource_validate (self : AmendedSource) (catalog : HubRevision)
  : result unit AttributionError :=
  match ams_source self, ams_issuer self with
  | SourceAttribution.Unknown, None => Ok tt
  | SourceAttribution.Referenced source _, None =>
      if is_none (sr_issuer source) then Ok tt else Err AttributionError.InvalidReference
  | SourceAttribution.Referenced source _, Some issuer =>
      if sr_issuer source ==? Some (rr_id issuer) then party issuer catalog
      else Err AttributionError.InvalidReference
  | _, _ => Err AttributionError.InvalidReference
  end.

Record OriginalSourceAttribution := {
  osa_hub : HubId;
  osa_operation : HubRecordId;
  osa_trace : HubRecordId;
  osa_stock_revision : HubRevision;
  osa_catalog_revision : HubRevision;
  osa_recorded_at : UnixTimestamp;
  osa_actor : PublicKey;
  osa_source : AmendedSource
}.
#[global] Instance OriginalSourceAttribution_eq_dec : EqDecision OriginalSourceAttribution.
Proof. solve_decision. Defined.

Record SourceAttributionCorrection := {
  sac_stamp : AttributionStamp;
  sac_original : OriginalSourceAttribution;
  sac_prior : option HubRecordId;
  sac_before : AmendedSource;
  sac_after : AmendedSource;
  sac_impact : CorrectionImpactSet
}.

Record SourceAttributionCommand := {
  scm_trace : HubRecordId;
  scm_expected_stock_revision : HubRevision;
  scm_expected_catalog_revision : HubRevision;
  scm_expected_prior : option HubRecordId;
  scm_source : SourceAttribution;
  scm_basis : SourceProvenance
}.

Record SourceAttributionContext := {
  scx_cut : AttributionCut;
  scx_original : OriginalSourceAttribution;
  scx_history : list SourceAttributionCorrection;
  scx_known_sources : list SourceAttribution;
  scx_affected : list AttributionAffectedDeparture;
  scx_issued_versions : list AttributionAffectedIssuedVersion
}.

(** The mutable locals of [current_source_attribution]. *)
Record SourceReplay := {
  srp_current : AmendedSource;
  srp_prior : option HubRecordId;
  srp_revision : HubRevision;
  srp_catalog : HubRevision;
  srp_at : UnixTimestamp;
  srp_operations : list (HubRecordId * unit);
  srp_identities : list (HubRecordId * SourceReference);
  srp_required : ImpactBuilder
}.

Definition identity_conflict (identities : list (HubRecordId * SourceReference))
    (source : SourceAttribution) : bool :=
  match source with
  | SourceAttribution.Referenced source _ =>
      is_some_and (bt_get (sr_id source) identities) (fun old => old !=? source)
  | SourceAttribution.Unknown => false
  end.
Definition identity_insert (identities : list (HubRecordId * SourceReference))
    (source : SourceAttribution) : list (HubRecordId * SourceReference) :=
  match source with
  | SourceAttribution.Referenced source _ => bt_insert (sr_id source) source identities
  | SourceAttribution.Unknown => identities
  end.

(** The loop body over the history. *)
Definition replay_source (original : OriginalSourceAttribution) (st : SourceReplay)
    (record : SourceAttributionCorrection) : result SourceReplay AttributionError :=
  let stamp := sac_stamp record in
  let after := ams_source (sac_after record) in
  check_stamp stamp (osa_hub original) (srp_revision st) (srp_catalog st) (srp_at st) ;;?
  let (fresh, operations) := bs_insert (ats_operation stamp) (srp_operations st) in
  if (sac_original record !=? original) || (sac_prior record !=? srp_prior st)
     || (sac_before record !=? srp_current st)
     || (after ==? ams_source (sac_before record))
     || negb (CorrectionImpactSet_contains (sac_impact record)
                (CorrectionImpact.Population (osa_trace original)))
     || negb fresh
  then Err AttributionError.InvalidHistory
  else
    AmendedSource_validate (sac_after record) (ats_catalog_revision stamp) ;;?
    map_err (fun _ => AttributionError.SourceIdentityConflict)
      (validate_source_reuse after
         [ams_source (sac_before record); ams_source (osa_source original)]) ;;?
    if identity_conflict (srp_identities st) after then Err AttributionError.SourceIdentityConflict
    else
      let? required := ImpactBuilder_source (srp_required st) (osa_trace original) after in
      if existsb (fun target => negb (CorrectionImpactSet_contains (sac_impact record) target)) required.*1
      then Err AttributionError.InvalidHistory
      else
        let? required := try_fold ImpactBuilder_add required (raw (sac_impact record)) in
        Ok {| srp_current := sac_after record; srp_prior := Some (ats_operation stamp);
              srp_revision := ats_stock_revision stamp; srp_catalog := ats_catalog_revision stamp;
              srp_at := ats_recorded_at stamp; srp_operations := operations;
              srp_identities := identity_insert (srp_identities st) after;
              srp_required := required |}.

Definition replay_sources (original : OriginalSourceAttribution)
    (history : list SourceAttributionCorrection) : result SourceReplay AttributionError :=
  let? required := ImpactBuilder_add [] (CorrectionImpact.Population (osa_trace original)) in
  let? required := ImpactBuilder_source required (osa_trace original)
    (ams_source (osa_source original)) in
  try_fold (replay_source original)
    {| srp_current := osa_source original; srp_prior := None;
       srp_revision := osa_stock_revision original; srp_catalog := osa_catalog_revision original;
       srp_at := osa_recorded_at original;
       srp_operations := (bs_insert (osa_operation original) []).2;
       srp_identities := identity_insert [] (ams_source (osa_source original));
       srp_required := required |} history.

Definition current_source_attribution (original : OriginalSourceAttribution)
    (history : list SourceAttributionCorrection) : result AmendedSource AttributionError :=
  if (HUB_CORRECTION_ROWS <? length history)%nat then Err AttributionError.Capacity
  else
    AmendedSource_validate (osa_source original) (osa_catalog_revision original) ;;?
    if osa_stock_revision original ==? HubRevision_INITIAL then Err AttributionError.InvalidHistory
    else
      let? st := replay_sources original history in
      Ok (srp_current st).

(** The issuer the plan captures. *)
Definition source_issuer (catalog : ReferenceCatalog) (source : SourceAttribution)
  : result (option ReferenceRecord) AttributionError :=
  match source with
  | SourceAttribution.Referenced source _ =>
      transpose_map (fun id => map_err (fun _ => AttributionError.InvalidReference)
        (ReferenceCatalog_require_kind catalog id ReferenceKind.Party)) (sr_issuer source)
  | SourceAttribution.Unknown => Ok None
  end.

(** The loops over the affected events and issued versions. *)
Definition affect_departure (trace operation : HubRecordId) (catalog : HubRevision)
    (st : list (HubRecordId * unit) * ImpactBuilder) (event : AttributionAffectedDeparture)
  : result (list (HubRecordId * unit) * ImpactBuilder) AttributionError :=
  let (fresh, events) := bs_insert (aad_operation event) st.1 in
  if negb (existsb (fun id => id ==? trace) (aad_populations event)) || negb fresh
     || (aad_operation event ==? operation)
  then Err AttributionError.InvalidScope
  else
    let? downstream := AttributionAffectedDeparture_impact event st.2 catalog in
    Ok (events, downstream).

Definition affect_version (cut : AttributionCut) (trace operation : HubRecordId)
    (st : list (HubRecordId * unit) * ImpactBuilder) (issued : AttributionAffectedIssuedVersion)
  : result (list (HubRecordId * unit) * ImpactBuilder) AttributionError :=
  let (fresh, versions) := bs_insert (aiv_version issued) st.1 in
  if negb (existsb (fun id => id ==? trace) (aiv_populations issued))
     || (aiv_version issued ==? operation) || negb fresh
     || (raw (aiv_stock_revision issued) >? raw (cut_stock_revision cut))
     || (raw (aiv_catalog_revision issued) >? raw (rc_revision (cut_catalog cut)))
  then Err AttributionError.InvalidScope
  else
    let? downstream := AttributionAffectedIssuedVersion_impact issued st.2 in
    Ok (versions, downstream).

Definition is_downstream (target : CorrectionImpact) : bool :=
  match target with
  | CorrectionImpact.Population _ | CorrectionImpact.Departure _
  | CorrectionImpact.IssuedVersion _ | CorrectionImpact.Recipient _
  | CorrectionImpact.UnresolvedRecipient _ => true
  | _ => false
  end.
Definition keep_impact (downstream : ImpactBuilder) (impact : ImpactBuilder)
    (target : CorrectionImpact) : result ImpactBuilder AttributionError :=
  if is_downstream target && negb (bs_contains target downstream)
  then Err AttributionError.InvalidScope
  else ImpactBuilder_add impact target.

(** The impact of a planned amendment: every earlier one, and everything
    downstream. *)
Definition source_impact (self : SourceAttributionCommand) (context : SourceAttributionContext)
    (operation : HubRecordId) : result CorrectionImpactSet AttributionError :=
  let cut := scx_cut context in
  let trace := scm_trace self in
  let? impact := ImpactBuilder_add [] (CorrectionImpact.Population trace) in
  let? impact := ImpactBuilder_source impact trace (ams_source (osa_source (scx_original context))) in
  let? impact := try_fold (fun t r => ImpactBuilder_source t trace (ams_source (sac_after r)))
    impact (scx_history context) in
  let? impact := ImpactBuilder_source impact trace (scm_source self) in
  let? downstream := ImpactBuilder_add [] (CorrectionImpact.Population trace) in
  let? (_, downstream) := try_fold
    (affect_departure trace operation (rc_revision (cut_catalog cut)))
    ([], downstream) (scx_affected context) in
  let? (_, downstream) := try_fold (affect_version cut trace operation)
    ([], downstream) (scx_issued_versions context) in
  let? impact := try_fold (keep_impact downstream) impact
    (scx_history context ≫= fun r => raw (sac_impact r)) in
  let? impact := try_fold ImpactBuilder_add impact downstream.*1 in
  ImpactBuilder_finish impact.

Definition SourceAttributionCommand_plan (self : SourceAttributionCommand)
    (context : SourceAttributionContext) (operation : HubRecordId) (actor : PublicKey)
    (now : UnixTimestamp) : result SourceAttributionCorrection AttributionError :=
  let cut := scx_cut context in
  let catalog := cut_catalog cut in
  let original := scx_original context in
  let history := scx_history context in
  let? next := AttributionCut_check cut (scm_expected_stock_revision self)
    (scm_expected_catalog_revision self) now in
  if (HUB_CORRECTION_ROWS <=? length history)%nat
     || (HUB_REFERENCE_HISTORY_CAPACITY <? length (scx_known_sources context))%nat
     || (HUB_CORRECTION_ROWS <? length (scx_affected context))%nat
     || (HUB_CORRECTION_IMPACTS <? length (scx_issued_versions context))%nat
  then Err AttributionError.Capacity
  else if (scm_trace self !=? osa_trace original) || (osa_hub original !=? cut_hub cut)
  then Err AttributionError.InvalidScope
  else
    let? before := current_source_attribution original history in
    let last_stamp := sac_stamp <$> last history in
    if scm_expected_prior self !=? (ats_operation <$> last_stamp) then Err AttributionError.StaleRevision
    else if (raw (default (osa_stock_revision original) (ats_stock_revision <$> last_stamp))
               >? raw (cut_stock_revision cut))
            || (raw (default (osa_catalog_revision original) (ats_catalog_revision <$> last_stamp))
                  >? raw (rc_revision catalog))
            || (raw now <? raw (default (osa_recorded_at original) (ats_recorded_at <$> last_stamp)))
            || (operation ==? osa_operation original)
            || existsb (fun r => ats_operation (sac_stamp r) ==? operation) history
    then Err AttributionError.InvalidHistory
    else
      match scm_source self with
      | SourceAttribution.Referenced source _ =>
          map_err (fun _ => AttributionError.InvalidReference) (SourceReference_validate source catalog)
      | SourceAttribution.Unknown => Ok tt
      end ;;?
      map_err (fun _ => AttributionError.SourceIdentityConflict)
        (validate_source_reuse (scm_source self)
           (scx_known_sources context ++ ams_source (osa_source original)
              :: ((fun r => ams_source (sac_after r)) <$> history))) ;;?
      let? issuer := source_issuer catalog (scm_source self) in
      let after := {| ams_source := scm_source self; ams_issuer := issuer |} in
      AmendedSource_validate after (rc_revision catalog) ;;?
      if ams_source before ==? ams_source after then Err AttributionError.NoChange
      else
        let? impact := source_impact self context operation in
        Ok {| sac_stamp := {| ats_operation := operation; ats_hub := cut_hub cut;
                ats_stock_revision := next; ats_catalog_revision := rc_revision catalog;
                ats_actor := actor; ats_recorded_at := now; ats_basis := scm_basis self |};
              sac_original := original; sac_prior := scm_expected_prior self;
              sac_before := before; sac_after := after; sac_impact := impact |}.

(** ** Manual follow-up *)

Module CorrectionManualWork.
Inductive CorrectionManualWork := Outstanding | WorkRecorded.
End CorrectionManualWork.
Abbreviation CorrectionManualWork := CorrectionManualWork.CorrectionManualWork.

Record CorrectionFollowUpObservation := {
  cfo_stamp : AttributionStamp;
  cfo_correction : HubRecordId;
  cfo_target : CorrectionImpact;
  cfo_prior : option HubRecordId;
  cfo_state : CorrectionManualWork
}.

Record CorrectionFollowUpCommand := {
  cfc_correction : HubRecordId;
  cfc_target : CorrectionImpact;
  cfc_expected_stock_revision : HubRevision;
  cfc_expected_catalog_revision : HubRevision;
  cfc_expected_prior : option HubRecordId;
  cfc_state : CorrectionManualWork;
  cfc_basis : SourceProvenance
}.

Record CorrectionFollowUpContext := {
  cfx_cut : AttributionCut;
  cfx_correction : AttributionStamp;
  cfx_impact : CorrectionImpactSet;
  cfx_history : list CorrectionFollowUpObservation
}.

(** The mutable locals of [CorrectionFollowUpContext::validate]. *)
Record FollowUpReplay := {
  frp_operations : list (HubRecordId * unit);
  frp_targets : list (CorrectionImpact * HubRecordId);
  frp_revision : HubRevision;
  frp_catalog : HubRevision;
  frp_at : UnixTimestamp
}.

Definition replay_follow_up (self : CorrectionFollowUpContext) (st : FollowUpReplay)
    (row : CorrectionFollowUpObservation) : result FollowUpReplay AttributionError :=
  let cut := cfx_cut self in
  let stamp := cfo_stamp row in
  check_stamp stamp (cut_hub cut) (frp_revision st) (frp_catalog st) (frp_at st) ;;?
  let (fresh, operations) := bs_insert (ats_operation stamp) (frp_operations st) in
  if (cfo_correction row !=? ats_operation (cfx_correction self))
     || negb (CorrectionImpactSet_contains (cfx_impact self) (cfo_target row))
     || (cfo_prior row !=? bt_get (cfo_target row) (frp_targets st))
     || negb fresh
     || (raw (ats_stock_revision stamp) >? raw (cut_stock_revision cut))
     || (raw (ats_catalog_revision stamp) >? raw (rc_revision (cut_catalog cut)))
  then Err AttributionError.InvalidHistory
  else Ok {| frp_operations := operations;
             frp_targets := bt_insert (cfo_target row) (ats_operation stamp) (frp_targets st);
             frp_revision := ats_stock_revision stamp; frp_catalog := ats_catalog_revision stamp;
             frp_at := ats_recorded_at stamp |}.

Definition CorrectionFollowUpContext_validate (self : CorrectionFollowUpContext)
  : result unit AttributionError :=
  let cut := cfx_cut self in
  let correction := cfx_correction self in
  if (HUB_CORRECTION_ROWS <? length (cfx_history self))%nat then Err AttributionError.Capacity
  else if (ats_hub correction !=? cut_hub cut)
          || (raw (ats_stock_revision correction) >? raw (cut_stock_revision cut))
          || (raw (ats_catalog_revision correction) >? raw (rc_revision (cut_catalog cut)))
  then Err AttributionError.InvalidHistory
  else
    let? _ := try_fold (replay_follow_up self)
      {| frp_operations := (bs_insert (ats_operation correction) []).2; frp_targets := [];
         frp_revision := ats_stock_revision correction;
         frp_catalog := ats_catalog_revision correction;
         frp_at := ats_recorded_at correction |} (cfx_history self) in
    Ok tt.

(** [iter().rev().find(..)]. *)
Definition latest_follow_up (history : list CorrectionFollowUpObservation)
    (target : CorrectionImpact) : option CorrectionFollowUpObservation :=
  List.find (fun r => cfo_target r ==? target) (reverse history).

Definition CorrectionFollowUpContext_current (self : CorrectionFollowUpContext)
    (target : CorrectionImpact) : result CorrectionManualWork AttributionError :=
  CorrectionFollowUpContext_validate self ;;?
  if negb (CorrectionImpactSet_contains (cfx_impact self) target) then Err AttributionError.InvalidScope
  else Ok (default CorrectionManualWork.Outstanding
             (cfo_state <$> latest_follow_up (cfx_history self) target)).

Definition CorrectionFollowUpCommand_plan (self : CorrectionFollowUpCommand)
    (context : CorrectionFollowUpContext) (operation : HubRecordId) (actor : PublicKey)
    (now : UnixTimestamp) : result CorrectionFollowUpObservation AttributionError :=
  let cut := cfx_cut context in
  let history := cfx_history context in
  let? next := AttributionCut_check cut (cfc_expected_stock_revision self)
    (cfc_expected_catalog_revision self) now in
  CorrectionFollowUpContext_validate context ;;?
  if (HUB_CORRECTION_ROWS <=? length history)%nat then Err AttributionError.Capacity
  else if (cfc_correction self !=? ats_operation (cfx_correction context))
          || negb (CorrectionImpactSet_contains (cfx_impact context) (cfc_target self))
  then Err AttributionError.InvalidScope
  else if cfc_expected_prior self
            !=? ((fun r => ats_operation (cfo_stamp r)) <$> latest_follow_up history (cfc_target self))
  then Err AttributionError.StaleRevision
  else if (operation ==? cfc_correction self)
          || existsb (fun r => ats_operation (cfo_stamp r) ==? operation) history
          || (raw now <? raw (default (ats_recorded_at (cfx_correction context))
                                ((fun r => ats_recorded_at (cfo_stamp r)) <$> last history)))
  then Err AttributionError.InvalidHistory
  else Ok {| cfo_stamp := {| ats_operation := operation; ats_hub := cut_hub cut;
               ats_stock_revision := next; ats_catalog_revision := rc_revision (cut_catalog cut);
               ats_actor := actor; ats_recorded_at := now; ats_basis := cfc_basis self |};
             cfo_correction := cfc_correction self; cfo_target := cfc_target self;
             cfo_prior := cfc_expected_prior self; cfo_state := cfc_state self |}.

(** ** Fingerprints ([corrections/intent.rs]) *)

Definition intent_header (purpose : string) (hub : HubId) (actor : PublicKey)
    (operation : HubRecordId) (stock catalog : HubRevision) : list byte :=
  domain_tag purpose ++ enc_hub hub ++ enc_key actor ++ enc_id operation ++ enc_revision stock ++
  enc_revision catalog.
Definition SourceAttributionCommand_message (self : SourceAttributionCommand) (hub : HubId)
    (actor : PublicKey) (operation : HubRecordId) : list byte :=
  intent_header "harvestcircle.hub.correction.source.command.v1" hub actor operation
    (scm_expected_stock_revision self) (scm_expected_catalog_revision self) ++
  enc_id (scm_trace self) ++ enc_optional_id (scm_expected_prior self) ++
  hash_source (scm_source self) ++ enc_hub_text (scm_basis self).
Definition SourceAttributionCommand_fingerprint `{Sha256} (self : SourceAttributionCommand)
    (hub : HubId) (actor : PublicKey) (operation : HubRecordId) : array 32 :=
  digest32 (SourceAttributionCommand_message self hub actor operation).
Definition RecipientAttributionCommand_message (self : RecipientAttributionCommand) (hub : HubId)
    (actor : PublicKey) (operation : HubRecordId) : list byte :=
  intent_header "harvestcircle.hub.correction.recipient.command.v1" hub actor operation
    (rcm_expected_stock_revision self) (rcm_expected_catalog_revision self) ++
  enc_id (rcm_departure_operation self) ++ enc_optional_id (rcm_expected_prior self) ++
  enc_optional_id (rcm_recipient self) ++ enc_hub_text (rcm_basis self).
Definition RecipientAttributionCommand_fingerprint `{Sha256} (self : RecipientAttributionCommand)
    (hub : HubId) (actor : PublicKey) (operation : HubRecordId) : array 32 :=
  digest32 (RecipientAttributionCommand_message self hub actor operation).
Definition CorrectionManualWork_tag (state : CorrectionManualWork) : Z :=
  match state with CorrectionManualWork.Outstanding => 0 | CorrectionManualWork.WorkRecorded => 1 end.
Definition CorrectionFollowUpCommand_message (self : CorrectionFollowUpCommand) (hub : HubId)
    (actor : PublicKey) (operation : HubRecordId) : list byte :=
  intent_header "harvestcircle.hub.correction.follow_up.command.v1" hub actor operation
    (cfc_expected_stock_revision self) (cfc_expected_catalog_revision self) ++
  enc_id (cfc_correction self) ++ enc_tag (impact_key (cfc_target self)).1 ++
  enc_id (impact_key (cfc_target self)).2 ++ enc_optional_id (cfc_expected_prior self) ++
  enc_tag (CorrectionManualWork_tag (cfc_state self)) ++ enc_hub_text (cfc_basis self).
Definition CorrectionFollowUpCommand_fingerprint `{Sha256} (self : CorrectionFollowUpCommand)
    (hub : HubId) (actor : PublicKey) (operation : HubRecordId) : array 32 :=
  digest32 (CorrectionFollowUpCommand_message self hub actor operation).

(** ** Sets built by insertion *)

(** The set a run of insertions builds. *)
Definition collect {K} `{TotalOrd K, EqDecision K} (s : list (K * unit)) (l : list K)
  : list (K * unit) :=
  foldl (fun s k => (bs_insert k s).2) s l.

Section Collect.
Context {K : Type} `{TotalOrd K} `{EqDecision K}.
Implicit Types (s t : list (K * unit)) (l : list K) (k x : K).

Lemma collect_wf s l : bt_wf s -> bt_wf (collect s l).
Proof. revert s. induction l as [|k l IH]; intros s Hs; [done|]. apply IH. by apply bt_insert_wf. Qed.

Lemma elem_of_insert k s x : bt_wf s -> x ∈ (bt_insert k tt s).*1 <-> x = k \/ x ∈ s.*1.
Proof.
  intros Hs. assert (forall m, bt_wf m -> x ∈ m.*1 <-> bt_get x m = Some tt) as Hg.
  { intros m Hm. rewrite (bt_get_elem_of x tt m Hm), list_elem_of_fmap. split.
    - intros ([y []] & -> & ?). done.
    - intros ?. by exists (x, tt). }
  rewrite !Hg by (try apply bt_insert_wf; done). rewrite bt_get_insert. case_decide; naive_solver.
Qed.

Lemma elem_of_collect s l x : bt_wf s -> x ∈ (collect s l).*1 <-> x ∈ s.*1 \/ x ∈ l.
Proof.
  revert s. induction l as [|k l IH]; intros s Hs; simpl.
  { rewrite elem_of_nil. tauto. }
  rewrite IH, elem_of_insert, elem_of_cons by (try apply bt_insert_wf; done). tauto.
Qed.

Lemma set_NoDup s : bt_wf s -> NoDup s.*1.
Proof. apply key_sorted_NoDup. Qed.

Lemma set_length_le s t : bt_wf s -> s.*1 ⊆ t.*1 -> (length s <= length t)%nat.
Proof.
  intros Hs Hst. rewrite <- !(length_fmap (fst : K * unit -> K)).
  apply submseteq_length, NoDup_submseteq; [by apply set_NoDup|]. intros x. apply Hst.
Qed.

Lemma set_ext s t : bt_wf s -> bt_wf t -> (forall x, x ∈ s.*1 <-> x ∈ t.*1) -> s = t.
Proof.
  intros Hs Ht E. apply (key_sorted_unique fst); try done. apply NoDup_Permutation.
  - apply (NoDup_fmap_1 fst), set_NoDup, Hs.
  - apply (NoDup_fmap_1 fst), set_NoDup, Ht.
  - intros [x []]. assert (forall m : list (K * unit), (x, tt) ∈ m <-> x ∈ m.*1) as Hm.
    { intros m. rewrite list_elem_of_fmap. split; [by exists (x, tt)|by intros ([y []] & -> & ?)]. }
    by rewrite !Hm.
Qed.

Lemma collect_keys s : bt_wf s -> collect [] s.*1 = s.
Proof.
  intros Hs. apply set_ext; [apply collect_wf, bt_wf_nil|done|]. intros x.
  rewrite elem_of_collect by apply bt_wf_nil. simpl. rewrite elem_of_nil. tauto.
Qed.

Lemma collect_app s l l' : collect s (l ++ l') = collect (collect s l) l'.
Proof. apply foldl_app. Qed.

Lemma distinct_count_NoDup l : distinct_count l = length l <-> NoDup l.
Proof.
  unfold distinct_count. change (foldl _ [] l) with (collect [] l).
  assert (forall x, x ∈ (collect [] l).*1 <-> x ∈ l) as Hc.
  { intros x. rewrite elem_of_collect by apply bt_wf_nil. simpl. rewrite elem_of_nil. tauto. }
  pose proof (set_NoDup (collect [] l) (collect_wf [] l bt_wf_nil)) as Hn. split.
  - intros E. assert ((collect [] l).*1 ⊆+ l) as Hs by (apply NoDup_submseteq; [done|intros x; apply Hc]).
    apply submseteq_length_Permutation in Hs; [by rewrite <- Hs|]. rewrite length_fmap. lia.
  - intros Hl. rewrite <- (length_fmap (fst : K * unit -> K)). apply Permutation_length, NoDup_Permutation; done.
Qed.
End Collect.

(** ** Impact sets *)

Lemma impact_key_sorted (s : CorrectionImpactSet) :
  (1 <= length (raw s) <= HUB_CORRECTION_IMPACTS)%nat /\ key_sorted id (raw s).
Proof.
  apply (raw_elim (fun l => (1 <= length l <= HUB_CORRECTION_IMPACTS)%nat /\ key_sorted id l) s).
  intros l H. unfold CorrectionImpactSet_check in H.
  apply andb_true_iff in H as [[H1 H2]%andb_true_iff H3]. apply negb_true_iff in H1, H3. breflect.
  split; [lia|]. by apply (windows_strict id) in H3.
Qed.

Lemma impact_contains (s : CorrectionImpactSet) t :
  CorrectionImpactSet_contains s t = true <-> t ∈ raw s.
Proof.
  unfold CorrectionImpactSet_contains. pose proof (proj2 (impact_key_sorted s)) as Hs.
  destruct (search_by_key id (raw s) t) as [x|] eqn:E; simpl.
  - apply (search_by_key_Some id) in E as [? <-]; done.
  - split; [done|]. intros Ht. rewrite (proj2 (search_by_key_Some id (raw s) t t Hs)) in E; done.
Qed.

Lemma CorrectionImpactSet_new_Ok rows s :
  CorrectionImpactSet_new rows = Ok s <->
  (1 <= length rows <= HUB_CORRECTION_IMPACTS)%nat /\ NoDup rows /\ raw s = sort_by_key id rows.
Proof.
  unfold CorrectionImpactSet_new.
  rewrite !guard_Ok, checked_Ok, orb_false_iff, Nat.eqb_neq, Nat.ltb_ge.
  pose proof (sort_windows id rows) as Hw. unfold id at 1 2 in Hw. rewrite Hw.
  assert (key_sorted id (sort_by_key id rows) <-> NoDup rows) as Hn.
  { split.
    - intros H%key_sorted_NoDup. rewrite list_fmap_id in H. by rewrite (sort_by_key_perm id rows).
    - intros H. apply sort_by_key_NoDup. by rewrite list_fmap_id. }
  rewrite Hn. split; [intros ((? & ?) & ? & ?)|intros ((? & ?) & ? & ?)]; split_and!; try done; lia.
Qed.

Lemma set_rows_sorted (s : ImpactBuilder) : bt_wf s -> key_sorted id s.*1.
Proof. unfold bt_wf, key_sorted. induction 1; csimpl; constructor; [done|]. by apply Forall_fmap. Qed.

Lemma finish_Ok (b : ImpactBuilder) s : bt_wf b ->
  ImpactBuilder_finish b = Ok s <->
  (1 <= length b <= HUB_CORRECTION_IMPACTS)%nat /\ raw s = b.*1.
Proof.
  intros Hb. unfold ImpactBuilder_finish. rewrite CorrectionImpactSet_new_Ok, length_fmap.
  rewrite sort_by_key_id by by apply set_rows_sorted. pose proof (set_NoDup b Hb). tauto.
Qed.

(** Adding targets one by one succeeds exactly when the final set fits. *)
Lemma adds_Ok (b : ImpactBuilder) l b' :
  bt_wf b -> (length b <= HUB_CORRECTION_IMPACTS)%nat ->
  try_fold ImpactBuilder_add b l = Ok b' <->
  b' = collect b l /\ (length (collect b l) <= HUB_CORRECTION_IMPACTS)%nat.
Proof.
  revert b. induction l as [|t l IH]; intros b Hb Hl; cbn [try_fold].
  { split; [intros [= <-]; done|]. by intros [-> _]. }
  unfold ImpactBuilder_add at 1. pose proof (bt_insert_wf t tt b Hb) as Hi.
  change (collect b (t :: l)) with (collect (bt_insert t tt b) l).
  assert (length (bt_insert t tt b) <= length (collect (bt_insert t tt b) l))%nat as Hle.
  { apply set_length_le; [done|]. intros x Hx. apply elem_of_collect; auto. }
  rewrite bind_Ok. setoid_rewrite guard_Ok. setoid_rewrite Nat.ltb_ge. cbn [snd bs_insert].
  split.
  - intros (b1 & [H1 [= <-]] & H2). by apply IH in H2.
  - intros [-> H2]. exists (bt_insert t tt b). split; [split; [lia|done]|]. apply IH; [done|lia|done].
Qed.

(** The targets each builder operation adds. *)
Definition source_targets (trace : HubRecordId) (source : SourceAttribution) : list CorrectionImpact :=
  match source with
  | SourceAttribution.Unknown => [CorrectionImpact.UnresolvedSource trace]
  | SourceAttribution.Referenced source certainty =>
      CorrectionImpact.Source (sr_id source) ::
      if is_none (sr_issuer source) || (certainty ==? SourceCertainty.ReportedPossible)
      then [CorrectionImpact.UnresolvedSource trace] else []
  end.
Definition recipient_target (event : HubRecordId) (recipient : AmendedRecipient) : CorrectionImpact :=
  match recipient with
  | AmendedRecipient.Unknown => CorrectionImpact.UnresolvedRecipient event
  | AmendedRecipient.Known r => CorrectionImpact.Recipient (rr_id r)
  end.
Definition departure_targets (d : AttributionAffectedDeparture) : list CorrectionImpact :=
  CorrectionImpact.Departure (aad_operation d) :: (CorrectionImpact.Population <$> aad_populations d)
  ++ (recipient_target (aad_operation d) <$> aad_recipients d)
  ++ (CorrectionImpact.IssuedVersion <$> aad_issued_versions d).
Definition version_targets (v : AttributionAffectedIssuedVersion) : list CorrectionImpact :=
  CorrectionImpact.IssuedVersion (aiv_version v) :: CorrectionImpact.Recipient (rr_id (aiv_recipient v))
  :: (CorrectionImpact.Population <$> aiv_populations v).

Lemma bind_ret {A E} (m : result A E) : (let? a := m in Ok a) = m.
Proof. by destruct m. Qed.

Lemma source_adds b trace source :
  ImpactBuilder_source b trace source = try_fold ImpactBuilder_add b (source_targets trace source).
Proof.
  destruct source as [|source certainty]; simpl; [by rewrite bind_ret|].
  destruct (ImpactBuilder_add b _) as [b1|]; simpl; [|done]. case_match; simpl; [by rewrite bind_ret|done].
Qed.
Lemma recipient_adds b event recipient :
  ImpactBuilder_recipient b event recipient = ImpactBuilder_add b (recipient_target event recipient).
Proof. by destruct recipient. Qed.

Lemma departure_impact_adds d b catalog b' :
  AttributionAffectedDeparture_impact d b catalog = Ok b' ->
  try_fold ImpactBuilder_add b (departure_targets d) = Ok b' /\
  Forall (fun r => AmendedRecipient_validate r catalog = Ok tt) (aad_recipients d).
Proof.
  unfold AttributionAffectedDeparture_impact. intros H. do 2 (apply guard_Ok in H as [_ H]).
  apply bind_Ok in H as (b1 & H1 & H). apply bind_Ok in H as (b2 & H2 & H).
  apply bind_Ok in H as (b3 & H3 & H4). rewrite <- try_fold_fmap in H2, H4.
  assert (forall l b b', try_fold (add_recipient catalog (aad_operation d)) b l = Ok b' ->
    try_fold ImpactBuilder_add b (recipient_target (aad_operation d) <$> l) = Ok b' /\
    Forall (fun r => AmendedRecipient_validate r catalog = Ok tt) l) as Hr.
  { intros l. induction l as [|r l IH]; intros c c'; csimpl; cbn [try_fold]; [done|].
    intros (c1 & [Hv Hc1]%seq_Ok & Hc2)%bind_Ok. rewrite recipient_adds in Hc1. rewrite Hc1. cbn [bind].
    apply IH in Hc2 as [? ?]. split; [done|by constructor]. }
  apply Hr in H3 as [H3 Hv]. split; [|done]. unfold departure_targets. simpl. rewrite H1. cbn [bind].
  rewrite try_fold_app, H2. cbn [bind]. by rewrite try_fold_app, H3.
Qed.

Lemma version_impact_adds v b b' :
  AttributionAffectedIssuedVersion_impact v b = Ok b' ->
  try_fold ImpactBuilder_add b (version_targets v) = Ok b'.
Proof.
  unfold AttributionAffectedIssuedVersion_impact. intros H. do 2 (apply guard_Ok in H as [_ H]).
  apply seq_Ok in H as [_ H]. apply bind_Ok in H as (b1 & H1 & H). apply bind_Ok in H as (b2 & H2 & H).
  rewrite <- try_fold_fmap in H. simpl. rewrite H1. cbn [bind]. by rewrite H2.
Qed.

(** A builder within its capacity. *)
Definition builds (b : ImpactBuilder) (P : CorrectionImpact -> Prop) : Prop :=
  bt_wf b /\ (length b <= HUB_CORRECTION_IMPACTS)%nat /\ forall x, x ∈ b.*1 <-> P x.

Lemma builds_nil : builds [] (fun _ => False).
Proof. split_and!; [apply bt_wf_nil|simpl; lia|]. intros x. simpl. by rewrite elem_of_nil. Qed.

Lemma builds_adds b P l b' : builds b P -> try_fold ImpactBuilder_add b l = Ok b' ->
  builds b' (fun x => P x \/ x ∈ l).
Proof.
  intros (Hw & Hl & Hx) [-> Hl']%adds_Ok; try done. split_and!; [by apply collect_wf|done|].
  intros x. by rewrite elem_of_collect, Hx.
Qed.
Lemma builds_ext b P Q : (forall x, P x <-> Q x) -> builds b P -> builds b Q.
Proof. intros E (? & ? & Hx). split_and!; try done. intros x. by rewrite Hx. Qed.

(** Targets already in a set that fits can be added. *)
Lemma builds_adds_within b P l c Q : builds b P -> builds c Q -> (forall x, P x \/ x ∈ l -> Q x) ->
  exists b', try_fold ImpactBuilder_add b l = Ok b' /\ builds b' (fun x => P x \/ x ∈ l).
Proof.
  intros (Hw & Hl & Hx) (Cw & Cl & Cx) Hsub. exists (collect b l).
  assert (length (collect b l) <= length c)%nat as Hle.
  { apply set_length_le; [by apply collect_wf|]. intros x. rewrite elem_of_collect, Hx, Cx by done. apply Hsub. }
  assert (try_fold ImpactBuilder_add b l = Ok (collect b l)) as H by (apply adds_Ok; [done|done|split; [done|lia]]).
  split; [done|]. exact (builds_adds b P l _ (conj Hw (conj Hl Hx)) H).
Qed.

Lemma builds_impact (s : CorrectionImpactSet) : builds (collect [] (raw s)) (fun x => x ∈ raw s).
Proof.
  pose proof (impact_key_sorted s) as [Hl Hs]. split_and!; [apply collect_wf, bt_wf_nil| |].
  - rewrite <- (length_fmap (fst : CorrectionImpact * unit -> _)).
    transitivity (length (raw s)); [|lia]. apply submseteq_length, NoDup_submseteq.
    + apply set_NoDup, collect_wf, bt_wf_nil.
    + intros x. rewrite elem_of_collect by apply bt_wf_nil. simpl. rewrite elem_of_nil. tauto.
  - intros x. rewrite elem_of_collect by apply bt_wf_nil. simpl. rewrite elem_of_nil. tauto.
Qed.

Lemma finish_builds b P s : builds b P -> ImpactBuilder_finish b = Ok s -> forall x, x ∈ raw s <-> P x.
Proof. intros (Hw & Hl & Hx) [_ E]%finish_Ok x; [|done]. by rewrite E, Hx. Qed.

(** A set with the elements a builder has is what the builder finishes to. *)
Lemma finish_same b P s : builds b P -> (forall x, x ∈ raw s <-> P x) -> ImpactBuilder_finish b = Ok s.
Proof.
  intros (Hw & Hl & Hx) E. pose proof (impact_key_sorted s) as [Hn Hs]. apply finish_Ok; [done|].
  assert (raw s = b.*1) as Er.
  { apply (key_sorted_unique id); [done|by apply set_rows_sorted|]. apply NoDup_Permutation.
    - apply key_sorted_NoDup in Hs. by rewrite list_fmap_id in Hs.
    - by apply set_NoDup.
    - intros x. by rewrite E, Hx. }
  split; [|done]. rewrite Er, length_fmap in Hn. lia.
Qed.

(** ** Chains of stamps

    What the three replays keep about the stamps they have passed. *)

Record chained (op0 : HubRecordId) (rev0 cat0 : HubRevision) (at0 : UnixTimestamp)
    (stamps : list AttributionStamp) (rev cat : HubRevision) (at_ : UnixTimestamp)
    (ops : list (HubRecordId * unit)) : Prop := {
  ch_revision : rev = default rev0 (ats_stock_revision <$> last stamps);
  ch_catalog : cat = default cat0 (ats_catalog_revision <$> last stamps);
  ch_at : at_ = default at0 (ats_recorded_at <$> last stamps);
  ch_operations : forall op, bs_contains op ops = true <-> op = op0 \/ op ∈ ats_operation <$> stamps
}.

Lemma chained_nil op0 rev0 cat0 at0 :
  chained op0 rev0 cat0 at0 [] rev0 cat0 at0 (bs_insert op0 []).2.
Proof.
  constructor; try done. intros op. rewrite bs_contains_insert, orb_true_iff, bool_decide_eq_true.
  simpl. rewrite elem_of_nil. naive_solver.
Qed.

Lemma chained_snoc op0 rev0 cat0 at0 stamps rev cat at_ ops s :
  chained op0 rev0 cat0 at0 stamps rev cat at_ ops ->
  chained op0 rev0 cat0 at0 (stamps ++ [s]) (ats_stock_revision s) (ats_catalog_revision s)
    (ats_recorded_at s) (bs_insert (ats_operation s) ops).2.
Proof.
  intros [_ _ _ Ho]. constructor; rewrite ?last_snoc; try done. intros op.
  rewrite bs_contains_insert, orb_true_iff, bool_decide_eq_true, Ho, fmap_app, elem_of_app.
  simpl. rewrite list_elem_of_singleton. naive_solver.
Qed.

Lemma fresh_iff (op : HubRecordId) ops : (bs_insert op ops).1 = negb (bs_contains op ops).
Proof. done. Qed.

(** A stamp at the next revision of a cut that is not behind the chain continues
    it. *)
Lemma chained_next op0 rev0 cat0 at0 stamps rev cat at_ ops s hub :
  chained op0 rev0 cat0 at0 stamps rev cat at_ ops ->
  ats_hub s = hub ->
  raw (default rev0 (ats_stock_revision <$> last stamps)) < raw (ats_stock_revision s) ->
  raw (default cat0 (ats_catalog_revision <$> last stamps)) <= raw (ats_catalog_revision s) ->
  raw (default at0 (ats_recorded_at <$> last stamps)) <= raw (ats_recorded_at s) ->
  ats_operation s <> op0 -> ats_operation s ∉ ats_operation <$> stamps ->
  check_stamp s hub rev cat at_ = Ok tt /\ bs_contains (ats_operation s) ops = false.
Proof.
  intros [-> -> -> Ho] Hh Hr Hc Ha Hn Hf. split.
  - unfold check_stamp. rewrite guard_Ok. split; [|done]. rewrite !orb_false_iff.
    rewrite negb_false_iff, bool_decide_eq_true, Z.leb_gt, !Z.ltb_ge. done.
  - apply not_true_iff_false. rewrite Ho. tauto.
Qed.

Lemma check_Ok cut expected catalog now next :
  AttributionCut_check cut expected catalog now = Ok next <->
  cut_uncertain_submissions cut = false /\ expected = cut_stock_revision cut /\
  catalog = rc_revision (cut_catalog cut) /\ raw (cut_latest_recorded_at cut) <= raw now /\
  raw next = raw (cut_stock_revision cut) + 1.
Proof.
  unfold AttributionCut_check. rewrite !guard_Ok, map_err_Ok, HubRevision_next_Ok, orb_false_iff.
  rewrite !negb_false_iff, !bool_decide_eq_true, Z.ltb_ge. tauto.
Qed.

(** ** Recipient amendments *)

Section Recipients.
Context (original : OriginalRecipientAttribution).

(** What the impact of the newest amendment has to name. *)
Definition recipient_required (history : list RecipientAttributionCorrection)
    (x : CorrectionImpact) : Prop :=
  x ∈ departure_targets (OriginalRecipientAttribution_affected original
        [AmendedRecipient.Known (ora_recipient original)]) \/
  exists r, r ∈ history /\
    (x = recipient_target (ora_operation original) (rac_after r) \/
     ora_family original = CorrectedDepartureFamily.Normal /\ is_issued_version x = true /\
     x ∈ raw (rac_impact r)).

Record recipients_replayed (history : list RecipientAttributionCorrection) (st : RecipientReplay)
  : Prop := {
  rv_current : rrp_current st
    = default (AmendedRecipient.Known (ora_recipient original)) (rac_after <$> last history);
  rv_prior : rrp_prior st = ats_operation <$> (rac_stamp <$> last history);
  rv_chain : chained (ora_operation original) (ora_stock_revision original)
    (ora_catalog_revision original) (ora_recorded_at original) (rac_stamp <$> history)
    (rrp_revision st) (rrp_catalog st) (rrp_at st) (rrp_operations st);
  rv_required : builds (rrp_required st) (recipient_required history);
  rv_impacts : Forall (fun r => raw (rac_impact r) ⊆ (rrp_required st).*1) history
}.

Lemma add_issued_adds b l :
  try_fold (add_issued (ora_family original)) b l
  = try_fold ImpactBuilder_add b
      (if decide (ora_family original = CorrectedDepartureFamily.Normal)
       then filter (fun x => is_issued_version x = true) l else []).
Proof.
  revert b. induction l as [|x l IH]; intros b; cbn [try_fold]; [by case_decide|].
  unfold add_issued at 1. destruct (decide (ora_family original = _)) as [Ef|Ef].
  - rewrite bool_decide_eq_true_2, andb_true_r, filter_cons by done.
    destruct (is_issued_version x) eqn:Ex; simpl.
    + destruct (ImpactBuilder_add b x); simpl; [|done]. apply IH.
    + apply IH.
  - rewrite bool_decide_eq_false_2, andb_false_r by done. apply IH.
Qed.

Lemma required_snoc history r x :
  recipient_required (history ++ [r]) x <->
  recipient_required history x \/ x = recipient_target (ora_operation original) (rac_after r) \/
  ora_family original = CorrectedDepartureFamily.Normal /\ is_issued_version x = true /\
    x ∈ raw (rac_impact r).
Proof.
  unfold recipient_required. setoid_rewrite elem_of_app. setoid_rewrite list_elem_of_singleton.
  split.
  - intros [?|(r' & [Hr'| ->] & Hx)]; [by do 2 left| |by right]. left. right. by exists r'.
  - intros [[?|(r' & Hr' & Hx)]|Hx]; [by left| |]; right; [exists r'|exists r]; auto.
Qed.

(** The two additions of one replay step. *)
Lemma step_required history b r :
  builds b (recipient_required history) -> forall b1 b2,
  ImpactBuilder_recipient b (ora_operation original) (rac_after r) = Ok b1 ->
  try_fold (add_issued (ora_family original)) b1 (raw (rac_impact r)) = Ok b2 ->
  builds b2 (recipient_required (history ++ [r])).
Proof.
  intros Hb b1 b2 H1 H2. rewrite recipient_adds in H1. rewrite add_issued_adds in H2.
  assert (try_fold ImpactBuilder_add b [recipient_target (ora_operation original) (rac_after r)] = Ok b1)
    as H1' by (cbn [try_fold]; by rewrite bind_ret).
  pose proof (builds_adds _ _ _ _ (builds_adds _ _ _ _ Hb H1') H2) as Hb2.
  eapply builds_ext; [|exact Hb2]. intros x. rewrite required_snoc, list_elem_of_singleton.
  case_decide; rewrite ?list_elem_of_filter, ?elem_of_nil; naive_solver.
Qed.

Lemma replay_recipient_run history st r st' :
  recipients_replayed history st -> replay_recipient original st r = Ok st' ->
  recipients_replayed (history ++ [r]) st'.
Proof.
  intros [_ _ Hch Hreq Him] Hs. unfold replay_recipient in Hs. apply seq_Ok in Hs as [_ Hs].
  destruct (bs_insert _ _) as [fresh ops] eqn:Eo. apply guard_Ok in Hs as [_ Hs].
  apply seq_Ok in Hs as [_ Hs]. apply guard_Ok in Hs as [_ Hs].
  apply bind_Ok in Hs as (b1 & H1 & Hs). apply bind_Ok in Hs as (b2 & H2 & Hs).
  apply bind_Ok in Hs as (e & He & Hs). apply guard_Ok in Hs as [Heq [= <-]].
  apply negb_false_iff, bool_decide_eq_true in Heq. subst e.
  pose proof (step_required history _ r Hreq b1 b2 H1 H2) as Hb. constructor; simpl.
  - by rewrite last_snoc.
  - by rewrite last_snoc.
  - rewrite fmap_app. replace ops with (bs_insert (ats_operation (rac_stamp r)) (rrp_operations st)).2
      by by rewrite Eo. by apply (chained_snoc _ _ _ _ _ _ _ _ _ _ Hch).
  - done.
  - apply Forall_app. split.
    + eapply list.Forall_impl; [exact Him|]. intros r' Hr' x Hx%Hr'. apply Hb.
      apply required_snoc. left. by apply Hreq.
    + constructor; [|done]. intros x Hx. by apply Hb, (finish_builds _ _ _ Hb He).
Qed.

Lemma replay_recipients_run history st :
  replay_recipients original history = Ok st -> recipients_replayed history st.
Proof.
  unfold replay_recipients. intros (b & Hb & Hs)%bind_Ok.
  apply departure_impact_adds in Hb as [Hb _]. apply (builds_adds _ _ _ _ builds_nil) in Hb.
  revert st Hs. induction history as [|r history IH] using rev_ind; intros st; [intros [= <-]|].
  - constructor; simpl; try done; [apply chained_nil|]. eapply builds_ext; [|exact Hb].
    intros x. unfold recipient_required. setoid_rewrite elem_of_nil. naive_solver.
  - rewrite try_fold_app. intros (st1 & H1%IH & H2)%bind_Ok. simpl in H2. rewrite bind_ret in H2.
    by eapply replay_recipient_run.
Qed.

Lemma current_recipient_run history current :
  current_recipient_attribution original history = Ok current <->
  (length history <= HUB_CORRECTION_ROWS)%nat /\ OriginalRecipientAttribution_validate original = Ok tt /\
  exists st, replay_recipients original history = Ok st /\ rrp_current st = current.
Proof.
  unfold current_recipient_attribution. rewrite guard_Ok, seq_Ok, Nat.ltb_ge, bind_Ok. naive_solver.
Qed.

(** The impact of the current interpretation with the linked papers. *)
Record linked_impact (history : list RecipientAttributionCorrection) (links : list HubRecordId)
    (s : CorrectionImpactSet) : Prop := {
  li_rows : forall x, x ∈ raw s <->
    x ∈ departure_targets (OriginalRecipientAttribution_affected original
          (AmendedRecipient.Known (ora_recipient original) :: (rac_after <$> history))) \/
    exists id, id ∈ links /\ x = CorrectionImpact.IssuedVersion id;
  li_distinct : NoDup links;
  li_family : ora_family original <> CorrectedDepartureFamily.Normal -> links = [];
  li_original : ora_issued_versions original ⊆ links;
  li_history : forall r id, r ∈ history -> CorrectionImpact.IssuedVersion id ∈ raw (rac_impact r) -> id ∈ links
}.

Lemma linked_impact_run history links s :
  recipient_impact_with_linked_versions original history links = Ok s -> linked_impact history links s.
Proof.
  unfold recipient_impact_with_linked_versions. intros (c & _ & H)%bind_Ok.
  apply guard_Ok in H as [_ H]. change (foldl _ [] links) with (collect [] links) in H.
  assert (forall id, bs_contains id (collect [] links) = true <-> id ∈ links) as Hl.
  { intros id. pose proof (collect_wf [] links bt_wf_nil) as Hw.
    assert (forall m : list (HubRecordId * unit), bt_wf m -> bs_contains id m = true <-> id ∈ m.*1) as Hc.
    { intros m Hm. unfold bs_contains. rewrite list_elem_of_fmap. split.
      - destruct (bt_get id m) as [[]|] eqn:E; [|done]. apply bt_get_elem_of in E; [|done]. by exists (id, tt).
      - intros ([k []] & -> & Hk). apply bt_get_elem_of in Hk; [|done]. simpl. by rewrite Hk. }
    rewrite Hc, elem_of_collect by (try apply bt_wf_nil; done). simpl. rewrite elem_of_nil. tauto. }
  assert (forall id, negb (bs_contains id (collect [] links)) = false <-> id ∈ links) as Hl'
    by (intros id; rewrite negb_false_iff; apply Hl).
  apply guard_Ok in H as [B H]. rewrite !orb_false_iff in B. destruct B as [[[B1 B2] B3] B4].
  apply bind_Ok in H as (b & Hb & H). apply bind_Ok in H as (b2 & Hb2 & H).
  apply departure_impact_adds in Hb as [Hb _]. rewrite <- try_fold_fmap in Hb2.
  pose proof (builds_adds _ _ _ _ (builds_adds _ _ _ _ builds_nil Hb) Hb2) as Hbs.
  assert (forall id, id ∈ (collect [] links).*1 <-> id ∈ links) as Hk.
  { intros id. rewrite elem_of_collect by apply bt_wf_nil. simpl. rewrite elem_of_nil. tauto. }
  apply negb_false_iff, Nat.eqb_eq in B1. apply distinct_count_NoDup in B1 as Hd. constructor; try done.
  - intros x. rewrite (finish_builds _ _ _ Hbs H x), list_elem_of_fmap. setoid_rewrite Hk. naive_solver.
  - intros Hf. apply andb_false_iff in B2 as [B2|B2].
    + apply negb_false_iff, bool_decide_eq_true in B2. done.
    + apply negb_false_iff, Nat.eqb_eq in B2. destruct links; [done|simpl in *; lia].
  - intros id Hid. apply Hl', not_true_iff_false. intros E. apply not_true_iff_false in B3.
    destruct B3. apply existsb_exists. exists id. by rewrite <- list_elem_of_In.
  - intros r id Hr Hid. apply Hl', not_true_iff_false. intros E. apply not_true_iff_false in B4.
    destruct B4. apply existsb_exists. exists (CorrectionImpact.IssuedVersion id).
    rewrite <- list_elem_of_In. split; [|exact E]. apply list_elem_of_bind. by exists r.
Qed.

Lemma elem_of_affected recipients x :
  x ∈ departure_targets (OriginalRecipientAttribution_affected original recipients) <->
  x = CorrectionImpact.Departure (ora_operation original) \/
  (exists id, x = CorrectionImpact.Population id /\ id ∈ ora_populations original) \/
  (exists a, x = recipient_target (ora_operation original) a /\ a ∈ recipients) \/
  exists id, x = CorrectionImpact.IssuedVersion id /\ id ∈ ora_issued_versions original.
Proof.
  unfold departure_targets. cbn [OriginalRecipientAttribution_affected aad_operation aad_populations
    aad_recipients aad_issued_versions]. by rewrite elem_of_cons, !elem_of_app, !list_elem_of_fmap.
Qed.

(** The planned impact is exactly what the replay will ask for. *)
Lemma linked_required history st links s after (impact : CorrectionImpactSet) r :
  recipients_replayed history st -> linked_impact history links s ->
  rac_after r = after -> rac_impact r = impact ->
  (forall x, x ∈ raw impact <-> x ∈ raw s \/ x = recipient_target (ora_operation original) after) ->
  forall x, x ∈ raw impact <-> recipient_required (history ++ [r]) x.
Proof.
  intros Hst [Hrows _ Hfam Horig Hh] Ha Hi Him x. rewrite required_snoc, Ha, Hi.
  assert (forall y, y ∈ raw s -> recipient_required history y \/
    ora_family original = CorrectedDepartureFamily.Normal /\ is_issued_version y = true) as H1.
  { intros y [Hy|(id & Hid & ->)]%Hrows.
    - rewrite elem_of_affected in Hy. left. unfold recipient_required. rewrite elem_of_affected.
      destruct Hy as [?|[?|[(a & -> & Ha')|?]]]; try tauto.
      apply elem_of_cons in Ha' as [->|(r' & -> & Hr')%list_elem_of_fmap].
      + left. do 2 right. left. eexists. split; [done|]. by left.
      + right. exists r'. tauto.
    - right. split; [|done]. destruct (decide (ora_family original = CorrectedDepartureFamily.Normal)); [done|].
      rewrite Hfam in Hid by done. by apply elem_of_nil in Hid. }
  assert (forall y, recipient_required history y -> y ∈ raw s) as H2.
  { intros y [Hy|(r' & Hr' & Hy)]; apply Hrows.
    - left. rewrite elem_of_affected in *. destruct Hy as [?|[?|[(a & -> & ->%list_elem_of_singleton)|?]]]; try tauto.
      do 2 right. left. eexists. split; [done|]. by left.
    - destruct Hy as [->|(_ & Hi' & Hy)].
      + left. rewrite elem_of_affected. do 2 right. left. eexists. split; [done|]. right.
        apply list_elem_of_fmap. by exists r'.
      + right. destruct y; try done. eexists. split; [|done]. by eapply Hh. }
  rewrite Him. split.
  - intros [Hx| ->]; [|by right; left]. destruct (H1 x Hx) as [?|[? ?]]; [by left|].
    do 2 right. split_and!; try done. by left.
  - intros [Hx|[Hx|(_ & _ & Hx)]]; [left; by apply H2|by right|done].
Qed.

(** A record that continues the history is accepted by the replay. *)
Lemma replay_recipient_next history st r :
  recipients_replayed history st ->
  check_stamp (rac_stamp r) (ora_hub original) (rrp_revision st) (rrp_catalog st) (rrp_at st) = Ok tt ->
  bs_contains (ats_operation (rac_stamp r)) (rrp_operations st) = false ->
  rac_original r = original -> rac_prior r = rrp_prior st -> rac_before r = rrp_current st ->
  rac_after r <> rac_before r -> same_party (rac_before r) (rac_after r) = false ->
  AmendedRecipient_validate (rac_after r) (ats_catalog_revision (rac_stamp r)) = Ok tt ->
  (forall x, x ∈ raw (rac_impact r) <-> recipient_required (history ++ [r]) x) ->
  exists st', replay_recipient original st r = Ok st' /\ rrp_current st' = rac_after r.
Proof.
  intros Hst Hck Hop Ho Hp Hb Hne Hsp Hv Him. unfold replay_recipient. rewrite Hck. cbn [bind].
  rewrite (surjective_pairing (bs_insert _ _)), fresh_iff, Hop.
  assert (forall x, recipient_required history x -> CorrectionImpactSet_contains (rac_impact r) x = true) as Hin.
  { intros x Hx. apply impact_contains, Him, required_snoc. by left. }
  assert (forall (f : HubRecordId -> CorrectionImpact) ids,
    (forall id, id ∈ ids -> recipient_required history (f id)) ->
    existsb (fun id => negb (CorrectionImpactSet_contains (rac_impact r) (f id))) ids = false) as Hall.
  { intros f ids Hids. apply not_true_iff_false. intros (id & Hid & Hn)%existsb_exists.
    rewrite <- list_elem_of_In in Hid. rewrite Hin in Hn by by apply Hids. done. }
  assert (forall x, x = CorrectionImpact.Departure (ora_operation original) \/
    (exists id, x = CorrectionImpact.Population id /\ id ∈ ora_populations original) \/
    (exists id, x = CorrectionImpact.IssuedVersion id /\ id ∈ ora_issued_versions original) ->
    recipient_required history x) as Hr by (intros x Hx; left; apply elem_of_affected; tauto).
  rewrite (Hin (CorrectionImpact.Departure _)) by by apply Hr; left.
  rewrite Hall by (intros id Hid; apply Hr; eauto).
  rewrite Hall by (intros id Hid; apply Hr; eauto).
  rewrite Ho, Hp, Hb in *. rewrite !(bool_decide_eq_true_2 (_ = _)), bool_decide_eq_false_2 by done.
  cbn [negb orb]. rewrite Hv. cbn [bind]. rewrite Hsp.
  destruct (rv_required _ _ Hst) as (Hw & Hl & Hx).
  destruct (builds_adds_within (rrp_required st) _
    [recipient_target (ora_operation original) (rac_after r)] _ _ (rv_required _ _ Hst)
    (builds_impact (rac_impact r))) as (b1 & H1 & Hb1).
  { intros x [Hq| ->%list_elem_of_singleton]; apply Him, required_snoc; auto. }
  cbn [try_fold] in H1. rewrite bind_ret in H1. rewrite recipient_adds, H1. cbn [bind].
  rewrite add_issued_adds.
  destruct (builds_adds_within b1 _
    (if decide (ora_family original = CorrectedDepartureFamily.Normal)
     then filter (fun x => is_issued_version x = true) (raw (rac_impact r)) else [])
    _ _ Hb1 (builds_impact (rac_impact r))) as (b2 & H2 & Hb2).
  { intros x [[Hq| ->%list_elem_of_singleton]|Hq]; [apply Him, required_snoc; auto..|].
    case_decide; [by apply list_elem_of_filter in Hq as [_ ?]|by apply elem_of_nil in Hq]. }
  rewrite H2. cbn [bind]. rewrite <- add_issued_adds in H2.
  assert (ImpactBuilder_recipient (rrp_required st) (ora_operation original) (rac_after r) = Ok b1) as H1'
    by by rewrite recipient_adds.
  rewrite (finish_same b2 _ (rac_impact r) (step_required history _ r (rv_required _ _ Hst) _ _ H1' H2) Him).
  cbn [bind]. rewrite bool_decide_eq_true_2 by done. by eexists.
Qed.
End Recipients.

(** The recipient a command asks for, as the catalog has it. *)
Definition requested_recipient (catalog : ReferenceCatalog) (request : option HubRecordId)
    (a : AmendedRecipient) : Prop :=
  match request with
  | None => a = AmendedRecipient.Unknown
  | Some id => exists record, bt_get id (rc_records catalog) = Some record /\
      ReferenceValue_kind (rr_value record) = ReferenceKind.Party /\ a = AmendedRecipient.Known record
  end.

Record recipient_planned (self : RecipientAttributionCommand) (c : RecipientAttributionContext)
    (operation : HubRecordId) (actor : PublicKey) (now : UnixTimestamp)
    (r : RecipientAttributionCorrection) : Prop := {
  rp_scope : rcm_departure_operation self = ora_operation (rcx_original c) /\
    ora_hub (rcx_original c) = cut_hub (rcx_cut c) /\ cut_uncertain_submissions (rcx_cut c) = false;
  rp_stamp : rac_stamp r = {| ats_operation := operation; ats_hub := cut_hub (rcx_cut c);
    ats_stock_revision := ats_stock_revision (rac_stamp r);
    ats_catalog_revision := rc_revision (cut_catalog (rcx_cut c)); ats_actor := actor;
    ats_recorded_at := now; ats_basis := rcm_basis self |};
  rp_next : raw (ats_stock_revision (rac_stamp r)) = raw (cut_stock_revision (rcx_cut c)) + 1;
  rp_requested : requested_recipient (cut_catalog (rcx_cut c)) (rcm_recipient self) (rac_after r);
  rp_changed : same_party (rac_before r) (rac_after r) = false /\ rac_after r <> rac_before r;
  rp_fresh : operation <> ora_operation (rcx_original c) /\
    operation ∉ (fun r => ats_operation (rac_stamp r)) <$> rcx_history c;
  rp_impact : forall x, x ∈ raw (rac_impact r) <->
    recipient_required (rcx_original c) (rcx_history c ++ [r]) x
}.

Lemma recipient_changed before after :
  match before, after with
  | AmendedRecipient.Unknown, AmendedRecipient.Unknown => true | _, _ => false
  end || same_party before after = false -> same_party before after = false /\ after <> before.
Proof.
  intros [H1 H2]%orb_false_iff. split; [done|]. intros ->.
  destruct before as [|b]; simpl in *; [done|]. by rewrite bool_decide_eq_false in H2.
Qed.

Lemma recipient_after_Ok catalog request known :
  transpose_map (fun id => map_err (fun _ => AttributionError.InvalidReference)
    (let? r := ReferenceCatalog_require_kind catalog id ReferenceKind.Party in
     Ok (AmendedRecipient.Known r))) request = Ok known ->
  requested_recipient catalog request (default AmendedRecipient.Unknown known).
Proof.
  destruct request as [id|]; simpl; [|by intros [= <-]]. intros (a & H & [= <-])%bind_Ok.
  apply map_err_Ok, bind_Ok in H as (record & [? ?]%require_kind_Ok & [= <-]). by exists record.
Qed.

Lemma party_Ok record catalog :
  party record catalog = Ok tt <->
  ReferenceValue_kind (rr_value record) = ReferenceKind.Party /\ raw (rr_revision record) <= raw catalog.
Proof.
  unfold party. rewrite guard_Ok, orb_false_iff, negb_false_iff, bool_decide_eq_true, Z.ltb_ge. tauto.
Qed.

Lemma requested_valid catalog request a : catalog_wf catalog ->
  requested_recipient catalog request a -> AmendedRecipient_validate a (rc_revision catalog) = Ok tt.
Proof.
  intros Hw. destruct request as [id|]; simpl; [|by intros ->]. intros (record & Hg & Hk & ->).
  apply party_Ok. split; [done|]. by eapply cw_revisions.
Qed.

Lemma replay_recipients_snoc original history r :
  replay_recipients original (history ++ [r])
  = let? st := replay_recipients original history in replay_recipient original st r.
Proof.
  unfold replay_recipients. destruct (AttributionAffectedDeparture_impact _ _ _); cbn [bind]; [|done].
  rewrite try_fold_app. destruct (try_fold _ _ history); cbn [bind try_fold]; [|done]. by rewrite bind_ret.
Qed.

Lemma not_used {A} (op : A -> HubRecordId) operation l :
  existsb (fun r => op r ==? operation) l = false -> operation ∉ op <$> l.
Proof.
  intros H (r & -> & Hr)%list_elem_of_fmap. apply not_true_iff_false in H. apply H, existsb_exists.
  exists r. rewrite <- list_elem_of_In. split; [done|]. by rewrite bool_decide_eq_true.
Qed.

Lemma recipient_plan_run self c operation actor now r :
  catalog_wf (cut_catalog (rcx_cut c)) ->
  RecipientAttributionCommand_plan self c operation actor now = Ok r ->
  recipient_planned self c operation actor now r /\
  current_recipient_attribution (rcx_original c) (rcx_history c) = Ok (rac_before r) /\
  current_recipient_attribution (rcx_original c) (rcx_history c ++ [r]) = Ok (rac_after r).
Proof.
  intros Hcat Hp. unfold RecipientAttributionCommand_plan in Hp.
  apply bind_Ok in Hp as (next & (Hun & _ & _ & _ & Hnext)%check_Ok & Hp). apply guard_Ok in Hp as [Hlen Hp].
  apply guard_Ok in Hp as [Hsc Hp]. apply bind_Ok in Hp as (before & Hbefore & Hp).
  apply guard_Ok in Hp as [Hprior Hp]. apply guard_Ok in Hp as [Hhist Hp].
  apply bind_Ok in Hp as (known & Hk%recipient_after_Ok & Hp).
  apply guard_Ok in Hp as [Hch%recipient_changed Hp]. apply bind_Ok in Hp as (cur & Hcur%linked_impact_run & Hp).
  apply bind_Ok in Hp as (b & Hb & Hp). apply bind_Ok in Hp as (impact & Him & [= <-]).
  apply orb_false_iff in Hsc as [Hs1 Hs2]. rewrite negb_false_iff, bool_decide_eq_true in Hs1, Hs2.
  rewrite negb_false_iff, bool_decide_eq_true in Hprior. apply Nat.leb_gt in Hlen.
  rewrite !orb_false_iff in Hhist. destruct Hhist as [[[[Hh1 Hh2] Hh3] Hh4] Hh5].
  apply Z.ltb_ge in Hh1, Hh2, Hh3. apply bool_decide_eq_false in Hh4. apply not_used in Hh5.
  pose proof Hbefore as (_ & Hval & st & Hst & Hc)%current_recipient_run.
  pose proof (replay_recipients_run _ _ _ Hst) as Hrun.
  set (r := {| rac_after := default AmendedRecipient.Unknown known |}).
  assert (forall x, x ∈ raw impact <-> x ∈ raw cur \/
    x = recipient_target (ora_operation (rcx_original c)) (rac_after r)) as Himp.
  { intros x. rewrite recipient_adds in Hb.
    assert (try_fold ImpactBuilder_add (collect [] (raw cur))
      [recipient_target (ora_operation (rcx_original c)) (rac_after r)] = Ok b) as Hb'
      by (cbn [try_fold]; by rewrite bind_ret).
    rewrite (finish_builds _ _ _ (builds_adds _ _ _ _ (builds_impact cur) Hb') Him x).
    by rewrite list_elem_of_singleton. }
  pose proof (linked_required _ _ _ _ _ _ impact r Hrun Hcur eq_refl eq_refl Himp) as Hreq.
  split; [|split; [exact Hbefore|]].
  { constructor; simpl; try done. }
  destruct (chained_next _ _ _ _ _ _ _ _ _ (rac_stamp r) (ora_hub (rcx_original c)) (rv_chain _ _ _ Hrun))
    as [Hck Hfr]; rewrite ?fmap_last in *; simpl; try done; try lia.
  { by rewrite <- list_fmap_compose. }
  destruct (replay_recipient_next (rcx_original c) (rcx_history c) st r Hrun Hck Hfr)
    as (st' & Hst' & Hcur'); try done; try apply Hch.
  { by rewrite (rv_prior _ _ _ Hrun), <- Hprior. }
  { by eapply requested_valid. }
  apply current_recipient_run. split_and!; [rewrite length_app; simpl; lia|done|].
  exists st'. by rewrite replay_recipients_snoc, Hst.
Qed.

(** An accepted amendment of a recipient continues the history it was
    planned on: replaying that history gives the amended meaning, replaying it
    with the new record gives exactly the requested one, the impact names what
    every reader will require (all earlier impacts, the new recipient and every
    linked paper, nothing else), and the operation, revision and time are new. *)
Theorem recipient_amendment_extends self c operation actor now r :
  catalog_wf (cut_catalog (rcx_cut c)) ->
  RecipientAttributionCommand_plan self c operation actor now = Ok r ->
  recipient_planned self c operation actor now r /\
  current_recipient_attribution (rcx_original c) (rcx_history c) = Ok (rac_before r) /\
  current_recipient_attribution (rcx_original c) (rcx_history c ++ [r]) = Ok (rac_after r).
Proof. apply recipient_plan_run. Qed.

(** ** Source amendments *)

Section SourceReplays.
Context (original : OriginalSourceAttribution).

Definition interpretations (history : list SourceAttributionCorrection) : list SourceAttribution :=
  ams_source (osa_source original) :: ((fun r => ams_source (sac_after r)) <$> history).

Definition source_required (history : list SourceAttributionCorrection) (x : CorrectionImpact) : Prop :=
  x = CorrectionImpact.Population (osa_trace original) \/
  (exists s, s ∈ interpretations history /\ x ∈ source_targets (osa_trace original) s) \/
  exists r, r ∈ history /\ x ∈ raw (sac_impact r).

Record sources_replayed (history : list SourceAttributionCorrection) (st : SourceReplay) : Prop := {
  sp_current : srp_current st = default (osa_source original) (sac_after <$> last history);
  sp_prior : srp_prior st = ats_operation <$> (sac_stamp <$> last history);
  sp_chain : chained (osa_operation original) (osa_stock_revision original)
    (osa_catalog_revision original) (osa_recorded_at original) (sac_stamp <$> history)
    (srp_revision st) (srp_catalog st) (srp_at st) (srp_operations st);
  sp_identities : forall id s, bt_get id (srp_identities st) = Some s ->
    sr_id s = id /\ exists certainty, SourceAttribution.Referenced s certainty ∈ interpretations history;
  sp_required : builds (srp_required st) (source_required history)
}.

Lemma interpretations_snoc history r :
  interpretations (history ++ [r]) = interpretations history ++ [ams_source (sac_after r)].
Proof. unfold interpretations. by rewrite fmap_app. Qed.

Lemma source_required_snoc history r x :
  source_required (history ++ [r]) x <->
  source_required history x \/ x ∈ source_targets (osa_trace original) (ams_source (sac_after r)) \/
  x ∈ raw (sac_impact r).
Proof.
  unfold source_required. rewrite interpretations_snoc. setoid_rewrite elem_of_app.
  setoid_rewrite list_elem_of_singleton. split.
  - intros [?|[(s & [Hs| ->] & Hx)|(r' & [Hr| ->] & Hx)]]; [by do 2 left| |by right; left| |by do 2 right].
    + left. right. left. by exists s.
    + left. do 2 right. by exists r'.
  - intros [[?|[(s & Hs & Hx)|(r' & Hr & Hx)]]|[Hx|Hx]]; [by left| | | |].
    + right. left. exists s. auto.
    + do 2 right. exists r'. auto.
    + right. left. eexists. split; [by right|done].
    + do 2 right. exists r. auto.
Qed.

Lemma identities_snoc history r ids :
  (forall id s, bt_get id ids = Some s -> sr_id s = id /\
    exists certainty, SourceAttribution.Referenced s certainty ∈ history) ->
  forall id s, bt_get id (identity_insert ids r) = Some s -> sr_id s = id /\
    exists certainty, SourceAttribution.Referenced s certainty ∈ history ++ [r].
Proof.
  intros Hids id s. setoid_rewrite elem_of_app. destruct r as [|s' c']; simpl.
  - intros [? [c ?]]%Hids. split; [done|]. exists c. auto.
  - rewrite bt_get_insert. case_decide as Hd.
    + intros [= <-]. split; [done|]. exists c'. right. by apply list_elem_of_singleton.
    + intros [? [c ?]]%Hids. split; [done|]. exists c. auto.
Qed.

Lemma replay_source_run history st r st' :
  sources_replayed history st -> replay_source original st r = Ok st' ->
  sources_replayed (history ++ [r]) st'.
Proof.
  intros [_ _ Hch Hids Hreq] Hs. unfold replay_source in Hs. apply seq_Ok in Hs as [_ Hs].
  destruct (bs_insert _ _) as [fresh ops] eqn:Eo. apply guard_Ok in Hs as [_ Hs].
  do 2 (apply seq_Ok in Hs as [_ Hs]). apply guard_Ok in Hs as [_ Hs].
  apply bind_Ok in Hs as (b1 & H1 & Hs). apply guard_Ok in Hs as [_ Hs].
  apply bind_Ok in Hs as (b2 & H2 & [= <-]). rewrite source_adds in H1.
  pose proof (builds_adds _ _ _ _ (builds_adds _ _ _ _ Hreq H1) H2) as Hb. constructor; simpl.
  - by rewrite last_snoc.
  - by rewrite last_snoc.
  - rewrite fmap_app. replace ops with (bs_insert (ats_operation (sac_stamp r)) (srp_operations st)).2
      by by rewrite Eo. by apply (chained_snoc _ _ _ _ _ _ _ _ _ _ Hch).
  - rewrite interpretations_snoc. by apply identities_snoc.
  - eapply builds_ext; [|exact Hb]. intros x. rewrite source_required_snoc. tauto.
Qed.

Lemma replay_sources_run history st :
  replay_sources original history = Ok st -> sources_replayed history st.
Proof.
  unfold replay_sources. intros (b & Hb & (b1 & Hb1 & Hs)%bind_Ok)%bind_Ok. rewrite source_adds in Hb1.
  assert (try_fold ImpactBuilder_add [] [CorrectionImpact.Population (osa_trace original)] = Ok b) as Hb'
    by (cbn [try_fold]; by rewrite bind_ret).
  pose proof (builds_adds _ _ _ _ (builds_adds _ _ _ _ builds_nil Hb') Hb1) as Hbs.
  revert st Hs. induction history as [|r history IH] using rev_ind; intros st; [intros [= <-]|].
  - constructor; simpl; try done; [apply chained_nil| |].
    + destruct (ams_source (osa_source original)) as [|s c] eqn:Es; simpl; [done|]. intros id s'.
      case_bool_decide; [|done]. intros [= <-]. split; [done|]. exists c. rewrite <- Es. left.
    + eapply builds_ext; [|exact Hbs]. intros x. unfold source_required, interpretations. simpl.
      setoid_rewrite list_elem_of_singleton. setoid_rewrite elem_of_nil. naive_solver.
  - rewrite try_fold_app. intros (st1 & H1%IH & H2)%bind_Ok. simpl in H2. rewrite bind_ret in H2.
    by eapply replay_source_run.
Qed.

Lemma current_source_run history current :
  current_source_attribution original history = Ok current <->
  (length history <= HUB_CORRECTION_ROWS)%nat /\
  AmendedSource_validate (osa_source original) (osa_catalog_revision original) = Ok tt /\
  osa_stock_revision original <> HubRevision_INITIAL /\
  exists st, replay_sources original history = Ok st /\ srp_current st = current.
Proof.
  unfold current_source_attribution. rewrite guard_Ok, seq_Ok, guard_Ok, Nat.ltb_ge, bind_Ok, bool_decide_eq_false.
  naive_solver.
Qed.

Lemma replay_sources_snoc history r :
  replay_sources original (history ++ [r])
  = let? st := replay_sources original history in replay_source original st r.
Proof.
  unfold replay_sources. destruct (ImpactBuilder_add _ _); cbn [bind]; [|done].
  destruct (ImpactBuilder_source _ _ _); cbn [bind]; [|done].
  rewrite try_fold_app. destruct (try_fold _ _ history); cbn [bind try_fold]; [|done]. by rewrite bind_ret.
Qed.

(** Known identities never change: a source that may be reused next to every
    earlier interpretation is no conflict. *)
Lemma reuse_no_conflict history st source known :
  sources_replayed history st ->
  validate_source_reuse source (known ++ interpretations history) = Ok tt ->
  identity_conflict (srp_identities st) source = false /\
  forall s, s ∈ interpretations history -> validate_source_reuse source [s; ams_source (osa_source original)] = Ok tt.
Proof.
  intros Hst Hr. rewrite validate_source_reuse_correct in Hr. split.
  - destruct source as [|source c]; simpl; [done|]. apply some_and_false. intros old Hold.
    apply (sp_identities _ _ Hst) in Hold as [Hid [c' Hin]]. apply negb_false_iff, bool_decide_eq_true.
    eapply Hr; [|done]. apply elem_of_app. by right.
  - intros s Hs. rewrite validate_source_reuse_correct. destruct source as [|source c]; [done|].
    intros o c' Ho Hid. eapply Hr; [|done]. apply elem_of_app. right.
    apply elem_of_cons in Ho as [<-|E%list_elem_of_singleton]; [done|]. rewrite E. left.
Qed.

Lemma replay_source_next history st r known :
  sources_replayed history st ->
  check_stamp (sac_stamp r) (osa_hub original) (srp_revision st) (srp_catalog st) (srp_at st) = Ok tt ->
  bs_contains (ats_operation (sac_stamp r)) (srp_operations st) = false ->
  sac_original r = original -> sac_prior r = srp_prior st -> sac_before r = srp_current st ->
  ams_source (sac_after r) <> ams_source (sac_before r) ->
  AmendedSource_validate (sac_after r) (ats_catalog_revision (sac_stamp r)) = Ok tt ->
  validate_source_reuse (ams_source (sac_after r)) (known ++ interpretations history) = Ok tt ->
  (forall x, source_required (history ++ [r]) x -> x ∈ raw (sac_impact r)) ->
  exists st', replay_source original st r = Ok st' /\ srp_current st' = sac_after r.
Proof.
  intros Hst Hck Hop Ho Hp Hb Hne Hv Hru Him. unfold replay_source. rewrite Hck. cbn [bind].
  rewrite (surjective_pairing (bs_insert _ _)), fresh_iff, Hop.
  rewrite (proj2 (impact_contains _ (CorrectionImpact.Population _))) by (apply Him, source_required_snoc; left; by left).
  rewrite Ho, Hp. rewrite !(bool_decide_eq_true_2 (_ = _)), bool_decide_eq_false_2 by done.
  cbn [negb orb]. rewrite Hv. cbn [bind].
  destruct (reuse_no_conflict history st _ known Hst Hru) as [Hc Hreuse].
  rewrite Hreuse.
  2:{ rewrite Hb, (sp_current _ _ Hst). unfold interpretations. destruct (last history) as [l|] eqn:El; simpl; [|left].
      right. apply list_elem_of_fmap. exists l. split; [done|]. by apply last_Some_elem_of. }
  cbn [bind map_err]. rewrite Hc, source_adds.
  destruct (builds_adds_within (srp_required st) _
    (source_targets (osa_trace original) (ams_source (sac_after r))) _ _ (sp_required _ _ Hst)
    (builds_impact (sac_impact r))) as (b1 & H1 & Hb1).
  { intros x Hx. apply Him, source_required_snoc. tauto. }
  rewrite H1. cbn [bind].
  replace (existsb _ b1.*1) with false.
  2:{ symmetry. apply not_true_iff_false. intros (x & Hx & Hn)%existsb_exists. rewrite <- list_elem_of_In in Hx.
      apply (proj2 (proj2 Hb1)) in Hx. rewrite (proj2 (impact_contains _ x)) in Hn; [done|].
      apply Him, source_required_snoc. tauto. }
  destruct (builds_adds_within b1 _ (raw (sac_impact r)) _ _ Hb1 (builds_impact (sac_impact r)))
    as (b2 & H2 & _).
  { intros x [Hx|Hx]; [|done]. apply Him, source_required_snoc. tauto. }
  rewrite H2. cbn [bind]. by eexists.
Qed.
End SourceReplays.

(** What a planned amendment of a source touches. *)
Definition source_downstream (c : SourceAttributionContext) (x : CorrectionImpact) : Prop :=
  x = CorrectionImpact.Population (osa_trace (scx_original c)) \/
  (exists d, d ∈ scx_affected c /\ x ∈ departure_targets d) \/
  exists v, v ∈ scx_issued_versions c /\ x ∈ version_targets v.

Lemma affect_departures_run trace operation catalog st l st' P :
  try_fold (affect_departure trace operation catalog) st l = Ok st' -> builds st.2 P ->
  builds st'.2 (fun x => P x \/ exists d, d ∈ l /\ x ∈ departure_targets d).
Proof.
  revert st P. induction l as [|d l IH]; intros st P; cbn [try_fold].
  { intros [= <-] Hb. eapply builds_ext; [|exact Hb]. intros x. setoid_rewrite elem_of_nil. naive_solver. }
  intros (st1 & H1 & H2)%bind_Ok Hb. unfold affect_departure in H1. destruct (bs_insert _ _) as [f ev].
  apply guard_Ok in H1 as [_ H1]. apply bind_Ok in H1 as (b & [Hb' _]%departure_impact_adds & [= <-]).
  pose proof (builds_adds _ _ _ _ Hb Hb') as Hb1. specialize (IH _ _ H2 Hb1).
  eapply builds_ext; [|exact IH]. intros x. setoid_rewrite elem_of_cons. naive_solver.
Qed.
Lemma affect_versions_run cut trace operation st l st' P :
  try_fold (affect_version cut trace operation) st l = Ok st' -> builds st.2 P ->
  builds st'.2 (fun x => P x \/ exists v, v ∈ l /\ x ∈ version_targets v).
Proof.
  revert st P. induction l as [|d l IH]; intros st P; cbn [try_fold].
  { intros [= <-] Hb. eapply builds_ext; [|exact Hb]. intros x. setoid_rewrite elem_of_nil. naive_solver. }
  intros (st1 & H1 & H2)%bind_Ok Hb. unfold affect_version in H1. destruct (bs_insert _ _) as [f ev].
  apply guard_Ok in H1 as [_ H1]. apply bind_Ok in H1 as (b & Hb'%version_impact_adds & [= <-]).
  pose proof (builds_adds _ _ _ _ Hb Hb') as Hb1. specialize (IH _ _ H2 Hb1).
  eapply builds_ext; [|exact IH]. intros x. setoid_rewrite elem_of_cons. naive_solver.
Qed.

Lemma keep_impacts_run downstream b l b' P :
  try_fold (keep_impact downstream) b l = Ok b' -> builds b P ->
  builds b' (fun x => P x \/ x ∈ l) /\
  forall x, x ∈ l -> is_downstream x = true -> bs_contains x downstream = true.
Proof.
  revert b P. induction l as [|t l IH]; intros b P; cbn [try_fold].
  { intros [= <-] Hb. split; [|by intros x ?%elem_of_nil]. eapply builds_ext; [|exact Hb].
    intros x. rewrite elem_of_nil. tauto. }
  intros (b1 & H1 & H2)%bind_Ok Hb. unfold keep_impact in H1. apply guard_Ok in H1 as [Hk H1].
  assert (try_fold ImpactBuilder_add b [t] = Ok b1) as H1' by (cbn [try_fold]; by rewrite bind_ret).
  destruct (IH _ _ H2 (builds_adds _ _ _ _ Hb H1')) as [Hb2 Hd]. split.
  - eapply builds_ext; [|exact Hb2]. intros x. cbv beta. rewrite list_elem_of_singleton, elem_of_cons. tauto.
  - intros x [->|Hx]%elem_of_cons Hdx; [|by apply Hd]. rewrite Hdx in Hk. simpl in Hk. by apply negb_false_iff in Hk.
Qed.

Lemma sources_adds_run trace b l b' P (f : SourceAttributionCorrection -> SourceAttribution) :
  try_fold (fun t r => ImpactBuilder_source t trace (f r)) b l = Ok b' -> builds b P ->
  builds b' (fun x => P x \/ exists r, r ∈ l /\ x ∈ source_targets trace (f r)).
Proof.
  revert b P. induction l as [|r l IH]; intros b P; cbn [try_fold].
  { intros [= <-] Hb. eapply builds_ext; [|exact Hb]. intros x. setoid_rewrite elem_of_nil. naive_solver. }
  intros (b1 & H1 & H2)%bind_Ok Hb. rewrite source_adds in H1.
  specialize (IH _ _ H2 (builds_adds _ _ _ _ Hb H1)). eapply builds_ext; [|exact IH].
  intros x. setoid_rewrite elem_of_cons. naive_solver.
Qed.

Lemma elem_of_set {K} `{TotalOrd K, EqDecision K} (s : list (K * unit)) k :
  bt_wf s -> bs_contains k s = true <-> k ∈ s.*1.
Proof.
  intros Hs. unfold bs_contains. rewrite list_elem_of_fmap. split.
  - destruct (bt_get k s) as [[]|] eqn:E; [|done]. apply bt_get_elem_of in E; [|done]. by exists (k, tt).
  - intros ([y []] & -> & Hy). apply bt_get_elem_of in Hy; [|done]. simpl. by rewrite Hy.
Qed.

Lemma source_impact_run self c operation s :
  scm_trace self = osa_trace (scx_original c) -> source_impact self c operation = Ok s ->
  (forall x, x ∈ raw s <-> source_required (scx_original c) (scx_history c) x \/
    x ∈ source_targets (osa_trace (scx_original c)) (scm_source self) \/ source_downstream c x) /\
  forall r x, r ∈ scx_history c -> x ∈ raw (sac_impact r) -> is_downstream x = true -> source_downstream c x.
Proof.
  intros Ht Hi. unfold source_impact in Hi. rewrite Ht in Hi.
  apply bind_Ok in Hi as (b1 & H1 & Hi). apply bind_Ok in Hi as (b2 & H2 & Hi).
  apply bind_Ok in Hi as (b3 & H3 & Hi). apply bind_Ok in Hi as (b4 & H4 & Hi).
  apply bind_Ok in Hi as (d1 & D1 & Hi). apply bind_Ok in Hi as ([e d2] & D2 & Hi).
  apply bind_Ok in Hi as ([v d3] & D3 & Hi). apply bind_Ok in Hi as (b5 & H5 & Hi).
  apply bind_Ok in Hi as (b6 & H6 & Hi). rewrite source_adds in H2, H4.
  assert (forall b, ImpactBuilder_add [] (CorrectionImpact.Population (osa_trace (scx_original c))) = Ok b ->
    builds b (fun x => x = CorrectionImpact.Population (osa_trace (scx_original c)))) as Hpop.
  { intros b Hb. assert (try_fold ImpactBuilder_add [] [CorrectionImpact.Population (osa_trace (scx_original c))] = Ok b)
      as Hb' by (cbn [try_fold]; by rewrite bind_ret).
    eapply builds_ext; [|exact (builds_adds _ _ _ _ builds_nil Hb')]. intros x. cbv beta.
    rewrite list_elem_of_singleton. tauto. }
  pose proof (affect_departures_run _ _ _ _ _ _ _ D2 (Hpop _ D1)) as B2. simpl in B2.
  pose proof (affect_versions_run _ _ _ _ _ _ _ D3 B2) as B3. simpl in B3.
  assert (builds d3 (source_downstream c)) as Bd.
  { eapply builds_ext; [|exact B3]. intros x. unfold source_downstream. tauto. }
  pose proof (builds_adds _ _ _ _ (sources_adds_run _ _ _ _ _ _ H3 (builds_adds _ _ _ _ (Hpop _ H1) H2)) H4) as B4.
  apply (keep_impacts_run d3 _ _ _ _ H5) in B4 as [B5 Hdown]. pose proof (builds_adds _ _ _ _ B5 H6) as B6.
  split.
  - intros x. rewrite (finish_builds _ _ _ B6 Hi x). cbv beta. rewrite (proj2 (proj2 Bd)), list_elem_of_bind.
    unfold source_required, interpretations. setoid_rewrite elem_of_cons. setoid_rewrite list_elem_of_fmap.
    split; [|naive_solver]. intros [[[[[?|?]|(r & Hr & Hx)]|?]|(r & Hx & Hr)]|?]; try tauto; naive_solver.
  - intros r x Hr Hx Hdx. apply (proj2 (proj2 Bd)), (elem_of_set d3 x (proj1 Bd)), Hdown; [|done].
    apply list_elem_of_bind. by exists r.
Qed.

Record source_planned (self : SourceAttributionCommand) (c : SourceAttributionContext)
    (operation : HubRecordId) (actor : PublicKey) (now : UnixTimestamp)
    (r : SourceAttributionCorrection) : Prop := {
  sl_scope : scm_trace self = osa_trace (scx_original c) /\
    osa_hub (scx_original c) = cut_hub (scx_cut c) /\ cut_uncertain_submissions (scx_cut c) = false;
  sl_stamp : sac_stamp r = {| ats_operation := operation; ats_hub := cut_hub (scx_cut c);
    ats_stock_revision := ats_stock_revision (sac_stamp r);
    ats_catalog_revision := rc_revision (cut_catalog (scx_cut c)); ats_actor := actor;
    ats_recorded_at := now; ats_basis := scm_basis self |};
  sl_next : raw (ats_stock_revision (sac_stamp r)) = raw (cut_stock_revision (scx_cut c)) + 1;
  sl_requested : ams_source (sac_after r) = scm_source self /\
    AmendedSource_validate (sac_after r) (rc_revision (cut_catalog (scx_cut c))) = Ok tt;
  sl_changed : ams_source (sac_after r) <> ams_source (sac_before r);
  sl_fresh : operation <> osa_operation (scx_original c) /\
    operation ∉ (fun r => ats_operation (sac_stamp r)) <$> scx_history c;
  sl_identity : forall source certainty original certainty',
    scm_source self = SourceAttribution.Referenced source certainty ->
    SourceAttribution.Referenced original certainty'
      ∈ scx_known_sources c ++ interpretations (scx_original c) (scx_history c) ->
    sr_id original = sr_id source -> original = source;
  sl_impact : forall x, x ∈ raw (sac_impact r) <->
    source_required (scx_original c) (scx_history c) x \/
    x ∈ source_targets (osa_trace (scx_original c)) (scm_source self) \/ source_downstream c x;
  sl_downstream : forall r' x, r' ∈ scx_history c -> x ∈ raw (sac_impact r') ->
    is_downstream x = true -> source_downstream c x
}.

Lemma source_plan_run self c operation actor now r :
  SourceAttributionCommand_plan self c operation actor now = Ok r ->
  source_planned self c operation actor now r /\
  current_source_attribution (scx_original c) (scx_history c) = Ok (sac_before r) /\
  current_source_attribution (scx_original c) (scx_history c ++ [r]) = Ok (sac_after r).
Proof.
  intros Hp. unfold SourceAttributionCommand_plan in Hp.
  apply bind_Ok in Hp as (next & (Hun & _ & _ & _ & Hnext)%check_Ok & Hp). apply guard_Ok in Hp as [Hlen Hp].
  apply guard_Ok in Hp as [Hsc Hp]. apply bind_Ok in Hp as (before & Hbefore & Hp).
  apply guard_Ok in Hp as [Hprior Hp]. apply guard_Ok in Hp as [Hhist Hp]. apply seq_Ok in Hp as [_ Hp].
  apply seq_Ok in Hp as [Hru Hp]. apply map_err_Ok in Hru. apply bind_Ok in Hp as (issuer & _ & Hp).
  apply seq_Ok in Hp as [Hv Hp]. apply guard_Ok in Hp as [Hne Hp]. apply bind_Ok in Hp as (impact & Him & [= <-]).
  apply orb_false_iff in Hsc as [Hs1 Hs2]. rewrite negb_false_iff, bool_decide_eq_true in Hs1, Hs2.
  rewrite negb_false_iff, bool_decide_eq_true in Hprior. rewrite !orb_false_iff in Hlen.
  destruct Hlen as [[[Hlen%Nat.leb_gt _] _] _]. rewrite !orb_false_iff in Hhist.
  destruct Hhist as [[[[Hh1 Hh2] Hh3] Hh4] Hh5]. apply Z.ltb_ge in Hh1, Hh2, Hh3.
  apply bool_decide_eq_false in Hh4, Hne. apply not_used in Hh5.
  apply source_impact_run in Him as [Hrows Hdown]; [|done].
  pose proof Hbefore as (_ & Hval & Hini & st & Hst & Hc)%current_source_run.
  pose proof (replay_sources_run _ _ _ Hst) as Hrun.
  set (r := {| sac_impact := impact |}).
  split; [|split; [exact Hbefore|]].
  { constructor; simpl; try done. intros source cert o cert' Es Ho Hid.
    rewrite validate_source_reuse_correct, Es in Hru. by eapply Hru. }
  destruct (chained_next _ _ _ _ _ _ _ _ _ (sac_stamp r) (osa_hub (scx_original c)) (sp_chain _ _ _ Hrun))
    as [Hck Hfr]; rewrite ?fmap_last in *; simpl; try done; try lia.
  { by rewrite <- list_fmap_compose. }
  destruct (replay_source_next (scx_original c) (scx_history c) st r (scx_known_sources c) Hrun Hck Hfr)
    as (st' & Hst' & Hcur'); try done.
  { by rewrite (sp_prior _ _ _ Hrun), <- Hprior. }
  { intros x. rewrite source_required_snoc. change (sac_impact r) with impact.
    change (ams_source (sac_after r)) with (scm_source self). rewrite !Hrows. tauto. }
  apply current_source_run. split_and!; [rewrite length_app; simpl; lia|done|done|].
  exists st'. by rewrite replay_sources_snoc, Hst.
Qed.

(** An accepted amendment of a source continues its history: the history
    replays to the meaning before it, and with the new record to exactly the
    requested source; no source identity is ever given different facts; and its
    impact names everything earlier amendments named, every interpretation ever
    held and everything downstream, while nothing once known to be downstream may
    be left out. *)
Theorem source_amendment_extends self c operation actor now r :
  SourceAttributionCommand_plan self c operation actor now = Ok r ->
  source_planned self c operation actor now r /\
  current_source_attribution (scx_original c) (scx_history c) = Ok (sac_before r) /\
  current_source_attribution (scx_original c) (scx_history c ++ [r]) = Ok (sac_after r).
Proof. apply source_plan_run. Qed.

(** ** Follow-up *)

Definition follow_up_start (c : CorrectionFollowUpContext) : FollowUpReplay :=
  {| frp_operations := (bs_insert (ats_operation (cfx_correction c)) []).2; frp_targets := [];
     frp_revision := ats_stock_revision (cfx_correction c);
     frp_catalog := ats_catalog_revision (cfx_correction c);
     frp_at := ats_recorded_at (cfx_correction c) |}.

(** The correction is within the cut. *)
Definition follow_up_base (c : CorrectionFollowUpContext) : Prop :=
  ats_hub (cfx_correction c) = cut_hub (cfx_cut c) /\
  raw (ats_stock_revision (cfx_correction c)) <= raw (cut_stock_revision (cfx_cut c)) /\
  raw (ats_catalog_revision (cfx_correction c)) <= raw (rc_revision (cut_catalog (cfx_cut c))).

Lemma follow_up_validate_Ok c :
  CorrectionFollowUpContext_validate c = Ok tt <->
  (length (cfx_history c) <= HUB_CORRECTION_ROWS)%nat /\ follow_up_base c /\
  exists st, try_fold (replay_follow_up c) (follow_up_start c) (cfx_history c) = Ok st.
Proof.
  unfold CorrectionFollowUpContext_validate, follow_up_base.
  rewrite !guard_Ok, Nat.ltb_ge, !orb_false_iff, negb_false_iff, bool_decide_eq_true, !Z.ltb_ge, bind_Ok.
  split; [intros (? & [[? ?] ?] & st & ? & _)|intros (? & (? & ? & ?) & st & ?)]; split_and!; eauto.
Qed.

Record follow_ups_replayed (c : CorrectionFollowUpContext)
    (history : list CorrectionFollowUpObservation) (st : FollowUpReplay) : Prop := {
  fv_chain : chained (ats_operation (cfx_correction c)) (ats_stock_revision (cfx_correction c))
    (ats_catalog_revision (cfx_correction c)) (ats_recorded_at (cfx_correction c))
    (cfo_stamp <$> history) (frp_revision st) (frp_catalog st) (frp_at st) (frp_operations st);
  fv_targets : forall t, bt_get t (frp_targets st)
    = (fun r => ats_operation (cfo_stamp r)) <$> latest_follow_up history t;
  fv_bounds : raw (frp_revision st) <= raw (cut_stock_revision (cfx_cut c)) /\
    raw (frp_catalog st) <= raw (rc_revision (cut_catalog (cfx_cut c)))
}.

Lemma latest_snoc history r t :
  latest_follow_up (history ++ [r]) t = if cfo_target r ==? t then Some r else latest_follow_up history t.
Proof. unfold latest_follow_up. by rewrite reverse_snoc. Qed.

Lemma replay_follow_ups_run c history st : follow_up_base c ->
  try_fold (replay_follow_up c) (follow_up_start c) history = Ok st -> follow_ups_replayed c history st.
Proof.
  intros (_ & Hb1 & Hb2). revert st. induction history as [|r history IH] using rev_ind; intros st.
  { intros [= <-]. constructor; simpl; [apply chained_nil|done|done]. }
  rewrite try_fold_app. intros (st1 & H1%IH & H2)%bind_Ok. simpl in H2. rewrite bind_ret in H2.
  destruct H1 as [Hch Ht _]. unfold replay_follow_up in H2. apply seq_Ok in H2 as [_ H2].
  destruct (bs_insert _ _) as [fresh ops] eqn:Eo. apply guard_Ok in H2 as [Hg [= <-]].
  rewrite !orb_false_iff in Hg. destruct Hg as [[_ Hg1%Z.ltb_ge] Hg2%Z.ltb_ge]. constructor; simpl.
  - rewrite fmap_app. replace ops with (bs_insert (ats_operation (cfo_stamp r)) (frp_operations st1)).2
      by by rewrite Eo. by apply (chained_snoc _ _ _ _ _ _ _ _ _ _ Hch).
  - intros t. rewrite bt_get_insert, latest_snoc, Ht. case_decide; case_bool_decide; done.
  - done.
Qed.

(** A later cut accepts what an earlier one did. *)
Definition later_cut (c c' : CorrectionFollowUpContext) : Prop :=
  cut_hub (cfx_cut c') = cut_hub (cfx_cut c) /\ cfx_correction c' = cfx_correction c /\
  cfx_impact c' = cfx_impact c /\
  raw (cut_stock_revision (cfx_cut c)) <= raw (cut_stock_revision (cfx_cut c')) /\
  raw (rc_revision (cut_catalog (cfx_cut c))) <= raw (rc_revision (cut_catalog (cfx_cut c'))).

Lemma replay_follow_up_later c c' st r st' : later_cut c c' ->
  replay_follow_up c st r = Ok st' -> replay_follow_up c' st r = Ok st'.
Proof.
  intros (Hh & Hc & Hi & Hr & Hk). unfold replay_follow_up. rewrite Hh, Hc, Hi.
  intros [-> H]%seq_Ok. cbn [bind]. destruct (bs_insert _ _) as [fresh ops].
  apply guard_Ok in H as [Hg H]. apply guard_Ok. split; [|done].
  rewrite !orb_false_iff in *. destruct Hg as [[Hg Hg1%Z.ltb_ge] Hg2%Z.ltb_ge].
  split; [split; [done|]|]; apply Z.ltb_ge; lia.
Qed.

Lemma replay_follow_ups_later c c' st history st' : later_cut c c' ->
  try_fold (replay_follow_up c) st history = Ok st' ->
  try_fold (replay_follow_up c') st history = Ok st'.
Proof.
  intros Hl. revert st. induction history as [|r history IH]; intros st; cbn [try_fold]; [done|].
  intros (st1 & H1 & H2)%bind_Ok. rewrite (replay_follow_up_later _ _ _ _ _ Hl H1). cbn [bind]. auto.
Qed.

Lemma follow_up_plan_run self c operation actor now r c' :
  CorrectionFollowUpCommand_plan self c operation actor now = Ok r ->
  later_cut c c' -> cfx_history c' = cfx_history c ++ [r] ->
  raw (ats_stock_revision (cfo_stamp r)) <= raw (cut_stock_revision (cfx_cut c')) ->
  CorrectionFollowUpContext_validate c' = Ok tt /\ cfo_target r = cfc_target self /\
  cfo_state r = cfc_state self /\ cfc_target self ∈ raw (cfx_impact c) /\
  CorrectionFollowUpContext_validate c = Ok tt.
Proof.
  intros Hp Hl Hh' Hrev. unfold CorrectionFollowUpCommand_plan in Hp.
  apply bind_Ok in Hp as (next & (_ & _ & _ & _ & Hnext)%check_Ok & Hp). apply seq_Ok in Hp as [Hval Hp].
  apply guard_Ok in Hp as [Hlen%Nat.leb_gt Hp]. apply guard_Ok in Hp as [Hsc Hp].
  apply guard_Ok in Hp as [Hprior Hp]. apply guard_Ok in Hp as [Hg [= <-]]. simpl in Hrev.
  apply orb_false_iff in Hsc as [Hs1 Hs2]. apply negb_false_iff in Hs1, Hs2, Hprior.
  apply bool_decide_eq_true in Hs1, Hprior. rewrite !orb_false_iff in Hg. destruct Hg as [[Hg1 Hg2] Hg3].
  apply bool_decide_eq_false in Hg1. apply not_used in Hg2. apply Z.ltb_ge in Hg3.
  pose proof Hval as (_ & Hbase & st & Hst)%follow_up_validate_Ok.
  pose proof (replay_follow_ups_run _ _ _ Hbase Hst) as [Hch Ht [Hb1 Hb2]].
  split; [|split_and!; [done|done|by apply impact_contains|done]].
  pose proof Hl as (Hhub & Hc & Hi & Hr & Hk). apply follow_up_validate_Ok.
  rewrite Hh', length_app, Nat.add_1_r. split; [lia|].
  split; [unfold follow_up_base in *; rewrite Hc, Hhub; split_and!; [apply Hbase|lia..]|].
  assert (follow_up_start c' = follow_up_start c) as -> by (unfold follow_up_start; by rewrite Hc).
  set (r := {| cfo_state := cfc_state self |}) in *.
  destruct (chained_next _ _ _ _ _ _ _ _ _ (cfo_stamp r) (cut_hub (cfx_cut c)) Hch) as [Hck Hfr].
  { done. }
  { rewrite <- (ch_revision _ _ _ _ _ _ _ _ _ Hch). simpl. lia. }
  { rewrite <- (ch_catalog _ _ _ _ _ _ _ _ _ Hch). simpl. lia. }
  { rewrite fmap_last, <- option_fmap_compose. simpl. done. }
  { simpl. congruence. }
  { rewrite <- list_fmap_compose. done. }
  rewrite try_fold_app, (replay_follow_ups_later _ _ _ _ _ Hl Hst). cbn [bind try_fold]. setoid_rewrite bind_ret.
  unfold replay_follow_up. rewrite Hhub, Hck. cbn [bind].
  rewrite (surjective_pairing (bs_insert _ _)), fresh_iff, Hfr, Hc, Hi, Ht.
  change (cfo_target r) with (cfc_target self). rewrite Hs2.
  rewrite !bool_decide_eq_true_2 by done. cbn [negb orb].
  rewrite (proj2 (Z.ltb_ge _ _)), (proj2 (Z.ltb_ge _ _)) by (simpl; lia). by eexists.
Qed.

(** A recorded piece of manual work continues the observations of its
    correction: at any later cut the extended history is valid, the target has
    the recorded state, and every other target keeps the state it had. *)
Theorem follow_up_extends self c operation actor now r c' :
  CorrectionFollowUpCommand_plan self c operation actor now = Ok r ->
  later_cut c c' -> cfx_history c' = cfx_history c ++ [r] ->
  raw (ats_stock_revision (cfo_stamp r)) <= raw (cut_stock_revision (cfx_cut c')) ->
  CorrectionFollowUpContext_validate c' = Ok tt /\
  CorrectionFollowUpContext_current c' (cfc_target self) = Ok (cfc_state self) /\
  forall t, t <> cfc_target self ->
    CorrectionFollowUpContext_current c' t = CorrectionFollowUpContext_current c t.
Proof.
  intros Hp Hl Hh Hr. destruct (follow_up_plan_run _ _ _ _ _ _ _ Hp Hl Hh Hr) as (Hv & Ht & Hs & Hin & Hv0).
  destruct Hl as (_ & _ & Hi & _). split; [done|]. unfold CorrectionFollowUpContext_current.
  rewrite Hv, Hv0, Hi, Hh. cbn [bind]. split.
  - rewrite (proj2 (impact_contains _ _) Hin). cbn [negb].
    by rewrite latest_snoc, bool_decide_eq_true_2, <- Hs by done.
  - intros t Hne. by rewrite latest_snoc, bool_decide_eq_false_2 by congruence.
Qed.

(** ** The messages determine the commands *)

(** The message of a source amendment determines the command and its context. *)
Theorem SourceAttributionCommand_message_inj cmd cmd' hub hub' actor actor' op op' :
  SourceAttributionCommand_message cmd hub actor op = SourceAttributionCommand_message cmd' hub' actor' op' ->
  cmd = cmd' /\ hub = hub' /\ actor = actor' /\ op = op'.
Proof.
  intros E. unfold SourceAttributionCommand_message, intent_header in E. rewrite <- ?app_assoc in E.
  apply app_inv_head in E. do 8 peel E. apply prefix_code_inj in E; [|apply _].
  destruct cmd, cmd'; simpl in *. by subst.
Qed.

(** The message of a recipient amendment determines the command and its context. *)
Theorem RecipientAttributionCommand_message_inj cmd cmd' hub hub' actor actor' op op' :
  RecipientAttributionCommand_message cmd hub actor op = RecipientAttributionCommand_message cmd' hub' actor' op' ->
  cmd = cmd' /\ hub = hub' /\ actor = actor' /\ op = op'.
Proof.
  intros E. unfold RecipientAttributionCommand_message, intent_header in E. rewrite <- ?app_assoc in E.
  apply app_inv_head in E. do 8 peel E. apply prefix_code_inj in E; [|apply _].
  destruct cmd, cmd'; simpl in *. by subst.
Qed.

(** The message of a follow-up determines the command and its context. *)
Theorem CorrectionFollowUpCommand_message_inj cmd cmd' hub hub' actor actor' op op' :
  CorrectionFollowUpCommand_message cmd hub actor op = CorrectionFollowUpCommand_message cmd' hub' actor' op' ->
  cmd = cmd' /\ hub = hub' /\ actor = actor' /\ op = op'.
Proof.
  intros E. unfold CorrectionFollowUpCommand_message, intent_header in E. rewrite <- ?app_assoc in E.
  apply app_inv_head in E. do 6 peel E. rewrite <- ?app_assoc in E.
  apply enc_tag_inv in E as [Hk E]; [|by destruct (cfc_target cmd)|by destruct (cfc_target cmd')].
  do 2 peel E. rewrite <- ?app_assoc in E.
  apply enc_tag_inv in E as [Hs E]; [|by destruct (cfc_state cmd)|by destruct (cfc_state cmd')].
  assert (cfc_state cmd = cfc_state cmd') by by destruct (cfc_state cmd), (cfc_state cmd').
  assert (cfc_target cmd = cfc_target cmd') by (apply impact_key_inj, injective_projections; done).
  apply prefix_code_inj in E; [|apply _]. destruct cmd, cmd'; simpl in *. by subst.
Qed.

(** ** Concrete amendments *)

Definition sample_cut (revision : Z) : AttributionCut :=
  {| cut_hub := sample_hub; cut_stock_revision := sample_revision revision;
     cut_catalog := sample_catalog; cut_latest_recorded_at := sample_time 300;
     cut_uncertain_submissions := false |}.
Definition sample_delivery : OriginalRecipientAttribution :=
  {| ora_hub := sample_hub; ora_family := CorrectedDepartureFamily.Normal;
     ora_operation := sample_id 91; ora_stock_revision := sample_revision 5;
     ora_catalog_revision := sample_revision 7; ora_recorded_at := sample_time 200;
     ora_actor := sample_key 1; ora_recipient := sample_record 13 value_party;
     ora_populations := [sample_id 41]; ora_issued_versions := [sample_id 95] |}.
Definition sample_recipient_context (history : list RecipientAttributionCorrection)
  : RecipientAttributionContext :=
  {| rcx_cut := sample_cut 9; rcx_original := sample_delivery; rcx_history := history;
     rcx_linked_issued_versions := [sample_id 96; sample_id 95] |}.
Definition sample_recipient_command : RecipientAttributionCommand :=
  {| rcm_departure_operation := sample_id 91; rcm_expected_stock_revision := sample_revision 9;
     rcm_expected_catalog_revision := sample_revision 7; rcm_expected_prior := None;
     rcm_recipient := None; rcm_basis := sample_provenance "Wrong name" |}.
Abbreviation sample_recipient_plan :=
  (RecipientAttributionCommand_plan sample_recipient_command (sample_recipient_context [])
     (sample_id 97) (sample_key 1) (sample_time 320)).

Lemma sample_recipient_planned : exists r, sample_recipient_plan = Ok r /\
  map impact_key (raw (rac_impact r))
  = [(1, sample_id 41); (3, sample_id 91); (4, sample_id 95); (4, sample_id 96); (5, sample_id 13);
     (7, sample_id 91)].
Proof.
  assert (match sample_recipient_plan with
    | Ok r => bool_decide (map impact_key (raw (rac_impact r))
        = [(1, sample_id 41); (3, sample_id 91); (4, sample_id 95); (4, sample_id 96); (5, sample_id 13);
           (7, sample_id 91)])
    | Err _ => false end = true) as E by (vm_compute; reflexivity).
  destruct sample_recipient_plan as [r|]; [|done]. exists r. by apply bool_decide_eq_true in E.
Qed.

Lemma recipient_amendment_extends_witness : exists r, sample_recipient_plan = Ok r /\
  current_recipient_attribution sample_delivery [r] = Ok (rac_after r).
Proof.
  destruct sample_recipient_planned as (r & E & _). exists r. split; [exact E|].
  exact (proj2 (proj2 (recipient_amendment_extends sample_recipient_command (sample_recipient_context [])
    (sample_id 97) (sample_key 1) (sample_time 320) r sample_catalog_wf E))).
Defined.

Definition sample_intake : OriginalSourceAttribution :=
  {| osa_hub := sample_hub; osa_operation := sample_id 81; osa_trace := sample_id 41;
     osa_stock_revision := sample_revision 2; osa_catalog_revision := sample_revision 7;
     osa_recorded_at := sample_time 100; osa_actor := sample_key 1;
     osa_source := {| ams_source := SourceAttribution.Unknown; ams_issuer := None |} |}.
Definition sample_batch : SourceReference :=
  {| sr_id := sample_id 61; sr_issuer := Some (sample_id 13); sr_kind := SourceReferenceKind.ProducerBatch;
     sr_code := code_x; sr_provenance := sample_provenance "Crate label" |}.
Definition sample_affected : AttributionAffectedDeparture :=
  {| aad_operation := sample_id 91; aad_populations := [sample_id 41];
     aad_recipients := [AmendedRecipient.Known (sample_record 13 value_party)];
     aad_issued_versions := [sample_id 95] |}.
Definition sample_amend_context : SourceAttributionContext :=
  {| scx_cut := sample_cut 9; scx_original := sample_intake; scx_history := [];
     scx_known_sources := []; scx_affected := [sample_affected]; scx_issued_versions := [] |}.
Definition sample_source_command : SourceAttributionCommand :=
  {| scm_trace := sample_id 41; scm_expected_stock_revision := sample_revision 9;
     scm_expected_catalog_revision := sample_revision 7; scm_expected_prior := None;
     scm_source := SourceAttribution.Referenced sample_batch SourceCertainty.Established;
     scm_basis := sample_provenance "Label read" |}.
Abbreviation sample_source_plan :=
  (SourceAttributionCommand_plan sample_source_command sample_amend_context (sample_id 98)
     (sample_key 1) (sample_time 320)).

Lemma sample_source_planned : exists r, sample_source_plan = Ok r /\
  map impact_key (raw (sac_impact r))
  = [(1, sample_id 41); (2, sample_id 61); (3, sample_id 91); (4, sample_id 95); (5, sample_id 13);
     (6, sample_id 41)].
Proof.
  assert (match sample_source_plan with
    | Ok r => bool_decide (map impact_key (raw (sac_impact r))
        = [(1, sample_id 41); (2, sample_id 61); (3, sample_id 91); (4, sample_id 95); (5, sample_id 13);
           (6, sample_id 41)])
    | Err _ => false end = true) as E by (vm_compute; reflexivity).
  destruct sample_source_plan as [r|]; [|done]. exists r. by apply bool_decide_eq_true in E.
Qed.

Lemma source_amendment_extends_witness : exists r, sample_source_plan = Ok r /\
  current_source_attribution sample_intake [r] = Ok (sac_after r).
Proof.
  destruct sample_source_planned as (r & E & _). exists r. split; [exact E|].
  exact (proj2 (proj2 (source_amendment_extends sample_source_command sample_amend_context
    (sample_id 98) (sample_key 1) (sample_time 320) r E))).
Defined.

Definition sample_follow_up : CorrectionFollowUpCommand :=
  {| cfc_correction := sample_id 98; cfc_target := CorrectionImpact.IssuedVersion (sample_id 95);
     cfc_expected_stock_revision := sample_revision 10; cfc_expected_catalog_revision := sample_revision 7;
     cfc_expected_prior := None; cfc_state := CorrectionManualWork.WorkRecorded;
     cfc_basis := sample_provenance "Phoned" |}.
Definition sample_follow_up_context (revision : Z) (r : SourceAttributionCorrection)
    (history : list CorrectionFollowUpObservation) : CorrectionFollowUpContext :=
  {| cfx_cut := sample_cut revision; cfx_correction := sac_stamp r; cfx_impact := sac_impact r;
     cfx_history := history |}.

Lemma sample_followed : exists r o, sample_source_plan = Ok r /\
  CorrectionFollowUpCommand_plan sample_follow_up (sample_follow_up_context 10 r []) (sample_id 99)
    (sample_key 1) (sample_time 400) = Ok o /\ raw (ats_stock_revision (cfo_stamp o)) = 11.
Proof.
  assert (match sample_source_plan with
    | Ok r => match CorrectionFollowUpCommand_plan sample_follow_up (sample_follow_up_context 10 r [])
        (sample_id 99) (sample_key 1) (sample_time 400) with
      | Ok o => raw (ats_stock_revision (cfo_stamp o)) =? 11 | Err _ => false end
    | Err _ => false end = true) as E by (vm_compute; reflexivity).
  destruct sample_source_plan as [r|]; [|done]. exists r.
  destruct (CorrectionFollowUpCommand_plan _ _ _ _ _) as [o|]; [|done]. exists o. by apply Z.eqb_eq in E.
Qed.

Lemma follow_up_extends_witness : exists r o,
  CorrectionFollowUpContext_current (sample_follow_up_context 11 r [o])
    (CorrectionImpact.IssuedVersion (sample_id 95)) = Ok CorrectionManualWork.WorkRecorded.
Proof.
  destruct sample_followed as (r & o & _ & E & Er). exists r, o.
  refine (proj1 (proj2 (follow_up_extends sample_follow_up (sample_follow_up_context 10 r [])
    (sample_id 99) (sample_key 1) (sample_time 400) o (sample_follow_up_context 11 r [o]) E _ eq_refl _))).
  - split_and!; try reflexivity; vm_compute; discriminate.
  - rewrite Er. vm_compute. discriminate.
Defined.
