(* ===== verification/Balance.v ===== *)
(** * The balance of a corrected trace

    [CorrectedTraceQuantityContext::balance] of [hub/corrections.rs]: the
    departure lines and counted shortages of one original population, each with
    its corrections, are added up against what is on hand and what was disposed
    of.  No operation may be counted twice, a stock revision belongs to one
    operation, and the result balances to the original packs. *)

From Stdlib Require Import Bool ZArith Lia List.
From stdpp Require Import base decidable option list numbers sets.
From S2P Require Import Prelude Containers Encoding Hub Reference Lineage Counts Accounts.

Definition HUB_ACTUAL_REPORT_CAPACITY : nat := 4096.

Record TraceBalance := {
  tb_variant : HubRecordId;
  tb_original : WholePacks;
  tb_on_hand : WholePacks;
  tb_departed : WholePacks;
  tb_counted_loss : WholePacks;
  tb_disposed : WholePacks;
  tb_actual_departed : WholePacks
}.

Record CorrectedTraceQuantityContext := {
  ctq_trace : HubRecordId;
  ctq_variant : HubRecordId;
  ctq_original : WholePacks;
  ctq_on_hand : WholePacks;
  ctq_disposed : WholePacks;
  ctq_departures : list DepartureQuantityAccount;
  ctq_actual_departures : list DepartureQuantityAccount;
  ctq_count_losses : list CountLossQuantityAccount
}.

(** [map.insert(key, value).is_some_and(|prior| prior != value)]. *)
Definition conflicts {K V} `{EqDecision K, EqDecision V} (m : list (K * V)) (key : K) (value : V) : bool :=
  is_some_and (bt_get key m) (fun prior => prior !=? value).

Definition record_revision_at (revisions : list (Z * HubRecordId)) (revision : HubRevision)
    (operation : HubRecordId) : result (list (Z * HubRecordId)) CorrectionError :=
  if conflicts revisions (raw revision) operation then Err CorrectionError.InvalidHistory
  else Ok (bt_insert (raw revision) operation revisions).

(** The checked total of correction rows. *)
Definition add_rows (rows n : nat) : result nat CorrectionError :=
  let rows := (rows + n)%nat in
  if (HUB_CORRECTION_ROWS <? rows)%nat then Err CorrectionError.Capacity else Ok rows.

(** The mutable locals of the loop over the two families of departure lines;
    [totals] is the pair of the two totals, and the family is [false] for
    departures and [true] for actual departures. *)
Record LineState := {
  lst_lines : list ((HubRecordId * HubRecordId) * unit);
  lst_departures : list (HubRecordId * (bool * HubRevision));
  lst_revisions : list (Z * HubRecordId);
  lst_amendments : list (HubRecordId * unit);
  lst_departed : WholePacks;
  lst_actual : WholePacks
}.

(** The loop body over the amendments of one line. *)
Definition count_line_amendment (st : list (Z * HubRecordId) * list (HubRecordId * unit))
    (change : DepartureQuantityAmendment)
  : result (list (Z * HubRecordId) * list (HubRecordId * unit)) CorrectionError :=
  let? revisions := record_revision_at st.1 (dqa_stock_revision change) (dqa_operation change) in
  let (fresh, amendments) := bs_insert (dqa_operation change) st.2 in
  if negb fresh then Err CorrectionError.Duplicate else Ok (revisions, amendments).

(** The loop body over the lines. *)
Definition count_line (self : CorrectedTraceQuantityContext) (st : LineState)
    (line : bool * DepartureQuantityAccount) : result LineState CorrectionError :=
  let (family, account) := line in
  let original := dac_original account in
  if (odq_trace original !=? ctq_trace self) || (odq_variant original !=? ctq_variant self)
  then Err CorrectionError.InvalidHistory
  else
    let (fresh, lines) := bs_insert (odq_operation original, odq_group original) (lst_lines st) in
    if negb fresh then Err CorrectionError.Duplicate
    else if conflicts (lst_departures st) (odq_operation original)
              (family, odq_stock_revision original)
    then Err CorrectionError.Duplicate
    else
      let? revisions := record_revision_at (lst_revisions st) (odq_stock_revision original)
        (odq_operation original) in
      let? (revisions, amendments) := try_fold count_line_amendment
        (revisions, lst_amendments st) (dac_amendments account) in
      let? total := Packs.add (if family then lst_actual st else lst_departed st)
        (dac_effective account) in
      Ok {| lst_lines := lines;
            lst_departures := bt_insert (odq_operation original)
              (family, odq_stock_revision original) (lst_departures st);
            lst_revisions := revisions;
            lst_amendments := amendments;
            lst_departed := if family then lst_departed st else total;
            lst_actual := if family then total else lst_actual st |}.

(** The mutable locals of the loop over the shortages. *)
Record LossState := {
  lss_losses : list (HubRecordId * unit);
  lss_explanations : list (HubRecordId * unit);
  lss_count_operations : list (HubRecordId * unit);
  lss_revisions : list (Z * HubRecordId);
  lss_amendments : list (HubRecordId * unit);
  lss_unexplained : WholePacks;
  lss_actual : WholePacks
}.

Definition count_explanation (departures : list (HubRecordId * (bool * HubRevision)))
    (amendments : list (HubRecordId * unit))
    (st : list (Z * HubRecordId) * list (HubRecordId * unit)) (item : CountLossExplanation)
  : result (list (Z * HubRecordId) * list (HubRecordId * unit)) CorrectionError :=
  let? revisions := record_revision_at st.1 (cle_stock_revision item) (cle_operation item) in
  let (fresh, explanations) := bs_insert (cle_operation item) st.2 in
  if negb fresh || bs_contains (cle_operation item) amendments
     || is_some (bt_get (cle_operation item) departures)
  then Err CorrectionError.Duplicate else Ok (revisions, explanations).

Definition count_loss_amendment (departures : list (HubRecordId * (bool * HubRevision)))
    (explanations count_operations : list (HubRecordId * unit))
    (st : list (Z * HubRecordId) * list (HubRecordId * unit)) (item : CountExplanationAmendment)
  : result (list (Z * HubRecordId) * list (HubRecordId * unit)) CorrectionError :=
  let? revisions := record_revision_at st.1 (cea_stock_revision item) (cea_operation item) in
  let (fresh, amendments) := bs_insert (cea_operation item) st.2 in
  if negb fresh || bs_contains (cea_operation item) explanations
     || bs_contains (cea_operation item) count_operations
     || is_some (bt_get (cea_operation item) departures)
  then Err CorrectionError.Duplicate else Ok (revisions, amendments).

(** The loop body over the shortages. *)
Definition count_loss (self : CorrectedTraceQuantityContext)
    (departures : list (HubRecordId * (bool * HubRevision))) (st : LossState)
    (account : CountLossQuantityAccount) : result LossState CorrectionError :=
  let original := cla_original account in
  if (ocl_trace original !=? ctq_trace self) || (ocl_variant original !=? ctq_variant self)
  then Err CorrectionError.InvalidHistory
  else
    let (fresh, losses) := bs_insert (ocl_reconciliation original) (lss_losses st) in
    if negb fresh then Err CorrectionError.Duplicate
    else
      let (fresh, count_operations) := bs_insert (ocl_operation original)
        (lss_count_operations st) in
      if negb fresh || is_some (bt_get (ocl_operation original) departures)
         || bs_contains (ocl_operation original) (lss_amendments st)
      then Err CorrectionError.Duplicate
      else
        let? revisions := record_revision_at (lss_revisions st) (ocl_stock_revision original)
          (ocl_operation original) in
        let? (revisions, explanations) := try_fold
          (count_explanation departures (lss_amendments st))
          (revisions, lss_explanations st) (cla_explanations account) in
        let? (revisions, amendments) := try_fold
          (count_loss_amendment departures explanations count_operations)
          (revisions, lss_amendments st) (cla_amendments account) in
        let? unexplained := Packs.add (lss_unexplained st) (cla_unexplained account) in
        let? actual := Packs.add (lss_actual st) (cla_explained account) in
        Ok {| lss_losses := losses; lss_explanations := explanations;
              lss_count_operations := count_operations; lss_revisions := revisions;
              lss_amendments := amendments; lss_unexplained := unexplained;
              lss_actual := actual |}.

(** The two families of lines, in order. *)
Definition ctq_lines (self : CorrectedTraceQuantityContext)
  : list (bool * DepartureQuantityAccount) :=
  (pair false <$> ctq_departures self) ++ (pair true <$> ctq_actual_departures self).
Definition ctq_rows (self : CorrectedTraceQuantityContext) : list nat :=
  ((fun a => length (dac_amendments a)) <$> ctq_departures self) ++
  ((fun a => length (dac_amendments a)) <$> ctq_actual_departures self) ++
  mjoin ((fun a => [length (cla_explanations a); length (cla_amendments a)])
    <$> ctq_count_losses self).

Definition CorrectedTraceQuantityContext_balance (self : CorrectedTraceQuantityContext)
  : result TraceBalance CorrectionError :=
  if (HUB_LINEAGE_GROUPS <? length (ctq_departures self))%nat
     || (HUB_ACTUAL_REPORT_CAPACITY <? length (ctq_actual_departures self))%nat
     || (HUB_COUNT_CAPACITY <? length (ctq_count_losses self))%nat
  then Err CorrectionError.Capacity
  else
    let? _ := try_fold add_rows 0%nat (ctq_rows self) in
    Packs.positive (ctq_original self) ;;?
    let? lines := try_fold (count_line self)
      {| lst_lines := []; lst_departures := []; lst_revisions := []; lst_amendments := [];
         lst_departed := zero_packs; lst_actual := zero_packs |} (ctq_lines self) in
    if existsb (fun op => is_some (bt_get op (lst_departures lines))) (lst_amendments lines).*1
    then Err CorrectionError.Duplicate
    else
      let? losses := try_fold (count_loss self (lst_departures lines))
        {| lss_losses := []; lss_explanations := []; lss_count_operations := [];
           lss_revisions := lst_revisions lines; lss_amendments := lst_amendments lines;
           lss_unexplained := zero_packs; lss_actual := lst_actual lines |}
        (ctq_count_losses self) in
      if existsb (fun op => bs_contains op (lss_count_operations losses))
           (lss_explanations losses).*1
      then Err CorrectionError.Duplicate
      else
        let? total := Packs.add (ctq_on_hand self) (ctq_disposed self) in
        let? total := Packs.add total (lst_departed lines) in
        let? total := Packs.add total (lss_actual losses) in
        let? total := Packs.add total (lss_unexplained losses) in
        if total !=? ctq_original self then Err CorrectionError.Accounting
        else Ok {| tb_variant := ctq_variant self; tb_original := ctq_original self;
                   tb_on_hand := ctq_on_hand self; tb_departed := lst_departed lines;
                   tb_counted_loss := lss_unexplained losses;
                   tb_disposed := ctq_disposed self;
                   tb_actual_departed := lss_actual losses |}.

(** ** Sets and maps that hold a list of entries *)

Definition holds {K} `{EqDecision K} (s : list (K * unit)) (ks : list K) : Prop :=
  forall k, bs_contains k s = true <-> k ∈ ks.
Definition maps_to {K V} `{EqDecision K} (m : list (K * V)) (entries : list (K * V)) : Prop :=
  forall k v, bt_get k m = Some v <-> (k, v) ∈ entries.
Definition functional {K V} (entries : list (K * V)) : Prop :=
  forall k v v', (k, v) ∈ entries -> (k, v') ∈ entries -> v = v'.

Lemma functional_snoc {K V} (es : list (K * V)) k v :
  functional (es ++ [(k, v)]) <-> functional es /\ forall v', (k, v') ∈ es -> v' = v.
Proof.
  unfold functional. setoid_rewrite elem_of_app. setoid_rewrite list_elem_of_singleton. split.
  - intros Hf. split; [intros k' w w' ? ?; apply (Hf k'); by left|]. intros v' ?. apply (Hf k); [by left|by right].
  - intros [Hf Hv] k' w w' [H1|H1] [H2|H2]; simplify_eq; [by eapply Hf|by apply Hv|symmetry; by apply Hv|done].
Qed.

Lemma functional_app_l {K V} (es fs : list (K * V)) : functional (es ++ fs) -> functional es.
Proof. intros Hf k v v' H1 H2. apply (Hf k); apply elem_of_app; by left. Qed.

Section Sets.
Context {K V : Type} `{TotalOrd K, EqDecision K, EqDecision V}.

Lemma holds_insert (s : list (K * unit)) ks k :
  holds s ks ->
  ((bs_insert k s).1 = true <-> k ∉ ks) /\ holds (bs_insert k s).2 (ks ++ [k]).
Proof.
  intros Hs. split.
  - unfold bs_insert. simpl. rewrite <- (Hs k). unfold bs_contains. by destruct (bt_get k s).
  - intros k'. rewrite bs_contains_insert, orb_true_iff, bool_decide_eq_true, elem_of_app, list_elem_of_singleton.
    rewrite (Hs k'). naive_solver.
Qed.

Lemma holds_elem (s : list (K * unit)) ks k : holds s ks -> k ∈ s.*1 <-> k ∈ ks.
Proof.
  intros Hs. rewrite <- (Hs k). clear Hs. unfold bs_contains. induction s as [|[k' []] s IH]; simpl.
  - split; [by intros ?%not_elem_of_nil|done].
  - rewrite elem_of_cons, IH. case_bool_decide as E; simpl.
    + split; [done|]. intros _. left. congruence.
    + split; [by intros [?|?]|by right].
Qed.

Lemma maps_to_insert (m : list (K * V)) es k v :
  maps_to m es ->
  (conflicts m k v = false <-> forall v', (k, v') ∈ es -> v' = v) /\
  (conflicts m k v = false -> maps_to (bt_insert k v m) (es ++ [(k, v)])).
Proof.
  intros Hm. assert (conflicts m k v = false <-> forall v', (k, v') ∈ es -> v' = v) as Hc.
  { unfold conflicts. setoid_rewrite <- (Hm k). destruct (bt_get k m) as [p|]; simpl; [|naive_solver].
    rewrite negb_false_iff, bool_decide_eq_true. naive_solver. }
  split; [done|]. intros Hv k' v'. pose proof (proj1 Hc Hv) as Hv'. rewrite bt_get_insert, elem_of_app, list_elem_of_singleton.
  case_decide as E; [subst k'|].
  - split; [intros [= <-]; by right|]. intros [Hin|[= ->]]; [|done]. by rewrite (Hv' v' Hin).
  - rewrite (Hm k' v'). split; [by left|]. intros [?|[= -> ->]]; done.
Qed.

Lemma maps_to_some (m : list (K * V)) es k :
  maps_to m es -> is_some (bt_get k m) = true <-> k ∈ es.*1.
Proof.
  intros Hm. rewrite list_elem_of_fmap. split.
  - destruct (bt_get k m) as [v|] eqn:E; [|done]. intros _. exists (k, v). split; [done|]. by apply Hm.
  - intros ([k' v] & E & Hin). simpl in E. subst k'. by rewrite (proj2 (Hm k v) Hin).
Qed.
End Sets.

Lemma record_revision_run m es r o :
  maps_to m es -> functional es ->
  match record_revision_at m r o with
  | Ok m' => functional (es ++ [(raw r, o)]) /\ maps_to m' (es ++ [(raw r, o)])
  | Err _ => ~ functional (es ++ [(raw r, o)])
  end.
Proof.
  intros Hm Hf. unfold record_revision_at. destruct (maps_to_insert m es (raw r) o Hm) as [Hc Ht].
  destruct (conflicts m (raw r) o) eqn:E; rewrite functional_snoc.
  - intros [_ Hv]. apply Hc in Hv. congruence.
  - split; [split; [done|by apply Hc]|]. by apply Ht.
Qed.

(** A loop whose body accepts an entry exactly when a prefix-closed property of
    the entries seen survives it. *)
Lemma try_fold_prefix {A S E} (f : S -> A -> result S E) (R : S -> list A -> Prop)
    (P : list A -> Prop) st0 l :
  (forall l a, P (l ++ [a]) -> P l) ->
  (forall st seen a, R st seen -> P seen ->
    match f st a with Ok st' => P (seen ++ [a]) /\ R st' (seen ++ [a]) | Err _ => ~ P (seen ++ [a]) end) ->
  R st0 [] -> P [] ->
  match try_fold f st0 l with Ok st => P l /\ R st l | Err _ => ~ P l end.
Proof.
  intros Hp Hf H0 HP. induction l as [|a l IH] using rev_ind; [done|].
  rewrite try_fold_app. destruct (try_fold f st0 l) as [st|e]; cbn [bind].
  - destruct IH as [Hl HR]. specialize (Hf st l a HR Hl). simpl. by destruct (f st a).
  - intros Hla. by apply IH, (Hp l a).
Qed.

(** The inner loops: each entry records its revision and must be a new member
    of a set, outside a fixed collection. *)
Section Entries.
Context {A : Type} (rev : A -> HubRevision) (op : A -> HubRecordId) (outside : HubRecordId -> Prop).

Definition entry (a : A) : Z * HubRecordId := (raw (rev a), op a).

Lemma entries_run {E} (f : list (Z * HubRecordId) * list (HubRecordId * unit) -> A ->
      result (list (Z * HubRecordId) * list (HubRecordId * unit)) E) es ks revisions s l :
  (forall st a es ks, maps_to st.1 es -> functional es -> holds st.2 ks ->
    match f st a with
    | Ok st' => (functional (es ++ [entry a]) /\ op a ∉ ks /\ ~ outside (op a)) /\
        maps_to st'.1 (es ++ [entry a]) /\ holds st'.2 (ks ++ [op a])
    | Err _ => ~ (functional (es ++ [entry a]) /\ op a ∉ ks /\ ~ outside (op a))
    end) ->
  maps_to revisions es -> functional es -> holds s ks -> NoDup ks ->
  match try_fold f (revisions, s) l with
  | Ok st => (functional (es ++ (entry <$> l)) /\ NoDup (ks ++ (op <$> l)) /\
        Forall (fun a => ~ outside (op a)) l) /\
      maps_to st.1 (es ++ (entry <$> l)) /\ holds st.2 (ks ++ (op <$> l))
  | Err _ => ~ (functional (es ++ (entry <$> l)) /\ NoDup (ks ++ (op <$> l)) /\
        Forall (fun a => ~ outside (op a)) l)
  end.
Proof.
  intros Hf Hr Hfn Hs Hn.
  apply (try_fold_prefix f
    (fun st seen => maps_to st.1 (es ++ (entry <$> seen)) /\ holds st.2 (ks ++ (op <$> seen)))
    (fun seen => functional (es ++ (entry <$> seen)) /\ NoDup (ks ++ (op <$> seen)) /\
      Forall (fun a => ~ outside (op a)) seen)).
  - intros k a. rewrite !fmap_app, !app_assoc, list.Forall_app. intros (H1 & H2 & H3 & _).
    split_and!; [by eapply functional_app_l|by apply NoDup_snoc in H2 as [? _]|done].
  - intros st seen a [Ht Hh] (H1 & H2 & H3). specialize (Hf st a _ _ Ht H1 Hh).
    destruct (f st a) as [st'|]; rewrite !fmap_app, !app_assoc, list.Forall_app; simpl; rewrite NoDup_snoc.
    + destruct Hf as ((F1 & F2 & F3) & F4 & F5). split_and!; try done. by repeat constructor.
    + intros (G1 & [_ G2] & _ & G3). apply Hf. split_and!; try done. by inversion_clear G3.
  - simpl. by rewrite !app_nil_r.
  - simpl. rewrite !app_nil_r. split_and!; [done..|constructor].
Qed.
End Entries.

(** ** The departure lines *)

Abbreviation Line := (bool * DepartureQuantityAccount)%type.
Definition line_operation (x : Line) : HubRecordId := odq_operation (dac_original x.2).
Definition line_key (x : Line) : HubRecordId * HubRecordId :=
  (line_operation x, odq_group (dac_original x.2)).
Definition line_family (x : Line) : HubRecordId * (bool * HubRevision) :=
  (line_operation x, (x.1, odq_stock_revision (dac_original x.2))).
Definition line_entries (x : Line) : list (Z * HubRecordId) :=
  (raw (odq_stock_revision (dac_original x.2)), line_operation x)
    :: (entry dqa_stock_revision dqa_operation <$> dac_amendments x.2).
Definition line_amendments (l : list Line) : list HubRecordId :=
  l ≫= (fun x => dqa_operation <$> dac_amendments x.2).
Definition family_packs (family : bool) (x : Line) : Z :=
  if Bool.eqb x.1 family then raw (dac_effective x.2) else 0.

(** Lines of the trace that can be told apart. *)
Record lines_ok (c : CorrectedTraceQuantityContext) (l : list Line) : Prop := {
  li_scope : Forall (fun x => odq_trace (dac_original x.2) = ctq_trace c /\
    odq_variant (dac_original x.2) = ctq_variant c) l;
  li_keys : NoDup (line_key <$> l);
  li_families : functional (line_family <$> l);
  li_revisions : functional (l ≫= line_entries);
  li_amendments : NoDup (line_amendments l);
  li_bounds : forall family, sum_by (family_packs family) l <= HUB_MAX_WHOLE_PACKS
}.

Record line_state_of (st : LineState) (l : list Line) : Prop := {
  lx_lines : holds (lst_lines st) (line_key <$> l);
  lx_departures : maps_to (lst_departures st) (line_family <$> l);
  lx_revisions : maps_to (lst_revisions st) (l ≫= line_entries);
  lx_amendments : holds (lst_amendments st) (line_amendments l);
  lx_departed : raw (lst_departed st) = sum_by (family_packs false) l;
  lx_actual : raw (lst_actual st) = sum_by (family_packs true) l
}.

Lemma family_packs_nonneg family x : 0 <= family_packs family x.
Proof. unfold family_packs. case_match; [|lia]. pose proof (WholePacks_range (dac_effective x.2)). lia. Qed.

Lemma bind_snoc {A B} (f : A -> list B) l a : (l ++ [a]) ≫= f = (l ≫= f) ++ f a.
Proof. rewrite bind_app. csimpl. by rewrite app_nil_r. Qed.

(** A line that can be told apart from those before it. *)
Record line_fits (c : CorrectedTraceQuantityContext) (l : list Line) (x : Line) : Prop := {
  lf_scope : odq_trace (dac_original x.2) = ctq_trace c /\
    odq_variant (dac_original x.2) = ctq_variant c;
  lf_key : line_key x ∉ line_key <$> l;
  lf_family : functional ((line_family <$> l) ++ [line_family x]);
  lf_revisions : functional ((l ≫= line_entries) ++ line_entries x);
  lf_amendments : NoDup (line_amendments l ++ (dqa_operation <$> dac_amendments x.2));
  lf_bound : sum_by (family_packs x.1) l + raw (dac_effective x.2) <= HUB_MAX_WHOLE_PACKS
}.

Lemma family_packs_own x : family_packs x.1 x = raw (dac_effective x.2).
Proof. unfold family_packs. by rewrite eqb_reflx. Qed.
Lemma family_packs_other family x : x.1 <> family -> family_packs family x = 0.
Proof. unfold family_packs. intros ?%eqb_false_iff. by case_match. Qed.

Lemma lines_ok_snoc c l x : lines_ok c (l ++ [x]) <-> lines_ok c l /\ line_fits c l x.
Proof.
  split.
  - intros [H1 H2 H3 H4 H5 H6]. unfold line_amendments in H5. rewrite bind_snoc in H4. rewrite bind_snoc in H5.
    rewrite fmap_app in H2. rewrite fmap_app in H3. apply list.Forall_app in H1 as [H1 H1']. apply NoDup_snoc in H2 as [H2 H2'].
    split; constructor; try done; try (by eapply functional_app_l).
    + by apply list.NoDup_app in H5 as (? & _ & _).
    + intros family. specialize (H6 family). rewrite sum_by_app in H6. simpl in H6.
      pose proof (family_packs_nonneg family x). lia.
    + by inversion_clear H1'.
    + specialize (H6 x.1). rewrite sum_by_app in H6. simpl in H6. rewrite family_packs_own in H6. lia.
  - intros [[H1 H2 H3 H4 H5 H6] [F1 F2 F3 F4 F5 F6]]. constructor; unfold line_amendments;
      rewrite ?fmap_app, ?bind_snoc; try done.
    + apply list.Forall_app. split; [done|]. by constructor; [|constructor].
    + by apply NoDup_snoc.
    + intros family. rewrite sum_by_app. simpl. specialize (H6 family).
      destruct (decide (x.1 = family)) as [<-|Hne]; [rewrite family_packs_own|rewrite family_packs_other by done]; lia.
Qed.

Lemma count_line_amendment_run (st : list (Z * HubRecordId) * list (HubRecordId * unit))
    (change : DepartureQuantityAmendment) es ks :
  maps_to st.1 es -> functional es -> holds st.2 ks ->
  match count_line_amendment st change with
  | Ok st' => (functional (es ++ [entry dqa_stock_revision dqa_operation change]) /\
        dqa_operation change ∉ ks /\ ~ False) /\
      maps_to st'.1 (es ++ [entry dqa_stock_revision dqa_operation change]) /\
      holds st'.2 (ks ++ [dqa_operation change])
  | Err _ => ~ (functional (es ++ [entry dqa_stock_revision dqa_operation change]) /\
        dqa_operation change ∉ ks /\ ~ False)
  end.
Proof.
  intros Ht Hf Hh. unfold count_line_amendment.
  pose proof (record_revision_run st.1 es (dqa_stock_revision change) (dqa_operation change) Ht Hf) as Hr.
  destruct (record_revision_at _ _ _) as [m|]; cbn [bind]; [|by intros [? _]].
  destruct Hr as [Hr1 Hr2]. destruct (holds_insert st.2 ks (dqa_operation change) Hh) as [Hi1 Hi2].
  destruct (bs_insert _ st.2) as [[|] s]; simpl in *.
  - split_and!; try done; [by apply Hi1|tauto].
  - intros (_ & Hn%Hi1 & _). done.
Qed.

Lemma count_line_run c st l x :
  line_state_of st l -> lines_ok c l ->
  match count_line c st x with
  | Ok st' => line_fits c l x /\ line_state_of st' (l ++ [x])
  | Err _ => ~ line_fits c l x
  end.
Proof.
  intros [S1 S2 S3 S4 S5 S6] [L1 L2 L3 L4 L5 L6]. unfold count_line. destruct x as [family account].
  set (x := (family, account)). set (o := dac_original account).
  split_guard Hg; rewrite ?orb_true_iff in Hg; breflect.
  { intros [[F1 F2] _ _ _ _ _]. by destruct Hg. }
  destruct (holds_insert _ _ (line_key x) S1) as [K1 K2]. change (odq_operation o, odq_group o) with (line_key x).
  destruct (bs_insert (line_key x) (lst_lines st)) as [[|] lines]; simpl in K1, K2; cbn [negb].
  2:{ intros [_ F%K1 _ _ _ _]. done. }
  destruct (maps_to_insert (lst_departures st) (line_family <$> l) (odq_operation o)
    (family, odq_stock_revision o) S2) as [D1 D2].
  destruct (conflicts _ _ _).
  { intros [_ _ [_ F]%functional_snoc _ _ _]. apply D1 in F. done. }
  specialize (D2 eq_refl).
  pose proof (record_revision_run _ _ (odq_stock_revision o) (odq_operation o) S3 L4) as Hr.
  assert ((l ≫= line_entries) ++ line_entries x = ((l ≫= line_entries) ++ [(raw (odq_stock_revision o),
    odq_operation o)]) ++ (entry dqa_stock_revision dqa_operation <$> dac_amendments account)) as Hent
    by by rewrite <- app_assoc.
  destruct (record_revision_at _ _ _) as [m|]; cbn [bind].
  2:{ intros [_ _ _ F _ _]. apply Hr. rewrite Hent in F. by eapply functional_app_l. }
  destruct Hr as [Hr1 Hr2].
  pose proof (entries_run dqa_stock_revision dqa_operation (fun _ => False) count_line_amendment _ _ m
    (lst_amendments st) (dac_amendments account) count_line_amendment_run Hr2 Hr1 S4 L5) as He.
  rewrite <- Hent in He. destruct (try_fold count_line_amendment _ _) as [[revisions amendments]|]; cbn [bind].
  2:{ intros [_ _ _ F1 F2 _]. apply He. split_and!; [done|done|apply list.Forall_forall; tauto]. }
  destruct He as ((E1 & E2 & _) & E3 & E4). simpl in E3, E4.
  pose proof (WholePacks_range (dac_effective account)).
  set (now := if family then lst_actual st else lst_departed st). pose proof (WholePacks_range now).
  assert (raw now = sum_by (family_packs family) l) as Hs by by destruct family.
  destruct (Packs.add now (dac_effective account)) as [total|] eqn:Ea; cbn [bind].
  2:{ intros [_ _ _ _ _ F]. simpl in F. destruct (packs_of_Z (raw now + raw (dac_effective account)))
        as [q Hq%packs_add_Ok]; [lia|congruence]. }
  apply packs_add_Ok in Ea. pose proof (WholePacks_range total). split.
  - constructor; try done; [by apply K1| |simpl; lia]. apply functional_snoc. split; [done|]. by apply D1.
  - constructor; unfold line_amendments; cbn; rewrite ?fmap_app, ?bind_snoc, ?sum_by_app; try done;
      simpl; unfold family_packs at 2; simpl; destruct family; simpl; lia.
Qed.

(** ** The shortages *)

Definition loss_operation (a : CountLossQuantityAccount) : HubRecordId := ocl_operation (cla_original a).
Definition loss_reconciliation (a : CountLossQuantityAccount) : HubRecordId :=
  ocl_reconciliation (cla_original a).
Definition loss_entries (a : CountLossQuantityAccount) : list (Z * HubRecordId) :=
  (raw (ocl_stock_revision (cla_original a)), loss_operation a)
    :: (entry cle_stock_revision cle_operation <$> cla_explanations a)
    ++ (entry cea_stock_revision cea_operation <$> cla_amendments a).
Definition loss_explanations (l : list CountLossQuantityAccount) : list HubRecordId :=
  l ≫= (fun a => cle_operation <$> cla_explanations a).
Definition loss_amendments (l : list CountLossQuantityAccount) : list HubRecordId :=
  l ≫= (fun a => cea_operation <$> cla_amendments a).

Section Losses.
Context (c : CorrectedTraceQuantityContext) (departed amendments0 : list HubRecordId)
  (entries0 : list (Z * HubRecordId)) (actual0 : Z).

(** Shortages of the trace that can be told apart, also from the lines. *)
Record losses_ok (l : list CountLossQuantityAccount) : Prop := {
  ko_scope : Forall (fun a => ocl_trace (cla_original a) = ctq_trace c /\
    ocl_variant (cla_original a) = ctq_variant c) l;
  ko_reconciliations : NoDup (loss_reconciliation <$> l);
  ko_counts : NoDup (loss_operation <$> l);
  ko_revisions : functional (entries0 ++ (l ≫= loss_entries));
  ko_explanations : NoDup (loss_explanations l);
  ko_amendments : NoDup (amendments0 ++ loss_amendments l);
  ko_departed : forall id, id ∈ departed ->
    id ∉ loss_operation <$> l /\ id ∉ loss_explanations l /\ id ∉ loss_amendments l;
  ko_apart : forall id, id ∈ amendments0 ++ loss_amendments l ->
    id ∉ loss_operation <$> l /\ id ∉ loss_explanations l;
  ko_bounds : sum_by (fun a => raw (cla_unexplained a)) l <= HUB_MAX_WHOLE_PACKS /\
    actual0 + sum_by (fun a => raw (cla_explained a)) l <= HUB_MAX_WHOLE_PACKS
}.

(** A shortage that can be told apart from those before it. *)
Record loss_fits (l : list CountLossQuantityAccount) (a : CountLossQuantityAccount) : Prop := {
  kf_scope : ocl_trace (cla_original a) = ctq_trace c /\ ocl_variant (cla_original a) = ctq_variant c;
  kf_reconciliation : loss_reconciliation a ∉ loss_reconciliation <$> l;
  kf_count : loss_operation a ∉ loss_operation <$> l /\ loss_operation a ∉ departed /\
    loss_operation a ∉ amendments0 ++ loss_amendments l;
  kf_revisions : functional ((entries0 ++ (l ≫= loss_entries)) ++ loss_entries a);
  kf_explanations : NoDup (loss_explanations l ++ (cle_operation <$> cla_explanations a)) /\
    Forall (fun e => ~ (cle_operation e ∈ amendments0 ++ loss_amendments l \/ cle_operation e ∈ departed))
      (cla_explanations a);
  kf_amendments : NoDup ((amendments0 ++ loss_amendments l) ++ (cea_operation <$> cla_amendments a)) /\
    Forall (fun m => ~ (cea_operation m ∈ loss_explanations l ++ (cle_operation <$> cla_explanations a) \/
      cea_operation m ∈ (loss_operation <$> l) ++ [loss_operation a] \/ cea_operation m ∈ departed))
      (cla_amendments a);
  kf_bounds : sum_by (fun a => raw (cla_unexplained a)) l + raw (cla_unexplained a) <= HUB_MAX_WHOLE_PACKS /\
    actual0 + sum_by (fun a => raw (cla_explained a)) l + raw (cla_explained a) <= HUB_MAX_WHOLE_PACKS
}.

Lemma loss_explanations_snoc l a :
  loss_explanations (l ++ [a]) = loss_explanations l ++ (cle_operation <$> cla_explanations a).
Proof. unfold loss_explanations. by rewrite bind_snoc. Qed.
Lemma loss_amendments_snoc l a :
  loss_amendments (l ++ [a]) = loss_amendments l ++ (cea_operation <$> cla_amendments a).
Proof. unfold loss_amendments. by rewrite bind_snoc. Qed.

Lemma losses_ok_prefix l a : losses_ok (l ++ [a]) -> losses_ok l.
Proof.
  intros [H1 H2 H3 H4 H5 H6 H7 H8 H9].
  rewrite loss_explanations_snoc in H5. rewrite loss_amendments_snoc, app_assoc in H6.
  rewrite fmap_app in H2. rewrite fmap_app in H3. rewrite bind_snoc, app_assoc in H4. constructor.
  - by apply list.Forall_app in H1 as [? _].
  - by apply NoDup_snoc in H2 as [? _].
  - by apply NoDup_snoc in H3 as [? _].
  - by eapply functional_app_l.
  - by apply list.NoDup_app in H5 as (? & _).
  - by apply list.NoDup_app in H6 as (? & _).
  - intros id Hid. destruct (H7 id Hid) as (G1 & G2 & G3). rewrite fmap_app, elem_of_app in G1.
    rewrite loss_explanations_snoc, elem_of_app in G2. rewrite loss_amendments_snoc, elem_of_app in G3. tauto.
  - intros id Hid. destruct (H8 id) as (G1 & G2).
    { rewrite loss_amendments_snoc, app_assoc. apply elem_of_app. by left. }
    rewrite fmap_app, elem_of_app in G1. rewrite loss_explanations_snoc, elem_of_app in G2. tauto.
  - rewrite !sum_by_app in H9. simpl in H9. pose proof (WholePacks_range (cla_unexplained a)).
    pose proof (WholePacks_range (cla_explained a)). lia.
Qed.

Lemma losses_ok_fits l a : losses_ok (l ++ [a]) -> loss_fits l a.
Proof.
  intros [H1 H2 H3 H4 H5 H6 H7 H8 H9]. setoid_rewrite loss_explanations_snoc in H7.
  setoid_rewrite loss_amendments_snoc in H7. setoid_rewrite loss_explanations_snoc in H8.
  setoid_rewrite loss_amendments_snoc in H8. setoid_rewrite app_assoc in H8. setoid_rewrite fmap_app in H7.
  setoid_rewrite fmap_app in H8. setoid_rewrite elem_of_app in H7. setoid_rewrite elem_of_app in H8.
  rewrite loss_explanations_snoc in H5. rewrite loss_amendments_snoc, app_assoc in H6.
  rewrite fmap_app in H2. rewrite fmap_app in H3. rewrite bind_snoc, app_assoc in H4. constructor.
  - apply list.Forall_app in H1 as [_ F]. by inversion_clear F.
  - by apply NoDup_snoc in H2 as [_ ?].
  - split_and!; [by apply NoDup_snoc in H3 as [_ ?]| |].
    + intros (G & _)%H7. apply G. right. by left.
    + intros G. destruct (H8 (loss_operation a)) as [G' _]; [by left|]. apply G'. right. by left.
  - done.
  - split; [done|]. apply list.Forall_forall. intros e He%(list_elem_of_fmap_2 cle_operation) [G|G].
    + destruct (H8 (cle_operation e)) as [_ G']; [by left|]. tauto.
    + apply H7 in G. tauto.
  - split; [done|]. apply list.Forall_forall. intros m Hm%(list_elem_of_fmap_2 cea_operation).
    rewrite !elem_of_app. destruct (H8 (cea_operation m)) as [G1 G2]; [by right|].
    intros [G|[G|G]]; [tauto|tauto|]. apply H7 in G. tauto.
  - rewrite !sum_by_app in H9. simpl in H9. lia.
Qed.

Lemma losses_ok_snoc l a : losses_ok (l ++ [a]) <-> losses_ok l /\ loss_fits l a.
Proof.
  split; [intros Hl; split; [by eapply losses_ok_prefix|by apply losses_ok_fits]|].
  intros [[H1 H2 H3 H4 H5 H6 H7 H8 H9] [F1 F2 (F3 & F3' & F3'') F4 [F5 F5'] [F6 F6'] F7]].
  rewrite list.Forall_forall in F5'. rewrite list.Forall_forall in F6'.
  assert (forall id, id ∈ cle_operation <$> cla_explanations a ->
    ~ (id ∈ amendments0 ++ loss_amendments l \/ id ∈ departed)) as Ge.
  { intros id (e & -> & He)%list_elem_of_fmap. by apply F5'. }
  assert (forall id, id ∈ cea_operation <$> cla_amendments a ->
    ~ (id ∈ loss_explanations l ++ (cle_operation <$> cla_explanations a) \/
      id ∈ (loss_operation <$> l) ++ [loss_operation a] \/ id ∈ departed)) as Gm.
  { intros id (m & -> & Hm)%list_elem_of_fmap. by apply F6'. }
  clear F5' F6'. setoid_rewrite elem_of_app in Gm. setoid_rewrite list_elem_of_singleton in Gm.
  constructor; rewrite ?loss_explanations_snoc, ?loss_amendments_snoc, ?fmap_app, ?bind_snoc, ?app_assoc; try done.
  - apply list.Forall_app. split; [done|]. by constructor; [|constructor].
  - by apply NoDup_snoc.
  - by apply NoDup_snoc.
  - intros id Hid. specialize (H7 id Hid). specialize (Ge id). specialize (Gm id).
    csimpl.
    rewrite !elem_of_app, list_elem_of_singleton. split_and!; [|tauto|tauto].
    intros [G| ->]; tauto.
  - intros id Hid. rewrite elem_of_app in Hid. specialize (H8 id). specialize (Ge id). specialize (Gm id).
    csimpl. rewrite !elem_of_app, list_elem_of_singleton. split; [|tauto]. intros [G| ->]; tauto.
  - rewrite !sum_by_app. simpl. lia.
Qed.
End Losses.

Section LossLoop.
Context (departures : list (HubRecordId * (bool * HubRevision)))
  (families : list (HubRecordId * (bool * HubRevision))) (Hdep : maps_to departures families).

(** The shared shape of the two inner bodies. *)
Lemma new_entry_run {A} (rev : A -> HubRevision) (op : A -> HubRecordId) (a : A) (blocked : bool)
    (outside : Prop) (st : list (Z * HubRecordId) * list (HubRecordId * unit)) es ks :
  (blocked = true <-> outside) -> maps_to st.1 es -> functional es -> holds st.2 ks ->
  match (let? revisions := record_revision_at st.1 (rev a) (op a) in
         let (fresh, s) := bs_insert (op a) st.2 in
         if negb fresh || blocked then Err CorrectionError.Duplicate else Ok (revisions, s)) with
  | Ok st' => (functional (es ++ [entry rev op a]) /\ op a ∉ ks /\ ~ outside) /\
      maps_to st'.1 (es ++ [entry rev op a]) /\ holds st'.2 (ks ++ [op a])
  | Err _ => ~ (functional (es ++ [entry rev op a]) /\ op a ∉ ks /\ ~ outside)
  end.
Proof.
  intros Hb Ht Hf Hh. pose proof (record_revision_run st.1 es (rev a) (op a) Ht Hf) as Hr.
  destruct (record_revision_at _ _ _) as [m|]; cbn [bind]; [|by intros [? _]].
  destruct Hr as [Hr1 Hr2]. destruct (holds_insert st.2 ks (op a) Hh) as [Hi1 Hi2].
  destruct (bs_insert _ st.2) as [[|] s]; simpl in *.
  - destruct blocked; [intros (_ & _ & Ho); by apply Ho, Hb|]. split_and!; try done; [by apply Hi1|].
    intros Ho%Hb. done.
  - intros (_ & Hn%Hi1 & _). done.
Qed.

Lemma count_explanation_run amendments am st item es ks :
  holds amendments am -> maps_to st.1 es -> functional es -> holds st.2 ks ->
  match count_explanation departures amendments st item with
  | Ok st' => (functional (es ++ [entry cle_stock_revision cle_operation item]) /\
        cle_operation item ∉ ks /\ ~ (cle_operation item ∈ am \/ cle_operation item ∈ families.*1)) /\
      maps_to st'.1 (es ++ [entry cle_stock_revision cle_operation item]) /\
      holds st'.2 (ks ++ [cle_operation item])
  | Err _ => ~ (functional (es ++ [entry cle_stock_revision cle_operation item]) /\
        cle_operation item ∉ ks /\ ~ (cle_operation item ∈ am \/ cle_operation item ∈ families.*1))
  end.
Proof.
  intros Ha Ht Hf Hh.
  assert (bs_contains (cle_operation item) amendments || is_some (bt_get (cle_operation item) departures) = true
    <-> cle_operation item ∈ am \/ cle_operation item ∈ families.*1) as Hb
    by by rewrite orb_true_iff, (Ha _), (maps_to_some _ _ _ Hdep).
  pose proof (new_entry_run cle_stock_revision cle_operation item _ _ st es ks Hb Ht Hf Hh) as Hn.
  unfold count_explanation. destruct (record_revision_at _ _ _); cbn [bind] in *; [|done].
  destruct (bs_insert _ _). by rewrite orb_assoc in Hn.
Qed.

Lemma count_loss_amendment_run explanations ex count_operations cs st item es ks :
  holds explanations ex -> holds count_operations cs ->
  maps_to st.1 es -> functional es -> holds st.2 ks ->
  match count_loss_amendment departures explanations count_operations st item with
  | Ok st' => (functional (es ++ [entry cea_stock_revision cea_operation item]) /\
        cea_operation item ∉ ks /\ ~ (cea_operation item ∈ ex \/ cea_operation item ∈ cs \/
          cea_operation item ∈ families.*1)) /\
      maps_to st'.1 (es ++ [entry cea_stock_revision cea_operation item]) /\
      holds st'.2 (ks ++ [cea_operation item])
  | Err _ => ~ (functional (es ++ [entry cea_stock_revision cea_operation item]) /\
        cea_operation item ∉ ks /\ ~ (cea_operation item ∈ ex \/ cea_operation item ∈ cs \/
          cea_operation item ∈ families.*1))
  end.
Proof.
  intros He Hc Ht Hf Hh.
  assert (bs_contains (cea_operation item) explanations || (bs_contains (cea_operation item) count_operations
    || is_some (bt_get (cea_operation item) departures)) = true
    <-> cea_operation item ∈ ex \/ cea_operation item ∈ cs \/ cea_operation item ∈ families.*1) as Hb
    by by rewrite !orb_true_iff, (He _), (Hc _), (maps_to_some _ _ _ Hdep).
  pose proof (new_entry_run cea_stock_revision cea_operation item _ _ st es ks Hb Ht Hf Hh) as Hn.
  unfold count_loss_amendment. destruct (record_revision_at _ _ _); cbn [bind] in *; [|done].
  destruct (bs_insert _ _). by rewrite !orb_assoc in Hn.
Qed.

Record loss_state_of (amendments0 : list HubRecordId) (entries0 : list (Z * HubRecordId)) (actual0 : Z)
    (st : LossState) (l : list CountLossQuantityAccount) : Prop := {
  ks_losses : holds (lss_losses st) (loss_reconciliation <$> l);
  ks_explanations : holds (lss_explanations st) (loss_explanations l);
  ks_counts : holds (lss_count_operations st) (loss_operation <$> l);
  ks_revisions : maps_to (lss_revisions st) (entries0 ++ (l ≫= loss_entries));
  ks_amendments : holds (lss_amendments st) (amendments0 ++ loss_amendments l);
  ks_unexplained : raw (lss_unexplained st) = sum_by (fun a => raw (cla_unexplained a)) l;
  ks_actual : raw (lss_actual st) = actual0 + sum_by (fun a => raw (cla_explained a)) l
}.

(** The part of the body that records one shortage's own history. *)
Lemma loss_histories_run amendments am explanations ex count_operations cs revisions es a :
  holds amendments am -> holds explanations ex -> holds count_operations cs ->
  maps_to revisions es -> functional es -> NoDup am -> NoDup ex ->
  let es' := es ++ (entry cle_stock_revision cle_operation <$> cla_explanations a) in
  let es'' := es' ++ (entry cea_stock_revision cea_operation <$> cla_amendments a) in
  let ex' := ex ++ (cle_operation <$> cla_explanations a) in
  let am' := am ++ (cea_operation <$> cla_amendments a) in
  let ok := functional es'' /\
    (NoDup ex' /\ Forall (fun e => ~ (cle_operation e ∈ am \/ cle_operation e ∈ families.*1)) (cla_explanations a)) /\
    (NoDup am' /\ Forall (fun m => ~ (cea_operation m ∈ ex' \/ cea_operation m ∈ cs \/
      cea_operation m ∈ families.*1)) (cla_amendments a)) in
  match (let? (revisions, explanations) := try_fold (count_explanation departures amendments)
           (revisions, explanations) (cla_explanations a) in
         let? (revisions, amendments) := try_fold
           (count_loss_amendment departures explanations count_operations)
           (revisions, amendments) (cla_amendments a) in
         Ok (revisions, explanations, amendments)) with
  | Ok (revisions, explanations, amendments) =>
      ok /\ maps_to revisions es'' /\ holds explanations ex' /\ holds amendments am'
  | Err _ => ~ ok
  end.
Proof.
  intros Ha He Hc Ht Hf Na Ne es' es'' ex' am' ok.
  pose proof (entries_run cle_stock_revision cle_operation
    (fun id => id ∈ am \/ id ∈ families.*1) (count_explanation departures amendments) es ex revisions explanations
    (cla_explanations a) (fun st i es ks => count_explanation_run amendments am st i es ks Ha) Ht Hf He Ne) as H1.
  destruct (try_fold (count_explanation _ _) _ _) as [[rev1 ex1]|]; cbn [bind].
  2:{ intros (F & [F1 F2] & _). apply H1. split_and!; [by eapply functional_app_l|done|done]. }
  destruct H1 as ((E1 & E2 & E3) & E4 & E5). simpl in E4, E5.
  pose proof (entries_run cea_stock_revision cea_operation
    (fun id => id ∈ ex' \/ id ∈ cs \/ id ∈ families.*1) (count_loss_amendment departures ex1 count_operations)
    es' am rev1 amendments (cla_amendments a)
    (fun st i es ks => count_loss_amendment_run ex1 ex' count_operations cs st i es ks E5 Hc) E4 E1 Ha Na) as H2.
  destruct (try_fold (count_loss_amendment _ _ _) _ _) as [[rev2 am2]|]; cbn [bind].
  - destruct H2 as ((G1 & G2 & G3) & G4 & G5). done.
  - intros (F & _ & [F1 F2]). apply H2. done.
Qed.
End LossLoop.

Lemma count_loss_settled c departures families am0 es0 t0 st l a :
  maps_to departures families ->
  loss_state_of am0 es0 t0 st l -> losses_ok c families.*1 am0 es0 t0 l ->
  match count_loss c departures st a with
  | Ok st' => loss_fits c families.*1 am0 es0 t0 l a /\ loss_state_of am0 es0 t0 st' (l ++ [a])
  | Err _ => ~ loss_fits c families.*1 am0 es0 t0 l a
  end.
Proof.
  intros Hdep [S1 S2 S3 S4 S5 S6 S7] [L1 L2 L3 L4 L5 L6 _ _ _]. unfold count_loss.
  set (o := cla_original a). split_guard Hg; rewrite ?orb_true_iff in Hg; breflect.
  { intros [[F1 F2] _ _ _ _ _ _]. by destruct Hg. }
  destruct (holds_insert _ _ (ocl_reconciliation o) S1) as [K1 K2].
  destruct (bs_insert _ (lss_losses st)) as [[|] losses]; simpl in K1, K2; cbn [negb].
  2:{ intros [_ F%K1 _ _ _ _ _]. done. }
  destruct (holds_insert _ _ (ocl_operation o) S3) as [C1 C2].
  destruct (bs_insert _ (lss_count_operations st)) as [fresh counts]; simpl in C1, C2.
  split_guard Hb; rewrite ?orb_true_iff in Hb.
  { rewrite (maps_to_some _ _ _ Hdep), (S5 (ocl_operation o)), negb_true_iff, <- not_true_iff_false, C1 in Hb.
    intros [_ _ (F1 & F2 & F3) _ _ _ _]. tauto. }
  rewrite !orb_false_iff, negb_false_iff, C1, <- !not_true_iff_false in Hb.
  rewrite (maps_to_some _ _ _ Hdep), (S5 (ocl_operation o)) in Hb. destruct Hb as [[B1 B2] B3].
  pose proof (record_revision_run _ _ (ocl_stock_revision o) (ocl_operation o) S4 L4) as Hr.
  set (first := (raw (ocl_stock_revision o), ocl_operation o)) in *.
  assert ((es0 ++ (l ≫= loss_entries)) ++ loss_entries a = (((es0 ++ (l ≫= loss_entries)) ++ [first]) ++
    (entry cle_stock_revision cle_operation <$> cla_explanations a)) ++
    (entry cea_stock_revision cea_operation <$> cla_amendments a)) as Hent by by rewrite <- !app_assoc.
  destruct (record_revision_at _ _ _) as [m|]; cbn [bind].
  2:{ intros [_ _ _ F _ _ _]. apply Hr. rewrite Hent in F. by do 2 eapply functional_app_l. }
  destruct Hr as [Hr1 Hr2].
  pose proof (loss_histories_run departures families Hdep _ _ _ _ _ _ _ _ a S5 S2 C2 Hr2 Hr1 L6 L5) as Hh.
  cbv zeta in Hh. rewrite <- Hent in Hh.
  destruct (try_fold (count_explanation _ _) _ _) as [[rev1 ex1]|]; cbn [bind] in *.
  2:{ intros [_ _ _ F1 F2 F3 _]. by apply Hh. }
  destruct (try_fold (count_loss_amendment _ _ _) _ _) as [[rev2 am2]|]; cbn [bind] in *.
  2:{ intros [_ _ _ F1 F2 F3 _]. by apply Hh. }
  destruct Hh as ((G1 & G2 & G3) & G4 & G5 & G6).
  pose proof (WholePacks_range (lss_unexplained st)). pose proof (WholePacks_range (lss_actual st)).
  pose proof (WholePacks_range (cla_unexplained a)). pose proof (WholePacks_range (cla_explained a)).
  destruct (Packs.add (lss_unexplained st) _) as [u|] eqn:Eu; cbn [bind].
  2:{ intros [_ _ _ _ _ _ [F _]]. destruct (packs_of_Z (raw (lss_unexplained st) + raw (cla_unexplained a)))
        as [q Hq%packs_add_Ok]; [lia|congruence]. }
  destruct (Packs.add (lss_actual st) _) as [t|] eqn:Et; cbn [bind].
  2:{ intros [_ _ _ _ _ _ [_ F]]. destruct (packs_of_Z (raw (lss_actual st) + raw (cla_explained a)))
        as [q Hq%packs_add_Ok]; [lia|congruence]. }
  apply packs_add_Ok in Eu, Et. pose proof (WholePacks_range u). pose proof (WholePacks_range t). split.
  - constructor; try done; [by apply K1|lia].
  - constructor; cbn; rewrite ?loss_explanations_snoc, ?loss_amendments_snoc, ?fmap_app, ?bind_snoc,
      ?sum_by_app, ?app_assoc; try done; simpl; lia.
Qed.

(** ** The balance *)

Lemma add_rows_run l start :
  (start <= HUB_CORRECTION_ROWS)%nat ->
  match try_fold add_rows start l with
  | Ok n => n = (start + sum_list l)%nat /\ (n <= HUB_CORRECTION_ROWS)%nat
  | Err _ => ~ (start + sum_list l <= HUB_CORRECTION_ROWS)%nat
  end.
Proof.
  revert start. induction l as [|x l IH]; intros start Hs; cbn [try_fold sum_list].
  { unfold sum_list. simpl. lia. }
  unfold add_rows at 1. cbv zeta. destruct (Nat.ltb_spec HUB_CORRECTION_ROWS (start + x)); cbn [bind].
  - simpl. lia.
  - specialize (IH (start + x)%nat). destruct (try_fold add_rows (start + x)%nat l); simpl; lia.
Qed.

(** When the corrected quantities of a trace add up. *)
Record trace_balances (c : CorrectedTraceQuantityContext) : Prop := {
  tr_capacity : (length (ctq_departures c) <= HUB_LINEAGE_GROUPS)%nat /\
    (length (ctq_actual_departures c) <= HUB_ACTUAL_REPORT_CAPACITY)%nat /\
    (length (ctq_count_losses c) <= HUB_COUNT_CAPACITY)%nat;
  tr_rows : (sum_list (ctq_rows c) <= HUB_CORRECTION_ROWS)%nat;
  tr_original : 0 < raw (ctq_original c);
  tr_scope : Forall (fun x => odq_trace (dac_original x.2) = ctq_trace c /\
      odq_variant (dac_original x.2) = ctq_variant c) (ctq_lines c) /\
    Forall (fun a => ocl_trace (cla_original a) = ctq_trace c /\
      ocl_variant (cla_original a) = ctq_variant c) (ctq_count_losses c);
  tr_lines : NoDup (line_key <$> ctq_lines c) /\ functional (line_family <$> ctq_lines c);
  tr_losses : NoDup (loss_reconciliation <$> ctq_count_losses c) /\
    NoDup (loss_operation <$> ctq_count_losses c);
  tr_revisions : functional ((ctq_lines c ≫= line_entries) ++ (ctq_count_losses c ≫= loss_entries));
  tr_corrections : NoDup (line_amendments (ctq_lines c) ++ loss_amendments (ctq_count_losses c)) /\
    NoDup (loss_explanations (ctq_count_losses c));
  tr_departed : forall id, id ∈ line_operation <$> ctq_lines c ->
    id ∉ loss_operation <$> ctq_count_losses c /\ id ∉ loss_explanations (ctq_count_losses c) /\
    id ∉ line_amendments (ctq_lines c) ++ loss_amendments (ctq_count_losses c);
  tr_amended : forall id, id ∈ line_amendments (ctq_lines c) ++ loss_amendments (ctq_count_losses c) ->
    id ∉ loss_operation <$> ctq_count_losses c /\ id ∉ loss_explanations (ctq_count_losses c);
  tr_explained : forall id, id ∈ loss_explanations (ctq_count_losses c) ->
    id ∉ loss_operation <$> ctq_count_losses c;
  tr_total : raw (ctq_on_hand c) + raw (ctq_disposed c)
    + sum_by (fun a => raw (dac_effective a)) (ctq_departures c ++ ctq_actual_departures c)
    + sum_by (fun a => raw (cla_explained a) + raw (cla_unexplained a)) (ctq_count_losses c)
    = raw (ctq_original c)
}.

Abbreviation total_effective l := (sum_by (fun a => raw (dac_effective a)) l).
Abbreviation total_lost l := (sum_by (fun a => raw (cla_explained a)) l).
Abbreviation total_unexplained l := (sum_by (fun a => raw (cla_unexplained a)) l).

Lemma sum_by_fmap {A B} (f : A -> B) (g : B -> Z) l : sum_by g (f <$> l) = sum_by (fun a => g (f a)) l.
Proof. induction l; csimpl; lia. Qed.
Lemma sum_by_add {A} (f g : A -> Z) l : sum_by (fun a => f a + g a) l = sum_by f l + sum_by g l.
Proof. induction l; simpl; lia. Qed.
Lemma sum_by_zero {A} (f : A -> Z) l : (forall a, f a = 0) -> sum_by f l = 0.
Proof. intros Hf. induction l as [|a l IH]; simpl; [done|]. rewrite Hf, IH. done. Qed.
Lemma total_nonneg {A} (f : A -> WholePacks) l : 0 <= sum_by (fun a => raw (f a)) l.
Proof. apply sum_by_nonneg. intros a. pose proof (WholePacks_range (f a)). lia. Qed.

Lemma ctq_lines_departed c : sum_by (family_packs false) (ctq_lines c) = total_effective (ctq_departures c).
Proof.
  unfold ctq_lines. rewrite sum_by_app, !sum_by_fmap, (sum_by_zero _ (ctq_actual_departures c)) by done.
  unfold family_packs. simpl. lia.
Qed.
Lemma ctq_lines_actual c : sum_by (family_packs true) (ctq_lines c) = total_effective (ctq_actual_departures c).
Proof.
  unfold ctq_lines. rewrite sum_by_app, !sum_by_fmap, (sum_by_zero _ (ctq_departures c)) by done.
  unfold family_packs. simpl. lia.
Qed.
Lemma families_operations l : (line_family <$> l).*1 = line_operation <$> l.
Proof. rewrite <- list_fmap_compose. done. Qed.

(** What a balancing trace says to each of the two loops. *)
Lemma balances_bounds c : trace_balances c ->
  total_effective (ctq_departures c) <= HUB_MAX_WHOLE_PACKS /\
  total_unexplained (ctq_count_losses c) <= HUB_MAX_WHOLE_PACKS /\
  0 <= total_effective (ctq_actual_departures c) /\
  total_effective (ctq_actual_departures c) + total_lost (ctq_count_losses c) <= HUB_MAX_WHOLE_PACKS.
Proof.
  intros Hc. pose proof (tr_total _ Hc) as Ht. rewrite sum_by_app, sum_by_add in Ht.
  pose proof (WholePacks_range (ctq_original c)). pose proof (WholePacks_range (ctq_on_hand c)).
  pose proof (WholePacks_range (ctq_disposed c)).
  pose proof (total_nonneg dac_effective (ctq_departures c)).
  pose proof (total_nonneg dac_effective (ctq_actual_departures c)).
  pose proof (total_nonneg cla_explained (ctq_count_losses c)).
  pose proof (total_nonneg cla_unexplained (ctq_count_losses c)). lia.
Qed.

Lemma balances_lines c : trace_balances c -> lines_ok c (ctq_lines c).
Proof.
  intros Hc. destruct (balances_bounds c Hc) as (B1 & _ & B2 & B3).
  pose proof (total_nonneg cla_explained (ctq_count_losses c)). constructor.
  - apply Hc.
  - apply Hc.
  - apply Hc.
  - by eapply functional_app_l, tr_revisions.
  - by destruct (proj1 (list.NoDup_app _ _) (proj1 (tr_corrections _ Hc))) as (? & _).
  - intros []; [rewrite ctq_lines_actual|rewrite ctq_lines_departed]; lia.
Qed.

Lemma balances_losses c : trace_balances c ->
  losses_ok c (line_family <$> ctq_lines c).*1 (line_amendments (ctq_lines c)) (ctq_lines c ≫= line_entries)
    (total_effective (ctq_actual_departures c)) (ctq_count_losses c).
Proof.
  intros Hc. destruct (balances_bounds c Hc) as (_ & B1 & _ & B2). rewrite families_operations.
  constructor; try apply Hc; [|lia].
  intros id Hid. destruct (tr_departed _ Hc id Hid) as (? & ? & Hn). rewrite elem_of_app in Hn. tauto.
Qed.

(** And back, once the separate checks have passed. *)
Lemma checked_balances c :
  lines_ok c (ctq_lines c) ->
  losses_ok c (line_family <$> ctq_lines c).*1 (line_amendments (ctq_lines c)) (ctq_lines c ≫= line_entries)
    (total_effective (ctq_actual_departures c)) (ctq_count_losses c) ->
  (forall id, id ∈ line_amendments (ctq_lines c) -> id ∉ line_operation <$> ctq_lines c) ->
  (forall id, id ∈ loss_explanations (ctq_count_losses c) -> id ∉ loss_operation <$> ctq_count_losses c) ->
  (length (ctq_departures c) <= HUB_LINEAGE_GROUPS)%nat /\
    (length (ctq_actual_departures c) <= HUB_ACTUAL_REPORT_CAPACITY)%nat /\
    (length (ctq_count_losses c) <= HUB_COUNT_CAPACITY)%nat ->
  (sum_list (ctq_rows c) <= HUB_CORRECTION_ROWS)%nat -> 0 < raw (ctq_original c) ->
  raw (ctq_on_hand c) + raw (ctq_disposed c) + total_effective (ctq_departures c)
    + (total_effective (ctq_actual_departures c) + total_lost (ctq_count_losses c))
    + total_unexplained (ctq_count_losses c) = raw (ctq_original c) ->
  trace_balances c.
Proof.
  intros [L1 L2 L3 L4 L5 L6] [K1 K2 K3 K4 K5 K6 K7 K8 K9] Ha He Hcap Hrows Ho Ht.
  rewrite families_operations in K7. constructor; try done.
  - intros id Hid. destruct (K7 id Hid) as (? & ? & ?). split_and!; try done.
    rewrite elem_of_app. intros [Hl|]; [by apply (Ha id)|done].
  - rewrite sum_by_app, sum_by_add. lia.
Qed.

(** The two loops from their start. *)
Definition line_start : LineState :=
  {| lst_lines := []; lst_departures := []; lst_revisions := []; lst_amendments := [];
     lst_departed := zero_packs; lst_actual := zero_packs |}.
Definition loss_start_after (lines : LineState) : LossState :=
  {| lss_losses := []; lss_explanations := []; lss_count_operations := [];
     lss_revisions := lst_revisions lines; lss_amendments := lst_amendments lines;
     lss_unexplained := zero_packs; lss_actual := lst_actual lines |}.

Lemma holds_nil {K} `{EqDecision K} : holds (K := K) [] [].
Proof. intros k. unfold bs_contains. simpl. split; [done|by intros ?%not_elem_of_nil]. Qed.
Lemma maps_to_nil {K V} `{EqDecision K} : maps_to (K := K) (V := V) [] [].
Proof. intros k v. simpl. split; [done|by intros ?%not_elem_of_nil]. Qed.

Lemma lines_loop c :
  match try_fold (count_line c) line_start (ctq_lines c) with
  | Ok st => lines_ok c (ctq_lines c) /\ line_state_of st (ctq_lines c)
  | Err _ => ~ lines_ok c (ctq_lines c)
  end.
Proof.
  apply (try_fold_prefix (count_line c) line_state_of (lines_ok c)).
  - by intros l x [? _]%lines_ok_snoc.
  - intros st seen x Hs Hl. pose proof (count_line_run c st seen x Hs Hl) as Hr.
    destruct (count_line c st x); rewrite lines_ok_snoc; naive_solver.
  - constructor; simpl; try done; [apply holds_nil|apply maps_to_nil|apply maps_to_nil|apply holds_nil].
  - constructor; simpl; try constructor; try by intros ? ? ? ?%not_elem_of_nil. intros. simpl. done.
Qed.

Lemma losses_loop c lines :
  lines_ok c (ctq_lines c) -> line_state_of lines (ctq_lines c) ->
  match try_fold (count_loss c (lst_departures lines)) (loss_start_after lines) (ctq_count_losses c) with
  | Ok st => losses_ok c (line_family <$> ctq_lines c).*1 (line_amendments (ctq_lines c))
        (ctq_lines c ≫= line_entries) (total_effective (ctq_actual_departures c)) (ctq_count_losses c) /\
      loss_state_of (line_amendments (ctq_lines c)) (ctq_lines c ≫= line_entries)
        (total_effective (ctq_actual_departures c)) st (ctq_count_losses c)
  | Err _ => ~ losses_ok c (line_family <$> ctq_lines c).*1 (line_amendments (ctq_lines c))
        (ctq_lines c ≫= line_entries) (total_effective (ctq_actual_departures c)) (ctq_count_losses c)
  end.
Proof.
  intros [_ _ _ L4 L5 L6] [_ S2 S3 S4 _ S6].
  apply (try_fold_prefix (count_loss c (lst_departures lines))
    (loss_state_of (line_amendments (ctq_lines c)) (ctq_lines c ≫= line_entries)
      (total_effective (ctq_actual_departures c)))
    (losses_ok c (line_family <$> ctq_lines c).*1 (line_amendments (ctq_lines c))
      (ctq_lines c ≫= line_entries) (total_effective (ctq_actual_departures c)))).
  - by intros l x [? _]%losses_ok_snoc.
  - intros st seen x Hs Hl. pose proof (count_loss_settled c _ _ _ _ _ st seen x S2 Hs Hl) as Hr.
    destruct (count_loss c _ st x); rewrite losses_ok_snoc; naive_solver.
  - rewrite ctq_lines_actual in S6.
    constructor; cbn; rewrite ?app_nil_r; try done; try apply holds_nil. lia.
  - specialize (L6 true). rewrite ctq_lines_actual in L6.
    constructor; cbn; rewrite ?app_nil_r; try done; try apply NoDup_nil_2; try (by constructor);
      try (intros; split_and!; apply not_elem_of_nil).
    unfold HUB_MAX_WHOLE_PACKS in *. lia.
Qed.

(** The last check: four additions that stop at an overflow, and the original. *)
Lemma add_up_run (on_hand disposed departed actual unexplained original : WholePacks) {A} (k : A) :
  match (let? total := Packs.add on_hand disposed in
         let? total := Packs.add total departed in
         let? total := Packs.add total actual in
         let? total := Packs.add total unexplained in
         if total !=? original then Err CorrectionError.Accounting else Ok k) with
  | Ok r => r = k /\ raw on_hand + raw disposed + raw departed + raw actual + raw unexplained = raw original
  | Err _ => raw on_hand + raw disposed + raw departed + raw actual + raw unexplained <> raw original
  end.
Proof.
  pose proof (WholePacks_range on_hand). pose proof (WholePacks_range disposed).
  pose proof (WholePacks_range departed). pose proof (WholePacks_range actual).
  pose proof (WholePacks_range unexplained). pose proof (WholePacks_range original).
  assert (forall a b : WholePacks, match Packs.add a b with
    | Ok c => raw c = raw a + raw b | Err _ => HUB_MAX_WHOLE_PACKS < raw a + raw b end) as Hadd.
  { intros a b. destruct (Packs.add a b) as [c|] eqn:E; [by apply packs_add_Ok|].
    apply Z.nle_gt. intros Hle. pose proof (WholePacks_range a). pose proof (WholePacks_range b).
    destruct (packs_of_Z (raw a + raw b)) as [q Hq%packs_add_Ok]; [lia|congruence]. }
  pose proof (Hadd on_hand disposed) as H1'. destruct (Packs.add on_hand disposed) as [a|]; cbn [bind]; [|lia].
  pose proof (Hadd a departed) as H2'. destruct (Packs.add a departed) as [b|]; cbn [bind]; [|lia].
  pose proof (Hadd b actual) as H3'. destruct (Packs.add b actual) as [d|]; cbn [bind]; [|lia].
  pose proof (Hadd d unexplained) as H4'. destruct (Packs.add d unexplained) as [e|]; cbn [bind]; [|lia].
  case_bool_decide as E; cbn [negb].
  - split; [done|]. rewrite <- E. lia.
  - intros Ht. apply E, refined_eq. lia.
Qed.

(** C2: the corrected quantities of a trace have a balance exactly when its
    departure lines, amendments, shortages and explanations are all told apart
    (no operation counts twice, a stock revision belongs to one operation, a
    departure event has one family) and what is on hand, disposed of, departed
    and lost adds up to the original packs.  The balance then reports the
    effective departures, the actual departures with the explained shortages,
    and the shortages that stay unexplained. *)
Theorem trace_balance_correct c :
  match CorrectedTraceQuantityContext_balance c with
  | Ok b => trace_balances c /\
      tb_variant b = ctq_variant c /\ tb_original b = ctq_original c /\
      tb_on_hand b = ctq_on_hand c /\ tb_disposed b = ctq_disposed c /\
      raw (tb_departed b) = sum_by (fun a => raw (dac_effective a)) (ctq_departures c) /\
      raw (tb_actual_departed b) = sum_by (fun a => raw (dac_effective a)) (ctq_actual_departures c)
        + sum_by (fun a => raw (cla_explained a)) (ctq_count_losses c) /\
      raw (tb_counted_loss b) = sum_by (fun a => raw (cla_unexplained a)) (ctq_count_losses c)
  | Err _ => ~ trace_balances c
  end.
Proof.
  unfold CorrectedTraceQuantityContext_balance. split_guard Hc; rewrite ?orb_true_iff in Hc; breflect.
  { intros Ht. pose proof (tr_capacity _ Ht). lia. }
  pose proof (add_rows_run (ctq_rows c) 0 ltac:(unfold HUB_CORRECTION_ROWS; lia)) as Hrows.
  destruct (try_fold add_rows 0%nat (ctq_rows c)) as [rows|]; cbn [bind]; [|by intros ?%tr_rows].
  destruct (Packs.positive (ctq_original c)) as [[]|] eqn:Ep; cbn [bind].
  2:{ intros Hp%tr_original%positive_Ok. congruence. }
  apply positive_Ok in Ep.
  fold line_start. pose proof (lines_loop c) as Hl.
  destruct (try_fold (count_line c) line_start (ctq_lines c)) as [lines|]; cbn [bind].
  2:{ intros Ht. by apply Hl, balances_lines. }
  destruct Hl as [Lok Lst]. split_guard Ha.
  { apply existsb_exists in Ha as (id & Hin%list_elem_of_In & Hd).
    rewrite (holds_elem _ _ _ (lx_amendments _ _ Lst)) in Hin.
    rewrite (maps_to_some _ _ _ (lx_departures _ _ Lst)), families_operations in Hd.
    intros Ht. destruct (tr_departed _ Ht id Hd) as (_ & _ & Hn). apply Hn, elem_of_app. by left. }
  fold (loss_start_after lines). pose proof (losses_loop c lines Lok Lst) as Hk.
  destruct (try_fold (count_loss c _) _ (ctq_count_losses c)) as [losses|]; cbn [bind].
  2:{ intros Ht. by apply Hk, balances_losses. }
  destruct Hk as [Kok Kst]. split_guard He.
  { apply existsb_exists in He as (id & Hin%list_elem_of_In & Hd).
    rewrite (holds_elem _ _ _ (ks_explanations _ _ _ _ _ Kst)) in Hin.
    apply (ks_counts _ _ _ _ _ Kst) in Hd. intros Ht. by apply (tr_explained _ Ht id). }
  pose proof (lx_departed _ _ Lst) as T1. rewrite ctq_lines_departed in T1.
  pose proof (ks_actual _ _ _ _ _ Kst) as T2. pose proof (ks_unexplained _ _ _ _ _ Kst) as T3.
  match goal with |- match (let? total := _ in let? t := _ in let? u := _ in let? v := _ in
      if _ then _ else Ok ?k) with _ => _ end =>
    pose proof (add_up_run (ctq_on_hand c) (ctq_disposed c) (lst_departed lines) (lss_actual losses)
      (lss_unexplained losses) (ctq_original c) k) as Hs end.
  rewrite T1, T2, T3 in Hs. destruct (bind _ _) as [b|].
  - destruct Hs as [-> Hs]. split; [|done]. apply checked_balances; try done; try lia.
    + intros id Hid Hop. rewrite existsb_false_iff in Ha. specialize (Ha id).
      rewrite (holds_elem _ _ _ (lx_amendments _ _ Lst)) in Ha. specialize (Ha Hid).
      rewrite <- families_operations, <- (maps_to_some _ _ _ (lx_departures _ _ Lst)) in Hop. congruence.
    + intros id Hid Hop. rewrite existsb_false_iff in He. specialize (He id).
      rewrite (holds_elem _ _ _ (ks_explanations _ _ _ _ _ Kst)) in He. specialize (He Hid).
      apply (ks_counts _ _ _ _ _ Kst) in Hop. congruence.
  - intros Ht. apply Hs. pose proof (tr_total _ Ht) as Htot. rewrite sum_by_app, sum_by_add in Htot. lia.
Qed.

(** ** A concrete trace

    Of a hundred packs fifty are on hand and three were disposed of.  A departure
    of thirty was corrected by five more, and a shortage of twelve was explained
    by a departure of seven, later corrected to four. *)

Definition sample_line : OriginalDepartureQuantity :=
  {| odq_operation := sample_id 1; odq_group := sample_id 51; odq_trace := sample_id 41;
     odq_variant := sample_id 12; odq_stock_revision := sample_revision 5;
     odq_packs := sample_packs 30 |}.
Definition sample_amendment : DepartureQuantityAmendment :=
  {| dqa_operation := sample_id 2; dqa_stock_revision := sample_revision 9;
     dqa_before := sample_packs 30; dqa_after := sample_packs 35;
     dqa_delta := DepartureQuantityDelta.AdditionalDeparture (sample_packs 5) |}.
Definition sample_shortage : OriginalCountLossQuantity :=
  {| ocl_reconciliation := sample_id 61; ocl_operation := sample_id 3;
     ocl_stock_revision := sample_revision 6; ocl_trace := sample_id 41;
     ocl_variant := sample_id 12; ocl_packs := sample_packs 12 |}.
Definition sample_explanation : CountLossExplanation :=
  {| cle_operation := sample_id 4; cle_stock_revision := sample_revision 7;
     cle_packs := sample_packs 7 |}.
Definition sample_explanation_amendment : CountExplanationAmendment :=
  {| cea_operation := sample_id 5; cea_stock_revision := sample_revision 8;
     cea_explanation := sample_id 4; cea_before := sample_packs 7; cea_after := sample_packs 4 |}.
Definition sample_balance (on_hand : Z) : result TraceBalance CorrectionError :=
  let? line := DepartureQuantityAccount_restore sample_line [sample_amendment] (sample_packs 2) in
  let? loss := CountLossQuantityAccount_restore_corrected sample_shortage [sample_explanation]
    [sample_explanation_amendment] [] in
  CorrectedTraceQuantityContext_balance
    {| ctq_trace := sample_id 41; ctq_variant := sample_id 12; ctq_original := sample_packs 100;
       ctq_on_hand := sample_packs on_hand; ctq_disposed := sample_packs 3;
       ctq_departures := [line]; ctq_actual_departures := []; ctq_count_losses := [loss] |}.

Example sample_trace_balances :
  match sample_balance 50 with
  | Ok b => (raw (tb_departed b), raw (tb_actual_departed b), raw (tb_counted_loss b)) = (35, 4, 8)
  | Err _ => False
  end.
Proof. vm_compute. reflexivity. Qed.

Example sample_trace_off : sample_balance 51 = Err CorrectionError.Accounting.
Proof. vm_compute. reflexivity. Qed.
