(* ===== verification/Reports.v ===== *)
(** * Reports of departures already taken

    [hub/actuals.rs] and [actuals/review.rs]: a report of stock that already
    left is preserved as evidence, whatever it leaves unknown; a review compares
    it with the current state and classifies the historical holds it may have
    breached.  Neither changes stock. *)

From Stdlib Require Import Bool ZArith Lia String List.
From stdpp Require Import base decidable option list numbers sets.
From S2P Require Import Prelude Containers Encoding Hub Reference Catalog Stock Movement Work Lineage Treatment Dispatch Departure Counts.

Definition HUB_ACTUAL_REPORT_SOURCE_CANDIDATES : nat := 64.

Module ActualReportError.
Inductive ActualReportError :=
| Capacity | InvalidIdentity | InvalidInput | InvalidNativeContext | InvalidHistory
| StaleRevision | RevisionExhausted | ConflictingEvidence | InsufficientBalance
| UncertainSubmission | HistoricalSourceUnresolved | DuplicateReviewRequired | AlreadyReviewed.
End ActualReportError.
Abbreviation ActualReportError := ActualReportError.ActualReportError.

(** ** Reports *)

Record ReportedActualSource := {
  ras_trace : HubRecordId;
  ras_group : option HubRecordId;
  ras_location : option HubRecordId
}.
#[global] Instance ReportedActualSource_eq_dec : EqDecision ReportedActualSource.
Proof. solve_decision. Defined.

Module ActualReportSources.
Inductive ActualReportSources :=
| Unknown
| Possible (candidates : list ReportedActualSource)
| EstablishedClaim (claim : ReportedActualSource).
#[global] Instance ActualReportSources_eq_dec : EqDecision ActualReportSources.
Proof. solve_decision. Defined.
End ActualReportSources.
Abbreviation ActualReportSources := ActualReportSources.ActualReportSources.

(** [None] before [Some], as Rust orders options. *)
Definition option_compare {A} `{TotalOrd A} (a b : option A) : comparison :=
  match a, b with
  | None, None => Eq | None, Some _ => Lt | Some _, None => Gt | Some a, Some b => kcompare a b
  end.
#[global] Program Instance option_TotalOrd {A} `{TotalOrd A} : TotalOrd (option A) :=
  {| kcompare := option_compare |}.
Next Obligation.
  intros A ? [a|] [b|]; simpl; try (split; congruence). rewrite kcompare_eq. split; congruence.
Qed.
Next Obligation. intros A ? [a|] [b|]; simpl; try done. apply kcompare_antisym. Qed.
Next Obligation. intros A ? [a|] [b|] [d|]; simpl; try done. apply kcompare_trans. Qed.

Definition source_key (c : ReportedActualSource) : HubRecordId * option HubRecordId * option HubRecordId :=
  (ras_trace c, ras_group c, ras_location c).

Definition ActualReportSources_validate (self : ActualReportSources)
  : result unit ActualReportError :=
  match self with
  | ActualReportSources.Possible candidates =>
      if (length candidates =? 0)%nat then Err ActualReportError.InvalidInput
      else if (HUB_ACTUAL_REPORT_SOURCE_CANDIDATES <? length candidates)%nat
      then Err ActualReportError.Capacity
      else if any_repeated [] (source_key <$> candidates) then Err ActualReportError.InvalidInput
      else Ok tt
  | _ => Ok tt
  end.

Definition ActualReportSources_candidates (self : ActualReportSources) : list ReportedActualSource :=
  match self with
  | ActualReportSources.Unknown => []
  | ActualReportSources.Possible values => values
  | ActualReportSources.EstablishedClaim value => [value]
  end.

Record ActualReportCommand := {
  arc_variant : option HubRecordId;
  arc_recipient : option HubRecordId;
  arc_packs : option WholePacks;
  arc_sources : ActualReportSources;
  arc_occurred : Occurrence;
  arc_observation : SourceProvenance
}.
#[global] Instance ActualReportCommand_eq_dec : EqDecision ActualReportCommand.
Proof. solve_decision. Defined.

Record ActualReportRecord := {
  arr_id : HubRecordId;
  arr_operation : HubRecordId;
  arr_hub : HubId;
  arr_stock_revision : HubRevision;
  arr_catalog_revision : HubRevision;
  arr_actor : PublicKey;
  arr_recorded_at : UnixTimestamp;
  arr_report : ActualReportCommand
}.
#[global] Instance ActualReportRecord_eq_dec : EqDecision ActualReportRecord.
Proof. solve_decision. Defined.

Module ActualReportedClockAssessment.
Inductive ActualReportedClockAssessment := Unknown | NotAfterRecordedTime | RecordingClockConflict.
#[global] Instance ActualReportedClockAssessment_eq_dec : EqDecision ActualReportedClockAssessment.
Proof. solve_decision. Defined.
End ActualReportedClockAssessment.
Abbreviation ActualReportedClockAssessment :=
  ActualReportedClockAssessment.ActualReportedClockAssessment.

Definition ActualReportCommand_validate (self : ActualReportCommand)
  : result unit ActualReportError :=
  ActualReportSources_validate (arc_sources self) ;;?
  if is_some_and (arc_packs self) (fun v => raw v =? 0) then Err ActualReportError.InvalidInput
  else if match arc_occurred self with
          | Occurrence.Interval earliest latest => raw earliest >? raw latest
          | _ => false
          end
  then Err ActualReportError.InvalidInput
  else Ok tt.

Definition ActualReportRecord_recording_clock_assessment (self : ActualReportRecord)
  : ActualReportedClockAssessment :=
  let assess latest :=
    if raw latest >? raw (arr_recorded_at self)
    then ActualReportedClockAssessment.RecordingClockConflict
    else ActualReportedClockAssessment.NotAfterRecordedTime in
  match arc_occurred (arr_report self) with
  | Occurrence.Unknown => ActualReportedClockAssessment.Unknown
  | Occurrence.Known at_ => assess at_
  | Occurrence.Interval _ latest => assess latest
  end.

Section Reports.
Context `{Sha256}.

Definition actual_report_id (operation : HubRecordId) : result HubRecordId ActualReportError :=
  map_err (fun _ => ActualReportError.InvalidIdentity)
    (derive_identity "harvestcircle.hub.actual.report.identity.v1" [] operation).

Definition ActualReportRecord_validate (self : ActualReportRecord) : result unit ActualReportError :=
  let? id := actual_report_id (arr_operation self) in
  if (arr_id self !=? id) || (arr_id self ==? arr_operation self)
     || (arr_stock_revision self ==? HubRevision_INITIAL)
  then Err ActualReportError.InvalidHistory
  else ActualReportCommand_validate (arr_report self).

Definition ActualReportCommand_preserve (self : ActualReportCommand) (hub : HubId)
    (stock_revision catalog_revision : HubRevision) (operation : HubRecordId) (actor : PublicKey)
    (recorded_at : UnixTimestamp) : result ActualReportRecord ActualReportError :=
  ActualReportCommand_validate self ;;?
  let? id := actual_report_id operation in
  let? revision := map_err (fun _ => ActualReportError.RevisionExhausted)
    (HubRevision_next stock_revision) in
  let record := {| arr_id := id; arr_operation := operation; arr_hub := hub;
                   arr_stock_revision := revision; arr_catalog_revision := catalog_revision;
                   arr_actor := actor; arr_recorded_at := recorded_at; arr_report := self |} in
  ActualReportRecord_validate record ;;?
  Ok record.
End Reports.

Definition ActualReportSources_tag (self : ActualReportSources) : Z :=
  match self with
  | ActualReportSources.Unknown => 0
  | ActualReportSources.Possible _ => 1
  | ActualReportSources.EstablishedClaim _ => 2
  end.
Definition enc_reported_source (source : ReportedActualSource) : list byte :=
  enc_id (ras_trace source) ++ enc_optional_id (ras_group source) ++
  enc_optional_id (ras_location source).
Definition ActualReportCommand_message (self : ActualReportCommand) (hub : HubId)
    (actor : PublicKey) (operation : HubRecordId) : list byte :=
  domain_tag "harvestcircle.hub.actual.report.command.v1" ++
  enc_hub hub ++ enc_key actor ++ enc_id operation ++
  enc_optional_id (arc_variant self) ++ enc_optional_id (arc_recipient self) ++
  enc_option enc_packs (arc_packs self) ++ enc_tag (ActualReportSources_tag (arc_sources self)) ++
  enc_counted 8 enc_reported_source (ActualReportSources_candidates (arc_sources self)) ++
  hash_occurrence (arc_occurred self) ++ enc_hub_text (arc_observation self).
Definition ActualReportCommand_fingerprint `{Sha256} (self : ActualReportCommand) (hub : HubId)
    (actor : PublicKey) (operation : HubRecordId) : array 32 :=
  digest32 (ActualReportCommand_message self hub actor operation).

(** ** The timing of historical holds *)

Module HistoricalHoldTiming.
Inductive HistoricalHoldTiming := EstablishedBreach | BeforeHold | AfterRelease | TimingUnknown.
#[global] Instance HistoricalHoldTiming_eq_dec : EqDecision HistoricalHoldTiming.
Proof. solve_decision. Defined.
End HistoricalHoldTiming.
Abbreviation HistoricalHoldTiming := HistoricalHoldTiming.HistoricalHoldTiming.

Definition bounds (value : Occurrence) : option (UnixTimestamp * UnixTimestamp) :=
  match value with
  | Occurrence.Known at_ => Some (at_, at_)
  | Occurrence.Interval earliest latest => Some (earliest, latest)
  | Occurrence.Unknown => None
  end.
Definition invalid_interval (value : Occurrence) : bool :=
  match value with
  | Occurrence.Interval earliest latest => raw earliest >? raw latest
  | _ => false
  end.
(** [a.zip(b)]. *)
Definition option_zip {A B} (a : option A) (b : option B) : option (A * B) :=
  match a, b with Some a, Some b => Some (a, b) | _, _ => None end.

Definition classify_hold_timing (departure effective : Occurrence) (released : option Occurrence)
  : HistoricalHoldTiming :=
  if invalid_interval departure || invalid_interval effective || is_some_and released invalid_interval
  then HistoricalHoldTiming.TimingUnknown
  else if is_some_and (option_zip (bounds effective) (released ≫= bounds))
            (fun '((h_min, _), (_, r_max)) => raw r_max <? raw h_min)
  then HistoricalHoldTiming.TimingUnknown
  else
    match bounds departure with
    | None => HistoricalHoldTiming.TimingUnknown
    | Some (d_min, d_max) =>
        if is_some_and (bounds effective) (fun '(h_min, _) => raw d_max <? raw h_min)
        then HistoricalHoldTiming.BeforeHold
        else if is_some_and (released ≫= bounds) (fun '(_, r_max) => raw r_max <=? raw d_min)
        then HistoricalHoldTiming.AfterRelease
        else if is_some_and (bounds effective) (fun '(_, h_max) => raw h_max <=? raw d_min)
                && match released with
                   | None => true
                   | Some release =>
                       is_some_and (bounds release) (fun '(r_min, _) => raw d_max <? raw r_min)
                   end
        then HistoricalHoldTiming.EstablishedBreach
        else HistoricalHoldTiming.TimingUnknown
    end.

(** A review may narrow what was reported, not change it. *)
Definition refines (original verified : Occurrence) : bool :=
  match bounds original, bounds verified with
  | None, _ => true
  | Some (a, b), Some (c, d) => (raw a <=? raw c) && (raw d <=? raw b)
  | Some _, None => false
  end.

(** ** Reviews *)

Record ActualReviewFacts := {
  arf_report : HubRecordId;
  arf_expected_stock_revision : HubRevision;
  arf_expected_catalog_revision : HubRevision;
  arf_group : HubRecordId;
  arf_expected_group_revision : HubRevision;
  arf_packs : WholePacks;
  arf_recipient : HubRecordId;
  arf_occurred : Occurrence;
  arf_source_evidence : SourceProvenance;
  arf_quantity_evidence : SourceProvenance;
  arf_recipient_evidence : SourceProvenance;
  arf_timing_evidence : SourceProvenance
}.

Record ActualReviewContext := {
  arx_hub : HubId;
  arx_stock_revision : HubRevision;
  arx_catalog : ReferenceCatalog;
  arx_original : ActualReportRecord;
  arx_group : PhysicalStockGroup;
  arx_lineage : PhysicalLineage;
  arx_treatment : TreatmentState;
  arx_uncertain_submissions : bool
}.

Module HistoricalHoldApplicability.
Inductive HistoricalHoldApplicability := HistoricalScopeUnverified.
End HistoricalHoldApplicability.
Abbreviation HistoricalHoldApplicability := HistoricalHoldApplicability.HistoricalHoldApplicability.

Record HistoricalHoldFinding := {
  hhf_original : Hold;
  hhf_conditional_timing : HistoricalHoldTiming;
  hhf_applicability : HistoricalHoldApplicability
}.

Record ActualBalanceComparison := {
  abc_product : ReferenceRecord;
  abc_variant : ReferenceRecord;
  abc_recipient : ReferenceRecord;
  abc_current_location : ReferenceRecord;
  abc_before : PhysicalStockGroup;
  abc_compared_departure : WholePacks;
  abc_on_hand_after : WholePacks;
  abc_pending_work_to_retire : list HubRecordId
}.

Module ActualSourceComparison.
Inductive ActualSourceComparison :=
| UnknownClaim
| CurrentCandidateRequiresHistoricalVerification
| HistoricalAssociationUnresolved
| OutsideReportedCandidates.
End ActualSourceComparison.
Abbreviation ActualSourceComparison := ActualSourceComparison.ActualSourceComparison.

Record ActualReviewComparison := {
  arw_original : ActualReportRecord;
  arw_reported_clock : ActualReportedClockAssessment;
  arw_facts : ActualReviewFacts;
  arw_scope : ActualBalanceComparison;
  arw_source_comparison : ActualSourceComparison;
  arw_potential_historical_holds : list HistoricalHoldFinding
}.

(** [matches] and [source_comparison]. *)
Definition source_matches (group : PhysicalStockGroup) (source : ReportedActualSource) : bool :=
  (ras_trace source ==? pg_trace group)
  && is_none_or (ras_group source) (fun v => v ==? pg_id group)
  && is_none_or (ras_location source) (fun v => v ==? pg_location group).
Definition compare_source (sources : ActualReportSources) (group : PhysicalStockGroup)
  : ActualSourceComparison :=
  match sources with
  | ActualReportSources.Unknown => ActualSourceComparison.UnknownClaim
  | _ =>
      if existsb (source_matches group) (ActualReportSources_candidates sources)
      then ActualSourceComparison.CurrentCandidateRequiresHistoricalVerification
      else if existsb (fun s => ras_trace s ==? pg_trace group)
                (ActualReportSources_candidates sources)
      then ActualSourceComparison.HistoricalAssociationUnresolved
      else ActualSourceComparison.OutsideReportedCandidates
  end.

(** The loop body over the holds. *)
Definition hold_finding (graph : PhysicalLineage) (group : HubRecordId) (occurred : Occurrence)
    (now : UnixTimestamp) (findings : list HistoricalHoldFinding) (hold : Hold)
  : result (list HistoricalHoldFinding) ActualReportError :=
  if (raw (ts_recorded_at (hd_stamp hold)) >? raw now)
     || is_some_and (hd_release hold) (fun r => raw (ts_recorded_at r) >? raw now)
  then Err ActualReportError.InvalidNativeContext
  else
    let? scope := map_err (fun _ => ActualReportError.InvalidNativeContext)
      (PhysicalLineage_resolve graph (hd_scope hold)) in
    if existsb (fun n => pln_id n ==? group) (rps_groups scope)
    then Ok (findings ++ [{|
      hhf_original := hold;
      hhf_conditional_timing := classify_hold_timing occurred (ts_occurred (hd_stamp hold))
        (ts_occurred <$> hd_release hold);
      hhf_applicability := HistoricalHoldApplicability.HistoricalScopeUnverified |}])
    else Ok findings.

(** The [reference] closure. *)
Definition review_reference (catalog : ReferenceCatalog) (id : HubRecordId) (kind : ReferenceKind)
  : result ReferenceRecord ActualReportError :=
  map_err (fun _ => ActualReportError.InvalidNativeContext)
    (ReferenceCatalog_require_kind catalog id kind).

Definition ActualReviewFacts_review `{Sha256} (self : ActualReviewFacts)
    (context : ActualReviewContext) (now : UnixTimestamp)
  : result ActualReviewComparison ActualReportError :=
  let original := arx_original context in
  ActualReportRecord_validate original ;;?
  let group := arx_group context in
  map_err (fun _ => ActualReportError.InvalidNativeContext)
    (PhysicalStockGroup_validate_catalog group (arx_catalog context)) ;;?
  let graph := arx_lineage context in
  let? node := ok_or (PhysicalLineage_node graph (pg_id group))
    ActualReportError.InvalidNativeContext in
  if (arx_hub context !=? arr_hub original) || (pl_hub graph !=? arx_hub context)
     || (pl_trace graph !=? pg_trace group) || (pl_variant graph !=? pg_variant group)
     || (pl_revision graph !=? arx_stock_revision context)
     || (pln_parent node !=? pg_parent group) || (pln_packs node !=? pg_packs group)
     || (pln_trace node !=? pg_trace group) || (pln_variant node !=? pg_variant group)
     || (raw (arr_stock_revision original) >? raw (arx_stock_revision context))
     || (raw (arr_catalog_revision original) >? raw (rc_revision (arx_catalog context)))
     || (raw now <? raw (arr_recorded_at original))
     || (raw (pg_revision group) >? raw (arx_stock_revision context))
     || is_some_and (pg_causal_floor group) (fun v => raw v >? raw now)
  then Err ActualReportError.InvalidNativeContext
  else if (arf_report self !=? arr_id original)
          || (arf_expected_stock_revision self !=? arx_stock_revision context)
          || (arf_expected_catalog_revision self !=? rc_revision (arx_catalog context))
          || (arf_group self !=? pg_id group)
          || (arf_expected_group_revision self !=? pg_revision group)
  then Err ActualReportError.StaleRevision
  else if arx_uncertain_submissions context then Err ActualReportError.UncertainSubmission
  else
    map_err (fun _ => ActualReportError.InvalidInput)
      (Occurrence_validate (arf_occurred self) (arr_recorded_at original)) ;;?
    if (raw (arf_packs self) =? 0) || (raw (arf_packs self) >? raw (pg_packs group))
    then Err ActualReportError.InsufficientBalance
    else
      let report := arr_report original in
      if is_some_and (arc_variant report) (fun v => v !=? pg_variant group)
         || is_some_and (arc_recipient report) (fun v => v !=? arf_recipient self)
         || is_some_and (arc_packs report) (fun v => v !=? arf_packs self)
         || negb (refines (arc_occurred report) (arf_occurred self))
      then Err ActualReportError.ConflictingEvidence
      else
        let source_comparison := compare_source (arc_sources report) group in
        let? _ := map_err (fun _ => ActualReportError.InvalidNativeContext)
          (TreatmentState_project (arx_treatment context) graph
             (ReferenceCatalog_handling_basis (arx_catalog context))) in
        let? holds := try_fold (hold_finding graph (pg_id group) (arf_occurred self) now) []
          (tst_holds (arx_treatment context)) in
        let reference := review_reference (arx_catalog context) in
        let? variant := reference (pg_variant group) ReferenceKind.Pack in
        match rr_value variant with
        | ReferenceValue.Pack product _ _ =>
            let? product := reference product ReferenceKind.Product in
            let? recipient := reference (arf_recipient self) ReferenceKind.Party in
            let? location := reference (pg_location group) ReferenceKind.Location in
            let? after := map_err (fun _ => ActualReportError.InsufficientBalance)
              (WholePacks_checked_sub (pg_packs group) (arf_packs self)) in
            let scope := {|
              abc_product := product; abc_variant := variant; abc_recipient := recipient;
              abc_current_location := location; abc_before := group;
              abc_compared_departure := arf_packs self; abc_on_hand_after := after;
              abc_pending_work_to_retire :=
                (fun a => wr_id (wa_requirement a))
                  <$> List.filter is_pending_allocation (pg_work group)
            |} in
            Ok {| arw_original := original;
                  arw_reported_clock := ActualReportRecord_recording_clock_assessment original;
                  arw_facts := self; arw_scope := scope;
                  arw_source_comparison := source_comparison;
                  arw_potential_historical_holds := holds |}
        | _ => Err ActualReportError.InvalidNativeContext
        end.

(** ** What is reportable *)

Record reportable (cmd : ActualReportCommand) : Prop := {
  rp_candidates : forall l, arc_sources cmd = ActualReportSources.Possible l ->
    (1 <= length l <= HUB_ACTUAL_REPORT_SOURCE_CANDIDATES)%nat /\ NoDup l;
  rp_packs : forall p, arc_packs cmd = Some p -> 0 < raw p;
  rp_occurred : forall a b, arc_occurred cmd = Occurrence.Interval a b -> raw a <= raw b
}.

Lemma sources_validate_Ok s :
  ActualReportSources_validate s = Ok tt <->
  forall l, s = ActualReportSources.Possible l ->
    (1 <= length l <= HUB_ACTUAL_REPORT_SOURCE_CANDIDATES)%nat /\ NoDup l.
Proof.
  destruct s as [|l|c]; simpl; [by split|..|by split].
  rewrite !guard_Ok, any_repeated_false. rewrite Nat.eqb_neq, Nat.ltb_ge.
  assert (NoDup (source_key <$> l) <-> NoDup l) as Hn.
  { split; [apply NoDup_fmap_1|]. apply NoDup_fmap_2. intros [] [] [=]. by subst. }
  rewrite Hn. split.
  - intros (? & ? & (? & _) & _) k [= <-]. split; [lia|done].
  - intros H. destruct (H l eq_refl) as [? ?]. split_and!; try done; [lia..|].
    apply list.Forall_forall. done.
Qed.

Lemma report_validate_Ok cmd : ActualReportCommand_validate cmd = Ok tt <-> reportable cmd.
Proof.
  unfold ActualReportCommand_validate. rewrite seq_Ok, sources_validate_Ok, !guard_Ok. split.
  - intros (Hs & Hp & Ho & _). constructor; [done| |].
    + intros p E. rewrite E in Hp. simpl in Hp. breflect. pose proof (WholePacks_range p). lia.
    + intros a b E. rewrite E in Ho. breflect. lia.
  - intros [Hs Hp Ho]. split_and!; try done.
    + destruct (arc_packs cmd) as [p|]; [|done]. simpl. specialize (Hp p eq_refl). apply Z.eqb_neq. lia.
    + destruct (arc_occurred cmd) as [|a b|]; try done. specialize (Ho a b eq_refl). apply Z.ltb_ge. lia.
Qed.

Section Preserved.
Context `{Sha256}.

Record report_ok (r : ActualReportRecord) : Prop := {
  rok_id : actual_report_id (arr_operation r) = Ok (arr_id r);
  rok_apart : arr_id r <> arr_operation r;
  rok_revision : arr_stock_revision r <> HubRevision_INITIAL;
  rok_report : reportable (arr_report r)
}.

Lemma report_record_validate_Ok r : ActualReportRecord_validate r = Ok tt <-> report_ok r.
Proof.
  unfold ActualReportRecord_validate. rewrite bind_Ok. setoid_rewrite guard_Ok.
  setoid_rewrite report_validate_Ok. split.
  - intros (id & Hid & Hb & Hr). breflect. constructor; congruence.
  - intros [Hid Ha Hr Hc]. exists (arr_id r). split; [done|]. split; [|done].
    rewrite !orb_false_iff, negb_false_iff, !bool_decide_eq_false, bool_decide_eq_true. done.
Qed.

(** A report is preserved whatever it leaves unknown and whatever the
    stock, holds or acceptance are: it is refused only when it contradicts
    itself (repeated or no candidates, no packs, a reversed interval), when the
    revision is exhausted or when no fresh identity can be derived.  The record
    keeps the report as it was made. *)
Theorem report_preserve_correct cmd hub stock catalog operation actor now :
  match ActualReportCommand_preserve cmd hub stock catalog operation actor now with
  | Ok r => reportable cmd /\ report_ok r /\ arr_report r = cmd /\
      raw (arr_stock_revision r) = raw stock + 1 /\
      r = {| arr_id := arr_id r; arr_operation := operation; arr_hub := hub;
             arr_stock_revision := arr_stock_revision r; arr_catalog_revision := catalog;
             arr_actor := actor; arr_recorded_at := now; arr_report := cmd |}
  | Err _ => ~ (reportable cmd /\ raw stock < HubRevision_MAXIMUM /\
      exists id, actual_report_id operation = Ok id /\ id <> operation)
  end.
Proof.
  unfold ActualReportCommand_preserve.
  destruct (ActualReportCommand_validate cmd) as [[]|] eqn:Ev; cbn [bind].
  2:{ intros (Hr & _). apply report_validate_Ok in Hr. congruence. }
  apply report_validate_Ok in Ev.
  destruct (actual_report_id operation) as [id|] eqn:Ei; cbn [bind].
  2:{ intros (_ & _ & id & E & _). congruence. }
  destruct (HubRevision_next stock) as [rev|] eqn:En; cbn [map_err bind].
  2:{ intros (_ & Hlt & _). destruct (movement_next_total stock Hlt) as (r & Hr & _).
      unfold movement_next in Hr. rewrite map_err_Ok in Hr. congruence. }
  apply HubRevision_next_Ok in En. pose proof (HubRevision_range stock).
  destruct (ActualReportRecord_validate _) as [[]|] eqn:Er; cbn [bind].
  - apply report_record_validate_Ok in Er. done.
  - intros (_ & _ & id' & [= <-] & Hne). enough (Ok (A := unit) (E := ActualReportError) tt = Err e) by done.
    rewrite <- Er. symmetry. apply report_record_validate_Ok. constructor; simpl; try done.
    intros Hrev. rewrite Hrev in En. simpl in En. lia.
Qed.
End Preserved.

(** ** The timing of a hold, over every possible instant *)

(** The instants an occurrence allows; an unknown one may be at any time. *)
Definition instant (o : Occurrence) (t : Z) : Prop :=
  match o with
  | Occurrence.Known at_ => t = raw at_
  | Occurrence.Interval earliest latest => raw earliest <= t <= raw latest
  | Occurrence.Unknown => True
  end.

Lemma instant_bounds o a b :
  invalid_interval o = false -> bounds o = Some (a, b) ->
  instant o (raw a) /\ instant o (raw b) /\ forall t, instant o t -> raw a <= t <= raw b.
Proof.
  destruct o as [x|x y|]; simpl; intros Hv E; simplify_eq; [|apply Z.ltb_ge in Hv].
  - split_and!; [done..|]. intros t ->. lia.
  - split_and!; [lia..|done].
Qed.

Lemma bounds_ordered o a b :
  invalid_interval o = false -> bounds o = Some (a, b) -> raw a <= raw b.
Proof. intros Hv E. destruct (instant_bounds o a b Hv E) as (Ha & _ & Hb). apply Hb in Ha. lia. Qed.

Lemma instant_exists o : invalid_interval o = false -> exists t, instant o t.
Proof.
  intros Hv. destruct (bounds o) as [[a b]|] eqn:E.
  - exists (raw a). by apply (instant_bounds o a b).
  - destruct o; try done. by exists 0.
Qed.

(** All instants of one occurrence are at least [k] before those of the other. *)
Lemma instants_apart k x y :
  invalid_interval x = false -> invalid_interval y = false ->
  (forall t u, instant x t -> instant y u -> t + k <= u) <->
  exists a b c d, bounds x = Some (a, b) /\ bounds y = Some (c, d) /\ raw b + k <= raw c.
Proof.
  intros Hx Hy. split.
  - intros Hall. destruct (bounds x) as [[a b]|] eqn:Ex.
    + destruct (bounds y) as [[c d]|] eqn:Ey.
      * exists a, b, c, d. split_and!; try done.
        apply Hall; [by apply (instant_bounds x a b)|by apply (instant_bounds y c d)].
      * exfalso. destruct y; try done. specialize (Hall (raw a) (raw a + k - 1)).
        destruct (instant_bounds x a b Hx Ex) as (Ha & _ & _). specialize (Hall Ha I). lia.
    + exfalso. destruct x; try done. destruct (instant_exists y Hy) as [u Hu].
      specialize (Hall (u - k + 1) u I Hu). lia.
  - intros (a & b & c & d & Ex & Ey & Hle) t u Ht Hu.
    apply (instant_bounds x a b) in Ht; [|done..]. apply (instant_bounds y c d) in Hu; [|done..]. lia.
Qed.

(** Nothing the records say contradicts itself: no interval is reversed, and the
    release can have followed the hold. *)
Record hold_consistent (departure effective : Occurrence) (released : option Occurrence) : Prop := {
  hc_departure : invalid_interval departure = false;
  hc_effective : invalid_interval effective = false;
  hc_released : forall release, released = Some release -> invalid_interval release = false /\
    exists t u, instant effective t /\ instant release u /\ t <= u
}.

Lemma release_can_follow effective release :
  invalid_interval effective = false -> invalid_interval release = false ->
  is_some_and (option_zip (bounds effective) (bounds release))
    (fun '((h_min, _), (_, r_max)) => raw r_max <? raw h_min) = false <->
  exists t u, instant effective t /\ instant release u /\ t <= u.
Proof.
  intros He Hr. destruct (instant_exists effective He) as [t Ht], (instant_exists release Hr) as [u Hu].
  destruct (bounds effective) as [[h1 h2]|] eqn:Eh; simpl.
  2:{ split; [|done]. intros _. destruct effective; try done. by exists u, u. }
  destruct (bounds release) as [[r1 r2]|] eqn:Er; simpl.
  2:{ split; [|done]. intros _. destruct release; try done. by exists t, t. }
  destruct (instant_bounds _ _ _ He Eh) as (H1 & _ & Hh), (instant_bounds _ _ _ Hr Er) as (_ & H2 & Hrr).
  rewrite Z.ltb_ge. split; [by exists (raw h1), (raw r2)|].
  intros (x & y & Hx%Hh & Hy%Hrr & Hle). lia.
Qed.

Lemma consistent_iff departure effective released :
  hold_consistent departure effective released <->
  invalid_interval departure || invalid_interval effective || is_some_and released invalid_interval = false /\
  is_some_and (option_zip (bounds effective) (released ≫= bounds))
    (fun '((h_min, _), (_, r_max)) => raw r_max <? raw h_min) = false.
Proof.
  rewrite !orb_false_iff. destruct released as [release|]; simpl.
  - split.
    + intros [Hd He Hr]. destruct (Hr release eq_refl) as [Hi Hex]. split_and!; try done.
      by apply release_can_follow.
    + intros [[[Hd He] Hi] Hf]. constructor; try done. intros r [= <-]. split; [done|].
      by apply release_can_follow.
  - split.
    + intros [Hd He _]. split_and!; try done. by destruct (bounds effective).
    + intros [[[Hd He] _] _]. by constructor.
Qed.

(** [instants_apart] for the two strict and the two weak comparisons. *)
Lemma instants_lt x y :
  invalid_interval x = false -> invalid_interval y = false ->
  (forall t u, instant x t -> instant y u -> t < u) <->
  exists a b c d, bounds x = Some (a, b) /\ bounds y = Some (c, d) /\ raw b < raw c.
Proof.
  intros Hx Hy. pose proof (instants_apart 1 x y Hx Hy) as [H1 H2]. split.
  - intros Hall. destruct H1 as (a & b & c & d & ? & ? & ?); [|exists a, b, c, d; split_and!; try done; lia].
    intros t u Ht Hu. specialize (Hall t u Ht Hu). lia.
  - intros (a & b & c & d & ? & ? & ?) t u Ht Hu. enough (t + 1 <= u) by lia.
    apply H2; [|done..]. exists a, b, c, d. split_and!; try done; lia.
Qed.
Lemma instants_le x y :
  invalid_interval x = false -> invalid_interval y = false ->
  (forall t u, instant y t -> instant x u -> u <= t) <->
  exists a b c d, bounds x = Some (a, b) /\ bounds y = Some (c, d) /\ raw b <= raw c.
Proof.
  intros Hx Hy. pose proof (instants_apart 0 x y Hx Hy) as H. setoid_rewrite Z.add_0_r in H.
  rewrite <- H. split; intros Hall t u Ht Hu; by apply Hall.
Qed.

(** One combination of known and unknown bounds. *)
Ltac timing_case :=
  intros;
  repeat match goal with
  | H : _ /\ _ |- _ => destruct H
  | H : exists _, _ |- _ => destruct H
  | H : forall r, Some ?x = Some r -> _ |- _ => specialize (H x eq_refl)
  end; simplify_eq; try lia; try congruence;
  split_and?; intros; simplify_eq; do 4 eexists; (split; [reflexivity|split; [eassumption || reflexivity|lia]]).

Lemma hold_timing_consistent departure effective released :
  hold_consistent departure effective released ->
  let timing := classify_hold_timing departure effective released in
  (timing = HistoricalHoldTiming.BeforeHold <->
    forall t h, instant departure t -> instant effective h -> t < h) /\
  (timing = HistoricalHoldTiming.AfterRelease <-> exists release, released = Some release /\
      forall t r, instant departure t -> instant release r -> r <= t) /\
  (timing = HistoricalHoldTiming.EstablishedBreach <->
    (forall t h, instant departure t -> instant effective h -> h <= t) /\
    forall release, released = Some release ->
      forall t r, instant departure t -> instant release r -> t < r).
Proof.
  intros Hc timing. pose proof Hc as [Hd He Hr]. pose proof Hc as [G1 G2]%consistent_iff.
  rewrite instants_lt, (instants_le effective departure) by done.
  assert ((exists release, released = Some release /\
      forall t r, instant departure t -> instant release r -> r <= t) <->
    exists r1 r2 d1 d2, (released ≫= bounds) = Some (r1, r2) /\ bounds departure = Some (d1, d2) /\
      raw r2 <= raw d1) as ->.
  { destruct released as [release|]; simpl; [|split; [by intros (? & ? & _)|by intros (? & ? & ? & ? & ? & _)]].
    destruct (Hr release eq_refl) as [Hi _]. rewrite <- (instants_le release departure) by done.
    split; [by intros (r & [= <-] & ?)|eauto]. }
  assert ((forall release, released = Some release ->
      forall t r, instant departure t -> instant release r -> t < r) <->
    forall release, released = Some release -> exists a b c d, bounds departure = Some (a, b) /\
      bounds release = Some (c, d) /\ raw b < raw c) as ->.
  { split; intros Hall release E; destruct (Hr release E) as [Hi _];
      apply (instants_lt departure release Hd Hi); by apply Hall. }
  unfold timing, classify_hold_timing. rewrite G1, G2.
  destruct (bounds departure) as [[d1 d2]|] eqn:Ed; [|naive_solver].
  assert (bounds effective = None \/ exists h1 h2, bounds effective = Some (h1, h2) /\ raw h1 <= raw h2) as Hh.
  { destruct (bounds effective) as [[h1 h2]|] eqn:Eh; [right|by left]. exists h1, h2. split; [done|].
    by apply (bounds_ordered effective). }
  assert (raw d1 <= raw d2) as Hdd by by apply (bounds_ordered departure).
  assert (forall release r1 r2, released = Some release -> bounds release = Some (r1, r2) -> raw r1 <= raw r2) as Hrr.
  { intros release r1 r2 E Eb. destruct (Hr release E) as [Hi _].
    by apply (bounds_ordered release). }
  clear G1 Hr Hc Hd He. destruct Hh as [Eh|(h1 & h2 & Eh & Hhh)]; rewrite Eh in *; simpl in *;
    (destruct released as [release|]; simpl in *;
      [destruct (bounds release) as [[r1 r2]|] eqn:Er; simpl in *; [specialize (Hrr release r1 r2 eq_refl Er)|]|]);
    repeat match goal with |- context [?x <? ?y] => destruct (Z.ltb_spec x y) | |- context [?x <=? ?y] =>
      destruct (Z.leb_spec x y) end; simpl; breflect;
    (split_and!; split; try discriminate; timing_case).
Qed.

(** The classification of a historical hold is exact over every instant the
    records allow: a breach is established only when every possible departure
    lies in the hold, before and after are established only when no departure
    can, and everything else, contradictory records included, stays unknown. *)
Theorem hold_timing_correct departure effective released :
  let timing := classify_hold_timing departure effective released in
  let consistent := hold_consistent departure effective released in
  (timing = HistoricalHoldTiming.BeforeHold <-> consistent /\
    forall t h, instant departure t -> instant effective h -> t < h) /\
  (timing = HistoricalHoldTiming.AfterRelease <-> consistent /\
    exists release, released = Some release /\
      forall t r, instant departure t -> instant release r -> r <= t) /\
  (timing = HistoricalHoldTiming.EstablishedBreach <-> consistent /\
    (forall t h, instant departure t -> instant effective h -> h <= t) /\
    forall release, released = Some release ->
      forall t r, instant departure t -> instant release r -> t < r).
Proof.
  intros timing consistent. destruct (decide (
    invalid_interval departure || invalid_interval effective || is_some_and released invalid_interval = false /\
    is_some_and (option_zip (bounds effective) (released ≫= bounds))
      (fun '((h_min, _), (_, r_max)) => raw r_max <? raw h_min) = false)) as [Hc|Hc].
  - apply consistent_iff in Hc. destruct (hold_timing_consistent _ _ _ Hc) as (H1 & H2 & H3).
    unfold timing, consistent. rewrite H1, H2, H3. tauto.
  - assert (timing = HistoricalHoldTiming.TimingUnknown) as ->.
    { unfold timing, classify_hold_timing. destruct (_ || _ || _); [done|]. destruct (is_some_and _ _); [done|]. tauto. }
    rewrite <- consistent_iff in Hc. fold consistent in Hc. split_and!; split; try discriminate; tauto.
Qed.

(** ** What a review has compared *)

(** Verified facts only narrow what was reported. *)
Lemma refines_iff original verified :
  invalid_interval original = false -> invalid_interval verified = false ->
  refines original verified = true <-> forall t, instant verified t -> instant original t.
Proof.
  intros Ho Hv. unfold refines. destruct (bounds original) as [[a b]|] eqn:Eo.
  - destruct (bounds verified) as [[c d]|] eqn:Ev.
    + destruct (instant_bounds _ _ _ Hv Ev) as (I1 & I2 & Iv), (instant_bounds _ _ _ Ho Eo) as (_ & _ & Io).
      rewrite andb_true_iff, !Z.leb_le. split.
      * intros [H1 H2] t Ht%Iv. destruct original; simpl in *; simplify_eq; lia.
      * intros Hall. apply Hall in I1, I2. apply Io in I1, I2. lia.
    + split; [done|]. intros Hall. destruct verified; try done. exfalso.
      destruct (instant_bounds _ _ _ Ho Eo) as (_ & _ & Io). specialize (Hall (raw b + 1) I).
      apply Io in Hall. lia.
  - split; [|done]. intros _. by destruct original.
Qed.

Definition finding_of (occurred : Occurrence) (hold : Hold) : HistoricalHoldFinding :=
  {| hhf_original := hold;
     hhf_conditional_timing := classify_hold_timing occurred (ts_occurred (hd_stamp hold))
       (ts_occurred <$> hd_release hold);
     hhf_applicability := HistoricalHoldApplicability.HistoricalScopeUnverified |}.

(** The holds, in order, that reach the group. *)
Lemma hold_findings_run graph node occurred now holds fs :
  lineage_wf graph -> node ∈ pl_nodes graph -> 0 < raw (pln_packs node) ->
  try_fold (hold_finding graph (pln_id node) occurred now) [] holds = Ok fs ->
  exists reaching, reaching `sublist_of` holds /\ fs = finding_of occurred <$> reaching /\
    forall h, h ∈ holds -> h ∈ reaching <-> covers graph (hd_scope h) node.
Proof.
  intros Hwf Hn Hp. revert fs. induction holds as [|h holds IH] using rev_ind; intros fs.
  { intros [= <-]. exists []. split_and!; [done|done|]. intros h Hh. set_solver. }
  rewrite try_fold_app. intros (fs0 & H0 & Hs)%bind_Ok.
  destruct (IH fs0 H0) as (reaching & Hsub & -> & Hiff). simpl in Hs. apply bind_Ok in Hs as (fs1 & Hs & [= <-]).
  unfold hold_finding in Hs. apply guard_Ok in Hs as [_ Hs]. apply bind_Ok in Hs as (scope & Hres & Hs).
  rewrite map_err_Ok in Hres.
  assert (existsb (fun n => pln_id n ==? pln_id node) (rps_groups scope) = true <->
    covers graph (hd_scope h) node) as Hex.
  { rewrite existsb_exists. setoid_rewrite bool_decide_eq_true. split.
    - intros (m & Hm%list_elem_of_In & E). pose proof Hm as Hm'.
      apply (resolve_groups graph (hd_scope h) scope m Hwf Hres) in Hm' as (Hin & _ & Hc).
      by rewrite <- (wf_node_inj graph Hwf m node Hin Hn E).
    - intros Hc. exists node. rewrite <- list_elem_of_In. split; [|done].
      by apply (resolve_groups graph (hd_scope h) scope node Hwf Hres). }
  destruct (existsb _ _).
  - injection Hs as <-. exists (reaching ++ [h]). split_and!.
    + by apply sublist_app.
    + by rewrite fmap_app.
    + intros k. rewrite !elem_of_app, list_elem_of_singleton. intros [Hk| ->]; [|tauto].
      specialize (Hiff k Hk). split; [intros [?| ->]; tauto|tauto].
  - injection Hs as <-. exists reaching. split_and!; [by apply sublist_inserts_r|done|].
    intros k. rewrite elem_of_app, list_elem_of_singleton. intros [Hk| ->]; [by apply Hiff|].
    split; [|intros ?%Hex; done]. intros Hin. apply Hiff; [|done]. by eapply elem_of_sublist.
Qed.

Section Reviewed.
Context `{Sha256}.

Record reviewed (self : ActualReviewFacts) (c : ActualReviewContext) (now : UnixTimestamp)
    (w : ActualReviewComparison) : Prop := {
  rw_report : report_ok (arx_original c) /\ arw_original w = arx_original c /\ arw_facts w = self;
  rw_group : catalogued (arx_catalog c) (arx_group c) /\ abc_before (arw_scope w) = arx_group c;
  rw_current : arf_report self = arr_id (arx_original c) /\
    arf_expected_stock_revision self = arx_stock_revision c /\
    arf_expected_catalog_revision self = rc_revision (arx_catalog c) /\
    arf_group self = pg_id (arx_group c) /\
    arf_expected_group_revision self = pg_revision (arx_group c) /\
    arx_uncertain_submissions c = false;
  rw_lineage : pl_hub (arx_lineage c) = arr_hub (arx_original c) /\
    pl_trace (arx_lineage c) = pg_trace (arx_group c) /\
    pl_revision (arx_lineage c) = arx_stock_revision c;
  rw_timing : Occurrence_validate (arf_occurred self) (arr_recorded_at (arx_original c)) = Ok tt /\
    raw (arr_recorded_at (arx_original c)) <= raw now;
  rw_balance : 0 < raw (arf_packs self) /\ abc_compared_departure (arw_scope w) = arf_packs self /\
    raw (abc_on_hand_after (arw_scope w)) + raw (arf_packs self) = raw (pg_packs (arx_group c));
  rw_agrees : (forall v, arc_variant (arr_report (arx_original c)) = Some v -> v = pg_variant (arx_group c)) /\
    (forall v, arc_recipient (arr_report (arx_original c)) = Some v -> v = arf_recipient self) /\
    (forall p, arc_packs (arr_report (arx_original c)) = Some p -> p = arf_packs self) /\
    (forall t, instant (arf_occurred self) t ->
      instant (arc_occurred (arr_report (arx_original c))) t /\ t <= raw (arr_recorded_at (arx_original c))
      \/ arf_occurred self = Occurrence.Unknown);
  rw_references : bt_get (arf_recipient self) (rc_records (arx_catalog c)) = Some (abc_recipient (arw_scope w)) /\
    ReferenceValue_kind (rr_value (abc_recipient (arw_scope w))) = ReferenceKind.Party /\
    bt_get (pg_variant (arx_group c)) (rc_records (arx_catalog c)) = Some (abc_variant (arw_scope w)) /\
    ReferenceValue_kind (rr_value (abc_variant (arw_scope w))) = ReferenceKind.Pack /\
    bt_get (pg_location (arx_group c)) (rc_records (arx_catalog c))
      = Some (abc_current_location (arw_scope w));
  rw_holds : exists node reaching,
    node ∈ pl_nodes (arx_lineage c) /\ pln_id node = pg_id (arx_group c) /\
    pln_packs node = pg_packs (arx_group c) /\
    reaching `sublist_of` tst_holds (arx_treatment c) /\
    arw_potential_historical_holds w = finding_of (arf_occurred self) <$> reaching /\
    forall h, h ∈ tst_holds (arx_treatment c) ->
      h ∈ reaching <-> covers (arx_lineage c) (hd_scope h) node
}.

Lemma occurrence_in o now t :
  Occurrence_validate o now = Ok tt -> instant o t -> t <= raw now \/ o = Occurrence.Unknown.
Proof. unfold Occurrence_validate. destruct o; simpl; intros E; try (by right); case_match; breflect; naive_solver lia. Qed.

Lemma occurrence_valid o now : Occurrence_validate o now = Ok tt -> invalid_interval o = false.
Proof. unfold Occurrence_validate. destruct o; simpl; intros E; try done. case_match; [|done]. breflect. lia. Qed.

Lemma review_run_actual self c now w :
  lineage_wf (arx_lineage c) -> ActualReviewFacts_review self c now = Ok w -> reviewed self c now w.
Proof.
  intros Hwf Hr. unfold ActualReviewFacts_review in Hr.
  apply seq_Ok in Hr as [Ho%report_record_validate_Ok Hr]. apply seq_Ok in Hr as [Hg Hr].
  rewrite map_err_Ok, validate_catalog_Ok in Hg. apply bind_Ok in Hr as (node & Hn%ok_or_Ok & Hr).
  apply (wf_node _ Hwf) in Hn as [Hn Hid]. apply guard_Ok in Hr as [B1 Hr]. apply guard_Ok in Hr as [B2 Hr].
  apply guard_Ok in Hr as [B3 Hr]. apply seq_Ok in Hr as [Hocc Hr]. rewrite map_err_Ok in Hocc.
  apply guard_Ok in Hr as [B4 Hr]. apply guard_Ok in Hr as [B5 Hr].
  rewrite !orb_false_iff, !some_and_false, !negb_false_iff in B5. destruct B5 as [[[B5 B6] B7] B8].
  apply bind_Ok in Hr as (p & _ & Hr). apply bind_Ok in Hr as (fs & Hfs & Hr).
  unfold review_reference in Hr. run_ok. rewrite !orb_false_iff, some_and_false in B1. breflect. destruct_and?.
  rewrite require_kind_Ok, checked_sub_Ok in *. destruct_and?. rewrite <- Hid in Hfs.
  destruct (hold_findings_run _ _ _ _ _ _ Hwf Hn ltac:(pose proof (go_packs _ (cg_group _ _ Hg)); congruence) Hfs)
    as (reaching & R1 & R2 & R3).
  pose proof (WholePacks_range (arf_packs self)).
  constructor; simpl; try done; try (split_and!; try done; try congruence; lia).
  - split_and!; try (intros v Hv; (apply B5 in Hv || apply B6 in Hv || apply B7 in Hv);
      by apply negb_false_iff, bool_decide_eq_true in Hv).
    intros t Ht. destruct (occurrence_in _ _ _ Hocc Ht) as [Hle|Hu]; [left|by right]. split; [|done].
    apply (refines_iff _ (arf_occurred self)); [|by eapply occurrence_valid|done|done].
    destruct (arc_occurred _) as [|a b|] eqn:Eo; try done. simpl. apply Z.ltb_ge.
    by eapply (rp_occurred _ (rok_report _ Ho)).
  - exists node, reaching. done.
Qed.
End Reviewed.
