(* ===== verification/Sources.v ===== *)
(** * Historical sources of departures already taken

    [actuals/source.rs]: a reported departure is bound to an immutable original
    position and to the complete physical activity since, never to where stock
    happens to be today.  The resolution names the group that balances the
    departure and refuses whenever the record leaves the source open. *)

From Stdlib Require Import Bool ZArith Lia String List.
From stdpp Require Import base decidable option list numbers sets.
From S2P Require Import Prelude Containers Encoding Hub Reference Catalog Stock Movement Work Lineage Treatment Dispatch Departure Counts Accounts Balance Reports.

Definition HUB_STOCK_EVENT_CAPACITY : nat := 8 * 4096.

Record HistoricalActualPosition := {
  hap_id : HubRecordId;
  hap_trace : HubRecordId;
  hap_variant : HubRecordId;
  hap_parent : option HubRecordId;
  hap_location : HubRecordId;
  hap_packs : WholePacks;
  hap_revision : HubRevision
}.
#[global] Instance HistoricalActualPosition_eq_dec : EqDecision HistoricalActualPosition.
Proof. solve_decision. Defined.
Definition HistoricalActualPosition_from (group : PhysicalStockGroup) : HistoricalActualPosition :=
  {| hap_id := pg_id group; hap_trace := pg_trace group; hap_variant := pg_variant group;
     hap_parent := pg_parent group; hap_location := pg_location group; hap_packs := pg_packs group;
     hap_revision := pg_revision group |}.

Record HistoricalActualSource := {
  has_operation : HubRecordId;
  has_actor : PublicKey;
  has_hub : HubId;
  has_stock_revision : HubRevision;
  has_catalog_revision : HubRevision;
  has_group : HistoricalActualPosition;
  has_location : ReferenceRecord;
  has_occurred : Occurrence;
  has_recorded_at : UnixTimestamp
}.
#[global] Instance HistoricalActualSource_eq_dec : EqDecision HistoricalActualSource.
Proof. solve_decision. Defined.

Module ActualPhysicalActivityKind.
Inductive ActualPhysicalActivityKind :=
| GroupBorn | LocationChanged | CountReconciled | OtherPhysicalEffect.
#[global] Instance ActualPhysicalActivityKind_eq_dec : EqDecision ActualPhysicalActivityKind.
Proof. solve_decision. Defined.
End ActualPhysicalActivityKind.
Abbreviation ActualPhysicalActivityKind := ActualPhysicalActivityKind.ActualPhysicalActivityKind.

Record ActualPhysicalActivity := {
  apa_sequence : refined u32_range;
  apa_operation : HubRecordId;
  apa_actor : PublicKey;
  apa_stock_revision : HubRevision;
  apa_hub : HubId;
  apa_trace : HubRecordId;
  apa_group : HubRecordId;
  apa_location : option HubRecordId;
  apa_kind : ActualPhysicalActivityKind;
  apa_occurred : Occurrence;
  apa_recorded_at : UnixTimestamp
}.

Record ActualSourceContext := {
  asx_source : HistoricalActualSource;
  asx_lineage : PhysicalLineage;
  asx_balancing_group : PhysicalStockGroup;
  asx_subsequent_activity : list ActualPhysicalActivity
}.

Record CountedShortageSourceContext := {
  csx_source : ActualSourceContext;
  csx_count : CountPostPlan
}.

Record ResolvedActualSource := {
  ros_historical : HistoricalActualSource;
  ros_balancing_group : HubRecordId
}.

(** [bounds]: a reversed interval has none. *)
Definition source_bounds (value : Occurrence) : option (UnixTimestamp * UnixTimestamp) :=
  match value with
  | Occurrence.Known at_ => Some (at_, at_)
  | Occurrence.Interval earliest latest =>
      if raw earliest <=? raw latest then Some (earliest, latest) else None
  | Occurrence.Unknown => None
  end.

Definition HistoricalActualSource_validate (self : HistoricalActualSource)
  : result unit ActualReportError :=
  map_err (fun _ => ActualReportError.InvalidHistory)
    (Occurrence_validate (has_occurred self) (has_recorded_at self)) ;;?
  if (rr_id (has_location self) !=? hap_location (has_group self))
     || (raw (hap_packs (has_group self)) =? 0)
     || (hap_parent (has_group self) ==? Some (hap_id (has_group self)))
     || (ReferenceValue_kind (rr_value (has_location self)) !=? ReferenceKind.Location)
     || (raw (rr_revision (has_location self)) >? raw (has_catalog_revision self))
     || (raw (hap_revision (has_group self)) >? raw (has_stock_revision self))
  then Err ActualReportError.InvalidHistory
  else Ok tt.

(** The mutable locals of the loop over the activity. *)
Record ActivityState := {
  avs_previous : HubRevision;
  avs_previous_sequence : Z;
  avs_operations : list (HubRecordId * (HubRevision * UnixTimestamp * PublicKey));
  avs_birth_known : bool
}.

(** The activity after its group's node was found: whether a birth establishes
    the balancing group at the source's place before the departure. *)
Definition birth_of (source : HistoricalActualSource) (current : PhysicalStockGroup)
    (depart_min : UnixTimestamp) (node : PhysicalLineageNode) (event : ActualPhysicalActivity)
  : result bool ActualReportError :=
  if apa_kind event ==? ActualPhysicalActivityKind.GroupBorn then
    if (apa_stock_revision event !=? pln_created_revision node) || is_none (apa_location event)
    then Err ActualReportError.InvalidNativeContext
    else Ok ((apa_group event ==? pg_id current)
             && (apa_location event ==? Some (rr_id (has_location source)))
             && is_some_and (source_bounds (apa_occurred event))
                  (fun '(_, latest) => raw latest <=? raw depart_min))
  else Ok false.

(** The last match of the loop body. *)
Definition activity_permits (depart_max : UnixTimestamp) (event : ActualPhysicalActivity)
  : result unit ActualReportError :=
  match apa_kind event with
  | ActualPhysicalActivityKind.CountReconciled => Err ActualReportError.HistoricalSourceUnresolved
  | ActualPhysicalActivityKind.LocationChanged =>
      if negb (is_some_and (source_bounds (apa_occurred event))
                 (fun '(earliest, _) => raw depart_max <? raw earliest))
      then Err ActualReportError.HistoricalSourceUnresolved
      else Ok tt
  | _ => Ok tt
  end.

Definition follow_activity (source : HistoricalActualSource) (graph : PhysicalLineage)
    (current : PhysicalStockGroup) (depart_min depart_max now : UnixTimestamp)
    (st : ActivityState) (event : ActualPhysicalActivity) : result ActivityState ActualReportError :=
  if (apa_hub event !=? has_hub source) || (apa_trace event !=? hap_trace (has_group source))
     || (raw (apa_stock_revision event) <? raw (avs_previous st))
     || (raw (apa_stock_revision event) <=? raw (has_stock_revision source))
     || (raw (apa_stock_revision event) >? raw (pl_revision graph))
     || (raw (apa_recorded_at event) <? raw (has_recorded_at source))
     || (raw (apa_recorded_at event) >? raw now)
     || (apa_operation event ==? has_operation source)
     || (raw (apa_sequence event) <=? avs_previous_sequence st)
     || (raw (apa_sequence event) >? Z.of_nat HUB_STOCK_EVENT_CAPACITY)
  then Err ActualReportError.InvalidNativeContext
  else
    let stamp := (apa_stock_revision event, apa_recorded_at event, apa_actor event) in
    if conflicts (avs_operations st) (apa_operation event) stamp
    then Err ActualReportError.InvalidNativeContext
    else
      map_err (fun _ => ActualReportError.InvalidNativeContext)
        (Occurrence_validate (apa_occurred event) (apa_recorded_at event)) ;;?
      let? node := ok_or (PhysicalLineage_node graph (apa_group event))
        ActualReportError.InvalidNativeContext in
      let? born := birth_of source current depart_min node event in
      let affected := default false (PhysicalLineage_captured_member graph
        (hap_id (has_group source)) (has_stock_revision source) (apa_group event)) in
      (if negb affected then Ok tt else activity_permits depart_max event) ;;?
      Ok {| avs_previous := apa_stock_revision event;
            avs_previous_sequence := raw (apa_sequence event);
            avs_operations := bt_insert (apa_operation event) stamp (avs_operations st);
            avs_birth_known := avs_birth_known st || born |}.

(** [matches] on a reported candidate. *)
Definition position_matches (source : HistoricalActualSource) (s : ReportedActualSource) : bool :=
  (ras_trace s ==? hap_trace (has_group source))
  && is_none_or (ras_group s) (fun v => v ==? hap_id (has_group source))
  && is_none_or (ras_location s) (fun v => v ==? rr_id (has_location source)).
Definition claims_source (sources : ActualReportSources) (source : HistoricalActualSource) : bool :=
  match sources with
  | ActualReportSources.Unknown => true
  | _ => existsb (position_matches source) (ActualReportSources_candidates sources)
  end.

Section Sources.
Context `{Sha256}.

Definition ActualSourceContext_resolve_at_boundary (self : ActualSourceContext)
    (original : ActualReportRecord) (occurred : Occurrence) (now : UnixTimestamp)
    (counted_shortage : option CountPostPlan) : result ResolvedActualSource ActualReportError :=
  ActualReportRecord_validate original ;;?
  let source := asx_source self in
  HistoricalActualSource_validate source ;;?
  let current := asx_balancing_group self in
  map_err (fun _ => ActualReportError.InvalidNativeContext) (PhysicalStockGroup_validate current) ;;?
  let graph := asx_lineage self in
  if (has_hub source !=? arr_hub original) || (has_hub source !=? pl_hub graph)
     || (hap_trace (has_group source) !=? pl_trace graph)
     || (hap_variant (has_group source) !=? pl_variant graph)
     || (pg_trace current !=? pl_trace graph) || (pg_variant current !=? pl_variant graph)
     || (raw (has_stock_revision source) >? raw (pl_revision graph))
     || (is_none counted_shortage && (raw (arr_stock_revision original) >? raw (pl_revision graph)))
     || (raw (has_recorded_at source) >? raw now) || (raw (arr_recorded_at original) >? raw now)
     || (raw (pg_revision current) >? raw (pl_revision graph))
  then Err ActualReportError.InvalidNativeContext
  else
    map_err (fun _ => ActualReportError.InvalidInput)
      (Occurrence_validate occurred (arr_recorded_at original)) ;;?
    let report := arr_report original in
    if is_some_and (arc_variant report) (fun v => v !=? hap_variant (has_group source))
       || negb (refines (arc_occurred report) occurred)
    then Err ActualReportError.ConflictingEvidence
    else
      let? native := ok_or (PhysicalLineage_node graph (hap_id (has_group source)))
        ActualReportError.InvalidNativeContext in
      let? current_node := ok_or (PhysicalLineage_node graph (pg_id current))
        ActualReportError.InvalidNativeContext in
      if (pln_parent native !=? hap_parent (has_group source))
         || (pln_parent current_node !=? pg_parent current)
         || (pln_packs current_node !=? pg_packs current)
      then Err ActualReportError.InvalidNativeContext
      else
        let? captured := map_err (fun _ => ActualReportError.InvalidNativeContext)
          (PhysicalLineage_restore_scope graph (has_stock_revision source)
             [{| psa_group := hap_id (has_group source);
                 psa_created_revision := pln_created_revision native;
                 psa_captured_packs := hap_packs (has_group source) |}]) in
        let? resolved := map_err (fun _ => ActualReportError.InvalidNativeContext)
          (PhysicalLineage_resolve graph captured) in
        if raw (rps_packs resolved) >? raw (hap_packs (has_group source))
        then Err ActualReportError.HistoricalSourceUnresolved
        else if negb (existsb (fun g => pln_id g ==? pg_id current) (rps_groups resolved))
        then Err ActualReportError.HistoricalSourceUnresolved
        else if negb (claims_source (arc_sources report) source)
        then Err ActualReportError.HistoricalSourceUnresolved
        else
          match source_bounds occurred with
          | None => Err ActualReportError.HistoricalSourceUnresolved
          | Some (depart_min, depart_max) =>
              if negb (is_some_and (source_bounds (has_occurred source))
                         (fun '(_, latest) => raw latest <=? raw depart_min))
              then Err ActualReportError.HistoricalSourceUnresolved
              else if (HUB_STOCK_EVENT_CAPACITY <? length (asx_subsequent_activity self))%nat
              then Err ActualReportError.Capacity
              else
                let? st := try_fold (follow_activity source graph current depart_min depart_max now)
                  {| avs_previous := has_stock_revision source; avs_previous_sequence := 0;
                     avs_operations := [];
                     avs_birth_known := pg_id current ==? hap_id (has_group source) |}
                  (asx_subsequent_activity self) in
                if negb (avs_birth_known st) then Err ActualReportError.HistoricalSourceUnresolved
                else Ok {| ros_historical := source; ros_balancing_group := pg_id current |}
          end.

Definition ActualSourceContext_resolve (self : ActualSourceContext)
    (original : ActualReportRecord) (occurred : Occurrence) (now : UnixTimestamp)
  : result ResolvedActualSource ActualReportError :=
  ActualSourceContext_resolve_at_boundary self original occurred now None.

Definition is_shortage (effect : CountEffect) : bool :=
  match effect with CountEffect.Shortage _ _ _ _ => true | _ => false end.

Definition CountedShortageSourceContext_resolve (self : CountedShortageSourceContext)
    (report : ActualReportRecord) (occurred : Occurrence) (now : UnixTimestamp)
  : result ResolvedActualSource ActualReportError :=
  let count := csx_count self in
  let source := csx_source self in
  map_err (fun _ => ActualReportError.InvalidNativeContext) (CountPostPlan_validate count) ;;?
  let scope := co_scope (cpp_count count) in
  if negb (is_shortage (cpp_effect count))
     || (cs_hub scope !=? arr_hub report) || (cs_hub scope !=? pl_hub (asx_lineage source))
     || (cs_trace scope !=? pl_trace (asx_lineage source))
     || (rr_id (cs_variant scope) !=? pl_variant (asx_lineage source))
     || (cs_stock_revision scope !=? pl_revision (asx_lineage source))
     || (asx_balancing_group source !=? cpp_before count)
     || (raw (cpp_recorded_at count) >? raw now)
     || (raw (has_recorded_at (asx_source source)) >? raw (cpp_recorded_at count))
     || (raw (has_catalog_revision (asx_source source)) >? raw (cpp_catalog_revision count))
     || (has_operation (asx_source source) ==? cpp_operation count)
     || (has_operation (asx_source source) ==? arr_operation report)
     || existsb (fun a => raw (apa_recorded_at a) >? raw (cpp_recorded_at count))
          (asx_subsequent_activity source)
     || negb (is_some_and (source_bounds occurred)
                (fun '(_, latest) => raw latest <=? raw (cpp_confirmed_on_hand_at count)))
  then Err ActualReportError.HistoricalSourceUnresolved
  else ActualSourceContext_resolve_at_boundary source report occurred now (Some count).
End Sources.

(** ** What a resolved source establishes *)

Lemma source_bounds_instants o a b :
  source_bounds o = Some (a, b) ->
  instant o (raw a) /\ instant o (raw b) /\ forall t, instant o t -> raw a <= t <= raw b.
Proof.
  destruct o as [x|x y|]; simpl; intros E; simplify_eq.
  - split_and!; [done..|]. intros t ->. lia.
  - destruct (Z.leb_spec (raw x) (raw y)); simplify_eq. split_and!; [lia..|done].
Qed.

(** Activity on the cohort of the source: it was never counted away, and it was
    moved only after the departure. *)
Definition undisturbed_source (occurred : Occurrence) (event : ActualPhysicalActivity) : Prop :=
  apa_kind event <> ActualPhysicalActivityKind.CountReconciled /\
  (apa_kind event = ActualPhysicalActivityKind.LocationChanged ->
    forall t u, instant occurred t -> instant (apa_occurred event) u -> t < u).

(** The balancing group came to be at the source's place before the departure. *)
Definition born_in_place (source : HistoricalActualSource) (graph : PhysicalLineage)
    (current : PhysicalStockGroup) (occurred : Occurrence) (event : ActualPhysicalActivity) : Prop :=
  apa_kind event = ActualPhysicalActivityKind.GroupBorn /\ apa_group event = pg_id current /\
  apa_location event = Some (rr_id (has_location source)) /\
  (exists n, n ∈ pl_nodes graph /\ pln_id n = pg_id current /\
    pln_created_revision n = apa_stock_revision event) /\
  forall t u, instant occurred t -> instant (apa_occurred event) u -> u <= t.

Record activity_followed (source : HistoricalActualSource) (graph : PhysicalLineage)
    (now : UnixTimestamp) (event : ActualPhysicalActivity) : Prop := {
  af_scope : apa_hub event = has_hub source /\ apa_trace event = hap_trace (has_group source);
  af_revision : raw (has_stock_revision source) < raw (apa_stock_revision event) <= raw (pl_revision graph);
  af_recorded : raw (has_recorded_at source) <= raw (apa_recorded_at event) <= raw now;
  af_operation : apa_operation event <> has_operation source
}.

Section Followed.
Context (source : HistoricalActualSource) (graph : PhysicalLineage) (current : PhysicalStockGroup)
  (occurred : Occurrence) (depart_min depart_max now : UnixTimestamp)
  (Hwf : lineage_wf graph) (Hocc : source_bounds occurred = Some (depart_min, depart_max)).

Let step := follow_activity source graph current depart_min depart_max now.

Lemma birth_of_run node event born :
  PhysicalLineage_node graph (apa_group event) = Some node ->
  birth_of source current depart_min node event = Ok born -> born = true ->
  born_in_place source graph current occurred event.
Proof.
  intros [Hn Hid]%(wf_node graph Hwf) Hb ->. unfold birth_of in Hb. case_bool_decide; [|done].
  apply guard_Ok in Hb as [Hg Hb]. injection Hb as Hb. breflect. destruct_and?.
  destruct (source_bounds (apa_occurred event)) as [[a b]|] eqn:Eb; simpl in *; [|done]. breflect.
  destruct (source_bounds_instants _ _ _ Eb) as (_ & _ & He).
  destruct (source_bounds_instants _ _ _ Hocc) as (_ & _ & Ho).
  split_and!; try done; [exists node; split_and!; congruence|].
  intros t u Ht%Ho Hu%He. lia.
Qed.

Lemma activity_permits_run event :
  activity_permits depart_max event = Ok tt -> undisturbed_source occurred event.
Proof.
  unfold activity_permits, undisturbed_source. intros Hp. destruct (apa_kind event); try done.
  split; [done|]. intros _ t u Ht Hu. apply guard_Ok in Hp as [Hp _].
  destruct (source_bounds (apa_occurred event)) as [[a b]|] eqn:Eb; simpl in *; [|done]. breflect.
  destruct (source_bounds_instants _ _ _ Eb) as (_ & _ & He).
  destruct (source_bounds_instants _ _ _ Hocc) as (_ & _ & Ho). apply Ho in Ht. apply He in Hu. lia.
Qed.

(** The anchor existed when the source was recorded. *)
Context (Hanchor : exists a, a ∈ pl_nodes graph /\ pln_id a = hap_id (has_group source) /\
  raw (pln_created_revision a) <= raw (has_stock_revision source)).
Context (Hrev : raw (has_stock_revision source) <= raw (pl_revision graph)).

Lemma follow_activity_run st event st' :
  step st event = Ok st' ->
  activity_followed source graph now event /\
  avs_previous_sequence st < raw (apa_sequence event) /\
  avs_previous_sequence st' = raw (apa_sequence event) /\
  (forall n, pln_id n = apa_group event ->
    member graph (has_stock_revision source) (hap_id (has_group source)) n ->
    undisturbed_source occurred event) /\
  (avs_birth_known st' = true ->
    avs_birth_known st = true \/ born_in_place source graph current occurred event).
Proof.
  unfold step, follow_activity. intros Hs. apply guard_Ok in Hs as [Hg Hs].
  apply guard_Ok in Hs as [_ Hs]. apply seq_Ok in Hs as [_ Hs]. apply bind_Ok in Hs as (node & Hn%ok_or_Ok & Hs).
  apply bind_Ok in Hs as (born & Hb & Hs). apply seq_Ok in Hs as [Hp [= <-]]. breflect. destruct_and?. simpl.
  split_and!; try done.
  - intros n Hid Hm. apply activity_permits_run.
    destruct (captured_member_decides graph Hwf (hap_id (has_group source)) (has_stock_revision source)
      (apa_group event)) as (b & Hc & Hiff). rewrite Hc in Hp. simpl in Hp.
    assert (b = true) as -> by (apply Hiff; split_and!; [done|done|by exists n]). done.
  - intros [?|Hb1]%orb_true_iff; [by left|right]. by eapply birth_of_run.
Qed.

Lemma follow_activities_run st events st' :
  try_fold step st events = Ok st' ->
  Forall (activity_followed source graph now) events /\
  Forall (fun e => avs_previous_sequence st < raw (apa_sequence e)) events /\
  NoDup (apa_sequence <$> events) /\
  (forall e n, e ∈ events -> pln_id n = apa_group e ->
    member graph (has_stock_revision source) (hap_id (has_group source)) n -> undisturbed_source occurred e) /\
  (avs_birth_known st' = true ->
    avs_birth_known st = true \/ Exists (born_in_place source graph current occurred) events).
Proof.
  revert st. induction events as [|e events IH]; intros st; cbn [try_fold].
  { intros [= <-]. do 2 (split; [by apply Forall_nil|]). split; [by apply NoDup_nil|].
    split; [by intros e n ?%elem_of_nil|]. tauto. }
  intros (st1 & H1 & H2)%bind_Ok. apply follow_activity_run in H1 as (A1 & A2 & A3 & A4 & A5).
  apply IH in H2 as (B1 & B2 & B3 & B4 & B5). rewrite A3 in B2. split_and!.
  - by constructor.
  - constructor; [done|]. eapply list.Forall_impl; [exact B2|]. simpl. lia.
  - csimpl. constructor; [|done]. intros (e' & E & He')%list_elem_of_fmap. rewrite list.Forall_forall in B2.
    specialize (B2 e' He'). rewrite E in B2. lia.
  - intros e' n [->|He']%elem_of_cons; [apply A4|by apply B4].
  - intros Hk. destruct (B5 Hk) as [Hk'|Hex]; [|right; by apply Exists_cons_tl].
    destruct (A5 Hk') as [?|?]; [by left|right; by apply Exists_cons_hd].
Qed.
End Followed.

(** A source the report names, or leaves entirely open. *)
Definition reported_source (sources : ActualReportSources) (source : HistoricalActualSource) : Prop :=
  sources = ActualReportSources.Unknown \/
  exists s, s ∈ ActualReportSources_candidates sources /\ ras_trace s = hap_trace (has_group source) /\
    (forall g, ras_group s = Some g -> g = hap_id (has_group source)) /\
    (forall l, ras_location s = Some l -> l = rr_id (has_location source)).

Lemma is_none_or_eq {A} `{EqDecision A} (o : option A) a :
  is_none_or o (fun v => v ==? a) = true <-> forall v, o = Some v -> v = a.
Proof. destruct o; simpl; [rewrite bool_decide_eq_true|]; naive_solver. Qed.

Lemma claims_source_iff sources source :
  claims_source sources source = true <-> reported_source sources source.
Proof.
  assert (existsb (position_matches source) (ActualReportSources_candidates sources) = true <->
    exists s, s ∈ ActualReportSources_candidates sources /\ ras_trace s = hap_trace (has_group source) /\
      (forall g, ras_group s = Some g -> g = hap_id (has_group source)) /\
      (forall l, ras_location s = Some l -> l = rr_id (has_location source))) as He.
  { rewrite existsb_exists. unfold position_matches. setoid_rewrite <- list_elem_of_In.
    setoid_rewrite andb_true_iff. setoid_rewrite andb_true_iff. setoid_rewrite bool_decide_eq_true.
    setoid_rewrite is_none_or_eq. naive_solver. }
  unfold reported_source. destruct sources; simpl in *; rewrite ?He; naive_solver.
Qed.

(** One recorded anchor, restored and resolved. *)
Lemma restore_one_anchor graph rev a scope :
  lineage_wf graph -> PhysicalLineage_restore_scope graph rev [a] = Ok scope ->
  restorable graph rev a /\ cps_anchors scope = [a] /\ cps_captured_revision scope = rev.
Proof.
  intros Hwf Hr. unfold PhysicalLineage_restore_scope in Hr. run_ok. simpl.
  match goal with E : try_fold _ _ _ = Ok _ |- _ => simpl in E; apply bind_Ok in E as (? & E & _) end.
  split; [|done]. by eapply restore_anchor_Ok.
Qed.

Record source_resolved (self : ActualSourceContext) (original : ActualReportRecord)
    (occurred : Occurrence) (now : UnixTimestamp) : Prop := {
  sv_evidence : group_ok (asx_balancing_group self) /\
    has_hub (asx_source self) = arr_hub original /\
    (forall v, arc_variant (arr_report original) = Some v ->
      v = hap_variant (has_group (asx_source self))) /\
    (forall t, instant occurred t -> instant (arc_occurred (arr_report original)) t) /\
    reported_source (arc_sources (arr_report original)) (asx_source self);
  sv_scope : hap_trace (has_group (asx_source self)) = pg_trace (asx_balancing_group self) /\
    hap_variant (has_group (asx_source self)) = pg_variant (asx_balancing_group self) /\
    ReferenceValue_kind (rr_value (has_location (asx_source self))) = ReferenceKind.Location /\
    raw (rr_revision (has_location (asx_source self))) <= raw (has_catalog_revision (asx_source self));
  sv_cohort : exists n, n ∈ pl_nodes (asx_lineage self) /\
    pln_id n = pg_id (asx_balancing_group self) /\ pln_packs n = pg_packs (asx_balancing_group self) /\
    member (asx_lineage self) (has_stock_revision (asx_source self))
      (hap_id (has_group (asx_source self))) n /\
    raw (pln_packs n) <= raw (hap_packs (has_group (asx_source self)));
  sv_before : forall t u, instant occurred t -> instant (has_occurred (asx_source self)) u -> u <= t;
  sv_activity : Forall (activity_followed (asx_source self) (asx_lineage self) now)
      (asx_subsequent_activity self) /\ NoDup (apa_sequence <$> asx_subsequent_activity self);
  sv_quiet : forall e n, e ∈ asx_subsequent_activity self -> pln_id n = apa_group e ->
    member (asx_lineage self) (has_stock_revision (asx_source self))
      (hap_id (has_group (asx_source self))) n -> undisturbed_source occurred e;
  sv_born : pg_id (asx_balancing_group self) = hap_id (has_group (asx_source self)) \/
    Exists (born_in_place (asx_source self) (asx_lineage self) (asx_balancing_group self) occurred)
      (asx_subsequent_activity self)
}.

(** The group that balances the departure is live stock of the source's cohort. *)
Lemma resolved_in_cohort graph source native scope res m :
  lineage_wf graph ->
  PhysicalLineage_restore_scope graph (has_stock_revision source)
    [{| psa_group := hap_id (has_group source); psa_created_revision := pln_created_revision native;
        psa_captured_packs := hap_packs (has_group source) |}] = Ok scope ->
  PhysicalLineage_resolve graph scope = Ok res -> m ∈ rps_groups res ->
  (exists a, a ∈ pl_nodes graph /\ pln_id a = hap_id (has_group source) /\
    raw (pln_created_revision a) <= raw (has_stock_revision source)) /\
  m ∈ pl_nodes graph /\ member graph (has_stock_revision source) (hap_id (has_group source)) m /\
  raw (pln_packs m) <= raw (rps_packs res).
Proof.
  intros Hwf Hs Hres Hm. apply restore_one_anchor in Hs as (((a & Ha & Hid & Hc) & Hle & _) & Han & Hrev);
    [|done]. simpl in *. split; [exists a; split_and!; congruence|].
  pose proof (resolve_union_run _ _ _ Hwf Hres) as (_ & _ & Hr).
  rewrite (rs_packs _ _ _ Hr). split_and!.
  - by apply (resolve_groups graph scope res m Hwf Hres) in Hm as (? & _).
  - apply (resolve_groups graph scope res m Hwf Hres) in Hm as (_ & _ & b & Hb & Hmem).
    rewrite Han in Hb. apply list_elem_of_singleton in Hb as ->. by rewrite Hrev in Hmem.
  - transitivity (sum_packs (pln_packs <$> [m])); [simpl; lia|].
    apply sum_packs_submseteq, fmap_submseteq. by apply singleton_submseteq_l.
Qed.

Section Resolved.
Context `{Sha256}.

Lemma resolve_at_boundary_run self original occurred now shortage r :
  lineage_wf (asx_lineage self) ->
  ActualSourceContext_resolve_at_boundary self original occurred now shortage = Ok r ->
  r = {| ros_historical := asx_source self; ros_balancing_group := pg_id (asx_balancing_group self) |} /\
  source_resolved self original occurred now.
Proof.
  intros Hwf Hr. unfold ActualSourceContext_resolve_at_boundary in Hr.
  apply seq_Ok in Hr as [Ho%report_record_validate_Ok Hr]. apply seq_Ok in Hr as [Hh Hr].
  unfold HistoricalActualSource_validate in Hh. apply seq_Ok in Hh as [_ [Hh _]%guard_Ok].
  apply seq_Ok in Hr as [Hg Hr]. rewrite map_err_Ok, validate_Ok in Hg.
  apply guard_Ok in Hr as [B1 Hr]. apply seq_Ok in Hr as [Hocc Hr]. rewrite map_err_Ok in Hocc.
  apply guard_Ok in Hr as [B2 Hr]. rewrite orb_false_iff, some_and_false, negb_false_iff in B2.
  destruct B2 as [Bv Br]. apply bind_Ok in Hr as (native & Hn%ok_or_Ok & Hr).
  apply bind_Ok in Hr as (cur & Hcur%ok_or_Ok & Hr). apply guard_Ok in Hr as [B3 Hr].
  apply bind_Ok in Hr as (scope & Hs & Hr). rewrite map_err_Ok in Hs.
  apply bind_Ok in Hr as (res & Hres & Hr). rewrite map_err_Ok in Hres.
  do 3 (apply guard_Ok in Hr as [?B Hr]). apply negb_false_iff, claims_source_iff in B2.
  apply negb_false_iff, existsb_exists in B0 as (m & Hm & Em). rewrite <- list_elem_of_In in Hm.
  destruct (source_bounds occurred) as [[dmin dmax]|] eqn:Eb; [|done].
  do 2 (apply guard_Ok in Hr as [?B Hr]). apply bind_Ok in Hr as (st & Hst & Hr).
  apply guard_Ok in Hr as [Hk [= <-]]. split; [done|].
  destruct (resolved_in_cohort _ _ _ _ _ _ Hwf Hs Hres Hm) as (Ha & Hmn & Hmem & Hle).
  apply (wf_node _ Hwf) in Hcur as [Hcn Hcid]. rewrite bool_decide_eq_true in Em.
  assert (m = cur) as -> by (apply (wf_node_inj _ Hwf); congruence).
  rewrite !orb_false_iff in B1. destruct_and?. breflect. destruct_and?.
  eapply follow_activities_run in Hst as (A1 & _ & A3 & A4 & A5); [|done..].
  constructor; try done.
  - split_and!; try done.
    + intros v Hv%Bv. by breflect.
    + apply refines_iff; [|by eapply occurrence_valid|done].
      destruct (arc_occurred _) as [|a b|] eqn:Eo; try done. simpl. apply Z.ltb_ge.
      by eapply (rp_occurred _ (rok_report _ Ho)).
  - split_and!; [congruence|congruence|done|lia].
  - exists cur. split_and!; try done. lia.
  - destruct (source_bounds (has_occurred _)) as [[a b]|] eqn:Es; simpl in *; [|done]. breflect.
    intros t u Ht%(source_bounds_instants _ _ _ Eb) Hu%(source_bounds_instants _ _ _ Es). lia.
  - apply A5 in Hk as [Hk|Hk]; [left|by right]. simpl in Hk. by breflect.
Qed.

(** C13: a departure taken before it was recorded is bound to a source only when
    the evidence leaves nothing open: the balancing group is live stock of the
    cohort the original position became, at most as large as it, the position
    was established before every instant the departure may have had, nothing of
    that cohort was counted away since or moved at an instant that may not be
    after the departure, the group itself is that position or was born at its
    place before the departure, and the report names this source or none. *)
Theorem actual_source_correct self original occurred now r :
  lineage_wf (asx_lineage self) ->
  ActualSourceContext_resolve self original occurred now = Ok r ->
  r = {| ros_historical := asx_source self; ros_balancing_group := pg_id (asx_balancing_group self) |} /\
  source_resolved self original occurred now.
Proof. apply resolve_at_boundary_run. Qed.

(** A counted shortage is a source only as the count saw it: the shortage of the
    very group counted, at the counted revision, for a departure certainly
    before the count's confirmation. *)
Theorem counted_source_correct self report occurred now r :
  lineage_wf (asx_lineage (csx_source self)) ->
  CountedShortageSourceContext_resolve self report occurred now = Ok r ->
  source_resolved (csx_source self) report occurred now /\
  ros_historical r = asx_source (csx_source self) /\ ros_balancing_group r = pg_id (cpp_before (csx_count self)) /\
  asx_balancing_group (csx_source self) = cpp_before (csx_count self) /\
  is_shortage (cpp_effect (csx_count self)) = true /\
  (forall t, instant occurred t -> t <= raw (cpp_confirmed_on_hand_at (csx_count self))) /\
  Forall (fun a => raw (apa_recorded_at a) <= raw (cpp_recorded_at (csx_count self)))
    (asx_subsequent_activity (csx_source self)).
Proof.
  intros Hwf Hr. unfold CountedShortageSourceContext_resolve in Hr.
  apply seq_Ok in Hr as [_ Hr]. apply guard_Ok in Hr as [B Hr].
  apply resolve_at_boundary_run in Hr as [-> Hs]; [|done]. rewrite !orb_false_iff in B.
  destruct B as [[[[[[[[[[[[[B0 _] _] _] _] _] B1] _] _] _] _] _] B2] B3].
  rewrite negb_false_iff in B0, B3. rewrite negb_false_iff, bool_decide_eq_true in B1. simpl. rewrite B1.
  split_and!; try done.
  - destruct (source_bounds occurred) as [[a b]|] eqn:Eb; simpl in B3; [|done]. breflect.
    intros t Ht%(source_bounds_instants _ _ _ Eb). lia.
  - apply list.Forall_forall. intros a Ha.
    destruct (Z.leb_spec (raw (apa_recorded_at a)) (raw (cpp_recorded_at (csx_count self)))); [done|].
    exfalso. apply not_true_iff_false in B2. apply B2, existsb_exists. exists a.
    rewrite <- list_elem_of_In. split; [done|]. by apply Z.ltb_lt.
Qed.
End Resolved.

(** ** A concrete source: the portion split off before it left *)

Definition sample_portion : PhysicalStockGroup :=
  {| pg_id := sample_id 53; pg_trace := sample_id 41; pg_variant := sample_id 12;
     pg_parent := Some (sample_id 51); pg_identification := Some sample_identification;
     pg_location := sample_id 21; pg_packs := sample_packs 3; pg_revision := HubRevision_INITIAL;
     pg_causal_floor := Some (sample_time 100); pg_work := [] |}.
Definition sample_historical : HistoricalActualSource :=
  {| has_operation := sample_id 81; has_actor := sample_key 1; has_hub := sample_hub;
     has_stock_revision := sample_revision 9; has_catalog_revision := sample_revision 7;
     has_group := HistoricalActualPosition_from (sample_group 51 10 []);
     has_location := sample_record 21 value_receiving;
     has_occurred := Occurrence.Known (sample_time 100); has_recorded_at := sample_time 150 |}.
Definition sample_birth : ActualPhysicalActivity :=
  {| apa_sequence := Refined 1 eq_refl; apa_operation := sample_id 82; apa_actor := sample_key 1;
     apa_stock_revision := sample_revision 10; apa_hub := sample_hub; apa_trace := sample_id 41;
     apa_group := sample_id 53; apa_location := Some (sample_id 21);
     apa_kind := ActualPhysicalActivityKind.GroupBorn;
     apa_occurred := Occurrence.Known (sample_time 200); apa_recorded_at := sample_time 210 |}.
Definition sample_source_context : ActualSourceContext :=
  {| asx_source := sample_historical; asx_lineage := sample_lineage_split;
     asx_balancing_group := sample_portion; asx_subsequent_activity := [sample_birth] |}.
Definition sample_departed : ActualReportCommand :=
  {| arc_variant := None; arc_recipient := None; arc_packs := Some (sample_packs 2);
     arc_sources := ActualReportSources.EstablishedClaim
       {| ras_trace := sample_id 41; ras_group := None; ras_location := Some (sample_id 21) |};
     arc_occurred := Occurrence.Interval (sample_time 240) (sample_time 300);
     arc_observation := sample_provenance "Taken" |}.

Lemma sample_source_resolves : exists original r,
  @ActualReportCommand_preserve sample_sha256 sample_departed sample_hub (sample_revision 9)
    (sample_revision 7) (sample_id 83) (sample_key 1) (sample_time 320) = Ok original /\
  @ActualSourceContext_resolve sample_sha256 sample_source_context original
    (Occurrence.Known (sample_time 250)) (sample_time 400) = Ok r.
Proof.
  assert (match @ActualReportCommand_preserve sample_sha256 sample_departed sample_hub (sample_revision 9)
      (sample_revision 7) (sample_id 83) (sample_key 1) (sample_time 320) with
    | Ok original => is_ok (@ActualSourceContext_resolve sample_sha256 sample_source_context original
        (Occurrence.Known (sample_time 250)) (sample_time 400))
    | Err _ => false end = true) as E by (vm_compute; reflexivity).
  destruct (@ActualReportCommand_preserve _ _ _ _ _ _ _ _) as [original|]; [|done]. exists original.
  destruct (@ActualSourceContext_resolve _ _ _ _ _) as [r|]; [|done]. by exists r.
Qed.

Lemma actual_source_correct_witness : exists original,
  source_resolved sample_source_context original (Occurrence.Known (sample_time 250)) (sample_time 400).
Proof.
  destruct sample_source_resolves as (original & r & _ & E). exists original.
  exact (proj2 (@actual_source_correct sample_sha256 sample_source_context _ _ _ _ sample_lineage_split_wf E)).
Defined.
