(* ===== verification/Known.v ===== *)
(** * Known departures and their current interpretation

    The immutable departures a review compares with ([actuals/reconcile.rs],
    [ActualKnownDeparture]), the recipients their amendments may have given them
    ([corrections/quantity/known.rs]), and the captured interpretations of a
    whole inventory ([actuals/interpretation.rs]), where the quantity account of
    a count is checked once and shared by all the events it explains. *)

From Stdlib Require Import Bool ZArith Lia String List.
From stdpp Require Import base decidable option list numbers sets.
From S2P Require Import Prelude Containers Encoding Hub Reference Catalog Stock Movement Work Lineage Treatment Dispatch Departure Custody Counts Accounts Attribution Balance Reports Sources.

(** ** Known departures *)

Record ActualKnownDepartureLine := {
  akl_group : HubRecordId;
  akl_location : ReferenceRecord;
  akl_packs : WholePacks
}.
#[global] Instance ActualKnownDepartureLine_eq_dec : EqDecision ActualKnownDepartureLine.
Proof. solve_decision. Defined.

Record ActualKnownDeparture := {
  akd_operation : HubRecordId;
  akd_actor : PublicKey;
  akd_hub : HubId;
  akd_stock_revision : HubRevision;
  akd_catalog_revision : HubRevision;
  akd_trace : HubRecordId;
  akd_variant : ReferenceRecord;
  akd_recipient : ReferenceRecord;
  akd_occurred : Occurrence;
  akd_recorded_at : UnixTimestamp;
  akd_lines : list ActualKnownDepartureLine
}.
#[global] Instance ActualKnownDeparture_eq_dec : EqDecision ActualKnownDeparture.
Proof. solve_decision. Defined.

Definition ActualKnownDeparture_packs (self : ActualKnownDeparture)
  : result WholePacks ActualReportError :=
  try_fold (fun n l => map_err (fun _ => ActualReportError.InvalidHistory)
    (WholePacks_checked_add n (akl_packs l))) zero_packs (akd_lines self).

Definition validate_known_line (catalog : HubRevision) (groups : list (HubRecordId * unit))
    (line : ActualKnownDepartureLine) : result (list (HubRecordId * unit)) ActualReportError :=
  let (fresh, groups) := bs_insert (akl_group line) groups in
  if (raw (akl_packs line) =? 0) || negb fresh
     || (ReferenceValue_kind (rr_value (akl_location line)) !=? ReferenceKind.Location)
     || (raw (rr_revision (akl_location line)) >? raw catalog)
  then Err ActualReportError.InvalidHistory
  else Ok groups.

Definition ActualKnownDeparture_validate (self : ActualKnownDeparture)
  : result unit ActualReportError :=
  if (length (akd_lines self) =? 0)%nat || (HUB_DISPATCH_LINES <? length (akd_lines self))%nat
  then Err ActualReportError.Capacity
  else
    map_err (fun _ => ActualReportError.InvalidHistory)
      (Occurrence_validate (akd_occurred self) (akd_recorded_at self)) ;;?
    if (ReferenceValue_kind (rr_value (akd_variant self)) !=? ReferenceKind.Pack)
       || (ReferenceValue_kind (rr_value (akd_recipient self)) !=? ReferenceKind.Party)
       || (raw (rr_revision (akd_variant self)) >? raw (akd_catalog_revision self))
       || (raw (rr_revision (akd_recipient self)) >? raw (akd_catalog_revision self))
       || (akd_stock_revision self ==? HubRevision_INITIAL)
    then Err ActualReportError.InvalidHistory
    else
      let? _ := try_fold (validate_known_line (akd_catalog_revision self)) [] (akd_lines self) in
      let? _ := ActualKnownDeparture_packs self in
      Ok tt.

(** [Result::ok]. *)
Definition result_ok {A E} (r : result A E) : option A :=
  match r with Ok a => Some a | Err _ => None end.

(** [overlaps]: two occurrences that may be of the same instant. *)
Definition overlaps (a b : Occurrence) : bool :=
  match bounds a, bounds b with
  | Some (a, b), Some (c, d) => (raw a <=? raw d) && (raw c <=? raw b)
  | _, _ => true
  end.

(** ** The recipients an event may have had *)

Module QuantityEffectError.
Inductive QuantityEffectError :=
| InvalidHistory | InvalidFacts | InvalidScope | StaleRevision | UncertainSubmission
| AlreadyReviewed | UnsupportedFamily
| Actual (e : ActualReportError) | Accounting (e : CorrectionError).
End QuantityEffectError.
Abbreviation QuantityEffectError := QuantityEffectError.QuantityEffectError.

Module KnownCorrectionQuantity.
Inductive KnownCorrectionQuantity :=
| Physical (accounts : list DepartureQuantityAccount)
| CountExplanation (count : CountPostPlan) (account : CountLossQuantityAccount).
End KnownCorrectionQuantity.
Abbreviation KnownCorrectionQuantity := KnownCorrectionQuantity.KnownCorrectionQuantity.

Record CorrectionKnownDeparture := {
  ckd_original : ActualKnownDeparture;
  ckd_recipient_original : OriginalRecipientAttribution;
  ckd_recipient_history : list RecipientAttributionCorrection;
  ckd_quantity : KnownCorrectionQuantity
}.

Record KnownRecipients := {
  knr_parties : list (HubRecordId * unit);
  knr_unresolved : bool
}.
Definition KnownRecipients_could_match (self : KnownRecipients) (recipient : option HubRecordId)
  : bool :=
  knr_unresolved self || is_none_or recipient (fun id => bs_contains id (knr_parties self)).

(** The loop body over the two sides of one amendment. *)
Definition associate (st : KnownRecipients) (recipient : AmendedRecipient) : KnownRecipients :=
  match recipient with
  | AmendedRecipient.Known r =>
      {| knr_parties := (bs_insert (rr_id r) (knr_parties st)).2;
         knr_unresolved := knr_unresolved st |}
  | AmendedRecipient.Unknown => {| knr_parties := knr_parties st; knr_unresolved := true |}
  end.
Definition known_recipients (original : ActualKnownDeparture)
    (history : list RecipientAttributionCorrection) : KnownRecipients :=
  fold_left (fun st record => fold_left associate [rac_before record; rac_after record] st) history
    {| knr_parties := (bs_insert (rr_id (akd_recipient original)) []).2; knr_unresolved := false |}.

Definition CorrectionKnownDeparture_recipient_associations_through
    (self : CorrectionKnownDeparture) (hub : HubId) (stock catalog : HubRevision)
    (latest : UnixTimestamp) : result KnownRecipients QuantityEffectError :=
  let original := ckd_original self in
  map_err QuantityEffectError.Actual (ActualKnownDeparture_validate original) ;;?
  let recipient := ckd_recipient_original self in
  if (akd_hub original !=? hub) || (raw (akd_stock_revision original) >? raw stock)
     || (raw (akd_catalog_revision original) >? raw catalog)
     || (raw (akd_recorded_at original) >? raw latest)
     || (ora_hub recipient !=? akd_hub original)
     || (ora_operation recipient !=? akd_operation original)
     || (ora_stock_revision recipient !=? akd_stock_revision original)
     || (ora_catalog_revision recipient !=? akd_catalog_revision original)
     || (ora_actor recipient !=? akd_actor original)
     || (ora_recorded_at recipient !=? akd_recorded_at original)
     || (ora_recipient recipient !=? akd_recipient original)
     || negb (existsb (fun p => p ==? akd_trace original) (ora_populations recipient))
     || existsb (fun r => (raw (ats_stock_revision (rac_stamp r)) >? raw stock)
                          || (raw (ats_catalog_revision (rac_stamp r)) >? raw catalog)
                          || (raw (ats_recorded_at (rac_stamp r)) >? raw latest))
          (ckd_recipient_history self)
  then Err QuantityEffectError.InvalidHistory
  else
    let? _ := map_err (fun _ => QuantityEffectError.InvalidHistory)
      (current_recipient_attribution recipient (ckd_recipient_history self)) in
    Ok (known_recipients original (ckd_recipient_history self)).

(** The loop body over the lines' accounts. *)
Definition match_account (original : ActualKnownDeparture) (stock : HubRevision)
    (groups : list (HubRecordId * unit)) (account : DepartureQuantityAccount)
  : result (list (HubRecordId * unit)) QuantityEffectError :=
  let line := dac_original account in
  let (fresh, groups) := bs_insert (odq_group line) groups in
  if (odq_operation line !=? akd_operation original)
     || (odq_stock_revision line !=? akd_stock_revision original)
     || (odq_trace line !=? akd_trace original)
     || (odq_variant line !=? rr_id (akd_variant original))
     || negb fresh
     || negb (existsb (fun l => (akl_group l ==? odq_group line) && (akl_packs l ==? odq_packs line))
                (akd_lines original))
     || existsb (fun a => raw (dqa_stock_revision a) >? raw stock) (dac_amendments account)
  then Err QuantityEffectError.InvalidHistory
  else Ok groups.

(** [lines.len() == 1 && p(lines[0])]. *)
Definition only_line (lines : list ActualKnownDepartureLine)
    (p : ActualKnownDepartureLine -> bool) : bool :=
  match lines with [l] => p l | _ => false end.

(** The guard on a shared count account. *)
Definition explains_event (self : CorrectionKnownDeparture) (count : CountPostPlan)
    (account : CountLossQuantityAccount) (packs : WholePacks) (explained : EffectiveCountExplanation)
    (hub : HubId) (stock catalog : HubRevision) (latest : UnixTimestamp) : bool :=
  let original := ckd_original self in
  let loss := cla_original account in
  (ora_family (ckd_recipient_original self) ==? CorrectedDepartureFamily.ExplainedCountLoss)
  && (cs_hub (co_scope (cpp_count count)) ==? hub)
  && (ocl_reconciliation loss ==? cpp_id count)
  && (ocl_operation loss ==? cpp_operation count)
  && (ocl_stock_revision loss ==? cpp_stock_revision count)
  && (ocl_trace loss ==? akd_trace original)
  && (ocl_variant loss ==? rr_id (akd_variant original))
  && (ocl_packs loss ==? packs)
  && (pg_trace (cpp_before count) ==? ocl_trace loss)
  && (pg_variant (cpp_before count) ==? ocl_variant loss)
  && (cle_stock_revision (ece_original explained) ==? akd_stock_revision original)
  && only_line (akd_lines original)
       (fun l => (akl_group l ==? pg_id (cpp_before count))
                 && (akl_packs l ==? cle_packs (ece_original explained)))
  && (raw (cpp_recorded_at count) <=? raw (akd_recorded_at original))
  && (raw (cpp_catalog_revision count) <=? raw (akd_catalog_revision original))
  && (raw (cpp_recorded_at count) <=? raw latest)
  && (raw (cpp_catalog_revision count) <=? raw catalog)
  && forallb (fun e => raw (cle_stock_revision e) <=? raw stock) (cla_explanations account)
  && forallb (fun a => raw (cea_stock_revision a) <=? raw stock) (cla_amendments account).

Definition find_explanation (operation : HubRecordId) (rows : list EffectiveCountExplanation)
  : option EffectiveCountExplanation :=
  List.find (fun e => cle_operation (ece_original e) ==? operation) rows.

Section Known.
Context `{Sha256}.

Definition CorrectionKnownDeparture_associations_through (self : CorrectionKnownDeparture)
    (hub : HubId) (stock catalog : HubRevision) (latest : UnixTimestamp)
  : result KnownRecipients QuantityEffectError :=
  let? associations :=
    CorrectionKnownDeparture_recipient_associations_through self hub stock catalog latest in
  let original := ckd_original self in
  (match ckd_quantity self with
   | KnownCorrectionQuantity.Physical accounts =>
       if (ora_family (ckd_recipient_original self) ==? CorrectedDepartureFamily.ExplainedCountLoss)
          || negb (length accounts =? length (akd_lines original))%nat
       then Err QuantityEffectError.InvalidHistory
       else let? _ := try_fold (match_account original stock) [] accounts in Ok tt
   | KnownCorrectionQuantity.CountExplanation count account =>
       map_err (fun _ => QuantityEffectError.InvalidHistory) (CountPostPlan_validate count) ;;?
       match cpp_effect count with
       | CountEffect.Shortage packs _ _ _ =>
           let? explained := ok_or (find_explanation (akd_operation original) (cla_effective account))
             QuantityEffectError.InvalidHistory in
           if negb (explains_event self count account packs explained hub stock catalog latest)
           then Err QuantityEffectError.InvalidHistory
           else Ok tt
       | _ => Err QuantityEffectError.InvalidHistory
       end
   end) ;;?
  Ok associations.
End Known.

(** ** Interpretations *)

Record ActualKnownCountExplanation := {
  ake_count : CountPostPlan;
  ake_account : CountLossQuantityAccount
}.

#[global] Instance CountLossQuantityAccount_eq_dec : EqDecision CountLossQuantityAccount.
Proof.
  assert (EqDecision OriginalCountLossQuantity) by solve_decision.
  assert (EqDecision CountLossExplanation) by solve_decision.
  assert (EqDecision CountExplanationAmendment) by solve_decision.
  assert (EqDecision EffectiveCountExplanation) by solve_decision. solve_decision.
Defined.
#[global] Instance CountPostPlan_eq_dec : EqDecision CountPostPlan.
Proof.
  assert (EqDecision CountScope) by solve_decision. assert (EqDecision CountObservation) by solve_decision.
  assert (EqDecision CountPostReferences) by solve_decision. assert (EqDecision CountEffect) by solve_decision.
  solve_decision.
Defined.
#[global] Instance ActualKnownCountExplanation_eq_dec : EqDecision ActualKnownCountExplanation.
Proof. solve_decision. Defined.
#[global] Instance RecipientAttributionCorrection_eq_dec : EqDecision RecipientAttributionCorrection.
Proof. solve_decision. Defined.

Record ActualKnownInterpretation := {
  aki_stock_revision : HubRevision;
  aki_catalog_revision : HubRevision;
  aki_latest_recorded_at : UnixTimestamp;
  aki_original : ActualKnownDeparture;
  aki_recipient_original : OriginalRecipientAttribution;
  aki_recipient_history : list RecipientAttributionCorrection;
  aki_quantities : list DepartureQuantityAccount;
  aki_count_explanation : option ActualKnownCountExplanation
}.

Record ActualKnownInterpretationView := {
  akv_recipients : KnownRecipients;
  akv_original_packs : WholePacks;
  akv_effective_packs : WholePacks
}.
Definition ActualKnownInterpretationView_could_match_packs (self : ActualKnownInterpretationView)
    (packs : option WholePacks) : bool :=
  is_none_or packs (fun value =>
    (value ==? akv_original_packs self) || (value ==? akv_effective_packs self)).

(** The operations of a shared count, except the explanation [own]. *)
Definition count_operations (own : HubRecordId) (value : ActualKnownCountExplanation)
  : list (HubRecordId * HubRevision) :=
  (cpp_operation (ake_count value), cpp_stock_revision (ake_count value))
  :: (co_operation (cpp_count (ake_count value)), co_recorded_revision (cpp_count (ake_count value)))
  :: ((fun row => (cle_operation row, cle_stock_revision row))
        <$> List.filter (fun row => cle_operation row !=? own) (cla_explanations (ake_account value)))
  ++ ((fun row => (cea_operation row, cea_stock_revision row)) <$> cla_amendments (ake_account value)).

Definition recipient_operations (self : ActualKnownInterpretation)
  : list (HubRecordId * HubRevision) :=
  (fun r => (ats_operation (rac_stamp r), ats_stock_revision (rac_stamp r)))
    <$> aki_recipient_history self.
Definition quantity_operations (self : ActualKnownInterpretation)
  : list (HubRecordId * HubRevision) :=
  concat ((fun line => (fun r => (dqa_operation r, dqa_stock_revision r)) <$> dac_amendments line)
            <$> aki_quantities self).

Definition ActualKnownInterpretation_operations_with_count (self : ActualKnownInterpretation)
    (include_count : bool) : list (HubRecordId * HubRevision) :=
  (akd_operation (aki_original self), akd_stock_revision (aki_original self))
  :: recipient_operations self ++ quantity_operations self
  ++ match aki_count_explanation self with
     | Some value => if include_count then count_operations (akd_operation (aki_original self)) value
                     else []
     | None => []
     end.
Definition ActualKnownInterpretation_operations (self : ActualKnownInterpretation)
  : list (HubRecordId * HubRevision) :=
  ActualKnownInterpretation_operations_with_count self true.

(** [observe_revision]: an operation has one revision and a revision one operation. *)
Record ObservedRevisions := {
  obr_revisions : list (Z * HubRecordId);
  obr_operations : list (HubRecordId * Z)
}.
Definition observe_revision (st : ObservedRevisions) (operation : HubRecordId)
    (revision : HubRevision) : result ObservedRevisions ActualReportError :=
  if conflicts (obr_revisions st) (raw revision) operation
     || conflicts (obr_operations st) operation (raw revision)
  then Err ActualReportError.InvalidHistory
  else Ok {| obr_revisions := bt_insert (raw revision) operation (obr_revisions st);
             obr_operations := bt_insert operation (raw revision) (obr_operations st) |}.
Definition nothing_observed : ObservedRevisions := {| obr_revisions := []; obr_operations := [] |}.

(** The loop body of [view] over the operations. *)
Definition observe_once (st : list (HubRecordId * unit) * ObservedRevisions)
    (entry : HubRecordId * HubRevision)
  : result (list (HubRecordId * unit) * ObservedRevisions) ActualReportError :=
  let (fresh, ids) := bs_insert entry.1 st.1 in
  if negb fresh then Err ActualReportError.InvalidHistory
  else let? observed := observe_revision st.2 entry.1 entry.2 in Ok (ids, observed).

Definition amendment_rows (self : ActualKnownInterpretation) : nat :=
  fold_left (fun n line => n + length (dac_amendments line))%nat (aki_quantities self)
    (length (aki_recipient_history self)).
Definition count_rows (value : ActualKnownCountExplanation) : nat :=
  (length (cla_explanations (ake_account value)) + length (cla_amendments (ake_account value)))%nat.

(** The quantity [view] hands to the associations. *)
Definition interpretation_quantity (self : ActualKnownInterpretation)
  : result KnownCorrectionQuantity ActualReportError :=
  match aki_count_explanation self with
  | Some value =>
      if is_empty (aki_quantities self)
      then Ok (KnownCorrectionQuantity.CountExplanation (ake_count value) (ake_account value))
      else Err ActualReportError.InvalidHistory
  | None => Ok (KnownCorrectionQuantity.Physical (aki_quantities self))
  end.
Definition effective_packs_of (self : ActualKnownInterpretation)
  : result WholePacks ActualReportError :=
  match aki_count_explanation self with
  | Some value =>
      let? row := ok_or (find_explanation (akd_operation (aki_original self))
        (cla_effective (ake_account value))) ActualReportError.InvalidHistory in
      Ok (ece_packs row)
  | None =>
      try_fold (fun sum line => map_err (fun _ => ActualReportError.InvalidHistory)
        (WholePacks_checked_add sum (dac_effective line))) zero_packs (aki_quantities self)
  end.
Definition known_departure_of (self : ActualKnownInterpretation) (quantity : KnownCorrectionQuantity)
  : CorrectionKnownDeparture :=
  {| ckd_original := aki_original self; ckd_recipient_original := aki_recipient_original self;
     ckd_recipient_history := aki_recipient_history self; ckd_quantity := quantity |}.

Section Views.
Context `{Sha256}.

Definition ActualKnownInterpretation_view (self : ActualKnownInterpretation)
  : result ActualKnownInterpretationView ActualReportError :=
  let original := aki_original self in
  if (HUB_DISPATCH_LINES <? length (akd_lines original))%nat
     || (HUB_DISPATCH_LINES <? length (aki_quantities self))%nat
     || (HUB_CORRECTION_ROWS <? length (aki_recipient_history self))%nat
  then Err ActualReportError.Capacity
  else
    let rows := (amendment_rows self + from_option count_rows 0 (aki_count_explanation self))%nat in
    if (HUB_CORRECTION_ROWS <? rows)%nat then Err ActualReportError.Capacity
    else
      let? quantity := interpretation_quantity self in
      let? recipients := map_err (fun _ => ActualReportError.InvalidHistory)
        (CorrectionKnownDeparture_associations_through (known_departure_of self quantity)
           (akd_hub original) (aki_stock_revision self) (aki_catalog_revision self)
           (aki_latest_recorded_at self)) in
      let? _ := try_fold observe_once ([], nothing_observed)
        (ActualKnownInterpretation_operations self) in
      let? effective_packs := effective_packs_of self in
      let? original_packs := ActualKnownDeparture_packs original in
      Ok {| akv_recipients := recipients; akv_original_packs := original_packs;
            akv_effective_packs := effective_packs |}.
End Views.

(** ** Inventories *)

Record ActualKnownInterpretations := {
  aks_hub : HubId;
  aks_stock_revision : HubRevision;
  aks_catalog_revision : HubRevision;
  aks_latest_recorded_at : UnixTimestamp;
  aks_records : list ActualKnownInterpretation
}.

(** The account of a count that an earlier record of the inventory has proved. *)
Record CountInventoryProof := {
  cip_snapshot : ActualKnownCountExplanation;
  cip_effective : list (HubRecordId * EffectiveCountExplanation);
  cip_rows : nat
}.
Definition CountInventoryProof_new (snapshot : ActualKnownCountExplanation) : CountInventoryProof :=
  {| cip_snapshot := snapshot;
     cip_effective := fold_left
       (fun m row => bt_insert (cle_operation (ece_original row)) row m)
       (cla_effective (ake_account snapshot)) [];
     cip_rows := count_rows snapshot |}.
Definition CountInventoryProof_view (self : CountInventoryProof) (record : ActualKnownInterpretation)
  : result ActualKnownInterpretationView ActualReportError :=
  let original := aki_original record in
  if (HUB_DISPATCH_LINES <? length (akd_lines original))%nat
     || (HUB_DISPATCH_LINES <? length (aki_quantities record))%nat
     || (HUB_CORRECTION_ROWS <? length (aki_recipient_history record) + cip_rows self)%nat
  then Err ActualReportError.Capacity
  else
    let count := ake_count (cip_snapshot self) in
    let account := ake_account (cip_snapshot self) in
    let loss := cla_original account in
    let? row := ok_or (bt_get (akd_operation original) (cip_effective self))
      ActualReportError.InvalidHistory in
    if negb (is_empty (aki_quantities record))
       || (ora_family (aki_recipient_original record) !=? CorrectedDepartureFamily.ExplainedCountLoss)
       || (akd_trace original !=? ocl_trace loss)
       || (rr_id (akd_variant original) !=? ocl_variant loss)
       || (akd_stock_revision original !=? cle_stock_revision (ece_original row))
       || negb (only_line (akd_lines original)
            (fun l => (akl_group l ==? pg_id (cpp_before count))
                      && (akl_packs l ==? cle_packs (ece_original row))))
       || (raw (akd_recorded_at original) <? raw (cpp_recorded_at count))
       || (raw (akd_catalog_revision original) <? raw (cpp_catalog_revision count))
    then Err ActualReportError.InvalidHistory
    else
      let? recipients := map_err (fun _ => ActualReportError.InvalidHistory)
        (CorrectionKnownDeparture_recipient_associations_through
           (known_departure_of record (KnownCorrectionQuantity.CountExplanation count account))
           (akd_hub original) (aki_stock_revision record) (aki_catalog_revision record)
           (aki_latest_recorded_at record)) in
      let? original_packs := ActualKnownDeparture_packs original in
      Ok {| akv_recipients := recipients; akv_original_packs := original_packs;
            akv_effective_packs := ece_packs row |}.

(** What an operation does in the inventory: the kind, the event or count it
    belongs to, and the line or explanation it amends. *)
Abbreviation InventoryRole := (Z * HubRecordId * option HubRecordId)%type.

Definition event_role (record : ActualKnownInterpretation) : InventoryRole :=
  match aki_count_explanation record with
  | None => (0, akd_operation (aki_original record), None)
  | Some value => (5, cpp_operation (ake_count value), None)
  end.

Abbreviation Protected := (option (HubRecordId * HubRevision * HubRecordId)).
Definition is_protected (protected : Protected) (id : HubRecordId) : bool :=
  is_some_and protected (fun '(raw_operation, _, operation) =>
    (id ==? raw_operation) || (id ==? operation)).

(** The first loop: every event takes its revision and its role. *)
Definition announce (protected : Protected)
    (st : ObservedRevisions * list (HubRecordId * InventoryRole)) (record : ActualKnownInterpretation)
  : result (ObservedRevisions * list (HubRecordId * InventoryRole)) ActualReportError :=
  let original := aki_original record in
  if is_protected protected (akd_operation original) then Err ActualReportError.InvalidIdentity
  else
    let? observed := observe_revision st.1 (akd_operation original) (akd_stock_revision original) in
    Ok (observed, bt_insert (akd_operation original) (event_role record) st.2).

(** The mutable locals of the second loop. *)
Record InventoryState := {
  ivs_keys : list ((HubRecordId * HubRecordId * HubRecordId) * unit);
  ivs_events : list (HubRecordId * ActualKnownInterpretation);
  ivs_groups : list ((HubRecordId * HubRecordId) * (HubRecordId * HubRecordId));
  ivs_counts : list (HubRecordId * CountInventoryProof);
  ivs_observed : ObservedRevisions;
  ivs_roles : list (HubRecordId * InventoryRole);
  ivs_changes : list (HubRecordId * unit);
  ivs_views : list ActualKnownInterpretationView
}.

(** Two populations of one event disagree about the event. *)
Definition disagree (prior record : ActualKnownInterpretation) : bool :=
  (aki_recipient_original prior !=? aki_recipient_original record)
  || (aki_recipient_history prior !=? aki_recipient_history record)
  || (akd_actor (aki_original prior) !=? akd_actor (aki_original record))
  || (akd_hub (aki_original prior) !=? akd_hub (aki_original record))
  || (akd_stock_revision (aki_original prior) !=? akd_stock_revision (aki_original record))
  || (akd_catalog_revision (aki_original prior) !=? akd_catalog_revision (aki_original record))
  || (akd_recorded_at (aki_original prior) !=? akd_recorded_at (aki_original record))
  || (akd_occurred (aki_original prior) !=? akd_occurred (aki_original record)).

(** The role every operation of the record's history must have; the account of
    a count is entered once. *)
Definition count_entries (value : ActualKnownCountExplanation)
  : list (HubRecordId * HubRevision * InventoryRole) :=
  let count := cpp_operation (ake_count value) in
  (count, cpp_stock_revision (ake_count value), (3, count, None))
  :: (co_operation (cpp_count (ake_count value)), co_recorded_revision (cpp_count (ake_count value)),
      (6, count, None))
  :: ((fun row => (cle_operation row, cle_stock_revision row, (5, count, None)))
        <$> cla_explanations (ake_account value))
  ++ ((fun row => (cea_operation row, cea_stock_revision row, (4, count, Some (cea_explanation row))))
        <$> cla_amendments (ake_account value)).
Definition record_entries (record : ActualKnownInterpretation) (new_count : bool)
  : list (HubRecordId * HubRevision * InventoryRole) :=
  let event := akd_operation (aki_original record) in
  ((fun r => (ats_operation (rac_stamp r), ats_stock_revision (rac_stamp r), (1, event, None)))
     <$> aki_recipient_history record)
  ++ concat ((fun line =>
       (fun r => (dqa_operation r, dqa_stock_revision r, (2, event, Some (odq_group (dac_original line)))))
         <$> dac_amendments line) <$> aki_quantities record)
  ++ match aki_count_explanation record with
     | Some value => if new_count then count_entries value else []
     | None => []
     end.

(** The loop body over the entries. *)
Definition enter_role (protected : Protected)
    (st : ObservedRevisions * list (HubRecordId * InventoryRole) * list (HubRecordId * unit))
    (entry : HubRecordId * HubRevision * InventoryRole)
  : result (ObservedRevisions * list (HubRecordId * InventoryRole) * list (HubRecordId * unit))
      ActualReportError :=
  let '(observed, roles, changes) := st in
  let '(id, revision, role) := entry in
  if is_protected protected id then Err ActualReportError.InvalidIdentity
  else
    let? observed := observe_revision observed id revision in
    if conflicts roles id role then Err ActualReportError.InvalidHistory
    else
      let changes :=
        if (role.1.1 =? 3) || (role.1.1 =? 6) then changes else (bs_insert id changes).2 in
      if (HUB_CORRECTION_ROWS <? length changes)%nat then Err ActualReportError.Capacity
      else Ok (observed, bt_insert id role roles, changes).

(** The loop body over the lines: a group leaves once in an event. *)
Definition enter_line (original : ActualKnownDeparture)
    (groups : list ((HubRecordId * HubRecordId) * (HubRecordId * HubRecordId)))
    (line : ActualKnownDepartureLine)
  : result (list ((HubRecordId * HubRecordId) * (HubRecordId * HubRecordId))) ActualReportError :=
  let key := (akd_operation original, akl_group line) in
  if is_some (bt_get key groups) then Err ActualReportError.InvalidHistory
  else Ok (bt_insert key (akd_trace original, rr_id (akd_variant original)) groups).

Section Inventory.
Context `{Sha256}.

(** The view of a record, its count's account being checked in full the first
    time and shared afterwards. *)
Definition inventory_view (counts : list (HubRecordId * CountInventoryProof))
    (record : ActualKnownInterpretation)
  : result (ActualKnownInterpretationView * bool * list (HubRecordId * CountInventoryProof))
      ActualReportError :=
  match aki_count_explanation record with
  | Some value =>
      match bt_get (cpp_operation (ake_count value)) counts with
      | None =>
          let? view := ActualKnownInterpretation_view record in
          Ok (view, true,
              bt_insert (cpp_operation (ake_count value)) (CountInventoryProof_new value) counts)
      | Some proof =>
          if cip_snapshot proof !=? value then Err ActualReportError.InvalidHistory
          else let? view := CountInventoryProof_view proof record in Ok (view, false, counts)
      end
  | None => let? view := ActualKnownInterpretation_view record in Ok (view, false, counts)
  end.

Definition enter_record (set : ActualKnownInterpretations) (protected : Protected)
    (st : InventoryState) (record : ActualKnownInterpretation)
  : result InventoryState ActualReportError :=
  let original := aki_original record in
  let (fresh, keys) := bs_insert
    (akd_operation original, akd_trace original, rr_id (akd_variant original)) (ivs_keys st) in
  if (akd_hub original !=? aks_hub set)
     || (aki_stock_revision record !=? aks_stock_revision set)
     || (aki_catalog_revision record !=? aks_catalog_revision set)
     || (aki_latest_recorded_at record !=? aks_latest_recorded_at set)
     || negb fresh
  then Err ActualReportError.InvalidNativeContext
  else if is_some_and (bt_get (akd_operation original) (ivs_events st))
            (fun prior => disagree prior record)
  then Err ActualReportError.InvalidHistory
  else
    let? (view, new_count, counts) := inventory_view (ivs_counts st) record in
    let? (observed, roles, changes) :=
      try_fold (enter_role protected) (ivs_observed st, ivs_roles st, ivs_changes st)
        (record_entries record new_count) in
    let? groups := try_fold (enter_line original) (ivs_groups st) (akd_lines original) in
    Ok {| ivs_keys := keys;
          ivs_events := bt_insert (akd_operation original) record (ivs_events st);
          ivs_groups := groups; ivs_counts := counts; ivs_observed := observed; ivs_roles := roles;
          ivs_changes := changes; ivs_views := ivs_views st ++ [view] |}.

Definition validate_inventory (set : ActualKnownInterpretations) (protected : Protected)
  : result (list ActualKnownInterpretationView) ActualReportError :=
  let records := aks_records set in
  if (HUB_STOCK_EVENT_CAPACITY <? length records)%nat then Err ActualReportError.Capacity
  else
    let? observed :=
      match protected with
      | Some (raw_operation, revision, _) => observe_revision nothing_observed raw_operation revision
      | None => Ok nothing_observed
      end in
    let? (observed, roles) := try_fold (announce protected) (observed, []) records in
    let? st := try_fold (enter_record set protected)
      {| ivs_keys := []; ivs_events := []; ivs_groups := []; ivs_counts := []; ivs_observed := observed;
         ivs_roles := roles; ivs_changes := []; ivs_views := [] |} records in
    Ok (ivs_views st).
End Inventory.

(** ** Known departures: when they are valid *)

(** The keys inserted so far. *)
Definition keys_of {A K} `{EqDecision K} (key : A -> K) (s : list (K * unit)) (seen : list A) : Prop :=
  forall k, bs_contains k s = true <-> k ∈ key <$> seen.

Lemma keys_of_nil {A K} `{EqDecision K} (key : A -> K) : keys_of key [] [].
Proof. intros k. split; [done|]. by intros ?%elem_of_nil. Qed.

Lemma keys_of_insert {A K} `{TotalOrd K, EqDecision K} (key : A -> K) s seen a :
  keys_of key s seen ->
  ((bs_insert (key a) s).1 = true <-> key a ∉ key <$> seen) /\
  keys_of key (bs_insert (key a) s).2 (seen ++ [a]).
Proof.
  intros Hs. split.
  - change (negb (bs_contains (key a) s) = true <-> key a ∉ key <$> seen).
    rewrite negb_true_iff, <- (Hs (key a)). by destruct (bs_contains _ _).
  - intros k. rewrite bs_contains_insert, orb_true_iff, bool_decide_eq_true, (Hs k), fmap_app, elem_of_app.
    csimpl. rewrite list_elem_of_singleton. naive_solver.
Qed.

Definition line_ok (catalog : HubRevision) (l : ActualKnownDepartureLine) : Prop :=
  0 < raw (akl_packs l) /\
  ReferenceValue_kind (rr_value (akl_location l)) = ReferenceKind.Location /\
  raw (rr_revision (akl_location l)) <= raw catalog.

Lemma validate_known_line_run catalog s seen l :
  keys_of akl_group s seen ->
  match validate_known_line catalog s l with
  | Ok s' => (akl_group l ∉ akl_group <$> seen /\ line_ok catalog l) /\ keys_of akl_group s' (seen ++ [l])
  | Err _ => ~ (akl_group l ∉ akl_group <$> seen /\ line_ok catalog l)
  end.
Proof.
  intros Hs. destruct (keys_of_insert akl_group s seen l Hs) as [Hf Hk].
  unfold validate_known_line, line_ok. pose proof (WholePacks_range (akl_packs l)).
  destruct (bs_insert _ _) as [fresh s']. simpl in *. destruct fresh; split_guard E; breflect; naive_solver lia.
Qed.

Lemma known_lines_Ok catalog lines :
  (exists s, try_fold (validate_known_line catalog) [] lines = Ok s) <->
  NoDup (akl_group <$> lines) /\ Forall (line_ok catalog) lines.
Proof.
  rewrite <- each_after_NoDup, <- each_after_Forall, <- each_after_and.
  pose proof (try_fold_each_after (validate_known_line catalog) (keys_of akl_group) _ [] lines
    (validate_known_line_run catalog) (keys_of_nil _)) as Hf.
  destruct (try_fold _ _ _) as [s|e]; [naive_solver|]. split; [by intros [? ?]|done].
Qed.

Record known_ok (k : ActualKnownDeparture) : Prop := {
  ko_lines : (1 <= length (akd_lines k) <= HUB_DISPATCH_LINES)%nat;
  ko_occurred : Occurrence_validate (akd_occurred k) (akd_recorded_at k) = Ok tt;
  ko_variant : ReferenceValue_kind (rr_value (akd_variant k)) = ReferenceKind.Pack /\
    raw (rr_revision (akd_variant k)) <= raw (akd_catalog_revision k);
  ko_recipient : ReferenceValue_kind (rr_value (akd_recipient k)) = ReferenceKind.Party /\
    raw (rr_revision (akd_recipient k)) <= raw (akd_catalog_revision k);
  ko_revision : akd_stock_revision k <> HubRevision_INITIAL;
  ko_groups : NoDup (akl_group <$> akd_lines k);
  ko_line : Forall (line_ok (akd_catalog_revision k)) (akd_lines k);
  ko_packs : exists total, ActualKnownDeparture_packs k = Ok total
}.

Lemma known_packs_Ok k total :
  ActualKnownDeparture_packs k = Ok total <-> raw total = sum_packs (akl_packs <$> akd_lines k).
Proof. unfold ActualKnownDeparture_packs. by rewrite (try_fold_add_Ok akl_packs). Qed.

Lemma known_validate_Ok k : ActualKnownDeparture_validate k = Ok tt <-> known_ok k.
Proof.
  unfold ActualKnownDeparture_validate. rewrite guard_Ok, seq_Ok, map_err_Ok, guard_Ok, bind_Ok.
  setoid_rewrite bind_Ok. pose proof (known_lines_Ok (akd_catalog_revision k) (akd_lines k)) as Hl.
  autorewrite with reflect. split.
  - intros ([? ?] & ? & ? & s & Hs & total & Ht & _). destruct_and?.
    destruct (proj1 Hl (ex_intro _ s Hs)). constructor; try done; [lia|by exists total].
  - intros [Hn Ho [Hv1 Hv2] [Hr1 Hr2] Hi Hg Hf [total Ht]]. destruct (proj2 Hl (conj Hg Hf)) as [s Hs].
    split_and!; try done; [lia..|]. exists s. split; [done|]. by exists total.
Qed.

(** Two occurrences overlap exactly when some instant is possible for both. *)
Lemma overlaps_iff a b :
  invalid_interval a = false -> invalid_interval b = false ->
  overlaps a b = true <-> exists t, instant a t /\ instant b t.
Proof.
  intros Ha Hb. unfold overlaps. destruct (bounds a) as [[x y]|] eqn:Ea.
  - destruct (bounds b) as [[z w]|] eqn:Eb.
    + destruct (instant_bounds _ _ _ Ha Ea) as (A1 & A2 & A3), (instant_bounds _ _ _ Hb Eb) as (B1 & B2 & B3).
      rewrite andb_true_iff, !Z.leb_le. split.
      * intros [H1 H2]. exists (Z.max (raw x) (raw z)). pose proof (bounds_ordered _ _ _ Ha Ea).
        pose proof (bounds_ordered _ _ _ Hb Eb).
        destruct a, b; simpl in *; simplify_eq; lia.
      * intros (t & Ht%A3 & Hu%B3). lia.
    + split; [intros _|done]. destruct (instant_exists a Ha) as [t Ht]. exists t. by destruct b.
  - split; [intros _|done]. destruct (instant_exists b Hb) as [t Ht]. exists t. by destruct a.
Qed.

(** ** Who may have received an event *)

(** The original recipient, and everyone an amendment names on either side; an
    unknown side may be anyone. *)
Definition side_allows (recipient : HubRecordId) (side : AmendedRecipient) : Prop :=
  match side with AmendedRecipient.Unknown => True | AmendedRecipient.Known r => rr_id r = recipient end.
Definition may_receive (k : ActualKnownDeparture) (history : list RecipientAttributionCorrection)
    (recipient : HubRecordId) : Prop :=
  rr_id (akd_recipient k) = recipient \/
  exists c, c ∈ history /\ (side_allows recipient (rac_before c) \/ side_allows recipient (rac_after c)).

Lemma could_match_associate st side recipient :
  KnownRecipients_could_match (associate st side) (Some recipient) = true <->
  KnownRecipients_could_match st (Some recipient) = true \/ side_allows recipient side.
Proof.
  unfold KnownRecipients_could_match. destruct side as [|r]; cbn [associate knr_unresolved knr_parties is_none_or].
  - rewrite !orb_true_iff. simpl. tauto.
  - rewrite bs_contains_insert, !orb_true_iff, bool_decide_eq_true. simpl. tauto.
Qed.

Lemma could_match_iff k history recipient :
  KnownRecipients_could_match (known_recipients k history) (Some recipient) = true <->
  may_receive k history recipient.
Proof.
  unfold known_recipients, may_receive. induction history as [|c history IH] using rev_ind.
  - unfold KnownRecipients_could_match. cbn [fold_left knr_unresolved knr_parties is_none_or orb].
    rewrite bs_contains_insert, orb_true_iff, bool_decide_eq_true.
    split; [intros [?|[=]]; by left|]. intros [?|(c & ?%elem_of_nil & _)]; [by left|done].
  - rewrite fold_left_app. cbn [fold_left]. rewrite !could_match_associate, IH.
    setoid_rewrite elem_of_app. setoid_rewrite list_elem_of_singleton. naive_solver.
Qed.

Lemma could_match_any k history : KnownRecipients_could_match (known_recipients k history) None = true.
Proof. unfold KnownRecipients_could_match. apply orb_true_r. Qed.

Lemma recipient_associations_run self hub stock catalog latest r :
  CorrectionKnownDeparture_recipient_associations_through self hub stock catalog latest = Ok r ->
  r = known_recipients (ckd_original self) (ckd_recipient_history self).
Proof.
  unfold CorrectionKnownDeparture_recipient_associations_through.
  intros [_ H]%seq_Ok. apply guard_Ok in H as [_ H]. by apply bind_Ok in H as (c & _ & [= <-]).
Qed.

(** ** Observed revisions *)

(** The pairs a state has observed, each operation with one revision. *)
Record observes (st : ObservedRevisions) (l : list (HubRecordId * Z)) : Prop := {
  ov_operations : forall op rev, bt_get op (obr_operations st) = Some rev <-> (op, rev) ∈ l;
  ov_revisions : forall op rev, bt_get rev (obr_revisions st) = Some op <-> (op, rev) ∈ l
}.

Lemma observes_nothing : observes nothing_observed [].
Proof. constructor; intros op rev; simpl; rewrite elem_of_nil; done. Qed.

Lemma conflicts_false {K V} `{EqDecision K, EqDecision V} (m : list (K * V)) k v :
  conflicts m k v = false <-> forall v', bt_get k m = Some v' -> v' = v.
Proof. unfold conflicts. rewrite some_and_false. setoid_rewrite negb_false_iff. by setoid_rewrite bool_decide_eq_true. Qed.

(** A pair is observed exactly when it agrees with all before. *)
Definition agrees (l : list (HubRecordId * Z)) (op : HubRecordId) (rev : Z) : Prop :=
  (forall rev', (op, rev') ∈ l -> rev' = rev) /\ (forall op', (op', rev) ∈ l -> op' = op).

Lemma observe_revision_run st l op (rev : HubRevision) :
  observes st l ->
  match observe_revision st op rev with
  | Ok st' => agrees l op (raw rev) /\ observes st' (l ++ [(op, raw rev)])
  | Err e => ~ agrees l op (raw rev)
  end.
Proof.
  intros [Ho Hr]. unfold observe_revision, agrees. split_guard E.
  - intros [H1 H2]. apply orb_true_iff in E as [E|E]; apply not_false_iff_true in E; apply E, conflicts_false.
    + intros op' ?%Hr. by apply H2.
    + intros rev' ?%Ho. by apply H1.
  - apply orb_false_iff in E as [E1 E2]. rewrite conflicts_false in E1. rewrite conflicts_false in E2.
    assert (forall rev', (op, rev') ∈ l -> rev' = raw rev) as H1 by (intros rev' ?%Ho; by apply E2).
    assert (forall op', (op', raw rev) ∈ l -> op' = op) as H2 by (intros op' ?%Hr; by apply E1).
    split; [done|]. constructor; intros op' rev'; simpl; rewrite bt_get_insert, elem_of_app, list_elem_of_singleton;
      case_decide as Hd; rewrite ?Ho, ?Hr; naive_solver.
Qed.

(** Pairs that are part of what a state observed can be observed once each. *)
Lemma observe_once_within st l es :
  observes st l -> NoDup es.*1 -> (forall e, e ∈ es -> (e.1, raw e.2) ∈ l) ->
  exists r, try_fold observe_once ([], nothing_observed) es = Ok r.
Proof.
  intros Hst Hn Hl.
  cut (exists ids ob, try_fold observe_once ([], nothing_observed) es = Ok (ids, ob) /\
    keys_of fst ids es /\ observes ob ((fun e => (e.1, raw e.2)) <$> es)); [naive_solver|].
  induction es as [|e es IH] using rev_ind.
  { exists [], nothing_observed. split_and!; [done|apply keys_of_nil|apply observes_nothing]. }
  rewrite fmap_app in Hn. apply list.NoDup_app in Hn as (Hn & Hf & _).
  destruct IH as (ids & ob & E & Hk & Ho); [done|set_solver|]. rewrite try_fold_app, E. cbn [bind try_fold].
  unfold observe_once. cbn [fst snd]. destruct (keys_of_insert fst ids es e Hk) as [Hfr Hk'].
  destruct (bs_insert e.1 ids) as [fresh ids']. simpl in *.
  assert (fresh = true) as -> by (apply Hfr; intros Hin; apply (Hf e.1 Hin); by left). cbn [negb].
  pose proof (observe_revision_run ob _ e.1 e.2 Ho) as Hr.
  destruct (observe_revision ob e.1 e.2) as [ob'|].
  - cbn [bind]. exists ids', ob'. split_and!; try done. rewrite fmap_app. apply Hr.
  - destruct Hr. assert ((e.1, raw e.2) ∈ l) as He by (apply Hl; set_solver).
    split; [intros rev'|intros op']; intros (e' & [= E1 E2] & He')%list_elem_of_fmap;
      (assert ((e'.1, raw e'.2) ∈ l) as H1 by (apply Hl; set_solver)).
    + apply (ov_operations _ _ Hst) in He, H1. congruence.
    + apply (ov_revisions _ _ Hst) in He, H1. congruence.
Qed.

Lemma observe_once_NoDup es r :
  try_fold observe_once ([], nothing_observed) es = Ok r -> NoDup es.*1 /\ keys_of fst r.1 es.
Proof.
  revert r. induction es as [|e es IH] using rev_ind; intros r.
  { intros [= <-]. split; [constructor|apply keys_of_nil]. }
  rewrite try_fold_app. intros (r0 & E & Hr)%bind_Ok. destruct (IH r0 E) as [Hn Hk]. simpl in Hr.
  apply bind_Ok in Hr as (r1 & Hr & [= <-]). unfold observe_once in Hr.
  destruct (keys_of_insert fst r0.1 es e Hk) as [Hf Hk']. destruct (bs_insert e.1 r0.1) as [fresh ids].
  apply guard_Ok in Hr as [Hfr Hr]. apply bind_Ok in Hr as (ob & _ & [= <-]). simpl in *. split; [|done].
  rewrite fmap_app. apply list.NoDup_app. split_and!; [done| |apply NoDup_singleton].
  intros x Hx ->%list_elem_of_singleton. apply negb_false_iff in Hfr. by apply Hf in Hfr.
Qed.

(** ** Sharing the account of a count *)

Lemma find_explanation_collected rows op :
  NoDup (cle_operation <$> (ece_original <$> rows)) ->
  bt_get op (fold_left (fun m row => bt_insert (cle_operation (ece_original row)) row m) rows [])
  = find_explanation op rows.
Proof.
  unfold find_explanation. induction rows as [|row rows IH] using rev_ind; [done|].
  rewrite !fmap_app, list.NoDup_app, fold_left_app. intros (Hn & Hf & _). cbn [fold_left].
  rewrite bt_get_insert, (IH Hn). clear IH. induction rows as [|x rows IH]; simpl.
  - case_bool_decide; case_decide; done.
  - simpl in Hf. case_bool_decide as Hx.
    + case_decide as Hd; [|done]. exfalso. apply (Hf op); [rewrite <- Hx; by left|]. rewrite <- Hd. by left.
    + apply IH; [by inversion Hn|]. intros y Hy. apply Hf. by right.
Qed.

Lemma find_explanation_elem op rows row :
  find_explanation op rows = Some row -> row ∈ rows /\ cle_operation (ece_original row) = op.
Proof. intros [Hr E]%List.find_some. rewrite list_elem_of_In. split; [done|by apply bool_decide_eq_true in E]. Qed.

(** The operations of a chain of amendments are new. *)
Lemma replayed_fresh original history st :
  replay_recipients original history = Ok st ->
  NoDup (ora_operation original :: ((fun r => ats_operation (rac_stamp r)) <$> history)).
Proof.
  revert st. induction history as [|r history IH] using rev_ind; intros st Hs; [apply NoDup_singleton|].
  rewrite replay_recipients_snoc in Hs. apply bind_Ok in Hs as (st0 & H0 & Hs).
  specialize (IH st0 H0). apply replay_recipients_run in H0 as [_ _ [_ _ _ Hops] _ _].
  unfold replay_recipient in Hs. apply seq_Ok in Hs as [_ Hs].
  rewrite (surjective_pairing (bs_insert _ _)), fresh_iff in Hs.
  assert (bs_contains (ats_operation (rac_stamp r)) (rrp_operations st0) = false) as Hf.
  { destruct (bs_contains _ _); [|done]. cbn [negb] in Hs. apply guard_Ok in Hs as [B _].
    rewrite ?orb_true_l, ?orb_true_r in B. done. }
  rewrite fmap_app, app_comm_cons. apply list.NoDup_app. split_and!; [done| |apply NoDup_singleton].
  intros op Hop ->%list_elem_of_singleton. apply not_true_iff_false in Hf. apply Hf, Hops.
  rewrite <- list_fmap_compose. by apply elem_of_cons in Hop.
Qed.

Section Shared.
Context `{Sha256}.

Lemma recipient_associations_fresh self hub stock catalog latest a :
  CorrectionKnownDeparture_recipient_associations_through self hub stock catalog latest = Ok a ->
  NoDup (akd_operation (ckd_original self) ::
    ((fun r => ats_operation (rac_stamp r)) <$> ckd_recipient_history self)).
Proof.
  unfold CorrectionKnownDeparture_recipient_associations_through.
  intros [_ H1]%seq_Ok. apply guard_Ok in H1 as [B H1]. apply bind_Ok in H1 as (c & Hc & _).
  rewrite map_err_Ok in Hc. apply current_recipient_run in Hc as (_ & _ & st & Hst & _).
  apply replayed_fresh in Hst. rewrite !orb_false_iff in B. destruct_and?.
  match goal with E : (ora_operation _ !=? _) = false |- _ => apply negb_false_iff, bool_decide_eq_true in E; by rewrite <- E end.
Qed.

Lemma count_associations_Ok self count account hub stock catalog latest a :
  ckd_quantity self = KnownCorrectionQuantity.CountExplanation count account ->
  CorrectionKnownDeparture_associations_through self hub stock catalog latest = Ok a <->
  CorrectionKnownDeparture_recipient_associations_through self hub stock catalog latest = Ok a /\
  CountPostPlan_validate count = Ok tt /\
  exists packs after rev changes row, cpp_effect count = CountEffect.Shortage packs after rev changes /\
    find_explanation (akd_operation (ckd_original self)) (cla_effective account) = Some row /\
    explains_event self count account packs row hub stock catalog latest = true.
Proof.
  intros Hq. unfold CorrectionKnownDeparture_associations_through. rewrite bind_Ok, Hq.
  split.
  - intros (a' & Ha & [[Hv He]%seq_Ok [= <-]]%seq_Ok). rewrite map_err_Ok in Hv. split_and!; [done..|].
    destruct (cpp_effect count) as [|packs after rev changes|]; try done.
    apply bind_Ok in He as (row & Hrow%ok_or_Ok & He). apply guard_Ok in He as [He%negb_false_iff _].
    by exists packs, after, rev, changes, row.
  - intros (Ha & Hv & packs & after & rev & changes & row & -> & -> & He). exists a.
    split; [done|]. rewrite Hv. cbn [map_err ok_or bind]. by rewrite He.
Qed.

Lemma filter_own_perm {A} (f : A -> HubRecordId) (l : list A) own :
  NoDup (f <$> l) -> own ∈ f <$> l -> own :: (f <$> List.filter (fun a => f a !=? own) l) ≡ₚ f <$> l.
Proof.
  induction l as [|a l IH]; csimpl; [by intros _ ?%elem_of_nil|].
  intros [Ha Hn]%NoDup_cons Ho. case_bool_decide as E; cbn [negb].
  - rewrite E. constructor. replace (List.filter _ l) with l; [done|]. rewrite E in Ha. clear -Ha.
    induction l as [|b l IH]; [done|]. csimpl in *. rewrite not_elem_of_cons in Ha. destruct Ha as [Hb Ha].
    rewrite bool_decide_eq_false_2 by congruence. simpl. by rewrite <- (IH Ha).
  - csimpl. rewrite <- IH; [apply perm_swap|done|]. apply elem_of_cons in Ho as [->|]; done.
Qed.

(** Every operation of a shared count, the explanations all included. *)
Definition shared_operations (value : ActualKnownCountExplanation) : list HubRecordId :=
  cpp_operation (ake_count value) :: co_operation (cpp_count (ake_count value))
  :: (cle_operation <$> cla_explanations (ake_account value))
  ++ (cea_operation <$> cla_amendments (ake_account value)).

Lemma own_operations_perm value own :
  NoDup (cle_operation <$> cla_explanations (ake_account value)) ->
  own ∈ cle_operation <$> cla_explanations (ake_account value) ->
  own :: (count_operations own value).*1 ≡ₚ shared_operations value.
Proof.
  intros Hn Ho. unfold count_operations, shared_operations. csimpl. rewrite fmap_app, <- !list_fmap_compose.
  change (compose fst (fun row => (cle_operation row, cle_stock_revision row))) with cle_operation.
  change (compose fst (fun row => (cea_operation row, cea_stock_revision row))) with cea_operation.
  rewrite <- (filter_own_perm cle_operation _ own Hn Ho). simpl. solve_Permutation.
Qed.

(** A record whose count another record of the same cut has proved in full has
    the view the shared proof gives it. *)
Lemma shared_view r0 r value v0 v st l :
  loss_restored (ake_account value) ->
  aki_count_explanation r0 = Some value -> aki_count_explanation r = Some value ->
  akd_hub (aki_original r0) = akd_hub (aki_original r) ->
  aki_stock_revision r0 = aki_stock_revision r -> aki_catalog_revision r0 = aki_catalog_revision r ->
  aki_latest_recorded_at r0 = aki_latest_recorded_at r ->
  ActualKnownInterpretation_view r0 = Ok v0 ->
  CountInventoryProof_view (CountInventoryProof_new value) r = Ok v ->
  observes st l -> (forall e, e ∈ ActualKnownInterpretation_operations r -> (e.1, raw e.2) ∈ l) ->
  (forall op, op ∈ (recipient_operations r).*1 -> op ∉ shared_operations value) ->
  ActualKnownInterpretation_view r = Ok v.
Proof.
  intros [Heff Hd]%loss_restored_rows Hc0 Hc Hh Hs Hcat Hlat Hv0 Hv Hob Hl Hdis.
  unfold ActualKnownInterpretation_view in Hv0. apply guard_Ok in Hv0 as [_ Hv0]. apply guard_Ok in Hv0 as [_ Hv0].
  apply bind_Ok in Hv0 as (q0 & Hq0 & Hv0). apply bind_Ok in Hv0 as (a0 & Ha0 & Hv0).
  apply bind_Ok in Hv0 as (ob0 & Hob0 & _). unfold interpretation_quantity in Hq0. rewrite Hc0 in Hq0.
  destruct (is_empty (aki_quantities r0)) eqn:Eq0; [|done]. injection Hq0 as <-.
  rewrite map_err_Ok in Ha0. eapply count_associations_Ok in Ha0 as (_ & Hcv & packs & after & rev & ch & row0 & Hsh & Hf0 & He0);
    [|reflexivity]. cbn [known_departure_of ckd_original] in Hf0.
  unfold CountInventoryProof_view in Hv. cbn [CountInventoryProof_new cip_snapshot cip_effective cip_rows] in Hv.
  rewrite find_explanation_collected in Hv by (by rewrite Heff).
  apply guard_Ok in Hv as [B1 Hv]. apply bind_Ok in Hv as (row & Hrow%ok_or_Ok & Hv).
  apply guard_Ok in Hv as [B2 Hv]. apply bind_Ok in Hv as (rcp & Hrcp & Hv). rewrite map_err_Ok in Hrcp.
  apply bind_Ok in Hv as (op & Hop & [= <-]).
  assert (forall own row, find_explanation own (cla_effective (ake_account value)) = Some row ->
    own ∈ cle_operation <$> cla_explanations (ake_account value)) as Hin.
  { intros own x [Hx <-]%find_explanation_elem. rewrite <- Heff, <- list_fmap_compose.
    apply list_elem_of_fmap. by exists x. }
  apply observe_once_NoDup in Hob0 as [Hn0 _]. unfold ActualKnownInterpretation_operations,
    ActualKnownInterpretation_operations_with_count in Hn0. rewrite Hc0 in Hn0.
  assert (NoDup (shared_operations value)) as Hns.
  { rewrite <- (own_operations_perm value _ Hd (Hin _ _ Hf0)). eapply sublist_NoDup; [exact Hn0|].
    generalize (count_operations (akd_operation (aki_original r0)) value). intros ops.
    rewrite fmap_cons. cbn [fst]. apply sublist_skip. rewrite !fmap_app. do 2 apply sublist_inserts_l. reflexivity. }
  pose proof (own_operations_perm value _ Hd (Hin _ _ Hrow)) as Hperm.
  rewrite <- Hperm in Hns. apply list.NoDup_cons in Hns as [Hown Hns].
  rewrite !orb_false_iff in B1. rewrite !orb_false_iff in B2. destruct B1 as [[B11 B12] B13].
  destruct B2 as [[[[[[[B2 B3] B4] B5] B6] B7] B8] B9]. apply negb_false_iff in B2, B3, B4, B5, B6, B7.
  destruct (aki_quantities r) as [|] eqn:Eq; [clear B2|done].
  unfold ActualKnownInterpretation_view, interpretation_quantity, effective_packs_of, amendment_rows.
  rewrite Hc, Eq, B11, B12. cbn [is_empty fold_left from_option bind orb].
  assert ((HUB_CORRECTION_ROWS <? length (aki_recipient_history r))%nat = false) as ->
    by (apply Nat.ltb_ge; apply Nat.ltb_ge in B13; lia).
  rewrite B13. cbn [bind].
  assert (CorrectionKnownDeparture_associations_through
    (known_departure_of r (KnownCorrectionQuantity.CountExplanation (ake_count value) (ake_account value)))
    (akd_hub (aki_original r)) (aki_stock_revision r) (aki_catalog_revision r) (aki_latest_recorded_at r) = Ok rcp) as ->.
  { apply (count_associations_Ok _ (ake_count value) (ake_account value)); [done|].
    split_and!; [done|done|]. exists packs, after, rev, ch, row. split_and!; [done|done|].
    unfold explains_event in *. cbn [known_departure_of ckd_original ckd_recipient_original] in *.
    rewrite !andb_true_iff in He0. destruct_and!. rewrite !andb_true_iff. rewrite Hh, Hs, Hcat, Hlat in *.
    apply Z.ltb_ge in B8, B9. apply bool_decide_eq_true in B3, B4, B5, B6.
    split_and!; try done; try (by apply bool_decide_eq_true); try by apply Z.leb_le. }
  cbn [map_err bind].
  destruct (observe_once_within st l (ActualKnownInterpretation_operations r) Hob) as [ob ->]; [|done|].
  - unfold ActualKnownInterpretation_operations, ActualKnownInterpretation_operations_with_count,
      quantity_operations. rewrite Hc, Eq. simpl. apply recipient_associations_fresh in Hrcp.
    simpl in Hrcp. apply NoDup_cons in Hrcp as [Hr1 Hr2]. constructor; rewrite fmap_app.
    + rewrite not_elem_of_app. split; [|done]. unfold recipient_operations. by rewrite <- list_fmap_compose.
    + apply list.NoDup_app. split_and!; [|intros x Hx Hx'|done].
      * unfold recipient_operations. by rewrite <- list_fmap_compose.
      * apply (Hdis x Hx). rewrite <- Hperm. by right.
  - cbn [bind]. rewrite Hrow. cbn [ok_or bind]. by rewrite Hop.
Qed.

(** ** Checking an inventory *)

Definition pair_of (e : HubRecordId * HubRevision) : HubRecordId * Z := (e.1, raw e.2).

Lemma enter_roles_run protected es ob roles changes ob' roles' changes' l :
  observes ob l ->
  try_fold (enter_role protected) (ob, roles, changes) es = Ok (ob', roles', changes') ->
  observes ob' (l ++ (pair_of <$> es.*1)) /\
  (forall id role, bt_get id roles = Some role -> bt_get id roles' = Some role) /\
  (forall e, e ∈ es -> bt_get e.1.1 roles' = Some e.2) /\
  Forall (fun e => is_protected protected e.1.1 = false) es.
Proof.
  revert ob roles changes l. induction es as [|[[id rev] role] es IH]; intros ob roles changes l Hob; cbn [try_fold].
  { intros [= <- <- <-]. csimpl. rewrite app_nil_r. split_and!; [done|done|by intros e ?%elem_of_nil|constructor]. }
  intros ([[ob1 roles1] changes1] & H1 & H2)%bind_Ok. unfold enter_role in H1.
  apply guard_Ok in H1 as [Hp H1]. apply bind_Ok in H1 as (ob2 & Ho & H1).
  apply guard_Ok in H1 as [Hc H1]. apply guard_Ok in H1 as [_ [= -> <- <-]].
  pose proof (observe_revision_run ob l id rev Hob) as Hr. rewrite Ho in Hr. destruct Hr as [_ Hob1].
  rewrite conflicts_false in Hc.
  destruct (IH _ _ _ _ Hob1 H2) as (A & B & C & D). csimpl. split_and!.
  - by rewrite <- app_assoc in A.
  - intros id' role' Hr. apply B. rewrite bt_get_insert. case_decide as Hd; [|done]. subst. by rewrite (Hc _ Hr).
  - intros e [->|He]%elem_of_cons; [|by apply C]. apply B. simpl. by rewrite bt_get_insert, decide_True.
  - by constructor.
Qed.

(** Every operation of a record is its event or one of its entries. *)
Lemma operations_entered r e :
  e ∈ ActualKnownInterpretation_operations r ->
  e = (akd_operation (aki_original r), akd_stock_revision (aki_original r)) \/
  e ∈ (record_entries r true).*1.
Proof.
  unfold ActualKnownInterpretation_operations, ActualKnownInterpretation_operations_with_count, record_entries.
  rewrite elem_of_cons, !fmap_app, !elem_of_app. intros [->|[He|[He|He]]]; [by left|right; left|right; right; left|right; right; right].
  - by rewrite <- list_fmap_compose.
  - unfold quantity_operations in He. apply list_elem_of_In, in_concat in He as (l & Hl & He).
    apply list_elem_of_In, list_elem_of_fmap in Hl as (line & -> & Hline).
    apply list_elem_of_In, list_elem_of_fmap in He as (a & -> & Ha). apply list_elem_of_fmap.
    exists (dqa_operation a, dqa_stock_revision a, (2, akd_operation (aki_original r), Some (odq_group (dac_original line)))).
    split; [done|]. apply list_elem_of_In, in_concat. eexists.
    split; [apply list_elem_of_In, list_elem_of_fmap; by exists line|].
    apply list_elem_of_In, list_elem_of_fmap. by exists a.
  - destruct (aki_count_explanation r) as [value|]; [|by apply elem_of_nil in He].
    unfold count_operations in He. unfold count_entries. csimpl.
    rewrite !elem_of_cons, elem_of_app in He. rewrite !elem_of_cons, fmap_app, elem_of_app, <- !list_fmap_compose.
    destruct He as [->|[->|[He|He]]]; [by left|by right; left|right; right; left|by right; right; right].
    apply list_elem_of_fmap in He as (row & -> & [Hrow _]%list_elem_of_In%filter_In). apply list_elem_of_fmap.
    exists row. by rewrite list_elem_of_In.
Qed.

Definition inventory_key (r : ActualKnownInterpretation) : HubRecordId * HubRecordId * HubRecordId :=
  (akd_operation (aki_original r), akd_trace (aki_original r), rr_id (akd_variant (aki_original r))).

(** The groups an inventory takes out, each with its event. *)
Definition departed_groups (records : list ActualKnownInterpretation) : list (HubRecordId * HubRecordId) :=
  concat ((fun r => (fun l => (akd_operation (aki_original r), akl_group l)) <$> akd_lines (aki_original r)) <$> records).

Record in_cut (set : ActualKnownInterpretations) (r : ActualKnownInterpretation) : Prop := {
  ic_hub : akd_hub (aki_original r) = aks_hub set;
  ic_stock : aki_stock_revision r = aks_stock_revision set;
  ic_catalog : aki_catalog_revision r = aks_catalog_revision set;
  ic_latest : aki_latest_recorded_at r = aks_latest_recorded_at set
}.

(** The shared proof of a count: a record was checked in full, and every
    operation of the count has its role. *)
Definition count_proved (protected : Protected) (seen : list ActualKnownInterpretation)
    (roles : list (HubRecordId * InventoryRole)) (l : list (HubRecordId * Z))
    (op : HubRecordId) (proof : CountInventoryProof) : Prop :=
  exists r0 v0 value,
    r0 ∈ seen /\ aki_count_explanation r0 = Some value /\ cpp_operation (ake_count value) = op /\
    proof = CountInventoryProof_new value /\ ActualKnownInterpretation_view r0 = Ok v0 /\
    forall e, e ∈ count_entries value ->
      bt_get e.1.1 roles = Some e.2 /\ pair_of e.1 ∈ l /\ is_protected protected e.1.1 = false.

(** Observed, and not one of the identities to keep free. *)
Definition accounted (protected : Protected) (l : list (HubRecordId * Z))
    (e : HubRecordId * HubRevision) : Prop :=
  pair_of e ∈ l /\ is_protected protected e.1 = false.

(** The loops so far: [l] is everything observed. *)
Record entered (set : ActualKnownInterpretations) (protected : Protected)
    (seen : list ActualKnownInterpretation) (st : InventoryState) (l : list (HubRecordId * Z)) : Prop := {
  en_observed : observes (ivs_observed st) l;
  en_operations : forall r e, r ∈ seen -> e ∈ ActualKnownInterpretation_operations r ->
    accounted protected l e;
  en_views : Forall2 (fun r v => ActualKnownInterpretation_view r = Ok v) seen (ivs_views st);
  en_counts : forall op proof, bt_get op (ivs_counts st) = Some proof ->
    count_proved protected seen (ivs_roles st) l op proof;
  en_cut : Forall (in_cut set) seen;
  en_keys : keys_of inventory_key (ivs_keys st) seen /\ NoDup (inventory_key <$> seen);
  en_groups : (forall k, is_Some (bt_get k (ivs_groups st)) <-> k ∈ departed_groups seen) /\
    NoDup (departed_groups seen)
}.

Lemma enter_lines_run (original : ActualKnownDeparture) groups groups' ks :
  (forall k, is_Some (bt_get k groups) <-> k ∈ ks) -> NoDup ks ->
  try_fold (enter_line original) groups (akd_lines original) = Ok groups' ->
  let ks' := ks ++ ((fun l => (akd_operation original, akl_group l)) <$> akd_lines original) in
  (forall k, is_Some (bt_get k groups') <-> k ∈ ks') /\ NoDup ks'.
Proof.
  revert groups ks. induction (akd_lines original) as [|l lines IH]; intros groups ks Hg Hn; cbn [try_fold].
  { intros [= <-]. csimpl. by rewrite app_nil_r. }
  intros (g1 & H1 & H2)%bind_Ok. unfold enter_line in H1. apply guard_Ok in H1 as [Hf [= <-]].
  csimpl. rewrite cons_middle, app_assoc. eapply IH; [|..|exact H2].
  - intros k. rewrite bt_get_insert, elem_of_app, list_elem_of_singleton.
    case_decide as Hd; [naive_solver|]. rewrite Hg. naive_solver.
  - apply list.NoDup_app. split_and!; [done| |apply NoDup_singleton].
    intros k Hk ->%list_elem_of_singleton. apply Hg in Hk as [x Hx]. by rewrite Hx in Hf.
Qed.

Lemma departed_groups_snoc seen r :
  departed_groups (seen ++ [r]) = departed_groups seen ++
    ((fun l => (akd_operation (aki_original r), akl_group l)) <$> akd_lines (aki_original r)).
Proof. unfold departed_groups. rewrite fmap_app, concat_app. csimpl. by rewrite app_nil_r. Qed.

(** No operation of a count amends a recipient. *)
Lemma shared_operations_entered value op :
  op ∈ shared_operations value -> exists e, e ∈ count_entries value /\ e.1.1 = op /\ e.2.1.1 <> 1.
Proof.
  unfold shared_operations, count_entries. rewrite !elem_of_cons, elem_of_app, !list_elem_of_fmap.
  setoid_rewrite elem_of_cons. setoid_rewrite elem_of_cons. setoid_rewrite elem_of_app.
  setoid_rewrite list_elem_of_fmap. intros [->|[->|[(row & -> & Hrow)|(row & -> & Hrow)]]].
  - eexists. split; [by left|done].
  - eexists. split; [by right; left|done].
  - eexists. split; [right; right; left; by exists row|done].
  - eexists. split; [right; right; right; by exists row|done].
Qed.

Lemma count_proved_more protected seen seen' roles roles' l l' op proof :
  count_proved protected seen roles l op proof -> seen ⊆ seen' -> l ⊆ l' ->
  (forall id role, bt_get id roles = Some role -> bt_get id roles' = Some role) ->
  count_proved protected seen' roles' l' op proof.
Proof.
  intros (r0 & v0 & value & H1 & H2 & H3 & H4 & H5 & H6) Hs Hl Hr. exists r0, v0, value.
  split_and!; auto. intros e (R1 & R2 & R3)%H6. auto.
Qed.

(** A record that shares a proved count. *)
Lemma shared_record set protected seen roles ob l r value v proof :
  loss_restored (ake_account value) -> Forall (in_cut set) seen -> in_cut set r ->
  aki_count_explanation r = Some value ->
  count_proved protected seen roles l (cpp_operation (ake_count value)) proof ->
  cip_snapshot proof = value -> CountInventoryProof_view proof r = Ok v -> observes ob l ->
  (forall e, e ∈ record_entries r false -> bt_get e.1.1 roles = Some e.2 /\ accounted protected l e.1) ->
  accounted protected l (akd_operation (aki_original r), akd_stock_revision (aki_original r)) ->
  ActualKnownInterpretation_view r = Ok v /\
  (forall e, e ∈ ActualKnownInterpretation_operations r -> accounted protected l e).
Proof.
  intros Hacc Hcuts Hcut Ec (r0 & v0 & value0 & H1 & H2 & H3 & -> & H5 & H6) Hsnap Hv Hob Hent Hown.
  simpl in Hsnap. subst value0.
  assert (forall e, e ∈ ActualKnownInterpretation_operations r -> accounted protected l e) as Hops.
  { intros e [->|He]%operations_entered; [done|].
    apply list_elem_of_fmap in He as (e' & -> & He'). unfold record_entries in He', Hent. rewrite Ec in He', Hent.
    rewrite app_nil_r in Hent. rewrite app_assoc, elem_of_app in He'. destruct He' as [He'|He']; [by apply Hent|].
    destruct (H6 e' He') as (_ & R). exact R. }
  split; [|done]. rewrite list.Forall_forall in Hcuts. destruct (Hcuts r0 H1) as [C1 C2 C3 C4], Hcut as [D1 D2 D3 D4].
  apply (shared_view r0 r value v0 v ob l); try done; try congruence.
  - intros e He. by apply Hops.
  - intros op Hop Hsh. apply list_elem_of_fmap in Hop as (e & -> & He). unfold recipient_operations in He.
    apply list_elem_of_fmap in He as (c & -> & Hc). simpl in Hsh.
    destruct (Hent (ats_operation (rac_stamp c), ats_stock_revision (rac_stamp c),
      (1, akd_operation (aki_original r), None))) as [Hr1 _].
    { unfold record_entries. apply elem_of_app. left. apply list_elem_of_fmap. by exists c. }
    simpl in Hr1. apply shared_operations_entered in Hsh as (e & He & E1 & E2). destruct (H6 e He) as (R & _).
    rewrite E1, Hr1 in R. injection R as R. by rewrite <- R in E2.
Qed.

(** The view found for a record, and what its count leaves behind. *)
Lemma inventory_view_run set protected seen st l r v new counts ob roles changes :
  (forall value, aki_count_explanation r = Some value -> loss_restored (ake_account value)) ->
  entered set protected seen st l -> in_cut set r ->
  accounted protected l (akd_operation (aki_original r), akd_stock_revision (aki_original r)) ->
  inventory_view (ivs_counts st) r = Ok (v, new, counts) ->
  try_fold (enter_role protected) (ivs_observed st, ivs_roles st, ivs_changes st) (record_entries r new)
    = Ok (ob, roles, changes) ->
  let l' := l ++ (pair_of <$> (record_entries r new).*1) in
  ActualKnownInterpretation_view r = Ok v /\ observes ob l' /\
  (forall e, e ∈ ActualKnownInterpretation_operations r -> accounted protected l' e) /\
  (forall op proof, bt_get op counts = Some proof -> count_proved protected (seen ++ [r]) roles l' op proof).
Proof.
  intros Hacc Hen Hcut [Hown Hpown] Hv Hroles l'.
  destruct (enter_roles_run protected _ _ _ _ _ _ _ l (en_observed _ _ _ _ _ Hen) Hroles) as (Hob & Hkeep & Hnew & Hpr).
  rewrite list.Forall_forall in Hpr.
  assert (forall e, e ∈ record_entries r new -> bt_get e.1.1 roles = Some e.2 /\ accounted protected l' e.1) as Hent.
  { intros e He. split; [by apply Hnew|]. split; [|by apply Hpr]. apply elem_of_app. right. by do 2 apply list_elem_of_fmap_2. }
  assert (accounted protected l' (akd_operation (aki_original r), akd_stock_revision (aki_original r))) as Hown'
    by (split; [apply elem_of_app; by left|done]).
  assert (forall op proof, bt_get op (ivs_counts st) = Some proof -> count_proved protected seen roles l' op proof) as Hold.
  { intros op proof Hp. eapply count_proved_more; [by eapply (en_counts _ _ _ _ _ Hen)|done|set_solver|done]. }
  assert (forall op proof, bt_get op (ivs_counts st) = Some proof ->
    count_proved protected (seen ++ [r]) roles l' op proof) as Hold'.
  { intros op proof Hp. eapply count_proved_more; [by eapply Hold|set_solver|done..]. }
  assert (new = true \/ aki_count_explanation r = None -> forall e, e ∈ ActualKnownInterpretation_operations r ->
    accounted protected l' e) as Hops.
  { intros Hn e [->|He]%operations_entered; [done|].
    apply list_elem_of_fmap in He as (e' & -> & He'). apply Hent. destruct Hn as [->|Hn]; [done|].
    unfold record_entries in *. by rewrite Hn in *. }
  unfold inventory_view in Hv. destruct (aki_count_explanation r) as [value|] eqn:Ec.
  2:{ apply bind_Ok in Hv as (v' & Hv' & [= <- <- <-]). split_and!; try done. apply Hops. by right. }
  destruct (bt_get (cpp_operation (ake_count value)) (ivs_counts st)) as [proof|] eqn:Eg.
  - apply guard_Ok in Hv as [Esnap Hv]. apply negb_false_iff, bool_decide_eq_true in Esnap.
    apply bind_Ok in Hv as (v' & Hv' & [= <- <- <-]).
    destruct (shared_record set protected seen roles ob l' r value v' proof) as [S1 S2]; try done; auto.
    apply (en_cut _ _ _ _ _ Hen).
  - apply bind_Ok in Hv as (v' & Hv' & [= <- <- <-]). split_and!; try done; [apply Hops; by left|].
    intros op proof. rewrite bt_get_insert. case_decide as Hd; [|apply Hold']. intros [= <-].
    exists r, v', value. split_and!; try done; [set_solver|]. intros e He.
    destruct (Hent e) as (R1 & R2 & R3); [|done]. unfold record_entries. rewrite Ec, !elem_of_app. by right; right.
Qed.

Definition own_entry (r : ActualKnownInterpretation) : HubRecordId * HubRevision :=
  (akd_operation (aki_original r), akd_stock_revision (aki_original r)).

Lemma announce_run protected records ob roles ob' roles' l :
  observes ob l -> try_fold (announce protected) (ob, roles) records = Ok (ob', roles') ->
  observes ob' (l ++ (pair_of <$> (own_entry <$> records))) /\
  Forall (fun r => is_protected protected (akd_operation (aki_original r)) = false) records.
Proof.
  revert ob roles l. induction records as [|r records IH]; intros ob roles l Hob; cbn [try_fold].
  { intros [= <- <-]. csimpl. by rewrite app_nil_r. }
  intros ([ob1 roles1] & H1 & H2)%bind_Ok. unfold announce in H1. apply guard_Ok in H1 as [Hp H1].
  apply bind_Ok in H1 as (ob2 & Ho & [= -> <-]).
  pose proof (observe_revision_run ob l (akd_operation (aki_original r)) (akd_stock_revision (aki_original r)) Hob) as Hr.
  simpl in Ho. rewrite Ho in Hr. destruct Hr as [_ Hob1]. destruct (IH _ _ _ Hob1 H2) as [A B]. csimpl.
  rewrite <- app_assoc in A. split; [done|by constructor].
Qed.

Lemma enter_record_run set protected seen st l r st' :
  (forall value, aki_count_explanation r = Some value -> loss_restored (ake_account value)) ->
  entered set protected seen st l -> accounted protected l (own_entry r) ->
  enter_record set protected st r = Ok st' ->
  exists l', l ⊆ l' /\ entered set protected (seen ++ [r]) st' l'.
Proof.
  intros Hacc Hen Hown Hr. unfold enter_record in Hr.
  destruct (keys_of_insert inventory_key (ivs_keys st) seen r (proj1 (en_keys _ _ _ _ _ Hen))) as [Hf Hk].
  change (akd_operation (aki_original r), akd_trace (aki_original r), rr_id (akd_variant (aki_original r)))
    with (inventory_key r) in Hr.
  destruct (bs_insert (inventory_key r) (ivs_keys st)) as [fresh keys]. simpl in Hf, Hk.
  apply guard_Ok in Hr as [Hg Hr]. apply guard_Ok in Hr as [_ Hr].
  apply bind_Ok in Hr as ([[v new] counts] & Hv & Hr). apply bind_Ok in Hr as ([[ob roles] changes] & Hroles & Hr).
  apply bind_Ok in Hr as (groups & Hgr & [= <-]). breflect.
  assert (in_cut set r) as Hcut by by constructor.
  destruct (inventory_view_run set protected seen st l r v new counts ob roles changes Hacc Hen Hcut Hown Hv Hroles)
    as (V1 & V2 & V3 & V4).
  destruct (enter_lines_run _ _ _ _ (proj1 (en_groups _ _ _ _ _ Hen)) (proj2 (en_groups _ _ _ _ _ Hen)) Hgr) as [G1 G2].
  exists (l ++ (pair_of <$> (record_entries r new).*1)). split; [set_solver|constructor; simpl; try done].
  - intros r' e [Hr'|Hr']%elem_of_app He.
    + destruct (en_operations _ _ _ _ _ Hen r' e Hr' He) as [R1 R2]. split; [set_solver|done].
    + apply list_elem_of_singleton in Hr' as ->. by apply V3.
  - apply Forall2_app; [apply (en_views _ _ _ _ _ Hen)|by repeat constructor].
  - apply Forall_app. split; [apply (en_cut _ _ _ _ _ Hen)|by repeat constructor].
  - split; [done|]. rewrite fmap_app. apply list.NoDup_app. split_and!; [apply (en_keys _ _ _ _ _ Hen)| |apply NoDup_singleton].
    intros x Hx ->%list_elem_of_singleton. by apply Hf in Hx.
  - by rewrite departed_groups_snoc.
Qed.

Lemma enter_records_run set protected records seen st l st' :
  Forall (fun r => forall value, aki_count_explanation r = Some value -> loss_restored (ake_account value)) records ->
  entered set protected seen st l -> Forall (fun r => accounted protected l (own_entry r)) records ->
  try_fold (enter_record set protected) st records = Ok st' ->
  exists l', entered set protected (seen ++ records) st' l'.
Proof.
  revert seen st l. induction records as [|r records IH]; intros seen st l Hacc Hen Hown; cbn [try_fold].
  { intros [= <-]. rewrite app_nil_r. by exists l. }
  intros (st1 & H1 & H2)%bind_Ok. apply list.Forall_cons in Hacc as [Ha Hacc], Hown as [Ho Hown].
  destruct (enter_record_run _ _ _ _ _ _ _ Ha Hen Ho H1) as (l1 & Hl & Hen1).
  rewrite cons_middle, app_assoc. eapply IH; [done|exact Hen1| |exact H2].
  eapply list.Forall_impl; [exact Hown|]. intros r' [R1 R2]. split; [by apply Hl|done].
Qed.

(** The accepted inventory. *)
Record inventory_ok (set : ActualKnownInterpretations) (protected : Protected)
    (views : list ActualKnownInterpretationView) : Prop := {
  io_views : Forall2 (fun r v => ActualKnownInterpretation_view r = Ok v) (aks_records set) views;
  io_cut : Forall (in_cut set) (aks_records set);
  io_keys : NoDup (inventory_key <$> aks_records set);
  io_groups : NoDup (departed_groups (aks_records set));
  io_protected : forall r e, r ∈ aks_records set -> e ∈ ActualKnownInterpretation_operations r ->
    is_protected protected e.1 = false;
  io_revisions : forall r r' e e', r ∈ aks_records set -> r' ∈ aks_records set ->
    e ∈ ActualKnownInterpretation_operations r -> e' ∈ ActualKnownInterpretation_operations r' ->
    e.1 = e'.1 <-> e.2 = e'.2
}.

Lemma inventory_run set protected views :
  Forall (fun r => forall value, aki_count_explanation r = Some value -> loss_restored (ake_account value))
    (aks_records set) ->
  validate_inventory set protected = Ok views -> inventory_ok set protected views.
Proof.
  intros Hacc Hv. unfold validate_inventory in Hv. apply guard_Ok in Hv as [_ Hv].
  apply bind_Ok in Hv as (ob0 & H0 & Hv). apply bind_Ok in Hv as ([ob1 roles] & H1 & Hv).
  apply bind_Ok in Hv as (st & Hst & [= <-]).
  assert (exists l0, observes ob0 l0) as [l0 Hl0].
  { destruct protected as [[[raw_op rev] op]|]; [|injection H0 as <-; exists []; apply observes_nothing].
    pose proof (observe_revision_run nothing_observed [] raw_op rev observes_nothing) as Hr. rewrite H0 in Hr.
    destruct Hr as [_ Hr]. by eexists. }
  destruct (announce_run _ _ _ _ _ _ _ Hl0 H1) as [Hob Hpr].
  eapply (enter_records_run set protected (aks_records set) [] _ _ st Hacc) in Hst as [l Hen].
  - simpl in Hen. destruct Hen as [E1 E2 E3 _ E5 [_ E6] [_ E7]]. constructor; try done.
    + intros r e Hr He. by apply (E2 r e).
    + intros r r' e e' Hr Hr' He He'. destruct (E2 r e Hr He) as [P1 _], (E2 r' e' Hr' He') as [P2 _].
      split; intros E; unfold pair_of in P1, P2.
      * rewrite E in P1. apply (ov_operations _ _ E1) in P1, P2. apply refined_eq. congruence.
      * rewrite E in P1. apply (ov_revisions _ _ E1) in P1, P2. congruence.
  - constructor; simpl; try done; [by intros ? ? ?%elem_of_nil| |].
    + split; [apply keys_of_nil|constructor].
    + split; [|constructor]. intros k. split; [by intros [? ?]|by intros ?%elem_of_nil].
  - apply list.Forall_forall. intros r Hr. rewrite list.Forall_forall in Hpr. split; [|by apply Hpr].
    apply elem_of_app. right. by do 2 apply list_elem_of_fmap_2.
Qed.

(** C16: an inventory of known departures is accepted only when every record has
    the view it would have on its own, although the account of a count is
    checked in full once and shared by the departures it explains; across the
    whole inventory an operation has one stock revision and a revision one
    operation, no identity the caller keeps free is used, no event is listed
    twice for a population and variant, and no group leaves twice in an event. *)
Theorem inventory_correct set protected views :
  Forall (fun r => forall value, aki_count_explanation r = Some value -> loss_restored (ake_account value))
    (aks_records set) ->
  validate_inventory set protected = Ok views -> inventory_ok set protected views.
Proof. apply inventory_run. Qed.

(** What the view of a record says. *)
Lemma view_run r v :
  ActualKnownInterpretation_view r = Ok v ->
  akv_recipients v = known_recipients (aki_original r) (aki_recipient_history r) /\
  raw (akv_original_packs v) = sum_packs (akl_packs <$> akd_lines (aki_original r)) /\
  effective_packs_of r = Ok (akv_effective_packs v) /\ known_ok (aki_original r).
Proof.
  unfold ActualKnownInterpretation_view. intros [_ H1]%guard_Ok. apply guard_Ok in H1 as [_ H1].
  apply bind_Ok in H1 as (q & _ & H1). apply bind_Ok in H1 as (a & Ha & H1).
  apply bind_Ok in H1 as (_ & _ & H1). apply bind_Ok in H1 as (e & He & H1).
  apply bind_Ok in H1 as (o & Ho%known_packs_Ok & [= <-]). rewrite map_err_Ok in Ha.
  unfold CorrectionKnownDeparture_associations_through in Ha. apply bind_Ok in Ha as (a' & Ha' & [_ [= <-]]%seq_Ok).
  split_and!; try done; [by apply recipient_associations_run in Ha'|].
  unfold CorrectionKnownDeparture_recipient_associations_through in Ha'. apply seq_Ok in Ha' as [Hk _].
  by rewrite map_err_Ok, known_validate_Ok in Hk.
Qed.
End Shared.

(** ** A concrete inventory: two departures explain one counted shortage *)

Definition sample_loss (p : CountPostPlan) : OriginalCountLossQuantity :=
  {| ocl_reconciliation := cpp_id p; ocl_operation := cpp_operation p;
     ocl_stock_revision := cpp_stock_revision p; ocl_trace := sample_id 41; ocl_variant := sample_id 12;
     ocl_packs := sample_packs 3 |}.
Definition sample_explanations : list CountLossExplanation :=
  [{| cle_operation := sample_id 91; cle_stock_revision := sample_revision 14; cle_packs := sample_packs 1 |};
   {| cle_operation := sample_id 92; cle_stock_revision := sample_revision 15; cle_packs := sample_packs 2 |}].
Definition sample_explained (p : CountPostPlan) (a : CountLossQuantityAccount) (op rev packs : Z)
  : ActualKnownInterpretation :=
  let original := {|
    akd_operation := sample_id op; akd_actor := sample_key 1; akd_hub := sample_hub;
    akd_stock_revision := sample_revision rev; akd_catalog_revision := sample_revision 8;
    akd_trace := sample_id 41; akd_variant := sample_record 12 value_pack;
    akd_recipient := sample_record 13 value_party;
    akd_occurred := Occurrence.Known (sample_time 190); akd_recorded_at := sample_time 300;
    akd_lines := [{| akl_group := sample_id 51; akl_location := sample_record 21 value_receiving;
                     akl_packs := sample_packs packs |}] |} in
  {| aki_stock_revision := sample_revision 20; aki_catalog_revision := sample_revision 8;
     aki_latest_recorded_at := sample_time 400; aki_original := original;
     aki_recipient_original := {|
       ora_hub := sample_hub; ora_family := CorrectedDepartureFamily.ExplainedCountLoss;
       ora_operation := sample_id op; ora_stock_revision := sample_revision rev;
       ora_catalog_revision := sample_revision 8; ora_recorded_at := sample_time 300;
       ora_actor := sample_key 1; ora_recipient := sample_record 13 value_party;
       ora_populations := [sample_id 41]; ora_issued_versions := [] |};
     aki_recipient_history := []; aki_quantities := [];
     aki_count_explanation := Some {| ake_count := p; ake_account := a |} |}.
Definition sample_inventory (p : CountPostPlan) (a : CountLossQuantityAccount) : ActualKnownInterpretations :=
  {| aks_hub := sample_hub; aks_stock_revision := sample_revision 20; aks_catalog_revision := sample_revision 8;
     aks_latest_recorded_at := sample_time 400;
     aks_records := [sample_explained p a 91 14 1; sample_explained p a 92 15 2] |}.

Lemma sample_inventory_accepted : exists p a views,
  CountLossQuantityAccount_restore_corrected (sample_loss p) sample_explanations [] [] = Ok a /\
  @validate_inventory sample_sha256 (sample_inventory p a)
    (Some (sample_id 93, sample_revision 16, sample_id 94)) = Ok views /\
  (fun v => raw (akv_effective_packs v)) <$> views = [1; 2].
Proof.
  assert (match sample_observed with
    | Ok o => match @CountPostCommand_plan sample_sha256 (sample_post o) o (sample_post_context o)
          (sample_id 72) (sample_key 1) (sample_time 260) with
        | Ok p => match CountLossQuantityAccount_restore_corrected (sample_loss p) sample_explanations [] [] with
            | Ok a => match @validate_inventory sample_sha256 (sample_inventory p a)
                  (Some (sample_id 93, sample_revision 16, sample_id 94)) with
                | Ok views => bool_decide ((fun v => raw (akv_effective_packs v)) <$> views = [1; 2])
                | Err _ => false end
            | Err _ => false end
        | Err _ => false end
    | Err _ => false end = true) as E by (vm_compute; reflexivity).
  destruct sample_observed as [o|]; [|done].
  destruct (@CountPostCommand_plan _ _ _ _ _ _ _) as [p|]; [|done]. exists p.
  destruct (CountLossQuantityAccount_restore_corrected _ _ _ _) as [a|]; [|done]. exists a.
  destruct (@validate_inventory _ _ _) as [views|]; [|done]. exists views. by apply bool_decide_eq_true in E.
Qed.

Lemma inventory_correct_witness : exists set protected views,
  length views = 2%nat /\ @inventory_ok sample_sha256 set protected views.
Proof.
  destruct sample_inventory_accepted as (p & a & views & Ha & Hv & Hn).
  exists (sample_inventory p a), (Some (sample_id 93, sample_revision 16, sample_id 94)), views.
  split; [by rewrite <- (length_fmap (fun v => raw (akv_effective_packs v))), Hn|].
  apply (@inventory_correct sample_sha256); [|exact Hv].
  repeat constructor; intros value [= <-]; by exists (sample_loss p), sample_explanations, [], [].
Defined.
