(* ===== verification/Reconcile.v ===== *)
(** * Reconciling departures already taken

    [actuals/reconcile.rs]: the reduction of a group by packs that had left
    before they were recorded, the command that records a reviewed report as a
    new departure, against the known originals or their captured
    interpretations, and the link of a report to a departure already known. *)

From Stdlib Require Import Bool ZArith Lia String List.
From stdpp Require Import base decidable option list numbers sets.
From S2P Require Import Prelude Containers Encoding Hub Reference Catalog Stock Movement Work Lineage Treatment Dispatch Departure Custody Counts Accounts Attribution Balance Reports Sources Known.

(** ** Physical reduction *)

Record ActualRemovedWorkScope := {
  aws_work : HubRecordId;
  aws_before_progress : WorkProgress;
  aws_before_scoped : WholePacks;
  aws_on_hand_after : WholePacks;
  aws_removed : WholePacks;
  aws_removed_progress : WorkProgress
}.
#[global] Instance ActualRemovedWorkScope_eq_dec : EqDecision ActualRemovedWorkScope.
Proof. solve_decision. Defined.

Record ActualPhysicalReduction := {
  apr_before : PhysicalStockGroup;
  apr_actual_departed : WholePacks;
  apr_on_hand_after : WholePacks;
  apr_after_revision : HubRevision;
  apr_work_changes : list DepartureWorkChange;
  apr_removed_work_scope : list ActualRemovedWorkScope
}.
#[global] Instance ActualPhysicalReduction_eq_dec : EqDecision ActualPhysicalReduction.
Proof. solve_decision. Defined.

(** The pending requirement after the departed packs are no longer required. *)
Definition departed_requirement (work : WorkRequirement) (packs : WholePacks)
  : result WorkRequirement ActualReportError :=
  let? no_longer := map_err (fun _ => ActualReportError.InvalidHistory)
    (WholePacks_checked_add (no_longer_required (wr_quantity work)) packs) in
  let? rest := map_err (fun _ => ActualReportError.InvalidHistory)
    (WholePacks_checked_sub (remaining (wr_quantity work)) packs) in
  let? quantity := map_err (fun _ => ActualReportError.InvalidHistory)
    (QuantityWork_restore (required (wr_quantity work)) (completed (wr_quantity work))
       no_longer rest) in
  let? revision := map_err (fun _ => ActualReportError.RevisionExhausted)
    (HubRevision_next (wr_revision work)) in
  let after := wr_with work quantity revision in
  map_err (fun _ => ActualReportError.InvalidHistory) (WorkRequirement_validate after) ;;?
  Ok after.

Definition removed_scope (before : PhysicalStockGroup) (packs rest : WholePacks)
    (allocation : WorkAllocation) : ActualRemovedWorkScope :=
  {| aws_work := wr_id (wa_requirement allocation);
     aws_before_progress := wa_progress allocation;
     aws_before_scoped := pg_packs before; aws_on_hand_after := rest; aws_removed := packs;
     aws_removed_progress := removed_progress (wa_progress allocation) |}.

(** The loop body over the allocations. *)
Definition reduce_allocation (before : PhysicalStockGroup) (packs rest : WholePacks)
    (st : list DepartureWorkChange * list ActualRemovedWorkScope) (allocation : WorkAllocation)
  : result (list DepartureWorkChange * list ActualRemovedWorkScope) ActualReportError :=
  let work := wa_requirement allocation in
  let? changes :=
    if wa_progress allocation ==? WorkProgress.Pending then
      let? after := departed_requirement work packs in
      Ok (st.1 ++ [{| dwc_before := work; dwc_after := after; dwc_retired := packs |}])
    else Ok st.1 in
  Ok (changes, st.2 ++ [removed_scope before packs rest allocation]).

Definition ActualPhysicalReduction_plan (before : PhysicalStockGroup) (packs : WholePacks)
  : result ActualPhysicalReduction ActualReportError :=
  map_err (fun _ => ActualReportError.InvalidNativeContext) (PhysicalStockGroup_validate before) ;;?
  if (raw packs =? 0) || (raw packs >? raw (pg_packs before))
  then Err ActualReportError.InsufficientBalance
  else
    let? rest := map_err (fun _ => ActualReportError.InsufficientBalance)
      (WholePacks_checked_sub (pg_packs before) packs) in
    let? (work_changes, removed_work_scope) :=
      try_fold (reduce_allocation before packs rest) ([], []) (pg_work before) in
    let? after_revision := map_err (fun _ => ActualReportError.RevisionExhausted)
      (HubRevision_next (pg_revision before)) in
    Ok {| apr_before := before; apr_actual_departed := packs; apr_on_hand_after := rest;
          apr_after_revision := after_revision; apr_work_changes := work_changes;
          apr_removed_work_scope := removed_work_scope |}.

Definition ActualPhysicalReduction_validate (self : ActualPhysicalReduction)
  : result unit ActualReportError :=
  let? again := ActualPhysicalReduction_plan (apr_before self) (apr_actual_departed self) in
  if self !=? again then Err ActualReportError.InvalidHistory else Ok tt.

Definition ActualPhysicalReduction_causal_floor_after_reconciliation
    (self : ActualPhysicalReduction) (occurred : Occurrence) (now : UnixTimestamp)
  : result (option UnixTimestamp) ActualReportError :=
  ActualPhysicalReduction_validate self ;;?
  if is_some_and (pg_causal_floor (apr_before self)) (fun floor => raw floor >? raw now)
  then Err ActualReportError.InvalidNativeContext
  else
    map_err (fun _ => ActualReportError.InvalidInput) (Occurrence_validate occurred now) ;;?
    let observed :=
      match occurred with
      | Occurrence.Known at_ => Some at_
      | Occurrence.Interval earliest _ => Some earliest
      | Occurrence.Unknown => None
      end in
    Ok (option_max (pg_causal_floor (apr_before self)) observed).

(** ** The command *)

Record ActualNewDepartureCommand := {
  and_facts : ActualReviewFacts;
  and_source_operation : HubRecordId;
  and_source_group : HubRecordId;
  and_duplicate_review_basis : SourceProvenance
}.

Record ActualNewDepartureContext := {
  anx_review : ActualReviewContext;
  anx_historical_source : ActualSourceContext;
  anx_known_departures : list ActualKnownDeparture;
  anx_prior_review : option HubRecordId
}.

Record ActualNewDeparturePlan := {
  anp_operation : HubRecordId;
  anp_report : ActualReportRecord;
  anp_actor : PublicKey;
  anp_recorded_at : UnixTimestamp;
  anp_stock_revision : HubRevision;
  anp_comparison : ActualReviewComparison;
  anp_historical_source : ResolvedActualSource;
  anp_reduction : ActualPhysicalReduction;
  anp_after_causal_floor : option UnixTimestamp;
  anp_duplicate_review_basis : SourceProvenance
}.

(** The scoped physical facts of a recorded departure. *)
Definition ActualNewDeparturePlan_physical_projection `{Sha256} (self : ActualNewDeparturePlan)
  : result ActualKnownDeparture ActualReportError :=
  ActualReportRecord_validate (anp_report self) ;;?
  ActualPhysicalReduction_validate (anp_reduction self) ;;?
  let before := apr_before (anp_reduction self) in
  let scope := arw_scope (anp_comparison self) in
  let facts := arw_facts (anp_comparison self) in
  let source := ros_historical (anp_historical_source self) in
  if (arw_original (anp_comparison self) !=? anp_report self)
     || (abc_before scope !=? before)
     || (abc_compared_departure scope !=? apr_actual_departed (anp_reduction self))
     || (abc_on_hand_after scope !=? apr_on_hand_after (anp_reduction self))
     || (arf_group facts !=? pg_id before)
     || (arf_packs facts !=? apr_actual_departed (anp_reduction self))
     || (rr_id (abc_variant scope) !=? pg_variant before)
     || (rr_id (abc_recipient scope) !=? arf_recipient facts)
     || (ros_balancing_group (anp_historical_source self) !=? pg_id before)
     || (hap_trace (has_group source) !=? pg_trace before)
     || (hap_variant (has_group source) !=? pg_variant before)
     || (has_hub source !=? arr_hub (anp_report self))
  then Err ActualReportError.InvalidHistory
  else
    let projection := {|
      akd_operation := anp_operation self; akd_actor := anp_actor self;
      akd_hub := arr_hub (anp_report self); akd_stock_revision := anp_stock_revision self;
      akd_catalog_revision := arf_expected_catalog_revision facts;
      akd_trace := pg_trace before; akd_variant := abc_variant scope;
      akd_recipient := abc_recipient scope; akd_occurred := arf_occurred facts;
      akd_recorded_at := anp_recorded_at self;
      akd_lines := [{| akl_group := pg_id before; akl_location := has_location source;
                       akl_packs := apr_actual_departed (anp_reduction self) |}]
    |} in
    ActualKnownDeparture_validate projection ;;?
    Ok projection.

Definition ActualNewDepartureCommand_message (self : ActualNewDepartureCommand) (hub : HubId)
    (actor : PublicKey) (operation : HubRecordId) : list byte :=
  let facts := and_facts self in
  domain_tag "harvestcircle.hub.actual.review.command.v1" ++
  enc_hub hub ++ enc_key actor ++ enc_id operation ++
  enc_seq enc_id [arf_report facts; arf_group facts; arf_recipient facts;
                  and_source_operation self; and_source_group self] ++
  enc_seq enc_revision [arf_expected_stock_revision facts; arf_expected_catalog_revision facts;
                        arf_expected_group_revision facts] ++
  enc_packs (arf_packs facts) ++ hash_occurrence (arf_occurred facts) ++
  enc_seq enc_hub_text [arf_source_evidence facts; arf_quantity_evidence facts;
                        arf_recipient_evidence facts; arf_timing_evidence facts;
                        and_duplicate_review_basis self].
Definition ActualNewDepartureCommand_fingerprint `{Sha256} (self : ActualNewDepartureCommand)
    (hub : HubId) (actor : PublicKey) (operation : HubRecordId) : array 32 :=
  digest32 (ActualNewDepartureCommand_message self hub actor operation).

(** [validate_set]: one interpretation per known departure, at the review's cut. *)
Definition validate_set `{Sha256} (context : ActualNewDepartureContext)
    (set : ActualKnownInterpretations) (operation : HubRecordId) (now : UnixTimestamp)
  : result (list ActualKnownInterpretationView) ActualReportError :=
  let review := anx_review context in
  if (aks_hub set !=? arx_hub review)
     || (aks_stock_revision set !=? arx_stock_revision review)
     || (aks_catalog_revision set !=? rc_revision (arx_catalog review))
     || (raw (aks_latest_recorded_at set) <? raw (arr_recorded_at (arx_original review)))
     || (raw (aks_latest_recorded_at set) >? raw now)
  then Err ActualReportError.InvalidNativeContext
  else if (HUB_STOCK_EVENT_CAPACITY <? length (aks_records set))%nat
  then Err ActualReportError.Capacity
  else if negb (length (aks_records set) =? length (anx_known_departures context))%nat
          || existsb (fun '(record, original) => aki_original record !=? original)
               (combine (aks_records set) (anx_known_departures context))
  then Err ActualReportError.InvalidNativeContext
  else validate_inventory set
    (Some (arr_operation (arx_original review), arr_stock_revision (arx_original review), operation)).

(** Whether the known departure may have gone to the recipient: by its own
    record, or by its interpretation.  [views[index]] is in range: [validate_set]
    gives a view for every known departure. *)
Definition recipient_matches (views : option (list ActualKnownInterpretationView))
    (recipient : HubRecordId) (index : nat) (known : ActualKnownDeparture) : bool :=
  match views with
  | None => rr_id (akd_recipient known) ==? recipient
  | Some views => is_some_and (views !! index)
      (fun view => KnownRecipients_could_match (akv_recipients view) (Some recipient))
  end.

(** The loop body over the known departures; the set of their identities is
    threaded. *)
Definition screen_known (context : ActualNewDepartureContext) (facts : ActualReviewFacts)
    (source : ResolvedActualSource) (views : option (list ActualKnownInterpretationView))
    (operation : HubRecordId) (now : UnixTimestamp)
    (originals : list (HubRecordId * HubRecordId * HubRecordId * unit))
    (entry : nat * ActualKnownDeparture)
  : result (list (HubRecordId * HubRecordId * HubRecordId * unit)) ActualReportError :=
  let (index, known) := entry in
  let review := anx_review context in
  ActualKnownDeparture_validate known ;;?
  if akd_operation known ==? operation then Err ActualReportError.InvalidIdentity
  else
    let (fresh, originals) :=
      bs_insert (akd_operation known, akd_trace known, rr_id (akd_variant known)) originals in
    if (akd_hub known !=? arx_hub review)
       || (raw (akd_stock_revision known) >? raw (arx_stock_revision review))
       || (raw (akd_catalog_revision known) >? raw (rc_revision (arx_catalog review)))
       || (raw (akd_recorded_at known) >? raw now) || negb fresh
    then Err ActualReportError.InvalidNativeContext
    else if (akd_trace known ==? hap_trace (has_group (ros_historical source)))
            && (rr_id (akd_variant known) ==? pg_variant (arx_group review))
            && recipient_matches views (arf_recipient facts) index known
            && overlaps (akd_occurred known) (arf_occurred facts)
    then Err ActualReportError.DuplicateReviewRequired
    else Ok originals.

Definition ActualNewDepartureCommand_plan_inner `{Sha256} (self : ActualNewDepartureCommand)
    (context : ActualNewDepartureContext) (interpretations : option ActualKnownInterpretations)
    (operation : HubRecordId) (actor : PublicKey) (now : UnixTimestamp)
  : result ActualNewDeparturePlan ActualReportError :=
  let review := anx_review context in
  let historical := anx_historical_source context in
  if is_some (anx_prior_review context) then Err ActualReportError.AlreadyReviewed
  else if (operation ==? arr_operation (arx_original review))
          || (operation ==? and_source_operation self)
  then Err ActualReportError.InvalidIdentity
  else if (asx_lineage historical !=? arx_lineage review)
          || (asx_balancing_group historical !=? arx_group review)
          || (has_operation (asx_source historical) !=? and_source_operation self)
          || (hap_id (has_group (asx_source historical)) !=? and_source_group self)
  then Err ActualReportError.InvalidNativeContext
  else
    let? comparison := ActualReviewFacts_review (and_facts self) review now in
    let? source := ActualSourceContext_resolve historical (arx_original review)
      (arf_occurred (and_facts self)) now in
    let duplicates := anx_known_departures context in
    let? views := transpose_map (fun set => validate_set context set operation now)
      interpretations in
    if (HUB_STOCK_EVENT_CAPACITY <? length duplicates)%nat then Err ActualReportError.Capacity
    else
      let? _ := try_fold (screen_known context (and_facts self) source views operation now) []
        (imap pair duplicates) in
      let? reduction := ActualPhysicalReduction_plan (arx_group review)
        (arf_packs (and_facts self)) in
      let? after_causal_floor := ActualPhysicalReduction_causal_floor_after_reconciliation reduction
        (arf_occurred (and_facts self)) now in
      let? stock_revision := map_err (fun _ => ActualReportError.RevisionExhausted)
        (HubRevision_next (arx_stock_revision review)) in
      Ok {| anp_operation := operation; anp_report := arx_original review; anp_actor := actor;
            anp_recorded_at := now; anp_stock_revision := stock_revision;
            anp_comparison := comparison; anp_historical_source := source;
            anp_reduction := reduction; anp_after_causal_floor := after_causal_floor;
            anp_duplicate_review_basis := and_duplicate_review_basis self |}.

Definition ActualNewDepartureCommand_plan `{Sha256} (self : ActualNewDepartureCommand)
    (context : ActualNewDepartureContext) (operation : HubRecordId) (actor : PublicKey)
    (now : UnixTimestamp) : result ActualNewDeparturePlan ActualReportError :=
  ActualNewDepartureCommand_plan_inner self context None operation actor now.
Definition ActualNewDepartureCommand_plan_with_interpretations `{Sha256}
    (self : ActualNewDepartureCommand) (context : ActualNewDepartureContext)
    (interpretations : ActualKnownInterpretations) (operation : HubRecordId) (actor : PublicKey)
    (now : UnixTimestamp) : result ActualNewDeparturePlan ActualReportError :=
  ActualNewDepartureCommand_plan_inner self context (Some interpretations) operation actor now.

(** ** Linking a duplicate *)

Record ActualDuplicateLink := {
  adl_report : HubRecordId;
  adl_known_operation : HubRecordId;
  adl_known_trace : HubRecordId;
  adl_known_variant : HubRecordId;
  adl_verification : SourceProvenance
}.

(** The original position an explanation of a counted shortage was taken from. *)
Record CountExplanationSourceWitness := {
  csw_known_digest : array 32;
  csw_count_digest : array 32;
  csw_source : ResolvedActualSource
}.

(** [known] of [actuals/result.rs]. *)
Definition known_message `{Sha256} (value : ActualKnownDeparture) : list byte :=
  let reference := custody_reference (akd_hub value) (akd_actor value) (akd_catalog_revision value) in
  enc_id (akd_operation value) ++ enc_key (akd_actor value) ++ enc_hub (akd_hub value) ++
  enc_revision (akd_stock_revision value) ++ enc_revision (akd_catalog_revision value) ++
  enc_id (akd_trace value) ++ reference (akd_variant value) ++ reference (akd_recipient value) ++
  hash_occurrence (akd_occurred value) ++ enc_seconds (akd_recorded_at value) ++
  enc_counted 4 (fun line => enc_id (akl_group line) ++ reference (akl_location line) ++
                             enc_packs (akl_packs line)) (akd_lines value).
Definition known_original_digest `{Sha256} (value : ActualKnownDeparture)
  : result (array 32) ActualReportError :=
  ActualKnownDeparture_validate value ;;?
  if negb (u32_range (Z.of_nat (length (akd_lines value)))) then Err ActualReportError.Capacity
  else Ok (digest32 (domain_tag "harvestcircle.hub.count.explanation.known_source_original.v1" ++
                     known_message value)).

Definition CountExplanationSourceWitness_validate_for `{Sha256} (self : CountExplanationSourceWitness)
    (known : ActualKnownDeparture) (count : CountPostPlan) : result unit ActualReportError :=
  let? known_digest := known_original_digest known in
  if csw_known_digest self !=? known_digest then Err ActualReportError.InvalidHistory
  else
    let? count_digest := map_err (fun _ => ActualReportError.InvalidHistory)
      (count_post_result_digest zero_input count) in
    if (csw_count_digest self !=? count_digest)
       || (ros_balancing_group (csw_source self) !=? pg_id (cpp_before count))
    then Err ActualReportError.InvalidHistory
    else Ok tt.
Definition CountExplanationSourceWitness_matches_source (self : CountExplanationSourceWitness)
    (claim : ReportedActualSource) : bool :=
  let source := ros_historical (csw_source self) in
  (ras_trace claim ==? hap_trace (has_group source))
  && is_none_or (ras_group claim) (fun id => id ==? hap_id (has_group source))
  && is_none_or (ras_location claim) (fun id => id ==? rr_id (has_location source)).

Record ActualDuplicateLinkPlan := {
  adp_operation : HubRecordId;
  adp_original : ActualReportRecord;
  adp_known : ActualKnownDeparture;
  adp_interpretation : option ActualKnownInterpretation;
  adp_count_source : option CountExplanationSourceWitness;
  adp_actor : PublicKey;
  adp_recorded_at : UnixTimestamp;
  adp_verification : SourceProvenance
}.

Record DuplicateContext := {
  dcx_original : ActualReportRecord;
  dcx_known : ActualKnownDeparture;
  dcx_interpretation : option ActualKnownInterpretation;
  dcx_count_source : option CountExplanationSourceWitness
}.

Definition ActualDuplicateLink_message (self : ActualDuplicateLink) (hub : HubId)
    (actor : PublicKey) (operation : HubRecordId) : list byte :=
  domain_tag "harvestcircle.hub.actual.duplicate.link.command.v1" ++
  enc_hub hub ++ enc_key actor ++ enc_id operation ++ enc_id (adl_report self) ++
  enc_id (adl_known_operation self) ++ enc_id (adl_known_trace self) ++
  enc_id (adl_known_variant self) ++ enc_hub_text (adl_verification self).
Definition ActualDuplicateLink_fingerprint `{Sha256} (self : ActualDuplicateLink)
    (hub : HubId) (actor : PublicKey) (operation : HubRecordId) : array 32 :=
  digest32 (ActualDuplicateLink_message self hub actor operation).

Definition known_matches_source (known : ActualKnownDeparture) (s : ReportedActualSource) : bool :=
  (ras_trace s ==? akd_trace known)
  && existsb (fun l => is_none_or (ras_group s) (fun g => g ==? akl_group l)
                       && is_none_or (ras_location s) (fun v => v ==? rr_id (akl_location l)))
       (akd_lines known).

(** The closure over the optional interpretation. *)
Definition link_view `{Sha256} (original : ActualReportRecord) (operation : HubRecordId)
    (now : UnixTimestamp) (record : ActualKnownInterpretation)
  : result ActualKnownInterpretationView ActualReportError :=
  if (raw (aki_stock_revision record) <? raw (arr_stock_revision original))
     || (raw (aki_catalog_revision record) <? raw (arr_catalog_revision original))
     || (raw (aki_latest_recorded_at record) <? raw (arr_recorded_at original))
     || (raw (aki_latest_recorded_at record) >? raw now)
  then Err ActualReportError.InvalidNativeContext
  else
    let? view := ActualKnownInterpretation_view record in
    try_for_each (fun '(id, revision) =>
      if (id ==? operation) || (id ==? arr_operation original)
      then Err ActualReportError.InvalidIdentity
      else if revision ==? arr_stock_revision original then Err ActualReportError.InvalidHistory
      else Ok tt) (ActualKnownInterpretation_operations record) ;;?
    Ok view.

(** The match on the count explanation and its source. *)
Definition link_count_source `{Sha256} (original : ActualReportRecord) (known : ActualKnownDeparture)
    (interpretation : option ActualKnownInterpretation)
    (count_source : option CountExplanationSourceWitness) (operation : HubRecordId)
  : result unit ActualReportError :=
  match interpretation ≫= aki_count_explanation, count_source with
  | Some count, Some source =>
      CountExplanationSourceWitness_validate_for source known (ake_count count) ;;?
      let source := ros_historical (csw_source source) in
      if (has_operation source ==? operation) || (has_operation source ==? arr_operation original)
      then Err ActualReportError.InvalidIdentity
      else if has_stock_revision source ==? arr_stock_revision original
      then Err ActualReportError.InvalidHistory
      else
        match interpretation with
        | Some record =>
            try_for_each (fun '(id, revision) =>
              if (id ==? has_operation source) || (revision ==? has_stock_revision source)
              then Err ActualReportError.InvalidHistory else Ok tt)
              (ActualKnownInterpretation_operations record)
        | None => Ok tt
        end
  | None, None => Ok tt
  | _, _ => Err ActualReportError.InvalidNativeContext
  end.

Definition link_recipient_matches (view : option ActualKnownInterpretationView)
    (known : ActualKnownDeparture) (recipient : option HubRecordId) : bool :=
  match view with
  | None => is_none_or recipient (fun v => v ==? rr_id (akd_recipient known))
  | Some view => KnownRecipients_could_match (akv_recipients view) recipient
  end.
Definition link_packs_match (view : option ActualKnownInterpretationView)
    (known : ActualKnownDeparture) (packs : option WholePacks) : bool :=
  match view with
  | None => is_none_or packs (fun v => Some v ==? result_ok (ActualKnownDeparture_packs known))
  | Some view => ActualKnownInterpretationView_could_match_packs view packs
  end.
Definition source_excluded (known : ActualKnownDeparture)
    (count_source : option CountExplanationSourceWitness) (sources : ActualReportSources) : bool :=
  match sources with
  | ActualReportSources.Unknown => false
  | _ => negb (existsb (fun claim => known_matches_source known claim
                  || is_some_and count_source
                       (fun source => CountExplanationSourceWitness_matches_source source claim))
                (ActualReportSources_candidates sources))
  end.

Definition ActualDuplicateLink_plan_inner `{Sha256} (self : ActualDuplicateLink)
    (context : DuplicateContext) (prior_review : option HubRecordId) (operation : HubRecordId)
    (actor : PublicKey) (now : UnixTimestamp) : result ActualDuplicateLinkPlan ActualReportError :=
  let original := dcx_original context in
  let known := dcx_known context in
  ActualReportRecord_validate original ;;?
  ActualKnownDeparture_validate known ;;?
  if is_some prior_review then Err ActualReportError.AlreadyReviewed
  else if (operation ==? arr_operation original) || (operation ==? akd_operation known)
  then Err ActualReportError.InvalidIdentity
  else if (adl_report self !=? arr_id original)
          || (adl_known_operation self !=? akd_operation known)
          || (adl_known_trace self !=? akd_trace known)
          || (adl_known_variant self !=? rr_id (akd_variant known))
          || (arr_hub original !=? akd_hub known)
          || (raw (arr_recorded_at original) >? raw now)
          || (raw (akd_recorded_at known) >? raw now)
  then Err ActualReportError.InvalidNativeContext
  else
    let? view := transpose_map (link_view original operation now) (dcx_interpretation context) in
    link_count_source original known (dcx_interpretation context) (dcx_count_source context)
      operation ;;?
    let claim := arr_report original in
    if is_some_and (arc_variant claim) (fun v => v !=? rr_id (akd_variant known))
       || negb (link_recipient_matches view known (arc_recipient claim))
       || negb (link_packs_match view known (arc_packs claim))
       || negb (overlaps (arc_occurred claim) (akd_occurred known))
    then Err ActualReportError.ConflictingEvidence
    else if source_excluded known (dcx_count_source context) (arc_sources claim)
    then Err ActualReportError.HistoricalSourceUnresolved
    else Ok {| adp_operation := operation; adp_original := original; adp_known := known;
               adp_interpretation := dcx_interpretation context;
               adp_count_source := dcx_count_source context; adp_actor := actor;
               adp_recorded_at := now; adp_verification := adl_verification self |}.

Definition ActualDuplicateLink_plan `{Sha256} (self : ActualDuplicateLink)
    (original : ActualReportRecord) (known : ActualKnownDeparture)
    (prior_review : option HubRecordId) (operation : HubRecordId) (actor : PublicKey)
    (now : UnixTimestamp) : result ActualDuplicateLinkPlan ActualReportError :=
  ActualDuplicateLink_plan_inner self
    {| dcx_original := original; dcx_known := known; dcx_interpretation := None;
       dcx_count_source := None |} prior_review operation actor now.
Definition ActualDuplicateLink_plan_with_interpretation `{Sha256} (self : ActualDuplicateLink)
    (original : ActualReportRecord) (interpretation : ActualKnownInterpretation)
    (prior_review : option HubRecordId) (operation : HubRecordId) (actor : PublicKey)
    (now : UnixTimestamp) : result ActualDuplicateLinkPlan ActualReportError :=
  ActualDuplicateLink_plan_inner self
    {| dcx_original := original; dcx_known := aki_original interpretation;
       dcx_interpretation := Some interpretation; dcx_count_source := None |}
    prior_review operation actor now.
Definition ActualDuplicateLink_plan_with_count_interpretation `{Sha256} (self : ActualDuplicateLink)
    (original : ActualReportRecord) (interpretation : ActualKnownInterpretation)
    (source : CountExplanationSourceWitness) (prior_review : option HubRecordId)
    (operation : HubRecordId) (actor : PublicKey) (now : UnixTimestamp)
  : result ActualDuplicateLinkPlan ActualReportError :=
  ActualDuplicateLink_plan_inner self
    {| dcx_original := original; dcx_known := aki_original interpretation;
       dcx_interpretation := Some interpretation; dcx_count_source := Some source |}
    prior_review operation actor now.

(** ** What a reduction does *)

Lemma departed_requirement_Ok work packs after :
  WorkRequirement_validate work = Ok tt ->
  departed_requirement work packs = Ok after <-> shortage_work packs work after.
Proof.
  intros Hv. unfold departed_requirement. split.
  - intros H1. run_ok. rewrite HubRevision_next_Ok in *.
    match goal with Q : QuantityWork_restore _ _ _ _ = Ok _ |- _ => apply restore_Ok in Q as (? & ? & ? & ?) end.
    rewrite checked_add_Ok, checked_sub_Ok in *. constructor; simpl; try done; congruence.
  - intros [Hs Hr Hc Hn Hm Hrev].
    rewrite (proj2 (checked_add_Ok _ _ _) Hn), (proj2 (checked_sub_Ok _ _ _) Hm). cbn [map_err bind].
    assert (QuantityWork_restore (required (wr_quantity work)) (completed (wr_quantity work))
      (no_longer_required (wr_quantity after)) (remaining (wr_quantity after)) = Ok (wr_quantity after)) as ->.
    { apply restore_Ok. by rewrite Hr, Hc. }
    cbn [map_err bind]. rewrite (proj2 (HubRevision_next_Ok _ _) Hrev). cbn [map_err bind]. rewrite <- Hs.
    assert (WorkRequirement_validate after = Ok tt) as ->; [|done].
    rewrite Hs. unfold WorkRequirement_validate in *. simpl. by rewrite Hr, Hc.
Qed.

Definition retired_by (packs : WholePacks) (a : WorkAllocation) (c : DepartureWorkChange) : Prop :=
  dwc_before c = wa_requirement a /\ dwc_retired c = packs /\
  shortage_work packs (wa_requirement a) (dwc_after c).

Lemma reduce_allocations_Ok g packs rest l st st' :
  Forall (allocation_ok g) l ->
  try_fold (reduce_allocation g packs rest) st l = Ok st' <->
  exists changes, Forall2 (retired_by packs) (List.filter is_pending_allocation l) changes /\
    st' = (st.1 ++ changes, st.2 ++ (removed_scope g packs rest <$> l)).
Proof.
  intros Hl. revert st. induction Hl as [|a l Ha Hl IH]; intros st; cbn [try_fold].
  { split.
    - intros [= <-]. exists []. split; [constructor|]. rewrite !app_nil_r. by destruct st.
    - intros (cs & ->%Forall2_nil_inv_l & ->). rewrite !app_nil_r. by destruct st. }
  rewrite bind_Ok. setoid_rewrite IH. cbn [List.filter]. clear IH. unfold reduce_allocation.
  destruct (is_pending_allocation a) eqn:Hp; unfold is_pending_allocation in Hp; rewrite Hp.
  - setoid_rewrite bind_Ok. setoid_rewrite bind_Ok.
    setoid_rewrite (departed_requirement_Ok _ packs _ (ao_requirement _ _ Ha)). split.
    + intros (st1 & (cs & (after & Hw & [= <-]) & [= <-]) & cs' & Hcs & ->). simpl.
      eexists (_ :: cs'). rewrite <- !app_assoc. split; [|done]. by constructor.
    + intros (cs & (c & cs' & (Hb & Hr & Hw) & Hcs & ->)%Forall2_cons_inv_l & ->).
      eexists. split; [eexists; split; [by exists (dwc_after c)|done]|].
      exists cs'. split; [done|]. simpl. rewrite <- !app_assoc. simpl.
      by destruct c; simpl in *; subst.
  - cbn [bind]. split.
    + intros (st1 & [= <-] & cs' & Hcs & ->). exists cs'. simpl. by rewrite <- app_assoc.
    + intros (cs' & Hcs & ->). eexists. split; [done|]. exists cs'. simpl. by rewrite <- app_assoc.
Qed.

(** The effect of a reduction: the packs leave the group, each pending work
    gives them up, and every scope the packs had is recorded. *)
Record reduced (g : PhysicalStockGroup) (packs : WholePacks) (r : ActualPhysicalReduction) : Prop := {
  rd_group : group_ok g /\ apr_before r = g;
  rd_packs : 0 < raw packs /\ apr_actual_departed r = packs;
  rd_balance : raw (apr_on_hand_after r) + raw packs = raw (pg_packs g);
  rd_revision : raw (apr_after_revision r) = raw (pg_revision g) + 1;
  rd_changes : Forall2 (retired_by packs) (List.filter is_pending_allocation (pg_work g)) (apr_work_changes r);
  rd_scopes : apr_removed_work_scope r = removed_scope g packs (apr_on_hand_after r) <$> pg_work g
}.

Lemma reduction_plan_Ok g packs r : ActualPhysicalReduction_plan g packs = Ok r <-> reduced g packs r.
Proof.
  unfold ActualPhysicalReduction_plan. rewrite seq_Ok, map_err_Ok, validate_Ok, guard_Ok.
  pose proof (WholePacks_range packs) as Hrange. split.
  - intros (Hg & Hp & Hr). apply bind_Ok in Hr as (rest & Hrest & Hr).
    apply bind_Ok in Hr as ([cs ss] & Hf & Hr). apply reduce_allocations_Ok in Hf as (cs' & Hcs & [= -> ->]);
      [|by apply go_work]. run_ok. rewrite HubRevision_next_Ok, checked_sub_Ok in *. breflect.
    constructor; simpl; try done; [|lia]. split; [lia|done].
  - intros [[Hg Hb] [Hp Hd] Hbal Hrev Hcs Hss]. split; [done|].
    pose proof (WholePacks_range (apr_on_hand_after r)). split; [breflect; lia|].
    rewrite (proj2 (checked_sub_Ok _ _ (apr_on_hand_after r))) by lia. cbn [map_err bind].
    rewrite (proj2 (reduce_allocations_Ok g packs (apr_on_hand_after r) (pg_work g) ([], []) _ (go_work _ Hg)))
      by (exists (apr_work_changes r); split; [done|reflexivity]).
    cbn [bind]. rewrite (proj2 (HubRevision_next_Ok _ _) Hrev). cbn [map_err bind]. f_equal.
    destruct r; simpl in *. by subst.
Qed.

(** When a group can be reduced: a positive part of it, with every revision
    that changes still able to advance. *)
Record reducible (g : PhysicalStockGroup) (packs : WholePacks) : Prop := {
  rdb_group : group_ok g;
  rdb_packs : 0 < raw packs <= raw (pg_packs g);
  rdb_revision : raw (pg_revision g) < HubRevision_MAXIMUM;
  rdb_work : Forall (fun a => wa_progress a = WorkProgress.Pending ->
    raw (wr_revision (wa_requirement a)) < HubRevision_MAXIMUM) (pg_work g)
}.

Lemma shortage_work_exists packs work :
  raw packs <= raw (remaining (wr_quantity work)) -> raw (wr_revision work) < HubRevision_MAXIMUM ->
  exists after, shortage_work packs work after.
Proof.
  intros Hp Hr. destruct (shortage_requirement_total work packs Hp Hr) as [after Ha].
  exists after. by apply shortage_requirement_run.
Qed.

Lemma reducible_reduced g packs : reducible g packs -> exists r, reduced g packs r.
Proof.
  intros [Hg Hp Hr Hw]. pose proof (WholePacks_range (pg_packs g)).
  destruct (checked_sub_total (pg_packs g) packs) as (rest & _ & Hrest); [lia|].
  destruct (movement_next_total _ Hr) as (rev & Hrev%movement_next_Ok & _).
  assert (exists cs, Forall2 (retired_by packs) (List.filter is_pending_allocation (pg_work g)) cs) as [cs Hcs].
  { assert (Forall (fun a => exists c, retired_by packs a c) (List.filter is_pending_allocation (pg_work g))) as Hf.
    - apply list.Forall_forall. intros a [Ha Hpa]%pending_elem. pose proof (go_work _ Hg) as Hok.
      rewrite list.Forall_forall in Hok, Hw. pose proof (ao_packs _ _ (Hok a Ha)) as Hle.
      unfold accounted_packs in Hle. rewrite Hpa in Hle.
      destruct (shortage_work_exists packs (wa_requirement a)) as [after Hafter]; [lia|by apply Hw|].
      by exists {| dwc_before := wa_requirement a; dwc_after := after; dwc_retired := packs |}.
    - clear -Hf. induction Hf as [|a l [c Hc] _ [cs IH]]; [by exists []|]. exists (c :: cs). by constructor. }
  exists {| apr_before := g; apr_actual_departed := packs; apr_on_hand_after := rest; apr_after_revision := rev;
    apr_work_changes := cs; apr_removed_work_scope := removed_scope g packs rest <$> pg_work g |}.
  constructor; simpl; try done; [split; [lia|done]|lia].
Qed.

Lemma reduced_reducible g packs r : reduced g packs r -> reducible g packs.
Proof.
  intros [[Hg _] [Hp _] Hb Hr Hcs _]. pose proof (WholePacks_range (apr_on_hand_after r)).
  pose proof (HubRevision_range (apr_after_revision r)). constructor; try done; [lia..|].
  apply list.Forall_forall. intros a Ha Hpa.
  assert (a ∈ List.filter is_pending_allocation (pg_work g)) as Hin by by apply pending_elem.
  apply list_elem_of_lookup in Hin as [i Hi]. destruct (Forall2_lookup_l _ _ _ _ _ Hcs Hi) as (c & _ & _ & _ & Hw).
  pose proof (sw_revision _ _ _ Hw). pose proof (HubRevision_range (wr_revision (dwc_after c))). lia.
Qed.

(** Packs that had left before they were recorded are taken off a group
    exactly when they are a positive part of it and every revision that must
    advance still can; the group then keeps what is left, every pending work
    gives up exactly the departed packs, in the order of the group's work, and
    completed work keeps its progress in the recorded scopes. *)
Theorem reduction_correct g packs :
  match ActualPhysicalReduction_plan g packs with
  | Ok r => reducible g packs /\ reduced g packs r
  | Err _ => ~ reducible g packs
  end.
Proof.
  destruct (ActualPhysicalReduction_plan g packs) as [r|e] eqn:E.
  - apply reduction_plan_Ok in E as Hr. split; [|done]. by apply reduced_reducible in Hr.
  - intros [r Hr]%reducible_reduced. apply reduction_plan_Ok in Hr. congruence.
Qed.

Lemma reduction_validate_Ok r :
  ActualPhysicalReduction_validate r = Ok tt <-> reduced (apr_before r) (apr_actual_departed r) r.
Proof.
  unfold ActualPhysicalReduction_validate. rewrite bind_Ok. setoid_rewrite guard_Ok.
  setoid_rewrite negb_false_iff. setoid_rewrite bool_decide_eq_true.
  setoid_rewrite reduction_plan_Ok. naive_solver.
Qed.

(** Reconciling never lowers the floor of what is left. *)
Lemma reconciled_floor_Ok r occurred now f :
  ActualPhysicalReduction_causal_floor_after_reconciliation r occurred now = Ok f <->
  reduced (apr_before r) (apr_actual_departed r) r /\ Occurrence_validate occurred now = Ok tt /\
  (forall floor, pg_causal_floor (apr_before r) = Some floor -> raw floor <= raw now) /\
  f = option_max (pg_causal_floor (apr_before r)) (earliest_of occurred).
Proof.
  unfold ActualPhysicalReduction_causal_floor_after_reconciliation.
  rewrite seq_Ok, reduction_validate_Ok, guard_Ok, seq_Ok, map_err_Ok, some_and_false.
  setoid_rewrite Z.ltb_ge. assert (forall o, match o with Occurrence.Known at_ => Some at_
    | Occurrence.Interval e _ => Some e | Occurrence.Unknown => None end = earliest_of o) as ->
    by by intros []. naive_solver.
Qed.

(** ** Recording a departure already taken *)

Definition known_key (k : ActualKnownDeparture) : HubRecordId * HubRecordId * HubRecordId :=
  (akd_operation k, akd_trace k, rr_id (akd_variant k)).

(** A recorded departure of the same packs' population and variant that may have
    gone to the same recipient, at an instant both may have had. *)
Definition possible_duplicate (trace variant recipient : HubRecordId) (occurred : Occurrence)
    (k : ActualKnownDeparture) (history : list RecipientAttributionCorrection) : Prop :=
  akd_trace k = trace /\ rr_id (akd_variant k) = variant /\ may_receive k history recipient /\
  exists t, instant (akd_occurred k) t /\ instant occurred t.

Record known_in_context (c : ActualReviewContext) (operation : HubRecordId) (now : UnixTimestamp)
    (k : ActualKnownDeparture) : Prop := {
  kc_valid : known_ok k;
  kc_operation : akd_operation k <> operation;
  kc_hub : akd_hub k = arx_hub c;
  kc_revisions : raw (akd_stock_revision k) <= raw (arx_stock_revision c) /\
    raw (akd_catalog_revision k) <= raw (rc_revision (arx_catalog c));
  kc_recorded : raw (akd_recorded_at k) <= raw now
}.

(** What the loop asks of one entry. *)
Definition screened (ctx : ActualNewDepartureContext) (facts : ActualReviewFacts)
    (source : ResolvedActualSource) (views : option (list ActualKnownInterpretationView))
    (operation : HubRecordId) (now : UnixTimestamp) (entry : nat * ActualKnownDeparture) : Prop :=
  known_in_context (anx_review ctx) operation now entry.2 /\
  ~ (akd_trace entry.2 = hap_trace (has_group (ros_historical source)) /\
     rr_id (akd_variant entry.2) = pg_variant (arx_group (anx_review ctx)) /\
     recipient_matches views (arf_recipient facts) entry.1 entry.2 = true /\
     exists t, instant (akd_occurred entry.2) t /\ instant (arf_occurred facts) t).

Lemma screen_known_run ctx facts source views operation now s seen entry :
  invalid_interval (arf_occurred facts) = false -> keys_of (known_key ∘ snd) s seen ->
  match screen_known ctx facts source views operation now s entry with
  | Ok s' => ((known_key ∘ snd) entry ∉ (known_key ∘ snd) <$> seen /\
      screened ctx facts source views operation now entry) /\ keys_of (known_key ∘ snd) s' (seen ++ [entry])
  | Err _ => ~ ((known_key ∘ snd) entry ∉ (known_key ∘ snd) <$> seen /\
      screened ctx facts source views operation now entry)
  end.
Proof.
  intros Hi Hs. destruct (keys_of_insert (known_key ∘ snd) s seen entry Hs) as [Hf Hk]. destruct entry as [i k].
  unfold screen_known, screened. cbn [fst snd].
  destruct (ActualKnownDeparture_validate k) as [[]|] eqn:Ev; cbn [bind].
  2:{ intros (_ & [Hv _ _ _ _] & _). apply known_validate_Ok in Hv. congruence. }
  apply known_validate_Ok in Ev. split_guard E1; breflect; [by intros (_ & [_ ? _ _ _] & _)|].
  change ((known_key ∘ snd) (i, k)) with (known_key k) in *.
  change (akd_operation k, akd_trace k, rr_id (akd_variant k)) with (known_key k).
  destruct (bs_insert (known_key k) s) as [fresh s']. simpl in Hf, Hk.
  split_guard E2; breflect.
  { intros (Hn & [_ _ Hh [? ?] ?] & _). destruct fresh; [|by apply Hf in Hn].
    repeat destruct E2 as [E2|E2]; try lia; done. }
  pose proof (overlaps_iff (akd_occurred k) (arf_occurred facts)
    (occurrence_valid _ _ (ko_occurred _ Ev)) Hi) as Ho.
  split_guard E3; breflect; [tauto|].
  split; [|done]. split_and!; [by apply Hf|by constructor|]. intros (? & ? & ? & Ht%Ho).
  destruct E3 as [[[?|?]|?]|?]; congruence.
Qed.

Section Recorded.
Context `{Sha256}.

(** The accounts of the interpretations are accounts of the code. *)
Definition interpretations_restored (interpretations : option ActualKnownInterpretations) : Prop :=
  forall set, interpretations = Some set ->
    Forall (fun r => forall value, aki_count_explanation r = Some value -> loss_restored (ake_account value))
      (aks_records set).

(** The amendments of the recipient of each known departure. *)
Definition history_at (interpretations : option ActualKnownInterpretations) (i : nat)
  : list RecipientAttributionCorrection :=
  match interpretations with
  | None => []
  | Some set => from_option aki_recipient_history [] (aks_records set !! i)
  end.

(** One interpretation for each known departure, and the inventory is accepted. *)
Definition interpreted (c : ActualNewDepartureContext) (operation : HubRecordId)
    (interpretations : option ActualKnownInterpretations) : Prop :=
  forall set, interpretations = Some set ->
    aki_original <$> aks_records set = anx_known_departures c /\
    exists views, inventory_ok set (Some (arr_operation (arx_original (anx_review c)),
      arr_stock_revision (arx_original (anx_review c)), operation)) views.

Lemma combined_originals (records : list ActualKnownInterpretation) known :
  length records = length known ->
  existsb (fun '(record, original) => aki_original record !=? original) (combine records known) = false ->
  aki_original <$> records = known.
Proof.
  revert known. induction records as [|r records IH]; intros [|k known] Hl; simpl in *; try done.
  rewrite orb_false_iff, negb_false_iff, bool_decide_eq_true. intros [-> Hx]. f_equal. apply IH; [lia|done].
Qed.

Lemma validate_set_run c set operation now views :
  interpretations_restored (Some set) -> validate_set c set operation now = Ok views ->
  aki_original <$> aks_records set = anx_known_departures c /\
  inventory_ok set (Some (arr_operation (arx_original (anx_review c)),
    arr_stock_revision (arx_original (anx_review c)), operation)) views.
Proof.
  intros Hr Hv. unfold validate_set in Hv. do 2 apply guard_Ok in Hv as [_ Hv]. apply guard_Ok in Hv as [B Hv].
  apply orb_false_iff in B as [B1 B2]. apply negb_false_iff, Nat.eqb_eq in B1.
  split; [by apply combined_originals|]. apply inventory_run; [by apply Hr|done].
Qed.

Lemma recipient_matches_iff c interpretations operation now views i k recipient :
  interpretations_restored interpretations ->
  transpose_map (fun set => validate_set c set operation now) interpretations = Ok views ->
  anx_known_departures c !! i = Some k ->
  recipient_matches views recipient i k = true <-> may_receive k (history_at interpretations i) recipient.
Proof.
  intros Hr Hv Hk. apply transpose_map_Ok in Hv. destruct interpretations as [set|]; subst; simpl.
  - destruct Hv as (vs & Hv & ->). apply validate_set_run in Hv as [Ho Hio]; [|done].
    rewrite <- Ho, list_lookup_fmap in Hk. destruct (aks_records set !! i) as [r|] eqn:Er; [|done].
    injection Hk as <-. destruct (Forall2_lookup_l _ _ _ _ _ (io_views _ _ _ Hio) Er) as (v & Hvi & Hview).
    simpl. rewrite Hvi. simpl. apply view_run in Hview as (-> & _). apply could_match_iff.
  - rewrite bool_decide_eq_true. unfold may_receive. setoid_rewrite elem_of_nil. naive_solver.
Qed.

(** What an accepted command has established and what it does. *)
Record new_departure (self : ActualNewDepartureCommand) (c : ActualNewDepartureContext)
    (interpretations : option ActualKnownInterpretations)
    (operation : HubRecordId) (actor : PublicKey) (now : UnixTimestamp)
    (p : ActualNewDeparturePlan) : Prop := {
  nd_first : anx_prior_review c = None /\ operation <> arr_operation (arx_original (anx_review c)) /\
    operation <> and_source_operation self;
  nd_context : asx_lineage (anx_historical_source c) = arx_lineage (anx_review c) /\
    asx_balancing_group (anx_historical_source c) = arx_group (anx_review c) /\
    has_operation (asx_source (anx_historical_source c)) = and_source_operation self /\
    hap_id (has_group (asx_source (anx_historical_source c))) = and_source_group self;
  nd_review : reviewed (and_facts self) (anx_review c) now (anp_comparison p);
  nd_source : source_resolved (anx_historical_source c) (arx_original (anx_review c))
      (arf_occurred (and_facts self)) now /\
    anp_historical_source p = {| ros_historical := asx_source (anx_historical_source c);
      ros_balancing_group := pg_id (arx_group (anx_review c)) |};
  nd_known : (length (anx_known_departures c) <= HUB_STOCK_EVENT_CAPACITY)%nat /\
    Forall (known_in_context (anx_review c) operation now) (anx_known_departures c) /\
    NoDup (known_key <$> anx_known_departures c);
  nd_interpreted : interpreted c operation interpretations;
  nd_no_duplicate : forall i k, anx_known_departures c !! i = Some k ->
    ~ possible_duplicate (pg_trace (arx_group (anx_review c))) (pg_variant (arx_group (anx_review c)))
        (arf_recipient (and_facts self)) (arf_occurred (and_facts self)) k (history_at interpretations i);
  nd_reduction : reduced (arx_group (anx_review c)) (arf_packs (and_facts self)) (anp_reduction p);
  nd_floor : anp_after_causal_floor p = option_max (pg_causal_floor (arx_group (anx_review c)))
    (earliest_of (arf_occurred (and_facts self)));
  nd_record : anp_operation p = operation /\ anp_actor p = actor /\ anp_recorded_at p = now /\
    anp_report p = arx_original (anx_review c) /\
    anp_duplicate_review_basis p = and_duplicate_review_basis self /\
    raw (anp_stock_revision p) = raw (arx_stock_revision (anx_review c)) + 1
}.

(** The loop over the known departures, with its indices. *)
Lemma screen_all_run ctx facts source views operation now s :
  invalid_interval (arf_occurred facts) = false ->
  try_fold (screen_known ctx facts source views operation now) [] (imap pair (anx_known_departures ctx)) = Ok s ->
  NoDup (known_key <$> anx_known_departures ctx) /\
  forall i k, anx_known_departures ctx !! i = Some k -> screened ctx facts source views operation now (i, k).
Proof.
  intros Hi Hs.
  pose proof (try_fold_each_after (screen_known ctx facts source views operation now) (keys_of (known_key ∘ snd)) _ []
    (imap pair (anx_known_departures ctx))
    (fun st l a => screen_known_run ctx facts source views operation now st l a Hi) (keys_of_nil _)) as Hk.
  rewrite Hs in Hk. destruct Hk as [Hk _]. apply each_after_and in Hk as [Hn Hk].
  rewrite each_after_NoDup, fmap_imap in Hn. rewrite each_after_Forall in Hk. split.
  - by rewrite <- (imap_const known_key (anx_known_departures ctx)).
  - intros i k Hik. rewrite list.Forall_forall in Hk. apply Hk.
    by apply (elem_of_lookup_imap_2 pair).
Qed.

Lemma new_departure_run self c interpretations operation actor now p :
  lineage_wf (arx_lineage (anx_review c)) -> interpretations_restored interpretations ->
  ActualNewDepartureCommand_plan_inner self c interpretations operation actor now = Ok p ->
  new_departure self c interpretations operation actor now p.
Proof.
  intros Hwf Hres Hp. unfold ActualNewDepartureCommand_plan_inner in Hp.
  apply guard_Ok in Hp as [B1 Hp]. apply guard_Ok in Hp as [B2 Hp]. apply guard_Ok in Hp as [B3 Hp].
  apply bind_Ok in Hp as (w & Hw & Hp). apply bind_Ok in Hp as (source & Hsrc & Hp).
  apply bind_Ok in Hp as (views & Hviews & Hp). apply guard_Ok in Hp as [B4 Hp].
  apply bind_Ok in Hp as (seen & Hs & Hp). apply bind_Ok in Hp as (r & Hr & Hp).
  apply bind_Ok in Hp as (f & Hf & Hp). apply bind_Ok in Hp as (rev & Hrev & [= <-]).
  rewrite map_err_Ok, HubRevision_next_Ok in Hrev. breflect. apply review_run_actual in Hw as Hrw; [|done].
  apply resolve_at_boundary_run in Hsrc as [-> Hsr]; [|congruence].
  destruct (rw_timing _ _ _ _ Hrw) as [Hocc Hle]. apply reduction_plan_Ok in Hr.
  apply reconciled_floor_Ok in Hf as (_ & _ & _ & ->).
  destruct (rd_group _ _ _ Hr) as [_ Hb]. destruct (sv_scope _ _ _ _ Hsr) as (Ht & _).
  apply screen_all_run in Hs as [Hn Hd]; [|by eapply occurrence_valid]. constructor; simpl; try done.
  - destruct (anx_prior_review c); [done|]. by split_and!.
  - split; [done|]. congruence.
  - split_and!; try done. apply list.Forall_forall. intros k [i Hik]%list_elem_of_lookup. by apply (Hd i k).
  - intros set ->. apply transpose_map_Ok in Hviews as (vs & Hvs & _).
    apply validate_set_run in Hvs as [Ho Hio]; [|done]. split; [done|by exists vs].
  - intros i k Hik (D1 & D2 & D3 & D4). destruct (Hd i k Hik) as [_ Hno]. apply Hno. simpl.
    match goal with E : asx_balancing_group _ = _ |- _ => rewrite E in Ht end.
    rewrite (recipient_matches_iff c interpretations operation now) by done. by rewrite Ht.
  - by rewrite Hb.
Qed.

(** The departure a recorded plan becomes for later reviews. *)
Record projected (c : ActualReviewContext) (facts : ActualReviewFacts)
    (p : ActualNewDeparturePlan) (k : ActualKnownDeparture) : Prop := {
  pj_valid : known_ok k;
  pj_record : akd_operation k = anp_operation p /\ akd_actor k = anp_actor p /\
    akd_recorded_at k = anp_recorded_at p /\ akd_stock_revision k = anp_stock_revision p /\
    akd_hub k = arr_hub (anp_report p) /\ akd_catalog_revision k = rc_revision (arx_catalog c);
  pj_what : akd_trace k = pg_trace (arx_group c) /\ rr_id (akd_variant k) = pg_variant (arx_group c) /\
    rr_id (akd_recipient k) = arf_recipient facts /\ akd_occurred k = arf_occurred facts;
  pj_line : exists location, akd_lines k =
    [{| akl_group := pg_id (arx_group c); akl_location := location; akl_packs := arf_packs facts |}]
}.

Lemma occurrence_later o a b : Occurrence_validate o a = Ok tt -> raw a <= raw b -> Occurrence_validate o b = Ok tt.
Proof.
  unfold Occurrence_validate. destruct o; intros E Hle; try done; case_match; try done; breflect;
    case_match; try done; breflect; naive_solver lia.
Qed.

Lemma sum_one_pack (p : WholePacks) : raw p = sum_packs [p].
Proof. simpl. lia. Qed.

(** The source record may name a later catalog than the review's; the projection
    is exactly as good as its location's revision. *)
Lemma new_departure_projects self c interpretations operation actor now p :
  catalog_wf (arx_catalog (anx_review c)) -> new_departure self c interpretations operation actor now p ->
  match ActualNewDeparturePlan_physical_projection p with
  | Ok k => projected (anx_review c) (and_facts self) p k
  | Err _ => raw (rc_revision (arx_catalog (anx_review c)))
      < raw (rr_revision (has_location (asx_source (anx_historical_source c))))
  end.
Proof.
  intros Hc [_ (_ & Hg & _) Hrw [Hsr Hsrc] _ _ _ Hr _ (Ho & Ha & Ht & Hrep & _ & Hrev)].
  pose proof Hrw as [(R1 & R2 & R3) (_ & R4) (_ & _ & R5 & R6 & _) _ [R7 R8] (R9 & R10 & R11) _
    (R12 & R13 & R14 & R15 & _) _].
  pose proof (reduction_validate_Ok (anp_reduction p)) as Hv.
  destruct Hr as [[Hgk Hb] [Hpos Hd] Hbal Hr1 Hr2 Hr3] eqn:Er. rewrite Hb, Hd in Hv.
  destruct (sv_scope _ _ _ _ Hsr) as (S1 & S2 & S3 & S4). destruct (sv_evidence _ _ _ _ Hsr) as (_ & S5 & _).
  rewrite Hg in S1, S2. unfold ActualNewDeparturePlan_physical_projection.
  rewrite (proj2 (report_record_validate_Ok (anp_report p))) by (by rewrite Hrep). cbn [bind].
  rewrite (proj2 Hv Hr). cbn [bind]. rewrite Hsrc, Hb, Hd, Hrep, R2, R3, R4, R5, R6, R10. simpl.
  assert (abc_on_hand_after (arw_scope (anp_comparison p)) = apr_on_hand_after (anp_reduction p)) as ->
    by (apply refined_eq; lia).
  rewrite (cw_keys _ Hc _ _ R12), (cw_keys _ Hc _ _ R14), S1, S2, S5.
  rewrite !bool_decide_eq_true_2 by done. cbn [negb orb].
  set (k := {| akd_operation := _ |}).
  destruct (ActualKnownDeparture_validate k) as [[]|e] eqn:Ek; cbn [bind].
  - apply known_validate_Ok in Ek. constructor; [done| |..]; simpl.
    + split_and!; congruence.
    + split_and!; try done; by apply (cw_keys _ Hc).
    + by eexists.
  - apply Z.nle_gt. intros Hle. cut (known_ok k); [intros ?%known_validate_Ok; congruence|].
    pose proof (HubRevision_range (arx_stock_revision (anx_review c))).
    constructor; simpl.
    + unfold HUB_DISPATCH_LINES. lia.
    + rewrite Ht. by eapply occurrence_later.
    + split; [done|]. by eapply cw_revisions.
    + split; [done|]. by eapply cw_revisions.
    + intros E. rewrite E in Hrev. simpl in Hrev. lia.
    + apply NoDup_singleton.
    + by repeat constructor.
    + exists (arf_packs (and_facts self)). apply known_packs_Ok. apply sum_one_pack.
Qed.

(** C14: a departure already taken is recorded only as the first review of its
    report, from a source the evidence leaves no doubt about, and only when no
    recorded departure may be the same one: nothing of the same population and
    variant may have gone to the same recipient, by its record or by any
    amendment of it, at an instant both may have had.  It then takes exactly the
    reviewed packs off the group, retires the pending work by as many, never
    lowers the floor, and becomes a valid known departure of one line for every
    later review (unless the source's place was recorded at a later catalog than
    the review's). *)
Theorem new_departure_correct self c interpretations operation actor now p :
  lineage_wf (arx_lineage (anx_review c)) -> catalog_wf (arx_catalog (anx_review c)) ->
  interpretations_restored interpretations ->
  ActualNewDepartureCommand_plan_inner self c interpretations operation actor now = Ok p ->
  new_departure self c interpretations operation actor now p /\
  match ActualNewDeparturePlan_physical_projection p with
  | Ok k => projected (anx_review c) (and_facts self) p k
  | Err _ => raw (rc_revision (arx_catalog (anx_review c)))
      < raw (rr_revision (has_location (asx_source (anx_historical_source c))))
  end.
Proof.
  intros Hwf Hc Hres Hp. apply new_departure_run in Hp; [|done..]. split; [done|].
  by apply (new_departure_projects self c interpretations operation actor now).
Qed.

(** C15: packs are never taken off twice for one departure: once a departure is
    recorded and known, every later command for the same population, variant and
    recipient at an instant the recorded departure may have had is refused,
    whatever operation, report, source or group it names, and whatever
    amendments of the recipient are captured with it. *)
Theorem departure_recorded_once self c interpretations operation actor now p k
    self' c' interpretations' operation' actor' now' t :
  lineage_wf (arx_lineage (anx_review c)) -> catalog_wf (arx_catalog (anx_review c)) ->
  lineage_wf (arx_lineage (anx_review c')) ->
  interpretations_restored interpretations -> interpretations_restored interpretations' ->
  ActualNewDepartureCommand_plan_inner self c interpretations operation actor now = Ok p ->
  ActualNewDeparturePlan_physical_projection p = Ok k -> k ∈ anx_known_departures c' ->
  pg_trace (arx_group (anx_review c')) = pg_trace (arx_group (anx_review c)) ->
  pg_variant (arx_group (anx_review c')) = pg_variant (arx_group (anx_review c)) ->
  arf_recipient (and_facts self') = arf_recipient (and_facts self) ->
  instant (arf_occurred (and_facts self)) t -> instant (arf_occurred (and_facts self')) t ->
  exists e, ActualNewDepartureCommand_plan_inner self' c' interpretations' operation' actor' now' = Err e.
Proof.
  intros Hwf Hc Hwf' Hres Hres' Hp Hk Hin Ht Hv Hr Hi Hi'.
  destruct (ActualNewDepartureCommand_plan_inner self' _ _ _ _ _) as [p'|e] eqn:E; [|by exists e]. exfalso.
  apply new_departure_run in Hp, E; try done.
  pose proof (new_departure_projects _ _ _ _ _ _ _ Hc Hp) as Hj. rewrite Hk in Hj.
  destruct (pj_what _ _ _ _ Hj) as (J1 & J2 & J3 & J4). apply list_elem_of_lookup in Hin as [i Hik].
  apply (nd_no_duplicate _ _ _ _ _ _ _ E i k Hik). unfold possible_duplicate.
  split_and!; [congruence|congruence|left; congruence|]. exists t. by rewrite J4.
Qed.

(** ** Possible duplicates *)

Lemma report_valid_time r : report_ok r -> invalid_interval (arc_occurred (arr_report r)) = false.
Proof.
  intros Hr. destruct (arc_occurred _) as [|a b|] eqn:Eo; try done. simpl. apply Z.ltb_ge.
  by eapply (rp_occurred _ (rok_report _ Hr)).
Qed.

(** A reported source is a line of the departure, or the position an explanation
    of its count was taken from. *)
Definition names_line (k : ActualKnownDeparture) (s : ReportedActualSource) : Prop :=
  exists l, l ∈ akd_lines k /\ ras_trace s = akd_trace k /\
    (forall g, ras_group s = Some g -> g = akl_group l) /\
    (forall v, ras_location s = Some v -> v = rr_id (akl_location l)).
Definition names_position (w : CountExplanationSourceWitness) (s : ReportedActualSource) : Prop :=
  let source := ros_historical (csw_source w) in
  ras_trace s = hap_trace (has_group source) /\
  (forall g, ras_group s = Some g -> g = hap_id (has_group source)) /\
  (forall v, ras_location s = Some v -> v = rr_id (has_location source)).

(** The known departure may be the reported one. *)
Record may_be (claim : ActualReportCommand) (c : DuplicateContext) : Prop := {
  mb_variant : forall v, arc_variant claim = Some v -> v = rr_id (akd_variant (dcx_known c));
  mb_recipient : forall v, arc_recipient claim = Some v ->
    match dcx_interpretation c with
    | None => v = rr_id (akd_recipient (dcx_known c))
    | Some r => may_receive (aki_original r) (aki_recipient_history r) v
    end;
  mb_packs : forall v, arc_packs claim = Some v ->
    match dcx_interpretation c with
    | None => raw v = sum_packs (akl_packs <$> akd_lines (dcx_known c))
    | Some r => raw v = sum_packs (akl_packs <$> akd_lines (aki_original r)) \/ effective_packs_of r = Ok v
    end;
  mb_instant : exists t, instant (arc_occurred claim) t /\ instant (akd_occurred (dcx_known c)) t;
  mb_source : arc_sources claim = ActualReportSources.Unknown \/
    exists s, s ∈ ActualReportSources_candidates (arc_sources claim) /\
      (names_line (dcx_known c) s \/ exists w, dcx_count_source c = Some w /\ names_position w s)
}.

(** The interpretation is not older than the report, and uses none of the
    operations and revisions of the review. *)
Record interpretation_fits (original : ActualReportRecord) (operation : HubRecordId)
    (now : UnixTimestamp) (r : ActualKnownInterpretation) : Prop := {
  if_cut : raw (arr_stock_revision original) <= raw (aki_stock_revision r) /\
    raw (arr_catalog_revision original) <= raw (aki_catalog_revision r) /\
    raw (arr_recorded_at original) <= raw (aki_latest_recorded_at r) <= raw now;
  if_operations : forall e, e ∈ ActualKnownInterpretation_operations r ->
    e.1 <> operation /\ e.1 <> arr_operation original /\ e.2 <> arr_stock_revision original
}.

(** The source of a counted shortage goes with the interpretation that explains
    it, and its operation is none of theirs. *)
Record count_source_fits (original : ActualReportRecord) (operation : HubRecordId)
    (known : ActualKnownDeparture) (r : ActualKnownInterpretation) (value : ActualKnownCountExplanation)
    (w : CountExplanationSourceWitness) : Prop := {
  cf_bound : CountExplanationSourceWitness_validate_for w known (ake_count value) = Ok tt;
  cf_operation : has_operation (ros_historical (csw_source w)) <> operation /\
    has_operation (ros_historical (csw_source w)) <> arr_operation original /\
    has_stock_revision (ros_historical (csw_source w)) <> arr_stock_revision original;
  cf_apart : forall e, e ∈ ActualKnownInterpretation_operations r ->
    e.1 <> has_operation (ros_historical (csw_source w)) /\
    e.2 <> has_stock_revision (ros_historical (csw_source w))
}.

Record linkable (self : ActualDuplicateLink) (c : DuplicateContext)
    (prior : option HubRecordId) (operation : HubRecordId) (now : UnixTimestamp) : Prop := {
  lk_report : report_ok (dcx_original c);
  lk_known : known_ok (dcx_known c);
  lk_first : prior = None;
  lk_operation : operation <> arr_operation (dcx_original c) /\ operation <> akd_operation (dcx_known c);
  lk_names : adl_report self = arr_id (dcx_original c) /\
    adl_known_operation self = akd_operation (dcx_known c) /\
    adl_known_trace self = akd_trace (dcx_known c) /\
    adl_known_variant self = rr_id (akd_variant (dcx_known c));
  lk_hub : arr_hub (dcx_original c) = akd_hub (dcx_known c);
  lk_recorded : raw (arr_recorded_at (dcx_original c)) <= raw now /\
    raw (akd_recorded_at (dcx_known c)) <= raw now;
  lk_interpretation : forall r, dcx_interpretation c = Some r ->
    interpretation_fits (dcx_original c) operation now r /\
    exists v, ActualKnownInterpretation_view r = Ok v;
  lk_count : match dcx_interpretation c ≫= aki_count_explanation, dcx_count_source c with
    | None, None => True
    | Some value, Some w => exists r, dcx_interpretation c = Some r /\
        count_source_fits (dcx_original c) operation (dcx_known c) r value w
    | _, _ => False
    end;
  lk_claim : may_be (arr_report (dcx_original c)) c
}.

Lemma known_matches_iff k s : known_matches_source k s = true <-> names_line k s.
Proof.
  unfold known_matches_source, names_line. rewrite andb_true_iff, bool_decide_eq_true, existsb_exists.
  setoid_rewrite <- list_elem_of_In. setoid_rewrite andb_true_iff. setoid_rewrite is_none_or_eq. naive_solver.
Qed.

Lemma position_matches_iff w s :
  CountExplanationSourceWitness_matches_source w s = true <-> names_position w s.
Proof.
  unfold CountExplanationSourceWitness_matches_source, names_position.
  rewrite !andb_true_iff, bool_decide_eq_true, !is_none_or_eq. tauto.
Qed.

Lemma source_excluded_iff k w sources :
  source_excluded k w sources = false <->
  sources = ActualReportSources.Unknown \/
  exists s, s ∈ ActualReportSources_candidates sources /\
    (names_line k s \/ exists w', w = Some w' /\ names_position w' s).
Proof.
  assert (existsb (fun claim => known_matches_source k claim
      || is_some_and w (fun source => CountExplanationSourceWitness_matches_source source claim))
    (ActualReportSources_candidates sources) = true <->
    exists s, s ∈ ActualReportSources_candidates sources /\
      (names_line k s \/ exists w', w = Some w' /\ names_position w' s)) as He.
  { rewrite existsb_exists. setoid_rewrite <- list_elem_of_In. setoid_rewrite orb_true_iff.
    setoid_rewrite known_matches_iff. destruct w as [w|]; simpl; [setoid_rewrite position_matches_iff|]; naive_solver. }
  unfold source_excluded. destruct sources; rewrite ?negb_false_iff, ?He; naive_solver.
Qed.

Lemma link_view_Ok original operation now r v :
  link_view original operation now r = Ok v <->
  interpretation_fits original operation now r /\ ActualKnownInterpretation_view r = Ok v.
Proof.
  assert (forall l, try_for_each (fun '(id, revision) =>
      if (id ==? operation) || (id ==? arr_operation original) then Err ActualReportError.InvalidIdentity
      else if revision ==? arr_stock_revision original then Err ActualReportError.InvalidHistory else Ok tt) l = Ok tt <->
    forall e : HubRecordId * HubRevision, e ∈ l ->
      e.1 <> operation /\ e.1 <> arr_operation original /\ e.2 <> arr_stock_revision original) as Hl.
  { intros l. rewrite try_for_each_Ok, list.Forall_forall. apply forall_proper. intros [id rev].
    rewrite !guard_Ok, orb_false_iff, !bool_decide_eq_false. simpl. tauto. }
  unfold link_view. rewrite guard_Ok, !orb_false_iff, !Z.ltb_ge, bind_Ok. setoid_rewrite seq_Ok. setoid_rewrite Hl.
  split.
  - intros (? & v' & Hv & Ho & [= <-]). split; [constructor; tauto|done].
  - intros [[Hc Ho] Hv]. split; [tauto|]. by exists v.
Qed.

Lemma link_count_source_Ok original k i w operation :
  link_count_source original k i w operation = Ok tt <->
  match i ≫= aki_count_explanation, w with
  | None, None => True
  | Some value, Some w => exists r, i = Some r /\ count_source_fits original operation k r value w
  | _, _ => False
  end.
Proof.
  unfold link_count_source. destruct (i ≫= aki_count_explanation) as [value|] eqn:Ei, w as [w|]; try (split; done).
  destruct i as [r|]; [|done]. rewrite seq_Ok, !guard_Ok, orb_false_iff, !bool_decide_eq_false.
  rewrite try_for_each_Ok, list.Forall_forall. split.
  - intros (Hb & Ho & Hr & Ha). exists r. split; [done|]. constructor; [done|tauto|]. intros e He.
    specialize (Ha e He). destruct e as [id rev]. apply guard_Ok in Ha as [Ha _].
    by rewrite orb_false_iff, !bool_decide_eq_false in Ha.
  - intros (r' & [= <-] & [Hb Ho Ha]). split_and!; try done; try tauto. intros [id rev] He. apply guard_Ok.
    split; [|done]. rewrite orb_false_iff, !bool_decide_eq_false. by apply (Ha (id, rev)).
Qed.

(** The view a link goes by is that of its interpretation. *)
Definition viewed (c : DuplicateContext) (view : option ActualKnownInterpretationView) : Prop :=
  match dcx_interpretation c, view with
  | None, None => True
  | Some r, Some v => ActualKnownInterpretation_view r = Ok v
  | _, _ => False
  end.

Lemma link_recipient_iff c view recipient :
  viewed c view ->
  link_recipient_matches view (dcx_known c) recipient = true <->
  forall v, recipient = Some v -> match dcx_interpretation c with
    | None => v = rr_id (akd_recipient (dcx_known c))
    | Some r => may_receive (aki_original r) (aki_recipient_history r) v
    end.
Proof.
  unfold viewed, link_recipient_matches. destruct (dcx_interpretation c) as [r|], view as [v|]; try done; intros Hv.
  - apply view_run in Hv as (-> & _). destruct recipient as [p|].
    + rewrite could_match_iff. naive_solver.
    + rewrite could_match_any. naive_solver.
  - apply is_none_or_eq.
Qed.

Lemma link_packs_iff c view packs :
  known_ok (dcx_known c) -> viewed c view ->
  link_packs_match view (dcx_known c) packs = true <->
  forall v, packs = Some v -> match dcx_interpretation c with
    | None => raw v = sum_packs (akl_packs <$> akd_lines (dcx_known c))
    | Some r => raw v = sum_packs (akl_packs <$> akd_lines (aki_original r)) \/ effective_packs_of r = Ok v
    end.
Proof.
  unfold viewed, link_packs_match. intros Hk. destruct packs as [p|].
  2:{ intros _. split; [done|]. by destruct view. }
  destruct (dcx_interpretation c) as [r|], view as [v|]; try done; intros Hv; simpl.
  - unfold ActualKnownInterpretationView_could_match_packs. apply view_run in Hv as (_ & Ho & -> & _). simpl.
    rewrite orb_true_iff, !bool_decide_eq_true, <- Ho, <- !raw_inj. split.
    + intros Hp v' [= <-]. destruct Hp as [Hp|Hp]; [by left|right]. f_equal. by apply refined_eq.
    + intros Hp. destruct (Hp p eq_refl) as [Hp'|[= Hp']]; [by left|right]. by rewrite Hp'.
  - destruct (ko_packs _ Hk) as [total Ht]. rewrite Ht. apply known_packs_Ok in Ht. rewrite <- Ht, bool_decide_eq_true.
    simpl. split; [intros [= ->] ? [= <-]; done|]. intros Hp. f_equal. by apply refined_eq, Hp.
Qed.

(** A report is linked to a known departure exactly when nothing it says
    excludes that departure: it is the first review of the report, the command
    names this report and departure, and what the report claims of the variant,
    the recipient, the packs, the time and the source is possible for it, by its
    record or by its captured interpretation.  The link changes no stock: it only
    records what it compared. *)
Theorem duplicate_link_correct self c prior operation actor now p :
  ActualDuplicateLink_plan_inner self c prior operation actor now = Ok p <->
  linkable self c prior operation now /\
  p = {| adp_operation := operation; adp_original := dcx_original c; adp_known := dcx_known c;
         adp_interpretation := dcx_interpretation c; adp_count_source := dcx_count_source c;
         adp_actor := actor; adp_recorded_at := now; adp_verification := adl_verification self |}.
Proof.
  assert (forall view, transpose_map (link_view (dcx_original c) operation now) (dcx_interpretation c) = Ok view <->
    viewed c view /\ forall r, dcx_interpretation c = Some r -> interpretation_fits (dcx_original c) operation now r) as Hview.
  { intros view. rewrite transpose_map_Ok. unfold viewed. destruct (dcx_interpretation c) as [r|].
    - setoid_rewrite link_view_Ok. destruct view; naive_solver.
    - destruct view; naive_solver. }
  assert (is_some prior = false <-> prior = None) as Hprior by by destruct prior.
  unfold ActualDuplicateLink_plan_inner.
  rewrite !seq_Ok, report_record_validate_Ok, known_validate_Ok, !guard_Ok, Hprior, bind_Ok.
  setoid_rewrite Hview. setoid_rewrite seq_Ok. setoid_rewrite link_count_source_Ok.
  setoid_rewrite guard_Ok. setoid_rewrite guard_Ok. setoid_rewrite source_excluded_iff.
  rewrite !orb_false_iff, !negb_false_iff, !Z.ltb_ge, !bool_decide_eq_true, !bool_decide_eq_false. split.
  - intros (Ho & Hk & -> & Hop & Hn & view & [Hvw Hfit] & Hcs & Hcl & Hs & [= <-]).
    rewrite !orb_false_iff, !negb_false_iff, some_and_false in Hcl. destruct Hcl as [[[Hv Hr] Hp] Hi].
    apply overlaps_iff in Hi; [|by apply report_valid_time|by eapply occurrence_valid, ko_occurred].
    split; [|done]. destruct_and?. constructor; try done.
    + intros r Er. split; [by apply Hfit|]. unfold viewed in Hvw. rewrite Er in Hvw. destruct view; [by eexists|done].
    + constructor; try done.
      * intros v Hvv. apply Hv in Hvv. by apply negb_false_iff, bool_decide_eq_true in Hvv.
      * by apply (proj1 (link_recipient_iff c view _ Hvw)).
      * by apply (proj1 (link_packs_iff c view _ Hk Hvw)).
  - intros [[Ho Hk -> Hop Hn Hh Hrec Hi Hcs [Hv Hr Hp Ht Hs]] ->].
    assert (exists view, viewed c view) as [view Hvw].
    { unfold viewed. destruct (dcx_interpretation c) as [r|]; [|by exists None].
      destruct (Hi r eq_refl) as [_ [v Hv']]. by exists (Some v). }
    split_and!; try done; try tauto. exists view. split_and!; try done.
    + intros r Er. by apply Hi.
    + rewrite !orb_false_iff, !negb_false_iff, some_and_false. split_and!.
      * intros v Hvv. apply negb_false_iff, bool_decide_eq_true. by apply Hv.
      * by apply (link_recipient_iff c view _ Hvw).
      * by apply (link_packs_iff c view _ Hk Hvw).
      * apply overlaps_iff; [by apply report_valid_time|by eapply occurrence_valid, ko_occurred|done].
Qed.
End Recorded.

(** The message of a reviewed departure determines the command and its context. *)
Theorem ActualNewDepartureCommand_message_inj cmd cmd' hub hub' actor actor' op op' :
  ActualNewDepartureCommand_message cmd hub actor op = ActualNewDepartureCommand_message cmd' hub' actor' op' ->
  cmd = cmd' /\ hub = hub' /\ actor = actor' /\ op = op'.
Proof.
  intros E. unfold ActualNewDepartureCommand_message in E. apply app_inv_head in E. do 3 peel E.
  apply enc_seq_inv in E as [[=] E]; [|apply _|done]. apply enc_seq_inv in E as [[=] E]; [|apply _|done].
  do 2 peel E. rewrite <- (app_nil_r (enc_seq _ _)), <- (app_nil_r (enc_seq _ [arf_source_evidence (and_facts cmd'); _; _; _; _])) in E.
  apply enc_seq_inv in E as [[=] _]; [|apply _|done].
  destruct cmd as [f ? ? ?], cmd' as [f' ? ? ?]; destruct f, f'; simpl in *. by subst.
Qed.

(** The message of a link determines the command and its context. *)
Theorem ActualDuplicateLink_message_inj cmd cmd' hub hub' actor actor' op op' :
  ActualDuplicateLink_message cmd hub actor op = ActualDuplicateLink_message cmd' hub' actor' op' ->
  cmd = cmd' /\ hub = hub' /\ actor = actor' /\ op = op'.
Proof.
  intros E. unfold ActualDuplicateLink_message in E. apply app_inv_head in E. do 7 peel E.
  apply prefix_code_inj in E; [|apply _]. destruct cmd, cmd'; simpl in *. by subst.
Qed.

(** ** A concrete departure: two of the three packs split off had been taken *)

Definition sample_actual_review (original : ActualReportRecord) : ActualReviewContext :=
  {| arx_hub := sample_hub; arx_stock_revision := sample_revision 10; arx_catalog := sample_catalog;
     arx_original := original; arx_group := sample_portion; arx_lineage := sample_lineage_split;
     arx_treatment := sample_treatment; arx_uncertain_submissions := false |}.
Definition sample_known : ActualKnownDeparture :=
  {| akd_operation := sample_id 84; akd_actor := sample_key 1; akd_hub := sample_hub;
     akd_stock_revision := sample_revision 8; akd_catalog_revision := sample_revision 7;
     akd_trace := sample_id 41; akd_variant := sample_record 12 value_pack;
     akd_recipient := sample_record 13 value_party;
     akd_occurred := Occurrence.Known (sample_time 249); akd_recorded_at := sample_time 260;
     akd_lines := [{| akl_group := sample_id 53; akl_location := sample_record 21 value_receiving;
                      akl_packs := sample_packs 2 |}] |}.
Definition sample_new_context (original : ActualReportRecord) : ActualNewDepartureContext :=
  {| anx_review := sample_actual_review original; anx_historical_source := sample_source_context;
     anx_known_departures := [sample_known]; anx_prior_review := None |}.
Definition sample_new_departure (original : ActualReportRecord) : ActualNewDepartureCommand :=
  {| and_facts := {|
       arf_report := arr_id original; arf_expected_stock_revision := sample_revision 10;
       arf_expected_catalog_revision := sample_revision 7; arf_group := sample_id 53;
       arf_expected_group_revision := HubRevision_INITIAL; arf_packs := sample_packs 2;
       arf_recipient := sample_id 13; arf_occurred := Occurrence.Known (sample_time 250);
       arf_source_evidence := sample_provenance "Label"; arf_quantity_evidence := sample_provenance "Tally";
       arf_recipient_evidence := sample_provenance "Note"; arf_timing_evidence := sample_provenance "Log" |};
     and_source_operation := sample_id 81; and_source_group := sample_id 51;
     and_duplicate_review_basis := sample_provenance "Compared" |}.

Lemma sample_new_departs : exists original p k,
  @ActualNewDepartureCommand_plan sample_sha256 (sample_new_departure original)
    (sample_new_context original) (sample_id 85) (sample_key 1) (sample_time 400) = Ok p /\
  @ActualNewDeparturePlan_physical_projection sample_sha256 p = Ok k /\
  arf_recipient (and_facts (sample_new_departure original)) = sample_id 13.
Proof.
  assert (match @ActualReportCommand_preserve sample_sha256 sample_departed sample_hub (sample_revision 9)
      (sample_revision 7) (sample_id 83) (sample_key 1) (sample_time 320) with
    | Ok o => match @ActualNewDepartureCommand_plan sample_sha256 (sample_new_departure o)
          (sample_new_context o) (sample_id 85) (sample_key 1) (sample_time 400) with
        | Ok p => is_ok (@ActualNewDeparturePlan_physical_projection sample_sha256 p)
        | Err _ => false end
    | Err _ => false end = true) as E by (vm_compute; reflexivity).
  destruct (@ActualReportCommand_preserve _ _ _ _ _ _ _ _) as [o|]; [|done]. exists o.
  destruct (@ActualNewDepartureCommand_plan _ _ _ _ _ _) as [p|]; [|done]. exists p.
  destruct (@ActualNewDeparturePlan_physical_projection _ _) as [k|]; [|done]. by exists k.
Qed.

Lemma no_interpretations : interpretations_restored None.
Proof. done. Qed.

Lemma new_departure_correct_witness : exists original p,
  @new_departure sample_sha256 (sample_new_departure original) (sample_new_context original)
    None (sample_id 85) (sample_key 1) (sample_time 400) p.
Proof.
  destruct sample_new_departs as (original & p & k & Hp & _). exists original, p.
  exact (proj1 (@new_departure_correct sample_sha256 _ (sample_new_context original) None _ _ _ _
    sample_lineage_split_wf sample_catalog_wf no_interpretations Hp)).
Defined.

(** The same facts, reviewed again against the departure they became. *)
Definition sample_again (original : ActualReportRecord) (k : ActualKnownDeparture)
  : ActualNewDepartureContext :=
  {| anx_review := sample_actual_review original; anx_historical_source := sample_source_context;
     anx_known_departures := [k]; anx_prior_review := None |}.

Lemma departure_recorded_once_witness : exists original p k e,
  @ActualNewDeparturePlan_physical_projection sample_sha256 p = Ok k /\
  @ActualNewDepartureCommand_plan sample_sha256 (sample_new_departure original)
    (sample_again original k) (sample_id 86) (sample_key 2) (sample_time 500) = Err e.
Proof.
  destruct sample_new_departs as (original & p & k & Hp & Hk & _). exists original, p, k.
  destruct (@departure_recorded_once sample_sha256 _ (sample_new_context original) None _ _ _ _ _
    (sample_new_departure original) (sample_again original k) None (sample_id 86) (sample_key 2) (sample_time 500) 250
    sample_lineage_split_wf sample_catalog_wf sample_lineage_split_wf no_interpretations
    no_interpretations Hp Hk
    (list_elem_of_here k []) eq_refl eq_refl eq_refl eq_refl eq_refl) as [e He].
  by exists e.
Defined.
