(* ===== verification/Identity.v ===== *)
(** * Public identities

    The identity half of the domain crate: the safe errors every outer layer
    reports ([error.rs]), the structural checks on Nostr keys ([key.rs]) and the
    public identity with its signer binding and label ([identity.rs]). *)

From Stdlib Require Import Bool ZArith Lia Strings.Byte Strings.String.
From stdpp Require Import base decidable option list numbers strings.
From S2P Require Import Prelude Containers Encoding Hub Reference.

(** ** Safe errors *)

Module SafeErrorCode.
Inductive SafeErrorCode :=
| InvalidPublicKey
| InvalidSecretKey
| InvalidIdentityMetadata
| InvalidProfileMetadata
| InvalidApplicationState
| IdentityAlreadyExists
| IdentityNotFound
| KeyringUnavailable
| CredentialMissing
| StorageUnavailable
| StorageCorrupt
| StorageQuarantined
| StorageBackupInvalid
| UnsupportedSchemaVersion
| RepairUnauthorized
| PendingOperationRecoveryRequired
| InvalidRelayConfiguration
| RelayConnectionFailed
| ProfileRefreshFailed
| ObserverRegistrationFailed
| NativeLibraryLoadFailed
| AvailabilityInvalidInput
| AvailabilityUnsupportedProfile
| AvailabilityScopeMismatch
| AvailabilityStaleQuery
| AvailabilityCapacity
| AvailabilityUnavailable
| HubInvalidInput
| HubConflict
| HubCapacity
| HubPermissionDenied
| HubOutcomeUnknown.
#[global] Instance SafeErrorCode_eq_dec : EqDecision SafeErrorCode.
Proof. solve_decision. Defined.
End SafeErrorCode.
Abbreviation SafeErrorCode := SafeErrorCode.SafeErrorCode.

(** [SafeMessage(&'static str)]. *)
Abbreviation SafeMessage := String.string.

Record SafeError := SafeError_new { se_code : SafeErrorCode; se_message : SafeMessage }.
#[global] Instance SafeError_eq_dec : EqDecision SafeError.
Proof. solve_decision. Defined.

Definition invalid_public_key : SafeError :=
  SafeError_new SafeErrorCode.InvalidPublicKey "The Nostr public key is invalid.".
Definition invalid_secret_key : SafeError :=
  SafeError_new SafeErrorCode.InvalidSecretKey "The Nostr secret key is invalid.".
Definition invalid_identity_metadata : SafeError :=
  SafeError_new SafeErrorCode.InvalidIdentityMetadata "The identity metadata is invalid.".

(** ** Keys *)

Definition PUBLIC_KEY_BYTE_LENGTH : nat := 32.
Definition PUBLIC_KEY_HEX_LENGTH : nat := PUBLIC_KEY_BYTE_LENGTH * 2.
Definition NIP19_KEY_LENGTH : nat := 63.
Definition BECH32_DATA_CHARSET : list byte := list_byte_of_string "qpzry9x8gf2tvdw0s3jn54khce6mua7l".

(** [value.starts_with(prefix)]. *)
Definition starts_with (value prefix : list byte) : bool :=
  take (length prefix) value ==? prefix.

Definition is_nip19_key_shape (value prefix : list byte) : bool :=
  (length value =? NIP19_KEY_LENGTH)%nat
  && starts_with value prefix
  && forallb (fun byte => existsb (fun c => c ==? byte) BECH32_DATA_CHARSET)
       (drop (length prefix) value).

(** The crates the domain trusts with curve points and checksums: a key from its
    canonical text, and the bech32 text of a key. *)
Class NostrKeys := {
  key_from_hex : list byte -> option PublicKey;
  npub_encode : PublicKey -> option (list byte)
}.

Definition Npub_check (value : list byte) : bool := is_nip19_key_shape value (list_byte_of_string "npub1").
Abbreviation Npub := (refined Npub_check).
Definition Npub_from_encoded (value : list byte) : result Npub SafeError :=
  checked Npub_check invalid_public_key value.

Section Keys.
Context `{NostrKeys}.

Definition Npub_derive (public_key : PublicKey) : result Npub SafeError :=
  let? encoded := ok_or (npub_encode public_key) invalid_public_key in
  Npub_from_encoded encoded.

Definition Npub_verify (public_key : PublicKey) (encoded : list byte) : result Npub SafeError :=
  let? candidate := Npub_from_encoded encoded in
  let? derived := Npub_derive public_key in
  if candidate !=? derived then Err invalid_public_key else Ok candidate.

Definition PublicKey_from_hex (value : list byte) : result PublicKey SafeError :=
  if negb (length value =? PUBLIC_KEY_HEX_LENGTH)%nat || negb (forallb is_lower_hex value)
  then Err invalid_public_key
  else ok_or (key_from_hex value) invalid_public_key.

Inductive PersistedPublicKeyClassification :=
| Canonical (k : PublicKey)
| NonCanonicalEncoding
| InvalidCurvePoint
| MalformedEncoding.

(** [u8::is_ascii_hexdigit]: either case. *)
Definition is_ascii_hexdigit (b : byte) : bool :=
  is_lower_hex b || ((65 <=? byte_val b) && (byte_val b <=? 70)).

Definition classify_persisted_public_key (value : list byte) : PersistedPublicKeyClassification :=
  if negb (length value =? PUBLIC_KEY_HEX_LENGTH)%nat || negb (forallb is_ascii_hexdigit value)
  then MalformedEncoding
  else if negb (forallb is_lower_hex value) then NonCanonicalEncoding
  else match PublicKey_from_hex value with
       | Ok public_key => Canonical public_key
       | Err _ => InvalidCurvePoint
       end.
End Keys.

Module SecretKeyInputKind.
Inductive SecretKeyInputKind := Nsec | Hex.
#[global] Instance SecretKeyInputKind_eq_dec : EqDecision SecretKeyInputKind.
Proof. solve_decision. Defined.
End SecretKeyInputKind.
Abbreviation SecretKeyInputKind := SecretKeyInputKind.SecretKeyInputKind.

Record SecretKeyInput := { ski_value : list byte; ski_kind : SecretKeyInputKind }.
#[global] Instance SecretKeyInput_eq_dec : EqDecision SecretKeyInput.
Proof. solve_decision. Defined.

Definition SecretKeyInput_parse (value : list byte) : result SecretKeyInput SafeError :=
  if (length value =? PUBLIC_KEY_HEX_LENGTH)%nat && forallb is_lower_hex value
  then Ok {| ski_value := value; ski_kind := SecretKeyInputKind.Hex |}
  else if is_nip19_key_shape value (list_byte_of_string "nsec1")
  then Ok {| ski_value := value; ski_kind := SecretKeyInputKind.Nsec |}
  else Err invalid_secret_key.

(** ** Identity metadata *)

Record NostrIdentityReference := {
  nir_public_key : PublicKey;
  nir_npub : Npub
}.
#[global] Instance NostrIdentityReference_eq_dec : EqDecision NostrIdentityReference.
Proof. solve_decision. Defined.

Section References.
Context `{NostrKeys}.

Definition NostrIdentityReference_derive (public_key : PublicKey)
  : result NostrIdentityReference SafeError :=
  let? npub := Npub_derive public_key in
  Ok {| nir_public_key := public_key; nir_npub := npub |}.

Definition NostrIdentityReference_verify (public_key : PublicKey) (npub : list byte)
  : result NostrIdentityReference SafeError :=
  let? npub := Npub_verify public_key npub in
  Ok {| nir_public_key := public_key; nir_npub := npub |}.
End References.

Module SignerAvailability.
Inductive SignerAvailability := Available | CredentialMissing | StoreUnavailable.
#[global] Instance SignerAvailability_eq_dec : EqDecision SignerAvailability.
Proof. solve_decision. Defined.
End SignerAvailability.
Abbreviation SignerAvailability := SignerAvailability.SignerAvailability.

Inductive SignerRepairAction := ImportCredential | RetryCredentialStore.

Record LocalKeyringBinding := {
  lkb_identity : PublicKey;
  lkb_availability : SignerAvailability
}.
#[global] Instance LocalKeyringBinding_eq_dec : EqDecision LocalKeyringBinding.
Proof. solve_decision. Defined.
Definition LocalKeyringBinding_new (identity : PublicKey) (availability : SignerAvailability)
  : LocalKeyringBinding :=
  {| lkb_identity := identity; lkb_availability := availability |}.

Inductive SignerBinding := LocalKeyring (binding : LocalKeyringBinding).
#[global] Instance SignerBinding_eq_dec : EqDecision SignerBinding.
Proof. solve_decision. Defined.
Definition SignerBinding_identity (self : SignerBinding) : PublicKey :=
  match self with LocalKeyring binding => lkb_identity binding end.
Definition SignerBinding_availability (self : SignerBinding) : SignerAvailability :=
  match self with LocalKeyring binding => lkb_availability binding end.
Definition as_local_keyring (self : SignerBinding) : option LocalKeyringBinding :=
  match self with LocalKeyring binding => Some binding end.

Definition repair_action (self : LocalKeyringBinding) : option SignerRepairAction :=
  match lkb_availability self with
  | SignerAvailability.Available => None
  | SignerAvailability.CredentialMissing => Some ImportCredential
  | SignerAvailability.StoreUnavailable => Some RetryCredentialStore
  end.

(** The methods on [&mut self] leave the binding unchanged when they fail. *)
Definition set_availability (next : SignerAvailability) (self : LocalKeyringBinding)
  : LocalKeyringBinding :=
  {| lkb_identity := lkb_identity self; lkb_availability := next |}.
Definition binding_transition (expected next : SignerAvailability)
  : stm LocalKeyringBinding SafeError unit := fun self =>
  if lkb_availability self !=? expected then (self, Err invalid_identity_metadata)
  else (set_availability next self, Ok tt).
Definition mark_credential_missing : stm LocalKeyringBinding SafeError unit :=
  binding_transition SignerAvailability.Available SignerAvailability.CredentialMissing.
Definition mark_store_unavailable (self : LocalKeyringBinding) : LocalKeyringBinding :=
  set_availability SignerAvailability.StoreUnavailable self.
Definition repair_credential : stm LocalKeyringBinding SafeError unit :=
  binding_transition SignerAvailability.CredentialMissing SignerAvailability.Available.
Definition resolve_store_recovery (credential_present : bool)
  : stm LocalKeyringBinding SafeError unit := fun self =>
  if lkb_availability self !=? SignerAvailability.StoreUnavailable
  then (self, Err invalid_identity_metadata)
  else (set_availability (if credential_present then SignerAvailability.Available
                          else SignerAvailability.CredentialMissing) self, Ok tt).

Definition MAX_IDENTITY_LABEL_UTF8_BYTES : nat := 80.

(** [str::trim]: white space removed at both ends. *)
Fixpoint trim_start (s : rust_string) : rust_string :=
  match s with
  | c :: s' => if is_whitespace c then trim_start s' else s
  | [] => []
  end.
Definition trim_end (s : rust_string) : rust_string := reverse (trim_start (reverse s)).
Definition trim (s : rust_string) : rust_string := trim_end (trim_start s).

(** A label is kept as it was after trimming. *)
Record IdentityLabel := { il_text : rust_string }.
#[global] Instance IdentityLabel_eq_dec : EqDecision IdentityLabel.
Proof. solve_decision. Defined.
Definition IdentityLabel_parse (value : rust_string) : result IdentityLabel SafeError :=
  let normalized := trim value in
  if (length normalized =? 0)%nat
     || (MAX_IDENTITY_LABEL_UTF8_BYTES <? str_len normalized)%nat
     || existsb is_control normalized
  then Err invalid_identity_metadata
  else Ok {| il_text := normalized |}.

(** [IdentityCreatedAt] wraps a timestamp. *)
Abbreviation IdentityCreatedAt := UnixTimestamp.

Record NostrIdentity := {
  ni_identity : NostrIdentityReference;
  ni_signer_binding : SignerBinding;
  ni_label : option IdentityLabel;
  ni_created_at : IdentityCreatedAt;
  ni_last_used_at : option UnixTimestamp
}.
#[global] Instance NostrIdentity_eq_dec : EqDecision NostrIdentity.
Proof. solve_decision. Defined.

Definition NostrIdentity_new (identity : NostrIdentityReference) (signer_binding : SignerBinding)
    (label : option IdentityLabel) (created_at : IdentityCreatedAt)
    (last_used_at : option UnixTimestamp) : result NostrIdentity SafeError :=
  if nir_public_key identity !=? SignerBinding_identity signer_binding
  then Err invalid_identity_metadata
  else Ok {| ni_identity := identity; ni_signer_binding := signer_binding; ni_label := label;
             ni_created_at := created_at; ni_last_used_at := last_used_at |}.

Definition public_key (self : NostrIdentity) : PublicKey := nir_public_key (ni_identity self).

Definition with_local_keyring_availability (self : NostrIdentity)
    (availability : SignerAvailability) : option NostrIdentity :=
  match as_local_keyring (ni_signer_binding self) with
  | None => None
  | Some _ => Some {|
      ni_identity := ni_identity self;
      ni_signer_binding :=
        LocalKeyring (LocalKeyringBinding_new (public_key self) availability);
      ni_label := ni_label self;
      ni_created_at := ni_created_at self;
      ni_last_used_at := ni_last_used_at self |}
  end.

Definition with_last_used_at (self : NostrIdentity) (last_used_at : UnixTimestamp)
  : NostrIdentity := {|
  ni_identity := ni_identity self;
  ni_signer_binding := ni_signer_binding self;
  ni_label := ni_label self;
  ni_created_at := ni_created_at self;
  ni_last_used_at := Some last_used_at |}.

(** ** Facts *)

Section KeyFacts.
Context `{NostrKeys}.

Lemma Npub_verify_Ok k t n : Npub_verify k t = Ok n <-> raw n = t /\ Npub_derive k = Ok n.
Proof.
  unfold Npub_verify. split.
  - intros Hv. ok_facts. apply checked_Ok in H0. subst. done.
  - intros [<- Hd]. unfold Npub_from_encoded. rewrite checked_raw, Hd. simpl.
    by rewrite bool_decide_true by done.
Qed.

(** A persisted reference is accepted exactly when it is the derived one. *)
Lemma NostrIdentityReference_verify_Ok k t r :
  NostrIdentityReference_verify k t = Ok r <->
  raw (nir_npub r) = t /\ NostrIdentityReference_derive k = Ok r.
Proof.
  unfold NostrIdentityReference_verify, NostrIdentityReference_derive. rewrite !bind_Ok. split.
  - intros (n & [Ht Hd]%Npub_verify_Ok & [= <-]). simpl. eauto.
  - intros (Ht & n & Hd & [= <-]). simpl in Ht. exists n. by rewrite Npub_verify_Ok.
Qed.

Lemma NostrIdentityReference_derive_key k r :
  NostrIdentityReference_derive k = Ok r -> nir_public_key r = k.
Proof. unfold NostrIdentityReference_derive. intros Hd. by run_ok. Qed.
End KeyFacts.

Lemma trim_start_suffix s : exists p, s = p ++ trim_start s /\ forallb is_whitespace p = true.
Proof.
  induction s as [|c s (p & Hs & Hp)]; simpl; [by exists []|].
  destruct (is_whitespace c) eqn:E; [|by exists []].
  exists (c :: p). simpl. rewrite E, Hp. split; [by f_equal|done].
Qed.

Lemma trim_start_head s c s' : trim_start s = c :: s' -> is_whitespace c = false.
Proof.
  induction s as [|d s IH]; simpl; [done|].
  destruct (is_whitespace d) eqn:E; [done|]. by intros [= <- _].
Qed.

Lemma trim_start_fixed s : match s with [] => True | c :: _ => is_whitespace c = false end ->
  trim_start s = s.
Proof. destruct s as [|c s]; simpl; [done|]. by intros ->. Qed.

Lemma trim_start_idemp s : trim_start (trim_start s) = trim_start s.
Proof.
  apply trim_start_fixed. destruct (trim_start s) as [|c s'] eqn:E; [done|].
  by eapply trim_start_head.
Qed.

Lemma trim_start_end s : trim_start s = s -> trim_start (trim_end s) = trim_end s.
Proof.
  intros Hs. unfold trim_end. destruct (trim_start_suffix (reverse s)) as (p & Hp & _).
  apply (f_equal reverse) in Hp. rewrite reverse_involutive, reverse_app in Hp.
  set (q := reverse (trim_start (reverse s))) in *. apply trim_start_fixed.
  destruct q as [|c q]; [done|]. rewrite Hp in Hs. simpl in Hs.
  destruct (is_whitespace c) eqn:E; [|done].
  apply (f_equal length) in Hs. simpl in Hs. destruct (trim_start_suffix (q ++ reverse p)) as (p' & Hq & _).
  apply (f_equal length) in Hq. rewrite !length_app in Hq. rewrite !length_app in Hs. lia.
Qed.

Lemma trim_idemp s : trim (trim s) = trim s.
Proof.
  unfold trim. rewrite trim_start_end by apply trim_start_idemp.
  unfold trim_end. by rewrite reverse_involutive, trim_start_idemp.
Qed.

Definition IdentityLabel_wf (l : IdentityLabel) : Prop :=
  IdentityLabel_parse (il_text l) = Ok l.

(** A parsed label is read back as itself: labels survive storage. *)
Lemma IdentityLabel_parse_wf value l : IdentityLabel_parse value = Ok l -> IdentityLabel_wf l.
Proof.
  unfold IdentityLabel_wf, IdentityLabel_parse. cbv zeta. intros Hl.
  destruct (_ || _ || _) eqn:E; [done|]. injection Hl as <-. simpl. by rewrite trim_idemp, E.
Qed.

Lemma IdentityLabel_wf_length l : IdentityLabel_wf l -> (0 < length (il_text l))%nat /\
  (str_len (il_text l) <= MAX_IDENTITY_LABEL_UTF8_BYTES)%nat.
Proof.
  unfold IdentityLabel_wf, IdentityLabel_parse. cbv zeta. intros Hl.
  destruct (_ || _ || _) eqn:E; [done|]. apply Ok_inj, (f_equal il_text) in Hl. simpl in Hl. rewrite Hl in E.
  breflect. lia.
Qed.

(** The signer binding of an identity is a binding of its own key. *)
Definition NostrIdentity_wf (i : NostrIdentity) : Prop :=
  public_key i = SignerBinding_identity (ni_signer_binding i).

Lemma NostrIdentity_new_Ok r b l c u i :
  NostrIdentity_new r b l c u = Ok i <->
  nir_public_key r = SignerBinding_identity b /\
  i = {| ni_identity := r; ni_signer_binding := b; ni_label := l; ni_created_at := c;
         ni_last_used_at := u |}.
Proof. unfold NostrIdentity_new. rewrite guard_Ok. breflect. naive_solver. Qed.
#[export] Hint Rewrite NostrIdentity_new_Ok : okdb.

Lemma with_availability_Some i a :
  exists i', with_local_keyring_availability i a = Some i' /\ public_key i' = public_key i /\
    NostrIdentity_wf i' /\ SignerBinding_availability (ni_signer_binding i') = a /\
    ni_created_at i' = ni_created_at i.
Proof.
  unfold with_local_keyring_availability. destruct (ni_signer_binding i) as [b]; simpl.
  eexists. split; [done|]. done.
Qed.

(** A binding of the key that already had an availability gets it back. *)
Lemma with_availability_restore i a i' :
  NostrIdentity_wf i ->
  with_local_keyring_availability i a = Some i' ->
  with_local_keyring_availability i' (SignerBinding_availability (ni_signer_binding i)) = Some i.
Proof.
  unfold with_local_keyring_availability, NostrIdentity_wf. destruct i as [r [[k a0]] l c u].
  simpl. unfold public_key; simpl. intros <- [= <-]. reflexivity.
Qed.

Lemma binding_transition_spec expected next self :
  binding_transition expected next self =
    if decide (lkb_availability self = expected)
    then (set_availability next self, Ok tt) else (self, Err invalid_identity_metadata).
Proof. unfold binding_transition. by repeat case_decide || case_bool_decide. Qed.

(** ** Sample values for the closed examples *)

Definition sample_npub : Npub :=
  Refined (list_byte_of_string "npub1" ++ repeat (byte_of_Z 113) 58) eq_refl.
Definition sample_identity_at (key created : Z) (availability : SignerAvailability) : NostrIdentity := {|
  ni_identity := {| nir_public_key := sample_key key; nir_npub := sample_npub |};
  ni_signer_binding := LocalKeyring (LocalKeyringBinding_new (sample_key key) availability);
  ni_label := None;
  ni_created_at := sample_time created;
  ni_last_used_at := None |}.
Definition sample_identity (key : Z) : NostrIdentity :=
  sample_identity_at key key SignerAvailability.Available.
