(* ===== verification/Profile.v ===== *)
(** * Public profiles

    [profile.rs]: event identifiers and their hexadecimal form, the bounded
    fields of a kind-0 profile, and the choice of the profile that wins when
    several relays answer. *)

From Stdlib Require Import Bool ZArith Lia Strings.Byte Strings.String Permutation.
From stdpp Require Import base decidable option list numbers strings.
From S2P Require Import Prelude Containers Encoding Hub Reference Identity.

Definition EVENT_ID_BYTES : nat := 32.
Definition EVENT_ID_HEX : nat := EVENT_ID_BYTES * 2.
Definition MAX_NAME_UTF8_BYTES : nat := 128.
Definition MAX_NIP05_UTF8_BYTES : nat := 320.
Definition MAX_ABOUT_UTF8_BYTES : nat := 4096.
Definition MAX_PICTURE_UTF8_BYTES : nat := 2048.

Definition invalid_profile_metadata : SafeError :=
  SafeError_new SafeErrorCode.InvalidProfileMetadata "The Nostr profile metadata is invalid.".

(** ** Event identifiers *)

Abbreviation EventId := (array EVENT_ID_BYTES).

Definition decode_hex (b : byte) : option Z :=
  if in_byte_range 0x30 0x39 b then Some (byte_val b - 0x30)
  else if in_byte_range 0x61 0x66 b then Some (byte_val b - 0x61 + 10)
  else None.

(** The loop over [as_chunks::<2>()]: a trailing odd byte is not visited. *)
Fixpoint decode_pairs (value : list byte) : result (list byte) SafeError :=
  match value with
  | a :: b :: rest =>
      let? high := ok_or (decode_hex a) invalid_profile_metadata in
      let? low := ok_or (decode_hex b) invalid_profile_metadata in
      let? bytes := decode_pairs rest in
      Ok (byte_of_Z (Z.lor (Z.shiftl high 4) low) :: bytes)
  | _ => Ok []
  end.

Definition EventId_from_hex (value : list byte) : result EventId SafeError :=
  if negb (length value =? EVENT_ID_HEX)%nat || negb (forallb is_lower_hex value)
  then Err invalid_profile_metadata
  else
    let? bytes := decode_pairs value in
    checked (array_ok EVENT_ID_BYTES) invalid_profile_metadata bytes.

Definition EventId_to_hex (id : EventId) : list byte :=
  concat ((fun b => [hex_digit (Z.shiftr (byte_val b) 4); hex_digit (Z.land (byte_val b) 0x0F)])
          <$> raw id).

(** ** Metadata *)

Record ProfileMetadata := {
  pm_name : option rust_string;
  pm_display_name : option rust_string;
  pm_nip05 : option rust_string;
  pm_about : option rust_string;
  pm_picture : option rust_string
}.
#[global] Instance ProfileMetadata_eq_dec : EqDecision ProfileMetadata.
Proof. solve_decision. Defined.

(** ['\n' | '\r' | '\t']. *)
Definition is_layout_control (c : char) : bool :=
  (raw c =? 0x0A) || (raw c =? 0x0D) || (raw c =? 0x09).

Definition normalize_field (value : option rust_string) (max_utf8_bytes : nat)
    (allow_layout_controls : bool) : result (option rust_string) SafeError :=
  match value with
  | None => Ok None
  | Some value =>
      let normalized := trim value in
      if (length normalized =? 0)%nat then Ok None
      else if (max_utf8_bytes <? str_len normalized)%nat
              || existsb (fun c => is_control c && negb (allow_layout_controls && is_layout_control c))
                   normalized
      then Err invalid_profile_metadata
      else Ok (Some normalized)
  end.

Definition ProfileMetadata_new (name display_name nip05 about picture : option rust_string)
  : result ProfileMetadata SafeError :=
  let? name := normalize_field name MAX_NAME_UTF8_BYTES false in
  let? display_name := normalize_field display_name MAX_NAME_UTF8_BYTES false in
  let? nip05 := normalize_field nip05 MAX_NIP05_UTF8_BYTES false in
  let? about := normalize_field about MAX_ABOUT_UTF8_BYTES true in
  let? picture := normalize_field picture MAX_PICTURE_UTF8_BYTES false in
  Ok {| pm_name := name; pm_display_name := display_name; pm_nip05 := nip05;
        pm_about := about; pm_picture := picture |}.

Definition preferred_name (self : ProfileMetadata) : option rust_string :=
  match pm_display_name self with Some name => Some name | None => pm_name self end.

(** ** The winning profile *)

Record Kind0ProfileCandidate := {
  kp_event_id : EventId;
  kp_author : PublicKey;
  kp_created_at : UnixTimestamp;
  kp_metadata : ProfileMetadata
}.
#[global] Instance Kind0ProfileCandidate_eq_dec : EqDecision Kind0ProfileCandidate.
Proof. solve_decision. Defined.

Definition prefers (selected candidate : Kind0ProfileCandidate) : bool :=
  (raw (kp_created_at candidate) >? raw (kp_created_at selected))
  || ((kp_created_at candidate ==? kp_created_at selected)
      && kltb (kp_event_id candidate) (kp_event_id selected)).

(** [Iterator::reduce] with the source's closure. *)
Definition select_latest_kind0 (candidates : list Kind0ProfileCandidate)
  : option Kind0ProfileCandidate :=
  match candidates with
  | [] => None
  | first :: rest =>
      Some (foldl (fun selected candidate =>
                     if prefers selected candidate then candidate else selected) first rest)
  end.

(** ** Facts *)

Lemma decode_hex_lower b : is_lower_hex b = true -> decode_hex b = to_digit16 b.
Proof. unfold is_lower_hex, decode_hex, to_digit16. destruct (in_byte_range 0x30 0x39 b), (in_byte_range 0x61 0x66 b); done. Qed.

(** On lowercase hexadecimal text the chunk loop and the loop over output bytes
    of the hub's identifiers agree, apart from the error they report. *)
Lemma decode_pairs_parse n value bytes :
  forallb is_lower_hex value = true -> length value = (2 * n)%nat ->
  decode_pairs value = Ok bytes <-> parse_hex_pairs n value = Ok bytes.
Proof.
  revert value bytes. induction n as [|n IH]; intros value bytes Hl Hn.
  { destruct value; [simpl; split; by intros [= <-]|simpl in Hn; lia]. }
  destruct value as [|a [|b rest]]; simpl in Hn; [lia..|].
  simpl in Hl. apply andb_true_iff in Hl as [Ha Hl]. apply andb_true_iff in Hl as [Hb Hl].
  cbn [decode_pairs parse_hex_pairs]. rewrite (decode_hex_lower _ Ha), (decode_hex_lower _ Hb).
  destruct (lower_hex_digit _ Ha) as (x & Ex & Hx & _ & Hpa).
  destruct (lower_hex_digit _ Hb) as (y & Ey & Hy & _).
  unfold u8_from_str_radix16. rewrite Hpa, Ex, Ey. cbn [ok_or bind].
  replace (Z.lor (Z.shiftl x 4) y) with (16 * x + y); [rewrite !bind_Ok|].
  - assert (length rest = 2 * n)%nat as Hr by lia.
    split; intros (bs & Hbs%(IH rest bs Hl Hr) & [= <-]); eauto.
  - pose proof (Z.add_lor_land (Z.shiftl x 4) y) as Hs. rewrite Z.shiftl_mul_pow2 in * by lia.
    enough (Z.land (x * 2 ^ 4) y = 0) by lia. clear Hs.
    apply Z.bits_inj'. intros i Hi. rewrite Z.land_spec, Z.bits_0.
    destruct (Z.ltb_spec i 4).
    + rewrite Z.mul_pow2_bits_low by lia. done.
    + rewrite (Z.bits_above_log2 y); [apply andb_false_r|lia|].
      apply Z.le_lt_trans with (Z.log2 15); [apply Z.log2_le_mono; lia|]. change (Z.log2 15) with 3. lia.
Qed.

(** The hexadecimal form of an event identifier is a bijection with the text
    [from_hex] accepts. *)
Theorem event_id_roundtrip id value :
  EventId_from_hex value = Ok id <-> value = EventId_to_hex id.
Proof.
  change (EventId_to_hex id) with (concat (hex_pair <$> raw id)). unfold EventId_from_hex. split.
  - intros H. step_ok H. breflect. apply checked_Ok in H. subst.
    symmetry. apply (print_hex_parse 32); [done..|]. by apply decode_pairs_parse.
  - intros ->. pose proof (array_length id) as Hl. unfold EVENT_ID_BYTES in *.
    rewrite hex_print_length, hex_print_lower, Hl. change (negb (2 * 32 =? EVENT_ID_HEX)%nat) with false.
    cbn [negb orb]. pose proof (parse_hex_print (raw id)) as Hp. rewrite Hl in Hp.
    apply (decode_pairs_parse 32) in Hp as ->; [apply checked_raw|apply hex_print_lower|].
    by rewrite hex_print_length, Hl.
Qed.

(** Normalising is a closure: what it returns it returns again. *)
Lemma normalize_field_idemp value n layout r :
  normalize_field value n layout = Ok r -> normalize_field r n layout = Ok r.
Proof.
  unfold normalize_field. cbv zeta. destruct value as [v|]; [|by intros [= <-]].
  destruct (length (trim v) =? 0)%nat eqn:E1; [by intros [= <-]|].
  destruct (_ || _) eqn:E2; [done|]. intros [= <-]. by rewrite trim_idemp, E1, E2.
Qed.

(** The order behind [select_latest_kind0]: later first, then smaller event. *)
Definition candidate_key (c : Kind0ProfileCandidate) : Z * EventId :=
  (- raw (kp_created_at c), kp_event_id c).

Lemma prefers_key s c : prefers s c = kltb (candidate_key c) (candidate_key s).
Proof.
  unfold prefers, candidate_key, kltb at 2. simpl. unfold prod_compare. simpl.
  rewrite Z.compare_opp.
  destruct (Z.compare_spec (raw (kp_created_at s)) (raw (kp_created_at c))) as [E|E|E].
  - rewrite E, Z.ltb_irrefl. apply raw_inj in E as ->. rewrite bool_decide_true by done. done.
  - apply Z.ltb_lt in E. rewrite E. done.
  - rewrite (proj2 (Z.ltb_ge _ _)) by lia. rewrite bool_decide_false; [done|]. intros F.
    rewrite F in E. lia.
Qed.

Lemma select_fold_min s l :
  let w := foldl (fun s c => if prefers s c then c else s) s l in
  w ∈ s :: l /\ forall c, c ∈ s :: l -> kle (candidate_key w) (candidate_key c).
Proof.
  revert s. induction l as [|a l IH]; intros s; simpl.
  - split; [by left|]. intros c ->%list_elem_of_singleton. apply kle_lt_eq. by right.
  - specialize (IH (if prefers s a then a else s)). simpl in IH. destruct IH as [Hw Hm].
    set (w := foldl _ _ l) in *. split.
    + apply elem_of_cons in Hw as [Hw|Hw]; [|by do 2 right]. rewrite Hw.
      destruct (prefers s a); [right; by left|by left].
    + pose proof (Hm _ ltac:(by left)) as H0. intros c Hc. rewrite prefers_key in H0.
      destruct (kltb (candidate_key a) (candidate_key s)) eqn:E.
      * apply kltb_spec in E. apply elem_of_cons in Hc as [->|[->|Hc]%elem_of_cons].
        -- eapply kle_trans; [exact H0|]. apply kle_lt_eq. by left.
        -- exact H0.
        -- apply Hm. by right.
      * assert (kle (candidate_key s) (candidate_key a)) as Hsa.
        { destruct (kle_total (candidate_key s) (candidate_key a)) as [?|[Hlt|Heq]%kle_lt_eq]; [done| |].
          - apply kltb_spec in Hlt. congruence.
          - apply kle_lt_eq. by right. }
        apply elem_of_cons in Hc as [->|[->|Hc]%elem_of_cons]; [exact H0| |].
        -- by eapply kle_trans.
        -- apply Hm. by right.
Qed.

(** The winning profile is the latest, and among the latest the one with the
    smallest event identifier, in whatever order the relays answered. *)
Theorem select_latest_correct l w :
  NoDup (kp_event_id <$> l) ->
  select_latest_kind0 l = Some w <->
  w ∈ l /\ forall c, c ∈ l -> c <> w -> prefers c w = true.
Proof.
  intros Hd. destruct l as [|a l]; simpl.
  { split; [done|]. by intros [?%not_elem_of_nil _]. }
  destruct (select_fold_min a l) as [Hw Hm]. set (v := foldl _ a l) in *.
  assert (forall c, c ∈ a :: l -> c <> v -> prefers c v = true) as Hv.
  { intros c Hc Hn. rewrite prefers_key, kltb_spec. apply klt_le_neq. split; [by apply Hm|].
    intros [= _ He]. apply Hn. symmetry. exact (NoDup_fmap_elem kp_event_id _ _ _ Hd Hw Hc He). }
  split.
  - by intros [= <-].
  - intros [Hwl Hbest]. f_equal. destruct (decide (v = w)) as [|Hn]; [done|exfalso].
    pose proof (Hv w Hwl (not_eq_sym Hn)) as H1. pose proof (Hbest v Hw Hn) as H2.
    rewrite prefers_key, kltb_spec in H1, H2. by apply (klt_asym _ _ H1).
Qed.

Definition sample_candidate (event created : Z) : Kind0ProfileCandidate := {|
  kp_event_id := sample_key event; kp_author := sample_key 7; kp_created_at := sample_time created;
  kp_metadata := {| pm_name := None; pm_display_name := None; pm_nip05 := None; pm_about := None;
                    pm_picture := None |} |}.

Lemma select_latest_correct_witness :
  NoDup (kp_event_id <$> [sample_candidate 3 5; sample_candidate 2 9; sample_candidate 4 9]) /\
  sample_candidate 2 9 ∈ [sample_candidate 3 5; sample_candidate 2 9; sample_candidate 4 9].
Proof.
  assert (NoDup (kp_event_id <$> [sample_candidate 3 5; sample_candidate 2 9; sample_candidate 4 9]))
    as Hd by (apply (bool_decide_unpack _); vm_compute; exact I).
  split; [exact Hd|].
  apply (proj1 (select_latest_correct _ (sample_candidate 2 9) Hd)). vm_compute. reflexivity.
Defined.
