(* ===== verification/Snapshot.v ===== *)
(** * Application snapshots

    [snapshot.rs] of the application crate: the immutable state every client
    observes, the invariant its constructor checks, and the order in which
    snapshots supersede each other; with the relay configuration it carries
    ([config.rs]) and the session generation of [actor.rs]. *)

From Stdlib Require Import Bool ZArith Lia Strings.Byte Strings.String.
From stdpp Require Import base decidable option list numbers strings relations.
From S2P Require Import Prelude Containers Encoding Hub Reference Identity Profile.

(** ** Counters *)

(** [SnapshotRevision(u64)] and [SessionGeneration(u64)]. *)
Abbreviation SnapshotRevision := (refined u64_range).
Abbreviation SessionGeneration := (refined u64_range).
Definition SnapshotRevision_initial : SnapshotRevision := Refined 0 eq_refl.
Definition SessionGeneration_initial : SessionGeneration := Refined 0 eq_refl.
Definition counter_next (self : refined u64_range) : option (refined u64_range) :=
  match u64_checked_add (raw self) 1 with
  | Some value => check_value u64_range value
  | None => None
  end.
Definition SnapshotRevision_next : SnapshotRevision -> option SnapshotRevision := counter_next.
Definition SessionGeneration_next : SessionGeneration -> option SessionGeneration := counter_next.

Lemma u64_range_iff v : u64_range v = true <-> 0 <= v < 2 ^ 64.
Proof. unfold u64_range. breflect. lia. Qed.

Lemma counter_range (c : refined u64_range) : 0 <= raw c < 2 ^ 64.
Proof. apply (raw_elim (fun v => 0 <= v < 2 ^ 64) c), u64_range_iff. Qed.

Lemma counter_next_Some c c' : counter_next c = Some c' <-> raw c' = raw c + 1.
Proof.
  unfold counter_next, u64_checked_add. pose proof (counter_range c'). destruct (_ <? _) eqn:E.
  - apply check_value_Some.
  - breflect. split; [done|lia].
Qed.

Lemma counter_next_None c : counter_next c = None <-> raw c = 2 ^ 64 - 1.
Proof.
  pose proof (counter_range c). destruct (counter_next c) as [c'|] eqn:E.
  - apply counter_next_Some in E. pose proof (counter_range c'). split; [done|lia].
  - split; [intros _|done]. unfold counter_next, u64_checked_add in E.
    destruct (_ <? _) eqn:F; breflect; [|lia].
    apply check_value_None, not_true_iff_false in E. rewrite u64_range_iff in E. lia.
Qed.

(** [HubRuntimeIncarnation([u8; 16])], not all zero. *)
Abbreviation HubRuntimeIncarnation := (refined HubId_check).

Record RuntimeSessionBinding := {
  rsb_incarnation : HubRuntimeIncarnation;
  rsb_generation : SessionGeneration
}.
#[global] Instance RuntimeSessionBinding_eq_dec : EqDecision RuntimeSessionBinding.
Proof. solve_decision. Defined.

(** ** Parts of a snapshot *)

Module AppLifecycle.
Inductive AppLifecycle := Booting | Ready | Fatal (error : SafeError).
#[global] Instance AppLifecycle_eq_dec : EqDecision AppLifecycle.
Proof. solve_decision. Defined.
End AppLifecycle.
Abbreviation AppLifecycle := AppLifecycle.AppLifecycle.

Module SessionState.
Inductive SessionState :=
| SignedOut
| Activating (public_key : PublicKey)
| Active
| SigningOut
| Failed (error : SafeError).
#[global] Instance SessionState_eq_dec : EqDecision SessionState.
Proof. solve_decision. Defined.
End SessionState.
Abbreviation SessionState := SessionState.SessionState.

Module RelayConnectionState.
Inductive RelayConnectionState :=
| Disconnected | Connecting | Connected | Degraded | Error (error : SafeError).
#[global] Instance RelayConnectionState_eq_dec : EqDecision RelayConnectionState.
Proof. solve_decision. Defined.
End RelayConnectionState.
Abbreviation RelayConnectionState := RelayConnectionState.RelayConnectionState.

Module ProfileLoadState.
Inductive ProfileLoadState :=
| Empty | Loading | Cached | Fresh | Error (error : SafeError).
#[global] Instance ProfileLoadState_eq_dec : EqDecision ProfileLoadState.
Proof. solve_decision. Defined.
End ProfileLoadState.
Abbreviation ProfileLoadState := ProfileLoadState.ProfileLoadState.

Record ActiveIdentitySnapshot := {
  ai_identity : NostrIdentity;
  ai_relay_state : RelayConnectionState;
  ai_profile_state : ProfileLoadState;
  ai_profile : option ProfileMetadata
}.
#[global] Instance ActiveIdentitySnapshot_eq_dec : EqDecision ActiveIdentitySnapshot.
Proof. solve_decision. Defined.

(** ** Relays

    Endpoints, their policies and the profile over them come from the transport
    crate: the source uses the named policies, accesses and profile kinds, the
    constructor of an endpoint, its policy and normalised address, and the
    constructor of an explicit profile. *)

Class RelayTransport := {
  RelayEndpoint : Type;
  RelayProfile : Type;
  RelayUrlPolicy : Type;
  RelayProfileKind : Type;
  RelayAccess : Type;
  #[global] RelayEndpoint_eq_dec :: EqDecision RelayEndpoint;
  #[global] RelayProfile_eq_dec :: EqDecision RelayProfile;
  #[global] RelayUrlPolicy_eq_dec :: EqDecision RelayUrlPolicy;
  PolicyLocal : RelayUrlPolicy;
  PolicyPrivateNetwork : RelayUrlPolicy;
  PolicyPublic : RelayUrlPolicy;
  Simulator : RelayProfileKind;
  Device : RelayProfileKind;
  Public : RelayProfileKind;
  ReadOnly : RelayAccess;
  ReadWrite : RelayAccess;
  endpoint_new : list byte -> RelayUrlPolicy -> RelayAccess -> option RelayEndpoint;
  endpoint_policy : RelayEndpoint -> RelayUrlPolicy;
  endpoint_url : RelayEndpoint -> list byte;
  profile_explicit : RelayProfileKind -> list RelayEndpoint -> option RelayProfile;
  profile_endpoints : RelayProfile -> list RelayEndpoint
}.

Definition MAX_CONFIGURED_RELAYS : nat := 16.
Definition relay_limit_exceeded : SafeError :=
  SafeError_new SafeErrorCode.InvalidRelayConfiguration
    "The Nostr relay configuration exceeds its limit.".
Definition invalid_configuration : SafeError :=
  SafeError_new SafeErrorCode.InvalidRelayConfiguration
    "The Nostr relay configuration is invalid.".
Definition invalid_snapshot : SafeError :=
  SafeError_new SafeErrorCode.InvalidApplicationState "The application state is invalid.".

Section Snapshots.
Context `{RelayTransport}.

Record RelayEndpointInput := {
  rei_url : list byte;
  rei_destination : RelayUrlPolicy;
  rei_read : bool;
  rei_write : bool
}.

(** [RelayConfiguration(Option<RelayProfile>)]. *)
Record RelayConfiguration := { rc_profile : option RelayProfile }.
#[global] Instance RelayConfiguration_eq_dec : EqDecision RelayConfiguration.
Proof. solve_decision. Defined.
Definition RelayConfiguration_default : RelayConfiguration := {| rc_profile := None |}.

Definition has_policy (policy : RelayUrlPolicy) (relays : list RelayEndpoint) : bool :=
  existsb (fun relay => endpoint_policy relay ==? policy) relays.

Definition RelayConfiguration_new (relays : list RelayEndpoint)
  : result RelayConfiguration SafeError :=
  match relays with
  | [] => Ok RelayConfiguration_default
  | _ =>
    if (MAX_CONFIGURED_RELAYS <? length relays)%nat then Err relay_limit_exceeded
    else
      let? kind :=
        match has_policy PolicyLocal relays, has_policy PolicyPrivateNetwork relays,
              has_policy PolicyPublic relays with
        | true, false, false => Ok Simulator
        | false, false, true => Ok Public
        | false, true, _ => Ok Device
        | _, _, _ => Err relay_limit_exceeded
        end in
      let? profile := ok_or (profile_explicit kind relays) relay_limit_exceeded in
      Ok {| rc_profile := Some profile |}
  end.
Definition relays (self : RelayConfiguration) : list RelayEndpoint :=
  match rc_profile self with Some profile => profile_endpoints profile | None => [] end.

(** The loop body of [relay_configuration_from_endpoints]. *)
Definition configure_endpoint (endpoints : list RelayEndpoint) (value : RelayEndpointInput)
  : result (list RelayEndpoint) SafeError :=
  let? access :=
    match rei_read value, rei_write value with
    | true, false => Ok ReadOnly
    | true, true => Ok ReadWrite
    | false, _ => Err invalid_configuration
    end in
  let? endpoint :=
    ok_or (endpoint_new (rei_url value) (rei_destination value) access) invalid_configuration in
  if existsb (fun existing => endpoint_url existing ==? endpoint_url endpoint) endpoints
  then Err invalid_configuration
  else Ok (endpoints ++ [endpoint]).

Definition relay_configuration_from_endpoints (values : list RelayEndpointInput)
  : result RelayConfiguration SafeError :=
  if (length values =? 0)%nat || (MAX_CONFIGURED_RELAYS <? length values)%nat
  then Err invalid_configuration
  else
    let? endpoints := try_fold configure_endpoint [] values in
    RelayConfiguration_new endpoints.

(** ** Snapshots *)

Record AppSnapshot := {
  as_revision : SnapshotRevision;
  as_runtime_session : option RuntimeSessionBinding;
  as_lifecycle : AppLifecycle;
  as_relay_configuration : RelayConfiguration;
  as_identities : list NostrIdentity;
  as_selected_identity : option PublicKey;
  as_session : SessionState;
  as_active_identity : option ActiveIdentitySnapshot;
  as_recoverable_problem : option SafeError
}.
#[global] Instance AppSnapshot_eq_dec : EqDecision AppSnapshot.
Proof. solve_decision. Defined.

Definition AppSnapshot_booting : AppSnapshot := {|
  as_revision := SnapshotRevision_initial;
  as_runtime_session := None;
  as_lifecycle := AppLifecycle.Booting;
  as_relay_configuration := RelayConfiguration_default;
  as_identities := [];
  as_selected_identity := None;
  as_session := SessionState.SignedOut;
  as_active_identity := None;
  as_recoverable_problem := None |}.

Definition AppSnapshot_fatal (revision : SnapshotRevision) (relay_configuration : RelayConfiguration)
    (error : SafeError) : AppSnapshot := {|
  as_revision := revision;
  as_runtime_session := None;
  as_lifecycle := AppLifecycle.Fatal error;
  as_relay_configuration := relay_configuration;
  as_identities := [];
  as_selected_identity := None;
  as_session := SessionState.SignedOut;
  as_active_identity := None;
  as_recoverable_problem := None |}.

(** [HashSet::from_iter(keys)]: the distinct keys. *)
Definition unique_identities (identities : list NostrIdentity) : list PublicKey :=
  remove_dups (public_key <$> identities).

Definition is_Active (session : SessionState) : bool :=
  match session with SessionState.Active => true | _ => false end.
Definition is_SignedOut (session : SessionState) : bool :=
  match session with SessionState.SignedOut => true | _ => false end.

Definition validate_snapshot (identities : list NostrIdentity)
    (selected_identity : option PublicKey) (session : SessionState)
    (active_identity : option ActiveIdentitySnapshot) : result unit SafeError :=
  if negb (length (unique_identities identities) =? length identities)%nat
     || negb (eqb (length identities =? 0)%nat (is_none selected_identity))
     || is_some_and selected_identity
          (fun key => negb (bool_decide (key ∈ unique_identities identities)))
     || is_some_and active_identity
          (fun active => negb (bool_decide (ai_identity active ∈ identities)))
     || (is_Active session && is_none active_identity)
     || (is_SignedOut session && is_some active_identity)
  then Err invalid_snapshot
  else Ok tt.

Definition AppSnapshot_ready (revision : SnapshotRevision)
    (relay_configuration : RelayConfiguration) (identities : list NostrIdentity)
    (selected_identity : option PublicKey) (session : SessionState)
    (active_identity : option ActiveIdentitySnapshot) (recoverable_problem : option SafeError)
  : result AppSnapshot SafeError :=
  validate_snapshot identities selected_identity session active_identity ;;?
  Ok {| as_revision := revision;
        as_runtime_session := None;
        as_lifecycle := AppLifecycle.Ready;
        as_relay_configuration := relay_configuration;
        as_identities := identities;
        as_selected_identity := selected_identity;
        as_session := session;
        as_active_identity := active_identity;
        as_recoverable_problem := recoverable_problem |}.

Definition with_runtime_session (self : AppSnapshot) (binding : RuntimeSessionBinding)
  : AppSnapshot := {|
  as_revision := as_revision self;
  as_runtime_session := Some binding;
  as_lifecycle := as_lifecycle self;
  as_relay_configuration := as_relay_configuration self;
  as_identities := as_identities self;
  as_selected_identity := as_selected_identity self;
  as_session := as_session self;
  as_active_identity := as_active_identity self;
  as_recoverable_problem := as_recoverable_problem self |}.

Definition is_newer_than (self previous : AppSnapshot) : bool :=
  if raw (as_revision self) <? raw (as_revision previous) then false
  else
    match as_runtime_session previous, as_runtime_session self with
    | None, None => raw (as_revision self) >? raw (as_revision previous)
    | None, Some _ => true
    | Some _, None => false
    | Some before, Some after =>
        (rsb_incarnation before ==? rsb_incarnation after)
        && (raw (rsb_generation after) >=? raw (rsb_generation before))
        && ((raw (as_revision self) >? raw (as_revision previous))
            || (raw (rsb_generation after) >? raw (rsb_generation before)))
    end.

(** ** The invariant of a snapshot *)

Definition snapshot_valid (identities : list NostrIdentity) (selected : option PublicKey)
    (session : SessionState) (active : option ActiveIdentitySnapshot) : Prop :=
  NoDup (public_key <$> identities) /\
  (identities = [] <-> selected = None) /\
  (forall key, selected = Some key -> key ∈ public_key <$> identities) /\
  (forall a, active = Some a -> ai_identity a ∈ identities) /\
  (session = SessionState.Active -> is_Some active) /\
  (session = SessionState.SignedOut -> active = None).

Definition snapshot_ok (s : AppSnapshot) : Prop :=
  snapshot_valid (as_identities s) (as_selected_identity s) (as_session s) (as_active_identity s).

Lemma unique_identities_length l :
  (length (unique_identities l) =? length l)%nat = true <-> NoDup (public_key <$> l).
Proof.
  unfold unique_identities. rewrite Nat.eqb_eq, <- (length_fmap public_key l).
  generalize (public_key <$> l). clear l. intros l. induction l as [|k l IH]; simpl; [by split; [constructor|]|].
  assert (length (remove_dups l) <= length l)%nat as Hle.
  { clear. induction l; simpl; [lia|]. case_decide; simpl; lia. }
  rewrite NoDup_cons, <- IH. case_decide as Hd; simpl; [|naive_solver lia].
  split; [lia|naive_solver].
Qed.

Lemma elem_of_unique_identities k l : k ∈ unique_identities l <-> k ∈ public_key <$> l.
Proof. apply elem_of_remove_dups. Qed.

Lemma eqb_iff_bool a b : eqb a b = true <-> (a = true <-> b = true).
Proof. rewrite eqb_true_iff. destruct a, b; naive_solver. Qed.

Lemma validate_snapshot_Ok l sel sess act :
  validate_snapshot l sel sess act = Ok tt <-> snapshot_valid l sel sess act.
Proof.
  unfold validate_snapshot, snapshot_valid. rewrite guard_Ok, !orb_false_iff, !negb_false_iff.
  rewrite unique_identities_length, eqb_iff_bool, Nat.eqb_eq, length_zero_iff_nil.
  assert (is_none sel = true <-> sel = None) as -> by by destruct sel.
  assert (is_some_and sel (fun key => negb (bool_decide (key ∈ unique_identities l))) = false <->
    forall key, sel = Some key -> key ∈ public_key <$> l) as ->.
  { destruct sel as [k|]; simpl; [|naive_solver].
    rewrite negb_false_iff, bool_decide_eq_true, elem_of_unique_identities. naive_solver. }
  assert (is_some_and act (fun a => negb (bool_decide (ai_identity a ∈ l))) = false <->
    forall a, act = Some a -> ai_identity a ∈ l) as ->.
  { destruct act as [a|]; simpl; [|naive_solver].
    rewrite negb_false_iff, bool_decide_eq_true. naive_solver. }
  assert (is_Active sess && is_none act = false <-> (sess = SessionState.Active -> is_Some act)) as ->.
  { destruct sess, act; simpl; split; try done; intros Hs; try by eexists.
    by destruct (Hs eq_refl). }
  assert (is_SignedOut sess && is_some act = false <-> (sess = SessionState.SignedOut -> act = None)) as ->.
  { destruct sess, act; simpl; split; try done. intros Hs. by specialize (Hs eq_refl). }
  tauto.
Qed.

Lemma validate_snapshot_Err l sel sess act e :
  validate_snapshot l sel sess act = Err e -> e = invalid_snapshot.
Proof. unfold validate_snapshot. destruct (_ || _); naive_solver. Qed.

(** What a ready snapshot holds, given what it was made from. *)
Definition ready_of (revision : SnapshotRevision) (relays : RelayConfiguration)
    (identities : list NostrIdentity) (selected : option PublicKey) (session : SessionState)
    (active : option ActiveIdentitySnapshot) (problem : option SafeError) : AppSnapshot :=
  {| as_revision := revision; as_runtime_session := None; as_lifecycle := AppLifecycle.Ready;
     as_relay_configuration := relays; as_identities := identities;
     as_selected_identity := selected; as_session := session; as_active_identity := active;
     as_recoverable_problem := problem |}.

Lemma AppSnapshot_ready_Ok r c l sel sess act p s :
  AppSnapshot_ready r c l sel sess act p = Ok s <->
  snapshot_valid l sel sess act /\ s = ready_of r c l sel sess act p.
Proof.
  unfold AppSnapshot_ready. rewrite seq_Ok, validate_snapshot_Ok. unfold ready_of. naive_solver.
Qed.

Lemma AppSnapshot_ready_valid r c l sel sess act p :
  snapshot_valid l sel sess act ->
  AppSnapshot_ready r c l sel sess act p = Ok (ready_of r c l sel sess act p).
Proof. intros Hv. by apply AppSnapshot_ready_Ok. Qed.

Lemma AppSnapshot_ready_cases r c l sel sess act p :
  (snapshot_valid l sel sess act /\
   AppSnapshot_ready r c l sel sess act p = Ok (ready_of r c l sel sess act p)) \/
  (~ snapshot_valid l sel sess act /\
   AppSnapshot_ready r c l sel sess act p = Err invalid_snapshot).
Proof.
  unfold AppSnapshot_ready. destruct (validate_snapshot l sel sess act) as [[]|e] eqn:E; simpl.
  - left. by apply validate_snapshot_Ok in E.
  - right. rewrite <- validate_snapshot_Ok, E. by apply validate_snapshot_Err in E as ->.
Qed.

Lemma AppSnapshot_ready_Err r c l sel sess act p e :
  AppSnapshot_ready r c l sel sess act p = Err e -> e = invalid_snapshot.
Proof.
  unfold AppSnapshot_ready. destruct (validate_snapshot _ _ _ _) eqn:E; simpl; [done|].
  intros [= <-]. by apply validate_snapshot_Err in E.
Qed.

Lemma snapshot_valid_empty : snapshot_valid [] None SessionState.SignedOut None.
Proof. repeat split; try done. constructor. Qed.

(** The session part of the invariant does not involve the selection. *)
Lemma snapshot_valid_session l sel sess act sel' sess' act' :
  snapshot_valid l sel sess act ->
  (l = [] <-> sel' = None) -> (forall key, sel' = Some key -> key ∈ public_key <$> l) ->
  (forall a, act' = Some a -> ai_identity a ∈ l) ->
  (sess' = SessionState.Active -> is_Some act') ->
  (sess' = SessionState.SignedOut -> act' = None) ->
  snapshot_valid l sel' sess' act'.
Proof. unfold snapshot_valid. naive_solver. Qed.

(** ** Succession *)

Definition newer (a b : AppSnapshot) : Prop := is_newer_than a b = true.

(** The part of the order that concerns the native session. *)
Definition session_follows (before after : option RuntimeSessionBinding) : Prop :=
  match before, after with
  | None, _ => True
  | Some _, None => False
  | Some b, Some a =>
      rsb_incarnation b = rsb_incarnation a /\ raw (rsb_generation b) <= raw (rsb_generation a)
  end.
Definition session_advances (before after : option RuntimeSessionBinding) : Prop :=
  match before, after with
  | None, Some _ => True
  | Some b, Some a => raw (rsb_generation b) < raw (rsb_generation a)
  | _, None => False
  end.

Lemma newer_iff a b :
  newer a b <->
  raw (as_revision b) <= raw (as_revision a) /\
  session_follows (as_runtime_session b) (as_runtime_session a) /\
  (raw (as_revision b) < raw (as_revision a) \/
   session_advances (as_runtime_session b) (as_runtime_session a)).
Proof.
  unfold newer, is_newer_than, session_follows, session_advances.
  destruct (_ <? _) eqn:E; breflect; [split; [done|lia]|].
  destruct (as_runtime_session b) as [x|], (as_runtime_session a) as [y|]; breflect; intuition lia.
Qed.

(** A snapshot supersedes only older ones, and supersession composes. *)
#[global] Instance newer_strict : StrictOrder newer.
Proof.
  split.
  - intros a [_ [_ [Ha|Ha]]]%newer_iff; [lia|].
    unfold session_advances in Ha. destruct (as_runtime_session a); [lia|done].
  - intros a b c Hab Hbc. rewrite newer_iff in *.
    destruct Hab as (H1 & H2 & H3), Hbc as (H4 & H5 & H6).
    unfold session_follows, session_advances in *.
    destruct (as_runtime_session a), (as_runtime_session b), (as_runtime_session c);
      intuition (congruence || lia).
Qed.

(** ** Relay configurations *)

Lemma configure_endpoint_Ok endpoints value endpoints' :
  configure_endpoint endpoints value = Ok endpoints' ->
  exists e, endpoints' = endpoints ++ [e] /\ endpoint_url e ∉ endpoint_url <$> endpoints.
Proof.
  unfold configure_endpoint. rewrite bind_Ok. intros (access & _ & Hc). run_ok.
  eexists. split; [done|]. intros (y & Hy & Hin)%list_elem_of_fmap.
  match goal with F : existsb _ _ = false |- _ => apply not_true_iff_false in F; apply F end.
  apply existsb_exists. exists y. split; [by apply list_elem_of_In|]. by apply bool_decide_eq_true.
Qed.

(** An accepted configuration has from one to sixteen endpoints, and no two of
    them share a normalised address. *)
Lemma configure_endpoints_distinct values endpoints endpoints' :
  try_fold configure_endpoint endpoints values = Ok endpoints' ->
  NoDup (endpoint_url <$> endpoints) ->
  NoDup (endpoint_url <$> endpoints') /\ length endpoints' = (length endpoints + length values)%nat.
Proof.
  revert endpoints. induction values as [|v values IH]; intros endpoints; simpl.
  - intros [= <-] ?. split; [done|lia].
  - destruct (configure_endpoint endpoints v) as [next|] eqn:E; simpl; [|done]. intros Hf Hd.
    apply configure_endpoint_Ok in E as (e & -> & He). apply IH in Hf as [Hd' Hl].
    + rewrite length_app in Hl. simpl in Hl. split; [done|lia].
    + rewrite fmap_app. by apply NoDup_snoc.
Qed.
End Snapshots.

(** ** Sample values for the closed examples *)

(** A transport in which every address is accepted as it is. *)
Definition sample_transport : RelayTransport := {|
  RelayEndpoint := list byte * Z;
  RelayProfile := list (list byte * Z);
  RelayUrlPolicy := Z;
  RelayProfileKind := Z;
  RelayAccess := bool;
  PolicyLocal := 0; PolicyPrivateNetwork := 1; PolicyPublic := 2;
  Simulator := 0; Device := 1; Public := 2;
  ReadOnly := false; ReadWrite := true;
  endpoint_new url policy _ := Some (url, policy);
  endpoint_policy e := e.2;
  endpoint_url e := e.1;
  profile_explicit _ l := Some l;
  profile_endpoints l := l
|}.
