(* ===== verification/Session.v ===== *)
(** * The session state machine

    [state_machine.rs]: the one place where the application state changes.  A
    transition either produces the next snapshot or fails; some methods change
    the pending activation before they can fail, which the model keeps. *)

From Stdlib Require Import Bool ZArith Lia Strings.String.
From stdpp Require Import base decidable option list numbers strings relations.
From S2P Require Import Prelude Containers Encoding Hub Reference Identity Profile Snapshot.

Definition invalid_application_state : SafeError :=
  SafeError_new SafeErrorCode.InvalidApplicationState "The application state is invalid.".
Definition identity_not_found : SafeError :=
  SafeError_new SafeErrorCode.IdentityNotFound "The identity was not found.".

Section Machine.
Context `{RelayTransport}.


Inductive StateTransition :=
| Bootstrap
| BootstrapRegistry (identities : list NostrIdentity) (selected : option PublicKey)
| Fatal (error : SafeError)
| ReplaceRegistry (identities : list NostrIdentity) (selected : option PublicKey)
| ReplaceRegistryPreservingSession (identities : list NostrIdentity) (selected : option PublicKey)
| Select (public_key : PublicKey)
| BeginActivation (public_key : PublicKey)
| ActivationSucceeded (active_identity : ActiveIdentitySnapshot)
| ActivationFailed (problem : SafeError)
| UpdateActiveIdentity (expected : PublicKey) (active_identity : ActiveIdentitySnapshot)
    (problem : option SafeError)
| SignOut
| SetProblem (problem : option SafeError).

Record PreviousSession := {
  ps_session : SessionState;
  ps_active_identity : option ActiveIdentitySnapshot
}.

Record StateMachine := {
  sm_snapshot : AppSnapshot;
  sm_pending_activation : option (PublicKey * PreviousSession)
}.

Definition StateMachine_booting : StateMachine :=
  {| sm_snapshot := AppSnapshot_booting; sm_pending_activation := None |}.

Abbreviation method := (stm StateMachine SafeError).

Definition set_snapshot (next : AppSnapshot) : method unit := fun self =>
  ({| sm_snapshot := next; sm_pending_activation := sm_pending_activation self |}, Ok tt).
Definition set_pending (pending : option (PublicKey * PreviousSession)) : method unit := fun self =>
  ({| sm_snapshot := sm_snapshot self; sm_pending_activation := pending |}, Ok tt).
(** A method on [&self] or a check that fails. *)
Definition reading {A} (f : StateMachine -> result A SafeError) : method A := fun self =>
  (self, f self).

Definition require_identity (key : PublicKey) (self : StateMachine) : result unit SafeError :=
  if existsb (fun identity => public_key identity ==? key) (as_identities (sm_snapshot self))
  then Ok tt else Err identity_not_found.

Definition copy_ready (revision : SnapshotRevision) (selected_identity : option PublicKey)
    (session : SessionState) (active_identity : option ActiveIdentitySnapshot)
    (recoverable_problem : option SafeError) (self : StateMachine)
  : result AppSnapshot SafeError :=
  AppSnapshot_ready revision (as_relay_configuration (sm_snapshot self))
    (as_identities (sm_snapshot self)) selected_identity session active_identity
    recoverable_problem.

Definition is_booting (s : AppSnapshot) : bool :=
  match as_lifecycle s with AppLifecycle.Booting => true | _ => false end.

Definition bootstrap_registry (revision : SnapshotRevision) (relay_configuration : RelayConfiguration)
    (identities : list NostrIdentity) (selected : option PublicKey) (self : StateMachine)
  : result AppSnapshot SafeError :=
  if negb (is_booting (sm_snapshot self)) then Ok (sm_snapshot self)
  else AppSnapshot_ready revision relay_configuration identities selected
         SessionState.SignedOut None None.

Definition bootstrap (revision : SnapshotRevision) (relay_configuration : RelayConfiguration)
    (self : StateMachine) : result AppSnapshot SafeError :=
  if negb (is_booting (sm_snapshot self)) then Ok (sm_snapshot self)
  else AppSnapshot_ready revision relay_configuration [] None SessionState.SignedOut None None.

Definition replace_registry (revision : SnapshotRevision) (identities : list NostrIdentity)
    (selected : option PublicKey) : method AppSnapshot :=
  do! _ <- set_pending None;
  reading (fun self =>
    AppSnapshot_ready revision (as_relay_configuration (sm_snapshot self)) identities selected
      SessionState.SignedOut None None).

Definition replace_registry_preserving_session (revision : SnapshotRevision)
    (identities : list NostrIdentity) (selected : option PublicKey) : method AppSnapshot :=
  do! _ <- set_pending None;
  reading (fun self =>
    AppSnapshot_ready revision (as_relay_configuration (sm_snapshot self)) identities selected
      (as_session (sm_snapshot self)) (as_active_identity (sm_snapshot self)) None).

Definition select (revision : SnapshotRevision) (key : PublicKey) (self : StateMachine)
  : result AppSnapshot SafeError :=
  require_identity key self ;;?
  copy_ready revision (Some key) (as_session (sm_snapshot self))
    (as_active_identity (sm_snapshot self)) None self.

Definition begin_activation (revision : SnapshotRevision) (key : PublicKey) : method AppSnapshot :=
  do! _ <- reading (require_identity key);
  do! _ <- reading (fun self =>
    if is_some (sm_pending_activation self) then Err invalid_application_state else Ok tt);
  do! self <- stm_get;
  do! _ <- set_pending (Some (key, {|
    ps_session := as_session (sm_snapshot self);
    ps_active_identity := as_active_identity (sm_snapshot self) |}));
  reading (copy_ready revision (as_selected_identity (sm_snapshot self))
    (SessionState.Activating key) (as_active_identity (sm_snapshot self)) None).

(** [iter_mut().find(..)] and the assignment through it. *)
Fixpoint replace_identity (target : PublicKey) (identity : NostrIdentity) (l : list NostrIdentity)
  : option (list NostrIdentity) :=
  match l with
  | [] => None
  | i :: l =>
      if public_key i ==? target then Some (identity :: l)
      else match replace_identity target identity l with
           | Some l => Some (i :: l)
           | None => None
           end
  end.

Definition activation_succeeded (revision : SnapshotRevision)
    (active_identity : ActiveIdentitySnapshot) : method AppSnapshot :=
  do! self <- stm_get;
  do! target <- stm_lift
    match sm_pending_activation self with
    | None => Err invalid_application_state
    | Some (target, _) =>
        if public_key (ai_identity active_identity) !=? target
        then Err invalid_application_state else Ok target
    end;
  do! identities <- stm_lift
    (ok_or (replace_identity target (ai_identity active_identity)
              (as_identities (sm_snapshot self))) identity_not_found);
  do! next <- stm_lift
    (AppSnapshot_ready revision (as_relay_configuration (sm_snapshot self)) identities
       (Some target) SessionState.Active (Some active_identity) None);
  do! _ <- set_pending None;
  stm_ret next.

Definition activation_failed (revision : SnapshotRevision) (problem : SafeError)
  : method AppSnapshot :=
  do! self <- stm_get;
  do! _ <- set_pending None;
  match sm_pending_activation self with
  | None => stm_lift (Err invalid_application_state)
  | Some (_, previous) =>
      reading (copy_ready revision (as_selected_identity (sm_snapshot self))
        (ps_session previous) (ps_active_identity previous) (Some problem))
  end.

Definition sign_out (revision : SnapshotRevision) : method AppSnapshot :=
  do! _ <- set_pending None;
  reading (fun self =>
    copy_ready revision (as_selected_identity (sm_snapshot self)) SessionState.SignedOut None None
      self).

Definition update_active_identity (revision : SnapshotRevision) (expected : PublicKey)
    (active_identity : ActiveIdentitySnapshot) (problem : option SafeError) (self : StateMachine)
  : result AppSnapshot SafeError :=
  if negb (is_Active (as_session (sm_snapshot self)))
     || ((fun active => public_key (ai_identity active)) <$> as_active_identity (sm_snapshot self)
         !=? Some expected)
     || (public_key (ai_identity active_identity) !=? expected)
  then Err invalid_application_state
  else copy_ready revision (as_selected_identity (sm_snapshot self)) SessionState.Active
         (Some active_identity) problem self.

(** The match of [apply]. *)
Definition transition_next (next_revision : SnapshotRevision)
    (relay_configuration : RelayConfiguration) (transition : StateTransition)
  : method AppSnapshot :=
  match transition with
  | Bootstrap => reading (bootstrap next_revision relay_configuration)
  | BootstrapRegistry identities selected =>
      reading (bootstrap_registry next_revision relay_configuration identities selected)
  | Fatal error => stm_ret (AppSnapshot_fatal next_revision relay_configuration error)
  | ReplaceRegistry identities selected => replace_registry next_revision identities selected
  | ReplaceRegistryPreservingSession identities selected =>
      replace_registry_preserving_session next_revision identities selected
  | Select public_key => reading (select next_revision public_key)
  | BeginActivation public_key => begin_activation next_revision public_key
  | ActivationSucceeded active_identity => activation_succeeded next_revision active_identity
  | ActivationFailed problem => activation_failed next_revision problem
  | UpdateActiveIdentity expected active_identity problem =>
      reading (update_active_identity next_revision expected active_identity problem)
  | SignOut => sign_out next_revision
  | SetProblem problem =>
      reading (fun self =>
        copy_ready next_revision (as_selected_identity (sm_snapshot self))
          (as_session (sm_snapshot self)) (as_active_identity (sm_snapshot self)) problem self)
  end.

Definition StateMachine_apply (transition : StateTransition)
    (relay_configuration : RelayConfiguration) : method AppSnapshot :=
  do! next_revision <- reading (fun self =>
    ok_or (SnapshotRevision_next (as_revision (sm_snapshot self))) invalid_application_state);
  do! next <- transition_next next_revision relay_configuration transition;
  do! _ <- set_snapshot next;
  stm_ret next.

(** ** The invariant of the machine *)

Abbreviation keys m := (public_key <$> as_identities (sm_snapshot m)).

(** A pending activation belongs to the session on display, unless a fatal
    snapshot discarded that session under it. *)
Definition pending_ok (m : StateMachine) : Prop :=
  match sm_pending_activation m with
  | None => True
  | Some (key, previous) =>
      let s := sm_snapshot m in
      (as_session s = SessionState.Activating key /\ key ∈ keys m /\
       as_active_identity s = ps_active_identity previous /\
       snapshot_valid (as_identities s) (as_selected_identity s)
         (ps_session previous) (ps_active_identity previous))
      \/ (as_identities s = [] /\ as_selected_identity s = None /\
          as_session s = SessionState.SignedOut /\ as_active_identity s = None)
  end.

Definition machine_ok (m : StateMachine) : Prop :=
  snapshot_ok (sm_snapshot m) /\ pending_ok m /\
  (is_booting (sm_snapshot m) = true -> m = StateMachine_booting).

Lemma machine_ok_booting : machine_ok StateMachine_booting.
Proof. split; [apply snapshot_valid_empty|done]. Qed.

Lemma require_identity_Ok key m : require_identity key m = Ok tt <-> key ∈ keys m.
Proof.
  unfold require_identity. destruct (existsb _ _) eqn:E.
  - split; [intros _|done]. apply existsb_exists in E as (i & Hi & E%bool_decide_eq_true).
    apply list_elem_of_fmap. exists i. split; [done|]. by apply list_elem_of_In.
  - split; [done|]. intros (i & -> & Hi)%list_elem_of_fmap. exfalso.
    apply not_true_iff_false in E. apply E, existsb_exists. exists i.
    split; [by apply list_elem_of_In|]. by apply bool_decide_eq_true.
Qed.

Lemma replace_identity_Some target i l l' :
  replace_identity target i l = Some l' ->
  public_key i = target ->
  public_key <$> l' = public_key <$> l /\ i ∈ l' /\
  (forall j, public_key j <> target -> j ∈ l' <-> j ∈ l).
Proof.
  intros Hr Hi. revert l' Hr. induction l as [|a l IH]; intros l' Hr; simpl in Hr; [done|].
  destruct (public_key a ==? target) eqn:E.
  - apply bool_decide_eq_true in E. injection Hr as <-. csimpl.
    split; [congruence|]. split; [by left|]. intros j Hj. rewrite !elem_of_cons. naive_solver.
  - destruct (replace_identity target i l) as [l0|]; [|done]. injection Hr as <-.
    destruct (IH l0 eq_refl) as (H1 & H2 & H3). csimpl. split; [congruence|].
    split; [by right|]. intros j Hj. rewrite !elem_of_cons, H3 by done. done.
Qed.

Lemma replace_identity_None target i l :
  replace_identity target i l = None <-> target ∉ public_key <$> l.
Proof.
  induction l as [|a l IH]; csimpl; [split; [intros _; apply not_elem_of_nil|done]|].
  rewrite not_elem_of_cons. case_bool_decide as E; [naive_solver|].
  destruct (replace_identity target i l); naive_solver.
Qed.

(** Registering the refreshed record of a key keeps a snapshot valid. *)
Lemma replace_valid m target a l :
  snapshot_ok (sm_snapshot m) -> public_key (ai_identity a) = target ->
  replace_identity target (ai_identity a) (as_identities (sm_snapshot m)) = Some l ->
  snapshot_valid l (Some target) SessionState.Active (Some a).
Proof.
  intros (Hd & _) Hk Hr. apply replace_identity_Some in Hr as (Hkeys & Hin & _); [|done].
  repeat split; try done.
  - by rewrite Hkeys.
  - intros ->. by apply not_elem_of_nil in Hin.
  - intros key [= <-]. apply list_elem_of_fmap. eauto.
  - by intros ? [= <-].
Qed.

(** What each transition requires of a machine that satisfies the invariant. *)
Definition admissible (m : StateMachine) (t : StateTransition) : Prop :=
  let s := sm_snapshot m in
  match t with
  | Bootstrap | Fatal _ | SignOut | SetProblem _ => True
  | BootstrapRegistry identities selected =>
      is_booting s = true -> snapshot_valid identities selected SessionState.SignedOut None
  | ReplaceRegistry identities selected =>
      snapshot_valid identities selected SessionState.SignedOut None
  | ReplaceRegistryPreservingSession identities selected =>
      snapshot_valid identities selected (as_session s) (as_active_identity s)
  | Select key => key ∈ keys m
  | BeginActivation key => key ∈ keys m /\ sm_pending_activation m = None
  | ActivationSucceeded a =>
      public_key (ai_identity a) ∈ keys m /\
      exists previous, sm_pending_activation m = Some (public_key (ai_identity a), previous)
  | ActivationFailed _ =>
      exists key previous, sm_pending_activation m = Some (key, previous) /\
        snapshot_valid (as_identities s) (as_selected_identity s)
          (ps_session previous) (ps_active_identity previous)
  | UpdateActiveIdentity expected a _ =>
      as_session s = SessionState.Active /\
      (exists current, as_active_identity s = Some current /\
        public_key (ai_identity current) = expected) /\
      public_key (ai_identity a) = expected /\ ai_identity a ∈ as_identities s
  end.

(** The snapshot an admissible transition produces and the activation it leaves
    pending. *)
Definition ready_like (s : AppSnapshot) (revision : SnapshotRevision)
    (identities : list NostrIdentity) (selected : option PublicKey) (session : SessionState)
    (active : option ActiveIdentitySnapshot) (problem : option SafeError) : AppSnapshot :=
  ready_of revision (as_relay_configuration s) identities selected session active problem.

Definition outcome (m : StateMachine) (relays : RelayConfiguration) (revision : SnapshotRevision)
    (t : StateTransition) : StateMachine :=
  let s := sm_snapshot m in
  let keep next := {| sm_snapshot := next; sm_pending_activation := sm_pending_activation m |} in
  let clear next := {| sm_snapshot := next; sm_pending_activation := None |} in
  match t with
  | Bootstrap =>
      keep (if is_booting s then ready_of revision relays [] None SessionState.SignedOut None None
            else s)
  | BootstrapRegistry identities selected =>
      keep (if is_booting s
            then ready_of revision relays identities selected SessionState.SignedOut None None
            else s)
  | Fatal error => keep (AppSnapshot_fatal revision relays error)
  | ReplaceRegistry identities selected =>
      clear (ready_like s revision identities selected SessionState.SignedOut None None)
  | ReplaceRegistryPreservingSession identities selected =>
      clear (ready_like s revision identities selected (as_session s) (as_active_identity s) None)
  | Select key =>
      keep (ready_like s revision (as_identities s) (Some key) (as_session s)
              (as_active_identity s) None)
  | BeginActivation key =>
      {| sm_snapshot := ready_like s revision (as_identities s) (as_selected_identity s)
                          (SessionState.Activating key) (as_active_identity s) None;
         sm_pending_activation := Some (key, {| ps_session := as_session s;
                                                ps_active_identity := as_active_identity s |}) |}
  | ActivationSucceeded a =>
      clear (ready_like s revision
               (default [] (replace_identity (public_key (ai_identity a)) (ai_identity a)
                              (as_identities s)))
               (Some (public_key (ai_identity a))) SessionState.Active (Some a) None)
  | ActivationFailed problem =>
      match sm_pending_activation m with
      | Some (_, previous) =>
          clear (ready_like s revision (as_identities s) (as_selected_identity s)
                   (ps_session previous) (ps_active_identity previous) (Some problem))
      | None => m
      end
  | UpdateActiveIdentity _ a problem =>
      keep (ready_like s revision (as_identities s) (as_selected_identity s) SessionState.Active
              (Some a) problem)
  | SignOut =>
      clear (ready_like s revision (as_identities s) (as_selected_identity s)
               SessionState.SignedOut None None)
  | SetProblem problem =>
      keep (ready_like s revision (as_identities s) (as_selected_identity s) (as_session s)
              (as_active_identity s) problem)
  end.

(** A refused transition leaves the snapshot, and forgets at most an activation
    that the transition would have ended. *)
Definition refused (m m' : StateMachine) (t : StateTransition) : Prop :=
  sm_snapshot m' = sm_snapshot m /\
  (sm_pending_activation m' = sm_pending_activation m \/
   sm_pending_activation m' = None /\
   match t with
   | ReplaceRegistry _ _ | ReplaceRegistryPreservingSession _ _ | ActivationFailed _ => True
   | _ => False
   end).

(** Decide whether the snapshot under construction is valid. *)
Ltac decide_ready :=
  match goal with
  | |- context [AppSnapshot_ready ?r ?c ?l ?sel ?sess ?act ?p] =>
      let Hv := fresh "Hv" in let E := fresh "E" in
      destruct (AppSnapshot_ready_cases r c l sel sess act p) as [[Hv E]|[Hv E]]; rewrite E; clear E
  end.

Lemma require_identity_cases key m :
  (key ∈ keys m /\ require_identity key m = Ok tt) \/
  (key ∉ keys m /\ require_identity key m = Err identity_not_found).
Proof.
  rewrite <- require_identity_Ok. unfold require_identity. destruct (existsb _ _); [by left|by right].
Qed.

Lemma session_change_valid s sess act :
  snapshot_ok s -> (forall a, act = Some a -> ai_identity a ∈ as_identities s) ->
  (sess = SessionState.Active -> is_Some act) -> (sess = SessionState.SignedOut -> act = None) ->
  snapshot_valid (as_identities s) (as_selected_identity s) sess act.
Proof. unfold snapshot_ok, snapshot_valid. naive_solver. Qed.

Lemma select_valid s key :
  snapshot_ok s -> key ∈ public_key <$> as_identities s ->
  snapshot_valid (as_identities s) (Some key) (as_session s) (as_active_identity s).
Proof.
  intros Hs Hk. eapply snapshot_valid_session; [exact Hs|..]; try (by destruct Hs as (_&_&_&?&?&?)).
  - split; [|done]. intros E. rewrite E in Hk. by apply not_elem_of_nil in Hk.
  - by intros ? [= <-].
Qed.

Lemma begin_run revision relays key m :
  snapshot_ok (sm_snapshot m) ->
  match begin_activation revision key m with
  | (m', Ok next) =>
      admissible m (BeginActivation key) /\
      {| sm_snapshot := next; sm_pending_activation := sm_pending_activation m' |}
      = outcome m relays revision (BeginActivation key)
  | (m', Err _) => ~ admissible m (BeginActivation key) /\ m' = m
  end.
Proof.
  intros Hs. unfold begin_activation, stm_bind, reading, stm_get, set_pending, copy_ready. simpl.
  destruct (require_identity_cases key m) as [[Hk ->]|[Hk ->]]; [|split; [naive_solver|done]].
  destruct (sm_pending_activation m) as [p|] eqn:Ep; simpl; [split; [naive_solver|done]|].
  rewrite AppSnapshot_ready_valid; [done|].
  apply session_change_valid; [done| |done|done]. by destruct Hs as (_&_&_&?&_).
Qed.

Lemma succeeded_run revision relays a m :
  snapshot_ok (sm_snapshot m) ->
  match activation_succeeded revision a m with
  | (m', Ok next) =>
      admissible m (ActivationSucceeded a) /\
      {| sm_snapshot := next; sm_pending_activation := sm_pending_activation m' |}
      = outcome m relays revision (ActivationSucceeded a)
  | (m', Err _) => ~ admissible m (ActivationSucceeded a) /\ m' = m
  end.
Proof.
  intros Hs. unfold activation_succeeded, stm_bind, stm_lift, stm_get, set_pending, stm_ret. simpl.
  destruct (sm_pending_activation m) as [[target previous]|] eqn:Ep; simpl;
    [|split; [naive_solver|done]].
  case_bool_decide as Hk; simpl; [|split; [naive_solver|done]]. subst target.
  destruct (replace_identity _ _ _) as [l|] eqn:Er; simpl.
  - rewrite AppSnapshot_ready_valid by (by eapply replace_valid). simpl.
    split; [|done]. split; [|eauto]. destruct (decide (public_key (ai_identity a) ∈ keys m)) as [|Hn]; [done|].
    apply (replace_identity_None _ (ai_identity a)) in Hn. congruence.
  - apply replace_identity_None in Er. split; [naive_solver|done].
Qed.

Lemma update_run revision expected a problem m :
  snapshot_ok (sm_snapshot m) ->
  match update_active_identity revision expected a problem m with
  | Ok next => admissible m (UpdateActiveIdentity expected a problem) /\
      next = ready_like (sm_snapshot m) revision (as_identities (sm_snapshot m))
        (as_selected_identity (sm_snapshot m)) SessionState.Active (Some a) problem
  | Err _ => ~ admissible m (UpdateActiveIdentity expected a problem)
  end.
Proof.
  intros Hs. unfold update_active_identity, copy_ready. destruct (_ || _ || _) eqn:E.
  - simpl. intros (H1 & (c & H2 & <-) & H4 & _). rewrite H1, H2, H4 in E. simpl in E.
    by rewrite !bool_decide_true in E by done.
  - rewrite !orb_false_iff, !negb_false_iff, !bool_decide_eq_true in E.
    destruct E as [[E1 E2] E3]. apply fmap_Some in E2 as (c & E2 & ->).
    assert (as_session (sm_snapshot m) = SessionState.Active) as Ea by (by destruct (as_session _)).
    decide_ready; simpl.
    + split; [|done]. split_and!; [done|eauto|done|]. by destruct Hv as (_&_&_&Hv&_); apply Hv.
    + intros (_ & _ & _ & Hin). apply Hv. apply session_change_valid; try done. by intros ? [= <-].
Qed.

(** The code against its specification: a transition succeeds exactly when it is
    admissible, and then has the outcome; otherwise it is refused. *)
Lemma transition_run revision relays t m :
  snapshot_ok (sm_snapshot m) ->
  match transition_next revision relays t m with
  | (m', Ok next) =>
      admissible m t /\
      {| sm_snapshot := next; sm_pending_activation := sm_pending_activation m' |}
      = outcome m relays revision t
  | (m', Err _) => ~ admissible m t /\ refused m m' t
  end.
Proof.
  intros Hs. pose proof (begin_run revision relays) as Hb.
  pose proof (succeeded_run revision relays) as Hc.
  destruct t as [|ids sel|e|ids sel|ids sel|key|key|a|p|expected a p| |p]; cbn [transition_next];
    try (specialize (Hb key m Hs); destruct (begin_activation _ _ _) as [? [?|?]];
         [done|destruct Hb as [? ->]; split; [done|split; [done|by left]]]);
    try (specialize (Hc a m Hs); destruct (activation_succeeded _ _ _) as [? [?|?]];
         [done|destruct Hc as [? ->]; split; [done|split; [done|by left]]]);
    clear Hb Hc; unfold reading.
  - unfold bootstrap. destruct (is_booting (sm_snapshot m)) eqn:E; cbn [negb]; [|simpl; by rewrite E].
    rewrite AppSnapshot_ready_valid by apply snapshot_valid_empty. simpl. by rewrite E.
  - unfold bootstrap_registry. destruct (is_booting (sm_snapshot m)) eqn:E; cbn [negb]; [|simpl; by rewrite E].
    decide_ready; simpl; rewrite E; [done|]. split; [naive_solver|]. split; [done|by left].
  - simpl. done.
  - unfold replace_registry, stm_bind, set_pending, reading. simpl. decide_ready; simpl; [done|].
    split; [done|]. split; [done|by right].
  - unfold replace_registry_preserving_session, stm_bind, set_pending, reading. simpl.
    decide_ready; simpl; [done|]. split; [done|]. split; [done|by right].
  - unfold select, copy_ready.
    destruct (require_identity_cases key m) as [[Hk ->]|[Hk ->]]; simpl.
    + rewrite AppSnapshot_ready_valid by (by apply select_valid). done.
    + split; [done|]. split; [done|by left].
  - unfold activation_failed, stm_bind, stm_get, set_pending, reading, copy_ready, stm_lift. simpl.
    destruct (sm_pending_activation m) as [[key previous]|] eqn:Ep; simpl.
    + decide_ready; simpl; [split; [eauto|done]|]. split; [naive_solver|].
      split; [done|by right].
    + split; [naive_solver|]. split; [done|]. rewrite Ep. by left.
  - pose proof (update_run revision expected a p m Hs) as Hu.
    destruct (update_active_identity _ _ _ _ _); [|split; [done|split; [done|by left]]].
    destruct Hu as [? ->]. done.
  - unfold sign_out, stm_bind, set_pending, reading, copy_ready. simpl.
    rewrite AppSnapshot_ready_valid; [done|]. by apply session_change_valid.
  - unfold copy_ready. by rewrite AppSnapshot_ready_valid by exact Hs.
Qed.

Lemma machine_eta m :
  {| sm_snapshot := sm_snapshot m; sm_pending_activation := sm_pending_activation m |} = m.
Proof. by destruct m. Qed.

Lemma outcome_ok m relays revision t :
  machine_ok m -> admissible m t -> machine_ok (outcome m relays revision t).
Proof.
  intros (Hs & Hp & Hb) Ha. pose proof snapshot_valid_empty as He.
  destruct t as [|ids sel|e|ids sel|ids sel|key|key|a|p|expected a p| |p]; simpl in Ha |- *;
    try (split; [done|]; split; done).
  - destruct (is_booting (sm_snapshot m)) eqn:E; [|by rewrite machine_eta; split_and!; [..|congruence]].
    by rewrite (Hb eq_refl).
  - destruct (is_booting (sm_snapshot m)) eqn:E; [|by rewrite machine_eta; split_and!; [..|congruence]].
    rewrite (Hb eq_refl). split; [by apply Ha|done].
  - split; [exact He|]. split; [|done]. unfold pending_ok. simpl.
    destruct (sm_pending_activation m) as [[k prev]|]; [by right|done].
  - split; [exact (select_valid _ _ Hs Ha)|]. split; [|done]. unfold pending_ok in *. simpl in *.
    destruct (sm_pending_activation m) as [[k prev]|]; [|done].
    destruct Hp as [(H1 & H2 & H3 & H4)|(H1 & _)].
    + left. split_and!; try done. exact (select_valid (ready_of revision (as_relay_configuration (sm_snapshot m))
        (as_identities (sm_snapshot m)) (as_selected_identity (sm_snapshot m)) _ _ None) key H4 Ha).
    + rewrite H1 in Ha. by apply not_elem_of_nil in Ha.
  - destruct Ha as [Hk Hn]. split; [|split; [|done]].
    + apply (session_change_valid (sm_snapshot m)); [done| |done|done]. by destruct Hs as (_&_&_&?&_).
    + left. simpl. done.
  - destruct Ha as [Hk [prev Hn]]. split; [|done]. simpl.
    destruct (replace_identity _ _ _) as [l|] eqn:E; [by eapply replace_valid|].
    by apply replace_identity_None in E.
  - destruct Ha as (k & prev & -> & Hv). done.
  - destruct Ha as (H1 & _ & H3 & H4). split; [|split; [|done]].
    + apply (session_change_valid (sm_snapshot m)); try done. by intros ? [= <-].
    + unfold pending_ok in *. simpl in *. destruct (sm_pending_activation m) as [[k prev]|]; [|done].
      destruct Hp as [(H5 & _)|(_ & _ & H5 & _)]; congruence.
  - split; [|done]. by apply (session_change_valid (sm_snapshot m)).
Qed.

Lemma refused_ok m m' t : machine_ok m -> refused m m' t -> machine_ok m'.
Proof.
  destruct m as [s p], m' as [s' p']. intros (Hs & Hp & Hb) [Hsnap Hpend]. simpl in *. subst s'.
  destruct Hpend as [->|[-> _]]; [done|]. split; [done|]. split; [done|].
  simpl in *. intros E. specialize (Hb E). unfold StateMachine_booting in *. congruence.
Qed.

(** ** Runs *)

Definition machine_step (m m' : StateMachine) : Prop :=
  exists t relays, (StateMachine_apply t relays m).1 = m'.
Definition reachable (m : StateMachine) : Prop := rtc machine_step StateMachine_booting m.

Lemma transition_applied t relays m :
  machine_ok m ->
  match StateMachine_apply t relays m with
  | (m', Ok next) =>
      admissible m t /\ sm_snapshot m' = next /\
      exists revision, raw revision = raw (as_revision (sm_snapshot m)) + 1 /\
        m' = outcome m relays revision t
  | (m', Err _) =>
      (~ admissible m t \/ raw (as_revision (sm_snapshot m)) = 2 ^ 64 - 1) /\ refused m m' t
  end.
Proof.
  intros (Hs & _). unfold StateMachine_apply, stm_bind, reading, set_snapshot, stm_ret.
  destruct (SnapshotRevision_next _) as [revision|] eqn:E; simpl.
  - apply counter_next_Some in E. pose proof (transition_run revision relays t m Hs) as Hr.
    destruct (transition_next revision relays t m) as [m' [next|e]].
    + destruct Hr as [Ha Ho]. split; [done|]. split; [done|]. by exists revision.
    + destruct Hr as [Ha Hr]. split; [by left|done].
  - apply counter_next_None in E. split; [by right|]. split; [done|by left].
Qed.

Lemma apply_ok t relays m : machine_ok m -> machine_ok (StateMachine_apply t relays m).1.
Proof.
  intros Hm. pose proof (transition_applied t relays m Hm) as Hr.
  destruct (StateMachine_apply t relays m) as [m' [next|e]]; simpl.
  - destruct Hr as (Ha & _ & revision & _ & ->). by apply outcome_ok.
  - destruct Hr as [_ Hr]. by eapply refused_ok.
Qed.

Lemma reachable_ok m : reachable m -> machine_ok m.
Proof.
  intros Hr. unfold reachable in Hr. pose proof machine_ok_booting as H0.
  induction Hr as [|m1 m2 m3 (t & relays & <-) _ IH]; [done|]. by apply IH, apply_ok.
Qed.

Definition apply_all (ts : list (StateTransition * RelayConfiguration)) (m : StateMachine)
  : StateMachine :=
  foldl (fun m tc => (StateMachine_apply tc.1 tc.2 m).1) m ts.

Lemma reachable_apply_all ts : reachable (apply_all ts StateMachine_booting).
Proof.
  assert (forall m, reachable m -> reachable (apply_all ts m)) as Hr; [|apply Hr, rtc_refl].
  induction ts as [|[t c] ts IH]; intros m Hm; simpl; [done|]. apply IH. eapply rtc_r; [exact Hm|].
  by exists t, c.
Qed.

(** What can be attempted while an activation is awaited and does not end it. *)
Definition interim (t : StateTransition) : Prop :=
  match t with
  | Select _ | SetProblem _ | BeginActivation _ | UpdateActiveIdentity _ _ _
  | Bootstrap | BootstrapRegistry _ _ => True
  | _ => False
  end.

(** The activation of [key] begun in [m0] is still the one awaited in [m]. *)
Definition awaiting (m0 : StateMachine) (key : PublicKey) (m : StateMachine) : Prop :=
  let s0 := sm_snapshot m0 in let s := sm_snapshot m in
  machine_ok m /\
  sm_pending_activation m = Some (key, {| ps_session := as_session s0;
                                          ps_active_identity := as_active_identity s0 |}) /\
  as_session s = SessionState.Activating key /\
  as_identities s = as_identities s0 /\
  as_active_identity s = as_active_identity s0.

Lemma awaiting_begin m key relays m1 s1 :
  machine_ok m -> StateMachine_apply (BeginActivation key) relays m = (m1, Ok s1) ->
  awaiting m key m1 /\ key ∈ keys m.
Proof.
  intros Hm Hb. pose proof (apply_ok (BeginActivation key) relays m Hm) as Hok.
  pose proof (transition_applied (BeginActivation key) relays m Hm) as Hr. rewrite Hb in Hok, Hr.
  destruct Hr as ([Hk _] & _ & revision & _ & ->). done.
Qed.

Lemma awaiting_interim m0 key m t relays :
  awaiting m0 key m -> interim t -> awaiting m0 key (StateMachine_apply t relays m).1.
Proof.
  intros (Hm & Hp & Hs & Hi & Ha) Ht. pose proof (apply_ok t relays m Hm) as Hok.
  pose proof (transition_applied t relays m Hm) as Hr.
  assert (is_booting (sm_snapshot m) = false) as Hnb.
  { destruct (is_booting _) eqn:E; [|done]. destruct Hm as (_ & _ & Hb). rewrite (Hb E) in Hp. done. }
  destruct (StateMachine_apply t relays m) as [m' [next|e]]; simpl in *; unfold awaiting.
  - destruct Hr as (Had & _ & revision & _ & ->).
    destruct t; simpl in Ht, Had |- *; try done;
      rewrite ?Hnb, ?machine_eta; try done; exfalso; destruct_and?; congruence.
  - destruct Hr as (_ & Hsn & [Hpe|[_ Hpe]]); [|by destruct t]. rewrite Hsn, Hpe. done.
Qed.

Lemma awaiting_all m0 key m ts :
  awaiting m0 key m -> Forall (fun tc => interim tc.1) ts -> awaiting m0 key (apply_all ts m).
Proof.
  intros Hm Hts. revert m Hm. induction Hts as [|[t c] ts Ht _ IH]; intros m Hm; simpl; [done|].
  apply IH. by apply awaiting_interim.
Qed.

(** ** Claims *)

(** C28: every snapshot the machine can come to hold is well formed: identities
    are distinct, one is selected exactly when there is one, the active identity
    is registered, and the session agrees with it.  A pending activation belongs
    to the session on display. *)
Theorem reachable_session_valid m :
  reachable m -> snapshot_ok (sm_snapshot m) /\ pending_ok m.
Proof. intros Hm%reachable_ok. by destruct Hm as (? & ? & _). Qed.

(** C19: [apply] against its specification, in every reachable state: it succeeds
    exactly on admissible transitions while a revision is left, takes the next
    revision and has the stated outcome; a refused transition leaves the snapshot
    and forgets at most an activation it would have ended. *)
Theorem session_apply_correct t relays m :
  reachable m ->
  match StateMachine_apply t relays m with
  | (m', Ok next) =>
      admissible m t /\ sm_snapshot m' = next /\
      exists revision, raw revision = raw (as_revision (sm_snapshot m)) + 1 /\
        m' = outcome m relays revision t
  | (m', Err _) =>
      (~ admissible m t \/ raw (as_revision (sm_snapshot m)) = 2 ^ 64 - 1) /\ refused m m' t
  end.
Proof. intros Hm%reachable_ok. by apply transition_applied. Qed.

(** C27: a failed activation restores the session it was to replace.  Whatever is
    selected, reported or attempted after [BeginActivation] succeeded, reporting
    the failure succeeds and brings back the session and active identity of
    before, keeping the registry and the current selection. *)
Theorem failed_activation_restores m key relays m1 s1 ts problem relays' :
  reachable m ->
  StateMachine_apply (BeginActivation key) relays m = (m1, Ok s1) ->
  Forall (fun tc => interim tc.1) ts ->
  raw (as_revision (sm_snapshot (apply_all ts m1))) < 2 ^ 64 - 1 ->
  exists m3 s3,
    StateMachine_apply (ActivationFailed problem) relays' (apply_all ts m1) = (m3, Ok s3) /\
    as_session s3 = as_session (sm_snapshot m) /\
    as_active_identity s3 = as_active_identity (sm_snapshot m) /\
    as_identities s3 = as_identities (sm_snapshot m) /\
    as_selected_identity s3 = as_selected_identity (sm_snapshot (apply_all ts m1)) /\
    as_recoverable_problem s3 = Some problem /\ sm_pending_activation m3 = None.
Proof.
  intros Hm%reachable_ok Hb Hts Hrev. destruct (awaiting_begin _ _ _ _ _ Hm Hb) as [Haw _].
  apply (awaiting_all _ _ _ ts) in Haw as (Hok & Hp & Hs & Hi & Ha); [|done].
  set (m2 := apply_all ts m1) in *.
  pose proof (transition_applied (ActivationFailed problem) relays' m2 Hok) as Hr.
  destruct (StateMachine_apply _ _ m2) as [m3 [s3|e]].
  - destruct Hr as (_ & Hs3 & revision & _ & Hm3). exists m3, s3. split; [done|].
    rewrite <- Hs3, Hm3. simpl. rewrite Hp. simpl. by rewrite Hi.
  - destruct Hr as [[Hn|Hn] _]; [|lia]. exfalso. apply Hn. simpl. rewrite Hp.
    do 2 eexists. split; [done|]. destruct Hok as (_ & Hpo & _). unfold pending_ok in Hpo.
    rewrite Hp in Hpo. destruct Hpo as [(_ & _ & _ & Hv)|(_ & _ & Hso & _)]; [done|congruence].
Qed.

(** A successful activation replaces exactly the record of the activated
    key: the key becomes selected and active with the refreshed record, every
    other identity is untouched. *)
Theorem activation_replaces m key relays m1 s1 ts a relays' :
  reachable m ->
  StateMachine_apply (BeginActivation key) relays m = (m1, Ok s1) ->
  Forall (fun tc => interim tc.1) ts ->
  public_key (ai_identity a) = key ->
  raw (as_revision (sm_snapshot (apply_all ts m1))) < 2 ^ 64 - 1 ->
  exists m3 s3,
    StateMachine_apply (ActivationSucceeded a) relays' (apply_all ts m1) = (m3, Ok s3) /\
    as_session s3 = SessionState.Active /\ as_active_identity s3 = Some a /\
    as_selected_identity s3 = Some key /\
    public_key <$> as_identities s3 = keys m /\ ai_identity a ∈ as_identities s3 /\
    (forall i, public_key i <> key -> i ∈ as_identities s3 <-> i ∈ as_identities (sm_snapshot m)) /\
    sm_pending_activation m3 = None.
Proof.
  intros Hm%reachable_ok Hb Hts <- Hrev. destruct (awaiting_begin _ _ _ _ _ Hm Hb) as [Haw Hk].
  apply (awaiting_all _ _ _ ts) in Haw as (Hok & Hp & Hs & Hi & Ha); [|done].
  set (m2 := apply_all ts m1) in *.
  pose proof (transition_applied (ActivationSucceeded a) relays' m2 Hok) as Hr.
  destruct (StateMachine_apply _ _ m2) as [m3 [s3|e]].
  - destruct Hr as (_ & Hs3 & revision & _ & Hm3). exists m3, s3. split; [done|].
    rewrite <- Hs3, Hm3. simpl. rewrite Hi.
    destruct (replace_identity _ _ _) as [l|] eqn:E; [|by apply replace_identity_None in E].
    apply replace_identity_Some in E as (H1 & H2 & H3); [|done]. done.
  - destruct Hr as [[Hn|Hn] _]; [|lia]. exfalso. apply Hn. simpl. rewrite Hi, Hp. eauto.
Qed.
End Machine.

(** ** Closed examples *)

#[local] Existing Instance sample_transport.

Definition sample_active (key : Z) : ActiveIdentitySnapshot := {|
  ai_identity := sample_identity key; ai_relay_state := RelayConnectionState.Disconnected;
  ai_profile_state := ProfileLoadState.Empty; ai_profile := None |}.
Definition sample_relays : RelayConfiguration := RelayConfiguration_default.
(** The first of two identities active, the second about to replace it. *)
Definition sample_machine : StateMachine := apply_all
  [(Bootstrap, sample_relays);
   (ReplaceRegistry [sample_identity 1; sample_identity 2] (Some (sample_key 1)), sample_relays);
   (BeginActivation (sample_key 1), sample_relays);
   (ActivationSucceeded (sample_active 1), sample_relays)] StateMachine_booting.
Definition sample_begun : StateMachine :=
  (StateMachine_apply (BeginActivation (sample_key 2)) sample_relays sample_machine).1.
Definition sample_interim : list (StateTransition * RelayConfiguration) :=
  [(Select (sample_key 2), sample_relays); (SetProblem None, sample_relays)].

Lemma sample_machine_reachable : reachable sample_machine.
Proof. apply reachable_apply_all. Qed.
Lemma sample_begun_Ok :
  StateMachine_apply (BeginActivation (sample_key 2)) sample_relays sample_machine
  = (sample_begun, Ok (sm_snapshot sample_begun)).
Proof. vm_compute. reflexivity. Qed.
Lemma sample_interim_ok : Forall (fun tc => interim tc.1) sample_interim.
Proof. repeat constructor. Qed.

Lemma reachable_session_valid_witness :
  as_session (sm_snapshot sample_begun) = SessionState.Activating (sample_key 2) /\
  snapshot_ok (sm_snapshot sample_begun).
Proof.
  split; [vm_compute; reflexivity|].
  refine (proj1 (reachable_session_valid sample_begun _)).
  apply (rtc_r _ sample_machine _ sample_machine_reachable). exists (BeginActivation (sample_key 2)), sample_relays.
  reflexivity.
Defined.

Lemma session_apply_correct_witness : admissible sample_machine (BeginActivation (sample_key 2)).
Proof.
  pose proof (session_apply_correct (BeginActivation (sample_key 2)) sample_relays sample_machine
    sample_machine_reachable) as Hw.
  rewrite sample_begun_Ok in Hw. exact (proj1 Hw).
Defined.

Lemma failed_activation_restores_witness :
  exists m3 s3,
    StateMachine_apply (ActivationFailed invalid_application_state) sample_relays
      (apply_all sample_interim sample_begun) = (m3, Ok s3) /\
    as_session s3 = SessionState.Active.
Proof.
  destruct (failed_activation_restores sample_machine (sample_key 2) sample_relays sample_begun
    (sm_snapshot sample_begun) sample_interim invalid_application_state sample_relays
    sample_machine_reachable sample_begun_Ok sample_interim_ok eq_refl) as (m3 & s3 & H1 & H2 & _).
  exists m3, s3. split; [exact H1|]. rewrite H2. vm_compute. reflexivity.
Defined.

Lemma activation_replaces_witness :
  exists m3 s3,
    StateMachine_apply (ActivationSucceeded (sample_active 2)) sample_relays
      (apply_all sample_interim sample_begun) = (m3, Ok s3) /\
    as_active_identity s3 = Some (sample_active 2).
Proof.
  destruct (activation_replaces sample_machine (sample_key 2) sample_relays sample_begun
    (sm_snapshot sample_begun) sample_interim (sample_active 2) sample_relays
    sample_machine_reachable sample_begun_Ok sample_interim_ok eq_refl eq_refl)
    as (m3 & s3 & H1 & _ & H3 & _).
  exists m3, s3. split; [exact H1|exact H3].
Defined.
