(* ===== verification/Core.v ===== *)
(** * The application core

    [app_core.rs]: the state machine behind its lock, the snapshot published
    after each transition, and the confirmation tokens without which no identity
    is removed.  The lock of the source fails only after a panic under it; the
    model runs one method at a time. *)

From Stdlib Require Import Bool ZArith Lia Strings.String.
From stdpp Require Import base decidable option list numbers strings relations.
From S2P Require Import Prelude Containers Encoding Hub Reference Identity Profile Snapshot Session.

Definition invalid_removal : SafeError :=
  SafeError_new SafeErrorCode.InvalidApplicationState
    "The identity removal confirmation is no longer valid.".

Record RemovalImpact := {
  ri_deletes_local_credential : bool;
  ri_signs_out : bool
}.
#[global] Instance RemovalImpact_eq_dec : EqDecision RemovalImpact.
Proof. solve_decision. Defined.

Record RemovalConfirmationToken := {
  rt_id : Z;
  rt_public_key : PublicKey;
  rt_revision : SnapshotRevision;
  rt_expires_at : UnixTimestamp;
  rt_impact : RemovalImpact
}.

Record RemovalTokenState := {
  rts_public_key : PublicKey;
  rts_revision : SnapshotRevision;
  rts_expires_at : UnixTimestamp;
  rts_impact : RemovalImpact
}.

Section Core.
Context `{RelayTransport}.

Record CoreState := {
  cs_state_machine : StateMachine;
  cs_removal_tokens : list (Z * RemovalTokenState);
  cs_next_removal_token : Z
}.

Record AppCore := {
  ac_relay_configuration : RelayConfiguration;
  ac_state : CoreState;
  ac_published_snapshot : AppSnapshot
}.

Definition AppCore_new (relay_configuration : RelayConfiguration) : AppCore := {|
  ac_relay_configuration := relay_configuration;
  ac_state := {| cs_state_machine := StateMachine_booting; cs_removal_tokens := [];
                 cs_next_removal_token := 1 |};
  ac_published_snapshot := sm_snapshot StateMachine_booting |}.

Definition snapshot (self : AppCore) : AppSnapshot := ac_published_snapshot self.
Definition with_state (self : AppCore) (state : CoreState) : AppCore := {|
  ac_relay_configuration := ac_relay_configuration self;
  ac_state := state;
  ac_published_snapshot := ac_published_snapshot self |}.
Definition with_machine (state : CoreState) (machine : StateMachine) : CoreState := {|
  cs_state_machine := machine;
  cs_removal_tokens := cs_removal_tokens state;
  cs_next_removal_token := cs_next_removal_token state |}.

Definition apply_transition (transition : StateTransition) : stm AppCore SafeError AppSnapshot :=
  fun self =>
  match StateMachine_apply transition (ac_relay_configuration self)
          (cs_state_machine (ac_state self)) with
  | (machine, Err e) => (with_state self (with_machine (ac_state self) machine), Err e)
  | (machine, Ok snapshot) =>
      ({| ac_relay_configuration := ac_relay_configuration self;
          ac_state := with_machine (ac_state self) machine;
          ac_published_snapshot := snapshot |}, Ok snapshot)
  end.

Definition machine_snapshot (self : AppCore) : AppSnapshot :=
  sm_snapshot (cs_state_machine (ac_state self)).

(** [i64::checked_add]. *)
Definition i64_checked_add (a b : Z) : option Z :=
  if i64_range (a + b) then Some (a + b) else None.

Definition signs_out (key : PublicKey) (s : AppSnapshot) : bool :=
  is_some_and (as_active_identity s) (fun active => public_key (ai_identity active) ==? key).

Definition issue_removal_token (key : PublicKey) (now : UnixTimestamp)
  : stm AppCore SafeError RemovalConfirmationToken := fun self =>
  let state := ac_state self in
  match find (fun identity => public_key identity ==? key) (as_identities (machine_snapshot self)) with
  | None => (self, Err identity_not_found)
  | Some identity =>
      let deletes_local_credential :=
        is_some_and (as_local_keyring (ni_signer_binding identity))
          (fun binding => lkb_availability binding !=? SignerAvailability.CredentialMissing) in
      let id := cs_next_removal_token state in
      match u64_checked_add id 1 with
      | None => (self, Err invalid_removal)
      | Some next =>
          let bump tokens := with_state self {|
            cs_state_machine := cs_state_machine state;
            cs_removal_tokens := tokens;
            cs_next_removal_token := next |} in
          match i64_checked_add (raw now) 300 ≫= UnixTimestamp_from_seconds with
          | None => (bump (cs_removal_tokens state), Err invalid_removal)
          | Some expires_at =>
              let revision := as_revision (machine_snapshot self) in
              let impact := {|
                ri_deletes_local_credential := deletes_local_credential;
                ri_signs_out := signs_out key (machine_snapshot self) |} in
              (bump (bt_insert id {| rts_public_key := key; rts_revision := revision;
                                     rts_expires_at := expires_at; rts_impact := impact |}
                       (cs_removal_tokens state)),
               Ok {| rt_id := id; rt_public_key := key; rt_revision := revision;
                     rt_expires_at := expires_at; rt_impact := impact |})
          end
      end
  end.

Definition drop_token (id : Z) (self : AppCore) : AppCore :=
  let state := ac_state self in
  with_state self {|
    cs_state_machine := cs_state_machine state;
    cs_removal_tokens := bt_remove id (cs_removal_tokens state);
    cs_next_removal_token := cs_next_removal_token state |}.

Definition consume_removal_token (token : RemovalConfirmationToken) (now : UnixTimestamp)
  : stm AppCore SafeError PublicKey := fun self =>
  let stored := bt_get (rt_id token) (cs_removal_tokens (ac_state self)) in
  (drop_token (rt_id token) self,
   if is_none_or stored (fun stored =>
        (rts_public_key stored !=? rt_public_key token)
        || (rts_revision stored !=? rt_revision token)
        || (rts_expires_at stored !=? rt_expires_at token)
        || (rts_impact stored !=? rt_impact token))
      || (as_revision (machine_snapshot self) !=? rt_revision token)
      || (raw now >? raw (rt_expires_at token))
   then Err invalid_removal
   else Ok (rt_public_key token)).

Definition cancel_removal_token (token : RemovalConfirmationToken) (self : AppCore)
  : AppCore * bool :=
  (drop_token (rt_id token) self,
   is_some (bt_get (rt_id token) (cs_removal_tokens (ac_state self)))).

(** [session.rs]: signing out twice is not an error. *)
Definition AppCore_sign_out : stm AppCore SafeError AppSnapshot := fun self =>
  if is_SignedOut (as_session (snapshot self)) then (self, Ok (snapshot self))
  else apply_transition SignOut self.

(** ** Runs of the core *)

Inductive CoreOp :=
| OTransition (t : StateTransition)
| OIssue (key : PublicKey) (now : UnixTimestamp)
| OConsume (token : RemovalConfirmationToken) (now : UnixTimestamp)
| OCancel (token : RemovalConfirmationToken).

Definition core_op (self : AppCore) (op : CoreOp) : AppCore :=
  match op with
  | OTransition t => (apply_transition t self).1
  | OIssue key now => (issue_removal_token key now self).1
  | OConsume token now => (consume_removal_token token now self).1
  | OCancel token => (cancel_removal_token token self).1
  end.
Definition core_run (ops : list CoreOp) (self : AppCore) : AppCore := foldl core_op self ops.

Abbreviation tokens c := (cs_removal_tokens (ac_state c)).
Abbreviation next_token c := (cs_next_removal_token (ac_state c)).

(** Token numbers are handed out in order and never twice; what is published is
    what the machine holds. *)
Definition core_ok (c : AppCore) : Prop :=
  bt_wf (tokens c) /\ (forall id st, bt_get id (tokens c) = Some st -> id < next_token c) /\
  machine_ok (cs_state_machine (ac_state c)) /\ snapshot c = machine_snapshot c.

Lemma core_ok_new relays : core_ok (AppCore_new relays).
Proof. split; [constructor|]. split; [done|]. split; [apply machine_ok_booting|done]. Qed.

(** What the operations do to the tokens, with the machine untouched by them. *)
Lemma apply_transition_tokens t c :
  tokens (apply_transition t c).1 = tokens c /\ next_token (apply_transition t c).1 = next_token c.
Proof. unfold apply_transition. by destruct (StateMachine_apply _ _ _) as [? []]. Qed.

Lemma issue_run key now c c' r :
  issue_removal_token key now c = (c', r) ->
  cs_state_machine (ac_state c') = cs_state_machine (ac_state c) /\ snapshot c' = snapshot c /\
  next_token c <= next_token c' /\
  match r with
  | Err _ => tokens c' = tokens c
  | Ok tok =>
      key ∈ public_key <$> as_identities (machine_snapshot c) /\
      rt_id tok = next_token c /\ next_token c' = next_token c + 1 /\ rt_public_key tok = key /\
      rt_revision tok = as_revision (machine_snapshot c) /\
      raw (rt_expires_at tok) = raw now + 300 /\
      ri_signs_out (rt_impact tok) = signs_out key (machine_snapshot c) /\
      tokens c' = bt_insert (rt_id tok) {| rts_public_key := key; rts_revision := rt_revision tok;
        rts_expires_at := rt_expires_at tok; rts_impact := rt_impact tok |} (tokens c)
  end.
Proof.
  unfold issue_removal_token, u64_checked_add. intros Hi.
  destruct (find _ _) as [i|] eqn:E; [|injection Hi as <- <-; split_and!; done || lia].
  destruct (_ <? _); [|injection Hi as <- <-; split_and!; done || lia].
  destruct (i64_checked_add _ _ ≫= _) as [t|] eqn:Et; injection Hi as <- <-; simpl;
    [|split_and!; done || lia].
  apply find_some in E as [E1 E2%bool_decide_eq_true].
  apply bind_Some in Et as (v & Ev & Et). apply check_value_Some in Et.
  unfold i64_checked_add in Ev. destruct (i64_range _); [|done]. injection Ev as <-.
  split_and!; try done; try lia. rewrite <- E2. apply list_elem_of_fmap. exists i.
  split; [done|]. by apply list_elem_of_In.
Qed.

Lemma core_op_ok c op : core_ok c -> core_ok (core_op c op).
Proof.
  intros (Hw & Hlt & Hm & Hp). destruct op as [t|key now|tok now|tok]; simpl.
  - destruct (apply_transition_tokens t c) as [Ht Hn]. unfold core_ok. rewrite Ht, Hn.
    split; [done|]. split; [done|]. unfold apply_transition.
    pose proof (apply_ok t (ac_relay_configuration c) _ Hm) as Hok.
    pose proof (transition_applied t (ac_relay_configuration c) _ Hm) as Hr.
    destruct (StateMachine_apply _ _ _) as [m' [s|e]]; simpl in *; split; try done.
    + destruct Hr as (_ & Hs & _). by unfold snapshot, machine_snapshot.
    + destruct Hr as (_ & Hs & _). unfold snapshot, machine_snapshot in *. simpl. by rewrite Hs.
  - destruct (issue_removal_token key now c) as [c' r] eqn:E. apply issue_run in E as (Hc & Hs & Hn & Hr).
    unfold core_ok, machine_snapshot. simpl. rewrite Hc, Hs. destruct r as [tok|e].
    + destruct Hr as (_ & Hid & Hn' & _ & _ & _ & _ & ->). split; [auto with hub|].
      split; [|done]. intros id st. rewrite bt_get_insert. case_decide as Ed; [lia|].
      intros Hg%Hlt. lia.
    + rewrite Hr. split; [done|]. split; [|done]. intros id st Hg%Hlt. lia.
  - split; [by apply bt_remove_wf|]. split; [|done]. simpl. intros id st. rewrite bt_get_remove by done.
    case_decide; [done|apply Hlt].
  - split; [by apply bt_remove_wf|]. split; [|done]. simpl. intros id st. rewrite bt_get_remove by done.
    case_decide; [done|apply Hlt].
Qed.

Lemma core_run_ok ops c : core_ok c -> core_ok (core_run ops c).
Proof.
  revert c. induction ops as [|op ops IH]; intros c Hc; simpl; [done|]. by apply IH, core_op_ok.
Qed.

(** [op] presents the token number [id], in whatever token. *)
Definition spends (id : Z) (op : CoreOp) : bool :=
  match op with OConsume tok _ | OCancel tok => rt_id tok ==? id | _ => false end.

Lemma core_op_token id c op :
  core_ok c -> id < next_token c ->
  bt_get id (tokens (core_op c op)) = (if spends id op then None else bt_get id (tokens c)) /\
  id < next_token (core_op c op).
Proof.
  intros (Hw & Hlt & _) Hid. destruct op as [t|key now|tok now|tok]; simpl.
  - destruct (apply_transition_tokens t c) as [-> ->]. done.
  - destruct (issue_removal_token key now c) as [c' r] eqn:E.
    apply issue_run in E as (_ & _ & Hn & Hr). simpl. split; [|lia]. destruct r as [tok|e]; [|by rewrite Hr].
    destruct Hr as (_ & Hi & _ & _ & _ & _ & _ & ->). rewrite bt_get_insert.
    case_decide; [lia|done].
  - rewrite bt_get_remove by done. case_decide; case_bool_decide; done.
  - rewrite bt_get_remove by done. case_decide; case_bool_decide; done.
Qed.

(** A token number already handed out keeps its entry until it is spent. *)
Lemma core_run_token id ops c :
  core_ok c -> id < next_token c ->
  bt_get id (tokens (core_run ops c)) =
    if existsb (spends id) ops then None else bt_get id (tokens c).
Proof.
  revert c. induction ops as [|op ops IH]; intros c Hc Hid; simpl; [done|].
  destruct (core_op_token id c op Hc Hid) as [Hg Hn].
  rewrite IH by (done || by apply core_op_ok). rewrite Hg.
  by destruct (spends id op), (existsb (spends id) ops).
Qed.

(** ** Claims *)

(** C37: a removal confirmation works once, for what was confirmed.  After any
    further operations, presenting the token issued for [key] is accepted exactly
    if the token was not presented or cancelled before, the application state
    still has the revision it was issued at, and no more than five minutes
    passed; presenting it spends it either way. *)
Theorem removal_token_once relays before key now c1 tok after now' :
  let c := core_run before (AppCore_new relays) in
  issue_removal_token key now c = (c1, Ok tok) ->
  let c2 := core_run after c1 in
  (forall key', (consume_removal_token tok now' c2).2 = Ok key' <->
     key' = key /\ existsb (spends (rt_id tok)) after = false /\
     as_revision (machine_snapshot c2) = as_revision (machine_snapshot c) /\
     raw now' <= raw now + 300) /\
  bt_get (rt_id tok) (tokens (consume_removal_token tok now' c2).1) = None.
Proof.
  intros c Hi c2. assert (core_ok c) as Hc by apply core_run_ok, core_ok_new.
  assert (core_ok c1) as Hc1.
  { pose proof (core_op_ok c (OIssue key now) Hc) as Ho. simpl in Ho. by rewrite Hi in Ho. }
  apply issue_run in Hi as (_ & _ & _ & Hr).
  destruct Hr as (_ & Hid & Hn & Hk & Hrev & Hexp & _ & Ht).
  pose proof (core_run_token (rt_id tok) after c1 Hc1 ltac:(lia)) as Hg.
  rewrite Ht, bt_get_insert, decide_True in Hg by done. fold c2 in Hg. split.
  - intros key'. simpl. rewrite Hg. destruct (existsb (spends (rt_id tok)) after); simpl.
    { split; [done|]. by intros (_ & ? & _). }
    rewrite guard_Ok, !orb_false_iff, !negb_false_iff, !bool_decide_eq_true, Z.ltb_ge, Hexp. subst key.
    rewrite Hrev. naive_solver.
  - simpl. rewrite bt_get_remove by apply (core_run_ok after c1 Hc1). by case_decide.
Qed.

(** The snapshot clients read is the machine's, and it is well formed,
    whatever operations the core ran. *)
Theorem published_is_current relays ops :
  let c := core_run ops (AppCore_new relays) in
  snapshot c = machine_snapshot c /\ snapshot_ok (snapshot c).
Proof.
  intros c. assert (core_ok c) as (_ & _ & (Hs & _) & Hp) by apply core_run_ok, core_ok_new.
  split; [done|]. by rewrite Hp.
Qed.
End Core.

(** ** Closed examples *)

#[local] Existing Instance sample_transport.

Definition sample_core_ops : list CoreOp :=
  [OTransition Bootstrap;
   OTransition (ReplaceRegistry [sample_identity 1; sample_identity 2] (Some (sample_key 1)))].
Definition sample_core : AppCore := core_run sample_core_ops (AppCore_new sample_relays).
Definition sample_issued := issue_removal_token (sample_key 2) (sample_time 10) sample_core.
Definition sample_token : RemovalConfirmationToken :=
  {| rt_id := 1; rt_public_key := sample_key 2; rt_revision := as_revision (machine_snapshot sample_core);
     rt_expires_at := sample_time 310;
     rt_impact := {| ri_deletes_local_credential := true; ri_signs_out := false |} |}.

Lemma removal_token_once_witness :
  (consume_removal_token sample_token (sample_time 310) sample_issued.1).2 = Ok (sample_key 2).
Proof.
  assert (issue_removal_token (sample_key 2) (sample_time 10) sample_core
    = (sample_issued.1, Ok sample_token)) as Hi by (vm_compute; reflexivity).
  apply (proj1 (removal_token_once sample_relays sample_core_ops (sample_key 2) (sample_time 10)
    sample_issued.1 sample_token [] (sample_time 310) Hi) (sample_key 2)).
  split; [reflexivity|]. split; [reflexivity|]. split; [apply raw_inj; vm_compute; reflexivity|].
  apply Z.leb_le. vm_compute. reflexivity.
Defined.
