(* ===== verification/Changes.v ===== *)
(** * The snapshot change stream

    [change_stream.rs]: every consumer gets a bounded queue and a cell holding
    the latest change.  Publishing never waits: a full queue loses the change,
    and the cell lets the consumer recover the last one.

    The queue and the cell are tokio's [mpsc] and [watch] channels, which are
    not part of the repository: they are the interface [Channels], stated with
    the behaviour their documentation gives.  Publisher and consumers run
    concurrently; the atomic steps are single channel operations. *)

From Stdlib Require Import Bool ZArith Lia Sorted.
From stdpp Require Import base decidable option list numbers gmap relations.
From S2P Require Import Prelude Containers Encoding Hub Reference Identity Profile Snapshot.

(** ** Channels *)

Inductive SendResult := Sent | SendFull | SendClosed.
Inductive RecvResult (A : Type) := Received (a : A) | RecvEmpty | RecvDisconnected.
Arguments Received {A} a.
Arguments RecvEmpty {A}.
Arguments RecvDisconnected {A}.

(** What a bounded queue holds: the items in order, and which ends are alive. *)
Record QueueView (A : Type) := {
  qv_items : list A;
  qv_capacity : nat;
  qv_sender : bool;
  qv_receiver : bool
}.
Arguments qv_items {A}.
Arguments qv_capacity {A}.
Arguments qv_sender {A}.
Arguments qv_receiver {A}.
Arguments Build_QueueView {A}.

Definition view_send {A} (a : A) (v : QueueView A) : QueueView A * SendResult :=
  if negb (qv_receiver v) then (v, SendClosed)
  else if (length (qv_items v) <? qv_capacity v)%nat
  then (Build_QueueView (qv_items v ++ [a]) (qv_capacity v) (qv_sender v) true, Sent)
  else (v, SendFull).

Definition view_recv {A} (v : QueueView A) : QueueView A * RecvResult A :=
  match qv_items v with
  | a :: items => (Build_QueueView items (qv_capacity v) (qv_sender v) (qv_receiver v), Received a)
  | [] => (v, if qv_sender v then RecvEmpty else RecvDisconnected)
  end.

Class Channels (A : Type) := {
  queue : Type;
  queue_view : queue -> QueueView A;
  queue_new : nat -> queue;
  try_send : A -> queue -> queue * SendResult;
  try_recv : queue -> queue * RecvResult A;
  (** One poll of the future [recv()]: [RecvEmpty] is pending. *)
  poll_recv : queue -> queue * RecvResult A;
  drop_sender : queue -> queue;
  drop_receiver : queue -> queue;
  queue_view_new n : queue_view (queue_new n) = Build_QueueView [] n true true;
  try_send_view a q :
    (queue_view (try_send a q).1, (try_send a q).2) = view_send a (queue_view q);
  try_recv_view q : (queue_view (try_recv q).1, (try_recv q).2) = view_recv (queue_view q);
  poll_recv_view q : (queue_view (poll_recv q).1, (poll_recv q).2) = view_recv (queue_view q);
  drop_sender_view q :
    queue_view (drop_sender q) =
    Build_QueueView (qv_items (queue_view q)) (qv_capacity (queue_view q)) false
      (qv_receiver (queue_view q));
  drop_receiver_view q :
    qv_sender (queue_view (drop_receiver q)) = qv_sender (queue_view q) /\
    qv_receiver (queue_view (drop_receiver q)) = false;
  (** [watch]: [send_replace] stores, [borrow] reads. *)
  cell : Type;
  cell_new : A -> cell;
  send_replace : A -> cell -> cell;
  borrow : cell -> A;
  borrow_new a : borrow (cell_new a) = a;
  borrow_replace a c : borrow (send_replace a c) = a
}.

(** [Sender::is_closed]: the receiver is gone. *)
Definition is_closed {A} `{Channels A} (q : queue) : bool := negb (qv_receiver (queue_view q)).

(** The interface can be implemented: queue and cell as plain values. *)
#[global] Program Instance value_channels A : Channels A := {|
  queue := QueueView A;
  queue_view v := v;
  queue_new n := Build_QueueView [] n true true;
  try_send := view_send;
  try_recv := view_recv;
  poll_recv := view_recv;
  drop_sender v := Build_QueueView (qv_items v) (qv_capacity v) false (qv_receiver v);
  drop_receiver v := Build_QueueView [] (qv_capacity v) (qv_sender v) false;
  cell := A;
  cell_new a := a;
  send_replace a _ := a;
  borrow a := a
|}.
Solve Obligations with (intros; simpl; try destruct (view_send _ _); try destruct (view_recv _); done).

Section Changes.
Context `{RelayTransport}.

(** ** Changes *)

Record SnapshotChange := {
  sc_snapshot : AppSnapshot;
  sc_previous_revision : option SnapshotRevision
}.

Definition recovers_gap_after (self : SnapshotChange) (observed : SnapshotRevision) : bool :=
  is_some_and (sc_previous_revision self) (fun previous => previous !=? observed).

Context `{Channels SnapshotChange}.

(** The two channels of one subscription; publisher and consumer share them. *)
Record Link := { lk_queue : queue; lk_latest : cell }.

(** ** The consumer

    [receive] is a loop with three points where it touches a channel.  [rx_at]
    is the next one, so that a step of [receiver_step] is one channel operation
    and what follows it up to the next; after a call returned, the next call
    starts at the top. *)

Inductive ReceivePoint := AtTryRecv | AtBorrow (queue_open : bool) | AtRecv.

Record SnapshotChangeReceiver := {
  rx_last_delivered_snapshot : option AppSnapshot;
  rx_at : ReceivePoint
}.

Definition deliver_newer (change : SnapshotChange) (last : option AppSnapshot)
  : option AppSnapshot * option SnapshotChange :=
  if is_some_and last (fun delivered => negb (is_newer_than (sc_snapshot change) delivered))
  then (last, None)
  else (Some (sc_snapshot change), Some change).

Inductive ReceiveResult :=
| Returned (change : option SnapshotChange)
| Continues
| Pending.

(** Hand over [change] if it is newer, else go on at [otherwise]. *)
Definition deliver (change : SnapshotChange) (last : option AppSnapshot) (otherwise : ReceivePoint)
  : SnapshotChangeReceiver * ReceiveResult :=
  match deliver_newer change last with
  | (last, Some change) =>
      ({| rx_last_delivered_snapshot := last; rx_at := AtTryRecv |}, Returned (Some change))
  | (last, None) => ({| rx_last_delivered_snapshot := last; rx_at := otherwise |}, Continues)
  end.

Definition receiver_step (link : Link) (rx : SnapshotChangeReceiver)
  : Link * (SnapshotChangeReceiver * ReceiveResult) :=
  let last := rx_last_delivered_snapshot rx in
  let at_point p := {| rx_last_delivered_snapshot := last; rx_at := p |} in
  match rx_at rx with
  | AtTryRecv =>
      let '(q, r) := try_recv (lk_queue link) in
      let link := {| lk_queue := q; lk_latest := lk_latest link |} in
      match r with
      | Received change => (link, deliver change last AtTryRecv)
      | RecvEmpty => (link, (at_point (AtBorrow true), Continues))
      | RecvDisconnected => (link, (at_point (AtBorrow false), Continues))
      end
  | AtBorrow queue_open =>
      let '(rx, r) := deliver (borrow (lk_latest link)) last AtRecv in
      match r with
      | Continues => if queue_open then (link, (rx, Continues))
                     else (link, (at_point AtTryRecv, Returned None))
      | _ => (link, (rx, r))
      end
  | AtRecv =>
      let '(q, r) := poll_recv (lk_queue link) in
      let link := {| lk_queue := q; lk_latest := lk_latest link |} in
      match r with
      | Received change => (link, deliver change last AtTryRecv)
      | RecvDisconnected => (link, (at_point AtTryRecv, Continues))
      | RecvEmpty => (link, (rx, Pending))
      end
  end.

(** [receive] polled without interference: [fuel] bounds the steps; [receive_fuel]
    is shown to be enough. *)
Fixpoint receive_loop (fuel : nat) (link : Link) (rx : SnapshotChangeReceiver)
  : option (Link * (SnapshotChangeReceiver * ReceiveResult)) :=
  match fuel with
  | O => None
  | S fuel =>
      match receiver_step link rx with
      | (link, (rx, Continues)) => receive_loop fuel link rx
      | finished => Some finished
      end
  end.
Definition receive_fuel (link : Link) : nat := length (qv_items (queue_view (lk_queue link))) + 4.
Definition receive (link : Link) (rx : SnapshotChangeReceiver)
  : option (Link * (SnapshotChangeReceiver * ReceiveResult)) :=
  receive_loop (receive_fuel link) link rx.

(** ** The publisher

    Links live in a store shared with the consumers; the link of a subscription
    is found under its number. *)

Record OrderedSnapshotChanges := {
  oc_latest : AppSnapshot;
  oc_next_subscription : Z;
  oc_subscribers : list (Z * unit);
  oc_closed : bool
}.

Definition OrderedSnapshotChanges_new (initial_snapshot : AppSnapshot) : OrderedSnapshotChanges :=
  {| oc_latest := initial_snapshot; oc_next_subscription := 1; oc_subscribers := [];
     oc_closed := false |}.

Record Stream := {
  st_changes : OrderedSnapshotChanges;
  st_links : gmap Z Link
}.

Definition drop_link_sender (links : gmap Z Link) (id : Z) : gmap Z Link :=
  alter (fun link => {| lk_queue := drop_sender (lk_queue link); lk_latest := lk_latest link |})
    id links.

Definition subscribe (capacity : nat) (self : Stream)
  : Stream * option (Z * SnapshotChangeReceiver) :=
  let c := st_changes self in
  if oc_closed c then (self, None)
  else
    let id := oc_next_subscription c in
    if id =? 0 then (self, None)
    else
      match u64_checked_add id 1 with
      | None => (self, None)
      | Some next =>
          let counted subscribers := {|
            oc_latest := oc_latest c; oc_next_subscription := next;
            oc_subscribers := subscribers; oc_closed := oc_closed c |} in
          let initial := {| sc_snapshot := oc_latest c; sc_previous_revision := None |} in
          match try_send initial (queue_new capacity) with
          | (q, Sent) =>
              ({| st_changes := counted (bt_insert id tt (oc_subscribers c));
                  st_links := <[id := {| lk_queue := q; lk_latest := cell_new initial |}]>
                                (st_links self) |},
               Some (id, {| rx_last_delivered_snapshot := None; rx_at := AtTryRecv |}))
          | (_, _) =>
              ({| st_changes := counted (oc_subscribers c); st_links := st_links self |}, None)
          end
      end.

Definition with_subscribers (c : OrderedSnapshotChanges) (subscribers : list (Z * unit))
  : OrderedSnapshotChanges := {|
  oc_latest := oc_latest c; oc_next_subscription := oc_next_subscription c;
  oc_subscribers := subscribers; oc_closed := oc_closed c |}.

Definition unsubscribe (id : Z) (self : Stream) : Stream * bool :=
  let c := st_changes self in
  let removed := is_some (bt_get id (oc_subscribers c)) in
  ({| st_changes := with_subscribers c (bt_remove id (oc_subscribers c));
      st_links := if removed then drop_link_sender (st_links self) id else st_links self |},
   removed).

(** [BTreeMap::retain] with a closure on the link of the entry: entries not kept
    are dropped, and with them their senders. *)
Fixpoint retain_links (keep : Link -> Link * bool) (links : gmap Z Link)
    (subscribers : list (Z * unit)) : gmap Z Link * list (Z * unit) :=
  match subscribers with
  | [] => (links, [])
  | (id, u) :: subscribers =>
      match links !! id with
      | None => retain_links keep links subscribers
      | Some link =>
          let '(link, kept) := keep link in
          let links := <[id := link]> links in
          let '(links, rest) :=
            retain_links keep (if kept then links else drop_link_sender links id) subscribers in
          (links, if kept then (id, u) :: rest else rest)
      end
  end.

(** The closure of the second [retain]: the cell first, then the queue. *)
Definition offer (change : SnapshotChange) (link : Link) : Link * bool :=
  let latest := send_replace change (lk_latest link) in
  match try_send change (lk_queue link) with
  | (q, SendClosed) => ({| lk_queue := q; lk_latest := latest |}, false)
  | (q, _) => ({| lk_queue := q; lk_latest := latest |}, true)
  end.

Definition publish (snapshot : AppSnapshot) (self : Stream) : Stream :=
  let '(links, subscribers) :=
    retain_links (fun link => (link, negb (is_closed (lk_queue link))))
      (st_links self) (oc_subscribers (st_changes self)) in
  let c := with_subscribers (st_changes self) subscribers in
  if oc_closed c || negb (is_newer_than snapshot (oc_latest c))
  then {| st_changes := c; st_links := links |}
  else
    let change := {| sc_snapshot := snapshot;
                     sc_previous_revision := Some (as_revision (oc_latest c)) |} in
    let '(links, subscribers) := retain_links (offer change) links subscribers in
    {| st_changes := {| oc_latest := sc_snapshot change;
                        oc_next_subscription := oc_next_subscription c;
                        oc_subscribers := subscribers;
                        oc_closed := oc_closed c |};
       st_links := links |}.

Definition close (self : Stream) : Stream :=
  let c := st_changes self in
  {| st_changes := {| oc_latest := oc_latest c; oc_next_subscription := oc_next_subscription c;
                      oc_subscribers := []; oc_closed := true |};
     st_links := foldl (fun links entry => drop_link_sender links entry.1) (st_links self)
                   (oc_subscribers c) |}.
End Changes.
