(* ===== verification/Delivery.v ===== *)
(** * Delivery of changes

    What consumers of [change_stream.rs] can rely on, for every interleaving of
    the channel operations of publisher and consumer: deliveries are newer and
    newer, the final change is never lost, and gaps are reported. *)

From Stdlib Require Import Bool ZArith Lia Sorted.
From stdpp Require Import base decidable option list numbers gmap relations sorting.
From S2P Require Import Prelude Containers Encoding Hub Reference Identity Profile Snapshot Changes.

Section Delivery.
Context `{RelayTransport} `{Channels SnapshotChange}.

Abbreviation items link := (qv_items (queue_view (lk_queue link))).
Abbreviation sender_alive link := (qv_sender (queue_view (lk_queue link))).
Abbreviation receiver_alive link := (qv_receiver (queue_view (lk_queue link))).
Abbreviation capacity link := (qv_capacity (queue_view (lk_queue link))).

(** ** One subscription under interleaving

    [ex_sending] is the change the publisher has stored in the cell and not yet
    offered to the queue; the two lists record what was stored and what
    [receive] returned, oldest first. *)

Record Exchange := {
  ex_link : Link;
  ex_rx : SnapshotChangeReceiver;
  ex_sending : option SnapshotChange;
  ex_published : list SnapshotChange;
  ex_delivered : list SnapshotChange
}.

Definition set_link (e : Exchange) (link : Link) (sending : option SnapshotChange) : Exchange :=
  {| ex_link := link; ex_rx := ex_rx e; ex_sending := sending;
     ex_published := ex_published e; ex_delivered := ex_delivered e |}.
Definition set_queue (link : Link) (q : queue) : Link :=
  {| lk_queue := q; lk_latest := lk_latest link |}.
Definition returned (r : ReceiveResult) : list SnapshotChange :=
  match r with Returned (Some change) => [change] | _ => [] end.

Inductive exchange_step : Exchange -> Exchange -> Prop :=
| step_replace e change :
    ex_sending e = None -> sender_alive (ex_link e) = true ->
    newer (sc_snapshot change) (sc_snapshot (borrow (lk_latest (ex_link e)))) ->
    sc_previous_revision change
      = Some (as_revision (sc_snapshot (borrow (lk_latest (ex_link e))))) ->
    exchange_step e
      {| ex_link := {| lk_queue := lk_queue (ex_link e);
                       lk_latest := send_replace change (lk_latest (ex_link e)) |};
         ex_rx := ex_rx e; ex_sending := Some change;
         ex_published := ex_published e ++ [change]; ex_delivered := ex_delivered e |}
| step_send e change q r :
    ex_sending e = Some change -> try_send change (lk_queue (ex_link e)) = (q, r) ->
    exchange_step e
      (set_link e (set_queue (ex_link e) (match r with SendClosed => drop_sender q | _ => q end)) None)
| step_drop_sender e :
    ex_sending e = None ->
    exchange_step e
      (set_link e (set_queue (ex_link e) (drop_sender (lk_queue (ex_link e)))) None)
| step_drop_receiver e :
    exchange_step e
      (set_link e (set_queue (ex_link e) (drop_receiver (lk_queue (ex_link e)))) (ex_sending e))
| step_cancel e :
    rx_at (ex_rx e) = AtRecv ->
    exchange_step e
      {| ex_link := ex_link e;
         ex_rx := {| rx_last_delivered_snapshot := rx_last_delivered_snapshot (ex_rx e);
                     rx_at := AtTryRecv |};
         ex_sending := ex_sending e; ex_published := ex_published e;
         ex_delivered := ex_delivered e |}
| step_receive e link rx r :
    receiver_alive (ex_link e) = true ->
    receiver_step (ex_link e) (ex_rx e) = (link, (rx, r)) ->
    exchange_step e
      {| ex_link := link; ex_rx := rx; ex_sending := ex_sending e;
         ex_published := ex_published e; ex_delivered := ex_delivered e ++ returned r |}.

(** The state [subscribe] leaves: the initial change queued and in the cell. *)
Definition fresh_exchange (capacity : nat) (initial : SnapshotChange) : Exchange :=
  {| ex_link := {| lk_queue := (try_send initial (queue_new capacity)).1;
                   lk_latest := cell_new initial |};
     ex_rx := {| rx_last_delivered_snapshot := None; rx_at := AtTryRecv |};
     ex_sending := None; ex_published := [initial]; ex_delivered := [] |}.

Definition exchange_reachable (e : Exchange) : Prop :=
  exists capacity initial, (0 < capacity)%nat /\ rtc exchange_step (fresh_exchange capacity initial) e.

(** ** The invariant *)

Definition older (a b : SnapshotChange) : Prop := newer (sc_snapshot b) (sc_snapshot a).
#[global] Instance older_trans : Transitive older.
Proof. intros a b c Hab Hbc. unfold older in *. by transitivity (sc_snapshot b). Qed.

(** Each change names the revision of the one stored before it. *)
Definition chained (l : list SnapshotChange) : Prop :=
  forall l1 a b l2, l = l1 ++ a :: b :: l2 ->
    sc_previous_revision b = Some (as_revision (sc_snapshot a)).

Definition current (e : Exchange) : SnapshotChange := borrow (lk_latest (ex_link e)).

Record exchange_ok (e : Exchange) : Prop := {
  ok_sorted : StronglySorted older (ex_published e);
  ok_chained : chained (ex_published e);
  ok_current : last (ex_published e) = Some (current e);
  ok_sending : forall c, ex_sending e = Some c -> c ∈ ex_published e;
  ok_queue :
    receiver_alive (ex_link e) = true ->
    (0 < capacity (ex_link e))%nat /\ Forall (fun c => c ∈ ex_published e) (items (ex_link e));
  ok_delivered_sorted : StronglySorted older (ex_delivered e);
  ok_delivered : Forall (fun c => c ∈ ex_published e) (ex_delivered e);
  ok_last : rx_last_delivered_snapshot (ex_rx e) = sc_snapshot <$> last (ex_delivered e);
  ok_dead : sender_alive (ex_link e) = false -> ex_sending e = None;
  ok_at :
    receiver_alive (ex_link e) = true ->
    match rx_at (ex_rx e) with
    | AtRecv =>
        rx_last_delivered_snapshot (ex_rx e) = Some (sc_snapshot (current e)) \/
        items (ex_link e) <> [] \/ is_Some (ex_sending e)
    | AtBorrow false => items (ex_link e) = [] /\ sender_alive (ex_link e) = false
    | _ => True
    end
}.

Lemma sorted_snoc (l : list SnapshotChange) a :
  StronglySorted older l -> (forall b, last l = Some b -> older b a) ->
  StronglySorted older (l ++ [a]).
Proof.
  induction 1 as [|b l Hl IH Hb]; intros Ha; simpl; [repeat constructor|].
  assert (StronglySorted older (l ++ [a])) as Hs.
  { apply IH. intros c Hc. apply Ha. by destruct l. }
  constructor; [done|]. apply Forall_app. split; [done|]. constructor; [|constructor].
  destruct (last l) as [c|] eqn:E.
  - transitivity c; [|apply Ha; by destruct l].
    rewrite list.Forall_forall in Hb. by apply Hb, last_Some_elem_of.
  - apply last_None in E as ->. by apply Ha.
Qed.

Lemma sorted_last (l : list SnapshotChange) a b :
  StronglySorted older l -> last l = Some b -> a ∈ l -> a = b \/ older a b.
Proof.
  induction 1 as [|c l Hl IH Hc]; [done|]. intros Hb Ha. apply elem_of_cons in Ha as [->|Ha].
  - destruct l as [|d l]; [left; simpl in Hb; congruence|right].
    rewrite list.Forall_forall in Hc. apply Hc, last_Some_elem_of. done.
  - apply IH; [|done]. by destruct l; [apply not_elem_of_nil in Ha|].
Qed.

Lemma chain_snoc l a b :
  chained l -> last l = Some a ->
  sc_previous_revision b = Some (as_revision (sc_snapshot a)) -> chained (l ++ [b]).
Proof.
  intros Hl Ha Hb l1 x y l2 E. destruct l2 as [|z l2 _] using rev_ind.
  - assert (l ++ [b] = (l1 ++ [x]) ++ [y]) as E' by by rewrite <- app_assoc.
    apply app_inj_tail in E' as [-> <-]. rewrite last_snoc in Ha. by injection Ha as <-.
  - assert (l ++ [b] = (l1 ++ x :: y :: l2) ++ [z]) as E' by (rewrite <- app_assoc; by simpl).
    apply app_inj_tail in E' as [-> <-]. by eapply Hl.
Qed.

(** Whatever was delivered and is not older than the cell is the cell. *)
Lemma delivered_is_current e d :
  exchange_ok e -> rx_last_delivered_snapshot (ex_rx e) = Some d ->
  ~ newer (sc_snapshot (current e)) d -> d = sc_snapshot (current e).
Proof.
  intros He Hd Hn. rewrite (ok_last e He) in Hd. apply fmap_Some in Hd as (x & Hx & ->).
  apply last_Some_elem_of in Hx. pose proof (ok_delivered e He) as Hp.
  rewrite list.Forall_forall in Hp. apply Hp in Hx.
  destruct (sorted_last _ _ _ (ok_sorted e He) (ok_current e He) Hx) as [->|Ho]; done.
Qed.

(** [deliver] hands over exactly the changes newer than the last one. *)
Lemma deliver_cases change lst p :
  (deliver change lst p =
     ({| rx_last_delivered_snapshot := Some (sc_snapshot change); rx_at := AtTryRecv |},
      Returned (Some change)) /\ forall d, lst = Some d -> newer (sc_snapshot change) d) \/
  (deliver change lst p = ({| rx_last_delivered_snapshot := lst; rx_at := p |}, Continues) /\
   exists d, lst = Some d /\ ~ newer (sc_snapshot change) d).
Proof.
  unfold deliver, deliver_newer, newer. destruct lst as [d|]; simpl; [|left; done].
  destruct (is_newer_than _ d) eqn:E; simpl.
  - left. split; [done|]. by intros ? [= <-].
  - right. split; [done|]. exists d. split; [done|]. by rewrite E.
Qed.

(** A delivery extends the delivered changes in order. *)
Lemma deliver_ok e change p rx r :
  exchange_ok e -> change ∈ ex_published e ->
  deliver change (rx_last_delivered_snapshot (ex_rx e)) p = (rx, r) ->
  StronglySorted older (ex_delivered e ++ returned r) /\
  Forall (fun c => c ∈ ex_published e) (ex_delivered e ++ returned r) /\
  rx_last_delivered_snapshot rx = sc_snapshot <$> last (ex_delivered e ++ returned r).
Proof.
  intros He Hc Hd. destruct (deliver_cases change (rx_last_delivered_snapshot (ex_rx e)) p)
    as [[E Hn]|[E _]]; rewrite E in Hd; injection Hd as <- <-; simpl.
  - split; [|split].
    + apply sorted_snoc; [apply He|]. intros b Hb. apply Hn. by rewrite (ok_last e He), Hb.
    + apply Forall_app. split; [apply He|]. by constructor.
    + by rewrite last_snoc.
  - rewrite app_nil_r. split; [apply He|]. split; apply He.
Qed.

(** What the queue operations do, read off the interface. *)
Lemma try_recv_cases q :
  match (try_recv q).2 with
  | Received c => exists l, qv_items (queue_view q) = c :: l /\
      queue_view (try_recv q).1 = Build_QueueView l (qv_capacity (queue_view q))
        (qv_sender (queue_view q)) (qv_receiver (queue_view q))
  | RecvEmpty => qv_items (queue_view q) = [] /\ qv_sender (queue_view q) = true /\
      queue_view (try_recv q).1 = queue_view q
  | RecvDisconnected => qv_items (queue_view q) = [] /\ qv_sender (queue_view q) = false /\
      queue_view (try_recv q).1 = queue_view q
  end.
Proof.
  pose proof (try_recv_view q) as Hv. unfold view_recv in Hv.
  destruct (qv_items (queue_view q)) as [|c l] eqn:E; injection Hv as -> ->; [|by exists l].
  by destruct (qv_sender (queue_view q)).
Qed.

Lemma poll_recv_same q :
  queue_view (poll_recv q).1 = queue_view (try_recv q).1 /\ (poll_recv q).2 = (try_recv q).2.
Proof.
  pose proof (try_recv_view q) as Hv. rewrite <- poll_recv_view in Hv. by injection Hv as -> ->.
Qed.

Lemma try_send_cases c q :
  let v := queue_view q in let v' := queue_view (try_send c q).1 in
  match (try_send c q).2 with
  | Sent => v' = Build_QueueView (qv_items v ++ [c]) (qv_capacity v) (qv_sender v) true /\
      qv_receiver v = true
  | SendFull => v' = v /\ qv_receiver v = true /\ (qv_capacity v <= length (qv_items v))%nat
  | SendClosed => v' = v /\ qv_receiver v = false
  end.
Proof.
  cbv zeta. pose proof (try_send_view c q) as Hv. unfold view_send in Hv.
  destruct (qv_receiver (queue_view q)) eqn:E; simpl in Hv; [|by injection Hv as -> ->].
  destruct (_ <? _)%nat eqn:F; injection Hv as -> ->; [done|]. apply Nat.ltb_ge in F. done.
Qed.

(** The publisher's steps. *)
Lemma step_replace_ok e change :
  exchange_ok e ->
  newer (sc_snapshot change) (sc_snapshot (current e)) ->
  sc_previous_revision change = Some (as_revision (sc_snapshot (current e))) ->
  sender_alive (ex_link e) = true ->
  exchange_ok
    {| ex_link := {| lk_queue := lk_queue (ex_link e);
                     lk_latest := send_replace change (lk_latest (ex_link e)) |};
       ex_rx := ex_rx e; ex_sending := Some change;
       ex_published := ex_published e ++ [change]; ex_delivered := ex_delivered e |}.
Proof.
  intros He Hn Hp Hal. pose proof (ok_current e He) as Hc.
  assert (forall l, Forall (fun c => c ∈ ex_published e) l ->
    Forall (fun c => c ∈ ex_published e ++ [change]) l) as Hw.
  { intros l Hl. eapply list.Forall_impl; [exact Hl|]. intros c Hin. apply elem_of_app. by left. }
  split; simpl.
  - apply sorted_snoc; [apply He|]. intros b Hb. rewrite Hc in Hb. by injection Hb as <-.
  - by eapply chain_snoc; [apply He|exact Hc|].
  - unfold current. simpl. by rewrite last_snoc, borrow_replace.
  - intros c [= <-]. apply elem_of_app. right. by left.
  - intros Hr. destruct (ok_queue e He Hr) as [? ?]. auto.
  - apply He.
  - apply Hw, He.
  - apply He.
  - congruence.
  - intros Hr. pose proof (ok_at e He Hr) as Ha. destruct (rx_at (ex_rx e)) as [|[]|]; try done.
    right. right. by eexists.
Qed.

Lemma step_send_ok e change q r :
  exchange_ok e -> ex_sending e = Some change -> try_send change (lk_queue (ex_link e)) = (q, r) ->
  exchange_ok (set_link e (set_queue (ex_link e)
    (match r with SendClosed => drop_sender q | _ => q end)) None).
Proof.
  intros He Hs Ht. pose proof (try_send_cases change (lk_queue (ex_link e))) as Hc.
  cbv zeta in Hc. rewrite Ht in Hc. simpl in Hc. pose proof (ok_sending e He _ Hs) as Hin.
  assert (sender_alive (ex_link e) = true) as Hal.
  { destruct (sender_alive (ex_link e)) eqn:E; [done|]. rewrite (ok_dead e He E) in Hs. done. }
  destruct r.
  - destruct Hc as [Hv Hr]. destruct (ok_queue e He Hr) as [Hcap Hit].
    split; simpl; try apply He; try done.
    + intros _. rewrite Hv. simpl. split; [done|]. apply Forall_app. split; [done|]. by constructor.
    + intros _. pose proof (ok_at e He Hr) as Ha. destruct (rx_at (ex_rx e)) as [|[]|]; try done.
      { destruct Ha as [_ Hd]. congruence. }
      right. left. rewrite Hv. simpl. by destruct (items (ex_link e)).
  - destruct Hc as (Hv & Hr & Hfull). destruct (ok_queue e He Hr) as [Hcap Hit].
    split; simpl; try apply He; try done.
    + intros _. rewrite Hv. done.
    + intros _. pose proof (ok_at e He Hr) as Ha. destruct (rx_at (ex_rx e)) as [|[]|]; try done.
      { destruct Ha as [_ Hd]. congruence. }
      right. left. rewrite Hv. intros E. rewrite E in Hfull. simpl in Hfull. lia.
  - destruct Hc as [Hv Hr].
    split; simpl; try apply He; try done; rewrite drop_sender_view, Hv; simpl; intros; congruence.
Qed.

Lemma step_drop_sender_ok e :
  exchange_ok e -> ex_sending e = None ->
  exchange_ok (set_link e (set_queue (ex_link e) (drop_sender (lk_queue (ex_link e)))) None).
Proof.
  intros He Hs. split; simpl; try apply He; try done; rewrite !drop_sender_view; simpl.
  - apply (ok_queue e He).
  - intros Hr. pose proof (ok_at e He Hr) as Ha. destruct (rx_at (ex_rx e)) as [|[]|]; try done.
    + naive_solver.
    + rewrite Hs in Ha. naive_solver.
Qed.

(** The consumer's step: how the state after it is assembled. *)
Lemma after_receive_ok e q rx r :
  exchange_ok e -> receiver_alive (ex_link e) = true ->
  capacity (ex_link e) = qv_capacity (queue_view q) ->
  sender_alive (ex_link e) = qv_sender (queue_view q) ->
  Forall (fun c => c ∈ ex_published e) (qv_items (queue_view q)) ->
  StronglySorted older (ex_delivered e ++ returned r) /\
  Forall (fun c => c ∈ ex_published e) (ex_delivered e ++ returned r) /\
  rx_last_delivered_snapshot rx = sc_snapshot <$> last (ex_delivered e ++ returned r) ->
  match rx_at rx with
  | AtRecv => rx_last_delivered_snapshot rx = Some (sc_snapshot (current e)) \/
              qv_items (queue_view q) <> [] \/ is_Some (ex_sending e)
  | AtBorrow false => qv_items (queue_view q) = [] /\ qv_sender (queue_view q) = false
  | _ => True
  end ->
  exchange_ok {| ex_link := set_queue (ex_link e) q; ex_rx := rx; ex_sending := ex_sending e;
    ex_published := ex_published e; ex_delivered := ex_delivered e ++ returned r |}.
Proof.
  intros He Hr H1 H2 H3 (H4 & H5 & H6) H7. destruct (ok_queue e He Hr) as [Hcap _].
  split; simpl; try apply He; try done.
  - intros _. by rewrite <- H1.
  - rewrite <- H2. apply He.
Qed.

(** Continuing without a delivery. *)
Lemma no_delivery_ok e p :
  exchange_ok e ->
  StronglySorted older (ex_delivered e ++ []) /\
  Forall (fun c => c ∈ ex_published e) (ex_delivered e ++ []) /\
  rx_last_delivered_snapshot {| rx_last_delivered_snapshot := rx_last_delivered_snapshot (ex_rx e);
    rx_at := p |} = sc_snapshot <$> last (ex_delivered e ++ []).
Proof. intros He. rewrite app_nil_r. split; [apply He|]. split; apply He. Qed.

Lemma deliver_at change lst p rx r :
  deliver change lst p = (rx, r) -> rx_at rx = AtTryRecv \/ rx_at rx = p /\ r = Continues.
Proof. destruct (deliver_cases change lst p) as [[-> _]|[-> _]]; intros [= <- <-]; auto. Qed.

(** Taking the head of the queue, from either point that does. *)
Lemma after_pop_ok e q c rx r :
  exchange_ok e -> receiver_alive (ex_link e) = true ->
  queue_view q = queue_view (try_recv (lk_queue (ex_link e))).1 ->
  (try_recv (lk_queue (ex_link e))).2 = Received c ->
  deliver c (rx_last_delivered_snapshot (ex_rx e)) AtTryRecv = (rx, r) ->
  exchange_ok {| ex_link := set_queue (ex_link e) q; ex_rx := rx; ex_sending := ex_sending e;
    ex_published := ex_published e; ex_delivered := ex_delivered e ++ returned r |}.
Proof.
  intros He Hr Hq Hc Hd. pose proof (try_recv_cases (lk_queue (ex_link e))) as Hv.
  rewrite Hc in Hv. destruct Hv as (l & Hi & Hv). rewrite Hv in Hq.
  destruct (ok_queue e He Hr) as [_ Hit]. rewrite Hi in Hit. apply list.Forall_cons in Hit as [Hin Hl].
  apply after_receive_ok; rewrite ?Hq; try done.
  - by eapply deliver_ok.
  - by destruct (deliver_at _ _ _ _ _ Hd) as [->|[-> _]].
Qed.

Lemma set_queue_same link : set_queue link (lk_queue link) = link.
Proof. by destruct link. Qed.

Lemma after_borrow_ok e open link rx r :
  exchange_ok e -> receiver_alive (ex_link e) = true -> rx_at (ex_rx e) = AtBorrow open ->
  receiver_step (ex_link e) (ex_rx e) = (link, (rx, r)) ->
  link = ex_link e /\
  (r = Continues \/ r = Returned None -> sc_snapshot <$> last (ex_delivered e) = Some (sc_snapshot (current e))) /\
  exchange_ok {| ex_link := link; ex_rx := rx; ex_sending := ex_sending e;
    ex_published := ex_published e; ex_delivered := ex_delivered e ++ returned r |}.
Proof.
  intros He Hr Hat Hstep. destruct (ok_queue e He Hr) as [_ Hit].
  unfold receiver_step in Hstep. rewrite Hat in Hstep.
  assert (current e ∈ ex_published e) as Hcur by apply last_Some_elem_of, He.
  pose proof (fun p rx r => deliver_ok e (current e) p rx r He Hcur) as Hd.
  destruct (deliver_cases (borrow (lk_latest (ex_link e))) (rx_last_delivered_snapshot (ex_rx e)) AtRecv)
    as [[E Hn]|[E (d & Hl & Hn)]]; rewrite E in Hstep.
  - injection Hstep as <- <- <-. split; [done|]. split; [naive_solver|].
    rewrite <- (set_queue_same (ex_link e)) at 1. apply after_receive_ok; try done. by eapply Hd.
  - assert (rx_last_delivered_snapshot (ex_rx e) = Some (sc_snapshot (current e))) as Hlc.
    { rewrite Hl. f_equal. by apply (delivered_is_current e). }
    assert (link = ex_link e) as -> by (destruct open; by injection Hstep as <- _ _).
    split; [done|]. split; [intros _; by rewrite <- (ok_last e He)|].
    rewrite <- (set_queue_same (ex_link e)) at 1.
    destruct open; injection Hstep as <- <-; apply after_receive_ok; try done;
      try (by apply no_delivery_ok); by left.
Qed.

Lemma step_receive_ok e link rx r :
  exchange_ok e -> receiver_alive (ex_link e) = true ->
  receiver_step (ex_link e) (ex_rx e) = (link, (rx, r)) ->
  exchange_ok
    {| ex_link := link; ex_rx := rx; ex_sending := ex_sending e;
       ex_published := ex_published e; ex_delivered := ex_delivered e ++ returned r |}.
Proof.
  intros He Hr Hstep. destruct (ok_queue e He Hr) as [Hcap Hit].
  pose proof (try_recv_cases (lk_queue (ex_link e))) as Hc.
  pose proof (poll_recv_same (lk_queue (ex_link e))) as [Hpv Hpr].
  destruct (rx_at (ex_rx e)) as [|open|] eqn:Eat.
  - unfold receiver_step in Hstep. rewrite Eat in Hstep.
    destruct (try_recv (lk_queue (ex_link e))) as [q [c| |]] eqn:E; simpl in *.
    + injection Hstep as <- Hd. apply (after_pop_ok e q c); rewrite ?E; done.
    + injection Hstep as <- <- <-. destruct Hc as (Hi & Hs & Hv).
      apply after_receive_ok; rewrite ?Hv; try done. by apply no_delivery_ok.
    + injection Hstep as <- <- <-. destruct Hc as (Hi & Hs & Hv).
      apply after_receive_ok; rewrite ?Hv; try done. by apply no_delivery_ok.
  - by eapply after_borrow_ok.
  - unfold receiver_step in Hstep. rewrite Eat in Hstep.
    destruct (poll_recv (lk_queue (ex_link e))) as [q [c| |]] eqn:E; simpl in *; rewrite <- Hpr in Hc.
    + injection Hstep as <- Hd. by apply (after_pop_ok e q c).
    + injection Hstep as <- <- <-. destruct Hc as (Hi & Hs & Hv). rewrite <- Hpv in Hv.
      apply after_receive_ok; rewrite ?Hv; try done.
      * simpl. rewrite app_nil_r. split; [apply He|]. split; apply He.
      * pose proof (ok_at e He Hr) as Ha. rewrite Eat in Ha. by rewrite Eat.
    + injection Hstep as <- <- <-. destruct Hc as (Hi & Hs & Hv). rewrite <- Hpv in Hv.
      apply after_receive_ok; rewrite ?Hv; try done. by apply no_delivery_ok.
Qed.

Lemma exchange_step_ok e e' : exchange_ok e -> exchange_step e e' -> exchange_ok e'.
Proof.
  intros He Hs. destruct Hs as [e c H1 H2 H3 H4|e c q r H1 H2|e H1|e|e H1|e link rx r H1 H2].
  - by apply step_replace_ok.
  - by eapply step_send_ok.
  - by apply step_drop_sender_ok.
  - destruct (drop_receiver_view (lk_queue (ex_link e))) as [Hsv Hrv].
    split; simpl; try apply He; rewrite ?Hsv, ?Hrv; try done; apply He.
  - split; simpl; try apply He; done.
  - by apply step_receive_ok.
Qed.

Lemma fresh_exchange_ok n initial : (0 < n)%nat -> exchange_ok (fresh_exchange n initial).
Proof.
  intros Hn. pose proof (try_send_view initial (queue_new n)) as Hv.
  rewrite queue_view_new in Hv. unfold view_send in Hv. simpl in Hv.
  rewrite (proj2 (Nat.ltb_lt 0 n) Hn) in Hv. injection Hv as Hv _.
  split; simpl; try done.
  - repeat constructor.
  - intros [|? [|? ?]] ? ? ?; done.
  - unfold current. simpl. by rewrite borrow_new.
  - rewrite Hv. simpl. intros _. split; [done|]. constructor; [by left|constructor].
  - constructor.
Qed.

Lemma exchange_reachable_ok e : exchange_reachable e -> exchange_ok e.
Proof.
  intros (n & initial & Hn & Hr). pose proof (fresh_exchange_ok n initial Hn) as H1.
  induction Hr as [|x y z Hxy _ IH]; [done|]. apply IH. by eapply exchange_step_ok.
Qed.

(** ** Polls terminate *)

(** Steps left before [receive] returns or waits. *)
Definition steps_left (link : Link) (at_ : ReceivePoint) : nat :=
  let n := length (items link) in
  match at_ with
  | AtTryRecv => if sender_alive link then n + 3 else n + 2
  | AtBorrow false => 1
  | AtBorrow true => if sender_alive link && (n =? 0)%nat then 2 else n + 4
  | AtRecv => if sender_alive link && (n =? 0)%nat then 1 else n + 3
  end.

Lemma receiver_step_continues link rx link' rx' :
  receiver_step link rx = (link', (rx', Continues)) ->
  (steps_left link' (rx_at rx') < steps_left link (rx_at rx))%nat.
Proof.
  unfold receiver_step. pose proof (try_recv_cases (lk_queue link)) as Hc.
  pose proof (poll_recv_same (lk_queue link)) as [Hpv Hpr].
  destruct (rx_at rx) as [|open|].
  - destruct (try_recv (lk_queue link)) as [q [c| |]]; simpl in Hc; intros Hs.
    + injection Hs as <- Hd. destruct Hc as (l & Hi & Hv).
      destruct (deliver_at _ _ _ _ _ Hd) as [->|[-> _]]; simpl; rewrite Hv, Hi; simpl;
        destruct (qv_sender _); lia.
    + injection Hs as <- <-. destruct Hc as (Hi & Hs & Hv). simpl. rewrite Hv, Hi, Hs. simpl. lia.
    + injection Hs as <- <-. destruct Hc as (Hi & Hs & Hv). simpl. rewrite Hi, Hs. simpl. lia.
  - destruct (deliver_cases (borrow (lk_latest link)) (rx_last_delivered_snapshot rx) AtRecv)
      as [[-> _]|[-> _]]; [done|]. destruct open; intros Hs; [|done]. injection Hs as <- <-. simpl.
    destruct (_ && _); lia.
  - destruct (poll_recv (lk_queue link)) as [q [c| |]]; simpl in Hpv, Hpr; rewrite <- Hpr in Hc;
      intros Hs.
    + injection Hs as <- Hd. destruct Hc as (l & Hi & Hv). rewrite <- Hpv in Hv.
      destruct (deliver_at _ _ _ _ _ Hd) as [->|[-> _]]; simpl; rewrite Hv, Hi; simpl;
        destruct (qv_sender _); simpl; lia.
    + done.
    + injection Hs as <- <-. destruct Hc as (Hi & Hs & Hv). rewrite <- Hpv in Hv. simpl.
      rewrite Hv, Hi, Hs. simpl. lia.
Qed.

Lemma steps_left_fuel link at_ : (steps_left link at_ <= receive_fuel link)%nat.
Proof.
  unfold steps_left, receive_fuel.
  destruct at_ as [|[]|]; try destruct (sender_alive link); try destruct (_ =? _)%nat; simpl; lia.
Qed.

Lemma receive_loop_enough fuel link rx :
  (steps_left link (rx_at rx) <= fuel)%nat ->
  exists link' rx' r, receive_loop fuel link rx = Some (link', (rx', r)) /\ r <> Continues.
Proof.
  revert link rx. induction fuel as [|fuel IH]; intros link rx Hf.
  - exfalso. unfold steps_left in Hf.
    destruct (rx_at rx) as [|[]|]; try destruct (sender_alive link); try destruct (_ =? _)%nat; simpl in Hf; lia.
  - simpl. destruct (receiver_step link rx) as [link' [rx' r]] eqn:E.
    destruct r; [by do 3 eexists| |by do 3 eexists].
    apply receiver_step_continues in E. apply IH. lia.
Qed.

(** A poll is a sequence of the consumer's steps. *)
Definition after_poll (e : Exchange) (link : Link) (rx : SnapshotChangeReceiver)
    (r : ReceiveResult) : Exchange :=
  {| ex_link := link; ex_rx := rx; ex_sending := ex_sending e;
     ex_published := ex_published e; ex_delivered := ex_delivered e ++ returned r |}.

Lemma receiver_step_alive link rx link' o :
  receiver_step link rx = (link', o) ->
  receiver_alive link' = receiver_alive link /\ lk_latest link' = lk_latest link /\
  (length (items link') <= length (items link))%nat /\ sender_alive link' = sender_alive link.
Proof.
  unfold receiver_step. pose proof (try_recv_cases (lk_queue link)) as Hc.
  pose proof (poll_recv_same (lk_queue link)) as [Hpv Hpr].
  destruct (rx_at rx) as [|open|].
  - destruct (try_recv (lk_queue link)) as [q [c| |]]; simpl in Hc; intros [= <- _]; simpl;
      [destruct Hc as (l & Hi & ->); rewrite Hi; simpl; split_and!; done || lia|
       destruct Hc as (_ & _ & ->); done..].
  - destruct (deliver _ _ _) as [rx' r]. intros Hs.
    assert (link' = link) as -> by (destruct r; [|destruct open|]; congruence). done.
  - destruct (poll_recv (lk_queue link)) as [q [c| |]]; simpl in Hpv, Hpr; rewrite <- Hpr in Hc;
      intros [= <- _]; simpl; rewrite Hpv;
      [destruct Hc as (l & Hi & ->); rewrite Hi; simpl; split_and!; done || lia|
       destruct Hc as (_ & _ & ->); done..].
Qed.

Lemma receiver_step_last link rx link' rx' :
  receiver_step link rx = (link', (rx', Continues)) ->
  rx_last_delivered_snapshot rx' = rx_last_delivered_snapshot rx.
Proof.
  assert (forall c lst p rx', deliver c lst p = (rx', Continues) ->
    rx_last_delivered_snapshot rx' = lst) as Hd.
  { intros c lst p rx0. by destruct (deliver_cases c lst p) as [[-> _]|[-> _]]; intros [= <-]. }
  unfold receiver_step. destruct (rx_at rx) as [|open|].
  - destruct (try_recv _) as [q [c| |]]; intros [= _ Hs]; [by eapply Hd|by subst..].
  - destruct (deliver _ _ _) as [rx1 [| |]] eqn:E; [done| |done]. destruct open; intros [= _ <-].
    by eapply Hd.
  - destruct (poll_recv _) as [q [c| |]]; intros [= _ Hs]; [by eapply Hd|by subst..].
Qed.

(** A poll goes through steps that deliver nothing to the one that ends it. *)
Lemma receive_loop_steps fuel e link' rx' r :
  receiver_alive (ex_link e) = true ->
  receive_loop fuel (ex_link e) (ex_rx e) = Some (link', (rx', r)) ->
  exists link rx, rtc exchange_step e (after_poll e link rx Continues) /\
    receiver_step link rx = (link', (rx', r)) /\ receiver_alive link = true /\
    lk_latest link = lk_latest (ex_link e) /\ (length (items link) <= length (items (ex_link e)))%nat /\
    rx_last_delivered_snapshot rx = rx_last_delivered_snapshot (ex_rx e).
Proof.
  revert e. induction fuel as [|fuel IH]; intros e Hal Hl; [done|]. simpl in Hl.
  destruct (receiver_step (ex_link e) (ex_rx e)) as [l1 [rx1 r1]] eqn:E.
  assert (e = after_poll e (ex_link e) (ex_rx e) Continues) as Ee.
  { unfold after_poll. simpl. rewrite app_nil_r. by destruct e. }
  destruct r1 as [c| |]; [|clear Ee|].
  1, 3: injection Hl as <- <- <-; exists (ex_link e), (ex_rx e); rewrite <- Ee; split_and!; done || apply rtc_refl.
  destruct (receiver_step_alive _ _ _ _ E) as (Ha1 & Hl1 & Hn1 & _).
  pose proof (receiver_step_last _ _ _ _ E) as Hlast.
  destruct (IH (after_poll e l1 rx1 Continues)) as (link & rx & H1 & H2 & H3 & H4 & H5 & H6);
    [simpl; congruence|done|]. simpl in *. exists link, rx.
  split_and!; try congruence; [|lia]. eapply rtc_l; [by apply step_receive, E|].
  unfold after_poll in *. simpl in *. by rewrite !app_nil_r in *.
Qed.

Lemma tail_run e link rx r :
  exchange_ok e -> receiver_alive (ex_link e) = true -> ex_sending e = None ->
  receiver_step (ex_link e) (ex_rx e) = (link, (rx, r)) -> r = Pending \/ r = Returned None ->
  sc_snapshot <$> last (ex_delivered e) = sc_snapshot <$> last (ex_published e).
Proof.
  intros He Hal Hs Hstep Hr. rewrite (ok_current e He). simpl.
  destruct (rx_at (ex_rx e)) as [|open|] eqn:Eat.
  - unfold receiver_step in Hstep. rewrite Eat in Hstep.
    destruct (try_recv _) as [q [c| |]]; [|naive_solver..].
    destruct (deliver_cases c (rx_last_delivered_snapshot (ex_rx e)) AtTryRecv) as [[E _]|[E _]];
      rewrite E in Hstep; naive_solver.
  - destruct (after_borrow_ok e open link rx r He Hal Eat Hstep) as (_ & Hd & _).
    destruct Hr as [->| ->]; [|apply Hd; by right]. exfalso. unfold receiver_step in Hstep.
    rewrite Eat in Hstep. destruct (deliver_cases (borrow (lk_latest (ex_link e)))
      (rx_last_delivered_snapshot (ex_rx e)) AtRecv) as [[E _]|[E _]]; rewrite E in Hstep; [done|].
    by destruct open.
  - unfold receiver_step in Hstep. rewrite Eat in Hstep.
    pose proof (try_recv_cases (lk_queue (ex_link e))) as Hc.
    pose proof (poll_recv_same (lk_queue (ex_link e))) as [Hpv Hpr].
    destruct (poll_recv _) as [q [c| |]]; simpl in Hpr; rewrite <- Hpr in Hc.
    + destruct (deliver_cases c (rx_last_delivered_snapshot (ex_rx e)) AtTryRecv) as [[E _]|[E _]];
        rewrite E in Hstep; naive_solver.
    + pose proof (ok_at e He Hal) as Ha. rewrite Eat in Ha. destruct Hc as (Hi & _).
      rewrite <- (ok_last e He). destruct Ha as [Ha|[Ha|Ha]]; [done|done|].
      rewrite Hs in Ha. by destruct Ha.
    + naive_solver.
Qed.

(** Consume until nothing is left to return. *)
Fixpoint drain (fuel : nat) (e : Exchange) : option Exchange :=
  match fuel with
  | O => None
  | S fuel =>
      match receive (ex_link e) (ex_rx e) with
      | None => None
      | Some (link, (rx, r)) =>
          let e := after_poll e link rx r in
          match r with Returned (Some _) => drain fuel e | _ => Some e end
      end
  end.

Definition behind (e : Exchange) : nat :=
  length (items (ex_link e)) +
  (if rx_last_delivered_snapshot (ex_rx e) ==? Some (sc_snapshot (current e)) then 0 else 1).

(** A step that delivers leaves less to deliver. *)
Lemma deliver_progress e link rx change :
  exchange_ok e -> receiver_alive (ex_link e) = true ->
  receiver_step (ex_link e) (ex_rx e) = (link, (rx, Returned (Some change))) ->
  (behind (after_poll e link rx (Returned (Some change))) < behind e)%nat.
Proof.
  intros He Hal Hs. unfold behind, current. simpl.
  destruct (receiver_step_alive _ _ _ _ Hs) as (_ & -> & Hle & _).
  assert (forall c p, c ∈ ex_published e ->
    deliver c (rx_last_delivered_snapshot (ex_rx e)) p = (rx, Returned (Some change)) ->
    rx_last_delivered_snapshot rx = Some (sc_snapshot c) /\
    rx_last_delivered_snapshot (ex_rx e) <> Some (sc_snapshot (current e))) as Hd.
  { intros c p Hc. destruct (deliver_cases c (rx_last_delivered_snapshot (ex_rx e)) p)
      as [[-> Hn]|[-> _]]; intros [= <- <-]. split; [done|]. intros E. apply Hn in E.
    destruct (sorted_last _ _ _ (ok_sorted e He) (ok_current e He) Hc) as [->|Ho].
    - by apply (irreflexivity newer (sc_snapshot (current e))).
    - apply (irreflexivity newer (sc_snapshot c)). by transitivity (sc_snapshot (current e)). }
  destruct (ok_queue e He Hal) as [_ Hit].
  pose proof (try_recv_cases (lk_queue (ex_link e))) as Hc.
  pose proof (poll_recv_same (lk_queue (ex_link e))) as [Hpv Hpr].
  unfold receiver_step in Hs. destruct (rx_at (ex_rx e)) as [|open|].
  - destruct (try_recv _) as [q [c| |]]; [|done..]. injection Hs as <- Hs. simpl in *.
    destruct Hc as (l & Hi & Hv). rewrite Hi in Hit. apply list.Forall_cons in Hit as [Hin _].
    destruct (Hd c AtTryRecv Hin Hs) as [_ Hne]. rewrite Hv, Hi. unfold current in Hne. simpl.
    rewrite (bool_decide_false (rx_last_delivered_snapshot (ex_rx e) = _)) by done.
    case_bool_decide; lia.
  - destruct (deliver_cases (borrow (lk_latest (ex_link e))) (rx_last_delivered_snapshot (ex_rx e)) AtRecv)
      as [[E _]|[E _]]; rewrite E in Hs; [|by destruct open].
    injection Hs as <- <- <-. destruct (Hd (current e) AtRecv) as [_ Hne];
      [by apply last_Some_elem_of, He|done|]. unfold current in Hne. simpl.
    rewrite bool_decide_true, (bool_decide_false (rx_last_delivered_snapshot (ex_rx e) = _)) by done. lia.
  - destruct (poll_recv _) as [q [c| |]]; [|done..]. injection Hs as <- Hs. simpl in *.
    rewrite <- Hpr in Hc. destruct Hc as (l & Hi & Hv). rewrite <- Hpv in Hv.
    rewrite Hi in Hit. apply list.Forall_cons in Hit as [Hin _].
    destruct (Hd c AtTryRecv Hin Hs) as [_ Hne]. rewrite Hv, Hi. unfold current in Hne. simpl.
    rewrite (bool_decide_false (rx_last_delivered_snapshot (ex_rx e) = _)) by done.
    case_bool_decide; lia.
Qed.

Lemma exchange_steps_ok e e' : exchange_ok e -> rtc exchange_step e e' -> exchange_ok e'.
Proof. intros He Hr. induction Hr as [|x y z Hxy _ IH]; [done|]. apply IH. by eapply exchange_step_ok. Qed.

Lemma drain_run fuel e :
  exchange_ok e -> receiver_alive (ex_link e) = true -> ex_sending e = None ->
  (behind e < fuel)%nat ->
  exists e', drain fuel e = Some e' /\ rtc exchange_step e e' /\
    sc_snapshot <$> last (ex_delivered e') = sc_snapshot <$> last (ex_published e).
Proof.
  revert e. induction fuel as [|fuel IH]; intros e He Hal Hs Hf; [lia|]. simpl.
  destruct (receive_loop_enough (receive_fuel (ex_link e)) (ex_link e) (ex_rx e))
    as (link' & rx' & r & Hrec & Hnc); [apply steps_left_fuel|].
  unfold receive. rewrite Hrec.
  destruct (receive_loop_steps _ _ _ _ _ Hal Hrec) as (link & rx & H1 & H2 & H3 & H4 & H5 & H6).
  set (e0 := after_poll e link rx Continues) in *.
  assert (exchange_ok e0) as He0 by (by eapply exchange_steps_ok).
  assert (after_poll e link' rx' r = after_poll e0 link' rx' r) as ->.
  { unfold e0, after_poll. simpl. by rewrite app_nil_r. }
  pose proof (step_receive e0 _ _ _ H3 H2) as Hstep. fold (after_poll e0 link' rx' r) in Hstep.
  assert (rtc exchange_step e (after_poll e0 link' rx' r)) as Hsteps by (by eapply rtc_r).
  destruct r as [[change|]| |]; [|eexists; split; [done|]; split; [done|]|done|eexists; split; [done|]; split; [done|]].
  - assert (behind e0 <= behind e)%nat as Hle.
    { unfold behind, current. simpl. rewrite H4, H6. lia. }
    pose proof (deliver_progress e0 _ _ _ He0 H3 H2) as Hlt.
    destruct (IH (after_poll e0 link' rx' (Returned (Some change)))) as (e' & Hd & Hr & Ht).
    + by eapply exchange_step_ok.
    + simpl. destruct (receiver_step_alive _ _ _ _ H2) as (-> & _). done.
    + done.
    + lia.
    + exists e'. split; [done|]. split; [by etrans|]. done.
  - simpl. rewrite app_nil_r. by apply (tail_run e0 link' rx' (Returned None)); auto.
  - simpl. rewrite app_nil_r. by apply (tail_run e0 link' rx' Pending); auto.
Qed.

(** ** Claims *)

(** C26: consumers see newer and newer snapshots.  In every interleaving of
    publications, queue overflows, cancelled calls and polls, what [receive]
    returns is a sequence of published changes, each newer than the one before. *)
Theorem deliveries_in_order e :
  exchange_reachable e ->
  StronglySorted older (ex_delivered e) /\ Forall (fun c => c ∈ ex_published e) (ex_delivered e).
Proof. intros He%exchange_reachable_ok. split; apply He. Qed.

(** C25: the tail is never lost.  Whenever no publication is in progress and a
    poll of [receive] waits for more or reports the end of the stream, the last
    delivered change is the last one published, however many the bounded queue
    dropped. *)
Theorem tail_not_lost e link rx r :
  exchange_reachable e -> receiver_alive (ex_link e) = true -> ex_sending e = None ->
  receiver_step (ex_link e) (ex_rx e) = (link, (rx, r)) -> r = Pending \/ r = Returned None ->
  sc_snapshot <$> last (ex_delivered e) = sc_snapshot <$> last (ex_published e).
Proof. intros He%exchange_reachable_ok. by apply tail_run. Qed.

(** Gaps are reported.  If a delivered change does not claim to recover from
    a gap after the one delivered before it, every publication in between had the
    revision already observed: only session replacements at that revision were
    skipped. *)
Theorem gaps_reported e l1 a b l2 x :
  exchange_reachable e -> ex_delivered e = l1 ++ a :: b :: l2 ->
  recovers_gap_after b (as_revision (sc_snapshot a)) = false ->
  x ∈ ex_published e -> older a x -> older x b ->
  as_revision (sc_snapshot x) = as_revision (sc_snapshot a).
Proof.
  intros He%exchange_reachable_ok Hd Hgap Hx Hax Hxb.
  pose proof (ok_delivered e He) as Hin. rewrite list.Forall_forall in Hin.
  assert (b ∈ ex_published e) as Hb.
  { apply Hin. rewrite Hd. apply elem_of_app. right. right. by left. }
  apply list_elem_of_split in Hb as (p1 & p2 & Hp).
  pose proof (ok_sorted e He) as Hs. pose proof (ok_chained e He) as Hch.
  assert (x ∈ p1) as Hx1.
  { rewrite Hp in Hx, Hs. apply elem_of_app in Hx as [Hx|Hx]; [done|exfalso].
    apply elem_of_cons in Hx as [->|Hx]; [by apply (irreflexivity newer (sc_snapshot b))|].
    apply StronglySorted_app in Hs as (_ & _ & Hs). inversion Hs as [|? ? _ Hf]; subst.
    rewrite list.Forall_forall in Hf. apply Hf in Hx. unfold older in *.
    apply (irreflexivity newer (sc_snapshot b)). by transitivity (sc_snapshot x). }
  destruct p1 as [|y p1 _] using rev_ind; [by apply not_elem_of_nil in Hx1|].
  rewrite <- app_assoc in Hp. simpl in Hp.
  unfold recovers_gap_after in Hgap. rewrite (Hch _ _ _ _ Hp) in Hgap. simpl in Hgap.
  apply negb_false_iff, bool_decide_eq_true in Hgap.
  rewrite Hp in Hs. assert (StronglySorted older (p1 ++ [y])) as Hs1.
  { change (y :: b :: p2) with ([y] ++ b :: p2) in Hs. rewrite app_assoc in Hs.
    by apply StronglySorted_app in Hs as (_ & ? & _). }
  destruct (sorted_last _ x y Hs1 (last_snoc _ _) Hx1) as [->|Hxy]; [done|].
  apply newer_iff in Hxy as [Hxy _], Hax as [Hax _]. apply raw_inj.
  apply (f_equal raw) in Hgap. lia.
Qed.

(** C40: a consumer that keeps receiving catches up.  With no publication in
    progress, at most one call per queued change and two more return the last
    change published and then wait; no call runs on without returning. *)
Theorem stream_drains e :
  exchange_reachable e -> receiver_alive (ex_link e) = true -> ex_sending e = None ->
  exists e', drain (length (items (ex_link e)) + 2) e = Some e' /\ rtc exchange_step e e' /\
    sc_snapshot <$> last (ex_delivered e') = sc_snapshot <$> last (ex_published e).
Proof.
  intros He%exchange_reachable_ok Hal Hs. apply drain_run; try done.
  unfold behind. case_bool_decide; lia.
Qed.

(** ** Scripted runs *)

Inductive Event := EvStore (snapshot : AppSnapshot) | EvSend | EvReceive.

Definition do_event (e : Exchange) (ev : Event) : option Exchange :=
  match ev with
  | EvStore snapshot =>
      if is_none (ex_sending e) && sender_alive (ex_link e)
         && is_newer_than snapshot (sc_snapshot (current e))
      then
        let change := {| sc_snapshot := snapshot;
                         sc_previous_revision := Some (as_revision (sc_snapshot (current e))) |} in
        Some {| ex_link := {| lk_queue := lk_queue (ex_link e);
                              lk_latest := send_replace change (lk_latest (ex_link e)) |};
                ex_rx := ex_rx e; ex_sending := Some change;
                ex_published := ex_published e ++ [change]; ex_delivered := ex_delivered e |}
      else None
  | EvSend =>
      match ex_sending e with
      | None => None
      | Some change =>
          let '(q, r) := try_send change (lk_queue (ex_link e)) in
          Some (set_link e (set_queue (ex_link e)
            (match r with SendClosed => drop_sender q | _ => q end)) None)
      end
  | EvReceive =>
      if receiver_alive (ex_link e)
      then let '(link, (rx, r)) := receiver_step (ex_link e) (ex_rx e) in
           Some (after_poll e link rx r)
      else None
  end.

Lemma do_event_step e ev e' : do_event e ev = Some e' -> exchange_step e e'.
Proof.
  destruct ev as [snapshot| |]; simpl.
  - destruct (_ && _) eqn:E; [|done]. intros [= <-]. rewrite !andb_true_iff in E.
    destruct E as [[E1 E2] E3]. apply step_replace; try done. by destruct (ex_sending e).
  - destruct (ex_sending e) as [c|] eqn:Es; [|done].
    destruct (try_send c (lk_queue (ex_link e))) as [q r] eqn:Et. intros [= <-]. by eapply step_send.
  - destruct (receiver_alive (ex_link e)) eqn:Ea; [|done].
    destruct (receiver_step _ _) as [link [rx r]] eqn:Er. intros [= <-]. by apply step_receive.
Qed.

Definition script (n : nat) (initial : SnapshotChange) (evs : list Event) : Exchange :=
  foldl (fun e ev => default e (do_event e ev)) (fresh_exchange n initial) evs.

Lemma script_reachable n initial evs : (0 < n)%nat -> exchange_reachable (script n initial evs).
Proof.
  intros Hn. exists n, initial. split; [done|]. unfold script.
  generalize (fresh_exchange n initial). induction evs as [|ev evs IH]; intros e; simpl; [done|].
  destruct (do_event e ev) as [e'|] eqn:E; simpl; [|done].
  eapply rtc_l; [by eapply do_event_step|done].
Qed.
End Delivery.

(** ** Closed examples *)

#[local] Existing Instance sample_transport.

(** Revision 7 with session replacements: of three publications the queue of one
    entry keeps the first. *)
Definition sample_generation (z : Z) : SessionGeneration :=
  default SessionGeneration_initial (check_value u64_range z).
Definition sample_snapshot (revision generation : Z) : AppSnapshot :=
  with_runtime_session
    (ready_of (sample_generation revision) RelayConfiguration_default [] None
       SessionState.SignedOut None None)
    {| rsb_incarnation := sample_hub; rsb_generation := sample_generation generation |}.
Definition sample_change (revision generation : Z) : SnapshotChange :=
  {| sc_snapshot := sample_snapshot revision generation; sc_previous_revision := None |}.
Definition sample_events : list Event :=
  [EvReceive; EvStore (sample_snapshot 7 1); EvSend; EvStore (sample_snapshot 7 2); EvSend;
   EvStore (sample_snapshot 7 3); EvSend; EvReceive; EvReceive; EvReceive].
Definition sample_exchange : Exchange := script 1 (sample_change 7 0) sample_events.
Definition sample_waiting : Exchange :=
  script 1 (sample_change 7 0) (sample_events ++ [EvReceive; EvReceive]).

Lemma sample_exchange_reachable : exchange_reachable sample_exchange.
Proof. apply script_reachable. lia. Qed.
Lemma sample_waiting_reachable : exchange_reachable sample_waiting.
Proof. apply script_reachable. lia. Qed.

Definition generations (l : list SnapshotChange) : list Z :=
  (fun c => from_option (fun b => raw (rsb_generation b)) 0 (as_runtime_session (sc_snapshot c))) <$> l.

Lemma deliveries_in_order_witness :
  generations (ex_delivered sample_exchange) = [0; 1; 3] /\
  StronglySorted older (ex_delivered sample_exchange).
Proof.
  split; [vm_compute; reflexivity|].
  exact (proj1 (deliveries_in_order sample_exchange sample_exchange_reachable)).
Defined.

Lemma step_parts {A B C} (x : A * (B * C)) r : x.2.2 = r -> x = (x.1, (x.2.1, r)).
Proof. destruct x as [? [? ?]]. by intros <-. Qed.
Lemma sample_waiting_pending :
  (receiver_step (ex_link sample_waiting) (ex_rx sample_waiting)).2.2 = Pending.
Proof. vm_compute. reflexivity. Qed.

Lemma tail_not_lost_witness :
  sc_snapshot <$> last (ex_delivered sample_waiting) = sc_snapshot <$> last (ex_published sample_waiting).
Proof.
  refine (tail_not_lost sample_waiting _ _ Pending sample_waiting_reachable _ _
    (step_parts _ _ sample_waiting_pending) (or_introl eq_refl)); vm_compute; reflexivity.
Defined.

Lemma gaps_reported_witness :
  as_revision (sample_snapshot 7 2) = as_revision (sample_snapshot 7 1).
Proof.
  pose (change g p := {| sc_snapshot := sample_snapshot 7 g;
    sc_previous_revision := Some (sample_generation p) |}).
  refine (gaps_reported sample_exchange [sample_change 7 0] (change 1 7) (change 3 7) [] (change 2 7)
    sample_exchange_reachable _ _ _ _ _); try (vm_compute; reflexivity).
  unfold sample_exchange. apply list_elem_of_lookup. exists 2%nat. vm_compute. reflexivity.
Defined.

Lemma stream_drains_witness :
  exists e', drain 2 sample_exchange = Some e' /\
    sc_snapshot <$> last (ex_delivered e') = Some (sample_snapshot 7 3).
Proof.
  destruct (stream_drains sample_exchange sample_exchange_reachable eq_refl eq_refl) as (e' & H1 & _ & H2).
  exists e'. split; [exact H1|]. rewrite H2. vm_compute. reflexivity.
Defined.
