(* ===== verification/Stream.v ===== *)
(** * The change stream as a whole

    Any number of subscriptions, publications and consumers of
    [change_stream.rs]: the publisher's methods drive every link through the
    steps of [Delivery], so each consumer has the guarantees shown there, and a
    registered consumer that keeps receiving arrives at the latest snapshot. *)

From Stdlib Require Import Bool ZArith Lia Sorted.
From stdpp Require Import base decidable option list numbers gmap relations sorting.
From S2P Require Import Prelude Containers Encoding Hub Reference Identity Profile Snapshot Changes Delivery.

Section Stream.
Context `{RelayTransport} `{Channels SnapshotChange}.

Abbreviation items link := (qv_items (queue_view (lk_queue link))).
Abbreviation sender_alive link := (qv_sender (queue_view (lk_queue link))).
Abbreviation receiver_alive link := (qv_receiver (queue_view (lk_queue link))).

(** ** [retain] *)

Definition drop_link (link : Link) : Link := set_queue link (drop_sender (lk_queue link)).
Definition kept_link (r : Link * bool) : Link := if r.2 then r.1 else drop_link r.1.

Lemma drop_link_sender_lookup links id id' :
  drop_link_sender links id !! id' = (if decide (id = id') then drop_link else (fun l => l)) <$> links !! id'.
Proof.
  unfold drop_link_sender. case_decide as E.
  - subst. rewrite lookup_alter_eq. done.
  - rewrite lookup_alter_ne by done. by destruct (links !! id').
Qed.

Lemma retain_links_spec keep subs links links' subs' :
  bt_wf subs -> retain_links keep links subs = (links', subs') ->
  (forall id, links' !! id =
     match bt_get id subs with Some _ => kept_link ∘ keep <$> links !! id | None => links !! id end) /\
  (forall id, bt_get id subs' =
     match bt_get id subs, links !! id with
     | Some u, Some link => if (keep link).2 then Some u else None
     | _, _ => None
     end) /\ subs' `sublist_of` subs.
Proof.
  intros Hw. revert links links' subs'. induction Hw as [|[k u] subs Hw IH Hk];
    intros links links' subs' Hr; simpl in Hr.
  { injection Hr as <- <-. done. }
  assert (forall id, bt_get id subs <> None -> k <> id) as Hne.
  { intros id Hid <-. destruct (bt_get k subs) as [v|] eqn:E; [|done].
    apply bt_get_elem_of in E; [|done]. rewrite list.Forall_forall in Hk.
    by apply (klt_irrefl k), (Hk (k, v)). }
  destruct (links !! k) as [link|] eqn:El.
  - destruct (keep link) as [l kept] eqn:Ek.
    destruct (retain_links keep _ subs) as [links1 subs1] eqn:Er.
    injection Hr as <- <-. apply IH in Er as (H1 & H2 & H3).
    assert (forall id, (if kept then <[k:=l]> links else drop_link_sender (<[k:=l]> links) k) !! id =
      if decide (k = id) then Some (kept_link (l, kept)) else links !! id) as Hl.
    { intros id. case_decide as E.
      - subst. destruct kept; [by rewrite lookup_insert_eq|].
        rewrite drop_link_sender_lookup, lookup_insert_eq, decide_True by done. done.
      - destruct kept; [by rewrite lookup_insert_ne|].
        rewrite drop_link_sender_lookup, lookup_insert_ne, decide_False by done.
        by destruct (links !! id). }
    split; [|split].
    + intros id. rewrite H1, Hl. simpl. case_bool_decide as E.
      * subst. rewrite decide_True by done. destruct (bt_get id subs) eqn:Eb; [by destruct (Hne id); rewrite ?Eb|].
        rewrite El. simpl. by rewrite Ek.
      * by rewrite decide_False.
    + intros id. simpl. case_bool_decide as E.
      * subst. rewrite El, Ek. simpl. destruct kept; simpl; [by rewrite bool_decide_true|].
        rewrite H2. destruct (bt_get id subs) eqn:Eb; [by destruct (Hne id); rewrite ?Eb|done].
      * rewrite <- (decide_False (P:=k = id) (A:=option Link) (Some (kept_link (l, kept))) (links !! id)), <- Hl by done.
        rewrite <- H2. destruct kept; simpl; [by rewrite bool_decide_false|done].
    + destruct kept; [by apply sublist_skip|by apply sublist_cons].
  - apply IH in Hr as (H1 & H2 & H3). split; [|split].
    + intros id. rewrite H1. simpl. case_bool_decide as E; [|done].
      subst. rewrite El. by destruct (bt_get id subs).
    + intros id. rewrite H2. simpl. case_bool_decide as E; [|done].
      subst. rewrite El. by destruct (bt_get id subs).
    + by apply sublist_cons.
Qed.

Lemma sublist_wf (l k : list (Z * unit)) : l `sublist_of` k -> bt_wf k -> bt_wf l.
Proof.
  unfold bt_wf, key_sorted. induction 1 as [|x l k Hlk IH|x l k Hlk IH]; intros Hw;
    [constructor|inversion Hw as [|? ? Hk Hf]; subst..]; [|by apply IH].
  constructor; [by apply IH|]. rewrite list.Forall_forall in Hf |- *. intros y Hy.
  apply Hf. by eapply elem_of_sublist.
Qed.

(** ** The publisher's invariant *)

Abbreviation subs s := (oc_subscribers (st_changes s)).
Abbreviation latest s := (oc_latest (st_changes s)).

Record stream_ok (s : Stream) : Prop := {
  so_wf : bt_wf (subs s);
  so_subscriber : forall id u, bt_get id (subs s) = Some u ->
    exists link, st_links s !! id = Some link /\ sender_alive link = true /\
      sc_snapshot (borrow (lk_latest link)) = latest s;
  so_link : forall id link, st_links s !! id = Some link ->
    id < oc_next_subscription (st_changes s) /\
    (bt_get id (subs s) = None -> sender_alive link = false);
  so_next : 1 <= oc_next_subscription (st_changes s) < 2 ^ 64;
  so_closed : oc_closed (st_changes s) = true -> subs s = []
}.

Lemma stream_ok_new initial :
  stream_ok {| st_changes := OrderedSnapshotChanges_new initial; st_links := ∅ |}.
Proof. split; simpl; try done; try constructor. Qed.

Lemma drop_link_alive link :
  sender_alive (drop_link link) = false /\ receiver_alive (drop_link link) = receiver_alive link /\
  lk_latest (drop_link link) = lk_latest link.
Proof. unfold drop_link. simpl. by rewrite drop_sender_view. Qed.

(** Subscribing allocates a link with the latest snapshot queued and in the cell,
    under a number no subscription had. *)
Lemma subscribe_run n s s' o :
  (0 < n)%nat -> stream_ok s -> subscribe n s = (s', o) ->
  stream_ok s' /\ latest s' = latest s /\
  match o with
  | None => s' = s /\
      (oc_closed (st_changes s) = true \/ oc_next_subscription (st_changes s) = 2 ^ 64 - 1)
  | Some (id, rx) =>
      st_links s !! id = None /\ rx = {| rx_last_delivered_snapshot := None; rx_at := AtTryRecv |} /\
      let e := fresh_exchange n {| sc_snapshot := latest s; sc_previous_revision := None |} in
      st_links s' = <[id := ex_link e]> (st_links s) /\ is_some (bt_get id (subs s')) = true
  end.
Proof.
  intros Hn Hs. pose proof (so_next s Hs) as Hnext. unfold subscribe.
  destruct (oc_closed (st_changes s)) eqn:Ec; [intros [= <- <-]; auto|].
  destruct (_ =? 0) eqn:E0; [apply Z.eqb_eq in E0; lia|].
  unfold u64_checked_add. destruct (_ <? _) eqn:E1; [|intros [= <- <-]; apply Z.ltb_ge in E1; split_and!; auto; right; lia].
  apply Z.ltb_lt in E1. set (id := oc_next_subscription (st_changes s)) in *.
  set (initial := {| sc_snapshot := latest s; sc_previous_revision := None |}).
  pose proof (try_send_view initial (queue_new n)) as Hv. rewrite queue_view_new in Hv.
  unfold view_send in Hv. simpl in Hv. rewrite (proj2 (Nat.ltb_lt 0 n) Hn) in Hv.
  assert (st_links s !! id = None) as Hfresh.
  { destruct (st_links s !! id) as [l|] eqn:E; [|done]. apply (so_link s Hs) in E as [E _].
    unfold id in E. lia. }
  destruct (try_send initial (queue_new n)) as [q r] eqn:Eq. simpl in Hv. injection Hv as Hv ->.
  intros [= <- <-]. simpl. split; [|split_and!; try done].
  - split; simpl.
    + apply bt_insert_wf, Hs.
    + intros id' u. rewrite bt_get_insert. case_decide as E.
      * subst id'. intros _. rewrite lookup_insert_eq. eexists. split; [done|]. simpl.
        by rewrite Hv, borrow_new.
      * intros Hg. apply (so_subscriber s Hs) in Hg as (l & Hl & ?). exists l.
        by rewrite lookup_insert_ne.
    + intros id' l Hl. rewrite bt_get_insert. destruct (decide (id = id')) as [<-|E].
      * rewrite lookup_insert_eq in Hl. split; [lia|done].
      * rewrite lookup_insert_ne in Hl by done. apply (so_link s Hs) in Hl as [? ?]. split; [lia|done].
    + lia.
    + congruence.
  - by rewrite Eq.
  - rewrite bt_get_insert. by rewrite decide_True.
Qed.

(** What a method does to a link, as steps of [Delivery]: whatever the consumer
    has received so far, the link moves on and [more] has been stored in it. *)
Definition exchange_of (link : Link) (rx : SnapshotChangeReceiver)
    (published delivered : list SnapshotChange) : Exchange :=
  {| ex_link := link; ex_rx := rx; ex_sending := None; ex_published := published;
     ex_delivered := delivered |}.
Definition link_moves (link link' : Link) (more : list SnapshotChange) : Prop :=
  forall rx published delivered,
    rtc exchange_step (exchange_of link rx published delivered)
      (exchange_of link' rx (published ++ more) delivered).

Lemma link_stays link : link_moves link link [].
Proof. intros rx published delivered. rewrite app_nil_r. apply rtc_refl. Qed.

Lemma link_drops link : link_moves link (drop_link link) [].
Proof.
  intros rx published delivered. rewrite app_nil_r. apply rtc_once.
  exact (step_drop_sender (exchange_of link rx published delivered) eq_refl).
Qed.

(** [offer] is the two publisher steps, the cell first. *)
Lemma link_offers link change :
  sender_alive link = true -> newer (sc_snapshot change) (sc_snapshot (borrow (lk_latest link))) ->
  sc_previous_revision change = Some (as_revision (sc_snapshot (borrow (lk_latest link)))) ->
  link_moves link (kept_link (offer change link)) [change] /\
  (offer change link).2 = receiver_alive link /\
  receiver_alive (offer change link).1 = receiver_alive link /\
  sender_alive (offer change link).1 = true /\
  borrow (lk_latest (offer change link).1) = change.
Proof.
  intros Hal Hn Hp. unfold offer. pose proof (try_send_cases change (lk_queue link)) as Hc.
  cbv zeta in Hc. destruct (try_send change (lk_queue link)) as [q r] eqn:Eq. simpl in Hc.
  assert (link_moves link
    {| lk_queue := match r with SendClosed => drop_sender q | _ => q end;
       lk_latest := send_replace change (lk_latest link) |} [change]) as Hm.
  { intros rx published delivered.
    eapply rtc_l; [by apply (step_replace (exchange_of link rx published delivered) change)|].
    eapply rtc_l; [|apply rtc_refl].
    by apply (step_send {| ex_link := {| lk_queue := lk_queue link;
        lk_latest := send_replace change (lk_latest link) |}; ex_rx := rx;
        ex_sending := Some change; ex_published := published ++ [change];
        ex_delivered := delivered |} change). }
  destruct r; simpl in *; unfold kept_link, drop_link, set_queue; simpl.
  - destruct Hc as [-> ->]. by rewrite borrow_replace.
  - destruct Hc as (-> & -> & _). by rewrite borrow_replace.
  - destruct Hc as [-> ->]. by rewrite borrow_replace.
Qed.

(** The two passes of [publish]. *)
Definition accepts (s : Stream) (snapshot : AppSnapshot) : bool :=
  negb (oc_closed (st_changes s)) && is_newer_than snapshot (latest s).
Definition change_of (s : Stream) (snapshot : AppSnapshot) : SnapshotChange :=
  {| sc_snapshot := snapshot; sc_previous_revision := Some (as_revision (latest s)) |}.

(** What [publish] stores in the link of [id]. *)
Definition stored (s : Stream) (snapshot : AppSnapshot) (id : Z) (link : Link)
  : list SnapshotChange :=
  if accepts s snapshot && is_some (bt_get id (subs s)) && receiver_alive link
  then [change_of s snapshot] else [].

Lemma kept_closed link :
  kept_link (link, negb (is_closed (lk_queue link))) = if receiver_alive link then link else drop_link link.
Proof. unfold kept_link, is_closed. simpl. by rewrite negb_involutive. Qed.

Lemma prune_run s links1 subs1 :
  stream_ok s ->
  retain_links (fun link => (link, negb (is_closed (lk_queue link)))) (st_links s) (subs s)
    = (links1, subs1) ->
  bt_wf subs1 /\
  (forall id, links1 !! id = match bt_get id (subs s) with
     | Some _ => (fun link => if receiver_alive link then link else drop_link link) <$> st_links s !! id
     | None => st_links s !! id end) /\
  (forall id, bt_get id subs1 = match bt_get id (subs s), st_links s !! id with
     | Some u, Some link => if receiver_alive link then Some u else None
     | _, _ => None end).
Proof.
  intros Hs Hr. pose proof (so_wf s Hs) as Hw. apply retain_links_spec in Hr as (H1 & H2 & H3); [|done].
  split; [by eapply sublist_wf|]. split; intros id; [rewrite H1|rewrite H2].
  - destruct (bt_get id (subs s)); [|done]. destruct (st_links s !! id); [|done]. simpl.
    f_equal. apply kept_closed.
  - destruct (bt_get id (subs s)); [|done]. destruct (st_links s !! id); [|done]. simpl.
    unfold is_closed. by rewrite negb_involutive.
Qed.

(** After the first pass only links with a living receiver are registered. *)
Lemma prune_ok s links1 subs1 :
  stream_ok s ->
  retain_links (fun link => (link, negb (is_closed (lk_queue link)))) (st_links s) (subs s)
    = (links1, subs1) ->
  stream_ok {| st_changes := with_subscribers (st_changes s) subs1; st_links := links1 |} /\
  (forall id, st_links s !! id = None -> links1 !! id = None) /\
  (forall id u link, bt_get id subs1 = Some u -> links1 !! id = Some link -> receiver_alive link = true) /\
  (forall id link, st_links s !! id = Some link ->
     exists link1, links1 !! id = Some link1 /\ receiver_alive link1 = receiver_alive link /\
       link_moves link link1 [] /\
       bt_get id subs1 = if receiver_alive link then bt_get id (subs s) else None).
Proof.
  intros Hs E1. apply prune_run in E1 as (Hw1 & Hl1 & Hs1); [|done].
  assert (forall id link, st_links s !! id = Some link ->
     exists link1, links1 !! id = Some link1 /\ receiver_alive link1 = receiver_alive link /\
       link_moves link link1 [] /\
       bt_get id subs1 = if receiver_alive link then bt_get id (subs s) else None) as Hmove.
  { intros id link El. rewrite Hl1, Hs1, El. destruct (bt_get id (subs s)) as [u|] eqn:Eg; simpl.
    - eexists. split; [done|]. destruct (receiver_alive link) eqn:Er.
      + split; [done|]. split; [apply link_stays|done].
      + split; [by rewrite (proj1 (proj2 (drop_link_alive link)))|]. split; [apply link_drops|done].
    - exists link. split; [done|]. split; [done|]. split; [apply link_stays|]. by destruct (receiver_alive link). }
  assert (forall id u, bt_get id subs1 = Some u -> exists link, st_links s !! id = Some link /\
    receiver_alive link = true /\ links1 !! id = Some link /\ bt_get id (subs s) = Some u) as Hsub.
  { intros id u Hg. rewrite Hs1 in Hg. rewrite Hl1. destruct (bt_get id (subs s)) as [v|]; [|done].
    destruct (st_links s !! id) as [link|]; [|done]. destruct (receiver_alive link) eqn:Er; [|done].
    exists link. simpl. by rewrite Er. }
  split; [|split; [|split]].
  - split; simpl; try apply Hs; try done.
    + intros id u Hg. apply Hsub in Hg as (link & El & Er & El1 & Hg).
      apply (so_subscriber s Hs) in Hg as (link' & El' & ?). rewrite El in El'. injection El' as <-. eauto.
    + intros id link1 El1. destruct (st_links s !! id) as [link|] eqn:El.
      * split; [by apply (so_link s Hs) in El as [? _]|]. intros Hg. rewrite Hl1, El in El1.
        rewrite Hs1, El in Hg. destruct (bt_get id (subs s)) as [u|] eqn:Eg.
        -- simpl in El1. injection El1 as <-. destruct (receiver_alive link); [done|]. apply drop_link_alive.
        -- injection El1 as <-. by apply (so_link s Hs id link El).
      * rewrite Hl1, El in El1. by destruct (bt_get id (subs s)).
    + intros Hc. apply (so_closed s Hs) in Hc. destruct subs1 as [|[id u] subs1]; [done|].
      specialize (Hs1 id). simpl in Hs1. rewrite bool_decide_true in Hs1 by done.
      rewrite Hc in Hs1. done.
  - intros id El. rewrite Hl1, El. by destruct (bt_get id (subs s)).
  - intros id u link Hg El. apply Hsub in Hg as (link' & _ & ? & El' & _). congruence.
  - done.
Qed.

(** The second pass: every registered link gets the change. *)
Lemma offer_ok s change links2 subs2 :
  stream_ok s -> oc_closed (st_changes s) = false ->
  (forall id u link, bt_get id (subs s) = Some u -> st_links s !! id = Some link -> receiver_alive link = true) ->
  newer (sc_snapshot change) (latest s) ->
  sc_previous_revision change = Some (as_revision (latest s)) ->
  retain_links (offer change) (st_links s) (subs s) = (links2, subs2) ->
  stream_ok {| st_changes := {| oc_latest := sc_snapshot change;
                 oc_next_subscription := oc_next_subscription (st_changes s);
                 oc_subscribers := subs2; oc_closed := false |}; st_links := links2 |} /\
  (forall id, st_links s !! id = None -> links2 !! id = None) /\
  (forall id link, st_links s !! id = Some link ->
     exists link2, links2 !! id = Some link2 /\ receiver_alive link2 = receiver_alive link /\
       link_moves link link2 (if is_some (bt_get id (subs s)) then [change] else []) /\
       bt_get id subs2 = bt_get id (subs s)).
Proof.
  intros Hs Hcl Hal Hn Hp Hr. pose proof (so_wf s Hs) as Hw.
  apply retain_links_spec in Hr as (Hl2 & Hs2 & Hsub); [|done].
  assert (forall id u, bt_get id (subs s) = Some u -> exists link, st_links s !! id = Some link /\
    receiver_alive link = true /\ links2 !! id = Some (offer change link).1 /\
    bt_get id subs2 = Some u /\ link_moves link (offer change link).1 [change] /\
    receiver_alive (offer change link).1 = true /\ sender_alive (offer change link).1 = true /\
    borrow (lk_latest (offer change link).1) = change) as Hreg.
  { intros id u Hg. destruct (so_subscriber s Hs id u Hg) as (link & El & Hse & Hcell).
    specialize (Hal id u link Hg El). exists link. rewrite <- Hcell in Hn, Hp.
    destruct (link_offers link change Hse Hn Hp) as (Hm & Hk & Hra & Hsa & Hb).
    unfold kept_link in Hm. rewrite Hl2, Hs2, Hg, El, Hk, Hal in *. simpl.
    unfold kept_link. rewrite Hk. split_and!; done. }
  split; [|split].
  - split; simpl; try apply Hs; try done.
    + by eapply sublist_wf.
    + intros id u Hg. rewrite Hs2 in Hg. destruct (bt_get id (subs s)) as [v|] eqn:Eg; [|done].
      destruct (Hreg id v Eg) as (link & El & _ & El2 & _ & _ & _ & Hse & Hb).
      exists (offer change link).1. by rewrite Hb.
    + intros id link2 El2. destruct (bt_get id (subs s)) as [v|] eqn:Eg.
      * destruct (Hreg id v Eg) as (link & El & _ & _ & Hg2 & _). rewrite Hg2.
        split; [by apply (so_link s Hs) in El as [? _]|done].
      * rewrite Hl2, Eg in El2. destruct (so_link s Hs id link2 El2) as [? Hd]. auto.
  - intros id El. rewrite Hl2, El. by destruct (bt_get id (subs s)).
  - intros id link El. destruct (bt_get id (subs s)) as [v|] eqn:Eg.
    + destruct (Hreg id v Eg) as (link' & El' & Hra & El2 & Hg2 & Hm & Hra2 & _).
      rewrite El in El'. injection El' as <-. exists (offer change link).1. simpl. by rewrite Hra.
    + exists link. rewrite Hl2, Hs2, Eg. simpl. split_and!; try done. apply link_stays.
Qed.

Lemma link_moves_trans l1 l2 l3 more1 more2 :
  link_moves l1 l2 more1 -> link_moves l2 l3 more2 -> link_moves l1 l3 (more1 ++ more2).
Proof. intros H1 H2 rx published delivered. rewrite app_assoc. etrans; [apply H1|apply H2]. Qed.

Lemma publish_run snapshot s :
  stream_ok s ->
  let s' := publish snapshot s in
  stream_ok s' /\ latest s' = (if accepts s snapshot then snapshot else latest s) /\
  (forall id, st_links s !! id = None -> st_links s' !! id = None) /\
  (forall id link, st_links s !! id = Some link ->
     exists link', st_links s' !! id = Some link' /\ receiver_alive link' = receiver_alive link /\
       link_moves link link' (stored s snapshot id link) /\
       (bt_get id (subs s') = if receiver_alive link then bt_get id (subs s) else None)).
Proof.
  intros Hs. cbv zeta. unfold publish.
  destruct (retain_links _ (st_links s) _) as [links1 subs1] eqn:E1.
  destruct (prune_ok s links1 subs1 Hs E1) as (Hok1 & Hnone1 & Hal1 & Hm1).
  unfold stored, accepts, change_of. simpl.
  destruct (oc_closed (st_changes s)) eqn:Ec; simpl; [done|].
  destruct (is_newer_than snapshot (latest s)) eqn:En; simpl; [|done].
  destruct (retain_links _ links1 _) as [links2 subs2] eqn:E2.
  destruct (offer_ok _ (change_of s snapshot) _ _ Hok1 Ec Hal1 En eq_refl E2) as (Hok2 & Hnone2 & Hm2). simpl in *.
  split; [done|]. split; [done|]. split; [auto|].
  intros id link El. destruct (Hm1 id link El) as (link1 & El1 & Hr1 & Hmv1 & Hg1).
  destruct (Hm2 id link1 El1) as (link2 & El2 & Hr2 & Hmv2 & Hg2).
  exists link2. split; [done|]. split; [congruence|]. split; [|congruence].
  replace (if is_some (bt_get id (subs s)) && receiver_alive link then _ else _)
    with ([] ++ (if is_some (bt_get id subs1) then [change_of s snapshot] else [])).
  { by eapply link_moves_trans. }
  simpl. rewrite Hg1. destruct (receiver_alive link); [by rewrite andb_true_r|by rewrite andb_false_r].
Qed.

Lemma unsubscribe_run id s s' removed :
  stream_ok s -> unsubscribe id s = (s', removed) ->
  stream_ok s' /\ latest s' = latest s /\ removed = is_some (bt_get id (subs s)) /\
  bt_get id (subs s') = None /\
  (forall id', st_links s !! id' = None -> st_links s' !! id' = None) /\
  (forall id' link, st_links s !! id' = Some link ->
     exists link', st_links s' !! id' = Some link' /\ receiver_alive link' = receiver_alive link /\
       link_moves link link' []).
Proof.
  intros Hs. pose proof (so_wf s Hs) as Hw. unfold unsubscribe. intros [= <- <-]. simpl.
  set (links := if is_some _ then _ else _).
  assert (forall id', links !! id' = (if decide (id = id' /\ is_some (bt_get id (subs s)) = true)
    then drop_link else (fun l => l)) <$> st_links s !! id') as Hl.
  { intros id'. unfold links. destruct (is_some (bt_get id (subs s))).
    - rewrite drop_link_sender_lookup. repeat case_decide; naive_solver.
    - rewrite decide_False by naive_solver. by destruct (st_links s !! id'). }
  split; [|split_and!; try done].
  - split; simpl; try apply Hs.
    + by apply bt_remove_wf.
    + intros id' u. rewrite bt_get_remove by done. destruct (decide (id = id')) as [E|E]; [by intros ?|]. intros Hg.
      apply (so_subscriber s Hs) in Hg as (link & El & ?). exists link.
      rewrite Hl, El, decide_False by naive_solver. done.
    + intros id' link' El. rewrite Hl in El. apply fmap_Some in El as (link & El & ->).
      destruct (so_link s Hs id' link El) as [Hlt Hd]. split; [done|].
      rewrite bt_get_remove by done. intros Hg.
      destruct (decide (id = id' /\ is_some (bt_get id (subs s)) = true)) as [E2|E2],
        (decide (id = id')) as [E1|E1].
      * apply drop_link_alive.
      * naive_solver.
      * subst id'. apply Hd. destruct (bt_get id (subs s)); [|done]. naive_solver.
      * by apply Hd.
    + intros Hc. by rewrite (so_closed s Hs Hc).
  - rewrite bt_get_remove by done. by rewrite decide_True.
  - intros id' El. by rewrite Hl, El.
  - intros id' link El. rewrite Hl, El. destruct (decide (_ /\ _)); simpl; eexists; (split; [done|]).
    + split; [by rewrite (proj1 (proj2 (drop_link_alive link)))|apply link_drops].
    + split; [done|apply link_stays].
Qed.

Lemma drop_all_lookup (l : list (Z * unit)) links id :
  NoDup l.*1 ->
  foldl (fun links entry => drop_link_sender links entry.1) links l !! id =
    (if decide (id ∈ l.*1) then drop_link else (fun l => l)) <$> links !! id.
Proof.
  revert links. induction l as [|[k u] l IH]; intros links Hd; csimpl.
  { by destruct (links !! id). }
  apply NoDup_cons in Hd as [Hk Hd]. rewrite IH by done. rewrite drop_link_sender_lookup.
  destruct (decide (k = id)) as [->|E].
  - rewrite decide_False by done. rewrite decide_True by (by left). by destruct (links !! id).
  - destruct (decide (id ∈ l.*1)).
    + rewrite decide_True by (by right). by destruct (links !! id).
    + rewrite decide_False by (by intros [|]%elem_of_cons). by destruct (links !! id).
Qed.

Lemma close_run s :
  stream_ok s ->
  let s' := close s in
  stream_ok s' /\ latest s' = latest s /\ subs s' = [] /\
  (forall id', st_links s !! id' = None -> st_links s' !! id' = None) /\
  (forall id' link, st_links s !! id' = Some link ->
     exists link', st_links s' !! id' = Some link' /\ receiver_alive link' = receiver_alive link /\
       link_moves link link' []).
Proof.
  intros Hs. cbv zeta. unfold close. simpl. pose proof (so_wf s Hs) as Hw.
  pose proof (fun links id => drop_all_lookup (subs s) links id (key_sorted_NoDup fst _ Hw)) as Hl.
  split; [|split_and!; try done].
  - split; simpl; try apply Hs; try done; try constructor.
    + rewrite Hl in H1. apply fmap_Some in H1 as (l0 & El & ->). by apply (so_link s Hs) in El as [? _].
    + intros _. rewrite Hl in H1. apply fmap_Some in H1 as (l0 & El & ->).
      case_decide as E; [apply drop_link_alive|]. apply (so_link s Hs id l0 El).
      destruct (bt_get id (subs s)) as [u|] eqn:Eg; [|done]. exfalso. apply E.
      apply bt_get_elem_of in Eg; [|done]. apply list_elem_of_fmap. by exists (id, u).
  - intros id' El. by rewrite Hl, El.
  - intros id' link El. rewrite Hl, El. case_decide; simpl; eexists; (split; [done|]).
    + split; [by rewrite (proj1 (proj2 (drop_link_alive link)))|apply link_drops].
    + split; [done|apply link_stays].
Qed.

(** ** Publisher and consumers together *)

(** A consumer, with what was stored for it and what it received. *)
Record Consumer := {
  co_rx : SnapshotChangeReceiver;
  co_published : list SnapshotChange;
  co_delivered : list SnapshotChange
}.
Record System := { sy_stream : Stream; sy_consumers : gmap Z Consumer }.

Definition set_stream_link (s : Stream) (id : Z) (link : Link) : Stream :=
  {| st_changes := st_changes s; st_links := <[id := link]> (st_links s) |}.

(** What [publish] stored for each consumer. *)
Definition note_publication (s : Stream) (snapshot : AppSnapshot) (consumers : gmap Z Consumer)
  : gmap Z Consumer :=
  map_imap (fun id co =>
    Some {| co_rx := co_rx co;
            co_published := co_published co ++
              from_option (stored s snapshot id) [] (st_links s !! id);
            co_delivered := co_delivered co |}) consumers.

Inductive system_step : System -> System -> Prop :=
| sys_subscribe y n s id rx :
    (0 < n)%nat -> subscribe n (sy_stream y) = (s, Some (id, rx)) ->
    system_step y {| sy_stream := s; sy_consumers := <[id := {|
      co_rx := rx; co_delivered := [];
      co_published := [{| sc_snapshot := latest (sy_stream y); sc_previous_revision := None |}] |}]>
      (sy_consumers y) |}
| sys_unsubscribe y id :
    system_step y {| sy_stream := (unsubscribe id (sy_stream y)).1; sy_consumers := sy_consumers y |}
| sys_publish y snapshot :
    system_step y {| sy_stream := publish snapshot (sy_stream y);
                     sy_consumers := note_publication (sy_stream y) snapshot (sy_consumers y) |}
| sys_close y :
    system_step y {| sy_stream := close (sy_stream y); sy_consumers := sy_consumers y |}
| sys_receive y id link co link' rx r :
    st_links (sy_stream y) !! id = Some link -> sy_consumers y !! id = Some co ->
    receiver_alive link = true -> receiver_step link (co_rx co) = (link', (rx, r)) ->
    system_step y {| sy_stream := set_stream_link (sy_stream y) id link';
                     sy_consumers := <[id := {| co_rx := rx; co_published := co_published co;
                       co_delivered := co_delivered co ++ returned r |}]> (sy_consumers y) |}
| sys_leave y id link :
    st_links (sy_stream y) !! id = Some link ->
    system_step y {| sy_stream := set_stream_link (sy_stream y) id
                       (set_queue link (drop_receiver (lk_queue link)));
                     sy_consumers := sy_consumers y |}.

Definition system_new (initial : AppSnapshot) : System :=
  {| sy_stream := {| st_changes := OrderedSnapshotChanges_new initial; st_links := ∅ |};
     sy_consumers := ∅ |}.

(** Every link is an exchange of [Delivery]. *)
Definition system_ok (y : System) : Prop :=
  stream_ok (sy_stream y) /\
  forall id link, st_links (sy_stream y) !! id = Some link ->
    exists co, sy_consumers y !! id = Some co /\
      exchange_reachable (exchange_of link (co_rx co) (co_published co) (co_delivered co)).

Lemma exchange_reachable_rtc e e' :
  exchange_reachable e -> rtc exchange_step e e' -> exchange_reachable e'.
Proof. intros (n & i & Hn & Hr) Hr'. exists n, i. split; [done|]. by etrans. Qed.

(** A consumer's step changes neither the cell nor the sender of its link. *)
Lemma set_link_ok s id link link' :
  stream_ok s -> st_links s !! id = Some link -> lk_latest link' = lk_latest link ->
  sender_alive link' = sender_alive link -> stream_ok (set_stream_link s id link').
Proof.
  intros Hs El Hc Ha. split; simpl; try apply Hs.
  - intros id' u Hg. apply (so_subscriber s Hs) in Hg as (l & El' & ?).
    destruct (decide (id = id')) as [<-|E]; [|exists l; by rewrite lookup_insert_ne].
    rewrite El in El'. injection El' as <-. exists link'. by rewrite lookup_insert_eq, Hc, Ha.
  - intros id' l El'. destruct (decide (id = id')) as [<-|E].
    + rewrite lookup_insert_eq in El'. injection El' as <-. rewrite Ha. by apply (so_link s Hs).
    + rewrite lookup_insert_ne in El' by done. by apply (so_link s Hs).
Qed.

(** The methods that move every link and store nothing. *)
Lemma quiet_method_ok y s' :
  system_ok y -> stream_ok s' ->
  (forall id, st_links (sy_stream y) !! id = None -> st_links s' !! id = None) ->
  (forall id link, st_links (sy_stream y) !! id = Some link ->
     exists link', st_links s' !! id = Some link' /\ receiver_alive link' = receiver_alive link /\
       link_moves link link' []) ->
  system_ok {| sy_stream := s'; sy_consumers := sy_consumers y |}.
Proof.
  intros [_ Hy] Hs' Hnone Hmove. split; [done|]. simpl. intros id link' El'.
  destruct (st_links (sy_stream y) !! id) as [link|] eqn:El; [|by rewrite (Hnone id El) in El'].
  destruct (Hmove id link El) as (l & El2 & _ & Hm). rewrite El' in El2. injection El2 as <-.
  destruct (Hy id link El) as (co & Hco & Hr). exists co. split; [done|].
  eapply exchange_reachable_rtc; [exact Hr|]. specialize (Hm (co_rx co) (co_published co) (co_delivered co)).
  by rewrite app_nil_r in Hm.
Qed.

Lemma publish_step_ok y snapshot :
  system_ok y ->
  system_ok {| sy_stream := publish snapshot (sy_stream y);
               sy_consumers := note_publication (sy_stream y) snapshot (sy_consumers y) |}.
Proof.
  intros [Hs Hy]. destruct (publish_run snapshot (sy_stream y) Hs) as (Hs' & _ & Hnone & Hmove).
  split; [done|]. simpl. intros id link' El'.
  destruct (st_links (sy_stream y) !! id) as [link|] eqn:El; [|by rewrite (Hnone id El) in El'].
  destruct (Hmove id link El) as (l & El2 & _ & Hm & _). rewrite El' in El2. injection El2 as <-.
  destruct (Hy id link El) as (co & Hco & Hr). unfold note_publication.
  rewrite map_lookup_imap, Hco. simpl. eexists. split; [done|]. simpl. rewrite El. simpl.
  eapply exchange_reachable_rtc; [exact Hr|]. apply Hm.
Qed.

Lemma system_step_ok y y' : system_ok y -> system_step y y' -> system_ok y'.
Proof.
  intros Hy Hstep. destruct Hstep as [y n s id rx Hn Hsub|y id|y snapshot|y|y id link co link' rx r El Hco Hal Hr|y id link El].
  - destruct Hy as [Hs Hy]. destruct (subscribe_run n _ _ _ Hn Hs Hsub) as (Hs' & _ & Hnone & -> & Hl & _).
    split; [done|]. simpl. intros id' link El. rewrite Hl in El.
    destruct (decide (id = id')) as [<-|E].
    + rewrite lookup_insert_eq in El. rewrite lookup_insert_eq. injection El as <-. eexists. split; [done|].
      exists n, {| sc_snapshot := latest (sy_stream y); sc_previous_revision := None |}.
      split; [done|]. apply rtc_refl.
    + rewrite lookup_insert_ne in El by done. rewrite lookup_insert_ne by done. by apply Hy.
  - destruct (unsubscribe id (sy_stream y)) as [s' b] eqn:E.
    destruct (unsubscribe_run _ _ _ _ (proj1 Hy) E) as (Hs' & _ & _ & _ & H1 & H2).
    by apply quiet_method_ok.
  - by apply publish_step_ok.
  - destruct (close_run _ (proj1 Hy)) as (Hs' & _ & _ & H1 & H2). by apply quiet_method_ok.
  - destruct Hy as [Hs Hy]. destruct (receiver_step_alive _ _ _ _ Hr) as (_ & Hc & _ & Ha).
    split; [by eapply set_link_ok|]. simpl. intros id' l El'.
    destruct (decide (id = id')) as [<-|E].
    + rewrite lookup_insert_eq in El'. rewrite lookup_insert_eq. injection El' as <-. eexists. split; [done|].
      destruct (Hy id link El) as (co' & Hco' & Hre). rewrite Hco in Hco'. injection Hco' as <-.
      eapply exchange_reachable_rtc; [exact Hre|]. apply rtc_once.
      exact (step_receive (exchange_of link (co_rx co) (co_published co) (co_delivered co)) _ _ _ Hal Hr).
    + rewrite lookup_insert_ne in El' by done. rewrite lookup_insert_ne by done. by apply Hy.
  - destruct Hy as [Hs Hy]. destruct (drop_receiver_view (lk_queue link)) as [Ha _].
    split; [by eapply set_link_ok|]. simpl. intros id' l El'.
    destruct (decide (id = id')) as [<-|E].
    + rewrite lookup_insert_eq in El'. injection El' as <-.
      destruct (Hy id link El) as (co & Hco & Hre). exists co. split; [done|].
      eapply exchange_reachable_rtc; [exact Hre|]. apply rtc_once.
      exact (step_drop_receiver (exchange_of link (co_rx co) (co_published co) (co_delivered co))).
    + rewrite lookup_insert_ne in El' by done. by apply Hy.
Qed.

Lemma system_reachable_ok initial y : rtc system_step (system_new initial) y -> system_ok y.
Proof.
  intros Hr. assert (system_ok (system_new initial)) as H1.
  { split; [apply stream_ok_new|]. simpl. intros id link El. by rewrite lookup_empty in El. }
  induction Hr as [|x z w Hxz _ IH]; [done|]. apply IH. by eapply system_step_ok.
Qed.

(** ** Claims *)

(** C20: the methods of the publisher implement the exchange of [Delivery] on
    every link at once.  In any state subscriptions, publications and consumers
    can reach, every consumer has been given its changes in order and never one
    older than another, and what its cell holds for a registered consumer is the
    latest snapshot accepted. *)
Theorem stream_refines_exchanges initial y id link :
  rtc system_step (system_new initial) y ->
  st_links (sy_stream y) !! id = Some link ->
  exists co, sy_consumers y !! id = Some co /\
    exchange_reachable (exchange_of link (co_rx co) (co_published co) (co_delivered co)) /\
    StronglySorted older (co_delivered co) /\
    (is_some (bt_get id (subs (sy_stream y))) = true ->
     sc_snapshot <$> last (co_published co) = Some (latest (sy_stream y))).
Proof.
  intros [Hs Hy]%system_reachable_ok El. destruct (Hy id link El) as (co & Hco & Hr).
  exists co. split; [done|]. split; [done|]. apply exchange_reachable_ok in Hr.
  split; [exact (ok_delivered_sorted _ Hr)|]. intros Hg.
  destruct (bt_get id (subs (sy_stream y))) as [u|] eqn:Eg; [|done].
  apply (so_subscriber _ Hs) in Eg as (l & El' & _ & Hc). rewrite El in El'. injection El' as <-.
  pose proof (ok_current _ Hr) as Hcur. simpl in Hcur. rewrite Hcur. simpl. by f_equal.
Qed.

(** C21: every registered consumer arrives at the latest snapshot.  Whatever was
    subscribed, published, dropped from full queues or received before, a
    registered consumer whose receiver lives and that keeps receiving returns the
    latest accepted snapshot after at most one call per queued change and two
    more, then waits. *)
Theorem consumers_catch_up initial y id link co :
  rtc system_step (system_new initial) y ->
  st_links (sy_stream y) !! id = Some link -> sy_consumers y !! id = Some co ->
  is_some (bt_get id (subs (sy_stream y))) = true -> receiver_alive link = true ->
  exists e, drain (length (items link) + 2)
      (exchange_of link (co_rx co) (co_published co) (co_delivered co)) = Some e /\
    sc_snapshot <$> last (ex_delivered e) = Some (latest (sy_stream y)).
Proof.
  intros [Hs Hy]%system_reachable_ok El Hco Hg Hal. destruct (Hy id link El) as (co' & Hco' & Hr).
  rewrite Hco in Hco'. injection Hco' as <-. apply exchange_reachable_ok in Hr.
  destruct (bt_get id (subs (sy_stream y))) as [u|] eqn:Eg; [|done].
  apply (so_subscriber _ Hs) in Eg as (l & El' & _ & Hc). rewrite El in El'. injection El' as <-.
  destruct (drain_run (length (items link) + 2) _ Hr Hal eq_refl) as (e & Hd & _ & Ht).
  { unfold behind. simpl. case_bool_decide; lia. }
  exists e. split; [done|]. rewrite Ht. simpl. pose proof (ok_current _ Hr) as Hcur. simpl in Hcur.
  rewrite Hcur. simpl. by f_equal.
Qed.
End Stream.

(** ** Closed examples *)

#[local] Existing Instance sample_transport.

(** One consumer with a queue of one entry; the second publication is dropped
    from the queue. *)
Definition sample_start : System := system_new (sample_snapshot 7 0).
Definition sample_subscribed := subscribe 1 (sy_stream sample_start).
Definition sample_rx : SnapshotChangeReceiver :=
  {| rx_last_delivered_snapshot := None; rx_at := AtTryRecv |}.
Definition sample_system1 : System :=
  {| sy_stream := sample_subscribed.1; sy_consumers := <[1 := {|
       co_rx := sample_rx; co_delivered := []; co_published := [sample_change 7 0] |}]> ∅ |}.
Definition publish_system (snapshot : AppSnapshot) (y : System) : System :=
  {| sy_stream := publish snapshot (sy_stream y);
     sy_consumers := note_publication (sy_stream y) snapshot (sy_consumers y) |}.
Definition sample_system : System :=
  publish_system (sample_snapshot 8 1) (publish_system (sample_snapshot 7 1) sample_system1).

Lemma sample_subscribed_Some : sample_subscribed.2 = Some (1, sample_rx).
Proof. vm_compute. reflexivity. Qed.
Lemma sample_system_reachable : rtc system_step (system_new (sample_snapshot 7 0)) sample_system.
Proof.
  eapply rtc_l; [apply (sys_subscribe sample_start 1 sample_subscribed.1 1 sample_rx); [lia|]|].
  - rewrite <- sample_subscribed_Some. apply surjective_pairing.
  - eapply rtc_l; [apply (sys_publish sample_system1 (sample_snapshot 7 1))|].
    eapply rtc_l; [apply (sys_publish _ (sample_snapshot 8 1))|apply rtc_refl].
Qed.
Lemma sample_link_alive :
  (fun link => qv_receiver (queue_view (lk_queue link))) <$> st_links (sy_stream sample_system) !! 1
  = Some true.
Proof. vm_compute. reflexivity. Qed.
Lemma sample_registered :
  is_some (bt_get 1 (oc_subscribers (st_changes (sy_stream sample_system)))) = true.
Proof. vm_compute. reflexivity. Qed.
Lemma sample_latest : oc_latest (st_changes (sy_stream sample_system)) = sample_snapshot 8 1.
Proof. vm_compute. reflexivity. Qed.

Lemma stream_refines_exchanges_witness :
  exists co, sy_consumers sample_system !! 1 = Some co /\
    sc_snapshot <$> last (co_published co) = Some (sample_snapshot 8 1).
Proof.
  pose proof sample_link_alive as Ha. apply fmap_Some in Ha as (link & El & _).
  destruct (stream_refines_exchanges (sample_snapshot 7 0) sample_system 1 link
    sample_system_reachable El) as (co & H1 & _ & _ & H2).
  exists co. split; [exact H1|]. rewrite (H2 sample_registered). exact (f_equal Some sample_latest).
Defined.

Lemma consumers_catch_up_witness :
  exists e, sc_snapshot <$> last (ex_delivered e) = Some (sample_snapshot 8 1).
Proof.
  pose proof sample_link_alive as Ha. apply fmap_Some in Ha as (link & El & Hal).
  destruct (sy_consumers sample_system !! 1) as [co|] eqn:Ec; [|vm_compute in Ec; discriminate].
  destruct (consumers_catch_up (sample_snapshot 7 0) sample_system 1 link co
    sample_system_reachable El Ec sample_registered (eq_sym Hal)) as (e & _ & H2).
  exists e. rewrite H2. exact (f_equal Some sample_latest).
Defined.
