(* ===== verification/Database.v ===== *)
(** * The state database

    The tables the storage crate keeps for identities and the transactions its
    repositories run on them: saved identities with their signer binding and the
    selected identity ([identities.rs]), the profile cache ([profiles.rs]) and the
    journal of durable operations ([journal.rs]), with the bounds of
    [contract.rs] and the data of the application's ports ([ports.rs]).

    A table is the ordered map of its rows by primary key, a transaction returns
    the state it commits or the error that rolls it back.  The foreign keys of
    the schema are part of [remove_identity]. *)

From Stdlib Require Import Bool ZArith Lia Strings.Byte Strings.String.
From stdpp Require Import base decidable option list numbers strings sorting sets relations.
From S2P Require Import Prelude Containers Encoding Hub Reference Identity Profile.

(** ** Ports *)

(** [DurableRequestId]: the canonical text of a caller-generated UUIDv7. *)
Abbreviation DurableRequestId := (list byte).

Definition invalid_request_id : SafeError :=
  SafeError_new SafeErrorCode.InvalidApplicationState "The request identifier is invalid.".

(** The [uuid] crate: version number and hyphenated lower-case text of a parsed
    identifier. *)
Class UuidFormat := { uuid_parse_str : list byte -> option (Z * list byte) }.

(** The byte allowed at each index of the canonical text. *)
Definition request_byte_ok (index : nat) (b : byte) : bool :=
  match index with
  | 8%nat | 13%nat | 18%nat | 23%nat => byte_val b =? 0x2D
  | 19%nat => (byte_val b =? 0x38) || (byte_val b =? 0x39) || (byte_val b =? 0x61)
              || (byte_val b =? 0x62)
  | _ => is_lower_hex b
  end.
Definition is_ascii (b : byte) : bool := byte_val b <? 0x80.

Definition DurableRequestId_parse `{UuidFormat} (value : list byte)
  : result DurableRequestId SafeError :=
  if negb (length value =? 36)%nat || negb (forallb is_ascii value)
     || existsb (fun p => negb (request_byte_ok p.1 p.2)) (imap pair value)
  then Err invalid_request_id
  else match uuid_parse_str value with
       | None => Err invalid_request_id
       | Some (version, hyphenated) =>
           if negb (version =? 7) || (hyphenated !=? value) then Err invalid_request_id
           else Ok value
       end.

Module DurableOperationKind.
Inductive DurableOperationKind := Create | Import | Repair | Remove.
#[global] Instance DurableOperationKind_eq_dec : EqDecision DurableOperationKind.
Proof. solve_decision. Defined.
End DurableOperationKind.
Abbreviation DurableOperationKind := DurableOperationKind.DurableOperationKind.

Module DurableOperationPhase.
Inductive DurableOperationPhase :=
| IntentRecorded
| CredentialWritten
| MetadataCommitted
| SelectionCommitted
| CompensationPending
| CredentialDeleted
| MetadataDeleted
| Finalized.
#[global] Instance DurableOperationPhase_eq_dec : EqDecision DurableOperationPhase.
Proof. solve_decision. Defined.
End DurableOperationPhase.
Abbreviation DurableOperationPhase := DurableOperationPhase.DurableOperationPhase.

Module DurableTerminalOutcome.
Inductive DurableTerminalOutcome := Completed | Cancelled | Failed.
#[global] Instance DurableTerminalOutcome_eq_dec : EqDecision DurableTerminalOutcome.
Proof. solve_decision. Defined.
End DurableTerminalOutcome.
Abbreviation DurableTerminalOutcome := DurableTerminalOutcome.DurableTerminalOutcome.

Module OperationDiagnostic.
Inductive OperationDiagnostic :=
| StorageUnavailable
| KeyringUnavailable
| CredentialMissing
| CompensationFailed
| Conflict
| Expired.
#[global] Instance OperationDiagnostic_eq_dec : EqDecision OperationDiagnostic.
Proof. solve_decision. Defined.
End OperationDiagnostic.
Abbreviation OperationDiagnostic := OperationDiagnostic.OperationDiagnostic.

Record OperationPriorState := {
  op_selected_identity : option PublicKey;
  op_binding_availability : option SignerAvailability
}.
#[global] Instance OperationPriorState_eq_dec : EqDecision OperationPriorState.
Proof. solve_decision. Defined.

Record DurableOperationReceipt := {
  dor_request_id : DurableRequestId;
  dor_identity : PublicKey;
  dor_outcome : DurableTerminalOutcome;
  dor_resulting_revision : option Z;
  dor_completed_at : UnixTimestamp
}.
#[global] Instance DurableOperationReceipt_eq_dec : EqDecision DurableOperationReceipt.
Proof. solve_decision. Defined.

Record DurableIdentityOperation := {
  dio_request_id : DurableRequestId;
  dio_kind : DurableOperationKind;
  dio_identity : PublicKey;
  dio_expected_revision : option Z;
  dio_phase : DurableOperationPhase;
  dio_prior : OperationPriorState;
  dio_updated_at : UnixTimestamp;
  dio_diagnostic : option OperationDiagnostic;
  dio_terminal : option DurableOperationReceipt
}.
#[global] Instance DurableIdentityOperation_eq_dec : EqDecision DurableIdentityOperation.
Proof. solve_decision. Defined.

Inductive DurableOperationStart :=
| Started (operation : DurableIdentityOperation)
| Existing (operation : DurableIdentityOperation).

Module ProfileRefreshStatus.
Inductive ProfileRefreshStatus := Success | Offline | InvalidData.
#[global] Instance ProfileRefreshStatus_eq_dec : EqDecision ProfileRefreshStatus.
Proof. solve_decision. Defined.
End ProfileRefreshStatus.
Abbreviation ProfileRefreshStatus := ProfileRefreshStatus.ProfileRefreshStatus.

Record CachedProfile := {
  cp_candidate : Kind0ProfileCandidate;
  cp_refreshed_at : UnixTimestamp;
  cp_refresh_status : ProfileRefreshStatus
}.
#[global] Instance CachedProfile_eq_dec : EqDecision CachedProfile.
Proof. solve_decision. Defined.

(** ** Tables *)

Definition HARVESTCIRCLE_IDENTITY_CAPACITY : nat := 256.
Definition HARVESTCIRCLE_UNFINISHED_DURABLE_OPERATION_CAPACITY : nat := Z.to_nat 1024.
Definition HARVESTCIRCLE_DURABLE_OPERATION_CAPACITY : nat := Z.to_nat 4096.
Definition HARVESTCIRCLE_DURABLE_OPERATION_CLEANUP_BATCH : nat := 256.
Definition HARVESTCIRCLE_TERMINAL_RECEIPT_RETENTION_SECONDS : Z := 7 * 24 * 60 * 60.
#[global] Arguments HARVESTCIRCLE_IDENTITY_CAPACITY : simpl never.
#[global] Arguments HARVESTCIRCLE_UNFINISHED_DURABLE_OPERATION_CAPACITY : simpl never.
#[global] Arguments HARVESTCIRCLE_DURABLE_OPERATION_CAPACITY : simpl never.
#[global] Arguments HARVESTCIRCLE_DURABLE_OPERATION_CLEANUP_BATCH : simpl never.

Definition storage_unavailable : SafeError :=
  SafeError_new SafeErrorCode.StorageUnavailable "The application state is unavailable.".
Definition corrupt_storage : SafeError :=
  SafeError_new SafeErrorCode.StorageCorrupt "The application state could not be verified.".
Definition unconfirmed_transaction_outcome : SafeError :=
  SafeError_new SafeErrorCode.PendingOperationRecoveryRequired
    "The storage transaction outcome must be reconciled.".
Definition saved_identity_exists : SafeError :=
  SafeError_new SafeErrorCode.IdentityAlreadyExists "That identity is already saved.".
Definition saved_identity_not_found : SafeError :=
  SafeError_new SafeErrorCode.IdentityNotFound "That identity is not saved.".
Definition identity_capacity_exhausted : SafeError :=
  SafeError_new SafeErrorCode.InvalidApplicationState "The saved identity capacity is exhausted.".
Definition durable_operation_conflict : SafeError :=
  SafeError_new SafeErrorCode.InvalidApplicationState
    "The durable operation conflicts with existing state.".
Definition operation_capacity_exhausted : SafeError :=
  SafeError_new SafeErrorCode.InvalidApplicationState
    "The unfinished operation capacity is exhausted.".

Record Database := {
  db_identities : list (PublicKey * NostrIdentity);
  db_selected : option PublicKey;
  db_profiles : list (PublicKey * CachedProfile);
  db_operations : list (DurableRequestId * DurableIdentityOperation)
}.
#[global] Instance Database_eq_dec : EqDecision Database.
Proof. solve_decision. Defined.

Definition Database_new : Database :=
  {| db_identities := []; db_selected := None; db_profiles := []; db_operations := [] |}.

(** A transaction commits a state with a value, or fails and changes nothing. *)
Definition transaction (A : Type) : Type := Database -> result (Database * A) SafeError.

Definition set_identities (identities : list (PublicKey * NostrIdentity)) (db : Database)
  : Database := {|
  db_identities := identities; db_selected := db_selected db;
  db_profiles := db_profiles db; db_operations := db_operations db |}.
Definition set_selected (selected : option PublicKey) (db : Database) : Database := {|
  db_identities := db_identities db; db_selected := selected;
  db_profiles := db_profiles db; db_operations := db_operations db |}.
Definition set_profiles (profiles : list (PublicKey * CachedProfile)) (db : Database)
  : Database := {|
  db_identities := db_identities db; db_selected := db_selected db;
  db_profiles := profiles; db_operations := db_operations db |}.
Definition set_operations (operations : list (DurableRequestId * DurableIdentityOperation))
    (db : Database) : Database := {|
  db_identities := db_identities db; db_selected := db_selected db;
  db_profiles := db_profiles db; db_operations := operations |}.

(** ** Identities *)

Definition identity_order (identity : NostrIdentity) : UnixTimestamp * PublicKey :=
  (ni_created_at identity, public_key identity).

Definition list_identities : transaction (list NostrIdentity) := fun db =>
  let rows := sort_by_key identity_order (bt_values (db_identities db)) in
  if (HARVESTCIRCLE_IDENTITY_CAPACITY <? length rows)%nat then Err corrupt_storage
  else Ok (db, rows).

Definition find_identity (key : PublicKey) : transaction (option NostrIdentity) := fun db =>
  Ok (db, bt_get key (db_identities db)).

(** Another row has the encoded form of the key: the column is unique. *)
Definition npub_taken (identity : NostrIdentity) (db : Database) : bool :=
  existsb (fun row => (row.1 !=? public_key identity)
                      && (nir_npub (ni_identity row.2) ==? nir_npub (ni_identity identity)))
    (db_identities db).

Definition insert_identity (identity : NostrIdentity) : transaction unit := fun db =>
  if is_some (bt_get (public_key identity) (db_identities db)) then Err saved_identity_exists
  else if (HARVESTCIRCLE_IDENTITY_CAPACITY <=? length (db_identities db))%nat
  then Err identity_capacity_exhausted
  else if npub_taken identity db then Err saved_identity_exists
  else Ok (set_identities (bt_insert (public_key identity) identity (db_identities db)) db, tt).

Definition update_identity (identity : NostrIdentity) : transaction unit := fun db =>
  if is_none (bt_get (public_key identity) (db_identities db)) then Err saved_identity_not_found
  else if npub_taken identity db then Err storage_unavailable
  else Ok (set_identities (bt_insert (public_key identity) identity (db_identities db)) db, tt).

(** The binding and the cached profile are deleted with the identity, a selection
    of it is cleared. *)
Definition remove_identity (key : PublicKey) : transaction unit := fun db =>
  if is_none (bt_get key (db_identities db)) then Err saved_identity_not_found
  else Ok ({| db_identities := bt_remove key (db_identities db);
              db_selected := if db_selected db ==? Some key then None else db_selected db;
              db_profiles := bt_remove key (db_profiles db);
              db_operations := db_operations db |}, tt).

Definition load_selected_identity : transaction (option PublicKey) := fun db =>
  Ok (db, db_selected db).

Definition save_selected_identity (key : option PublicKey) : transaction unit := fun db =>
  if is_some_and key (fun key => is_none (bt_get key (db_identities db)))
  then Err saved_identity_not_found
  else Ok (set_selected key db, tt).

(** ** Profile cache *)

Definition load_profile (key : PublicKey) : transaction (option CachedProfile) := fun db =>
  Ok (db, bt_get key (db_profiles db)).

(** How SQLite orders two BLOBs: [memcmp] of what they share, then the length. *)
Fixpoint memcmp (a b : list byte) : comparison :=
  match a, b with
  | x :: a, y :: b => match byte_val x ?= byte_val y with Eq => memcmp a b | order => order end
  | _, _ => Eq
  end.
Definition blob_lt (a b : list byte) : bool :=
  match memcmp a b with
  | Lt => true
  | Eq => (length a <? length b)%nat
  | Gt => false
  end.

(** The WHERE clause of the upsert, on the columns of the two rows. *)
Definition excluded_replaces (cached excluded : CachedProfile) : bool :=
  let event_created_at_unix_s row := raw (kp_created_at (cp_candidate row)) in
  let event_id row := raw (kp_event_id (cp_candidate row)) in
  (event_created_at_unix_s excluded >? event_created_at_unix_s cached)
  || ((event_created_at_unix_s excluded =? event_created_at_unix_s cached)
      && blob_lt (event_id excluded) (event_id cached)).

(** The upsert: on a conflict every column is taken from the new row, where the
    clause holds.  An author that is not saved violates the foreign key. *)
Definition save_profile (profile : CachedProfile) : transaction unit := fun db =>
  let author := kp_author (cp_candidate profile) in
  if is_none (bt_get author (db_identities db)) then Err storage_unavailable
  else match bt_get author (db_profiles db) with
       | Some cached =>
           if excluded_replaces cached profile
           then Ok (set_profiles (bt_insert author profile (db_profiles db)) db, tt)
           else Ok (db, tt)
       | None => Ok (set_profiles (bt_insert author profile (db_profiles db)) db, tt)
       end.

Definition record_refresh_status (key : PublicKey) (refreshed_at : UnixTimestamp)
    (status : ProfileRefreshStatus) : transaction unit := fun db =>
  match bt_get key (db_profiles db) with
  | Some cached =>
      Ok (set_profiles (bt_insert key {| cp_candidate := cp_candidate cached;
                                         cp_refreshed_at := refreshed_at;
                                         cp_refresh_status := status |} (db_profiles db)) db, tt)
  | None => Ok (db, tt)
  end.

Definition remove_profile (key : PublicKey) : transaction unit := fun db =>
  Ok (set_profiles (bt_remove key (db_profiles db)) db, tt).

(** ** Journal of durable operations *)

Definition i64_try_from (value : Z) : option Z := if i64_range value then Some value else None.

Definition encode_revision (value : option Z) : result (option Z) SafeError :=
  transpose_map (fun v => ok_or (i64_try_from v) durable_operation_conflict) value.

Definition is_unfinished (operation : DurableIdentityOperation) : bool :=
  is_none (dio_terminal operation).
Definition unfinished (operations : list (DurableRequestId * DurableIdentityOperation))
  : list DurableIdentityOperation :=
  filter (fun operation => is_unfinished operation) (bt_values operations).

(** [i64::saturating_sub]. *)
Definition i64_saturating_sub (a b : Z) : Z := Z.max (- 2 ^ 63) (Z.min (2 ^ 63 - 1) (a - b)).

Definition completed_before (cutoff : Z) (operation : DurableIdentityOperation) : bool :=
  is_some_and (dio_terminal operation) (fun receipt => raw (dor_completed_at receipt) <? cutoff).
Definition receipt_order (row : DurableRequestId * DurableIdentityOperation)
  : Z * DurableRequestId :=
  (default 0 ((fun receipt => raw (dor_completed_at receipt)) <$> dio_terminal row.2), row.1).

(** The oldest expired receipts, at most a batch of them, are deleted. *)
Definition cleanup_expired_terminal_receipts (now : UnixTimestamp) (db : Database) : Database :=
  let cutoff := i64_saturating_sub (raw now) HARVESTCIRCLE_TERMINAL_RECEIPT_RETENTION_SECONDS in
  let expired := filter (fun row : DurableRequestId * DurableIdentityOperation =>
                           completed_before cutoff row.2) (db_operations db) in
  let batch := take HARVESTCIRCLE_DURABLE_OPERATION_CLEANUP_BATCH
                 (sort_by_key receipt_order expired) in
  set_operations (foldr bt_remove (db_operations db) batch.*1) db.

Definition begin_durable_operation (request_id : DurableRequestId) (kind : DurableOperationKind)
    (identity : PublicKey) (expected_revision : option Z) (prior : OperationPriorState)
    (updated_at : UnixTimestamp) : transaction DurableOperationStart := fun db =>
  let? expected_revision := encode_revision expected_revision in
  match bt_get request_id (db_operations db) with
  | Some operation =>
      if (dio_kind operation !=? kind) || (dio_identity operation !=? identity)
         || (dio_expected_revision operation !=? expected_revision)
         || (dio_prior operation !=? prior)
      then Err durable_operation_conflict
      else Ok (db, Existing operation)
  | None =>
      let db := cleanup_expired_terminal_receipts updated_at db in
      if (HARVESTCIRCLE_UNFINISHED_DURABLE_OPERATION_CAPACITY
            <=? length (unfinished (db_operations db)))%nat
      then Err operation_capacity_exhausted
      else if (HARVESTCIRCLE_DURABLE_OPERATION_CAPACITY <=? length (db_operations db))%nat
      then Err operation_capacity_exhausted
      else
        let operation := {|
          dio_request_id := request_id; dio_kind := kind; dio_identity := identity;
          dio_expected_revision := expected_revision;
          dio_phase := DurableOperationPhase.IntentRecorded; dio_prior := prior;
          dio_updated_at := updated_at; dio_diagnostic := None; dio_terminal := None |} in
        Ok (set_operations (bt_insert request_id operation (db_operations db)) db, Started operation)
  end.

Definition load_durable_operation (request_id : DurableRequestId)
  : transaction (option DurableIdentityOperation) := fun db =>
  Ok (db, bt_get request_id (db_operations db)).

(** The row an update matches: its request, at the expected phase, unfinished. *)
Definition at_phase (request_id : DurableRequestId) (expected : DurableOperationPhase)
    (db : Database) : option DurableIdentityOperation :=
  match bt_get request_id (db_operations db) with
  | Some operation =>
      if (dio_phase operation ==? expected) && is_unfinished operation then Some operation else None
  | None => None
  end.

(** The update guard of the table refuses a finalized row without a receipt. *)
Definition advance_durable_operation (request_id : DurableRequestId)
    (expected_phase next_phase : DurableOperationPhase) (updated_at : UnixTimestamp)
    (diagnostic : option OperationDiagnostic) : transaction DurableIdentityOperation := fun db =>
  match at_phase request_id expected_phase db with
  | None => Err durable_operation_conflict
  | Some operation =>
      if next_phase ==? DurableOperationPhase.Finalized then Err storage_unavailable
      else
        let next := {|
          dio_request_id := dio_request_id operation; dio_kind := dio_kind operation;
          dio_identity := dio_identity operation;
          dio_expected_revision := dio_expected_revision operation;
          dio_phase := next_phase; dio_prior := dio_prior operation;
          dio_updated_at := updated_at; dio_diagnostic := diagnostic; dio_terminal := None |} in
        Ok (set_operations (bt_insert request_id next (db_operations db)) db, next)
  end.

Definition finalize_durable_operation (request_id : DurableRequestId)
    (expected_phase : DurableOperationPhase) (outcome : DurableTerminalOutcome)
    (resulting_revision : option Z) (updated_at : UnixTimestamp)
  : transaction DurableOperationReceipt := fun db =>
  let? resulting_revision := encode_revision resulting_revision in
  match bt_get request_id (db_operations db) ≫= dio_terminal with
  | Some receipt =>
      if (dor_outcome receipt ==? outcome)
         && (dor_resulting_revision receipt ==? resulting_revision)
      then Ok (db, receipt) else Err durable_operation_conflict
  | None =>
      match at_phase request_id expected_phase db with
      | None => Err durable_operation_conflict
      | Some operation =>
          let receipt := {|
            dor_request_id := dio_request_id operation; dor_identity := dio_identity operation;
            dor_outcome := outcome; dor_resulting_revision := resulting_revision;
            dor_completed_at := updated_at |} in
          let next := {|
            dio_request_id := dio_request_id operation; dio_kind := dio_kind operation;
            dio_identity := dio_identity operation;
            dio_expected_revision := dio_expected_revision operation;
            dio_phase := DurableOperationPhase.Finalized; dio_prior := dio_prior operation;
            dio_updated_at := updated_at; dio_diagnostic := dio_diagnostic operation;
            dio_terminal := Some receipt |} in
          Ok (set_operations (bt_insert request_id next (db_operations db)) db, receipt)
      end
  end.

Definition list_unfinished_durable_operations : transaction (list DurableIdentityOperation) :=
  fun db =>
  let rows := unfinished (db_operations db) in
  if (HARVESTCIRCLE_UNFINISHED_DURABLE_OPERATION_CAPACITY <? length rows)%nat
  then Err corrupt_storage else Ok (db, rows).

(** ** Consistency *)

Abbreviation identity_npub identity := (nir_npub (ni_identity identity)).

(** What the schema promises: rows are stored under their key, keys and encoded
    keys are unique, a selection and a cached profile belong to a saved identity,
    a row of the journal is finalized exactly when it has its receipt, and every
    table is within its bound. *)
Definition operation_ok (request_id : DurableRequestId) (operation : DurableIdentityOperation)
  : Prop :=
  dio_request_id operation = request_id /\
  (dio_phase operation = DurableOperationPhase.Finalized <-> is_unfinished operation = false) /\
  forall receipt, dio_terminal operation = Some receipt ->
    dor_request_id receipt = request_id /\ dor_identity receipt = dio_identity operation.

Record database_ok (db : Database) : Prop := {
  dk_identities : bt_wf (db_identities db);
  dk_keys : forall k i, bt_get k (db_identities db) = Some i -> public_key i = k /\ NostrIdentity_wf i;
  dk_npub : forall k i k' i', bt_get k (db_identities db) = Some i ->
    bt_get k' (db_identities db) = Some i' -> identity_npub i = identity_npub i' -> k = k';
  dk_capacity : (length (db_identities db) <= HARVESTCIRCLE_IDENTITY_CAPACITY)%nat;
  dk_selected : forall k, db_selected db = Some k -> is_Some (bt_get k (db_identities db));
  dk_profiles : bt_wf (db_profiles db);
  dk_authors : forall k p, bt_get k (db_profiles db) = Some p ->
    kp_author (cp_candidate p) = k /\ is_Some (bt_get k (db_identities db));
  dk_operations : bt_wf (db_operations db);
  dk_rows : forall r op, bt_get r (db_operations db) = Some op -> operation_ok r op;
  dk_unfinished : (length (unfinished (db_operations db))
                     <= HARVESTCIRCLE_UNFINISHED_DURABLE_OPERATION_CAPACITY)%nat;
  dk_total : (length (db_operations db) <= HARVESTCIRCLE_DURABLE_OPERATION_CAPACITY)%nat
}.

Lemma database_ok_new : database_ok Database_new.
Proof. constructor; simpl; try apply bt_wf_nil; try done; lia. Qed.

Lemma is_none_false {A} (o : option A) : is_none o = false <-> is_Some o.
Proof.
  destruct o as [a|]; unfold is_none; simpl; split; [by exists a|done..|].
  by intros [? ?].
Qed.
Lemma is_none_None {A} (o : option A) : is_none o = true <-> o = None.
Proof. by destruct o. Qed.

Lemma npub_taken_false identity db :
  bt_wf (db_identities db) ->
  npub_taken identity db = false <->
  forall k i, bt_get k (db_identities db) = Some i -> identity_npub i = identity_npub identity ->
    k = public_key identity.
Proof.
  intros Hw. unfold npub_taken. rewrite existsb_false_iff. split.
  - intros Hn k i Hg%bt_get_elem_of He; [|done]. specialize (Hn _ Hg). simpl in Hn.
    destruct (decide (k = public_key identity)) as [|Hk]; [done|].
    by rewrite bool_decide_false, He, bool_decide_true in Hn.
  - intros Hn [k i] Hg. simpl. apply bt_get_elem_of in Hg; [|done].
    destruct (decide (k = public_key identity)) as [->|Hk]; [by rewrite bool_decide_true|].
    rewrite (bool_decide_false (k = _)) by done. simpl. rewrite bool_decide_false; [done|].
    intros He. exact (Hk (Hn _ _ Hg He)).
Qed.

(** Writing the row of one identity: the key is present, or there is room. *)
Lemma put_identity_ok identity db :
  database_ok db -> NostrIdentity_wf identity -> npub_taken identity db = false ->
  (is_Some (bt_get (public_key identity) (db_identities db)) \/
   (length (db_identities db) < HARVESTCIRCLE_IDENTITY_CAPACITY)%nat) ->
  database_ok (set_identities (bt_insert (public_key identity) identity (db_identities db)) db).
Proof.
  intros [Hi Hk Hn Hc Hs Hp Ha Ho Hr Hu Ht] Hwf Hf Hroom.
  rewrite npub_taken_false in Hf by done.
  assert (forall k, is_Some (bt_get k (db_identities db)) ->
    is_Some (bt_get k (bt_insert (public_key identity) identity (db_identities db)))) as Hup.
  { intros k ?. rewrite bt_get_insert. by case_decide. }
  constructor; simpl; auto with hub.
  - intros k i. rewrite bt_get_insert. case_decide; [by intros [= <-]|apply Hk].
  - intros k i k' i'. rewrite !bt_get_insert. repeat case_decide; subst; intros E1 E2 E3;
      simplify_eq; try done; [symmetry|..]; eauto using eq_sym.
  - rewrite bt_insert_length by done. destruct (bt_get _ _) as [j|]; simpl; [done|].
    destruct Hroom as [[? ?]|?]; [done|lia].
  - intros k p Hg. destruct (Ha k p Hg). auto.
Qed.

Lemma insert_identity_ok identity db db' a :
  database_ok db -> NostrIdentity_wf identity -> insert_identity identity db = Ok (db', a) -> database_ok db'.
Proof.
  unfold insert_identity. intros Hok Hwf. destruct (is_some _) eqn:E1; [done|].
  destruct (_ <=? _)%nat eqn:E2; [done|]. destruct (npub_taken _ _) eqn:E3; [done|].
  intros [= <- _]. apply put_identity_ok; [done..|]. right. by apply Nat.leb_gt.
Qed.

Lemma update_identity_ok identity db db' a :
  database_ok db -> NostrIdentity_wf identity -> update_identity identity db = Ok (db', a) -> database_ok db'.
Proof.
  unfold update_identity. intros Hok Hwf. destruct (is_none _) eqn:E1; [done|].
  destruct (npub_taken _ _) eqn:E3; [done|].
  intros [= <- _]. apply put_identity_ok; [done..|]. left. by apply is_none_false.
Qed.

Lemma bt_remove_length {K V} `{TotalOrd K, EqDecision K} (k : K) (m : list (K * V)) :
  (length (bt_remove k m) <= length m)%nat.
Proof. induction m as [|[k1 v1] m IH]; simpl; [done|]. case_bool_decide; simpl; lia. Qed.

Lemma remove_identity_ok key db db' a :
  database_ok db -> remove_identity key db = Ok (db', a) -> database_ok db'.
Proof.
  unfold remove_identity. intros [Hi Hk Hn Hc Hs Hp Ha Ho Hr Hu Ht].
  destruct (is_none _); [done|]. intros [= <- _].
  assert (forall k i, bt_get k (bt_remove key (db_identities db)) = Some i ->
    bt_get k (db_identities db) = Some i) as Hd.
  { intros k i. rewrite bt_get_remove by done. by case_decide. }
  constructor; simpl; auto with hub.
  - eauto.
  - etrans; [apply bt_remove_length|done].
  - intros k. case_bool_decide as E; [done|]. intros Hk'. rewrite bt_get_remove by done.
    rewrite decide_False; [by apply Hs|]. intros ->. congruence.
  - intros k p. rewrite !bt_get_remove by done. case_decide; [done|]. apply Ha.
Qed.

Lemma save_selected_ok key db db' a :
  database_ok db -> save_selected_identity key db = Ok (db', a) -> database_ok db'.
Proof.
  unfold save_selected_identity. intros [Hi Hk Hn Hc Hs Hp Ha Ho Hr Hu Ht].
  destruct (is_some_and _ _) eqn:E; [done|]. intros [= <- _]. constructor; simpl; auto.
  intros k ->. by apply is_none_false.
Qed.

Lemma put_profile_ok key p db :
  database_ok db -> kp_author (cp_candidate p) = key -> is_Some (bt_get key (db_identities db)) ->
  database_ok (set_profiles (bt_insert key p (db_profiles db)) db).
Proof.
  intros [Hi Hk Hn Hc Hs Hp Ha Ho Hr Hu Ht] He Hin. constructor; simpl; auto with hub.
  intros k q. rewrite bt_get_insert. case_decide; [|apply Ha]. intros [= <-]. by subst.
Qed.

(** *** Rows of the journal *)

Lemma elem_of_unfinished op ops :
  bt_wf ops -> op ∈ unfinished ops <-> is_unfinished op = true /\ exists r, bt_get r ops = Some op.
Proof.
  intros Hw. unfold unfinished. rewrite list_elem_of_filter, bt_values_elem_of, Is_true_true.
  setoid_rewrite bt_get_elem_of; [done..|]. done.
Qed.

Lemma unfinished_cons r op ops :
  unfinished ((r, op) :: ops) = if is_unfinished op then op :: unfinished ops else unfinished ops.
Proof. unfold unfinished. simpl. rewrite filter_cons. by destruct (is_unfinished op). Qed.

Lemma unfinished_perm ops ops' : ops ≡ₚ ops' -> unfinished ops ≡ₚ unfinished ops'.
Proof. unfold unfinished, bt_values. by intros ->. Qed.

Lemma unfinished_insert_length r op ops :
  bt_wf ops -> length (unfinished (bt_insert r op ops)) =
    ((if is_unfinished op then 1 else 0) + length (unfinished (bt_remove r ops)))%nat.
Proof.
  intros Hw. rewrite (unfinished_perm _ _ (bt_insert_perm r op ops Hw)), unfinished_cons.
  by destruct (is_unfinished op).
Qed.

Lemma unfinished_remove_length r op ops :
  bt_get r ops = Some op -> length (unfinished ops) =
    ((if is_unfinished op then 1 else 0) + length (unfinished (bt_remove r ops)))%nat.
Proof.
  intros Hg. rewrite (unfinished_perm _ _ (bt_remove_perm r op ops Hg)), unfinished_cons.
  by destruct (is_unfinished op).
Qed.

(** Deleting finished rows leaves the unfinished ones. *)
Lemma unfinished_remove_finished r ops :
  (forall op, bt_get r ops = Some op -> is_unfinished op = false) ->
  unfinished (bt_remove r ops) = unfinished ops.
Proof.
  induction ops as [|[r1 op1] ops IH]; intros Hf; simpl in *; [done|].
  rewrite !unfinished_cons. case_bool_decide as E.
  - by rewrite (Hf op1 eq_refl).
  - rewrite unfinished_cons, IH by done. done.
Qed.

Lemma remove_rows (rs : list DurableRequestId)
    (ops : list (DurableRequestId * DurableIdentityOperation)) :
  bt_wf ops ->
  bt_wf (foldr bt_remove ops rs) /\
  (forall r, bt_get r (foldr bt_remove ops rs) = if decide (r ∈ rs) then None else bt_get r ops) /\
  (length (foldr bt_remove ops rs) <= length ops)%nat.
Proof.
  intros Hw. induction rs as [|r rs (IH1 & IH2 & IH3)]; simpl.
  - by split_and!.
  - split_and!; [by apply bt_remove_wf| |etrans; [apply bt_remove_length|done]].
    intros r'. rewrite bt_get_remove, IH2 by done. repeat case_decide; set_solver.
Qed.

Lemma unfinished_remove_rows rs ops :
  bt_wf ops -> (forall r op, r ∈ rs -> bt_get r ops = Some op -> is_unfinished op = false) ->
  unfinished (foldr bt_remove ops rs) = unfinished ops.
Proof.
  intros Hw. induction rs as [|r rs IH]; intros Hf; simpl; [done|].
  rewrite unfinished_remove_finished; [apply IH; set_solver|].
  intros op. rewrite (proj1 (proj2 (remove_rows rs ops Hw))). case_decide; [done|].
  apply Hf. set_solver.
Qed.

(** The cleanup keeps every unfinished row and adds none. *)
Lemma cleanup_run now db :
  bt_wf (db_operations db) ->
  exists ops, cleanup_expired_terminal_receipts now db = set_operations ops db /\ bt_wf ops /\
    unfinished ops = unfinished (db_operations db) /\
    (length ops <= length (db_operations db))%nat /\
    (forall r op, bt_get r ops = Some op -> bt_get r (db_operations db) = Some op) /\
    (forall r op, bt_get r (db_operations db) = Some op -> is_unfinished op = true ->
       bt_get r ops = Some op).
Proof.
  intros Hw. unfold cleanup_expired_terminal_receipts. cbv zeta.
  set (cutoff := i64_saturating_sub _ _).
  set (rs := (take _ _).*1). exists (foldr bt_remove (db_operations db) rs).
  destruct (remove_rows rs _ Hw) as (H1 & H2 & H3).
  assert (forall r op, r ∈ rs -> bt_get r (db_operations db) = Some op -> is_unfinished op = false)
    as Hf.
  { intros r op Hr Hg. apply list_elem_of_fmap in Hr as ([r' op'] & -> & Hin). simpl in Hg.
    apply elem_of_take in Hin as (i & Hi%list_elem_of_lookup_2 & _).
    rewrite elem_of_sort_by_key, list_elem_of_filter in Hi. destruct Hi as [Hc Hi]. simpl in Hc.
    apply bt_get_elem_of in Hi; [|done]. rewrite Hg in Hi. injection Hi as ->.
    unfold completed_before in Hc. unfold is_unfinished, is_none.
    by destruct (dio_terminal op'). }
  split_and!; [done..|by apply unfinished_remove_rows|done| |].
  - intros r op. rewrite H2. by case_decide.
  - intros r op Hg Hu. rewrite H2, decide_False; [done|]. intros Hr.
    rewrite (Hf r op Hr Hg) in Hu. done.
Qed.

Lemma set_operations_ok ops db :
  database_ok db -> bt_wf ops -> (forall r op, bt_get r ops = Some op -> operation_ok r op) ->
  (length (unfinished ops) <= HARVESTCIRCLE_UNFINISHED_DURABLE_OPERATION_CAPACITY)%nat ->
  (length ops <= HARVESTCIRCLE_DURABLE_OPERATION_CAPACITY)%nat ->
  database_ok (set_operations ops db).
Proof. intros [Hi Hk Hn Hc Hs Hp Ha Ho Hr Hu Ht] ? ? ? ?. by constructor. Qed.

(** Rewriting a row that stays unfinished or becomes finished. *)
Lemma put_operation_ok r op op0 db :
  database_ok db -> bt_get r (db_operations db) = Some op0 -> is_unfinished op0 = true ->
  operation_ok r op ->
  database_ok (set_operations (bt_insert r op (db_operations db)) db).
Proof.
  intros Hok Hg Hu0 Hop. pose proof (dk_operations _ Hok) as Hw.
  apply set_operations_ok; [done|by apply bt_insert_wf|..].
  - intros r' op'. rewrite bt_get_insert. case_decide; [|apply dk_rows; done].
    intros [= <-]. by subst.
  - rewrite unfinished_insert_length by done. pose proof (dk_unfinished _ Hok) as Hu.
    rewrite (unfinished_remove_length _ _ _ Hg), Hu0 in Hu. destruct (is_unfinished op); lia.
  - rewrite bt_insert_length, Hg by done. apply Hok.
Qed.

Lemma at_phase_Some r phase db op :
  at_phase r phase db = Some op <->
  bt_get r (db_operations db) = Some op /\ dio_phase op = phase /\ is_unfinished op = true.
Proof.
  unfold at_phase. destruct (bt_get _ _) as [op'|]; [|split; [done|by intros [? _]]].
  destruct (_ && _) eqn:E; split.
  - intros [= ->]. breflect. done.
  - by intros [[= ->] _].
  - done.
  - intros ([= ->] & H1 & H2). rewrite H2, bool_decide_true in E by done. done.
Qed.

Lemma advance_run r expected next now diagnostic db db' op' :
  advance_durable_operation r expected next now diagnostic db = Ok (db', op') <->
  exists op, bt_get r (db_operations db) = Some op /\ dio_phase op = expected /\
    is_unfinished op = true /\ next <> DurableOperationPhase.Finalized /\
    op' = {| dio_request_id := dio_request_id op; dio_kind := dio_kind op;
             dio_identity := dio_identity op; dio_expected_revision := dio_expected_revision op;
             dio_phase := next; dio_prior := dio_prior op; dio_updated_at := now;
             dio_diagnostic := diagnostic; dio_terminal := None |} /\
    db' = set_operations (bt_insert r op' (db_operations db)) db.
Proof.
  unfold advance_durable_operation. destruct (at_phase r expected db) as [op|] eqn:E.
  - case_bool_decide as Ef.
    + split; [done|]. by intros (? & _ & _ & _ & ? & _).
    + apply at_phase_Some in E as (H1 & H2 & H3). split.
      * intros [= <- <-]. by exists op.
      * intros (op1 & H1' & _ & _ & _ & -> & ->). by simplify_eq.
  - split; [done|]. intros (op & H1 & H2 & H3 & _).
    assert (at_phase r expected db = Some op) by (by apply at_phase_Some). congruence.
Qed.

Lemma advance_ok r expected next now diagnostic db db' op' :
  database_ok db ->
  advance_durable_operation r expected next now diagnostic db = Ok (db', op') -> database_ok db'.
Proof.
  intros Hok (op & Hg & Hp & Hu & Hn & Hop & ->)%advance_run.
  apply (put_operation_ok r op' op db); [done..|]. destruct (dk_rows _ Hok _ _ Hg) as (H1 & _ & _).
  subst op'. split_and!; simpl; [done| |done]. by split.
Qed.

(** An operation once finalized keeps its receipt. *)
Lemma finalize_run r expected outcome revision now db db' receipt :
  bt_get r (db_operations db) ≫= dio_terminal = None ->
  finalize_durable_operation r expected outcome revision now db = Ok (db', receipt) <->
  exists op, bt_get r (db_operations db) = Some op /\ dio_phase op = expected /\
    encode_revision revision = Ok revision /\
    receipt = {| dor_request_id := dio_request_id op; dor_identity := dio_identity op;
                 dor_outcome := outcome; dor_resulting_revision := revision;
                 dor_completed_at := now |} /\
    db' = set_operations (bt_insert r {|
      dio_request_id := dio_request_id op; dio_kind := dio_kind op;
      dio_identity := dio_identity op; dio_expected_revision := dio_expected_revision op;
      dio_phase := DurableOperationPhase.Finalized; dio_prior := dio_prior op;
      dio_updated_at := now; dio_diagnostic := dio_diagnostic op;
      dio_terminal := Some receipt |} (db_operations db)) db.
Proof.
  intros Hn. unfold finalize_durable_operation. rewrite Hn.
  assert (encode_revision revision = Ok revision \/
          encode_revision revision = Err durable_operation_conflict) as [->| ->]; simpl.
  { destruct revision as [v|]; unfold encode_revision, i64_try_from; simpl; [|by left].
    destruct (i64_range v); [by left|by right]. }
  - destruct (at_phase r expected db) as [op|] eqn:E; split.
    + apply at_phase_Some in E as (H1 & H2 & H3). intros [= <- <-]. by exists op.
    + apply at_phase_Some in E as (H1 & H2 & H3). intros (op1 & H1' & _ & _ & -> & ->).
      by simplify_eq.
    + done.
    + intros (op & H1 & H2 & _). rewrite H1 in Hn. simpl in Hn.
      assert (at_phase r expected db = Some op); [|congruence]. apply at_phase_Some.
      unfold is_unfinished. by rewrite Hn.
  - split; [done|]. by intros (? & _ & _ & ? & _).
Qed.

Lemma finalize_ok r expected outcome revision now db db' receipt :
  database_ok db ->
  finalize_durable_operation r expected outcome revision now db = Ok (db', receipt) ->
  database_ok db'.
Proof.
  intros Hok. destruct (bt_get r (db_operations db) ≫= dio_terminal) as [old|] eqn:E.
  - unfold finalize_durable_operation. rewrite E. destruct (encode_revision _); simpl; [|done].
    destruct (_ && _); [|done]. by intros [= <- _].
  - intros (op & Hg & _ & _ & -> & ->)%finalize_run; [|done]. rewrite Hg in E. simpl in E.
    apply (put_operation_ok _ _ op); [done..| |].
    + unfold is_unfinished. by rewrite E.
    + destruct (dk_rows _ Hok _ _ Hg) as (H1 & _ & _). split_and!; simpl; [done|by split|].
      by intros receipt [= <-].
Qed.

Lemma begin_started r kind key revision prior now db db' start :
  database_ok db -> bt_get r (db_operations db) = None ->
  begin_durable_operation r kind key revision prior now db = Ok (db', start) ->
  exists ops, bt_wf ops /\ unfinished ops = unfinished (db_operations db) /\
    (forall r op, bt_get r ops = Some op -> bt_get r (db_operations db) = Some op) /\
    (forall r op, bt_get r (db_operations db) = Some op -> is_unfinished op = true ->
       bt_get r ops = Some op) /\
    (length (unfinished ops) < HARVESTCIRCLE_UNFINISHED_DURABLE_OPERATION_CAPACITY)%nat /\
    (length ops < HARVESTCIRCLE_DURABLE_OPERATION_CAPACITY)%nat /\
    let op := {| dio_request_id := r; dio_kind := kind; dio_identity := key;
      dio_expected_revision := revision; dio_phase := DurableOperationPhase.IntentRecorded;
      dio_prior := prior; dio_updated_at := now; dio_diagnostic := None; dio_terminal := None |} in
    start = Started op /\ db' = set_operations (bt_insert r op ops) db.
Proof.
  intros Hok Hn. unfold begin_durable_operation.
  destruct (encode_revision revision) as [v|] eqn:Ev; cbn [bind]; [|done].
  assert (v = revision) as ->.
  { unfold encode_revision, i64_try_from in Ev. destruct revision as [z|]; simpl in Ev; [|congruence].
    destruct (i64_range z); simpl in Ev; congruence. }
  rewrite Hn.
  destruct (cleanup_run now db (dk_operations _ Hok)) as (ops & -> & Hw & Hu & Hl & H1 & H2).
  cbv zeta. cbn [db_operations set_operations].
  destruct (_ <=? _)%nat eqn:E1; [done|]. destruct (_ <=? _)%nat eqn:E2 in |- *; [done|].
  intros [= <- <-]. exists ops. apply Nat.leb_gt in E1, E2.
  split_and!; done.
Qed.

Lemma begin_ok r kind key revision prior now db db' start :
  database_ok db ->
  begin_durable_operation r kind key revision prior now db = Ok (db', start) -> database_ok db'.
Proof.
  intros Hok Hb. destruct (bt_get r (db_operations db)) as [old|] eqn:E.
  - unfold begin_durable_operation in Hb. rewrite E in Hb.
    destruct (encode_revision _); simpl in Hb; [|done]. destruct (_ || _); [done|].
    by injection Hb as <- _.
  - apply begin_started in Hb as (ops & Hw & Hu & H1 & H2 & Hcu & Hct & _ & ->); [|done..].
    assert (bt_get r ops = None) as Hr.
    { destruct (bt_get r ops) as [op|] eqn:Er; [|done]. apply H1 in Er. congruence. }
    apply set_operations_ok; [done|by apply bt_insert_wf|..].
    + intros r' op'. rewrite bt_get_insert. case_decide as Ed.
      * intros [= <-]. subst. split_and!; simpl; [done|by split|done].
      * intros Hg. by apply (dk_rows _ Hok), H1.
    + rewrite unfinished_insert_length, bt_remove_id by done. simpl. lia.
    + rewrite bt_insert_length, Hr by done. simpl. lia.
Qed.

(** *** Every transaction *)

Inductive db_step : Database -> Database -> Prop :=
| db_insert i db db' a :
    NostrIdentity_wf i -> insert_identity i db = Ok (db', a) -> db_step db db'
| db_update i db db' a :
    NostrIdentity_wf i -> update_identity i db = Ok (db', a) -> db_step db db'
| db_remove k db db' a : remove_identity k db = Ok (db', a) -> db_step db db'
| db_select k db db' a : save_selected_identity k db = Ok (db', a) -> db_step db db'
| db_save_profile p db db' a : save_profile p db = Ok (db', a) -> db_step db db'
| db_refresh k now status db db' a :
    record_refresh_status k now status db = Ok (db', a) -> db_step db db'
| db_remove_profile k db db' a : remove_profile k db = Ok (db', a) -> db_step db db'
| db_begin r kind k v prior now db db' a :
    begin_durable_operation r kind k v prior now db = Ok (db', a) -> db_step db db'
| db_advance r p q now d db db' a :
    advance_durable_operation r p q now d db = Ok (db', a) -> db_step db db'
| db_finalize r p o v now db db' a :
    finalize_durable_operation r p o v now db = Ok (db', a) -> db_step db db'.

Lemma save_profile_ok p db db' a :
  database_ok db -> save_profile p db = Ok (db', a) -> database_ok db'.
Proof.
  unfold save_profile. intros Hok. destruct (is_none _) eqn:E; [done|]. apply is_none_false in E.
  destruct (bt_get _ (db_profiles db)) as [cached|]; [destruct (excluded_replaces _ _)|];
    intros [= <- _]; by apply put_profile_ok || done.
Qed.

Lemma db_step_ok db db' : db_step db db' -> database_ok db -> database_ok db'.
Proof.
  intros Hstep Hok. destruct Hstep as [i db db' a Hwf Hs|i db db' a Hwf Hs|k db db' a Hs|k db db' a Hs
    |p db db' a Hs|k now status db db' a Hs|k db db' a Hs|r kind k v prior now db db' a Hs
    |r p q now d db db' a Hs|r p o v now db db' a Hs].
  - by eapply insert_identity_ok.
  - by eapply update_identity_ok.
  - by eapply remove_identity_ok.
  - by eapply save_selected_ok.
  - by eapply save_profile_ok.
  - unfold record_refresh_status in Hs. destruct (bt_get k (db_profiles db)) as [c|] eqn:E;
      injection Hs as <- _; [|done]. destruct (dk_authors _ Hok _ _ E). by apply put_profile_ok.
  - unfold remove_profile in Hs. injection Hs as <- _. destruct Hok as [Hi Hk Hn Hc Hs Hp Ha Ho Hr Hu Ht].
    constructor; simpl; auto with hub. intros k' p. rewrite bt_get_remove by done.
    case_decide; [done|]. apply Ha.
  - by eapply begin_ok.
  - by eapply advance_ok.
  - by eapply finalize_ok.
Qed.

(** C29: the database never leaves the states its schema describes.  After any
    sequence of the repositories' transactions from a new database, rows are
    stored under their own keys, keys and encoded keys are unique, a selection or
    cached profile belongs to a saved identity, an operation is finalized exactly
    when it has its receipt, and no table exceeds its bound. *)
Theorem database_consistent db : rtc db_step Database_new db -> database_ok db.
Proof.
  intros Hr. pose proof database_ok_new as Hok. induction Hr as [|x y z Hxy _ IH]; [done|].
  apply IH. by eapply db_step_ok.
Qed.

(** *** The profile cache *)

Lemma memcmp_list_compare (a b : list byte) :
  length a = length b -> memcmp a b = list_compare a b.
Proof.
  revert b. induction a as [|x a IH]; intros [|y b] Hl; try done. simpl in *.
  injection Hl as Hl. rewrite (IH b Hl). done.
Qed.

(** On event identifiers, which have one length, [memcmp] is the order of arrays
    in the domain. *)
Lemma blob_lt_array {n} (a b : array n) : blob_lt (raw a) (raw b) = kltb a b.
Proof.
  assert (length (raw a) = length (raw b)) as Hl by (by rewrite !array_length).
  unfold blob_lt, kltb. rewrite (memcmp_list_compare _ _ Hl), Hl, Nat.ltb_irrefl. done.
Qed.

(** The clause of the statement is the closure of the domain. *)
Lemma excluded_replaces_prefers cached excluded :
  excluded_replaces cached excluded = prefers (cp_candidate cached) (cp_candidate excluded).
Proof.
  unfold excluded_replaces, prefers. cbv zeta. rewrite blob_lt_array. do 2 f_equal.
  apply eq_bool_prop_intro. rewrite !Is_true_true, Z.eqb_eq, bool_decide_eq_true.
  split; [apply raw_inj|by intros ->].
Qed.

Definition save_profiles (ps : list CachedProfile) (db : Database) : result Database SafeError :=
  try_fold (fun db p => let? (db, _) := save_profile p db in Ok db) db ps.

Definition newest (candidates : list Kind0ProfileCandidate) (cached : option Kind0ProfileCandidate)
  : option Kind0ProfileCandidate :=
  foldl (fun selected candidate =>
           Some (match selected with
                 | Some s => if prefers s candidate then candidate else s
                 | None => candidate
                 end)) cached candidates.

Lemma newest_select candidates cached :
  newest candidates cached =
    select_latest_kind0 (match cached with Some c => [c] | None => [] end ++ candidates).
Proof.
  assert (forall s, newest candidates (Some s) =
    Some (foldl (fun selected candidate =>
      if prefers selected candidate then candidate else selected) s candidates)) as Hs.
  { unfold newest. induction candidates as [|c cs IH]; intros s; simpl; [done|]. apply IH. }
  destruct cached as [s|]; [apply Hs|]. destruct candidates as [|c cs]; [done|].
  simpl. unfold newest. simpl. clear Hs. revert c.
  induction cs as [|d cs IH]; intros c; simpl; [done|]. apply IH.
Qed.

(** C36: whatever the order in which profile events of a saved identity are stored,
    the cache holds the one the domain's [select_latest_kind0] chooses among them
    and the profile cached before, although the upsert decides by its own
    comparison of the stored columns.  Nothing else in the database changes. *)
Theorem profile_cache_latest ps key db :
  (forall p, p ∈ ps -> kp_author (cp_candidate p) = key) ->
  is_Some (bt_get key (db_identities db)) ->
  exists db', save_profiles ps db = Ok db' /\
    cp_candidate <$> bt_get key (db_profiles db') =
      select_latest_kind0 (match cp_candidate <$> bt_get key (db_profiles db) with
                           | Some c => [c] | None => [] end ++ (cp_candidate <$> ps)) /\
    (forall k, k <> key -> bt_get k (db_profiles db') = bt_get k (db_profiles db)) /\
    set_profiles (db_profiles db) db' = db.
Proof.
  rewrite <- newest_select. revert db. induction ps as [|p ps IH]; intros db Ha Hin; simpl.
  { exists db. unfold save_profiles. simpl. split_and!; [done..|]. by destruct db. }
  assert (kp_author (cp_candidate p) = key) as Hp by (apply Ha; by left).
  set (c0 := bt_get key (db_profiles db)).
  assert (exists db1, save_profile p db = Ok (db1, tt) /\
    cp_candidate <$> bt_get key (db_profiles db1) =
      Some (match cp_candidate <$> c0 with
            | Some s => if prefers s (cp_candidate p) then cp_candidate p else s
            | None => cp_candidate p end) /\
    (forall k, k <> key -> bt_get k (db_profiles db1) = bt_get k (db_profiles db)) /\
    db_identities db1 = db_identities db /\
    forall q, set_profiles q db1 = set_profiles q db) as (db1 & E1 & H1 & H2 & H3 & H4).
  { unfold save_profile. cbv zeta. rewrite Hp. apply is_none_false in Hin as ->.
    assert (forall k, k <> key ->
      bt_get k (bt_insert key p (db_profiles db)) = bt_get k (db_profiles db)) as Ho.
    { intros k Hk. rewrite bt_get_insert. by rewrite decide_False. }
    assert (bt_get key (bt_insert key p (db_profiles db)) = Some p) as Hs.
    { rewrite bt_get_insert. by rewrite decide_True. }
    fold c0. destruct c0 as [c|] eqn:E; simpl;
      [rewrite excluded_replaces_prefers; simpl; destruct (prefers _ _)|];
      eexists; (split; [reflexivity|]); simpl; rewrite ?Hs.
    1, 3: by split_and!.
    unfold c0 in E. rewrite E. split_and!; [done..|]. by destruct db. }
  destruct (IH db1) as (db2 & E2 & H5 & H6 & H7).
  { intros q Hq. apply Ha. by right. }
  { by rewrite H3. }
  exists db2. unfold save_profiles in E2 |- *. simpl. rewrite E1. simpl.
  split_and!; [done| | |].
  - rewrite H5, H1. done.
  - intros k Hk. by rewrite H6, H2.
  - assert (set_profiles (db_profiles db) db2 =
            set_profiles (db_profiles db) (set_profiles (db_profiles db1) db2)) as -> by done.
    rewrite H7, H4. by destruct db.
Qed.

(** ** Closed examples *)

Definition sample_database : Database :=
  set_identities [(sample_key 7, sample_identity 7)] Database_new.
Definition sample_cached (event created : Z) : CachedProfile := {|
  cp_candidate := sample_candidate event created; cp_refreshed_at := sample_time created;
  cp_refresh_status := ProfileRefreshStatus.Success |}.

Lemma database_consistent_witness :
  insert_identity (sample_identity 7) Database_new = Ok (sample_database, tt) /\
  database_ok sample_database.
Proof.
  assert (insert_identity (sample_identity 7) Database_new = Ok (sample_database, tt)) as Hi
    by reflexivity.
  split; [exact Hi|]. apply database_consistent. apply rtc_once.
  apply (db_insert (sample_identity 7) Database_new sample_database tt); [reflexivity|exact Hi].
Defined.

Lemma profile_cache_latest_witness :
  exists db', save_profiles [sample_cached 3 5; sample_cached 2 9; sample_cached 4 9] sample_database = Ok db'.
Proof.
  destruct (profile_cache_latest [sample_cached 3 5; sample_cached 2 9; sample_cached 4 9] (sample_key 7)
    sample_database) as (db' & H1 & _).
  - intros p Hp. repeat (apply elem_of_cons in Hp as [->|Hp]; [reflexivity|]).
    by apply not_elem_of_nil in Hp.
  - vm_compute. eexists. reflexivity.
  - exists db'. exact H1.
Defined.
