(* ===== verification/Secrets.v ===== *)
(** * Credential stores

    The port to the credential store ([secrets.rs] of the application crate) as an
    interface, what a store promises to the operations on identities, and the two
    stores of the sources: the store in memory and the operating system's keyring
    ([os_keyring.rs] of the storage crate) over the platform calls it wraps. *)

From Stdlib Require Import Bool ZArith Lia Strings.Byte Strings.String.
From stdpp Require Import base decidable option list numbers strings.
From S2P Require Import Prelude Containers Encoding Hub Reference Identity Profile Database.

Definition replay_conflict : SafeError :=
  SafeError_new SafeErrorCode.InvalidApplicationState
    "The identity operation conflicts with the stored credential.".
Definition credential_exists : SafeError :=
  SafeError_new SafeErrorCode.IdentityAlreadyExists
    "The Nostr identity credential already exists.".
Definition credential_missing : SafeError :=
  SafeError_new SafeErrorCode.CredentialMissing "The Nostr identity credential is missing.".
Definition keyring_unavailable : SafeError :=
  SafeError_new SafeErrorCode.KeyringUnavailable
    "The operating system credential store is unavailable.".

Record StoredCredential := {
  cred_request_id : DurableRequestId;
  cred_secret : list byte
}.
#[global] Instance StoredCredential_eq_dec : EqDecision StoredCredential.
Proof. solve_decision. Defined.

(** The secret text a provider hands out is accepted again by the boundary type. *)
Definition reparses (secret : SecretKeyInput) : Prop :=
  SecretKeyInput_parse (ski_value secret) = Ok secret.

(** ** The port

    [credential] is what a store holds for a key.  A store never overwrites: a
    second [put] changes nothing, and succeeds only as a replay of the first. *)
Class SecretStore := {
  secret_store : Type;
  store_ok : secret_store -> Prop;
  storable : DurableRequestId -> SecretKeyInput -> Prop;
  credential : secret_store -> PublicKey -> option StoredCredential;
  secret_put : DurableRequestId -> PublicKey -> SecretKeyInput -> stm secret_store SafeError unit;
  secret_verify : DurableRequestId -> PublicKey -> SecretKeyInput -> secret_store ->
    result unit SafeError;
  secret_load : PublicKey -> secret_store -> result SecretKeyInput SafeError;
  secret_contains : PublicKey -> secret_store -> result bool SafeError;
  secret_delete : DurableRequestId -> PublicKey -> stm secret_store SafeError unit;
  secret_put_absent s r k x :
    store_ok s -> storable r x -> credential s k = None ->
    exists s', secret_put r k x s = (s', Ok tt) /\ store_ok s' /\
      forall k', credential s' k' =
        if decide (k = k') then Some {| cred_request_id := r; cred_secret := ski_value x |}
        else credential s k';
  secret_put_present s r k x c :
    store_ok s -> credential s k = Some c ->
    exists res, secret_put r k x s = (s, res) /\
      (res = Ok tt -> c = {| cred_request_id := r; cred_secret := ski_value x |});
  secret_verify_law s r k x :
    store_ok s -> secret_verify r k x s =
      match credential s k with
      | None => Err credential_missing
      | Some c => if (cred_request_id c ==? r) && (cred_secret c ==? ski_value x) then Ok tt
                  else Err replay_conflict
      end;
  secret_load_law s k :
    store_ok s ->
    match credential s k with
    | None => secret_load k s = Err credential_missing
    | Some c => exists x, SecretKeyInput_parse (cred_secret c) = Ok x /\ secret_load k s = Ok x
    end;
  secret_contains_law s k : store_ok s -> secret_contains k s = Ok (is_some (credential s k));
  secret_delete_present s r k c :
    store_ok s -> credential s k = Some c ->
    exists s', secret_delete r k s = (s', Ok tt) /\ store_ok s' /\
      forall k', credential s' k' = if decide (k = k') then None else credential s k';
  secret_delete_absent s r k :
    store_ok s -> credential s k = None -> secret_delete r k s = (s, Err credential_missing)
}.

(** ** The store in memory *)

Module InMemorySecretStore.
Definition put (request_id : DurableRequestId) (key : PublicKey) (secret : SecretKeyInput)
  : stm (list (PublicKey * StoredCredential)) SafeError unit := fun credentials =>
  if is_some (bt_get key credentials) then (credentials, Err credential_exists)
  else (bt_insert key {| cred_request_id := request_id; cred_secret := ski_value secret |}
          credentials, Ok tt).

Definition verify (request_id : DurableRequestId) (key : PublicKey) (secret : SecretKeyInput)
    (credentials : list (PublicKey * StoredCredential)) : result unit SafeError :=
  let? existing := ok_or (bt_get key credentials) credential_missing in
  if (cred_request_id existing !=? request_id) || negb (cred_secret existing ==? ski_value secret)
  then Err replay_conflict else Ok tt.

Definition load (key : PublicKey) (credentials : list (PublicKey * StoredCredential))
  : result SecretKeyInput SafeError :=
  let? secret := ok_or (bt_get key credentials) credential_missing in
  map_err (fun _ => credential_missing) (SecretKeyInput_parse (cred_secret secret)).

Definition contains (key : PublicKey) (credentials : list (PublicKey * StoredCredential))
  : result bool SafeError := Ok (is_some (bt_get key credentials)).

Definition delete (_ : DurableRequestId) (key : PublicKey)
  : stm (list (PublicKey * StoredCredential)) SafeError unit := fun credentials =>
  match bt_get key credentials with
  | Some _ => (bt_remove key credentials, Ok tt)
  | None => (credentials, Err credential_missing)
  end.

Definition ok (credentials : list (PublicKey * StoredCredential)) : Prop :=
  bt_wf credentials /\ forall k c, bt_get k credentials = Some c ->
    exists x, SecretKeyInput_parse (cred_secret c) = Ok x.
End InMemorySecretStore.

Program Definition memory_store : SecretStore := {|
  secret_store := list (PublicKey * StoredCredential);
  store_ok := InMemorySecretStore.ok;
  storable r x := reparses x;
  credential s k := bt_get k s;
  secret_put := InMemorySecretStore.put;
  secret_verify := InMemorySecretStore.verify;
  secret_load := InMemorySecretStore.load;
  secret_contains := InMemorySecretStore.contains;
  secret_delete := InMemorySecretStore.delete
|}.
Next Obligation.
  simpl. intros s r k x [Hw Hp] Hx Hn. unfold InMemorySecretStore.put. rewrite Hn. simpl.
  eexists. split; [done|]. split; [split; [by apply bt_insert_wf|]|].
  - intros k' c. rewrite bt_get_insert. case_decide; [|apply Hp]. intros [= <-]. by exists x.
  - intros k'. apply bt_get_insert.
Qed.
Next Obligation.
  simpl. intros s r k x c [Hw Hp] Hc. unfold InMemorySecretStore.put. rewrite Hc. simpl. by eexists.
Qed.
Next Obligation.
  simpl. intros s r k x [Hw Hp]. unfold InMemorySecretStore.verify.
  destruct (bt_get k s) as [c|]; simpl; [|done]. by repeat case_bool_decide.
Qed.
Next Obligation.
  simpl. intros s k [Hw Hp]. unfold InMemorySecretStore.load.
  destruct (bt_get k s) as [c|] eqn:E; simpl; [|done].
  destruct (Hp k c E) as (x & Hx). exists x. by rewrite Hx.
Qed.
Next Obligation. done. Qed.
Next Obligation.
  simpl. intros s r k c [Hw Hp] Hc. unfold InMemorySecretStore.delete. rewrite Hc.
  eexists. split; [done|]. split; [split; [by apply bt_remove_wf|]|].
  - intros k' c'. rewrite bt_get_remove by done. case_decide; [done|]. apply Hp.
  - intros k'. by apply bt_get_remove.
Qed.
Next Obligation. simpl. intros s r k _ Hn. unfold InMemorySecretStore.delete. by rewrite Hn. Qed.

(** ** The keyring of the operating system *)

Module CreateError.
Inductive CreateError := Existing | Unavailable.
End CreateError.
Abbreviation CreateError := CreateError.CreateError.

Module ReadError.
Inductive ReadError := Missing | Unavailable.
End ReadError.
Abbreviation ReadError := ReadError.ReadError.

(** The platform calls: items by account, created only when absent.  That the
    platform may be unavailable is the business of the callers of a store. *)
Class KeyringPlatform := {
  keyring : Type;
  keyring_item : keyring -> list byte -> option (list byte);
  platform_create : list byte -> DurableRequestId -> list byte -> keyring ->
    keyring * result unit CreateError;
  platform_read : list byte -> keyring -> result (list byte) ReadError;
  platform_delete : list byte -> keyring -> keyring * result unit ReadError;
  platform_create_law s account r secret :
    match keyring_item s account with
    | Some _ => platform_create account r secret s = (s, Err CreateError.Existing)
    | None => exists s', platform_create account r secret s = (s', Ok tt) /\
        forall a, keyring_item s' a = if decide (account = a) then Some secret else keyring_item s a
    end;
  platform_read_law s account :
    platform_read account s = ok_or (keyring_item s account) ReadError.Missing;
  platform_delete_law s account :
    match keyring_item s account with
    | Some _ => exists s', platform_delete account s = (s', Ok tt) /\
        forall a, keyring_item s' a = if decide (account = a) then None else keyring_item s a
    | None => platform_delete account s = (s, Err ReadError.Missing)
    end
}.

Definition CREDENTIAL_ENVELOPE_DOMAIN : list byte :=
  list_byte_of_string "harvestcircle.credential.v1" ++ [Byte.x00].
Definition MAX_SECRET_KEY_INPUT_BYTES : nat := 128.

Definition SecretKeyInput_parse_bytes (value : list byte) : result SecretKeyInput SafeError :=
  if (MAX_SECRET_KEY_INPUT_BYTES <? length value)%nat then Err invalid_secret_key
  else SecretKeyInput_parse value.

Definition PublicKey_to_hex (key : PublicKey) : list byte := concat (hex_pair <$> raw key).

Definition encode_credential (request_id : DurableRequestId) (secret : SecretKeyInput) : list byte :=
  CREDENTIAL_ENVELOPE_DOMAIN ++ request_id ++ [Byte.x00] ++ ski_value secret.

Definition map_read_error (error : ReadError) : SafeError :=
  match error with
  | ReadError.Missing => credential_missing
  | ReadError.Unavailable => keyring_unavailable
  end.

Section OsKeyring.
Context `{UuidFormat, KeyringPlatform}.

Definition decode_credential (encoded : list byte)
  : result (DurableRequestId * SecretKeyInput) SafeError :=
  let request_start := length CREDENTIAL_ENVELOPE_DOMAIN in
  let request_end := (request_start + 36)%nat in
  let secret_start := (request_end + 1)%nat in
  if negb (length encoded =? secret_start + 64)%nat
     || negb (starts_with encoded CREDENTIAL_ENVELOPE_DOMAIN)
     || (encoded !! request_end !=? Some Byte.x00)
  then Err keyring_unavailable
  else
    let? request := map_err (fun _ => keyring_unavailable)
      (DurableRequestId_parse (take 36 (drop request_start encoded))) in
    let? secret := map_err (fun _ => keyring_unavailable)
      (SecretKeyInput_parse_bytes (drop secret_start encoded)) in
    Ok (request, secret).

Definition verify_existing_replay (request_id : DurableRequestId) (secret : SecretKeyInput)
    (encoded : list byte) : result unit SafeError :=
  let? (existing_request, existing_secret) := decode_credential encoded in
  if (existing_request ==? request_id) && (ski_value existing_secret ==? ski_value secret)
  then Ok tt else Err credential_exists.

Definition verify_replay_binding (request_id : DurableRequestId) (secret : SecretKeyInput)
    (encoded : list byte) : result unit SafeError :=
  map_err (fun error => if se_code error ==? SafeErrorCode.IdentityAlreadyExists
                        then replay_conflict else error)
    (verify_existing_replay request_id secret encoded).

Definition keyring_put (request_id : DurableRequestId) (key : PublicKey) (secret : SecretKeyInput)
  : stm keyring SafeError unit := fun s =>
  let account := PublicKey_to_hex key in
  match platform_create account request_id (encode_credential request_id secret) s with
  | (s, Ok _) => (s, Ok tt)
  | (s, Err CreateError.Existing) =>
      (s, let? existing := map_err map_read_error (platform_read account s) in
          verify_existing_replay request_id secret existing)
  | (s, Err CreateError.Unavailable) => (s, Err keyring_unavailable)
  end.

Definition keyring_verify (request_id : DurableRequestId) (key : PublicKey)
    (secret : SecretKeyInput) (s : keyring) : result unit SafeError :=
  let? encoded := map_err map_read_error (platform_read (PublicKey_to_hex key) s) in
  verify_replay_binding request_id secret encoded.

Definition keyring_load (key : PublicKey) (s : keyring) : result SecretKeyInput SafeError :=
  let? encoded := map_err map_read_error (platform_read (PublicKey_to_hex key) s) in
  let? (_, secret) := decode_credential encoded in
  Ok secret.

Definition keyring_contains (key : PublicKey) (s : keyring) : result bool SafeError :=
  match platform_read (PublicKey_to_hex key) s with
  | Ok encoded => let? _ := decode_credential encoded in Ok true
  | Err ReadError.Missing => Ok false
  | Err ReadError.Unavailable => Err keyring_unavailable
  end.

Definition keyring_delete (_ : DurableRequestId) (key : PublicKey) : stm keyring SafeError unit :=
  fun s =>
  let (s, r) := platform_delete (PublicKey_to_hex key) s in
  (s, map_err map_read_error r).

(** *** Facts *)

Lemma PublicKey_to_hex_inj k k' : PublicKey_to_hex k = PublicKey_to_hex k' -> k = k'.
Proof.
  unfold PublicKey_to_hex. intros E. apply raw_inj.
  pose proof (parse_hex_print (raw k)) as H1. pose proof (parse_hex_print (raw k')) as H2.
  rewrite (array_length k) in H1. rewrite (array_length k') in H2. rewrite E in H1. congruence.
Qed.

Lemma DurableRequestId_parse_Ok value r :
  DurableRequestId_parse value = Ok r -> r = value /\ length value = 36%nat.
Proof.
  unfold DurableRequestId_parse.
  destruct (negb (length value =? 36)%nat || _ || _) eqn:E; [done|].
  destruct (uuid_parse_str value) as [[v h]|]; [|done]. destruct (negb (v =? 7) || _); [done|].
  intros Hv. injection Hv as <-. split; [done|]. apply orb_false_iff in E as [E _].
  apply orb_false_iff in E as [E _]. by apply negb_false_iff, Nat.eqb_eq in E.
Qed.

Lemma SecretKeyInput_parse_value value x :
  SecretKeyInput_parse value = Ok x -> ski_value x = value /\ (length value <= 64)%nat.
Proof.
  unfold SecretKeyInput_parse, is_nip19_key_shape. destruct (_ && _) eqn:E1.
  - intros [= <-]. apply andb_true_iff in E1 as [E1 _]. apply Nat.eqb_eq in E1.
    unfold PUBLIC_KEY_HEX_LENGTH, PUBLIC_KEY_BYTE_LENGTH in E1. simpl. split; [done|lia].
  - destruct (_ && _ && _) eqn:E2; [|done]. intros [= <-].
    apply andb_true_iff in E2 as [E2 _]. apply andb_true_iff in E2 as [E2 _].
    apply Nat.eqb_eq in E2. unfold NIP19_KEY_LENGTH in E2. simpl. split; [done|lia].
Qed.

(** A credential the keyring can hold: a canonical request and a canonical secret
    of 64 characters.  The shorter encoded form of a key would be stored and never
    read back. *)
Definition keyring_storable (r : DurableRequestId) (x : SecretKeyInput) : Prop :=
  DurableRequestId_parse r = Ok r /\ reparses x /\ length (ski_value x) = 64%nat.

Lemma decode_encode r x : keyring_storable r x -> decode_credential (encode_credential r x) = Ok (r, x).
Proof.
  intros (Hr & Hx & Hl). unfold decode_credential, encode_credential. cbv zeta.
  destruct (DurableRequestId_parse_Ok _ _ Hr) as [_ Hr'].
  set (d := CREDENTIAL_ENVELOPE_DOMAIN).
  assert (length (d ++ r ++ [Byte.x00] ++ ski_value x) = (length d + 36 + 1 + 64)%nat) as Hlen.
  { rewrite !length_app, Hr', Hl. simpl. lia. }
  rewrite Hlen, Nat.eqb_refl. unfold starts_with.
  rewrite take_app_length, bool_decide_true by done. change (negb true) with false.
  assert ((d ++ r ++ [Byte.x00] ++ ski_value x) !! (length d + 36)%nat = Some Byte.x00) as ->.
  { rewrite lookup_app_r, lookup_app_r by lia.
    replace (length d + 36 - length d - length r)%nat with 0%nat by lia. done. }
  rewrite bool_decide_true by done. cbn [negb orb].
  rewrite drop_app_length, take_app_length', Hr by done. cbn [map_err bind].
  replace (d ++ r ++ [Byte.x00] ++ ski_value x) with ((d ++ r ++ [Byte.x00]) ++ ski_value x)
    by by rewrite <- !(assoc_L (++)).
  rewrite drop_app_length' by (rewrite !length_app, Hr'; simpl; lia).
  unfold SecretKeyInput_parse_bytes. rewrite Hl, Hx. done.
Qed.

Definition keyring_ok (s : keyring) : Prop :=
  forall account encoded, keyring_item s account = Some encoded ->
    exists r x, decode_credential encoded = Ok (r, x).

Definition keyring_credential (s : keyring) (k : PublicKey) : option StoredCredential :=
  encoded ← keyring_item s (PublicKey_to_hex k);
  match decode_credential encoded with
  | Ok (r, x) => Some {| cred_request_id := r; cred_secret := ski_value x |}
  | Err _ => None
  end.

Lemma decode_reparses encoded r x : decode_credential encoded = Ok (r, x) -> reparses x.
Proof.
  unfold decode_credential. cbv zeta. destruct (_ || _ || _); [done|].
  destruct (DurableRequestId_parse _) as [r'|]; cbn [map_err bind]; [|done].
  unfold SecretKeyInput_parse_bytes. destruct (_ <? _)%nat; cbn [map_err bind]; [done|].
  destruct (SecretKeyInput_parse _) as [x'|] eqn:E; cbn [map_err bind]; [|done].
  intros [= _ <-]. unfold reparses. by rewrite (proj1 (SecretKeyInput_parse_value _ _ E)).
Qed.

(** An item of the keyring, read back. *)
Lemma keyring_item_cases s k :
  keyring_ok s ->
  match keyring_credential s k with
  | None => keyring_item s (PublicKey_to_hex k) = None
  | Some c => exists encoded x, keyring_item s (PublicKey_to_hex k) = Some encoded /\
      decode_credential encoded = Ok (cred_request_id c, x) /\ ski_value x = cred_secret c /\
      reparses x
  end.
Proof.
  intros Hok. unfold keyring_credential.
  destruct (keyring_item s (PublicKey_to_hex k)) as [encoded|] eqn:E; simpl; [|done].
  destruct (Hok _ _ E) as (r & x & Hd). rewrite Hd. exists encoded, x. simpl.
  split_and!; [done..|]. by eapply decode_reparses.
Qed.

Lemma keyring_create_run s r k x s' :
  keyring_ok s -> keyring_storable r x ->
  (forall a, keyring_item s' a = if decide (PublicKey_to_hex k = a)
     then Some (encode_credential r x) else keyring_item s a) ->
  keyring_ok s' /\
  forall k', keyring_credential s' k' =
    if decide (k = k') then Some {| cred_request_id := r; cred_secret := ski_value x |}
    else keyring_credential s k'.
Proof.
  intros Hok Hst Hi. split.
  - intros account encoded. rewrite Hi. case_decide; [|apply Hok]. intros [= <-].
    exists r, x. by apply decode_encode.
  - intros k'. unfold keyring_credential. rewrite Hi. case_decide as E1; case_decide as E2.
    + simpl. by rewrite decode_encode.
    + by apply PublicKey_to_hex_inj in E1.
    + by subst.
    + done.
Qed.

Program Definition os_keyring_store : SecretStore := {|
  secret_store := keyring;
  store_ok := keyring_ok;
  storable := keyring_storable;
  credential := keyring_credential;
  secret_put := keyring_put;
  secret_verify := keyring_verify;
  secret_load := keyring_load;
  secret_contains := keyring_contains;
  secret_delete := keyring_delete
|}.
Next Obligation.
  intros s r k x Hok Hst Hn. pose proof (keyring_item_cases s k Hok) as Hc.
  rewrite Hn in Hc.
  unfold keyring_put. cbv zeta.
  pose proof (platform_create_law s (PublicKey_to_hex k) r (encode_credential r x)) as Hp.
  rewrite Hc in Hp. destruct Hp as (s' & -> & Hi). exists s'. split; [done|].
  by apply keyring_create_run.
Qed.
Next Obligation.
  intros s r k x c Hok Hn. pose proof (keyring_item_cases s k Hok) as Hc. rewrite Hn in Hc.
  destruct Hc as (encoded & y & Hi & Hd & Hv & _). unfold keyring_put. cbv zeta.
  pose proof (platform_create_law s (PublicKey_to_hex k) r (encode_credential r x)) as Hp.
  rewrite Hi in Hp. rewrite Hp, platform_read_law, Hi. cbn [ok_or map_err bind].
  unfold verify_existing_replay. rewrite Hd. cbn [bind]. rewrite Hv. eexists. split; [done|].
  destruct (_ && _) eqn:E; [|done]. intros _. breflect. destruct c. simpl in *. congruence.
Qed.
Next Obligation.
  intros s r k x Hok. pose proof (keyring_item_cases s k Hok) as Hc. unfold keyring_verify.
  rewrite platform_read_law.
  destruct (keyring_credential s k) as [c|]; [|by rewrite Hc].
  destruct Hc as (encoded & y & Hi & Hd & Hv & _). rewrite Hi. cbn [ok_or map_err bind].
  unfold verify_replay_binding, verify_existing_replay. rewrite Hd. cbn [bind]. rewrite Hv.
  by destruct (_ && _).
Qed.
Next Obligation.
  intros s k Hok. pose proof (keyring_item_cases s k Hok) as Hc. unfold keyring_load.
  rewrite platform_read_law.
  destruct (keyring_credential s k) as [c|]; [|by rewrite Hc].
  destruct Hc as (encoded & y & Hi & Hd & Hv & Hr). exists y. rewrite Hi. cbn [ok_or map_err bind].
  rewrite Hd. cbn [bind]. rewrite <- Hv. done.
Qed.
Next Obligation.
  intros s k Hok. pose proof (keyring_item_cases s k Hok) as Hc. unfold keyring_contains.
  rewrite platform_read_law.
  destruct (keyring_credential s k) as [c|]; [|by rewrite Hc].
  destruct Hc as (encoded & y & Hi & Hd & _ & _). rewrite Hi. cbn [ok_or]. by rewrite Hd.
Qed.
Next Obligation.
  intros s r k c Hok Hn. pose proof (keyring_item_cases s k Hok) as Hc. rewrite Hn in Hc.
  destruct Hc as (encoded & y & Hi & _). unfold keyring_delete.
  pose proof (platform_delete_law s (PublicKey_to_hex k)) as Hp. rewrite Hi in Hp.
  destruct Hp as (s' & -> & Hd). exists s'. split; [done|]. split.
  - intros a e. rewrite Hd. case_decide; [done|]. apply Hok.
  - intros k'. unfold keyring_credential. rewrite Hd. case_decide as E1; case_decide as E2.
    + done.
    + by apply PublicKey_to_hex_inj in E1.
    + by subst.
    + done.
Qed.
Next Obligation.
  intros s r k Hok Hn. pose proof (keyring_item_cases s k Hok) as Hc.
  rewrite Hn in Hc.
  unfold keyring_delete. pose proof (platform_delete_law s (PublicKey_to_hex k)) as Hp.
  rewrite Hc in Hp. by rewrite Hp.
Qed.
End OsKeyring.
