(* ===== verification/Durable.v ===== *)
(** * Durable operations on identities

    The application's operations on saved identities ([identities.rs],
    [session.rs], [custody.rs], [app_core.rs]) and their recovery
    ([recovery.rs]), over the state database, a credential store and the
    application core.

    Every call to a port may fail.  A run is given the fate of its calls in
    advance: a call works, does not take place, takes place or not without the
    caller learning which, or is the last one of a run that is dropped while it
    waits, because its deadline passes or the process ends.  A failed call raises an
    error the caller sees, a dropped run executes nothing more. *)

From Stdlib Require Import Bool ZArith Lia Strings.Byte Strings.String.
From stdpp Require Import base decidable option list numbers strings.
From S2P Require Import Prelude Containers Encoding Hub Reference Identity Profile Snapshot Session Core Database Secrets.

Definition recovery_required : SafeError :=
  SafeError_new SafeErrorCode.PendingOperationRecoveryRequired
    "Identity recovery is required before this operation can continue.".
Definition operation_conflict : SafeError :=
  SafeError_new SafeErrorCode.InvalidApplicationState
    "The identity operation conflicts with the current application state.".
Definition identity_exists : SafeError :=
  SafeError_new SafeErrorCode.IdentityAlreadyExists "The Nostr identity is already saved.".
Definition invalid_credential : SafeError :=
  SafeError_new SafeErrorCode.InvalidSecretKey "The Nostr identity credential is invalid.".

(** The provider of key material: a pair from fresh entropy, and the canonical
    form of an imported secret with its public identity. *)
Class KeyMaterialProvider := {
  km_generate : nat -> result (PublicKey * Npub * SecretKeyInput * list byte) SafeError;
  km_import : SecretKeyInput -> result (PublicKey * Npub * SecretKeyInput) SafeError
}.

Inductive Fault :=
| Works
| NotCommitted
| OutcomeUnknown (committed : bool)
| Cut (committed : bool).
#[global] Instance Fault_eq_dec : EqDecision Fault.
Proof. solve_decision. Defined.

(** How a run ends without a result. *)
Inductive stop :=
| Raised (error : SafeError)
| Dropped.
#[global] Instance stop_eq_dec : EqDecision stop.
Proof. solve_decision. Defined.

Section Durable.
Context `{RelayTransport, NostrKeys, KeyMaterialProvider, SecretStore} (clock : nat -> UnixTimestamp).

(** [w_ticks] counts the readings of the clock and the draws of key material. *)
Record World := {
  w_database : Database;
  w_secrets : secret_store;
  w_core : AppCore;
  w_ticks : nat;
  w_faults : list Fault
}.
Definition io (A : Type) : Type := stm World stop A.
Definition io_lift {A} (r : result A SafeError) : io A := stm_lift (map_err Raised r).

Definition set_database (db : Database) (w : World) : World := {|
  w_database := db; w_secrets := w_secrets w; w_core := w_core w;
  w_ticks := w_ticks w; w_faults := w_faults w |}.
Definition set_secrets (s : secret_store) (w : World) : World := {|
  w_database := w_database w; w_secrets := s; w_core := w_core w;
  w_ticks := w_ticks w; w_faults := w_faults w |}.
Definition set_core (c : AppCore) (w : World) : World := {|
  w_database := w_database w; w_secrets := w_secrets w; w_core := c;
  w_ticks := w_ticks w; w_faults := w_faults w |}.
Definition tick (w : World) : World := {|
  w_database := w_database w; w_secrets := w_secrets w; w_core := w_core w;
  w_ticks := S (w_ticks w); w_faults := w_faults w |}.
Definition next_fault (w : World) : Fault * World :=
  (default Works (head (w_faults w)),
   {| w_database := w_database w; w_secrets := w_secrets w; w_core := w_core w;
      w_ticks := w_ticks w; w_faults := tail (w_faults w) |}).

(** [Clock::now]. *)
Definition now : io UnixTimestamp := fun w => (tick w, Ok (clock (w_ticks w))).

(** A transaction of the database, with the errors of [map_transaction_phase]. *)
Definition database {A} (t : transaction A) : io A := fun w =>
  let (fault, w) := next_fault w in
  let w' := match t (w_database w) with Ok (db, _) => set_database db w | Err _ => w end in
  match fault with
  | Works =>
      match t (w_database w) with Ok (_, a) => (w', Ok a) | Err e => (w', Err (Raised e)) end
  | NotCommitted => (w, Err (Raised storage_unavailable))
  | OutcomeUnknown committed =>
      (if committed then w' else w, Err (Raised unconfirmed_transaction_outcome))
  | Cut committed => (if committed then w' else w, Err Dropped)
  end.

(** A call to the credential store. *)
Definition secrets {A} (m : stm secret_store SafeError A) : io A := fun w =>
  let (fault, w) := next_fault w in
  let (s, r) := m (w_secrets w) in
  match fault with
  | Works => (set_secrets s w, map_err Raised r)
  | NotCommitted => (w, Err (Raised keyring_unavailable))
  | OutcomeUnknown committed =>
      (if committed then set_secrets s w else w, Err (Raised keyring_unavailable))
  | Cut committed => (if committed then set_secrets s w else w, Err Dropped)
  end.
Definition secrets_read {A} (f : secret_store -> result A SafeError) : io A :=
  secrets (fun s => (s, f s)).

Definition core {A} (m : stm AppCore SafeError A) : io A := fun w =>
  let (c, r) := m (w_core w) in (set_core c w, map_err Raised r).
Definition core_snapshot : io AppSnapshot := fun w => (w, Ok (snapshot (w_core w))).
Definition key_material {A} (f : nat -> result A SafeError) : io A := fun w =>
  (tick w, map_err Raised (f (w_ticks w))).

(** The outcome of a block, without [?]. *)
Definition attempt {A} (m : io A) : io (result A SafeError) := fun w =>
  match m w with
  | (w, Ok a) => (w, Ok (Ok a))
  | (w, Err (Raised e)) => (w, Ok (Err e))
  | (w, Err Dropped) => (w, Err Dropped)
  end.

Fixpoint for_each {A} (f : A -> io unit) (l : list A) : io unit :=
  match l with
  | [] => stm_ret tt
  | a :: l => do! _ <- f a; for_each f l
  end.

(** ** Helpers of [identities.rs] *)

Definition local_keyring_binding (identity : NostrIdentity) : result LocalKeyringBinding SafeError :=
  ok_or (as_local_keyring (ni_signer_binding identity)) recovery_required.

Definition require_revision (expected_revision : Z) : io unit :=
  do! s <- core_snapshot;
  io_lift (if negb (raw (as_revision s) =? expected_revision) then Err operation_conflict else Ok tt).

Definition is_completed (operation : DurableIdentityOperation) : bool :=
  is_some_and (dio_terminal operation)
    (fun receipt => dor_outcome receipt ==? DurableTerminalOutcome.Completed).

Definition require_completed_identity_operation (operation : DurableIdentityOperation)
  : result unit SafeError :=
  if (dio_phase operation !=? DurableOperationPhase.Finalized) || negb (is_completed operation)
  then Err recovery_required else Ok tt.

Definition verify_completed_identity_replay (operation : DurableIdentityOperation)
    (request_id : DurableRequestId) (kind : DurableOperationKind) (expected_revision : Z)
    (key : PublicKey) (secret : SecretKeyInput) : io unit :=
  do! _ <- io_lift (if (dio_request_id operation !=? request_id) || (dio_kind operation !=? kind)
                        || (dio_identity operation !=? key)
                        || (dio_expected_revision operation !=? Some expected_revision)
                     then Err operation_conflict else Ok tt);
  do! _ <- io_lift (require_completed_identity_operation operation);
  do! receipt <- io_lift (ok_or (dio_terminal operation) recovery_required);
  do! _ <- io_lift (if (dor_request_id receipt !=? request_id) || (dor_identity receipt !=? key)
                     then Err operation_conflict else Ok tt);
  secrets_read (secret_verify request_id key secret).

Definition new_identity (key : PublicKey) (npub : Npub) (created_at : UnixTimestamp)
  : result NostrIdentity SafeError :=
  let? reference := NostrIdentityReference_verify key (raw npub) in
  NostrIdentity_new reference
    (LocalKeyring (LocalKeyringBinding_new key SignerAvailability.Available)) None created_at None.

(** ** Adding an identity *)

Definition advance (request_id : DurableRequestId) (expected next : DurableOperationPhase)
  : io unit :=
  do! at_ <- now;
  do! _ <- database (advance_durable_operation request_id expected next at_ None);
  stm_ret tt.
Definition finalize (request_id : DurableRequestId) (expected : DurableOperationPhase)
    (outcome : DurableTerminalOutcome) (resulting_revision : option Z) : io unit :=
  do! at_ <- now;
  do! _ <- database (finalize_durable_operation request_id expected outcome resulting_revision at_);
  stm_ret tt.

(** The steps after a new operation was recorded. *)
Definition persist_started (request_id : DurableRequestId) (identity : NostrIdentity)
    (secret : SecretKeyInput) (previous : option NostrIdentity) : io NostrIdentity :=
  let key := public_key identity in
  do! _ <- secrets (secret_put request_id key secret);
  do! _ <- advance request_id DurableOperationPhase.IntentRecorded
             DurableOperationPhase.CredentialWritten;
  do! _ <- (if is_some previous then database (update_identity identity)
            else database (insert_identity identity));
  do! _ <- advance request_id DurableOperationPhase.CredentialWritten
             DurableOperationPhase.MetadataCommitted;
  do! _ <- database (save_selected_identity (Some key));
  do! _ <- advance request_id DurableOperationPhase.MetadataCommitted
             DurableOperationPhase.SelectionCommitted;
  do! registry <- database list_identities;
  do! s <- core (apply_transition (ReplaceRegistry registry (Some key)));
  do! _ <- finalize request_id DurableOperationPhase.SelectionCommitted
             DurableTerminalOutcome.Completed (Some (raw (as_revision s)));
  stm_ret identity.

Definition persist_identity_durable (request_id : DurableRequestId) (kind : DurableOperationKind)
    (expected_revision : Z) (identity : NostrIdentity) (secret : SecretKeyInput)
    (previous : option NostrIdentity) : io NostrIdentity :=
  let key := public_key identity in
  do! prior_binding <- io_lift (transpose_map local_keyring_binding previous);
  do! selected <- database load_selected_identity;
  let prior := {| op_selected_identity := selected;
                  op_binding_availability := lkb_availability <$> prior_binding |} in
  do! at_ <- now;
  do! start <- database
    (begin_durable_operation request_id kind key (Some expected_revision) prior at_);
  match start with
  | Existing operation =>
      do! _ <- verify_completed_identity_replay operation request_id kind expected_revision key secret;
      do! found <- database (find_identity (dio_identity operation));
      io_lift (ok_or found recovery_required)
  | Started _ => persist_started request_id identity secret previous
  end.

Definition generate_identity_durable (request_id : DurableRequestId) (expected_revision : Z)
  : io (NostrIdentity * list byte) :=
  do! _ <- require_revision expected_revision;
  do! (key, npub, secret, nsec) <- key_material km_generate;
  do! at_ <- now;
  do! identity <- io_lift (new_identity key npub at_);
  do! identity <- persist_identity_durable request_id DurableOperationKind.Create expected_revision
                    identity secret None;
  stm_ret (identity, nsec).

Definition import_secret_key_durable (request_id : DurableRequestId) (expected_revision : Z)
    (input : SecretKeyInput) : io NostrIdentity :=
  do! existing <- database (load_durable_operation request_id);
  match existing with
  | Some existing =>
      do! _ <- io_lift (match dio_kind existing with
                         | DurableOperationKind.Import | DurableOperationKind.Repair => Ok tt
                         | _ => Err operation_conflict
                         end);
      do! _ <- io_lift (require_completed_identity_operation existing);
      do! (key, _, secret) <- io_lift (km_import input);
      do! _ <- verify_completed_identity_replay existing request_id (dio_kind existing)
                 expected_revision key secret;
      do! found <- database (find_identity key);
      io_lift (ok_or found recovery_required)
  | None =>
      do! _ <- require_revision expected_revision;
      do! (key, npub, secret) <- io_lift (km_import input);
      do! previous <- database (find_identity key);
      do! _ <- match previous with
               | Some existing =>
                   do! binding <- io_lift (local_keyring_binding existing);
                   if lkb_availability binding !=? SignerAvailability.CredentialMissing
                   then io_lift (Err identity_exists)
                   else do! present <- secrets_read (secret_contains key);
                        io_lift (if present : bool then Err identity_exists else Ok tt)
               | None =>
                   do! present <- secrets_read (secret_contains key);
                   io_lift (if present : bool then Err identity_exists else Ok tt)
               end;
      do! identity <- match previous with
                      | Some existing =>
                          io_lift (ok_or (with_local_keyring_availability existing
                                             SignerAvailability.Available) recovery_required)
                      | None => do! at_ <- now; io_lift (new_identity key npub at_)
                      end;
      let kind := if is_some previous then DurableOperationKind.Repair
                  else DurableOperationKind.Import in
      persist_identity_durable request_id kind expected_revision identity secret previous
  end.

Record StagedGeneratedKey := {
  sg_id : Z;
  sg_identity : NostrIdentity;
  sg_secret : SecretKeyInput;
  sg_expected_revision : Z;
  sg_expires_at : UnixTimestamp
}.

Definition commit_staged_generated_key (request_id : DurableRequestId) (staged : StagedGeneratedKey)
  : io NostrIdentity :=
  do! _ <- require_revision (sg_expected_revision staged);
  persist_identity_durable request_id DurableOperationKind.Create (sg_expected_revision staged)
    (sg_identity staged) (sg_secret staged) None.

(** ** Removing an identity *)

Fixpoint position {A} (p : A -> bool) (l : list A) : option nat :=
  match l with
  | [] => None
  | a :: l => if p a then Some O else S <$> position p l
  end.

(** The neighbour that takes over a selection: the next in the list, or the one
    before the last. *)
Definition neighbour (registry : list NostrIdentity) (index : nat) : option PublicKey :=
  public_key <$>
    match registry !! S index with
    | Some next => Some next
    | None => match index with O => None | S before => registry !! before end
    end.

(** The steps after a new removal was recorded. *)
Definition removal_started (request_id : DurableRequestId) (key : PublicKey)
    (availability : SignerAvailability) (selected : option PublicKey) : io AppSnapshot :=
  do! s <- core_snapshot;
  do! _ <- (if signs_out key s then do! _ <- core AppCore_sign_out; stm_ret tt
            else stm_ret tt);
  do! deleted <- attempt (secrets (secret_delete request_id key));
  do! _ <- io_lift (match deleted with
                     | Ok _ => Ok tt
                     | Err error =>
                         if (se_code error ==? SafeErrorCode.CredentialMissing)
                            && (availability ==? SignerAvailability.CredentialMissing)
                         then Ok tt else Err error
                     end);
  do! _ <- advance request_id DurableOperationPhase.IntentRecorded
             DurableOperationPhase.CredentialDeleted;
  do! _ <- database (remove_identity key);
  do! _ <- advance request_id DurableOperationPhase.CredentialDeleted
             DurableOperationPhase.MetadataDeleted;
  do! _ <- database (save_selected_identity selected);
  do! _ <- advance request_id DurableOperationPhase.MetadataDeleted
             DurableOperationPhase.SelectionCommitted;
  do! registry <- database list_identities;
  do! s <- core (apply_transition (ReplaceRegistryPreservingSession registry selected));
  do! _ <- finalize request_id DurableOperationPhase.SelectionCommitted
             DurableTerminalOutcome.Completed (Some (raw (as_revision s)));
  stm_ret s.

(** The indexing [registry[index]] cannot be out of range: [index] is a position of the list. *)
Definition confirm_identity_removal_durable (request_id : DurableRequestId)
    (token : RemovalConfirmationToken) : io AppSnapshot :=
  let expected_revision := raw (rt_revision token) in
  do! at_ <- now;
  do! key <- core (consume_removal_token token at_);
  do! _ <- require_revision expected_revision;
  do! registry <- database list_identities;
  do! index <- io_lift (ok_or (position (fun identity => public_key identity ==? key) registry)
                           identity_not_found);
  do! s <- core_snapshot;
  let selected := if as_selected_identity s ==? Some key then neighbour registry index
                  else as_selected_identity s in
  do! identity <- io_lift (ok_or (registry !! index) identity_not_found);
  do! local_keyring <- io_lift (local_keyring_binding identity);
  let prior := {| op_selected_identity := selected;
                  op_binding_availability := Some (lkb_availability local_keyring) |} in
  do! at_ <- now;
  do! start <- database (begin_durable_operation request_id DurableOperationKind.Remove key
                           (Some expected_revision) prior at_);
  match start with
  | Existing operation =>
      if is_completed operation then core_snapshot else io_lift (Err recovery_required)
  | Started _ => removal_started request_id key (lkb_availability local_keyring) selected
  end.

(** ** Selecting, activating and bootstrapping *)

Definition select_identity (key : PublicKey) : io AppSnapshot :=
  do! found <- database (find_identity key);
  do! _ <- io_lift (if is_none found then Err identity_not_found else Ok tt);
  do! _ <- database (save_selected_identity (Some key));
  core (apply_transition (Select key)).

Definition prepare_activation (key : PublicKey) (identity : NostrIdentity)
  : io ActiveIdentitySnapshot :=
  do! credential <- secrets_read (secret_load key);
  do! (derived, _, _) <- io_lift (km_import credential);
  do! _ <- io_lift (if derived !=? key then Err invalid_credential else Ok tt);
  do! cached <- database (load_profile key);
  do! at_ <- now;
  let active := {|
    ai_identity := with_last_used_at identity at_;
    ai_relay_state := RelayConnectionState.Disconnected;
    ai_profile_state := if is_some cached then ProfileLoadState.Cached else ProfileLoadState.Empty;
    ai_profile := (fun profile => kp_metadata (cp_candidate profile)) <$> cached |} in
  do! _ <- database (update_identity (ai_identity active));
  do! _ <- database (save_selected_identity (Some key));
  stm_ret active.

Definition activate_identity (key : PublicKey) : io AppSnapshot :=
  do! found <- database (find_identity key);
  do! identity <- io_lift (ok_or found identity_not_found);
  do! _ <- core (apply_transition (BeginActivation key));
  do! prepared <- attempt (prepare_activation key identity);
  match prepared with
  | Ok active => core (apply_transition (ActivationSucceeded active))
  | Err error => do! _ <- core (apply_transition (ActivationFailed error)); io_lift (Err error)
  end.

Definition bootstrap_from : io AppSnapshot :=
  do! loaded <- attempt (do! identities <- database list_identities;
                         do! selected <- database load_selected_identity;
                         stm_ret (identities, selected));
  match loaded with
  | Ok (identities, selected) => core (apply_transition (BootstrapRegistry identities selected))
  | Err error => do! _ <- core (apply_transition (Fatal error)); io_lift (Err error)
  end.

(** ** Recovery *)

Definition delete_if_present (request_id : DurableRequestId) (key : PublicKey) : io unit :=
  do! present <- secrets_read (secret_contains key);
  if present : bool then secrets (secret_delete request_id key) else stm_ret tt.

Definition remove_if_present (key : PublicKey) : io unit :=
  do! found <- database (find_identity key);
  if is_some found then database (remove_identity key) else stm_ret tt.

(** The phases of a removal, from the one the journal holds. *)
Definition removal_selection (operation : DurableIdentityOperation) (phase : DurableOperationPhase)
  : io unit :=
  do! phase <- (if phase ==? DurableOperationPhase.MetadataDeleted then
                  do! _ <- database (save_selected_identity
                                       (op_selected_identity (dio_prior operation)));
                  do! _ <- advance (dio_request_id operation) phase
                             DurableOperationPhase.SelectionCommitted;
                  stm_ret DurableOperationPhase.SelectionCommitted
                else stm_ret phase);
  if phase ==? DurableOperationPhase.SelectionCommitted then
    finalize (dio_request_id operation) phase DurableTerminalOutcome.Completed None
  else stm_ret tt.

Definition removal_metadata (operation : DurableIdentityOperation) (phase : DurableOperationPhase)
  : io unit :=
  do! phase <- (if phase ==? DurableOperationPhase.CredentialDeleted then
                  do! _ <- remove_if_present (dio_identity operation);
                  do! _ <- advance (dio_request_id operation) phase
                             DurableOperationPhase.MetadataDeleted;
                  stm_ret DurableOperationPhase.MetadataDeleted
                else stm_ret phase);
  removal_selection operation phase.

Definition recover_durable_removal (operation : DurableIdentityOperation) : io unit :=
  do! phase <- (if dio_phase operation ==? DurableOperationPhase.IntentRecorded then
                  do! _ <- delete_if_present (dio_request_id operation) (dio_identity operation);
                  do! _ <- advance (dio_request_id operation) (dio_phase operation)
                             DurableOperationPhase.CredentialDeleted;
                  stm_ret DurableOperationPhase.CredentialDeleted
                else stm_ret (dio_phase operation));
  removal_metadata operation phase.

Definition finish_durable_selection (operation : DurableIdentityOperation) : io unit :=
  do! _ <- database (save_selected_identity (Some (dio_identity operation)));
  do! _ <- advance (dio_request_id operation) DurableOperationPhase.MetadataCommitted
             DurableOperationPhase.SelectionCommitted;
  finalize (dio_request_id operation) DurableOperationPhase.SelectionCommitted
    DurableTerminalOutcome.Completed None.

Definition compensate_durable_addition (operation : DurableIdentityOperation) : io unit :=
  do! _ <- delete_if_present (dio_request_id operation) (dio_identity operation);
  do! _ <- match op_binding_availability (dio_prior operation) with
           | Some availability =>
               do! previous <- database (find_identity (dio_identity operation));
               match previous with
               | Some previous =>
                   do! restored <- io_lift (ok_or (with_local_keyring_availability previous
                                                      availability) recovery_required);
                   database (update_identity restored)
               | None => stm_ret tt
               end
           | None => remove_if_present (dio_identity operation)
           end;
  do! _ <- database (save_selected_identity (op_selected_identity (dio_prior operation)));
  do! _ <- advance (dio_request_id operation) DurableOperationPhase.CompensationPending
             DurableOperationPhase.CredentialDeleted;
  finalize (dio_request_id operation) DurableOperationPhase.CredentialDeleted
    DurableTerminalOutcome.Failed None.

Definition is_available (saved : NostrIdentity) : bool :=
  is_some_and (as_local_keyring (ni_signer_binding saved))
    (fun binding => lkb_availability binding ==? SignerAvailability.Available).

Definition recover_durable_addition (operation : DurableIdentityOperation) : io unit :=
  let request := dio_request_id operation in
  let identity := dio_identity operation in
  match dio_phase operation with
  | DurableOperationPhase.IntentRecorded =>
      do! _ <- delete_if_present request identity;
      finalize request DurableOperationPhase.IntentRecorded DurableTerminalOutcome.Failed None
  | DurableOperationPhase.CredentialWritten =>
      do! metadata <- database (find_identity identity);
      if is_some_and metadata is_available then
        do! _ <- advance request DurableOperationPhase.CredentialWritten
                   DurableOperationPhase.MetadataCommitted;
        finish_durable_selection operation
      else
        do! _ <- advance request DurableOperationPhase.CredentialWritten
                   DurableOperationPhase.CompensationPending;
        compensate_durable_addition operation
  | DurableOperationPhase.MetadataCommitted => finish_durable_selection operation
  | DurableOperationPhase.SelectionCommitted =>
      finalize request DurableOperationPhase.SelectionCommitted DurableTerminalOutcome.Completed None
  | DurableOperationPhase.CompensationPending => compensate_durable_addition operation
  | DurableOperationPhase.CredentialDeleted | DurableOperationPhase.MetadataDeleted =>
      finalize request (dio_phase operation) DurableTerminalOutcome.Failed None
  | DurableOperationPhase.Finalized => stm_ret tt
  end.

Definition recover_durable_operations : io unit :=
  do! operations <- database list_unfinished_durable_operations;
  for_each (fun operation =>
    match dio_kind operation with
    | DurableOperationKind.Create | DurableOperationKind.Import | DurableOperationKind.Repair =>
        recover_durable_addition operation
    | DurableOperationKind.Remove => recover_durable_removal operation
    end) operations.

(** [PersistentAppCore::bootstrap]: the journal first, then the public state. *)
Definition persistent_bootstrap : io AppSnapshot :=
  do! _ <- recover_durable_operations;
  bootstrap_from.
End Durable.
