(* ===== verification/Recovery.v ===== *)
(** * Recovery of durable operations

    What the operations of [Durable] promise however their port calls fare: an
    identity is added or removed as a whole or not at all, recovery reaches that
    state from every point at which a run can stop, and repeating it changes
    nothing.  A small logic of runs carries the proofs: an assertion before, one
    for the result, and one that holds at every point where the run may stop. *)

From Stdlib Require Import Bool ZArith Lia Strings.Byte Strings.String.
From stdpp Require Import base decidable option list numbers strings sorting sets relations.
From S2P Require Import Prelude Containers Encoding Hub Reference Identity Profile Snapshot Session Core Database Secrets Durable.

(** ** Rows of the journal, rewritten *)

Definition with_phase (op : DurableIdentityOperation) (next : DurableOperationPhase)
    (t : UnixTimestamp) : DurableIdentityOperation := {|
  dio_request_id := dio_request_id op; dio_kind := dio_kind op; dio_identity := dio_identity op;
  dio_expected_revision := dio_expected_revision op; dio_phase := next; dio_prior := dio_prior op;
  dio_updated_at := t; dio_diagnostic := None; dio_terminal := None |}.
Definition with_receipt (op : DurableIdentityOperation) (outcome : DurableTerminalOutcome)
    (revision : option Z) (t : UnixTimestamp) : DurableIdentityOperation := {|
  dio_request_id := dio_request_id op; dio_kind := dio_kind op; dio_identity := dio_identity op;
  dio_expected_revision := dio_expected_revision op;
  dio_phase := DurableOperationPhase.Finalized; dio_prior := dio_prior op; dio_updated_at := t;
  dio_diagnostic := dio_diagnostic op;
  dio_terminal := Some {| dor_request_id := dio_request_id op; dor_identity := dio_identity op;
    dor_outcome := outcome; dor_resulting_revision := revision; dor_completed_at := t |} |}.

Lemma bt_insert_insert {K V} `{TotalOrd K, EqDecision K} (k : K) (v v' : V) m :
  bt_wf m -> bt_insert k v' (bt_insert k v m) = bt_insert k v' m.
Proof.
  intros Hw. apply bt_ext; [auto with hub..|]. intros k'. rewrite !bt_get_insert. by case_decide.
Qed.
Lemma bt_insert_same {K V} `{TotalOrd K, EqDecision K} (k : K) (v : V) m :
  bt_wf m -> bt_get k m = Some v -> bt_insert k v m = m.
Proof.
  intros Hw Hg. apply bt_ext; [auto with hub..|]. intros k'. rewrite bt_get_insert.
  by case_decide; subst.
Qed.

(** One unfinished row, the rest of the journal finished. *)
Lemma unfinished_insert r op ops :
  bt_wf ops -> unfinished ops = [] ->
  unfinished (bt_insert r op ops) = if is_unfinished op then [op] else [].
Proof.
  intros Hw Hu. assert (unfinished (bt_remove r ops) = []) as Hr.
  { rewrite unfinished_remove_finished; [done|]. intros op' Hg.
    destruct (is_unfinished op') eqn:E; [|done]. exfalso. apply (not_elem_of_nil op').
    rewrite <- Hu. apply elem_of_unfinished; eauto. }
  pose proof (unfinished_perm _ _ (bt_insert_perm r op ops Hw)) as Hp.
  rewrite unfinished_cons, Hr in Hp. destruct (is_unfinished op).
  - by apply Permutation_singleton_r in Hp.
  - by apply Permutation_nil_r in Hp.
Qed.

(** ** Runs that may stop at any call *)

Section Logic.
Context `{RelayTransport, NostrKeys, KeyMaterialProvider, SecretStore} (clock : nat -> UnixTimestamp).

Abbreviation io := (io (H2 := H2)).
Definition assertion : Type := Database -> secret_store -> AppCore -> Prop.
Definition holds (P : assertion) (w : World) : Prop :=
  P (w_database w) (w_secrets w) (w_core w).

(** No call of the run fails. *)
Definition quiet (w : World) : Prop := Forall (eq Works) (w_faults w).

(** From [P] a run ends in [Q] with its result, or with an error in a durable
    state of [G]; without a failing call it errs only if [fails]. *)
Definition triple {A} (fails : Prop) (P : assertion) (m : io A) (Q : A -> assertion)
    (G : Database -> secret_store -> Prop) : Prop :=
  forall w, holds P w ->
    let (w', r) := m w in
    (quiet w -> quiet w') /\
    match r with
    | Ok a => holds (Q a) w'
    | Err _ => (quiet w -> fails) /\ G (w_database w') (w_secrets w')
    end.

Lemma triple_ret {A} fails (P : assertion) (a : A) (Q : A -> assertion) G :
  (forall db s c, P db s c -> Q a db s c) -> triple fails P (stm_ret a) Q G.
Proof. intros HQ w HP. split; [done|]. by apply HQ. Qed.

Lemma triple_bind {A B} fails P (m : io A) R (k : A -> io B) Q G :
  triple fails P m R G -> (forall a, triple fails (R a) (k a) Q G) ->
  triple fails P (stm_bind m k) Q G.
Proof.
  intros Hm Hk w HP. unfold stm_bind. specialize (Hm w HP).
  destruct (m w) as [w1 [a|e]]; destruct Hm as [Hq Hr]; [|done].
  specialize (Hk a w1 Hr). destruct (k a w1) as [w2 [b|e]]; destruct Hk as [Hq' Hr'];
    (split; [auto|]); [done|]. destruct Hr' as [Hf Hg]. auto.
Qed.

Lemma triple_weaken {A} fails P P' (m : io A) Q Q' G :
  triple fails P m Q G -> (forall db s c, P' db s c -> P db s c) ->
  (forall a db s c, Q a db s c -> Q' a db s c) -> triple fails P' m Q' G.
Proof.
  intros Hm HP HQ w Hw. specialize (Hm w (HP _ _ _ Hw)).
  destruct (m w) as [w' [a|e]]; destruct Hm as [Hq Hr]; (split; [done|]); [by apply HQ|done].
Qed.

Lemma triple_mono {A} (fails fails' : Prop) P (m : io A) Q G G' :
  triple fails P m Q G -> (fails -> fails') -> (forall db s, G db s -> G' db s) ->
  triple fails' P m Q G'.
Proof.
  intros Hm Hf HG w Hw. specialize (Hm w Hw).
  destruct (m w) as [w' [a|e]]; destruct Hm as [Hq Hr]; (split; [done|]); [done|].
  destruct Hr. auto.
Qed.

Lemma triple_pure {A} fails (P : Prop) (P' : assertion) (m : io A) Q G :
  (P -> triple fails P' m Q G) -> triple fails (fun db s c => P /\ P' db s c) m Q G.
Proof. intros Hm w [HP Hw]. by apply Hm. Qed.

Lemma triple_exists {A X} fails (P : X -> assertion) (m : io A) Q G :
  (forall x, triple fails (P x) m Q G) -> triple fails (fun db s c => exists x, P x db s c) m Q G.
Proof. intros Hm w [x Hw]. by eapply Hm. Qed.

Lemma triple_or {A} fails (P P' : assertion) (m : io A) Q G :
  triple fails P m Q G -> triple fails P' m Q G ->
  triple fails (fun db s c => P db s c \/ P' db s c) m Q G.
Proof. intros Hm Hm' w [Hw|Hw]; [by apply Hm|by apply Hm']. Qed.

Lemma triple_lift {A} (fails : Prop) (P : assertion) (r : result A SafeError) (Q : A -> assertion) G :
  (forall db s c, P db s c ->
     match r with Ok a => Q a db s c | Err _ => fails /\ G db s end) ->
  triple fails P (io_lift r) Q G.
Proof.
  intros HQ w HP. specialize (HQ _ _ _ HP). unfold io_lift, stm_lift. split; [done|].
  destruct r; [done|]. by destruct HQ.
Qed.

Lemma triple_now fails (P : assertion) (Q : UnixTimestamp -> assertion) G :
  (forall t db s c, P db s c -> Q t db s c) -> triple fails P (now clock) Q G.
Proof. intros HQ w HP. split; [done|]. by apply HQ. Qed.

Lemma quiet_next w : quiet w -> quiet (next_fault w).2 /\ (next_fault w).1 = Works.
Proof.
  unfold quiet, next_fault. simpl. intros Hq. destruct (w_faults w); [done|].
  inversion Hq; subst. done.
Qed.

Lemma triple_database {A} (fails : Prop) (P : assertion) (t : transaction A) (Q : A -> assertion)
    (G : Database -> secret_store -> Prop) :
  (forall db s c, P db s c -> G db s /\
     match t db with Ok (db', a) => Q a db' s c /\ G db' s | Err _ => fails end) ->
  triple fails P (database t) Q G.
Proof.
  intros HQ w HP. destruct (HQ _ _ _ HP) as [HG Ht]. unfold database.
  pose proof (quiet_next w) as Hq. destruct (next_fault w) as [fault w1] eqn:En.
  unfold next_fault in En. injection En as Ef Ew. simpl in Hq. rewrite <- Ew in Hq |- *. simpl.
  destruct fault as [| |[]|[]]; destruct (t (w_database w)) as [[db a]|e]; simpl;
    (split; [intros Hw; by apply Hq|]); unfold holds; simpl; try destruct Ht;
    try (split; [intros Hw; destruct (Hq Hw); congruence|]); try done.
Qed.

Lemma triple_secrets {A} (fails : Prop) (P : assertion) (m : stm secret_store SafeError A)
    (Q : A -> assertion) (G : Database -> secret_store -> Prop) :
  (forall db s c, P db s c -> G db s /\
     let (s', r) := m s in G db s' /\ match r with Ok a => Q a db s' c | Err _ => fails end) ->
  triple fails P (secrets m) Q G.
Proof.
  intros HQ w HP. destruct (HQ _ _ _ HP) as [HG Ht]. unfold secrets.
  pose proof (quiet_next w) as Hq. destruct (next_fault w) as [fault w1] eqn:En.
  unfold next_fault in En. injection En as Ef Ew. simpl in Hq. rewrite <- Ew in Hq |- *. simpl.
  destruct (m (w_secrets w)) as [s' r]. destruct Ht as [HG' Hr].
  destruct fault as [| |[]|[]]; simpl; (split; [intros Hw; by apply Hq|]); unfold holds; simpl;
    try (split; [intros Hw; destruct (Hq Hw); congruence|done]).
  by destruct r.
Qed.

Lemma triple_secrets_read {A} (fails : Prop) (P : assertion) (f : secret_store -> result A SafeError)
    (Q : A -> assertion) (G : Database -> secret_store -> Prop) :
  (forall db s c, P db s c -> G db s /\
     match f s with Ok a => Q a db s c | Err _ => fails end) ->
  triple fails P (secrets_read f) Q G.
Proof. intros HQ. apply triple_secrets. intros db s c HP. destruct (HQ _ _ _ HP). done. Qed.

Lemma triple_core {A} (fails : Prop) (P : assertion) (m : stm AppCore SafeError A)
    (Q : A -> assertion) G :
  (forall db s c, P db s c ->
     let (c', r) := m c in match r with Ok a => Q a db s c' | Err _ => fails /\ G db s end) ->
  triple fails P (core m) Q G.
Proof.
  intros HQ w HP. specialize (HQ _ _ _ HP). unfold core.
  destruct (m (w_core w)) as [c' [a|e]]; (split; [done|]); [done|].
  destruct HQ. by split.
Qed.

Lemma triple_core_snapshot fails (P : assertion) (Q : AppSnapshot -> assertion) G :
  (forall db s c, P db s c -> Q (snapshot c) db s c) -> triple fails P core_snapshot Q G.
Proof. intros HQ w HP. split; [done|]. by apply HQ. Qed.

Lemma triple_attempt {A} fails P (m : io A) (D : Database -> secret_store -> Prop) :
  triple fails P m (fun _ db s _ => D db s) D ->
  triple fails P (attempt m) (fun _ db s _ => D db s) D.
Proof.
  intros Hm w HP. specialize (Hm w HP). unfold attempt.
  destruct (m w) as [w' [a|[e|]]]; destruct Hm as [Hq Hr]; (split; [done|]); [done| |done].
  by destruct Hr.
Qed.

Lemma triple_for_each {X} (fails : Prop) (f : X -> io unit) l (P : list X -> assertion) G :
  (forall x rest, triple fails (P (x :: rest)) (f x) (fun _ => P rest) G) ->
  triple fails (P l) (for_each f l) (fun _ => P []) G.
Proof.
  intros Hf. induction l as [|x l IH]; simpl; [by apply triple_ret|].
  eapply triple_bind; [apply Hf|]. intros a. exact IH.
Qed.

Lemma triple_advance (fails : Prop) (P : assertion) r expected next (Q : unit -> assertion) G :
  next <> DurableOperationPhase.Finalized ->
  (forall db s c, P db s c -> G db s /\ exists op, bt_get r (db_operations db) = Some op /\
     dio_phase op = expected /\ is_unfinished op = true /\
     forall t, let db' := set_operations (bt_insert r (with_phase op next t) (db_operations db)) db in
       Q tt db' s c /\ G db' s) ->
  triple fails P (advance clock r expected next) Q G.
Proof.
  intros Hn HQ. eapply triple_bind.
  { apply (triple_now _ _ (fun _ => P)). auto. }
  intros t. eapply (triple_bind _ _ _ (fun _ => Q tt)); [|intros ?; by apply triple_ret].
  apply triple_database. intros db s c HP. destruct (HQ _ _ _ HP) as (HG & op & Hg & Hp & Hu & Hq).
  split; [done|]. destruct (advance_durable_operation _ _ _ _ _ db) as [[db' op']|e] eqn:E.
  - apply advance_run in E as (op1 & Hg1 & _ & _ & _ & -> & ->). rewrite Hg in Hg1.
    injection Hg1 as <-. apply (Hq t).
  - exfalso. assert (advance_durable_operation r expected next t None db =
      Ok (set_operations (bt_insert r (with_phase op next t) (db_operations db)) db,
          with_phase op next t)); [|congruence].
    apply advance_run. by exists op.
Qed.

Lemma triple_finalize (fails : Prop) (P : assertion) r expected outcome revision
    (Q : unit -> assertion) G :
  (forall db s c, P db s c -> G db s /\ exists op, bt_get r (db_operations db) = Some op /\
     dio_phase op = expected /\ is_unfinished op = true /\
     (encode_revision revision <> Ok revision -> fails) /\
     forall t, let db' := set_operations
         (bt_insert r (with_receipt op outcome revision t) (db_operations db)) db in
       Q tt db' s c /\ G db' s) ->
  triple fails P (finalize clock r expected outcome revision) Q G.
Proof.
  intros HQ. eapply triple_bind.
  { apply (triple_now _ _ (fun _ => P)). auto. }
  intros t. eapply (triple_bind _ _ _ (fun _ => Q tt)); [|intros ?; by apply triple_ret].
  apply triple_database. intros db s c HP.
  destruct (HQ _ _ _ HP) as (HG & op & Hg & Hp & Hu & Hf & Hq). split; [done|].
  assert (bt_get r (db_operations db) ≫= dio_terminal = None) as Hn.
  { rewrite Hg. by apply is_none_None. }
  destruct (finalize_durable_operation _ _ _ _ _ db) as [[db' op']|e] eqn:E.
  - apply finalize_run in E as (op1 & Hg1 & _ & _ & -> & ->); [|done]. rewrite Hg in Hg1.
    injection Hg1 as <-. apply (Hq t).
  - apply Hf. intros He. assert (exists db' receipt,
      finalize_durable_operation r expected outcome revision t db = Ok (db', receipt))
      as (? & ? & ?); [|congruence].
    do 2 eexists. apply finalize_run; [done|]. by exists op.
Qed.
End Logic.

(** ** Adding an identity *)

Section Addition.
Context `{RelayTransport, NostrKeys, KeyMaterialProvider, SecretStore} (clock : nat -> UnixTimestamp).

(** The state the operation starts from, and the operation. *)
Context (db0 : Database) (s0 : secret_store) (ops : list (DurableRequestId * DurableIdentityOperation)).
Context (r : DurableRequestId) (kind : DurableOperationKind) (revision : Z).
Context (identity : NostrIdentity) (secret : SecretKeyInput).

Abbreviation key := (public_key identity).
Abbreviation previous := (bt_get key (db_identities db0)).
Definition availability_of (i : NostrIdentity) : SignerAvailability :=
  SignerBinding_availability (ni_signer_binding i).

Hypothesis db0_ok : database_ok db0.
Hypothesis s0_ok : store_ok s0.
Hypothesis ops_wf : bt_wf ops.
Hypothesis ops_finished : unfinished ops = [].
Hypothesis fits : storable r secret.
Hypothesis no_credential : credential s0 key = None.
Hypothesis not_a_removal : kind <> DurableOperationKind.Remove.
Hypothesis identity_available : is_available identity = true.
Hypothesis previous_repaired : forall p, previous = Some p ->
  is_available p = false /\ NostrIdentity_wf p /\
  with_local_keyring_availability p SignerAvailability.Available = Some identity.

Definition add_prior : OperationPriorState := {|
  op_selected_identity := db_selected db0;
  op_binding_availability := availability_of <$> previous |}.
Definition add_op (phase : DurableOperationPhase) (t : UnixTimestamp) : DurableIdentityOperation := {|
  dio_request_id := r; dio_kind := kind; dio_identity := key;
  dio_expected_revision := Some revision; dio_phase := phase; dio_prior := add_prior;
  dio_updated_at := t; dio_diagnostic := None; dio_terminal := None |}.
Definition new_ids : list (PublicKey * NostrIdentity) := bt_insert key identity (db_identities db0).
Definition add_db (ids : list (PublicKey * NostrIdentity)) (selected : option PublicKey)
    (op : DurableIdentityOperation) : Database := {|
  db_identities := ids; db_selected := selected; db_profiles := db_profiles db0;
  db_operations := bt_insert r op ops |}.

Definition same_credentials (s : secret_store) : Prop :=
  store_ok s /\ forall k, credential s k = credential s0 k.
Definition new_credential (s : secret_store) : Prop :=
  store_ok s /\ forall k, credential s k =
    if decide (key = k) then Some {| cred_request_id := r; cred_secret := ski_value secret |}
    else credential s0 k.

(** Every durable state in which a run of the operation, or of its recovery, can
    stop. *)
Inductive adding : Database -> secret_store -> Prop :=
| add_intent t s :
    same_credentials s \/ new_credential s ->
    adding (add_db (db_identities db0) (db_selected db0)
              (add_op DurableOperationPhase.IntentRecorded t)) s
| add_written t s ids :
    new_credential s -> ids = db_identities db0 \/ ids = new_ids ->
    adding (add_db ids (db_selected db0) (add_op DurableOperationPhase.CredentialWritten t)) s
| add_metadata t s selected :
    new_credential s -> selected = db_selected db0 \/ selected = Some key ->
    adding (add_db new_ids selected (add_op DurableOperationPhase.MetadataCommitted t)) s
| add_selection t s :
    new_credential s ->
    adding (add_db new_ids (Some key) (add_op DurableOperationPhase.SelectionCommitted t)) s
| add_compensation t s :
    same_credentials s \/ new_credential s ->
    adding (add_db (db_identities db0) (db_selected db0)
              (add_op DurableOperationPhase.CompensationPending t)) s
| add_deleted t s :
    same_credentials s ->
    adding (add_db (db_identities db0) (db_selected db0)
              (add_op DurableOperationPhase.CredentialDeleted t)) s
| add_completed t t' v phase s :
    new_credential s ->
    adding (add_db new_ids (Some key)
              (with_receipt (add_op phase t) DurableTerminalOutcome.Completed v t')) s
| add_failed t t' phase s :
    same_credentials s ->
    adding (add_db (db_identities db0) (db_selected db0)
              (with_receipt (add_op phase t) DurableTerminalOutcome.Failed None t')) s.

Definition added (db : Database) (s : secret_store) : Prop :=
  exists t t' v phase, new_credential s /\
    db = add_db new_ids (Some key)
           (with_receipt (add_op phase t) DurableTerminalOutcome.Completed v t').
Definition not_added (db : Database) (s : secret_store) : Prop :=
  exists t t' phase, same_credentials s /\
    db = add_db (db_identities db0) (db_selected db0)
           (with_receipt (add_op phase t) DurableTerminalOutcome.Failed None t').

Lemma added_adding db s : added db s -> adding db s.
Proof. intros (t & t' & v & phase & Hs & ->). by constructor. Qed.
Lemma not_added_adding db s : not_added db s -> adding db s.
Proof. intros (t & t' & phase & Hs & ->). by constructor. Qed.

#[local] Hint Constructors adding : core.
#[local] Hint Resolve added_adding not_added_adding : core.

(** *** Single calls *)

Lemma put_add_db op op' ids selected :
  set_operations (bt_insert r op' (bt_insert r op ops)) (add_db ids selected op) =
  add_db ids selected op'.
Proof. unfold set_operations, add_db. simpl. by rewrite bt_insert_insert. Qed.

Lemma get_add_db op ids selected : bt_get r (db_operations (add_db ids selected op)) = Some op.
Proof. simpl. rewrite bt_get_insert. by rewrite decide_True. Qed.

Lemma advance_add (fails : Prop) (P : assertion) phase next (Q : unit -> assertion) G :
  next <> DurableOperationPhase.Finalized ->
  (forall db s c, P db s c -> G db s /\ exists ids selected t,
     db = add_db ids selected (add_op phase t) /\
     forall t', let db' := add_db ids selected (add_op next t') in Q tt db' s c /\ G db' s) ->
  triple fails P (advance clock r phase next) Q G.
Proof.
  intros Hn HQ. apply triple_advance; [done|]. intros db s c HP.
  destruct (HQ _ _ _ HP) as (HG & ids & selected & t & -> & Hq). split; [done|].
  exists (add_op phase t). split; [apply get_add_db|]. split; [done|]. split; [done|].
  intros t'. cbn [db_operations add_db].
  rewrite put_add_db. apply (Hq t').
Qed.

Lemma finalize_add (fails : Prop) (P : assertion) phase outcome v (Q : unit -> assertion) G :
  (forall db s c, P db s c -> G db s /\ (encode_revision v <> Ok v -> fails) /\
     exists ids selected t, db = add_db ids selected (add_op phase t) /\
     forall t', let db' := add_db ids selected (with_receipt (add_op phase t) outcome v t') in
       Q tt db' s c /\ G db' s) ->
  triple fails P (finalize clock r phase outcome v) Q G.
Proof.
  intros HQ. apply triple_finalize. intros db s c HP.
  destruct (HQ _ _ _ HP) as (HG & Hf & ids & selected & t & -> & Hq). split; [done|].
  exists (add_op phase t). split; [apply get_add_db|]. split; [done|]. split; [done|].
  split; [done|]. intros t'. cbn [db_operations add_db]. rewrite put_add_db. apply (Hq t').
Qed.

Lemma delete_add (fails : Prop) (P : assertion) (Q : unit -> assertion) G :
  (forall db s c, P db s c -> (same_credentials s \/ new_credential s) /\ G db s /\
     forall s', same_credentials s' -> Q tt db s' c /\ G db s') ->
  triple fails P (delete_if_present r key) Q G.
Proof.
  intros HQ.
  apply (triple_bind _ _ _ (fun b db s c => P db s c /\ b = is_some (credential s key))).
  - apply triple_secrets_read. intros db s c HP. destruct (HQ _ _ _ HP) as (Hs & HG & _).
    split; [done|]. rewrite secret_contains_law by (by destruct Hs as [[]|[]]). done.
  - intros b. destruct b.
    + apply triple_secrets. intros db s c [HP Hb]. destruct (HQ _ _ _ HP) as (Hs & HG & Hq).
      split; [done|]. destruct (credential s key) as [cr|] eqn:Ec; [|done].
      assert (store_ok s /\ forall k, key <> k -> credential s k = credential s0 k) as [Hok Ho].
      { destruct Hs as [[? Hk]|[? Hk]]; (split; [done|]); intros k Hn; rewrite Hk; [done|].
        by rewrite decide_False. }
      destruct (secret_delete_present s r key cr Hok Ec) as (s' & -> & Hok' & Hk').
      assert (same_credentials s') as Hs'; [|by destruct (Hq s' Hs')].
      split; [done|]. intros k. rewrite Hk'. case_decide as E; [by subst|]. auto.
    + apply triple_ret. intros db s c [HP Hb]. destruct (HQ _ _ _ HP) as (Hs & HG & Hq).
      destruct Hs as [Hs|[_ Hk]]; [by apply (Hq s Hs)|].
      rewrite Hk, decide_True in Hb by done. done.
Qed.

Lemma key_saved : bt_get key new_ids = Some identity.
Proof. unfold new_ids. rewrite bt_get_insert. by rewrite decide_True. Qed.

Lemma selected_saved db :
  db_identities db = db_identities db0 ->
  save_selected_identity (db_selected db0) db = Ok (set_selected (db_selected db0) db, tt).
Proof.
  intros E. unfold save_selected_identity. destruct (db_selected db0) as [k|] eqn:Es; simpl; [|done].
  destruct (dk_selected _ db0_ok _ Es) as [i Hi]. rewrite E, Hi. done.
Qed.

Lemma finish_add (fails : Prop) op :
  dio_request_id op = r -> dio_identity op = key ->
  triple fails (fun db s _ => exists t selected, new_credential s /\
      (selected = db_selected db0 \/ selected = Some key) /\
      db = add_db new_ids selected (add_op DurableOperationPhase.MetadataCommitted t))
    (finish_durable_selection clock op) (fun _ db s _ => added db s) adding.
Proof.
  intros Hr Hk. unfold finish_durable_selection. rewrite Hr, Hk.
  apply (triple_bind _ _ _ (fun _ db s _ => exists t, new_credential s /\
    db = add_db new_ids (Some key) (add_op DurableOperationPhase.MetadataCommitted t))).
  { apply triple_database. intros db s c (t & selected & Hs & Hsel & ->). split; [eauto|].
    unfold save_selected_identity. simpl. rewrite key_saved. simpl. split; [by exists t|].
    apply (add_metadata t s (Some key)); auto. }
  intros _. apply (triple_bind _ _ _ (fun _ db s _ => exists t, new_credential s /\
    db = add_db new_ids (Some key) (add_op DurableOperationPhase.SelectionCommitted t))).
  { apply advance_add; [done|]. intros db s c (t & Hs & ->). split; [eauto|].
    do 3 eexists. split; [done|]. intros t'. split; eauto. }
  intros _. apply finalize_add. intros db s c (t & Hs & ->). split; [eauto|]. split; [done|].
  do 3 eexists. split; [done|]. intros t'. split; [|eauto]. by do 4 eexists.
Qed.

Lemma restore_previous p :
  previous = Some p -> with_local_keyring_availability p (availability_of p) = Some p.
Proof.
  intros Hp. destruct (previous_repaired p Hp) as (_ & Hwf & Hi).
  unfold availability_of, with_local_keyring_availability, NostrIdentity_wf in *.
  destruct p as [ref [[k a]] l c u]. simpl in *. by rewrite Hwf.
Qed.

Lemma rewrite_previous p selected op :
  previous = Some p ->
  update_identity p (add_db (db_identities db0) selected op) =
    Ok (add_db (db_identities db0) selected op, tt).
Proof.
  intros Hp. destruct (dk_keys _ db0_ok _ _ Hp) as [Hk _]. unfold update_identity.
  cbn [db_identities add_db]. rewrite Hk, Hp. cbn [is_none is_some negb].
  assert (npub_taken p (add_db (db_identities db0) selected op) = false) as ->.
  { apply npub_taken_false; [apply db0_ok|]. cbn [db_identities add_db]. rewrite Hk.
    intros k i Hi He. by apply (dk_npub _ db0_ok k i key p). }
  unfold set_identities. cbn [db_identities db_selected db_profiles db_operations add_db].
  rewrite bt_insert_same; [done|apply db0_ok|done].
Qed.

Lemma compensate_add op :
  dio_request_id op = r -> dio_identity op = key -> dio_prior op = add_prior ->
  triple False (fun db s _ => exists t, (same_credentials s \/ new_credential s) /\
      db = add_db (db_identities db0) (db_selected db0)
             (add_op DurableOperationPhase.CompensationPending t))
    (compensate_durable_addition clock op) (fun _ db s _ => not_added db s) adding.
Proof.
  intros Hr Hk Hp. unfold compensate_durable_addition. rewrite Hr, Hk, Hp.
  set (R := fun (db : Database) (s : secret_store) (_ : AppCore) => exists t, same_credentials s /\
    db = add_db (db_identities db0) (db_selected db0)
           (add_op DurableOperationPhase.CompensationPending t)).
  assert (forall db s c, R db s c -> adding db s) as HR.
  { intros db s c (t & Hs & ->). eauto. }
  apply (triple_bind _ _ _ (fun _ => R)).
  { apply delete_add. intros db s c (t & Hs & ->). split; [done|]. split; [eauto|].
    intros s' Hs'. split; [|eauto]. by exists t. }
  intros _. apply (triple_bind _ _ _ (fun _ => R)).
  { cbn [op_binding_availability add_prior]. remember previous as o eqn:Ep in |- *. symmetry in Ep.
    destruct o as [p|]; cbn [fmap option_fmap option_map].
    - apply (triple_bind _ _ _ (fun found db s c => found = Some p /\ R db s c)).
      + apply triple_database. intros db s c HRd. split; [by eapply HR|].
        destruct HRd as (t & Hs & ->). unfold find_identity. cbn [db_identities add_db].
        rewrite Ep. split; [|eauto]. split; [done|]. by exists t.
      + intros found. apply triple_pure. intros ->. rewrite (restore_previous p Ep). cbn [ok_or].
        apply (triple_bind _ _ _ (fun x db s c => x = p /\ R db s c)).
        { apply triple_lift. done. }
        intros x. apply triple_pure. intros ->. apply triple_database. intros db s c HRd.
        split; [by eapply HR|]. destruct HRd as (t & Hs & ->). rewrite (rewrite_previous p _ _ Ep).
        split; [by exists t|eauto].
    - apply (triple_bind _ _ _ (fun found db s c => found = None /\ R db s c)).
      + apply triple_database. intros db s c HRd. split; [by eapply HR|].
        destruct HRd as (t & Hs & ->). unfold find_identity. cbn [db_identities add_db].
        rewrite Ep. split; [|eauto]. split; [done|]. by exists t.
      + intros found. apply triple_pure. intros ->. by apply triple_ret. }
  intros _. apply (triple_bind _ _ _ (fun _ => R)).
  { apply triple_database. intros db s c HRd. split; [by eapply HR|]. destruct HRd as (t & Hs & ->).
    cbn [op_selected_identity add_prior]. rewrite selected_saved by done.
    change (set_selected ?x (add_db ?i _ ?o)) with (add_db i x o).
    split; [|eauto]. by exists t. }
  intros _. apply (triple_bind _ _ _ (fun _ db s _ => exists t, same_credentials s /\
    db = add_db (db_identities db0) (db_selected db0)
           (add_op DurableOperationPhase.CredentialDeleted t))).
  { apply advance_add; [done|]. intros db s c (t & Hs & ->). split; [eauto|].
    do 3 eexists. split; [done|]. intros t'. split; eauto. }
  intros _. apply finalize_add. intros db s c (t & Hs & ->). split; [eauto|]. split; [done|].
  do 3 eexists. split; [done|]. intros t'. split; [|eauto]. by do 3 eexists.
Qed.

(** *** Recovery *)

Lemma add_db_inj ids selected op ids' selected' op' :
  add_db ids selected op = add_db ids' selected' op' -> ids = ids' /\ selected = selected' /\ op = op'.
Proof.
  intros E. pose proof (get_add_db op ids selected) as Hg. rewrite E, get_add_db in Hg.
  injection E. injection Hg. auto.
Qed.

(** What a phase says about the rest of the state. *)
Definition phase_says (phase : DurableOperationPhase) (ids : list (PublicKey * NostrIdentity))
    (selected : option PublicKey) (s : secret_store) : Prop :=
  match phase with
  | DurableOperationPhase.IntentRecorded | DurableOperationPhase.CompensationPending =>
      ids = db_identities db0 /\ selected = db_selected db0 /\
      (same_credentials s \/ new_credential s)
  | DurableOperationPhase.CredentialWritten =>
      (ids = db_identities db0 \/ ids = new_ids) /\ selected = db_selected db0 /\ new_credential s
  | DurableOperationPhase.MetadataCommitted =>
      ids = new_ids /\ (selected = db_selected db0 \/ selected = Some key) /\ new_credential s
  | DurableOperationPhase.SelectionCommitted =>
      ids = new_ids /\ selected = Some key /\ new_credential s
  | DurableOperationPhase.CredentialDeleted =>
      ids = db_identities db0 /\ selected = db_selected db0 /\ same_credentials s
  | DurableOperationPhase.MetadataDeleted | DurableOperationPhase.Finalized => False
  end.

Definition unfinished_at (phase : DurableOperationPhase) (t : UnixTimestamp) : assertion :=
  fun db s _ => exists ids selected,
    db = add_db ids selected (add_op phase t) /\ phase_says phase ids selected s.

Lemma adding_cases db s :
  adding db s -> added db s \/ not_added db s \/
  exists phase t ids selected, db = add_db ids selected (add_op phase t) /\
    phase_says phase ids selected s.
Proof.
  intros Ha. destruct Ha.
  1-6: right; right; do 4 eexists; split; [done|]; simpl; auto.
  - left. by do 4 eexists.
  - right. left. by do 3 eexists.
Qed.

Lemma unfinished_at_adding phase t db s c : unfinished_at phase t db s c -> adding db s.
Proof.
  intros (ids & selected & -> & Hs). destruct phase; simpl in Hs;
    repeat match goal with Hc : _ /\ _ |- _ => destruct Hc end; subst; auto; done.
Qed.

Lemma unfinished_add ids selected op :
  unfinished (db_operations (add_db ids selected op)) = if is_unfinished op then [op] else [].
Proof. simpl. by apply unfinished_insert. Qed.

Definition settled_addition (db : Database) (s : secret_store) : Prop := added db s \/ not_added db s.

Lemma recover_written t :
  triple False (unfinished_at DurableOperationPhase.CredentialWritten t)
    (recover_durable_addition clock (add_op DurableOperationPhase.CredentialWritten t))
    (fun _ db s _ => settled_addition db s) adding.
Proof.
  unfold recover_durable_addition. cbn [dio_phase dio_request_id dio_identity add_op]. cbv zeta.
  apply (triple_bind _ _ _ (fun metadata db s c =>
    new_credential s /\ exists ids, metadata = bt_get key ids /\
    (ids = db_identities db0 \/ ids = new_ids) /\
    db = add_db ids (db_selected db0) (add_op DurableOperationPhase.CredentialWritten t))).
  { apply triple_database. intros db s c HP. pose proof (unfinished_at_adding _ _ _ _ _ HP) as Ha.
    split; [done|]. destruct HP as (ids & selected & -> & Hi & -> & Hs). unfold find_identity.
    cbn [db_identities add_db]. split; [|done]. split; [done|]. by exists ids. }
  intros metadata. destruct (is_some_and metadata is_available) eqn:Em.
  - apply (triple_bind _ _ _ (fun _ db s _ => exists t selected, new_credential s /\
      (selected = db_selected db0 \/ selected = Some key) /\
      db = add_db new_ids selected (add_op DurableOperationPhase.MetadataCommitted t))).
    + apply advance_add; [done|]. intros db s c (Hs & ids & -> & Hi & ->). split; [eauto|].
      assert (ids = new_ids) as ->.
      { destruct Hi as [->|]; [exfalso|done].
        destruct (bt_get key (db_identities db0)) as [p|] in previous_repaired, Em; [|done].
        destruct (previous_repaired p eq_refl) as (Hn & _). simpl in Em. congruence. }
      do 3 eexists. split; [done|]. intros t'. split; [|eauto]. exists t', (db_selected db0). auto.
    + intros _. eapply triple_weaken; [by apply (finish_add False)|done|]. intros a db s c Hd. by left.
  - apply (triple_bind _ _ _ (fun _ db s _ => exists t, (same_credentials s \/ new_credential s) /\
      db = add_db (db_identities db0) (db_selected db0)
             (add_op DurableOperationPhase.CompensationPending t))).
    + apply advance_add; [done|]. intros db s c (Hs & ids & -> & Hi & ->). split; [eauto|].
      assert (ids = db_identities db0) as ->.
      { destruct Hi as [| ->]; [done|exfalso]. rewrite key_saved in Em. simpl in Em. congruence. }
      do 3 eexists. split; [done|]. intros t'. split; [|eauto]. exists t'. auto.
    + intros _. eapply triple_weaken; [by apply compensate_add|done|]. intros a db s c Hd. by right.
Qed.

Lemma recover_addition phase t :
  triple False (unfinished_at phase t) (recover_durable_addition clock (add_op phase t))
    (fun _ db s _ => settled_addition db s) adding.
Proof.
  destruct phase; [|by apply recover_written|..];
    unfold recover_durable_addition; cbn [dio_phase dio_request_id dio_identity add_op]; cbv zeta.
  - apply (triple_bind _ _ _ (fun _ db s _ => same_credentials s /\
      db = add_db (db_identities db0) (db_selected db0)
             (add_op DurableOperationPhase.IntentRecorded t))).
    + apply delete_add. intros db s c (ids & selected & -> & -> & -> & Hs). split; [done|].
      split; [eauto|]. intros s' Hs'. split; [done|eauto].
    + intros _. apply finalize_add. intros db s c (Hs & ->). split; [eauto|]. split; [done|].
      do 3 eexists. split; [done|]. intros t'. split; [|eauto]. right. by do 3 eexists.
  - eapply triple_weaken; [by apply (finish_add False)| |].
    + intros db s c (ids & selected & -> & -> & Hsel & Hs). by exists t, selected.
    + intros a db s c Hd. by left.
  - apply finalize_add. intros db s c (ids & selected & -> & -> & -> & Hs). split; [eauto|].
    split; [done|]. do 3 eexists. split; [done|]. intros t'. split; [|eauto]. left. by do 4 eexists.
  - eapply triple_weaken; [by apply compensate_add| |].
    + intros db s c (ids & selected & -> & -> & -> & Hs). by exists t.
    + intros a db s c Hd. by right.
  - apply finalize_add. intros db s c (ids & selected & -> & -> & -> & Hs). split; [eauto|].
    split; [done|]. do 3 eexists. split; [done|]. intros t'. split; [|eauto]. right. by do 3 eexists.
  - intros w (ids & selected & _ & []).
  - intros w (ids & selected & _ & []).
Qed.

Lemma recover_adding :
  triple False (fun db s _ => adding db s) (recover_durable_operations clock)
    (fun _ db s _ => settled_addition db s) adding.
Proof.
  unfold recover_durable_operations.
  apply (triple_bind _ _ _ (fun l db s c => adding db s /\ l = unfinished (db_operations db))).
  { apply triple_database. intros db s c Ha. split; [done|].
    unfold list_unfinished_durable_operations. cbv zeta.
    assert (length (unfinished (db_operations db)) <= 1)%nat as Hl.
    { destruct (adding_cases db s Ha) as [(? & ? & ? & ? & _ & ->)|[(? & ? & ? & _ & ->)|
        (phase & t & ids & selected & -> & _)]]; rewrite unfinished_add; simpl; lia. }
    destruct (_ <? _)%nat eqn:E; [|done]. apply Nat.ltb_lt in E.
    unfold HARVESTCIRCLE_UNFINISHED_DURABLE_OPERATION_CAPACITY in E. lia. }
  intros l. destruct l as [|op [|op' l]].
  - apply triple_ret. intros db s c [Ha Hl].
    destruct (adding_cases db s Ha) as [?|[?|(phase & t & ids & selected & -> & _)]];
      [by left|by right|]. by rewrite unfinished_add in Hl.
  - cbn [for_each]. apply (triple_weaken _ (fun db s c => exists phase t, op = add_op phase t /\
      unfinished_at phase t db s c) _ _ (fun _ db s _ => settled_addition db s)); [| |done].
    + apply triple_exists. intros phase. apply triple_exists. intros t. apply triple_pure.
      intros ->. apply (triple_bind _ _ _ (fun _ db s _ => settled_addition db s));
        [|intros ?; by apply triple_ret].
      enough (match dio_kind (add_op phase t) with
              | DurableOperationKind.Remove => recover_durable_removal clock (add_op phase t)
              | _ => recover_durable_addition clock (add_op phase t)
              end = recover_durable_addition clock (add_op phase t)) as -> by apply recover_addition.
      simpl. by destruct kind.
    + intros db s c [Ha Hl].
      destruct (adding_cases db s Ha) as [(? & ? & ? & ? & _ & ->)|[(? & ? & ? & _ & ->)|
        (phase & t & ids & selected & -> & Hs)]]; rewrite unfinished_add in Hl; [done..|].
      simpl in Hl. injection Hl as ->. exists phase, t. split; [done|]. by exists ids, selected.
  - intros w [Ha Hl]. exfalso.
    destruct (adding_cases _ _ Ha) as [(? & ? & ? & ? & _ & E)|[(? & ? & ? & _ & E)|
      (phase & t & ids & selected & E & _)]]; rewrite E, unfinished_add in Hl; done.
Qed.

(** *** The operation itself *)

Lemma write_adding :
  triple True (fun db s _ => exists t, same_credentials s /\
      db = add_db (db_identities db0) (db_selected db0)
             (add_op DurableOperationPhase.IntentRecorded t))
    (persist_started clock r identity secret previous)
    (fun i db s _ => i = identity /\ added db s) adding.
Proof.
  unfold persist_started. cbv zeta.
  apply (triple_bind _ _ _ (fun _ db s _ => exists t, new_credential s /\
    db = add_db (db_identities db0) (db_selected db0)
           (add_op DurableOperationPhase.IntentRecorded t))).
  { apply triple_secrets. intros db s c (t & Hs & ->). split; [eauto|].
    destruct Hs as [Hok Hk]. destruct (secret_put_absent s r key secret Hok fits) as (s' & -> & Hok' & Hk').
    { by rewrite Hk. }
    assert (new_credential s') as Hn.
    { split; [done|]. intros k. rewrite Hk'. case_decide; [done|apply Hk]. }
    split; [eauto|]. by exists t. }
  intros _. apply (triple_bind _ _ _ (fun _ db s _ => exists t, new_credential s /\
    db = add_db (db_identities db0) (db_selected db0)
           (add_op DurableOperationPhase.CredentialWritten t))).
  { apply advance_add; [done|]. intros db s c (t & Hs & ->). split; [eauto|].
    do 3 eexists. split; [done|]. intros t'. split; eauto. }
  intros _. apply (triple_bind _ _ _ (fun _ db s _ => exists t, new_credential s /\
    db = add_db new_ids (db_selected db0) (add_op DurableOperationPhase.CredentialWritten t))).
  { destruct (is_some previous); apply triple_database; intros db s c (t & Hs & ->);
      (split; [eauto|]).
    - unfold update_identity. destruct (is_none _); [done|]. destruct (npub_taken _ _); [done|].
      split; [by exists t|]. apply add_written; auto.
    - unfold insert_identity. destruct (is_some _); [done|]. destruct (_ <=? _)%nat; [done|].
      destruct (npub_taken _ _); [done|]. split; [by exists t|]. apply add_written; auto. }
  intros _. apply (triple_bind _ _ _ (fun _ db s _ => exists t, new_credential s /\
    db = add_db new_ids (db_selected db0) (add_op DurableOperationPhase.MetadataCommitted t))).
  { apply advance_add; [done|]. intros db s c (t & Hs & ->). split; [eauto|].
    do 3 eexists. split; [done|]. intros t'. split; eauto. }
  intros _. apply (triple_bind _ _ _ (fun _ db s _ => exists t, new_credential s /\
    db = add_db new_ids (Some key) (add_op DurableOperationPhase.MetadataCommitted t))).
  { apply triple_database. intros db s c (t & Hs & ->). split; [eauto|].
    unfold save_selected_identity. simpl. rewrite key_saved. simpl. split; [by exists t|].
    apply (add_metadata t s (Some key)); auto. }
  set (R := fun (db : Database) (s : secret_store) (_ : AppCore) => exists t, new_credential s /\
    db = add_db new_ids (Some key) (add_op DurableOperationPhase.SelectionCommitted t)).
  intros _. apply (triple_bind _ _ _ (fun _ => R)).
  { apply advance_add; [done|]. intros db s c (t & Hs & ->). split; [eauto|].
    do 3 eexists. split; [done|]. intros t'. split; [|eauto]. by exists t'. }
  intros _. apply (triple_bind _ _ _ (fun _ => R)).
  { apply triple_database. intros db s c (t & Hs & ->). split; [eauto|].
    unfold list_identities. cbv zeta. destruct (_ <? _)%nat; [done|]. split; [by exists t|eauto]. }
  intros registry. apply (triple_bind _ _ _ (fun _ => R)).
  { apply triple_core. intros db s c (t & Hs & ->).
    destruct (apply_transition _ c) as [c' [a|e]]; [by exists t|eauto]. }
  intros snap. apply (triple_bind _ _ _ (fun _ db s _ => added db s)).
  { apply finalize_add. intros db s c (t & Hs & ->). split; [eauto|]. split; [done|].
    do 3 eexists. split; [done|]. intros t'. split; [|eauto]. by do 4 eexists. }
  intros _. by apply triple_ret.
Qed.
End Addition.

(** ** Consistency of the database

    However the calls of a run fare, the database stays consistent. *)

Section Consistent.
Context `{RelayTransport, NostrKeys, KeyMaterialProvider, SecretStore} (clock : nat -> UnixTimestamp).
Context (kept : AppCore -> Prop).

Definition sound {A} (m : io A) (Q : A -> Prop) : Prop :=
  triple True (fun db _ c => database_ok db /\ kept c) m
    (fun a db _ c => Q a /\ database_ok db /\ kept c) (fun db _ => database_ok db).

Lemma sound_ret {A} (a : A) (Q : A -> Prop) : Q a -> sound (stm_ret a) Q.
Proof. intros HQ. by apply triple_ret. Qed.
Lemma sound_bind {A B} (m : io A) (k : A -> io B) (R : A -> Prop) Q :
  sound m R -> (forall a, R a -> sound (k a) Q) -> sound (stm_bind m k) Q.
Proof.
  intros Hm Hk. eapply triple_bind; [exact Hm|]. intros a. apply triple_pure. apply Hk.
Qed.
Lemma sound_lift {A} (r : result A SafeError) (Q : A -> Prop) :
  (forall a, r = Ok a -> Q a) -> sound (io_lift r) Q.
Proof. intros HQ. apply triple_lift. intros db s c [Hd Hc]. destruct r; auto. Qed.
Lemma sound_now (Q : UnixTimestamp -> Prop) : (forall t, Q t) -> sound (now clock) Q.
Proof. intros HQ. by apply triple_now. Qed.
Lemma sound_database {A} (t : transaction A) (Q : A -> Prop) :
  (forall db db' a, database_ok db -> t db = Ok (db', a) -> database_ok db' /\ Q a) ->
  sound (database t) Q.
Proof.
  intros Ht. apply triple_database. intros db s c [Hd Hc]. split; [done|].
  destruct (t db) as [[db' a]|e] eqn:E; [|done]. destruct (Ht db db' a Hd E). done.
Qed.
Lemma sound_secrets {A} (m : stm secret_store SafeError A) : sound (secrets m) (fun _ => True).
Proof.
  apply triple_secrets. intros db s c [Hd Hc]. split; [done|]. destruct (m s) as [s' [a|e]]; done.
Qed.
Lemma sound_secrets_read {A} (f : secret_store -> result A SafeError) :
  sound (secrets_read f) (fun _ => True).
Proof. apply sound_secrets. Qed.
Lemma sound_core_snapshot : sound core_snapshot (fun _ => True).
Proof. by apply triple_core_snapshot. Qed.
Lemma sound_for_each {X} (f : X -> io unit) l :
  (forall x, sound (f x) (fun _ => True)) -> sound (for_each f l) (fun _ => True).
Proof.
  intros Hf. induction l as [|x l IH]; simpl; [by apply sound_ret|].
  eapply sound_bind; [apply Hf|]. auto.
Qed.
Lemma sound_if {A} (b : bool) (m m' : io A) Q :
  (b = true -> sound m Q) -> (b = false -> sound m' Q) -> sound (if b then m else m') Q.
Proof. destruct b; auto. Qed.

(** The transactions. *)
Lemma sound_select k : sound (database (save_selected_identity k)) (fun _ => True).
Proof. apply sound_database. eauto using save_selected_ok. Qed.
Lemma sound_remove k : sound (database (remove_identity k)) (fun _ => True).
Proof. apply sound_database. eauto using remove_identity_ok. Qed.
Lemma sound_insert i : NostrIdentity_wf i -> sound (database (insert_identity i)) (fun _ => True).
Proof. intros ?. apply sound_database. eauto using insert_identity_ok. Qed.
Lemma sound_update i : NostrIdentity_wf i -> sound (database (update_identity i)) (fun _ => True).
Proof. intros ?. apply sound_database. eauto using update_identity_ok. Qed.
Lemma sound_find k :
  sound (database (find_identity k)) (fun o => forall i, o = Some i -> NostrIdentity_wf i).
Proof.
  apply sound_database. unfold find_identity. intros db db' a Hd [= <- <-]. split; [done|].
  intros i Hi. by apply (dk_keys _ Hd) in Hi as [_ ?].
Qed.
Lemma sound_list :
  sound (database list_identities) (fun l => forall i, i ∈ l -> NostrIdentity_wf i).
Proof.
  apply sound_database. unfold list_identities. cbv zeta. intros db db' a Hd.
  destruct (_ <? _)%nat; [done|]. intros [= <- <-]. split; [done|].
  intros i. rewrite elem_of_sort_by_key, bt_values_elem_of. intros (k & Hi).
  apply bt_get_elem_of in Hi; [|apply Hd]. by apply (dk_keys _ Hd) in Hi as [_ ?].
Qed.
Lemma sound_selected : sound (database load_selected_identity) (fun _ => True).
Proof. apply sound_database. by intros db db' a Hd [= <- <-]. Qed.
Lemma sound_load_operation r : sound (database (load_durable_operation r)) (fun _ => True).
Proof. apply sound_database. by intros db db' a Hd [= <- <-]. Qed.
Lemma sound_list_unfinished :
  sound (database list_unfinished_durable_operations) (fun _ => True).
Proof.
  apply sound_database. unfold list_unfinished_durable_operations. cbv zeta. intros db db' a Hd.
  destruct (_ <? _)%nat; [done|]. by intros [= <- <-].
Qed.
Lemma sound_begin r kind k v prior t :
  sound (database (begin_durable_operation r kind k v prior t)) (fun _ => True).
Proof. apply sound_database. eauto using begin_ok. Qed.
Lemma sound_advance r p q : sound (advance clock r p q) (fun _ => True).
Proof.
  eapply sound_bind; [by apply (sound_now (fun _ => True))|]. intros t _.
  eapply sound_bind; [apply (sound_database _ (fun _ => True)); eauto using advance_ok|].
  intros _ _. by apply sound_ret.
Qed.
Lemma sound_finalize r p o v : sound (finalize clock r p o v) (fun _ => True).
Proof.
  eapply sound_bind; [by apply (sound_now (fun _ => True))|]. intros t _.
  eapply sound_bind; [apply (sound_database _ (fun _ => True)); eauto using finalize_ok|].
  intros _ _. by apply sound_ret.
Qed.

Lemma with_availability_wf p a i :
  with_local_keyring_availability p a = Some i -> NostrIdentity_wf i.
Proof.
  unfold with_local_keyring_availability. destruct (as_local_keyring _); [|done]. by intros [= <-].
Qed.

#[local] Hint Resolve sound_ret sound_secrets sound_secrets_read sound_core_snapshot sound_select
  sound_remove sound_insert sound_update sound_find sound_list sound_selected sound_load_operation
  sound_list_unfinished sound_begin sound_advance sound_finalize : sound.

(** One call of a run after the other. *)
Ltac sound_run :=
  repeat (first
    [ progress cbv beta zeta
    | by eauto with sound
    | eapply sound_bind; [by eauto with sound|intros ? ?]
    | apply sound_if; intros ? ]).

Lemma delete_if_present_sound r k : sound (delete_if_present r k) (fun _ => True).
Proof. unfold delete_if_present. sound_run. Qed.
Lemma remove_if_present_sound k : sound (remove_if_present k) (fun _ => True).
Proof. unfold remove_if_present. sound_run. Qed.
#[local] Hint Resolve delete_if_present_sound remove_if_present_sound : sound.

Lemma recover_removal_sound op : sound (recover_durable_removal clock op) (fun _ => True).
Proof.
  unfold recover_durable_removal, removal_metadata, removal_selection.
  do 3 (eapply (sound_bind _ _ (fun _ => True)); [sound_run|intros ? _]). sound_run.
Qed.

Lemma finish_sound op : sound (finish_durable_selection clock op) (fun _ => True).
Proof. unfold finish_durable_selection. sound_run. Qed.

Lemma compensate_sound op : sound (compensate_durable_addition clock op) (fun _ => True).
Proof.
  unfold compensate_durable_addition. sound_run.
  eapply (sound_bind _ _ (fun _ => True)); [|intros ? _; sound_run].
  destruct (op_binding_availability _) as [av|]; sound_run.
  match goal with |- sound (match ?o with _ => _ end) _ => destruct o as [p|] end; sound_run.
  eapply (sound_bind _ _ NostrIdentity_wf); [|intros i Hi; sound_run].
  apply sound_lift. intros i Hi. destruct (with_local_keyring_availability p av) eqn:E; [|done].
  injection Hi as <-. by eapply with_availability_wf.
Qed.
#[local] Hint Resolve finish_sound compensate_sound recover_removal_sound : sound.

Lemma recover_sound : sound (recover_durable_operations clock) (fun _ => True).
Proof.
  unfold recover_durable_operations. sound_run. apply sound_for_each. intros op.
  assert (sound (recover_durable_addition clock op) (fun _ => True)).
  { unfold recover_durable_addition. destruct (dio_phase op); sound_run. }
  destruct (dio_kind op); auto with sound.
Qed.

(** *** Operations on the core *)

Hypothesis any_core : forall c, kept c.

Lemma sound_core {A} (m : stm AppCore SafeError A) : sound (core m) (fun _ => True).
Proof.
  apply triple_core. intros db s c [Hd _]. destruct (m c) as [c' [a|e]]; auto.
Qed.
Lemma sound_attempt {A} (m : io A) Q : sound m Q -> sound (attempt m) (fun _ => True).
Proof.
  intros Hm w Hw. specialize (Hm w Hw). unfold attempt.
  destruct (m w) as [w' [a|[e|]]]; destruct Hm as [Hq Hr]; (split; [done|]); unfold holds in *.
  - by destruct Hr.
  - destruct Hr. auto.
  - done.
Qed.
Lemma sound_lift_any {A} (r : result A SafeError) : sound (io_lift r) (fun _ => True).
Proof. by apply sound_lift. Qed.
#[local] Hint Resolve sound_core sound_attempt sound_lift_any : sound.

Lemma verify_replay_sound op r kind v k x :
  sound (verify_completed_identity_replay op r kind v k x) (fun _ => True).
Proof. unfold verify_completed_identity_replay. sound_run. Qed.
#[local] Hint Resolve verify_replay_sound : sound.

Lemma persist_started_sound r i x previous :
  NostrIdentity_wf i -> sound (persist_started clock r i x previous) (fun _ => True).
Proof.
  intros Hi. unfold persist_started. sound_run.
  eapply (sound_bind _ _ (fun _ => True)); [sound_run|intros ? _]. sound_run.
Qed.

#[local] Hint Resolve persist_started_sound : sound.

Lemma persist_sound r kind v i x previous :
  NostrIdentity_wf i -> sound (persist_identity_durable clock r kind v i x previous) (fun _ => True).
Proof.
  intros Hi. unfold persist_identity_durable. sound_run.
  eapply (sound_bind _ _ (fun _ => True)); [by apply sound_now|intros t _]. sound_run.
  match goal with |- sound (match ?o with _ => _ end) _ => destruct o end; sound_run.
Qed.

Lemma new_identity_wf k npub t i : new_identity k npub t = Ok i -> public_key i = k /\ NostrIdentity_wf i.
Proof.
  unfold new_identity. destruct (NostrIdentityReference_verify k (raw npub)) as [ref|e] eqn:E; [|done].
  simpl. intros (Hk & ->)%NostrIdentity_new_Ok. unfold NostrIdentity_wf. simpl in Hk |- *. done.
Qed.
#[local] Hint Resolve persist_sound : sound.

Lemma import_sound r v input : sound (import_secret_key_durable clock r v input) (fun _ => True).
Proof.
  unfold import_secret_key_durable. sound_run.
  match goal with |- sound (match ?o with _ => _ end) _ => destruct o as [op|] end; sound_run.
  - match goal with |- sound (let '(_, _) := ?p in _) _ => destruct p as [[? ?] ?] end. sound_run.
  - eapply (sound_bind _ _ (fun _ => True)); [unfold require_revision; sound_run|intros ? _].
    sound_run. match goal with |- sound (let '(_, _) := ?p in _) _ => destruct p as [[? ?] ?] end.
    sound_run. eapply (sound_bind _ _ (fun _ => True)).
    { match goal with |- sound (match ?o with _ => _ end) _ => destruct o end; sound_run. }
    intros ? _. eapply (sound_bind _ _ NostrIdentity_wf); [|intros i Hi; sound_run].
    match goal with |- sound (match ?o with _ => _ end) _ => destruct o as [p|] end.
    + apply sound_lift. intros i Hi. destruct (with_local_keyring_availability p _) eqn:E; [|done].
      injection Hi as <-. by eapply with_availability_wf.
    + eapply (sound_bind _ _ (fun _ => True)); [by apply sound_now|intros t _].
      apply sound_lift. by intros i [_ ?]%new_identity_wf.
Qed.

Lemma removal_sound r token : sound (confirm_identity_removal_durable clock r token) (fun _ => True).
Proof.
  unfold confirm_identity_removal_durable. sound_run.
  eapply (sound_bind _ _ (fun _ => True)); [by apply sound_now|intros t _]. sound_run.
  eapply (sound_bind _ _ (fun _ => True)); [unfold require_revision; sound_run|intros ? _]. sound_run.
  eapply (sound_bind _ _ (fun _ => True)); [by apply sound_now|intros t' _]. sound_run.
  match goal with |- sound (match ?o with _ => _ end) _ => destruct o end; sound_run.
  unfold removal_started. sound_run.
  eapply (sound_bind _ _ (fun _ => True)); [sound_run|intros ? _]. sound_run.
Qed.
End Consistent.

(** ** Restarts *)

Section Restarts.
Context `{RelayTransport, NostrKeys, KeyMaterialProvider, SecretStore} (clock : nat -> UnixTimestamp).

(** A process that starts over what the last one left, with a core of its own. *)
Definition restart (c : AppCore) (faults : list Fault) (w : World) : World := {|
  w_database := w_database w; w_secrets := w_secrets w; w_core := c; w_ticks := w_ticks w;
  w_faults := faults |}.
Definition restarts (l : list (AppCore * list Fault)) (w : World) : World :=
  foldl (fun w start => (persistent_bootstrap clock (restart start.1 start.2 w)).1) w l.

(** Some identity is selected exactly when one is saved. *)
Definition selection_complete (db : Database) : Prop :=
  db_identities db = [] <-> db_selected db = None.

(** A snapshot shows the saved identities and the saved selection. *)
Definition shows (s : AppSnapshot) (db : Database) : Prop :=
  as_identities s = sort_by_key identity_order (bt_values (db_identities db)) /\
  as_selected_identity s = db_selected db.

Lemma bootstrap_durable (D : Database -> secret_store -> Prop) :
  triple True (fun db s _ => D db s) bootstrap_from (fun _ db s _ => D db s) D.
Proof.
  unfold bootstrap_from. apply (triple_bind _ _ _ (fun _ db s _ => D db s)).
  - apply triple_attempt. apply (triple_bind _ _ _ (fun _ db s _ => D db s)).
    { apply triple_database. intros db s c Hd. split; [done|]. unfold list_identities. cbv zeta.
      by destruct (_ <? _)%nat. }
    intros l. apply (triple_bind _ _ _ (fun _ db s _ => D db s)); [by apply triple_database|].
    intros o. by apply triple_ret.
  - intros [[l o]|e].
    + apply triple_core. intros db s c Hd. by destruct (apply_transition _ c) as [? []].
    + apply (triple_bind _ _ _ (fun _ db s _ => D db s)).
      * apply triple_core. intros db s c Hd. by destruct (apply_transition _ c) as [? []].
      * intros ?. by apply triple_lift.
Qed.

Lemma quiet_database {A} (t : transaction A) w db a :
  quiet w -> t (w_database w) = Ok (db, a) ->
  exists w', database t w = (set_database db w', Ok a) /\ quiet w' /\
    w_core w' = w_core w /\ w_secrets w' = w_secrets w.
Proof.
  intros Hq Ht. destruct (quiet_next w Hq) as [Hq' Hf]. unfold database.
  destruct (next_fault w) as [fault w1] eqn:En. simpl in Hf, Hq'. subst fault.
  unfold next_fault in En. injection En as _ Ew. exists w1. cbv zeta.
  assert (w_database w1 = w_database w) as -> by (by rewrite <- Ew).
  rewrite Ht. split_and!; [done..| |]; by rewrite <- Ew.
Qed.

Lemma identities_distinct db :
  database_ok db -> NoDup (public_key <$> sort_by_key identity_order (bt_values (db_identities db))).
Proof.
  intros Hd. rewrite <- (sort_by_key_perm identity_order (bt_values (db_identities db))).
  assert (public_key <$> bt_values (db_identities db) = (db_identities db).*1) as ->.
  { unfold bt_values. rewrite <- list_fmap_compose. apply list_fmap_ext. intros i [k p] Hi. simpl.
    apply list_elem_of_lookup_2, bt_get_elem_of in Hi; [|apply Hd].
    by apply (dk_keys _ Hd) in Hi as [? _]. }
  by apply key_sorted_NoDup, Hd.
Qed.

Lemma bootstrap_transition relays identities selected :
  snapshot_valid identities selected SessionState.SignedOut None ->
  exists c s, apply_transition (BootstrapRegistry identities selected) (AppCore_new relays) = (c, Ok s) /\
    as_identities s = identities /\ as_selected_identity s = selected.
Proof.
  intros Hv. unfold apply_transition. simpl.
  pose proof (transition_applied (BootstrapRegistry identities selected) relays StateMachine_booting
    machine_ok_booting) as Hr.
  destruct (StateMachine_apply _ _ _) as [m [next|e]].
  - destruct Hr as (_ & Hn & revision & _ & ->). do 2 eexists. split; [done|]. by subst next.
  - destruct Hr as [[Ha|Ha] _]; [|done]. exfalso. apply Ha. simpl. auto.
Qed.

Lemma saved_valid db :
  database_ok db -> selection_complete db ->
  snapshot_valid (sort_by_key identity_order (bt_values (db_identities db))) (db_selected db)
    SessionState.SignedOut None.
Proof.
  intros Hd Hs. split; [by apply identities_distinct|]. split_and!; try done.
  - unfold selection_complete in Hs. rewrite <- Hs, <- !length_zero_iff_nil, sort_by_key_length. unfold bt_values.
    by rewrite length_fmap.
  - intros k (i & Hi)%(dk_selected _ Hd). destruct (dk_keys _ Hd _ _ Hi) as [<- _].
    apply list_elem_of_fmap_2. apply elem_of_sort_by_key, bt_values_elem_of.
    eexists. apply bt_get_elem_of; [apply Hd|done].
Qed.

(** A start without a failing call shows what is saved. *)
Lemma quiet_bootstrap relays w :
  quiet w -> w_core w = AppCore_new relays -> database_ok (w_database w) ->
  selection_complete (w_database w) ->
  let (w', r) := bootstrap_from w in
  w_database w' = w_database w /\ w_secrets w' = w_secrets w /\
  exists s, r = Ok s /\ shows s (w_database w).
Proof.
  intros Hq Hc Hd Hs. set (rows := sort_by_key identity_order (bt_values (db_identities (w_database w)))).
  destruct (quiet_database list_identities w (w_database w) rows Hq) as (w1 & E1 & Hq1 & Hc1 & Hs1).
  { unfold list_identities. cbv zeta. fold rows. destruct (_ <? _)%nat eqn:E; [exfalso|done].
    apply Nat.ltb_lt in E. unfold rows in E. rewrite sort_by_key_length in E. unfold bt_values in E.
    rewrite length_fmap in E. pose proof (dk_capacity _ Hd). lia. }
  destruct (quiet_database load_selected_identity (set_database (w_database w) w1) (w_database w)
    (db_selected (w_database w))) as (w2 & E2 & Hq2 & Hc2 & Hs2); [done..|].
  unfold bootstrap_from, attempt, stm_bind. rewrite E1, E2. simpl.
  destruct (bootstrap_transition relays rows (db_selected (w_database w))) as (c' & s & E & Hi & Ho).
  { by apply saved_valid. }
  unfold core. cbn [w_core set_database]. rewrite Hc2. cbn [w_core set_database]. rewrite Hc1, Hc, E.
  simpl. split; [done|]. split; [simpl in Hs2; congruence|]. exists s. by split.
Qed.

Lemma triple_stops {A} fails (D : Database -> secret_store -> Prop) (m : io A) w :
  triple fails (fun db s _ => D db s) m (fun _ db s _ => D db s) D ->
  D (w_database w) (w_secrets w) -> D (w_database (m w).1) (w_secrets (m w).1).
Proof.
  intros Hm Hw. specialize (Hm w Hw). destruct (m w) as [w' [a|e]]; destruct Hm as [_ Hr]; [done|].
  by destruct Hr.
Qed.

Lemma persistent_keeps (fails : Prop) (D E : Database -> secret_store -> Prop) :
  triple fails (fun db s _ => D db s) (recover_durable_operations clock) (fun _ db s _ => E db s) D ->
  (forall db s, E db s -> D db s) ->
  triple True (fun db s _ => D db s) (persistent_bootstrap clock) (fun _ db s _ => D db s) D.
Proof.
  intros Hr HE. apply (triple_bind _ _ _ (fun _ db s _ => D db s)).
  - eapply triple_mono; [eapply triple_weaken; [exact Hr|done|]|done|done]. auto.
  - intros _. apply bootstrap_durable.
Qed.

Lemma recover_keeps :
  triple True (fun db _ _ => database_ok db) (recover_durable_operations clock)
    (fun _ db _ _ => database_ok db) (fun db _ => database_ok db).
Proof.
  eapply triple_weaken; [apply (recover_sound clock (fun _ => True))|done|]. by intros ? ? ? ? (_ & ? & _).
Qed.

(** What a durable state becomes over any number of failed starts and a last one
    without a failing call. *)
Lemma starts_settle (D E : Database -> secret_store -> Prop) relays l w :
  triple False (fun db s _ => D db s) (recover_durable_operations clock) (fun _ db s _ => E db s) D ->
  (forall db s, E db s -> D db s /\ selection_complete db) ->
  D (w_database w) (w_secrets w) -> database_ok (w_database w) ->
  let (w', r) := persistent_bootstrap clock (restart (AppCore_new relays) [] (restarts l w)) in
  E (w_database w') (w_secrets w') /\ database_ok (w_database w') /\
  exists s, r = Ok s /\ shows s (w_database w').
Proof.
  intros Hr HE. revert w. induction l as [|[c faults] l IH]; intros w HD Hok.
  - simpl. set (w1 := restart _ _ w). unfold persistent_bootstrap, stm_bind.
    pose proof (Hr w1 HD) as Hrun.
    pose proof (recover_sound clock (eq (AppCore_new relays)) w1 (conj Hok eq_refl)) as Hsound.
    assert (quiet w1) as Hq by constructor.
    destruct (recover_durable_operations clock w1) as [w2 [[]|e]];
      [|exfalso; by apply (proj1 (proj2 Hrun))].
    destruct Hrun as [Hq2 HE2]. destruct Hsound as (_ & _ & Hok2 & Hc). unfold holds in HE2.
    pose proof (quiet_bootstrap relays w2 (Hq2 Hq) (eq_sym Hc) Hok2 (proj2 (HE _ _ HE2))) as Hb.
    destruct (bootstrap_from w2) as [w3 r]. destruct Hb as (-> & -> & Hs). done.
  - simpl. apply IH.
    + apply (triple_stops _ _ _ _ (persistent_keeps _ D E Hr (fun db s HEd => proj1 (HE db s HEd)))).
      exact HD.
    + apply (triple_stops _ _ _ _ (persistent_keeps _ (fun db _ => database_ok db)
        (fun db _ => database_ok db) recover_keeps (fun _ _ Hd => Hd))). exact Hok.
Qed.
End Restarts.

(** ** Whole operations *)

Section Atomic.
Context `{RelayTransport, NostrKeys, KeyMaterialProvider, SecretStore} (clock : nat -> UnixTimestamp).

(** The journal after a new row was admitted: the finished rest of it. *)
Definition journal_rest (ops : list (DurableRequestId * DurableIdentityOperation)) : Prop :=
  bt_wf ops /\ unfinished ops = [].

Lemma availability_binding p :
  transpose_map local_keyring_binding p =
    Ok ((fun i => {| lkb_identity := SignerBinding_identity (ni_signer_binding i);
                     lkb_availability := availability_of i |}) <$> p).
Proof.
  by destruct p as [[ref [[k a]] l u v]|].
Qed.

(** What must hold of an addition before it starts. *)
Record addable (db0 : Database) (s0 : secret_store) (r : DurableRequestId)
    (kind : DurableOperationKind) (identity : NostrIdentity) (secret : SecretKeyInput) : Prop := {
  ab_storable : storable r secret;
  ab_no_credential : credential s0 (public_key identity) = None;
  ab_kind : kind <> DurableOperationKind.Remove;
  ab_available : is_available identity = true;
  ab_previous : forall p, bt_get (public_key identity) (db_identities db0) = Some p ->
    is_available p = false /\ NostrIdentity_wf p /\
    with_local_keyring_availability p SignerAvailability.Available = Some identity
}.

(** The durable state a new operation starts from. *)
Record ready (db : Database) (s : secret_store) (r : DurableRequestId) : Prop := {
  rd_database : database_ok db;
  rd_store : store_ok s;
  rd_finished : unfinished (db_operations db) = [];
  rd_fresh : bt_get r (db_operations db) = None;
  rd_selected : selection_complete db
}.

Definition add_in_flight db0 s0 r kind revision identity secret (db : Database) (s : secret_store)
  : Prop :=
  (db = db0 /\ s = s0) \/
  exists ops, journal_rest ops /\ adding db0 s0 ops r kind revision identity secret db s.

Lemma persist_run db0 s0 r kind revision identity secret :
  ready db0 s0 r -> addable db0 s0 r kind identity secret ->
  triple True (fun db s _ => db = db0 /\ s = s0)
    (persist_identity_durable clock r kind revision identity secret
       (bt_get (public_key identity) (db_identities db0)))
    (fun i db s _ => i = identity /\ exists ops, journal_rest ops /\
       added db0 s0 ops r kind revision identity secret db s)
    (add_in_flight db0 s0 r kind revision identity secret).
Proof.
  intros [Hdb Hst Hfin Hfresh Hsel] [Hfit Hcred Hkind Hav Hprev]. unfold persist_identity_durable. cbv zeta.
  set (P := fun (db : Database) (s : secret_store) (_ : AppCore) => db = db0 /\ s = s0).
  assert (forall db s c, P db s c -> add_in_flight db0 s0 r kind revision identity secret db s) as HP.
  { intros db s c HPd. by left. }
  rewrite availability_binding.
  apply (triple_bind _ _ _ (fun b db s c => lkb_availability <$> b =
    availability_of <$> bt_get (public_key identity) (db_identities db0) /\ P db s c)).
  { apply triple_lift. intros db s c HPd. split; [|done]. by rewrite <- option_fmap_compose. }
  intros b. apply triple_pure. intros Hb.
  apply (triple_bind _ _ _ (fun selected db s c => selected = db_selected db0 /\ P db s c)).
  { apply triple_database. intros db s c [-> ->]. split; [by left|]. split; [done|by left]. }
  intros selected. apply triple_pure. intros ->.
  apply (triple_bind _ _ _ (fun _ => P)). { apply triple_now. auto. }
  intros t. set (prior := {| op_selected_identity := db_selected db0; op_binding_availability := lkb_availability <$> b |}).
  assert (prior = add_prior db0 identity) as ->.
  { unfold prior, add_prior. by rewrite Hb. }
  apply (triple_bind _ _ _ (fun start db s _ => exists ops op, journal_rest ops /\
    start = Started op /\ s = s0 /\
    db = add_db db0 ops r (db_identities db0) (db_selected db0)
           (add_op db0 r kind revision identity DurableOperationPhase.IntentRecorded t))).
  { apply triple_database. intros db s c [-> ->]. split; [by left|].
    destruct (begin_durable_operation _ _ _ _ _ _ db0) as [[db' start]|e] eqn:Eb; [|done].
    apply begin_started in Eb as (ops & Hw & Hu & _ & _ & _ & _ & -> & ->); [|done..].
    rewrite Hfin in Hu. split.
    - exists ops. eexists. split; [done|]. by split_and!.
    - right. exists ops. split; [done|].
      apply (add_intent db0 s0 ops r kind revision identity secret t s0). by left. }
  intros start. apply triple_exists. intros ops. apply triple_exists. intros op.
  apply triple_pure. intros [Hw Hu]. apply triple_pure. intros ->.
  eapply triple_mono; [eapply triple_weaken;
    [apply (write_adding clock db0 s0 ops r kind revision identity secret)|..]|done|]; try done.
  - intros db s c [-> ->]. exists t. by split_and!.
  - intros i db s c [-> Ha]. split; [done|]. by exists ops.
  - intros db s Ha. right. by exists ops.
Qed.

Lemma recover_nothing db0 s0 :
  unfinished (db_operations db0) = [] ->
  triple False (fun db s _ => db = db0 /\ s = s0) (recover_durable_operations clock)
    (fun _ db s _ => db = db0 /\ s = s0) (fun db s => db = db0 /\ s = s0).
Proof.
  intros Hu. unfold recover_durable_operations.
  apply (triple_bind _ _ _ (fun l db s _ => l = [] /\ db = db0 /\ s = s0)).
  - apply triple_database. intros db s c [-> ->]. split; [done|].
    unfold list_unfinished_durable_operations. cbv zeta. by rewrite Hu.
  - intros l. apply triple_pure. intros ->. by apply triple_ret.
Qed.

(** *** Outcomes of an addition *)

(** Nothing but the journal shows that the operation was attempted. *)
Definition untouched (db0 : Database) (s0 : secret_store) (r : DurableRequestId) (db : Database)
    (s : secret_store) : Prop :=
  db_identities db = db_identities db0 /\ db_selected db = db_selected db0 /\
  db_profiles db = db_profiles db0 /\ (forall k, credential s k = credential s0 k) /\
  forall op, bt_get r (db_operations db) = Some op -> is_completed op = false.

(** The identity is saved, selected and has its credential; all else is as before. *)
Definition identity_added (db0 : Database) (s0 : secret_store) (r : DurableRequestId)
    (identity : NostrIdentity) (secret : SecretKeyInput) (db : Database) (s : secret_store) : Prop :=
  let key := public_key identity in
  db_identities db = bt_insert key identity (db_identities db0) /\ db_selected db = Some key /\
  db_profiles db = db_profiles db0 /\
  (forall k, credential s k =
     if decide (key = k) then Some {| cred_request_id := r; cred_secret := ski_value secret |}
     else credential s0 k) /\
  exists op, bt_get r (db_operations db) = Some op /\ is_completed op = true.

(** The states between, for an identity with the key. *)
Definition adding_key db0 s0 r key secret (db : Database) (s : secret_store) : Prop :=
  (db = db0 /\ s = s0) \/
  exists identity kind revision ops, public_key identity = key /\
    addable db0 s0 r kind identity secret /\ journal_rest ops /\
    adding db0 s0 ops r kind revision identity secret db s.
Definition settled_key db0 s0 r key secret (db : Database) (s : secret_store) : Prop :=
  (db = db0 /\ s = s0) \/
  exists identity kind revision ops, public_key identity = key /\
    addable db0 s0 r kind identity secret /\ journal_rest ops /\
    settled_addition db0 s0 ops r kind revision identity secret db s.

Lemma recover_adding_key db0 s0 r key secret :
  ready db0 s0 r ->
  triple False (fun db s _ => adding_key db0 s0 r key secret db s) (recover_durable_operations clock)
    (fun _ db s _ => settled_key db0 s0 r key secret db s) (adding_key db0 s0 r key secret).
Proof.
  intros [Hdb Hst Hfin Hfresh Hsel]. apply triple_or.
  - eapply triple_mono; [eapply triple_weaken; [by apply (recover_nothing db0 s0)|done|]|done|].
    + intros a db s c Hd. by left.
    + intros db s Hd. by left.
  - apply triple_exists. intros identity. apply triple_exists. intros kind.
    apply triple_exists. intros revision. apply triple_exists. intros ops.
    apply triple_pure. intros Hk. apply triple_pure. intros Ha. apply triple_pure. intros Hj.
    pose proof Ha as [Hfit Hcred Hkind Hav Hprev]. pose proof Hj as [Hw Hu].
    eapply triple_mono; [eapply (triple_weaken False); [by eapply (recover_adding clock)|..]|done|].
    + intros db s c Hd. exact Hd.
    + intros a db s c Hd. right. by exists identity, kind, revision, ops.
    + intros db s Hd. right. by exists identity, kind, revision, ops.
Qed.

Lemma settled_adding_key db0 s0 r key secret db s :
  ready db0 s0 r -> settled_key db0 s0 r key secret db s ->
  adding_key db0 s0 r key secret db s /\ selection_complete db /\
  unfinished (db_operations db) = [] /\
  (untouched db0 s0 r db s \/
   exists identity, public_key identity = key /\ identity_added db0 s0 r identity secret db s).
Proof.
  intros [Hdb Hst Hfin Hfresh Hsel] [[-> ->]|(identity & kind & revision & ops & Hk & Ha & [Hw Hu] & Hd)].
  - split_and!; [by left|done..|]. left. split_and!; try done. by rewrite Hfresh.
  - destruct Hd as [Hd|Hd].
    + split; [right; exists identity, kind, revision, ops; split_and!; [done..|by apply added_adding]|].
      destruct Hd as (t & t' & v & phase & Hs & ->). destruct Hs as [_ Hs].
      split_and!.
      * split; [|done]. simpl. intros E%(f_equal (bt_get (public_key identity))).
        unfold new_ids in E. by rewrite bt_get_insert, decide_True in E.
      * by rewrite unfinished_add.
      * right. exists identity. split; [done|]. split_and!; [done..|]. simpl.
        rewrite bt_get_insert, decide_True by done. by eexists.
    + split; [right; exists identity, kind, revision, ops; split_and!; [done..|by apply not_added_adding]|].
      destruct Hd as (t & t' & phase & Hs & ->). destruct Hs as [_ Hs].
      split_and!; [done|by rewrite unfinished_add|].
      left. split_and!; [done..|]. simpl. rewrite bt_get_insert, decide_True by done.
      by intros op [= <-].
Qed.

(** The check that no credential is in the way. *)
Lemma absent_run (db0 : Database) s0 key e (G : Database -> secret_store -> Prop) :
  store_ok s0 -> G db0 s0 ->
  triple True (fun db s _ => db = db0 /\ s = s0)
    (do! present <- secrets_read (secret_contains key);
     io_lift (if present : bool then Err e else Ok tt))
    (fun _ db s _ => credential s0 key = None /\ db = db0 /\ s = s0) G.
Proof.
  intros Hst HG.
  apply (triple_bind _ _ _ (fun present db s _ => present = is_some (credential s0 key) /\
    db = db0 /\ s = s0)).
  - apply triple_secrets_read. intros db s c [-> ->]. split; [done|].
    by rewrite secret_contains_law.
  - intros present. apply triple_pure. intros ->. apply triple_lift. intros db s c [-> ->].
    by destruct (credential s0 key).
Qed.

(** What a repaired or new identity is. *)
Lemma repaired_addable db0 s0 r secret p i :
  ready db0 s0 r -> storable r secret -> credential s0 (public_key p) = None ->
  bt_get (public_key p) (db_identities db0) = Some p ->
  availability_of p = SignerAvailability.CredentialMissing ->
  with_local_keyring_availability p SignerAvailability.Available = Some i ->
  public_key i = public_key p /\ addable db0 s0 r DurableOperationKind.Repair i secret.
Proof.
  intros [Hdb Hst Hfin Hfresh Hsel] Hfit Hc Hp Hm Hi. destruct (dk_keys _ Hdb _ _ Hp) as [_ Hwf].
  assert (public_key i = public_key p /\ is_available i = true) as [Hk Hav].
  { unfold with_local_keyring_availability in Hi. destruct (as_local_keyring _); [|done].
    by injection Hi as <-. }
  split; [done|]. rewrite <- Hk in Hc, Hp. constructor; [done..|]. rewrite Hp. intros q [= <-].
  split_and!; [|done..]. unfold is_available, availability_of in *.
  by destruct (ni_signer_binding p) as [[? []]].
Qed.
Lemma imported_addable db0 s0 r secret kind k npub t i :
  kind <> DurableOperationKind.Remove -> storable r secret -> credential s0 k = None ->
  bt_get k (db_identities db0) = None -> new_identity k npub t = Ok i ->
  public_key i = k /\ addable db0 s0 r kind i secret.
Proof.
  intros Hkind Hfit Hc Hn Hi. pose proof Hi as [Hk Hwf]%new_identity_wf. split; [done|].
  subst k. constructor; [done..| |by rewrite Hn].
  unfold new_identity in Hi. destruct (NostrIdentityReference_verify _ _); [|done].
  by apply NostrIdentity_new_Ok in Hi as (_ & ->).
Qed.

Lemma import_run db0 s0 r revision input key npub secret :
  ready db0 s0 r -> km_import input = Ok (key, npub, secret) -> storable r secret ->
  triple True (fun db s _ => db = db0 /\ s = s0) (import_secret_key_durable clock r revision input)
    (fun i db s _ => exists kind ops, public_key i = key /\ addable db0 s0 r kind i secret /\
       journal_rest ops /\ added db0 s0 ops r kind revision i secret db s)
    (adding_key db0 s0 r key secret).
Proof.
  intros Hr Hi Hfit. pose proof Hr as [Hdb Hst Hfin Hfresh Hsel]. unfold import_secret_key_durable.
  set (P := fun (db : Database) (s : secret_store) (_ : AppCore) => db = db0 /\ s = s0).
  assert (forall db s c, P db s c -> adding_key db0 s0 r key secret db s) as HP by (intros; by left).
  apply (triple_bind _ _ _ (fun o db s c => o = None /\ P db s c)).
  { apply triple_database. intros db s c [-> ->]. unfold load_durable_operation. rewrite Hfresh.
    split; [by left|]. split; [done|by left]. }
  intros o. apply triple_pure. intros ->. apply (triple_bind _ _ _ (fun _ => P)).
  { unfold require_revision. apply (triple_bind _ _ _ (fun _ => P)); [by apply triple_core_snapshot|].
    intros sn. apply triple_lift. intros db s c HPd. destruct (negb _); eauto. }
  intros _. rewrite Hi. apply (triple_bind _ _ _ (fun x db s c => x = (key, npub, secret) /\ P db s c)).
  { by apply triple_lift. }
  intros x. apply triple_pure. intros ->.
  set (previous := bt_get key (db_identities db0)).
  apply (triple_bind _ _ _ (fun o db s c => o = previous /\ P db s c)).
  { apply triple_database. intros db s c [-> ->]. split; [by left|]. split; [done|by left]. }
  intros o. apply triple_pure. intros ->.
  apply (triple_bind _ _ _ (fun _ db s c => (credential s0 key = None /\
    forall p, previous = Some p -> availability_of p = SignerAvailability.CredentialMissing) /\ P db s c)).
  { destruct previous as [p|] eqn:Ep.
    - apply (triple_bind _ _ _ (fun b db s c => lkb_availability b = availability_of p /\ P db s c)).
      { apply triple_lift. intros db s c HPd. destruct p as [ref [[k a]] l u v]. by split. }
      intros b. apply triple_pure. intros Hb. case_bool_decide as Em; simpl.
      + eapply triple_weaken; [apply (absent_run db0 s0 key); [done|by left]|done|].
        intros _ db s c [Hc HPd]. split; [|done]. split; [done|]. intros q [= <-]. congruence.
      + apply triple_lift. eauto.
    - eapply triple_weaken; [apply (absent_run db0 s0 key); [done|by left]|done|].
      intros _ db s c [Hc HPd]. done. }
  intros _. apply triple_pure. intros [Hcred Hmiss].
  set (kind := if is_some previous then DurableOperationKind.Repair else DurableOperationKind.Import).
  apply (triple_bind _ _ _ (fun i db s c => (public_key i = key /\ addable db0 s0 r kind i secret) /\ P db s c)).
  { destruct previous as [p|] eqn:Ep.
    - apply triple_lift. intros db s c HPd.
      destruct (with_local_keyring_availability p _) as [i|] eqn:E; simpl; [|eauto].
      split; [|done]. destruct (dk_keys _ Hdb _ _ Ep) as [Hk _].
      pose proof (repaired_addable db0 s0 r secret p i Hr Hfit) as Hx. rewrite Hk in Hx. by apply Hx; auto.
    - apply (triple_bind _ _ _ (fun _ => P)); [by apply triple_now|]. intros t. apply triple_lift.
      intros db s c HPd. destruct (new_identity key npub t) as [i|] eqn:E; [|eauto].
      split; [|done]. by apply (imported_addable db0 s0 r secret _ key npub t i). }
  intros i. apply triple_pure. intros [Hk Ha]. fold kind.
  replace previous with (bt_get (public_key i) (db_identities db0)) by (by rewrite Hk).
  eapply triple_mono; [eapply triple_weaken; [by apply persist_run|done|]|done|].
  - intros j db s c (-> & ops & Hj & Hd). by exists kind, ops.
  - intros db s [Hd|(ops & Hj & Hd)]; [by left|]. right. by exists i, kind, revision, ops.
Qed.

(** What an addition that may stop anywhere comes to over the starts that follow. *)
Definition addition_outcome {A} (identity_of : A -> NostrIdentity) db0 s0 r key secret
    (res : result A stop) (db : Database) (s : secret_store) : Prop :=
  (untouched db0 s0 r db s /\ forall a, res <> Ok a) \/
  exists identity, public_key identity = key /\ identity_added db0 s0 r identity secret db s /\
    forall a, res = Ok a -> identity_of a = identity.

Lemma addition_settles {A} (identity_of : A -> NostrIdentity) (m : io A) r key secret relays l w0 :
  ready (w_database w0) (w_secrets w0) r ->
  triple True (fun db s _ => db = w_database w0 /\ s = w_secrets w0) m
    (fun a db s _ => exists kind revision ops, public_key (identity_of a) = key /\
       addable (w_database w0) (w_secrets w0) r kind (identity_of a) secret /\ journal_rest ops /\
       added (w_database w0) (w_secrets w0) ops r kind revision (identity_of a) secret db s)
    (adding_key (w_database w0) (w_secrets w0) r key secret) ->
  sound (fun _ => True) m (fun _ => True) ->
  let (w1, res) := m w0 in
  let (w2, start) := persistent_bootstrap clock
    (restart (AppCore_new relays) [] (restarts clock l w1)) in
  (exists s, start = Ok s /\ shows s (w_database w2)) /\ database_ok (w_database w2) /\
  unfinished (db_operations (w_database w2)) = [] /\
  addition_outcome identity_of (w_database w0) (w_secrets w0) r key secret res
    (w_database w2) (w_secrets w2).
Proof.
  intros Hr Hm Hso. specialize (Hm w0 (conj eq_refl eq_refl)).
  specialize (Hso w0 (conj (rd_database _ _ _ Hr) I)). destruct (m w0) as [w1 [a|e]].
  - destruct Hm as [_ Hd]. destruct Hso as (_ & _ & Hok & _). unfold holds in Hd.
    assert (settled_key (w_database w0) (w_secrets w0) r key secret (w_database w1) (w_secrets w1)) as Hset.
    { destruct Hd as (kind & revision & ops & Hk & Ha & Hj & Hd). right.
      exists (identity_of a), kind, revision, ops. split_and!; [done..|by left]. }
    apply settled_adding_key in Hset as (_ & Hsel & Hu & _); [|done].
    pose proof (starts_settle clock (fun db s => db = w_database w1 /\ s = w_secrets w1)
      (fun db s => db = w_database w1 /\ s = w_secrets w1) relays l w1
      (recover_nothing _ _ Hu)) as Hst.
    destruct (persistent_bootstrap _ _) as [w2 start].
    destruct Hst as ([-> ->] & _ & Hs); [by intros db s [-> ->]|done|done|].
    split_and!; [done..|]. right. destruct Hd as (kind & revision & ops & Hk & Ha & Hj & Hd).
    exists (identity_of a). split; [done|]. split; [|by intros ? [= ->]].
    destruct Hd as (t & t' & v & phase & [_ Hc] & ->). split_and!; [done..|]. simpl.
    rewrite bt_get_insert, decide_True by done. by eexists.
  - destruct Hm as [_ [_ Hd]]. destruct Hso as (_ & _ & Hok).
    pose proof (starts_settle clock _ _ relays l w1 (recover_adding_key _ _ r key secret Hr)) as Hst.
    destruct (persistent_bootstrap _ _) as [w2 start].
    destruct Hst as (HE & Hok2 & Hs); [|done|done|].
    { intros db s HE. apply settled_adding_key in HE as (? & ? & _); done. }
    apply settled_adding_key in HE as (_ & _ & Hu & Ho); [|done]. split_and!; [done..|].
    destruct Ho as [Ho|(identity & Hk & Ho)]; [left; by split|]. right. exists identity. by split_and!.
Qed.

(** C17: importing a secret key is atomic and durable whatever fails.  From a
    consistent state with no unfinished operation, let every port call of the
    import work, be refused, be lost with an unknown outcome or be the last before
    the run is dropped, and let any number
    of starts after it fail at any of their own calls.  The first start that meets
    no failing call succeeds, shows what is saved, and leaves no unfinished
    operation; and then either nothing but the journal has changed and the import
    did not report success, or the identity is saved and selected and its credential
    is in the store, with everything else as before.  A success reported is kept. *)
Theorem import_atomic r revision input key npub secret relays l w0 :
  ready (w_database w0) (w_secrets w0) r ->
  km_import input = Ok (key, npub, secret) -> storable r secret ->
  let (w1, res) := import_secret_key_durable clock r revision input w0 in
  let (w2, start) := persistent_bootstrap clock
    (restart (AppCore_new relays) [] (restarts clock l w1)) in
  (exists s, start = Ok s /\ shows s (w_database w2)) /\ database_ok (w_database w2) /\
  unfinished (db_operations (w_database w2)) = [] /\
  addition_outcome id (w_database w0) (w_secrets w0) r key secret res
    (w_database w2) (w_secrets w2).
Proof.
  intros Hr Hi Hf. apply addition_settles; [done| |by apply import_sound].
  eapply triple_weaken; [by apply (import_run _ _ r revision input key npub secret)|done|].
  intros i db s c (kind & ops & Hx). by exists kind, revision, ops.
Qed.

(** The same of a generated key, once its owner has confirmed the staged pair. *)
Lemma commit_staged_settles r staged relays l w0 :
  let identity := sg_identity staged in
  ready (w_database w0) (w_secrets w0) r -> NostrIdentity_wf identity ->
  is_available identity = true -> storable r (sg_secret staged) ->
  credential (w_secrets w0) (public_key identity) = None ->
  bt_get (public_key identity) (db_identities (w_database w0)) = None ->
  let (w1, res) := commit_staged_generated_key clock r staged w0 in
  let (w2, start) := persistent_bootstrap clock
    (restart (AppCore_new relays) [] (restarts clock l w1)) in
  (exists s, start = Ok s /\ shows s (w_database w2)) /\ database_ok (w_database w2) /\
  unfinished (db_operations (w_database w2)) = [] /\
  addition_outcome id (w_database w0) (w_secrets w0) r (public_key identity) (sg_secret staged) res
    (w_database w2) (w_secrets w2).
Proof.
  intros identity Hr Hwf Hav Hf Hc Hn.
  assert (addable (w_database w0) (w_secrets w0) r DurableOperationKind.Create identity (sg_secret staged))
    as Ha by (constructor; try done; by rewrite Hn).
  apply addition_settles; [done|..]; unfold commit_staged_generated_key.
  - apply (triple_bind _ _ _ (fun _ db s _ => db = w_database w0 /\ s = w_secrets w0)).
    { unfold require_revision. apply (triple_bind _ _ _ (fun _ db s _ => db = w_database w0 /\ s = w_secrets w0));
        [by apply triple_core_snapshot|]. intros sn. apply triple_lift. intros db s c [-> ->].
      destruct (negb _); [|done]. split; [done|]. by left. }
    intros _. fold identity. rewrite <- Hn.
    eapply triple_mono; [eapply triple_weaken; [by apply persist_run|done|]|done|].
    + intros j db s c (-> & ops & Hj & Hd). by exists DurableOperationKind.Create, (sg_expected_revision staged), ops.
    + intros db s [Hd|(ops & Hj & Hd)]; [by left|]. right.
      by exists identity, DurableOperationKind.Create, (sg_expected_revision staged), ops.
  - eapply (sound_bind (fun _ => True) _ _ (fun _ => True)).
    + unfold require_revision. eapply (sound_bind _ _ _ (fun _ => True)); [apply sound_core_snapshot|].
      intros ? _. by apply sound_lift.
    + intros ? _. by apply persist_sound.
Qed.
End Atomic.

(** ** Closed examples *)

#[local] Existing Instance sample_transport.
#[local] Existing Instance memory_store.

(** Keys whose text ends in a digit of their last byte, and a provider that reads a
    key off the last byte of a secret. *)
Definition sample_npub_text (k : PublicKey) : list byte :=
  list_byte_of_string "npub1" ++ replicate 57 "q"%byte ++
  match nth_error BECH32_DATA_CHARSET
          (Z.to_nat (fold_right (fun b n => (byte_val b + n) mod 32) 0 (raw k))) with
  | Some b => [b]
  | None => []
  end.
Definition sample_keys : NostrKeys := {|
  key_from_hex _ := None;
  npub_encode k := Some (sample_npub_text k)
|}.
#[local] Existing Instance sample_keys.
Definition sample_secret (n : Z) : SecretKeyInput :=
  {| ski_value := replicate 63 "0"%byte ++ [if n =? 1 then "1"%byte else "2"%byte];
     ski_kind := SecretKeyInputKind.Hex |}.
Definition sample_material : KeyMaterialProvider := {|
  km_generate _ := Err invalid_secret_key;
  km_import x :=
    let k := sample_key (if ski_value x ==? ski_value (sample_secret 1) then 1 else 2) in
    let? npub := Npub_derive k in Ok (k, npub, x)
|}.
#[local] Existing Instance sample_material.
Definition sample_clock (n : nat) : UnixTimestamp := sample_time 5.
Definition sample_request (n : Z) : DurableRequestId := [if n =? 1 then "1"%byte else if n =? 2 then "2"%byte else "3"%byte].

Definition booted : AppCore := (apply_transition Bootstrap (AppCore_new sample_relays)).1.
Definition empty_world (faults : list Fault) : World :=
  {| w_database := Database_new; w_secrets := []; w_core := booted; w_ticks := 0; w_faults := faults |}.

Lemma sample_secret_storable n r : storable r (sample_secret n).
Proof. unfold sample_secret. by destruct (n =? 1). Qed.
Lemma empty_ready r faults : ready (w_database (empty_world faults)) (w_secrets (empty_world faults)) r.
Proof.
  constructor; [apply database_ok_new| |done..]. split; [constructor|done].
Qed.

Definition sample_import (n : Z) (w : World) : World * result NostrIdentity stop :=
  import_secret_key_durable sample_clock (sample_request n) (raw (as_revision (snapshot (w_core w))))
    (sample_secret n) w.
Definition sample_start (w : World) : World * result AppSnapshot stop :=
  persistent_bootstrap sample_clock (restart (AppCore_new sample_relays) [] w).

(** The import is lost after its tenth call, the next start is dropped in its second. *)
Definition lost_import : World * result NostrIdentity stop :=
  sample_import 1 (empty_world (replicate 9 Works ++ [OutcomeUnknown true])).
Definition failed_starts : list (AppCore * list Fault) :=
  [(AppCore_new sample_relays, [Works; Cut true])].

Lemma sample_derives : exists npub, Npub_derive (sample_key 1) = Ok npub.
Proof. eexists. vm_compute. reflexivity. Qed.

Lemma import_atomic_witness :
  lost_import.2 = Err (Raised unconfirmed_transaction_outcome) /\
  exists s, (sample_start (restarts sample_clock failed_starts lost_import.1)).2 = Ok s.
Proof.
  split; [vm_compute; reflexivity|].
  destruct sample_derives as [npub E].
  pose proof (import_atomic sample_clock (sample_request 1) (raw (as_revision (snapshot booted)))
    (sample_secret 1) (sample_key 1) npub (sample_secret 1) sample_relays failed_starts
    (empty_world (replicate 9 Works ++ [OutcomeUnknown true])) (empty_ready _ _)) as Hw.
  assert (km_import (sample_secret 1) = Ok (sample_key 1, npub, sample_secret 1)) as Hi.
  { cbn [km_import sample_material]. rewrite bool_decide_true by reflexivity. rewrite E. reflexivity. }
  specialize (Hw Hi (sample_secret_storable 1 _)).
  unfold sample_start, lost_import, sample_import.
  change (snapshot (w_core (empty_world (replicate 9 Works ++ [OutcomeUnknown true])))) with (snapshot booted).
  destruct (import_secret_key_durable _ _ _ _ _) as [w1 res].
  destruct (persistent_bootstrap _ _) as [w2 start]. destruct Hw as ((s & -> & _) & _).
  exists s. reflexivity.
Defined.
