(* ===== verification/Removal.v ===== *)
(** * Removal of identities

    The removal of a saved identity, over any failures of its port calls and of
    the starts that follow: once its intent is recorded it is always completed, by
    itself or by recovery, and a neighbour takes over the selection. *)

From Stdlib Require Import Bool ZArith Lia Strings.Byte Strings.String.
From stdpp Require Import base decidable option list numbers strings sorting sets relations.
From S2P Require Import Prelude Containers Encoding Hub Reference Identity Profile Snapshot Session Core Database Secrets Durable Recovery.

(** ** The identity that takes over the selection *)

Definition saved_identities (db : Database) : list NostrIdentity :=
  sort_by_key identity_order (bt_values (db_identities db)).

Definition fallback (db : Database) (key : PublicKey) : option PublicKey :=
  if db_selected db ==? Some key then
    position (fun identity => public_key identity ==? key) (saved_identities db)
      ≫= neighbour (saved_identities db)
  else db_selected db.

Lemma position_Some {A} (p : A -> bool) l i :
  position p l = Some i -> exists a, l !! i = Some a /\ p a = true.
Proof.
  revert i. induction l as [|a l IH]; intros i; simpl; [done|]. destruct (p a) eqn:E.
  - intros [= <-]. by exists a.
  - destruct (position p l) as [j|]; [|done]. intros [= <-]. by apply IH.
Qed.
Lemma position_is_Some {A} (p : A -> bool) l a :
  a ∈ l -> p a = true -> is_Some (position p l).
Proof.
  induction 1 as [|x y l Hx IH]; intros Hp; simpl; [by rewrite Hp|].
  destruct (p y); [done|]. destruct (IH Hp) as [j ->]. done.
Qed.

(** The neighbour is another element, and there is one unless the list has a
    single element. *)
Lemma neighbour_Some registry i a k :
  NoDup (public_key <$> registry) -> registry !! i = Some a -> neighbour registry i = Some k ->
  k ∈ public_key <$> registry /\ k <> public_key a.
Proof.
  intros Hd Hi. unfold neighbour.
  assert (forall j b, registry !! j = Some b -> i <> j ->
    public_key b ∈ public_key <$> registry /\ public_key b <> public_key a) as Hj.
  { intros j b Hb Hn. split; [by eapply list_elem_of_fmap_2, list_elem_of_lookup_2|]. intros He.
    apply Hn. apply (NoDup_lookup _ i j (public_key a) Hd); rewrite list_lookup_fmap.
    - by rewrite Hi.
    - by rewrite Hb, <- He. }
  destruct (registry !! S i) as [b|] eqn:E.
  - intros [= <-]. apply (Hj (S i)); [done|lia].
  - destruct i as [|i]; [done|]. destruct (registry !! i) as [b|] eqn:E'; [|done].
    intros [= <-]. apply (Hj i); [done|lia].
Qed.
Lemma neighbour_None registry i a :
  registry !! i = Some a -> neighbour registry i = None <-> length registry = 1%nat.
Proof.
  intros Hi. unfold neighbour. destruct registry as [|x [|y l]]; [done|..].
  - destruct i; [|done]. simpl. done.
  - split; [|done]. destruct i as [|i]; [done|].
    destruct ((x :: y :: l) !! S (S i)); [done|].
    apply lookup_lt_Some in Hi. destruct (lookup_lt_is_Some_2 (x :: y :: l) i) as [b ->]; [lia|done].
Qed.

Lemma saved_identities_elem db i :
  database_ok db -> i ∈ saved_identities db <-> bt_get (public_key i) (db_identities db) = Some i.
Proof.
  intros Hd. unfold saved_identities. rewrite elem_of_sort_by_key, bt_values_elem_of. split.
  - intros (k & Hi%bt_get_elem_of); [|apply Hd]. by destruct (dk_keys _ Hd _ _ Hi) as [-> _].
  - intros Hi. eexists. apply bt_get_elem_of; [apply Hd|done].
Qed.

Lemma bt_remove_nil {K V} `{TotalOrd K, EqDecision K} (k : K) (v : V) m :
  bt_get k m = Some v -> bt_remove k m = [] <-> length m = 1%nat.
Proof.
  intros Hg. rewrite (Permutation_length (bt_remove_perm k v m Hg)). simpl.
  rewrite <- length_zero_iff_nil. lia.
Qed.

(** The takeover of the selection is sound. *)
Lemma fallback_saved db key i :
  database_ok db -> bt_get key (db_identities db) = Some i -> selection_complete db ->
  (forall k, fallback db key = Some k -> is_Some (bt_get k (bt_remove key (db_identities db)))) /\
  (bt_remove key (db_identities db) = [] <-> fallback db key = None).
Proof.
  intros Hd Hi Hs. destruct (dk_keys _ Hd _ _ Hi) as [Hk _]. unfold fallback.
  assert (forall k, k <> key -> is_Some (bt_get k (db_identities db)) ->
    is_Some (bt_get k (bt_remove key (db_identities db)))) as Hkeep.
  { intros k Hn Hg. rewrite bt_get_remove by apply Hd. by rewrite decide_False. }
  rewrite (bt_remove_nil key i) by done. case_bool_decide as Esel.
  - set (registry := saved_identities db).
    destruct (position_is_Some (fun i => public_key i ==? key) registry i) as [j Hj].
    { apply saved_identities_elem; [done|]. by rewrite Hk. }
    { by rewrite Hk, bool_decide_true. }
    rewrite Hj. simpl. apply position_Some in Hj as (a & Ha & Hka%bool_decide_eq_true). split.
    + intros k Hn. destruct (neighbour_Some registry j a k) as [Hin Hne]; [|done..|].
      { by apply identities_distinct. }
      apply list_elem_of_fmap in Hin as (b & -> & Hb).
      apply saved_identities_elem in Hb; [|done]. apply Hkeep; [congruence|]. by exists b.
    + rewrite (neighbour_None registry j a Ha). unfold registry, saved_identities.
      rewrite sort_by_key_length. unfold bt_values. by rewrite length_fmap.
  - split.
    + intros k Hk'. apply Hkeep; [congruence|]. by apply (dk_selected _ Hd).
    + unfold selection_complete in Hs. rewrite <- Hs. split.
      * intros Hl. exfalso. destruct (db_selected db) as [k|] eqn:Ek.
        -- destruct (dk_selected _ Hd k Ek) as [i' Hi'].
           assert (bt_remove key (db_identities db) = []) as Hn by (by apply (bt_remove_nil key i)).
           destruct (Hkeep k) as [? Hg]; [congruence|by exists i'|]. by rewrite Hn in Hg.
        -- destruct Hs as [_ Hs]. rewrite Hs in Hi by done. done.
      * intros E. by rewrite E in Hi.
Qed.

(** ** A call whose failure is looked at *)

Lemma triple_attempt_secrets `{RelayTransport, NostrKeys, SecretStore} {A} fails (P : assertion)
    (m : stm secret_store SafeError A) (R : result A SafeError -> assertion) G :
  (forall db s c, P db s c ->
     let (s', res) := m s in
     (R res db s' c /\ R (Err keyring_unavailable) db s c /\ R (Err keyring_unavailable) db s' c) /\
     G db s /\ G db s') ->
  triple fails P (attempt (secrets m)) R G.
Proof.
  intros HR w HP. specialize (HR _ _ _ HP). unfold attempt, secrets.
  pose proof (quiet_next w) as Hq. destruct (next_fault w) as [fault w1] eqn:En.
  unfold next_fault in En. injection En as Ef Ew. simpl in Hq. rewrite <- Ew in Hq |- *. simpl.
  destruct (m (w_secrets w)) as [s' res]. destruct HR as ((H1' & H2' & H3') & H4' & H5').
  destruct fault as [| |[]|[]]; simpl; try (split; [intros Hw; by apply Hq|done]).
  2-3: split; [intros Hw; by apply Hq|split; [intros Hw; destruct (Hq Hw); congruence|done]].
  all: destruct res; simpl; (split; [intros Hw; by apply Hq|done]).
Qed.

Lemma triple_assoc `{RelayTransport, NostrKeys, SecretStore} {A B C} fails P (m : io A)
    (f : A -> io B) (g : B -> io C) Q G :
  triple fails P (stm_bind (stm_bind m f) g) Q G ->
  triple fails P (stm_bind m (fun a => stm_bind (f a) g)) Q G.
Proof.
  intros Hm w HP. specialize (Hm w HP). unfold stm_bind in *. by destruct (m w) as [w1 [a|e]].
Qed.

(** ** The states of a removal *)

Section Removal.
Context `{RelayTransport, NostrKeys, KeyMaterialProvider, SecretStore} (clock : nat -> UnixTimestamp).
Context (db0 : Database) (s0 : secret_store) (ops : list (DurableRequestId * DurableIdentityOperation)).
Context (r : DurableRequestId) (key : PublicKey) (identity : NostrIdentity) (revision : Z).

Hypothesis db0_ok : database_ok db0.
Hypothesis db0_selected : selection_complete db0.
Hypothesis s0_ok : store_ok s0.
Hypothesis ops_wf : bt_wf ops.
Hypothesis ops_finished : unfinished ops = [].
Hypothesis saved : bt_get key (db_identities db0) = Some identity.

Abbreviation target := (fallback db0 key).

(** The tables of the identities: as they were, without the identity, and with the
    new selection. *)
Record tables := {
  tb_identities : list (PublicKey * NostrIdentity);
  tb_selected : option PublicKey;
  tb_profiles : list (PublicKey * CachedProfile)
}.
Definition before : tables :=
  {| tb_identities := db_identities db0; tb_selected := db_selected db0;
     tb_profiles := db_profiles db0 |}.
Definition without (selected : option PublicKey) : tables :=
  {| tb_identities := bt_remove key (db_identities db0); tb_selected := selected;
     tb_profiles := bt_remove key (db_profiles db0) |}.
Definition unselected : option PublicKey :=
  if db_selected db0 ==? Some key then None else db_selected db0.

Definition rm_op (phase : DurableOperationPhase) (t : UnixTimestamp) : DurableIdentityOperation := {|
  dio_request_id := r; dio_kind := DurableOperationKind.Remove; dio_identity := key;
  dio_expected_revision := Some revision; dio_phase := phase;
  dio_prior := {| op_selected_identity := target;
                  op_binding_availability := Some (availability_of identity) |};
  dio_updated_at := t; dio_diagnostic := None; dio_terminal := None |}.
Definition rm_db (tb : tables) (op : DurableIdentityOperation) : Database := {|
  db_identities := tb_identities tb; db_selected := tb_selected tb; db_profiles := tb_profiles tb;
  db_operations := bt_insert r op ops |}.

Definition kept_credentials (s : secret_store) : Prop :=
  store_ok s /\ forall k, credential s k = credential s0 k.
Definition gone_credential (s : secret_store) : Prop :=
  store_ok s /\ forall k, credential s k = if decide (key = k) then None else credential s0 k.

(** What a phase of the journal says about the rest. *)
Definition allows (phase : DurableOperationPhase) (tb : tables) (s : secret_store) : Prop :=
  match phase with
  | DurableOperationPhase.IntentRecorded => tb = before /\ (kept_credentials s \/ gone_credential s)
  | DurableOperationPhase.CredentialDeleted =>
      (tb = before \/ tb = without unselected) /\ gone_credential s
  | DurableOperationPhase.MetadataDeleted =>
      (tb = without unselected \/ tb = without target) /\ gone_credential s
  | DurableOperationPhase.SelectionCommitted => tb = without target /\ gone_credential s
  | _ => False
  end.

Inductive removing : Database -> secret_store -> Prop :=
| rm_open phase t tb s : allows phase tb s -> removing (rm_db tb (rm_op phase t)) s
| rm_closed phase t v t' s : gone_credential s ->
    removing (rm_db (without target)
      (with_receipt (rm_op phase t) DurableTerminalOutcome.Completed v t')) s.

Definition removed (db : Database) (s : secret_store) : Prop :=
  exists phase t v t', gone_credential s /\
    db = rm_db (without target) (with_receipt (rm_op phase t) DurableTerminalOutcome.Completed v t').
Definition open_at (phase : DurableOperationPhase) (R : tables -> secret_store -> Prop) : assertion :=
  fun db s _ => exists t tb, R tb s /\ db = rm_db tb (rm_op phase t).

Lemma removed_removing db s : removed db s -> removing db s.
Proof. intros (phase & t & v & t' & Hs & ->). by constructor. Qed.

(** *** Single calls *)

Lemma put_rm_db tb op op' :
  set_operations (bt_insert r op' (db_operations (rm_db tb op))) (rm_db tb op) = rm_db tb op'.
Proof. unfold set_operations, rm_db. simpl. by rewrite bt_insert_insert. Qed.

Lemma get_rm_db tb op : bt_get r (db_operations (rm_db tb op)) = Some op.
Proof. simpl. rewrite bt_get_insert. by rewrite decide_True. Qed.

Lemma advance_rm (fails : Prop) phase next (R : tables -> secret_store -> Prop) :
  next <> DurableOperationPhase.Finalized ->
  (forall tb s, R tb s -> allows phase tb s /\ allows next tb s) ->
  triple fails (open_at phase R) (advance clock r phase next) (fun _ => open_at next R) removing.
Proof.
  intros Hn HR. apply triple_advance; [done|]. intros db s c (t & tb & HRd & ->).
  destruct (HR _ _ HRd) as [Ha Ha']. split; [by constructor|]. exists (rm_op phase t).
  split_and!; [apply get_rm_db|done..|]. intros t'. cbv zeta. rewrite put_rm_db.
  split; [|by apply (rm_open next t')]. by exists t', tb.
Qed.

Lemma database_rm {A} (fails : Prop) phase (R R' : tables -> secret_store -> Prop) (f : transaction A)
    (Q : A -> Prop) :
  (forall tb s op, R tb s -> allows phase tb s /\
     match f (rm_db tb op) with
     | Ok (db, a) => exists tb', db = rm_db tb' op /\ R' tb' s /\ allows phase tb' s /\ Q a
     | Err _ => fails
     end) ->
  triple fails (open_at phase R) (database f) (fun a db s c => Q a /\ open_at phase R' db s c) removing.
Proof.
  intros Hf. apply triple_database. intros db s c (t & tb & HRd & ->).
  destruct (Hf tb s (rm_op phase t) HRd) as [Ha Hr]. split; [by constructor|].
  destruct (f _) as [[db a]|e]; [|done]. destruct Hr as (tb' & -> & HR' & Ha' & HQ).
  split; [|by constructor]. split; [done|]. by exists t, tb'.
Qed.

Lemma finalize_rm (fails : Prop) v :
  (encode_revision v <> Ok v -> fails) ->
  triple fails (open_at DurableOperationPhase.SelectionCommitted
      (allows DurableOperationPhase.SelectionCommitted))
    (finalize clock r DurableOperationPhase.SelectionCommitted DurableTerminalOutcome.Completed v)
    (fun _ db s _ => removed db s) removing.
Proof.
  intros Hv. apply triple_finalize. intros db s c (t & tb & Ha & ->). split; [by constructor|].
  exists (rm_op DurableOperationPhase.SelectionCommitted t).
  split_and!; [apply get_rm_db|done..|]. intros t'. cbv zeta. rewrite put_rm_db.
  destruct Ha as [-> Hs]. split; [|by constructor]. by do 4 eexists.
Qed.

Lemma target_saved tb :
  tb_identities tb = bt_remove key (db_identities db0) ->
  forall op, save_selected_identity target (rm_db tb op) =
    Ok (rm_db {| tb_identities := tb_identities tb; tb_selected := target;
                 tb_profiles := tb_profiles tb |} op, tt).
Proof.
  intros E op. destruct (fallback_saved db0 key identity db0_ok saved db0_selected) as [Hf _].
  unfold save_selected_identity. destruct target as [k|]; [|done]. simpl.
  destruct (Hf k eq_refl) as [i Hi]. rewrite <- E in Hi. by rewrite Hi.
Qed.

Lemma select_rm (fails : Prop) :
  triple fails (open_at DurableOperationPhase.MetadataDeleted
      (allows DurableOperationPhase.MetadataDeleted))
    (database (save_selected_identity target))
    (fun _ => open_at DurableOperationPhase.MetadataDeleted
       (allows DurableOperationPhase.SelectionCommitted)) removing.
Proof.
  eapply triple_weaken; [apply (database_rm fails DurableOperationPhase.MetadataDeleted (allows DurableOperationPhase.MetadataDeleted)
    (allows DurableOperationPhase.SelectionCommitted) _ (fun _ => True))|done|by intros a db s c [_ Hx]].
  intros tb s op Ha. split; [done|]. destruct Ha as [Htb Hs]. rewrite target_saved.
  - eexists. split; [done|]. destruct Htb as [-> | ->]; simpl; split_and!; auto.
  - by destruct Htb as [-> | ->].
Qed.

Lemma remove_before op :
  remove_identity key (rm_db before op) = Ok (rm_db (without unselected) op, tt).
Proof. unfold remove_identity. simpl. by rewrite saved. Qed.
Lemma find_without selected op :
  find_identity key (rm_db (without selected) op) = Ok (rm_db (without selected) op, None).
Proof. unfold find_identity. simpl. rewrite bt_get_remove by apply db0_ok. by rewrite decide_True. Qed.

(** The row of the identity is removed, if it is still there. *)
Lemma remove_if_present_rm :
  triple False (open_at DurableOperationPhase.CredentialDeleted
      (allows DurableOperationPhase.CredentialDeleted))
    (remove_if_present key)
    (fun _ => open_at DurableOperationPhase.CredentialDeleted
       (fun tb s => tb = without unselected /\ gone_credential s)) removing.
Proof.
  unfold remove_if_present.
  apply (triple_bind _ _ _ (fun found => open_at DurableOperationPhase.CredentialDeleted
    (fun tb s => (if is_some found then tb = before else tb = without unselected) /\ gone_credential s))).
  - apply triple_database. intros db s c (t & tb & Ha & ->). pose proof Ha as [Htb Hs].
    assert (removing (rm_db tb (rm_op DurableOperationPhase.CredentialDeleted t)) s) by by constructor.
    split; [done|]. destruct Htb as [-> | ->].
    + unfold find_identity. cbn [db_identities rm_db tb_identities before]. rewrite saved.
      split; [|done]. by exists t, before.
    + rewrite find_without. split; [|done]. by exists t, (without unselected).
  - intros [i|]; simpl; [|by apply triple_ret].
    eapply triple_weaken; [apply (database_rm False DurableOperationPhase.CredentialDeleted (fun tb s => tb = before /\ gone_credential s)
      (fun tb s => tb = without unselected /\ gone_credential s) _ (fun _ => True))
      |done|by intros a db s c [_ Hx]].
    intros tb s op [-> Hs]. split; [simpl; auto|]. rewrite remove_before. eexists. split; [done|].
    split_and!; simpl; auto.
Qed.

Lemma delete_rm (fails : Prop) :
  triple fails (open_at DurableOperationPhase.IntentRecorded
      (allows DurableOperationPhase.IntentRecorded))
    (delete_if_present r key)
    (fun _ => open_at DurableOperationPhase.IntentRecorded
       (fun tb s => tb = before /\ gone_credential s)) removing.
Proof.
  unfold delete_if_present.
  apply (triple_bind _ _ _ (fun b db s c => open_at DurableOperationPhase.IntentRecorded
    (allows DurableOperationPhase.IntentRecorded) db s c /\ b = is_some (credential s key))).
  - apply triple_secrets_read. intros db s c Ho. destruct Ho as (t & tb & Ha & ->).
    split; [by constructor|]. pose proof Ha as (_ & Hs).
    rewrite secret_contains_law by (by destruct Hs as [[]|[]]). split; [|done]. by exists t, tb.
  - intros b. destruct b.
    + apply triple_secrets. intros db s c [(t & tb & Ha & ->) Hb]. split; [by constructor|].
      destruct (credential s key) as [cr|] eqn:Ec; [|done]. destruct Ha as [-> Hs].
      destruct Hs as [[Hok Hk]|[_ Hk]]; [|by rewrite Hk, decide_True in Ec].
      destruct (secret_delete_present s r key cr Hok Ec) as (s' & -> & Hok' & Hk').
      assert (gone_credential s').
      { split; [done|]. intros k. rewrite Hk'. case_decide; [done|]. apply Hk. }
      split; [constructor; simpl; auto|]. by exists t, before.
    + apply triple_ret. intros db s c [(t & tb & [-> Hs] & ->) Hb]. exists t, before.
      split; [|done]. split; [done|]. destruct (credential s key) eqn:Ec; [done|].
      destruct Hs as [[Hok Hk]|Hs]; [|done]. split; [done|]. intros k. case_decide; [congruence|].
      apply Hk.
Qed.

(** *** Recovery *)

Section Operation.
Context (op : DurableIdentityOperation).
Hypothesis op_request : dio_request_id op = r.
Hypothesis op_identity : dio_identity op = key.
Hypothesis op_target : op_selected_identity (dio_prior op) = target.

Lemma selection_rm phase :
  phase = DurableOperationPhase.MetadataDeleted \/ phase = DurableOperationPhase.SelectionCommitted ->
  triple False (open_at phase (allows phase)) (removal_selection clock op phase)
    (fun _ db s _ => removed db s) removing.
Proof.
  intros Hp. unfold removal_selection. rewrite op_request, op_target.
  apply (triple_bind _ _ _ (fun p db s c => p = DurableOperationPhase.SelectionCommitted /\
    open_at DurableOperationPhase.SelectionCommitted
      (allows DurableOperationPhase.SelectionCommitted) db s c)).
  - destruct Hp as [-> | ->]; simpl; [|by apply triple_ret].
    eapply triple_bind; [apply select_rm|]. intros ?.
    eapply triple_bind; [apply advance_rm; [done|]|intros ?; by apply triple_ret].
    intros tb s [-> Hs]. simpl. auto.
  - intros p. apply triple_pure. intros ->. by apply finalize_rm.
Qed.

Lemma metadata_rm phase :
  phase = DurableOperationPhase.CredentialDeleted \/ phase = DurableOperationPhase.MetadataDeleted \/
  phase = DurableOperationPhase.SelectionCommitted ->
  triple False (open_at phase (allows phase)) (removal_metadata clock op phase)
    (fun _ db s _ => removed db s) removing.
Proof.
  intros Hp. unfold removal_metadata. rewrite op_request, op_identity.
  apply (triple_bind _ _ _ (fun p db s c =>
    (p = DurableOperationPhase.MetadataDeleted \/ p = DurableOperationPhase.SelectionCommitted) /\
    open_at p (allows p) db s c)).
  - destruct Hp as [-> | [-> | ->]]; simpl; [|apply triple_ret; auto..].
    eapply triple_bind; [apply remove_if_present_rm|]. intros ?.
    eapply triple_bind; [apply advance_rm; [done|]|intros ?; apply triple_ret].
    + intros tb s [-> Hs]. simpl. auto.
    + intros db s c (t & tb & [-> Hs] & ->). split; [auto|]. exists t, (without unselected).
      simpl. auto.
  - intros p. apply triple_pure. apply selection_rm.
Qed.

Lemma recover_rm :
  triple False (open_at (dio_phase op) (allows (dio_phase op))) (recover_durable_removal clock op)
    (fun _ db s _ => removed db s) removing.
Proof.
  unfold recover_durable_removal. rewrite op_request, op_identity.
  apply (triple_bind _ _ _ (fun p db s c =>
    (p = DurableOperationPhase.CredentialDeleted \/ p = DurableOperationPhase.MetadataDeleted \/
     p = DurableOperationPhase.SelectionCommitted) /\ open_at p (allows p) db s c)).
  - destruct (dio_phase op) eqn:Ep; simpl.
    2-8: apply triple_ret; intros db s c (t & tb & Ha & ->); simpl in Ha;
      first [done|split; [auto|by exists t, tb]].
    eapply triple_bind; [apply delete_rm|]. intros ?.
    eapply triple_bind; [apply advance_rm; [done|]|intros ?; apply triple_ret].
    + intros tb s [-> Hs]. simpl. auto.
    + intros db s c (t & tb & [-> Hs] & ->). split; [auto|]. exists t, before. simpl. auto.
  - intros p. apply triple_pure. apply metadata_rm.
Qed.
End Operation.

Lemma unfinished_rm tb op :
  unfinished (db_operations (rm_db tb op)) = if is_unfinished op then [op] else [].
Proof. simpl. by apply unfinished_insert. Qed.

Lemma recover_removing :
  triple False (fun db s _ => removing db s) (recover_durable_operations clock)
    (fun _ db s _ => removed db s) removing.
Proof.
  unfold recover_durable_operations.
  apply (triple_bind _ _ _ (fun l db s c =>
    (l = [] /\ removed db s) \/
    exists phase t tb, l = [rm_op phase t] /\ allows phase tb s /\ db = rm_db tb (rm_op phase t))).
  - apply triple_database. intros db s c Hr. split; [done|].
    unfold list_unfinished_durable_operations. cbv zeta.
    destruct Hr as [phase t tb s Ha|phase t v t' s Hs]; rewrite unfinished_rm; simpl.
    + split; [|by constructor]. right. by exists phase, t, tb.
    + split; [|by constructor]. left. split; [done|]. by exists phase, t, v, t'.
  - intros l. apply triple_or.
    + apply triple_pure. intros ->. by apply triple_ret.
    + apply triple_exists. intros phase. apply triple_exists. intros t. apply triple_exists. intros tb.
      apply triple_pure. intros ->. cbn [for_each]. cbn [dio_kind rm_op].
      apply (triple_bind _ _ _ (fun _ db s _ => removed db s)); [|intros ?; by apply triple_ret].
      eapply triple_weaken; [by apply (recover_rm (rm_op phase t))| |intros a db s c Hr; exact Hr].
      intros db s c [Ha ->]. by exists t, tb.
Qed.

(** *** The operation itself *)

Lemma credential_delete_rm :
  triple True (open_at DurableOperationPhase.IntentRecorded (fun tb s => tb = before /\ kept_credentials s))
    (do! deleted <- attempt (secrets (secret_delete r key));
     io_lift (match deleted with
               | Ok _ => Ok tt
               | Err error =>
                   if (se_code error ==? SafeErrorCode.CredentialMissing)
                      && (availability_of identity ==? SignerAvailability.CredentialMissing)
                   then Ok tt else Err error
               end))
    (fun _ => open_at DurableOperationPhase.IntentRecorded (fun tb s => tb = before /\ gone_credential s))
    removing.
Proof.
  set (P := open_at DurableOperationPhase.IntentRecorded (fun tb s => tb = before /\ kept_credentials s)).
  set (Q := open_at DurableOperationPhase.IntentRecorded (fun tb s => tb = before /\ gone_credential s)).
  assert (forall db s c, P db s c \/ Q db s c -> removing db s) as HPQ.
  { intros db s c [(t & tb & [-> Hs] & ->)|(t & tb & [-> Hs] & ->)]; constructor; simpl; auto. }
  apply (triple_bind _ _ _ (fun res db s c => match res with
    | Ok _ => Q db s c
    | Err e => (se_code e = SafeErrorCode.CredentialMissing -> Q db s c) /\ removing db s
    end)).
  - apply triple_attempt_secrets. intros db s c HP.
    assert (removing db s) as Hrem by eauto. destruct HP as (t & tb & [-> [Hok Hk]] & ->).
    destruct (credential s key) as [cr|] eqn:Ec.
    + destruct (secret_delete_present s r key cr Hok Ec) as (s' & -> & Hok' & Hk').
      assert (gone_credential s') as Hg.
      { split; [done|]. intros k. rewrite Hk'. case_decide; [done|]. apply Hk. }
      assert (Q (rm_db before (rm_op DurableOperationPhase.IntentRecorded t)) s' c) as HQ.
      { by exists t, before. }
      split_and!; try done; eauto.
    + rewrite (secret_delete_absent s r key Hok Ec). split_and!; try done.
      intros _. exists t, before. split; [|done]. split; [done|]. split; [done|].
      intros k. case_decide; [congruence|apply Hk].
  - intros [[]|e].
    + apply triple_lift. auto.
    + apply triple_lift. intros db s c [HQ Hrem]. case_bool_decide as Ecode; simpl; [|done].
      case_bool_decide; [by apply HQ|done].
Qed.

Lemma started_rm :
  triple True (open_at DurableOperationPhase.IntentRecorded (fun tb s => tb = before /\ kept_credentials s))
    (removal_started clock r key (availability_of identity) target)
    (fun _ db s _ => removed db s) removing.
Proof.
  unfold removal_started.
  set (P := open_at DurableOperationPhase.IntentRecorded (fun tb s => tb = before /\ kept_credentials s)).
  assert (forall db s c, P db s c -> removing db s) as HP.
  { intros db s c (t & tb & [-> Hs] & ->). constructor; simpl; auto. }
  apply (triple_bind _ _ _ (fun _ => P)). { by apply triple_core_snapshot. }
  intros sn. apply (triple_bind _ _ _ (fun _ => P)).
  { destruct (signs_out key sn); [|by apply triple_ret].
    apply (triple_bind _ _ _ (fun _ => P)); [|intros ?; by apply triple_ret].
    apply triple_core. intros db s c HPd. destruct (AppCore_sign_out c) as [c' [a|e]]; eauto. }
  intros _. apply triple_assoc. eapply triple_bind; [apply credential_delete_rm|]. intros ?.
  eapply triple_bind; [apply advance_rm; [done|]|intros ?].
  { intros tb s [-> Hs]. simpl. auto. }
  apply (triple_bind _ _ _ (fun _ => open_at DurableOperationPhase.CredentialDeleted
    (fun tb s => tb = without unselected /\ gone_credential s))).
  { eapply triple_weaken; [apply (database_rm True DurableOperationPhase.CredentialDeleted
      (fun tb s => tb = before /\ gone_credential s)
      (fun tb s => tb = without unselected /\ gone_credential s) _ (fun _ => True))
      |done|by intros b db s c [_ Hx]].
    intros tb s op [-> Hs]. split; [simpl; auto|]. rewrite remove_before. eexists. split; [done|].
    split_and!; simpl; auto. }
  intros ?. eapply triple_bind; [apply advance_rm; [done|]|intros ?].
  { intros tb s [-> Hs]. simpl. auto. }
  eapply triple_bind; [eapply triple_weaken; [apply select_rm| |intros b db s c Hx; exact Hx]|intros ?].
  { intros db s c (t & tb & [-> Hs] & ->). exists t, (without unselected). simpl. auto. }
  eapply triple_bind; [apply advance_rm; [done|]|intros ?].
  { intros tb s [-> Hs]. simpl. auto. }
  set (S := open_at DurableOperationPhase.SelectionCommitted
              (allows DurableOperationPhase.SelectionCommitted)).
  assert (forall db s c, S db s c -> removing db s) as HS.
  { intros db s c (t & tb & Ha & ->). by constructor. }
  apply (triple_bind _ _ _ (fun _ => S)).
  { apply triple_database. intros db s c HSd. split; [eauto|]. unfold list_identities. cbv zeta.
    destruct (_ <? _)%nat; [done|]. eauto. }
  intros registry. apply (triple_bind _ _ _ (fun _ => S)).
  { apply triple_core. intros db s c HSd. destruct (apply_transition _ c) as [c' [b|e]]; eauto. }
  intros sn'. apply (triple_bind _ _ _ (fun _ db s _ => removed db s)).
  { by apply finalize_rm. }
  intros ?. by apply triple_ret.
Qed.
End Removal.

(** ** The whole operation *)

Section Atomic.
Context `{RelayTransport, NostrKeys, KeyMaterialProvider, SecretStore} (clock : nat -> UnixTimestamp).

(** The states between, for a removal of the key. *)
Definition removing_key db0 s0 r key (db : Database) (s : secret_store) : Prop :=
  (db = db0 /\ s = s0) \/
  exists identity revision ops, bt_get key (db_identities db0) = Some identity /\ journal_rest ops /\
    removing db0 s0 ops r key identity revision db s.
Definition removed_key db0 s0 r key (db : Database) (s : secret_store) : Prop :=
  exists identity revision ops, bt_get key (db_identities db0) = Some identity /\ journal_rest ops /\
    removed db0 s0 ops r key identity revision db s.

(** The identity, its credential and its cached profile are gone, a neighbour has
    taken over its selection, and all else is as before. *)
Definition identity_removed (db0 : Database) (s0 : secret_store) (r : DurableRequestId)
    (key : PublicKey) (db : Database) (s : secret_store) : Prop :=
  db_identities db = bt_remove key (db_identities db0) /\ db_selected db = fallback db0 key /\
  db_profiles db = bt_remove key (db_profiles db0) /\
  (forall k, credential s k = if decide (key = k) then None else credential s0 k) /\
  exists op, bt_get r (db_operations db) = Some op /\ is_completed op = true.

Lemma recover_removing_key db0 s0 r key :
  ready db0 s0 r ->
  triple False (fun db s _ => removing_key db0 s0 r key db s) (recover_durable_operations clock)
    (fun _ db s _ => (db = db0 /\ s = s0) \/ removed_key db0 s0 r key db s)
    (removing_key db0 s0 r key).
Proof.
  intros [Hdb Hst Hfin Hfresh Hsel]. apply triple_or.
  - eapply triple_mono; [eapply triple_weaken; [by apply (recover_nothing clock db0 s0)|done|]|done|].
    + intros a db s c Hd. by left.
    + intros db s Hd. by left.
  - apply triple_exists. intros identity. apply triple_exists. intros revision.
    apply triple_exists. intros ops. apply triple_pure. intros Hi. apply triple_pure. intros [Hw Hu].
    eapply triple_mono; [eapply (triple_weaken False);
      [by apply (recover_removing clock db0 s0 ops r key identity revision)|done|]|done|].
    + intros a db s c Hd. right. by exists identity, revision, ops.
    + intros db s Hd. right. by exists identity, revision, ops.
Qed.

Lemma removed_settled db0 s0 r key db s :
  ready db0 s0 r -> removed_key db0 s0 r key db s ->
  removing_key db0 s0 r key db s /\ selection_complete db /\ unfinished (db_operations db) = [] /\
  identity_removed db0 s0 r key db s.
Proof.
  intros [Hdb Hst Hfin Hfresh Hsel] (identity & revision & ops & Hi & [Hw Hu] & Hd). split.
  { right. exists identity, revision, ops. split_and!; [done..|by split|]. by apply removed_removing. }
  destruct Hd as (phase & t & v & t' & [_ Hs] & ->). split_and!.
  - destruct (fallback_saved db0 key identity Hdb Hi Hsel) as [_ Hf]. exact Hf.
  - by rewrite unfinished_rm.
  - split_and!; [done..|]. exists (with_receipt (rm_op db0 r key identity revision phase t)
      DurableTerminalOutcome.Completed v t'). split; [|done]. apply get_rm_db.
Qed.

(** From the journal entry on. *)
Lemma begin_removal_run db0 s0 r key identity revision :
  ready db0 s0 r -> bt_get key (db_identities db0) = Some identity ->
  triple True (fun db s _ => db = db0 /\ s = s0)
    (do! at_ <- now clock;
     do! start <- database (begin_durable_operation r DurableOperationKind.Remove key (Some revision)
       {| op_selected_identity := fallback db0 key;
          op_binding_availability := Some (availability_of identity) |} at_);
     match start with
     | Existing operation =>
         if is_completed operation then core_snapshot else io_lift (Err recovery_required)
     | Started _ => removal_started clock r key (availability_of identity) (fallback db0 key)
     end)
    (fun _ db s _ => removed_key db0 s0 r key db s) (removing_key db0 s0 r key).
Proof.
  intros [Hdb Hst Hfin Hfresh Hsel] Hi.
  apply (triple_bind _ _ _ (fun _ db s _ => db = db0 /\ s = s0)); [by apply triple_now|]. intros t.
  apply (triple_bind _ _ _ (fun start db s c => exists ops op, journal_rest ops /\ start = Started op /\
    open_at db0 ops r key identity revision DurableOperationPhase.IntentRecorded
      (fun tb s => tb = before db0 /\ kept_credentials s0 s) db s c)).
  { apply triple_database. intros db s c [-> ->]. split; [by left|].
    destruct (begin_durable_operation _ _ _ _ _ _ db0) as [[db' start]|e] eqn:Eb; [|done].
    apply begin_started in Eb as (ops & Hw & Hu & _ & _ & _ & _ & -> & ->); [|done..].
    rewrite Hfin in Hu. split.
    - exists ops. eexists. split; [done|]. split; [done|]. exists t, (before db0). by split.
    - right. exists identity, revision, ops. split_and!; [done..|].
      apply (rm_open db0 s0 ops r key identity revision _ t (before db0) s0). split; [done|]. by left. }
  intros start. apply triple_exists. intros ops. apply triple_exists. intros op.
  apply triple_pure. intros [Hw Hu]. apply triple_pure. intros ->.
  eapply triple_mono; [eapply triple_weaken;
    [by apply (started_rm clock db0 s0 ops r key identity revision)|done|]|done|].
  - intros a db s c Hd. by exists identity, revision, ops.
  - intros db s Hd. right. by exists identity, revision, ops.
Qed.

Lemma confirm_run db0 s0 r token :
  ready db0 s0 r ->
  let key := rt_public_key token in
  triple True (fun db s c => (db = db0 /\ s = s0) /\ as_selected_identity (snapshot c) = db_selected db0)
    (confirm_identity_removal_durable clock r token)
    (fun _ db s _ => removed_key db0 s0 r key db s) (removing_key db0 s0 r key).
Proof.
  intros Hr key. pose proof Hr as [Hdb Hst Hfin Hfresh Hsel]. unfold confirm_identity_removal_durable.
  cbv zeta.
  set (P := fun (db : Database) (s : secret_store) (c : AppCore) =>
    (db = db0 /\ s = s0) /\ as_selected_identity (snapshot c) = db_selected db0).
  assert (forall db s c, P db s c -> removing_key db0 s0 r key db s) as HP.
  { intros db s c [Hd _]. by left. }
  apply (triple_bind _ _ _ (fun _ => P)); [by apply triple_now|]. intros t.
  apply (triple_bind _ _ _ (fun k db s c => k = key /\ P db s c)).
  { apply triple_core. intros db s c [Hd Hs]. unfold consume_removal_token. cbv zeta.
    destruct (_ || _); [|by split]. split; [done|by left]. }
  intros k. apply triple_pure. intros ->. apply (triple_bind _ _ _ (fun _ => P)).
  { unfold require_revision. apply (triple_bind _ _ _ (fun _ => P)); [by apply triple_core_snapshot|].
    intros sn. apply triple_lift. intros db s c HPd. destruct (negb _); eauto. }
  intros _. apply (triple_bind _ _ _ (fun registry db s c => registry = saved_identities db0 /\ P db s c)).
  { apply triple_database. intros db s c HPd. split; [eauto|]. pose proof HPd as [[-> ->] _].
    unfold list_identities. cbv zeta. destruct (_ <? _)%nat; [done|]. eauto. }
  intros registry. apply triple_pure. intros ->.
  destruct (position (fun i => public_key i ==? key) (saved_identities db0)) as [index|] eqn:Ei;
    cbn [ok_or].
  2: { apply (triple_bind _ _ _ (fun _ _ _ _ => False)); [apply triple_lift; eauto|]. by intros ? ? ?. }
  apply (triple_bind _ _ _ (fun i db s c => i = index /\ P db s c)); [by apply triple_lift|].
  intros i. apply triple_pure. intros ->.
  pose proof (position_Some _ _ _ Ei) as (identity & Hid & Hk%bool_decide_eq_true).
  assert (bt_get key (db_identities db0) = Some identity) as Hsaved.
  { rewrite <- Hk. apply saved_identities_elem; [done|]. by eapply list_elem_of_lookup_2. }
  apply (triple_bind _ _ _ (fun sn db s c => as_selected_identity sn = db_selected db0 /\ P db s c)).
  { apply triple_core_snapshot. intros db s c HPd. split; [by destruct HPd|done]. }
  intros sn. apply triple_pure. intros Hsn.
  assert ((if as_selected_identity sn ==? Some key then neighbour (saved_identities db0) index
           else as_selected_identity sn) = fallback db0 key) as ->.
  { unfold fallback. by rewrite Hsn, Ei. }
  rewrite Hid. cbn [ok_or].
  apply (triple_bind _ _ _ (fun i db s c => i = identity /\ P db s c)); [by apply triple_lift|].
  intros i. apply triple_pure. intros ->.
  apply (triple_bind _ _ _ (fun b db s c => lkb_availability b = availability_of identity /\ P db s c)).
  { apply triple_lift. intros db s c HPd. unfold local_keyring_binding, availability_of.
    by destruct (ni_signer_binding identity). }
  intros b. apply triple_pure. intros ->.
  eapply triple_weaken; [by apply (begin_removal_run db0 s0 r key identity)|by intros db s c []|done].
Qed.

(** What a removal that may stop anywhere comes to. *)
Definition removal_outcome {A} (db0 : Database) (s0 : secret_store) r key (res : result A stop)
    (db : Database) (s : secret_store) : Prop :=
  ((db = db0 /\ s = s0) /\ forall a, res <> Ok a) \/ identity_removed db0 s0 r key db s.

(** C18: removing an identity is atomic and durable whatever fails.  From a
    consistent state with no unfinished operation, whose selection the core shows,
    let every port call of the removal work, be refused, be lost with an unknown
    outcome or be the last before the run is dropped, and let any number of starts after it fail at any of their own calls.
    The first start that meets no failing call succeeds, shows what is saved, and
    leaves no unfinished operation; and then either nothing at all has changed and
    the removal did not report success, or the identity is gone with its credential
    and cached profile, its neighbour in the list has taken over the selection if it
    had it, and everything else is as before. *)
Theorem removal_atomic r token relays l w0 :
  ready (w_database w0) (w_secrets w0) r ->
  as_selected_identity (snapshot (w_core w0)) = db_selected (w_database w0) ->
  let (w1, res) := confirm_identity_removal_durable clock r token w0 in
  let (w2, start) := persistent_bootstrap clock
    (restart (AppCore_new relays) [] (restarts clock l w1)) in
  (exists s, start = Ok s /\ shows s (w_database w2)) /\ database_ok (w_database w2) /\
  unfinished (db_operations (w_database w2)) = [] /\
  removal_outcome (w_database w0) (w_secrets w0) r (rt_public_key token) res
    (w_database w2) (w_secrets w2).
Proof.
  intros Hr Hsn. pose proof (confirm_run _ _ r token Hr w0 (conj (conj eq_refl eq_refl) Hsn)) as Hm.
  pose proof (removal_sound clock (fun _ => True) (fun _ => I) r token w0
    (conj (rd_database _ _ _ Hr) I)) as Hso.
  destruct (confirm_identity_removal_durable clock r token w0) as [w1 res]. destruct Hm as [_ Hm].
  assert (database_ok (w_database w1)) as Hok by (destruct res; [by destruct Hso as (_ & _ & ? & _)|by destruct Hso as (_ & _ & ?)]).
  pose proof (fun db s => removed_settled _ _ r (rt_public_key token) db s Hr) as Hset.
  destruct res as [a|e].
  - destruct (Hset _ _ Hm) as (_ & Hsel & Hu & Ho).
    pose proof (starts_settle clock (fun db s => db = w_database w1 /\ s = w_secrets w1)
      (fun db s => db = w_database w1 /\ s = w_secrets w1) relays l w1
      (recover_nothing clock _ _ Hu)) as Hst.
    destruct (persistent_bootstrap _ _) as [w2 start].
    destruct Hst as ([-> ->] & _ & Hs); [by intros db s [-> ->]|done..|].
    split_and!; [done..|]. by right.
  - destruct Hm as [_ Hm].
    pose proof (starts_settle clock _ _ relays l w1 (recover_removing_key _ _ r (rt_public_key token) Hr))
      as Hst.
    destruct (persistent_bootstrap _ _) as [w2 start].
    destruct Hst as (HE & Hok2 & Hs); [|done|done|].
    { intros db s [[-> ->]|HE]; [split; [by left|apply Hr]|]. by destruct (Hset _ _ HE) as (? & ? & _). }
    destruct HE as [[E1 E2]|HE].
    + split_and!; [done..| |left; by split]. rewrite E1. apply Hr.
    + destruct (Hset _ _ HE) as (_ & _ & Hu & Ho). split_and!; [done..|]. by right.
Qed.

(** ** A compensation that cannot finish

    The compensation of an addition selects again what was selected when the
    addition began.  Nothing keeps that identity from being removed in between. *)

Record blocked_by (op : DurableIdentityOperation) (k : PublicKey) (db : Database) (s : secret_store)
  : Prop := {
  bl_store : store_ok s;
  bl_journal : bt_wf (db_operations db);
  bl_unfinished : unfinished (db_operations db) = [op];
  bl_row : bt_get (dio_request_id op) (db_operations db) = Some op;
  bl_kind : dio_kind op <> DurableOperationKind.Remove;
  bl_new : bt_get (dio_identity op) (db_identities db) = None;
  bl_selected : op_selected_identity (dio_prior op) = Some k;
  bl_lost : bt_get k (db_identities db) = None
}.
(** The phases from which an addition is undone with its selection. *)
Definition undoing (op : DurableIdentityOperation) : Prop :=
  dio_phase op = DurableOperationPhase.CredentialWritten \/
  dio_phase op = DurableOperationPhase.CompensationPending.
(** What never changes in the row of an operation. *)
Definition same_operation (origin op : DurableIdentityOperation) : Prop :=
  dio_request_id op = dio_request_id origin /\ dio_kind op = dio_kind origin /\
  dio_identity op = dio_identity origin /\ dio_prior op = dio_prior origin.

Lemma unfinished_replace op op' (ops : list (DurableRequestId * DurableIdentityOperation)) :
  bt_wf ops -> unfinished ops = [op] -> bt_get (dio_request_id op) ops = Some op ->
  is_unfinished op' = true -> unfinished (bt_insert (dio_request_id op) op' ops) = [op'].
Proof.
  intros Hw Hu Hg Hu'. set (r := dio_request_id op) in *.
  assert (is_unfinished op = true) as Ho.
  { apply (elem_of_unfinished op ops Hw). rewrite Hu. by left. }
  pose proof (unfinished_perm _ _ (bt_remove_perm r op ops Hg)) as Hp.
  rewrite Hu, unfinished_cons, Ho in Hp. apply Permutation_cons_inv, Permutation_nil_l in Hp.
  pose proof (unfinished_perm _ _ (bt_insert_perm r op' ops Hw)) as Hq.
  rewrite unfinished_cons, Hu', <- Hp in Hq. by apply Permutation_singleton_r in Hq.
Qed.

Section Blocked.
Context (origin : DurableIdentityOperation) (k : PublicKey).

(** The addition is still to be undone. *)
Definition blocked (db : Database) (s : secret_store) : Prop :=
  exists op, same_operation origin op /\ blocked_by op k db s /\ undoing op.

Lemma delete_blocked op r key :
  same_operation origin op -> dio_phase op = DurableOperationPhase.CompensationPending ->
  triple True (fun db s _ => blocked_by op k db s) (delete_if_present r key)
    (fun _ db s _ => blocked_by op k db s) blocked.
Proof.
  intros Hsame Hp. unfold delete_if_present.
  assert (forall db s, blocked_by op k db s -> blocked db s) as Hb
    by (intros db s Hb; exists op; split_and!; [done..|by right]).
  apply (triple_bind _ _ _ (fun _ db s _ => blocked_by op k db s)).
  { apply triple_secrets_read. intros db s c Hd. split; [auto|].
    rewrite secret_contains_law by apply Hd. done. }
  intros []; [|by apply triple_ret]. apply triple_secrets. intros db s c Hd. split; [auto|].
  destruct (credential s key) as [cr|] eqn:Ec.
  - destruct (secret_delete_present s r key cr (bl_store _ _ _ _ Hd) Ec) as (s' & -> & Hok & _).
    assert (blocked_by op k db s') by (by destruct Hd). auto.
  - rewrite (secret_delete_absent s r key (bl_store _ _ _ _ Hd) Ec). auto.
Qed.

(** [op] is the row as it was read; [op'] as it is now. *)
Lemma compensate_blocked op op' :
  same_operation origin op -> same_operation origin op' ->
  dio_phase op' = DurableOperationPhase.CompensationPending ->
  triple True (fun db s _ => blocked_by op' k db s) (compensate_durable_addition clock op)
    (fun _ _ _ _ => False) blocked.
Proof.
  intros (Hr & _ & Hi & Hpr) Hsame Hp. pose proof Hsame as (Hr' & _ & Hi' & Hpr').
  assert (forall db s, blocked_by op' k db s -> blocked db s) as Hb.
  { intros db s Hb. exists op'. split_and!; [done..|by right]. }
  unfold compensate_durable_addition. rewrite Hr, Hi, Hpr, <- Hr', <- Hi', <- Hpr'.
  eapply triple_bind; [by apply (delete_blocked op')|]. intros ?.
  apply (triple_bind _ _ _ (fun _ db s _ => blocked_by op' k db s)).
  - assert (forall K, (triple True (fun db s _ => blocked_by op' k db s) (K None)
        (fun _ db s _ => blocked_by op' k db s) blocked) ->
      triple True (fun db s _ => blocked_by op' k db s)
        (stm_bind (database (find_identity (dio_identity op'))) K)
        (fun (_ : unit) db s _ => blocked_by op' k db s) blocked) as Hfind.
    { intros K HK. apply (triple_bind _ _ _ (fun o db s _ => o = None /\ blocked_by op' k db s)).
      - apply triple_database. intros db s c Hd. split; [auto|]. unfold find_identity.
        rewrite (bl_new _ _ _ _ Hd). auto.
      - intros o. apply triple_pure. by intros ->. }
    destruct (op_binding_availability (dio_prior op')); apply Hfind; by apply triple_ret.
  - intros ?. apply (triple_bind _ _ _ (fun _ _ _ _ => False)); [|by intros ? ? ?].
    apply triple_database. intros db s c Hd. split; [auto|]. rewrite (bl_selected _ _ _ _ Hd).
    unfold save_selected_identity. simpl. by rewrite (bl_lost _ _ _ _ Hd).
Qed.

(** The row once the undoing has begun. *)
Lemma begin_undoing op t db s :
  blocked_by op k db s ->
  blocked_by (with_phase op DurableOperationPhase.CompensationPending t) k
    (set_operations (bt_insert (dio_request_id op)
       (with_phase op DurableOperationPhase.CompensationPending t) (db_operations db)) db) s.
Proof.
  intros Hd. assert (is_unfinished op = true) as Hu.
  { apply (elem_of_unfinished op (db_operations db)); [apply Hd|].
    rewrite (bl_unfinished _ _ _ _ Hd). by left. }
  destruct Hd as [H1' H2' H3' H4' H5' H6' H7' H8']. constructor; simpl; auto with hub.
  - by apply unfinished_replace.
  - rewrite bt_get_insert. by rewrite decide_True.
Qed.

Lemma addition_blocked op :
  same_operation origin op ->
  triple True (fun db s _ => blocked_by op k db s /\ undoing op)
    (recover_durable_addition clock op) (fun _ _ _ _ => False) blocked.
Proof.
  intros Hsame. unfold recover_durable_addition. cbv zeta.
  destruct (dio_phase op) eqn:Ep; try (by intros w [_ [Hu|Hu]]; rewrite Ep in Hu).
  - apply (triple_bind _ _ _ (fun o db s _ => o = None /\ blocked_by op k db s)).
    + apply triple_database. intros db s c [Hd Hu]. assert (blocked db s) by (exists op; auto).
      split; [done|]. unfold find_identity. by rewrite (bl_new _ _ _ _ Hd).
    + intros o. apply triple_pure. intros ->. cbn [is_some_and].
      apply (triple_bind _ _ _ (fun _ db s _ => exists t,
        blocked_by (with_phase op DurableOperationPhase.CompensationPending t) k db s)).
      * apply triple_advance; [done|]. intros db s c Hd.
        split; [exists op; split_and!; [done..|by left]|].
        exists op. split; [apply Hd|]. split; [done|]. split.
        { apply (elem_of_unfinished op (db_operations db)); [apply Hd|]. rewrite (bl_unfinished _ _ _ _ Hd).
          by left. }
        intros t. pose proof (begin_undoing op t db s Hd) as Hn.
        split; [by exists t|]. eexists. split; [|split; [exact Hn|by right]]. exact Hsame.
      * intros ?. apply triple_exists. intros t.
        by apply (compensate_blocked op (with_phase op DurableOperationPhase.CompensationPending t)).
  - eapply triple_weaken; [by apply (compensate_blocked op op)|by intros db s c []|done].
Qed.

Lemma recover_blocked :
  triple True (fun db s _ => blocked db s) (recover_durable_operations clock)
    (fun _ _ _ _ => False) blocked.
Proof.
  unfold recover_durable_operations.
  apply (triple_bind _ _ _ (fun l db s _ => exists op, l = [op] /\
    (same_operation origin op /\ dio_kind op <> DurableOperationKind.Remove) /\
    blocked_by op k db s /\ undoing op)).
  - apply triple_database. intros db s c Hd. split; [done|]. pose proof Hd as (op & Hsame & Hb & Hp).
    unfold list_unfinished_durable_operations. cbv zeta. rewrite (bl_unfinished _ _ _ _ Hb). simpl.
    split; [|done]. exists op. split_and!; [done|done|apply Hb|done..].
  - intros l. apply triple_exists. intros op. apply triple_pure. intros ->.
    apply triple_pure. intros [Hsame Hk]. cbn [for_each].
    apply (triple_bind _ _ _ (fun _ _ _ _ => False)); [|by intros ? ? ?].
    pose proof (addition_blocked op Hsame). by destruct (dio_kind op).
Qed.

Lemma start_blocked (w : World) :
  blocked (w_database w) (w_secrets w) ->
  let (w', r) := persistent_bootstrap clock w in
  blocked (w_database w') (w_secrets w') /\ exists e, r = Err e.
Proof.
  intros Hb. pose proof (recover_blocked w Hb) as Hr. unfold persistent_bootstrap, stm_bind.
  destruct (recover_durable_operations clock w) as [w' [a|e]]; destruct Hr as [_ Hr]; [by destruct Hr|].
  split; [apply Hr|by exists e].
Qed.
Lemma starts_blocked l (w : World) :
  blocked (w_database w) (w_secrets w) ->
  blocked (w_database (restarts clock l w)) (w_secrets (restarts clock l w)).
Proof.
  revert w. induction l as [|[c1 f1] l IH]; intros w Hb; [done|]. simpl. apply IH.
  pose proof (start_blocked (restart c1 f1 w) Hb) as Hs.
  destruct (persistent_bootstrap clock (restart c1 f1 w)). apply Hs.
Qed.
End Blocked.

(** C30: an addition that has to be undone together with the selection it recorded
    blocks the application if that selection is gone.  Suppose the journal and the
    credential store are well formed, exactly one operation is unfinished, it is
    an addition whose credential was written or whose undoing had begun, its
    identity has no saved row, and the identity selected before it began is no
    longer saved.  Then every start fails, after any number of failed ones,
    whatever their cores and the fate of their calls; and the row stays in the
    journal, unfinished, with the request, the identity and the selection it
    recorded, because the selection is written back before the row is finished.
    (An addition that had not reached its credential is undone without its
    selection, and does not block.) *)
Theorem lost_selection_blocks_starts op k w l c faults :
  blocked_by op k (w_database w) (w_secrets w) -> undoing op ->
  let (w', start) := persistent_bootstrap clock (restart c faults (restarts clock l w)) in
  (exists e, start = Err e) /\
  exists op', bt_get (dio_request_id op) (db_operations (w_database w')) = Some op' /\
    same_operation op op' /\ is_unfinished op' = true /\ undoing op'.
Proof.
  intros Hb Hu. assert (blocked op k (w_database w) (w_secrets w)) as Hst by (by exists op).
  pose proof (start_blocked op k (restart c faults (restarts clock l w)) (starts_blocked op k l w Hst))
    as Hs.
  destruct (persistent_bootstrap _ _) as [w' start]. destruct Hs as [(op' & Hsame & Hb' & Hu') He].
  split; [done|]. exists op'. pose proof Hsame as (<- & _). split; [apply Hb'|]. split; [done|].
  split; [|done]. apply (elem_of_unfinished op' (db_operations (w_database w'))); [apply Hb'|].
  rewrite (bl_unfinished _ _ _ _ Hb'). by left.
Qed.
End Atomic.

(** ** Closed examples *)

#[local] Existing Instance sample_transport.
#[local] Existing Instance memory_store.
#[local] Existing Instance sample_keys.
#[local] Existing Instance sample_material.

(** One identity is saved; its removal is lost after its seventh call. *)
Definition one_saved : World := (sample_import 1 (empty_world [])).1.
Definition sample_issue (w : World) : AppCore * result RemovalConfirmationToken SafeError :=
  issue_removal_token (sample_key 1) (sample_time 5) (w_core w).
Definition sample_removal_token (w : World) : RemovalConfirmationToken :=
  match (sample_issue w).2 with
  | Ok token => token
  | Err _ => sample_token
  end.
Definition lost_removal : World * result AppSnapshot stop :=
  confirm_identity_removal_durable sample_clock (sample_request 3) (sample_removal_token one_saved)
    (restart (sample_issue one_saved).1 (replicate 6 Works ++ [NotCommitted]) one_saved).

Lemma sound_stops {A} (m : io A) Q w :
  sound (fun _ => True) m Q -> database_ok (w_database w) -> database_ok (w_database (m w).1).
Proof.
  intros Hm Hd. specialize (Hm w (conj Hd I)). destruct (m w) as [w1 [a|e]];
    [by destruct Hm as (_ & _ & ? & _)|by destruct Hm as (_ & _ & ?)].
Qed.

(** A store with the one sample credential. *)
Lemma one_credential_ok n m :
  InMemorySecretStore.ok [(sample_key m,
    {| cred_request_id := sample_request n; cred_secret := ski_value (sample_secret n) |})].
Proof.
  split; [repeat constructor|]. intros k c Hc. simpl in Hc. case_bool_decide; [|done].
  injection Hc as <-. exists (sample_secret n). apply (sample_secret_storable n []).
Qed.

Lemma one_saved_database : database_ok (w_database one_saved).
Proof.
  unfold one_saved, sample_import. eapply sound_stops; [|exact database_ok_new].
  exact (import_sound sample_clock (fun _ => True) (fun _ => I) _ _ _).
Qed.

Lemma one_saved_ready r :
  r <> sample_request 1 -> ready (w_database one_saved) (w_secrets one_saved) r.
Proof.
  intros Hr. constructor.
  - apply one_saved_database.
  - assert (w_secrets one_saved = [(sample_key 1,
      {| cred_request_id := sample_request 1; cred_secret := ski_value (sample_secret 1) |})]) as ->
      by (vm_compute; reflexivity).
    apply one_credential_ok.
  - vm_compute. reflexivity.
  - assert ((db_operations (w_database one_saved)).*1 = [sample_request 1]) as E by (vm_compute; reflexivity).
    destruct (bt_get r (db_operations (w_database one_saved))) as [op|] eqn:Eg; [exfalso|done].
    apply bt_get_elem_of in Eg; [|apply one_saved_database].
    apply (list_elem_of_fmap_2 fst) in Eg. rewrite E in Eg.
    apply list_elem_of_singleton in Eg. exact (Hr Eg).
  - split; intros E; vm_compute in E; discriminate.
Qed.

Lemma removal_atomic_witness :
  lost_removal.2 = Err (Raised storage_unavailable) /\
  exists s, (sample_start (restarts sample_clock failed_starts lost_removal.1)).2 = Ok s.
Proof.
  split; [vm_compute; reflexivity|].
  pose proof (removal_atomic sample_clock (sample_request 3) (sample_removal_token one_saved) sample_relays
    failed_starts (restart (sample_issue one_saved).1 (replicate 6 Works ++ [NotCommitted]) one_saved)) as Hw.
  specialize (Hw (one_saved_ready (sample_request 3) ltac:(discriminate))).
  specialize (Hw ltac:(vm_compute; reflexivity)).
  unfold sample_start, lost_removal.
  destruct (confirm_identity_removal_durable _ _ _ _) as [w1 res].
  destruct (persistent_bootstrap _ _) as [w2 start]. destruct Hw as ((s & -> & _) & _).
  exists s. reflexivity.
Defined.

(** A second import fails when it writes its row; then the first identity is
    removed without any failure. *)
Definition second_failed : World :=
  (sample_import 2 (restart (w_core one_saved) (replicate 7 Works ++ [NotCommitted]) one_saved)).1.
Definition first_removed : World * result AppSnapshot stop :=
  confirm_identity_removal_durable sample_clock (sample_request 3) (sample_removal_token second_failed)
    (restart (sample_issue second_failed).1 [] second_failed).

Lemma restart_database c faults w : w_database (restart c faults w) = w_database w.
Proof. reflexivity. Qed.

Lemma first_removed_database : database_ok (w_database first_removed.1).
Proof.
  unfold first_removed. eapply sound_stops.
  { exact (removal_sound sample_clock (fun _ => True) (fun _ => I) _ _). }
  rewrite restart_database. unfold second_failed, sample_import. eapply sound_stops.
  { exact (import_sound sample_clock (fun _ => True) (fun _ => I) _ _ _). }
  rewrite restart_database. exact one_saved_database.
Qed.

(** What the journal and the tables hold then. *)
Lemma second_unfinished : exists op,
  bt_get (sample_request 2) (db_operations (w_database first_removed.1)) = Some op /\
  dio_kind op = DurableOperationKind.Import /\
  dio_phase op = DurableOperationPhase.CredentialWritten /\
  bt_get (dio_identity op) (db_identities (w_database first_removed.1)) = None /\
  op_selected_identity (dio_prior op) = Some (sample_key 1) /\
  unfinished (db_operations (w_database first_removed.1)) = [op].
Proof. eexists. do 5 (split; [vm_compute; reflexivity|]). vm_compute. reflexivity. Qed.

Lemma lost_selection_blocks_starts_witness :
  (exists s, first_removed.2 = Ok s) /\
  let (w', start) := sample_start (restarts sample_clock failed_starts first_removed.1) in
  (exists e, start = Err e) /\
  exists op', bt_get (sample_request 2) (db_operations (w_database w')) = Some op' /\
    is_unfinished op' = true.
Proof.
  split; [eexists; vm_compute; reflexivity|].
  destruct second_unfinished as (op & Hg & Hk & Hp & Hi & Hs & Hu).
  pose proof (dk_rows _ first_removed_database _ _ Hg) as [Hr _].
  assert (w_secrets first_removed.1 = [(sample_key 2,
    {| cred_request_id := sample_request 2; cred_secret := ski_value (sample_secret 2) |})]) as Hst
    by (vm_compute; reflexivity).
  assert (blocked_by op (sample_key 1) (w_database first_removed.1) (w_secrets first_removed.1)) as Hb.
  { rewrite Hst. constructor.
    - exact (one_credential_ok 2 2).
    - exact (dk_operations _ first_removed_database).
    - exact Hu.
    - rewrite Hr. exact Hg.
    - rewrite Hk. discriminate.
    - exact Hi.
    - exact Hs.
    - vm_compute. reflexivity. }
  unfold sample_start.
  pose proof (lost_selection_blocks_starts sample_clock op (sample_key 1) first_removed.1 failed_starts
    (AppCore_new sample_relays) [] Hb (or_introl Hp)) as Ht.
  destruct (persistent_bootstrap _ _) as [w' start]. destruct Ht as [He (op' & Hg' & _ & Hu' & _)].
  split; [exact He|]. exists op'. rewrite Hr in Hg'. by split.
Defined.
