(* ===== verification/Actor.v ===== *)
(** * Parts of the runtime actor

    [actor.rs] of the application crate: the binding of a foreground session, the
    correlation of tasks, the lifecycle gate, commands with their contexts and
    receipts, and the bounded mailbox; and the stage of a generated key
    ([custody.rs]), which holds a new key until its owner confirms the recovery
    value. *)

From Stdlib Require Import Bool ZArith Lia Strings.Byte Strings.String.
From stdpp Require Import base decidable option list numbers strings.
From S2P Require Import Prelude Containers Encoding Hub Reference Identity Profile Snapshot Session Core Changes Database Secrets Durable.

(** ** Foreground sessions *)

Definition invalid_foreground_session : SafeError :=
  SafeError_new SafeErrorCode.InvalidApplicationState "The foreground session binding is invalid.".

Record ActiveSessionBinding := {
  asb_identity : NostrIdentityReference;
  asb_signer_binding : SignerBinding;
  asb_generation : SessionGeneration
}.
#[global] Instance ActiveSessionBinding_eq_dec : EqDecision ActiveSessionBinding.
Proof. solve_decision. Defined.

Definition option_filter {A} (p : A -> bool) (o : option A) : option A :=
  match o with Some a => if p a then Some a else None | None => None end.

Definition ActiveSessionBinding_new (identity : NostrIdentityReference)
    (signer_binding : SignerBinding) (generation : SessionGeneration)
  : result ActiveSessionBinding SafeError :=
  let local_keyring :=
    option_filter (fun binding => lkb_availability binding ==? SignerAvailability.Available)
      (as_local_keyring signer_binding) in
  if (lkb_identity <$> local_keyring) !=? Some (nir_public_key identity)
  then Err invalid_foreground_session
  else Ok {| asb_identity := identity; asb_signer_binding := signer_binding;
             asb_generation := generation |}.

(** [RequestId(NonZeroU64)]. *)
Definition nonzero_u64 (value : Z) : bool := u64_range value && negb (value =? 0).
Abbreviation RequestId := (refined nonzero_u64).
Definition RequestId_new (value : Z) : option RequestId := check_value nonzero_u64 value.

Record TaskCorrelation := {
  tc_request_id : RequestId;
  tc_identity : PublicKey;
  tc_binding : SignerBinding;
  tc_expected_revision : SnapshotRevision;
  tc_session_generation : SessionGeneration
}.

(** ** The lifecycle gate *)

Module RuntimeLifecycle.
Inductive RuntimeLifecycle :=
| Opening | CompatibilityChecking | AcquiringOwnership | Migrating | Recovering | Ready
| Degraded (error : SafeError)
| Blocked (error : SafeError)
| ShuttingDown
| Closed
| Fatal (error : SafeError).
#[global] Instance RuntimeLifecycle_eq_dec : EqDecision RuntimeLifecycle.
Proof. solve_decision. Defined.
End RuntimeLifecycle.
Abbreviation RuntimeLifecycle := RuntimeLifecycle.RuntimeLifecycle.

Module RuntimeCommandClass.
Inductive RuntimeCommandClass :=
| Observe | MutateLocalState | UseCredential | UseRelay | RetryOpening | Shutdown.
#[global] Instance RuntimeCommandClass_eq_dec : EqDecision RuntimeCommandClass.
Proof. solve_decision. Defined.
End RuntimeCommandClass.
Abbreviation RuntimeCommandClass := RuntimeCommandClass.RuntimeCommandClass.

Definition invalid_lifecycle_transition : SafeError :=
  SafeError_new SafeErrorCode.InvalidApplicationState
    "The runtime lifecycle transition is invalid.".

(** [LifecycleGate], a struct of its lifecycle. *)
Abbreviation LifecycleGate := RuntimeLifecycle (only parsing).
Definition LifecycleGate_opening : LifecycleGate := RuntimeLifecycle.Opening.

Definition allows (self : LifecycleGate) (command : RuntimeCommandClass) : bool :=
  match self with
  | RuntimeLifecycle.Opening | RuntimeLifecycle.CompatibilityChecking
  | RuntimeLifecycle.AcquiringOwnership | RuntimeLifecycle.Migrating
  | RuntimeLifecycle.Recovering =>
      match command with
      | RuntimeCommandClass.Observe | RuntimeCommandClass.Shutdown => true
      | _ => false
      end
  | RuntimeLifecycle.Ready =>
      match command with RuntimeCommandClass.RetryOpening => false | _ => true end
  | RuntimeLifecycle.Degraded _ =>
      match command with
      | RuntimeCommandClass.UseRelay | RuntimeCommandClass.RetryOpening => false
      | _ => true
      end
  | RuntimeLifecycle.Blocked _ =>
      match command with
      | RuntimeCommandClass.Observe | RuntimeCommandClass.RetryOpening
      | RuntimeCommandClass.Shutdown => true
      | _ => false
      end
  | RuntimeLifecycle.ShuttingDown =>
      match command with RuntimeCommandClass.Observe => true | _ => false end
  | RuntimeLifecycle.Fatal _ =>
      match command with RuntimeCommandClass.Shutdown => true | _ => false end
  | RuntimeLifecycle.Closed => false
  end.

Definition gate_advance (expected next : RuntimeLifecycle) : stm LifecycleGate SafeError unit :=
  fun self =>
  if self !=? expected then (self, Err invalid_lifecycle_transition) else (next, Ok tt).
Definition begin_compatibility_check : stm LifecycleGate SafeError unit :=
  gate_advance RuntimeLifecycle.Opening RuntimeLifecycle.CompatibilityChecking.
Definition compatibility_accepted : stm LifecycleGate SafeError unit :=
  gate_advance RuntimeLifecycle.CompatibilityChecking RuntimeLifecycle.AcquiringOwnership.
Definition ownership_acquired : stm LifecycleGate SafeError unit :=
  gate_advance RuntimeLifecycle.AcquiringOwnership RuntimeLifecycle.Migrating.
Definition migration_complete : stm LifecycleGate SafeError unit :=
  gate_advance RuntimeLifecycle.Migrating RuntimeLifecycle.Recovering.
Definition recovery_complete : stm LifecycleGate SafeError unit :=
  gate_advance RuntimeLifecycle.Recovering RuntimeLifecycle.Ready.
Definition gate_block (error : SafeError) (self : LifecycleGate) : LifecycleGate :=
  RuntimeLifecycle.Blocked error.
Definition gate_fail (error : SafeError) (self : LifecycleGate) : LifecycleGate :=
  RuntimeLifecycle.Fatal error.
Definition degrade (error : SafeError) : stm LifecycleGate SafeError unit :=
  gate_advance RuntimeLifecycle.Ready (RuntimeLifecycle.Degraded error).
Definition is_Degraded (self : LifecycleGate) : bool :=
  match self with RuntimeLifecycle.Degraded _ => true | _ => false end.
Definition restore_ready : stm LifecycleGate SafeError unit := fun self =>
  if negb (is_Degraded self) then (self, Err invalid_lifecycle_transition)
  else (RuntimeLifecycle.Ready, Ok tt).
Definition begin_shutdown : stm LifecycleGate SafeError unit := fun self =>
  match self with
  | RuntimeLifecycle.ShuttingDown | RuntimeLifecycle.Closed =>
      (self, Err invalid_lifecycle_transition)
  | _ => (RuntimeLifecycle.ShuttingDown, Ok tt)
  end.
Definition finish_shutdown : stm LifecycleGate SafeError unit :=
  gate_advance RuntimeLifecycle.ShuttingDown RuntimeLifecycle.Closed.

(** ** Commands *)

(** A point of the monotonic clock. *)
Abbreviation Instant := Z (only parsing).

Record CommandContext := {
  cc_request_id : RequestId;
  cc_expected_revision : option SnapshotRevision;
  cc_deadline : Instant
}.
Definition is_expired (self : CommandContext) (now : Instant) : bool := now >=? cc_deadline self.

Inductive CommandRejection := MailboxSaturated.

Module CommandResult.
Inductive CommandResult (T : Type) :=
| Completed (value : T)
| Rejected (rejection : CommandRejection)
| Conflicted (current_revision : SnapshotRevision)
| TimedOut
| Closed
| Failed (error : SafeError).
Arguments Completed {T}.
Arguments Rejected {T}.
Arguments Conflicted {T}.
Arguments TimedOut {T}.
Arguments Closed {T}.
Arguments Failed {T}.
End CommandResult.
Abbreviation CommandResult := CommandResult.CommandResult.

Record CommandReceipt (T : Type) := {
  cr_request_id : RequestId;
  cr_result : CommandResult T
}.
Arguments Build_CommandReceipt {T}.
Arguments cr_request_id {T}.
Arguments cr_result {T}.

(** The channel of one reply, by its number: [oneshot::Sender] and the receiver
    of a ticket share it. *)
Definition Reply : Type := nat.

Record CommandTicket := { ct_request_id : RequestId; ct_receiver : Reply }.

(** [CommandTicket::receipt]: the reply sent, or [Closed] once its sender is gone. *)
Definition ticket_receipt {T} (self : CommandTicket) (received : option (CommandReceipt T))
  : CommandReceipt T :=
  default {| cr_request_id := ct_request_id self; cr_result := CommandResult.Closed |} received.

Inductive CommandSubmission (T : Type) :=
| Accepted (ticket : CommandTicket)
| Rejected (receipt : CommandReceipt T).
Arguments Accepted {T}.
Arguments Rejected {T}.

Definition submission_request_id {T} (self : CommandSubmission T) : RequestId :=
  match self with
  | Accepted ticket => ct_request_id ticket
  | Rejected receipt => cr_request_id receipt
  end.

Record CommandEnvelope (C : Type) := {
  ce_context : CommandContext;
  ce_command : C;
  ce_reply : Reply
}.
Arguments Build_CommandEnvelope {C}.
Arguments ce_context {C}.
Arguments ce_command {C}.
Arguments ce_reply {C}.

Section Mailbox.
Context {C T : Type} `{Channels (CommandEnvelope C)}.

(** [ActorMailbox] and the receiver it was made with share the queue; [reply] is
    the channel that [oneshot::channel] makes. *)
Definition submit (now : Instant) (reply : Reply) (context : CommandContext) (command : C)
    (mailbox : queue) : queue * CommandSubmission T :=
  let request_id := cc_request_id context in
  let reject result :=
    Rejected {| cr_request_id := request_id; cr_result := result |} in
  if is_expired context now then (mailbox, reject CommandResult.TimedOut)
  else
    let envelope := {| ce_context := context; ce_command := command; ce_reply := reply |} in
    match try_send envelope mailbox with
    | (mailbox, Sent) =>
        (mailbox, Accepted {| ct_request_id := request_id; ct_receiver := reply |})
    | (mailbox, SendFull) =>
        (mailbox, reject (CommandResult.Rejected MailboxSaturated))
    | (mailbox, SendClosed) => (mailbox, reject CommandResult.Closed)
    end.
End Mailbox.

(** ** The stage of a generated key *)

(** [GENERATED_KEY_STAGE_TTL], in seconds. *)
Definition GENERATED_KEY_STAGE_TTL : Z := 5 * 60.

Definition recovery_in_progress : SafeError :=
  SafeError_new SafeErrorCode.InvalidApplicationState
    "A generated-key recovery step is already in progress.".
Definition recovery_not_available : SafeError :=
  SafeError_new SafeErrorCode.InvalidApplicationState
    "The generated-key recovery step is no longer available.".
Definition invalid_stage_expiry : SafeError :=
  SafeError_new SafeErrorCode.InvalidApplicationState
    "The generated-key recovery expiry is invalid.".

Record GeneratedKeyStageView := {
  gv_identity : NostrIdentity;
  gv_expires_at : UnixTimestamp
}.
Definition staged_view (self : StagedGeneratedKey) : GeneratedKeyStageView :=
  {| gv_identity := sg_identity self; gv_expires_at := sg_expires_at self |}.

Record GeneratedKeyRecoveryHandle := {
  gh_id : Z;
  gh_view : GeneratedKeyStageView;
  gh_recovery_nsec : option (list byte)
}.

Definition take_recovery_nsec : stm GeneratedKeyRecoveryHandle SafeError (list byte) := fun self =>
  ({| gh_id := gh_id self; gh_view := gh_view self; gh_recovery_nsec := None |},
   ok_or (gh_recovery_nsec self) recovery_not_available).

(** [GeneratedKeyStage { pending }]. *)
Abbreviation GeneratedKeyStage := (option StagedGeneratedKey) (only parsing).

Definition stage_expired (now : UnixTimestamp) (self : GeneratedKeyStage) : bool :=
  is_some_and self (fun pending => raw now >=? raw (sg_expires_at pending)).
Definition stage_expire (now : UnixTimestamp) (self : GeneratedKeyStage) : GeneratedKeyStage * bool :=
  if stage_expired now self then (None, true) else (self, false).

Section Stage.
Context `{NostrKeys}.

(** [generated] is what the provider of key material returns if it is asked. *)
Definition stage_begin
    (generated : result (PublicKey * Npub * SecretKeyInput * list byte) SafeError) (id : Z)
    (expected_revision : Z) (now : UnixTimestamp)
  : stm GeneratedKeyStage SafeError GeneratedKeyRecoveryHandle := fun self =>
  let self := (stage_expire now self).1 in
  if is_some self then (self, Err recovery_in_progress)
  else
    match (let? (public_key, npub, secret, recovery_nsec) := generated in
           let? identity := new_identity public_key npub now in
           let? expires_at := ok_or (i64_checked_add (raw now) GENERATED_KEY_STAGE_TTL
                                       ≫= UnixTimestamp_from_seconds) invalid_stage_expiry in
           Ok ({| sg_id := id; sg_identity := identity; sg_secret := secret;
                  sg_expected_revision := expected_revision; sg_expires_at := expires_at |},
               recovery_nsec)) with
    | Err error => (self, Err error)
    | Ok (pending, recovery_nsec) =>
        (Some pending, Ok {| gh_id := id; gh_view := staged_view pending;
                             gh_recovery_nsec := Some recovery_nsec |})
    end.
End Stage.

Definition stage_cancel (self : GeneratedKeyStage) : GeneratedKeyStage * bool := (None, is_some self).

Definition stage_take (id : Z) (now : UnixTimestamp)
  : stm GeneratedKeyStage SafeError StagedGeneratedKey := fun self =>
  let self := (stage_expire now self).1 in
  if (sg_id <$> self) !=? Some id then (self, Err recovery_not_available)
  else (None, ok_or self recovery_not_available).

(** ** The opening sequence *)

Inductive GateOp :=
| BeginCompatibilityCheck | CompatibilityAccepted | OwnershipAcquired | MigrationComplete
| RecoveryComplete
| Block (error : SafeError)
| Fail (error : SafeError)
| Degrade (error : SafeError)
| RestoreReady | BeginShutdown | FinishShutdown.

Definition gate_op (self : LifecycleGate) (op : GateOp) : LifecycleGate :=
  match op with
  | BeginCompatibilityCheck => (begin_compatibility_check self).1
  | CompatibilityAccepted => (compatibility_accepted self).1
  | OwnershipAcquired => (ownership_acquired self).1
  | MigrationComplete => (migration_complete self).1
  | RecoveryComplete => (recovery_complete self).1
  | Block error => gate_block error self
  | Fail error => gate_fail error self
  | Degrade error => (degrade error self).1
  | RestoreReady => (restore_ready self).1
  | BeginShutdown => (begin_shutdown self).1
  | FinishShutdown => (finish_shutdown self).1
  end.
Definition gate_run (ops : list GateOp) : LifecycleGate := foldl gate_op LifecycleGate_opening ops.

Definition opening_sequence : list GateOp :=
  [BeginCompatibilityCheck; CompatibilityAccepted; OwnershipAcquired; MigrationComplete;
   RecoveryComplete].

(** How much of the opening sequence a lifecycle stands for. *)
Definition stages_done (self : LifecycleGate) : nat :=
  match self with
  | RuntimeLifecycle.CompatibilityChecking => 1
  | RuntimeLifecycle.AcquiringOwnership => 2
  | RuntimeLifecycle.Migrating => 3
  | RuntimeLifecycle.Recovering => 4
  | RuntimeLifecycle.Ready | RuntimeLifecycle.Degraded _ => 5
  | _ => 0
  end.

Lemma stage_step self op :
  (stages_done (gate_op self op) <= stages_done self)%nat \/
  stages_done (gate_op self op) = S (stages_done self) /\
  nth_error opening_sequence (stages_done self) = Some op.
Proof.
  destruct op; simpl; unfold begin_compatibility_check, compatibility_accepted, ownership_acquired,
    migration_complete, recovery_complete, degrade, restore_ready, begin_shutdown, finish_shutdown,
    gate_advance, gate_block, gate_fail; simpl;
    try (case_bool_decide as E; simpl; [subst; simpl; auto|auto]);
    try (destruct self; simpl; auto with lia).
Qed.

Lemma take_S_nth {A} (l : list A) n a : nth_error l n = Some a -> take (S n) l = take n l ++ [a].
Proof.
  revert n. induction l as [|x l IH]; intros [|n]; simpl; [done..| |]; [by intros [= ->]|].
  intros Hn. f_equal. by apply IH.
Qed.

(** No command that changes state, uses a credential or a relay is admitted
    before every stage of the opening sequence has completed, in order, whatever
    other calls the gate received in between. *)
Theorem admitted_after_opening ops command :
  command ∈ [RuntimeCommandClass.MutateLocalState; RuntimeCommandClass.UseCredential;
             RuntimeCommandClass.UseRelay] ->
  allows (gate_run ops) command = true -> opening_sequence `sublist_of` ops.
Proof.
  intros Hc Ha. assert (take (stages_done (gate_run ops)) opening_sequence `sublist_of` ops) as Hs.
  { clear Ha. unfold gate_run. induction ops as [|op ops IH] using rev_ind; [done|].
    rewrite foldl_snoc. destruct (stage_step (foldl gate_op LifecycleGate_opening ops) op) as [Hle|[-> Hn]].
    - apply sublist_inserts_r. etrans; [|exact IH].
      rewrite <- (Nat.min_l _ _ Hle), <- take_take. apply sublist_take.
    - rewrite (take_S_nth _ _ _ Hn). by apply sublist_app. }
  rewrite !elem_of_cons in Hc. destruct (gate_run ops); simpl in Ha; try done;
    by destruct Hc as [->|[->|[->|Hc]]]; [..|apply not_elem_of_nil in Hc].
Qed.

(** ** Submission *)

Section Submission.
Context {C T : Type} `{Channels (CommandEnvelope C)}.

(** A submission is answered at once or queued once: an accepted envelope is the
    new last item of the queue and its ticket holds the other end of its reply;
    a rejected one leaves the queue and says why. *)
Theorem submit_correct now reply context (command : C) mailbox :
  let v := queue_view mailbox in
  let (mailbox', submission) := submit (T := T) now reply context command mailbox in
  submission_request_id submission = cc_request_id context /\
  match submission with
  | Accepted ticket =>
      ct_receiver ticket = reply /\ now < cc_deadline context /\ qv_receiver v = true /\
      (length (qv_items v) < qv_capacity v)%nat /\
      queue_view mailbox' = Build_QueueView
        (qv_items v ++ [{| ce_context := context; ce_command := command; ce_reply := reply |}])
        (qv_capacity v) (qv_sender v) true
  | Rejected receipt =>
      queue_view mailbox' = v /\
      ((cr_result receipt = CommandResult.TimedOut /\ cc_deadline context <= now) \/
       (cr_result receipt = CommandResult.Closed /\ now < cc_deadline context /\
        qv_receiver v = false) \/
       (cr_result receipt = CommandResult.Rejected MailboxSaturated /\
        now < cc_deadline context /\ qv_receiver v = true /\
        (qv_capacity v <= length (qv_items v))%nat))
  end.
Proof.
  intros v. unfold submit, is_expired. destruct (now >=? cc_deadline context) eqn:E; breflect; simpl.
  { split; [done|]. split; [done|]. left. split; [done|lia]. }
  set (envelope := {| ce_context := context; ce_command := command; ce_reply := reply |}).
  pose proof (try_send_view envelope mailbox) as Hv. unfold view_send in Hv. fold v in Hv.
  destruct (try_send envelope mailbox) as [q r]. simpl in Hv.
  destruct (qv_receiver v) eqn:Er; simpl in Hv; [destruct (_ <? _)%nat eqn:El in Hv|];
    injection Hv as Hq ->; simpl; (split; [done|]).
  - apply Nat.ltb_lt in El. split_and!; [done|lia|done|done|done].
  - apply Nat.ltb_ge in El. split; [done|]. right; right. split_and!; [done|lia|done|done].
  - split; [done|]. right; left. split_and!; [done|lia|done].
Qed.
End Submission.

(** ** Runs of the stage *)

Section StageRuns.
Context `{NostrKeys}.

Inductive StageOp :=
| SBegin (generated : result (PublicKey * Npub * SecretKeyInput * list byte) SafeError) (id : Z)
    (expected_revision : Z) (now : UnixTimestamp)
| SCancel
| SExpire (now : UnixTimestamp)
| STake (id : Z) (now : UnixTimestamp).

Definition stage_op (self : GeneratedKeyStage) (op : StageOp) : GeneratedKeyStage :=
  match op with
  | SBegin generated id expected_revision now => (stage_begin generated id expected_revision now self).1
  | SCancel => (stage_cancel self).1
  | SExpire now => (stage_expire now self).1
  | STake id now => (stage_take id now self).1
  end.
Definition stage_run (ops : list StageOp) (self : GeneratedKeyStage) : GeneratedKeyStage :=
  foldl stage_op self ops.

(** The stage [id] that expires at [expiry] survives the call; and the call does
    not begin another stage of that number. *)
Definition keeps_stage (id expiry : Z) (op : StageOp) : bool :=
  match op with
  | SBegin _ _ _ now | SExpire now => raw now <? expiry
  | SCancel => false
  | STake id' now => negb (id' =? id) && (raw now <? expiry)
  end.
Definition begins_stage (id : Z) (op : StageOp) : bool :=
  match op with SBegin _ id' _ _ => id' =? id | _ => false end.

Lemma stage_begin_Ok generated id revision now self self' handle :
  stage_begin generated id revision now self = (self', Ok handle) ->
  exists key npub secret nsec identity expires_at,
    generated = Ok (key, npub, secret, nsec) /\ new_identity key npub now = Ok identity /\
    raw expires_at = raw now + GENERATED_KEY_STAGE_TTL /\
    self' = Some {| sg_id := id; sg_identity := identity; sg_secret := secret;
                    sg_expected_revision := revision; sg_expires_at := expires_at |} /\
    gh_recovery_nsec handle = Some nsec /\ gh_id handle = id.
Proof.
  unfold stage_begin. destruct (is_some _); [done|].
  destruct generated as [[[[key npub] secret] nsec]|e]; simpl; [|done].
  destruct (new_identity key npub now) as [identity|] eqn:Ei; simpl; [|done].
  destruct (i64_checked_add _ _ ≫= _) as [t|] eqn:Et; simpl; [|done].
  intros [= <- <-]. apply bind_Some in Et as (v & Ev & Et). apply check_value_Some in Et.
  unfold i64_checked_add in Ev. destruct (i64_range _); [|done]. injection Ev as <-.
  do 6 eexists. split_and!; done.
Qed.

Lemma stage_begin_id generated id revision now self :
  forall staged, (stage_begin generated id revision now self).1 = Some staged ->
  sg_id staged = id \/ self = Some staged.
Proof.
  intros staged. destruct (stage_begin _ _ _ _ _) as [self' [handle|e]] eqn:E; simpl.
  - apply stage_begin_Ok in E as (? & ? & ? & ? & ? & ? & _ & _ & _ & -> & _). intros [= <-]. by left.
  - unfold stage_begin, stage_expire in E. destruct (stage_expired now self); simpl in E.
    + destruct (let? _ := _ in _) as [[? ?]|] in E; [done|]. by injection E as <- _.
    + destruct (is_some self) eqn:Es; [injection E as <- _; auto|].
      destruct (let? _ := _ in _) as [[? ?]|] in E; [done|]. injection E as <- _. auto.
Qed.

(** One call on a live stage, and on a stage that does not hold the number. *)
Lemma stage_op_live staged op :
  if keeps_stage (sg_id staged) (raw (sg_expires_at staged)) op
  then stage_op (Some staged) op = Some staged
  else begins_stage (sg_id staged) op = false ->
       forall s, stage_op (Some staged) op = Some s -> sg_id s <> sg_id staged.
Proof.
  destruct op as [generated id rev now| |now|id now]; simpl.
  - destruct (_ <? _) eqn:E; breflect.
    + unfold stage_begin, stage_expire, stage_expired. simpl.
      replace (raw now >=? _) with false by (symmetry; breflect; lia). done.
    + intros Hb s Hs. assert (stage_expired now (Some staged) = true) as He.
      { unfold stage_expired. simpl. breflect. lia. }
      unfold stage_begin, stage_expire in Hs. rewrite He in Hs. simpl in Hs.
      destruct (let? _ := _ in _) as [[p ?]|] eqn:Ep in Hs; [|done]. injection Hs as <-. simpl in Hb.
      destruct generated as [[[[key npub] secret] nsec]|e]; simpl in Ep; [|done].
      destruct (new_identity _ _ _); simpl in Ep; [|done]. destruct (_ ≫= _); simpl in Ep; [|done].
      injection Ep as <- _. simpl. breflect. done.
  - done.
  - unfold stage_expire, stage_expired. simpl. destruct (_ <? _) eqn:E; breflect.
    + by replace (raw now >=? _) with false by (symmetry; breflect; lia).
    + by replace (raw now >=? _) with true by (symmetry; breflect; lia).
  - unfold stage_take, stage_expire, stage_expired. simpl.
    destruct (raw now <? _) eqn:E; breflect.
    + replace (raw now >=? _) with false by (symmetry; breflect; lia). simpl.
      destruct (id =? sg_id staged) eqn:Ei; breflect; simpl.
      * by rewrite bool_decide_true by congruence.
      * by rewrite bool_decide_false by congruence.
    + replace (raw now >=? _) with true by (symmetry; breflect; lia). by rewrite andb_false_r.
Qed.

Lemma stage_op_other id op self :
  begins_stage id op = false -> (forall s, self = Some s -> sg_id s <> id) ->
  forall s, stage_op self op = Some s -> sg_id s <> id.
Proof.
  intros Hb Hs s. destruct op as [generated id' rev now| |now|id' now]; simpl in *.
  - intros [Hi|Hi]%stage_begin_id; [breflect; congruence|auto].
  - done.
  - unfold stage_expire. destruct (stage_expired _ _); [done|auto].
  - unfold stage_take, stage_expire. destruct (stage_expired _ _); simpl; [done|].
    destruct (negb _); [auto|done].
Qed.

Lemma stage_run_live staged ops :
  forallb (fun op => negb (begins_stage (sg_id staged) op)) ops = true ->
  if forallb (keeps_stage (sg_id staged) (raw (sg_expires_at staged))) ops
  then stage_run ops (Some staged) = Some staged
  else forall s, stage_run ops (Some staged) = Some s -> sg_id s <> sg_id staged.
Proof.
  assert (forall ops self, forallb (fun op => negb (begins_stage (sg_id staged) op)) ops = true ->
    (forall s, self = Some s -> sg_id s <> sg_id staged) ->
    forall s, stage_run ops self = Some s -> sg_id s <> sg_id staged) as Hother.
  { clear ops. induction ops as [|op ops IH]; intros self Hb Hs; simpl in *; [done|].
    apply andb_true_iff in Hb as [Hb1%negb_true_iff Hb2]. apply IH; [done|].
    by apply stage_op_other. }
  induction ops as [|op ops IH]; simpl; [done|]. intros Hb.
  apply andb_true_iff in Hb as [Hb1%negb_true_iff Hb2].
  pose proof (stage_op_live staged op) as Ho.
  destruct (keeps_stage _ _ op); simpl.
  - rewrite Ho. by apply IH.
  - apply Hother; auto.
Qed.

(** A staged key is handed over for its commit at most once, to the call that
    names its stage, within five minutes of its creation, and not after it was
    cancelled or replaced. *)
Theorem staged_key_once generated id revision begun self staged handle after now :
  stage_begin generated id revision begun self = (Some staged, Ok handle) ->
  forallb (fun op => negb (begins_stage id op)) after = true ->
  let later := stage_run after (Some staged) in
  (forall s, (stage_take id now later).2 = Ok s <->
     s = staged /\ raw now < raw begun + GENERATED_KEY_STAGE_TTL /\
     forallb (keeps_stage id (raw begun + GENERATED_KEY_STAGE_TTL)) after = true) /\
  forall now', (stage_take id now' (stage_take id now later).1).2 = Err recovery_not_available.
Proof.
  intros Hb Hn later. apply stage_begin_Ok in Hb as (key & npub & secret & nsec & identity & t & _ & _ & Ht & Hs & _).
  injection Hs as Hs. assert (sg_id staged = id) as Hid by by rewrite Hs.
  assert (raw (sg_expires_at staged) = raw begun + GENERATED_KEY_STAGE_TTL) as He by by rewrite Hs.
  clear Hs. subst id. rewrite <- He. pose proof (stage_run_live staged after Hn) as Hl. fold later in Hl.
  split.
  - intros s. unfold stage_take, stage_expire. destruct (forallb _ _) eqn:Ef in Hl; rewrite Ef.
    + rewrite Hl. unfold stage_expired. simpl. destruct (raw now >=? _) eqn:E; breflect; simpl.
      * split; [done|]. intros (_ & ? & _). lia.
      * rewrite bool_decide_true by done. simpl. split; [intros [= <-]; split_and!; [done|lia|done]|].
        by intros (-> & _).
    + split; [|by intros (_ & _ & ?)]. destruct (stage_expired now later); simpl; [done|].
      destruct later as [s'|]; simpl; [|done]. rewrite bool_decide_false; [done|].
      intros [= E]. by apply (Hl s').
  - intros now'. unfold stage_take, stage_expire.
    destruct (stage_expired now later); simpl; [done|].
    destruct (bool_decide (sg_id <$> later = Some (sg_id staged))) eqn:E; simpl; [done|].
    destruct (stage_expired now' later); simpl; [done|]. by rewrite E.
Qed.
End StageRuns.
