(* ===== verification/Refresh.v ===== *)
(** * Refreshing the active profile

    [profile_refresh.rs]: the plan of a refresh, taken when the active identity
    starts to load, and its completion, which discards what no longer concerns
    the active identity, saves what was fetched, and shows the profile that wins.
    The relays are asked between the two, outside the core; what they answered is
    an argument.

    First, what any run over [Durable]'s ports does to the core: it is a run of
    the core's own operations. *)

From Stdlib Require Import Bool ZArith Lia Strings.Byte Strings.String.
From stdpp Require Import base decidable option list numbers strings.
From S2P Require Import Prelude Containers Encoding Hub Reference Identity Profile Snapshot Session Core Database Secrets Durable Recovery.

(** ** The refresh *)

Module RelayFetchCompleteness.
Inductive RelayFetchCompleteness := Complete | Partial.
#[global] Instance RelayFetchCompleteness_eq_dec : EqDecision RelayFetchCompleteness.
Proof. solve_decision. Defined.
End RelayFetchCompleteness.
Abbreviation RelayFetchCompleteness := RelayFetchCompleteness.RelayFetchCompleteness.

Record ProfileFetchResult := {
  pf_candidate : option Kind0ProfileCandidate;
  pf_completeness : RelayFetchCompleteness
}.

Definition partial_relay_result : SafeError :=
  SafeError_new SafeErrorCode.RelayConnectionFailed "One or more Nostr relays did not complete.".
Definition invalid_profile_completion : SafeError :=
  SafeError_new SafeErrorCode.InvalidApplicationState
    "The active profile refresh is no longer valid.".

Definition refresh_status (error : SafeError) : ProfileRefreshStatus :=
  match se_code error with
  | SafeErrorCode.InvalidProfileMetadata | SafeErrorCode.ProfileRefreshFailed =>
      ProfileRefreshStatus.InvalidData
  | _ => ProfileRefreshStatus.Offline
  end.

Section Refresh.
Context `{RelayTransport, NostrKeys, KeyMaterialProvider, SecretStore} (clock : nat -> UnixTimestamp).

Abbreviation io := (io (H2 := H2)).

Record ProfileRefreshPlan := {
  pp_public_key : PublicKey;
  pp_active_identity : ActiveIdentitySnapshot;
  pp_relays : list RelayEndpoint;
  pp_expected_revision : SnapshotRevision
}.

Definition active_key (s : AppSnapshot) : option PublicKey :=
  (fun active => public_key (ai_identity active)) <$> as_active_identity s.
Definition is_current_active (key : PublicKey) (s : AppSnapshot) : bool :=
  is_some_and (as_active_identity s) (fun active => public_key (ai_identity active) ==? key).

Definition begin_profile_refresh : stm AppCore SafeError (option ProfileRefreshPlan) :=
  do! self <- stm_get;
  match as_active_identity (snapshot self) with
  | None => stm_ret None
  | Some active =>
      let key := public_key (ai_identity active) in
      do! loading <- apply_transition (UpdateActiveIdentity key
        {| ai_identity := ai_identity active;
           ai_relay_state := RelayConnectionState.Connecting;
           ai_profile_state := ProfileLoadState.Loading;
           ai_profile := ai_profile active |} None);
      stm_ret (Some {|
        pp_public_key := key;
        pp_active_identity := active;
        pp_relays := relays (as_relay_configuration loading);
        pp_expected_revision := as_revision loading |})
  end.

Definition complete_successful_profile_fetch (plan : ProfileRefreshPlan)
    (current_active : ActiveIdentitySnapshot) (candidate : option Kind0ProfileCandidate)
    (completeness : RelayFetchCompleteness) : io AppSnapshot :=
  let relay_state :=
    match completeness with
    | RelayFetchCompleteness.Complete => RelayConnectionState.Connected
    | RelayFetchCompleteness.Partial => RelayConnectionState.Degraded
    end in
  let problem :=
    match completeness with
    | RelayFetchCompleteness.Complete => None
    | RelayFetchCompleteness.Partial => Some partial_relay_result
    end in
  match candidate with
  | Some candidate =>
      do! at_ <- now clock;
      let cached := {| cp_candidate := candidate; cp_refreshed_at := at_;
                       cp_refresh_status := ProfileRefreshStatus.Success |} in
      do! _ <- database (save_profile cached);
      do! loaded <- database (load_profile (pp_public_key plan));
      let winning_profile :=
        match loaded with
        | None => kp_metadata candidate
        | Some profile => kp_metadata (cp_candidate profile)
        end in
      core (apply_transition (UpdateActiveIdentity (pp_public_key plan)
        {| ai_identity := ai_identity current_active;
           ai_relay_state := relay_state;
           ai_profile_state := ProfileLoadState.Fresh;
           ai_profile := Some winning_profile |} problem))
  | None =>
      core (apply_transition (UpdateActiveIdentity (pp_public_key plan)
        {| ai_identity := ai_identity current_active;
           ai_relay_state := relay_state;
           ai_profile_state := if is_some (ai_profile current_active)
                               then ProfileLoadState.Cached else ProfileLoadState.Empty;
           ai_profile := ai_profile current_active |} problem))
  end.

Definition complete_profile_refresh (plan : ProfileRefreshPlan)
    (fetched : result ProfileFetchResult SafeError) : io AppSnapshot :=
  do! s <- core_snapshot;
  if negb (is_current_active (pp_public_key plan) s) then core_snapshot
  else
    do! s <- core_snapshot;
    do! current_active <- io_lift (ok_or (as_active_identity s) invalid_profile_completion);
    match fetched with
    | Ok fetched =>
        complete_successful_profile_fetch plan current_active (pf_candidate fetched)
          (pf_completeness fetched)
    | Err error =>
        let status := refresh_status error in
        do! s <- core (apply_transition (UpdateActiveIdentity (pp_public_key plan)
          {| ai_identity := ai_identity current_active;
             ai_relay_state := RelayConnectionState.Degraded;
             ai_profile_state := ProfileLoadState.Error error;
             ai_profile := ai_profile current_active |} (Some error)));
        do! at_ <- now clock;
        do! _ <- database (record_refresh_status (pp_public_key plan) at_ status);
        stm_ret s
    end.

(** [refresh_active_profile], with the answer of the relays it asks. *)
Definition refresh_active_profile
    (fetch_profile : PublicKey -> list RelayEndpoint -> result ProfileFetchResult SafeError)
  : io AppSnapshot :=
  do! plan <- core begin_profile_refresh;
  match plan with
  | None => core_snapshot
  | Some plan =>
      complete_profile_refresh plan (fetch_profile (pp_public_key plan) (pp_relays plan))
  end.
End Refresh.

(** ** Runs and the core *)

Section Evolution.
Context `{RelayTransport, NostrKeys, KeyMaterialProvider, SecretStore} (clock : nat -> UnixTimestamp).

Abbreviation io := (io (H2 := H2)).

(** Whatever fails, the core is left as operations in [T] would have left it. *)
Definition evolves {A} (T : CoreOp -> Prop) (m : io A) : Prop :=
  forall w, exists ops, Forall T ops /\ w_core (m w).1 = core_run ops (w_core w).

Lemma core_run_app ops ops' c : core_run (ops ++ ops') c = core_run ops' (core_run ops c).
Proof. apply foldl_app. Qed.

Lemma evolves_same {A} T (m : io A) : (forall w, w_core (m w).1 = w_core w) -> evolves T m.
Proof. intros Hm w. by exists []. Qed.
Lemma evolves_ret {A} T (a : A) : evolves T (stm_ret a).
Proof. by apply evolves_same. Qed.
Lemma evolves_lift {A} T (r : result A SafeError) : evolves T (io_lift r).
Proof. by apply evolves_same. Qed.
Lemma evolves_now T : evolves T (now clock).
Proof. by apply evolves_same. Qed.
Lemma evolves_key_material {A} T (f : nat -> result A SafeError) : evolves T (key_material f).
Proof. by apply evolves_same. Qed.
Lemma evolves_core_snapshot T : evolves T core_snapshot.
Proof. by apply evolves_same. Qed.
Lemma evolves_database {A} T (t : transaction A) : evolves T (database t).
Proof.
  apply evolves_same. intros w. unfold database. simpl.
  destruct (default Works _) as [| |[]|[]], (t (w_database w)) as [[? ?]|?]; done.
Qed.
Lemma evolves_secrets {A} T (m : stm secret_store SafeError A) : evolves T (secrets m).
Proof.
  apply evolves_same. intros w. unfold secrets. simpl.
  destruct (m (w_secrets w)), (default Works _) as [| |[]|[]]; done.
Qed.
Lemma evolves_secrets_read {A} T (f : secret_store -> result A SafeError) : evolves T (secrets_read f).
Proof. apply evolves_secrets. Qed.

Lemma evolves_bind {A B} (T : CoreOp -> Prop) (m : io A) (k : A -> io B) :
  evolves T m -> (forall a, evolves T (k a)) -> evolves T (stm_bind m k).
Proof.
  intros Hm Hk w. destruct (Hm w) as (ops & Ho & Hw). unfold stm_bind.
  destruct (m w) as [w1 [a|e]]; [|eauto]. destruct (Hk a w1) as (ops' & Ho' & Hw').
  exists (ops ++ ops'). split; [by apply Forall_app|]. simpl in Hw. by rewrite core_run_app, <- Hw.
Qed.

Lemma evolves_attempt {A} T (m : io A) : evolves T m -> evolves T (attempt m).
Proof.
  intros Hm w. destruct (Hm w) as (ops & Ho & Hw). exists ops. split; [done|]. unfold attempt.
  by destruct (m w) as [w1 [a|[e|]]].
Qed.

Lemma evolves_transition (T : CoreOp -> Prop) t : T (OTransition t) -> evolves T (core (apply_transition t)).
Proof.
  intros HT w. exists [OTransition t]. split; [by repeat constructor|]. simpl. unfold core.
  by destruct (apply_transition t (w_core w)).
Qed.
Lemma evolves_consume (T : CoreOp -> Prop) tok t :
  T (OConsume tok t) -> evolves T (core (consume_removal_token tok t)).
Proof.
  intros HT w. exists [OConsume tok t]. split; [by repeat constructor|]. done.
Qed.
Lemma evolves_sign_out (T : CoreOp -> Prop) : T (OTransition SignOut) -> evolves T (core AppCore_sign_out).
Proof.
  intros HT w. unfold core, AppCore_sign_out. destruct (is_SignedOut _).
  - exists []. by split.
  - exists [OTransition SignOut]. split; [by repeat constructor|]. simpl.
    by destruct (apply_transition SignOut (w_core w)).
Qed.

#[local] Hint Resolve evolves_ret evolves_lift evolves_now evolves_key_material evolves_core_snapshot
  evolves_database evolves_secrets evolves_secrets_read evolves_attempt evolves_transition
  evolves_consume evolves_sign_out : evolves.

(** Follow the calls of a run. *)
Ltac evolves_run :=
  repeat (simpl; match goal with
    | |- forall _, _ => intros ?
    | |- evolves _ (stm_bind _ _) => apply evolves_bind
    | |- evolves _ (if ?b then _ else _) => destruct b
    | |- evolves _ (match ?o with _ => _ end) => destruct o
    | |- evolves _ _ => solve [eauto with evolves]
    | |- evolves _ (attempt _) => apply evolves_attempt
    end).

(** The operations that end no activation with success. *)
Definition no_activation (op : CoreOp) : Prop :=
  match op with OTransition (ActivationSucceeded _) => False | _ => True end.
#[local] Hint Extern 1 (no_activation _) => exact I : evolves.

(** The operations that neither end an activation nor replace what is signed in. *)
Definition steady (op : CoreOp) : Prop :=
  match op with
  | OTransition (Select _ | BeginActivation _ | UpdateActiveIdentity _ _ _ | SetProblem _) => True
  | OTransition _ => False
  | OIssue _ _ | OConsume _ _ | OCancel _ => True
  end.
#[local] Hint Extern 1 (steady _) => exact I : evolves.
Lemma steady_no_activation op : steady op -> no_activation op.
Proof. by destruct op as [[]| | |]. Qed.
Lemma evolves_weaken {A} (T T' : CoreOp -> Prop) (m : io A) :
  (forall op, T op -> T' op) -> evolves T m -> evolves T' m.
Proof.
  intros HT Hm w. destruct (Hm w) as (ops & Ho & ->). exists ops. split; [|done].
  by eapply Forall_impl.
Qed.
Lemma evolves_steady {A} (m : io A) : evolves steady m -> evolves no_activation m.
Proof. apply evolves_weaken, steady_no_activation. Qed.

Lemma advance_evolves T r p q : evolves T (advance clock r p q).
Proof. unfold advance. evolves_run. Qed.
Lemma finalize_evolves T r p o v : evolves T (finalize clock r p o v).
Proof. unfold finalize. evolves_run. Qed.
#[local] Hint Resolve advance_evolves finalize_evolves : evolves.

Lemma verify_replay_evolves T op r kind v k x :
  evolves T (verify_completed_identity_replay op r kind v k x).
Proof. unfold verify_completed_identity_replay. evolves_run. Qed.
Lemma require_revision_evolves T v : evolves T (require_revision v).
Proof. unfold require_revision. evolves_run. Qed.
#[local] Hint Resolve verify_replay_evolves require_revision_evolves : evolves.

Lemma persist_evolves r kind v i x previous :
  evolves no_activation (persist_identity_durable clock r kind v i x previous).
Proof. unfold persist_identity_durable, persist_started. evolves_run. Qed.
#[local] Hint Resolve persist_evolves : evolves.

Lemma generate_evolves r v : evolves no_activation (generate_identity_durable clock r v).
Proof. unfold generate_identity_durable. evolves_run. Qed.
Lemma import_evolves r v input : evolves no_activation (import_secret_key_durable clock r v input).
Proof. unfold import_secret_key_durable. evolves_run. Qed.
Lemma commit_staged_evolves r staged : evolves no_activation (commit_staged_generated_key clock r staged).
Proof. unfold commit_staged_generated_key. evolves_run. Qed.
Lemma removal_evolves r token : evolves no_activation (confirm_identity_removal_durable clock r token).
Proof. unfold confirm_identity_removal_durable, removal_started. evolves_run. Qed.
Lemma select_steady k : evolves steady (select_identity k).
Proof. unfold select_identity. evolves_run. Qed.
Lemma select_evolves k : evolves no_activation (select_identity k).
Proof. apply evolves_steady, select_steady. Qed.
Lemma run_core_ok {A} T (m : io A) (w : World) :
  evolves T m -> core_ok (w_core w) -> core_ok (w_core (m w).1).
Proof. intros Hm Hc. destruct (Hm w) as (ops & _ & ->). by apply core_run_ok. Qed.
Lemma complete_fetch_evolves plan current candidate completeness :
  evolves no_activation (complete_successful_profile_fetch clock plan current candidate completeness).
Proof. unfold complete_successful_profile_fetch. evolves_run. Qed.
Lemma complete_refresh_steady plan fetched :
  evolves steady (complete_profile_refresh clock plan fetched).
Proof. unfold complete_profile_refresh, complete_successful_profile_fetch. evolves_run. Qed.
Lemma complete_refresh_evolves plan fetched :
  evolves no_activation (complete_profile_refresh clock plan fetched).
Proof. apply evolves_steady, complete_refresh_steady. Qed.
Lemma activate_evolves k : evolves (fun _ => True) (activate_identity clock k).
Proof. unfold activate_identity, prepare_activation. evolves_run. Qed.
Lemma boot_evolves : evolves no_activation (persistent_bootstrap clock).
Proof.
  unfold persistent_bootstrap, bootstrap_from, recover_durable_operations. evolves_run.
  induction a as [|op ops IH]; simpl; [eauto with evolves|]. apply evolves_bind; [|done].
  unfold recover_durable_addition, recover_durable_removal, removal_metadata, removal_selection,
    finish_durable_selection, compensate_durable_addition, delete_if_present, remove_if_present.
  evolves_run.
Qed.
Lemma begin_refresh_steady : evolves steady (core begin_profile_refresh).
Proof.
  intros w. unfold core, begin_profile_refresh, stm_bind, stm_get, stm_ret.
  destruct (as_active_identity _) as [a|]; [|by exists []].
  match goal with |- context [apply_transition ?t ?c] => exists [OTransition t];
    split; [by repeat constructor|]; simpl; by destruct (apply_transition t c) as [? []] end.
Qed.
Lemma begin_refresh_evolves : evolves no_activation (core begin_profile_refresh).
Proof. apply evolves_steady, begin_refresh_steady. Qed.

(** ** What evolution keeps *)

Lemma transition_later t c :
  core_ok c ->
  snapshot (apply_transition t c).1 = snapshot c \/
  raw (as_revision (snapshot c)) < raw (as_revision (snapshot (apply_transition t c).1)).
Proof.
  intros (_ & _ & Hm & Hp). pose proof (transition_applied t (ac_relay_configuration c) _ Hm) as Hr.
  unfold apply_transition, snapshot, machine_snapshot in *.
  destruct (StateMachine_apply _ _ _) as [m' [s|e]]; simpl; [|by left].
  destruct Hr as (Ha & <- & revision & Hv & ->). rewrite Hp.
  set (s := sm_snapshot (cs_state_machine (ac_state c))) in *.
  destruct t; simpl; fold s; try (right; simpl; lia);
    try (destruct (is_booting s); [right; simpl; lia|by left]).
  destruct Ha as (key & previous & -> & _). right. simpl. lia.
Qed.

(** The snapshot of the core only moves on to later revisions. *)
Lemma core_run_later ops c :
  core_ok c ->
  snapshot (core_run ops c) = snapshot c \/
  raw (as_revision (snapshot c)) < raw (as_revision (snapshot (core_run ops c))).
Proof.
  revert c. induction ops as [|op ops IH]; intros c Hc; [by left|].
  assert (snapshot (core_op c op) = snapshot c \/
    raw (as_revision (snapshot c)) < raw (as_revision (snapshot (core_op c op)))) as Hop.
  { destruct op as [t|key t|tok t|tok]; simpl; [by apply transition_later| |by left..].
    left. destruct (issue_removal_token key t c) as [c' r] eqn:E. by apply issue_run in E as (_ & ? & _). }
  specialize (IH _ (core_op_ok _ op Hc)). simpl. destruct Hop as [<-|Hop]; [done|].
  destruct IH as [->|IH]; [by right|]. right. lia.
Qed.

Lemma transition_active t c :
  core_ok c -> no_activation (OTransition t) ->
  active_key (snapshot (apply_transition t c).1) = active_key (snapshot c) \/
  active_key (snapshot (apply_transition t c).1) = None.
Proof.
  intros (_ & _ & Hm & Hp) Hn. pose proof (transition_applied t (ac_relay_configuration c) _ Hm) as Hr.
  unfold apply_transition, snapshot, machine_snapshot in *.
  destruct (StateMachine_apply _ _ _) as [m' [s|e]]; simpl; [|by left].
  destruct Hr as (Ha & <- & revision & Hv & ->). rewrite Hp.
  set (m := cs_state_machine (ac_state c)) in *.
  destruct t as [|ids sel|e|ids sel|ids sel|key|key|a|p|expected a p| |p]; simpl; try done;
    try (by left); try (by right);
    try (destruct (is_booting _); [by right|by left]).
  - destruct Ha as (key & previous & Hpend & Hv'). rewrite Hpend. simpl.
    destruct Hm as (_ & Hpo & _). unfold pending_ok in Hpo. rewrite Hpend in Hpo.
    destruct Hpo as [(_ & _ & He & _)|(Hi & _)].
    + left. unfold active_key. simpl. by rewrite He.
    + right. unfold active_key. simpl. destruct (ps_active_identity previous) as [a|]; [|done].
      destruct Hv' as (_ & _ & _ & Hv' & _). specialize (Hv' a eq_refl). rewrite Hi in Hv'.
      by apply not_elem_of_nil in Hv'.
  - left. destruct Ha as (_ & (current & Hc & He) & He' & _). unfold active_key. simpl.
    rewrite Hc. simpl. by rewrite He, He'.
Qed.

(** Nobody becomes active by an operation that ends no activation. *)
Lemma core_run_active ops c :
  core_ok c -> Forall no_activation ops ->
  active_key (snapshot (core_run ops c)) = active_key (snapshot c) \/
  active_key (snapshot (core_run ops c)) = None.
Proof.
  intros Hc Ho. revert c Hc. induction Ho as [|op ops Hop _ IH]; intros c Hc; [by left|].
  specialize (IH _ (core_op_ok _ op Hc)). simpl. destruct IH as [-> | ->]; [|by right].
  destruct op as [t|key t|tok t|tok]; simpl; [by apply transition_active| |by left..].
  left. destruct (issue_removal_token key t c) as [c' r] eqn:E. apply issue_run in E as (_ & Hs & _).
  simpl. by rewrite Hs.
Qed.
End Evolution.

(** ** What a completion does *)

Section Completion.
Context `{RelayTransport, NostrKeys, KeyMaterialProvider, SecretStore} (clock : nat -> UnixTimestamp).

Abbreviation io := (io (H2 := H2)).

(** A transaction commits or not; if it reports a result, it committed. *)
Lemma database_cases {A} (t : transaction A) (w : World) :
  let (w', r) := database t w in
  w_core w' = w_core w /\ w_secrets w' = w_secrets w /\
  match r with
  | Ok a => t (w_database w) = Ok (w_database w', a)
  | Err _ => w_database w' = w_database w \/ exists a, t (w_database w) = Ok (w_database w', a)
  end.
Proof.
  unfold database. simpl.
  destruct (default Works _) as [| |[]|[]], (t (w_database w)) as [[db a]|e]; simpl; eauto 6.
Qed.

(** Whether the active identity of a snapshot may be updated once more. *)
Definition updatable (s : AppSnapshot) : Prop :=
  as_session s = SessionState.Active /\ raw (as_revision s) < 2 ^ 64 - 1.

Lemma update_active_run key current a problem c :
  core_ok c -> as_active_identity (snapshot c) = Some current ->
  public_key (ai_identity current) = key -> ai_identity a = ai_identity current ->
  let (c', r) := apply_transition (UpdateActiveIdentity key a problem) c in
  (updatable (snapshot c) ->
     r = Ok (snapshot c') /\ as_active_identity (snapshot c') = Some a /\
     as_recoverable_problem (snapshot c') = problem /\ as_session (snapshot c') = SessionState.Active) /\
  match r with
  | Ok s => updatable (snapshot c) /\
      s = snapshot c' /\ as_active_identity s = Some a /\ as_recoverable_problem s = problem
  | Err _ => snapshot c' = snapshot c
  end.
Proof.
  intros (_ & _ & Hm & Hp) Hc Hk Ha.
  pose proof (transition_applied (UpdateActiveIdentity key a problem) (ac_relay_configuration c) _ Hm) as Hr.
  unfold apply_transition, snapshot, machine_snapshot, updatable in *. rewrite Hp in *.
  destruct (StateMachine_apply _ _ _) as [m' [s|e]]; simpl.
  - destruct Hr as ((Hs & _) & <- & revision & Hv & ->). simpl. split; [done|].
    pose proof (counter_range revision). split; [split; [done|lia]|done].
  - rewrite Hp. split; [|done]. intros [Hs Hv]. destruct Hr as [[Hn|Hn] _]; [|lia].
    destruct Hn. simpl. split_and!; [done|eauto|by rewrite Ha|]. rewrite Ha.
    destruct Hm as ((_ & _ & _ & Hin & _) & _). by apply Hin.
Qed.

(** The candidate that is cached for a key after another was saved. *)
Definition winner (cached : option CachedProfile) (candidate : Kind0ProfileCandidate)
  : Kind0ProfileCandidate :=
  match cached with
  | Some cached => if prefers (cp_candidate cached) candidate then candidate else cp_candidate cached
  | None => candidate
  end.

Lemma save_profile_run p db db' :
  save_profile p db = Ok (db', tt) ->
  let author := kp_author (cp_candidate p) in
  db_identities db' = db_identities db /\
  (exists cached, bt_get author (db_profiles db') = Some cached /\
     cp_candidate cached = winner (bt_get author (db_profiles db)) (cp_candidate p)) /\
  forall key, key <> author -> bt_get key (db_profiles db') = bt_get key (db_profiles db).
Proof.
  unfold save_profile, winner. destruct (is_none _); [done|].
  destruct (bt_get _ (db_profiles db)) as [cached|] eqn:E;
    [rewrite excluded_replaces_prefers; simpl; destruct (prefers _ _)|]; intros [= <-]; simpl;
    (split; [done|]); try (split; [|intros key Hk; rewrite bt_get_insert; by case_decide]).
  - exists p. by rewrite bt_get_insert, decide_True.
  - split; [by exists cached|done].
  - exists p. by rewrite bt_get_insert, decide_True.
Qed.

(** What the completion shows, from what was shown and what came back. *)
Definition shown (current : ActiveIdentitySnapshot) (candidate : option ProfileMetadata)
    (relay_state : RelayConnectionState) (profile_state : ProfileLoadState) : ActiveIdentitySnapshot := {|
  ai_identity := ai_identity current;
  ai_relay_state := relay_state;
  ai_profile_state := profile_state;
  ai_profile := match candidate with Some m => Some m | None => ai_profile current end |}.

Definition relay_state_of (completeness : RelayFetchCompleteness) : RelayConnectionState :=
  if completeness ==? RelayFetchCompleteness.Complete
  then RelayConnectionState.Connected else RelayConnectionState.Degraded.

(** A refresh that failed: the error is shown at once, the profile stays, and of
    what is saved only the status of the cached profile may change. *)
Lemma complete_failed plan error (w : World) current :
  core_ok (w_core w) -> as_active_identity (snapshot (w_core w)) = Some current ->
  public_key (ai_identity current) = pp_public_key plan ->
  let (w', r) := complete_profile_refresh clock plan (Err error) w in
  let s := snapshot (w_core w) in
  let s' := snapshot (w_core w') in
  (updatable s ->
     as_active_identity s' =
       Some (shown current None RelayConnectionState.Degraded (ProfileLoadState.Error error)) /\
     as_recoverable_problem s' = Some error) /\
  (~ updatable s -> s' = s /\ w_database w' = w_database w /\ exists e, r = Err e) /\
  (s' = s \/ as_active_identity s' =
       Some (shown current None RelayConnectionState.Degraded (ProfileLoadState.Error error))) /\
  (forall s1, r = Ok s1 -> s1 = s') /\
  (forall key, cp_candidate <$> bt_get key (db_profiles (w_database w')) =
               cp_candidate <$> bt_get key (db_profiles (w_database w))).
Proof.
  intros Hok Ha Hk. unfold complete_profile_refresh, core_snapshot, stm_bind at 1, is_current_active.
  simpl. rewrite Ha. simpl. rewrite bool_decide_true by done. simpl.
  unfold core_snapshot, stm_bind at 1. simpl. rewrite Ha. unfold stm_bind at 1. simpl.
  unfold core. unfold stm_bind at 1.
  match goal with |- context [apply_transition (UpdateActiveIdentity ?k ?a ?p) ?c] =>
    pose proof (update_active_run k current a p c Hok Ha Hk eq_refl) as Hu;
    destruct (apply_transition (UpdateActiveIdentity k a p) c) as [c' [s|e]] end; simpl.
  2: { destruct Hu as [Hu He]. split_and!; [|by eauto|by left|done|done]. intros Hup. by destruct (Hu Hup). }
  destruct Hu as (Hu & Hup & -> & Hsa & Hsp). unfold stm_bind at 1, now. simpl. unfold stm_bind.
  match goal with |- context [database ?t ?w] => pose proof (database_cases t w) as Hd;
    destruct (database t w) as [w' r] end.
  destruct Hd as (Hc & _ & Hd). simpl in Hc, Hd.
  assert (forall key, cp_candidate <$> bt_get key (db_profiles (w_database w')) =
    cp_candidate <$> bt_get key (db_profiles (w_database w))) as Hp.
  { intros key. assert (w_database w' = w_database w \/ exists t, record_refresh_status
        (pp_public_key plan) t (refresh_status error) (w_database w) = Ok (w_database w', tt)) as Hcase.
    { destruct r as [[]|e]; [eauto|]. destruct Hd as [->|([] & Hd)]; eauto. }
    destruct Hcase as [->|(t & Ht)]; [done|]. unfold record_refresh_status in Ht.
    destruct (bt_get (pp_public_key plan) _) as [cached|] eqn:Eg; injection Ht as <-; [|done]. simpl.
    rewrite bt_get_insert. case_decide; [subst; by rewrite Eg|done]. }
  destruct r as [[]|e]; simpl; rewrite Hc; simpl; do 2 (split; [done|]); (split; [by right|]);
    (split; [by intros ? [= <-]|done]).
Qed.

Lemma fetched_run plan current candidate completeness (w : World) :
  core_ok (w_core w) -> as_active_identity (snapshot (w_core w)) = Some current ->
  public_key (ai_identity current) = pp_public_key plan ->
  let key := pp_public_key plan in
  let (w', r) := complete_successful_profile_fetch clock plan current (Some candidate) completeness w in
  kp_author candidate = key ->
  let best := winner (bt_get key (db_profiles (w_database w))) candidate in
  (w_database w' = w_database w \/
   cp_candidate <$> bt_get key (db_profiles (w_database w')) = Some best) /\
  match r with
  | Ok s1 => updatable (snapshot (w_core w)) /\ s1 = snapshot (w_core w') /\
      cp_candidate <$> bt_get key (db_profiles (w_database w')) = Some best /\
      as_active_identity s1 = Some (shown current (Some (kp_metadata best))
        (relay_state_of completeness) ProfileLoadState.Fresh)
  | Err _ => snapshot (w_core w') = snapshot (w_core w)
  end.
Proof.
  intros Hok Ha Hk key. unfold complete_successful_profile_fetch, stm_bind at 1, now. simpl.
  set (w1 := tick w). unfold stm_bind at 1.
  set (p := {| cp_candidate := candidate; cp_refreshed_at := _; cp_refresh_status := _ |}).
  pose proof (database_cases (save_profile p) w1) as H3.
  destruct (database (save_profile p) w1) as [w2 [[]|e]]; destruct H3 as (Hc2 & _ & Hd2).
  2: { intros Hau. fold key in Hau. split; [|by rewrite Hc2]. destruct Hd2 as [->|([] & Hd2)]; [by left|right].
       apply save_profile_run in Hd2 as (_ & (cached & Hg & Hb) & _). simpl in Hg, Hb.
       rewrite Hau in Hg, Hb. rewrite Hg. simpl. by rewrite Hb. }
  apply save_profile_run in Hd2 as (_ & (cached & Hg & Hb) & _). simpl in Hg, Hb.
  unfold stm_bind at 1. pose proof (database_cases (load_profile key) w2) as H4. unfold key in H4.
  destruct (database (load_profile (pp_public_key plan)) w2) as [w3 [loaded|e]];
    destruct H4 as (Hc3 & _ & Hd3); fold key in Hd3.
  2: { intros Hau. fold key in Hau. rewrite Hc3, Hc2. split; [|done]. right. rewrite Hau in Hg, Hb.
       assert (w_database w3 = w_database w2) as ->.
       { destruct Hd3 as [->|(a & Hd3)]; [done|]. unfold load_profile in Hd3. congruence. }
       rewrite Hg. simpl. by rewrite Hb. }
  unfold load_profile in Hd3. injection Hd3 as Hd3 Hl. unfold core.
  assert (w_core w3 = w_core w) as Hc by (by rewrite Hc3, Hc2).
  match goal with |- context [apply_transition (UpdateActiveIdentity ?k ?a ?q) ?c] =>
    assert (as_active_identity (snapshot c) = Some current) as Ha' by (by rewrite Hc);
    pose proof (update_active_run k current a q c ltac:(by rewrite Hc) Ha' Hk eq_refl) as Hu;
    destruct (apply_transition (UpdateActiveIdentity k a q) c) as [c' [s|e]] end; simpl;
    intros Hau; fold key in Hau; rewrite Hau in Hg, Hb; rewrite <- Hd3, Hg; simpl; rewrite Hb;
    (split; [by right|]); destruct Hu as [_ Hu].
  - destruct Hu as (Hup & -> & -> & _). rewrite Hc in Hup. do 3 (split; [done|]). rewrite Hg in Hl. subst loaded.
    unfold shown. rewrite Hb. by destruct completeness.
  - by rewrite Hu, Hc.
Qed.

(** An answer without a profile. *)
Lemma empty_run plan current completeness (w : World) :
  core_ok (w_core w) -> as_active_identity (snapshot (w_core w)) = Some current ->
  public_key (ai_identity current) = pp_public_key plan ->
  let (w', r) := complete_successful_profile_fetch clock plan current None completeness w in
  w_database w' = w_database w /\
  match r with
  | Ok s1 => updatable (snapshot (w_core w)) /\ s1 = snapshot (w_core w') /\
      as_active_identity s1 = Some (shown current None (relay_state_of completeness)
        (if is_some (ai_profile current) then ProfileLoadState.Cached else ProfileLoadState.Empty))
  | Err _ => ~ updatable (snapshot (w_core w)) /\ snapshot (w_core w') = snapshot (w_core w)
  end.
Proof.
  intros Hok Ha Hk. unfold complete_successful_profile_fetch, core.
  match goal with |- context [apply_transition (UpdateActiveIdentity ?k ?a ?p) ?c] =>
    pose proof (update_active_run k current a p c Hok Ha Hk eq_refl) as Hu;
    destruct (apply_transition (UpdateActiveIdentity k a p) c) as [c' [s|e]] end; simpl;
    (split; [done|]).
  - destruct Hu as (_ & Hup & -> & -> & _). split_and!; [done|done|]. by destruct completeness.
  - destruct Hu as [Hu He]. split; [|done]. intros Hup. by destruct (Hu Hup).
Qed.

(** A completion for an identity that is not active does nothing. *)
Lemma stale_refresh plan fetched (w : World) :
  active_key (snapshot (w_core w)) <> Some (pp_public_key plan) ->
  complete_profile_refresh clock plan fetched w = (w, Ok (snapshot (w_core w))).
Proof.
  unfold complete_profile_refresh, core_snapshot, stm_bind, is_current_active, active_key. simpl.
  destruct (as_active_identity _) as [current|]; simpl; [|done].
  intros Hk. rewrite bool_decide_false; [done|]. congruence.
Qed.

(** An answer for the identity that is active is the success of the refresh. *)
Lemma answered_refresh plan current candidate completeness (w : World) :
  as_active_identity (snapshot (w_core w)) = Some current ->
  public_key (ai_identity current) = pp_public_key plan ->
  complete_profile_refresh clock plan
    (Ok {| pf_candidate := candidate; pf_completeness := completeness |}) w =
  complete_successful_profile_fetch clock plan current candidate completeness w.
Proof.
  intros Ha Hk. unfold complete_profile_refresh, core_snapshot, stm_bind at 1, is_current_active.
  simpl. rewrite Ha. simpl. rewrite bool_decide_true by done. simpl.
  unfold core_snapshot, stm_bind at 1. simpl. rewrite Ha. done.
Qed.

(** C35: completing a refresh, on every outcome and in every state of the session,
    whichever calls fail.  A completion for an identity that is no longer active
    changes nothing.  For the active one, while the session is active and a
    revision is left: a failed one shows the error and keeps the profile on
    display; a complete or partial answer without a profile keeps the profile; if
    an answer with a profile of it is completed, the profile on display is the cached
    one, and if it is not, the display has not changed.  Otherwise
    (another activation is pending, say) a completion fails, and neither an error
    nor a profile is shown.  In every session a failure keeps all cached
    candidates, an answer without a profile the whole database, and of two
    candidates for the cache the preferred one is kept. *)
Theorem refresh_correct plan fetched (w : World) :
  core_ok (w_core w) ->
  let key := pp_public_key plan in
  let s := snapshot (w_core w) in
  let (w', r) := complete_profile_refresh clock plan fetched w in
  let s' := snapshot (w_core w') in
  (active_key s <> Some key -> w' = w /\ r = Ok s) /\
  forall current, as_active_identity s = Some current ->
    public_key (ai_identity current) = key ->
    match fetched with
    | Err error =>
        (updatable s ->
         as_active_identity s' =
           Some (shown current None RelayConnectionState.Degraded (ProfileLoadState.Error error)) /\
         as_recoverable_problem s' = Some error) /\
        (~ updatable s -> s' = s /\ w_database w' = w_database w /\ exists e, r = Err e) /\
        (forall k, cp_candidate <$> bt_get k (db_profiles (w_database w')) =
                   cp_candidate <$> bt_get k (db_profiles (w_database w)))
    | Ok {| pf_candidate := None; pf_completeness := completeness |} =>
        w_database w' = w_database w /\
        match r with
        | Ok s1 => updatable s /\ s1 = s' /\
            as_active_identity s' = Some (shown current None (relay_state_of completeness)
              (if is_some (ai_profile current) then ProfileLoadState.Cached else ProfileLoadState.Empty))
        | Err _ => ~ updatable s /\ s' = s
        end
    | Ok {| pf_candidate := Some candidate; pf_completeness := completeness |} =>
        kp_author candidate = key ->
        let best := winner (bt_get key (db_profiles (w_database w))) candidate in
        (w_database w' = w_database w \/
         cp_candidate <$> bt_get key (db_profiles (w_database w')) = Some best) /\
        match r with
        | Ok s1 => updatable s /\ s1 = s' /\
            cp_candidate <$> bt_get key (db_profiles (w_database w')) = Some best /\
            as_active_identity s' = Some (shown current (Some (kp_metadata best))
              (relay_state_of completeness) ProfileLoadState.Fresh)
        | Err _ => s' = s
        end
    end.
Proof.
  intros Hok key s. destruct (complete_profile_refresh clock plan fetched w) as [w' r] eqn:Er.
  intros s'. split.
  { intros Hn. rewrite stale_refresh in Er by done. by injection Er as <- <-. }
  intros current Ha Hk. destruct fetched as [[[candidate|] completeness]|error].
  - intros Hau. rewrite (answered_refresh _ current) in Er by done.
    pose proof (fetched_run plan current candidate completeness w Hok Ha Hk) as Hf.
    rewrite Er in Hf. destruct (Hf Hau) as [Hdb Hr]. split; [done|].
    destruct r as [s1|e]; [|done]. by destruct Hr as (? & -> & ? & ?).
  - rewrite (answered_refresh _ current) in Er by done.
    pose proof (empty_run plan current completeness w Hok Ha Hk) as Hf. rewrite Er in Hf.
    destruct Hf as [Hdb Hr]. split; [done|]. destruct r as [s1|e]; [|done].
    by destruct Hr as (? & -> & ?).
  - pose proof (complete_failed plan error w current Hok Ha Hk) as Hf. rewrite Er in Hf.
    by destruct Hf as (Hf & Hn & _ & _ & Hp).
Qed.
End Completion.

(** ** Closed examples *)

#[local] Existing Instance sample_transport.
#[local] Existing Instance memory_store.
#[local] Existing Instance sample_keys.
#[local] Existing Instance sample_material.

(** The first identity is imported and activated, and a profile of it arrives. *)
Definition activated_world : World :=
  (activate_identity sample_clock (sample_key 1) (sample_import 1 (empty_world [])).1).1.
Definition sample_current : ActiveIdentitySnapshot :=
  default {| ai_identity := sample_identity 1; ai_relay_state := RelayConnectionState.Disconnected;
             ai_profile_state := ProfileLoadState.Empty; ai_profile := None |}
    (as_active_identity (snapshot (w_core activated_world))).
Definition sample_plan : ProfileRefreshPlan := {|
  pp_public_key := sample_key 1; pp_active_identity := sample_current; pp_relays := [];
  pp_expected_revision := as_revision (snapshot (w_core activated_world)) |}.
Definition sample_profile : Kind0ProfileCandidate := {|
  kp_event_id := sample_key 3; kp_author := sample_key 1; kp_created_at := sample_time 4;
  kp_metadata := {| pm_name := None; pm_display_name := None; pm_nip05 := None; pm_about := None;
                    pm_picture := None |} |}.

Lemma booted_ok : core_ok booted.
Proof. apply (core_op_ok _ (OTransition Bootstrap)), core_ok_new. Qed.
Lemma activated_world_ok : core_ok (w_core activated_world).
Proof.
  refine (run_core_ok _ _ _ (activate_evolves sample_clock (sample_key 1)) _).
  exact (run_core_ok _ _ (empty_world []) (import_evolves sample_clock _ _ _) booted_ok).
Qed.

Lemma refresh_correct_witness :
  let (w', r) := complete_profile_refresh sample_clock sample_plan
    (Ok {| pf_candidate := Some sample_profile; pf_completeness := RelayFetchCompleteness.Partial |})
    activated_world in
  r = Ok (snapshot (w_core w')) /\
  as_active_identity (snapshot (w_core w')) =
    Some (shown sample_current (Some (kp_metadata sample_profile)) RelayConnectionState.Degraded
      ProfileLoadState.Fresh).
Proof.
  pose proof (refresh_correct sample_clock sample_plan
    (Ok {| pf_candidate := Some sample_profile; pf_completeness := RelayFetchCompleteness.Partial |})
    activated_world activated_world_ok) as Hr. cbv zeta in Hr.
  assert (is_ok (complete_profile_refresh sample_clock sample_plan
    (Ok {| pf_candidate := Some sample_profile; pf_completeness := RelayFetchCompleteness.Partial |})
    activated_world).2 = true) as Hs by (vm_compute; reflexivity).
  destruct (complete_profile_refresh _ _ _ _) as [w' r]. destruct Hr as [_ Hr].
  specialize (Hr sample_current ltac:(vm_compute; reflexivity) ltac:(vm_compute; reflexivity) eq_refl). cbv zeta in Hr. destruct Hr as [_ Hr].
  destruct r as [s1|e]; [|done]. destruct Hr as (_ & -> & _ & Hr). split; [reflexivity|].
  rewrite Hr. vm_compute. reflexivity.
Defined.
