(* ===== verification/Runtime.v ===== *)
(** * The runtime actor

    [runtime_actor.rs]: one task owns the application core and its ports and takes
    commands off a mailbox, one at a time.  Between commands it publishes what the
    core shows, together with the number of the native session, and it keeps the
    durable fence that hub submissions are checked against
    ([hub/submission/session.rs] of the storage crate) in step with that session.
    Profile refreshes run beside it: a command starts one, a completion ends it.

    A step of the actor is the handling of one command or one completion.  What
    the environment decides during a step comes with it: the instants read, the
    fate of the port calls (the faults of the world), whether the caller still
    holds its ticket.  Where a deadline applies, a call that does not return in
    time is the last of its run ([Cut]); where none does, the actor learns only
    that the call failed, and a mark of that kind is read that way.

    The commands on hub records ([HubHandling], [HubStock], [HubActual],
    [HubCount], [HubReference], [HubRead], [InitializeHub]) are not part of
    [RuntimeCommand].  Their handlers borrow the actor without the right to change
    it: they ask [hub_actor] or [hub_submission_scope], which are modelled here,
    and then work on the hub tables, which are not. *)

From Stdlib Require Import Bool ZArith Lia Strings.Byte Strings.String.
From stdpp Require Import base decidable option list numbers strings gmap.
From S2P Require Import Prelude Containers Encoding Hub Reference Identity Profile Snapshot Session Core Changes Database Secrets Durable Actor Refresh.

Definition MAX_OUTSTANDING_PROFILE_TASKS : nat := 64.

Definition request_space_exhausted : SafeError :=
  SafeError_new SafeErrorCode.InvalidApplicationState
    "The runtime request identifier space is exhausted.".
Definition stale_profile_binding : SafeError :=
  SafeError_new SafeErrorCode.InvalidApplicationState
    "The active identity binding changed before profile refresh.".
Definition command_rejected : SafeError :=
  SafeError_new SafeErrorCode.InvalidApplicationState "The runtime is busy. Try again.".
Definition command_timed_out : SafeError :=
  SafeError_new SafeErrorCode.InvalidApplicationState "The runtime command timed out.".
Definition runtime_state_unavailable : SafeError :=
  SafeError_new SafeErrorCode.InvalidApplicationState
    "The application runtime state is unavailable.".
Definition command_unavailable : SafeError :=
  SafeError_new SafeErrorCode.InvalidApplicationState
    "The command is unavailable in the current runtime state.".
Definition generated_recovery_route_active : SafeError :=
  SafeError_new SafeErrorCode.InvalidApplicationState
    "Complete or cancel generated-key recovery before another action.".
Definition invalid_actor_response : SafeError :=
  SafeError_new SafeErrorCode.InvalidApplicationState
    "The runtime returned an invalid command response.".
Definition observer_registration_failed : SafeError :=
  SafeError_new SafeErrorCode.ObserverRegistrationFailed
    "The application change subscription could not be registered.".
Definition hub_capacity : SafeError :=
  SafeError_new SafeErrorCode.HubCapacity
    "The local demonstration history is full. Existing records remain available.".
Definition hub_conflict : SafeError :=
  SafeError_new SafeErrorCode.HubConflict
    "Inventory or original operation context changed. Retain input and review current records.".
Definition hub_permission_denied : SafeError :=
  SafeError_new SafeErrorCode.HubPermissionDenied
    "Activate the current hub owner's local identity to access hub records.".

(** ** The session fence *)

(** The row of [hub_runtime_session]. *)
Record HubRuntimeSession := {
  hrs_runtime : HubRuntimeIncarnation;
  hrs_generation : SessionGeneration;
  hrs_actor : option PublicKey;
  hrs_updated_at : UnixTimestamp
}.
Record HubSubmissionScope := {
  hss_runtime : HubRuntimeIncarnation;
  hss_generation : SessionGeneration;
  hss_actor : PublicKey
}.

(** [MAX] of two timestamps. *)
Definition later_of (a b : UnixTimestamp) : UnixTimestamp := if raw a <? raw b then b else a.

Definition begin_hub_runtime (runtime : HubRuntimeIncarnation) (now : UnixTimestamp)
    (row : option HubRuntimeSession) : option HubRuntimeSession :=
  Some {| hrs_runtime := runtime; hrs_generation := SessionGeneration_initial; hrs_actor := None;
          hrs_updated_at := match row with
                            | Some row => later_of (hrs_updated_at row) now
                            | None => now
                            end |}.

(** The statement of [advance_hub_session], in its transaction. *)
Definition advance_row (runtime : HubRuntimeIncarnation) (prior next : SessionGeneration)
    (actor : option PublicKey) (now : UnixTimestamp) (row : option HubRuntimeSession)
  : result (option HubRuntimeSession * SessionGeneration) SafeError :=
  match row with
  | Some row =>
      if (hrs_runtime row ==? runtime) && (hrs_generation row ==? prior)
      then Ok (Some {| hrs_runtime := hrs_runtime row; hrs_generation := next; hrs_actor := actor;
                       hrs_updated_at := later_of (hrs_updated_at row) now |}, next)
      else Err hub_conflict
  | None => Err hub_conflict
  end.

(** [require_on]: what a submission is admitted by. *)
Definition require_on (scope : HubSubmissionScope) (row : option HubRuntimeSession)
  : result unit SafeError :=
  let? current := ok_or row hub_permission_denied in
  if (hrs_runtime current !=? hss_runtime scope)
     || (hrs_generation current !=? hss_generation scope)
     || (hrs_actor current !=? Some (hss_actor scope))
  then Err hub_permission_denied
  else Ok tt.

(** ** Commands *)

Module RuntimeCommand.
Inductive RuntimeCommand :=
| Snapshot
| GenerateIdentity (durable_request : DurableRequestId) (expected_revision : Z)
| BeginGeneratedKeyStage
| AcknowledgeGeneratedKeyStage (id : Z) (durable_request : DurableRequestId)
| CancelGeneratedKeyStage
| ImportSecretKey (input : SecretKeyInput) (durable_request : DurableRequestId)
    (expected_revision : Z)
| SelectIdentity (public_key : PublicKey)
| ActivateIdentity (public_key : PublicKey)
| SignOut
| RefreshActiveProfile
| RequestIdentityRemoval (public_key : PublicKey)
| ConfirmIdentityRemoval (token : RemovalConfirmationToken) (durable_request : DurableRequestId)
| SubscribeChanges (capacity : nat)
| UnsubscribeChanges (id : Z)
| Close.
End RuntimeCommand.
Abbreviation RuntimeCommand := RuntimeCommand.RuntimeCommand.

Module RuntimeCommandValue.
Section RuntimeCommandValue.
Context `{RelayTransport}.
Inductive RuntimeCommandValue :=
| Snapshot (snapshot : AppSnapshot)
| Generated (identity : NostrIdentity) (nsec : list byte)
| GeneratedKeyStage (handle : GeneratedKeyRecoveryHandle)
| GeneratedKeyStageCancelled (cancelled : bool)
| Imported (identity : NostrIdentity)
| RemovalRequest (token : RemovalConfirmationToken)
| Subscription (id : Z) (receiver : SnapshotChangeReceiver)
| Unsubscribed (removed : bool)
| Closed.
End RuntimeCommandValue.
End RuntimeCommandValue.
Abbreviation RuntimeCommandValue := RuntimeCommandValue.RuntimeCommandValue.

Definition class (self : RuntimeCommand) : RuntimeCommandClass :=
  match self with
  | RuntimeCommand.Snapshot | RuntimeCommand.SubscribeChanges _
  | RuntimeCommand.UnsubscribeChanges _ => RuntimeCommandClass.Observe
  | RuntimeCommand.GenerateIdentity _ _ | RuntimeCommand.BeginGeneratedKeyStage
  | RuntimeCommand.AcknowledgeGeneratedKeyStage _ _ | RuntimeCommand.ImportSecretKey _ _ _
  | RuntimeCommand.ActivateIdentity _ | RuntimeCommand.ConfirmIdentityRemoval _ _ =>
      RuntimeCommandClass.UseCredential
  | RuntimeCommand.SelectIdentity _ | RuntimeCommand.SignOut
  | RuntimeCommand.RequestIdentityRemoval _ | RuntimeCommand.CancelGeneratedKeyStage =>
      RuntimeCommandClass.MutateLocalState
  | RuntimeCommand.RefreshActiveProfile => RuntimeCommandClass.UseRelay
  | RuntimeCommand.Close => RuntimeCommandClass.Shutdown
  end.

Definition resolves_revision_through_durable_replay (self : RuntimeCommand) : bool :=
  match self with
  | RuntimeCommand.GenerateIdentity _ _ | RuntimeCommand.ImportSecretKey _ _ _ => true
  | _ => false
  end.

Section Runtime.
Context `{RelayTransport, NostrKeys, KeyMaterialProvider, SecretStore}.
Context `{Channels SnapshotChange} (clock : nat -> UnixTimestamp).

Abbreviation io := (io (H2 := H2)).
Abbreviation Result := (CommandResult RuntimeCommandValue).
Abbreviation Receipt := (CommandReceipt RuntimeCommandValue).

(** ** The state of the actor *)

Record PendingProfileTask := {
  pt_correlation : TaskCorrelation;
  pt_plan : ProfileRefreshPlan;
  pt_deadline : Instant;
  pt_reply : Reply
}.

(** [ra_world] is the adapter with its database, the credential store and the
    clock; [ra_fence] is the fence's row in that database; [ra_replies] are the
    receipts sent, in order. *)
Record RuntimeActor := {
  ra_demo_profile : bool;
  ra_world : World;
  ra_fence : option HubRuntimeSession;
  ra_lifecycle : LifecycleGate;
  ra_session_generation : SessionGeneration;
  ra_hub_runtime_incarnation : HubRuntimeIncarnation;
  ra_published_session_generation : SessionGeneration;
  ra_published_snapshot : AppSnapshot;
  ra_profile_tasks : list (RequestId * PendingProfileTask);
  ra_changes : Stream;
  ra_published_foreground_session : option ActiveSessionBinding;
  ra_generated_key_stage : GeneratedKeyStage;
  ra_replies : list (Reply * Receipt)
}.

Definition core_of (self : RuntimeActor) : AppSnapshot := snapshot (w_core (ra_world self)).

Definition set_world (w : World) (self : RuntimeActor) : RuntimeActor := {|
  ra_demo_profile := ra_demo_profile self; ra_world := w; ra_fence := ra_fence self;
  ra_lifecycle := ra_lifecycle self; ra_session_generation := ra_session_generation self;
  ra_hub_runtime_incarnation := ra_hub_runtime_incarnation self;
  ra_published_session_generation := ra_published_session_generation self;
  ra_published_snapshot := ra_published_snapshot self; ra_profile_tasks := ra_profile_tasks self;
  ra_changes := ra_changes self;
  ra_published_foreground_session := ra_published_foreground_session self;
  ra_generated_key_stage := ra_generated_key_stage self; ra_replies := ra_replies self |}.
Definition set_fence (row : option HubRuntimeSession) (self : RuntimeActor) : RuntimeActor := {|
  ra_demo_profile := ra_demo_profile self; ra_world := ra_world self; ra_fence := row;
  ra_lifecycle := ra_lifecycle self; ra_session_generation := ra_session_generation self;
  ra_hub_runtime_incarnation := ra_hub_runtime_incarnation self;
  ra_published_session_generation := ra_published_session_generation self;
  ra_published_snapshot := ra_published_snapshot self; ra_profile_tasks := ra_profile_tasks self;
  ra_changes := ra_changes self;
  ra_published_foreground_session := ra_published_foreground_session self;
  ra_generated_key_stage := ra_generated_key_stage self; ra_replies := ra_replies self |}.
Definition set_lifecycle (gate : LifecycleGate) (self : RuntimeActor) : RuntimeActor := {|
  ra_demo_profile := ra_demo_profile self; ra_world := ra_world self; ra_fence := ra_fence self;
  ra_lifecycle := gate; ra_session_generation := ra_session_generation self;
  ra_hub_runtime_incarnation := ra_hub_runtime_incarnation self;
  ra_published_session_generation := ra_published_session_generation self;
  ra_published_snapshot := ra_published_snapshot self; ra_profile_tasks := ra_profile_tasks self;
  ra_changes := ra_changes self;
  ra_published_foreground_session := ra_published_foreground_session self;
  ra_generated_key_stage := ra_generated_key_stage self; ra_replies := ra_replies self |}.
(** The generation, and its published copy. *)
Definition set_generation (generation : SessionGeneration) (self : RuntimeActor) : RuntimeActor := {|
  ra_demo_profile := ra_demo_profile self; ra_world := ra_world self; ra_fence := ra_fence self;
  ra_lifecycle := ra_lifecycle self; ra_session_generation := generation;
  ra_hub_runtime_incarnation := ra_hub_runtime_incarnation self;
  ra_published_session_generation := generation;
  ra_published_snapshot := ra_published_snapshot self; ra_profile_tasks := ra_profile_tasks self;
  ra_changes := ra_changes self;
  ra_published_foreground_session := ra_published_foreground_session self;
  ra_generated_key_stage := ra_generated_key_stage self; ra_replies := ra_replies self |}.
Definition set_published (s : AppSnapshot) (changes : Stream) (self : RuntimeActor) : RuntimeActor := {|
  ra_demo_profile := ra_demo_profile self; ra_world := ra_world self; ra_fence := ra_fence self;
  ra_lifecycle := ra_lifecycle self; ra_session_generation := ra_session_generation self;
  ra_hub_runtime_incarnation := ra_hub_runtime_incarnation self;
  ra_published_session_generation := ra_published_session_generation self;
  ra_published_snapshot := s; ra_profile_tasks := ra_profile_tasks self;
  ra_changes := changes;
  ra_published_foreground_session := ra_published_foreground_session self;
  ra_generated_key_stage := ra_generated_key_stage self; ra_replies := ra_replies self |}.
Definition set_tasks (tasks : list (RequestId * PendingProfileTask)) (self : RuntimeActor)
  : RuntimeActor := {|
  ra_demo_profile := ra_demo_profile self; ra_world := ra_world self; ra_fence := ra_fence self;
  ra_lifecycle := ra_lifecycle self; ra_session_generation := ra_session_generation self;
  ra_hub_runtime_incarnation := ra_hub_runtime_incarnation self;
  ra_published_session_generation := ra_published_session_generation self;
  ra_published_snapshot := ra_published_snapshot self; ra_profile_tasks := tasks;
  ra_changes := ra_changes self;
  ra_published_foreground_session := ra_published_foreground_session self;
  ra_generated_key_stage := ra_generated_key_stage self; ra_replies := ra_replies self |}.
Definition set_foreground (foreground : option ActiveSessionBinding) (self : RuntimeActor)
  : RuntimeActor := {|
  ra_demo_profile := ra_demo_profile self; ra_world := ra_world self; ra_fence := ra_fence self;
  ra_lifecycle := ra_lifecycle self; ra_session_generation := ra_session_generation self;
  ra_hub_runtime_incarnation := ra_hub_runtime_incarnation self;
  ra_published_session_generation := ra_published_session_generation self;
  ra_published_snapshot := ra_published_snapshot self; ra_profile_tasks := ra_profile_tasks self;
  ra_changes := ra_changes self; ra_published_foreground_session := foreground;
  ra_generated_key_stage := ra_generated_key_stage self; ra_replies := ra_replies self |}.
Definition set_stage (stage : GeneratedKeyStage) (self : RuntimeActor) : RuntimeActor := {|
  ra_demo_profile := ra_demo_profile self; ra_world := ra_world self; ra_fence := ra_fence self;
  ra_lifecycle := ra_lifecycle self; ra_session_generation := ra_session_generation self;
  ra_hub_runtime_incarnation := ra_hub_runtime_incarnation self;
  ra_published_session_generation := ra_published_session_generation self;
  ra_published_snapshot := ra_published_snapshot self; ra_profile_tasks := ra_profile_tasks self;
  ra_changes := ra_changes self;
  ra_published_foreground_session := ra_published_foreground_session self;
  ra_generated_key_stage := stage; ra_replies := ra_replies self |}.
Definition set_changes (changes : Stream) (self : RuntimeActor) : RuntimeActor :=
  set_published (ra_published_snapshot self) changes self.

(** [reply.send]. *)
Definition send (reply : Reply) (request_id : RequestId) (result : Result) (self : RuntimeActor)
  : RuntimeActor := {|
  ra_demo_profile := ra_demo_profile self; ra_world := ra_world self; ra_fence := ra_fence self;
  ra_lifecycle := ra_lifecycle self; ra_session_generation := ra_session_generation self;
  ra_hub_runtime_incarnation := ra_hub_runtime_incarnation self;
  ra_published_session_generation := ra_published_session_generation self;
  ra_published_snapshot := ra_published_snapshot self; ra_profile_tasks := ra_profile_tasks self;
  ra_changes := ra_changes self;
  ra_published_foreground_session := ra_published_foreground_session self;
  ra_generated_key_stage := ra_generated_key_stage self;
  ra_replies := ra_replies self ++ [(reply, {| cr_request_id := request_id; cr_result := result |})] |}.

Definition fail_lifecycle (error : SafeError) (self : RuntimeActor) : RuntimeActor :=
  set_lifecycle (gate_fail error (ra_lifecycle self)) self.

(** A run without a deadline of its own, and the result the caller sees. *)
Definition settle {A} (r : result A stop) : result A SafeError :=
  match r with
  | Ok a => Ok a
  | Err (Raised error) => Err error
  | Err Dropped => Err command_timed_out
  end.

(** [run_async]: the operation under the deadline of its command. *)
Definition run_async {A} (operation : io A) (self : RuntimeActor) : RuntimeActor * result A SafeError :=
  let (w, r) := operation (ra_world self) in (set_world w self, settle r).

(** [self.clock.now()]. *)
Definition clock_now (self : RuntimeActor) : RuntimeActor * UnixTimestamp :=
  (set_world (tick (ra_world self)) self, clock (w_ticks (ra_world self))).

(** A method of the core outside [run_async], and its error. *)
Definition run_core {A} (m : stm AppCore SafeError A) (self : RuntimeActor)
  : RuntimeActor * result A SafeError :=
  let (c, r) := m (w_core (ra_world self)) in (set_world (set_core c (ra_world self)) self, r).

(** ** Publication *)

Definition settled_snapshot (self : RuntimeActor) : AppSnapshot :=
  with_runtime_session (core_of self) {|
    rsb_incarnation := ra_hub_runtime_incarnation self;
    rsb_generation := ra_session_generation self |}.

Definition publish_snapshot (self : RuntimeActor) : RuntimeActor :=
  let s := settled_snapshot self in set_published s (publish s (ra_changes self)) self.

Definition bind_snapshot_result (self : RuntimeActor) (result : Result) : Result :=
  match result with
  | CommandResult.Completed (RuntimeCommandValue.Snapshot _) =>
      CommandResult.Completed (RuntimeCommandValue.Snapshot (settled_snapshot self))
  | other => other
  end.

Definition as_result {A} (value : A -> RuntimeCommandValue) (r : result A SafeError) : Result :=
  match r with
  | Ok a => CommandResult.Completed (value a)
  | Err error => CommandResult.Failed error
  end.

(** ** Profile tasks *)

(** Every task is answered, in the order of the map, and none is left. *)
Definition cancel_profile_tasks (s : option AppSnapshot) (self : RuntimeActor) : RuntimeActor :=
  foldl (fun self task =>
    let receipt_result :=
      match s with
      | None => CommandResult.Closed
      | Some s => CommandResult.Completed (RuntimeCommandValue.Snapshot
          (with_runtime_session s {|
             rsb_incarnation := ra_hub_runtime_incarnation self;
             rsb_generation := ra_session_generation self |}))
      end in
    send (pt_reply task.2) (tc_request_id (pt_correlation task.2)) receipt_result self)
  (set_tasks [] self) (ra_profile_tasks self).

(** The foreground session is the one a task was started for. *)
Definition binding_matches (task : TaskCorrelation) (foreground : option ActiveSessionBinding) : bool :=
  is_some_and foreground (fun binding =>
    (asb_generation binding ==? tc_session_generation task)
    && (nir_public_key (asb_identity binding) ==? tc_identity task)
    && (asb_signer_binding binding ==? tc_binding task)).
Definition is_Loading (state : ProfileLoadState) : bool := state ==? ProfileLoadState.Loading.

Definition start_profile_task (context : CommandContext) (reply : Reply) (self : RuntimeActor)
  : RuntimeActor :=
  let request_id := cc_request_id context in
  let answer r self := send reply request_id r self in
  let current := core_of self in
  match as_active_identity current with
  | None =>
      answer (CommandResult.Completed (RuntimeCommandValue.Snapshot (settled_snapshot self))) self
  | Some active =>
      match option_filter (fun binding =>
              (nir_public_key (asb_identity binding) ==? public_key (ai_identity active))
              && (asb_generation binding ==? ra_session_generation self))
              (ra_published_foreground_session self) with
      | None => answer (CommandResult.Failed stale_profile_binding) self
      | Some foreground =>
          if (MAX_OUTSTANDING_PROFILE_TASKS <=? length (ra_profile_tasks self))%nat
          then answer (CommandResult.Failed command_rejected) self
          else
            match run_core begin_profile_refresh self with
            | (self, Err error) => answer (CommandResult.Failed error) self
            | (self, Ok None) =>
                answer (CommandResult.Completed (RuntimeCommandValue.Snapshot (settled_snapshot self)))
                  self
            | (self, Ok (Some plan)) =>
                let self := publish_snapshot self in
                let task := {|
                  pt_correlation := {|
                    tc_request_id := request_id;
                    tc_identity := pp_public_key plan;
                    tc_binding := asb_signer_binding foreground;
                    tc_expected_revision := pp_expected_revision plan;
                    tc_session_generation := ra_session_generation self |};
                  pt_plan := plan;
                  pt_deadline := cc_deadline context;
                  pt_reply := reply |} in
                let previous := bt_get request_id (ra_profile_tasks self) in
                let self := set_tasks (bt_insert request_id task (ra_profile_tasks self)) self in
                match previous with
                | None => self
                | Some previous =>
                    let self := fail_lifecycle request_space_exhausted self in
                    let self := send (pt_reply previous) (tc_request_id (pt_correlation previous))
                                  (CommandResult.Failed request_space_exhausted) self in
                    cancel_profile_tasks None self
                end
            end
      end
  end.

(** The instants read while a completion is handled: at its start, before the
    answer is applied, and after. *)
Record CompletionTimes := {
  ct_start : Instant;
  ct_poll : Instant;
  ct_end : Instant
}.

(** [complete_profile_before_deadline]: the deadline is looked at first. *)
Definition complete_profile_before_deadline (deadline : Instant) (now : Instant)
    (complete : io AppSnapshot) (self : RuntimeActor) : RuntimeActor * result AppSnapshot SafeError :=
  if now >=? deadline then (self, Err command_timed_out) else run_async complete self.

(** A success may only be applied before the deadline; a failure is applied even
    after it, as far as the first call that has to wait. *)
Definition attempt_completion (times : CompletionTimes) (task : PendingProfileTask)
    (fetched : result ProfileFetchResult SafeError) (self : RuntimeActor)
  : RuntimeActor * result AppSnapshot SafeError :=
  let complete := complete_profile_refresh clock (pt_plan task) fetched in
  match fetched with
  | Ok _ => complete_profile_before_deadline (pt_deadline task) (ct_poll times) complete self
  | Err _ => run_async complete self
  end.

(** What the actor does with an answer that concerns the current session. *)
Definition apply_completion (times : CompletionTimes) (task : PendingProfileTask)
    (result : result ProfileFetchResult SafeError) (self : RuntimeActor) : RuntimeActor * Result :=
  let deadline := pt_deadline task in
  let expired := ct_start times >=? deadline in
  let fetched := if expired then Err command_timed_out else result in
  let (self, completed) := attempt_completion times task fetched self in
  let completed := if expired || (ct_end times >=? deadline) then Err command_timed_out
                   else completed in
  let self :=
    match completed with
    | Err error =>
        if is_some_and (as_active_identity (core_of self))
             (fun active => is_Loading (ai_profile_state active))
        then (run_async (complete_profile_refresh clock (pt_plan task) (Err error)) self).1
        else self
    | Ok _ => self
    end in
  (self, as_result RuntimeCommandValue.Snapshot completed).

Definition complete_profile_task (times : CompletionTimes) (request_id : RequestId)
    (result : result ProfileFetchResult SafeError) (self : RuntimeActor) : RuntimeActor :=
  match bt_get request_id (ra_profile_tasks self) with
  | None => self
  | Some task =>
      let self := set_tasks (bt_remove request_id (ra_profile_tasks self)) self in
      let current := core_of self in
      let correlated :=
        (tc_session_generation (pt_correlation task) ==? ra_session_generation self)
        && binding_matches (pt_correlation task) (ra_published_foreground_session self)
        && is_current_active (tc_identity (pt_correlation task)) current in
      let (self, result) :=
        if correlated then apply_completion times task result self
        else (self, CommandResult.Completed (RuntimeCommandValue.Snapshot current)) in
      let self := publish_snapshot self in
      let result := bind_snapshot_result self result in
      send (pt_reply task) (tc_request_id (pt_correlation task)) result self
  end.

(** ** The session *)

(** A transaction on the fence's row. *)
Definition fence_transaction {A} (row : option HubRuntimeSession)
    (t : result (option HubRuntimeSession * A) SafeError) (self : RuntimeActor)
  : RuntimeActor * result A SafeError :=
  let (fault, w) := next_fault (ra_world self) in
  let self := set_world w self in
  let committed := match t with Ok (row, _) => set_fence row self | Err _ => self end in
  match fault with
  | Works => match t with Ok (_, a) => (committed, Ok a) | Err error => (self, Err error) end
  | NotCommitted => (self, Err storage_unavailable)
  | OutcomeUnknown true | Cut true => (committed, Err unconfirmed_transaction_outcome)
  | OutcomeUnknown false | Cut false => (self, Err unconfirmed_transaction_outcome)
  end.

Definition advance_hub_session (runtime : HubRuntimeIncarnation) (prior : SessionGeneration)
    (actor : option PublicKey) (now : UnixTimestamp) (self : RuntimeActor)
  : RuntimeActor * result SessionGeneration SafeError :=
  match SessionGeneration_next prior with
  | None => (self, Err hub_capacity)
  | Some next =>
      fence_transaction (ra_fence self) (advance_row runtime prior next actor now (ra_fence self)) self
  end.

Definition advance_session_generation (self : RuntimeActor) : RuntimeActor * result unit SafeError :=
  match SessionGeneration_next (ra_session_generation self) with
  | None =>
      (cancel_profile_tasks None (fail_lifecycle request_space_exhausted self),
       Err request_space_exhausted)
  | Some next =>
      let actor := active_key (core_of self) in
      let (self, at_) := clock_now self in
      match advance_hub_session (ra_hub_runtime_incarnation self) (ra_session_generation self)
              actor at_ self with
      | (self, Err error) => (self, Err error)
      | (self, Ok confirmed) =>
          if confirmed !=? next then (self, Err runtime_state_unavailable)
          else
            let self := set_generation next self in
            (cancel_profile_tasks (Some (core_of self)) self, Ok tt)
      end
  end.

(** The binding of the active identity, if there is one. *)
Definition foreground_binding (self : RuntimeActor) : option (result ActiveSessionBinding SafeError) :=
  (fun active =>
     let key := public_key (ai_identity active) in
     let? reference := NostrIdentityReference_derive key in
     ActiveSessionBinding_new reference
       (LocalKeyring (LocalKeyringBinding_new key SignerAvailability.Available))
       (ra_session_generation self)) <$> as_active_identity (core_of self).

Definition synchronize_foreground_session (self : RuntimeActor) : RuntimeActor :=
  match foreground_binding self with
  | None => set_foreground None self
  | Some (Ok session) => set_foreground (Some session) self
  | Some (Err error) => set_foreground None (fail_lifecycle error self)
  end.

Definition hub_actor (generation : SessionGeneration) (self : RuntimeActor)
  : result PublicKey SafeError :=
  if negb (ra_demo_profile self) || (generation !=? ra_session_generation self)
  then Err command_unavailable
  else
    let? binding := ok_or (ra_published_foreground_session self) command_unavailable in
    let key := nir_public_key (asb_identity binding) in
    if (asb_generation binding !=? generation) || negb (is_current_active key (core_of self))
    then Err command_unavailable
    else Ok key.

Definition hub_submission_scope (generation : SessionGeneration) (self : RuntimeActor)
  : result HubSubmissionScope SafeError :=
  let? actor := hub_actor generation self in
  Ok {| hss_runtime := ra_hub_runtime_incarnation self; hss_generation := generation;
        hss_actor := actor |}.

(** ** Commands *)

(** [adapter_close] is the outcome of closing the adapter. *)
Definition close_actor (adapter_close : result unit SafeError) (self : RuntimeActor)
  : RuntimeActor * Result :=
  match begin_shutdown (ra_lifecycle self) with
  | (gate, Err error) => (set_lifecycle gate self, CommandResult.Failed error)
  | (gate, Ok _) =>
      let self := set_lifecycle gate self in
      let self := set_stage (stage_cancel (ra_generated_key_stage self)).1 self in
      let self := cancel_profile_tasks None self in
      match adapter_close with
      | Err error => (fail_lifecycle error self, CommandResult.Failed error)
      | Ok _ =>
          let self := set_changes (close (ra_changes self)) self in
          let self := set_foreground None self in
          let (gate, r) := finish_shutdown (ra_lifecycle self) in
          (set_lifecycle gate self,
           match r with
           | Ok _ => CommandResult.Completed RuntimeCommandValue.Closed
           | Err error => CommandResult.Failed error
           end)
      end
  end.

(** The commands an open recovery step lets through. *)
Definition allowed_while_staged (command : RuntimeCommand) : bool :=
  match command with
  | RuntimeCommand.Snapshot | RuntimeCommand.AcknowledgeGeneratedKeyStage _ _
  | RuntimeCommand.CancelGeneratedKeyStage | RuntimeCommand.SubscribeChanges _
  | RuntimeCommand.UnsubscribeChanges _ | RuntimeCommand.Close => true
  | _ => false
  end.

Definition preflight (now : Instant) (context : CommandContext) (command : RuntimeCommand)
    (self : RuntimeActor) : option Result :=
  let lifecycle := ra_lifecycle self in
  let current_revision := as_revision (core_of self) in
  if is_expired context now then Some CommandResult.TimedOut
  else if lifecycle ==? RuntimeLifecycle.Closed then Some CommandResult.Closed
  else if negb (allows lifecycle (class command))
  then Some (CommandResult.Failed command_unavailable)
  else if is_some (ra_generated_key_stage self) && negb (allowed_while_staged command)
  then Some (CommandResult.Failed generated_recovery_route_active)
  else if negb (resolves_revision_through_durable_replay command)
          && is_some_and (cc_expected_revision context)
               (fun expected => expected !=? current_revision)
  then Some (CommandResult.Conflicted current_revision)
  else None.

(** [commit_generated_key_stage]. *)
Definition commit_generated_key_stage (request : DurableRequestId) (staged : StagedGeneratedKey)
  : io AppSnapshot :=
  do! _ <- commit_staged_generated_key clock request staged;
  core_snapshot.

Definition execute_command (context : CommandContext) (command : RuntimeCommand)
    (self : RuntimeActor) : RuntimeActor * Result :=
  match command with
  | RuntimeCommand.Snapshot =>
      (self, CommandResult.Completed (RuntimeCommandValue.Snapshot (core_of self)))
  | RuntimeCommand.GenerateIdentity durable_request expected_revision =>
      let (self, r) := run_async (generate_identity_durable clock durable_request expected_revision)
                         self in
      (self, as_result (fun v => RuntimeCommandValue.Generated v.1 v.2) r)
  | RuntimeCommand.BeginGeneratedKeyStage =>
      let (self, at_) := clock_now self in
      let generated := km_generate (w_ticks (ra_world self)) in
      let self := set_world (tick (ra_world self)) self in
      let (stage, r) :=
        stage_begin generated (raw (cc_request_id context)) (raw (as_revision (core_of self))) at_
          (ra_generated_key_stage self) in
      (set_stage stage self, as_result RuntimeCommandValue.GeneratedKeyStage r)
  | RuntimeCommand.AcknowledgeGeneratedKeyStage id durable_request =>
      let (self, at_) := clock_now self in
      let (stage, r) := stage_take id at_ (ra_generated_key_stage self) in
      let self := set_stage stage self in
      match r with
      | Ok staged =>
          let (self, r) := run_async (commit_generated_key_stage durable_request staged) self in
          (self, as_result RuntimeCommandValue.Snapshot r)
      | Err error => (self, CommandResult.Failed error)
      end
  | RuntimeCommand.CancelGeneratedKeyStage =>
      let (stage, cancelled) := stage_cancel (ra_generated_key_stage self) in
      (set_stage stage self,
       CommandResult.Completed (RuntimeCommandValue.GeneratedKeyStageCancelled cancelled))
  | RuntimeCommand.ImportSecretKey input durable_request expected_revision =>
      let (self, r) :=
        run_async (import_secret_key_durable clock durable_request expected_revision input) self in
      (self, as_result RuntimeCommandValue.Imported r)
  | RuntimeCommand.SelectIdentity key =>
      let (self, r) := run_async (select_identity key) self in
      (self, as_result RuntimeCommandValue.Snapshot r)
  | RuntimeCommand.ActivateIdentity key =>
      let (self, r) := run_async (activate_identity clock key) self in
      (self, as_result RuntimeCommandValue.Snapshot r)
  | RuntimeCommand.SignOut =>
      let (self, r) := run_core AppCore_sign_out self in
      (self, as_result RuntimeCommandValue.Snapshot r)
  | RuntimeCommand.RequestIdentityRemoval key =>
      let (self, at_) := clock_now self in
      let (self, r) := run_core (issue_removal_token key at_) self in
      (self, as_result RuntimeCommandValue.RemovalRequest r)
  | RuntimeCommand.ConfirmIdentityRemoval token durable_request =>
      let (self, r) := run_async (confirm_identity_removal_durable clock durable_request token) self in
      (self, as_result RuntimeCommandValue.Snapshot r)
  | RuntimeCommand.SubscribeChanges capacity =>
      let (changes, r) := subscribe capacity (ra_changes self) in
      (set_changes changes self,
       as_result (fun v => RuntimeCommandValue.Subscription v.1 v.2)
         (ok_or r observer_registration_failed))
  | RuntimeCommand.UnsubscribeChanges id =>
      let (changes, removed) := unsubscribe id (ra_changes self) in
      (set_changes changes self, CommandResult.Completed (RuntimeCommandValue.Unsubscribed removed))
  | RuntimeCommand.Close | RuntimeCommand.RefreshActiveProfile =>
      (self, CommandResult.Failed invalid_actor_response)
  end.

Definition changes_session (command : RuntimeCommand) : bool :=
  match command with
  | RuntimeCommand.ActivateIdentity _ | RuntimeCommand.SignOut
  | RuntimeCommand.ConfirmIdentityRemoval _ _ => true
  | _ => false
  end.
Definition is_Completed (result : Result) : bool :=
  match result with CommandResult.Completed _ => true | _ => false end.

(** A refresh in flight is settled as failed before a recovery step begins. *)
Definition interrupt_refreshes (self : RuntimeActor) : RuntimeActor :=
  let foreground := ra_published_foreground_session self in
  let current := core_of self in
  let self :=
    match find (fun task =>
            (tc_session_generation (pt_correlation task.2) ==? ra_session_generation self)
            && binding_matches (pt_correlation task.2) foreground
            && is_some_and (as_active_identity current) (fun active =>
                 (public_key (ai_identity active) ==? tc_identity (pt_correlation task.2))
                 && is_Loading (ai_profile_state active)))
            (ra_profile_tasks self) with
    | Some task =>
        (run_async (complete_profile_refresh clock (pt_plan task.2) (Err command_unavailable)) self).1
    | None => self
    end in
  publish_snapshot (cancel_profile_tasks (Some (core_of self)) self).

(** After a command that changes the session: the fence first, then what is
    published, or nothing of either. *)
Definition change_session (result : Result) (self : RuntimeActor) : RuntimeActor * Result :=
  match advance_session_generation self with
  | (self, Ok _) => (synchronize_foreground_session self, result)
  | (self, Err error) =>
      let self := fail_lifecycle error self in
      let self :=
        match run_core AppCore_sign_out self with
        | (self, Err clear_error) => fail_lifecycle clear_error self
        | (self, Ok _) => self
        end in
      let self := set_foreground None self in
      let self := cancel_profile_tasks None self in
      (publish_snapshot self, CommandResult.Failed error)
  end.

(** What the environment decides while a command is handled: the instant of its
    preflight, whether its ticket is gone when it arrives and when it is
    answered, and how the adapter closes. *)
Record CommandTimes := {
  cm_now : Instant;
  cm_closed_before : bool;
  cm_closed_after : bool;
  cm_adapter_close : result unit SafeError
}.

Definition is_SubscribeChanges (command : RuntimeCommand) : bool :=
  match command with RuntimeCommand.SubscribeChanges _ => true | _ => false end.

(** The rest of [handle_command], for the commands that are executed. *)
Definition run_command (times : CommandTimes) (context : CommandContext) (command : RuntimeCommand)
    (reply : Reply) (self : RuntimeActor) : RuntimeActor :=
  let self :=
    match command with
    | RuntimeCommand.BeginGeneratedKeyStage => interrupt_refreshes self
    | _ => self
    end in
  let (self, result) := execute_command context command self in
  let (self, result) :=
    if changes_session command && is_Completed result then change_session result self
    else (self, result) in
  let self := publish_snapshot self in
  let result := bind_snapshot_result self result in
  let self := send reply (cc_request_id context) result self in
  match result with
  | CommandResult.Completed (RuntimeCommandValue.Subscription id _) =>
      if cm_closed_after times then set_changes (unsubscribe id (ra_changes self)).1 self else self
  | _ => self
  end.

(** The actor after one command, and whether it goes on. *)
Definition handle_command (times : CommandTimes) (envelope : CommandEnvelope RuntimeCommand)
    (self : RuntimeActor) : RuntimeActor * bool :=
  let context := ce_context envelope in
  let command := ce_command envelope in
  let reply := ce_reply envelope in
  let answer r self := send reply (cc_request_id context) r self in
  if is_SubscribeChanges command && cm_closed_before times then (self, true)
  else
    match preflight (cm_now times) context command self with
    | Some result => (answer result self, true)
    | None =>
        match command with
        | RuntimeCommand.RefreshActiveProfile => (start_profile_task context reply self, true)
        | RuntimeCommand.Close =>
            let (self, result) := close_actor (cm_adapter_close times) self in
            (answer result self, negb (is_Completed result))
        | _ => (run_command times context command reply self, true)
        end
    end.

(** ** The loop *)

Inductive RuntimeEvent :=
| Command (times : CommandTimes) (envelope : CommandEnvelope RuntimeCommand)
| Completion (times : CompletionTimes) (request_id : RequestId)
    (result : result ProfileFetchResult SafeError).

(** One turn of [run]; completions are only received while tasks are pending. *)
Definition turn (event : RuntimeEvent) (self : RuntimeActor) : RuntimeActor * bool :=
  match event with
  | Command times envelope => handle_command times envelope self
  | Completion times request_id result =>
      if (length (ra_profile_tasks self) =? 0)%nat then (self, true)
      else (complete_profile_task times request_id result self, true)
  end.

(** The turns, until the actor breaks off. *)
Fixpoint turns (events : list RuntimeEvent) (self : RuntimeActor) : RuntimeActor * bool :=
  match events with
  | [] => (self, true)
  | event :: events =>
      match turn event self with
      | (self, true) => turns events self
      | (self, false) => (self, false)
      end
  end.

(** [run]: after the loop, which ends when the mailbox closes or the actor breaks
    off, the tasks left are answered. *)
Definition run (events : list RuntimeEvent) (self : RuntimeActor) : RuntimeActor :=
  cancel_profile_tasks None (turns events self).1.

(** [RuntimeActorHandle::start]: the stages of the gate, the bootstrap of the
    persistent core, the installation identity, a fresh incarnation, and the
    actor.  [installation] is the outcome of [initialize_installation_identity],
    which touches no other state; [incarnation] is the outcome of drawing it. *)
Definition start (demo_profile : bool) (installation : result unit SafeError)
    (incarnation : result HubRuntimeIncarnation SafeError)
    (row : option HubRuntimeSession) (w : World) : result RuntimeActor SafeError :=
  let gate := LifecycleGate_opening in
  let? _ := (begin_compatibility_check gate).2 in
  let gate := (begin_compatibility_check gate).1 in
  let? _ := (compatibility_accepted gate).2 in
  let gate := (compatibility_accepted gate).1 in
  let? _ := (ownership_acquired gate).2 in
  let gate := (ownership_acquired gate).1 in
  let? _ := (migration_complete gate).2 in
  let gate := (migration_complete gate).1 in
  let (w, booted) := persistent_bootstrap clock w in
  let? _ := settle booted in
  let? _ := installation in
  let? runtime := incarnation in
  let at_ := clock (w_ticks w) in
  let (fault, w) := next_fault (tick w) in
  let? _ := match fault with
            | Works => Ok tt
            | NotCommitted => Err storage_unavailable
            | OutcomeUnknown _ | Cut _ => Err unconfirmed_transaction_outcome
            end in
  let? _ := (recovery_complete gate).2 in
  let gate := (recovery_complete gate).1 in
  let initial_snapshot := with_runtime_session (snapshot (w_core w)) {|
    rsb_incarnation := runtime; rsb_generation := SessionGeneration_initial |} in
  Ok {|
    ra_demo_profile := demo_profile; ra_world := w;
    ra_fence := begin_hub_runtime runtime at_ row;
    ra_lifecycle := gate;
    ra_session_generation := SessionGeneration_initial;
    ra_hub_runtime_incarnation := runtime;
    ra_published_session_generation := SessionGeneration_initial;
    ra_published_snapshot := initial_snapshot;
    ra_profile_tasks := [];
    ra_changes := {| st_changes := OrderedSnapshotChanges_new initial_snapshot; st_links := ∅ |};
    ra_published_foreground_session := None;
    ra_generated_key_stage := None;
    ra_replies := [] |}.
End Runtime.
