(* ===== verification/Serving.v ===== *)
(** * What the runtime actor promises

    About the loop of [Runtime], for every sequence of commands and completions
    and whatever fails while they are handled: every command is answered once,
    what is published is what the core shows and never goes back, and a hub
    submission's scope names the identity that is active and is admitted by the
    durable fence until the session changes. *)

From Stdlib Require Import Bool ZArith Lia Strings.Byte Strings.String.
From stdpp Require Import base decidable option list numbers strings gmap relations.
From S2P Require Import Prelude Containers Encoding Hub Reference Identity Profile Snapshot Session Core Changes Delivery Database Secrets Durable Recovery Actor Refresh Runtime.

Section Serving.
Context `{RelayTransport, NostrKeys, KeyMaterialProvider, SecretStore}.
Context `{Channels SnapshotChange} (clock : nat -> UnixTimestamp).

Abbreviation Result := (CommandResult RuntimeCommandValue).

(** ** Frames *)

(** What the execution of a command leaves alone: everything but the world, the
    change stream and the stage. *)
Record framed (self self' : RuntimeActor) : Prop := {
  fr_demo : ra_demo_profile self' = ra_demo_profile self;
  fr_fence : ra_fence self' = ra_fence self;
  fr_lifecycle : ra_lifecycle self' = ra_lifecycle self;
  fr_generation : ra_session_generation self' = ra_session_generation self;
  fr_incarnation : ra_hub_runtime_incarnation self' = ra_hub_runtime_incarnation self;
  fr_published_generation :
    ra_published_session_generation self' = ra_published_session_generation self;
  fr_published : ra_published_snapshot self' = ra_published_snapshot self;
  fr_tasks : ra_profile_tasks self' = ra_profile_tasks self;
  fr_foreground : ra_published_foreground_session self' = ra_published_foreground_session self;
  fr_replies : ra_replies self' = ra_replies self
}.
#[global] Instance framed_preorder : PreOrder framed.
Proof. split; [by constructor|]. intros a b c [] []. constructor; congruence. Qed.

Lemma run_async_framed {A} (m : io A) self : framed self (run_async m self).1.
Proof. unfold run_async. by destruct (m (ra_world self)). Qed.
Lemma run_core_framed {A} (m : stm AppCore SafeError A) self : framed self (run_core m self).1.
Proof. unfold run_core. by destruct (m _). Qed.

Lemma execute_framed context command self : framed self (execute_command clock context command self).1.
Proof.
  destruct command; unfold execute_command, clock_now;
    try (match goal with |- context [run_async ?m ?s] =>
           pose proof (run_async_framed m s); by destruct (run_async m s) end);
    try (match goal with |- context [run_core ?m ?s] =>
           pose proof (run_core_framed m s) as Hf; destruct (run_core m s);
           by etrans; [|exact Hf] end);
    try done.
  - by destruct (stage_begin _ _ _ _ _).
  - destruct (stage_take _ _ _) as [stage [staged|e]]; [|done].
    match goal with |- context [run_async ?m ?s] =>
      pose proof (run_async_framed m s) as Hf; destruct (run_async m s) end.
    by etrans; [|exact Hf].
  - by destruct (subscribe _ _).
Qed.

(** ** Answers *)

Definition answers (self : RuntimeActor) : list (Reply * RequestId) :=
  (fun entry => (entry.1, cr_request_id entry.2)) <$> ra_replies self.
Definition tag (task : PendingProfileTask) : Reply * RequestId :=
  (pt_reply task, tc_request_id (pt_correlation task)).
Definition tags (tasks : list (RequestId * PendingProfileTask)) : list (Reply * RequestId) :=
  (fun entry => tag entry.2) <$> tasks.
Definition waiting (self : RuntimeActor) : list (Reply * RequestId) := tags (ra_profile_tasks self).

Lemma tags_insert id task tasks :
  bt_wf tasks -> tags (bt_insert id task tasks) ≡ₚ tag task :: tags (bt_remove id tasks).
Proof. intros Hw. unfold tags. by rewrite (bt_insert_perm _ _ _ Hw). Qed.
Lemma tags_remove id task tasks :
  bt_get id tasks = Some task -> tags tasks ≡ₚ tag task :: tags (bt_remove id tasks).
Proof. intros Hg. unfold tags. by rewrite (bt_remove_perm _ _ _ Hg) at 1. Qed.
Definition accounted (self : RuntimeActor) : list (Reply * RequestId) := answers self ++ waiting self.

(** The commands an event brings: a subscription whose ticket is gone is dropped
    unanswered. *)
Definition heard (event : RuntimeEvent) : list (Reply * RequestId) :=
  match event with
  | Command times envelope =>
      if is_SubscribeChanges (ce_command envelope) && cm_closed_before times then []
      else [(ce_reply envelope, cc_request_id (ce_context envelope))]
  | Completion _ _ _ => []
  end.

(** No answer is lost, repeated or given to a command not asked. *)
Definition accounts (asked : list (Reply * RequestId)) (self self' : RuntimeActor) : Prop :=
  (bt_wf (ra_profile_tasks self) -> bt_wf (ra_profile_tasks self')) /\
  (bt_wf (ra_profile_tasks self) -> accounted self' ≡ₚ asked ++ accounted self).
#[local] Instance accounts_nil : PreOrder (accounts []).
Proof.
  split; [done|]. intros a b c [Hw1 H1'] [Hw2 H2']. split; [auto|]. intros Hw. simpl in *.
  etrans; [apply H2'; auto|auto].
Qed.
Lemma accounts_trans asked asked' self self' self'' :
  accounts asked self self' -> accounts asked' self' self'' -> accounts (asked' ++ asked) self self''.
Proof.
  intros [Hw1 H1'] [Hw2 H2']. split; [auto|]. intros Hw.
  rewrite <- app_assoc, <- (H1' Hw). auto.
Qed.

(** Operations that touch neither tasks nor replies. *)
Lemma same_accounts self self' :
  ra_profile_tasks self' = ra_profile_tasks self -> ra_replies self' = ra_replies self ->
  accounts [] self self'.
Proof.
  intros Ht Hr. split; [by rewrite Ht|]. intros _. unfold accounted, answers, waiting. by rewrite Ht, Hr.
Qed.
Lemma framed_accounts self self' : framed self self' -> accounts [] self self'.
Proof. intros []. by apply same_accounts. Qed.

Lemma accounts_from asked self self' self'' :
  accounts [] self self' -> accounts asked self' self'' -> accounts asked self self''.
Proof. intros Ha Hb. rewrite <- (app_nil_r asked). by eapply accounts_trans. Qed.

(** Whatever follows a cancellation without touching tasks or replies. *)
Lemma accounts_r self self' self'' :
  accounts [] self self' -> ra_profile_tasks self'' = ra_profile_tasks self' ->
  ra_replies self'' = ra_replies self' -> accounts [] self self''.
Proof. intros Ha Ht Hr. etrans; [exact Ha|]. by apply same_accounts. Qed.

Lemma send_accounts reply id result self : accounts [(reply, id)] self (send reply id result self).
Proof.
  split; [done|]. intros _. unfold accounted, answers. simpl. rewrite fmap_app. simpl.
  rewrite <- app_assoc. simpl. by rewrite <- Permutation_middle.
Qed.

(** What cancelling leaves, and the receipts it sends. *)
Definition cancelled (s : option AppSnapshot) (self : RuntimeActor)
    (task : RequestId * PendingProfileTask) : Reply * CommandReceipt RuntimeCommandValue :=
  (pt_reply task.2,
   {| cr_request_id := tc_request_id (pt_correlation task.2);
      cr_result :=
        match s with
        | None => CommandResult.Closed
        | Some s => CommandResult.Completed (RuntimeCommandValue.Snapshot
            (with_runtime_session s {|
               rsb_incarnation := ra_hub_runtime_incarnation self;
               rsb_generation := ra_session_generation self |}))
        end |}).

Definition add_replies (l : list (Reply * CommandReceipt RuntimeCommandValue)) (self : RuntimeActor)
  : RuntimeActor := {|
  ra_demo_profile := ra_demo_profile self; ra_world := ra_world self; ra_fence := ra_fence self;
  ra_lifecycle := ra_lifecycle self; ra_session_generation := ra_session_generation self;
  ra_hub_runtime_incarnation := ra_hub_runtime_incarnation self;
  ra_published_session_generation := ra_published_session_generation self;
  ra_published_snapshot := ra_published_snapshot self; ra_profile_tasks := ra_profile_tasks self;
  ra_changes := ra_changes self;
  ra_published_foreground_session := ra_published_foreground_session self;
  ra_generated_key_stage := ra_generated_key_stage self;
  ra_replies := ra_replies self ++ l |}.

Lemma cancel_run s self :
  cancel_profile_tasks s self =
  add_replies (cancelled s self <$> ra_profile_tasks self) (set_tasks [] self).
Proof.
  unfold cancel_profile_tasks. generalize (ra_profile_tasks self). intros l.
  assert (forall l self', ra_hub_runtime_incarnation self' = ra_hub_runtime_incarnation self ->
    ra_session_generation self' = ra_session_generation self ->
    foldl (fun self task =>
      send (pt_reply task.2) (tc_request_id (pt_correlation task.2))
        match s with
        | None => CommandResult.Closed
        | Some s => CommandResult.Completed (RuntimeCommandValue.Snapshot
            (with_runtime_session s {|
               rsb_incarnation := ra_hub_runtime_incarnation self;
               rsb_generation := ra_session_generation self |}))
        end self) self' l = add_replies (cancelled s self <$> l) self') as Hf.
  { clear l. induction l as [|task l IH]; intros self' Hi Hg; simpl.
    - unfold add_replies. rewrite app_nil_r. by destruct self'.
    - rewrite IH by done. unfold add_replies, send, cancelled at 1. simpl. rewrite <- app_assoc.
      simpl. by rewrite Hi, Hg. }
  by apply Hf.
Qed.

Lemma cancel_accounts s self : accounts [] self (cancel_profile_tasks s self).
Proof.
  rewrite cancel_run. split; [intros _; constructor|]. intros _.
  unfold accounted, answers, waiting. simpl. rewrite app_nil_r, fmap_app. f_equiv.
  rewrite <- list_fmap_compose. done.
Qed.

Ltac after_cancel :=
  match goal with |- accounts [] ?a ?b =>
    match b with context [cancel_profile_tasks ?o ?s] =>
      apply (accounts_r a (cancel_profile_tasks o s)); [|done|done];
      etrans; [|apply cancel_accounts]
    end
  end.

Lemma fence_accounts {A} row (t : result (option HubRuntimeSession * A) SafeError) self :
  accounts [] self (fence_transaction row t self).1.
Proof.
  unfold fence_transaction. destruct (next_fault _) as [[| |[]|[]] w], t as [[? ?]|?];
    by apply same_accounts.
Qed.

Lemma advance_accounts self : accounts [] self (advance_session_generation clock self).1.
Proof.
  unfold advance_session_generation. destruct (SessionGeneration_next _) as [next|] eqn:E.
  - unfold clock_now, advance_hub_session. simpl. rewrite E.
    match goal with |- context [fence_transaction ?r ?t ?s] =>
      pose proof (fence_accounts r t s) as Hf; destruct (fence_transaction r t s) as [self1 [g|e]] end;
      [|exact Hf].
    destruct (negb _); [exact Hf|]. simpl in *. etrans; [exact Hf|]. etrans; [|apply cancel_accounts].
    by apply same_accounts.
  - simpl. etrans; [|apply cancel_accounts]. by apply same_accounts.
Qed.

Lemma synchronize_accounts self : accounts [] self (synchronize_foreground_session self).
Proof.
  unfold synchronize_foreground_session.
  destruct (foreground_binding self) as [[?|?]|]; by apply same_accounts.
Qed.

Lemma change_session_accounts result self : accounts [] self (change_session clock result self).1.
Proof.
  unfold change_session. pose proof (advance_accounts self) as Ha.
  destruct (advance_session_generation clock self) as [self1 [[]|e]]; simpl in *.
  - etrans; [exact Ha|]. apply synchronize_accounts.
  - etrans; [exact Ha|]. match goal with |- context [run_core ?m ?s] =>
      pose proof (framed_accounts _ _ (run_core_framed m s)) as Hf; destruct (run_core m s) as [self2 [?|?]] end;
      simpl in Hf; simpl; after_cancel; (apply (accounts_r _ self2); [|done|done]);
      (etrans; [|exact Hf]); by apply same_accounts.
Qed.

Lemma interrupt_accounts self : accounts [] self (interrupt_refreshes clock self).
Proof.
  unfold interrupt_refreshes. destruct (find _ _) as [task|].
  - match goal with |- context [run_async ?m ?s] =>
      pose proof (framed_accounts _ _ (run_async_framed m s)) as Hf end.
    after_cancel. exact Hf.
  - by after_cancel.
Qed.

Lemma close_accounts r self : accounts [] self (close_actor r self).1.
Proof.
  unfold close_actor. destruct (begin_shutdown _) as [gate [[]|e]]; [|by apply same_accounts].
  simpl. destruct r as [[]|e].
  - destruct (finish_shutdown _) as [gate' r']. simpl.
    after_cancel. by apply same_accounts.
  - simpl. after_cancel. by apply same_accounts.
Qed.

Lemma run_command_accounts times context command reply self :
  accounts [(reply, cc_request_id context)] self (run_command clock times context command reply self).
Proof.
  unfold run_command.
  set (self1 := match command with RuntimeCommand.BeginGeneratedKeyStage => _ | _ => self end).
  assert (accounts [] self self1) as H1'.
  { unfold self1. destruct command; try reflexivity. apply interrupt_accounts. }
  pose proof (framed_accounts _ _ (execute_framed context command self1)) as H2'.
  destruct (execute_command clock context command self1) as [self2 result].
  assert (exists self3 result3, (if changes_session command && is_Completed result
     then change_session clock result self2 else (self2, result)) = (self3, result3) /\
     accounts [] self2 self3) as (self3 & result3 & -> & H3').
  { destruct (changes_session command && is_Completed result).
    - pose proof (change_session_accounts result self2). destruct (change_session _ _ _). eauto.
    - by exists self2, result. }
  simpl in H2'. assert (accounts [] self (publish_snapshot self3)) as H4'.
  { do 3 (etrans; [eassumption|]). by apply same_accounts. }
  set (r4 := bind_snapshot_result _ _).
  pose proof (accounts_trans _ _ _ _ _ H4'
    (send_accounts reply (cc_request_id context) r4 (publish_snapshot self3))) as H5'.
  simpl in H5'. destruct r4 as [[]| | | | |]; try exact H5'. destruct (cm_closed_after times); exact H5'.
Qed.

Lemma start_task_accounts context reply self :
  accounts [(reply, cc_request_id context)] self (start_profile_task context reply self).
Proof.
  unfold start_profile_task. destruct (as_active_identity _) as [active|]; [|apply send_accounts].
  destruct (option_filter _ _) as [foreground|]; [|apply send_accounts].
  destruct (_ <=? _)%nat; [apply send_accounts|].
  pose proof (run_core_framed begin_profile_refresh self) as Hf.
  destruct (run_core begin_profile_refresh self) as [self1 [[plan|]|e]]; simpl in Hf;
    [|apply (accounts_from _ _ self1); [by apply framed_accounts|apply send_accounts]..].
  set (task := {| pt_correlation := _ |}). set (tasks := ra_profile_tasks (publish_snapshot self1)).
  assert (tasks = ra_profile_tasks self) as Ht by apply Hf.
  set (self2 := set_tasks (bt_insert (cc_request_id context) task tasks) (publish_snapshot self1)).
  assert (ra_replies self2 = ra_replies self) as Hr by apply Hf.
  destruct (bt_get (cc_request_id context) tasks) as [previous|] eqn:E.
  - match goal with |- accounts _ _ (cancel_profile_tasks ?o ?s) =>
      apply (accounts_trans [_] [] _ s); [|apply cancel_accounts] end.
    split; [intros Hw; simpl; rewrite Ht; by apply bt_insert_wf|]. intros Hw.
    unfold accounted, answers, waiting. simpl. rewrite fmap_app, (fr_replies _ _ Hf), Ht. simpl.
    rewrite Ht in E. rewrite (tags_insert _ _ _ Hw), (tags_remove _ _ _ E).
    rewrite <- app_assoc. simpl. rewrite <- !Permutation_middle. apply perm_swap.
  - split; [intros Hw; simpl; rewrite Ht; by apply bt_insert_wf|]. intros Hw.
    unfold accounted, answers, waiting. rewrite Hr. simpl. rewrite Ht in E |- *.
    rewrite (tags_insert _ _ _ Hw), (bt_remove_id _ _ E). by rewrite <- Permutation_middle.
Qed.

Lemma attempt_framed times task fetched self :
  framed self (attempt_completion clock times task fetched self).1.
Proof.
  unfold attempt_completion, complete_profile_before_deadline.
  destruct fetched; [destruct (_ >=? _); [done|]|]; apply run_async_framed.
Qed.

Lemma apply_completion_framed times task result self :
  framed self (apply_completion clock times task result self).1.
Proof.
  unfold apply_completion.
  set (fetched := if _ >=? _ then _ else result).
  pose proof (attempt_framed times task fetched self) as Hc.
  destruct (attempt_completion clock times task fetched self) as [self1 completed]. simpl in Hc.
  destruct (if _ || _ then Err command_timed_out else completed) as [s|error]; simpl; [done|].
  destruct (is_some_and _ _); [|done]. etrans; [exact Hc|]. apply run_async_framed.
Qed.

Lemma complete_task_accounts times id result self :
  accounts [] self (complete_profile_task clock times id result self).
Proof.
  unfold complete_profile_task. destruct (bt_get id (ra_profile_tasks self)) as [task|] eqn:E; [|done].
  set (self1 := set_tasks (bt_remove id (ra_profile_tasks self)) self).
  assert (exists self2 r, (if (tc_session_generation (pt_correlation task) ==? ra_session_generation self1)
      && binding_matches (pt_correlation task) (ra_published_foreground_session self1)
      && is_current_active (tc_identity (pt_correlation task)) (core_of self1)
    then apply_completion clock times task result self1
    else (self1, CommandResult.Completed (RuntimeCommandValue.Snapshot (core_of self1)))) = (self2, r) /\
    framed self1 self2) as (self2 & r & -> & Hf).
  { destruct (_ && _ && _); [|by eexists _, _].
    pose proof (apply_completion_framed times task result self1).
    destruct (apply_completion _ _ _ _ _). eauto. }
  split; [intros Hw; simpl; rewrite (fr_tasks _ _ Hf); by apply bt_remove_wf|]. intros Hw.
  unfold accounted, answers, waiting. simpl. rewrite fmap_app, (fr_replies _ _ Hf), (fr_tasks _ _ Hf).
  simpl. rewrite (tags_remove _ _ _ E), <- app_assoc. done.
Qed.

Lemma turn_accounts event self : accounts (heard event) self (turn clock event self).1.
Proof.
  destruct event as [times envelope|times id result]; simpl.
  2: { destruct (_ =? _)%nat; [done|]. apply complete_task_accounts. }
  unfold handle_command. destruct (is_SubscribeChanges _ && _); [done|].
  destruct (preflight _ _ _ _) as [result|]; [apply send_accounts|].
  destruct (ce_command envelope) eqn:Ec; try apply run_command_accounts; [apply start_task_accounts|].
  pose proof (close_accounts (cm_adapter_close times) self) as Hc.
  destruct (close_actor _ _) as [self1 result]. simpl in *.
  eapply accounts_from; [exact Hc|apply send_accounts].
Qed.

(** The events a run handles: all of them, or up to the one it breaks off with. *)
Fixpoint handled (events : list RuntimeEvent) (self : RuntimeActor) : list RuntimeEvent :=
  match events with
  | [] => []
  | event :: events =>
      event :: match turn clock event self with
               | (self, true) => handled events self
               | (_, false) => []
               end
  end.

Lemma turns_accounts events self :
  bt_wf (ra_profile_tasks self) ->
  let self' := (turns clock events self).1 in
  bt_wf (ra_profile_tasks self') /\
  accounted self' ≡ₚ (handled events self ≫= heard) ++ accounted self.
Proof.
  revert self. induction events as [|event events IH]; intros self Hw; simpl; [done|].
  pose proof (turn_accounts event self) as [Hw1 Ha]. specialize (Hw1 Hw). specialize (Ha Hw).
  destruct (turn clock event self) as [self1 []]; simpl in *.
  - destruct (IH self1 Hw1) as [Hw2 ->]. split; [done|]. rewrite Ha. rewrite !app_assoc.
    f_equiv. apply Permutation_app_comm.
  - by rewrite app_nil_r.
Qed.

Lemma start_run demo installation incarnation row (w : World) self :
  start clock demo installation incarnation row w = Ok self ->
  exists runtime boot_world s, persistent_bootstrap clock w = (boot_world, Ok s) /\
    incarnation = Ok runtime /\
    ra_demo_profile self = demo /\
    w_core (ra_world self) = w_core boot_world /\
    w_database (ra_world self) = w_database boot_world /\
    w_secrets (ra_world self) = w_secrets boot_world /\
    ra_fence self = begin_hub_runtime runtime (clock (w_ticks boot_world)) row /\
    ra_lifecycle self = RuntimeLifecycle.Ready /\
    ra_session_generation self = SessionGeneration_initial /\
    ra_hub_runtime_incarnation self = runtime /\
    ra_published_session_generation self = SessionGeneration_initial /\
    ra_published_snapshot self = settled_snapshot self /\
    ra_profile_tasks self = [] /\
    ra_changes self = {| st_changes := OrderedSnapshotChanges_new (settled_snapshot self);
                         st_links := ∅ |} /\
    ra_published_foreground_session self = None /\ ra_generated_key_stage self = None /\
    ra_replies self = [].
Proof.
  unfold start. simpl. destruct (persistent_bootstrap clock w) as [w1 [s|[e|]]]; simpl; [|done..].
  destruct installation as [[]|]; simpl; [|done]. destruct incarnation as [runtime|]; simpl; [|done].
  destruct (default Works _); simpl; try done. intros [= <-]. exists runtime, w1, s. by split_and!.
Qed.

(** C22: every command is answered exactly once.  From a start, whatever commands
    and completions arrive and whatever fails while they are handled, once the
    loop has ended the receipts sent are, as channels and request identifiers,
    those of the commands it handled, each with its own identifier and none
    twice; at any moment before that, a command handled is answered or waits as
    the task of a refresh. *)
Theorem commands_answered_once demo installation incarnation row w self events :
  start clock demo installation incarnation row w = Ok self ->
  let reached := (turns clock events self).1 in
  answers reached ++ waiting reached ≡ₚ (handled events self ≫= heard) /\
  waiting (run clock events self) = [] /\
  answers (run clock events self) ≡ₚ (handled events self ≫= heard).
Proof.
  intros Hs%start_run. destruct Hs as (? & ? & ? & _ & _ & _ & _ & _ & _ & _ & _ & _ & _ & _ & _ & Ht & _ & _ & _ & Hr).
  destruct (turns_accounts events self) as [Hw Ha]; [by rewrite Ht; constructor|].
  assert (accounted self = []) as E by (unfold accounted, answers, waiting; by rewrite Hr, Ht).
  rewrite E, app_nil_r in Ha. split; [done|].
  destruct (cancel_accounts None (turns clock events self).1) as [_ Hc]. specialize (Hc Hw).
  assert (waiting (run clock events self) = []) as Hn by (unfold run, waiting; by rewrite cancel_run).
  split; [done|]. unfold run in *. unfold accounted in Hc at 1. rewrite Hn, app_nil_r in Hc.
  by rewrite Hc.
Qed.

(** ** Publication *)

Definition reaches (a b : AppSnapshot) : Prop := a = b \/ newer b a.
#[local] Instance reaches_preorder : PreOrder reaches.
Proof.
  split; [by left|]. intros a b c [->|Hab] [->|Hbc]; [by left|by right..|]. right. by etrans.
Qed.

(** What holds all through a turn: what is published is behind what the core
    shows or equal to it, and the change stream is where the publication is. *)
Record publishing (self : RuntimeActor) : Prop := {
  pb_core : core_ok (w_core (ra_world self));
  pb_generation : ra_published_session_generation self = ra_session_generation self;
  pb_ahead : reaches (ra_published_snapshot self) (settled_snapshot self);
  pb_stream : oc_closed (st_changes (ra_changes self)) = false ->
    oc_latest (st_changes (ra_changes self)) = ra_published_snapshot self
}.
Definition publishes (self self' : RuntimeActor) : Prop :=
  publishing self ->
  publishing self' /\ reaches (ra_published_snapshot self) (ra_published_snapshot self').
#[local] Instance publishes_preorder : PreOrder publishes.
Proof.
  split; [by split|]. intros a b c Hab Hbc Ha. destruct (Hab Ha) as [Hb ?].
  destruct (Hbc Hb). split; [done|]. by etrans.
Qed.

Lemma settled_reaches (c c' : AppCore) (incarnation : HubRuntimeIncarnation) g g' ops :
  core_ok c -> c' = core_run ops c -> raw g <= raw g' ->
  reaches (with_runtime_session (snapshot c)
             {| rsb_incarnation := incarnation; rsb_generation := g |})
          (with_runtime_session (snapshot c')
             {| rsb_incarnation := incarnation; rsb_generation := g' |}).
Proof.
  intros Hc -> Hg. destruct (core_run_later ops c Hc) as [Hs|Hs].
  - rewrite Hs. destruct (decide (raw g = raw g')) as [E|E]; [by apply raw_inj in E as ->; left|].
    right. apply newer_iff. simpl. split_and!; [lia|done|lia|right; simpl; lia].
  - right. apply newer_iff. simpl. split_and!; [lia|done|lia|by left].
Qed.

Lemma evolved_publishes self self' ops :
  w_core (ra_world self') = core_run ops (w_core (ra_world self)) ->
  ra_hub_runtime_incarnation self' = ra_hub_runtime_incarnation self ->
  raw (ra_session_generation self) <= raw (ra_session_generation self') ->
  (ra_published_session_generation self = ra_session_generation self ->
   ra_published_session_generation self' = ra_session_generation self') ->
  ra_published_snapshot self' = ra_published_snapshot self ->
  (oc_closed (st_changes (ra_changes self')) = false ->
   oc_closed (st_changes (ra_changes self)) = false /\
   oc_latest (st_changes (ra_changes self')) = oc_latest (st_changes (ra_changes self))) ->
  publishes self self'.
Proof.
  intros Hc Hi Hg Hpg Hp Hs [Hok Hgen Hah Hst]. rewrite Hp. split; [|by left]. constructor.
  - rewrite Hc. by apply core_run_ok.
  - auto.
  - rewrite Hp. etrans; [exact Hah|]. unfold settled_snapshot, core_of. rewrite Hi.
    by apply (settled_reaches _ _ _ _ _ ops).
  - intros Hcl. destruct (Hs Hcl) as [Hcl' ->]. rewrite Hp. auto.
Qed.

(** Changes elsewhere than in the core, the generation, or what is published. *)
Lemma same_publishes self self' :
  w_core (ra_world self') = w_core (ra_world self) ->
  ra_hub_runtime_incarnation self' = ra_hub_runtime_incarnation self ->
  ra_session_generation self' = ra_session_generation self ->
  ra_published_session_generation self' = ra_published_session_generation self ->
  ra_published_snapshot self' = ra_published_snapshot self ->
  ra_changes self' = ra_changes self -> publishes self self'.
Proof.
  intros Hc Hi Hg Hpg Hp Hs. apply (evolved_publishes self self' []); try done.
  - by rewrite Hg.
  - by rewrite Hpg, Hg.
  - by rewrite Hs.
Qed.

Lemma publish_latest s stream :
  let stream' := publish s stream in
  oc_closed (st_changes stream') = oc_closed (st_changes stream) /\
  (oc_closed (st_changes stream) = false ->
   oc_latest (st_changes stream') =
     if is_newer_than s (oc_latest (st_changes stream)) then s else oc_latest (st_changes stream)).
Proof.
  unfold publish. destruct (retain_links _ _ _) as [links subscribers]. simpl.
  destruct (oc_closed (st_changes stream)) eqn:Ec; simpl; [by rewrite ?Ec|].
  destruct (is_newer_than _ _); simpl; [by destruct (retain_links _ _ _)|by rewrite ?Ec].
Qed.

Lemma publish_publishes self : publishes self (publish_snapshot self).
Proof.
  intros [Hok Hgen Hah Hst]. split; [|exact Hah]. constructor; [done|done|by left|].
  unfold publish_snapshot. simpl. pose proof (publish_latest (settled_snapshot self) (ra_changes self)) as [-> Hl].
  intros Hc. rewrite (Hl Hc), (Hst Hc). destruct Hah as [E|Hn].
  { rewrite <- E. clear Hl. by destruct (is_newer_than _ _). }
  unfold newer in Hn. by rewrite Hn.
Qed.

Lemma run_async_publishes {A} T (m : io A) self :
  evolves T m -> publishes self (run_async m self).1.
Proof.
  intros Hm. destruct (Hm (ra_world self)) as (ops & _ & Hw).
  pose proof (run_async_framed m self) as Hf. unfold run_async in *.
  destruct (m (ra_world self)) as [w r]. simpl in *. by apply (evolved_publishes _ _ ops).
Qed.
Lemma run_core_publishes {A} T (m : stm AppCore SafeError A) self :
  evolves T (core m) -> publishes self (run_core m self).1.
Proof.
  intros Hm. destruct (Hm (ra_world self)) as (ops & _ & Hw). unfold run_core, core in *.
  destruct (m _) as [c r]. simpl in *. by apply (evolved_publishes _ _ ops).
Qed.

Lemma cancel_publishes s self : publishes self (cancel_profile_tasks s self).
Proof. rewrite cancel_run. by apply same_publishes. Qed.

Lemma fence_framed {A} row (t : result (option HubRuntimeSession * A) SafeError) self :
  let self' := (fence_transaction row t self).1 in
  ra_hub_runtime_incarnation self' = ra_hub_runtime_incarnation self /\
  ra_session_generation self' = ra_session_generation self.
Proof. unfold fence_transaction. by destruct (next_fault _) as [[| |[]|[]] w], t as [[? ?]|?]. Qed.

Lemma fence_publishes {A} row (t : result (option HubRuntimeSession * A) SafeError) self :
  publishes self (fence_transaction row t self).1.
Proof.
  unfold fence_transaction. destruct (next_fault (ra_world self)) as [fault w] eqn:E.
  unfold next_fault in E. injection E as Ef Ew.
  assert (w_core w = w_core (ra_world self)) as Hc by (by rewrite <- Ew).
  destruct fault as [| |[]|[]], t as [[? ?]|?]; by apply same_publishes.
Qed.

Lemma advance_publishes self : publishes self (advance_session_generation clock self).1.
Proof.
  unfold advance_session_generation. destruct (SessionGeneration_next _) as [next|] eqn:E.
  - unfold clock_now, advance_hub_session. simpl. rewrite E. simpl.
    match goal with |- context [fence_transaction ?r ?t ?s] =>
      pose proof (fence_publishes r t s) as Hf; pose proof (fence_framed r t s) as Hfr;
      destruct (fence_transaction r t s) as [self1 [g|e]] end; simpl in Hf, Hfr.
    2: { simpl. etrans; [|exact Hf]. by apply same_publishes. }
    etrans; [etrans; [|exact Hf]; by apply same_publishes|].
    destruct (negb _); [done|]. simpl. etrans; [|apply cancel_publishes].
    apply (evolved_publishes _ _ []); try done. simpl. destruct Hfr as [_ ->]. simpl.
    apply counter_next_Some in E. lia.
  - simpl. etrans; [|apply cancel_publishes]. by apply same_publishes.
Qed.

Lemma synchronize_publishes self : publishes self (synchronize_foreground_session self).
Proof.
  unfold synchronize_foreground_session.
  destruct (foreground_binding self) as [[?|?]|]; by apply same_publishes.
Qed.

Lemma sign_out_publishes self : publishes self (run_core AppCore_sign_out self).1.
Proof. apply (run_core_publishes (fun _ => True)), evolves_sign_out. done. Qed.

Lemma change_session_publishes result self : publishes self (change_session clock result self).1.
Proof.
  unfold change_session. pose proof (advance_publishes self) as Ha.
  destruct (advance_session_generation clock self) as [self1 [[]|e]]; simpl in *; (etrans; [exact Ha|]).
  - apply synchronize_publishes.
  - pose proof (sign_out_publishes (fail_lifecycle e self1)) as Hf.
    destruct (run_core AppCore_sign_out (fail_lifecycle e self1)) as [self2 [?|?]]; simpl in *;
      (etrans; [|apply publish_publishes]); (etrans; [|apply cancel_publishes]);
      (etrans; [|apply (same_publishes self2); done]); (etrans; [|exact Hf]); by apply same_publishes.
Qed.

Lemma refresh_publishes plan fetched self :
  publishes self (run_async (complete_profile_refresh clock plan fetched) self).1.
Proof. eapply run_async_publishes, complete_refresh_evolves. Qed.

Lemma interrupt_publishes self : publishes self (interrupt_refreshes clock self).
Proof.
  unfold interrupt_refreshes. etrans; [|apply publish_publishes]. etrans; [|apply cancel_publishes].
  destruct (find _ _) as [task|]; [apply refresh_publishes|done].
Qed.

Lemma close_publishes r self : publishes self (close_actor r self).1.
Proof.
  unfold close_actor. destruct (begin_shutdown _) as [gate [[]|e]]; [|by apply same_publishes].
  simpl. set (self1 := cancel_profile_tasks _ _).
  assert (publishes self self1) as Hc.
  { etrans; [|apply cancel_publishes]. by apply same_publishes. }
  destruct r as [[]|e]; simpl; [|etrans; [exact Hc|]; by apply same_publishes].
  destruct (finish_shutdown _) as [gate' r']. simpl. etrans; [exact Hc|].
  by apply (evolved_publishes _ _ []).
Qed.

Lemma subscribe_same n s :
  oc_closed (st_changes (subscribe n s).1) = oc_closed (st_changes s) /\
  oc_latest (st_changes (subscribe n s).1) = oc_latest (st_changes s).
Proof.
  unfold subscribe. destruct (oc_closed (st_changes s)) eqn:Ec; [done|].
  destruct (_ =? 0); [done|]. destruct (u64_checked_add _ _); [|done].
  by destruct (try_send _ _) as [? []].
Qed.

Lemma execute_publishes context command self :
  publishes self (execute_command clock context command self).1.
Proof.
  destruct command; unfold execute_command, clock_now; try done.
  - pose proof (run_async_publishes _ _ self (generate_evolves clock durable_request expected_revision)) as Hf.
    by destruct (run_async _ _).
  - destruct (stage_begin _ _ _ _ _). by apply same_publishes.
  - destruct (stage_take _ _ _) as [stage [staged|e]]; [|by apply same_publishes].
    set (self1 := set_stage _ _).
    assert (evolves no_activation (commit_generated_key_stage clock durable_request staged)) as He.
    { apply evolves_bind; [apply commit_staged_evolves|]. intros ?. apply evolves_core_snapshot. }
    pose proof (run_async_publishes _ _ self1 He) as Hf.
    destruct (run_async _ self1). etrans; [|exact Hf]. by apply same_publishes.
  - by apply same_publishes.
  - pose proof (run_async_publishes _ _ self (import_evolves clock durable_request expected_revision input)) as Hf.
    by destruct (run_async _ _).
  - pose proof (run_async_publishes _ _ self (select_evolves public_key)) as Hf.
    by destruct (run_async _ _).
  - pose proof (run_async_publishes _ _ self (activate_evolves clock public_key)) as Hf.
    by destruct (run_async _ _).
  - pose proof (sign_out_publishes self) as Hf. by destruct (run_core _ _).
  - set (self1 := set_world _ self).
    assert (evolves (fun _ => True) (core (issue_removal_token public_key (clock (w_ticks (ra_world self))))))
      as He.
    { intros w. exists [OIssue public_key (clock (w_ticks (ra_world self)))].
      split; [by repeat constructor|]. unfold core. simpl. by destruct (issue_removal_token _ _ _). }
    pose proof (run_core_publishes _ _ self1 He) as Hf.
    destruct (run_core _ self1). etrans; [|exact Hf]. by apply same_publishes.
  - pose proof (run_async_publishes _ _ self (removal_evolves clock durable_request token)) as Hf.
    by destruct (run_async _ _).
  - pose proof (subscribe_same capacity (ra_changes self)) as [Hc Hl].
    destruct (subscribe _ _) as [changes r]. simpl in *. apply (evolved_publishes _ _ []); try done.
    simpl. by rewrite Hc, Hl.
  - by apply (evolved_publishes _ _ []).
Qed.

(** At the boundary of a turn, what is published is what the core shows. *)
Definition settled (self : RuntimeActor) : Prop :=
  ra_published_snapshot self = settled_snapshot self.
(** A turn, or a part of one, that ends settled if it began so. *)
Definition serves (self self' : RuntimeActor) : Prop :=
  publishing self -> settled self ->
  publishing self' /\ settled self' /\
  reaches (ra_published_snapshot self) (ra_published_snapshot self').
#[local] Instance serves_preorder : PreOrder serves.
Proof.
  split; [by split|]. intros a b c Hab Hbc Ha Hsa. destruct (Hab Ha Hsa) as (Hb & Hsb & ?).
  destruct (Hbc Hb Hsb) as (? & ? & ?). split_and!; [done|done|]. by etrans.
Qed.

Lemma serves_publish self self' : publishes self self' -> serves self (publish_snapshot self').
Proof.
  intros Hp Ha _. destruct (Hp Ha) as [Hb Hr]. destruct (publish_publishes self' Hb) as [Hc Hr'].
  split_and!; [done|done|]. by etrans.
Qed.
Lemma serves_same self self' :
  publishes self self' -> w_core (ra_world self') = w_core (ra_world self) ->
  ra_hub_runtime_incarnation self' = ra_hub_runtime_incarnation self ->
  ra_session_generation self' = ra_session_generation self ->
  ra_published_snapshot self' = ra_published_snapshot self -> serves self self'.
Proof.
  intros Hp Hc Hi Hg Hs Ha Hse. destruct (Hp Ha) as [Hb Hr]. split_and!; [done| |done].
  unfold settled, settled_snapshot, core_of in *. by rewrite Hs, Hc, Hi, Hg.
Qed.
Lemma send_serves reply id result self : serves self (send reply id result self).
Proof. apply serves_same; try done. by apply same_publishes. Qed.

Lemma start_task_serves context reply self : serves self (start_profile_task context reply self).
Proof.
  unfold start_profile_task. destruct (as_active_identity _) as [active|]; [|apply send_serves].
  destruct (option_filter _ _) as [foreground|]; [|apply send_serves].
  destruct (_ <=? _)%nat; [apply send_serves|].
  pose proof (run_core_publishes _ _ self begin_refresh_evolves) as Hp.
  unfold run_core, begin_profile_refresh, stm_bind, stm_get, stm_ret in *.
  destruct (as_active_identity _) as [active'|]; simpl in *.
  2: { etrans; [|apply send_serves]. by apply serves_same. }
  destruct (apply_transition _ _) as [c [loading|e]] eqn:Et; simpl in *.
  2: { etrans; [|apply send_serves]. intros Ha Hs. destruct (Hp Ha) as [Hb Hr].
       split_and!; [done| |done]. unfold settled, settled_snapshot, core_of in *. simpl. rewrite Hs.
       f_equal. unfold apply_transition in Et.
       destruct (StateMachine_apply _ _ _) as [m [?|?]]; [done|]. by injection Et as <- _. }
  set (plan := {| pp_public_key := _ |}).
  etrans; [by apply serves_publish|].
  destruct (bt_get (cc_request_id context) _) as [previous|];
    [|apply serves_same; try done; by apply same_publishes].
  etrans; [|apply (serves_same _ (cancel_profile_tasks None _)); [apply cancel_publishes|..];
            by rewrite cancel_run].
  etrans; [|apply send_serves]. apply serves_same; try done. by apply same_publishes.
Qed.

Lemma attempt_publishes times task fetched self :
  publishes self (attempt_completion clock times task fetched self).1.
Proof.
  unfold attempt_completion, complete_profile_before_deadline.
  destruct fetched; [destruct (_ >=? _); [done|]|]; apply refresh_publishes.
Qed.

Lemma apply_completion_publishes times task result self :
  publishes self (apply_completion clock times task result self).1.
Proof.
  unfold apply_completion. set (fetched := if _ >=? _ then _ else result).
  pose proof (attempt_publishes times task fetched self) as Hc.
  destruct (attempt_completion clock times task fetched self) as [self1 completed]. simpl in Hc.
  destruct (if _ || _ then Err command_timed_out else completed) as [s|error]; simpl; [done|].
  destruct (is_some_and _ _); [|done]. etrans; [exact Hc|]. apply refresh_publishes.
Qed.

Lemma complete_task_serves times id result self :
  serves self (complete_profile_task clock times id result self).
Proof.
  unfold complete_profile_task. destruct (bt_get id (ra_profile_tasks self)) as [task|] eqn:E; [|done].
  set (self1 := set_tasks (bt_remove id (ra_profile_tasks self)) self).
  assert (publishes self self1) as H1' by by apply same_publishes.
  destruct (_ && _ && _); simpl.
  - pose proof (apply_completion_publishes times task result self1) as Hp.
    destruct (apply_completion _ _ _ _ self1) as [self2 r]. etrans; [|apply send_serves].
    apply serves_publish. by etrans.
  - etrans; [|apply send_serves]. by apply serves_publish.
Qed.

Lemma run_command_serves times context command reply self :
  serves self (run_command clock times context command reply self).
Proof.
  unfold run_command.
  set (self1 := match command with RuntimeCommand.BeginGeneratedKeyStage => _ | _ => self end).
  assert (publishes self self1) as H1'.
  { unfold self1. destruct command; try done. apply interrupt_publishes. }
  pose proof (execute_publishes context command self1) as H2'.
  destruct (execute_command clock context command self1) as [self2 result]. simpl in H2'.
  assert (exists self3 result3, (if changes_session command && is_Completed result
     then change_session clock result self2 else (self2, result)) = (self3, result3) /\
     publishes self2 self3) as (self3 & result3 & -> & H3').
  { destruct (changes_session command && is_Completed result).
    - pose proof (change_session_publishes result self2). destruct (change_session _ _ _). eauto.
    - by exists self2, result. }
  assert (serves self (publish_snapshot self3)) as H4' by (apply serves_publish; by do 2 (etrans; [eassumption|])).
  set (r4 := bind_snapshot_result _ _).
  assert (serves self (send reply (cc_request_id context) r4 (publish_snapshot self3))) as H5'.
  { etrans; [exact H4'|apply send_serves]. }
  destruct r4 as [[]| | | | |]; try exact H5'. destruct (cm_closed_after times); [|exact H5'].
  etrans; [exact H5'|]. apply serves_same; try done. by apply (evolved_publishes _ _ []).
Qed.

Lemma turn_serves event self : serves self (turn clock event self).1.
Proof.
  destruct event as [times envelope|times id result]; simpl.
  2: { destruct (_ =? _)%nat; [done|]. apply complete_task_serves. }
  unfold handle_command. destruct (is_SubscribeChanges _ && _); [done|].
  destruct (preflight _ _ _ _) as [result|]; [apply send_serves|].
  destruct (ce_command envelope) eqn:Ec; try apply run_command_serves; [apply start_task_serves|].
  pose proof (close_publishes (cm_adapter_close times) self) as Hc.
  assert (let self' := (close_actor (cm_adapter_close times) self).1 in
    w_core (ra_world self') = w_core (ra_world self) /\
    ra_hub_runtime_incarnation self' = ra_hub_runtime_incarnation self /\
    ra_session_generation self' = ra_session_generation self /\
    ra_published_snapshot self' = ra_published_snapshot self) as Hs.
  { unfold close_actor. destruct (begin_shutdown _) as [gate [[]|e]]; [|done].
    rewrite cancel_run. destruct (cm_adapter_close times); [|done]. by destruct (finish_shutdown _). }
  destruct (close_actor _ _) as [self1 result]. simpl in *. etrans; [|apply send_serves].
  destruct Hs as (? & ? & ? & ?). by apply serves_same.
Qed.

Lemma turns_serve events self : serves self (turns clock events self).1.
Proof.
  revert self. induction events as [|event events IH]; intros self; simpl; [done|].
  pose proof (turn_serves event self) as Ht. destruct (turn clock event self) as [self1 []]; [|exact Ht].
  simpl in Ht. by etrans.
Qed.

Lemma start_settled demo installation incarnation row relays (w : World) self :
  start clock demo installation incarnation row (set_core (AppCore_new relays) w) = Ok self ->
  publishing self /\ settled self.
Proof.
  intros Hs%start_run.
  destruct Hs as (runtime & w1 & s & Hb & _ & _ & Hc & _ & _ & _ & _ & Hg & Hi & Hpg & Hp & _ & Hch & _).
  split; [|done]. constructor.
  - rewrite Hc. destruct (boot_evolves clock (set_core (AppCore_new relays) w)) as (ops & _ & He).
    rewrite Hb in He. simpl in He. rewrite He. apply core_run_ok, core_ok_new.
  - by rewrite Hg, Hpg.
  - by left.
  - rewrite Hch. intros _. simpl. by rewrite Hp.
Qed.

(** C23: what the runtime publishes is settled and never goes back.  From a start,
    after any turns, whatever failed in them: the published snapshot is what the
    core shows, with the native session's incarnation and generation, and so is
    the last snapshot handed to the change stream until the stream is closed; and
    what is published after more turns is the same snapshot or one that every
    consumer takes for newer. *)
Theorem publication_settled demo installation incarnation row relays w self events more :
  start clock demo installation incarnation row (set_core (AppCore_new relays) w) = Ok self ->
  let reached := (turns clock events self).1 in
  let later := (turns clock more reached).1 in
  ra_published_snapshot reached = settled_snapshot reached /\
  snapshot_ok (ra_published_snapshot reached) /\
  ra_published_session_generation reached = ra_session_generation reached /\
  (oc_closed (st_changes (ra_changes reached)) = false ->
   oc_latest (st_changes (ra_changes reached)) = ra_published_snapshot reached) /\
  (ra_published_snapshot later = ra_published_snapshot reached \/
   is_newer_than (ra_published_snapshot later) (ra_published_snapshot reached) = true).
Proof.
  intros [Hp Hs]%start_settled. destruct (turns_serve events self Hp Hs) as (Hp1 & Hs1 & _).
  destruct (turns_serve more _ Hp1 Hs1) as (_ & _ & Hr). split_and!; [done| | | |].
  - rewrite Hs1. destruct (pb_core _ Hp1) as (_ & _ & (Hok & _) & Hm).
    unfold settled_snapshot, core_of. rewrite Hm. exact Hok.
  - apply Hp1.
  - apply Hp1.
  - destruct Hr as [E|Hn]; [by left|by right].
Qed.
End Serving.

(** ** Closed examples *)

#[local] Existing Instance sample_transport.
#[local] Existing Instance memory_store.
#[local] Existing Instance sample_keys.
#[local] Existing Instance sample_material.

Abbreviation sample_start_with faults :=
  (start sample_clock true (Ok tt) (Ok sample_hub) None
    (set_core (AppCore_new sample_relays) (empty_world faults))).

(** The actor a start of the empty database yields; the alternative is never taken. *)
Definition sample_actor (faults : list Fault) : RuntimeActor :=
  unwrap_or (sample_start_with faults) {|
      ra_demo_profile := true; ra_world := empty_world faults; ra_fence := None;
      ra_lifecycle := LifecycleGate_opening; ra_session_generation := SessionGeneration_initial;
      ra_hub_runtime_incarnation := sample_hub;
      ra_published_session_generation := SessionGeneration_initial;
      ra_published_snapshot := AppSnapshot_booting; ra_profile_tasks := [];
      ra_changes := {| st_changes := OrderedSnapshotChanges_new AppSnapshot_booting;
                       st_links := ∅ |};
      ra_published_foreground_session := None; ra_generated_key_stage := None;
      ra_replies := [] |}.

(** The command number [n], well before its deadline. *)
Definition sample_request_id (n : nat) : RequestId :=
  default (Refined 1 eq_refl) (RequestId_new (Z.of_nat n)).
Definition sample_command (n : nat) (command : RuntimeCommand) : RuntimeEvent :=
  Command {| cm_now := 0; cm_closed_before := false; cm_closed_after := false;
             cm_adapter_close := Ok tt |}
    {| ce_context := {| cc_request_id := sample_request_id n; cc_expected_revision := None;
                        cc_deadline := 30 |};
       ce_command := command; ce_reply := n |}.
Definition sample_completion (n : nat) (result : result ProfileFetchResult SafeError) : RuntimeEvent :=
  Completion {| ct_start := 1; ct_poll := 1; ct_end := 2 |} (sample_request_id n) result.
Definition sample_import_command (n : nat) (key : Z) : RuntimeEvent :=
  sample_command n (RuntimeCommand.ImportSecretKey (sample_secret key) (sample_request key) key).

(** Two identities are imported and the first is activated. *)
Definition sample_activated : list RuntimeEvent :=
  [sample_import_command 1 1; sample_import_command 2 2;
   sample_command 3 (RuntimeCommand.ActivateIdentity (sample_key 1))].
(** It is refreshed while a snapshot is asked for, and the actor is closed. *)
Definition sample_service : list RuntimeEvent :=
  sample_activated ++
  [sample_command 4 RuntimeCommand.RefreshActiveProfile; sample_command 5 RuntimeCommand.Snapshot;
   sample_completion 4 (Ok {| pf_candidate := None;
                              pf_completeness := RelayFetchCompleteness.Complete |});
   sample_command 6 RuntimeCommand.RefreshActiveProfile; sample_command 7 RuntimeCommand.Close;
   sample_command 8 RuntimeCommand.Snapshot].

Lemma sample_actor_started : sample_start_with [] = Ok (sample_actor []).
Proof. apply is_ok_unwrap_or. vm_compute. reflexivity. Qed.

Lemma commands_answered_once_witness :
  waiting (run sample_clock sample_service (sample_actor [])) = [] /\
  answers (run sample_clock sample_service (sample_actor [])) ≡ₚ
    (fun n => (n, sample_request_id n)) <$> [1; 2; 3; 4; 5; 6; 7]%nat.
Proof.
  pose proof (commands_answered_once sample_clock true (Ok tt) (Ok sample_hub) None
    (set_core (AppCore_new sample_relays) (empty_world [])) (sample_actor []) sample_service) as Hx.
  specialize (Hx sample_actor_started). cbv zeta in Hx. destruct Hx as (_ & Hw & Ha).
  split; [exact Hw|]. etrans; [exact Ha|].
  match goal with |- ?asked ≡ₚ ?l =>
    assert (asked = l) as -> by (vm_cast_no_check (eq_refl l)) end.
  reflexivity.
Defined.

Lemma publication_settled_witness :
  let before := (turns sample_clock sample_activated (sample_actor [])).1 in
  let after := (turns sample_clock [sample_command 4 RuntimeCommand.SignOut] before).1 in
  as_session (ra_published_snapshot before) = SessionState.Active /\
  is_newer_than (ra_published_snapshot after) (ra_published_snapshot before) = true.
Proof.
  intros before after. split; [vm_compute; reflexivity|].
  destruct (publication_settled sample_clock true (Ok tt) (Ok sample_hub) None sample_relays
    (empty_world []) (sample_actor []) sample_activated [sample_command 4 RuntimeCommand.SignOut]
    sample_actor_started) as (_ & _ & _ & _ & [E|E]); [|exact E].
  exfalso. apply (f_equal as_session) in E. revert E. vm_compute. discriminate.
Defined.
