(* ===== verification/Authority.v ===== *)
(** * The authority of hub submissions

    The scope the runtime actor gives a hub submission ([hub_submission_scope])
    and the durable fence that admits it ([require_on]): both name the identity
    that is active, the active identity always has its scope, and a scope of an
    earlier session is refused for good. *)

From Stdlib Require Import Bool ZArith Lia Strings.Byte Strings.String.
From stdpp Require Import base decidable option list numbers strings gmap relations.
From S2P Require Import Prelude Containers Encoding Hub Reference Identity Profile Snapshot Session Core Changes Delivery Database Secrets Durable Recovery Actor Refresh Runtime Serving.

Section Authority.
Context `{RelayTransport, NostrKeys, KeyMaterialProvider, SecretStore}.
Context `{Channels SnapshotChange} (clock : nat -> UnixTimestamp).

Abbreviation io := (io (H2 := H2)).
Abbreviation binding_key b := (nir_public_key (asb_identity b)).

(** ** Who is active after a run *)

(** The same identity as before, or nobody. *)
Definition no_newcomer (c c' : AppCore) : Prop :=
  active_key (snapshot c') = active_key (snapshot c) \/ active_key (snapshot c') = None.
#[local] Instance no_newcomer_preorder : PreOrder no_newcomer.
Proof. split; [by left|]. unfold no_newcomer. intros a b c [-> | E] [-> | E']; auto. Qed.

Lemma evolves_no_newcomer {A} (m : io A) (w : World) :
  evolves no_activation m -> core_ok (w_core w) ->
  core_ok (w_core (m w).1) /\ no_newcomer (w_core w) (w_core (m w).1).
Proof.
  intros Hm Hc. split; [by eapply run_core_ok|].
  destruct (Hm w) as (ops & Ho & ->). by apply core_run_active.
Qed.

(** Preparing an activation does nothing to the core. *)
Lemma prepare_silent key identity : evolves (fun _ => False) (prepare_activation clock key identity).
Proof.
  unfold prepare_activation. repeat (apply evolves_bind; [|intros ?]);
    try apply evolves_secrets_read; try apply evolves_lift; try apply evolves_database;
    try apply evolves_now; try apply evolves_ret.
  destruct a0 as [[? ?] ?]. repeat (apply evolves_bind; [|intros ?]);
    try apply evolves_secrets_read; try apply evolves_lift; try apply evolves_database;
    try apply evolves_now; try apply evolves_ret.
Qed.
Lemma prepare_evolves key identity : evolves no_activation (prepare_activation clock key identity).
Proof.
  intros w. destruct (prepare_silent key identity w) as ([|op ops] & Ho & Hw); [by exists []|].
  by inversion Ho.
Qed.

(** An activation that fails, or is dropped, makes nobody active. *)
Lemma failed_activation_no_newcomer key (w : World) :
  core_ok (w_core w) ->
  let (w', r) := activate_identity clock key w in
  core_ok (w_core w') /\ (forall e, r = Err e -> no_newcomer (w_core w) (w_core w')).
Proof.
  intros Hc. unfold activate_identity.
  assert (forall A B (m : io A) (k : A -> io B) w0, no_newcomer (w_core w) (w_core w0) ->
    core_ok (w_core w0) -> evolves no_activation m ->
    (forall a w1, no_newcomer (w_core w) (w_core w1) -> core_ok (w_core w1) ->
       let (w', r) := k a w1 in
       core_ok (w_core w') /\ (forall e, r = Err e -> no_newcomer (w_core w) (w_core w'))) ->
    let (w', r) := stm_bind m k w0 in
    core_ok (w_core w') /\ (forall e, r = Err e -> no_newcomer (w_core w) (w_core w'))) as Hbind.
  { intros A B m k w0 Hn Hc0 Hm Hk. destruct (evolves_no_newcomer m w0 Hm Hc0) as [Hc1 Hn1].
    unfold stm_bind. destruct (m w0) as [w1 [a|e]]; simpl in *.
    - apply Hk; [by etrans|done].
    - split; [done|]. intros e' _. by etrans. }
  apply Hbind; [done|done|apply evolves_database|]. intros found w1 Hn1 Hc1.
  apply Hbind; [done|done|apply evolves_lift|]. intros identity w2 Hn2 Hc2.
  apply Hbind; [done|done|by apply evolves_transition|]. intros ? w3 Hn3 Hc3.
  apply Hbind; [done|done|apply evolves_attempt, prepare_evolves|].
  intros [active|error] w4 Hn4 Hc4.
  - unfold core. pose proof (core_op_ok _ (OTransition (ActivationSucceeded active)) Hc4) as Hok.
    simpl in Hok. unfold apply_transition in *.
    destruct (StateMachine_apply _ _ _) as [m' [s|e]] eqn:E; simpl in *; (split; [done|]); [done|].
    intros _ _. exact Hn4.
  - apply Hbind; [done|done|by apply evolves_transition|]. intros ? w5 Hn5 Hc5. by split.
Qed.

(** ** The invariant *)

(** What the fence and the foreground binding agree on, also in the middle of a
    change of session. *)
Record fenced (self : RuntimeActor) : Prop := {
  fe_core : core_ok (w_core (ra_world self));
  fe_row : exists row, ra_fence self = Some row /\
    hrs_runtime row = ra_hub_runtime_incarnation self /\
    raw (ra_session_generation self) <= raw (hrs_generation row);
  fe_foreground : forall b, ra_published_foreground_session self = Some b ->
    asb_generation b = ra_session_generation self /\
    exists row, ra_fence self = Some row /\ hrs_generation row = ra_session_generation self /\
      hrs_actor row = Some (binding_key b)
}.

(** The active identity of a running actor is the one in the foreground. *)
Definition attended (self : RuntimeActor) : Prop :=
  ra_lifecycle self = RuntimeLifecycle.Ready ->
  forall key, active_key (core_of self) = Some key ->
  exists b, ra_published_foreground_session self = Some b /\ binding_key b = key.
Definition authorised (self : RuntimeActor) : Prop := fenced self /\ attended self.

(** Steps that keep the fence and the session, and make nobody active. *)
Record quiescent (self self' : RuntimeActor) : Prop := {
  qu_fence : ra_fence self' = ra_fence self;
  qu_generation : ra_session_generation self' = ra_session_generation self;
  qu_incarnation : ra_hub_runtime_incarnation self' = ra_hub_runtime_incarnation self;
  qu_foreground : ra_published_foreground_session self' = ra_published_foreground_session self;
  qu_lifecycle : ra_lifecycle self' = RuntimeLifecycle.Ready -> ra_lifecycle self = RuntimeLifecycle.Ready;
  qu_core : core_ok (w_core (ra_world self)) ->
    core_ok (w_core (ra_world self')) /\ no_newcomer (w_core (ra_world self)) (w_core (ra_world self'))
}.
#[local] Instance quiescent_preorder : PreOrder quiescent.
Proof.
  split.
  - constructor; auto. intros Hc. split; [done|reflexivity].
  - intros a b c [] []. constructor; try congruence; auto.
    intros Hc. destruct (qu_core0 Hc) as [Hc' ?]. destruct (qu_core1 Hc') as [? ?].
    split; [done|]. by etrans.
Qed.

Lemma quiescent_authorised self self' : quiescent self self' -> authorised self -> authorised self'.
Proof.
  intros [Hf Hg Hi Hb Hl Hc] [[Hok Hrow Hfg] Hat]. destruct (Hc Hok) as [Hok' Hn]. split; [constructor|].
  - done.
  - by rewrite Hf, Hg, Hi.
  - by rewrite Hf, Hg, Hb.
  - intros Hr key Hk. rewrite Hb. apply Hat; [auto|].
    destruct Hn as [Hn|Hn]; unfold core_of in *; congruence.
Qed.

Lemma framed_quiescent self self' :
  framed self self' ->
  (core_ok (w_core (ra_world self)) ->
    core_ok (w_core (ra_world self')) /\ no_newcomer (w_core (ra_world self)) (w_core (ra_world self'))) ->
  quiescent self self'.
Proof. intros [] Hc. constructor; try congruence; done. Qed.
Lemma same_quiescent self self' :
  ra_fence self' = ra_fence self -> ra_session_generation self' = ra_session_generation self ->
  ra_hub_runtime_incarnation self' = ra_hub_runtime_incarnation self ->
  ra_published_foreground_session self' = ra_published_foreground_session self ->
  (ra_lifecycle self' = RuntimeLifecycle.Ready -> ra_lifecycle self = RuntimeLifecycle.Ready) ->
  w_core (ra_world self') = w_core (ra_world self) -> quiescent self self'.
Proof. intros ? ? ? ? ? Hc. constructor; try done. rewrite Hc. by split. Qed.

Lemma run_async_quiescent {A} (m : io A) self :
  evolves no_activation m -> quiescent self (run_async m self).1.
Proof.
  intros Hm. apply framed_quiescent; [apply run_async_framed|]. intros Hc.
  pose proof (evolves_no_newcomer m (ra_world self) Hm Hc) as Hn. unfold run_async.
  by destruct (m (ra_world self)).
Qed.
Lemma run_core_quiescent {A} (m : stm AppCore SafeError A) self :
  evolves no_activation (core m) -> quiescent self (run_core m self).1.
Proof.
  intros Hm. apply framed_quiescent; [apply run_core_framed|]. intros Hc.
  pose proof (evolves_no_newcomer (core m) (ra_world self) Hm Hc) as Hn. unfold run_core, core in *.
  by destruct (m _).
Qed.
Lemma publish_quiescent self : quiescent self (publish_snapshot self).
Proof. by apply same_quiescent. Qed.
Lemma cancel_quiescent s self : quiescent self (cancel_profile_tasks s self).
Proof. rewrite cancel_run. by apply same_quiescent. Qed.
Lemma refresh_quiescent plan fetched self :
  quiescent self (run_async (complete_profile_refresh clock plan fetched) self).1.
Proof. apply run_async_quiescent, complete_refresh_evolves. Qed.

(** ** Changing the session *)

Lemma fence_transaction_run {A} (row : option HubRuntimeSession)
    (t : result (option HubRuntimeSession * A) SafeError) self :
  row = ra_fence self ->
  let (self', r) := fence_transaction row t self in
  ra_session_generation self' = ra_session_generation self /\
  ra_hub_runtime_incarnation self' = ra_hub_runtime_incarnation self /\
  ra_published_foreground_session self' = ra_published_foreground_session self /\
  ra_lifecycle self' = ra_lifecycle self /\
  w_core (ra_world self') = w_core (ra_world self) /\
  match r with
  | Ok a => t = Ok (ra_fence self', a)
  | Err _ => ra_fence self' = ra_fence self \/ exists a, t = Ok (ra_fence self', a)
  end.
Proof.
  intros ->. unfold fence_transaction. destruct (next_fault (ra_world self)) as [fault w] eqn:E.
  unfold next_fault in E. injection E as Ef Ew. rewrite <- Ew. clear Ef Ew.
  destruct fault as [| |[]|[]], t as [[row a]|e]; simpl; eauto 8.
Qed.

(** After the fence: it is ahead of the session or names whoever is active in it. *)
Lemma advance_session_run self :
  fenced self ->
  let (self', r) := advance_session_generation clock self in
  core_ok (w_core (ra_world self')) /\
  w_core (ra_world self') = w_core (ra_world self) /\
  (exists row, ra_fence self' = Some row /\ hrs_runtime row = ra_hub_runtime_incarnation self' /\
     raw (ra_session_generation self') <= raw (hrs_generation row)) /\
  match r with
  | Ok _ => exists row, ra_fence self' = Some row /\
      hrs_generation row = ra_session_generation self' /\
      hrs_actor row = active_key (core_of self') /\
      ra_lifecycle self' = ra_lifecycle self
  | Err _ => True
  end.
Proof.
  intros [Hok (row & Hrow & Hrt & Hle) _]. unfold advance_session_generation.
  destruct (SessionGeneration_next _) as [next|] eqn:E.
  2: { rewrite cancel_run. simpl. split_and!; [done|done|by exists row|done]. }
  unfold clock_now, advance_hub_session. simpl. rewrite E. simpl.
  set (self1 := set_world (tick (ra_world self)) self).
  set (t := advance_row _ _ _ _ _ _).
  pose proof (fence_transaction_run (ra_fence self) t self1 eq_refl) as Ht.
  destruct (fence_transaction (ra_fence self) t self1) as [self2 r].
  destruct Ht as (Hg & Hi & Hb & Hl & Hc & Ht). simpl in Hg, Hi, Hb, Hl, Hc, Ht.
  apply counter_next_Some in E.
  assert (forall row' g, t = Ok (row', g) -> g = next /\ exists row1, row' = Some row1 /\
    hrs_runtime row1 = ra_hub_runtime_incarnation self /\ hrs_generation row1 = next /\
    hrs_actor row1 = active_key (core_of self)) as Hrun.
  { intros row' g. unfold t, advance_row. rewrite Hrow. destruct (_ && _); [|done].
    intros [= <- <-]. split; [done|]. by eexists. }
  assert (exists row', ra_fence self2 = Some row' /\
    hrs_runtime row' = ra_hub_runtime_incarnation self2 /\
    raw (ra_session_generation self2) <= raw (hrs_generation row')) as Hrow2.
  { assert (ra_fence self2 = ra_fence self \/ exists g, t = Ok (ra_fence self2, g)) as [->|(g & Hg')].
    { destruct r; [right; by eexists|exact Ht]. }
    - exists row. by rewrite Hi, Hg.
    - destruct (Hrun _ _ Hg') as (_ & row1 & -> & Hr1 & Hg1 & _). exists row1.
      rewrite Hi, Hg, Hg1. split_and!; [done|done|lia]. }
  destruct r as [g|e]; simpl.
  2: { rewrite Hc. by split_and!. }
  destruct (Hrun _ _ Ht) as (-> & row1 & Hf & Hr1 & Hg1 & Ha1). rewrite bool_decide_true by done. simpl.
  rewrite cancel_run. simpl. rewrite Hc, Hf. split_and!; [done|done| |].
  - exists row1. rewrite Hg1, Hi. by split_and!.
  - exists row1. split_and!; [done|done| |done]. rewrite Ha1. unfold core_of. simpl. by rewrite Hc.
Qed.

Lemma foreground_binding_run self :
  match foreground_binding self with
  | None => active_key (core_of self) = None
  | Some (Ok b) => asb_generation b = ra_session_generation self /\
      active_key (core_of self) = Some (binding_key b)
  | Some (Err _) => True
  end.
Proof.
  unfold foreground_binding, active_key. destruct (as_active_identity _) as [a|]; simpl; [|done].
  destruct (NostrIdentityReference_derive _) as [ref|] eqn:E; simpl; [|done].
  apply NostrIdentityReference_derive_key in E. unfold ActiveSessionBinding_new.
  destruct (negb _); [done|]. simpl. by rewrite E.
Qed.

Lemma change_session_authorised result self :
  fenced self -> authorised (change_session clock result self).1.
Proof.
  intros Hfe. unfold change_session. pose proof (advance_session_run self Hfe) as Ha.
  destruct (advance_session_generation clock self) as [self1 [[]|e]];
    destruct Ha as (Hok & Hc & Hrow & Ha); simpl.
  - destruct Ha as (row & Hf & Hg & Hact & _). unfold synchronize_foreground_session.
    pose proof (foreground_binding_run self1) as Hb.
    destruct (foreground_binding self1) as [[b|e]|].
    + destruct Hb as [Hbg Hbk]. split; [constructor; simpl; [done|exact Hrow|]|].
      * intros b' [= <-]. split; [done|]. exists row. by rewrite Hact.
      * intros _ key Hk. exists b. split; [done|]. unfold core_of in *. simpl in Hk. congruence.
    + split; [constructor; simpl; [done|exact Hrow|done]|]. by intros Hl.
    + split; [constructor; simpl; [done|exact Hrow|done]|]. intros _ key Hk.
      unfold core_of in *. simpl in Hk. congruence.
  - pose proof (run_core_framed AppCore_sign_out (fail_lifecycle e self1)) as Hf.
    destruct (run_core_quiescent AppCore_sign_out (fail_lifecycle e self1)) as [_ _ _ _ _ Hq].
    { by apply evolves_sign_out. }
    destruct (Hq Hok) as [Hok2 _].
    destruct (run_core AppCore_sign_out (fail_lifecycle e self1)) as [self2 [s|e2]]; simpl in *;
      destruct Hf as [_ Hf2 Hl2 Hg2 Hi2 _ _ _ _ _]; simpl in *; rewrite cancel_run;
      (split; [constructor; simpl; [done|by rewrite Hf2, Hi2, Hg2|done]|]);
      intros Hl; simpl in Hl; [|done]. by rewrite Hl2 in Hl.
Qed.

(** ** Turns *)

Lemma execute_quiescent context command self :
  core_ok (w_core (ra_world self)) ->
  let (self', result) := execute_command clock context command self in
  core_ok (w_core (ra_world self')) /\
  (changes_session command && is_Completed result = false -> quiescent self self').
Proof.
  intros Hok. destruct command; unfold execute_command, clock_now; simpl;
    try (match goal with |- context [run_async ?m ?s] =>
      assert (quiescent s (run_async m s).1) as Hq;
      [apply run_async_quiescent;
       first [apply generate_evolves|apply import_evolves|apply select_evolves|apply removal_evolves]|];
      destruct (run_async m s) as [self' r]; simpl in *; (split; [by apply Hq|done]) end);
    try (split; [done|]; intros _; done).
  - destruct (stage_begin _ _ _ _ _). simpl. split; [done|]. intros _. by apply same_quiescent.
  - destruct (stage_take _ _ _) as [stage [staged|e]]; simpl;
      [|split; [done|]; intros _; by apply same_quiescent].
    set (self1 := set_stage _ _).
    assert (quiescent self1 (run_async (commit_generated_key_stage clock durable_request staged) self1).1) as Hq.
    { apply run_async_quiescent, evolves_bind; [apply commit_staged_evolves|]. intros ?.
      apply evolves_core_snapshot. }
    destruct (run_async _ self1) as [self2 r]. simpl in *. split; [by apply Hq|]. intros _.
    etrans; [|exact Hq]. by apply same_quiescent.
  - pose proof (failed_activation_no_newcomer public_key (ra_world self) Hok) as Hf.
    pose proof (run_async_framed (activate_identity clock public_key) self) as Hfr.
    unfold run_async in *. destruct (activate_identity clock public_key (ra_world self)) as [w r].
    destruct Hf as [Hok' Hn]. simpl in *. split; [done|]. intros Hr. apply framed_quiescent; [done|].
    intros _. split; [done|]. destruct r as [s|e]; [done|]. by apply (Hn e).
  - assert (quiescent self (run_core AppCore_sign_out self).1) as Hq
      by (apply run_core_quiescent; by apply evolves_sign_out).
    destruct (run_core _ self) as [self1 r]. simpl in *. by split; [apply Hq|].
  - set (self1 := set_world _ self).
    assert (quiescent self1 (run_core (issue_removal_token public_key (clock (w_ticks (ra_world self)))) self1).1)
      as Hq.
    { apply run_core_quiescent. intros w. exists [OIssue public_key (clock (w_ticks (ra_world self)))].
      split; [by repeat constructor|]. unfold core. simpl. by destruct (issue_removal_token _ _ _). }
    destruct (run_core _ self1) as [self2 r]. simpl in *. split; [by apply Hq|]. intros _.
    etrans; [|exact Hq]. by apply same_quiescent.
  - destruct (subscribe _ _). simpl. split; [done|]. intros _. by apply same_quiescent.
Qed.

Lemma interrupt_quiescent self : quiescent self (interrupt_refreshes clock self).
Proof.
  unfold interrupt_refreshes. etrans; [|apply publish_quiescent]. etrans; [|apply cancel_quiescent].
  destruct (find _ _) as [task|]; [apply refresh_quiescent|done].
Qed.

Lemma run_command_authorised times context command reply self :
  authorised self -> authorised (run_command clock times context command reply self).
Proof.
  intros Ha. unfold run_command.
  set (self1 := match command with RuntimeCommand.BeginGeneratedKeyStage => _ | _ => self end).
  assert (authorised self1) as Ha1.
  { unfold self1. destruct command; try done.
    eapply quiescent_authorised; [apply interrupt_quiescent|done]. }
  pose proof (execute_quiescent context command self1 (fe_core _ (proj1 Ha1))) as Hx.
  pose proof (execute_framed clock context command self1) as Hf.
  destruct (execute_command clock context command self1) as [self2 result]. destruct Hx as [Hok2 Hq].
  assert (exists self3 result3, (if changes_session command && is_Completed result
     then change_session clock result self2 else (self2, result)) = (self3, result3) /\
     authorised self3) as (self3 & result3 & -> & Ha3).
  { destruct (changes_session command && is_Completed result).
    - assert (fenced self2) as Hfe.
      { destruct Ha1 as [[_ Hrow Hfg] _]. destruct Hf as [_ F1 F2 F3 F4 _ _ _ F5 _]. simpl in *.
        constructor; [done|by rewrite F1, F3, F4|by rewrite F1, F3, F5]. }
      pose proof (change_session_authorised result self2 Hfe).
      destruct (change_session _ _ _). eauto.
    - exists self2, result. split; [done|]. eapply quiescent_authorised; [by apply Hq|done]. }
  set (r4 := bind_snapshot_result _ _).
  assert (authorised (send reply (cc_request_id context) r4 (publish_snapshot self3))) as Ha5.
  { apply (quiescent_authorised self3); [by apply same_quiescent|done]. }
  destruct r4 as [[]| | | | |]; try exact Ha5. destruct (cm_closed_after times); [|exact Ha5].
  eapply quiescent_authorised; [|exact Ha5]. by apply same_quiescent.
Qed.

Lemma start_task_quiescent context reply self :
  quiescent self (start_profile_task context reply self).
Proof.
  unfold start_profile_task. destruct (as_active_identity _) as [active|]; [|by apply same_quiescent].
  destruct (option_filter _ _) as [foreground|]; [|by apply same_quiescent].
  destruct (_ <=? _)%nat; [by apply same_quiescent|].
  pose proof (run_core_quiescent begin_profile_refresh self begin_refresh_evolves) as Hq.
  destruct (run_core begin_profile_refresh self) as [self1 [[plan|]|e]]; simpl in Hq;
    (etrans; [exact Hq|]); [|by apply same_quiescent..].
  destruct (bt_get (cc_request_id context) _) as [previous|]; [|by apply same_quiescent].
  etrans; [|apply cancel_quiescent]. by apply same_quiescent.
Qed.

Lemma complete_task_quiescent times id result self :
  quiescent self (complete_profile_task clock times id result self).
Proof.
  unfold complete_profile_task. destruct (bt_get id (ra_profile_tasks self)) as [task|]; [|done].
  set (self1 := set_tasks (bt_remove id (ra_profile_tasks self)) self).
  assert (quiescent self self1) as H1' by by apply same_quiescent.
  destruct (_ && _ && _); simpl; [|etrans; [exact H1'|]; by apply same_quiescent].
  assert (quiescent self1 (apply_completion clock times task result self1).1) as Hq.
  { unfold apply_completion. set (fetched := if _ >=? _ then _ else result).
    assert (quiescent self1 (attempt_completion clock times task fetched self1).1) as Hc.
    { unfold attempt_completion, complete_profile_before_deadline.
      destruct fetched; [destruct (_ >=? _); [done|]|]; apply refresh_quiescent. }
    destruct (attempt_completion clock times task fetched self1) as [self2 completed]. simpl in Hc.
    destruct (if _ || _ then Err command_timed_out else completed) as [s|error]; simpl; [done|].
    destruct (is_some_and _ _); [|done]. etrans; [exact Hc|]. apply refresh_quiescent. }
  destruct (apply_completion _ _ _ _ self1) as [self2 r]. simpl in Hq.
  etrans; [exact H1'|]. etrans; [exact Hq|]. by apply same_quiescent.
Qed.

Lemma close_authorised r self : authorised self -> authorised (close_actor r self).1.
Proof.
  intros Ha. unfold close_actor. destruct (begin_shutdown _) as [gate [[]|e]] eqn:E; simpl.
  2: { apply (quiescent_authorised self); [|done]. apply same_quiescent; try done. simpl.
       unfold begin_shutdown in E. destruct (ra_lifecycle self); try done; by injection E as <-. }
  set (self1 := cancel_profile_tasks _ _).
  assert (fenced self1 /\ ra_lifecycle self1 = gate) as [Hfe Hl].
  { unfold self1. rewrite cancel_run. split; [|done]. destruct Ha as [[]]. by constructor. }
  assert (gate = RuntimeLifecycle.ShuttingDown) as Hgate.
  { unfold begin_shutdown in E. destruct (ra_lifecycle self); try done; by injection E as <-. }
  destruct r as [[]|e]; simpl.
  - destruct (finish_shutdown _) as [gate' r'] eqn:Ef. simpl. rewrite Hl, Hgate in Ef.
    injection Ef as <- _. destruct Hfe as [? ? ?]. split; [by constructor|]. by intros Hl'.
  - destruct Hfe. split; [by constructor|]. by intros Hl'.
Qed.

Lemma turn_authorised event self : authorised self -> authorised (turn clock event self).1.
Proof.
  intros Ha. destruct event as [times envelope|times id result]; simpl.
  2: { destruct (_ =? _)%nat; [done|]. apply (quiescent_authorised self); [|done].
       apply complete_task_quiescent. }
  unfold handle_command. destruct (is_SubscribeChanges _ && _); [done|].
  destruct (preflight _ _ _ _) as [result|].
  { apply (quiescent_authorised self); [by apply same_quiescent|done]. }
  destruct (ce_command envelope) eqn:Ec; try by apply run_command_authorised.
  - apply (quiescent_authorised self); [apply start_task_quiescent|done].
  - pose proof (close_authorised (cm_adapter_close times) self Ha) as Hc.
    destruct (close_actor _ _) as [self1 result]. simpl in *.
    apply (quiescent_authorised self1); [by apply same_quiescent|done].
Qed.

Lemma turns_authorised events self : authorised self -> authorised (turns clock events self).1.
Proof.
  revert self. induction events as [|event events IH]; intros self Ha; simpl; [done|].
  pose proof (turn_authorised event self Ha) as Ht. destruct (turn clock event self) as [self1 []]; auto.
Qed.

Lemma start_authorised demo installation incarnation row relays (w : World) self :
  start clock demo installation incarnation row (set_core (AppCore_new relays) w) = Ok self ->
  authorised self.
Proof.
  intros Hs. destruct (start_settled _ _ _ _ _ _ _ _ Hs) as [Hp _]. apply start_run in Hs.
  destruct Hs as (runtime & w1 & s & Hb & _ & _ & Hc & _ & _ & Hf & Hl & Hg & Hi & _ & _ & _ & _ & Hfg & _).
  assert (active_key (core_of self) = None) as Ha.
  { unfold core_of. rewrite Hc.
    assert (exists ops, Forall no_activation ops /\ w_core w1 = core_run ops (AppCore_new relays))
      as (ops & Ho & ->).
    { destruct (boot_evolves clock (set_core (AppCore_new relays) w)) as (ops & Ho & He).
      rewrite Hb in He. by exists ops. }
    by destruct (core_run_active ops (AppCore_new relays) (core_ok_new relays) Ho) as [-> | ->]. }
  split; [constructor|].
  - apply Hp.
  - rewrite Hf, Hi, Hg. by eexists.
  - by rewrite Hfg.
  - intros _ key. by rewrite Ha.
Qed.

Lemma reaches_generation incarnation incarnation' g g' s s' :
  reaches (with_runtime_session s {| rsb_incarnation := incarnation; rsb_generation := g |})
          (with_runtime_session s' {| rsb_incarnation := incarnation'; rsb_generation := g' |}) ->
  incarnation = incarnation' /\ raw g <= raw g'.
Proof.
  intros [E|Hn%newer_iff].
  - injection E as _ -> -> _. split; [done|lia].
  - by destruct Hn as (_ & Hn & _).
Qed.

Lemma require_on_run scope row :
  require_on scope row = Ok tt <->
  exists current, row = Some current /\ hrs_runtime current = hss_runtime scope /\
    hrs_generation current = hss_generation scope /\ hrs_actor current = Some (hss_actor scope).
Proof.
  unfold require_on. destruct row as [row|]; simpl; [|split; [done|by intros (? & ? & _)]].
  rewrite guard_Ok, !orb_false_iff, !negb_false_iff, !bool_decide_eq_true. naive_solver.
Qed.

(** C24: a hub submission acts for the identity that is active, and only in its
    session.  In a running demo actor, whatever was handled before and whatever
    failed: a scope is handed out exactly for the active identity in the current
    generation, and the durable fence admits it; while the lifecycle is ready the
    active identity always gets one; and once the generation has changed, the
    fence refuses the scope from then on. *)
Theorem authority_fenced demo installation incarnation row relays w self events more :
  start clock demo installation incarnation row (set_core (AppCore_new relays) w) = Ok self ->
  let reached := (turns clock events self).1 in
  let later := (turns clock more reached).1 in
  (forall generation scope, hub_submission_scope generation reached = Ok scope ->
     generation = ra_session_generation reached /\
     active_key (core_of reached) = Some (hss_actor scope) /\
     require_on scope (ra_fence reached) = Ok tt /\
     (ra_session_generation later <> generation ->
      require_on scope (ra_fence later) = Err hub_permission_denied)) /\
  (ra_demo_profile reached = true -> ra_lifecycle reached = RuntimeLifecycle.Ready -> forall key,
     active_key (core_of reached) = Some key ->
     hub_submission_scope (ra_session_generation reached) reached =
       Ok {| hss_runtime := ra_hub_runtime_incarnation reached;
             hss_generation := ra_session_generation reached; hss_actor := key |}).
Proof.
  intros Hs reached later. destruct (start_settled _ _ _ _ _ _ _ _ Hs) as [Hp Hse].
  destruct (turns_serve clock events self Hp Hse) as (Hp1 & Hs1 & _).
  destruct (turns_serve clock more _ Hp1 Hs1) as (_ & Hs2 & Hr).
  fold reached in Hp1, Hs1, Hs2, Hr. fold later in Hs2, Hr.
  rewrite Hs1, Hs2 in Hr. apply reaches_generation in Hr as [Hinc Hgen].
  assert (authorised reached) as Ha by (apply turns_authorised; by eapply start_authorised).
  assert (authorised later) as [[_ (row2 & Hf2 & Hr2 & Hg2) _] _] by by apply turns_authorised.
  destruct Ha as [[_ _ Hfg] Hat]. split.
  - intros generation scope. unfold hub_submission_scope, hub_actor.
    destruct (negb (ra_demo_profile reached) || _) eqn:Ed; [done|].
    apply orb_false_iff in Ed as [_ Eg%negb_false_iff%bool_decide_eq_true]. subst generation.
    destruct (ra_published_foreground_session reached) as [b|] eqn:Eb; simpl; [|done].
    destruct (negb (_ ==? _) || _) eqn:Ea; simpl; [done|]. intros [= <-]. simpl.
    apply orb_false_iff in Ea as [_ Ea%negb_false_iff]. split; [done|].
    destruct (Hfg b eq_refl) as (_ & row1 & Hf1 & Hg1 & Ha1).
    assert (active_key (core_of reached) = Some (binding_key b)) as Hk.
    { unfold is_current_active in Ea. unfold active_key. destruct (as_active_identity _) as [a|]; [|done].
      simpl in *. by apply bool_decide_eq_true in Ea as ->. }
    split; [done|]. split.
    + apply require_on_run. exists row1. simpl. split_and!; [done| |done|done].
      assert (authorised reached) as [[_ (row1' & Hf1' & Hr1' & _) _] _]
        by (apply turns_authorised; by eapply start_authorised). congruence.
    + intros Hne. rewrite Hf2. unfold require_on. simpl.
      rewrite (bool_decide_false (hrs_generation row2 = _)); [by rewrite orb_true_r|].
      intros E. apply Hne. apply raw_inj. rewrite E in Hg2. lia.
  - intros Hdemo Hl key Hk. destruct (Hat Hl key Hk) as (b & Hb & Hbk).
    destruct (Hfg b Hb) as (Hbg & _). unfold hub_submission_scope, hub_actor.
    rewrite Hdemo.
    rewrite bool_decide_true by done. simpl. rewrite Hb. simpl. rewrite Hbk, Hbg.
    rewrite bool_decide_true by done. simpl.
    assert (is_current_active key (core_of reached) = true) as ->; [|done].
    unfold is_current_active. unfold active_key in Hk. destruct (as_active_identity _); [|done].
    injection Hk as Hk. simpl. by apply bool_decide_eq_true.
Qed.
End Authority.

(** ** Closed examples *)

#[local] Existing Instance sample_transport.
#[local] Existing Instance memory_store.
#[local] Existing Instance sample_keys.
#[local] Existing Instance sample_material.

(** The scope of an active session is admitted, and refused after a sign-out. *)
Definition sample_scope : HubSubmissionScope := {|
  hss_runtime := sample_hub; hss_generation := sample_generation 1; hss_actor := sample_key 1 |}.

Lemma authority_fenced_witness :
  let reached := (turns sample_clock sample_activated (sample_actor [])).1 in
  let later := (turns sample_clock [sample_command 4 RuntimeCommand.SignOut] reached).1 in
  hub_submission_scope (ra_session_generation reached) reached = Ok sample_scope /\
  require_on sample_scope (ra_fence reached) = Ok tt /\
  require_on sample_scope (ra_fence later) = Err hub_permission_denied.
Proof.
  intros reached later.
  assert (hub_submission_scope (ra_session_generation reached) reached = Ok sample_scope) as Hs
    by (vm_compute; reflexivity).
  destruct (authority_fenced sample_clock true (Ok tt) (Ok sample_hub) None sample_relays
    (empty_world []) (sample_actor []) sample_activated [sample_command 4 RuntimeCommand.SignOut]
    sample_actor_started) as [Ha _].
  destruct (Ha _ _ Hs) as (_ & _ & Hr & Hn). split; [exact Hs|]. split; [exact Hr|]. apply Hn.
  intros E. apply (f_equal raw) in E. revert E. vm_compute. discriminate.
Defined.
