(* ===== verification/Settling.v ===== *)
(** * What a deadline leaves behind

    The effects of deadlines on the runtime actor: a refresh whose time runs out
    is settled and cannot install its answer late; an activation whose time runs
    out leaves its mark on the session, which blocks later activations until the
    session is ended or replaced; and
    the refresh of one identity that the removal of another interrupts is not
    settled at all. *)

From Stdlib Require Import Bool ZArith Lia Strings.Byte Strings.String.
From stdpp Require Import base decidable option list numbers strings gmap relations.
From S2P Require Import Prelude Containers Encoding Hub Reference Identity Profile Snapshot Session Core Changes Delivery Database Secrets Durable Recovery Actor Refresh Runtime Serving Authority.

Section Settling.
Context `{RelayTransport, NostrKeys, KeyMaterialProvider, SecretStore}.
Context `{Channels SnapshotChange} (clock : nat -> UnixTimestamp).

Abbreviation io := (io (H2 := H2)).
(** What a run from a start reaches. *)
Lemma start_reached_ok demo installation incarnation row relays (w : World) self events :
  start clock demo installation incarnation row (set_core (AppCore_new relays) w) = Ok self ->
  core_ok (w_core (ra_world (turns clock events self).1)).
Proof.
  intros [Hp Hs]%start_settled. destruct (turns_serve clock events self Hp Hs) as (Hp1 & _ & _).
  apply Hp1.
Qed.

Abbreviation pending_activation c := (sm_pending_activation (cs_state_machine (ac_state c))).

(** ** Activations *)

Lemma core_run_eq {A} (m : stm AppCore SafeError A) (w : World) :
  core m w = (set_core (m (w_core w)).1 w, map_err Raised (m (w_core w)).2).
Proof. unfold core. by destruct (m (w_core w)). Qed.

Lemma begin_refused key c :
  core_ok c -> is_Some (pending_activation c) ->
  exists e, apply_transition (BeginActivation key) c = (c, Err e).
Proof.
  intros (_ & _ & Hm & _) Hp.
  pose proof (transition_applied (BeginActivation key) (ac_relay_configuration c) _ Hm) as Hr.
  unfold apply_transition. destruct (StateMachine_apply _ _ _) as [m' [s|e]].
  - destruct Hr as ((_ & Hn) & _). rewrite Hn in Hp. by destruct Hp.
  - destruct Hr as (_ & Hs & Hpend). destruct Hpend as [Hpend|(_ & [])]. exists e.
    assert (m' = cs_state_machine (ac_state c)) as ->.
    { rewrite <- (machine_eta m'), Hs, Hpend. apply machine_eta. }
    destruct c as [relays [machine tokens next] published]. done.
Qed.

Lemma begin_pending key c c' s :
  core_ok c -> apply_transition (BeginActivation key) c = (c', Ok s) ->
  core_ok c' /\ is_Some (pending_activation c') /\
  as_session (snapshot c') = SessionState.Activating key /\
  as_active_identity (snapshot c') = as_active_identity (snapshot c).
Proof.
  intros Hc Hb. pose proof (core_op_ok c (OTransition (BeginActivation key)) Hc) as Hok.
  simpl in Hok. rewrite Hb in Hok. split; [done|]. destruct Hc as (_ & _ & Hm & Hp).
  pose proof (transition_applied (BeginActivation key) (ac_relay_configuration c) _ Hm) as Hr.
  unfold apply_transition in Hb. destruct (StateMachine_apply _ _ _) as [m' [s'|e]]; [|done].
  injection Hb as <- <-. destruct Hr as (_ & <- & revision & _ & ->). unfold snapshot. simpl.
  unfold snapshot, machine_snapshot in Hp. rewrite Hp. split; [by eexists|done].
Qed.

(** While an activation is pending, nobody can be activated. *)
Lemma pending_activation_blocks key (w : World) :
  core_ok (w_core w) -> is_Some (pending_activation (w_core w)) ->
  let (w', r) := activate_identity clock key w in
  w_core w' = w_core w /\ forall s, r <> Ok s.
Proof.
  intros Hc Hp. unfold activate_identity, stm_bind at 1.
  pose proof (database_cases (find_identity key) w) as Hd.
  destruct (database (find_identity key) w) as [w1 [found|e]]; destruct Hd as (Hw & _); [|done].
  unfold stm_bind at 1, io_lift, stm_lift. destruct found as [identity|]; simpl; [|done].
  unfold stm_bind at 1. rewrite core_run_eq, Hw.
  destruct (begin_refused key (w_core w) Hc Hp) as (e & ->). by simpl.
Qed.

Lemma prepare_core key identity (w : World) :
  w_core (prepare_activation clock key identity w).1 = w_core w.
Proof.
  destruct (prepare_silent clock key identity w) as ([|op ops] & Ho & Hw); [exact Hw|].
  by inversion Ho.
Qed.

(** A run of an activation that is dropped stopped before the core was told, or
    leaves it waiting for the end of the activation. *)
Lemma dropped_activation key (w w' : World) :
  core_ok (w_core w) -> activate_identity clock key w = (w', Err Dropped) ->
  w_core w' = w_core w \/
  core_ok (w_core w') /\ is_Some (pending_activation (w_core w')) /\
  as_session (snapshot (w_core w')) = SessionState.Activating key /\
  as_active_identity (snapshot (w_core w')) = as_active_identity (snapshot (w_core w)).
Proof.
  intros Hc. unfold activate_identity, stm_bind at 1.
  pose proof (database_cases (find_identity key) w) as Hd.
  destruct (database (find_identity key) w) as [w1 [found|e]]; destruct Hd as (Hw & _);
    [|intros [= <- _]; by left].
  unfold stm_bind at 1, io_lift, stm_lift. destruct found as [identity|]; simpl; [|done].
  unfold stm_bind at 1. rewrite core_run_eq, Hw.
  destruct (apply_transition (BeginActivation key) (w_core w)) as [c [s|e]] eqn:Eb; simpl; [|done].
  apply begin_pending in Eb as (Hc1 & Hp1 & Hs1 & Ha1); [|done].
  unfold stm_bind at 1, attempt. pose proof (prepare_core key identity (set_core c w1)) as Hpc.
  destruct (prepare_activation clock key identity (set_core c w1)) as [w2 [active|[e|]]]; simpl in Hpc.
  - rewrite core_run_eq. by destruct (apply_transition (ActivationSucceeded active) (w_core w2)) as [? []].
  - unfold stm_bind at 1. rewrite core_run_eq.
    by destruct (apply_transition (ActivationFailed e) (w_core w2)) as [? []].
  - intros [= <-]. right. by rewrite Hpc.
Qed.

(** *** What keeps an activation pending *)

(** The activation of [key] is pending, with [active] still on display. *)
Definition stuck (key : PublicKey) (active : option ActiveIdentitySnapshot) (c : AppCore) : Prop :=
  core_ok c /\ is_Some (pending_activation c) /\
  as_session (snapshot c) = SessionState.Activating key /\
  as_active_identity (snapshot c) = active.

Lemma stuck_op key active c op : steady op -> stuck key active c -> stuck key active (core_op c op).
Proof.
  intros Ho (Hc & Hp & Hs & Ha). pose proof (core_op_ok c op Hc) as Hc'. split; [exact Hc'|].
  destruct op as [t|k at_|tok at_|tok]; [|clear Hc'..]; simpl in *.
  - destruct Hc as (_ & _ & Hm & Hd).
    pose proof (transition_applied t (ac_relay_configuration c) _ Hm) as Hr. clear Hc'.
    unfold apply_transition, snapshot, machine_snapshot in *. rewrite Hd in *.
    destruct (StateMachine_apply _ _ _) as [m' [s|e]]; simpl.
    + destruct Hr as (Hadm & <- & revision & _ & ->). simpl.
      destruct t; try done; simpl in Hadm |- *.
      * destruct Hadm as [_ Hn]. rewrite Hn in Hp. by destruct Hp.
      * destruct Hadm as [Hn _]. congruence.
    + destruct Hr as (_ & Hsn & Hpend). rewrite Hd. split; [|done].
      destruct Hpend as [->|[_ Ht]]; [done|by destruct t].
  - destruct (issue_removal_token k at_ c) as [c' r] eqn:E.
    apply issue_run in E as (Em & Es & _). simpl. by rewrite Em, Es.
  - done.
  - done.
Qed.
Lemma stuck_run key active ops c :
  Forall steady ops -> stuck key active c -> stuck key active (core_run ops c).
Proof.
  intros Ho. revert c. induction Ho as [|op ops Hop _ IH]; intros c Hc; [done|]. by apply IH, stuck_op.
Qed.

Section Stuck.
Context (key : PublicKey) (active : option ActiveIdentitySnapshot).
Abbreviation stuck_actor self := (stuck key active (w_core (ra_world self))).

Lemma run_async_stuck {A} (m : io A) self :
  evolves steady m -> stuck_actor self -> stuck_actor (run_async m self).1.
Proof.
  intros Hm Hs. unfold run_async. destruct (Hm (ra_world self)) as (ops & Ho & Hw).
  destruct (m (ra_world self)) as [w r]. simpl in *. rewrite Hw. by apply stuck_run.
Qed.
Lemma run_core_stuck {A} (m : stm AppCore SafeError A) self :
  evolves steady (core m) -> stuck_actor self -> stuck_actor (run_core m self).1.
Proof.
  intros Hm Hs. unfold run_core. destruct (Hm (ra_world self)) as (ops & Ho & Hw).
  unfold core in Hw. destruct (m (w_core (ra_world self))) as [c r]. simpl in *. rewrite Hw.
  by apply stuck_run.
Qed.

(** Nobody is activated. *)
Lemma stuck_activation context key' self :
  stuck_actor self ->
  let (self', result) := execute_command clock context (RuntimeCommand.ActivateIdentity key') self in
  w_core (ra_world self') = w_core (ra_world self) /\
  exists error, result = CommandResult.Failed error.
Proof.
  intros (Hc & Hp & _). pose proof (pending_activation_blocks key' (ra_world self) Hc Hp) as Hb.
  simpl. unfold run_async. destruct (activate_identity clock key' (ra_world self)) as [w r].
  destruct Hb as [Hw Hr]. simpl. split; [done|]. destruct r as [s|[e|]]; [by destruct (Hr s)|by eexists..].
Qed.

Lemma interrupt_stuck self : stuck_actor self -> stuck_actor (interrupt_refreshes clock self).
Proof.
  intros Hs. unfold interrupt_refreshes. rewrite cancel_run. simpl.
  destruct (find _ _) as [task|]; [|done]. apply run_async_stuck; [apply complete_refresh_steady|done].
Qed.
End Stuck.

(** The commands that may end or replace the session. *)
Definition replaces_session (command : RuntimeCommand) : bool :=
  match command with
  | RuntimeCommand.GenerateIdentity _ _ | RuntimeCommand.AcknowledgeGeneratedKeyStage _ _
  | RuntimeCommand.ImportSecretKey _ _ _ | RuntimeCommand.SignOut
  | RuntimeCommand.ConfirmIdentityRemoval _ _ => true
  | _ => false
  end.
Definition undisturbed (event : RuntimeEvent) : Prop :=
  match event with
  | Command _ envelope => replaces_session (ce_command envelope) = false
  | Completion _ _ _ => True
  end.

Section Undisturbed.
Context (key : PublicKey) (active : option ActiveIdentitySnapshot).
Abbreviation stuck_actor self := (stuck key active (w_core (ra_world self))).

Lemma execute_stuck context command self :
  replaces_session command = false -> stuck_actor self ->
  let (self', result) := execute_command clock context command self in
  stuck_actor self' /\ changes_session command && is_Completed result = false.
Proof.
  intros Hr Hs. destruct command; try done.
  - simpl. destruct (stage_begin _ _ _ _ _). done.
  - unfold execute_command.
    pose proof (run_async_stuck key active (select_identity public_key) self (select_steady _) Hs).
    by destruct (run_async _ self).
  - pose proof (stuck_activation key active context public_key self Hs) as Ha.
    destruct (execute_command _ _ _ _) as [self' r]. destruct Ha as [-> [e ->]]. done.
  - unfold execute_command, clock_now. set (self1 := set_world _ self).
    assert (stuck_actor (run_core (issue_removal_token public_key (clock (w_ticks (ra_world self)))) self1).1)
      as Hq.
    { apply run_core_stuck; [|exact Hs]. intros w.
      exists [OIssue public_key (clock (w_ticks (ra_world self)))].
      split; [by repeat constructor|]. unfold core. simpl. by destruct (issue_removal_token _ _ _). }
    by destruct (run_core _ self1).
  - simpl. by destruct (subscribe _ _).
Qed.

Lemma run_command_stuck times context command reply self :
  replaces_session command = false -> stuck_actor self ->
  stuck_actor (run_command clock times context command reply self).
Proof.
  intros Hr Hs. unfold run_command.
  set (self1 := match command with RuntimeCommand.BeginGeneratedKeyStage => _ | _ => self end).
  assert (stuck_actor self1) as H1' by (unfold self1; destruct command; try done; by apply interrupt_stuck).
  pose proof (execute_stuck context command self1 Hr H1') as Hx.
  destruct (execute_command clock context command self1) as [self2 result]. destruct Hx as [H2' ->].
  set (r4 := bind_snapshot_result _ _). destruct r4 as [[]| | | | |]; try exact H2'.
  by destruct (cm_closed_after times).
Qed.

Lemma start_task_stuck context reply self :
  stuck_actor self -> stuck_actor (start_profile_task context reply self).
Proof.
  intros Hs. unfold start_profile_task. destruct (as_active_identity _) as [shown|]; [|done].
  destruct (option_filter _ _) as [foreground|]; [|done]. destruct (_ <=? _)%nat; [done|].
  pose proof (run_core_stuck key active begin_profile_refresh self begin_refresh_steady Hs) as Hq.
  destruct (run_core begin_profile_refresh self) as [self1 [[plan|]|e]]; try done. simpl in Hq.
  destruct (bt_get (cc_request_id context) _) as [previous|]; [|done]. by rewrite cancel_run.
Qed.

Lemma complete_task_stuck times id result self :
  stuck_actor self -> stuck_actor (complete_profile_task clock times id result self).
Proof.
  intros Hs. unfold complete_profile_task. destruct (bt_get id (ra_profile_tasks self)) as [task|]; [|done].
  set (self1 := set_tasks _ self). destruct (_ && _ && _); simpl; [|done].
  assert (stuck_actor (apply_completion clock times task result self1).1) as Hq.
  { unfold apply_completion. set (fetched := if _ >=? _ then _ else result).
    assert (stuck_actor (attempt_completion clock times task fetched self1).1) as Hc.
    { unfold attempt_completion, complete_profile_before_deadline.
      destruct fetched; [destruct (_ >=? _); [done|]|];
        (apply run_async_stuck; [apply complete_refresh_steady|done]). }
    destruct (attempt_completion clock times task fetched self1) as [self2 completed]. simpl in Hc.
    destruct (if _ || _ then Err command_timed_out else completed) as [s|error]; simpl; [done|].
    destruct (is_some_and _ _); [|done]. apply run_async_stuck; [apply complete_refresh_steady|done]. }
  by destruct (apply_completion _ _ _ _ self1) as [self2 r].
Qed.

Lemma close_stuck r self : stuck_actor self -> stuck_actor (close_actor r self).1.
Proof.
  intros Hs. unfold close_actor. destruct (begin_shutdown _) as [gate [[]|e]]; [|done].
  rewrite cancel_run. destruct r as [[]|e]; [|done]. by destruct (finish_shutdown _).
Qed.

Lemma turn_stuck event self :
  undisturbed event -> stuck_actor self -> stuck_actor (turn clock event self).1.
Proof.
  intros Hu Hs. destruct event as [times envelope|times id result]; simpl in *.
  2: { destruct (_ =? _)%nat; [done|]. by apply complete_task_stuck. }
  unfold handle_command. destruct (is_SubscribeChanges _ && _); [done|].
  destruct (preflight _ _ _ _) as [result|]; [done|].
  destruct (ce_command envelope) eqn:Ec; try by apply run_command_stuck.
  - by apply start_task_stuck.
  - pose proof (close_stuck (cm_adapter_close times) self Hs) as Hc. by destruct (close_actor _ _).
Qed.

Lemma turns_stuck events self :
  Forall undisturbed events -> stuck_actor self -> stuck_actor (turns clock events self).1.
Proof.
  intros Hu. revert self. induction Hu as [|event events He _ IH]; intros self Hs; simpl; [done|].
  pose proof (turn_stuck event self He Hs) as Ht. destruct (turn clock event self) as [self1 []]; auto.
Qed.

(** Signing out ends the pending activation. *)
Lemma sign_out_unblocks context self :
  stuck_actor self -> raw (as_revision (core_of self)) < 2 ^ 64 - 1 ->
  let (self', result) := execute_command clock context RuntimeCommand.SignOut self in
  is_Completed result = true /\ pending_activation (w_core (ra_world self')) = None /\
  as_session (core_of self') = SessionState.SignedOut.
Proof.
  intros ((_ & _ & Hm & Hd) & _ & Hs & _) Hrev. unfold core_of in *. simpl. unfold run_core, AppCore_sign_out.
  rewrite Hs. simpl.
  pose proof (transition_applied SignOut (ac_relay_configuration (w_core (ra_world self))) _ Hm) as Hr.
  unfold apply_transition, snapshot, machine_snapshot in *. rewrite Hd in *.
  destruct (StateMachine_apply _ _ _) as [m' [s|e]]; simpl.
  - destruct Hr as (_ & <- & revision & _ & ->). done.
  - destruct Hr as ([Hn|Hn] & _); [by destruct Hn|lia].
Qed.
End Undisturbed.

(** C31: an activation that runs out of time blocks those that follow until the
    session is ended or replaced.  If the deadline drops an activation after the
    session began to change, the command fails as timed out and the session stays
    "activating", with the identity that was active before on display.  However
    many commands and completions are then handled and whatever fails in them, as
    long as no command signs out, adds or removes an identity, this does not
    change: every activation, of any identity, fails and changes nothing.  A
    sign-out, while a revision is left, clears the pending activation. *)
Theorem timed_out_activation_blocks context key (self : RuntimeActor) :
  core_ok (w_core (ra_world self)) ->
  (activate_identity clock key (ra_world self)).2 = Err Dropped ->
  let (self', result) :=
    execute_command clock context (RuntimeCommand.ActivateIdentity key) self in
  result = CommandResult.Failed command_timed_out /\
  (w_core (ra_world self') = w_core (ra_world self) \/
   forall (after : RuntimeActor) events,
     w_core (ra_world after) = w_core (ra_world self') -> Forall undisturbed events ->
     let reached := (turns clock events after).1 in
     as_session (core_of reached) = SessionState.Activating key /\
     as_active_identity (core_of reached) = as_active_identity (core_of self) /\
     (forall context' key',
        let (later, result') :=
          execute_command clock context' (RuntimeCommand.ActivateIdentity key') reached in
        w_core (ra_world later) = w_core (ra_world reached) /\
        exists error, result' = CommandResult.Failed error) /\
     (forall context', raw (as_revision (core_of reached)) < 2 ^ 64 - 1 ->
        let (later, result') := execute_command clock context' RuntimeCommand.SignOut reached in
        is_Completed result' = true /\ pending_activation (w_core (ra_world later)) = None /\
        as_session (core_of later) = SessionState.SignedOut)).
Proof.
  intros Hc Hd. unfold execute_command at 1, run_async.
  destruct (activate_identity clock key (ra_world self)) as [w1 r] eqn:Ea. simpl in Hd. subst r.
  cbn [settle as_result]. split; [done|].
  destruct (dropped_activation key _ _ Hc Ea) as [Hw|(Hc1 & Hp1 & Hs1 & Ha1)]; [by left|right].
  intros after events Hw Hu. set (reached := (turns clock events after).1).
  assert (stuck key (as_active_identity (core_of self)) (w_core (ra_world reached))) as Hst.
  { apply turns_stuck; [done|]. rewrite Hw. by split_and!. }
  pose proof Hst as (_ & _ & Hs & Ha). split; [done|]. split; [done|].
  split; [intros ? ?; by eapply stuck_activation|intros ? ?; by eapply sign_out_unblocks].
Qed.

(** ** Refreshes *)

(** The active identity is not loading. *)
Definition not_loading (s : AppSnapshot) : Prop :=
  forall active, as_active_identity s = Some active ->
  ai_profile_state active <> ProfileLoadState.Loading.

Lemma shown_settled current m relay_state profile_state s :
  as_active_identity s = Some (shown current m relay_state profile_state) ->
  profile_state <> ProfileLoadState.Loading -> not_loading s.
Proof. intros Hs Hp active Ha. rewrite Hs in Ha. by injection Ha as <-. Qed.

Definition answers_for (key : PublicKey) (result : result ProfileFetchResult SafeError) : Prop :=
  forall fetched candidate, result = Ok fetched -> pf_candidate fetched = Some candidate ->
  kp_author candidate = key.

(** The candidates cached, and the profile on display, are those of before. *)
Definition profiles_kept (self self' : RuntimeActor) : Prop :=
  (forall key, cp_candidate <$> bt_get key (db_profiles (w_database (ra_world self'))) =
               cp_candidate <$> bt_get key (db_profiles (w_database (ra_world self)))) /\
  (ai_profile <$> as_active_identity (core_of self')) =
    (ai_profile <$> as_active_identity (core_of self)).

#[local] Instance profiles_kept_preorder : PreOrder profiles_kept.
Proof.
  split; [by split|]. intros a b c [H1' H2'] [H3' H4']. split; [|congruence].
  intros key. by rewrite H3'.
Qed.

Section Completion.
Context (plan : ProfileRefreshPlan) (current : ActiveIdentitySnapshot).

(** The completion of a refresh for the active identity of an active session. *)
Definition refreshing (self : RuntimeActor) : Prop :=
  core_ok (w_core (ra_world self)) /\ as_active_identity (core_of self) = Some current /\
  public_key (ai_identity current) = pp_public_key plan /\ updatable (core_of self).

Lemma failure_settles error self :
  refreshing self ->
  let self' := (run_async (complete_profile_refresh clock plan (Err error)) self).1 in
  not_loading (core_of self') /\ profiles_kept self self'.
Proof.
  intros (Hc & Ha & Hk & Hu). unfold run_async.
  pose proof (complete_failed clock plan error (ra_world self) current Hc Ha Hk) as Hf.
  destruct (complete_profile_refresh clock plan (Err error) (ra_world self)) as [w r].
  destruct Hf as (Hf & _ & _ & _ & Hp). destruct (Hf Hu) as [Hs _]. simpl.
  split; [by eapply shown_settled|]. split; [done|]. unfold core_of in *. simpl. by rewrite Hs, Ha.
Qed.

(** An answer that arrives in time ends the loading, or leaves the core as it was. *)
Lemma answer_settles fetched self :
  refreshing self -> answers_for (pp_public_key plan) (Ok fetched) ->
  let (self', r) := run_async (complete_profile_refresh clock plan (Ok fetched)) self in
  not_loading (core_of self') \/
  (refreshing self' /\ exists e, r = Err e).
Proof.
  intros (Hc & Ha & Hk & Hu) Han. unfold run_async. destruct fetched as [candidate completeness].
  rewrite (answered_refresh _ _ current) by done. destruct candidate as [candidate|].
  - pose proof (fetched_run clock plan current candidate completeness (ra_world self) Hc Ha Hk) as Hf.
    destruct (evolves_no_newcomer (complete_successful_profile_fetch clock plan current
      (Some candidate) completeness) (ra_world self)) as [Hc' _]; [apply complete_fetch_evolves|done|].
    destruct (complete_successful_profile_fetch _ _ _ _ _ _) as [w r].
    destruct (Hf (Han _ _ eq_refl eq_refl)) as [_ Hr]. unfold refreshing, core_of in *. simpl in *.
    destruct r as [s|e].
    + left. destruct Hr as (_ & -> & _ & Hs). by eapply shown_settled.
    + right. rewrite Hr. split; [done|]. destruct e as [e|]; by eexists.
  - pose proof (empty_run clock plan current completeness (ra_world self) Hc Ha Hk) as Hf.
    destruct (complete_successful_profile_fetch _ _ _ _ _ _) as [w [s|e]];
      [|by destruct Hf as (_ & Hn & _)]. destruct Hf as (_ & _ & -> & Hs).
    left. eapply shown_settled; [exact Hs|]. by destruct (ai_profile current).
Qed.

(** The attempt that is made for a profile still loading. *)
Lemma last_attempt_settles error self :
  not_loading (core_of self) \/ refreshing self ->
  let self' := if is_some_and (as_active_identity (core_of self))
                    (fun active => is_Loading (ai_profile_state active))
               then (run_async (complete_profile_refresh clock plan (Err error)) self).1
               else self in
  not_loading (core_of self') /\ profiles_kept self self'.
Proof.
  intros Hs. destruct (is_some_and _ _) eqn:El.
  - destruct Hs as [Hs|Hs]; [|by apply failure_settles]. exfalso.
    destruct (as_active_identity (core_of self)) as [a|] eqn:Ea; [|done].
    apply bool_decide_eq_true in El. by apply (Hs a).
  - split; [|done]. intros a Ea Hl. rewrite Ea in El. simpl in El. unfold is_Loading in El.
    by rewrite bool_decide_true in El.
Qed.
End Completion.

(** C34: a refresh in an active session is settled, and not by an answer that comes
    too late.  When the actor handles a completion for the active identity,
    whatever the relays answered and whatever fails while it is applied, the
    profile is not loading afterwards; if the deadline has passed at the start or
    at the end, the command fails as timed out; and if it had passed before the
    answer was applied, neither a cached candidate nor the profile on display is
    replaced. *)
Theorem refresh_settles times task result (self : RuntimeActor) current :
  refreshing (pt_plan task) current self ->
  answers_for (pp_public_key (pt_plan task)) result ->
  let (self', answer) := apply_completion clock times task result self in
  not_loading (core_of self') /\
  (pt_deadline task <= ct_start times \/ pt_deadline task <= ct_end times ->
   answer = CommandResult.Failed command_timed_out) /\
  (pt_deadline task <= ct_start times \/ pt_deadline task <= ct_poll times ->
   (exists fetched, result = Ok fetched) -> profiles_kept self self').
Proof.
  intros Hr Han. unfold apply_completion.
  destruct (ct_start times >=? pt_deadline task) eqn:Es; breflect; cbn [orb].
  - simpl. pose proof (failure_settles _ _ command_timed_out self Hr) as Hf.
    destruct (run_async _ self) as [self1 r1]. simpl in *. destruct Hf as [Hn Hp].
    destruct (last_attempt_settles (pt_plan task) current command_timed_out self1 (or_introl Hn)) as [Hn2 Hp2].
    split; [exact Hn2|]. split; [done|]. intros _ _. by etrans.
  - assert (let (self1, r1) := attempt_completion clock times task result self in
      (not_loading (core_of self1) \/ refreshing (pt_plan task) current self1 /\ exists e, r1 = Err e) /\
      (pt_deadline task <= ct_poll times -> (exists f, result = Ok f) -> self1 = self)) as Hat.
    { unfold attempt_completion, complete_profile_before_deadline. destruct result as [fetched|e].
      - destruct (ct_poll times >=? _) eqn:Ep; breflect; [by split; [right; split; [|eexists]|]|].
        pose proof (answer_settles _ _ _ self Hr Han) as Hs. destruct (run_async _ self) as [self1 r1].
        split; [done|]. intros. lia.
      - pose proof (failure_settles _ _ e self Hr) as [Hn _]. destruct (run_async _ self) as [self1 r1].
        split; [by left|]. by intros _ [f Hf]. }
    destruct (attempt_completion _ _ _ _ _) as [self1 r1]. destruct Hat as [Hs Hpoll].
    assert (forall error, let self2 := if is_some_and (as_active_identity (core_of self1))
        (fun active => is_Loading (ai_profile_state active))
      then (run_async (complete_profile_refresh clock (pt_plan task) (Err error)) self1).1 else self1 in
      not_loading (core_of self2) /\ profiles_kept self1 self2) as Hlast.
    { intros error. apply (last_attempt_settles (pt_plan task) current). destruct Hs as [Hs|[Hs _]]; auto. }
    destruct (ct_end times >=? pt_deadline task) eqn:Ee; breflect; cbn [orb].
    + destruct (Hlast command_timed_out) as [Hn Hp]. split; [exact Hn|]. split; [done|].
      intros Hl Hok. rewrite <- (Hpoll ltac:(lia) Hok) at 1. exact Hp.
    + destruct r1 as [s|error]; simpl.
      * split; [destruct Hs as [Hs|[_ [e Hs]]]; done|]. split; [lia|].
        intros Hl Hok. by rewrite (Hpoll ltac:(lia) Hok).
      * destruct (Hlast error) as [Hn Hp]. split; [exact Hn|]. split; [lia|].
        intros Hl Hok. rewrite <- (Hpoll ltac:(lia) Hok) at 1. exact Hp.
Qed.
(** ** Stages *)

(** No turn begins a stage while another is pending, also when that one has
    expired: the command is answered before it is executed. *)
Lemma pending_stage_refuses_begin times context reply (self : RuntimeActor) :
  is_Some (ra_generated_key_stage self) ->
  exists answer,
    handle_command clock times {| ce_context := context;
      ce_command := RuntimeCommand.BeginGeneratedKeyStage; ce_reply := reply |} self =
    (send reply (cc_request_id context) answer self, true) /\
    forall value, answer <> CommandResult.Completed value.
Proof.
  intros [stage Hs]. unfold handle_command. simpl. unfold preflight. rewrite Hs. simpl.
  destruct (is_expired _ _); [by eexists|]. destruct (_ ==? _); [by eexists|].
  destruct (negb _); by eexists.
Qed.
End Settling.

(** ** Closed examples *)

#[local] Existing Instance sample_transport.
#[local] Existing Instance memory_store.
#[local] Existing Instance sample_keys.
#[local] Existing Instance sample_material.

Lemma sample_reached_ok faults events :
  sample_start_with faults = Ok (sample_actor faults) ->
  core_ok (w_core (ra_world (turns sample_clock events (sample_actor faults)).1)).
Proof. apply start_reached_ok. Qed.

(** The actor whose second activation is dropped while it loads the credential. *)
Definition timing_out : list Fault := replicate 37 Works ++ [Cut false].
Definition sample_timing_out : RuntimeActor :=
  (turns sample_clock sample_activated (sample_actor timing_out)).1.
Lemma timing_out_started : sample_start_with timing_out = Ok (sample_actor timing_out).
Proof. apply is_ok_unwrap_or. vm_compute. reflexivity. Qed.

(** After the drop, an attempt to activate the first identity again, a selection
    and a refresh are handled; the second identity is still the one awaited. *)
Definition sample_stuck_events : list RuntimeEvent :=
  [sample_command 5 (RuntimeCommand.ActivateIdentity (sample_key 1));
   sample_command 6 (RuntimeCommand.SelectIdentity (sample_key 1));
   sample_command 7 RuntimeCommand.RefreshActiveProfile].
Definition sample_context : CommandContext :=
  {| cc_request_id := sample_request_id 4; cc_expected_revision := None; cc_deadline := 30 |}.

Lemma timed_out_activation_blocks_witness :
  let (self', result) := execute_command sample_clock sample_context
    (RuntimeCommand.ActivateIdentity (sample_key 2)) sample_timing_out in
  result = CommandResult.Failed command_timed_out /\
  let reached := (turns sample_clock sample_stuck_events self').1 in
  as_session (core_of reached) = SessionState.Activating (sample_key 2) /\
  forall context key,
    let (later, result') := execute_command sample_clock context
      (RuntimeCommand.ActivateIdentity key) reached in
    w_core (ra_world later) = w_core (ra_world reached) /\
    exists error, result' = CommandResult.Failed error.
Proof.
  assert (as_session (core_of (execute_command sample_clock sample_context
    (RuntimeCommand.ActivateIdentity (sample_key 2)) sample_timing_out).1) <>
    as_session (core_of sample_timing_out)) as Hn by (vm_compute; discriminate).
  assert ((activate_identity sample_clock (sample_key 2) (ra_world sample_timing_out)).2 = Err Dropped)
    as Hd by (vm_compute; reflexivity).
  pose proof (timed_out_activation_blocks sample_clock sample_context
    (sample_key 2) sample_timing_out (sample_reached_ok _ _ timing_out_started) Hd) as Ht.
  destruct (execute_command _ _ _ _) as [self' r]. destruct Ht as [Hr [Ht|Ht]].
  - destruct (Hn (f_equal (fun c => as_session (snapshot c)) Ht)).
  - split; [exact Hr|].
    destruct (Ht self' sample_stuck_events eq_refl ltac:(by repeat constructor)) as (Hs & _ & Ha & _).
    split; [exact Hs|exact Ha].
Defined.

(** The first identity is being refreshed, and the removal of the second is asked for. *)
Definition sample_refreshing : RuntimeActor :=
  (turns sample_clock
    (sample_activated ++
     [sample_command 4 RuntimeCommand.RefreshActiveProfile;
      sample_command 5 (RuntimeCommand.RequestIdentityRemoval (sample_key 2))]) (sample_actor [])).1.
Definition sample_loading : ActiveIdentitySnapshot :=
  default sample_current (as_active_identity (core_of sample_refreshing)).
Definition sample_task : PendingProfileTask := {|
  pt_correlation := {|
    tc_request_id := sample_request_id 4; tc_identity := sample_key 1;
    tc_binding := LocalKeyring {| lkb_identity := sample_key 1;
                                  lkb_availability := SignerAvailability.Available |};
    tc_expected_revision := as_revision (core_of sample_refreshing);
    tc_session_generation := ra_session_generation sample_refreshing |};
  pt_plan := {|
    pp_public_key := sample_key 1; pp_active_identity := sample_loading; pp_relays := [];
    pp_expected_revision := as_revision (core_of sample_refreshing) |};
  pt_deadline := 30; pt_reply := 4%nat |}.

Lemma refresh_settles_witness :
  let (self', answer) := apply_completion sample_clock {| ct_start := 1; ct_poll := 40; ct_end := 41 |}
    sample_task (Ok {| pf_candidate := Some sample_profile;
                       pf_completeness := RelayFetchCompleteness.Complete |}) sample_refreshing in
  not_loading (core_of self') /\ answer = CommandResult.Failed command_timed_out /\
  profiles_kept sample_refreshing self'.
Proof.
  assert (refreshing (pt_plan sample_task) sample_loading sample_refreshing) as Hr.
  { split; [exact (sample_reached_ok [] _ sample_actor_started)|].
    split; [vm_compute; reflexivity|]. split; [vm_compute; reflexivity|].
    split; vm_compute; reflexivity. }
  pose proof (refresh_settles sample_clock {| ct_start := 1; ct_poll := 40; ct_end := 41 |} sample_task
    (Ok {| pf_candidate := Some sample_profile; pf_completeness := RelayFetchCompleteness.Complete |})
    sample_refreshing sample_loading Hr) as Hs.
  destruct (apply_completion _ _ _ _ _) as [self' answer].
  destruct Hs as (Hn & Ha & Hk).
  - intros fetched candidate [= <-] [= <-]. reflexivity.
  - split; [exact Hn|]. split; [apply Ha; right; vm_compute; discriminate|].
    apply Hk; [right; vm_compute; discriminate|eexists; reflexivity].
Defined.

(** ** A refresh that nobody settles *)

Definition sample_removal : RemovalConfirmationToken := {|
  rt_id := 1; rt_public_key := sample_key 2; rt_revision := as_revision (core_of sample_refreshing);
  rt_expires_at := sample_time 305;
  rt_impact := {| ri_deletes_local_credential := true; ri_signs_out := false |} |}.

(** The removal of another identity cancels the task of the refresh, and the
    profile of the identity that stays active keeps loading: no task is left that
    could settle it. *)
Lemma removal_strands_refresh :
  let after := (turns sample_clock
    [sample_command 6 (RuntimeCommand.ConfirmIdentityRemoval sample_removal (sample_request 3))]
    sample_refreshing).1 in
  length (ra_profile_tasks sample_refreshing) = 1%nat /\
  length (ra_profile_tasks after) = 0%nat /\
  ra_lifecycle after = RuntimeLifecycle.Ready /\
  as_session (core_of after) = SessionState.Active /\
  is_some_and (as_active_identity (core_of after))
    (fun active => is_Loading (ai_profile_state active)) = true /\
  length (db_identities (w_database (ra_world after))) = 1%nat.
Proof. intros after. split_and!; vm_compute; reflexivity. Qed.
