(* ===== verification/Query.v ===== *)
(** * Queries for public availability

    [availability/identity.rs] and [availability/query.rs] of the domain and
    [availability_query.rs] of the application: references to public listings,
    the bounded values a local query is made of, the digest that identifies a
    complete request, the order of the rows of a page, and the cursor with which
    the next page is asked for.  A cursor is text that anyone can write; it is
    accepted only if it is the canonical text of a position for exactly the
    request it comes with. *)

From Stdlib Require Import Bool ZArith Lia Strings.Byte Strings.String.
From stdpp Require Import base decidable option list numbers strings.
From S2P Require Import Prelude Containers Encoding Hub Reference Identity Snapshot.

(** ** Errors *)

Module AvailabilityFailure.
Inductive AvailabilityFailure :=
| InvalidInput | UnsupportedProfile | ScopeMismatch | StaleQuery | Capacity | Unavailable.
End AvailabilityFailure.
Abbreviation AvailabilityFailure := AvailabilityFailure.AvailabilityFailure.

(** [impl From<AvailabilityFailure> for SafeError]. *)
Definition failure_error (failure : AvailabilityFailure) : SafeError :=
  match failure with
  | AvailabilityFailure.InvalidInput =>
      SafeError_new SafeErrorCode.AvailabilityInvalidInput "The availability request is invalid."
  | AvailabilityFailure.UnsupportedProfile =>
      SafeError_new SafeErrorCode.AvailabilityUnsupportedProfile
        "This availability profile is unsupported."
  | AvailabilityFailure.ScopeMismatch =>
      SafeError_new SafeErrorCode.AvailabilityScopeMismatch
        "The availability request belongs to another scope."
  | AvailabilityFailure.StaleQuery =>
      SafeError_new SafeErrorCode.AvailabilityStaleQuery "The availability query is stale."
  | AvailabilityFailure.Capacity =>
      SafeError_new SafeErrorCode.AvailabilityCapacity
        "The availability operation reached its capacity."
  | AvailabilityFailure.Unavailable =>
      SafeError_new SafeErrorCode.AvailabilityUnavailable "Availability discovery is unavailable."
  end.

Module AvailabilityQueryError.
Inductive AvailabilityQueryError :=
| InvalidInput | InputTooLarge | ScopeMismatch | StaleQuery | Capacity.
#[global] Instance AvailabilityQueryError_eq_dec : EqDecision AvailabilityQueryError.
Proof. solve_decision. Defined.
End AvailabilityQueryError.
Abbreviation AvailabilityQueryError := AvailabilityQueryError.AvailabilityQueryError.

(** [impl From<AvailabilityQueryError> for SafeError]. *)
Definition query_error (error : AvailabilityQueryError) : SafeError :=
  failure_error
    match error with
    | AvailabilityQueryError.InvalidInput | AvailabilityQueryError.InputTooLarge =>
        AvailabilityFailure.InvalidInput
    | AvailabilityQueryError.ScopeMismatch => AvailabilityFailure.ScopeMismatch
    | AvailabilityQueryError.StaleQuery => AvailabilityFailure.StaleQuery
    | AvailabilityQueryError.Capacity => AvailabilityFailure.Capacity
    end.

(** ** Public references *)

(** The event crate, outside the repository: event identifiers, which are 32
    bytes with a canonical hexadecimal text, and coordinates, which keep the text
    they were parsed from. *)
Class NostrReferences := {
  event_id : Type;
  #[global] event_id_eq_dec :: EqDecision event_id;
  event_id_from_bytes : array 32 -> event_id;
  event_id_bytes : event_id -> array 32;
  event_id_parse : list byte -> option event_id;
  event_id_bytes_from b : event_id_bytes (event_id_from_bytes b) = b;
  event_id_from_bytes_of i : event_id_from_bytes (event_id_bytes i) = i;
  COORDINATE_MAX_BYTES : nat;
  KIND_CLASSIFIED_LISTING : Z;
  coordinate : Type;
  #[global] coordinate_eq_dec :: EqDecision coordinate;
  coordinate_parse : list byte -> option coordinate;
  coordinate_text : coordinate -> list byte;
  coordinate_kind : coordinate -> Z;
  coordinate_pubkey : coordinate -> PublicKey;
  coordinate_identifier : coordinate -> list byte;
  coordinate_parse_text v c : coordinate_parse v = Some c -> coordinate_text c = v
}.

Definition invalid_reference : SafeError :=
  SafeError_new SafeErrorCode.InvalidProfileMetadata "The public availability reference is invalid.".

Record PublicPublisher := PublicPublisher_from_public_key { publisher_key : PublicKey }.
#[global] Instance PublicPublisher_eq_dec : EqDecision PublicPublisher.
Proof. solve_decision. Defined.

Definition EVENT_ID_HEX_BYTES : nat := 64.
Definition LISTING_COORDINATE_PREFIX : list byte := list_byte_of_string "30402:".

(** [str::strip_prefix] and [str::split_once]. *)
Definition strip_prefix (prefix value : list byte) : option (list byte) :=
  if starts_with value prefix then Some (drop (length prefix) value) else None.
Fixpoint split_once (c : byte) (value : list byte) : option (list byte * list byte) :=
  match value with
  | [] => None
  | b :: value =>
      if b ==? c then Some ([], value)
      else (fun parts => (b :: parts.1, parts.2)) <$> split_once c value
  end.

Section References.
Context `{NostrReferences, NostrKeys}.

Definition PublicPublisher_from_hex (value : list byte) : result PublicPublisher SafeError :=
  let? key := PublicKey_from_hex value in Ok (PublicPublisher_from_public_key key).

Definition AvailabilityEventVersion : Type := event_id.
#[global] Instance AvailabilityEventVersion_eq_dec : EqDecision AvailabilityEventVersion :=
  event_id_eq_dec.

Definition AvailabilityEventVersion_from_hex (value : list byte)
  : result AvailabilityEventVersion SafeError :=
  if negb (length value =? EVENT_ID_HEX_BYTES)%nat || negb (forallb is_lower_hex value)
  then Err invalid_reference
  else ok_or (event_id_parse value) invalid_reference.

Definition listing_check (value : coordinate) : bool :=
  negb ((coordinate_kind value !=? KIND_CLASSIFIED_LISTING)
        || (coordinate_identifier value ==? [])
        || (COORDINATE_MAX_BYTES <? length (coordinate_text value))%nat).
Definition AvailabilityListingCoordinate : Type := refined listing_check.
#[global] Instance AvailabilityListingCoordinate_eq_dec : EqDecision AvailabilityListingCoordinate :=
  refined_eq_dec listing_check.

Definition listing_from_canonical (value : coordinate)
  : result AvailabilityListingCoordinate SafeError :=
  checked listing_check invalid_reference value.

Definition listing_parse (value : list byte) : result AvailabilityListingCoordinate SafeError :=
  if (COORDINATE_MAX_BYTES <? length value)%nat then Err invalid_reference
  else
    let? remainder := ok_or (strip_prefix LISTING_COORDINATE_PREFIX value) invalid_reference in
    let? parts := ok_or (split_once ":"%byte remainder) invalid_reference in
    if parts.2 ==? [] then Err invalid_reference
    else
      let? _ := map_err (fun _ => invalid_reference) (PublicKey_from_hex parts.1) in
      let? c := ok_or (coordinate_parse value) invalid_reference in
      listing_from_canonical c.

Definition listing_text (self : AvailabilityListingCoordinate) : list byte := coordinate_text (raw self).
Definition listing_publisher (self : AvailabilityListingCoordinate) : PublicPublisher :=
  PublicPublisher_from_public_key (coordinate_pubkey (raw self)).
End References.

Section ReferenceLaws.
Context `{NostrReferences, NostrKeys}.

(** A reference that is parsed keeps its text, within the bounds of the app. *)
Lemma listing_parse_text value c :
  listing_parse value = Ok c ->
  listing_text c = value /\ (length value <= COORDINATE_MAX_BYTES)%nat /\
  coordinate_kind (raw c) = KIND_CLASSIFIED_LISTING /\ coordinate_identifier (raw c) <> [].
Proof.
  unfold listing_parse, listing_from_canonical, listing_text. intros Hp. step_ok Hp.
  apply checked_Ok in Hp. rewrite Hp.
  match goal with E : ok_or (coordinate_parse value) _ = Ok _ |- _ =>
    apply ok_or_Ok, coordinate_parse_text in E; rewrite E end.
  breflect. split; [done|]. split; [lia|]. rewrite <- Hp.
  apply (raw_elim (fun c => coordinate_kind c = KIND_CLASSIFIED_LISTING /\ coordinate_identifier c <> []) c).
  unfold listing_check. intros r Hr. breflect. naive_solver.
Qed.
End ReferenceLaws.

(** ** The values of a query *)

Definition AVAILABILITY_PAGE_DEFAULT_ROWS : Z := 50.
Definition AVAILABILITY_PAGE_MAX_ROWS : Z := 100.
Definition AVAILABILITY_QUERY_TEXT_MAX_BYTES : nat := 512.
Definition AVAILABILITY_CURSOR_MAX_BYTES : nat := 512.
Definition QUERY_FINGERPRINT_DOMAIN : list byte := domain_tag "harvestcircle.availability.query.v1".
Definition CURSOR_ENCODED_BYTES : nat := 151.
Definition HEX_DIGITS : list byte := list_byte_of_string "0123456789abcdef".

Definition page_limit_check (rows : Z) : bool :=
  negb ((rows =? 0) || (rows >? AVAILABILITY_PAGE_MAX_ROWS)) && (0 <=? rows).
Abbreviation AvailabilityPageLimit := (refined page_limit_check).
Definition AvailabilityPageLimit_new (rows : Z) : result AvailabilityPageLimit AvailabilityQueryError :=
  checked page_limit_check AvailabilityQueryError.InvalidInput rows.
Definition AvailabilityPageLimit_default : AvailabilityPageLimit :=
  Refined AVAILABILITY_PAGE_DEFAULT_ROWS eq_refl.

Definition search_text_check (value : list byte) : bool :=
  negb (AVAILABILITY_QUERY_TEXT_MAX_BYTES <? length value)%nat.
Abbreviation AvailabilitySearchText := (refined search_text_check).
Definition AvailabilitySearchText_new (value : list byte)
  : result AvailabilitySearchText AvailabilityQueryError :=
  checked search_text_check AvailabilityQueryError.InputTooLarge value.

(** The shared status, of which the query knows both cases. *)
Module FoodAvailabilityStatus.
Inductive FoodAvailabilityStatus := Active | Sold.
#[global] Instance FoodAvailabilityStatus_eq_dec : EqDecision FoodAvailabilityStatus.
Proof. solve_decision. Defined.
End FoodAvailabilityStatus.
Abbreviation FoodAvailabilityStatus := FoodAvailabilityStatus.FoodAvailabilityStatus.

Record AvailabilityQueryFilters := {
  qf_search : option AvailabilitySearchText;
  qf_publisher : option PublicPublisher;
  qf_status : option FoodAvailabilityStatus
}.
#[global] Instance AvailabilityQueryFilters_eq_dec : EqDecision AvailabilityQueryFilters.
Proof. solve_decision. Defined.

Abbreviation U64 := (refined u64_range).
(** The signed time of an event: the shared newtype around a [u64]. *)
Abbreviation EventTimestamp := U64.

Record AvailabilityQueryContextFields := {
  qx_context_id : array 32;
  qx_store_generation : array 32;
  qx_source_revision : U64;
  qx_projection_generation : U64
}.
#[global] Instance AvailabilityQueryContextFields_eq_dec : EqDecision AvailabilityQueryContextFields.
Proof. solve_decision. Defined.
Definition query_context_check (self : AvailabilityQueryContextFields) : bool :=
  negb ((raw (qx_context_id self) ==? zero_bytes 32) || (raw (qx_store_generation self) ==? zero_bytes 32)).
Abbreviation AvailabilityQueryContext := (refined query_context_check).
Definition AvailabilityQueryContext_new (context_id store_generation : array 32)
    (source_revision projection_generation : U64)
  : result AvailabilityQueryContext AvailabilityQueryError :=
  checked query_context_check AvailabilityQueryError.InvalidInput {|
    qx_context_id := context_id; qx_store_generation := store_generation;
    qx_source_revision := source_revision; qx_projection_generation := projection_generation |}.

(** ** The order of rows *)

Section Rows.
Context `{NostrReferences}.

Record AvailabilityOrderKey := {
  ok_created_at : EventTimestamp;
  ok_version : AvailabilityEventVersion
}.
#[global] Instance AvailabilityOrderKey_eq_dec : EqDecision AvailabilityOrderKey.
Proof. solve_decision. Defined.

(** [impl Ord for AvailabilityOrderKey]: the latest event first, then by the bytes
    of the identifier. *)
Definition order_compare (self other : AvailabilityOrderKey) : comparison :=
  match kcompare (ok_created_at other) (ok_created_at self) with
  | Eq => kcompare (event_id_bytes (ok_version self)) (event_id_bytes (ok_version other))
  | c => c
  end.

Definition order_position (self : AvailabilityOrderKey) : Z * array 32 :=
  (- raw (ok_created_at self), event_id_bytes (ok_version self)).

Lemma order_compare_position a b :
  order_compare a b = kcompare (order_position a) (order_position b).
Proof.
  unfold order_compare, order_position. simpl. unfold prod_compare. simpl.
  rewrite <- Z.compare_opp.
  by destruct (Z.compare _ _).
Qed.

Lemma order_position_inj a b : order_position a = order_position b -> a = b.
Proof.
  destruct a as [t v], b as [t' v']. unfold order_position. simpl. intros [= Ht Hv].
  f_equal; [apply refined_eq; lia|].
  by rewrite <- (event_id_from_bytes_of v), Hv, event_id_from_bytes_of.
Qed.

#[global] Program Instance order_TotalOrd : TotalOrd AvailabilityOrderKey :=
  {| kcompare := order_compare |}.
Next Obligation.
  intros a b. rewrite order_compare_position, kcompare_eq. split; [apply order_position_inj|by intros ->].
Qed.
Next Obligation. intros a b. rewrite !order_compare_position. apply kcompare_antisym. Qed.
Next Obligation. intros a b c. rewrite !order_compare_position. apply kcompare_trans. Qed.

Definition is_after (self previous : AvailabilityOrderKey) : bool := kltb previous self.
End Rows.

(** ** Fingerprints *)

Definition status_tag (status : option FoodAvailabilityStatus) : Z :=
  match status with
  | None => 0
  | Some FoodAvailabilityStatus.Active => 1
  | Some FoodAvailabilityStatus.Sold => 2
  end.
(** A search text: its length in bytes, then the bytes. *)
Definition enc_search (search : AvailabilitySearchText) : list byte :=
  be_bytes 8 (Z.of_nat (length (raw search))) ++ raw search.
Definition enc_publisher (publisher : PublicPublisher) : list byte := raw (publisher_key publisher).
Definition enc_counter (counter : U64) : list byte := be_bytes 8 (raw counter).

(** The bytes that [AvailabilityQueryFingerprint::new] hashes. *)
Definition query_message (owner : PublicKey) (context : AvailabilityQueryContext)
    (session_generation : U64) (filters : AvailabilityQueryFilters)
    (limit : AvailabilityPageLimit) : list byte :=
  QUERY_FINGERPRINT_DOMAIN ++ raw owner ++
  raw (qx_context_id (raw context)) ++ raw (qx_store_generation (raw context)) ++
  enc_counter (qx_source_revision (raw context)) ++
  enc_counter (qx_projection_generation (raw context)) ++
  enc_counter session_generation ++
  enc_option enc_search (qf_search filters) ++
  enc_option enc_publisher (qf_publisher filters) ++
  enc_tag (status_tag (qf_status filters)) ++
  be_bytes 2 (raw limit).

Abbreviation AvailabilityQueryFingerprint := (array 32) (only parsing).
Definition AvailabilityQueryFingerprint_new `{Sha256} (owner : PublicKey)
    (context : AvailabilityQueryContext) (session_generation : U64)
    (filters : AvailabilityQueryFilters) (limit : AvailabilityPageLimit)
  : AvailabilityQueryFingerprint :=
  digest32 (query_message owner context session_generation filters limit).

(** ** Cursors *)

(** [char::from(HEX_DIGITS[usize::from(nibble)])], for a nibble. *)
Definition nibble_digit (nibble : Z) : byte := default x00 (HEX_DIGITS !! Z.to_nat nibble).
Definition append_hex (value bytes : list byte) : list byte :=
  foldl (fun value byte =>
    (value ++ [nibble_digit (Z.shiftr (byte_val byte) 4)])
      ++ [nibble_digit (Z.land (byte_val byte) 0x0F)]) value bytes.

(** [hex_digit]: of the cursor's alphabet. *)
Definition cursor_hex_digit (b : byte) : result Z AvailabilityQueryError :=
  let v := byte_val b in
  if (0x30 <=? v) && (v <=? 0x39) then Ok (v - 0x30)
  else if (0x61 <=? v) && (v <=? 0x66) then Ok (v - 0x61 + 10)
  else Err AvailabilityQueryError.InvalidInput.

(** The loop over the pairs of [decode_hex]: [n] bytes of the array, and the
    input cut in twos. *)
Fixpoint decode_hex_pairs (n : nat) (input : list byte) : result (list byte) AvailabilityQueryError :=
  match n, input with
  | S n, high :: low :: input =>
      let? high := cursor_hex_digit high in
      let? low := cursor_hex_digit low in
      let? rest := decode_hex_pairs n input in
      Ok (byte_of_Z (Z.lor (Z.shiftl high 4) low) :: rest)
  | _, _ => Ok (replicate n x00)
  end.
Definition decode_hex_array (n : nat) (input : list byte) : result (list byte) AvailabilityQueryError :=
  if negb (length input =? n * 2)%nat then Err AvailabilityQueryError.InvalidInput
  else decode_hex_pairs n input.

(** [&input[from..to]]. *)
Definition slice (from to : nat) (input : list byte) : list byte := drop from (take to input).

Section Cursors.
Context `{NostrReferences}.

(** The fields are private: [encode] and [parse] make all cursors. *)
Record AvailabilityPageCursor := {
  pc_value : list byte;
  pc_after : AvailabilityOrderKey
}.
#[global] Instance AvailabilityPageCursor_eq_dec : EqDecision AvailabilityPageCursor.
Proof. solve_decision. Defined.

Definition cursor_encode (fingerprint : AvailabilityQueryFingerprint) (after : AvailabilityOrderKey)
  : AvailabilityPageCursor :=
  let value := list_byte_of_string "hcq1:" in
  let value := append_hex value (raw fingerprint) in
  let value := value ++ [":"%byte] in
  let value := append_hex value (enc_counter (ok_created_at after)) in
  let value := value ++ [":"%byte] in
  let value := append_hex value (raw (event_id_bytes (ok_version after))) in
  {| pc_value := value; pc_after := after |}.

Definition is_ascii_byte (b : byte) : bool := byte_val b <? 128.

(** The indexing is in range once the length is known. *)
Definition cursor_parse (value : list byte) (expected : AvailabilityQueryFingerprint)
  : result AvailabilityPageCursor AvailabilityQueryError :=
  if (AVAILABILITY_CURSOR_MAX_BYTES <? length value)%nat then Err AvailabilityQueryError.InputTooLarge
  else if negb (length value =? CURSOR_ENCODED_BYTES)%nat || negb (forallb is_ascii_byte value)
  then Err AvailabilityQueryError.InvalidInput
  else if (slice 0 5 value !=? list_byte_of_string "hcq1:")
          || (value !! 69%nat !=? Some ":"%byte) || (value !! 86%nat !=? Some ":"%byte)
  then Err AvailabilityQueryError.InvalidInput
  else
    let? fingerprint := decode_hex_array 32 (slice 5 69 value) in
    let? timestamp := decode_hex_array 8 (slice 70 86 value) in
    let? id := decode_hex_array 32 (slice 87 151 value) in
    if fingerprint !=? raw expected then Err AvailabilityQueryError.StaleQuery
    else
      let? created_at := checked u64_range AvailabilityQueryError.InvalidInput (be_value timestamp) in
      let? id := checked (array_ok 32) AvailabilityQueryError.InvalidInput id in
      Ok {| pc_value := value;
            pc_after := {| ok_created_at := created_at; ok_version := event_id_from_bytes id |} |}.

End Cursors.

(** ** Pages *)

Module AvailabilityPageContinuation.
Section AvailabilityPageContinuation.
Context `{NostrReferences}.
Inductive AvailabilityPageContinuation := End | More (cursor : AvailabilityPageCursor).
End AvailabilityPageContinuation.
End AvailabilityPageContinuation.
Abbreviation AvailabilityPageContinuation := AvailabilityPageContinuation.AvailabilityPageContinuation.

Section Pages.
Context `{NostrReferences, Sha256}.

Record AvailabilityPage (T : Type) := {
  ap_items : list T;
  ap_continuation : AvailabilityPageContinuation;
  ap_projection_generation : U64
}.
#[global] Arguments Build_AvailabilityPage {T}.
#[global] Arguments ap_items {T}.
#[global] Arguments ap_continuation {T}.
#[global] Arguments ap_projection_generation {T}.

Definition AvailabilityPage_new {T} (limit : AvailabilityPageLimit) (items : list T)
    (continuation : AvailabilityPageContinuation) (projection_generation : U64)
  : result (AvailabilityPage T) AvailabilityQueryError :=
  if Z.of_nat (length items) >? raw limit then Err AvailabilityQueryError.Capacity
  else Ok {| ap_items := items; ap_continuation := continuation;
             ap_projection_generation := projection_generation |}.

(** ** Scoped queries *)

Record AvailabilityLocalQueryScope := {
  qs_owner : PublicKey;
  qs_context : AvailabilityQueryContext;
  qs_session_generation : SessionGeneration
}.
#[global] Instance AvailabilityLocalQueryScope_eq_dec : EqDecision AvailabilityLocalQueryScope.
Proof. solve_decision. Defined.

Definition validate_current (self current : AvailabilityLocalQueryScope)
  : result unit AvailabilityQueryError :=
  let original_context := raw (qs_context self) in
  let current_context := raw (qs_context current) in
  if (qs_owner self !=? qs_owner current)
     || (qx_context_id original_context !=? qx_context_id current_context)
  then Err AvailabilityQueryError.ScopeMismatch
  else if (qx_store_generation original_context !=? qx_store_generation current_context)
     || (qx_source_revision original_context !=? qx_source_revision current_context)
     || (qx_projection_generation original_context !=? qx_projection_generation current_context)
     || (qs_session_generation self !=? qs_session_generation current)
  then Err AvailabilityQueryError.StaleQuery
  else Ok tt.

Record ScopedAvailabilityQuery := {
  sq_scope : AvailabilityLocalQueryScope;
  sq_filters : AvailabilityQueryFilters;
  sq_limit : AvailabilityPageLimit;
  sq_cursor : option AvailabilityPageCursor;
  sq_fingerprint : AvailabilityQueryFingerprint
}.

Definition scope_message (scope : AvailabilityLocalQueryScope) (filters : AvailabilityQueryFilters)
    (limit : AvailabilityPageLimit) : list byte :=
  query_message (qs_owner scope) (qs_context scope) (qs_session_generation scope) filters limit.

Definition ScopedAvailabilityQuery_new (scope : AvailabilityLocalQueryScope)
    (filters : AvailabilityQueryFilters) (limit : AvailabilityPageLimit) (cursor : option (list byte))
  : result ScopedAvailabilityQuery AvailabilityQueryError :=
  let fingerprint :=
    AvailabilityQueryFingerprint_new (qs_owner scope) (qs_context scope)
      (qs_session_generation scope) filters limit in
  let? cursor := transpose_map (fun value => cursor_parse value fingerprint) cursor in
  Ok {| sq_scope := scope; sq_filters := filters; sq_limit := limit; sq_cursor := cursor;
        sq_fingerprint := fingerprint |}.

Definition query_page {T} (self : ScopedAvailabilityQuery) (items : list T)
    (next : option AvailabilityOrderKey) : result (AvailabilityPage T) AvailabilityQueryError :=
  if Z.of_nat (length items) >? raw (sq_limit self) then Err AvailabilityQueryError.Capacity
  else
    let continuation :=
      match next with
      | None => AvailabilityPageContinuation.End
      | Some after => AvailabilityPageContinuation.More (cursor_encode (sq_fingerprint self) after)
      end in
    AvailabilityPage_new (sq_limit self) items continuation
      (qx_projection_generation (raw (qs_context (sq_scope self)))).
End Pages.

(** ** Hexadecimal text *)

Lemma append_hex_run value bytes : append_hex value bytes = value ++ concat (hex_pair <$> bytes).
Proof.
  unfold append_hex. revert value. induction bytes as [|b bytes IH]; intros value; [by rewrite app_nil_r|].
  cbn [foldl]. rewrite IH.
  change (concat (hex_pair <$> b :: bytes)) with (hex_pair b ++ concat (hex_pair <$> bytes)).
  rewrite app_assoc. f_equal. rewrite <- app_assoc. f_equal.
Qed.

Lemma cursor_hex_digit_run b v : cursor_hex_digit b = Ok v -> 0 <= v < 16 /\ hex_digit v = b.
Proof. intros H. destruct b; try discriminate H; injection H as <-;
    (split; [vm_compute; split; [discriminate|reflexivity]|vm_compute; reflexivity]). Qed.
Lemma cursor_hex_digit_print v : 0 <= v < 16 -> cursor_hex_digit (hex_digit v) = Ok v.
Proof.
  intros Hv. assert (Forall (fun v => cursor_hex_digit (hex_digit v) = Ok v) (seqZ 0 16)) as Hf
    by (apply (bool_decide_unpack _); vm_compute; exact I).
  eapply (proj1 (list.Forall_forall _ _) Hf), elem_of_seqZ. lia.
Qed.

Lemma nibbles_of x y :
  0 <= x < 16 -> 0 <= y < 16 ->
  let b := byte_of_Z (Z.lor (Z.shiftl x 4) y) in
  Z.shiftr (byte_val b) 4 = x /\ Z.land (byte_val b) 0x0F = y.
Proof.
  intros Hx Hy. assert (Z.lor (Z.shiftl x 4) y = 16 * x + y) as ->; [|by apply hex_nibbles].
  rewrite Z.shiftl_mul_pow2 by lia. change (2 ^ 4) with 16. rewrite Z.mul_comm.
  apply Z.bits_inj'. intros n Hn.
  assert (forall n, 0 <= n -> Z.testbit (Z.land (16 * x) y) n = false) as Hd.
  { intros k Hk. rewrite Z.land_spec. change 16 with (2 ^ 4). rewrite Z.mul_comm.
    destruct (Z.lt_ge_cases k 4); [by rewrite Z.mul_pow2_bits_low by lia|].
    rewrite andb_comm. rewrite (Z.bits_above_log2 y k); [done|lia|].
    destruct (Z.eq_dec y 0) as [->|]; [simpl; lia|]. apply Z.log2_lt_pow2; [lia|].
    assert (2 ^ 4 <= 2 ^ k) by (apply Z.pow_le_mono_r; lia). lia. }
  rewrite Z.add_nocarry_lxor; [|by apply Z.bits_inj'; intros; rewrite Z.bits_0; apply Hd].
  rewrite Z.lor_spec, Z.lxor_spec. specialize (Hd n Hn). rewrite Z.land_spec in Hd.
  destruct (Z.testbit (16 * x) n), (Z.testbit y n); done.
Qed.

Lemma decode_hex_pairs_print l : decode_hex_pairs (length l) (concat (hex_pair <$> l)) = Ok l.
Proof.
  induction l as [|b l IH]; [done|].
  change (concat (hex_pair <$> b :: l)) with (hex_pair b ++ concat (hex_pair <$> l)).
  pose proof (byte_val_range b) as Hb. unfold hex_pair at 1. cbn [length app decode_hex_pairs].
  assert (0 <= Z.shiftr (byte_val b) 4 < 16) as Hh.
  { rewrite Z.shiftr_div_pow2 by lia. change (2 ^ 4) with 16. Z.to_euclidean_division_equations; lia. }
  assert (0 <= Z.land (byte_val b) 15 < 16) as Hl.
  { change 15 with (Z.ones 4). rewrite Z.land_ones by lia. change (2 ^ 4) with 16.
    Z.to_euclidean_division_equations; lia. }
  rewrite !cursor_hex_digit_print by done. cbn [bind]. rewrite IH. cbn [bind].
  f_equal. f_equal. destruct (nibbles_of _ _ Hh Hl) as [H1 H2].
  assert (forall a b, Z.shiftr (byte_val a) 4 = Z.shiftr (byte_val b) 4 ->
    Z.land (byte_val a) 15 = Z.land (byte_val b) 15 -> a = b) as Hinj; [|by apply Hinj].
  clear. intros a b H1 H2. apply byte_val_inj.
  rewrite Z.shiftr_div_pow2 in H1 by lia. rewrite Z.shiftr_div_pow2 in H1 by lia.
  change 15 with (Z.ones 4) in H2. rewrite !Z.land_ones in H2 by lia. change (2 ^ 4) with 16 in *.
  Z.to_euclidean_division_equations; lia.
Qed.

Lemma print_decode_hex_pairs n input l :
  length input = (n * 2)%nat -> decode_hex_pairs n input = Ok l ->
  input = concat (hex_pair <$> l) /\ length l = n.
Proof.
  revert input l. induction n as [|n IH]; intros input l Hn H; simpl in H.
  { injection H as <-. by destruct input. }
  destruct input as [|a [|b input]]; [simpl in Hn; lia..|].
  step_ok H. rename a0 into x. step_ok H. step_ok H. injection H as <-.
  match goal with E : cursor_hex_digit a = Ok ?x, E' : cursor_hex_digit b = Ok ?y |- _ =>
    apply cursor_hex_digit_run in E as [Hx Ha]; apply cursor_hex_digit_run in E' as [Hy Hb];
    destruct (nibbles_of _ _ Hx Hy) as [H1 H2] end.
  match goal with E : decode_hex_pairs _ _ = Ok ?r |- _ =>
    apply IH in E as [-> <-]; [|simpl in Hn; lia] end.
  split; [|done].
  match goal with |- _ = concat (hex_pair <$> ?c :: ?r) =>
    change (concat (hex_pair <$> c :: r)) with (hex_pair c ++ concat (hex_pair <$> r)) end.
  unfold hex_pair. rewrite H1, H2, Ha, Hb. done.
Qed.

(** ** Slices *)

Lemma slice_length from to l : (from <= to <= length l)%nat -> length (slice from to l) = (to - from)%nat.
Proof. intros Hl. unfold slice. rewrite length_drop, length_take. lia. Qed.
Lemma slice_middle a b c from to :
  length a = from -> (length a + length b = to)%nat -> slice from to (a ++ b ++ c) = b.
Proof.
  intros <- <-. unfold slice. rewrite app_assoc, take_app_length', drop_app_length'; [done..|].
  by rewrite length_app.
Qed.
Lemma slice_cons from to l x :
  l !! from = Some x -> (from < to)%nat -> slice from to l = x :: slice (S from) to l.
Proof.
  intros Hx Ht. unfold slice. apply drop_S. by rewrite lookup_take_lt by lia.
Qed.
Lemma slice_join from mid to l :
  (from <= mid <= to)%nat -> slice from to l = slice from mid l ++ slice mid to l.
Proof.
  intros Hm. assert (forall a b, (a <= b)%nat -> slice a b l = take (b - a) (drop a l)) as Hs.
  { intros a b Hb. unfold slice. rewrite take_drop_commute. do 2 f_equal. lia. }
  rewrite !Hs by lia. replace (drop mid l) with (drop (mid - from) (drop from l)).
  - rewrite take_take_drop. f_equal. lia.
  - rewrite drop_drop. f_equal. lia.
Qed.
Lemma slice_all l n : length l = n -> slice 0 n l = l.
Proof. intros <-. unfold slice. rewrite take_ge by lia. done. Qed.

Lemma hex_print_ascii l : forallb is_ascii_byte (concat (hex_pair <$> l)) = true.
Proof.
  induction l as [|b l IH]; [done|].
  change (concat (hex_pair <$> b :: l)) with (hex_pair b ++ concat (hex_pair <$> l)).
  rewrite forallb_app, IH, andb_true_r. destruct b; vm_compute; reflexivity.
Qed.

Lemma decode_hex_print n l : length l = n -> decode_hex_array n (concat (hex_pair <$> l)) = Ok l.
Proof.
  intros <-. unfold decode_hex_array. rewrite hex_print_length, (Nat.mul_comm 2), Nat.eqb_refl.
  apply decode_hex_pairs_print.
Qed.
Lemma print_decode_hex n input l :
  decode_hex_array n input = Ok l -> input = concat (hex_pair <$> l) /\ length l = n.
Proof.
  unfold decode_hex_array. intros Hd. step_ok Hd. breflect. by apply print_decode_hex_pairs.
Qed.

Lemma be_value_range l : 0 <= be_value l < 256 ^ Z.of_nat (length l).
Proof.
  induction l as [|b l IH]; simpl be_value; [done|]. pose proof (byte_val_range b).
  cbn [length]. rewrite Nat2Z.inj_succ, Z.pow_succ_r by lia. nia.
Qed.
Lemma be_value_inj l k : length l = length k -> be_value l = be_value k -> l = k.
Proof.
  revert k. induction l as [|b l IH]; intros [|c k] Hl E; try done. cbn [be_value length] in *.
  injection Hl as Hl. rewrite Hl in E. pose proof (be_value_range l) as Hb. rewrite Hl in Hb.
  pose proof (be_value_range k).
  assert (byte_val b = byte_val c /\ be_value l = be_value k) as [Hv Hr].
  { apply (Z.div_mod_unique (256 ^ Z.of_nat (length k))); [lia..|]. by rewrite !(Z.mul_comm (256 ^ _)). }
  apply byte_val_inj in Hv as ->. f_equal. by apply IH.
Qed.
Lemma be_bytes_value l : be_bytes (length l) (be_value l) = l.
Proof.
  apply be_value_inj; [apply be_bytes_length|]. rewrite be_value_bytes. apply Z.mod_small, be_value_range.
Qed.
Lemma u64_bounds (c : U64) : 0 <= raw c < 2 ^ 64.
Proof.
  apply (raw_elim (fun v => 0 <= v < 2 ^ 64) c). unfold u64_range. intros v Hv. breflect. lia.
Qed.

(** The fields of a framed text: five bytes, then 64, 16 and 64 digits. *)
Lemma frame_fields p a b c x y :
  length p = 5%nat -> length a = 64%nat -> length b = 16%nat -> length c = 64%nat ->
  let value := p ++ a ++ [x] ++ b ++ [y] ++ c in
  slice 0 5 value = p /\ slice 5 69 value = a /\ value !! 69%nat = Some x /\
  slice 70 86 value = b /\ value !! 86%nat = Some y /\ slice 87 151 value = c.
Proof.
  intros Hp Ha Hb Hc value.
  assert (value = (p ++ a ++ [x]) ++ b ++ [y] ++ c) as H1 by (unfold value; by rewrite <- !app_assoc).
  assert (value = (p ++ a ++ [x] ++ b ++ [y]) ++ c ++ []) as H2
    by (unfold value; by rewrite <- !app_assoc, app_nil_r).
  split_and!.
  - exact (slice_middle [] p _ 0 5 eq_refl Hp).
  - apply slice_middle; [done|lia].
  - unfold value. rewrite app_assoc. apply list_lookup_middle. rewrite length_app. lia.
  - rewrite H1. apply slice_middle; rewrite !length_app; simpl; lia.
  - rewrite H1, app_assoc. apply list_lookup_middle. rewrite !length_app. simpl. lia.
  - rewrite H2. apply slice_middle; rewrite !length_app; simpl; lia.
Qed.

Section CursorLaws.
Context `{NostrReferences}.

Definition cursor_text (fingerprint : array 32) (after : AvailabilityOrderKey) : list byte :=
  list_byte_of_string "hcq1:" ++ concat (hex_pair <$> raw fingerprint) ++ [":"%byte] ++
  concat (hex_pair <$> enc_counter (ok_created_at after)) ++ [":"%byte] ++
  concat (hex_pair <$> raw (event_id_bytes (ok_version after))).

Lemma cursor_encode_text fp after : pc_value (cursor_encode fp after) = cursor_text fp after.
Proof. unfold cursor_encode, cursor_text. simpl pc_value. rewrite !append_hex_run, <- !app_assoc. done. Qed.

Lemma hex_array_length (a : array 32) : length (concat (hex_pair <$> raw a)) = 64%nat.
Proof. by rewrite hex_print_length, array_length. Qed.
Lemma hex_counter_length c : length (concat (hex_pair <$> enc_counter c)) = 16%nat.
Proof. unfold enc_counter. by rewrite hex_print_length, be_bytes_length. Qed.

Lemma cursor_text_length fp after : length (cursor_text fp after) = CURSOR_ENCODED_BYTES.
Proof.
  unfold cursor_text. rewrite !length_app, !hex_array_length, hex_counter_length. done.
Qed.


(** What is printed is read back, for the request it was printed for. *)
Lemma cursor_parse_text fp expected after :
  cursor_parse (cursor_text fp after) expected =
    if raw fp !=? raw expected then Err AvailabilityQueryError.StaleQuery
    else Ok {| pc_value := cursor_text fp after; pc_after := after |}.
Proof.
  destruct after as [created version].
  pose proof (cursor_text_length fp {| ok_created_at := created; ok_version := version |}) as Hl.
  unfold cursor_parse. rewrite Hl. change (_ <? CURSOR_ENCODED_BYTES)%nat with false.
  rewrite Nat.eqb_refl. cbn [negb orb].
  destruct (frame_fields (list_byte_of_string "hcq1:") _ _ _ ":"%byte ":"%byte eq_refl (hex_array_length fp)
    (hex_counter_length created) (hex_array_length (event_id_bytes version)))
    as (F0 & F1 & F2 & F3 & F4 & F5).
  assert (forallb is_ascii_byte (cursor_text fp
    {| ok_created_at := created; ok_version := version |}) = true) as Ha.
  { unfold cursor_text. by rewrite !forallb_app, !hex_print_ascii. }
  rewrite Ha. cbn [negb orb]. unfold cursor_text. cbn [ok_created_at ok_version].
  rewrite F0, F1, F2, F3, F4, F5. rewrite !(bool_decide_true (_ = _)) by done. cbn [negb orb].
  rewrite (decode_hex_print 32 (raw fp)), (decode_hex_print 8 (enc_counter created)),
    (decode_hex_print 32 (raw (event_id_bytes version))) by (apply array_length || apply be_bytes_length).
  cbn [bind]. destruct (negb _); [done|].
  unfold enc_counter. rewrite be_value_bytes, Z.mod_small by apply u64_bounds.
  rewrite !checked_raw. cbn [bind]. by rewrite event_id_from_bytes_of.
Qed.

(** The text of a cursor is canonical: what is accepted is what is printed, and
    the position read is the one printed. *)
Lemma cursor_parse_run value expected cursor :
  cursor_parse value expected = Ok cursor <->
  value = cursor_text expected (pc_after cursor) /\ pc_value cursor = value.
Proof.
  split.
  - unfold cursor_parse. intros Hp.
    destruct (AVAILABILITY_CURSOR_MAX_BYTES <? length value)%nat; [done|].
    destruct (negb _ || _) eqn:Hl; [done|]. destruct (_ || _ || _) eqn:Hf in Hp; [done|].
    apply orb_false_iff in Hl as [Hl%negb_false_iff%Nat.eqb_eq _].
    apply orb_false_iff in Hf as [[H0%negb_false_iff%bool_decide_eq_true
      H1%negb_false_iff%bool_decide_eq_true]%orb_false_iff H2%negb_false_iff%bool_decide_eq_true].
    step_ok Hp.
    match goal with E : _ !=? raw expected = false |- _ =>
      apply negb_false_iff, bool_decide_eq_true in E; rewrite E in * end.
    injection Hp as <-. cbn [pc_after pc_value]. split; [|done].
    unfold cursor_text, enc_counter. cbn [ok_created_at ok_version].
    rewrite event_id_bytes_from.
    repeat match goal with
      | E : checked _ _ _ = Ok _ |- _ => apply checked_Ok in E; rewrite E; clear E
      | E : decode_hex_array _ _ = Ok _ |- _ => apply print_decode_hex in E as [? ?]
      end.
    match goal with Ht : length ?t = 8%nat |- _ =>
      pose proof (be_bytes_value t) as Hv; rewrite Ht in Hv; rewrite Hv end.
    repeat match goal with E : slice _ _ _ = concat _ |- _ => rewrite <- E; clear E end.
    rewrite <- H0.
    rewrite <- (slice_all value CURSOR_ENCODED_BYTES Hl) at 1. unfold CURSOR_ENCODED_BYTES in *.
    rewrite (slice_join 0 5 151), (slice_join 5 69 151) by lia.
    rewrite (slice_cons 69 151 value ":"%byte) by (done || lia).
    rewrite (slice_join 70 86 151) by lia.
    rewrite (slice_cons 86 151 value ":"%byte) by (done || lia). done.
  - intros [-> Hv]. rewrite cursor_parse_text, bool_decide_true by done. cbn [negb].
    destruct cursor as [text after]. simpl in *. by subst text.
Qed.
End CursorLaws.

(** ** What a query promises *)

#[global] Instance enc_search_prefix : PrefixCode enc_search.
Proof.
  intros a b r s E. unfold enc_search in E. rewrite <- !app_assoc in E.
  assert (forall t : AvailabilitySearchText, (length (raw t) <= 512)%nat) as Hl.
  { intros t. apply (raw_elim (fun l => (length l <= 512)%nat) t).
    unfold search_text_check, AVAILABILITY_QUERY_TEXT_MAX_BYTES. intros l Hl. breflect. lia. }
  pose proof (Hl a). pose proof (Hl b).
  apply app_inj_1 in E as [E1 E]; [|by rewrite !be_bytes_length].
  apply be_bytes_inj in E1; [|lia..]. apply app_inj_1 in E as [E ->]; [|lia].
  by apply refined_eq in E as ->.
Qed.
#[global] Instance enc_publisher_prefix : PrefixCode enc_publisher.
Proof.
  apply (fixed_prefix_code _ 32); [intros; apply array_length|].
  intros [a] [b] E. f_equal. by apply refined_eq.
Qed.
#[global] Instance enc_counter_prefix : PrefixCode enc_counter.
Proof.
  apply (fixed_prefix_code _ 8); [intros; apply be_bytes_length|].
  intros a b E. apply refined_eq, (be_bytes_inj 8 _ _ (u64_bounds a) (u64_bounds b) E).
Qed.

Lemma page_limit_bounds (l : AvailabilityPageLimit) : 1 <= raw l <= 100.
Proof.
  apply (raw_elim (fun v => 1 <= v <= 100) l).
  unfold page_limit_check, AVAILABILITY_PAGE_MAX_ROWS. intros v Hv. breflect. lia.
Qed.

(** The bytes hashed determine the request. *)
Lemma scope_message_inj scope scope' filters filters' limit limit' :
  scope_message scope filters limit = scope_message scope' filters' limit' ->
  scope = scope' /\ filters = filters' /\ limit = limit'.
Proof.
  destruct scope as [o c g], scope' as [o' c' g'], filters as [s p t], filters' as [s' p' t'].
  unfold scope_message, query_message.
  cbn [qs_owner qs_context qs_session_generation qf_search qf_publisher qf_status].
  intros E. apply app_inv_head in E.
  apply app_inj_1 in E as [Ho%refined_eq E]; [|by rewrite !array_length].
  apply app_inj_1 in E as [Hx%refined_eq E]; [|by rewrite !array_length].
  apply app_inj_1 in E as [Hs%refined_eq E]; [|by rewrite !array_length].
  repeat (apply prefix_inv in E as [? E]).
  apply app_inj_1 in E as [Et E]; [|done].
  pose proof (page_limit_bounds limit). pose proof (page_limit_bounds limit').
  apply be_bytes_inj in E; [|lia..].
  assert (c = c') as ->.
  { apply refined_eq. destruct (raw c), (raw c'). simpl in *. congruence. }
  assert (t = t') as -> by (destruct t as [[]|], t' as [[]|]; done).
  apply refined_eq in E. by subst.
Qed.

Lemma validate_current_Ok self current : validate_current self current = Ok tt <-> self = current.
Proof.
  destruct self as [o c g], current as [o' c' g']. unfold validate_current. cbn [qs_owner qs_context qs_session_generation].
  split.
  - rewrite !guard_Ok, !orb_false_iff, !negb_false_iff, !bool_decide_eq_true.
    intros ([-> H1] & [[[H2 H3] H4] ->] & _). f_equal. apply refined_eq.
    destruct (raw c), (raw c'). simpl in *. congruence.
  - intros [= -> -> ->]. by rewrite !bool_decide_true.
Qed.

Section Promises.
Context `{NostrReferences, Sha256}.

(** C38: a cursor is canonical and belongs to one request.  A text is accepted for a
    request exactly if it is the text that a page of that request hands out for the
    position it is read as; a well-formed cursor of another request is stale. *)
Theorem cursor_roundtrip value (expected : AvailabilityQueryFingerprint) :
  (forall cursor, cursor_parse value expected = Ok cursor <->
     value = pc_value cursor /\ cursor = cursor_encode expected (pc_after cursor)) /\
  (forall fingerprint after, value = pc_value (cursor_encode fingerprint after) ->
     fingerprint <> expected -> cursor_parse value expected = Err AvailabilityQueryError.StaleQuery).
Proof.
  split.
  - intros [text after]. rewrite cursor_parse_run. cbn [pc_after pc_value].
    rewrite <- cursor_encode_text. split.
    + intros [-> ->]. by split.
    + intros [-> Hc]. apply (f_equal pc_value) in Hc. cbn [pc_value] in Hc. by subst.
  - intros fingerprint after -> Hn. rewrite cursor_encode_text, cursor_parse_text.
    rewrite bool_decide_false; [done|]. intros E. apply Hn. by apply refined_eq.
Qed.

(** Two different messages with one digest. *)
Definition collides (m m' : list byte) : Prop := m <> m' /\ sha256 m = sha256 m'.

(** C33: a page continues its own request and no other.  A query hands out a page
    exactly if the rows fit its limit; a page that says there is more carries a
    cursor with which the same request goes on behind the last position, and any
    other request, of another owner, context, session, filter or limit, is refused as
    stale with it, unless its message and that of the query are a collision of the
    digest. *)
Theorem continuation_correct {T} scope filters limit cursor (items : list T) next query :
  ScopedAvailabilityQuery_new scope filters limit cursor = Ok query ->
  match query_page query items next with
  | Err error => error = AvailabilityQueryError.Capacity /\ raw limit < Z.of_nat (length items)
  | Ok page =>
      ap_items page = items /\ Z.of_nat (length items) <= raw limit /\
      ap_projection_generation page = qx_projection_generation (raw (qs_context scope)) /\
      match next, ap_continuation page with
      | None, AvailabilityPageContinuation.End => True
      | Some after, AvailabilityPageContinuation.More continued =>
          pc_after continued = after /\
          (exists query', ScopedAvailabilityQuery_new scope filters limit (Some (pc_value continued))
             = Ok query' /\ sq_cursor query' = Some continued) /\
          forall scope' filters' limit', (scope', filters', limit') <> (scope, filters, limit) ->
            ScopedAvailabilityQuery_new scope' filters' limit' (Some (pc_value continued)) =
              Err AvailabilityQueryError.StaleQuery \/
            collides (scope_message scope filters limit) (scope_message scope' filters' limit')
      | _, _ => False
      end
  end.
Proof.
  intros Hq. unfold ScopedAvailabilityQuery_new in Hq. step_ok Hq. injection Hq as <-.
  unfold query_page, AvailabilityPage_new. cbn [sq_limit sq_scope sq_fingerprint].
  destruct (Z.of_nat (length items) >? raw limit) eqn:Hl; breflect; [done|].
  cbn [ap_items ap_continuation ap_projection_generation]. split_and!; [done|lia|done|].
  destruct next as [after|]; [|done]. split; [done|].
  unfold ScopedAvailabilityQuery_new, transpose_map. split.
  - eexists. rewrite cursor_encode_text, cursor_parse_text, bool_decide_true by done.
    cbn [negb bind]. split; [reflexivity|]. cbn [sq_cursor]. f_equal.
    unfold cursor_encode at 1. by rewrite <- cursor_encode_text.
  - intros scope' filters' limit' Hn. rewrite cursor_encode_text, cursor_parse_text.
    destruct (bool_decide _) eqn:Ed in |- *; [right|by left].
    apply bool_decide_eq_true in Ed. split; [|exact Ed].
    intros Hm. apply Hn. by apply scope_message_inj in Hm as (-> & -> & ->).
Qed.
End Promises.

(** ** Closed examples *)

(** Coordinates as their text, of one author. *)
Definition sample_references : NostrReferences.
Proof.
  refine {|
    event_id := array 32;
    event_id_from_bytes b := b; event_id_bytes i := i;
    event_id_parse value := None;
    COORDINATE_MAX_BYTES := 512; KIND_CLASSIFIED_LISTING := 30402;
    coordinate := list byte;
    coordinate_parse value := if starts_with value (list_byte_of_string "30402:") then Some value else None;
    coordinate_text c := c; coordinate_kind c := 30402; coordinate_pubkey c := sample_key 1;
    coordinate_identifier c := drop 71 c |}; try done.
  intros v c. destruct (starts_with _ _); congruence.
Defined.
#[local] Existing Instance sample_references.
#[local] Existing Instance sample_sha256.

Definition sample_u64 (z : Z) : U64 := default (Refined 0 eq_refl) (check_value u64_range z).
Definition sample_limit (z : Z) : AvailabilityPageLimit :=
  default AvailabilityPageLimit_default (check_value page_limit_check z).
Definition sample_context : AvailabilityQueryContext :=
  default (Refined {| qx_context_id := sample_key 1; qx_store_generation := sample_key 1;
                      qx_source_revision := sample_u64 0; qx_projection_generation := sample_u64 0 |} eq_refl)
    (check_value query_context_check
       {| qx_context_id := sample_key 3; qx_store_generation := sample_key 4;
          qx_source_revision := sample_u64 7; qx_projection_generation := sample_u64 9 |}).
Definition sample_query_scope : AvailabilityLocalQueryScope :=
  {| qs_owner := sample_key 1; qs_context := sample_context;
     qs_session_generation := SessionGeneration_initial |}.
Definition sample_filters : AvailabilityQueryFilters :=
  {| qf_search := None; qf_publisher := None; qf_status := Some FoodAvailabilityStatus.Active |}.
Definition sample_position : AvailabilityOrderKey :=
  {| ok_created_at := sample_u64 1700000000; ok_version := sample_key 11 |}.
Definition sample_query : ScopedAvailabilityQuery := {|
  sq_scope := sample_query_scope; sq_filters := sample_filters; sq_limit := sample_limit 2;
  sq_cursor := None;
  sq_fingerprint := AvailabilityQueryFingerprint_new (sample_key 1) sample_context
    SessionGeneration_initial sample_filters (sample_limit 2) |}.

Lemma cursor_roundtrip_witness :
  exists cursor,
    cursor_parse (pc_value (cursor_encode (sample_key 5) sample_position)) (sample_key 5) = Ok cursor /\
    cursor_parse (pc_value (cursor_encode (sample_key 5) sample_position)) (sample_key 6) =
      Err AvailabilityQueryError.StaleQuery.
Proof.
  exists (cursor_encode (sample_key 5) sample_position). split.
  - apply cursor_roundtrip. split; reflexivity.
  - apply (proj2 (cursor_roundtrip _ _) (sample_key 5) sample_position eq_refl).
    intros E. apply (f_equal raw) in E. revert E. vm_compute. discriminate.
Defined.

Lemma continuation_correct_witness :
  ScopedAvailabilityQuery_new sample_query_scope sample_filters (sample_limit 2) None = Ok sample_query /\
  exists page, query_page sample_query [1; 2] (Some sample_position) = Ok page /\
    query_page sample_query [1; 2; 3] None = Err AvailabilityQueryError.Capacity /\
    (ScopedAvailabilityQuery_new sample_query_scope sample_filters (sample_limit 3)
       (Some (pc_value (cursor_encode (sq_fingerprint sample_query) sample_position))) =
       Err AvailabilityQueryError.StaleQuery \/
     collides (scope_message sample_query_scope sample_filters (sample_limit 2))
       (scope_message sample_query_scope sample_filters (sample_limit 3))).
Proof.
  assert (ScopedAvailabilityQuery_new sample_query_scope sample_filters (sample_limit 2) None
    = Ok sample_query) as Hq by reflexivity.
  split; [exact Hq|].
  pose proof (continuation_correct _ _ _ _ [1; 2] (Some sample_position) _ Hq) as Hc.
  eexists. split; [reflexivity|]. split; [reflexivity|].
  destruct Hc as (_ & _ & _ & _ & _ & Hc). apply Hc.
  intros E. apply (f_equal (fun q => raw q.2)) in E. revert E. vm_compute. discriminate.
Defined.
