(* ===== verification/Discovery.v ===== *)
(** * Requests to discover availability, and their outcomes

    [availability_outcomes.rs] of the application: a bounded request for a set of
    relay targets, the progress each target reports for its three streams, the
    outcome that binds exactly one report to each target, and the metadata that is
    printed of it. *)

From Stdlib Require Import Bool ZArith Lia Strings.Byte Strings.String.
From stdpp Require Import base decidable option list numbers strings.
From S2P Require Import Prelude Containers Encoding Hub Reference Identity Snapshot Actor Query.

Definition MAX_DISCOVERY_TARGETS : nat := 16.
Definition MAX_DISCOVERY_FETCH_CALLS : Z := 4.
Definition DISCOVERY_FETCH_RAW_RESERVATION_BYTES : Z := 8388608.
Definition MAX_DISCOVERY_RETURNED_PER_TARGET : Z := 64.
Definition MAX_DISCOVERY_RETURNED_EVENTS : Z := 1024.
Definition MAX_DISCOVERY_METADATA_BYTES : Z := 16384.
Definition METADATA_ENVELOPE_MAX_BYTES : Z := 384.
Definition METADATA_TARGET_MAX_BYTES : Z := 384.

(** The fingerprint of a relay target: code outside the repository, a canonical
    text of 64 hexadecimal digits. *)
Class DiscoveryTargets := {
  target : Type;
  #[global] target_eq_dec :: EqDecision target;
  target_text : target -> list byte;
  target_text_hex t : length (target_text t) = 64%nat /\ forallb is_lower_hex (target_text t) = true
}.

(** [u16] and [u8]; the additions of the source wrap around. *)
Definition u16_range (v : Z) : bool := (0 <=? v) && (v <? 2 ^ 16).
Definition u8_range (v : Z) : bool := (0 <=? v) && (v <? 2 ^ 8).
Abbreviation U16 := (refined u16_range).
Abbreviation U8 := (refined u8_range).
Definition u16_add (a b : Z) : Z := (a + b) mod 2 ^ 16.

(** An element is the same as an earlier one. *)
Definition repeats {A} `{EqDecision A} (l : list A) : bool :=
  existsb (fun i => is_some_and (l !! i) (fun a => bool_decide (a ∈ take i l))) (seq 0 (length l)).

(** ** Requests *)

Section Requests.
Context `{DiscoveryTargets}.

Record AvailabilityDiscoveryRequestFields := {
  dr_request_id : RequestId;
  dr_scope : AvailabilityLocalQueryScope;
  dr_targets : list target;
  dr_deadline_millis : U64
}.
#[global] Instance AvailabilityDiscoveryRequestFields_eq_dec :
  EqDecision AvailabilityDiscoveryRequestFields.
Proof. solve_decision. Defined.

Definition discovery_targets_fit (self : AvailabilityDiscoveryRequestFields) : bool :=
  negb (MAX_DISCOVERY_TARGETS <? length (dr_targets self))%nat.
Definition discovery_request_check (self : AvailabilityDiscoveryRequestFields) : bool :=
  discovery_targets_fit self
  && negb (repeats (dr_targets self)
           || negb ((1 <=? raw (dr_deadline_millis self)) && (raw (dr_deadline_millis self) <=? 30000))).
Definition AvailabilityDiscoveryRequest : Type := refined discovery_request_check.

Definition AvailabilityDiscoveryRequest_new (request_id : RequestId)
    (scope : AvailabilityLocalQueryScope) (targets : list target) (deadline_millis : U64)
  : result AvailabilityDiscoveryRequest SafeError :=
  let self := {| dr_request_id := request_id; dr_scope := scope; dr_targets := targets;
                 dr_deadline_millis := deadline_millis |} in
  if negb (discovery_targets_fit self) then Err (failure_error AvailabilityFailure.Capacity)
  else checked discovery_request_check (failure_error AvailabilityFailure.InvalidInput) self.
End Requests.

(** ** Progress of a stream *)

(** The state of the transport, of which the source knows every case. *)
Module FetchTargetState.
Inductive FetchTargetState :=
| Complete | Partial | Unavailable | FailedRetryable | FailedTerminal | Cancelled.
#[global] Instance FetchTargetState_eq_dec : EqDecision FetchTargetState.
Proof. solve_decision. Defined.
End FetchTargetState.
Abbreviation FetchTargetState := FetchTargetState.FetchTargetState.

Module AvailabilityDiscoveryState.
Inductive AvailabilityDiscoveryState := NotRequested | Requested (state : FetchTargetState).
#[global] Instance AvailabilityDiscoveryState_eq_dec : EqDecision AvailabilityDiscoveryState.
Proof. solve_decision. Defined.
End AvailabilityDiscoveryState.
Abbreviation AvailabilityDiscoveryState := AvailabilityDiscoveryState.AvailabilityDiscoveryState.

Definition state_label (self : AvailabilityDiscoveryState) : list byte :=
  list_byte_of_string
    match self with
    | AvailabilityDiscoveryState.NotRequested => "not_requested"
    | AvailabilityDiscoveryState.Requested FetchTargetState.Complete => "complete"
    | AvailabilityDiscoveryState.Requested FetchTargetState.Partial => "partial"
    | AvailabilityDiscoveryState.Requested FetchTargetState.Unavailable => "unavailable"
    | AvailabilityDiscoveryState.Requested FetchTargetState.FailedRetryable => "failed_retryable"
    | AvailabilityDiscoveryState.Requested FetchTargetState.FailedTerminal => "failed_terminal"
    | AvailabilityDiscoveryState.Requested FetchTargetState.Cancelled => "cancelled"
    end.

Module AvailabilityDiscoveryStopReason.
Inductive AvailabilityDiscoveryStopReason := None | BudgetExhausted | DeadlineExpired | Stopped.
#[global] Instance AvailabilityDiscoveryStopReason_eq_dec : EqDecision AvailabilityDiscoveryStopReason.
Proof. solve_decision. Defined.
End AvailabilityDiscoveryStopReason.
Abbreviation AvailabilityDiscoveryStopReason :=
  AvailabilityDiscoveryStopReason.AvailabilityDiscoveryStopReason.

Definition reason_label (self : AvailabilityDiscoveryStopReason) : list byte :=
  list_byte_of_string
    match self with
    | AvailabilityDiscoveryStopReason.None => "none"
    | AvailabilityDiscoveryStopReason.BudgetExhausted => "budget_exhausted"
    | AvailabilityDiscoveryStopReason.DeadlineExpired => "deadline_expired"
    | AvailabilityDiscoveryStopReason.Stopped => "stopped"
    end.

Record AvailabilityDiscoveryProgressFields := {
  dp_state : AvailabilityDiscoveryState;
  dp_reason : AvailabilityDiscoveryStopReason;
  dp_returned : U16
}.
#[global] Instance AvailabilityDiscoveryProgressFields_eq_dec :
  EqDecision AvailabilityDiscoveryProgressFields.
Proof. solve_decision. Defined.

(** [valid]: the reason and the count fit the state. *)
Definition progress_valid (self : AvailabilityDiscoveryProgressFields) : bool :=
  match dp_state self with
  | AvailabilityDiscoveryState.NotRequested
  | AvailabilityDiscoveryState.Requested FetchTargetState.Unavailable =>
      (dp_reason self ==? AvailabilityDiscoveryStopReason.None) && (raw (dp_returned self) =? 0)
  | AvailabilityDiscoveryState.Requested
      (FetchTargetState.Complete | FetchTargetState.FailedRetryable | FetchTargetState.FailedTerminal) =>
      dp_reason self ==? AvailabilityDiscoveryStopReason.None
  | AvailabilityDiscoveryState.Requested FetchTargetState.Partial =>
      match dp_reason self with
      | AvailabilityDiscoveryStopReason.None | AvailabilityDiscoveryStopReason.BudgetExhausted
      | AvailabilityDiscoveryStopReason.DeadlineExpired => true
      | AvailabilityDiscoveryStopReason.Stopped => false
      end
  | AvailabilityDiscoveryState.Requested FetchTargetState.Cancelled =>
      dp_reason self ==? AvailabilityDiscoveryStopReason.Stopped
  end.
Definition progress_check (self : AvailabilityDiscoveryProgressFields) : bool :=
  negb (raw (dp_returned self) >? MAX_DISCOVERY_RETURNED_PER_TARGET) && progress_valid self.
Abbreviation AvailabilityDiscoveryProgress := (refined progress_check).

Definition AvailabilityDiscoveryProgress_new (state : AvailabilityDiscoveryState)
    (reason : AvailabilityDiscoveryStopReason) (returned : U16)
  : result AvailabilityDiscoveryProgress SafeError :=
  if raw returned >? MAX_DISCOVERY_RETURNED_PER_TARGET
  then Err (failure_error AvailabilityFailure.Capacity)
  else checked progress_check (failure_error AvailabilityFailure.InvalidInput)
         {| dp_state := state; dp_reason := reason; dp_returned := returned |}.

Definition progress_returned (self : AvailabilityDiscoveryProgress) : Z := raw (dp_returned (raw self)).

(** ** Outcomes of targets *)

Section Outcomes.
Context `{DiscoveryTargets}.

Record AvailabilityDiscoveryTargetOutcomeFields := {
  to_target : target;
  to_listings : AvailabilityDiscoveryProgress;
  to_profiles : AvailabilityDiscoveryProgress;
  to_deletions : AvailabilityDiscoveryProgress
}.
#[global] Instance AvailabilityDiscoveryTargetOutcomeFields_eq_dec :
  EqDecision AvailabilityDiscoveryTargetOutcomeFields.
Proof. solve_decision. Defined.

Definition target_returned (self : AvailabilityDiscoveryTargetOutcomeFields) : Z :=
  u16_add (u16_add (progress_returned (to_listings self)) (progress_returned (to_profiles self)))
    (progress_returned (to_deletions self)).
Definition target_outcome_check (self : AvailabilityDiscoveryTargetOutcomeFields) : bool :=
  negb (target_returned self >? MAX_DISCOVERY_RETURNED_PER_TARGET).
Definition AvailabilityDiscoveryTargetOutcome : Type := refined target_outcome_check.

Definition AvailabilityDiscoveryTargetOutcome_new (target : target)
    (listings profiles deletions : AvailabilityDiscoveryProgress)
  : result AvailabilityDiscoveryTargetOutcome SafeError :=
  checked target_outcome_check (failure_error AvailabilityFailure.Capacity)
    {| to_target := target; to_listings := listings; to_profiles := profiles;
       to_deletions := deletions |}.

Definition has_complete_stream (self : AvailabilityDiscoveryTargetOutcome) : bool :=
  existsb (fun progress : AvailabilityDiscoveryProgress =>
      dp_state (raw progress) ==? AvailabilityDiscoveryState.Requested FetchTargetState.Complete)
    [to_listings (raw self); to_profiles (raw self); to_deletions (raw self)].
End Outcomes.

(** ** Usage *)

Record AvailabilityDiscoveryUsageFields := { du_fetch_calls : U8; du_returned_events : U16 }.
Definition usage_fits (self : AvailabilityDiscoveryUsageFields) : bool :=
  negb ((raw (du_fetch_calls self) >? MAX_DISCOVERY_FETCH_CALLS)
        || (raw (du_returned_events self) >? MAX_DISCOVERY_RETURNED_EVENTS)).
Definition usage_check (self : AvailabilityDiscoveryUsageFields) : bool :=
  usage_fits self
  && negb ((raw (du_fetch_calls self) =? 0) && negb (raw (du_returned_events self) =? 0)).
Abbreviation AvailabilityDiscoveryUsage := (refined usage_check).
Definition AvailabilityDiscoveryUsage_new (fetch_calls : U8) (returned_events : U16)
  : result AvailabilityDiscoveryUsage SafeError :=
  let self := {| du_fetch_calls := fetch_calls; du_returned_events := returned_events |} in
  if negb (usage_fits self) then Err (failure_error AvailabilityFailure.Capacity)
  else checked usage_check (failure_error AvailabilityFailure.InvalidInput) self.
Definition fetch_calls (self : AvailabilityDiscoveryUsage) : Z := raw (du_fetch_calls (raw self)).
Definition returned_events (self : AvailabilityDiscoveryUsage) : Z := raw (du_returned_events (raw self)).
(** A product of [u64]. *)
Definition reserved_raw_bytes (self : AvailabilityDiscoveryUsage) : Z :=
  (fetch_calls self * DISCOVERY_FETCH_RAW_RESERVATION_BYTES) mod 2 ^ 64.

(** ** Outcomes of requests *)

Section Discovery.
Context `{DiscoveryTargets} {T : Type}.

Record AvailabilityDiscoveryOutcome := {
  do_request : AvailabilityDiscoveryRequest;
  do_usage : AvailabilityDiscoveryUsage;
  do_targets : list AvailabilityDiscoveryTargetOutcome;
  do_items : list T
}.

Definition outcome_target (self : AvailabilityDiscoveryTargetOutcome) : target := to_target (raw self).
Definition outcome_returned (self : AvailabilityDiscoveryTargetOutcome) : Z := target_returned (raw self).
(** [.sum()] of [u16]. *)
Definition sum_returned (targets : list AvailabilityDiscoveryTargetOutcome) : Z :=
  foldl (fun sum outcome => u16_add sum (outcome_returned outcome)) 0 targets.

Definition AvailabilityDiscoveryOutcome_new (request : AvailabilityDiscoveryRequest)
    (usage : AvailabilityDiscoveryUsage) (targets : list AvailabilityDiscoveryTargetOutcome)
    (items : list T) : result AvailabilityDiscoveryOutcome SafeError :=
  let selected := dr_targets (raw request) in
  if (MAX_DISCOVERY_TARGETS <? length targets)%nat
     || (Z.of_nat (length items) >? MAX_DISCOVERY_RETURNED_EVENTS)
  then Err (failure_error AvailabilityFailure.Capacity)
  else if repeats (outcome_target <$> targets)
  then Err (failure_error AvailabilityFailure.InvalidInput)
  else if negb (length targets =? length selected)%nat
          || existsb (fun outcome => negb (bool_decide (outcome_target outcome ∈ selected))) targets
  then Err (failure_error AvailabilityFailure.ScopeMismatch)
  else
    let returned := sum_returned targets in
    if negb (returned =? returned_events usage)
       || (Z.of_nat (length items) >? returned)
       || ((fetch_calls usage =? 0) && existsb has_complete_stream targets)
       || ((selected ==? []) && negb (fetch_calls usage =? 0))
    then Err (failure_error AvailabilityFailure.InvalidInput)
    else Ok {| do_request := request; do_usage := usage; do_targets := targets; do_items := items |}.

(** [stream_state]: the state all targets agree on, else partial. *)
Definition stream_state (progress : AvailabilityDiscoveryTargetOutcome -> AvailabilityDiscoveryProgress)
    (self : AvailabilityDiscoveryOutcome) : AvailabilityDiscoveryState :=
  match do_targets self with
  | [] => AvailabilityDiscoveryState.NotRequested
  | first :: _ =>
      let state := dp_state (raw (progress first)) in
      if forallb (fun target => dp_state (raw (progress target)) ==? state) (do_targets self)
      then state
      else AvailabilityDiscoveryState.Requested FetchTargetState.Partial
  end.
Definition listings (self : AvailabilityDiscoveryTargetOutcome) := to_listings (raw self).
Definition profiles (self : AvailabilityDiscoveryTargetOutcome) := to_profiles (raw self).
Definition deletions (self : AvailabilityDiscoveryTargetOutcome) := to_deletions (raw self).

(** ** Metadata *)

(** [Display] of an unsigned integer below [10 ^ fuel]. *)
Fixpoint decimal (fuel : nat) (n : Z) : list byte :=
  match fuel with
  | O => []
  | S fuel =>
      (if n <? 10 then [] else decimal fuel (n / 10)) ++ [nibble_digit (n mod 10)]
  end.
Definition display (n : Z) : list byte := decimal 20 n.

(** A literal of the format strings, with an apostrophe in place of the double
    quote that is printed. *)
Definition text (s : string) : list byte :=
  (fun b => if b ==? "'"%byte then x22 else b) <$> list_byte_of_string s.

Definition append_metadata (self : AvailabilityDiscoveryProgress) : list byte :=
  text "{'state':'" ++ state_label (dp_state (raw self)) ++
  text "','reason':'" ++ reason_label (dp_reason (raw self)) ++
  text "','returned':" ++ display (progress_returned self) ++ text "}".

Definition target_metadata (self : AvailabilityDiscoveryTargetOutcome) : list byte :=
  text "{'target':'" ++ target_text (outcome_target self) ++
  text "','listings':" ++ append_metadata (listings self) ++
  text ",'profiles':" ++ append_metadata (profiles self) ++
  text ",'deletions':" ++ append_metadata (deletions self) ++ text "}".

Definition envelope_metadata (self : AvailabilityDiscoveryOutcome) : list byte :=
  text "{'version':1,'fetch_calls':" ++ display (fetch_calls (do_usage self)) ++
  text ",'reserved_raw_bytes':" ++ display (reserved_raw_bytes (do_usage self)) ++
  text ",'returned_events':" ++ display (returned_events (do_usage self)) ++
  text ",'retained_items':" ++ display (Z.of_nat (length (do_items self))) ++
  text ",'listings':'" ++ state_label (stream_state listings self) ++
  text "','profiles':'" ++ state_label (stream_state profiles self) ++
  text "','deletions':'" ++ state_label (stream_state deletions self) ++
  text "','targets':[".

(** The loop that separates the targets with commas. *)
Fixpoint targets_metadata (first : bool) (targets : list AvailabilityDiscoveryTargetOutcome) : list byte :=
  match targets with
  | [] => []
  | target :: targets =>
      (if first then [] else text ",") ++ target_metadata target ++ targets_metadata false targets
  end.

Definition metadata_json (self : AvailabilityDiscoveryOutcome) : list byte :=
  envelope_metadata self ++ targets_metadata true (do_targets self) ++ text "]}".
End Discovery.
Arguments AvailabilityDiscoveryOutcome {_} T.

(** ** Repetitions and sums *)

Lemma repeats_false {A} `{EqDecision A} (l : list A) : repeats l = false <-> NoDup l.
Proof.
  unfold repeats. split.
  - intros Hr. apply NoDup_alt. intros i j a Hi Hj.
    assert (forall i j a, l !! i = Some a -> l !! j = Some a -> (i < j)%nat -> False) as Hlt.
    { clear i j a Hi Hj. intros i j a Hi Hj Hl.
      assert (existsb (fun i => is_some_and (l !! i) (fun a => bool_decide (a ∈ take i l)))
        (seq 0 (length l)) = true) as Ht; [|congruence].
      apply existsb_exists. exists j. split.
      - apply in_seq. apply lookup_lt_Some in Hj. lia.
      - rewrite Hj. simpl. apply bool_decide_eq_true, list_elem_of_lookup. exists i.
        by rewrite lookup_take_lt. }
    destruct (Nat.lt_trichotomy i j) as [Hl|[Hl|Hl]]; [|done|]; exfalso; eauto.
  - intros Hn. apply not_true_iff_false. intros (j & _ & Hj)%existsb_exists.
    destruct (l !! j) as [a|] eqn:Ea; [|done]. simpl in Hj.
    apply bool_decide_eq_true, list_elem_of_lookup in Hj as [i Hi].
    apply lookup_take_Some in Hi as [Hi Hl].
    pose proof (NoDup_lookup _ _ _ _ Hn Hi Ea). lia.
Qed.

Section Sums.
Context `{DiscoveryTargets}.

Lemma progress_bound (p : AvailabilityDiscoveryProgress) : 0 <= progress_returned p <= 64.
Proof.
  unfold progress_returned. split.
  - apply (raw_elim (fun v => 0 <= v) (dp_returned (raw p))). unfold u16_range. intros v Hv. breflect. lia.
  - apply (raw_elim (fun f => raw (dp_returned f) <= 64) p).
    unfold progress_check, MAX_DISCOVERY_RETURNED_PER_TARGET. intros f Hf. breflect. lia.
Qed.

(** The events a target reports, as integers that do not wrap around. *)
Definition target_events (self : AvailabilityDiscoveryTargetOutcome) : Z :=
  progress_returned (listings self) + progress_returned (profiles self)
  + progress_returned (deletions self).
Definition total_events (targets : list AvailabilityDiscoveryTargetOutcome) : Z :=
  foldr Z.add 0 (target_events <$> targets).

Lemma outcome_returned_run self : outcome_returned self = target_events self.
Proof.
  unfold outcome_returned, target_returned, target_events, u16_add, listings, profiles, deletions.
  pose proof (progress_bound (to_listings (raw self))).
  pose proof (progress_bound (to_profiles (raw self))).
  pose proof (progress_bound (to_deletions (raw self))).
  rewrite Z.mod_small; rewrite Z.mod_small; lia.
Qed.
Lemma target_events_bound self : 0 <= target_events self <= 64.
Proof.
  split.
  - unfold target_events. pose proof (progress_bound (listings self)).
    pose proof (progress_bound (profiles self)). pose proof (progress_bound (deletions self)). lia.
  - rewrite <- outcome_returned_run. unfold outcome_returned.
    apply (raw_elim (fun f => target_returned f <= 64) self).
    unfold target_outcome_check, MAX_DISCOVERY_RETURNED_PER_TARGET. intros f Hf. breflect. lia.
Qed.
Lemma total_events_bound targets : 0 <= total_events targets <= 64 * Z.of_nat (length targets).
Proof.
  unfold total_events. induction targets as [|t targets IH]; csimpl; [lia|].
  pose proof (target_events_bound t). lia.
Qed.
Lemma sum_returned_run targets : (length targets <= 16)%nat -> sum_returned targets = total_events targets.
Proof.
  intros Hl. unfold sum_returned.
  assert (forall acc, 0 <= acc -> acc + total_events targets < 2 ^ 16 ->
    foldl (fun sum outcome => u16_add sum (outcome_returned outcome)) acc targets =
    acc + total_events targets) as Hs.
  { clear Hl. induction targets as [|t targets IH]; intros acc Ha Hb; cbn [foldl]; [unfold total_events; simpl; lia|].
    pose proof (target_events_bound t). pose proof (total_events_bound targets).
    change (total_events (t :: targets)) with (target_events t + total_events targets) in *.
    rewrite outcome_returned_run. unfold u16_add. rewrite Z.mod_small by lia. rewrite IH; lia. }
  pose proof (total_events_bound targets). rewrite Hs; lia.
Qed.
End Sums.

(** ** What an outcome promises *)

Section Promises.
Context `{DiscoveryTargets} {T : Type}.

(** One report for each selected target, and counts that agree. *)
Record admissible (request : AvailabilityDiscoveryRequest) (usage : AvailabilityDiscoveryUsage)
    (targets : list AvailabilityDiscoveryTargetOutcome) (items : list T) : Prop := {
  ad_targets : outcome_target <$> targets ≡ₚ dr_targets (raw request);
  ad_events : total_events targets = returned_events usage;
  ad_items : Z.of_nat (length items) <= total_events targets;
  ad_complete : fetch_calls usage = 0 -> Forall (fun o => has_complete_stream o = false) targets;
  ad_empty : dr_targets (raw request) = [] -> fetch_calls usage = 0
}.

Lemma request_targets (request : AvailabilityDiscoveryRequest) :
  NoDup (dr_targets (raw request)) /\ (length (dr_targets (raw request)) <= 16)%nat.
Proof.
  apply (raw_elim (fun r => NoDup (dr_targets r) /\ (length (dr_targets r) <= 16)%nat) request).
  unfold discovery_request_check, discovery_targets_fit, MAX_DISCOVERY_TARGETS. intros r Hr.
  apply andb_true_iff in Hr as [Hl Hn%negb_true_iff].
  apply orb_false_iff in Hn as [Hn _]. apply repeats_false in Hn. breflect. split; [done|lia].
Qed.

Lemma outcome_admissible request usage targets (items : list T) :
  match AvailabilityDiscoveryOutcome_new request usage targets items with
  | Ok outcome =>
      outcome = {| do_request := request; do_usage := usage; do_targets := targets; do_items := items |} /\
      admissible request usage targets items
  | Err error => ~ admissible request usage targets items /\ exists failure, error = failure_error failure
  end.
Proof.
  unfold AvailabilityDiscoveryOutcome_new. destruct (request_targets request) as [Hn Hs].
  assert (admissible request usage targets items -> (length targets <= 16)%nat) as Hlen.
  { intros Ha. pose proof (Permutation_length (ad_targets _ _ _ _ Ha)) as Hp.
    rewrite length_fmap in Hp. lia. }
  destruct (_ || _) eqn:Ec.
  { split; [|by eexists]. intros Ha. specialize (Hlen Ha). pose proof (ad_items _ _ _ _ Ha).
    pose proof (total_events_bound targets). apply orb_true_iff in Ec as [Ec|Ec]; breflect;
      unfold MAX_DISCOVERY_TARGETS, MAX_DISCOVERY_RETURNED_EVENTS in *; lia. }
  apply orb_false_iff in Ec as [Hl _]. breflect. unfold MAX_DISCOVERY_TARGETS in Hl.
  destruct (repeats _) eqn:Er.
  { split; [|by eexists]. intros [Hp _ _ _ _]. rewrite <- Hp in Hn. apply repeats_false in Hn. congruence. }
  apply repeats_false in Er. destruct (_ || _) eqn:Ep.
  { split; [|by eexists]. intros [Hp _ _ _ _]. apply orb_true_iff in Ep as [Ep|Ep].
    - apply Permutation_length in Hp. rewrite length_fmap in Hp. breflect. done.
    - apply existsb_exists in Ep as (o & Ho%list_elem_of_In & He%negb_true_iff%bool_decide_eq_false).
      apply He. rewrite <- Hp. by apply list_elem_of_fmap_2. }
  assert (outcome_target <$> targets ≡ₚ dr_targets (raw request)) as Hp.
  { apply orb_false_iff in Ep as [Ep1%negb_false_iff%Nat.eqb_eq Ep2].
    apply submseteq_length_Permutation; [|by rewrite length_fmap, Ep1].
    apply NoDup_submseteq; [done|]. intros t (o & -> & Ho)%list_elem_of_fmap.
    apply not_true_iff_false in Ep2. apply dec_stable. intros Hnt. apply Ep2, existsb_exists.
    exists o. split; [by apply list_elem_of_In|]. by rewrite bool_decide_false. }
  rewrite sum_returned_run by lia.
  destruct (_ || _ || _ || _) eqn:Ef.
  - split; [|by eexists]. intros [_ H1 H2 H3 H4].
    apply orb_true_iff in Ef as [[[Ef|Ef]%orb_true_iff|Ef]%orb_true_iff|Ef].
    + breflect. lia.
    + breflect. lia.
    + apply andb_true_iff in Ef as [Ef%Z.eqb_eq (o & Ho%list_elem_of_In & Hx)%existsb_exists].
      specialize (H3 Ef). eapply list.Forall_forall in H3; [|exact Ho]. congruence.
    + apply andb_true_iff in Ef as [Ef%bool_decide_eq_true Ex%negb_true_iff%Z.eqb_neq]. by apply Ex, H4.
  - split; [done|]. apply orb_false_iff in Ef as [[[Ef1 Ef2]%orb_false_iff Ef3]%orb_false_iff Ef4].
    apply andb_false_iff in Ef3, Ef4. constructor; [done|breflect; lia|breflect; lia| |].
    + intros Hf%Z.eqb_eq. apply list.Forall_forall. intros o Ho. apply not_true_iff_false. intros Hx.
      destruct Ef3 as [Ef3|Ef3]; [congruence|]. apply not_true_iff_false in Ef3.
      apply Ef3, existsb_exists. exists o. split; [by apply list_elem_of_In|done].
    + intros He. destruct Ef4 as [Ef4|Ef4]; [by rewrite bool_decide_true in Ef4|].
      by apply negb_false_iff, Z.eqb_eq in Ef4.
Qed.
End Promises.

(** ** The size of the metadata *)

(** A text of at most [n] bytes, all of them ASCII. *)
Definition printed (n : Z) (l : list byte) : Prop :=
  Z.of_nat (length l) <= n /\ forallb is_ascii_byte l = true.

Lemma printed_app m n l k : printed m l -> printed n k -> printed (m + n) (l ++ k).
Proof. intros [H1 H2] [H3 H4]. split; [rewrite length_app; lia|by rewrite forallb_app, H2, H4]. Qed.
Lemma printed_le m n l : m <= n -> printed m l -> printed n l.
Proof. intros Hn [H1 H2]. split; [lia|done]. Qed.

Lemma nibble_digit_ascii v : is_ascii_byte (nibble_digit v) = true.
Proof.
  unfold nibble_digit. destruct (HEX_DIGITS !! Z.to_nat v) as [b|] eqn:E; [|reflexivity]. simpl.
  assert (forallb is_ascii_byte HEX_DIGITS = true) as Ha by reflexivity.
  rewrite forallb_forall in Ha. apply Ha, list_elem_of_In. by eapply list_elem_of_lookup_2.
Qed.
Lemma printed_decimal fuel k n : 1 <= k -> 0 <= n < 10 ^ k -> printed k (decimal fuel n).
Proof.
  revert k n. induction fuel as [|fuel IH]; intros k n Hk [Hn0 Hn]; [split; simpl; lia|]. cbn [decimal].
  assert (printed 1 [nibble_digit (n mod 10)]) as Hd
    by (split; [simpl; lia|simpl; by rewrite nibble_digit_ascii]).
  destruct (n <? 10) eqn:En; breflect.
  - apply (printed_le 1); [lia|exact Hd].
  - replace k with (k - 1 + 1) by lia. apply printed_app; [|exact Hd].
    assert (1 < k). { apply Z.nle_gt. intros Hk1. assert (k = 1) as -> by lia. lia. }
    apply IH; [lia|]. replace (10 ^ k) with (10 * 10 ^ (k - 1)) in Hn
      by (rewrite <- Z.pow_succ_r by lia; f_equal; lia).
    split; [apply Z.div_pos; lia|apply Z.div_lt_upper_bound; lia].
Qed.
Lemma printed_state s : printed 16 (state_label s).
Proof. destruct s as [|[]]; split; vm_compute; (discriminate || reflexivity). Qed.
Lemma printed_reason r : printed 16 (reason_label r).
Proof. destruct r; split; vm_compute; (discriminate || reflexivity). Qed.

(** The bound of a text that is put together, as a sum of bounds of its pieces. *)
Ltac printed_pieces :=
  repeat lazymatch goal with |- printed _ (_ ++ _) => eapply printed_app end;
  lazymatch goal with
  | |- printed _ (text ?s) =>
      let l := eval vm_compute in (Z.of_nat (length (text s))) in
      instantiate (1 := l); split; vm_compute; (discriminate || reflexivity)
  | |- printed _ (state_label _) => apply printed_state
  | |- printed _ (reason_label _) => apply printed_reason
  | _ => idtac
  end.

Section Metadata.
Context `{DiscoveryTargets} {T : Type}.

Lemma printed_progress p : printed 80 (append_metadata p).
Proof.
  eapply printed_le; cycle 1.
  { unfold append_metadata. printed_pieces. apply (printed_decimal _ 2); [lia|].
    pose proof (progress_bound p). lia. }
  lia.
Qed.

Lemma printed_target o : printed 383 (target_metadata o).
Proof.
  eapply printed_le; cycle 1.
  { unfold target_metadata. printed_pieces; [|apply printed_progress..].
    instantiate (1 := 64). destruct (target_text_hex (outcome_target o)) as [Hl Hh]. split; [lia|].
    apply forallb_forall. intros b Hb. rewrite forallb_forall in Hh. specialize (Hh b Hb).
    destruct b; (discriminate Hh || reflexivity). }
  lia.
Qed.

Lemma usage_bounds (usage : AvailabilityDiscoveryUsage) :
  0 <= fetch_calls usage <= 4 /\ 0 <= returned_events usage <= 1024.
Proof.
  assert (0 <= fetch_calls usage /\ 0 <= returned_events usage) as [Hc Hr].
  { unfold fetch_calls, returned_events. split.
    - apply (raw_elim (fun v => 0 <= v) (du_fetch_calls (raw usage))). unfold u8_range.
      intros v Hv. breflect. lia.
    - apply (raw_elim (fun v => 0 <= v) (du_returned_events (raw usage))). unfold u16_range.
      intros v Hv. breflect. lia. }
  assert (fetch_calls usage <= 4 /\ returned_events usage <= 1024) as [? ?]; [|lia].
  apply (raw_elim (fun f => raw (du_fetch_calls f) <= 4 /\ raw (du_returned_events f) <= 1024) usage).
  unfold usage_check, usage_fits, MAX_DISCOVERY_FETCH_CALLS, MAX_DISCOVERY_RETURNED_EVENTS.
  intros f Hf. apply andb_true_iff in Hf as [Hf _]. apply negb_true_iff, orb_false_iff in Hf as [Hf1 Hf2].
  breflect. lia.
Qed.

Lemma printed_targets first targets :
  printed (384 * Z.of_nat (length targets)) (targets_metadata first targets).
Proof.
  revert first. induction targets as [|t targets IH]; intros first; [split; [simpl; lia|done]|].
  cbn [targets_metadata length]. eapply (printed_le (1 + (383 + 384 * Z.of_nat (length targets)))); [lia|].
  apply printed_app; [|apply printed_app; [apply printed_target|apply IH]].
  destruct first; split; vm_compute; (discriminate || reflexivity).
Qed.

(** C39: the metadata of an outcome fits.  Of every outcome that is accepted, the
    printed metadata is ASCII text and takes at most 384 bytes for the envelope and
    384 for each target, hence at most 6528, which is within the limit. *)
Theorem metadata_bounded request usage targets (items : list T) outcome :
  AvailabilityDiscoveryOutcome_new request usage targets items = Ok outcome ->
  let size := Z.of_nat (length (metadata_json outcome)) in
  forallb is_ascii_byte (metadata_json outcome) = true /\
  size <= METADATA_ENVELOPE_MAX_BYTES + METADATA_TARGET_MAX_BYTES * Z.of_nat (length targets) /\
  size <= 6528 /\ size <= MAX_DISCOVERY_METADATA_BYTES.
Proof.
  intros Ho. pose proof (outcome_admissible request usage targets items) as Ha. rewrite Ho in Ha.
  destruct Ha as [-> Ha]. destruct (request_targets request) as [_ Hs].
  pose proof (Permutation_length (ad_targets _ _ _ _ Ha)) as Hl. rewrite length_fmap in Hl.
  pose proof (ad_items _ _ _ _ Ha) as Hi. rewrite (ad_events _ _ _ _ Ha) in Hi.
  destruct (usage_bounds usage) as [Hc Hr].
  assert (0 <= reserved_raw_bytes usage < 10 ^ 8) as Hb.
  { unfold reserved_raw_bytes, DISCOVERY_FETCH_RAW_RESERVATION_BYTES. rewrite Z.mod_small; lia. }
  assert (printed (382 + (384 * Z.of_nat (length targets) + 2)) (metadata_json
    {| do_request := request; do_usage := usage; do_targets := targets; do_items := items |})) as [Hp1 Hp2].
  { unfold metadata_json. cbn [do_targets]. apply printed_app; [|apply printed_app; [apply printed_targets|]].
    - eapply printed_le; cycle 1.
      { unfold envelope_metadata. cbn [do_usage do_items]. printed_pieces.
        - apply (printed_decimal _ 1); lia.
        - apply (printed_decimal _ 8); lia.
        - apply (printed_decimal _ 4); lia.
        - apply (printed_decimal _ 4); lia. }
      lia.
    - split; vm_compute; (discriminate || reflexivity). }
  unfold METADATA_ENVELOPE_MAX_BYTES, METADATA_TARGET_MAX_BYTES, MAX_DISCOVERY_METADATA_BYTES.
  cbv zeta. split; [exact Hp2|]. lia.
Qed.
End Metadata.

(** ** Closed examples *)

(** Two relay targets. *)
Definition sample_targets : DiscoveryTargets.
Proof.
  refine {| target := bool;
            target_text t := replicate 64 (if t then "a"%byte else "b"%byte) |}.
  intros []; split; reflexivity.
Defined.
#[local] Existing Instance sample_targets.

Definition sample_u16 (z : Z) : U16 := default (Refined 0 eq_refl) (check_value u16_range z).
Definition sample_progress (state : FetchTargetState) (returned : Z) : AvailabilityDiscoveryProgress :=
  default (Refined {| dp_state := AvailabilityDiscoveryState.NotRequested;
                      dp_reason := AvailabilityDiscoveryStopReason.None;
                      dp_returned := sample_u16 0 |} eq_refl)
    (check_value progress_check
       {| dp_state := AvailabilityDiscoveryState.Requested state;
          dp_reason := AvailabilityDiscoveryStopReason.None; dp_returned := sample_u16 returned |}).
Definition sample_report (t : bool) (state : FetchTargetState) (returned : Z)
  : AvailabilityDiscoveryTargetOutcome :=
  let fields p := {| to_target := t; to_listings := p;
    to_profiles := sample_progress FetchTargetState.Unavailable 0;
    to_deletions := sample_progress FetchTargetState.Complete 0 |} in
  default (Refined (check := target_outcome_check) (fields (sample_progress FetchTargetState.Unavailable 0))
             ltac:(destruct t; vm_compute; reflexivity))
    (check_value target_outcome_check (fields (sample_progress state returned))).
Definition sample_discovery_request (n : Z) : AvailabilityDiscoveryRequest :=
  default (Refined {| dr_request_id := Refined 1 eq_refl; dr_scope := sample_query_scope; dr_targets := [];
                      dr_deadline_millis := sample_u64 1 |} eq_refl)
    (check_value discovery_request_check
       {| dr_request_id := default (Refined 1 eq_refl) (RequestId_new n); dr_scope := sample_query_scope;
          dr_targets := [true; false]; dr_deadline_millis := sample_u64 5000 |}).
Definition sample_usage : AvailabilityDiscoveryUsage :=
  default (Refined {| du_fetch_calls := Refined 0 eq_refl; du_returned_events := Refined 0 eq_refl |} eq_refl)
    (check_value usage_check
       {| du_fetch_calls := default (Refined 0 eq_refl) (check_value u8_range 2);
          du_returned_events := sample_u16 5 |}).
Definition sample_reports : list AvailabilityDiscoveryTargetOutcome :=
  [sample_report false FetchTargetState.Complete 3; sample_report true FetchTargetState.Partial 2].

Lemma metadata_bounded_witness :
  exists outcome,
    AvailabilityDiscoveryOutcome_new (sample_discovery_request 1) sample_usage sample_reports [1; 2; 3]
      = Ok outcome /\
    stream_state listings outcome = AvailabilityDiscoveryState.Requested FetchTargetState.Partial /\
    Z.of_nat (length (metadata_json outcome)) <= 6528.
Proof.
  eexists. assert (AvailabilityDiscoveryOutcome_new (sample_discovery_request 1) sample_usage
    sample_reports [1; 2; 3] = Ok {| do_request := sample_discovery_request 1; do_usage := sample_usage;
      do_targets := sample_reports; do_items := [1; 2; 3] |}) as Ho by reflexivity.
  split; [exact Ho|]. split; [reflexivity|].
  destruct (metadata_bounded _ _ _ _ _ Ho) as (_ & _ & Hs & _). exact Hs.
Defined.
