(* ===== verification/Views.v ===== *)
(** * Views of public listings

    [availability/projection.rs] of the domain: the view of one verified version
    of a listing, bound to the text it came in, and the view of the head that is
    selected among the versions, which a deletion request may suppress.  What the
    event crates decide (the meaning of the text, admission, suppression) is a
    class; what the views add to it is modelled here. *)

From Stdlib Require Import Bool ZArith Lia Strings.Byte Strings.String.
From stdpp Require Import base decidable option list numbers strings.
From S2P Require Import Prelude Containers Encoding Hub Reference Identity Profile Snapshot Secrets Query.

(** The result of the tolerant admission of a verified listing; [FoodAdmitted] is
    the variant the code calls Admitted. *)
Inductive FoodAdmission (P X : Type) :=
| FoodAdmitted (projection : P)
| Excluded (partition : X)
| ProjectionRejected (code : string)
| AdmissionUnavailable.
Arguments FoodAdmitted {P X}.
Arguments Excluded {P X}.
Arguments ProjectionRejected {P X}.
Arguments AdmissionUnavailable {P X}.

(** The crates of events, outside the repository. *)
Class NostrEvents `{NostrReferences} := {
  event : Type;
  #[global] event_eq_dec :: EqDecision event;
  event_kind : event -> Z;
  event_author : event -> PublicKey;
  event_version : event -> event_id;
  event_created_at : event -> EventTimestamp;
  (** The envelope of a text, which proves nothing about its signature. *)
  RAW_JSON_MAX_BYTES : Z;
  wire_envelope : list byte -> option event;
  (** An event whose signature was verified. *)
  verified : Type;
  verified_event : verified -> event;
  head_coordinate : Type;
  #[global] head_coordinate_eq_dec :: EqDecision head_coordinate;
  head_candidate : event -> option head_coordinate;
  addressable : head_coordinate -> option (Z * PublicKey * list byte);
  food_projection : Type;
  listing_partition : Type;
  admit_listing : verified -> FoodAdmission food_projection listing_partition;
  deletion_request : Type;
  suppression_decision : Type;
  evaluate_suppression : verified -> list deletion_request -> suppression_decision;
  suppressed : suppression_decision -> bool;
  relay_url : Type;
  relay_url_parse : list byte -> option relay_url
}.

Definition MAX_OBSERVATION_SOURCE_BYTES : Z := 2048.
Definition MAX_DELETION_REQUESTS : Z := 4096.
Definition LISTING_COORDINATE_FRAMING_BYTES : nat := 6 + 64 + 1.

Definition invalid_view : SafeError :=
  SafeError_new SafeErrorCode.InvalidProfileMetadata "The public availability view is invalid.".

Module AvailabilityHeadState.
Inductive AvailabilityHeadState := Missing | Focused | Unsupported | Deleted.
#[global] Instance AvailabilityHeadState_eq_dec : EqDecision AvailabilityHeadState.
Proof. solve_decision. Defined.
End AvailabilityHeadState.
Abbreviation AvailabilityHeadState := AvailabilityHeadState.AvailabilityHeadState.

Section Views.
Context `{NostrEvents, NostrKeys}.

(** ** Versions *)

Record AvailabilityObservation := { ao_source : relay_url; ao_observed_at : UnixTimestamp }.
Definition AvailabilityObservation_parse (source : list byte) (observed_at : UnixTimestamp)
  : result AvailabilityObservation SafeError :=
  if Z.of_nat (length source) >? MAX_OBSERVATION_SOURCE_BYTES then Err invalid_view
  else
    let? source := ok_or (relay_url_parse source) invalid_view in
    Ok {| ao_source := source; ao_observed_at := observed_at |}.

Inductive AvailabilityUnsupportedReason :=
| ReasonExcluded (partition : listing_partition)
| ReasonProjectionRejected (code : string).

Inductive AvailabilityProjection :=
| ProjectionFocused (projection : food_projection)
| ProjectionUnsupported (reason : AvailabilityUnsupportedReason).

Record AvailabilityVersionView := {
  vv_verified_event : verified;
  vv_original_json : list byte;
  vv_raw_coordinate : head_coordinate;
  vv_listing_coordinate : option AvailabilityListingCoordinate;
  vv_projection : AvailabilityProjection;
  vv_observation : AvailabilityObservation;
  vv_profile_metadata : option ProfileMetadata
}.

Definition app_listing_coordinate (raw_coordinate : head_coordinate)
  : option AvailabilityListingCoordinate :=
  match addressable raw_coordinate with
  | None => None
  | Some (kind, pubkey, d_tag) =>
      if (kind !=? KIND_CLASSIFIED_LISTING) || (d_tag ==? [])
         || (COORDINATE_MAX_BYTES - LISTING_COORDINATE_FRAMING_BYTES <? length d_tag)%nat
      then None
      else
        match listing_parse (list_byte_of_string "30402:" ++ PublicKey_to_hex pubkey
                             ++ [":"%byte] ++ d_tag) with
        | Ok coordinate => Some coordinate
        | Err _ => None
        end
  end.

Definition view_from_verified (verified_event' : verified) (original_json : list byte)
    (observation : AvailabilityObservation) : result AvailabilityVersionView SafeError :=
  let e := verified_event verified_event' in
  if (Z.of_nat (length original_json) >? RAW_JSON_MAX_BYTES) || (event_kind e !=? KIND_CLASSIFIED_LISTING)
  then Err invalid_view
  else
    let? envelope := ok_or (wire_envelope original_json) invalid_view in
    if envelope !=? e then Err invalid_view
    else
      let? raw_coordinate := ok_or (head_candidate e) invalid_view in
      let listing_coordinate := app_listing_coordinate raw_coordinate in
      let? projection :=
        match admit_listing verified_event' with
        | FoodAdmitted projection => Ok (ProjectionFocused projection)
        | Excluded partition => Ok (ProjectionUnsupported (ReasonExcluded partition))
        | ProjectionRejected code => Ok (ProjectionUnsupported (ReasonProjectionRejected code))
        | AdmissionUnavailable => Err invalid_view
        end in
      Ok {| vv_verified_event := verified_event'; vv_original_json := original_json;
            vv_raw_coordinate := raw_coordinate; vv_listing_coordinate := listing_coordinate;
            vv_projection := projection; vv_observation := observation;
            vv_profile_metadata := None |}.

Definition view_version (self : AvailabilityVersionView) : AvailabilityEventVersion :=
  event_version (verified_event (vv_verified_event self)).
Definition view_publisher (self : AvailabilityVersionView) : PublicPublisher :=
  PublicPublisher_from_public_key (event_author (verified_event (vv_verified_event self))).
Definition view_created_at (self : AvailabilityVersionView) : EventTimestamp :=
  event_created_at (verified_event (vv_verified_event self)).
Definition view_focused (self : AvailabilityVersionView) : option food_projection :=
  match vv_projection self with
  | ProjectionFocused projection => Some projection
  | ProjectionUnsupported _ => None
  end.
Definition view_unsupported_reason (self : AvailabilityVersionView)
  : option AvailabilityUnsupportedReason :=
  match vv_projection self with
  | ProjectionFocused _ => None
  | ProjectionUnsupported reason => Some reason
  end.

Definition view_with_profile (profile : option Kind0ProfileCandidate) (self : AvailabilityVersionView)
  : result AvailabilityVersionView SafeError :=
  if is_some_and profile (fun candidate => kp_author candidate !=? publisher_key (view_publisher self))
  then Err invalid_view
  else Ok {| vv_verified_event := vv_verified_event self; vv_original_json := vv_original_json self;
             vv_raw_coordinate := vv_raw_coordinate self;
             vv_listing_coordinate := vv_listing_coordinate self;
             vv_projection := vv_projection self; vv_observation := vv_observation self;
             vv_profile_metadata := kp_metadata <$> profile |}.

(** ** Heads *)

(** The head selected among the versions, as the event crate names it. *)
Record CurrentEventHead := {
  ch_coordinate : head_coordinate;
  ch_event_id : event_id;
  ch_created_at : U64
}.

Inductive AvailabilityHeadView :=
| EvidenceMissing (coordinate : AvailabilityListingCoordinate)
| EvidenceSelected (version : AvailabilityVersionView) (suppression : suppression_decision).

Definition head_missing (coordinate : AvailabilityListingCoordinate) : AvailabilityHeadView :=
  EvidenceMissing coordinate.

Definition head_from_selected (selected : CurrentEventHead) (version : AvailabilityVersionView)
    (requests : list deletion_request) : result AvailabilityHeadView SafeError :=
  if (Z.of_nat (length requests) >? MAX_DELETION_REQUESTS)
     || (ch_coordinate selected !=? vv_raw_coordinate version)
     || (ch_event_id selected !=? view_version version)
     || (ch_created_at selected !=? view_created_at version)
  then Err invalid_view
  else Ok (EvidenceSelected version (evaluate_suppression (vv_verified_event version) requests)).

Definition head_state (self : AvailabilityHeadView) : AvailabilityHeadState :=
  match self with
  | EvidenceMissing _ => AvailabilityHeadState.Missing
  | EvidenceSelected version suppression =>
      if suppressed suppression then AvailabilityHeadState.Deleted
      else if is_some (view_focused version) then AvailabilityHeadState.Focused
      else AvailabilityHeadState.Unsupported
  end.
Definition head_listing_coordinate (self : AvailabilityHeadView) : option AvailabilityListingCoordinate :=
  match self with
  | EvidenceMissing coordinate => Some coordinate
  | EvidenceSelected version _ => vv_listing_coordinate version
  end.
Definition head_version (self : AvailabilityHeadView) : option AvailabilityVersionView :=
  match self with EvidenceMissing _ => None | EvidenceSelected version _ => Some version end.
Definition head_suppression (self : AvailabilityHeadView) : option suppression_decision :=
  match self with EvidenceMissing _ => None | EvidenceSelected _ suppression => Some suppression end.
Definition head_focused (self : AvailabilityHeadView) : option food_projection :=
  if head_state self ==? AvailabilityHeadState.Focused then head_version self ≫= view_focused else None.

(** ** What a head promises *)

Lemma view_from_verified_run v json observation view :
  view_from_verified v json observation = Ok view ->
  vv_verified_event view = v /\ vv_original_json view = json /\ vv_observation view = observation /\
  event_kind (verified_event v) = KIND_CLASSIFIED_LISTING /\
  wire_envelope json = Some (verified_event v) /\
  head_candidate (verified_event v) = Some (vv_raw_coordinate view) /\
  vv_listing_coordinate view = app_listing_coordinate (vv_raw_coordinate view) /\
  (forall p, view_focused view = Some p <-> admit_listing v = FoodAdmitted p).
Proof.
  unfold view_from_verified. intros Hv.
  destruct (_ || _) eqn:Ek; [done|]. apply orb_false_iff in Ek as [_ Ek%negb_false_iff%bool_decide_eq_true].
  destruct (wire_envelope json) as [envelope|] eqn:Ew; cbn [ok_or bind] in Hv; [|done].
  destruct (envelope !=? _) eqn:Ee; [done|]. apply negb_false_iff, bool_decide_eq_true in Ee. subst envelope.
  destruct (head_candidate _) as [c|] eqn:Ec; cbn [ok_or bind] in Hv; [|done].
  destruct (admit_listing v) as [p|x|code|] eqn:Ea; cbn [bind] in Hv; [..|done]; injection Hv as <-;
    (split_and!; [done..|]); intros q; unfold view_focused; simpl; split; congruence.
Qed.

Lemma app_listing_coordinate_text c coordinate :
  app_listing_coordinate c = Some coordinate ->
  exists pubkey d_tag, addressable c = Some (KIND_CLASSIFIED_LISTING, pubkey, d_tag) /\
    listing_text coordinate =
      list_byte_of_string "30402:" ++ PublicKey_to_hex pubkey ++ [":"%byte] ++ d_tag.
Proof.
  unfold app_listing_coordinate. destruct (addressable c) as [[[kind pubkey] d_tag]|]; [|done].
  destruct (_ || _) eqn:Eg; [done|].
  apply orb_false_iff in Eg as [[Eg%negb_false_iff%bool_decide_eq_true _]%orb_false_iff _]. subst kind.
  destruct (listing_parse _) as [c'|] eqn:Ep; [|done]. intros [= <-].
  apply listing_parse_text in Ep as [Ep _]. by exists pubkey, d_tag.
Qed.

(** What a head shows is the signed version that was selected.  If a head is
    built from a verified event, its text, a profile and a selection, then the text is
    an envelope of exactly that event, which is a listing; the selection names its
    coordinate, identifier and time; the reference the head has is the text of its
    own coordinate; the profile is of its author; and food data is shown exactly if
    admission projects it and no request suppresses the event. *)
Theorem head_correct v json observation profile selected requests view dressed head :
  view_from_verified v json observation = Ok view ->
  view_with_profile profile view = Ok dressed ->
  head_from_selected selected dressed requests = Ok head ->
  wire_envelope json = Some (verified_event v) /\
  event_kind (verified_event v) = KIND_CLASSIFIED_LISTING /\
  head_candidate (verified_event v) = Some (ch_coordinate selected) /\
  ch_event_id selected = event_version (verified_event v) /\
  ch_created_at selected = event_created_at (verified_event v) /\
  (forall coordinate, head_listing_coordinate head = Some coordinate ->
     exists pubkey d_tag,
       addressable (ch_coordinate selected) = Some (KIND_CLASSIFIED_LISTING, pubkey, d_tag) /\
       listing_text coordinate =
         list_byte_of_string "30402:" ++ PublicKey_to_hex pubkey ++ [":"%byte] ++ d_tag) /\
  (forall shown metadata, head_version head = Some shown -> vv_profile_metadata shown = Some metadata ->
     exists candidate, profile = Some candidate /\ kp_metadata candidate = metadata /\
       kp_author candidate = event_author (verified_event v)) /\
  (forall p, head_focused head = Some p <->
     admit_listing v = FoodAdmitted p /\ suppressed (evaluate_suppression v requests) = false) /\
  (head_state head = AvailabilityHeadState.Deleted <->
     suppressed (evaluate_suppression v requests) = true).
Proof.
  intros Hv Hd Hh. apply view_from_verified_run in Hv as (Hvv & _ & _ & Hk & Hw & Hc & Hl & Hf).
  unfold view_with_profile in Hd. destruct (is_some_and _ _) eqn:Ea in Hd; [done|]. injection Hd as <-.
  unfold head_from_selected in Hh. destruct (_ || _ || _ || _) eqn:Eg; [done|]. injection Hh as <-.
  apply orb_false_iff in Eg as [[[_ E1]%orb_false_iff E2]%orb_false_iff E3].
  apply negb_false_iff, bool_decide_eq_true in E1, E2, E3. simpl in E1.
  unfold view_version in E2. unfold view_created_at in E3. simpl in E2, E3.
  unfold view_focused in Hf. rewrite Hvv in *. rewrite E1.
  split_and!; [done..| | | |].
  - intros coordinate. simpl. rewrite Hl. apply app_listing_coordinate_text.
  - intros shown metadata [= <-]. simpl. destruct profile as [candidate|]; simpl; [|done].
    intros [= <-]. exists candidate. split_and!; [done|done|]. simpl in Ea.
    apply negb_false_iff, bool_decide_eq_true in Ea. by rewrite Ea, <- Hvv.
  - intros p. rewrite <- Hf. unfold head_focused, head_state, view_focused. simpl.
    destruct (suppressed _); [rewrite bool_decide_false by done; split; [done|by intros []]|].
    destruct (vv_projection view); simpl.
    + split; [by intros ->|by intros [? _]].
    + split; [done|by intros [? _]].
  - unfold head_state. destruct (suppressed _); [done|]. by destruct (is_some _).
Qed.

Lemma view_with_no_profile view :
  vv_profile_metadata view = None -> view_with_profile None view = Ok view.
Proof. destruct view. simpl. by intros ->. Qed.
Lemma head_from_selected_ok selected version requests :
  is_ok (head_from_selected selected version requests) = true ->
  head_from_selected selected version requests =
    Ok (EvidenceSelected version (evaluate_suppression (vv_verified_event version) requests)).
Proof. unfold head_from_selected. by destruct (_ || _ || _ || _). Qed.
End Views.

(** ** Closed examples *)

#[local] Existing Instance sample_references.

Record SampleEvent := {
  sv_kind : Z; sv_id : array 32; sv_created_at : EventTimestamp; sv_d_tag : list byte; sv_food : bool
}.
#[global] Instance SampleEvent_eq_dec : EqDecision SampleEvent.
Proof. solve_decision. Defined.
Definition sample_listing : SampleEvent := {|
  sv_kind := 30402; sv_id := sample_key 21; sv_created_at := sample_u64 1700000000;
  sv_d_tag := list_byte_of_string "carrots"; sv_food := true |}.

(** Events of one author, of which a text names the one listing; a request deletes
    every event up to its time. *)
Definition sample_event_crates : NostrEvents.
Proof.
  refine {|
    event := SampleEvent; event_kind := sv_kind; event_author _ := sample_key 1;
    event_version := sv_id; event_created_at := sv_created_at;
    RAW_JSON_MAX_BYTES := 65536;
    wire_envelope text := if text ==? list_byte_of_string "listing" then Some sample_listing else None;
    verified := SampleEvent; verified_event e := e;
    head_coordinate := Z * PublicKey * list byte;
    head_candidate e := Some (sv_kind e, sample_key 1, sv_d_tag e);
    addressable c := Some c;
    food_projection := unit; listing_partition := unit;
    admit_listing e := if sv_food e then FoodAdmitted tt else Excluded tt;
    deletion_request := Z; suppression_decision := bool;
    evaluate_suppression e requests := existsb (fun at_ => raw (sv_created_at e) <=? at_) requests;
    suppressed d := d;
    relay_url := list byte; relay_url_parse value := Some value |}.
Defined.
#[local] Existing Instance sample_event_crates.
Definition sample_key_texts : NostrKeys :=
  {| key_from_hex _ := Some (sample_key 1); npub_encode _ := None |}.
#[local] Existing Instance sample_key_texts.

Definition sample_head_selection : CurrentEventHead := {|
  ch_coordinate := (30402, sample_key 1, list_byte_of_string "carrots");
  ch_event_id := sample_key 21; ch_created_at := sample_u64 1700000000 |}.
Definition sample_observation : AvailabilityObservation :=
  {| ao_source := list_byte_of_string "wss://relay"; ao_observed_at := sample_time 1 |}.

Definition sample_view : AvailabilityVersionView :=
  unwrap_or (view_from_verified sample_listing (list_byte_of_string "listing") sample_observation) {|
    vv_verified_event := sample_listing; vv_original_json := []; vv_raw_coordinate := (0, sample_key 1, []);
    vv_listing_coordinate := None; vv_projection := ProjectionFocused tt;
    vv_observation := sample_observation; vv_profile_metadata := None |}.
Definition sample_head (requests : list Z) : AvailabilityHeadView :=
  EvidenceSelected sample_view (evaluate_suppression (vv_verified_event sample_view) requests).

Lemma head_correct_witness :
  head_from_selected sample_head_selection sample_view [] = Ok (sample_head []) /\
  head_focused (sample_head []) = Some tt /\
  is_some (head_listing_coordinate (sample_head [])) = true /\
  head_state (sample_head [1700000000]) = AvailabilityHeadState.Deleted.
Proof.
  assert (view_from_verified sample_listing (list_byte_of_string "listing") sample_observation
    = Ok sample_view) as Hv by (apply is_ok_unwrap_or; vm_compute; reflexivity).
  assert (view_with_profile None sample_view = Ok sample_view) as Hd
    by (apply view_with_no_profile; vm_compute; reflexivity).
  assert (head_from_selected sample_head_selection sample_view [] = Ok (sample_head [])) as Hs
    by (apply head_from_selected_ok; vm_compute; reflexivity).
  assert (head_from_selected sample_head_selection sample_view [1700000000] = Ok (sample_head [1700000000])) as Hg
    by (apply head_from_selected_ok; vm_compute; reflexivity).
  split; [exact Hs|]. split; [|split; [vm_compute; reflexivity|]].
  - destruct (head_correct _ _ _ _ _ _ _ _ _ Hv Hd Hs) as (_ & _ & _ & _ & _ & _ & _ & Hf & _).
    apply Hf. split; reflexivity.
  - destruct (head_correct _ _ _ _ _ _ _ _ _ Hv Hd Hg) as (_ & _ & _ & _ & _ & _ & _ & _ & Hf).
    apply Hf. reflexivity.
Defined.
