(* ===== verification/Lookup.v ===== *)
(** * Local reads and refreshes of availability

    [availability_ports.rs] of the application: the service between the port that
    knows the current scope, the port that reads the store, and the port that
    runs a refresh.  What a port answers is arbitrary; the service checks the
    scope before and after every read, what the reader returned, and that a
    refresh is answered under its own request. *)

From Stdlib Require Import Bool ZArith Lia Strings.Byte Strings.String.
From stdpp Require Import base decidable option list numbers strings.
From S2P Require Import Prelude Containers Encoding Hub Reference Identity Profile Snapshot Secrets Actor Query Discovery Views.

Section Lookup.
Context `{NostrEvents, NostrKeys, Sha256, DiscoveryTargets}.

Abbreviation Outcome := (AvailabilityDiscoveryOutcome AvailabilityEventVersion).

(** The ports: the answers of the admission in the order in which they are asked
    for, what the reader returns, the submissions, and the instants of the clock. *)
Record Ports := {
  current_scope : nat -> result AvailabilityLocalQueryScope SafeError;
  reader_page : ScopedAvailabilityQuery -> result (AvailabilityPage AvailabilityHeadView) SafeError;
  reader_head : AvailabilityLocalQueryScope -> AvailabilityListingCoordinate ->
    result AvailabilityHeadView SafeError;
  reader_version : AvailabilityLocalQueryScope -> AvailabilityListingCoordinate ->
    AvailabilityEventVersion -> result (option AvailabilityVersionView) SafeError;
  refresh_submit : CommandContext -> AvailabilityDiscoveryRequest -> CommandSubmission Outcome;
  monotonic_now : nat -> Instant
}.

(** How many answers and instants were asked for, and what was submitted. *)
Record Asked := {
  as_admissions : nat;
  as_instants : nat;
  as_submitted : list (CommandContext * AvailabilityDiscoveryRequest)
}.

Context (ports : Ports).

Definition ask_scope : stm Asked SafeError AvailabilityLocalQueryScope := fun s =>
  ({| as_admissions := S (as_admissions s); as_instants := as_instants s; as_submitted := as_submitted s |},
   current_scope ports (as_admissions s)).
Definition ask_now : stm Asked SafeError Instant := fun s =>
  ({| as_admissions := as_admissions s; as_instants := S (as_instants s); as_submitted := as_submitted s |},
   Ok (monotonic_now ports (as_instants s))).
Definition ask_submit (context : CommandContext) (request : AvailabilityDiscoveryRequest)
  : stm Asked SafeError (CommandSubmission Outcome) := fun s =>
  ({| as_admissions := as_admissions s; as_instants := as_instants s;
      as_submitted := as_submitted s ++ [(context, request)] |},
   Ok (refresh_submit ports context request)).

Definition failed {A} (failure : AvailabilityFailure) : stm Asked SafeError A :=
  stm_lift (Err (failure_error failure)).

Definition validate_admission (expected : AvailabilityLocalQueryScope) : stm Asked SafeError unit :=
  do! current <- ask_scope;
  stm_lift (map_err query_error (validate_current expected current)).

(** ** Reads *)

(** What is checked of a page that was read. *)
Definition page_checked (query : ScopedAvailabilityQuery)
    (result : result (AvailabilityPage AvailabilityHeadView) SafeError)
  : stm Asked SafeError (AvailabilityPage AvailabilityHeadView) :=
  do! page <- stm_lift result;
  if Z.of_nat (length (ap_items page)) >? raw (sq_limit query) then failed AvailabilityFailure.Capacity
  else if ap_projection_generation page !=? qx_projection_generation (raw (qs_context (sq_scope query)))
  then failed AvailabilityFailure.StaleQuery
  else
    match ap_continuation page with
    | AvailabilityPageContinuation.More cursor =>
        do! _ <- stm_lift (map_err query_error (cursor_parse (pc_value cursor) (sq_fingerprint query)));
        stm_ret page
    | AvailabilityPageContinuation.End => stm_ret page
    end.
Definition read_page (query : ScopedAvailabilityQuery)
  : stm Asked SafeError (AvailabilityPage AvailabilityHeadView) :=
  do! _ <- validate_admission (sq_scope query);
  let result := reader_page ports query in
  do! _ <- validate_admission (sq_scope query);
  page_checked query result.

Definition head_checked (coordinate : AvailabilityListingCoordinate)
    (result : result AvailabilityHeadView SafeError) : stm Asked SafeError AvailabilityHeadView :=
  do! head <- stm_lift result;
  if head_listing_coordinate head !=? Some coordinate then failed AvailabilityFailure.ScopeMismatch
  else stm_ret head.
Definition read_head (scope : AvailabilityLocalQueryScope) (coordinate : AvailabilityListingCoordinate)
  : stm Asked SafeError AvailabilityHeadView :=
  do! _ <- validate_admission scope;
  let result := reader_head ports scope coordinate in
  do! _ <- validate_admission scope;
  head_checked coordinate result.

Definition version_checked (coordinate : AvailabilityListingCoordinate)
    (version : AvailabilityEventVersion) (result : result (option AvailabilityVersionView) SafeError)
  : stm Asked SafeError (option AvailabilityVersionView) :=
  do! retained <- stm_lift result;
  if is_some_and retained (fun view =>
       (vv_listing_coordinate view !=? Some coordinate) || (view_version view !=? version))
  then failed AvailabilityFailure.ScopeMismatch
  else stm_ret retained.
Definition read_version (scope : AvailabilityLocalQueryScope)
    (coordinate : AvailabilityListingCoordinate) (version : AvailabilityEventVersion)
  : stm Asked SafeError (option AvailabilityVersionView) :=
  do! _ <- validate_admission scope;
  let result := reader_version ports scope coordinate version in
  do! _ <- validate_admission scope;
  version_checked coordinate version result.

(** ** Refreshes *)

Record AvailabilityRefreshOperation := {
  ro_request : AvailabilityDiscoveryRequest;
  ro_submission : CommandSubmission Outcome
}.

Definition request_id (request : AvailabilityDiscoveryRequest) : RequestId := dr_request_id (raw request).
Definition failed_receipt (id : RequestId) (error : SafeError) : CommandReceipt Outcome :=
  {| cr_request_id := id; cr_result := CommandResult.Failed error |}.

Definition AvailabilityRefreshOperation_new (request : AvailabilityDiscoveryRequest)
    (submission : CommandSubmission Outcome) : AvailabilityRefreshOperation := {|
  ro_request := request;
  ro_submission :=
    if submission_request_id submission ==? request_id request then submission
    else Rejected (failed_receipt (request_id request) (failure_error AvailabilityFailure.InvalidInput)) |}.

(** [Duration::from_millis] and [Instant::duration_since], in nanoseconds. *)
Definition from_millis (n : U64) : Z := raw n * 1000000.
Definition duration_since (later earlier : Instant) : Z := Z.max 0 (later - earlier).

Definition submit_refresh (request : AvailabilityDiscoveryRequest) (context : CommandContext)
  : stm Asked SafeError AvailabilityRefreshOperation :=
  if request_id request !=? cc_request_id context then failed AvailabilityFailure.InvalidInput
  else
    do! initial_now <- ask_now;
    let expired_before := is_expired context initial_now in
    if negb expired_before
       && (duration_since (cc_deadline context) initial_now >? from_millis (dr_deadline_millis (raw request)))
    then failed AvailabilityFailure.InvalidInput
    else
      do! _ <- validate_admission (dr_scope (raw request));
      do! expired <- (if expired_before then stm_ret true
                      else do! now <- ask_now; stm_ret (is_expired context now));
      do! submission <-
        (if expired
         then stm_ret (Rejected {| cr_request_id := request_id request;
                                   cr_result := CommandResult.TimedOut |})
         else ask_submit context request);
      stm_ret (AvailabilityRefreshOperation_new request submission).

Definition validate_outcome_request (expected returned : AvailabilityDiscoveryRequest)
  : result unit SafeError :=
  if (request_id expected !=? request_id returned)
     || (dr_deadline_millis (raw expected) !=? dr_deadline_millis (raw returned))
  then Err (failure_error AvailabilityFailure.InvalidInput)
  else
    let? _ := map_err query_error (validate_current (dr_scope (raw expected)) (dr_scope (raw returned))) in
    if negb (length (dr_targets (raw expected)) =? length (dr_targets (raw returned)))%nat
       || existsb (fun target => negb (bool_decide (target ∈ dr_targets (raw expected))))
            (dr_targets (raw returned))
    then Err (failure_error AvailabilityFailure.ScopeMismatch)
    else Ok tt.

(** [receipt]: [received] is what came over the channel of an accepted command. *)
Definition receipt (received : option (CommandReceipt Outcome)) (self : AvailabilityRefreshOperation)
    (s : Asked) : Asked * CommandReceipt Outcome :=
  let request := ro_request self in
  let receipt :=
    match ro_submission self with
    | Accepted ticket => ticket_receipt ticket received
    | Rejected receipt => receipt
    end in
  match validate_admission (dr_scope (raw request)) s with
  | (s, Err error) => (s, failed_receipt (request_id request) error)
  | (s, Ok _) =>
      if cr_request_id receipt !=? request_id request
      then (s, failed_receipt (request_id request) (failure_error AvailabilityFailure.InvalidInput))
      else
        match cr_result receipt with
        | CommandResult.Completed outcome =>
            match validate_outcome_request request (do_request outcome) with
            | Err error => (s, failed_receipt (request_id request) error)
            | Ok _ => (s, receipt)
            end
        | _ => (s, receipt)
        end
  end.

(** ** What the service promises *)

Definition asked_once (s : Asked) : Asked :=
  {| as_admissions := S (as_admissions s); as_instants := as_instants s; as_submitted := as_submitted s |}.

Lemma validate_admission_run expected s :
  exists r, validate_admission expected s = (asked_once s, r) /\
    (r = Ok tt <-> current_scope ports (as_admissions s) = Ok expected).
Proof.
  unfold validate_admission, stm_bind, ask_scope, stm_lift. simpl.
  destruct (current_scope ports (as_admissions s)) as [current|e] eqn:Ec; eexists; (split; [reflexivity|]).
  - destruct (validate_current expected current) as [[]|e] eqn:Ev; simpl; (split; [|]).
    + apply validate_current_Ok in Ev as ->. done.
    + done.
    + done.
    + intros [= ->]. by rewrite (proj2 (validate_current_Ok _ _) eq_refl) in Ev.
  - split; congruence.
Qed.

(** The scope that is asked for twice around a read stays the scope of the request. *)
Definition admitted_around (scope : AvailabilityLocalQueryScope) (s : Asked) : Prop :=
  current_scope ports (as_admissions s) = Ok scope /\ current_scope ports (S (as_admissions s)) = Ok scope.

Lemma admitted_read {A} scope (k : stm Asked SafeError A) s :
  let (_, r) := (do! _ <- validate_admission scope; do! _ <- validate_admission scope; k) s in
  forall a, r = Ok a <-> admitted_around scope s /\ (k (asked_once (asked_once s))).2 = Ok a.
Proof.
  unfold stm_bind. destruct (validate_admission_run scope s) as (r1 & -> & Hr1).
  destruct (validate_admission_run scope (asked_once s)) as (r2 & Hv2 & Hr2).
  unfold admitted_around. simpl in Hr2.
  destruct r1 as [[]|e1].
  - rewrite Hv2. destruct r2 as [[]|e2].
    + destruct (k _) as [s2 r]. simpl. intros a. split; [|by intros (_ & ?)].
      intros ?. split; [|done]. split; [by apply Hr1|by apply Hr2].
    + intros a. split; [done|]. intros ((_ & Hc) & _). by apply Hr2 in Hc.
  - intros a. split; [done|]. intros ((Hc & _) & _). by apply Hr1 in Hc.
Qed.

Lemma page_checked_run query result s page :
  (page_checked query result s).2 = Ok page <->
  result = Ok page /\ Z.of_nat (length (ap_items page)) <= raw (sq_limit query) /\
  ap_projection_generation page = qx_projection_generation (raw (qs_context (sq_scope query))) /\
  (forall cursor, ap_continuation page = AvailabilityPageContinuation.More cursor ->
   exists after, pc_value cursor = cursor_text (sq_fingerprint query) after).
Proof.
  unfold page_checked, stm_bind, stm_lift, failed, stm_ret.
  destruct result as [p|e]; simpl; [|naive_solver].
  destruct (Z.of_nat (length (ap_items p)) >? raw (sq_limit query)) eqn:El; breflect; simpl.
  { split; [done|]. intros ([= ->] & ? & _). lia. }
  destruct (_ !=? _) eqn:Eg; simpl.
  { apply negb_true_iff, bool_decide_eq_false in Eg. split; [done|]. by intros ([= ->] & _ & ? & _). }
  apply negb_false_iff, bool_decide_eq_true in Eg.
  destruct (ap_continuation p) as [|cursor] eqn:Ec; simpl.
  { split; [intros [= <-]; split_and!; [done|lia|done|]; congruence|by intros ([= ->] & _)]. }
  pose proof (cursor_parse_run (pc_value cursor) (sq_fingerprint query)) as Hp.
  destruct (cursor_parse _ _) as [c|e]; simpl.
  - split; [|by intros ([= ->] & _)]. intros [= <-]. split_and!; [done|lia|done|].
    rewrite Ec. intros ? [= <-]. exists (pc_after c). by apply Hp.
  - split; [done|]. intros ([= ->] & _ & _ & Hc). destruct (Hc _ Ec) as [after Ha].
    specialize (Hp {| pc_value := pc_value cursor; pc_after := after |}). simpl in Hp.
    discriminate (proj2 Hp (conj Ha eq_refl)).
Qed.

(** A read returns what the reader found, under the current scope, or fails.  A
    page is returned exactly if the scope was that of the query before and after the
    read, the reader returned the page, its rows fit the limit, it is of the query's
    projection, and its continuation, if there is one, is a cursor of this query; a
    head exactly if it is for the coordinate asked for; and a version exactly if none
    is retained or it has the coordinate and the identifier asked for. *)
Theorem reads_admitted s :
  (forall query page, (read_page query s).2 = Ok page <->
     admitted_around (sq_scope query) s /\ reader_page ports query = Ok page /\
     Z.of_nat (length (ap_items page)) <= raw (sq_limit query) /\
     ap_projection_generation page = qx_projection_generation (raw (qs_context (sq_scope query))) /\
     (forall cursor, ap_continuation page = AvailabilityPageContinuation.More cursor ->
      exists after, pc_value cursor = cursor_text (sq_fingerprint query) after)) /\
  (forall scope coordinate head, (read_head scope coordinate s).2 = Ok head <->
     admitted_around scope s /\ reader_head ports scope coordinate = Ok head /\
     head_listing_coordinate head = Some coordinate) /\
  (forall scope coordinate version retained, (read_version scope coordinate version s).2 = Ok retained <->
     admitted_around scope s /\ reader_version ports scope coordinate version = Ok retained /\
     (forall view, retained = Some view ->
      vv_listing_coordinate view = Some coordinate /\ view_version view = version)).
Proof.
  split_and!.
  - intros query page. pose proof (admitted_read (sq_scope query) (page_checked query (reader_page ports query)) s) as Ha.
    unfold read_page. destruct (stm_bind _ _ s) as [s' r]. simpl. rewrite (Ha page), page_checked_run. done.
  - intros scope coordinate head.
    pose proof (admitted_read scope (head_checked coordinate (reader_head ports scope coordinate)) s) as Ha.
    unfold read_head. destruct (stm_bind _ _ s) as [s' r]. simpl. rewrite (Ha head).
    unfold head_checked, stm_bind, stm_lift, failed, stm_ret.
    destruct (reader_head ports scope coordinate) as [h|e]; simpl; [|naive_solver].
    destruct (_ !=? _) eqn:Ec; simpl; [apply negb_true_iff, bool_decide_eq_false in Ec|
      apply negb_false_iff, bool_decide_eq_true in Ec]; naive_solver.
  - intros scope coordinate version retained.
    pose proof (admitted_read scope (version_checked coordinate version
      (reader_version ports scope coordinate version)) s) as Ha.
    unfold read_version. destruct (stm_bind _ _ s) as [s' r]. simpl. rewrite (Ha retained).
    unfold version_checked, stm_bind, stm_lift, failed, stm_ret.
    destruct (reader_version ports scope coordinate version) as [[view|]|e]; simpl; [|naive_solver..].
    destruct (_ || _) eqn:Ec; simpl.
    + apply orb_true_iff in Ec as [Ec|Ec]; apply negb_true_iff, bool_decide_eq_false in Ec; naive_solver.
    + apply orb_false_iff in Ec as [E1%negb_false_iff%bool_decide_eq_true
        E2%negb_false_iff%bool_decide_eq_true]. naive_solver.
Qed.

(** The request an outcome names is the one that was made. *)
Lemma validate_outcome_Ok expected returned :
  validate_outcome_request expected returned = Ok tt <->
  request_id returned = request_id expected /\
  dr_deadline_millis (raw returned) = dr_deadline_millis (raw expected) /\
  dr_scope (raw returned) = dr_scope (raw expected) /\
  dr_targets (raw returned) ≡ₚ dr_targets (raw expected).
Proof.
  destruct (request_targets expected) as [Hne _], (request_targets returned) as [Hnr _].
  unfold validate_outcome_request. rewrite guard_Ok, orb_false_iff, !negb_false_iff, !bool_decide_eq_true.
  split.
  - intros ([Hi Hd] & Hv).
    destruct (validate_current _ _) as [[]|] eqn:Ev; simpl in Hv; [|done].
    apply validate_current_Ok in Ev. destruct (_ || _) eqn:Et; [done|].
    apply orb_false_iff in Et as [El%negb_false_iff%Nat.eqb_eq Et]. split_and!; [done..|].
    apply submseteq_length_Permutation; [|lia]. apply NoDup_submseteq; [done|]. intros t Ht.
    apply dec_stable. intros Hnt. apply not_true_iff_false in Et. apply Et, existsb_exists.
    exists t. split; [by apply list_elem_of_In|]. by rewrite bool_decide_false.
  - intros (Hi & Hd & Hs & Ht). split; [done|]. rewrite Hs, (proj2 (validate_current_Ok _ _) eq_refl). simpl.
    rewrite (Permutation_length Ht), Nat.eqb_refl. simpl.
    destruct (existsb _ _) eqn:Ee; [|done].
    apply existsb_exists in Ee as (t & Hin%list_elem_of_In & Hn%negb_true_iff%bool_decide_eq_false).
    destruct Hn. by rewrite <- Ht.
Qed.

(** What a submission did: nothing was submitted and the command timed out, or it
    was submitted, once, in time and under the scope of the request. *)
Inductive submission_made (request : AvailabilityDiscoveryRequest) (context : CommandContext) (s : Asked)
  : Asked -> AvailabilityRefreshOperation -> Prop :=
| submission_late s' :
    as_submitted s' = as_submitted s ->
    submission_made request context s s'
      (AvailabilityRefreshOperation_new request
         (Rejected {| cr_request_id := request_id request; cr_result := CommandResult.TimedOut |}))
| submission_in_time s' :
    as_submitted s' = as_submitted s ++ [(context, request)] ->
    current_scope ports (as_admissions s) = Ok (dr_scope (raw request)) ->
    monotonic_now ports (as_instants s) < cc_deadline context ->
    monotonic_now ports (S (as_instants s)) < cc_deadline context ->
    cc_deadline context - monotonic_now ports (as_instants s) <= from_millis (dr_deadline_millis (raw request)) ->
    submission_made request context s s'
      (AvailabilityRefreshOperation_new request (refresh_submit ports context request)).

Lemma submit_refresh_run request context s s1 op :
  submit_refresh request context s = (s1, Ok op) ->
  request_id request = cc_request_id context /\ submission_made request context s s1 op.
Proof.
  unfold submit_refresh. destruct (_ !=? _) eqn:Ei; [done|].
  apply negb_false_iff, bool_decide_eq_true in Ei. intros Hr. split; [done|]. revert Hr.
  unfold stm_bind at 1, ask_now. simpl. set (now := monotonic_now ports (as_instants s)).
  set (s' := {| as_admissions := _ |}). unfold is_expired.
  destruct (now >=? cc_deadline context) eqn:Ex; breflect; simpl.
  - unfold stm_bind at 1. destruct (validate_admission_run (dr_scope (raw request)) s') as (r & -> & _).
    destruct r as [[]|e]; [|done]. simpl. intros [= <- <-]. by constructor.
  - destruct (duration_since _ _ >? _) eqn:Ed; breflect; [done|]. unfold duration_since in Ed.
    unfold stm_bind at 1.
    destruct (validate_admission_run (dr_scope (raw request)) s') as (r & -> & Hr).
    destruct r as [[]|e]; [|done]. unfold stm_bind. simpl.
    destruct (monotonic_now ports (S (as_instants s)) >=? cc_deadline context) eqn:Ey; breflect; simpl;
      intros [= <- <-]; [by constructor|]. apply submission_in_time; [done| |lia|lia|lia].
    by apply Hr.
Qed.

(** C32: a refresh is answered under its own request.  If a refresh is admitted, then
    whatever its port and its channel answer, the receipt has the identifier of the
    command; it was submitted at most once, before its deadline and under the scope
    of the request; an outcome that is passed on is one of that submission, for the
    same targets, deadline and scope, which is still the current one; and once the
    scope has changed the receipt is a failure. *)
Theorem refresh_correlated request context s s1 op received later :
  submit_refresh request context s = (s1, Ok op) ->
  let (_, answer) := receipt received op later in
  let scope := dr_scope (raw request) in
  let in_time := as_submitted s1 = as_submitted s ++ [(context, request)] /\
    current_scope ports (as_admissions s) = Ok scope /\
    monotonic_now ports (S (as_instants s)) < cc_deadline context in
  cr_request_id answer = cc_request_id context /\
  (as_submitted s1 = as_submitted s \/ in_time) /\
  (forall outcome, cr_result answer = CommandResult.Completed outcome ->
     in_time /\ current_scope ports (as_admissions later) = Ok scope /\
     request_id (do_request outcome) = cc_request_id context /\
     dr_deadline_millis (raw (do_request outcome)) = dr_deadline_millis (raw request) /\
     dr_scope (raw (do_request outcome)) = scope /\
     dr_targets (raw (do_request outcome)) ≡ₚ dr_targets (raw request)) /\
  (current_scope ports (as_admissions later) <> Ok scope ->
     exists error, cr_result answer = CommandResult.Failed error).
Proof.
  intros (Hi & Hs)%submit_refresh_run. rewrite <- Hi.
  assert (ro_request op = request) as Hq by (by destruct Hs).
  assert (as_submitted s1 = as_submitted s \/
    as_submitted s1 = as_submitted s ++ [(context, request)] /\
    current_scope ports (as_admissions s) = Ok (dr_scope (raw request)) /\
    monotonic_now ports (S (as_instants s)) < cc_deadline context) as Ht
    by (destruct Hs; [by left|by right]).
  assert (ro_submission op = Rejected {| cr_request_id := request_id request;
      cr_result := CommandResult.TimedOut |} \/
    as_submitted s1 = as_submitted s ++ [(context, request)]) as Hlate.
  { destruct Hs; [left|by right]. simpl. by rewrite bool_decide_true. }
  unfold receipt. rewrite Hq.
  destruct (validate_admission_run (dr_scope (raw request)) later) as (r & -> & Hr).
  destruct r as [[]|e]; cbn [cr_request_id cr_result].
  2: { split_and!; [done|done|done|]. intros _. by eexists. }
  pose proof (proj1 Hr eq_refl) as Hc.
  set (r := match ro_submission op with Accepted _ => _ | Rejected _ => _ end).
  assert (forall outcome, cr_result r = CommandResult.Completed outcome ->
    as_submitted s1 = as_submitted s ++ [(context, request)]) as Hsub.
  { intros outcome Ho. destruct Hlate as [Hl|Hl]; [|done]. unfold r in Ho. by rewrite Hl in Ho. }
  destruct (_ !=? _) eqn:Eid; cbn [cr_request_id cr_result].
  { split_and!; [done|done|done|]. intros _. by eexists. }
  apply negb_false_iff, bool_decide_eq_true in Eid.
  destruct (cr_result r) as [outcome| | | | |] eqn:Er; cbn [cr_request_id cr_result];
    try (rewrite Er; split_and!; [done|done|done|by intros []]).
  destruct (validate_outcome_request request (do_request outcome)) as [[]|error] eqn:Ev;
    cbn [cr_request_id cr_result].
  - rewrite Er. split_and!; [done|done| |by intros []]. intros o [= <-].
    apply validate_outcome_Ok in Ev as (? & ? & ? & ?). split_and!; try done.
    + by eapply Hsub.
    + destruct Ht as [Ht|(_ & ? & _)]; [|done]. rewrite (Hsub _ eq_refl) in Ht.
      apply (f_equal length) in Ht. rewrite length_app in Ht. simpl in Ht. lia.
    + destruct Ht as [Ht|(_ & _ & ?)]; [|done]. rewrite (Hsub _ eq_refl) in Ht.
      apply (f_equal length) in Ht. rewrite length_app in Ht. simpl in Ht. lia.
  - split_and!; [done|done|done|]. intros _. by eexists.
Qed.
End Lookup.

(** ** Closed examples *)

#[local] Existing Instance sample_references.
#[local] Existing Instance sample_sha256.
#[local] Existing Instance sample_event_crates.
#[local] Existing Instance sample_key_texts.
#[local] Existing Instance sample_targets.

(** A store with one page, and a refresh that is rejected by a full mailbox. *)
Definition sample_page : AvailabilityPage AvailabilityHeadView := {|
  ap_items := [sample_head []];
  ap_continuation := AvailabilityPageContinuation.More
    (cursor_encode (sq_fingerprint sample_query) sample_position);
  ap_projection_generation := sample_u64 9 |}.
Definition sample_ports : Ports := {|
  current_scope _ := Ok sample_query_scope;
  reader_page _ := Ok sample_page;
  reader_head _ coordinate := Ok (EvidenceMissing coordinate);
  reader_version _ _ _ := Ok None;
  refresh_submit context _ := Rejected {| cr_request_id := cc_request_id context;
    cr_result := CommandResult.Rejected MailboxSaturated |};
  monotonic_now n := Z.of_nat n |}.
Definition sample_asked : Asked := {| as_admissions := 0; as_instants := 0; as_submitted := [] |}.
Definition sample_command_context (deadline : Z) : CommandContext := {|
  cc_request_id := dr_request_id (raw (sample_discovery_request 1)); cc_expected_revision := None;
  cc_deadline := deadline |}.

Lemma reads_admitted_witness :
  (read_page sample_ports sample_query sample_asked).2 = Ok sample_page.
Proof.
  apply (proj1 (reads_admitted sample_ports sample_asked)). split; [split; reflexivity|].
  split; [reflexivity|]. split; [vm_compute; discriminate|]. split; [reflexivity|].
  intros cursor [= <-]. exists sample_position. apply cursor_encode_text.
Defined.

Lemma refresh_correlated_witness :
  let (s1, r) := submit_refresh sample_ports (sample_discovery_request 1) (sample_command_context 1000)
    sample_asked in
  exists op, r = Ok op /\ length (as_submitted s1) = 1%nat /\
    cr_request_id (receipt sample_ports None op s1).2 = dr_request_id (raw (sample_discovery_request 1)).
Proof.
  destruct (submit_refresh _ _ _ _) as [s1 r] eqn:E.
  assert (is_ok r = true /\ length (as_submitted s1) = 1%nat) as [Hr Hl].
  { replace r with (s1, r).2 by reflexivity. replace s1 with (s1, r).1 at 2 by reflexivity.
    rewrite <- E. split; vm_compute; reflexivity. }
  destruct r as [op|e]; [|discriminate Hr].
  exists op. split; [reflexivity|]. split; [exact Hl|].
  pose proof (refresh_correlated sample_ports _ _ _ _ _ None s1 E) as Hc.
  destruct (receipt _ _ _ _) as [s2 answer]. destruct Hc as (Hc & _). exact Hc.
Defined.
